(* ===== verification/_CoqProject ===== *)
-Q . S2P
Prelude.v
Alu.v
MemAccess.v
Constants.v
Csr.v
Clint.v
Hart.v
Trap.v
Execute.v
Emulator.v
Safety.v
Ends.v
Boot.v
Spec.v
Refine.v
Isa.v
MemInstr.v
Traps.v
Atomics.v
CsrInstr.v
Devices.v
System.v
Cmodel.v
Libc.v
Kernels.v
Histo.v
Barrier.v
Lrsc.v
Llist.v
Seqlock.v
G3d.v
Raster.v
Cube.v
Line.v
Tty.v
Gl.v
Fire.v
Rtl.v
Image.v
Standalone.v
Lockstep.v
Quad.v
Linuxlock.v
Invariants.v
Firesim.v
Wedge.v
Uartrx.v
Double.v
Profile.v
Linuxsim.v
Profrun.v
Probes.v
Json.v
Report.v
Spmd.v
Solid.v
Wire.v
Radix.v
Regress.v
Handshake.v
Ipi.v
Watch.v
Pushes.v
Ledger.v
Storegate.v
Robjam.v
Pending.v
Ipiprobe.v
Tracer.v
Branches.v
Lines.v
Windows.v
Triggers.v
Slots.v
Park.v
