(* ===== verification/Prelude.v ===== *)
(** * Chiron: a verification library for the simulator, its harnesses and its bare-metal software

    Chiron is a four-hart RV64 core in Scala with a C++ simulation environment: a
    golden model that executes instructions one at a time, a driver around the
    Verilated core, programs that run the two in lock step or the core alone, and
    bare-metal programs that run on either. This library models the C and C++
    parts and proves what they are relied on for. A definition is translated from
    the source it is mapped to, function by function; the proofs are about these
    definitions. There is one file per component.

    ** Conventions

    Integers are [Z] with the conversions of this file ([u8] ... [s64]) where the
    C++ type wraps. Structs are records, enums are inductive types, a
    [std::vector] of 64-bit cells or bytes is [vec], small C arrays are lists.
    A C++ step is in the monad [M]: it returns, calls [exit], throws
    [std::out_of_range], or reaches undefined behaviour ([outcome]). What is not
    in this repository as C or C++ is a parameter: the generated model ([Rtl.eval]
    with the class [Model]), the nets its assertions read ([Invariants.Nets]), the
    terminal ([Hart.Console]) and what [tcgetattr], [tcsetattr] and [tcflush] do to it,
    the nets the probes read ([Watch.Netlist] and the records of each probe), files
    (their bytes, or [None]), environment variables and the wall clock.
    Every theorem with such a parameter has a witness on a concrete one
    ([Boot.queue_console], [Rtl.script_system], [Image.port_system], the echo device
    of [Uartrx]).

    ** The golden model: [sim/emulator/]

    - [Alu], [MemAccess], [Constants], [Csr], [Clint]: [hart_alu.inc] and part of
      [hart_trap.inc], [hart_memory.inc], [constants.h], [hart_csr.inc], [clint.h].
    - [Hart], [Trap], [Execute]: [hart.h] (data members, primitive accesses),
      [hart_trap.inc] with [csr_read]/[csr_write] and the interrupt delivery, and
      [hart_execute.inc]. [Execute.hart_step] is the whole step.
    - [Emulator]: [emulator.h] (four harts on one [world]), [emulator_linux.cpp]
      (the run loop), [completion.h]. [Standalone] has [main] around that loop: the raw
      mode of the terminal, and every end of the program, with the state it leaves the
      terminal in ([Standalone.standalone_terminal]).
    - [Safety]: the type invariant [hart_wf]/[world_wf]; a step of a hart with a valid
      number preserves it, does not throw and is defined. [Ends] drops the condition on
      the number, which a guest can overwrite by a CSR instruction: a step still throws
      nothing, is undefined only after that, and ends the program only at the end of a
      test image or at an atomic access outside DRAM ([System.emulator_step_safe]).
    - [Spec], [Refine], [Isa]: an independent specification of the RV64IM register
      instructions and the simulation of it by one step of the emulator, but for DIV by
      -1 of 512 dividends ([Isa.hart_step_simulates], [Isa.div_exact_iff]).
    - [MemInstr], [Traps], [Atomics], [CsrInstr], [Devices], [System]: loads and
      stores byte by byte, trap entry and return, interrupt priority, AMOs and
      LR/SC, CSR round trips, CLINT and UART, and the container.
    - [Boot] has concrete machines on which witnesses are evaluated.

    ** Bare-metal programs: [workloads/]

    - [Cmodel]: arrays, counted loops, interleavings of operations of several
      cores and when they commute. [Libc]: the run-time library, with [printf].
    - [Kernels], [Histo]: the data-parallel benchmarks; any interleaving of the
      cores computes what one core does.
    - [Barrier], [Lrsc], [Llist], [Seqlock]: the synchronisation benchmarks as step
      relations with one shared access per step; safety by rule induction,
      termination by a measure. [Pushes] has the other ways to push onto the list:
      the control of [mt-llist] and phase 2 of [mt-lrsc].
    - [Handshake], [Ipi], [Regress]: flags between harts ([mt-csdwait], [mt-spinwait]),
      software interrupts ([mt-ipi], with a handler that may run late), and two
      regressions of one hart ([mt-divburst], [mt-uartrx]).
    - [G3d], [Raster], [Cube], [Line], [Tty], [Gl], [Fire]: the graphics library
      and the demos, down to the bytes a terminal is sent.
    - [Spmd] composes the barrier with the work of the harts between barriers, and
      [Solid] is [mt-solid.c] as such a program: under every schedule it sends the
      frames one hart alone would send ([Solid.solid_output_sequential]), and under
      every schedule that gives all harts turns they keep coming. [Wire] does the
      same for [mt-cube.c]. [Radix] is [mt-radix.c] as a program in phases: under every
      schedule its key array ends sorted ([Radix.radix_sorts]) and it reports so.

    ** The core and its harnesses: [sim/rtl/], [sim/harness/]

    - [Rtl]: the driver [simulator] of [rtl_model.h]. [Image]: argument parsing,
      reset and image streaming ([args.h], [image.h], [Completion::parse]); the programmer
      port of the memory, with its latch, is an interface ([Image.ProgrammerPort]).
    - [Lockstep], [Quad], [Linuxlock]: [lockstep.cpp], [lockstep_isa.cpp],
      [lockstep_quad.cpp], [lockstep_linux.cpp]. They compose [Rtl] and [Emulator].
      What is proved is what a pass means: the states agreed at every commit
      compared, with the exact patches a harness may have made. The Linux harness
      is proved to judge as the four-hart one ([Linuxlock.linux_commit_as_quad]).
    - [Invariants]: the detectors of [invariants.h], against a definition over
      whole traces.
    - [Double], [Profile], [Profrun]: binary64 arithmetic on the [SpecFloat] of the
      Standard Library, the two profilers, and the programs [profile.cpp] and
      [profile_quad.cpp]. [Profrun.quad_wrong_result_fails] goes from the [verify]
      of a benchmark through its UART report to the exit code.
    - [Json], [Report]: what the profilers print, to the byte. A JSON parser, written
      from the grammar, reads the documents back ([Report.quad_json_faithful]), and
      a printed double is within half a unit of its last digit ([Json.fixed_reads_near]).
    - [Linuxsim]: [linux_sim.cpp] and [simlog.h]: checkpoints, console, and the restored
      run, which goes on as the run that wrote the checkpoint but for what a checkpoint
      does not hold ([Linuxsim.resume_continues]).
    - [Firesim], [Wedge], [Uartrx]: [fire.cpp], [linux_sim_trace.cpp],
      [seqlock_wedge_trace.cpp], [uartrx_test.cpp].
    - [Probes]: five of [sim/harness/probes/] that compare, scan or classify.
    - [Watch] has what the other probes share: the loop that looks at the model once per
      cycle, rings of events, a PC that stands still, bit fields of wide signals.
      [Ledger], [Storegate], [Robjam], [Pending], [Ipiprobe] judge a boot of Linux: what
      they conclude is stated on the trace of the run, event by event
      ([Storegate.storegate_verdict]).
    - [Tracer], [Branches], [Lines], [Windows], [Triggers], [Slots], [Park]: the probes
      that follow a signal, a branch, a cache line, a ROB slot or a parked hart. The
      theorems say at which cycles they print, and what of the trace the lines show.

    ** Bounds and fuel

    Loops over a C++ counter are recursions over it and need no fuel. The others
    end in [None] when their fuel is used up, and the theorems show it is not:
    - [Libc.int_digits] = 10, the digits of an [int] ([Libc.digits_loop_some]);
    - [G3d.isqrt]: 17, since the loops shift a bit from 2^30 right by two
      ([G3d.isqrt_start_bit], [G3d.isqrt_digits]);
    - [Raster.line_loop]: one more than the larger distance
      ([Line.g3d_line_draws], for coordinates of magnitude at most 2^27);
    - [Tty.sub_loop]: 3 and 11, for the hundreds and tens of a byte;
    - the two inner loops of [GL_line]: 2 ([Gl.gl_line_on_screen]).
    The loops of the programs:
    - [STEP_TIMEOUT] is the source's macro, a parameter;
    - the lock-step loops take the number of rounds as an argument and end in
      [OutOfFuel] when it is used up; the theorems about a pass hold for every
      number. [Quad.catch_up] has the source's own bound of 32;
    - [Linuxsim.lx_loop] says [None] when it still runs, and
      [Linuxsim.bounded_run_ends] how many iterations suffice with [--max-cycles], and why
      the last one is the last;
    - [Firesim], [Profrun], [Uartrx], [Wedge.seqlock_main] recurse over
      [--max-cycles] or [--timeout];
    - the probes recurse over the cycles they look at, last minus first
      ([Watch.pre_loop], [Watch.post_loop], [Tracer.trace_run], [Windows.window_run]);
      [Park.park_loop] has its own bound of 800,000,000 cycles, and every step of it
      advances the clock ([Park.div_park_exact]);
    - [Json.parse_value] takes the length of the text, [Json.dec_digits] the number of
      bits of the number ([Json.dec_spec]); [Probes.scan] the size of memory.
    - the step relations of [Barrier], [Lrsc], [Llist], [Pushes], [Seqlock], [Handshake]
      and [Ipi], and the programs of [Spmd], have no fuel;
      [Barrier.barrier_terminates] bounds the rounds a barrier takes by a measure.

    ** What is not modelled

    The Scala sources and the Verilated model generated from them (a parameter);
    [workloads/demos/common/encoding.h] (macros and CSR accessors the demos do not
    use, and inline assembly); [crt.S] and the other assembly; the texts of diagnostics
    (the values printed are modelled, the words between them only where a theorem is
    about them); wall-clock figures; signal handlers (their effect is a parameter or a
    branch); generated data headers; the Python and Make scripts; the benchmarks of
    interrupts and coherency ([mt-crosscall], [mt-divirq], [mt-fencei], [mt-icoh],
    [mt-illegal], [mt-ipimux], [mt-ipitmr], [mt-ipiwfi], [mt-lrscirq]), which are trap
    handlers and instruction sequences in assembly aimed at the state of the pipeline and
    of the caches, which no model here has; and [mt-stress], which is generated. *)

From Stdlib Require Export ZArith Lia List Bool.
From stdpp Require Export base gmap list.
From coqutil Require Export Datatypes.RecordSetters.
Export OCamlLikeNotations.

Open Scope Z_scope.

#[global] Arguments constant {E} newValue _ /.
#[global] Arguments apply_update {R E} !u _ /.

(** ** Machine integers

    A C++ integer of width [w] is a [Z]; the functions below are the
    conversions to the fixed-width types (wrap-around for unsigned types,
    two's complement for signed ones). *)

Definition u8 (z : Z) : Z := z mod 0x100.
Definition u16 (z : Z) : Z := z mod 0x10000.
Definition u32 (z : Z) : Z := z mod 0x100000000.
Definition u64 (z : Z) : Z := z mod 0x10000000000000000.
Definition u128 (z : Z) : Z := z mod 0x100000000000000000000000000000000.

Definition s32 (z : Z) : Z :=
  if u32 z <? 0x80000000 then u32 z else u32 z - 0x100000000.
Definition s64 (z : Z) : Z :=
  if u64 z <? 0x8000000000000000 then u64 z else u64 z - 0x10000000000000000.

Definition is_u8 (z : Z) : Prop := 0 <= z < 0x100.
Definition is_u32 (z : Z) : Prop := 0 <= z < 0x100000000.
Definition is_u64 (z : Z) : Prop := 0 <= z < 0x10000000000000000.
Definition is_s32 (z : Z) : Prop := -0x80000000 <= z < 0x80000000.
Definition is_s64 (z : Z) : Prop := -0x8000000000000000 <= z < 0x8000000000000000.

Create HintDb word.
Create Rewrite HintDb word.

Ltac unfold_words :=
  unfold is_u8, is_u32, is_u64, is_s32, is_s64, s32, s64, u8, u16, u32, u64, u128 in *.

(** [lia] with [Z.div] and [Z.modulo] by constants replaced by their Euclidean equations. *)
Ltac zlia := Z.to_euclidean_division_equations; lia.

Ltac case_bools :=
  repeat match goal with
    | |- context [?a <? ?b] => destruct (Z.ltb_spec a b)
    | |- context [?a <=? ?b] => destruct (Z.leb_spec a b)
    | |- context [?a =? ?b] => destruct (Z.eqb_spec a b)
    end.

(** The word solver: unfolds the conversions, splits on the sign tests, calls [lia]. *)
Ltac word := unfold_words; case_bools; zlia.

Lemma u8_range z : is_u8 (u8 z).
Proof. word. Qed.
Lemma u32_range z : is_u32 (u32 z).
Proof. word. Qed.
Lemma u64_range z : is_u64 (u64 z).
Proof. word. Qed.
Lemma s32_range z : is_s32 (s32 z).
Proof. word. Qed.
Lemma s64_range z : is_s64 (s64 z).
Proof. word. Qed.

Lemma u64_id z : is_u64 z -> u64 z = z.
Proof. intros. unfold u64. apply Z.mod_small. exact H. Qed.
Lemma u32_id z : is_u32 z -> u32 z = z.
Proof. intros. unfold u32. apply Z.mod_small. exact H. Qed.
Lemma s64_id z : is_s64 z -> s64 z = z.
Proof. intros. word. Qed.
Lemma s32_id z : is_s32 z -> s32 z = z.
Proof. intros. word. Qed.

Lemma u64_u64 z : u64 (u64 z) = u64 z.
Proof. apply u64_id, u64_range. Qed.
Lemma u64_s64 z : u64 (s64 z) = u64 z.
Proof. word. Qed.
Lemma s64_u64 z : s64 (u64 z) = s64 z.
Proof. unfold s64. rewrite u64_u64. reflexivity. Qed.
Lemma u32_s32 z : u32 (s32 z) = u32 z.
Proof. word. Qed.
Lemma u64_add_l a b : u64 (u64 a + b) = u64 (a + b).
Proof. unfold u64. apply Zplus_mod_idemp_l. Qed.
Lemma u64_add_r a b : u64 (a + u64 b) = u64 (a + b).
Proof. unfold u64. apply Zplus_mod_idemp_r. Qed.
Lemma u64_sub_l a b : u64 (u64 a - b) = u64 (a - b).
Proof. unfold u64. apply Zminus_mod_idemp_l. Qed.

#[export] Hint Resolve u8_range u32_range u64_range s32_range s64_range : word.
#[export] Hint Rewrite u64_u64 u64_s64 s64_u64 u64_add_l u64_add_r u64_sub_l : word.

(** ** Bit operations *)

Lemma land_ones_mod x n m : 0 <= n -> m = 2 ^ n - 1 -> Z.land x m = x mod 2 ^ n.
Proof. intros Hn ->. rewrite <- Z.land_ones by lia. f_equal. rewrite Z.ones_equiv. lia. Qed.

Lemma shiftr_div x n : 0 <= n -> Z.shiftr x n = x / 2 ^ n.
Proof. intros. apply Z.shiftr_div_pow2. lia. Qed.

Lemma shiftl_mul x n : 0 <= n -> Z.shiftl x n = x * 2 ^ n.
Proof. intros. apply Z.shiftl_mul_pow2. lia. Qed.

(** Rewrites every [Z.land] with a mask of low ones, and every shift by a
    constant, into arithmetic on which [lia] works. *)
Ltac mask_to_mod :=
  repeat match goal with
    | |- context [Z.land ?x (Zpos ?p)] =>
        let n := eval vm_compute in (Z.log2 (Zpos p) + 1) in
        let q := eval vm_compute in (2 ^ n) in
        rewrite (land_ones_mod x n (Zpos p) ltac:(lia) eq_refl);
        change (2 ^ n) with q
    | |- context [Z.shiftr ?x (Zpos ?n)] =>
        let q := eval vm_compute in (2 ^ (Zpos n)) in
        rewrite (shiftr_div x (Zpos n) ltac:(lia)); change (2 ^ (Zpos n)) with q
    | |- context [Z.shiftl ?x (Zpos ?n)] =>
        let q := eval vm_compute in (2 ^ (Zpos n)) in
        rewrite (shiftl_mul x (Zpos n) ltac:(lia)); change (2 ^ (Zpos n)) with q
    | |- context [Z.shiftr ?x 0] => rewrite (Z.shiftr_0_r x)
    | |- context [Z.shiftl ?x 0] => rewrite (Z.shiftl_0_r x)
    end.

Lemma testbit_bound x n i : 0 <= x < 2 ^ n -> n <= i -> Z.testbit x i = false.
Proof.
  intros Hx Hi. destruct (Z.eq_dec x 0) as [->|]; [apply Z.testbit_0_l|].
  apply Z.bits_above_log2; [lia|]. apply Z.log2_lt_pow2; [lia|].
  destruct (Z.le_gt_cases 0 n) as [Hn|Hn].
  - eapply Z.lt_le_trans; [apply Hx|]. apply Z.pow_le_mono_r; lia.
  - rewrite Z.pow_neg_r in Hx by lia. lia.
Qed.

(** Numbers bounded by a power of two stay bounded under the bit operations. *)
Lemma bits_bound x n : 0 <= n -> 0 <= x ->
  (forall i, n <= i -> Z.testbit x i = false) -> 0 <= x < 2 ^ n.
Proof.
  intros Hn Hx Hbits. split; [lia|].
  destruct (Z.eq_dec x 0) as [->|]; [apply Z.pow_pos_nonneg; lia|].
  apply Z.log2_lt_pow2; [lia|].
  destruct (Z.lt_ge_cases (Z.log2 x) n) as [|Hge]; [assumption|].
  specialize (Hbits _ Hge). rewrite Z.bit_log2 in Hbits by lia. discriminate.
Qed.

Lemma lor_range x y n : 0 <= n -> 0 <= x < 2 ^ n -> 0 <= y < 2 ^ n -> 0 <= Z.lor x y < 2 ^ n.
Proof.
  intros. apply bits_bound; [lia|apply Z.lor_nonneg; lia|].
  intros i Hi. rewrite Z.lor_spec, !(testbit_bound _ n) by assumption. reflexivity.
Qed.

Lemma lxor_range x y n : 0 <= n -> 0 <= x < 2 ^ n -> 0 <= y < 2 ^ n -> 0 <= Z.lxor x y < 2 ^ n.
Proof.
  intros. apply bits_bound; [lia|apply Z.lxor_nonneg; lia|].
  intros i Hi. rewrite Z.lxor_spec, !(testbit_bound _ n) by assumption. reflexivity.
Qed.

Lemma land_range x y n : 0 <= n -> 0 <= x < 2 ^ n -> 0 <= Z.land x y < 2 ^ n.
Proof.
  intros. apply bits_bound; [lia|apply Z.land_nonneg; lia|].
  intros i Hi. rewrite Z.land_spec, (testbit_bound x n) by assumption. reflexivity.
Qed.

Lemma lor_u64 x y : is_u64 x -> is_u64 y -> is_u64 (Z.lor x y).
Proof. apply (lor_range x y 64). lia. Qed.
Lemma lxor_u64 x y : is_u64 x -> is_u64 y -> is_u64 (Z.lxor x y).
Proof. apply (lxor_range x y 64). lia. Qed.
Lemma land_u64 x y : is_u64 x -> is_u64 (Z.land x y).
Proof. apply (land_range x y 64). lia. Qed.
Lemma land_u64_r x y : is_u64 y -> is_u64 (Z.land x y).
Proof. rewrite Z.land_comm. apply land_u64. Qed.
Lemma shiftr_u64 x n : 0 <= n -> is_u64 x -> is_u64 (Z.shiftr x n).
Proof.
  intros Hn Hx. rewrite shiftr_div by lia. assert (0 < 2 ^ n) by (apply Z.pow_pos_nonneg; lia).
  unfold is_u64 in *. split; [apply Z.div_pos; lia|]. apply Z.div_lt_upper_bound; nia.
Qed.
#[export] Hint Resolve lor_u64 lxor_u64 land_u64 land_u64_r shiftr_u64 : word.

(** Adding two numbers with no common bit is their bitwise or. *)
Lemma add_disjoint a b : Z.land a b = 0 -> a + b = Z.lor a b.
Proof. intros. rewrite <- Z.lxor_lor by assumption. apply Z.add_nocarry_lxor. assumption. Qed.

Lemma land_add d a b : Z.land a b = 0 -> Z.land d a + Z.land d b = Z.land d (Z.lor a b).
Proof.
  intros H. rewrite Z.land_lor_distr_r. apply add_disjoint. apply Z.bits_inj'. intros i Hi.
  apply (f_equal (fun x => Z.testbit x i)) in H. rewrite Z.land_spec, Z.bits_0 in *.
  rewrite !Z.land_spec. destruct (Z.testbit d i), (Z.testbit a i), (Z.testbit b i); auto.
Qed.

(** ** The outcome monad

    A step of the C++ program returns normally, ends the process with
    [exit(code)], lets a [std::out_of_range] escape, or reaches undefined
    behaviour (an unchecked [std::vector::operator[]] out of range). *)

Inductive outcome (S A : Type) : Type :=
| Ok (a : A) (s : S)
| Exit (code : Z) (s : S)
| Throw (s : S)
| UB.
Arguments Ok {S A} a s.
Arguments Exit {S A} code s.
Arguments Throw {S A} s.
Arguments UB {S A}.

Definition M (S A : Type) : Type := S -> outcome S A.

Section Monad.
Context {S : Type}.

Definition ret {A} (a : A) : M S A := fun s => Ok a s.
Definition bind {A B} (m : M S A) (f : A -> M S B) : M S B := fun s =>
  match m s with
  | Ok a s' => f a s'
  | Exit c s' => Exit c s'
  | Throw s' => Throw s'
  | UB => UB
  end.
Definition gets {A} (f : S -> A) : M S A := fun s => Ok (f s) s.
Definition modify (f : S -> S) : M S unit := fun s => Ok tt (f s).
Definition exit_with {A} (code : Z) : M S A := fun s => Exit code s.
Definition throw {A} : M S A := fun s => Throw s.
Definition undefined {A} : M S A := fun _ => UB.
Definition when (b : bool) (m : M S unit) : M S unit := if b then m else ret tt.
(** A total state transformer that also returns a value. *)
Definition stateful {A} (f : S -> A * S) : M S A := fun s => Ok (f s).1 (f s).2.

(** [wp m Q s]: from [s], [m] neither throws nor reaches undefined
    behaviour, and if it returns then [Q] holds of its result. *)
Definition wp {A} (m : M S A) (Q : A -> S -> Prop) (s : S) : Prop :=
  match m s with
  | Ok a s' => Q a s'
  | Exit _ _ => True
  | Throw _ | UB => False
  end.

Lemma wp_ret {A} (a : A) (Q : A -> S -> Prop) s : Q a s -> wp (ret a) Q s.
Proof. exact id. Qed.

Lemma wp_bind {A B} (m : M S A) (f : A -> M S B) Q s :
  wp m (fun a s' => wp (f a) Q s') s -> wp (bind m f) Q s.
Proof. unfold wp, bind. destruct (m s); auto. Qed.

Lemma wp_mono {A} (m : M S A) (Q R : A -> S -> Prop) s :
  (forall a s', Q a s' -> R a s') -> wp m Q s -> wp m R s.
Proof. unfold wp. destruct (m s); auto. Qed.

Lemma wp_gets {A} (f : S -> A) (Q : A -> S -> Prop) s : Q (f s) s -> wp (gets f) Q s.
Proof. exact id. Qed.

Lemma wp_modify (f : S -> S) (Q : unit -> S -> Prop) s : Q tt (f s) -> wp (modify f) Q s.
Proof. exact id. Qed.

Lemma wp_exit {A} code (Q : A -> S -> Prop) s : wp (exit_with code) Q s.
Proof. exact I. Qed.

Lemma wp_when b (m : M S unit) Q s :
  (b = true -> wp m Q s) -> (b = false -> Q tt s) -> wp (when b m) Q s.
Proof. destruct b; cbn; auto. Qed.

Lemma wp_if {A} (b : bool) (m n : M S A) Q s :
  (b = true -> wp m Q s) -> (b = false -> wp n Q s) -> wp (if b then m else n) Q s.
Proof. destruct b; auto. Qed.

Lemma bind_inv {A B} (m : M S A) (f : A -> M S B) s b s' :
  bind m f s = Ok b s' -> exists a s1, m s = Ok a s1 /\ f a s1 = Ok b s'.
Proof. unfold bind. destruct (m s) as [a s1| | |]; intros Heq; try discriminate. eauto. Qed.

Lemma bind_ok {A B} (m : M S A) (f : A -> M S B) s a s' :
  m s = Ok a s' -> bind m f s = f a s'.
Proof. unfold bind. intros ->. reflexivity. Qed.
End Monad.

Declare Scope prog_scope.
Delimit Scope prog_scope with prog.
Notation "x <- m ;; k" := (bind m (fun x => k))
  (at level 100, m at next level, right associativity) : prog_scope.
Notation "m ;;; k" := (bind m (fun _ => k))
  (at level 100, right associativity) : prog_scope.

(** ** [std::vector<uint64_t>] of a fixed size

    The cells hold the values written since value-initialisation; the others are 0. *)

Record vec := mkvec { vec_size : Z; vec_cells : gmap Z Z }.

Definition vec_get (v : vec) (i : Z) : Z := default 0 (vec_cells v !! i).
Definition vec_in (v : vec) (i : Z) : bool := (0 <=? i) && (i <? vec_size v).
Definition vec_put (v : vec) (i x : Z) : vec := mkvec (vec_size v) (<[i := x]> (vec_cells v)).

(** Every cell is a [uint64_t]. *)
Definition vec_wf (v : vec) : Prop := forall i, is_u64 (vec_get v i).

Lemma vec_get_put v i x j : vec_get (vec_put v i x) j = if decide (i = j) then x else vec_get v j.
Proof. unfold vec_get, vec_put; cbn. rewrite lookup_insert. case_decide; reflexivity. Qed.

Lemma vec_put_wf v i x : vec_wf v -> is_u64 x -> vec_wf (vec_put v i x).
Proof. intros Hv Hx j. rewrite vec_get_put. case_decide; auto. Qed.
#[export] Hint Resolve vec_put_wf : word.
