(* ===== verification/Alu.v ===== *)
(** * ALU helpers: [sim/emulator/hart_alu.inc] and the sign conversions of [hart_trap.inc]

    [sign_extend], [signed_value], [signed_value32], [divi] and [divi32] as the
    emulator computes them, including the comparison of an integer operand with
    the [double] value of [-pow(2,63)], and the theorems that relate them to
    two's-complement arithmetic and to the division rules of the RISC-V M extension. *)

From S2P Require Import Prelude.

(** ** Definitions *)

(** [sign_extend<uint64_t>(x, bits)] *)
Definition sign_extend (x bits : Z) : Z :=
  let m := u64 (Z.shiftl 1 (bits - 1)) in
  u64 (Z.lxor x m - m).

(** [signed_value]: [uint64_t] to [int64_t] *)
Definition signed_value (x : Z) : Z :=
  if Z.land (Z.shiftr x 63) 1 =? 1
  then s64 (u64 (Z.lxor x (Z.shiftl 1 63) - Z.shiftl 1 63))
  else s64 x.

(** [signed_value32]: the low half of a [uint64_t] to [int32_t] *)
Definition signed_value32 (x : Z) : Z :=
  let y := u32 (Z.land x 0xFFFFFFFF) in
  if Z.land (Z.shiftr y 31) 1 =? 1
  then s32 (u64 (Z.lxor y (Z.shiftl 1 31) - Z.shiftl 1 31))
  else s32 y.

(** Conversion of an integer to [double]: round to nearest, ties to even, to a
    53-bit significand (the result is again an integer in the ranges used here). *)
Definition round53 (n : Z) : Z :=
  let e := Z.log2 n - 52 in
  if e <=? 0 then n
  else
    let q := n / 2 ^ e in
    let r := n mod 2 ^ e in
    let half := 2 ^ (e - 1) in
    let q' := if (r <? half) || ((r =? half) && Z.even q) then q else q + 1 in
    q' * 2 ^ e.
Definition to_double (z : Z) : Z := Z.sgn z * round53 (Z.abs z).

(** The two integer types at which the division templates are instantiated,
    with the conversion to the type. *)
Inductive ctype := Signed | Unsigned.
Definition conv64 (t : ctype) (z : Z) : Z := match t with Signed => s64 z | Unsigned => u64 z end.
Definition conv32 (t : ctype) (z : Z) : Z := match t with Signed => s32 z | Unsigned => u32 z end.

(** [divi<T>(num1, num2, s)]; [s] is 0 for DIV, 1 for DIVU, 2 for REM, 3 for REMU.
    The test [num1 == (-pow(2ull, 63))] converts [num1] to [double]. *)
Definition divi (T : ctype) (num1 num2 s : Z) : Z :=
  if num2 =? 0 then
    if s =? 0 then conv64 T (-1)
    else if s =? 1 then conv64 T 0xFFFFFFFFFFFFFFFF
    else if s =? 2 then num1
    else if s =? 3 then num1
    else conv64 T (-1)
  else if (to_double num1 =? - 2 ^ 63) && (num2 =? conv64 T (-1)) then
    if s =? 0 then conv64 T (- 2 ^ 63)
    else if s =? 2 then 0
    else conv64 T (-1)
  else if s =? 0 then conv64 T (Z.quot (s64 num1) (s64 num2))
  else if s =? 1 then Z.quot num1 num2
  else if s =? 2 then conv64 T (Z.rem (s64 num1) (s64 num2))
  else if s =? 3 then Z.rem num1 num2
  else conv64 T (-1).

(** [divi32<T>(num1, num2, s)] *)
Definition divi32 (T : ctype) (num1 num2 s : Z) : Z :=
  if num2 =? 0 then
    if s =? 0 then conv32 T (-1)
    else if s =? 1 then conv32 T 0xFFFFFFFF
    else if s =? 2 then num1
    else if s =? 3 then num1
    else conv32 T (-1)
  else if (to_double num1 =? - 2 ^ 31) && (num2 =? conv32 T (-1)) then
    if s =? 0 then conv32 T (- 2 ^ 31)
    else if s =? 2 then 0
    else conv32 T (-1)
  else if s =? 0 then conv32 T (Z.quot (s32 num1) (s32 num2))
  else if s =? 1 then Z.quot num1 num2
  else if s =? 2 then conv32 T (Z.rem (s32 num1) (s32 num2))
  else if s =? 3 then Z.rem num1 num2
  else conv32 T (-1).

(** ** Division as the M extension defines it *)

Definition riscv_div (a b : Z) : Z :=
  if b =? 0 then -1 else if (a =? -2 ^ 63) && (b =? -1) then -2 ^ 63 else Z.quot a b.
Definition riscv_rem (a b : Z) : Z :=
  if b =? 0 then a else if (a =? -2 ^ 63) && (b =? -1) then 0 else Z.rem a b.
Definition riscv_divu (a b : Z) : Z := if b =? 0 then 2 ^ 64 - 1 else a / b.
Definition riscv_remu (a b : Z) : Z := if b =? 0 then a else a mod b.
Definition riscv_divw (a b : Z) : Z :=
  if b =? 0 then -1 else if (a =? -2 ^ 31) && (b =? -1) then -2 ^ 31 else Z.quot a b.
Definition riscv_remw (a b : Z) : Z :=
  if b =? 0 then a else if (a =? -2 ^ 31) && (b =? -1) then 0 else Z.rem a b.
Definition riscv_divuw (a b : Z) : Z := if b =? 0 then 2 ^ 32 - 1 else a / b.
Definition riscv_remuw (a b : Z) : Z := if b =? 0 then a else a mod b.

(** ** Sign conversions *)

Lemma lxor_pow2 x k : 0 <= k ->
  Z.lxor x (2 ^ k) = if Z.testbit x k then x - 2 ^ k else x + 2 ^ k.
Proof.
  intros Hk. destruct (Z.testbit x k) eqn:E.
  - rewrite Z.sub_nocarry_ldiff.
    + apply Z.bits_inj'. intros i Hi. rewrite Z.lxor_spec, Z.ldiff_spec.
      destruct (Z.eq_dec i k) as [->|]; [rewrite E, Z.pow2_bits_true by lia; reflexivity|].
      rewrite Z.pow2_bits_false by lia. destruct (Z.testbit x i); reflexivity.
    + apply Z.bits_inj'. intros i Hi. rewrite Z.ldiff_spec, Z.bits_0.
      destruct (Z.eq_dec i k) as [->|]; [rewrite E; apply andb_false_r|].
      rewrite Z.pow2_bits_false by lia. reflexivity.
  - symmetry. apply Z.add_nocarry_lxor. apply Z.bits_inj'. intros i Hi.
    rewrite Z.land_spec, Z.bits_0.
    destruct (Z.eq_dec i k) as [->|]; [rewrite E; reflexivity|].
    rewrite Z.pow2_bits_false by lia. apply andb_false_r.
Qed.

Lemma testbit_top x k : 0 <= k -> 0 <= x < 2 ^ (k + 1) -> Z.testbit x k = (2 ^ k <=? x).
Proof.
  intros Hk Hx. rewrite Z.pow_add_r in Hx by lia.
  assert (0 < 2 ^ k) by (apply Z.pow_pos_nonneg; lia).
  rewrite Z.testbit_eqb by lia.
  destruct (Z.leb_spec (2 ^ k) x).
  - replace (x / 2 ^ k) with 1; [reflexivity|].
    apply Z.div_unique with (x - 2 ^ k); lia.
  - rewrite Z.div_small by lia. reflexivity.
Qed.

(** [sign_extend] of an in-range field is its two's-complement reading. *)
Lemma sign_extend_spec x bits : 0 < bits <= 64 -> 0 <= x < 2 ^ bits ->
  sign_extend x bits = u64 (if x <? 2 ^ (bits - 1) then x else x - 2 ^ bits).
Proof.
  intros Hb Hx. unfold sign_extend.
  rewrite Z.shiftl_1_l.
  assert (0 < 2 ^ (bits - 1)) by (apply Z.pow_pos_nonneg; lia).
  assert (Hle : 2 ^ (bits - 1) <= 2 ^ 63) by (apply Z.pow_le_mono_r; lia).
  assert (Hp : 2 ^ bits = 2 * 2 ^ (bits - 1))
    by (rewrite <- Z.pow_succ_r by lia; f_equal; lia).
  rewrite (u64_id (2 ^ (bits - 1))) by (unfold is_u64; lia).
  rewrite lxor_pow2, testbit_top by (rewrite ?Z.sub_add; lia).
  rewrite Z.leb_antisym. destruct (Z.ltb_spec x (2 ^ (bits - 1))); cbn; f_equal; lia.
Qed.

Lemma sign_extend_u64 x bits : is_u64 (sign_extend x bits).
Proof. apply u64_range. Qed.
#[export] Hint Resolve sign_extend_u64 : word.

Lemma signed_value_s64 x : is_u64 x -> signed_value x = s64 x.
Proof.
  intros Hx. unfold signed_value. rewrite Z.shiftl_1_l, lxor_pow2, (testbit_top x 63) by (auto; lia).
  mask_to_mod. change (2 ^ 63) with 0x8000000000000000. word.
Qed.

Lemma signed_value32_s32 x : 0 <= x -> signed_value32 x = s32 x.
Proof.
  intros Hx. unfold signed_value32. mask_to_mod. fold (u32 x).
  assert (H := u32_range x). unfold u32 at 1 2 3 4. rewrite Z.mod_mod by lia. fold (u32 x).
  change (1 * 2147483648) with (2 ^ 31).
  rewrite lxor_pow2, (testbit_top (u32 x) 31) by (auto; lia).
  change (2 ^ 31) with 0x80000000. word.
Qed.

(** ** Conversion to [double] *)

Lemma round53_exact n : 0 <= n < 2 ^ 53 -> round53 n = n.
Proof.
  intros Hn. unfold round53.
  assert (Z.log2 n <= 52).
  { destruct (Z.eq_dec n 0) as [->|]; [cbn; lia|]. enough (Z.log2 n < 53) by lia.
    apply Z.log2_lt_pow2; lia. }
  destruct (Z.leb_spec (Z.log2 n - 52) 0); [reflexivity|lia].
Qed.

Lemma round53_le n e : 0 <= n -> e = Z.log2 n - 52 -> 0 < e -> round53 n <= 2 ^ (e + 53).
Proof.
  intros Hn He Hpos. unfold round53. rewrite <- He.
  destruct (Z.leb_spec e 0); [lia|].
  assert (Hp : 0 < 2 ^ e) by (apply Z.pow_pos_nonneg; lia).
  assert (Hlt : n < 2 ^ (e + 53)).
  { destruct (Z.eq_dec n 0) as [->|]; [apply Z.pow_pos_nonneg; lia|].
    apply Z.log2_lt_pow2; lia. }
  rewrite Z.pow_add_r in * by lia.
  assert (n / 2 ^ e < 2 ^ 53) by (apply Z.div_lt_upper_bound; lia).
  rewrite (Z.mul_comm (2 ^ e)). apply Z.mul_le_mono_nonneg_r; [lia|].
  destruct (_ || _); lia.
Qed.

(** Which magnitudes round to exactly [2^63]. *)
Lemma round53_pow63 n : 0 <= n <= 2 ^ 63 -> (round53 n = 2 ^ 63 <-> 2 ^ 63 - 512 <= n).
Proof.
  intros Hn.
  assert (Hlog : n = 0 \/ Z.log2 n < 62 \/ 2 ^ 62 <= n < 2 ^ 63 \/ n = 2 ^ 63).
  { destruct (Z.eq_dec n 0); [auto|]. right.
    destruct (Z.lt_ge_cases n (2 ^ 62)); [left; apply Z.log2_lt_pow2; lia|]. right. lia. }
  destruct Hlog as [->|[Hlog|[Hlog| -> ]]]; [vm_compute; split; congruence| | |vm_compute; split; congruence].
  - assert (n < 2 ^ 62).
    { destruct (Z.eq_dec n 0) as [->|]; [lia|]. apply Z.log2_lt_pow2; lia. }
    assert (round53 n < 2 ^ 63); [|lia].
    destruct (Z.le_gt_cases (Z.log2 n - 52) 0) as [He|He].
    + unfold round53. destruct (Z.leb_spec (Z.log2 n - 52) 0); lia.
    + pose proof (round53_le n _ ltac:(lia) eq_refl He) as Hle.
      eapply Z.le_lt_trans; [exact Hle|]. apply Z.pow_lt_mono_r; lia.
  - assert (Z.log2 n = 62) as Hl.
    { apply Z.log2_unique; [lia|]. change (62 + 1) with 63. lia. }
    unfold round53. rewrite Hl. change (62 - 52) with 10. cbn [Z.leb Z.compare].
    change (2 ^ 10) with 1024. change (2 ^ (10 - 1)) with 512.
    pose proof (Z.div_mod n 1024 ltac:(lia)). pose proof (Z.mod_pos_bound n 1024 ltac:(lia)).
    assert (n / 1024 <= 2 ^ 53 - 1) by (enough (n / 1024 < 2 ^ 53) by lia; apply Z.div_lt_upper_bound; lia).
    destruct (Z.eq_dec (n / 1024) (2 ^ 53 - 1)) as [Eq|Ne].
    + rewrite Eq in *. change (Z.even (2 ^ 53 - 1)) with false. rewrite andb_false_r, orb_false_r.
      destruct (Z.ltb_spec (n mod 1024) 512); lia.
    + destruct (_ || _); lia.
Qed.

Lemma to_double_exact z : - 2 ^ 53 < z < 2 ^ 53 -> to_double z = z.
Proof. intros. unfold to_double. rewrite round53_exact by lia. rewrite Z.mul_comm. apply Z.abs_sgn. Qed.

(** The [double] test that guards the overflow case accepts the 513 most negative dividends. *)
Lemma to_double_min z : is_s64 z -> (to_double z =? - 2 ^ 63) = (z <=? - 2 ^ 63 + 512).
Proof.
  unfold is_s64. intros Hz.
  pose proof (round53_pow63 (Z.abs z) ltac:(lia)) as H.
  assert (0 <= round53 (Z.abs z)).
  { unfold round53. destruct (_ <=? 0); [lia|].
    assert (0 < 2 ^ (Z.log2 (Z.abs z) - 52) \/ 2 ^ (Z.log2 (Z.abs z) - 52) = 0) by
      (destruct (Z.le_gt_cases 0 (Z.log2 (Z.abs z) - 52));
       [left; apply Z.pow_pos_nonneg; lia | right; apply Z.pow_neg_r; lia]).
    apply Z.mul_nonneg_nonneg; [|lia].
    assert (0 <= Z.abs z / 2 ^ (Z.log2 (Z.abs z) - 52)).
    { destruct H0 as [Hpos|Hz0]; [apply Z.div_pos; lia|rewrite Hz0, Z.div_0_r; lia]. }
    destruct (_ || _); lia. }
  apply Bool.eq_iff_eq_true. rewrite Z.eqb_eq, Z.leb_le. unfold to_double.
  destruct (Z.lt_trichotomy z 0) as [Hs|[->|Hs]].
  - rewrite Z.sgn_neg by lia. rewrite Z.abs_neq in H by lia. rewrite Z.abs_neq by lia. lia.
  - vm_compute. split; intros; congruence.
  - rewrite Z.sgn_pos by lia. lia.
Qed.

(** ** The division helpers against the M extension *)

(** DIV agrees with the M extension except when the divisor is -1 and the
    dividend is one of the 512 values just above [INT64_MIN]. *)
Lemma divi_div_iff a b : is_s64 a -> is_s64 b ->
  (divi Signed a b 0 = riscv_div a b <-> ~ (b = -1 /\ - 2 ^ 63 < a <= - 2 ^ 63 + 512)).
Proof.
  intros Ha Hb. unfold divi, riscv_div. rewrite to_double_min by assumption.
  change (0 =? 0) with true. cbn [conv64].
  change (s64 (-1)) with (-1). change (s64 (-2 ^ 63)) with (-2 ^ 63).
  rewrite !(s64_id a), !(s64_id b) by assumption. unfold is_s64 in *.
  destruct (Z.eqb_spec b 0); [split; [lia|reflexivity]|].
  destruct (Z.eqb_spec b (-1)) as [->|].
  - rewrite !andb_true_r. change (-1) with (- (1)). rewrite Z.quot_opp_r, Z.quot_1_r by lia.
    destruct (Z.leb_spec a (-2 ^ 63 + 512)), (Z.eqb_spec a (-2 ^ 63)); try lia.
    rewrite s64_id by (unfold is_s64; lia). lia.
  - rewrite !andb_false_r. split; [lia|intros _].
    apply s64_id. unfold is_s64.
    assert (Z.abs (Z.quot a b) <= Z.abs a \/ True) as _ by auto.
    pose proof (Z.quot_rem' a b).
    destruct (Z.eqb_spec b 1) as [->|]; [rewrite Z.quot_1_r; lia|].
    assert (Z.abs (Z.quot a b) * 2 <= Z.abs a).
    { rewrite <- Z.quot_abs by lia. pose proof (Z.mul_quot_le (Z.abs a) (Z.abs b) ltac:(lia) ltac:(lia)).
      pose proof (Z.quot_pos (Z.abs a) (Z.abs b) ltac:(lia) ltac:(lia)). nia. }
    lia.
Qed.

Lemma divi_s64 a b : is_s64 (divi Signed a b 0).
Proof. unfold divi. cbn [Z.eqb conv64]. repeat case_match; apply s64_range. Qed.
Lemma riscv_div_s64 a b : is_s64 a -> is_s64 b -> is_s64 (riscv_div a b).
Proof.
  intros Ha Hb. destruct (Z.eq_dec b (-1)) as [->|Hne].
  - unfold riscv_div, is_s64 in *. cbn [Z.eqb]. rewrite andb_comm. cbn [Z.eqb Pos.eqb andb].
    destruct (Z.eqb_spec a (-2 ^ 63)); [lia|]. change (-1) with (- (1)). rewrite Z.quot_opp_r, Z.quot_1_r by lia. lia.
  - rewrite <- (proj2 (divi_div_iff a b Ha Hb)) by lia. apply divi_s64.
Qed.

(** The remainder lies between 0 and the dividend. *)
Lemma rem_between a b : b <> 0 -> Z.min a 0 <= Z.rem a b <= Z.max a 0.
Proof.
  intros Hb. destruct (Z.le_gt_cases 0 a).
  - pose proof (Z.rem_nonneg a b Hb ltac:(lia)).
    rewrite <- (Z.abs_eq (Z.rem a b)), <- Z.rem_abs by lia.
    pose proof (Z.rem_le (Z.abs a) (Z.abs b) ltac:(lia) ltac:(lia)).
    pose proof (Z.rem_nonneg (Z.abs a) (Z.abs b) ltac:(lia) ltac:(lia)). lia.
  - pose proof (Z.rem_nonpos a b Hb ltac:(lia)).
    assert (Z.abs (Z.rem a b) <= Z.abs a) by (rewrite <- Z.rem_abs by lia; apply Z.rem_le; lia). lia.
Qed.

Lemma divi_rem a b : is_s64 a -> is_s64 b -> divi Signed a b 2 = riscv_rem a b.
Proof.
  intros Ha Hb. unfold divi, riscv_rem. rewrite to_double_min by assumption.
  change (2 =? 0) with false. change (2 =? 1) with false. change (2 =? 2) with true.
  cbn [conv64]. change (s64 (-1)) with (-1). rewrite !(s64_id a), !(s64_id b) by assumption.
  unfold is_s64 in *.
  destruct (Z.eqb_spec b 0) as [|Hb0]; [reflexivity|]. pose proof (rem_between a b Hb0).
  destruct (Z.eqb_spec b (-1)) as [->|].
  - rewrite !andb_true_r. replace (Z.rem a (-1)) with 0; [|symmetry; change (-1) with (- (1)); rewrite Z.rem_opp_r, Z.rem_1_r by lia; lia].
    destruct (_ <=? _), (_ =? _); reflexivity.
  - rewrite !andb_false_r. destruct (Z.eqb_spec a (- 2 ^ 63)) as [->|]; apply s64_id; unfold is_s64; lia.
Qed.

Lemma to_double_nonneg z : 0 <= z -> (to_double z =? - 2 ^ 63) = false.
Proof.
  intros Hz. apply Z.eqb_neq. unfold to_double.
  destruct (Z.eq_dec z 0) as [->|]; [vm_compute; congruence|].
  rewrite Z.sgn_pos by lia. enough (0 <= round53 (Z.abs z)) by lia.
  unfold round53. destruct (Z.leb_spec (Z.log2 (Z.abs z) - 52) 0); [lia|].
  assert (0 < 2 ^ (Z.log2 (Z.abs z) - 52)) by (apply Z.pow_pos_nonneg; lia).
  assert (0 <= Z.abs z / 2 ^ (Z.log2 (Z.abs z) - 52)) by (apply Z.div_pos; lia).
  destruct (_ || _); nia.
Qed.

Lemma divi_divu a b : is_u64 a -> is_u64 b -> divi Unsigned a b 1 = riscv_divu a b.
Proof.
  unfold is_u64. intros. unfold divi, riscv_divu. rewrite to_double_nonneg by lia.
  destruct (Z.eqb_spec b 0); [reflexivity|]. apply Z.quot_div_nonneg; lia.
Qed.

Lemma divi_remu a b : is_u64 a -> is_u64 b -> divi Unsigned a b 3 = riscv_remu a b.
Proof.
  unfold is_u64. intros. unfold divi, riscv_remu. rewrite to_double_nonneg by lia.
  destruct (Z.eqb_spec b 0); [reflexivity|]. apply Z.rem_mod_nonneg; lia.
Qed.

Lemma divi32_divw a b : is_s32 a -> is_s32 b -> divi32 Signed a b 0 = riscv_divw a b.
Proof.
  intros Ha Hb. unfold divi32, riscv_divw. rewrite to_double_exact by (unfold is_s32 in *; lia).
  change (0 =? 0) with true. cbn [conv32].
  change (s32 (-1)) with (-1). change (s32 (-2 ^ 31)) with (-2 ^ 31).
  rewrite !(s32_id a), !(s32_id b) by assumption. unfold is_s32 in *.
  destruct (Z.eqb_spec b 0); [reflexivity|].
  destruct (_ && _) eqn:E; [reflexivity|].
  apply s32_id. unfold is_s32.
  destruct (Z.eqb_spec b (-1)) as [->|].
  - change (-1) with (- (1)). rewrite Z.quot_opp_r, Z.quot_1_r by lia.
    rewrite andb_true_r in E. apply Z.eqb_neq in E. lia.
  - destruct (Z.eqb_spec b 1) as [->|]; [rewrite Z.quot_1_r; lia|].
    assert (Z.abs (Z.quot a b) * 2 <= Z.abs a); [|lia].
    rewrite <- Z.quot_abs by lia. pose proof (Z.mul_quot_le (Z.abs a) (Z.abs b) ltac:(lia) ltac:(lia)).
    pose proof (Z.quot_pos (Z.abs a) (Z.abs b) ltac:(lia) ltac:(lia)). nia.
Qed.

Lemma divi32_remw a b : is_s32 a -> is_s32 b -> divi32 Signed a b 2 = riscv_remw a b.
Proof.
  intros Ha Hb. unfold divi32, riscv_remw. rewrite to_double_exact by (unfold is_s32 in *; lia).
  change (2 =? 0) with false. change (2 =? 1) with false. change (2 =? 2) with true.
  cbn [conv32]. change (s32 (-1)) with (-1).
  rewrite !(s32_id a), !(s32_id b) by assumption.
  unfold is_s32 in *.
  destruct (Z.eqb_spec b 0) as [|Hb0]; [reflexivity|]. pose proof (rem_between a b Hb0).
  destruct (_ && _) eqn:E; [reflexivity|]. apply s32_id. unfold is_s32. lia.
Qed.

Lemma divi32_divuw a b : is_u32 a -> is_u32 b -> divi32 Unsigned a b 1 = riscv_divuw a b.
Proof.
  unfold is_u32. intros. unfold divi32, riscv_divuw. rewrite to_double_exact by lia.
  destruct (Z.eqb_spec b 0); [reflexivity|].
  destruct (Z.eqb_spec a (- 2 ^ 31)); [lia|]. apply Z.quot_div_nonneg; lia.
Qed.

Lemma divi32_remuw a b : is_u32 a -> is_u32 b -> divi32 Unsigned a b 3 = riscv_remuw a b.
Proof.
  unfold is_u32. intros. unfold divi32, riscv_remuw. rewrite to_double_exact by lia.
  destruct (Z.eqb_spec b 0); [reflexivity|].
  destruct (Z.eqb_spec a (- 2 ^ 31)); [lia|]. apply Z.rem_mod_nonneg; lia.
Qed.
