(* ===== verification/MemAccess.v ===== *)
(** * Sub-word access to a 64-bit memory cell: [sim/emulator/hart_memory.inc]

    A load extracts the bytes at offset [addr % 8] of the cell that contains the
    address; a store merges the value into the old contents of that cell. Each
    function returns the C++ return value and the value left in [wb_data]. *)

From S2P Require Import Prelude.

(** ** Definitions *)

Definition load_word (load_addr load_data : Z) : bool * Z :=
  match load_addr mod 8 with
  | 0 => (true, Z.land (Z.shiftr load_data 0) 0xFFFFFFFF)
  | 1 => (true, Z.land (Z.shiftr load_data 8) 0xFFFFFFFF)
  | 2 => (true, Z.land (Z.shiftr load_data 16) 0xFFFFFFFF)
  | 3 => (true, Z.land (Z.shiftr load_data 24) 0xFFFFFFFF)
  | 4 => (true, Z.land (Z.shiftr load_data 32) 0xFFFFFFFF)
  | _ => (false, u64 (-1))
  end.

Definition load_halfw (load_addr load_data : Z) : bool * Z :=
  match load_addr mod 8 with
  | 0 => (true, Z.land (Z.shiftr load_data 0) 0xFFFF)
  | 1 => (true, Z.land (Z.shiftr load_data 8) 0xFFFF)
  | 2 => (true, Z.land (Z.shiftr load_data 16) 0xFFFF)
  | 3 => (true, Z.land (Z.shiftr load_data 24) 0xFFFF)
  | 4 => (true, Z.land (Z.shiftr load_data 32) 0xFFFF)
  | 5 => (true, Z.land (Z.shiftr load_data 40) 0xFFFF)
  | 6 => (true, Z.land (Z.shiftr load_data 48) 0xFFFF)
  | _ => (false, u64 (-1))
  end.

Definition load_byte (load_addr load_data : Z) : bool * Z :=
  match load_addr mod 8 with
  | 0 => (true, Z.land load_data 0xFF)
  | 1 => (true, Z.land (Z.shiftr load_data 8) 0xFF)
  | 2 => (true, Z.land (Z.shiftr load_data 16) 0xFF)
  | 3 => (true, Z.land (Z.shiftr load_data 24) 0xFF)
  | 4 => (true, Z.land (Z.shiftr load_data 32) 0xFF)
  | 5 => (true, Z.land (Z.shiftr load_data 40) 0xFF)
  | 6 => (true, Z.land (Z.shiftr load_data 48) 0xFF)
  | 7 => (true, Z.land (Z.shiftr load_data 56) 0xFF)
  | _ => (false, u64 (-1))
  end.

Definition store_word (store_addr load_data value : Z) : bool * Z :=
  match store_addr mod 8 with
  | 0 => (true, u64 (Z.land load_data 0xFFFFFFFF00000000 + u64 (Z.shiftl (Z.land value 0xFFFFFFFF) 0)))
  | 1 => (true, u64 (Z.land load_data 0xFFFFFF00000000FF + u64 (Z.shiftl (Z.land value 0xFFFFFFFF) 8)))
  | 2 => (true, u64 (Z.land load_data 0xFFFF00000000FFFF + u64 (Z.shiftl (Z.land value 0xFFFFFFFF) 16)))
  | 3 => (true, u64 (Z.land load_data 0xFF00000000FFFFFF + u64 (Z.shiftl (Z.land value 0xFFFFFFFF) 24)))
  | 4 => (true, u64 (Z.land load_data 0x00000000FFFFFFFF + u64 (Z.shiftl (Z.land value 0xFFFFFFFF) 32)))
  | _ => (false, u64 (-1))
  end.

Definition store_halfw (store_addr load_data value : Z) : bool * Z :=
  match store_addr mod 8 with
  | 0 => (true, u64 (Z.land load_data 0xFFFFFFFFFFFF0000 + u64 (Z.shiftl (Z.land value 0xFFFF) 0)))
  | 1 => (true, u64 (Z.land load_data 0xFFFFFFFFFF0000FF + u64 (Z.shiftl (Z.land value 0xFFFF) 8)))
  | 2 => (true, u64 (Z.land load_data 0xFFFFFFFF0000FFFF + u64 (Z.shiftl (Z.land value 0xFFFF) 16)))
  | 3 => (true, u64 (Z.land load_data 0xFFFFFF0000FFFFFF + u64 (Z.shiftl (Z.land value 0xFFFF) 24)))
  | 4 => (true, u64 (Z.land load_data 0xFFFF0000FFFFFFFF + u64 (Z.shiftl (Z.land value 0xFFFF) 32)))
  | 5 => (true, u64 (Z.land load_data 0xFF0000FFFFFFFFFF + u64 (Z.shiftl (Z.land value 0xFFFF) 40)))
  | 6 => (true, u64 (Z.land load_data 0x0000FFFFFFFFFFFF + u64 (Z.shiftl (Z.land value 0xFFFF) 48)))
  | _ => (false, u64 (-1))
  end.

Definition store_byte (store_addr load_data value : Z) : bool * Z :=
  let v := Z.land value 0xFF in
  match store_addr mod 8 with
  | 0 => (true, u64 (Z.land load_data (u64 (Z.shiftl 0xFFFFFFFFFFFFFF 8)) + v))
  | 1 => (true, u64 (Z.land load_data (u64 (Z.shiftl 0xFFFFFFFFFFFF 16)) + u64 (Z.shiftl v 8)
                     + Z.land load_data 0xFF))
  | 2 => (true, u64 (Z.land load_data (u64 (Z.shiftl 0xFFFFFFFFFF 24)) + u64 (Z.shiftl v 16)
                     + Z.land load_data 0xFFFF))
  | 3 => (true, u64 (Z.land load_data (u64 (Z.shiftl 0xFFFFFFFF 32)) + u64 (Z.shiftl v 24)
                     + Z.land load_data 0xFFFFFF))
  | 4 => (true, u64 (Z.land load_data (u64 (Z.shiftl 0xFFFFFF 40)) + u64 (Z.shiftl v 32)
                     + Z.land load_data 0xFFFFFFFF))
  | 5 => (true, u64 (Z.land load_data (u64 (Z.shiftl 0xFFFF 48)) + u64 (Z.shiftl v 40)
                     + Z.land load_data 0xFFFFFFFFFF))
  | 6 => (true, u64 (Z.land load_data (u64 (Z.shiftl 0xFF 56)) + u64 (Z.shiftl v 48)
                     + Z.land load_data 0xFFFFFFFFFFFF))
  | 7 => (true, u64 (u64 (Z.shiftl v 56) + Z.land load_data 0xFFFFFFFFFFFFFF))
  | _ => (false, u64 (-1))
  end.

(** ** The byte view of a cell *)

(** Byte [k] of a 64-bit cell, little-endian. *)
Definition byte_of (d k : Z) : Z := u8 (Z.shiftr d (8 * k)).

(** The little-endian value of [n] bytes given by a function. *)
Fixpoint le_value (n : nat) (f : Z -> Z) : Z :=
  match n with
  | O => 0
  | S n => f 0 + 0x100 * le_value n (fun k => f (k + 1))
  end.

(** What a load of [n] bytes at offset [off] of cell [d] must return. *)
Definition cell_read (n : nat) (d off : Z) : Z := le_value n (fun k => byte_of d (off + k)).

(** What byte [k] of the cell must be after a store of [n] bytes of [v] at [off]. *)
Definition cell_write_byte (n : nat) (d off v k : Z) : Z :=
  if (off <=? k) && (k <? off + Z.of_nat n) then byte_of v (k - off) else byte_of d k.

(** ** Bit-level lemmas *)

Lemma byte_of_testbit d k i : 0 <= k -> 0 <= i ->
  Z.testbit (byte_of d k) i = (i <? 8) && Z.testbit d (i + 8 * k).
Proof.
  intros. unfold byte_of, u8. change 0x100 with (2 ^ 8).
  destruct (Z.ltb_spec i 8).
  - rewrite Z.mod_pow2_bits_low, Z.shiftr_spec by lia. reflexivity.
  - apply Z.mod_pow2_bits_high. lia.
Qed.

Lemma byte_of_ext d e k l : 0 <= k -> 0 <= l ->
  (forall i, 0 <= i < 8 -> Z.testbit d (i + 8 * k) = Z.testbit e (i + 8 * l)) ->
  byte_of d k = byte_of e l.
Proof.
  intros Hk Hl H. apply Z.bits_inj'. intros i Hi. rewrite !byte_of_testbit by lia.
  destruct (Z.ltb_spec i 8); [apply H; lia|reflexivity].
Qed.

(** Two cells with the same eight bytes are the same cell. *)
Lemma cell_ext d e : is_u64 d -> is_u64 e ->
  (forall k, 0 <= k < 8 -> byte_of d k = byte_of e k) -> d = e.
Proof.
  intros Hd He H. apply Z.bits_inj'. intros i Hi.
  destruct (Z.lt_ge_cases i 64).
  - specialize (H (i / 8) ltac:(zlia)).
    apply (f_equal (fun b => Z.testbit b (i mod 8))) in H.
    rewrite !byte_of_testbit in H by zlia.
    assert (i mod 8 < 8) by zlia. rewrite (proj2 (Z.ltb_lt _ _)) in H by assumption.
    replace (i mod 8 + 8 * (i / 8)) with i in H by zlia. exact H.
  - rewrite !(testbit_bound _ 64) by assumption. reflexivity.
Qed.

Lemma le_value_ext n : forall f g, (forall k, f k = g k) -> le_value n f = le_value n g.
Proof.
  induction n as [|n IH]; intros f g H; cbn [le_value]; [reflexivity|].
  rewrite H. f_equal. f_equal. apply IH. intros; apply H.
Qed.

Lemma le_value_byte_of n : forall d off, 0 <= off ->
  le_value n (fun k => byte_of d (off + k)) = Z.shiftr d (8 * off) mod 2 ^ (8 * Z.of_nat n).
Proof.
  induction n as [|n IH]; intros d off Hoff; cbn [le_value].
  - rewrite Z.mod_1_r. reflexivity.
  - assert (E : le_value n (fun k => byte_of d (off + (k + 1)))
                = le_value n (fun k => byte_of d (off + 1 + k))).
    { apply le_value_ext. intros. f_equal. lia. }
    rewrite E, IH by lia. unfold byte_of. rewrite Z.add_0_r.
    replace (8 * (off + 1)) with (8 * off + 8) by lia. rewrite <- Z.shiftr_shiftr by lia.
    rewrite (shiftr_div _ 8) by lia. change (2 ^ 8) with 256. unfold u8.
    replace (8 * Z.of_nat (S n)) with (8 + 8 * Z.of_nat n) by lia.
    rewrite Z.pow_add_r by lia. change (2 ^ 8) with 256.
    rewrite Z.rem_mul_r by (try apply Z.pow_nonzero; lia). reflexivity.
Qed.

(** Replacing [w] bits of [d] at bit position [o] by the low bits of [v]. *)
Definition merge (d o w v : Z) : Z :=
  Z.lor (Z.ldiff d (Z.shiftl (Z.ones w) o)) (Z.shiftl (Z.land v (Z.ones w)) o).

Lemma merge_testbit d o w v i : 0 <= o -> 0 <= w -> 0 <= i ->
  Z.testbit (merge d o w v) i =
  if (o <=? i) && (i <? o + w) then Z.testbit v (i - o) else Z.testbit d i.
Proof.
  intros Ho Hw Hi. unfold merge. rewrite Z.lor_spec, Z.ldiff_spec, !Z.shiftl_spec by lia.
  destruct (Z.leb_spec o i) as [Hle|Hgt]; cbn [andb].
  - rewrite Z.land_spec. destruct (Z.ltb_spec i (o + w)).
    + rewrite Z.ones_spec_low by lia. cbn. rewrite andb_false_r, andb_true_r. reflexivity.
    + rewrite Z.ones_spec_high by lia. cbn. rewrite andb_true_r, andb_false_r, orb_false_r. reflexivity.
  - rewrite !(Z.testbit_neg_r _ (i - o)) by lia. cbn. rewrite andb_true_r, orb_false_r. reflexivity.
Qed.

Lemma merge_u64 d o w v : is_u64 d -> 0 <= o -> 0 <= w -> o + w <= 64 -> is_u64 (merge d o w v).
Proof.
  intros Hd Ho Hw How. apply (bits_bound _ 64); [lia| |].
  - unfold merge. apply Z.lor_nonneg. split; [apply Z.ldiff_nonneg; left; apply Hd|].
    apply Z.shiftl_nonneg, Z.land_nonneg. right. rewrite Z.ones_equiv.
    assert (0 < 2 ^ w) by (apply Z.pow_pos_nonneg; lia). lia.
  - intros i Hi. rewrite merge_testbit by lia.
    rewrite (proj2 (Z.ltb_ge i (o + w))), andb_false_r by lia. apply (testbit_bound _ 64); [exact Hd|lia].
Qed.

(** The bytes of a merged cell. *)
Lemma merge_bytes n d off v k : 0 <= off -> 0 <= k ->
  byte_of (merge d (8 * off) (8 * Z.of_nat n) v) k = cell_write_byte n d off v k.
Proof.
  intros. unfold cell_write_byte.
  destruct (Z.leb_spec off k), (Z.ltb_spec k (off + Z.of_nat n)); cbn [andb];
    apply byte_of_ext; try lia; intros i Hi; rewrite merge_testbit by lia;
    destruct (Z.leb_spec (8 * off) (i + 8 * k)), (Z.ltb_spec (i + 8 * k) (8 * off + 8 * Z.of_nat n));
    cbn [andb]; try lia; try reflexivity; f_equal; lia.
Qed.

Lemma land_keep d w o : is_u64 d -> 0 <= o -> 0 <= w ->
  Z.land d (Z.ldiff (Z.ones 64) (Z.shiftl (Z.ones w) o)) = Z.ldiff d (Z.shiftl (Z.ones w) o).
Proof.
  intros Hd Ho Hw. apply Z.bits_inj'. intros i Hi. rewrite Z.land_spec, !Z.ldiff_spec.
  destruct (Z.lt_ge_cases i 64).
  - rewrite Z.ones_spec_low by lia. reflexivity.
  - rewrite (testbit_bound d 64) by assumption. reflexivity.
Qed.

Lemma merge_add d o w v : is_u64 d -> 0 <= o -> 0 <= w -> o + w <= 64 ->
  u64 (Z.ldiff d (Z.shiftl (Z.ones w) o) + u64 (Z.shiftl (Z.land v (Z.ones w)) o)) = merge d o w v.
Proof.
  intros Hd Ho Hw How. rewrite u64_add_r, add_disjoint.
  - apply u64_id, merge_u64; assumption.
  - apply Z.bits_inj'. intros i Hi. rewrite Z.land_spec, Z.ldiff_spec, !Z.shiftl_spec, Z.land_spec, Z.bits_0 by lia.
    destruct (Z.testbit (Z.ones w) (i - o)); cbn; rewrite ?andb_false_r; reflexivity.
Qed.

(** ** The access functions *)

Lemma mod8_cases a : a mod 8 = 0 \/ a mod 8 = 1 \/ a mod 8 = 2 \/ a mod 8 = 3 \/
  a mod 8 = 4 \/ a mod 8 = 5 \/ a mod 8 = 6 \/ a mod 8 = 7.
Proof. pose proof (Z.mod_pos_bound a 8). lia. Qed.

Ltac split_mod8 a :=
  destruct (mod8_cases a) as [E|[E|[E|[E|[E|[E|[E|E]]]]]]]; rewrite E.

Ltac solve_load a :=
  unfold cell_read; rewrite le_value_byte_of by (apply Z.mod_pos_bound; lia);
  split_mod8 a; cbn -[Z.land Z.shiftr Z.modulo Z.pow]; try reflexivity; f_equal; apply land_ones_mod; reflexivity || lia.

(** A word load succeeds at offsets 0 to 4 and returns those four bytes. *)
Lemma load_word_spec a d :
  load_word a d = if a mod 8 <=? 4 then (true, cell_read 4 d (a mod 8)) else (false, u64 (-1)).
Proof. unfold load_word. solve_load a. Qed.

Lemma load_halfw_spec a d :
  load_halfw a d = if a mod 8 <=? 6 then (true, cell_read 2 d (a mod 8)) else (false, u64 (-1)).
Proof. unfold load_halfw. solve_load a. Qed.

Lemma load_byte_spec a d : load_byte a d = (true, cell_read 1 d (a mod 8)).
Proof. unfold load_byte. solve_load a. Qed.

Lemma merge_add' d o w v : is_u64 d -> 0 <= o -> 0 <= w -> o + w <= 64 ->
  u64 (Z.ldiff d (Z.shiftl (Z.ones w) o) + Z.shiftl (Z.land v (Z.ones w)) o) = merge d o w v.
Proof. intros. rewrite <- u64_add_r. apply merge_add; assumption. Qed.

(** Recognises the sum built by a store function as [merge]. *)
Ltac solve_merge :=
  cbn [Z.leb Z.compare Pos.compare Pos.compare_cont]; try reflexivity; f_equal;
  lazymatch goal with
  | |- _ = merge ?d (8 * ?k) (8 * Z.of_nat ?n) ?v =>
      let o := eval vm_compute in (8 * k) in
      let w := eval vm_compute in (8 * Z.of_nat n) in
      change (8 * k) with o; change (8 * Z.of_nat n) with w;
      rewrite ?u64_add_r, <- (merge_add' d o w v), <- land_keep by (assumption || lia);
      reflexivity
  end.

Lemma store_word_spec a d v : is_u64 d ->
  store_word a d v = if a mod 8 <=? 4
    then (true, merge d (8 * (a mod 8)) (8 * Z.of_nat 4) v) else (false, u64 (-1)).
Proof. intros Hd. unfold store_word. split_mod8 a; solve_merge. Qed.

Lemma store_halfw_spec a d v : is_u64 d ->
  store_halfw a d v = if a mod 8 <=? 6
    then (true, merge d (8 * (a mod 8)) (8 * Z.of_nat 2) v) else (false, u64 (-1)).
Proof. intros Hd. unfold store_halfw. split_mod8 a; solve_merge. Qed.

Lemma store_byte_spec a d v : is_u64 d ->
  store_byte a d v = (true, merge d (8 * (a mod 8)) (8 * Z.of_nat 1) v).
Proof.
  intros Hd. unfold store_byte. split_mod8 a.
  all: try (rewrite <- Z.add_assoc, (Z.add_comm _ (Z.land d _)), Z.add_assoc, land_add by reflexivity).
  8: rewrite Z.add_comm.
  all: solve_merge.
Qed.

Lemma le_value_bytes_mod n v : le_value n (byte_of v) = v mod 2 ^ (8 * Z.of_nat n).
Proof.
  rewrite (le_value_ext n _ (fun k => byte_of v (0 + k))) by reflexivity.
  rewrite le_value_byte_of by lia. rewrite Z.mul_0_r, Z.shiftr_0_r. reflexivity.
Qed.

Lemma le_value_ext_bound n : forall f g, (forall k, 0 <= k < Z.of_nat n -> f k = g k) ->
  le_value n f = le_value n g.
Proof.
  induction n as [|n IH]; intros f g H; cbn [le_value]; [reflexivity|].
  rewrite H by lia. f_equal. f_equal. apply IH. intros; apply H; lia.
Qed.

(** Reading back the bytes that were merged gives the stored value. *)
Lemma cell_read_merge n d off v : 0 <= off ->
  cell_read n (merge d (8 * off) (8 * Z.of_nat n) v) off = v mod 2 ^ (8 * Z.of_nat n).
Proof.
  intros Hoff. unfold cell_read. rewrite <- le_value_bytes_mod.
  apply le_value_ext_bound. intros k Hk. rewrite merge_bytes by lia. unfold cell_write_byte.
  rewrite (proj2 (Z.leb_le _ _)), (proj2 (Z.ltb_lt _ _)) by lia. cbn. f_equal. lia.
Qed.

Lemma cell_read_range n d off : 0 <= off -> 0 <= cell_read n d off < 2 ^ (8 * Z.of_nat n).
Proof.
  intros. unfold cell_read. rewrite le_value_byte_of by lia.
  apply Z.mod_pos_bound, Z.pow_pos_nonneg; lia.
Qed.

Lemma cell_read_u64 n d off : (n <= 8)%nat -> 0 <= off -> is_u64 (cell_read n d off).
Proof.
  intros Hn Ho. pose proof (cell_read_range n d off Ho).
  assert (2 ^ (8 * Z.of_nat n) <= 2 ^ 64) by (apply Z.pow_le_mono_r; lia).
  unfold is_u64. change 0x10000000000000000 with (2 ^ 64). lia.
Qed.

Lemma load_word_u64 a d : is_u64 (load_word a d).2.
Proof.
  rewrite load_word_spec. destruct (_ <=? _); cbn [snd]; [|apply u64_range].
  apply cell_read_u64; [lia|apply Z.mod_pos_bound; lia].
Qed.
Lemma load_halfw_u64 a d : is_u64 (load_halfw a d).2.
Proof.
  rewrite load_halfw_spec. destruct (_ <=? _); cbn [snd]; [|apply u64_range].
  apply cell_read_u64; [lia|apply Z.mod_pos_bound; lia].
Qed.
Lemma load_byte_u64 a d : is_u64 (load_byte a d).2.
Proof. rewrite load_byte_spec. apply cell_read_u64; [lia|apply Z.mod_pos_bound; lia]. Qed.

Lemma store_word_u64 a d v : is_u64 d -> is_u64 (store_word a d v).2.
Proof.
  intros Hd. rewrite store_word_spec by assumption.
  destruct (Z.leb_spec (a mod 8) 4); cbn [snd]; [|apply u64_range].
  pose proof (Z.mod_pos_bound a 8). apply merge_u64; lia || assumption.
Qed.
Lemma store_halfw_u64 a d v : is_u64 d -> is_u64 (store_halfw a d v).2.
Proof.
  intros Hd. rewrite store_halfw_spec by assumption.
  destruct (Z.leb_spec (a mod 8) 6); cbn [snd]; [|apply u64_range].
  pose proof (Z.mod_pos_bound a 8). apply merge_u64; lia || assumption.
Qed.
Lemma store_byte_u64 a d v : is_u64 d -> is_u64 (store_byte a d v).2.
Proof.
  intros Hd. rewrite store_byte_spec by assumption. cbn [snd].
  pose proof (Z.mod_pos_bound a 8). apply merge_u64; lia || assumption.
Qed.
#[export] Hint Resolve load_word_u64 load_halfw_u64 load_byte_u64
  store_word_u64 store_halfw_u64 store_byte_u64 : word.
