(* ===== verification/Constants.v ===== *)
(** * Constants of the emulator: [sim/emulator/constants.h]

    Trap causes, memory-mapped addresses, opcodes, privilege levels and CSR numbers. *)

From S2P Require Import Prelude.

Definition MASK32 : Z := 0xFFFFFFFF.
Definition MASK64 : Z := 0xFFFFFFFFFFFFFFFF.

(** ** Trap causes *)
Definition CAUSE_USER_ECALL : Z := 0x8.
Definition CAUSE_SUPERVISOR_ECALL : Z := 0x9.
Definition CAUSE_HYPERVISOR_ECALL : Z := 0xa.
Definition CAUSE_MACHINE_ECALL : Z := 0xb.
Definition CAUSE_USER_SOFT_INT : Z := 0x0.
Definition CAUSE_SUPERVISOR_SOFT_INT : Z := 0x1.
Definition CAUSE_MACHINE_SOFT_INT : Z := 0x3.
Definition CAUSE_USER_TIMER_INT : Z := 0x4.
Definition CAUSE_SUPERVISOR_TIMER_INT : Z := 0x5.
Definition CAUSE_MACHINE_TIMER_INT : Z := 0x7.
Definition CAUSE_USER_EXT_INT : Z := 0x8.
Definition CAUSE_SUPERVISOR_EXT_INT : Z := 0x9.
Definition CAUSE_MACHINE_EXT_INT : Z := 0xb.
Definition CAUSE_MISALIGNED_FETCH : Z := 0x0.
Definition CAUSE_ILLEGAL_INSTRUCTION : Z := 0x2.
Definition CAUSE_MISALIGNED_LOAD : Z := 0x4.
Definition CAUSE_MISALIGNED_STORE : Z := 0x6.
Definition CAUSE_BREAKPOINT : Z := 0x3.
Definition CAUSE_FETCH_ACCESS : Z := 0x1.
Definition CAUSE_LOAD_ACCESS : Z := 0x5.

(** ** Memory map *)
Definition FIFO_ADDR_RX : Z := 0x40600000.
Definition FIFO_ADDR_TX : Z := 0x40600004.
Definition FIFO_ADDR_STATUS : Z := 0x40600008.
Definition ULITE_STATUS_RXVALID : Z := 0x01.
Definition ULITE_STATUS_TXEMPTY : Z := 0x04.
Definition CLINT_BASE : Z := 0x2000000.
Definition CLINT_SIZE : Z := 0x00c0000.
Definition MTIME_ADDR : Z := CLINT_BASE + 0xbff8.
Definition MTIMECMP_ADDR : Z := CLINT_BASE + 0x4000.
(** [DRAM_BASE] is a data member of class [hart] that nothing assigns. *)
Definition DRAM_BASE : Z := 0x80000000.
Definition DRAM_SIZE : Z := 0x9000000.

(** ** [enum opcode_t] *)
Definition op_lui : Z := 0x37.
Definition op_auipc : Z := 0x17.
Definition op_jump : Z := 0x6f.
Definition op_jumpr : Z := 0x67.
Definition op_cjump : Z := 0x63.
Definition op_load : Z := 0x3.
Definition op_store : Z := 0x23.
Definition op_iops : Z := 0x13.
Definition op_iops64 : Z := 0x1b.
Definition op_rops : Z := 0x33.
Definition op_rops64 : Z := 0x3b.
Definition op_amo : Z := 0x2f.
Definition op_fence : Z := 0xf.
Definition op_systm : Z := 0x73.

(** ** [enum plevel_t] *)
Inductive plevel_t := MMODE | HMODE | SMODE | UMODE.
Definition plevel_to_Z (p : plevel_t) : Z :=
  match p with MMODE => 3 | HMODE => 2 | SMODE => 1 | UMODE => 0 end.
(** [(plevel_t)x] for the two-bit field [mpp]. *)
Definition plevel_of_Z (z : Z) : plevel_t :=
  match z mod 4 with 3 => MMODE | 2 => HMODE | 1 => SMODE | _ => UMODE end.

#[export] Instance plevel_eq_dec : EqDecision plevel_t.
Proof. solve_decision. Defined.

Lemma plevel_roundtrip p : plevel_of_Z (plevel_to_Z p) = p.
Proof. destruct p; reflexivity. Qed.
Lemma plevel_to_Z_range p : 0 <= plevel_to_Z p < 4.
Proof. destruct p; cbn; lia. Qed.
#[export] Hint Resolve plevel_to_Z_range : word.

(** ** CSR numbers *)
Definition USTATUS : Z := 0x000.
Definition UTVEC : Z := 0x005.
Definition UEPC : Z := 0x041.
Definition UCAUSE : Z := 0x042.
Definition SCOUNTEREN : Z := 0x106.
Definition SATP : Z := 0x180.
Definition MSTATUS : Z := 0x300.
Definition MISA : Z := 0x301.
Definition MEDELEG : Z := 0x302.
Definition MIDELEG : Z := 0x303.
Definition MIE : Z := 0x304.
Definition MTVEC : Z := 0x305.
Definition MCOUNTEREN : Z := 0x306.
Definition MSCRATCH : Z := 0x340.
Definition MEPC : Z := 0x341.
Definition MCAUSE : Z := 0x342.
Definition MTVAL : Z := 0x343.
Definition MIP : Z := 0x344.
Definition PMPCFG0 : Z := 0x3A0.
Definition PMPADDR0 : Z := 0x3B0.
Definition MVENDORID : Z := 0xF11.
Definition MARCHID : Z := 0xF12.
Definition MIMPID : Z := 0xF13.
Definition MHARTID : Z := 0xF14.
