(* ===== verification/Csr.v ===== *)
(** * Control and status registers: the register structs of [sim/emulator/hart_csr.inc]

    Each struct is a record with the bit fields of the source; [*_read_reg] and
    [*_write_reg] are its two methods. The dispatch on CSR numbers ([csr_read],
    [csr_write]) needs the whole hart and is in Trap.v. *)

From S2P Require Import Prelude Constants.

(** [(val >> k) & 0b1] and [(val >> k) & 0b11] *)
Definition bit (val k : Z) : Z := Z.land (Z.shiftr val k) 1.
Definition bits2 (val k : Z) : Z := Z.land (Z.shiftr val k) 3.

(** ** satp *)
Record satp_t := { satp_PPN : Z; satp_ASID : Z; satp_MODE : Z }.
Definition satp_init : satp_t := {| satp_PPN := 0; satp_ASID := 0; satp_MODE := 0 |}.
Definition satp_read_reg (r : satp_t) : Z :=
  u64 (u64 (Z.shiftl (Z.land (satp_MODE r) 0xF) 60) + u64 (Z.shiftl (satp_ASID r) 44)
       + Z.land (satp_PPN r) 0xFFFFFFFFFFF).
Definition satp_write_reg (val : Z) : satp_t :=
  let mode := u8 (Z.land (Z.shiftr val 60) 0xF) in
  {| satp_PPN := Z.land val 0xFFFFFFFFFFF;
     satp_ASID := 0;
     satp_MODE := if mode =? 8 then mode else 0 |}.

(** ** mstatus *)
Record mstatus_t := {
  ms_uie : Z; ms_sie : Z; ms_mie : Z; ms_upie : Z; ms_spie : Z; ms_mpie : Z; ms_spp : Z;
  ms_mpp : Z; ms_fs : Z; ms_xs : Z; ms_mprv : Z; ms_sum : Z; ms_mxr : Z; ms_tvm : Z;
  ms_tw : Z; ms_tsr : Z; ms_uxl : Z; ms_sxl : Z; ms_sd : Z }.
Definition mstatus_init : mstatus_t :=
  {| ms_uie := 0; ms_sie := 0; ms_mie := 0; ms_upie := 0; ms_spie := 0; ms_mpie := 0; ms_spp := 0;
     ms_mpp := 0; ms_fs := 0; ms_xs := 0; ms_mprv := 0; ms_sum := 0; ms_mxr := 0; ms_tvm := 0;
     ms_tw := 0; ms_tsr := 0; ms_uxl := 2; ms_sxl := 2; ms_sd := 0 |}.
Definition mstatus_read_reg (r : mstatus_t) : Z :=
  u64 (u64 (Z.shiftl (ms_sd r) 63) + u64 (Z.shiftl (ms_sxl r) 34) + u64 (Z.shiftl (ms_uxl r) 32)
       + Z.shiftl (ms_tsr r) 22 + Z.shiftl (ms_tw r) 21 + Z.shiftl (ms_tvm r) 20
       + Z.shiftl (ms_mxr r) 19 + Z.shiftl (ms_sum r) 18 + Z.shiftl (ms_mprv r) 17
       + Z.shiftl (ms_xs r) 15 + Z.shiftl (ms_fs r) 13 + Z.shiftl (ms_mpp r) 11
       + Z.shiftl (ms_spp r) 8 + Z.shiftl (ms_mpie r) 7 + Z.shiftl (ms_spie r) 5
       + Z.shiftl (ms_upie r) 4 + Z.shiftl (ms_mie r) 3 + Z.shiftl (ms_sie r) 1 + ms_uie r).
(** [uxl] and [sxl] keep their value. *)
Definition mstatus_write_reg (r : mstatus_t) (val : Z) : mstatus_t :=
  {| ms_uie := Z.land val 1; ms_sie := bit val 1; ms_mie := bit val 3; ms_upie := bit val 4;
     ms_spie := bit val 5; ms_mpie := bit val 7; ms_spp := bit val 8; ms_mpp := bits2 val 11;
     ms_fs := bits2 val 13; ms_xs := bits2 val 15; ms_mprv := bit val 17; ms_sum := bit val 18;
     ms_mxr := bit val 19; ms_tvm := bit val 20; ms_tw := bit val 21; ms_tsr := bit val 22;
     ms_uxl := ms_uxl r; ms_sxl := ms_sxl r; ms_sd := bit val 63 |}.

(** ** ustatus *)
Record ustatus_t := {
  us_uie : Z; us_upie : Z; us_fs : Z; us_xs : Z; us_sum : Z; us_mxr : Z; us_uxl : Z; us_sd : Z }.
Definition ustatus_init : ustatus_t :=
  {| us_uie := 0; us_upie := 0; us_fs := 0; us_xs := 0; us_sum := 0; us_mxr := 0; us_uxl := 2; us_sd := 0 |}.
Definition ustatus_read_reg (r : ustatus_t) : Z :=
  u64 (u64 (Z.shiftl (us_sd r) 63) + u64 (Z.shiftl (us_uxl r) 32) + Z.shiftl (us_mxr r) 19
       + Z.shiftl (us_sum r) 18 + Z.shiftl (us_xs r) 15 + Z.shiftl (us_fs r) 13
       + Z.shiftl (us_upie r) 4 + us_uie r).
Definition ustatus_write_reg (val : Z) : ustatus_t :=
  {| us_uie := Z.land val 1; us_upie := bit val 5; us_fs := bits2 val 13; us_xs := bits2 val 15;
     us_sum := bit val 18; us_mxr := bit val 19; us_uxl := bits2 val 32; us_sd := bit val 63 |}.

(** ** mie and mip *)
Record mie_t := {
  MEIE : Z; SEIE : Z; UEIE : Z; MTIE : Z; STIE : Z; UTIE : Z; MSIE : Z; SSIE : Z; USIE : Z }.
Definition mie_init : mie_t :=
  {| MEIE := 0; SEIE := 0; UEIE := 0; MTIE := 0; STIE := 0; UTIE := 0; MSIE := 0; SSIE := 0; USIE := 0 |}.
Definition mie_read_reg (r : mie_t) : Z :=
  u64 (Z.shiftl (Z.land (MEIE r) 1) 11 + Z.shiftl (Z.land (SEIE r) 1) 9 + Z.shiftl (Z.land (UEIE r) 1) 8
       + Z.shiftl (Z.land (MTIE r) 1) 7 + Z.shiftl (Z.land (STIE r) 1) 5 + Z.shiftl (Z.land (UTIE r) 1) 4
       + Z.shiftl (Z.land (MSIE r) 1) 3 + Z.shiftl (Z.land (SSIE r) 1) 1 + Z.land (USIE r) 1).
Definition mie_write_reg (val : Z) : mie_t :=
  {| MEIE := bit val 11; SEIE := bit val 9; UEIE := bit val 8; MTIE := bit val 7; STIE := bit val 5;
     UTIE := bit val 4; MSIE := bit val 3; SSIE := bit val 1; USIE := Z.land val 1 |}.

Record mip_t := {
  MEIP : Z; SEIP : Z; UEIP : Z; MTIP : Z; STIP : Z; UTIP : Z; MSIP : Z; SSIP : Z; USIP : Z }.
Definition mip_init : mip_t :=
  {| MEIP := 0; SEIP := 0; UEIP := 0; MTIP := 0; STIP := 0; UTIP := 0; MSIP := 0; SSIP := 0; USIP := 0 |}.
Definition mip_read_reg (r : mip_t) : Z :=
  u64 (Z.shiftl (Z.land (MEIP r) 1) 11 + Z.shiftl (Z.land (SEIP r) 1) 9 + Z.shiftl (Z.land (UEIP r) 1) 8
       + Z.shiftl (Z.land (MTIP r) 1) 7 + Z.shiftl (Z.land (STIP r) 1) 5 + Z.shiftl (Z.land (UTIP r) 1) 4
       + Z.shiftl (Z.land (MSIP r) 1) 3 + Z.shiftl (Z.land (SSIP r) 1) 1 + Z.land (USIP r) 1).
Definition mip_write_reg (val : Z) : mip_t :=
  {| MEIP := bit val 11; SEIP := bit val 9; UEIP := bit val 8; MTIP := bit val 7; STIP := bit val 5;
     UTIP := bit val 4; MSIP := bit val 3; SSIP := bit val 1; USIP := Z.land val 1 |}.

(** ** mtvec and utvec *)
Record mtvec_t := { mtvec_mode : Z; mtvec_base : Z }.
Definition mtvec_init : mtvec_t := {| mtvec_mode := 0; mtvec_base := 0 |}.
Definition mtvec_read_reg (r : mtvec_t) : Z :=
  u64 (Z.land (mtvec_mode r) 3 + Z.land (mtvec_base r) (MASK64 - 3)).
Definition mtvec_write_reg (val : Z) : mtvec_t :=
  {| mtvec_mode := Z.land val 3; mtvec_base := Z.land val (MASK64 - 3) |}.

Record utvec_t := { utvec_mode : Z; utvec_base : Z }.
Definition utvec_init : utvec_t := {| utvec_mode := 0; utvec_base := 0 |}.
Definition utvec_read_reg (r : utvec_t) : Z :=
  u64 (Z.land (utvec_mode r) 3 + Z.land (utvec_base r) (MASK64 - 3)).
Definition utvec_write_reg (val : Z) : utvec_t :=
  {| utvec_mode := Z.land val 3; utvec_base := Z.land val (MASK64 - 3) |}.

(** ** mcause and ucause *)
Record mcause_t := { mcause_interrupt : Z; mcause_ecode : Z }.
Definition mcause_init : mcause_t := {| mcause_interrupt := 0; mcause_ecode := 0 |}.
Definition mcause_read_reg (r : mcause_t) : Z :=
  u64 (Z.land (Z.shiftl 1 63 - 1) (mcause_ecode r) + u64 (Z.shiftl (mcause_interrupt r) 63)).
Definition mcause_write_reg (val : Z) : mcause_t :=
  {| mcause_interrupt := bit val 63; mcause_ecode := Z.land val (Z.shiftl 1 63 - 1) |}.

Record ucause_t := { ucause_interrupt : Z; ucause_ecode : Z }.
Definition ucause_init : ucause_t := {| ucause_interrupt := 0; ucause_ecode := 0 |}.
Definition ucause_read_reg (r : ucause_t) : Z :=
  u64 (Z.land (Z.shiftl 1 63 - 1) (ucause_ecode r) + u64 (Z.shiftl (ucause_interrupt r) 63)).
Definition ucause_write_reg (val : Z) : ucause_t :=
  {| ucause_interrupt := bit val 63; ucause_ecode := Z.land val (Z.shiftl 1 63 - 1) |}.

(** ** Field ranges *)
Definition is_bit (z : Z) : Prop := 0 <= z < 2.
Definition is_bits2 (z : Z) : Prop := 0 <= z < 4.

Definition satp_wf (r : satp_t) : Prop :=
  0 <= satp_PPN r < 2 ^ 44 /\ satp_ASID r = 0 /\ (satp_MODE r = 0 \/ satp_MODE r = 8).
Definition mstatus_wf (r : mstatus_t) : Prop :=
  (is_bit (ms_uie r) /\ is_bit (ms_sie r) /\ is_bit (ms_mie r) /\ is_bit (ms_upie r) /\
   is_bit (ms_spie r) /\ is_bit (ms_mpie r) /\ is_bit (ms_spp r) /\ is_bits2 (ms_mpp r)) /\
  (is_bits2 (ms_fs r) /\ is_bits2 (ms_xs r) /\ is_bit (ms_mprv r) /\ is_bit (ms_sum r) /\
   is_bit (ms_mxr r) /\ is_bit (ms_tvm r) /\ is_bit (ms_tw r) /\ is_bit (ms_tsr r)) /\
  (ms_uxl r = 2 /\ ms_sxl r = 2 /\ is_bit (ms_sd r)).
Definition mie_wf (r : mie_t) : Prop :=
  is_bit (MEIE r) /\ is_bit (SEIE r) /\ is_bit (UEIE r) /\ is_bit (MTIE r) /\ is_bit (STIE r) /\
  is_bit (UTIE r) /\ is_bit (MSIE r) /\ is_bit (SSIE r) /\ is_bit (USIE r).
Definition mip_wf (r : mip_t) : Prop :=
  is_bit (MEIP r) /\ is_bit (SEIP r) /\ is_bit (UEIP r) /\ is_bit (MTIP r) /\ is_bit (STIP r) /\
  is_bit (UTIP r) /\ is_bit (MSIP r) /\ is_bit (SSIP r) /\ is_bit (USIP r).
Definition mtvec_wf (r : mtvec_t) : Prop :=
  is_bits2 (mtvec_mode r) /\ is_u64 (mtvec_base r) /\ mtvec_base r mod 4 = 0.
Definition mcause_wf (r : mcause_t) : Prop :=
  is_bit (mcause_interrupt r) /\ 0 <= mcause_ecode r < 2 ^ 63.

Create HintDb csr.

Lemma bit_range val k : is_bit (bit val k).
Proof. unfold bit, is_bit. change 1 with (Z.ones 1). rewrite Z.land_ones by lia. apply Z.mod_pos_bound; lia. Qed.
Lemma bits2_range val k : is_bits2 (bits2 val k).
Proof. unfold bits2, is_bits2. change 3 with (Z.ones 2). rewrite Z.land_ones by lia. apply Z.mod_pos_bound; lia. Qed.
Lemma land1_range val : is_bit (Z.land val 1).
Proof. apply (bit_range val 0). Qed.
Lemma land3_range val : is_bits2 (Z.land val 3).
Proof. apply (bits2_range val 0). Qed.
Lemma is_bit_0 : is_bit 0. Proof. unfold is_bit. lia. Qed.
Lemma is_bit_1 : is_bit 1. Proof. unfold is_bit. lia. Qed.
Lemma is_bits2_0 : is_bits2 0. Proof. unfold is_bits2. lia. Qed.
#[export] Hint Resolve bit_range bits2_range land1_range land3_range is_bit_0 is_bit_1 is_bits2_0 : csr.

Lemma satp_write_wf val : is_u64 val -> satp_wf (satp_write_reg val).
Proof.
  intros. unfold satp_wf, satp_write_reg; cbn. split; [|split; [reflexivity|]].
  - mask_to_mod. change (2 ^ 44) with 17592186044416. zlia.
  - destruct (Z.eqb_spec (u8 (Z.land (Z.shiftr val 60) 15)) 8); auto.
Qed.
Lemma mstatus_write_wf r val : mstatus_wf r -> mstatus_wf (mstatus_write_reg r val).
Proof. unfold mstatus_wf, mstatus_write_reg; cbn. intuition auto with csr. Qed.
Lemma mie_write_wf val : mie_wf (mie_write_reg val).
Proof. unfold mie_wf, mie_write_reg; cbn. repeat split; auto with csr; apply bit_range || apply land1_range. Qed.
Lemma mip_write_wf val : mip_wf (mip_write_reg val).
Proof. unfold mip_wf, mip_write_reg; cbn. repeat split; auto with csr; apply bit_range || apply land1_range. Qed.
Lemma mtvec_write_wf val : is_u64 val -> mtvec_wf (mtvec_write_reg val).
Proof.
  intros. unfold mtvec_wf, mtvec_write_reg; cbn. split; [apply land3_range|]. split.
  - apply land_u64. assumption.
  - change 4 with (2 ^ 2). rewrite <- Z.land_ones, <- Z.land_assoc by lia.
    change (Z.land (MASK64 - 3) (Z.ones 2)) with 0. apply Z.land_0_r.
Qed.
Lemma mcause_write_wf val : is_u64 val -> mcause_wf (mcause_write_reg val).
Proof.
  intros. unfold mcause_wf, mcause_write_reg; cbn. split; [apply bit_range|].
  change (Z.shiftl 1 63 - 1) with (Z.ones 63). rewrite Z.land_ones by lia. apply Z.mod_pos_bound; lia.
Qed.
#[export] Hint Resolve satp_write_wf mstatus_write_wf mie_write_wf mip_write_wf mtvec_write_wf
  mcause_write_wf : csr.

(** ** Reading a register that was just written

    Every field of the written value sits at its own bits, so the sum built by
    [read_reg] is a masked copy of the value. *)

Lemma shiftl_field v k w : 0 <= k -> 0 <= w ->
  Z.shiftl (Z.land (Z.shiftr v k) (Z.ones w)) k = Z.land v (Z.shiftl (Z.ones w) k).
Proof.
  intros Hk Hw. apply Z.bits_inj'. intros i Hi. rewrite Z.shiftl_spec, !Z.land_spec, Z.shiftl_spec by lia.
  destruct (Z.lt_ge_cases i k).
  - rewrite !(Z.testbit_neg_r _ (i - k)) by lia. destruct (Z.testbit v i); reflexivity.
  - rewrite Z.shiftr_spec by lia. f_equal. f_equal. lia.
Qed.
Lemma shiftl_bit v k : 0 <= k -> Z.shiftl (bit v k) k = Z.land v (Z.shiftl 1 k).
Proof. intros. apply (shiftl_field v k 1); lia. Qed.
Lemma shiftl_bits2 v k : 0 <= k -> Z.shiftl (bits2 v k) k = Z.land v (Z.shiftl 3 k).
Proof. intros. apply (shiftl_field v k 2); lia. Qed.

(** Turns a sum of shifted fields of [v] into one [Z.land v mask]. *)
Ltac join_fields :=
  repeat first [rewrite shiftl_bit by lia | rewrite shiftl_bits2 by lia];
  repeat match goal with
    | |- context [Z.shiftl (Zpos ?a) ?k] =>
        let c := eval vm_compute in (Z.shiftl (Zpos a) k) in change (Z.shiftl (Zpos a) k) with c
    end;
  repeat match goal with
    | |- context [Z.land ?v (Zpos ?a) + Z.land ?v (Zpos ?b)] =>
        let c := eval vm_compute in (Z.lor (Zpos a) (Zpos b)) in
        rewrite (land_add v (Zpos a) (Zpos b) eq_refl); change (Z.lor (Zpos a) (Zpos b)) with c
    end.

Lemma land_idem_mask v : Z.land (Z.land v 1) 1 = Z.land v 1.
Proof. rewrite <- Z.land_assoc. reflexivity. Qed.
Lemma bit_land_1 v k : Z.land (bit v k) 1 = bit v k.
Proof. apply land_idem_mask. Qed.

Lemma u64_land v m : is_u64 m -> u64 (Z.land v m) = Z.land v m.
Proof. intros. apply u64_id, land_u64_r. assumption. Qed.

(** The bits of mstatus that a write can change. *)
Definition MSTATUS_WMASK : Z := 0x80000000007FF9BB.

Lemma mstatus_read_write r v : mstatus_wf r ->
  mstatus_read_reg (mstatus_write_reg r v) = Z.land v MSTATUS_WMASK + (2 * 2 ^ 34 + 2 * 2 ^ 32).
Proof.
  intros (_ & _ & Hu & Hs & _). unfold mstatus_read_reg, mstatus_write_reg; cbn -[Z.add Z.shiftl].
  rewrite Hu, Hs. change (u64 (Z.shiftl 2 34)) with (2 * 2 ^ 34). change (u64 (Z.shiftl 2 32)) with (2 * 2 ^ 32).
  rewrite shiftl_bit, u64_land by (vm_compute; intuition congruence || lia).
  rewrite (Z.add_comm (Z.land v _) (2 * 2 ^ 34)), <- (Z.add_assoc (2 * 2 ^ 34)), (Z.add_comm (Z.land v _) (2 * 2 ^ 32)),
    Z.add_assoc.
  rewrite <- !(Z.add_assoc (2 * 2 ^ 34 + 2 * 2 ^ 32)).
  join_fields. rewrite Z.add_comm. apply u64_id. rewrite add_disjoint.
  - apply lor_u64; [apply land_u64_r|]; vm_compute; intuition congruence.
  - rewrite <- Z.land_assoc. apply Z.land_0_r.
Qed.

Lemma mie_read_write v : mie_read_reg (mie_write_reg v) = Z.land v 0xBBB.
Proof.
  unfold mie_read_reg, mie_write_reg; cbn -[Z.add Z.shiftl].
  rewrite !bit_land_1, land_idem_mask. join_fields. apply u64_land. vm_compute; intuition congruence.
Qed.
Lemma mip_read_write v : mip_read_reg (mip_write_reg v) = Z.land v 0xBBB.
Proof. exact (mie_read_write v). Qed.

Lemma mtvec_read_write v : is_u64 v -> mtvec_read_reg (mtvec_write_reg v) = v.
Proof.
  intros Hv. unfold mtvec_read_reg, mtvec_write_reg; cbn -[Z.add].
  rewrite <- !Z.land_assoc. change (Z.land 3 3) with 3.
  change (Z.land (MASK64 - 3) (MASK64 - 3)) with (MASK64 - 3).
  rewrite land_add by reflexivity. change (Z.lor 3 (MASK64 - 3)) with (Z.ones 64).
  rewrite Z.land_ones by lia. change (u64 (u64 v) = v). rewrite u64_u64. apply u64_id, Hv.
Qed.

Lemma mcause_read_write v : is_u64 v -> mcause_read_reg (mcause_write_reg v) = v.
Proof.
  intros Hv. unfold mcause_read_reg, mcause_write_reg; cbn -[Z.add Z.shiftl].
  rewrite Z.land_comm, <- Z.land_assoc. change (Z.land (Z.shiftl 1 63 - 1) (Z.shiftl 1 63 - 1)) with (Z.ones 63).
  rewrite shiftl_bit, u64_land by (vm_compute; intuition congruence || lia).
  rewrite land_add by reflexivity. change (Z.lor (Z.ones 63) (Z.shiftl 1 63)) with (Z.ones 64).
  rewrite Z.land_ones by lia. change (u64 (u64 v) = v). rewrite u64_u64. apply u64_id, Hv.
Qed.

(** ** Writing back the value just read *)

Lemma field_of_sum S k w f hi : 0 <= k -> 0 <= w ->
  0 <= S - 2 ^ k * (f + 2 ^ w * hi) < 2 ^ k -> 0 <= f < 2 ^ w ->
  Z.land (Z.shiftr S k) (Z.ones w) = f.
Proof.
  intros Hk Hw Hlo Hf. rewrite Z.land_ones, shiftr_div by lia.
  rewrite <- (Z.div_unique S (2 ^ k) (f + 2 ^ w * hi) (S - 2 ^ k * (f + 2 ^ w * hi))) by lia.
  rewrite Z.mul_comm, Z_mod_plus_full. apply Z.mod_small. assumption.
Qed.
Lemma bit_of_sum S k f hi : 0 <= k ->
  0 <= S - 2 ^ k * (f + 2 * hi) < 2 ^ k -> is_bit f -> bit S k = f.
Proof. intros. apply (field_of_sum S k 1 f hi); try lia; assumption. Qed.
Lemma bits2_of_sum S k f hi : 0 <= k ->
  0 <= S - 2 ^ k * (f + 4 * hi) < 2 ^ k -> is_bits2 f -> bits2 S k = f.
Proof. intros. apply (field_of_sum S k 2 f hi); try lia; assumption. Qed.
Lemma bit_0 S : bit S 0 = Z.land S 1.
Proof. unfold bit. rewrite Z.shiftr_0_r. reflexivity. Qed.

(** The terms of the sum [S] with coefficient at least [p], divided by [p]. *)
Ltac hi_part S p :=
  lazymatch S with
  | ?a + ?b => let x := hi_part a p in let y := hi_part b p in constr:(x + y)
  | ?x * ?c =>
      let t := eval vm_compute in (p <=? c) in
      lazymatch t with
      | true => let c' := eval vm_compute in (c / p) in constr:(x * c')
      | false => constr:(0)
      end
  | _ => constr:(0)
  end.
Ltac extract_field :=
  try rewrite <- bit_0;
  lazymatch goal with
  | |- bit ?S ?k = ?f =>
      let p := eval vm_compute in (2 ^ (k + 1)) in let h := hi_part S p in
      apply (bit_of_sum S k f h);
      [lia | let q := eval vm_compute in (2 ^ k) in change (2 ^ k) with q; lia | unfold is_bit; lia]
  | |- bits2 ?S ?k = ?f =>
      let p := eval vm_compute in (2 ^ (k + 2)) in let h := hi_part S p in
      apply (bits2_of_sum S k f h);
      [lia | let q := eval vm_compute in (2 ^ k) in change (2 ^ k) with q; lia | unfold is_bits2; lia]
  | |- ?x = ?y => reflexivity || lia
  end.
Ltac shiftl_to_mul :=
  repeat match goal with
    | |- context [Z.shiftl ?x (Zpos ?n)] =>
        let q := eval vm_compute in (2 ^ (Zpos n)) in
        rewrite (shiftl_mul x (Zpos n) ltac:(lia)); change (2 ^ (Zpos n)) with q
    end.

Lemma mstatus_write_read r : mstatus_wf r -> mstatus_write_reg r (mstatus_read_reg r) = r.
Proof.
  intros Hr. unfold mstatus_wf, is_bit, is_bits2 in Hr. unfold mstatus_read_reg, mstatus_write_reg.
  destruct r as [uie sie mie upie spie mpie spp mpp fs xs mprv sum mxr tvm tw tsr uxl sxl sd].
  cbn -[Z.add Z.shiftl Z.land Z.shiftr bit bits2] in *.
  rewrite (u64_id (Z.shiftl sd 63)), (u64_id (Z.shiftl sxl 34)), (u64_id (Z.shiftl uxl 32)).
  all: shiftl_to_mul; try (unfold is_u64; lia).
  rewrite u64_id by (unfold is_u64; lia).
  f_equal; extract_field.
Qed.

Lemma mstatus_read_u64 r : is_u64 (mstatus_read_reg r).
Proof. apply u64_range. Qed.
Lemma satp_read_u64 r : is_u64 (satp_read_reg r).
Proof. apply u64_range. Qed.
Lemma mie_read_u64 r : is_u64 (mie_read_reg r).
Proof. apply u64_range. Qed.
Lemma mip_read_u64 r : is_u64 (mip_read_reg r).
Proof. apply u64_range. Qed.
Lemma mtvec_read_u64 r : is_u64 (mtvec_read_reg r).
Proof. apply u64_range. Qed.
Lemma mcause_read_u64 r : is_u64 (mcause_read_reg r).
Proof. apply u64_range. Qed.
#[export] Hint Resolve mstatus_read_u64 satp_read_u64 mie_read_u64 mip_read_u64 mtvec_read_u64
  mcause_read_u64 : csr word.
