(* ===== verification/Clint.v ===== *)
(** * The core-local interruptor: class [CLINT] of [sim/emulator/clint.h]

    One [msip] word and one [mtimecmp] per hart and the shared [mtime].
    [LOCKSTEP] is the preprocessor flag: with it, stores to MSIP are ignored
    (the RTL pins drive it through [set_msip]). *)

From S2P Require Import Prelude.

(** ** State *)

Record timeval := { tv_sec : Z; tv_usec : Z }.

Record CLINT := mkCLINT {
  msip : list Z;      (** [vector<uint32_t>] *)
  mtimecmp : list Z;  (** [vector<uint64_t>] *)
  mtime : Z;
  tv : timeval;
  num_harts : Z;      (** [uint8_t] *)
  clint_hart : Z      (** [uint32_t] member [hart], scratch member written by [read] and [write] *)
}.

Definition CLINT_BASE_ADDR : Z := 0x2000000.
Definition MSIP_BASE : Z := 0x0000.
Definition MTIMECMP_BASE : Z := 0x4000.
Definition MTIME_OFFSET : Z := 0xBFF8.
Definition freq_hz : Z := 50000000.

(** The constructor; [now] is what [gettimeofday] stores. [hart] is not
    initialised by the source; it is written before each use. *)
Definition CLINT_new (n : Z) (now : timeval) : CLINT :=
  {| msip := replicate (Z.to_nat n) 0;
     mtimecmp := replicate (Z.to_nat n) 0xFFFFFFFFFFFFFFFF;
     mtime := 0; tv := now; num_harts := n; clint_hart := 0 |}.

(** [v[h]] for an index already checked against the size. *)
Definition vnth (v : list Z) (h : Z) : Z := default 0 (v !! Z.to_nat h).
Definition vset (v : list Z) (h x : Z) : list Z := <[Z.to_nat h := x]> v.

(** ** Operations *)

Definition set_msip (c : CLINT) (h value : Z) : CLINT :=
  if h <? num_harts c then { c with msip := vset (msip c) h (Z.land value 1) } else c.
Definition get_msip (c : CLINT) (h : Z) : Z :=
  if h <? num_harts c then Z.land (vnth (msip c) h) 1 else 0.
Definition set_mtime (c : CLINT) (value : Z) : CLINT := { c with mtime := value }.
Definition get_mtime (c : CLINT) : Z := mtime c.
Definition set_mtimecmp (c : CLINT) (h value : Z) : CLINT :=
  if h <? num_harts c then { c with mtimecmp := vset (mtimecmp c) h value } else c.
Definition get_mtimecmp (c : CLINT) (h : Z) : Z :=
  if h <? num_harts c then vnth (mtimecmp c) h else 0xFFFFFFFFFFFFFFFF.

Definition in_msip (c : CLINT) (addr : Z) : bool :=
  (CLINT_BASE_ADDR + MSIP_BASE <=? addr) && (addr <? CLINT_BASE_ADDR + MSIP_BASE + 4 * num_harts c).
Definition in_mtimecmp (c : CLINT) (addr : Z) : bool :=
  (CLINT_BASE_ADDR + MTIMECMP_BASE <=? addr) && (addr <? CLINT_BASE_ADDR + MTIMECMP_BASE + 8 * num_harts c).
Definition in_mtime (addr : Z) : bool :=
  (CLINT_BASE_ADDR + MTIME_OFFSET <=? addr) && (addr <? CLINT_BASE_ADDR + MTIME_OFFSET + 8).

(** Replacing the low or the high half of a 64-bit register by a 32-bit store. *)
Definition half_write (old addr value : Z) : Z :=
  let data := Z.land value 0xFFFFFFFF in
  if Z.land addr 7 =? 0
  then Z.lor (Z.land old 0xFFFFFFFF00000000) data
  else Z.lor (Z.land old 0x00000000FFFFFFFF) (u64 (Z.shiftl data 32)).

Definition clint_write (LOCKSTEP : bool) (c : CLINT) (addr value size : Z) : CLINT :=
  if in_msip c addr then
    let h := u32 ((addr - (CLINT_BASE_ADDR + MSIP_BASE)) / 4) in
    let c := { c with clint_hart := h } in
    if LOCKSTEP then c else { c with msip := vset (msip c) h (Z.land value 1) }
  else if in_mtimecmp c addr then
    let h := (addr - (CLINT_BASE_ADDR + MTIMECMP_BASE)) / 8 in
    if 8 <=? size then { c with mtimecmp := vset (mtimecmp c) h value }
    else if size =? 4 then
      { c with mtimecmp := vset (mtimecmp c) h (half_write (vnth (mtimecmp c) h) addr value) }
    else c
  else if in_mtime addr then
    if 8 <=? size then { c with mtime := value }
    else if size =? 4 then { c with mtime := half_write (mtime c) addr value }
    else c
  else c.

Definition clint_read (c : CLINT) (addr : Z) : Z * CLINT :=
  if in_msip c addr then
    let h := u32 ((addr - (CLINT_BASE_ADDR + MSIP_BASE)) / 4) in
    (vnth (msip c) h, { c with clint_hart := h })
  else if in_mtimecmp c addr then
    let h := u32 ((addr - (CLINT_BASE_ADDR + MTIMECMP_BASE)) / 8) in
    let c := { c with clint_hart := h } in
    if Z.land addr 7 =? 4 then (Z.shiftr (vnth (mtimecmp c) h) 32, c)
    else (vnth (mtimecmp c) h, c)
  else if in_mtime addr then
    if Z.land addr 7 =? 4 then (Z.shiftr (mtime c) 32, c) else (mtime c, c)
  else (0, c).

(** [tick] with [now] what [gettimeofday] stores. *)
Definition tick (c : CLINT) (now : timeval) : CLINT :=
  let diff_usecs := u64 ((tv_sec now - tv_sec (tv c)) * 1000000 + (tv_usec now - tv_usec (tv c))) in
  { c with mtime := u64 (diff_usecs * freq_hz) / 1000000 }.

Definition advance (c : CLINT) (delta : Z) : CLINT := { c with mtime := u64 (mtime c + delta) }.

(** The two tests index the vectors without a bounds check: [None] is the
    undefined behaviour of [operator[]] out of range. *)
Definition check_timer_interrupt (c : CLINT) (h : Z) : option bool :=
  cmp ← mtimecmp c !! Z.to_nat h; Some (cmp <=? mtime c).
Definition check_software_interrupt (c : CLINT) (h : Z) : option bool :=
  v ← msip c !! Z.to_nat h; Some (negb (v =? 0)).

(** ** Invariant *)

Record clint_wf (c : CLINT) : Prop := {
  cwf_harts : 0 <= num_harts c < 256;
  cwf_msip_len : length (msip c) = Z.to_nat (num_harts c);
  cwf_cmp_len : length (mtimecmp c) = Z.to_nat (num_harts c);
  cwf_msip : Forall is_u32 (msip c);
  cwf_cmp : Forall is_u64 (mtimecmp c);
  cwf_mtime : is_u64 (mtime c)
}.

Create HintDb clint.

Lemma vnth_u64 v h : Forall is_u64 v -> is_u64 (vnth v h).
Proof.
  intros Hv. unfold vnth. destruct (v !! _) eqn:E; cbn; [|unfold is_u64; lia].
  eapply Forall_lookup_1; eassumption.
Qed.
Lemma vnth_u32 v h : Forall is_u32 v -> is_u32 (vnth v h).
Proof.
  intros Hv. unfold vnth. destruct (v !! _) eqn:E; cbn; [|unfold is_u32; lia].
  eapply Forall_lookup_1; eassumption.
Qed.
Lemma vset_Forall P v h x : Forall P v -> P x -> Forall P (vset v h x).
Proof. intros. apply Forall_insert; assumption. Qed.
Lemma length_vset v h x : length (vset v h x) = length v.
Proof. apply length_insert. Qed.
Lemma vnth_vset v h x : (Z.to_nat h < length v)%nat -> vnth (vset v h x) h = x.
Proof. intros. unfold vnth, vset. rewrite list_lookup_insert_eq by assumption. reflexivity. Qed.
Lemma vnth_vset_ne v h j x : 0 <= h -> 0 <= j -> h <> j -> vnth (vset v h x) j = vnth v j.
Proof. intros. unfold vnth, vset. rewrite list_lookup_insert_ne by lia. reflexivity. Qed.

Lemma half_write_u64 old addr value : is_u64 old -> is_u64 (half_write old addr value).
Proof.
  intros. unfold half_write. destruct (_ =? _); apply lor_u64; auto with word.
  apply land_u64_r. unfold is_u64; lia.
Qed.
#[export] Hint Resolve vnth_u64 vnth_u32 vset_Forall half_write_u64 : word clint.

Lemma is_u32_land1 v : is_u32 (Z.land v 1).
Proof. unfold is_u32. change 1 with (Z.ones 1). rewrite Z.land_ones by lia. pose proof (Z.mod_pos_bound v (2 ^ 1)). lia. Qed.
#[export] Hint Resolve is_u32_land1 : clint.

Ltac clint_solve :=
  intros [Hn Hml Hcl Hm Hc Ht]; intros; constructor; cbn; rewrite ?length_vset;
  auto with clint word.

Lemma CLINT_new_wf n now : 0 <= n < 256 -> clint_wf (CLINT_new n now).
Proof.
  intros. constructor; cbn; rewrite ?length_replicate; auto; try (apply Forall_replicate); word.
Qed.

Lemma clint_write_wf L c addr value size : clint_wf c -> is_u64 value -> clint_wf (clint_write L c addr value size).
Proof.
  unfold clint_write. repeat case_match; clint_solve.
Qed.
Lemma clint_read_wf c addr : clint_wf c -> clint_wf (clint_read c addr).2.
Proof. unfold clint_read. repeat case_match; clint_solve. Qed.
Lemma clint_read_u64 c addr : clint_wf c -> is_u64 (clint_read c addr).1.
Proof.
  intros [Hn Hml Hcl Hm Hc Ht]. unfold clint_read.
  assert (is_u64 (vnth (msip c) (u32 ((addr - (CLINT_BASE_ADDR + MSIP_BASE)) / 4)))).
  { pose proof (vnth_u32 _ (u32 ((addr - (CLINT_BASE_ADDR + MSIP_BASE)) / 4)) Hm). word. }
  repeat case_match; cbn; auto with word; try apply shiftr_u64; auto with word; try lia.
  unfold is_u64; lia.
Qed.
Lemma advance_wf c d : clint_wf c -> clint_wf (advance c d).
Proof. clint_solve. Qed.
Lemma set_msip_wf c h v : clint_wf c -> clint_wf (set_msip c h v).
Proof. unfold set_msip. case_match; clint_solve. Qed.
Lemma set_mtime_wf c v : clint_wf c -> is_u64 v -> clint_wf (set_mtime c v).
Proof. clint_solve. Qed.
Lemma set_mtimecmp_wf c h v : clint_wf c -> is_u64 v -> clint_wf (set_mtimecmp c h v).
Proof. unfold set_mtimecmp. case_match; clint_solve. Qed.
#[export] Hint Resolve clint_write_wf clint_read_wf clint_read_u64 advance_wf set_msip_wf set_mtime_wf
  set_mtimecmp_wf : clint.

(** The interrupt tests are defined for every hart of the system. *)
Lemma check_timer_defined c h : clint_wf c -> 0 <= h < num_harts c ->
  check_timer_interrupt c h = Some (get_mtimecmp c h <=? mtime c).
Proof.
  intros [Hn Hml Hcl Hm Hc Ht] Hh. unfold check_timer_interrupt, get_mtimecmp, vnth.
  rewrite (proj2 (Z.ltb_lt _ _)) by lia.
  destruct (lookup_lt_is_Some_2 (mtimecmp c) (Z.to_nat h)) as [x Hx]; [lia|]. rewrite Hx. reflexivity.
Qed.
Lemma check_software_defined c h : clint_wf c -> 0 <= h < num_harts c ->
  check_software_interrupt c h = Some (negb (vnth (msip c) h =? 0)).
Proof.
  intros [Hn Hml Hcl Hm Hc Ht] Hh. unfold check_software_interrupt, vnth.
  destruct (lookup_lt_is_Some_2 (msip c) (Z.to_nat h)) as [x Hx]; [lia|]. rewrite Hx. reflexivity.
Qed.

Lemma clint_write_harts L c addr v sz : num_harts (clint_write L c addr v sz) = num_harts c.
Proof. unfold clint_write. repeat case_match; reflexivity. Qed.
Lemma clint_read_harts c addr : num_harts (clint_read c addr).2 = num_harts c.
Proof. unfold clint_read. repeat case_match; reflexivity. Qed.
Create Rewrite HintDb clint.
#[export] Hint Rewrite clint_write_harts clint_read_harts : clint.
