(* ===== verification/Hart.v ===== *)
(** * The state of a hart and of the machine: the data members of class [hart] in
    [sim/emulator/hart.h], the memory and console it is connected to, and the
    primitive accesses on which the instruction step is built.

    The members are grouped in records: fault flags, decode latches, LR/SC
    reservation, execution temporaries (several of them keep stale values that
    later steps can observe), CSRs. [world] holds what the harts share: the
    memory vector, the CLINT, the two static members and the console. *)

From S2P Require Import Prelude Constants Alu Csr Clint.

(** ** The console: system calls on the controlling terminal *)

Class Console := {
  tty : Type;
  (** [ioctl(0, FIONREAD, &n)]: the return value, the count stored in [n]. *)
  ioctl_fionread : tty -> Z * Z * tty;
  (** [read(0, &ch, 1)]: the return value, the byte stored in [ch]. *)
  read_byte : tty -> Z * Z * tty;
  (** [tcgetattr(0, &term)] and [tcsetattr(0, TCSANOW, &term)], on [term.c_lflag]. *)
  tcgetattr_lflag : tty -> Z;
  tcsetattr_lflag : Z -> tty -> tty;
  (** [<termios.h>] *)
  ICANON : Z;
  ECHO : Z
}.

(** ** Data members *)

Record flags := {
  LD_ADDR_MISSALIG : bool; STORE_ADDR_MISSALIG : bool; ILL_INS : bool; EBREAK : bool;
  INS_ADDR_MISSALIG : bool; INS_ACC_FAULT : bool; LD_ACC_FAULT : bool }.

Record latches := {
  opcode : Z; rd : Z; func3 : Z; rs1 : Z; rs2 : Z; func7 : Z; imm11_0 : Z; imm31_12 : Z;
  imm_j : Z; imm_b : Z; imm_s : Z; imm : Z; amo_op : Z }.

Record reservation := {
  amo_reserve_valid : bool; amo_reserve_valid64 : bool;
  amo_reserve_addr : Z; amo_reserve_addr64 : Z; amo_reserve_gen : Z }.

Record temps := {
  wb_data : Z; load_addr : Z; load_data : Z; ls_success : bool; store_addr : Z; store_data : Z;
  val : Z; branch : bool; csr_data : Z; csr_bool : bool; csr_read_success : bool;
  itr : Z; mult_temp : Z; ret_data : Z }.

Record csrs := {
  satp : satp_t; mstatus : mstatus_t; ustatus : ustatus_t; mie : mie_t; mip : mip_t;
  mtvec : mtvec_t; utvec : utvec_t; mcause : mcause_t; ucause : ucause_t;
  misa : Z; mscratch : Z; medeleg : Z; mideleg : Z; mepc : Z; uepc : Z; mtval : Z;
  mcounteren : Z; scounteren : Z; pmpcfg0 : Z; pmpaddr0 : Z;
  mhartid : Z; mvendorid : Z; marchid : Z; mimpid : Z }.

Record hart := {
  PC : Z; PC_phy : Z; instruction : Z; cp : plevel_t;
  reg_file : list Z;
  fl : flags; lt : latches; rs : reservation; tm : temps; cs : csrs;
  smp_released : bool; in_wfi : bool; post_kick_protect : Z }.

(** The state shared by the harts. [cout] lists the bytes written to standard
    output, oldest first. *)
Record world `{Console} := {
  memory : vec;
  clint : CLINT;
  global_store_gen : Z;
  uart_rx_byte : Z;
  term : tty;
  cout : list Z }.

(** ** Initial values *)

Definition flags_init : flags :=
  {| LD_ADDR_MISSALIG := false; STORE_ADDR_MISSALIG := false; ILL_INS := false; EBREAK := false;
     INS_ADDR_MISSALIG := false; INS_ACC_FAULT := false; LD_ACC_FAULT := false |}.
Definition latches_init : latches :=
  {| opcode := 0; rd := 0; func3 := 0; rs1 := 0; rs2 := 0; func7 := 0; imm11_0 := 0; imm31_12 := 0;
     imm_j := 0; imm_b := 0; imm_s := 0; imm := 0; amo_op := 0 |}.
Definition reservation_init : reservation :=
  {| amo_reserve_valid := false; amo_reserve_valid64 := false;
     amo_reserve_addr := 0; amo_reserve_addr64 := 0; amo_reserve_gen := 0 |}.
Definition temps_init : temps :=
  {| wb_data := 0; load_addr := 0; load_data := 0; ls_success := false; store_addr := 0; store_data := 0;
     val := 0; branch := false; csr_data := 0; csr_bool := false; csr_read_success := false;
     itr := 0; mult_temp := 0; ret_data := 0 |}.
Definition csrs_init (hid : Z) : csrs :=
  {| satp := satp_init; mstatus := mstatus_init; ustatus := ustatus_init; mie := mie_init; mip := mip_init;
     mtvec := mtvec_init; utvec := utvec_init; mcause := mcause_init; ucause := ucause_init;
     misa := Z.lor 0x101101 (Z.shiftl 1 63);
     mscratch := 0; medeleg := 0; mideleg := 0; mepc := 0; uepc := 0; mtval := 0;
     mcounteren := 0; scounteren := 0; pmpcfg0 := 0; pmpaddr0 := 0;
     mhartid := hid; mvendorid := 0; marchid := 0; mimpid := 0 |}.

(** The member initialisers and the constructor, then [hart_init(memory, hid)]. *)
Definition hart_init (LOCKSTEP : bool) (hid : Z) : hart :=
  {| PC := DRAM_BASE; PC_phy := 0; instruction := 0; cp := MMODE;
     reg_file := replicate 32 0;
     fl := flags_init; lt := latches_init; rs := reservation_init; tm := temps_init; cs := csrs_init hid;
     smp_released := if LOCKSTEP then true else hid =? 0;
     in_wfi := false; post_kick_protect := 0 |}.

(** ** Registers *)

(** [reg_file[r]]; every index used by the step is a 5-bit field. *)
Definition reg (h : hart) (r : Z) : Z := default 0 (reg_file h !! Z.to_nat r).
Definition set_reg (r v : Z) (h : hart) : hart := { h with reg_file ::= insert (Z.to_nat r) v }.
Definition set_wb (v : Z) (h : hart) : hart := { h with tm -> wb_data := v }.

(** ** Memory and state access in the outcome monad *)

Record st `{Console} := mkst { hrt : hart; wld : world }.

Section Access.
Context `{Console}.

Definition get_hart : M st hart := gets hrt.
Definition get_world : M st world := gets wld.
Definition on_hart (f : hart -> hart) : M st unit := modify (fun s => { s with hrt ::= f }).
Definition on_world (f : world -> world) : M st unit := modify (fun s => { s with wld ::= f }).

(** [memory.at(i)]: throws [std::out_of_range] outside the vector. *)
Definition mem_at (i : Z) : M st Z := fun s =>
  if vec_in (memory (wld s)) i then Ok (vec_get (memory (wld s)) i) s else Throw s.
(** [memory.at(i) = x] *)
Definition mem_put (i x : Z) : M st unit := fun s =>
  if vec_in (memory (wld s)) i
  then Ok tt { s with wld -> memory ::= (fun m => vec_put m i x) } else Throw s.
Definition bump_store_gen : M st unit :=
  on_world (fun w => { w with global_store_gen := u64 (global_store_gen w + 1) }).
Definition put_char (c : Z) : M st unit := on_world (fun w => { w with cout ::= (fun l => l ++ [u8 c]) }).

(** An unchecked vector index: [None] is undefined behaviour. *)
Definition checked {A} (o : option A) : M st A := fun s => match o with Some a => Ok a s | None => UB end.

Definition check_timer (h : Z) : M st bool :=
  fun s => checked (check_timer_interrupt (clint (wld s)) (u32 h)) s.
Definition check_software (h : Z) : M st bool :=
  fun s => checked (check_software_interrupt (clint (wld s)) (u32 h)) s.
Definition clint_store (L : bool) (addr value size : Z) : M st unit :=
  on_world (fun w => { w with clint ::= (fun c => clint_write L c addr value size) }).
Definition clint_load (addr : Z) : M st Z := fun s =>
  let '(v, c) := clint_read (clint (wld s)) addr in Ok v { s with wld -> clint := c }.

(** [terminal.h] *)
Definition kbhit : M st bool := fun s =>
  let '(r, byteswaiting, t) := ioctl_fionread (term (wld s)) in
  Ok (if r <? 0 then false else 0 <? byteswaiting) { s with wld -> term := t }.
Definition read_stdin : M st (Z * Z) := fun s =>
  let '(r, ch, t) := read_byte (term (wld s)) in Ok (r, u8 ch) { s with wld -> term := t }.
Definition set_lflag (f : Z -> Z) : M st unit :=
  on_world (fun w => { w with term ::= (fun t => tcsetattr_lflag (f (tcgetattr_lflag t)) t) }).
Definition enable_raw_mode : M st unit := set_lflag (fun l => Z.land l (u32 (Z.lnot (Z.lor ICANON ECHO)))).
Definition disable_raw_mode : M st unit := set_lflag (fun l => Z.lor l (Z.lor ICANON ECHO)).
End Access.
