(* ===== verification/Trap.v ===== *)
(** * CSR access, trap entry and instruction fetch

    [csr_read] and [csr_write] of [hart_csr.inc]; [excep_function],
    [interrupt_function] and [getINST] of [hart_trap.inc]; [hart_fetch_instruction],
    the interrupt take-overs and the other accessors of [hart.h]. *)

From S2P Require Import Prelude Constants Alu Csr Clint Hart.

(** ** CSR file *)

Definition csr_read (csr_addr : Z) (h : hart) : Z * hart :=
  let ok v := (v, { h with tm -> csr_read_success := true }) in
  let fail := (1, { h with tm -> csr_read_success := false }) in
  let c := cs h in
  if csr_addr =? MSTATUS then
    if decide (cp h = MMODE) then ok (mstatus_read_reg (mstatus c)) else fail
  else if csr_addr =? SATP then ok (satp_read_reg (satp c))
  else if csr_addr =? MIE then ok (mie_read_reg (mie c))
  else if csr_addr =? MIP then ok (mip_read_reg (mip c))
  else if csr_addr =? MTVEC then ok (mtvec_read_reg (mtvec c))
  else if csr_addr =? MEPC then ok (mepc c)
  else if csr_addr =? MCAUSE then ok (mcause_read_reg (mcause c))
  else if csr_addr =? MTVAL then ok (mtval c)
  else if csr_addr =? PMPCFG0 then ok (pmpcfg0 c)
  else if csr_addr =? PMPADDR0 then ok (pmpaddr0 c)
  else if csr_addr =? MHARTID then ok (mhartid c)
  else if csr_addr =? MVENDORID then ok (mvendorid c)
  else if csr_addr =? MARCHID then ok (marchid c)
  else if csr_addr =? MIMPID then ok (mimpid c)
  else if csr_addr =? MSCRATCH then ok (mscratch c)
  else if csr_addr =? MISA then ok (misa c)
  else if csr_addr =? SCOUNTEREN then ok (scounteren c)
  else if csr_addr =? MCOUNTEREN then ok (mcounteren c)
  else fail.

Section CsrWrite.
Context `{Console} (LOCKSTEP : bool).

Local Open Scope prog_scope.

(** [csr_write]: the boolean is its return value. A write to MIP with the MSIP
    bit clear also clears the CLINT word of the hart. *)
Definition csr_write (csr_addr value : Z) : M st bool :=
  let set f := (on_hart f ;;; ret true) in
  if csr_addr =? MSTATUS then set (fun h => { h with cs -> mstatus ::= (fun m => mstatus_write_reg m value) })
  else if csr_addr =? SATP then set (fun h => { h with cs -> satp := satp_write_reg value })
  else if csr_addr =? MIE then set (fun h => { h with cs -> mie := mie_write_reg value })
  else if csr_addr =? MIP then
    on_hart (fun h => { h with cs -> mip := mip_write_reg value }) ;;;
    h <- get_hart ;;
    when (Z.land value (Z.shiftl 1 3) =? 0)
      (clint_store LOCKSTEP (u64 (CLINT_BASE + 4 * mhartid (cs h))) 0 4) ;;;
    ret true
  else if csr_addr =? MTVEC then set (fun h => { h with cs -> mtvec := mtvec_write_reg value })
  else if csr_addr =? MEPC then set (fun h => { h with cs -> mepc := value })
  else if csr_addr =? MCAUSE then set (fun h => { h with cs -> mcause := mcause_write_reg value })
  else if csr_addr =? MTVAL then set (fun h => { h with cs -> mtval := value })
  else if csr_addr =? PMPCFG0 then set (fun h => { h with cs -> pmpcfg0 := value })
  else if csr_addr =? PMPADDR0 then set (fun h => { h with cs -> pmpaddr0 := value })
  else if csr_addr =? MHARTID then set (fun h => { h with cs -> mhartid := value })
  else if csr_addr =? MVENDORID then set (fun h => { h with cs -> mvendorid := value })
  else if csr_addr =? MARCHID then set (fun h => { h with cs -> marchid := value })
  else if csr_addr =? MIMPID then set (fun h => { h with cs -> mimpid := value })
  else if csr_addr =? MSCRATCH then set (fun h => { h with cs -> mscratch := value })
  else if csr_addr =? MISA then set (fun h => { h with cs -> misa := value })
  else if csr_addr =? SCOUNTEREN then set (fun h => { h with cs -> scounteren := value })
  else if csr_addr =? MCOUNTEREN then set (fun h => { h with cs -> mcounteren := value })
  else ret false.
End CsrWrite.

(** ** Trap entry *)

(** [excep_function(PC, mecode, secode, uecode, cp)]: the new PC and the updated hart. *)
Definition excep_function (pc mecode secode uecode : Z) (current_privilage : plevel_t) (h : hart)
  : Z * hart :=
  let ecode := match current_privilage with UMODE => uecode | MMODE => mecode | _ => 0 end in
  let old_mie := ms_mie (mstatus (cs h)) in
  let h := { h with
    cs -> mstatus -> ms_mpp := plevel_to_Z (cp h);
    cp := MMODE;
    cs -> mstatus -> ms_mpie := old_mie;
    cs -> mstatus -> ms_mie := 0;
    cs -> mcause -> mcause_interrupt := 0;
    cs -> mcause -> mcause_ecode := ecode;
    cs -> mepc := u64 (pc - 4) } in
  (mtvec_base (mtvec (cs h)), h).

(** [interrupt_function(PC, mecode, cp)] *)
Definition interrupt_function (pc mecode : Z) (h : hart) : Z * hart :=
  let ecode := mecode in
  if ms_mie (mstatus (cs h)) =? 1 then
    let old_mie := ms_mie (mstatus (cs h)) in
    let h := { h with
      cs -> mstatus -> ms_mpp := plevel_to_Z (cp h);
      cp := MMODE;
      cs -> mstatus -> ms_mpie := old_mie;
      cs -> mstatus -> ms_mie := 0;
      cs -> mcause -> mcause_interrupt := 1;
      cs -> mcause -> mcause_ecode := ecode;
      cs -> mepc := pc } in
    let tv := mtvec (cs h) in
    let new_PC :=
      if mtvec_mode tv =? 0 then mtvec_base tv
      else if mtvec_mode tv =? 1 then u64 (mtvec_base tv + 4 * ecode)
      else 0 in
    (new_PC, h)
  else (pc, h).

(** [PC = excep_function(PC, code, code, code, cp)] *)
Definition raise_exception (mecode secode uecode : Z) (h : hart) : hart :=
  let '(pc, h) := excep_function (PC h) mecode secode uecode (cp h) h in
  { h with PC := pc }.
(** [PC = interrupt_function(PC, code, cp)] *)
Definition raise_interrupt (code : Z) (h : hart) : hart :=
  let '(pc, h) := interrupt_function (PC h) code h in
  { h with PC := pc }.

(** The reset of the wait state and the reservations that precedes every
    interrupt taken by the step. *)
Definition drop_reservations (h : hart) : hart :=
  { h with in_wfi := false; rs -> amo_reserve_valid := false; rs -> amo_reserve_valid64 := false }.

Definition take_machine_timer_irq (h : hart) : hart :=
  raise_interrupt CAUSE_MACHINE_TIMER_INT (drop_reservations h).
Definition take_machine_soft_irq (h : hart) : hart :=
  raise_interrupt CAUSE_MACHINE_SOFT_INT (drop_reservations h).

(** [mret] *)
Definition mret (h : hart) : hart :=
  let m := mstatus (cs h) in
  { h with
    PC := mepc (cs h);
    cp := plevel_of_Z (ms_mpp m);
    cs -> mstatus -> ms_mie := ms_mpie m;
    cs -> mstatus -> ms_mpp := 0;
    cs -> mstatus -> ms_mpie := 1;
    in_wfi := false }.

(** ** Accessors used by the lock-step harness *)

Definition clear_wfi (h : hart) : hart := { h with in_wfi := false }.
Definition get_mstatus (h : hart) : Z := mstatus_read_reg (mstatus (cs h)).
Definition get_pc (h : hart) : Z := PC h.
Definition set_mepc (v : Z) (h : hart) : hart := { h with cs -> mepc := v }.
Definition get_mepc (h : hart) : Z := mepc (cs h).
Definition set_mstatus (v : Z) (h : hart) : hart :=
  { h with cs -> mstatus ::= (fun m => mstatus_write_reg m v) }.
(** [reg_file[rd] = value] with an index that is not checked. *)
Definition set_register_with_value (rd value : Z) (h : hart) : option hart :=
  if decide (Z.to_nat rd < length (reg_file h))%nat then Some (set_reg rd value h) else None.

(** ** Fetch *)

Section Fetch.
Context `{Console}.
Local Open Scope prog_scope.

(** [getINST(PC, memory)]: [idx] counts 32-bit words. *)
Definition getINST (idx : Z) : M st Z :=
  d <- mem_at (idx / 2) ;;
  ret (if idx mod 2 =? 0 then Z.land 0xFFFFFFFF d else Z.shiftr d 32).

(** [hart_fetch_instruction(PC, memory)]. The parameter [PC] shadows the
    member, so the adjustments of [PC] in the two failing branches are lost. *)
Definition hart_fetch_instruction (pc : Z) : M st Z :=
  if (pc <? DRAM_BASE) || (DRAM_BASE + DRAM_SIZE <=? pc) then ret 0
  else
    on_hart (fun h => { h with PC_phy := pc - DRAM_BASE }) ;;;
    if pc mod 4 =? 0 then
      i <- getINST ((pc - DRAM_BASE) / 4) ;;
      on_hart (fun h => { h with instruction := i }) ;;;
      ret i
    else
      on_hart (fun h => { h with fl -> INS_ADDR_MISSALIG := true }) ;;;
      ret 0.

(** [get_instruction(memory)] *)
Definition get_instruction : M st Z :=
  h <- get_hart ;;
  i <- hart_fetch_instruction (PC h) ;;
  ret (u32 i).

(** [is_peripheral_read(memory)] *)
Definition is_peripheral_read : M st Z :=
  h <- get_hart ;;
  i <- hart_fetch_instruction (PC h) ;;
  let i := u32 i in
  if negb (Z.land i 0x7f =? 0x03) then ret 0
  else
    h <- get_hart ;;
    let iimm := Z.shiftr (s32 i) 20 in
    let a := u64 (reg h (Z.land (Z.shiftr i 15) 0x1f) + u64 iimm) in
    if (DRAM_BASE <=? a) && (a <=? DRAM_BASE + DRAM_SIZE) then ret 0
    else if (0x02000000 <=? a) && (a <? 0x02000000 + 0xc0000) then ret 0
    else if (0x40600000 <=? a) && (a <=? 0x4060000c) then ret 0
    else ret 1.
End Fetch.
