(* ===== verification/Execute.v ===== *)
(** * The instruction step: [sim/emulator/hart_execute.inc]

    [decode] fills the decode latches, one [exec_*] definition models each case
    of the opcode switch, [exec_instr] is the switch, and [hart_step] is the
    whole function: parking, interrupt take-over, WFI, fetch, test-completion
    exits, decode and execution. *)

From S2P Require Import Prelude Constants Alu MemAccess Csr Clint Hart Trap.

(** ** Decode *)

Definition decode (i : Z) : latches :=
  let rd_ := Z.land (Z.shiftr i 7) 0x1f in
  let imm_ := u32 (Z.lor rd_ (Z.land (Z.shiftr i (25 - 5)) 0xfe0)) in
  {| opcode := Z.land i 0x7f;
     rd := rd_;
     func3 := Z.land (Z.shiftr i 12) 0x7;
     rs1 := Z.land (Z.shiftr i 15) 0x1f;
     rs2 := Z.land (Z.shiftr i 20) 0x1f;
     func7 := Z.land (Z.shiftr i 25) 0x7f;
     imm11_0 := Z.land (Z.shiftr i 20) 0xfff;
     imm31_12 := Z.land (Z.shiftr i 12) 0xFFFFF;
     imm_j := Z.shiftl (Z.land (Z.shiftr i 31) 1) 20 + Z.land i (Z.shiftl 0xff 12)
              + Z.shiftl (Z.land (Z.shiftr i 20) 1) 11 + Z.shiftl (Z.land (Z.shiftr i 21) 0x3ff) 1;
     imm_b := Z.shiftl (Z.land (Z.shiftr i 31) 1) 12 + Z.shiftl (Z.land (Z.shiftr i 7) 1) 11
              + Z.shiftl (Z.land (Z.shiftr i 25) 0x3f) 5 + Z.land (Z.shiftr i 7) 0x1e;
     imm_s := Z.shiftl (Z.land (Z.shiftr i 25) 0x7f) 5 + Z.land (Z.shiftr i 7) 0x1f;
     imm := Z.shiftr (u32 (Z.shiftl imm_ 20)) 20;
     amo_op := Z.land (Z.shiftr i 27) 0x1f |}.

(** ** Register instructions

    The functions below are the cases that touch only the hart. [rv1] and [rv2]
    are [reg_file[rs1]] and [reg_file[rs2]]. *)

Section Pure.
Implicit Types h : hart.

Definition rv1 h : Z := reg h (rs1 (lt h)).
Definition rv2 h : Z := reg h (rs2 (lt h)).
(** [reg_file[rd] = v] *)
Definition set_rd (v : Z) h : hart := set_reg (rd (lt h)) v h.
(** [wb_data = v; reg_file[rd] = wb_data] *)
Definition write_back (v : Z) h : hart := set_rd v (set_wb v h).
Definition set_pc (v : Z) h : hart := { h with PC := v }.

Definition exec_lui h : hart :=
  write_back (sign_extend (Z.land (instruction h) 0xFFFFF000) 32) h.

Definition exec_auipc h : hart :=
  write_back (u64 (u64 (PC h - 4) + sign_extend (u64 (Z.shiftl (imm31_12 (lt h)) 12)) 32)) h.

Definition exec_jump h : hart :=
  let wb := PC h in
  let h := set_wb wb h in
  let h := set_pc (u64 (u64 (PC h - 4) + sign_extend (imm_j (lt h)) 21)) h in
  if PC h mod 4 =? 0 then set_rd wb h else h.

Definition exec_jumpr h : hart :=
  let wb := PC h in
  let h := set_wb wb h in
  let h := set_pc (Z.land (u64 (rv1 h + sign_extend (imm11_0 (lt h)) 12)) 0xFFFFFFFFFFFFFFFE) h in
  if PC h mod 4 =? 0 then set_rd wb h else h.

(** The branch condition; the undefined values of [func3] leave [branch] as
    the previous branch instruction set it. *)
Definition branch_taken (f3 a b : Z) (old : bool) : bool :=
  if f3 =? 0 then a =? b
  else if f3 =? 1 then negb (a =? b)
  else if f3 =? 4 then signed_value a <? signed_value b
  else if f3 =? 5 then signed_value b <=? signed_value a
  else if f3 =? 6 then a <? b
  else if f3 =? 7 then b <=? a
  else old.

Definition exec_cjump h : hart :=
  let h := { h with tm -> branch := branch_taken (func3 (lt h)) (rv1 h) (rv2 h) (branch (tm h)) } in
  if branch (tm h) then set_pc (u64 (PC h - 4 + sign_extend (imm_b (lt h)) 13)) h else h.

(** The SRAI loop: [n] one-bit steps that keep the top bit in place. *)
Definition sra_step (top : Z) (w : Z) : Z := Z.lor (Z.land w top) (Z.shiftr w 1).
Definition sra_loop (top n w : Z) : Z := Nat.iter (Z.to_nat n) (sra_step top) w.

(** [wb_data] after the [iops] switch; [old] is its value before. *)
Definition iops_result (f3 f7 imm a old : Z) : Z :=
  let simm := sign_extend imm 12 in
  if f3 =? 0 then u64 (a + signed_value simm)
  else if f3 =? 2 then (if signed_value a <? signed_value simm then 1 else 0)
  else if f3 =? 3 then (if a <? simm then 1 else 0)
  else if f3 =? 7 then Z.land a simm
  else if f3 =? 6 then Z.lor a simm
  else if f3 =? 4 then Z.lxor a simm
  else if f3 =? 1 then u64 (Z.shiftl a (Z.land imm 0x3f))
  else if f3 =? 5 then
    if Z.shiftr f7 1 =? 0 then Z.shiftr a (Z.land imm 0x3f)
    else if Z.shiftr f7 1 =? 0x10 then sra_loop (Z.shiftl 1 63) (Z.land imm 0x3f) a
    else old
  else old.

Definition exec_iops h : hart :=
  let l := lt h in
  let shamt := Z.land (imm11_0 l) 0x3f in
  let h := if (func3 l =? 5) && (Z.shiftr (func7 l) 1 =? 0x10)
           then { h with tm -> itr := shamt } else h in
  write_back (iops_result (func3 l) (func7 l) (imm11_0 l) (rv1 h) (wb_data (tm h))) h.

Definition iops64_result (f3 f7 imm a old : Z) : Z :=
  if f3 =? 0 then sign_extend (Z.land MASK32 (u64 (a + sign_extend imm 12))) 32
  else if f3 =? 1 then sign_extend (Z.land MASK32 (u64 (Z.shiftl a (Z.land imm 0x1f)))) 32
  else if f3 =? 5 then
    if Z.shiftr f7 1 =? 0 then
      sign_extend (Z.land MASK32 (Z.shiftr (Z.land a MASK32) (Z.land imm 0x1f))) 32
    else if Z.shiftr f7 1 =? 0x10 then
      sign_extend (Z.land MASK32 (sra_loop (Z.shiftl 1 31) (Z.land imm 0x1f) (Z.land a MASK32))) 32
    else old
  else old.

Definition exec_iops64 h : hart :=
  let l := lt h in
  let shamt := Z.land (imm11_0 l) 0x1f in
  let h := if (func3 l =? 5) && (Z.shiftr (func7 l) 1 =? 0x10)
           then { h with tm -> itr := shamt } else h in
  write_back (iops64_result (func3 l) (func7 l) (imm11_0 l) (rv1 h) (wb_data (tm h))) h.

(** [func7 = 0000000]: the new [wb_data]. *)
Definition rops_result (f3 a b : Z) : Z :=
  if f3 =? 0 then u64 (a + b)
  else if f3 =? 2 then (if signed_value a <? signed_value b then 1 else 0)
  else if f3 =? 3 then (if a <? b then 1 else 0)
  else if f3 =? 7 then Z.land a b
  else if f3 =? 6 then Z.lor a b
  else if f3 =? 4 then Z.lxor a b
  else if f3 =? 1 then u64 (Z.shiftl a (Z.land b 0x3f))
  else Z.shiftr a (Z.land b 0x3f).

(** [func7 = 0000001], [func3 < 4]: the new [mult_temp], a [__uint128_t]. *)
Definition mult_result (f3 a b : Z) : Z :=
  if f3 =? 0 then u64 (a * b)
  else if f3 =? 1 then u128 (u128 (signed_value a) * u128 (signed_value b))
  else if f3 =? 2 then u128 (u128 (signed_value a) * b)
  else u128 (a * b).

(** [func7 = 0000001], [func3 >= 4]: the value written to [rd]. *)
Definition div_result (f3 a b : Z) : Z :=
  if f3 =? 4 then u64 (divi Signed (signed_value a) (signed_value b) 0)
  else if f3 =? 5 then divi Unsigned a b 1
  else if f3 =? 6 then u64 (divi Signed (signed_value a) (signed_value b) 2)
  else divi Unsigned a b 3.

Definition exec_rops h : hart :=
  let l := lt h in
  if func7 l =? 0 then write_back (rops_result (func3 l) (rv1 h) (rv2 h)) h
  else if func7 l =? 1 then
    if func3 l <? 4 then
      let m := mult_result (func3 l) (rv1 h) (rv2 h) in
      let h := { h with tm -> mult_temp := m } in
      set_rd (if func3 l =? 0 then Z.land m MASK64 else Z.land (Z.shiftr m 64) MASK64) h
    else set_rd (div_result (func3 l) (rv1 h) (rv2 h)) h
  else if func7 l =? 0x20 then
    if func3 l =? 0 then write_back (u64 (rv1 h - rv2 h)) h
    else if func3 l =? 5 then
      let n := Z.land (rv2 h) 0x3f in
      let h := { h with tm -> itr := n } in
      write_back (sra_loop (Z.shiftl 1 63) n (rv1 h)) h
    else set_rd (wb_data (tm h)) h
  else h.

(** [wb_data] after the three inner switches of [rops64]. *)
Definition rops64_result (f7 f3 a b old : Z) : Z :=
  let a32 := Z.land a MASK32 in
  let b32 := Z.land b MASK32 in
  if f7 =? 0 then
    if f3 =? 0 then sign_extend (Z.land (u64 (a + b)) MASK32) 32
    else if f3 =? 1 then sign_extend (Z.land (u64 (Z.shiftl a (Z.land b 0x1f))) MASK32) 32
    else if f3 =? 5 then sign_extend (Z.shiftr a32 (Z.land b 0x1f)) 32
    else old
  else if f7 =? 1 then
    if f3 =? 0 then sign_extend (Z.land (u64 (a32 * b32)) MASK32) 32
    else if f3 =? 4 then
      sign_extend (Z.land MASK32 (u64 (divi32 Signed (signed_value32 a32) (signed_value32 b32) 0))) 32
    else if f3 =? 5 then sign_extend (divi32 Unsigned (u32 a) (u32 b) 1) 32
    else if f3 =? 6 then
      sign_extend (Z.land (u64 (divi32 Signed (signed_value32 a) (signed_value32 b) 2)) MASK32) 32
    else if f3 =? 7 then sign_extend (divi32 Unsigned (u32 a) (u32 b) 3) 32
    else old
  else
    if f3 =? 0 then sign_extend (Z.land (u64 (a32 - b32)) MASK32) 32
    else if f3 =? 5 then sign_extend (sra_loop (Z.shiftl 1 31) (Z.land b 0x1f) a32) 32
    else old.

Definition exec_rops64 h : hart :=
  let l := lt h in
  if (func7 l =? 0) || (func7 l =? 1) || (func7 l =? 0x20) then
    let v := rops64_result (func7 l) (func3 l) (rv1 h) (rv2 h) (wb_data (tm h)) in
    let h := if (func7 l =? 0x20) && (func3 l =? 5)
             then { h with tm -> itr := Z.land (rv2 h) 0x1f } else h in
    write_back v h
  else h.
End Pure.

(** ** Loads, stores, atomics, system instructions *)

Section Exec.
Context `{Console} (LOCKSTEP : bool).
Local Open Scope prog_scope.

Definition in_dram_load (a : Z) : bool := (DRAM_BASE <=? a) && (a <=? DRAM_BASE + DRAM_SIZE).
Definition in_dram_store (a : Z) : bool := (DRAM_BASE <=? a) && (a <? DRAM_BASE + DRAM_SIZE).
Definition in_dram_amo (a : Z) : bool := (DRAM_BASE <? a) && (a <? DRAM_BASE + DRAM_SIZE).
Definition in_clint (a : Z) : bool := (CLINT_BASE <=? a) && (a <=? CLINT_BASE + CLINT_SIZE).
(** Index of the 64-bit cell that contains a DRAM address. *)
Definition dram_idx (a : Z) : Z := (a - DRAM_BASE) / 8.

(** *** Loads *)

(** The [func3] switch, with [load_addr] and [load_data] set. *)
Definition load_switch (h : hart) : hart :=
  let f3 := func3 (lt h) in
  let a := load_addr (tm h) in
  let d := load_data (tm h) in
  let finish (r : bool * Z) (ext : Z -> Z) :=
    if r.1 then write_back (ext r.2) h
    else { (set_wb r.2 h) with fl -> LD_ADDR_MISSALIG := true } in
  if f3 =? 0 then finish (load_byte a d) (fun w => sign_extend (Z.land w 0xFF) 8)
  else if f3 =? 1 then finish (load_halfw a d) (fun w => sign_extend (Z.land w 0xFFFF) 16)
  else if f3 =? 2 then finish (load_word a d) (fun w => sign_extend (Z.land w 0xFFFFFFFF) 32)
  else if f3 =? 4 then finish (load_byte a d) (fun w => Z.land w 0xFF)
  else if f3 =? 5 then finish (load_halfw a d) (fun w => Z.land w 0xFFFF)
  else if f3 =? 6 then finish (load_word a d) (fun w => Z.land w 0xFFFFFFFF)
  else if f3 =? 3 then
    if a mod 8 =? 0 then write_back d h else { h with fl -> LD_ADDR_MISSALIG := true }
  else h.

Definition set_load_data (d : Z) (h : hart) : hart := { h with tm -> load_data := d }.

(** The uartlite registers. *)
Definition uart_load (a : Z) : M st unit :=
  if a =? FIFO_ADDR_STATUS then
    (if LOCKSTEP then ret tt
     else
       w <- get_world ;;
       if uart_rx_byte w <? 0 then
         k <- kbhit ;;
         when k
           (r <- read_stdin ;;
            when (r.1 =? 1) (on_world (fun w => { w with uart_rx_byte := r.2 })))
       else ret tt) ;;;
    w <- get_world ;;
    on_hart (write_back (if 0 <=? uart_rx_byte w then Z.lor ULITE_STATUS_TXEMPTY ULITE_STATUS_RXVALID
                         else ULITE_STATUS_TXEMPTY))
  else if a =? FIFO_ADDR_RX then
    w <- get_world ;;
    let v := if 0 <=? uart_rx_byte w then uart_rx_byte w else 0 in
    on_world (fun w => { w with uart_rx_byte := -1 }) ;;;
    on_hart (write_back v)
  else on_hart (fun h => set_rd (wb_data (tm h)) h).

Definition exec_load : M st unit :=
  h <- get_hart ;;
  let a := Z.land (u64 (rv1 h + sign_extend (imm11_0 (lt h)) 12)) 0xffffffff in
  on_hart (fun h => { h with tm -> load_addr := a }) ;;;
  if signed_value a <? 0 then on_hart (fun h => { h with fl -> LD_ACC_FAULT := true })
  else if negb (a =? FIFO_ADDR_RX) && negb (a =? FIFO_ADDR_TX) && negb (a =? FIFO_ADDR_STATUS) then
    (if in_dram_load a then
       w <- get_world ;;
       if vec_size (memory w) <=? dram_idx a then
         on_hart (fun h => { h with fl -> LD_ACC_FAULT := true; tm -> load_data := 0 })
       else
         d <- mem_at (dram_idx a) ;;
         on_hart (set_load_data d)
     else if in_clint a then
       d <- clint_load a ;;
       on_hart (set_load_data d)
     else on_hart (set_load_data 0)) ;;;
    on_hart load_switch
  else uart_load a.

(** *** Stores *)

(** The [func3] switch of a DRAM store, with [store_addr] and [store_data] set. *)
Definition store_switch (h : hart) : hart :=
  let f3 := func3 (lt h) in
  let a := store_addr (tm h) in
  let d := store_data (tm h) in
  let finish (v : Z) (r : bool * Z) :=
    { h with tm -> val := v; tm -> ls_success := r.1; tm -> wb_data := r.2 } in
  if f3 =? 0 then let v := Z.land (rv2 h) 0xFF in finish v (store_byte a d v)
  else if f3 =? 1 then let v := Z.land (rv2 h) 0xFFFF in finish v (store_halfw a d v)
  else if f3 =? 2 then let v := Z.land (rv2 h) 0xFFFFFFFF in finish v (store_word a d v)
  else if f3 =? 3 then
    if a mod 8 =? 0 then { h with tm -> wb_data := rv2 h; tm -> ls_success := true }
    else { h with tm -> ls_success := false }
  else h.

(** [if (!ls_success) trap else memory.at(idx) = wb_data]. *)
Definition store_commit (a : Z) : M st unit :=
  h <- get_hart ;;
  if ls_success (tm h) then
    w <- get_world ;;
    if vec_size (memory w) <=? dram_idx a then ret tt
    else mem_put (dram_idx a) (wb_data (tm h)) ;;; bump_store_gen
  else on_hart (raise_exception CAUSE_MISALIGNED_STORE CAUSE_MISALIGNED_STORE CAUSE_MISALIGNED_STORE).

Definition store_size (f3 : Z) : Z :=
  if f3 =? 0 then 1 else if f3 =? 1 then 2 else if f3 =? 2 then 4 else 8.

Definition exec_store : M st unit :=
  h <- get_hart ;;
  let a := Z.land (u64 (rv1 h + sign_extend (imm_s (lt h)) 12)) 0xffffffff in
  on_hart (fun h => { h with tm -> store_addr := a }) ;;;
  if negb (a =? FIFO_ADDR_TX) then
    if in_dram_store a then
      d <- mem_at (dram_idx a) ;;
      on_hart (fun h => { h with tm -> store_data := d }) ;;;
      on_hart store_switch ;;;
      store_commit a
    else if in_clint a then clint_store LOCKSTEP a (rv2 h) (store_size (func3 (lt h)))
    else if u64 (a - DRAM_BASE) =? FIFO_ADDR_TX then when (negb LOCKSTEP) (put_char (rv2 h))
    else ret tt
  else when (negb LOCKSTEP) (put_char (rv2 h)).

(** *** Atomics *)

(** [STORE_ADDR_MISSALIG = true; mtval = load_addr] *)
Definition amo_misaligned (h : hart) : hart :=
  { h with cs -> mtval := load_addr (tm h); fl -> STORE_ADDR_MISSALIG := true }.
Definition set_ret (v : Z) (h : hart) : hart := { h with tm -> ret_data := v }.
Definition set_ls (r : bool * Z) (h : hart) : hart := { h with tm -> ls_success := r.1; tm -> wb_data := r.2 }.
Definition amo_store (i x : Z) : M st unit := mem_put i x ;;; bump_store_gen.

(** The read-modify-write values of [amo_op]. *)
Definition is_rmw (op : Z) : bool :=
  (op =? 0x01) || (op =? 0x00) || (op =? 0x04) || (op =? 0x0c) || (op =? 0x08)
  || (op =? 0x10) || (op =? 0x14) || (op =? 0x18) || (op =? 0x1c).
(** The value an AMO stores, for the word ([w] and [v] are the low halves) ... *)
Definition amow_result (op w v : Z) : Z :=
  if op =? 0x01 then v
  else if op =? 0x00 then Z.land (u64 (w + v)) MASK32
  else if op =? 0x04 then Z.land (Z.lxor w v) MASK32
  else if op =? 0x0c then Z.land (Z.land w v) MASK32
  else if op =? 0x08 then Z.land (Z.lor w v) MASK32
  else if op =? 0x10 then Z.land (u64 (Z.min (signed_value32 w) (signed_value32 v))) MASK32
  else if op =? 0x14 then Z.land (u64 (Z.max (signed_value32 w) (signed_value32 v))) MASK32
  else if op =? 0x18 then Z.land (Z.min w v) MASK32
  else Z.land (Z.max w v) MASK32.
(** ... and for the doubleword. *)
Definition amod_result (op w v : Z) : Z :=
  if op =? 0x01 then v
  else if op =? 0x00 then u64 (w + v)
  else if op =? 0x04 then Z.lxor w v
  else if op =? 0x0c then Z.land w v
  else if op =? 0x08 then Z.lor w v
  else if op =? 0x10 then u64 (Z.min (signed_value w) (signed_value v))
  else if op =? 0x14 then u64 (Z.max (signed_value w) (signed_value v))
  else if op =? 0x18 then Z.min w v
  else Z.max w v.

Definition exec_lr_w : M st unit :=
  on_hart (fun h => set_ls (load_word (load_addr (tm h)) (load_data (tm h))) h) ;;;
  h <- get_hart ;;
  w <- get_world ;;
  on_hart (fun h =>
    if ls_success (tm h) then
      { (set_ret (sign_extend (Z.land (wb_data (tm h)) MASK32) 32) h) with
        rs -> amo_reserve_valid := true;
        rs -> amo_reserve_addr := load_addr (tm h);
        rs -> amo_reserve_gen := global_store_gen w }
    else amo_misaligned h).

Definition exec_sc_w : M st unit :=
  h <- get_hart ;;
  w <- get_world ;;
  (if amo_reserve_valid (rs h) && (rv1 h =? amo_reserve_addr (rs h))
      && (amo_reserve_gen (rs h) =? global_store_gen w)
   then
     let sd := Z.land (rv2 h) MASK32 in
     let r := store_word (load_addr (tm h)) (load_data (tm h)) sd in
     on_hart (fun h => { (set_ls r h) with tm -> store_data := sd }) ;;;
     if r.1 then
       amo_store (dram_idx (load_addr (tm h))) r.2 ;;; on_hart (set_ret 0)
     else on_hart (fun h => set_ret 1 (amo_misaligned h))
   else on_hart (set_ret 1)) ;;;
  on_hart (fun h => { h with rs -> amo_reserve_addr := 0; rs -> amo_reserve_valid := false }).

Definition exec_amo_rmw_w (op : Z) : M st unit :=
  h <- get_hart ;;
  let a := load_addr (tm h) in
  on_hart (set_ls (load_word a (load_data (tm h)))) ;;;
  h <- get_hart ;;
  if ls_success (tm h) then
    let old := Z.land (wb_data (tm h)) MASK32 in
    let new := amow_result op old (Z.land (rv2 h) MASK32) in
    let r := store_word a (load_data (tm h)) new in
    on_hart (fun h => { (set_ret (sign_extend old 32) h) with
                        tm -> wb_data := new; tm -> ls_success := r.1; tm -> store_data := r.2 }) ;;;
    amo_store (dram_idx a) r.2
  else on_hart amo_misaligned.

Definition exec_amo_w : M st unit :=
  h <- get_hart ;;
  let a := Z.land (rv1 h) 0xffffffff in
  on_hart (fun h => { h with tm -> load_addr := a }) ;;;
  if negb (in_dram_amo a) then exit_with 1
  else
    d <- mem_at (dram_idx a) ;;
    on_hart (set_load_data d) ;;;
    (let op := amo_op (lt h) in
     if op =? 0x02 then exec_lr_w
     else if op =? 0x03 then exec_sc_w
     else when (is_rmw op) (exec_amo_rmw_w op)) ;;;
    on_hart (fun h => set_rd (ret_data (tm h)) h).

Definition exec_lr_d : M st unit :=
  on_hart (fun h =>
    if negb (load_addr (tm h) mod 8 =? 0) then amo_misaligned h
    else { (set_ret (wb_data (tm h)) h) with
           rs -> amo_reserve_valid64 := true; rs -> amo_reserve_addr64 := rv1 h }).

(** Unlike SC.W, the doubleword SC does not look at [global_store_gen]. *)
Definition exec_sc_d : M st unit :=
  h <- get_hart ;;
  (if amo_reserve_valid64 (rs h) && (rv1 h =? amo_reserve_addr64 (rs h)) then
     on_hart (fun h => { h with tm -> store_data := rv2 h }) ;;;
     if negb (load_addr (tm h) mod 8 =? 0) then on_hart amo_misaligned
     else amo_store (dram_idx (load_addr (tm h))) (rv2 h) ;;; on_hart (set_ret 0)
   else on_hart (set_ret 1)) ;;;
  on_hart (fun h => { h with rs -> amo_reserve_addr64 := 0; rs -> amo_reserve_valid64 := false }).

Definition exec_amo_rmw_d (op : Z) : M st unit :=
  h <- get_hart ;;
  let a := load_addr (tm h) in
  if negb (a mod 8 =? 0) then on_hart amo_misaligned
  else
    let new := amod_result op (wb_data (tm h)) (rv2 h) in
    on_hart (fun h => set_wb new (set_ret (wb_data (tm h)) h)) ;;;
    amo_store (dram_idx a) new.

Definition exec_amo_d : M st unit :=
  h <- get_hart ;;
  let a := Z.land (rv1 h) 0xffffffff in
  on_hart (fun h => { h with tm -> load_addr := a }) ;;;
  if negb (in_dram_amo a) then exit_with 1
  else
    d <- mem_at (dram_idx a) ;;
    on_hart (set_wb d) ;;;
    (let op := amo_op (lt h) in
     if op =? 0x02 then exec_lr_d
     else if op =? 0x03 then exec_sc_d
     else when (is_rmw op) (exec_amo_rmw_d op)) ;;;
    on_hart (fun h => set_rd (ret_data (tm h)) h).

Definition exec_amo : M st unit :=
  h <- get_hart ;;
  if func3 (lt h) =? 2 then exec_amo_w
  else if func3 (lt h) =? 3 then exec_amo_d
  else ret tt.

(** *** System instructions *)

Definition illegal (h : hart) : hart :=
  { h with cs -> mtval := instruction h; fl -> ILL_INS := true }.

(** [csr_data = csr_read(imm11_0)] *)
Definition csr_fetch (h : hart) : hart :=
  let '(v, h) := csr_read (imm11_0 (lt h)) h in { h with tm -> csr_data := v }.

(** The common body of the six CSR instructions. [new] computes the value
    written from the value read; [keep] tells whether the case goes through
    [store_data]; [guard] whether [rd] is tested for 0. *)
Definition exec_csr (new : hart -> Z -> Z) (keep guard : bool) : M st unit :=
  on_hart csr_fetch ;;;
  h <- get_hart ;;
  if csr_read_success (tm h) then
    let v := new h (csr_data (tm h)) in
    when keep (on_hart (fun h => { h with tm -> store_data := v })) ;;;
    ok <- csr_write LOCKSTEP (imm11_0 (lt h)) v ;;
    on_hart (fun h => { h with tm -> csr_bool := ok }) ;;;
    if ok then
      when (negb guard || negb (rd (lt h) =? 0)) (on_hart (fun h => set_rd (csr_data (tm h)) h))
    else on_hart illegal
  else on_hart illegal.

Definition exec_priv : M st unit :=
  h <- get_hart ;;
  let i := imm11_0 (lt h) in
  if i =? 0 then on_hart (raise_exception CAUSE_MACHINE_ECALL CAUSE_SUPERVISOR_ECALL CAUSE_USER_ECALL)
  else if i =? 1 then on_hart (fun h => { h with fl -> EBREAK := true })
  else if i =? 0x105 then on_hart (fun h => { h with in_wfi := true })
  else if i =? 770 then on_hart mret
  else ret tt.

Definition exec_systm : M st unit :=
  h <- get_hart ;;
  let f3 := func3 (lt h) in
  if f3 =? 1 then exec_csr (fun h _ => rv1 h) true true                              (* CSRRW *)
  else if f3 =? 2 then exec_csr (fun h c => Z.lor (rv1 h) c) true false              (* CSRRS *)
  else if f3 =? 3 then exec_csr (fun h c => Z.land c (MASK64 - rv1 h)) true false    (* CSRRC *)
  else if f3 =? 5 then exec_csr (fun h _ => rs1 (lt h)) false true                   (* CSRRWI *)
  else if f3 =? 6 then exec_csr (fun h c => Z.lor (rs1 (lt h)) c) true false         (* CSRRSI *)
  else if f3 =? 7 then exec_csr (fun h c => Z.land c (MASK64 - rs1 (lt h))) true false (* CSRRCI *)
  else if f3 =? 0 then exec_priv
  else ret tt.

(** *** The opcode switch *)

Definition exec_instr : M st unit :=
  h <- get_hart ;;
  let op := opcode (lt h) in
  if op =? op_lui then on_hart exec_lui
  else if op =? op_auipc then on_hart exec_auipc
  else if op =? op_jump then on_hart exec_jump
  else if op =? op_jumpr then on_hart exec_jumpr
  else if op =? op_cjump then on_hart exec_cjump
  else if op =? op_load then exec_load
  else if op =? op_store then exec_store
  else if op =? op_iops then on_hart exec_iops
  else if op =? op_iops64 then on_hart exec_iops64
  else if op =? op_rops then on_hart exec_rops
  else if op =? op_rops64 then on_hart exec_rops64
  else if op =? op_amo then exec_amo
  else if op =? op_fence then ret tt
  else if op =? op_systm then exec_systm
  else ret tt.

(** ** [hart_step] *)

(** [PC = PC + 4], the latches, [reg_file[0] = 0]. *)
Definition decode_step (h : hart) : hart :=
  set_reg 0 0 { h with PC ::= (fun p => u64 (p + 4)); lt := decode (instruction h) }.

(** The parking test of the secondary harts: the result tells whether the
    step goes on and whether the kick that released the hart is skipped. *)
Definition park_check : M st (bool * bool) :=
  h <- get_hart ;;
  if smp_released h then ret (true, false)
  else
    kick <- check_software (mhartid (cs h)) ;;
    if kick then
      on_hart (fun h => { h with smp_released := true; post_kick_protect := 200 }) ;;;
      ret (true, true)
    else ret (false, false).

(** [mip.MTIP] and [mip.MSIP] from the CLINT. *)
Definition refresh_mip : M st unit :=
  h <- get_hart ;;
  t <- check_timer (mhartid (cs h)) ;;
  on_hart (fun h => { h with cs -> mip -> MTIP := if t : bool then 1 else 0 }) ;;;
  s <- check_software (mhartid (cs h)) ;;
  on_hart (fun h => { h with cs -> mip -> MSIP := if s : bool then 1 else 0 }).

(** The interrupt take-over at the top of the step (not under LOCKSTEP). *)
Definition take_interrupts (skip : bool) (h : hart) : hart :=
  let c := cs h in
  if LOCKSTEP || skip then h
  else if ms_mie (mstatus c) =? 0 then h
  else if negb (MSIE (mie c) =? 0) && negb (MSIP (mip c) =? 0) then
    if 0 <? post_kick_protect h then { h with post_kick_protect ::= (fun n => n - 1) }
    else take_machine_soft_irq h
  else if negb (MTIE (mie c) =? 0) && negb (MTIP (mip c) =? 0) then take_machine_timer_irq h
  else h.

Definition decay_protect (h : hart) : hart :=
  if 0 <? post_kick_protect h then { h with post_kick_protect ::= (fun n => n - 1) } else h.

(** WFI: true when the step goes on to fetch. *)
Definition wfi_check : M st bool :=
  h <- get_hart ;;
  if negb (in_wfi h) then ret true
  else
    sw <- (if MSIE (mie (cs h)) =? 0 then ret false else check_software (mhartid (cs h))) ;;
    pending <- (if sw : bool then ret true
                else if MTIE (mie (cs h)) =? 0 then ret false
                else check_timer (mhartid (cs h))) ;;
    when pending (on_hart (fun h => { h with in_wfi := false })) ;;;
    ret false.

(** The completion tests of the riscv-tests images (standalone emulator). *)
Definition completion_check : M st unit :=
  h <- get_hart ;;
  if LOCKSTEP then ret tt
  else if (instruction h =? 0x73) && (reg h 3 =? 1) && (reg h 17 =? 0x5d) && (reg h 10 =? 0) then
    disable_raw_mode ;;; exit_with 0
  else if instruction h =? 0x00018513 then disable_raw_mode ;;; exit_with 1
  else ret tt.

(** [hart_step(memory)] *)
Definition hart_step : M st unit :=
  on_hart (set_reg 0 0) ;;;
  p <- park_check ;;
  if p.1 then
    refresh_mip ;;;
    on_hart (take_interrupts p.2) ;;;
    on_hart decay_protect ;;;
    go <- wfi_check ;;
    if go : bool then
      h <- get_hart ;;
      i <- hart_fetch_instruction (PC h) ;;
      on_hart (fun h => { h with instruction := i }) ;;;
      completion_check ;;;
      h <- get_hart ;;
      if INS_ADDR_MISSALIG (fl h) then ret tt
      else on_hart decode_step ;;; exec_instr
    else ret tt
  else ret tt.

(** ** [hart_set_interrupts] of [hart.h] *)

Definition raise1 (code : Z) : hart -> hart := raise_exception code code code.

(** The chain of pending faults and user interrupts of the standalone version. *)
Definition deliver (h : hart) : hart :=
  let h := if signed_value (PC h) <? 0 then { h with fl -> INS_ACC_FAULT := true } else h in
  let e := mie (cs h) in
  let p := mip (cs h) in
  if LD_ACC_FAULT (fl h) then raise1 CAUSE_LOAD_ACCESS { h with fl -> LD_ACC_FAULT := false }
  else if negb (Z.land (UEIE e) (UEIP p) =? 0) then raise_interrupt CAUSE_USER_EXT_INT h
  else if negb (Z.land (UTIE e) (UTIP p) =? 0) then raise_interrupt CAUSE_USER_TIMER_INT h
  else if negb (Z.land (USIE e) (USIP p) =? 0) then raise_interrupt CAUSE_USER_SOFT_INT h
  else if INS_ACC_FAULT (fl h) then raise1 CAUSE_FETCH_ACCESS { h with fl -> INS_ACC_FAULT := false }
  else if ILL_INS (fl h) then raise1 CAUSE_ILLEGAL_INSTRUCTION { h with fl -> ILL_INS := false }
  else if INS_ADDR_MISSALIG (fl h) then
    raise1 CAUSE_MISALIGNED_FETCH { h with fl -> INS_ADDR_MISSALIG := false }
  else if EBREAK (fl h) then raise1 CAUSE_BREAKPOINT { h with fl -> EBREAK := false }
  else if LD_ADDR_MISSALIG (fl h) then raise1 CAUSE_MISALIGNED_LOAD { h with fl -> LD_ADDR_MISSALIG := false }
  else if STORE_ADDR_MISSALIG (fl h) then
    raise1 CAUSE_MISALIGNED_STORE { h with fl -> STORE_ADDR_MISSALIG := false }
  else h.

(** Both versions; the LOCKSTEP one steps the hart, forces the timer interrupt
    and returns 1 when the interrupt is masked. *)
Definition hart_set_interrupts : M st Z :=
  if LOCKSTEP then
    hart_step ;;;
    h <- get_hart ;;
    if (MTIE (mie (cs h)) =? 0) || (ms_mie (mstatus (cs h)) =? 0) then ret 1
    else on_hart (raise_interrupt CAUSE_MACHINE_TIMER_INT) ;;; ret 0
  else
    refresh_mip ;;;
    on_hart deliver ;;;
    ret 0.
End Exec.
