(* ===== verification/Emulator.v ===== *)
(** * The four-hart container: [sim/emulator/emulator.h], the run loop of
    [emulator_linux.cpp] and [harness::Completion] of [sim/harness/common/completion.h]

    The harts are stepped one after the other on the shared world; a member
    function that touches hart [i] is [with_hart i]. *)

From S2P Require Import Prelude Constants Alu Csr Clint Hart Trap Execute.

Definition MEM_SIZE : Z := 28.
Definition NUM_HARTS : Z := 4.

Section Emulator.
Context `{Console} (LOCKSTEP : bool).
Local Open Scope prog_scope.

Record emulator := mkemu { harts : list hart; shared : world }.

(** The constructor: zeroed memory, a CLINT created at time [now], the harts
    initialised; the static members of class [hart] start at 1 and -1. *)
Definition emulator_new (now : timeval) (t : tty) : emulator :=
  {| harts := map (fun i => hart_init LOCKSTEP (Z.of_nat i)) (seq 0 (Z.to_nat NUM_HARTS));
     shared := {| memory := mkvec (2 ^ MEM_SIZE) ∅; clint := CLINT_new NUM_HARTS now;
                  global_store_gen := 1; uart_rx_byte := -1; term := t; cout := [] |} |}.

(** Runs a member function of [harts[i]] on the shared world; [operator[]] is
    not checked. *)
Definition with_hart {A} (i : nat) (m : M st A) : M emulator A := fun e =>
  match harts e !! i with
  | None => UB
  | Some h =>
    let back (s : st) := {| harts := <[i := hrt s]> (harts e); shared := wld s |} in
    match m (mkst _ h (shared e)) with
    | Ok a s => Ok a (back s)
    | Exit c s => Exit c (back s)
    | Throw s => Throw (back s)
    | UB => UB
    end
  end.
Definition on_shared (f : world -> world) : M emulator unit := modify (fun e => { e with shared ::= f }).
Definition on_clint (f : CLINT -> CLINT) : M emulator unit :=
  on_shared (fun w => { w with clint ::= f }).

(** [for (auto &r : harts) m] over the indices [l]. *)
Fixpoint for_harts (l : list nat) (m : M st unit) : M emulator unit :=
  match l with
  | [] => ret tt
  | i :: l => with_hart i m ;;; for_harts l m
  end.
Definition all_harts (m : M st unit) : M emulator unit := fun e =>
  for_harts (seq 0 (length (harts e))) m e.

(** [init(image_name)] on the bytes of the file. The source reads the file
    into an array of [fileSize] 64-bit words and copies the first
    [fileSize / 8] of them ([unsigned] arithmetic: for a file shorter than 8
    bytes [pointer_end] wraps and the whole array is copied). *)
Definition le_word (bytes : list Z) (k : nat) : Z :=
  let b i := default 0 (bytes !! (8 * k + i)%nat) in
  b 0%nat + 0x100 * (b 1%nat + 0x100 * (b 2%nat + 0x100 * (b 3%nat + 0x100 * (b 4%nat
    + 0x100 * (b 5%nat + 0x100 * (b 6%nat + 0x100 * b 7%nat)))))).
Definition init_words (bytes : list Z) : nat :=
  let fileSize := Z.of_nat (length bytes) in
  let pointer_end := u64 (fileSize / 8 - 1) in
  Z.to_nat (Z.min fileSize (pointer_end + 1)).
(** [memory.at(long_jump) = data] from cell [k] on. *)
Fixpoint load_words (bytes : list Z) (n : nat) (k : nat) : M emulator unit :=
  match n with
  | O => ret tt
  | S n => fun e =>
    if vec_in (memory (shared e)) (Z.of_nat k)
    then load_words bytes n (S k)
           { e with shared -> memory ::= (fun m => vec_put m (Z.of_nat k) (le_word bytes k)) }
    else Throw e
  end.
Definition init (bytes : list Z) : M emulator unit := load_words bytes (init_words bytes) 0.

Definition step : M emulator unit :=
  on_clint (fun c => advance c 1) ;;; all_harts (hart_step LOCKSTEP).
Definition step_i (i : nat) : M emulator unit :=
  on_clint (fun c => advance c 1) ;;; with_hart i (hart_step LOCKSTEP).
Definition set_interrupts_i (i : nat) : M emulator Z := with_hart i (hart_set_interrupts LOCKSTEP).
Definition deliver_interrupts : M emulator unit :=
  all_harts (hart_set_interrupts LOCKSTEP ;;; ret tt).
Definition set_interrupts : M emulator unit :=
  on_clint (fun c => advance c 1) ;;; deliver_interrupts.
Definition tick_only : M emulator unit := on_clint (fun c => advance c 1).
Definition step_hart_only (i : nat) : M emulator unit := with_hart i (hart_step LOCKSTEP).
Definition emu_clear_wfi (i : nat) : M emulator unit := with_hart i (on_hart clear_wfi).

Definition emu_set_msip (h value : Z) : M emulator unit := on_clint (fun c => set_msip c (u32 h) value).
Definition emu_get_msip (h : Z) (e : emulator) : Z := get_msip (clint (shared e)) (u32 h).
Definition emu_set_mtime (value : Z) : M emulator unit := on_clint (fun c => set_mtime c value).
Definition emu_get_mtime (e : emulator) : Z := get_mtime (clint (shared e)).
Definition emu_set_mtimecmp (h value : Z) : M emulator unit :=
  on_clint (fun c => set_mtimecmp c (u32 h) value).
Definition emu_take_machine_timer_irq (i : nat) : M emulator unit := with_hart i (on_hart take_machine_timer_irq).
Definition emu_take_machine_soft_irq (i : nat) : M emulator unit := with_hart i (on_hart take_machine_soft_irq).
Definition emu_set_mepc (i : nat) (v : Z) : M emulator unit := with_hart i (on_hart (set_mepc v)).
Definition emu_get_mepc (i : nat) : M emulator Z := with_hart i (gets (fun s => get_mepc (hrt s))).
Definition emu_set_mstatus (i : nat) (v : Z) : M emulator unit := with_hart i (on_hart (set_mstatus v)).

Definition outside_dram (addr : Z) : bool := (addr <? 0x80000000) || (0x80000000 + 0x9000000 <=? addr).
Definition read_mem64 (addr : Z) : M emulator Z := fun e =>
  if outside_dram addr then Ok 0 e
  else let i := (addr - 0x80000000) / 8 in
       if vec_in (memory (shared e)) i then Ok (vec_get (memory (shared e)) i) e else Throw e.
Definition write_mem64 (addr value : Z) : M emulator unit := fun e =>
  if outside_dram addr then Ok tt e
  else let i := (addr - 0x80000000) / 8 in
       if vec_in (memory (shared e)) i
       then Ok tt { e with shared -> memory ::= (fun m => vec_put m i value) } else Throw e.
Definition fetch_long (offset : Z) : M emulator Z := fun e =>
  let i := offset / 8 in
  if vec_in (memory (shared e)) i then Ok (vec_get (memory (shared e)) i) e else Throw e.

Definition emu_get_instruction (i : nat) : M emulator Z := with_hart i get_instruction.
Definition emu_get_pc (i : nat) : M emulator Z := with_hart i (gets (fun s => get_pc (hrt s))).
Definition emu_get_mstatus (i : nat) : M emulator Z := with_hart i (gets (fun s => get_mstatus (hrt s))).
Definition emu_reg_file (i : nat) : M emulator (list Z) := with_hart i (gets (fun s => reg_file (hrt s))).
Definition emu_set_register_with_value (rd value : Z) (i : nat) : M emulator unit :=
  with_hart i (fun s => match set_register_with_value rd value (hrt s) with
                        | Some h => Ok tt { s with hrt := h }
                        | None => UB
                        end).
Definition emu_is_peripheral_read (i : nat) : M emulator Z := with_hart i is_peripheral_read.
End Emulator.

(** ** Completion conditions *)

Record Completion := { done_pcs : list Z; have_a0 : bool; a0_val : Z }.
Definition active (c : Completion) : bool := negb (match done_pcs c with [] => true | _ => false end).
(** [hit(pc, a0)]: the loop returns at the first match. *)
Definition hit (c : Completion) (pc a0 : Z) : bool :=
  let fix go (l : list Z) := match l with
    | [] => false
    | d :: l => if pc =? d then negb (have_a0 c) || (a0 =? a0_val c) else go l
    end in go (done_pcs c).

Inductive IsaResult := Running | Pass | Failed.
Definition isa_test_status (gp a7 : Z) : IsaResult :=
  if negb (a7 =? 93) then Running else if gp =? 1 then Pass else Failed.

(** ** The run loop of [emulator_linux.cpp] *)

Section Main.
Context `{Console}.
Local Open Scope prog_scope.
Abbreviation L := false (only parsing).

Definition in_stop_region (pc : Z) : bool := (0x802aa000 <=? pc) && (pc <? 0x802ab000).

(** The unrolled steps of a hart inside the stop region, at most [k]. *)
Fixpoint stop_loop (i k : nat) : M emulator unit :=
  match k with
  | O => ret tt
  | S k =>
    step_hart_only L i ;;;
    pc <- emu_get_pc i ;;
    if in_stop_region pc then stop_loop i k else ret tt
  end.

(** The body of the hart loop; [true] when [main] returns. *)
Definition main_hart (done : Completion) (i : nat) : M emulator bool :=
  step_hart_only L i ;;;
  pc <- emu_get_pc i ;;
  stop <- (if active done then
             r <- emu_reg_file i ;;
             if hit done pc (default 0 (r !! 10%nat)) then
               with_hart i disable_raw_mode ;;; ret true
             else ret false
           else ret false) ;;
  if stop : bool then ret true
  else (if in_stop_region pc then stop_loop i 1023 else ret tt) ;;; ret false.

Fixpoint main_harts (done : Completion) (l : list nat) : M emulator bool :=
  match l with
  | [] => ret false
  | i :: l => stop <- main_hart done i ;; if stop : bool then ret true else main_harts done l
  end.

(** One iteration of [while (1)]; [true] when [main] returns 0. *)
Definition main_iteration (done : Completion) : M emulator bool :=
  tick_only ;;;
  stop <- main_harts done (seq 0 (Z.to_nat NUM_HARTS)) ;;
  if stop : bool then ret true else deliver_interrupts L ;;; ret false.

(** [n] iterations of the loop, fewer when [main] returns. *)
Fixpoint main_loop (done : Completion) (n : nat) : M emulator bool :=
  match n with
  | O => ret false
  | S n => stop <- main_iteration done ;; if stop : bool then ret true else main_loop done n
  end.
End Main.
