(* ===== verification/Safety.v ===== *)
(** * The type invariant of the machine and its preservation by the instruction step

    [hart_wf] and [world_wf] say that every data member holds a value of its C++
    type and every bit field fits its width. The step preserves them, throws no
    exception and performs no unchecked access out of range, as long as the hart
    number of the stepping hart is one of the CLINT's. *)

From S2P Require Import Prelude Constants Alu MemAccess Csr Clint Hart Trap Execute Emulator.

(** ** The invariant *)

Definition is_u128 (z : Z) : Prop := 0 <= z < 0x100000000000000000000000000000000.

Record latches_wf (l : latches) : Prop := {
  lwf_rd : 0 <= rd l < 32; lwf_rs1 : 0 <= rs1 l < 32; lwf_rs2 : 0 <= rs2 l < 32;
  lwf_func3 : 0 <= func3 l < 8; lwf_func7 : 0 <= func7 l < 128;
  lwf_imm11_0 : 0 <= imm11_0 l < 2 ^ 12; lwf_imm31_12 : 0 <= imm31_12 l < 2 ^ 20;
  lwf_imm_j : 0 <= imm_j l < 2 ^ 21; lwf_imm_b : 0 <= imm_b l < 2 ^ 13; lwf_imm_s : 0 <= imm_s l < 2 ^ 12;
  lwf_amo_op : 0 <= amo_op l < 32 }.

Record reservation_wf (r : reservation) : Prop := {
  rwf_addr : is_u64 (amo_reserve_addr r); rwf_addr64 : is_u64 (amo_reserve_addr64 r);
  rwf_gen : is_u64 (amo_reserve_gen r) }.

Record temps_wf (t : temps) : Prop := {
  twf_wb : is_u64 (wb_data t); twf_la : is_u64 (load_addr t); twf_ld : is_u64 (load_data t);
  twf_sa : is_u64 (store_addr t); twf_sd : is_u64 (store_data t); twf_val : is_u64 (val t);
  twf_csr : is_u64 (csr_data t); twf_itr : is_u64 (itr t); twf_ret : is_u64 (ret_data t);
  twf_mult : is_u128 (mult_temp t) }.

Record csrs_wf (c : csrs) : Prop := {
  cswf_satp : satp_wf (satp c); cswf_mstatus : mstatus_wf (mstatus c);
  cswf_mie : mie_wf (mie c); cswf_mip : mip_wf (mip c); cswf_mtvec : mtvec_wf (mtvec c);
  cswf_mcause : mcause_wf (mcause c);
  cswf_misa : is_u64 (misa c); cswf_mscratch : is_u64 (mscratch c); cswf_mepc : is_u64 (mepc c);
  cswf_mtval : is_u64 (mtval c); cswf_mcounteren : is_u64 (mcounteren c);
  cswf_scounteren : is_u64 (scounteren c); cswf_pmpcfg0 : is_u64 (pmpcfg0 c);
  cswf_pmpaddr0 : is_u64 (pmpaddr0 c); cswf_mhartid : is_u64 (mhartid c);
  cswf_mvendorid : is_u64 (mvendorid c); cswf_marchid : is_u64 (marchid c); cswf_mimpid : is_u64 (mimpid c) }.

Record hart_wf (h : hart) : Prop := {
  hwf_PC : is_u64 (PC h); hwf_PC_phy : is_u64 (PC_phy h); hwf_instr : is_u32 (instruction h);
  hwf_len : length (reg_file h) = 32%nat; hwf_regs : Forall is_u64 (reg_file h);
  hwf_lt : latches_wf (lt h); hwf_rs : reservation_wf (rs h); hwf_tm : temps_wf (tm h);
  hwf_cs : csrs_wf (cs h); hwf_protect : 0 <= post_kick_protect h <= 200 }.

Section World.
Context `{Console}.

Record world_wf (w : world) : Prop := {
  wwf_mem : vec_wf (memory w); wwf_size : DRAM_SIZE / 8 <= vec_size (memory w);
  wwf_clint : clint_wf (clint w); wwf_gen : is_u64 (global_store_gen w);
  wwf_uart : -1 <= uart_rx_byte w < 256;
  wwf_harts : num_harts (clint w) = NUM_HARTS }.

Record st_wf (s : st) : Prop := { swf_hart : hart_wf (hrt s); swf_world : world_wf (wld s) }.

(** The hart number names one of the CLINT's harts. *)
Definition hartid_ok (s : st) : Prop := 0 <= u32 (mhartid (cs (hrt s))) < num_harts (clint (wld s)).
End World.

Create HintDb wf.
#[export] Hint Resolve u64_range : wf.

(** Opens the invariants of the hypotheses and rebuilds the one of the goal. *)
Ltac wf_open :=
  repeat match goal with
    | H : hart_wf _ |- _ => destruct H
    | H : st_wf _ |- _ => destruct H
    | H : world_wf _ |- _ => destruct H
    end.
Ltac wf_auto := auto 10 with wf word csr clint.

(** ** Primitive updates *)

Lemma reg_u64 h r : hart_wf h -> is_u64 (reg h r).
Proof.
  intros Hh. unfold reg. destruct (reg_file h !! _) eqn:E; cbn; [|unfold is_u64; lia].
  eapply Forall_lookup_1; [apply (hwf_regs h Hh)|eassumption].
Qed.
Lemma rv1_u64 h : hart_wf h -> is_u64 (rv1 h).
Proof. apply reg_u64. Qed.
Lemma rv2_u64 h : hart_wf h -> is_u64 (rv2 h).
Proof. apply reg_u64. Qed.
#[export] Hint Resolve reg_u64 rv1_u64 rv2_u64 : wf.

Lemma set_reg_wf r v h : hart_wf h -> is_u64 v -> hart_wf (set_reg r v h).
Proof.
  intros [] Hv. constructor; cbn; auto.
  - rewrite length_insert. assumption.
  - apply Forall_insert; assumption.
Qed.
Lemma set_rd_wf v h : hart_wf h -> is_u64 v -> hart_wf (set_rd v h).
Proof. apply set_reg_wf. Qed.
Lemma set_tm_wf t h : hart_wf h -> temps_wf t -> hart_wf { h with tm := t }.
Proof. intros [] Ht. constructor; cbn; auto. Qed.
Lemma set_cs_wf c h : hart_wf h -> csrs_wf c -> hart_wf { h with cs := c }.
Proof. intros [] Hc. constructor; cbn; auto. Qed.
Lemma set_cs_fn_wf f h : hart_wf h -> (csrs_wf (cs h) -> csrs_wf (f (cs h))) -> hart_wf { h with cs ::= f }.
Proof. intros [] Hf. constructor; cbn; auto. Qed.
Lemma set_rs_wf r h : hart_wf h -> reservation_wf r -> hart_wf { h with rs := r }.
Proof. intros [] Hc. constructor; cbn; auto. Qed.
Lemma set_rs_fn_wf f h : hart_wf h -> (reservation_wf (rs h) -> reservation_wf (f (rs h))) -> hart_wf { h with rs ::= f }.
Proof. intros [] Hf. constructor; cbn; auto. Qed.
Lemma set_fl_wf f h : hart_wf h -> hart_wf { h with fl := f }.
Proof. intros []. constructor; cbn; auto. Qed.
Lemma set_fl_fn_wf f h : hart_wf h -> hart_wf { h with fl ::= f }.
Proof. intros []. constructor; cbn; auto. Qed.
Lemma set_pc_wf v h : hart_wf h -> is_u64 v -> hart_wf (set_pc v h).
Proof. intros [] Hv. constructor; cbn; auto. Qed.
Lemma set_wb_wf v h : hart_wf h -> is_u64 v -> hart_wf (set_wb v h).
Proof. intros [] Hv. constructor; cbn; auto. destruct hwf_tm0; constructor; cbn; auto. Qed.
Lemma write_back_wf v h : hart_wf h -> is_u64 v -> hart_wf (write_back v h).
Proof. intros. apply set_rd_wf, H0. apply set_wb_wf; assumption. Qed.
#[export] Hint Resolve set_reg_wf set_rd_wf set_pc_wf set_wb_wf write_back_wf : wf.

(** Decomposes a goal [hart_wf (update h)] field by field. *)
Ltac hart_wf_step :=
  match goal with
  | |- temps_wf _ => constructor; cbn
  | |- csrs_wf _ => constructor; cbn
  | |- reservation_wf _ => constructor; cbn
  end.
Ltac hart_wf_solve :=
  match goal with H : hart_wf ?h |- _ =>
    let H' := fresh in pose proof H as H'; destruct H' as [? ? ? ? ? ? [] [] [] ?]
  end;
  constructor; cbn; try assumption; repeat hart_wf_step; wf_auto.

Lemma is_u64_small z : 0 <= z < 0x100000000 -> is_u64 z.
Proof. unfold is_u64; lia. Qed.
Lemma is_u64_bool (b : bool) : is_u64 (if b then 1 else 0).
Proof. destruct b; unfold is_u64; lia. Qed.
Lemma is_u64_land_small x m : 0 <= m < 0x100000000 -> is_u64 (Z.land x m).
Proof. intros. apply land_u64_r. unfold is_u64; lia. Qed.
#[export] Hint Resolve is_u64_bool : wf.
#[export] Hint Extern 2 (is_u64 (Z.land _ (Zpos _))) => (apply land_u64_r; unfold is_u64; lia) : wf.
#[export] Hint Extern 2 (is_u64 (Zpos _)) => (unfold is_u64; lia) : wf.
#[export] Hint Extern 2 (is_u64 0) => (unfold is_u64; lia) : wf.

(** ** Values computed by the register instructions *)

Lemma sra_step_u64 top w : is_u64 top -> is_u64 w -> is_u64 (sra_step top w).
Proof. intros. unfold sra_step. apply lor_u64; [wf_auto|]. apply shiftr_u64; [lia|assumption]. Qed.
Lemma sra_loop_u64 top n w : is_u64 top -> is_u64 w -> is_u64 (sra_loop top n w).
Proof.
  intros Ht Hw. unfold sra_loop. induction (Z.to_nat n); cbn; [assumption|]. apply sra_step_u64; assumption.
Qed.
Lemma land_mask_nonneg x m : 0 <= m -> 0 <= Z.land x m.
Proof. intros. apply Z.land_nonneg. auto. Qed.
Lemma shiftr_land_u64 a b m : is_u64 a -> 0 <= m -> is_u64 (Z.shiftr a (Z.land b m)).
Proof. intros. apply shiftr_u64; [apply land_mask_nonneg|]; assumption. Qed.
#[export] Hint Extern 2 (is_u64 (Z.shiftr _ (Z.land _ _))) => (apply shiftr_land_u64; [|lia]) : wf.
#[export] Hint Resolve sra_loop_u64 sra_step_u64 : wf.
#[export] Hint Extern 1 (is_u64 (Z.shiftl 1 _)) => (unfold is_u64; vm_compute; intuition congruence) : wf.

Lemma iops_result_u64 f3 f7 i a old : is_u64 a -> is_u64 old -> is_u64 (iops_result f3 f7 i a old).
Proof. intros. unfold iops_result. repeat case_match; wf_auto. Qed.
Lemma iops64_result_u64 f3 f7 i a old : is_u64 old -> is_u64 (iops64_result f3 f7 i a old).
Proof. intros. unfold iops64_result. repeat case_match; wf_auto. Qed.
Lemma rops_result_u64 f3 a b : is_u64 a -> is_u64 b -> is_u64 (rops_result f3 a b).
Proof. intros. unfold rops_result. repeat case_match; wf_auto. Qed.
Lemma rops64_result_u64 f7 f3 a b old : is_u64 old -> is_u64 (rops64_result f7 f3 a b old).
Proof. intros. unfold rops64_result. repeat case_match; wf_auto. Qed.
Lemma riscv_divu_u64 a b : is_u64 a -> is_u64 b -> is_u64 (riscv_divu a b).
Proof.
  unfold is_u64, riscv_divu. intros. destruct (Z.eqb_spec b 0); [lia|].
  split; [apply Z.div_pos; lia|]. apply Z.div_lt_upper_bound; nia.
Qed.
Lemma riscv_remu_u64 a b : is_u64 a -> is_u64 b -> is_u64 (riscv_remu a b).
Proof.
  unfold is_u64, riscv_remu. intros. destruct (Z.eqb_spec b 0); [lia|].
  pose proof (Z.mod_pos_bound a b). lia.
Qed.
Lemma div_result_u64 f3 a b : is_u64 a -> is_u64 b -> is_u64 (div_result f3 a b).
Proof.
  intros. unfold div_result. repeat case_match; try apply u64_range.
  - rewrite divi_divu by assumption. apply riscv_divu_u64; assumption.
  - rewrite divi_remu by assumption. apply riscv_remu_u64; assumption.
Qed.
Lemma mult_result_u128 f3 a b : is_u128 (mult_result f3 a b).
Proof.
  unfold mult_result. pose proof (u64_range (a * b)).
  assert (forall z, is_u128 (u128 z)) by (intros; unfold is_u128, u128; apply Z.mod_pos_bound; lia).
  repeat case_match; auto. unfold is_u128, is_u64 in *. lia.
Qed.
Lemma land_MASK64_u64 x : is_u64 (Z.land x MASK64).
Proof. apply land_u64_r. unfold is_u64, MASK64; lia. Qed.
#[export] Hint Resolve iops_result_u64 iops64_result_u64 rops_result_u64 rops64_result_u64 div_result_u64
  mult_result_u128 land_MASK64_u64 : wf.

(** ** The register instructions preserve the invariant *)

Lemma exec_lui_wf h : hart_wf h -> hart_wf (exec_lui h).
Proof. intros. apply write_back_wf; wf_auto. Qed.
Lemma exec_auipc_wf h : hart_wf h -> hart_wf (exec_auipc h).
Proof. intros. apply write_back_wf; wf_auto. Qed.
Lemma exec_jump_wf h : hart_wf h -> hart_wf (exec_jump h).
Proof.
  intros Hh. assert (is_u64 (PC h)) by apply Hh. unfold exec_jump. case_match; wf_auto.
Qed.
Lemma exec_jumpr_wf h : hart_wf h -> hart_wf (exec_jumpr h).
Proof.
  intros Hh. assert (is_u64 (PC h)) by apply Hh. unfold exec_jumpr.
  assert (is_u64 (Z.land (u64 (rv1 (set_wb (PC h) h) + sign_extend (imm11_0 (lt (set_wb (PC h) h))) 12)) 0xFFFFFFFFFFFFFFFE))
    by (apply land_u64; apply u64_range).
  case_match; wf_auto.
Qed.
Lemma set_tm_fn_wf f h : hart_wf h -> (temps_wf (tm h) -> temps_wf (f (tm h))) -> hart_wf { h with tm ::= f }.
Proof. intros [] Hf. constructor; cbn; auto. Qed.
Lemma exec_cjump_wf h : hart_wf h -> hart_wf (exec_cjump h).
Proof.
  intros Hh. unfold exec_cjump. set (h1 := { h with tm -> branch := _ }).
  assert (hart_wf h1) by (subst h1; hart_wf_solve). clearbody h1. case_match; wf_auto.
Qed.
Lemma set_itr_wf v h : hart_wf h -> is_u64 v -> hart_wf { h with tm -> itr := v }.
Proof. intros. hart_wf_solve. Qed.
Lemma wb_u64 h : hart_wf h -> is_u64 (wb_data (tm h)).
Proof. intros H. apply H. Qed.
#[export] Hint Resolve wb_u64 set_itr_wf : wf.

Lemma exec_iops_wf h : hart_wf h -> hart_wf (exec_iops h).
Proof.
  intros Hh. unfold exec_iops.
  match goal with |- hart_wf (write_back _ ?h') => assert (Hh' : hart_wf h') end.
  { case_match; [|assumption]. apply set_itr_wf; wf_auto. }
  apply write_back_wf; wf_auto.
Qed.
Lemma exec_iops64_wf h : hart_wf h -> hart_wf (exec_iops64 h).
Proof.
  intros Hh. unfold exec_iops64.
  match goal with |- hart_wf (write_back _ ?h') => assert (Hh' : hart_wf h') end.
  { case_match; [|assumption]. apply set_itr_wf; wf_auto. }
  apply write_back_wf; wf_auto.
Qed.
Lemma exec_rops_wf h : hart_wf h -> hart_wf (exec_rops h).
Proof.
  intros Hh. unfold exec_rops.
  destruct (func7 (lt h) =? 0); [wf_auto|].
  destruct (func7 (lt h) =? 1).
  - destruct (func3 (lt h) <? 4); [|wf_auto].
    apply set_rd_wf; [hart_wf_solve; apply mult_result_u128|]. case_match; wf_auto.
  - destruct (func7 (lt h) =? 32); [|assumption].
    destruct (func3 (lt h) =? 0); [wf_auto|].
    destruct (func3 (lt h) =? 5); [|wf_auto].
    apply write_back_wf; wf_auto.
Qed.
Lemma exec_rops64_wf h : hart_wf h -> hart_wf (exec_rops64 h).
Proof.
  intros Hh. unfold exec_rops64. destruct (_ || _); [|assumption].
  apply write_back_wf; [|wf_auto]. case_match; [|assumption]. apply set_itr_wf; wf_auto.
Qed.

(** ** Decode, CSR access and traps *)

Lemma land_bound x m n : 0 <= n -> m = 2 ^ n - 1 -> 0 <= Z.land x m < 2 ^ n.
Proof. intros Hn Hm. rewrite (land_ones_mod x n m) by assumption. apply Z.mod_pos_bound, Z.pow_pos_nonneg; lia. Qed.

Lemma decode_wf i : is_u32 i -> latches_wf (decode i).
Proof.
  intros Hi. constructor; cbn -[Z.land Z.shiftr Z.shiftl Z.pow].
  all: try (apply (land_bound _ _ 5) || apply (land_bound _ _ 3) || apply (land_bound _ _ 7)
       || apply (land_bound _ _ 12) || apply (land_bound _ _ 20); reflexivity || lia).
  - replace (Z.land i (Z.shiftl 0xff 12)) with (Z.shiftl (Z.land (Z.shiftr i 12) (Z.ones 8)) 12)
      by (rewrite shiftl_field by lia; reflexivity).
    change (Z.ones 8) with 255. mask_to_mod. change (2 ^ 21) with 2097152. zlia.
  - replace (Z.land (Z.shiftr i 7) 0x1e) with (Z.shiftl (Z.land (Z.shiftr (Z.shiftr i 7) 1) (Z.ones 4)) 1)
      by (rewrite shiftl_field by lia; reflexivity).
    change (Z.ones 4) with 15. mask_to_mod. change (2 ^ 13) with 8192. zlia.
  - mask_to_mod. change (2 ^ 12) with 4096. zlia.
Qed.

Lemma csr_read_wf a h : hart_wf h -> hart_wf (csr_read a h).2 /\ is_u64 (csr_read a h).1.
Proof.
  intros Hh. assert (Hc : csrs_wf (cs h)) by apply Hh. destruct Hc.
  assert (forall b, hart_wf { h with tm -> csr_read_success := b }) by (intros; hart_wf_solve).
  unfold csr_read. repeat case_match; split; cbn [fst snd]; auto; wf_auto.
Qed.
Lemma csr_fetch_wf h : hart_wf h -> hart_wf (csr_fetch h).
Proof.
  intros Hh. unfold csr_fetch. destruct (csr_read_wf (imm11_0 (lt h)) h Hh) as [Hw Hv].
  destruct (csr_read _ h) as [v h']; cbn [fst snd] in *. hart_wf_solve.
Qed.

Lemma cause_range code : 0 <= code < 16 -> 0 <= code < 2 ^ 63.
Proof. lia. Qed.

Lemma trap_csrs_wf c p intr code pc : csrs_wf c -> 0 <= code < 16 -> is_bit intr -> is_u64 pc ->
  csrs_wf { c with
    mstatus -> ms_mpp := plevel_to_Z p; mstatus -> ms_mpie := ms_mie (mstatus c); mstatus -> ms_mie := 0;
    mcause -> mcause_interrupt := intr; mcause -> mcause_ecode := code; mepc := pc }.
Proof.
  intros Hc Hcode Hi Hpc. destruct c as [? m]. destruct m, Hc. cbn in *. constructor; cbn; try assumption.
  - unfold mstatus_wf in *; cbn in *. pose proof (plevel_to_Z_range p). unfold is_bits2, is_bit in *. lia.
  - split; cbn; [assumption|lia].
Qed.

Lemma raise_exception_wf m s u h : 0 <= m < 16 -> 0 <= s < 16 -> 0 <= u < 16 -> hart_wf h ->
  hart_wf (raise_exception m s u h).
Proof.
  intros Hm Hs Hu Hh. pose proof Hh as []. unfold raise_exception, excep_function.
  set (code := match cp h with UMODE => u | MMODE => m | _ => 0 end).
  assert (Hc : 0 <= code < 16) by (subst code; destruct (cp h); lia). clearbody code.
  pose proof (trap_csrs_wf (cs h) (cp h) 0 code (u64 (PC h - 4)) ltac:(assumption) Hc is_bit_0 (u64_range _)) as Hw.
  constructor; cbn; try assumption. destruct hwf_cs0 as [? ? ? ? [? [? ?]]]. assumption.
Qed.

Lemma raise_interrupt_wf code h : 0 <= code < 16 -> hart_wf h -> hart_wf (raise_interrupt code h).
Proof.
  intros Hc Hh. pose proof Hh as []. unfold raise_interrupt, interrupt_function. destruct (ms_mie (mstatus (cs h)) =? 1).
  2:{ constructor; cbn; assumption. }
  pose proof (trap_csrs_wf (cs h) (cp h) 1 code (PC h) ltac:(assumption) Hc is_bit_1 ltac:(assumption)) as Hw.
  constructor; cbn; try assumption. destruct hwf_cs0 as [? ? ? ? [? [? ?]]].
  repeat match goal with |- is_u64 (if ?b then _ else _) => destruct b end; wf_auto.
Qed.
Lemma drop_reservations_wf h : hart_wf h -> hart_wf (drop_reservations h).
Proof. intros. hart_wf_solve. Qed.
Lemma take_machine_timer_irq_wf h : hart_wf h -> hart_wf (take_machine_timer_irq h).
Proof. intros. apply raise_interrupt_wf; [vm_compute; intuition congruence|]. apply drop_reservations_wf. assumption. Qed.
Lemma take_machine_soft_irq_wf h : hart_wf h -> hart_wf (take_machine_soft_irq h).
Proof. intros. apply raise_interrupt_wf; [vm_compute; intuition congruence|]. apply drop_reservations_wf. assumption. Qed.

Lemma mret_wf h : hart_wf h -> hart_wf (mret h).
Proof.
  intros Hh. pose proof Hh as [? ? ? ? ? ? ? ? [] ?]. constructor; cbn; try assumption.
  constructor; cbn; try assumption. destruct h as [? ? ? ? ? ? ? ? ? c]. destruct c as [? m]. destruct m.
  cbn in *. unfold mstatus_wf in *; cbn in *.
  unfold is_bits2, is_bit in *. lia.
Qed.

Lemma decode_step_wf h : hart_wf h -> hart_wf (decode_step h).
Proof.
  intros Hh. unfold decode_step. apply set_reg_wf; [|unfold is_u64; lia].
  pose proof Hh as []. constructor; cbn; try assumption; [apply u64_range|apply decode_wf; assumption].
Qed.
Lemma decay_protect_wf h : hart_wf h -> hart_wf (decay_protect h).
Proof.
  intros Hh. unfold decay_protect. destruct (Z.ltb_spec 0 (post_kick_protect h)); [|assumption].
  pose proof Hh as []. constructor; cbn; try assumption. destruct h; cbn in *; lia.
Qed.
Lemma take_interrupts_wf L skip h : hart_wf h -> hart_wf (take_interrupts L skip h).
Proof.
  intros Hh. unfold take_interrupts.
  repeat match goal with |- hart_wf (if ?b then _ else _) => destruct b eqn:? end;
    auto using take_machine_soft_irq_wf, take_machine_timer_irq_wf.
  pose proof Hh as []. constructor; cbn; try assumption. destruct h; cbn in *; lia.
Qed.
#[export] Hint Resolve csr_fetch_wf mret_wf decode_step_wf decay_protect_wf take_interrupts_wf
  take_machine_timer_irq_wf take_machine_soft_irq_wf : wf.

(** ** Preservation by the monadic operations *)

Section Preserve.
Context `{Console}.
Local Open Scope prog_scope.

(** [m] preserves the invariant, without exception or undefined behaviour. *)
Definition safe {A} (m : M st A) : Prop := forall s, st_wf s -> wp m (fun _ s' => st_wf s') s.
(** The same with a result in [P]. *)
Definition safe_ret {A} (P : A -> Prop) (m : M st A) : Prop :=
  forall s, st_wf s -> wp m (fun a s' => P a /\ st_wf s') s.

Lemma safe_ret_unit {A} (a : A) : safe (ret a).
Proof. intros s Hs. exact Hs. Qed.
Lemma safe_bind {A B} P (m : M st A) (f : A -> M st B) :
  safe_ret P m -> (forall a, P a -> safe (f a)) -> safe (bind m f).
Proof.
  intros Hm Hf s Hs. apply wp_bind. eapply wp_mono; [|apply Hm, Hs].
  cbn. intros a s' [Ha Hs']. apply Hf; assumption.
Qed.
Lemma safe_seq {A B} (m : M st A) (k : M st B) : safe m -> safe k -> safe (m ;;; k).
Proof.
  intros Hm Hk s Hs. apply wp_bind. eapply wp_mono; [|apply Hm, Hs]. cbn. auto.
Qed.
Lemma safe_ret_bind {A B} P Q (m : M st A) (f : A -> M st B) :
  safe_ret P m -> (forall a, P a -> safe_ret Q (f a)) -> safe_ret Q (bind m f).
Proof.
  intros Hm Hf s Hs. apply wp_bind. eapply wp_mono; [|apply Hm, Hs].
  cbn. intros a s' [Ha Hs']. apply Hf; assumption.
Qed.
Lemma safe_ret_seq {A B} Q (m : M st A) (k : M st B) : safe m -> safe_ret Q k -> safe_ret Q (m ;;; k).
Proof.
  intros Hm Hk s Hs. apply wp_bind. eapply wp_mono; [|apply Hm, Hs]. cbn. auto.
Qed.
Lemma safe_any {A} (m : M st A) : safe m -> safe_ret (fun _ => True) m.
Proof. intros Hm s Hs. eapply wp_mono; [|apply Hm, Hs]. auto. Qed.
Lemma safe_bind_any {A B} (m : M st A) (f : A -> M st B) :
  safe m -> (forall a, safe (f a)) -> safe (bind m f).
Proof. intros Hm Hf. eapply safe_bind; [apply safe_any, Hm|auto]. Qed.
Lemma safe_get_hart {A} (k : hart -> M st A) :
  (forall h, hart_wf h -> safe (k h)) -> safe (h <- get_hart ;; k h).
Proof. intros Hk s Hs. apply wp_bind, wp_gets. apply Hk; [apply Hs|assumption]. Qed.
Lemma safe_get_world {A} (k : world -> M st A) :
  (forall w, world_wf w -> safe (k w)) -> safe (w <- get_world ;; k w).
Proof. intros Hk s Hs. apply wp_bind, wp_gets. apply Hk; [apply Hs|assumption]. Qed.
Lemma safe_on_hart f : (forall h, hart_wf h -> hart_wf (f h)) -> safe (on_hart f).
Proof. intros Hf s [Hh Hw]. apply wp_modify. constructor; cbn; [apply Hf, Hh|assumption]. Qed.
Lemma safe_on_world f : (forall w, world_wf w -> world_wf (f w)) -> safe (on_world f).
Proof. intros Hf s [Hh Hw]. apply wp_modify. constructor; cbn; [assumption|apply Hf, Hw]. Qed.
Lemma safe_when b m : (b = true -> safe m) -> safe (when b m).
Proof. intros Hm s Hs. apply wp_when; [intros; apply Hm; assumption|intros; exact Hs]. Qed.
Lemma safe_if {A} (b : bool) (m n : M st A) :
  (b = true -> safe m) -> (b = false -> safe n) -> safe (if b then m else n).
Proof. destruct b; auto. Qed.
Lemma safe_exit {A} c : safe (exit_with (A := A) c).
Proof. intros s Hs. exact I. Qed.

Lemma safe_mem_at {A} i (k : Z -> M st A) : 0 <= i < DRAM_SIZE / 8 ->
  (forall d, is_u64 d -> safe (k d)) -> safe (d <- mem_at i ;; k d).
Proof.
  intros Hi Hk s Hs. apply wp_bind. unfold wp, mem_at, vec_in.
  pose proof (wwf_size _ (swf_world s Hs)).
  rewrite (proj2 (Z.leb_le 0 i)), (proj2 (Z.ltb_lt i _)) by lia. cbn.
  apply Hk; [apply (wwf_mem _ (swf_world s Hs))|assumption].
Qed.
Lemma safe_mem_put i x : 0 <= i < DRAM_SIZE / 8 -> is_u64 x -> safe (mem_put i x).
Proof.
  intros Hi Hx s Hs. unfold wp, mem_put, vec_in.
  pose proof (wwf_size _ (swf_world s Hs)).
  rewrite (proj2 (Z.leb_le 0 i)), (proj2 (Z.ltb_lt i _)) by lia. cbn.
  destruct Hs as [Hh []]. constructor; cbn; [assumption|].
  constructor; cbn; try assumption. apply vec_put_wf; assumption.
Qed.
Lemma safe_bump : safe bump_store_gen.
Proof. apply safe_on_world. intros w []. constructor; cbn; auto. apply u64_range. Qed.
Lemma safe_put_char c : safe (put_char c).
Proof. apply safe_on_world. intros w []. constructor; cbn; auto. Qed.
Lemma safe_clint_store L a v sz : is_u64 v -> safe (clint_store L a v sz).
Proof.
  intros. apply safe_on_world. intros w []. constructor; cbn; auto.
  - apply clint_write_wf; assumption.
  - rewrite clint_write_harts. assumption.
Qed.
Lemma safe_clint_load a : safe_ret is_u64 (clint_load a).
Proof.
  intros s [Hh []]. unfold wp, clint_load. pose proof (clint_read_wf (clint (wld s)) a) as Hw.
  pose proof (clint_read_u64 (clint (wld s)) a) as Hv. pose proof (clint_read_harts (clint (wld s)) a) as Hn.
  destruct (clint_read _ a) as [v c]. cbn in *. split; [auto|]. constructor; cbn; [assumption|].
  constructor; cbn; auto. congruence.
Qed.
Lemma safe_kbhit : safe kbhit.
Proof.
  intros s [Hh []]. unfold wp, kbhit. destruct (ioctl_fionread _) as [[r n] t].
  constructor; cbn; [assumption|]. constructor; cbn; auto.
Qed.
Lemma safe_read_stdin : safe_ret (fun r => is_u8 r.2) read_stdin.
Proof.
  intros s [Hh []]. unfold wp, read_stdin. destruct (read_byte _) as [[r n] t].
  split; [apply u8_range|]. constructor; cbn; [assumption|]. constructor; cbn; auto.
Qed.
Lemma safe_set_lflag f : safe (set_lflag f).
Proof. apply safe_on_world. intros w []. constructor; cbn; auto. Qed.

Lemma dram_idx_range a : in_dram_store a = true -> 0 <= dram_idx a < DRAM_SIZE / 8.
Proof.
  unfold in_dram_store, dram_idx, DRAM_BASE, DRAM_SIZE. intros E.
  apply andb_prop in E as [E1 E2]. apply Z.leb_le in E1. apply Z.ltb_lt in E2. zlia.
Qed.
Lemma vec_in_dram v a : DRAM_SIZE / 8 <= vec_size v -> in_dram_store a = true -> vec_in v (dram_idx a) = true.
Proof. intros Hv Ha. apply dram_idx_range in Ha. unfold vec_in. lia. Qed.
Lemma in_dram_amo_store a : in_dram_amo a = true -> in_dram_store a = true.
Proof. unfold in_dram_amo, in_dram_store. lia. Qed.

Ltac hw := intros; first [assumption | solve [wf_auto] | solve [hart_wf_solve]].

Lemma safe_getINST i : 0 <= i / 2 < DRAM_SIZE / 8 -> safe_ret is_u32 (getINST i).
Proof.
  intros Hi s Hs. apply wp_bind. unfold wp, mem_at, vec_in.
  pose proof (wwf_size _ (swf_world s Hs)).
  rewrite (proj2 (Z.leb_le 0 (i / 2))), (proj2 (Z.ltb_lt (i / 2) _)) by lia. cbn.
  split; [|assumption]. pose proof (wwf_mem _ (swf_world s Hs) (i / 2)) as Hd.
  case_match; [|mask_to_mod; word].
  rewrite Z.land_comm. change 0xFFFFFFFF with (Z.ones 32). rewrite Z.land_ones by lia. word.
Qed.

Lemma safe_fetch pc : safe_ret is_u32 (hart_fetch_instruction pc).
Proof.
  unfold hart_fetch_instruction. destruct (_ || _) eqn:E.
  { intros s Hs. split; [unfold is_u32; lia|assumption]. }
  apply orb_false_elim in E as [E1 E2]. apply Z.ltb_ge in E1. apply Z.leb_gt in E2.
  unfold DRAM_BASE, DRAM_SIZE in *.
  apply safe_ret_seq; [apply safe_on_hart; intros; hart_wf_solve; word|].
  destruct (pc mod 4 =? 0).
  - eapply safe_ret_bind; [apply safe_getINST; unfold DRAM_SIZE; zlia|]. intros i Hi.
    apply safe_ret_seq; [apply safe_on_hart; intros; hart_wf_solve|]. intros s Hs. split; assumption.
  - apply safe_ret_seq; [apply safe_on_hart; intros; hart_wf_solve|].
    intros s Hs. split; [unfold is_u32; lia|assumption].
Qed.

Lemma safe_csr_write L a v : is_u64 v -> safe (csr_write L a v).
Proof.
  intros Hv. unfold csr_write.
  repeat match goal with
    | |- safe (if ?b then _ else _) => destruct b
    end;
    try apply safe_ret_unit.
  4: { apply safe_seq; [apply safe_on_hart; hw|]. apply safe_get_hart; intros.
       apply safe_seq; [|apply safe_ret_unit]. apply safe_when; intros.
       apply safe_clint_store. unfold is_u64; lia. }
  all: apply safe_seq; [apply safe_on_hart|apply safe_ret_unit]; intros h Hh;
    apply set_cs_fn_wf; [assumption|]; intros []; constructor; cbn; auto with csr.
Qed.

(** *** Loads and stores *)

Lemma load_switch_wf h : hart_wf h -> hart_wf (load_switch h).
Proof.
  intros Hh. assert (Ht : temps_wf (tm h)) by apply Hh. destruct Ht. unfold load_switch.
  assert (Hfin : forall (r : bool * Z) (ext : Z -> Z), is_u64 r.2 -> (forall z, is_u64 (ext z)) ->
    hart_wf (if r.1 then write_back (ext r.2) h else { (set_wb r.2 h) with fl -> LD_ADDR_MISSALIG := true })).
  { intros r ext Hr He. destruct r.1; [wf_auto|]. apply set_fl_fn_wf. wf_auto. }
  destruct (_ =? 0); [apply (Hfin _ (fun w => sign_extend (Z.land w 0xFF) 8)); intros; wf_auto|].
  destruct (_ =? 1); [apply (Hfin _ (fun w => sign_extend (Z.land w 0xFFFF) 16)); intros; wf_auto|].
  destruct (_ =? 2); [apply (Hfin _ (fun w => sign_extend (Z.land w 0xFFFFFFFF) 32)); intros; wf_auto|].
  destruct (_ =? 4); [apply (Hfin _ (fun w => Z.land w 0xFF)); intros; wf_auto|].
  destruct (_ =? 5); [apply (Hfin _ (fun w => Z.land w 0xFFFF)); intros; wf_auto|].
  destruct (_ =? 6); [apply (Hfin _ (fun w => Z.land w 0xFFFFFFFF)); intros; wf_auto|].
  destruct (_ =? 3); [|assumption]. destruct (_ =? 0); [wf_auto|]. apply set_fl_fn_wf. assumption.
Qed.

Lemma safe_write_back v : is_u64 v -> safe (on_hart (write_back v)).
Proof. intros. apply safe_on_hart. wf_auto. Qed.

Lemma safe_uart_load L a : safe (uart_load L a).
Proof.
  unfold uart_load. apply safe_if; intros _; [|apply safe_if; intros _].
  - apply safe_seq.
    + apply safe_if; intros _; [apply safe_ret_unit|]. apply safe_get_world; intros w Hw.
      apply safe_if; intros _; [|apply safe_ret_unit].
      apply safe_bind_any; [apply safe_kbhit|]. intros k. apply safe_when; intros _.
      eapply safe_bind; [apply safe_read_stdin|]. cbn. intros r Hr. apply safe_when; intros _.
      apply safe_on_world. intros w' []. constructor; cbn; auto. unfold is_u8 in Hr. lia.
    + apply safe_get_world; intros w Hw. apply safe_write_back.
      case_match; unfold is_u64; vm_compute; intuition congruence.
  - apply safe_get_world; intros w [].
    apply safe_seq; [apply safe_on_world; intros w' []; constructor; cbn; auto; lia|].
    apply safe_write_back. destruct (Z.leb_spec 0 (uart_rx_byte w)); unfold is_u64; lia.
  - apply safe_on_hart. wf_auto.
Qed.

Lemma safe_set_load_data d : is_u64 d -> safe (on_hart (set_load_data d)).
Proof. intros. apply safe_on_hart. intros h Hh. hart_wf_solve. Qed.

Lemma safe_exec_load L : safe (exec_load L).
Proof.
  unfold exec_load. apply safe_get_hart; intros h Hh.
  set (a := Z.land _ 0xffffffff). assert (Ha : is_u64 a) by (subst a; wf_auto).
  assert (Hlow : 0 <= a) by apply Ha. clearbody a.
  apply safe_seq; [apply safe_on_hart; intros; hart_wf_solve|].
  apply safe_if; intros _; [apply safe_on_hart; intros; apply set_fl_fn_wf; assumption|].
  apply safe_if; intros _; [|apply safe_uart_load].
  apply safe_seq; [|apply safe_on_hart, load_switch_wf].
  apply safe_if; intros Hd; [|apply safe_if; intros _].
  - intros s Hs. apply wp_bind, wp_gets. apply wp_if; intros Hsz.
    + apply (safe_on_hart (fun h => { h with fl -> LD_ACC_FAULT := true; tm -> load_data := 0 })); [|assumption].
      intros; hart_wf_solve.
    + apply Z.leb_gt in Hsz. apply wp_bind. unfold wp at 1, mem_at, vec_in.
      assert (0 <= dram_idx a).
      { unfold in_dram_load in Hd. unfold dram_idx, DRAM_BASE, DRAM_SIZE in *. zlia. }
      rewrite (proj2 (Z.leb_le 0 _)), (proj2 (Z.ltb_lt _ _)) by lia. cbn [andb].
      apply safe_set_load_data; [|assumption]. apply (wwf_mem _ (swf_world s Hs)).
  - eapply safe_bind; [apply safe_clint_load|]. intros; apply safe_set_load_data; assumption.
  - apply safe_set_load_data. unfold is_u64; lia.
Qed.

Lemma store_switch_wf h : hart_wf h -> hart_wf (store_switch h).
Proof.
  intros Hh. assert (Ht : temps_wf (tm h)) by apply Hh. destruct Ht. unfold store_switch.
  assert (Hfin : forall v (r : bool * Z), is_u64 v -> is_u64 r.2 ->
    hart_wf { h with tm -> val := v; tm -> ls_success := r.1; tm -> wb_data := r.2 }).
  { intros. hart_wf_solve. }
  repeat match goal with |- hart_wf (if _ =? _ then _ else _) => destruct (Z.eqb _ _) end;
    try (apply Hfin; wf_auto); try assumption; hart_wf_solve.
Qed.

Lemma safe_store_commit a : in_dram_store a = true -> safe (store_commit a).
Proof.
  intros Ha. unfold store_commit. apply safe_get_hart; intros h Hh. apply safe_if; intros _.
  - apply safe_get_world; intros w Hw. apply safe_if; intros _; [apply safe_ret_unit|].
    apply safe_seq; [|apply safe_bump]. apply safe_mem_put; [apply dram_idx_range, Ha|wf_auto].
  - apply safe_on_hart. intros. apply raise_exception_wf; unfold CAUSE_MISALIGNED_STORE; lia || assumption.
Qed.

Lemma safe_exec_store L : safe (exec_store L).
Proof.
  unfold exec_store. apply safe_get_hart; intros h Hh.
  set (a := Z.land _ 0xffffffff). assert (Ha : is_u64 a) by (subst a; wf_auto). clearbody a.
  apply safe_seq; [apply safe_on_hart; intros; hart_wf_solve|].
  repeat (apply safe_if; intros); try apply safe_put_char; try apply safe_ret_unit.
  - apply safe_mem_at; [apply dram_idx_range; assumption|]. intros d Hd.
    apply safe_seq; [apply safe_on_hart; intros; hart_wf_solve|].
    apply safe_seq; [apply safe_on_hart, store_switch_wf|]. apply safe_store_commit; assumption.
  - apply safe_clint_store. wf_auto.
Qed.

(** *** Atomics *)

Lemma amow_result_u64 op w v : is_u64 v -> is_u64 (amow_result op w v).
Proof. intros. unfold amow_result, MASK32. repeat case_match; wf_auto. Qed.
Lemma amod_result_u64 op w v : is_u64 w -> is_u64 v -> is_u64 (amod_result op w v).
Proof. intros Hw Hv. unfold amod_result. repeat case_match; wf_auto; unfold is_u64 in *; lia. Qed.

Lemma set_ret_wf v h : hart_wf h -> is_u64 v -> hart_wf (set_ret v h).
Proof. intros. hart_wf_solve. Qed.
Lemma set_ls_wf r h : hart_wf h -> is_u64 r.2 -> hart_wf (set_ls r h).
Proof. intros. hart_wf_solve. Qed.
Lemma amo_misaligned_wf h : hart_wf h -> hart_wf (amo_misaligned h).
Proof.
  intros Hh. assert (Hc : csrs_wf (cs h)) by apply Hh. destruct Hc. hart_wf_solve.
Qed.
#[local] Hint Resolve set_ret_wf set_ls_wf amo_misaligned_wf amow_result_u64 amod_result_u64 : wf.
Lemma temps_of_wf h : hart_wf h -> temps_wf (tm h).
Proof. apply hwf_tm. Qed.

Lemma safe_amo_store a x : in_dram_store a = true -> is_u64 x -> safe (amo_store (dram_idx a) x).
Proof. intros. apply safe_seq; [apply safe_mem_put; [apply dram_idx_range|]; assumption|apply safe_bump]. Qed.

Lemma safe_exec_lr_w : safe exec_lr_w.
Proof.
  unfold exec_lr_w. apply safe_seq; [apply safe_on_hart; intros; apply set_ls_wf; [assumption|]|].
  { apply load_word_u64. }
  apply safe_get_hart; intros h Hh. apply safe_get_world; intros w Hw. apply safe_on_hart. intros h' Hh'.
  destruct (ls_success _); [|wf_auto].
  assert (is_u64 (global_store_gen w)) by apply Hw.
  assert (Hs : hart_wf (set_ret (sign_extend (Z.land (wb_data (tm h')) MASK32) 32) h')) by wf_auto.
  destruct (temps_of_wf h' Hh').
  repeat (apply set_rs_fn_wf; [|intros []; constructor; cbn; assumption]). assumption.
Qed.

Lemma clear_reserve_wf h : hart_wf h ->
  hart_wf { h with rs -> amo_reserve_addr := 0; rs -> amo_reserve_valid := false }.
Proof. intros. hart_wf_solve. Qed.
Lemma clear_reserve64_wf h : hart_wf h ->
  hart_wf { h with rs -> amo_reserve_addr64 := 0; rs -> amo_reserve_valid64 := false }.
Proof. intros. hart_wf_solve. Qed.
Lemma set_store_data_wf v h : hart_wf h -> is_u64 v -> hart_wf { h with tm -> store_data := v }.
Proof. intros. hart_wf_solve. Qed.

Lemma safe_set_ret v : is_u64 v -> safe (on_hart (set_ret v)).
Proof. intros. apply safe_on_hart. wf_auto. Qed.

(** An atomic runs with [load_addr] in the DRAM. *)
Definition safe_amo (m : M st unit) : Prop := forall s,
  st_wf s -> in_dram_store (load_addr (tm (hrt s))) = true -> wp m (fun _ s' => st_wf s') s.

Lemma safe_amo_of m : safe m -> safe_amo m.
Proof. intros Hm s Hs _. apply Hm, Hs. Qed.
Lemma safe_amo_get_hart k :
  (forall h, hart_wf h -> in_dram_store (load_addr (tm h)) = true -> safe (k h)) ->
  safe_amo (h <- get_hart ;; k h).
Proof. intros Hk s Hs Ha. apply wp_bind, wp_gets. apply Hk; [apply Hs|assumption|assumption]. Qed.

Lemma safe_amo_sc_w : safe_amo exec_sc_w.
Proof.
  apply safe_amo_get_hart. intros h0 Hh Ha. apply safe_get_world; intros w0 Hw.
  destruct (temps_of_wf _ Hh).
  apply safe_seq; [|apply safe_on_hart, clear_reserve_wf].
  apply safe_if; intros _; [|apply safe_set_ret; unfold is_u64; lia].
  assert (is_u64 (store_word (load_addr (tm h0)) (load_data (tm h0)) (Z.land (rv2 h0) MASK32)).2)
    by (apply store_word_u64; assumption).
  apply safe_seq.
  { apply safe_on_hart. intros. apply (set_store_data_wf _ (set_ls _ h)); unfold MASK32; wf_auto. }
  apply safe_if; intros _.
  - apply safe_seq; [apply safe_amo_store; assumption|apply safe_set_ret; unfold is_u64; lia].
  - apply safe_on_hart. intros. apply set_ret_wf; [wf_auto|unfold is_u64; lia].
Qed.

Lemma safe_amo_rmw_w op : safe_amo (exec_amo_rmw_w op).
Proof.
  apply safe_amo_get_hart. intros h0 Hh0 Ha. destruct (temps_of_wf _ Hh0).
  apply safe_seq; [apply safe_on_hart; intros; apply set_ls_wf; [assumption|apply load_word_u64]|].
  apply safe_get_hart; intros h Hh. apply safe_if; intros _; [|apply safe_on_hart; wf_auto].
  cbv zeta. set (new := amow_result _ _ _).
  assert (is_u64 new) by (subst new; apply amow_result_u64; unfold MASK32; wf_auto). clearbody new.
  assert (is_u64 (store_word (load_addr (tm h0)) (load_data (tm h)) new).2) by (apply store_word_u64, (temps_of_wf h Hh)).
  apply safe_seq; [|apply safe_amo_store; assumption].
  apply safe_on_hart. intros h' Hh'.
  set (h1 := set_ret _ h'). assert (hart_wf h1) by (subst h1; wf_auto). clearbody h1. hart_wf_solve.
Qed.

Lemma safe_lr_d : safe exec_lr_d.
Proof.
  apply safe_on_hart. intros h Hh. destruct (negb _); [wf_auto|].
  assert (Hs : hart_wf (set_ret (wb_data (tm h)) h)) by wf_auto.
  repeat (apply set_rs_fn_wf; [|intros []; constructor; cbn; wf_auto]). assumption.
Qed.

Lemma safe_amo_sc_d : safe_amo exec_sc_d.
Proof.
  apply safe_amo_get_hart. intros h0 Hh Ha.
  apply safe_seq; [|apply safe_on_hart, clear_reserve64_wf].
  apply safe_if; intros _; [|apply safe_set_ret; unfold is_u64; lia].
  apply safe_seq; [apply safe_on_hart; intros; apply set_store_data_wf; wf_auto|].
  apply safe_if; intros _; [apply safe_on_hart; wf_auto|].
  apply safe_seq; [apply safe_amo_store; wf_auto|apply safe_set_ret; unfold is_u64; lia].
Qed.

Lemma safe_amo_rmw_d op : safe_amo (exec_amo_rmw_d op).
Proof.
  apply safe_amo_get_hart. intros h0 Hh Ha. apply safe_if; intros _; [apply safe_on_hart; wf_auto|].
  cbv zeta. set (new := amod_result _ _ _).
  assert (is_u64 new) by (subst new; wf_auto).
  apply safe_seq; [|apply safe_amo_store; assumption]. apply safe_on_hart. wf_auto.
Qed.

(** The common frame of the two AMO widths: address test, cell read, [setd] of the cell. *)
Lemma safe_amo_frame a setd (m n : M st unit) :
  is_u64 a -> (forall d h, is_u64 d -> hart_wf h -> hart_wf (setd d h) /\ load_addr (tm (setd d h)) = load_addr (tm h)) ->
  safe_amo m -> safe n ->
  safe (on_hart (fun h => { h with tm -> load_addr := a }) ;;;
        if negb (in_dram_amo a) then exit_with 1
        else d <- mem_at (dram_idx a) ;; on_hart (setd d) ;;; m ;;; n).
Proof.
  intros Ha Hset Hm Hn s Hs. apply wp_bind, wp_modify.
  assert (Hs1 : st_wf {s with hrt ::= fun h => { h with tm -> load_addr := a }}).
  { destruct Hs as [Hh Hw]. constructor; cbn; [|assumption]. hart_wf_solve. }
  assert (Hla : load_addr (tm (hrt {s with hrt ::= fun h => { h with tm -> load_addr := a }})) = a) by reflexivity.
  revert Hs1 Hla. generalize ({s with hrt ::= fun h => { h with tm -> load_addr := a }}). clear s Hs.
  intros [h w] Hs Hla. apply wp_if; [intros; exact I|]. intros Hd. apply negb_false_iff, in_dram_amo_store in Hd.
  apply wp_bind. unfold wp at 1, mem_at. rewrite (vec_in_dram _ _ (wwf_size _ (swf_world _ Hs)) Hd).
  apply wp_bind, wp_modify.
  assert (Hd64 : is_u64 (vec_get (memory w) (dram_idx a))) by apply (wwf_mem _ (swf_world _ Hs)).
  destruct (Hset _ h Hd64 (swf_hart _ Hs)) as [Hw1 Hw2].
  apply wp_bind. eapply wp_mono; [|apply Hm; cbn].
  - cbn. intros _ s' Hs'. apply Hn, Hs'.
  - destruct Hs; constructor; assumption.
  - cbn in Hla. rewrite Hw2, Hla. assumption.
Qed.

Lemma safe_set_ret_rd : safe (on_hart (fun h => set_rd (ret_data (tm h)) h)).
Proof. apply safe_on_hart. intros h Hh. apply set_rd_wf; [assumption|]. apply (temps_of_wf h Hh). Qed.

Lemma safe_exec_amo : safe exec_amo.
Proof.
  unfold exec_amo. apply safe_get_hart; intros h Hh. repeat (apply safe_if; intros _); [| |apply safe_ret_unit].
  - apply safe_get_hart; intros h' Hh'.
    apply (safe_amo_frame _ set_load_data); [wf_auto| |cbv zeta|apply safe_set_ret_rd].
    { intros d h1 Hd H1. split; [hart_wf_solve|reflexivity]. }
    destruct (_ =? 2); [apply safe_amo_of, safe_exec_lr_w|].
    destruct (_ =? 3); [apply safe_amo_sc_w|].
    destruct (is_rmw _); [apply safe_amo_rmw_w|apply safe_amo_of, safe_ret_unit].
  - apply safe_get_hart; intros h' Hh'.
    apply (safe_amo_frame _ set_wb); [wf_auto| |cbv zeta|apply safe_set_ret_rd].
    { intros d h1 Hd H1. split; [wf_auto|reflexivity]. }
    destruct (_ =? 2); [apply safe_amo_of, safe_lr_d|].
    destruct (_ =? 3); [apply safe_amo_sc_d|].
    destruct (is_rmw _); [apply safe_amo_rmw_d|apply safe_amo_of, safe_ret_unit].
Qed.

(** *** System instructions *)

Lemma illegal_wf h : hart_wf h -> hart_wf (illegal h).
Proof.
  intros Hh. apply set_fl_fn_wf. apply set_cs_fn_wf; [assumption|]. intros []. constructor; cbn; try assumption.
  pose proof (hwf_instr h Hh). word.
Qed.

Lemma safe_exec_csr L new keep guard :
  (forall h v, hart_wf h -> is_u64 v -> is_u64 (new h v)) -> safe (exec_csr L new keep guard).
Proof.
  intros Hnew. unfold exec_csr. apply safe_seq; [apply safe_on_hart; wf_auto|].
  apply safe_get_hart; intros h Hh. cbv zeta. destruct (temps_of_wf h Hh).
  apply safe_if; intros _; [|apply safe_on_hart, illegal_wf].
  apply safe_seq; [apply safe_when; intros _; apply safe_on_hart; intros; apply set_store_data_wf; auto|].
  eapply safe_bind_any; [apply safe_csr_write; auto|]. intros ok.
  apply safe_seq; [apply safe_on_hart; intros; hart_wf_solve|].
  apply safe_if; intros _; [|apply safe_on_hart, illegal_wf]. apply safe_when; intros _.
  apply safe_on_hart. intros h' Hh'. apply set_rd_wf; [assumption|apply (temps_of_wf h' Hh')].
Qed.

Lemma safe_exec_priv : safe exec_priv.
Proof.
  unfold exec_priv. apply safe_get_hart; intros h Hh. cbv zeta. repeat (apply safe_if; intros _).
  - apply safe_on_hart. intros. apply raise_exception_wf; auto; vm_compute; intuition congruence.
  - apply safe_on_hart. intros. apply set_fl_fn_wf; assumption.
  - apply safe_on_hart. intros. hart_wf_solve.
  - apply safe_on_hart. wf_auto.
  - apply safe_ret_unit.
Qed.

Lemma rs1_u64 h : hart_wf h -> is_u64 (rs1 (lt h)).
Proof. intros Hh. pose proof (lwf_rs1 _ (hwf_lt h Hh)). unfold is_u64. lia. Qed.

Lemma safe_exec_systm L : safe (exec_systm L).
Proof.
  unfold exec_systm. apply safe_get_hart; intros h Hh. cbv zeta.
  repeat (apply safe_if; intros _); try apply safe_exec_priv; try apply safe_ret_unit;
    apply safe_exec_csr; auto using rs1_u64 with wf word.
Qed.

Lemma safe_exec_instr L : safe (exec_instr L).
Proof.
  unfold exec_instr. apply safe_get_hart; intros h Hh. cbv zeta.
  repeat (apply safe_if; intros _); try apply safe_ret_unit;
    auto using safe_exec_load, safe_exec_store, safe_exec_amo, safe_exec_systm;
    apply safe_on_hart; auto using exec_lui_wf, exec_auipc_wf, exec_jump_wf, exec_jumpr_wf, exec_cjump_wf,
      exec_iops_wf, exec_iops64_wf, exec_rops_wf, exec_rops64_wf.
Qed.

(** *** The prologue of the step

  It indexes the vectors of the CLINT with the hart number, so its invariant
  includes that the number [n] is one of the CLINT's. *)
Record inv (n : Z) (s : st) : Prop := {
  inv_wf : st_wf s; inv_id : mhartid (cs (hrt s)) = n; inv_range : 0 <= u32 n < num_harts (clint (wld s)) }.
Definition safe_n {A} (n : Z) (m : M st A) : Prop := forall s, inv n s -> wp m (fun _ s' => inv n s') s.

Lemma safe_n_ret {A} n (a : A) : safe_n n (ret a).
Proof. intros s Hs. exact Hs. Qed.
Lemma safe_n_bind {A B} n (m : M st A) (f : A -> M st B) :
  safe_n n m -> (forall a, safe_n n (f a)) -> safe_n n (bind m f).
Proof. intros Hm Hf s Hs. apply wp_bind. eapply wp_mono; [|apply Hm, Hs]. cbn. intros. apply Hf; assumption. Qed.
Lemma safe_n_get_hart {A} n (k : hart -> M st A) :
  (forall h, hart_wf h -> mhartid (cs h) = n -> safe_n n (k h)) -> safe_n n (h <- get_hart ;; k h).
Proof. intros Hk s Hs. apply wp_bind, wp_gets. apply Hk; [apply Hs|apply Hs|assumption]. Qed.
Lemma safe_n_on_hart n f :
  (forall h, hart_wf h -> hart_wf (f h)) -> (forall h, mhartid (cs (f h)) = mhartid (cs h)) -> safe_n n (on_hart f).
Proof.
  intros Hf Hid s [[Hh Hw] Hi Hr]. apply wp_modify. constructor; cbn; [|rewrite <- Hi; apply Hid|assumption].
  constructor; cbn; auto.
Qed.
Lemma safe_n_if {A} n (b : bool) (m k : M st A) : safe_n n m -> safe_n n k -> safe_n n (if b then m else k).
Proof. destruct b; auto. Qed.
Lemma safe_n_when n b m : safe_n n m -> safe_n n (when b m).
Proof. intros. apply safe_n_if; [assumption|apply safe_n_ret]. Qed.
Lemma safe_n_timer n : safe_n n (check_timer n).
Proof.
  intros s Hs. pose proof Hs as [[Hh []] Hi Hr]. unfold wp, check_timer.
  rewrite check_timer_defined by assumption. exact Hs.
Qed.
Lemma safe_n_software n : safe_n n (check_software n).
Proof.
  intros s Hs. pose proof Hs as [[Hh []] Hi Hr]. unfold wp, check_software.
  rewrite check_software_defined by assumption. exact Hs.
Qed.
#[local] Hint Resolve safe_n_timer safe_n_software safe_n_ret : wf.

Lemma set_bool_bit_wf (b : bool) : is_bit (if b then 1 else 0).
Proof. destruct b; unfold is_bit; lia. Qed.

Lemma safe_n_park n : safe_n n park_check.
Proof.
  apply safe_n_get_hart. intros h Hh Hid. rewrite Hid. apply safe_n_if; [wf_auto|].
  apply safe_n_bind; [wf_auto|]. intros kick. apply safe_n_if; [|wf_auto].
  apply safe_n_bind; [|wf_auto]. apply safe_n_on_hart; [|reflexivity]. intros. hart_wf_solve. lia.
Qed.

Lemma set_MTIP_wf m b : mip_wf m -> is_bit b -> mip_wf { m with MTIP := b }.
Proof. destruct m. unfold mip_wf; cbn. tauto. Qed.
Lemma set_MSIP_wf m b : mip_wf m -> is_bit b -> mip_wf { m with MSIP := b }.
Proof. destruct m. unfold mip_wf; cbn. tauto. Qed.

Lemma safe_n_refresh n : safe_n n refresh_mip.
Proof.
  apply safe_n_get_hart. intros h Hh Hid. rewrite Hid. apply safe_n_bind; [wf_auto|]. intros t.
  apply safe_n_bind; [|intros _; apply safe_n_bind; [wf_auto|intros b]]; apply safe_n_on_hart;
    try reflexivity; intros h' Hh'; apply set_cs_fn_wf; try assumption; intros []; constructor; cbn; try assumption;
    (apply set_MTIP_wf || apply set_MSIP_wf); auto using set_bool_bit_wf.
Qed.

Lemma raise_interrupt_id code h : mhartid (cs (raise_interrupt code h)) = mhartid (cs h).
Proof. unfold raise_interrupt, interrupt_function. destruct (ms_mie (mstatus (cs h)) =? 1); reflexivity. Qed.
Lemma take_interrupts_id L skip h : mhartid (cs (take_interrupts L skip h)) = mhartid (cs h).
Proof.
  unfold take_interrupts, take_machine_soft_irq, take_machine_timer_irq.
  repeat match goal with |- context [if ?b then _ else _] => destruct b end;
    rewrite ?raise_interrupt_id; reflexivity.
Qed.
Lemma decay_protect_id h : mhartid (cs (decay_protect h)) = mhartid (cs h).
Proof. unfold decay_protect. case_match; reflexivity. Qed.

Lemma safe_n_wfi n : safe_n n wfi_check.
Proof.
  apply safe_n_get_hart. intros h Hh Hid. rewrite Hid. apply safe_n_if; [wf_auto|].
  apply safe_n_bind; [apply safe_n_if; wf_auto|]. intros sw.
  apply safe_n_bind; [apply safe_n_if; [|apply safe_n_if]; wf_auto|]. intros p.
  apply safe_n_bind; [|wf_auto]. apply safe_n_when, safe_n_on_hart; [|reflexivity]. intros. hart_wf_solve.
Qed.

Lemma safe_completion L : safe (completion_check L).
Proof.
  apply safe_get_hart. intros h Hh. repeat (apply safe_if; intros _); try apply safe_ret_unit.
  all: apply safe_seq; [apply safe_set_lflag|apply safe_exit].
Qed.

(** From a state of the invariant, a prologue followed by the rest of the step. *)
Lemma safe_n_then {A B} n (m : M st A) (k : A -> M st B) s : safe_n n m -> inv n s ->
  (forall a s', inv n s' -> wp (k a) (fun _ s => st_wf s) s') -> wp (bind m k) (fun _ s => st_wf s) s.
Proof. intros Hm Hs Hk. apply wp_bind. eapply wp_mono; [|apply Hm, Hs]. cbn. auto. Qed.

(** ** The step *)

Lemma set_x0_wf h : hart_wf h -> hart_wf (set_reg 0 0 h).
Proof. intros. apply set_reg_wf; [assumption|unfold is_u64; lia]. Qed.

(** What follows the prologue: fetch, completion tests, decode and execution. *)
Lemma safe_execute L : safe (
  h <- get_hart ;;
  i <- hart_fetch_instruction (PC h) ;;
  on_hart (fun h => { h with instruction := i }) ;;;
  completion_check L ;;;
  h <- get_hart ;;
  if INS_ADDR_MISSALIG (fl h) then ret tt else on_hart decode_step ;;; exec_instr L).
Proof.
  apply safe_get_hart; intros h Hh. eapply safe_bind; [apply safe_fetch|]. intros i Hi.
  apply safe_seq; [apply safe_on_hart; intros; hart_wf_solve|].
  apply safe_seq; [apply safe_completion|]. apply safe_get_hart; intros h' Hh'.
  apply safe_if; intros _; [apply safe_ret_unit|].
  apply safe_seq; [apply safe_on_hart; wf_auto|apply safe_exec_instr].
Qed.

Lemma step_preserves L n s : inv n s -> wp (hart_step L) (fun _ s' => st_wf s') s.
Proof.
  intros Hs. unfold hart_step.
  apply (safe_n_then n); [apply safe_n_on_hart; [apply set_x0_wf|reflexivity]|assumption|]. intros _ s1 H1.
  apply (safe_n_then n); [apply safe_n_park|assumption|]. intros p s2 H2.
  apply wp_if; intros _; [|apply H2].
  apply (safe_n_then n); [apply safe_n_refresh|assumption|]. intros _ s3 H3.
  apply (safe_n_then n); [apply safe_n_on_hart; [wf_auto|apply take_interrupts_id]|assumption|]. intros _ s4 H4.
  apply (safe_n_then n); [apply safe_n_on_hart; [wf_auto|apply decay_protect_id]|assumption|]. intros _ s5 H5.
  apply (safe_n_then n); [apply safe_n_wfi|assumption|]. intros go s6 H6.
  apply wp_if; intros _; [|apply H6]. apply safe_execute, H6.
Qed.
End Preserve.
