(* ===== verification/Ends.v ===== *)
(** * How a step of a hart may end

    The invariant of [Safety] with the precondition on the hart number removed: a step from a
    well-formed state throws nothing, and it is undefined only when the guest has overwritten
    the hart number. A step that ends the program does so for a reason ([stops]), and it changes
    the hart number only by a CSR instruction that names it ([renumbered]). *)

From S2P Require Import Prelude Constants Alu MemAccess Csr Clint Hart Trap Execute Emulator Safety.

Section Ends.
Context `{Console}.
Local Open Scope prog_scope.

(** The hart number names no CLINT hart. *)
Definition misnumbered (h : hart) : Prop := NUM_HARTS <= u32 (mhartid (cs h)).
(** The hart has just executed a CSR instruction on [mhartid]. *)
Definition renumbered (h : hart) : Prop := opcode (lt h) = op_systm /\ imm11_0 (lt h) = MHARTID.
(** The hart is at an atomic access outside DRAM. *)
Definition refused (h : hart) : Prop := opcode (lt h) = op_amo /\ in_dram_amo (load_addr (tm h)) = false.
(** The hart is at the end of a test image. *)
Definition concluded (c : Z) (h : hart) : Prop :=
  c = 0 /\ instruction h = 0x73 /\ reg h 3 = 1 /\ reg h 17 = 0x5d /\ reg h 10 = 0 \/ c = 1 /\ instruction h = 0x00018513.
(** Why a step ends the program with status [c]. *)
Definition stops (L : bool) (c : Z) (h : hart) : Prop := c = 1 /\ refused h \/ L = false /\ concluded c h.

(** ** Undefined behaviour *)

Lemma misnumbered_timer s : st_wf s -> misnumbered (hrt s) -> check_timer (mhartid (cs (hrt s))) s = UB.
Proof.
  intros [_ []] Hm. unfold misnumbered in Hm. unfold check_timer, check_timer_interrupt. destruct wwf_clint.
  rewrite lookup_ge_None_2; [reflexivity|]. rewrite cwf_cmp_len, wwf_harts. lia.
Qed.
Lemma misnumbered_software s : st_wf s -> misnumbered (hrt s) -> check_software (mhartid (cs (hrt s))) s = UB.
Proof.
  intros [_ []] Hm. unfold misnumbered in Hm. unfold check_software, check_software_interrupt. destruct wwf_clint.
  rewrite lookup_ge_None_2; [reflexivity|]. rewrite cwf_msip_len, wwf_harts. lia.
Qed.
Lemma bind_ub {S A B} (m : M S A) (f : A -> M S B) s : m s = UB -> bind m f s = UB.
Proof. unfold bind. now intros ->. Qed.
Lemma misnumbered_refresh s : st_wf s -> misnumbered (hrt s) -> refresh_mip s = UB.
Proof.
  intros Hs Hm. unfold refresh_mip. rewrite (bind_ok _ _ _ _ _ (eq_refl : get_hart s = Ok (hrt s) s)).
  now apply bind_ub, misnumbered_timer.
Qed.

Lemma misnumbered_step L s : st_wf s -> misnumbered (hrt s) -> hart_step L s = UB.
Proof.
  intros Hs Hm. unfold hart_step.
  rewrite (bind_ok _ _ _ _ _ (eq_refl : on_hart (set_reg 0 0) s = Ok tt {s with hrt ::= set_reg 0 0})).
  set (s1 := {s with hrt ::= set_reg 0 0}).
  assert (Hs1 : st_wf s1) by (destruct Hs; subst s1; split; [apply set_x0_wf; assumption|assumption]).
  assert (Hm1 : misnumbered (hrt s1)) by exact Hm. clearbody s1. destruct (smp_released (hrt s1)) eqn:Hr.
  - assert (Hp : park_check s1 = Ok (true, false) s1) by (unfold park_check, bind, get_hart, gets; now rewrite Hr).
    rewrite (bind_ok _ _ _ _ _ Hp). now apply bind_ub, misnumbered_refresh.
  - apply bind_ub. unfold park_check. rewrite (bind_ok _ _ _ _ _ (eq_refl : get_hart s1 = Ok (hrt s1) s1)), Hr.
    now apply bind_ub, misnumbered_software.
Qed.

Lemma numbered s : st_wf s -> misnumbered (hrt s) \/ hartid_ok s.
Proof.
  intros [_ []]. unfold misnumbered, hartid_ok. rewrite wwf_harts. pose proof (u32_range (mhartid (cs (hrt s)))). unfold is_u32 in *. lia.
Qed.

(** The outcome of a member function from a well-formed state. *)
Definition sound {A} (m : M st A) : Prop := forall s, st_wf s ->
  match m s with Ok _ s' => st_wf s' | Exit _ _ => True | Throw _ => False | UB => misnumbered (hrt s) end.
Lemma safe_sound {A} (m : M st A) : safe m -> sound m.
Proof. intros Hm s Hs. specialize (Hm s Hs). unfold wp in Hm. destruct (m s); easy. Qed.

Lemma sound_step L : sound (hart_step L).
Proof.
  intros s Hs. destruct (numbered s Hs) as [Hm|Hid]; [now rewrite misnumbered_step|].
  pose proof (step_preserves L (mhartid (cs (hrt s))) s ltac:(split; [exact Hs|reflexivity|exact Hid])) as Hw.
  unfold wp in Hw. destruct (hart_step L s); easy.
Qed.

Lemma deliver_wf h : hart_wf h -> hart_wf (deliver h).
Proof.
  intros Hh. unfold deliver, raise1. cbv zeta.
  match goal with |- context [if signed_value (PC h) <? 0 then ?a else ?b] => set (h1 := if signed_value (PC h) <? 0 then a else b) end.
  assert (H1 : hart_wf h1) by (subst h1; destruct (_ <? _); [apply set_fl_fn_wf|]; assumption). clearbody h1.
  repeat match goal with |- hart_wf (if ?b then _ else _) => destruct b end; try assumption;
    (apply raise_exception_wf || apply raise_interrupt_wf); try (vm_compute; intuition congruence); try apply set_fl_fn_wf; assumption.
Qed.
Lemma sound_interrupts : sound (hart_set_interrupts false ;;; ret tt).
Proof.
  intros s Hs. destruct (numbered s Hs) as [Hm|Hid].
  - unfold hart_set_interrupts, bind at 1 2. now rewrite misnumbered_refresh.
  - pose proof (safe_n_refresh (mhartid (cs (hrt s))) s ltac:(split; [exact Hs|reflexivity|exact Hid])) as Hw.
    unfold hart_set_interrupts, bind. unfold wp in Hw. destruct (refresh_mip s) as [a s'| | |]; [|easy..]. cbn.
    destruct Hw as [[Hh Hw] _ _]. split; [now apply deliver_wf|exact Hw].
Qed.

(** ** The reasons for an end, and the hart number *)

Section Walk.
Context (L : bool) (R : hart -> hart -> Prop) `{!PreOrder R}.

Definition walk {A} (m : M st A) (s : st) : Prop :=
  match m s with Ok _ s' => R (hrt s) (hrt s') | Exit c s' => stops L c (hrt s') | _ => True end.

Lemma walk_bind {A B} (m : M st A) (f : A -> M st B) s : walk m s -> (forall a s', m s = Ok a s' -> walk (f a) s') -> walk (bind m f) s.
Proof.
  unfold walk, bind. intros Hm Hf. destruct (m s) as [a s'|c s'| |]; [|exact Hm|exact I|exact I].
  specialize (Hf a s' eq_refl). destruct (f a s'); [now transitivity (hrt s')|exact Hf|exact I|exact I].
Qed.
Lemma walk_ret {A} (a : A) s : walk (ret a) s.
Proof. unfold walk. cbn. reflexivity. Qed.
Lemma walk_gets {A} (f : st -> A) s : walk (gets f) s.
Proof. unfold walk. cbn. reflexivity. Qed.
Lemma walk_on_hart f s : (forall h, R h (f h)) -> walk (on_hart f) s.
Proof. intros Hf. apply Hf. Qed.
Lemma walk_on_world f s : walk (on_world f) s.
Proof. unfold walk. cbn. reflexivity. Qed.
Lemma walk_mem_at i s : walk (mem_at i) s.
Proof. unfold walk, mem_at. destruct (vec_in _ _); [reflexivity|exact I]. Qed.
Lemma walk_mem_put i x s : walk (mem_put i x) s.
Proof. unfold walk, mem_put. destruct (vec_in _ _); [cbn; reflexivity|exact I]. Qed.
Lemma walk_check_timer h s : walk (check_timer h) s.
Proof. unfold walk, check_timer, checked. destruct (check_timer_interrupt _ _); [reflexivity|exact I]. Qed.
Lemma walk_check_software h s : walk (check_software h) s.
Proof. unfold walk, check_software, checked. destruct (check_software_interrupt _ _); [reflexivity|exact I]. Qed.
Lemma walk_clint_load a s : walk (clint_load a) s.
Proof. unfold walk, clint_load. destruct (clint_read _ _). cbn. reflexivity. Qed.
Lemma walk_kbhit s : walk kbhit s.
Proof. unfold walk, kbhit. destruct (ioctl_fionread _) as [[r n] t]. cbn. reflexivity. Qed.
Lemma walk_read_stdin s : walk read_stdin s.
Proof. unfold walk, read_stdin. destruct (read_byte _) as [[r n] t]. cbn. reflexivity. Qed.
End Walk.

(** The walk through a member function; updates of the hart remain. *)
Ltac walk :=
  repeat first
    [ apply walk_ret; exact _ | apply walk_gets; exact _ | apply walk_mem_at; exact _ | apply walk_mem_put; exact _
    | apply walk_check_timer; exact _ | apply walk_check_software; exact _ | apply walk_clint_load; exact _
    | apply walk_kbhit; exact _ | apply walk_read_stdin; exact _ | apply walk_on_world; exact _
    | match goal with |- walk _ _ (bind _ _) _ => apply walk_bind; [exact _| |intros ? ? _] end
    | progress unfold when, get_hart, get_world, bump_store_gen, put_char, clint_store
    | match goal with |- walk _ _ (if ?b then _ else _) _ => destruct b end ].

(** The hart number is kept. *)
Definition same_id (h h' : hart) : Prop := mhartid (cs h') = mhartid (cs h).
#[export] Instance same_id_preorder : PreOrder same_id.
Proof. split; [intros h; reflexivity|]. unfold same_id. intros a b c -> ->. reflexivity. Qed.
Definition same_lt (h h' : hart) : Prop := lt h' = lt h.
#[export] Instance same_lt_preorder : PreOrder same_lt.
Proof. split; [intros h; reflexivity|]. unfold same_lt. intros a b c -> ->. reflexivity. Qed.

Ltac kept :=
  intros; unfold same_id, same_lt, load_switch, store_switch, csr_fetch, csr_read, amo_misaligned, illegal, raise_exception; cbv zeta;
  repeat match goal with |- context [if ?b then _ else _] => destruct b end; reflexivity.
Ltac walks := walk; try (apply walk_on_hart; kept).

Lemma exec_case_id h : same_id h (exec_lui h) /\ same_id h (exec_auipc h) /\ same_id h (exec_jump h) /\ same_id h (exec_jumpr h) /\ same_id h (exec_cjump h) /\
  same_id h (exec_iops h) /\ same_id h (exec_iops64 h) /\ same_id h (exec_rops h) /\ same_id h (exec_rops64 h).
Proof.
  unfold exec_jump, exec_jumpr, exec_cjump, exec_iops, exec_iops64, exec_rops, exec_rops64. cbv zeta.
  repeat split; kept.
Qed.
Lemma walk_fetch L pc s : walk L same_id (hart_fetch_instruction pc) s.
Proof. unfold hart_fetch_instruction, getINST. walks. Qed.
Lemma walk_exec_load L s : walk L same_id (exec_load L) s.
Proof. unfold exec_load, uart_load. walks. Qed.
Lemma walk_exec_store L s : walk L same_id (exec_store L) s.
Proof. unfold exec_store, store_commit. walks. Qed.
Lemma walk_exec_priv L s : walk L same_id exec_priv s.
Proof. unfold exec_priv. walks. Qed.

(** An atomic access outside DRAM is where the program ends. *)
Lemma walk_amo_frame L a (m : M st unit) s : opcode (lt (hrt s)) = op_amo -> (forall s', walk L same_id m s') ->
  walk L same_id (on_hart (fun h => { h with tm -> load_addr := a }) ;;; if negb (in_dram_amo a) then exit_with 1 else m) s.
Proof.
  intros Hop Hm. destruct (in_dram_amo a) eqn:Ha; cbn [negb].
  - apply walk_bind; [exact _|apply walk_on_hart; kept|]. intros _ s' _. apply Hm.
  - left. split; [reflexivity|]. split; [exact Hop|exact Ha].
Qed.
Lemma walk_exec_amo L s : opcode (lt (hrt s)) = op_amo -> walk L same_id exec_amo s.
Proof.
  intros Hop. unfold exec_amo. apply walk_bind; [exact _|walk|]. intros h s' [= <- <-].
  destruct (_ =? 2); [|destruct (_ =? 3); [|walk]].
  - unfold exec_amo_w. apply walk_bind; [exact _|walk|]. intros h s' [= <- <-]. apply walk_amo_frame; [exact Hop|]. intros s'.
    unfold exec_lr_w, exec_sc_w, exec_amo_rmw_w, amo_store. walks.
  - unfold exec_amo_d. apply walk_bind; [exact _|walk|]. intros h s' [= <- <-]. apply walk_amo_frame; [exact Hop|]. intros s'.
    unfold exec_lr_d, exec_sc_d, exec_amo_rmw_d, amo_store. walks.
Qed.

(** A CSR instruction keeps the latches; it keeps the hart number unless it names it. *)
Lemma walk_csr_write_lt L a v s : walk L same_lt (csr_write L a v) s.
Proof. unfold csr_write. cbv zeta. walks. Qed.
Lemma walk_csr_write L a v s : a <> MHARTID -> walk L same_id (csr_write L a v) s.
Proof. intros Ha. apply Z.eqb_neq in Ha. unfold csr_write. cbv zeta. rewrite Ha. walks. Qed.

Definition same_or_renumbered (h h' : hart) : Prop := same_id h h' \/ renumbered h'.
Lemma csr_ends L new keep guard s : opcode (lt (hrt s)) = op_systm -> walk L same_or_renumbered (exec_csr L new keep guard) s.
Proof.
  intros Hop. destruct (Z.eq_dec (imm11_0 (lt (hrt s))) MHARTID) as [E|Hne].
  - assert (Hw : walk L same_lt (exec_csr L new keep guard) s) by (unfold exec_csr; walks; apply walk_csr_write_lt).
    unfold walk in *. destruct (exec_csr _ _ _ _ _); [|exact Hw|exact I|exact I]. right. unfold same_lt in Hw. split; now rewrite Hw.
  - assert (Hw : walk L same_id (exec_csr L new keep guard) s).
    { unfold exec_csr. apply walk_bind; [exact _|apply walk_on_hart; kept|]. intros a s0 [= _ E0].
      assert (E1 : lt (hrt s0) = lt (hrt s)) by (rewrite <- E0; cbn [hrt]; kept).
      rewrite <- E1 in Hne. clear E0 E1. apply walk_bind; [exact _|walk|]. intros h s2 [= <- <-]. walks. now apply walk_csr_write. }
    unfold walk in *. destruct (exec_csr _ _ _ _ _); [now left|exact Hw|exact I|exact I].
Qed.

Lemma walk_mono L (R R' : hart -> hart -> Prop) {A} (m : M st A) s : (forall h h', R h h' -> R' h h') -> walk L R m s -> walk L R' m s.
Proof. intros HR. unfold walk. destruct (m s); auto. Qed.
Lemma walk_before {A B} L (m : M st A) (f : A -> M st B) s : walk L same_id m s ->
  (forall a s', m s = Ok a s' -> walk L same_or_renumbered (f a) s') -> walk L same_or_renumbered (bind m f) s.
Proof.
  unfold walk, bind. intros Hm Hf. destruct (m s) as [a s'|c s'| |]; [|exact Hm|exact I|exact I].
  specialize (Hf a s' eq_refl). destruct (f a s'); [|exact Hf|exact I|exact I].
  destruct Hf as [Hf|Hf]; [left; unfold same_id in *; congruence|now right].
Qed.

Lemma instr_ends L s : walk L same_or_renumbered (exec_instr L) s.
Proof.
  unfold exec_instr. apply walk_before; [walk|]. intros h s' [= <- <-]. destruct (exec_case_id (hrt s)) as (H1 & H2 & H3 & H4 & H5 & H6 & H7 & H8 & H9).
  repeat match goal with |- walk _ _ (if ?o =? ?c then _ else _) _ => destruct (Z.eqb_spec o c) end;
    match goal with
    | |- walk _ _ (on_hart _) _ => left; assumption
    | |- walk _ _ (exec_systm _) _ => idtac
    | |- walk _ _ (exec_load _) _ => apply (walk_mono _ same_id); [now left|apply walk_exec_load]
    | |- walk _ _ (exec_store _) _ => apply (walk_mono _ same_id); [now left|apply walk_exec_store]
    | |- walk _ _ exec_amo _ => apply (walk_mono _ same_id); [now left|now apply walk_exec_amo]
    | |- walk _ _ (ret _) _ => apply (walk_mono _ same_id); [now left|walk]
    end.
  unfold exec_systm. apply walk_before; [walk|]. intros h s' [= <- <-]. cbv zeta.
  repeat match goal with |- walk _ _ (if ?o =? ?c then _ else _) _ => destruct (o =? c) end;
    match goal with
    | |- walk _ _ (exec_csr _ _ _ _) _ => now apply csr_ends
    | |- walk _ _ exec_priv _ => apply (walk_mono _ same_id); [now left|apply walk_exec_priv]
    | |- walk _ _ (ret _) _ => apply (walk_mono _ same_id); [now left|walk]
    end.
Qed.

Lemma completion_ends L s : walk L same_id (completion_check L) s.
Proof.
  unfold completion_check. apply walk_bind; [exact _|walk|]. intros h s' [= <- <-]. destruct L; [walk|].
  assert (Hend : forall c, concluded c (hrt s) -> walk false same_id (disable_raw_mode ;;; exit_with (A := unit) c) s)
    by (intros c Hc; right; split; [reflexivity|exact Hc]).
  match goal with |- walk _ _ (if ?b then _ else if ?c then _ else _) _ => destruct b eqn:E1; [|destruct c eqn:E2; [|walk]] end; apply Hend.
  - left. rewrite !andb_true_iff, !Z.eqb_eq in E1. tauto.
  - right. apply Z.eqb_eq in E2. now split.
Qed.
Lemma take_interrupts_same L skip h : same_id h (take_interrupts L skip h).
Proof. apply take_interrupts_id. Qed.

Lemma step_ends L s : walk L same_or_renumbered (hart_step L) s.
Proof.
  unfold hart_step, park_check, refresh_mip, wfi_check.
  repeat first
    [ apply instr_ends
    | match goal with |- walk _ same_or_renumbered (bind _ _) _ => apply walk_before; [|intros ? ? _] end
    | match goal with |- walk _ _ (if ?b then _ else _) _ => destruct b end
    | apply (walk_mono _ same_id); [now left|apply walk_ret; exact _]
    | apply completion_ends | apply walk_fetch
    | apply walk_on_hart; intros h; (apply take_interrupts_same || apply decay_protect_id || kept)
    | walk ].
Qed.
End Ends.
