(* ===== verification/Boot.v ===== *)
(** * A concrete machine: initial states satisfy the invariant

    [queue_console] is a console with an input queue and an [lflag] word, the
    instance on which the theorems about the machine are evaluated. [boot] is a
    hart after [hart_init] with chosen memory cells. *)

From S2P Require Import Prelude Constants Alu Csr Clint Hart Trap Execute Safety.

(** The terminal as a queue of input bytes and the local-mode flags. *)
#[global] Instance queue_console : Console := {|
  tty := list Z * Z;
  ioctl_fionread t := (0, Z.of_nat (length t.1), t);
  read_byte t := match t.1 with [] => (0, 0, t) | c :: l => (1, c, (l, t.2)) end;
  tcgetattr_lflag t := t.2;
  tcsetattr_lflag f t := (t.1, f);
  ICANON := 0x2;
  ECHO := 0x8 |}.

Definition keys (input : list Z) (lflag : Z) : @tty queue_console := (input, lflag).
Definition time0 : timeval := {| tv_sec := 0; tv_usec := 0 |}.

Section Boot.
Context `{Console}.

(** Memory of 2^28 cells holding [cells], four harts, terminal [t]. *)
Definition boot_world (cells : list (Z * Z)) (t : tty) : world :=
  {| memory := mkvec (2 ^ 28) (list_to_map cells); clint := CLINT_new 4 time0;
     global_store_gen := 1; uart_rx_byte := -1; term := t; cout := [] |}.
Definition boot (L : bool) (hid : Z) (cells : list (Z * Z)) (t : tty) : st :=
  mkst _ (hart_init L hid) (boot_world cells t).

Lemma hart_init_wf L hid : is_u64 hid -> hart_wf (hart_init L hid).
Proof.
  intros Hid. constructor; try reflexivity; try (cbn; unfold is_u64, is_u32, DRAM_BASE; lia).
  - repeat constructor; unfold is_u64; lia.
  - constructor; cbn; lia.
  - constructor; cbn; unfold is_u64; lia.
  - constructor; cbn; unfold is_u64, is_u128; lia.
  - constructor; try exact Hid; try (vm_compute; intuition congruence);
      unfold mstatus_wf, mie_wf, mip_wf, is_bit, is_bits2; cbn; lia.
Qed.

Lemma cells_wf n cells : Forall (fun p => is_u64 p.2) cells -> vec_wf (mkvec n (list_to_map cells)).
Proof.
  intros Hc i. unfold vec_get; cbn. induction Hc as [|[k v] l Hv Hl IH]; cbn.
  - rewrite lookup_empty. cbn. unfold is_u64; lia.
  - rewrite lookup_insert. case_decide; [exact Hv|exact IH].
Qed.

Lemma boot_world_wf cells t : Forall (fun p => is_u64 p.2) cells -> world_wf (boot_world cells t).
Proof.
  intros Hc. constructor; cbn.
  - apply cells_wf, Hc.
  - unfold DRAM_SIZE. zlia.
  - apply CLINT_new_wf. lia.
  - unfold is_u64; lia.
  - lia.
  - reflexivity.
Qed.

Lemma boot_wf L hid cells t : 0 <= hid < 4 -> Forall (fun p => is_u64 p.2) cells -> st_wf (boot L hid cells t).
Proof.
  intros Hid Hc. split; [apply hart_init_wf; unfold is_u64; lia|apply boot_world_wf, Hc].
Qed.
Lemma boot_hartid L hid cells t : 0 <= hid < 4 -> hartid_ok (boot L hid cells t).
Proof. intros. unfold hartid_ok; cbn. rewrite u32_id by (unfold is_u32; lia). lia. Qed.

(** The same with some registers set. *)
Definition boot_hart (L : bool) (hid : Z) (regs : list (Z * Z)) : hart :=
  fold_right (fun p h => set_reg p.1 p.2 h) (hart_init L hid) regs.

Lemma boot_hart_wf L hid regs : is_u64 hid -> Forall (fun p => is_u64 p.2) regs -> hart_wf (boot_hart L hid regs).
Proof.
  intros Hid Hr. induction Hr as [|[r v] l Hv Hl IH]; cbn; [apply hart_init_wf, Hid|].
  apply set_reg_wf; assumption.
Qed.
(** Setting registers keeps every other member. *)
Lemma boot_hart_members L hid regs : let h := boot_hart L hid regs in
  PC h = DRAM_BASE /\ fl h = flags_init /\ cs h = csrs_init hid /\ in_wfi h = false /\
  smp_released h = (if L then true else hid =? 0) /\ rs h = reservation_init /\ tm h = temps_init.
Proof. induction regs as [|[r v] l IH]; [repeat split|]. exact IH. Qed.
End Boot.
