(* ===== verification/Spec.v ===== *)
(** * An independent specification of the integer instructions of RV64IM

    Instructions as syntax, their encoding into 32-bit words, and their effect
    on the program counter, the registers and a byte-addressed memory, written
    from the ISA manual's two's-complement reading and not from the emulator.
    Refine.v proves that the emulator's decoder and instruction cases implement it. *)

From S2P Require Import Prelude Alu.

Inductive iop := ADDI | SLTI | SLTIU | XORI | ORI | ANDI | SLLI | SRLI | SRAI.
Inductive iwop := ADDIW | SLLIW | SRLIW | SRAIW.
Inductive rop :=
| ADD | SUB | SLL | SLT | SLTU | XOR | SRL | SRA | OR | AND
| MUL | MULH | MULHSU | MULHU | DIV | DIVU | REM | REMU.
Inductive rwop := ADDW | SUBW | SLLW | SRLW | SRAW | MULW | DIVW | DIVUW | REMW | REMUW.
Inductive bop := BEQ | BNE | BLT | BGE | BLTU | BGEU.

Inductive instr :=
| LUI (rd imm : Z)
| AUIPC (rd imm : Z)
| JAL (rd off : Z)
| JALR (rd rs1 off : Z)
| BRANCH (op : bop) (rs1 rs2 off : Z)
| OPI (op : iop) (rd rs1 imm : Z)
| OPIW (op : iwop) (rd rs1 imm : Z)
| OPR (op : rop) (rd rs1 rs2 : Z)
| OPRW (op : rwop) (rd rs1 rs2 : Z).

(** ** Encoding *)

Definition r_type (f7 rs2 rs1 f3 rd op : Z) : Z :=
  op + 0x80 * (rd + 0x20 * (f3 + 8 * (rs1 + 0x20 * (rs2 + 0x20 * f7)))).
(** [imm] is the 12-bit field. *)
Definition i_type (imm rs1 f3 rd op : Z) : Z :=
  op + 0x80 * (rd + 0x20 * (f3 + 8 * (rs1 + 0x20 * imm))).
Definition u_type (imm rd op : Z) : Z := op + 0x80 * (rd + 0x20 * imm).
(** [off[a + n - 1 : a]] *)
Definition field (off a n : Z) : Z := off / 2 ^ a mod 2 ^ n.
(** The upper fields of the B format: [off[12|10:5]], the lower: [off[4:1|11]]. *)
Definition b_type (off rs2 rs1 f3 op : Z) : Z :=
  r_type (field off 5 6 + 0x40 * field off 12 1) rs2 rs1 f3 (field off 11 1 + 2 * field off 1 4) op.
(** The J format: [off[20|10:1|11|19:12]]. *)
Definition j_type (off rd op : Z) : Z :=
  u_type (field off 12 8 + 0x100 * (field off 11 1 + 2 * (field off 1 10 + 0x400 * field off 20 1))) rd op.

Definition iop_f3 (op : iop) : Z :=
  match op with ADDI => 0 | SLLI => 1 | SLTI => 2 | SLTIU => 3 | XORI => 4 | SRLI | SRAI => 5 | ORI => 6 | ANDI => 7 end.
Definition iwop_f3 (op : iwop) : Z := match op with ADDIW => 0 | SLLIW => 1 | SRLIW | SRAIW => 5 end.
Definition rop_f3 (op : rop) : Z :=
  match op with
  | ADD | SUB => 0 | SLL => 1 | SLT => 2 | SLTU => 3 | XOR => 4 | SRL | SRA => 5 | OR => 6 | AND => 7
  | MUL => 0 | MULH => 1 | MULHSU => 2 | MULHU => 3 | DIV => 4 | DIVU => 5 | REM => 6 | REMU => 7
  end.
Definition rop_f7 (op : rop) : Z :=
  match op with
  | SUB | SRA => 0x20 | MUL | MULH | MULHSU | MULHU | DIV | DIVU | REM | REMU => 1 | _ => 0
  end.
Definition rwop_f3 (op : rwop) : Z :=
  match op with
  | ADDW | SUBW => 0 | SLLW => 1 | SRLW | SRAW => 5 | MULW => 0 | DIVW => 4 | DIVUW => 5 | REMW => 6 | REMUW => 7
  end.
Definition rwop_f7 (op : rwop) : Z :=
  match op with SUBW | SRAW => 0x20 | MULW | DIVW | DIVUW | REMW | REMUW => 1 | _ => 0 end.
Definition bop_f3 (op : bop) : Z :=
  match op with BEQ => 0 | BNE => 1 | BLT => 4 | BGE => 5 | BLTU => 6 | BGEU => 7 end.

(** Shift-immediate instructions carry a tag above the shift amount. *)
Definition iop_field (op : iop) (imm : Z) : Z :=
  match op with SRAI => imm + 0x400 | _ => imm mod 0x1000 end.
Definition iwop_field (op : iwop) (imm : Z) : Z :=
  match op with SRAIW => imm + 0x400 | _ => imm mod 0x1000 end.

Definition encode (i : instr) : Z :=
  match i with
  | LUI rd imm => u_type imm rd 0x37
  | AUIPC rd imm => u_type imm rd 0x17
  | JAL rd off => j_type off rd 0x6f
  | JALR rd rs1 off => i_type (off mod 0x1000) rs1 0 rd 0x67
  | BRANCH op rs1 rs2 off => b_type off rs2 rs1 (bop_f3 op) 0x63
  | OPI op rd rs1 imm => i_type (iop_field op imm) rs1 (iop_f3 op) rd 0x13
  | OPIW op rd rs1 imm => i_type (iwop_field op imm) rs1 (iwop_f3 op) rd 0x1b
  | OPR op rd rs1 rs2 => r_type (rop_f7 op) rs2 rs1 (rop_f3 op) rd 0x33
  | OPRW op rd rs1 rs2 => r_type (rwop_f7 op) rs2 rs1 (rwop_f3 op) rd 0x3b
  end.

Definition is_reg (r : Z) : Prop := 0 <= r < 32.
Definition imm12 (z : Z) : Prop := -0x800 <= z < 0x800.
Definition iop_imm (op : iop) (imm : Z) : Prop :=
  match op with SLLI | SRLI | SRAI => 0 <= imm < 64 | _ => imm12 imm end.
Definition iwop_imm (op : iwop) (imm : Z) : Prop :=
  match op with ADDIW => imm12 imm | _ => 0 <= imm < 32 end.

(** The operands fit their fields. *)
Definition valid (i : instr) : Prop :=
  match i with
  | LUI rd imm | AUIPC rd imm => is_reg rd /\ 0 <= imm < 0x100000
  | JAL rd off => is_reg rd /\ -0x100000 <= off < 0x100000 /\ off mod 2 = 0
  | JALR rd rs1 off => is_reg rd /\ is_reg rs1 /\ imm12 off
  | BRANCH _ rs1 rs2 off => is_reg rs1 /\ is_reg rs2 /\ -0x1000 <= off < 0x1000 /\ off mod 2 = 0
  | OPI op rd rs1 imm => is_reg rd /\ is_reg rs1 /\ iop_imm op imm
  | OPIW op rd rs1 imm => is_reg rd /\ is_reg rs1 /\ iwop_imm op imm
  | OPR _ rd rs1 rs2 | OPRW _ rd rs1 rs2 => is_reg rd /\ is_reg rs1 /\ is_reg rs2
  end.

(** ** Meaning

    Registers hold unsigned 64-bit values; [s64] and [s32] are the two's
    complement readings, [u64] reduces a mathematical result to the register. *)

Definition sext32 (z : Z) : Z := u64 (s32 z).

Definition iop_value (op : iop) (a imm : Z) : Z :=
  match op with
  | ADDI => u64 (a + imm)
  | SLTI => if s64 a <? imm then 1 else 0
  | SLTIU => if a <? u64 imm then 1 else 0
  | XORI => Z.lxor a (u64 imm)
  | ORI => Z.lor a (u64 imm)
  | ANDI => Z.land a (u64 imm)
  | SLLI => u64 (a * 2 ^ imm)
  | SRLI => a / 2 ^ imm
  | SRAI => u64 (s64 a / 2 ^ imm)
  end.
Definition iwop_value (op : iwop) (a imm : Z) : Z :=
  match op with
  | ADDIW => sext32 (a + imm)
  | SLLIW => sext32 (a * 2 ^ imm)
  | SRLIW => sext32 (u32 a / 2 ^ imm)
  | SRAIW => sext32 (s32 a / 2 ^ imm)
  end.
Definition rop_value (op : rop) (a b : Z) : Z :=
  match op with
  | ADD => u64 (a + b)
  | SUB => u64 (a - b)
  | SLL => u64 (a * 2 ^ (b mod 64))
  | SLT => if s64 a <? s64 b then 1 else 0
  | SLTU => if a <? b then 1 else 0
  | XOR => Z.lxor a b
  | SRL => a / 2 ^ (b mod 64)
  | SRA => u64 (s64 a / 2 ^ (b mod 64))
  | OR => Z.lor a b
  | AND => Z.land a b
  | MUL => u64 (a * b)
  | MULH => u64 (s64 a * s64 b / 2 ^ 64)
  | MULHSU => u64 (s64 a * b / 2 ^ 64)
  | MULHU => a * b / 2 ^ 64
  | DIV => u64 (riscv_div (s64 a) (s64 b))
  | DIVU => riscv_divu a b
  | REM => u64 (riscv_rem (s64 a) (s64 b))
  | REMU => riscv_remu a b
  end.
Definition rwop_value (op : rwop) (a b : Z) : Z :=
  match op with
  | ADDW => sext32 (a + b)
  | SUBW => sext32 (a - b)
  | SLLW => sext32 (a * 2 ^ (b mod 32))
  | SRLW => sext32 (u32 a / 2 ^ (b mod 32))
  | SRAW => sext32 (s32 a / 2 ^ (b mod 32))
  | MULW => sext32 (a * b)
  | DIVW => sext32 (riscv_divw (s32 a) (s32 b))
  | DIVUW => sext32 (riscv_divuw (u32 a) (u32 b))
  | REMW => sext32 (riscv_remw (s32 a) (s32 b))
  | REMUW => sext32 (riscv_remuw (u32 a) (u32 b))
  end.
Definition bop_taken (op : bop) (a b : Z) : bool :=
  match op with
  | BEQ => a =? b
  | BNE => negb (a =? b)
  | BLT => s64 a <? s64 b
  | BGE => s64 b <=? s64 a
  | BLTU => a <? b
  | BGEU => b <=? a
  end.

(** The architectural state seen by these instructions. *)
Record arch := mkarch { a_pc : Z; a_regs : Z -> Z }.

Definition xget (a : arch) (r : Z) : Z := if r =? 0 then 0 else a_regs a r.
Definition xput (r v : Z) (f : Z -> Z) : Z -> Z := fun k => if k =? r then v else f k.
Definition next (a : arch) (r v : Z) : arch := mkarch (u64 (a_pc a + 4)) (xput r v (a_regs a)).
(** A jump; a target that is not a multiple of 4 faults before linking. *)
Definition jump (a : arch) (target r : Z) : arch :=
  mkarch target (if target mod 4 =? 0 then xput r (u64 (a_pc a + 4)) (a_regs a) else a_regs a).

Definition spec_step (i : instr) (a : arch) : arch :=
  match i with
  | LUI rd imm => next a rd (sext32 (imm * 2 ^ 12))
  | AUIPC rd imm => next a rd (u64 (a_pc a + s32 (imm * 2 ^ 12)))
  | JAL rd off => jump a (u64 (a_pc a + off)) rd
  | JALR rd rs1 off => jump a (2 * (u64 (xget a rs1 + off) / 2)) rd
  | BRANCH op rs1 rs2 off =>
      mkarch (u64 (a_pc a + (if bop_taken op (xget a rs1) (xget a rs2) then off else 4))) (a_regs a)
  | OPI op rd rs1 imm => next a rd (iop_value op (xget a rs1) imm)
  | OPIW op rd rs1 imm => next a rd (iwop_value op (xget a rs1) imm)
  | OPR op rd rs1 rs2 => next a rd (rop_value op (xget a rs1) (xget a rs2))
  | OPRW op rd rs1 rs2 => next a rd (rwop_value op (xget a rs1) (xget a rs2))
  end.
