(* ===== verification/Refine.v ===== *)
(** * The register instructions implement the ISA specification

    Decoding an encoded instruction gives back its fields, each arithmetic case
    of the emulator computes the specified value, and one decode-and-execute
    step simulates [spec_step]. *)

From S2P Require Import Prelude Constants Alu MemAccess Csr Clint Hart Trap Execute Safety Boot Spec.

(** ** Decoding an encoded word *)

Lemma field_at x k n lo f hi m : 0 <= k -> 0 <= n -> m = 2 ^ n - 1 ->
  x = lo + 2 ^ k * (f + 2 ^ n * hi) -> 0 <= lo < 2 ^ k -> 0 <= f < 2 ^ n ->
  Z.land (Z.shiftr x k) m = f.
Proof.
  intros Hk Hn Hm -> Hlo Hf. rewrite (land_ones_mod _ n), shiftr_div by (assumption || lia).
  rewrite (Z.mul_comm (2 ^ k)), Z.div_add by lia. rewrite (Z.div_small lo) by lia.
  rewrite Z.add_0_l, (Z.mul_comm (2 ^ n)), Z.mod_add by lia. apply Z.mod_small. lia.
Qed.

Ltac pow_consts :=
  repeat match goal with
    | |- context [2 ^ (Zpos ?n)] => let q := eval vm_compute in (2 ^ (Zpos n)) in change (2 ^ (Zpos n)) with q in *
    | H : context [2 ^ (Zpos ?n)] |- _ => let q := eval vm_compute in (2 ^ (Zpos n)) in change (2 ^ (Zpos n)) with q in *
    end.

Lemma decode_r_type f7 r2 r1 f3 d op :
  0 <= op < 0x80 -> is_reg d -> is_reg r1 -> is_reg r2 -> 0 <= f3 < 8 -> 0 <= f7 < 0x80 ->
  let l := decode (r_type f7 r2 r1 f3 d op) in
  opcode l = op /\ rd l = d /\ rs1 l = r1 /\ rs2 l = r2 /\ func3 l = f3 /\ func7 l = f7.
Proof.
  unfold is_reg, r_type. intros. cbn -[Z.land Z.shiftr Z.mul Z.add].
  repeat split; mask_to_mod; zlia.
Qed.

Lemma decode_i_type imm r1 f3 d op :
  0 <= op < 0x80 -> is_reg d -> is_reg r1 -> 0 <= f3 < 8 -> 0 <= imm < 0x1000 ->
  let l := decode (i_type imm r1 f3 d op) in
  opcode l = op /\ rd l = d /\ rs1 l = r1 /\ func3 l = f3 /\ imm11_0 l = imm /\ func7 l = imm / 32.
Proof.
  unfold is_reg, i_type. intros. cbn -[Z.land Z.shiftr Z.mul Z.add].
  repeat split; mask_to_mod; zlia.
Qed.

Lemma decode_u_type imm d op :
  0 <= op < 0x80 -> is_reg d -> 0 <= imm < 0x100000 ->
  let l := decode (u_type imm d op) in opcode l = op /\ rd l = d /\ imm31_12 l = imm.
Proof.
  unfold is_reg, u_type. intros. cbn -[Z.land Z.shiftr Z.mul Z.add].
  repeat split; mask_to_mod; zlia.
Qed.

(** An offset is the sum of its bit groups. *)
Lemma off_split_b off : -0x1000 <= off < 0x1000 -> off mod 2 = 0 ->
  off mod 0x2000 = 0x1000 * field off 12 1 + 0x800 * field off 11 1 + 0x20 * field off 5 6 + 2 * field off 1 4.
Proof. unfold field. pow_consts. intros. zlia. Qed.
Lemma off_split_j off : -0x100000 <= off < 0x100000 -> off mod 2 = 0 ->
  off mod 0x200000 = 0x100000 * field off 20 1 + 0x1000 * field off 12 8 + 0x800 * field off 11 1 + 2 * field off 1 10.
Proof. unfold field. pow_consts. intros. zlia. Qed.
Lemma field_range off a n : 0 <= n -> 0 <= field off a n < 2 ^ n.
Proof. intros. apply Z.mod_pos_bound, Z.pow_pos_nonneg; lia. Qed.

(** The sum that [decode] computes for the B and J immediates. *)
Lemma land_shifted_mask x k n m : 0 <= k -> 0 <= n -> m = Z.shiftl (Z.ones n) k ->
  Z.land x m = 2 ^ k * (Z.shiftr x k mod 2 ^ n).
Proof.
  intros Hk Hn ->. rewrite <- Z.land_ones by assumption. rewrite Z.mul_comm, <- Z.shiftl_mul_pow2 by assumption.
  symmetry. apply shiftl_field; assumption.
Qed.

(** A word made of consecutive bit fields, given as (value, width) from bit 0 up. *)
Fixpoint packed (l : list (Z * Z)) : Z :=
  match l with [] => 0 | (v, w) :: l => v + 2 ^ w * packed l end.
Definition fits (l : list (Z * Z)) : Prop := Forall (fun p => 0 <= p.2 /\ 0 <= p.1 < 2 ^ p.2) l.
Fixpoint offset (l : list (Z * Z)) (n : nat) : Z :=
  match l, n with (_, w) :: l, S n => w + offset l n | _, _ => 0 end.

Lemma offset_nonneg l : forall n, fits l -> 0 <= offset l n.
Proof.
  induction l as [|[v w] l IH]; intros [|n] Hl; cbn; try lia. inversion Hl as [|? ? [? ?] Hl']; subst. cbn in *.
  specialize (IH n Hl'). lia.
Qed.

Lemma packed_field l : forall n k m v w, fits l -> l !! n = Some (v, w) -> k = offset l n -> m = 2 ^ w - 1 ->
  Z.land (Z.shiftr (packed l) k) m = v.
Proof.
  induction l as [|[v0 w0] l IH]; intros n k m v w Hl Hn Hk Hm; [discriminate|].
  inversion Hl as [|? ? [Hw Hv] Hl']; subst x l0. cbn [fst snd] in *. destruct n as [|n]; cbn in *.
  - injection Hn as -> ->. subst k. rewrite Z.shiftr_0_r, (land_ones_mod _ w) by assumption.
    rewrite (Z.mul_comm (2 ^ w)), Z.mod_add by lia. apply Z.mod_small. assumption.
  - pose proof (offset_nonneg l n Hl'). subst k. rewrite <- Z.shiftr_shiftr by lia.
    rewrite (shiftr_div _ w0), (Z.mul_comm (2 ^ w0)), Z.div_add by lia.
    rewrite (Z.div_small v0), Z.add_0_l by lia. eapply IH; eauto.
Qed.

(** Solves [Z.land (Z.shiftr x k) m = v] for a field of [x = packed l]. *)
Ltac packed_solve H :=
  first
  [ eapply (packed_field _ 0 _ _ _ _ H); reflexivity | eapply (packed_field _ 1 _ _ _ _ H); reflexivity
  | eapply (packed_field _ 2 _ _ _ _ H); reflexivity | eapply (packed_field _ 3 _ _ _ _ H); reflexivity
  | eapply (packed_field _ 4 _ _ _ _ H); reflexivity | eapply (packed_field _ 5 _ _ _ _ H); reflexivity
  | eapply (packed_field _ 6 _ _ _ _ H); reflexivity | eapply (packed_field _ 7 _ _ _ _ H); reflexivity ].

Lemma decode_b_type off r2 r1 f3 op :
  0 <= op < 0x80 -> is_reg r1 -> is_reg r2 -> 0 <= f3 < 8 -> -0x1000 <= off < 0x1000 -> off mod 2 = 0 ->
  let l := decode (b_type off r2 r1 f3 op) in
  opcode l = op /\ rs1 l = r1 /\ rs2 l = r2 /\ func3 l = f3 /\ imm_b l = off mod 0x2000.
Proof.
  intros Hop H1 H2 H3 Ho He. rewrite off_split_b by assumption. unfold is_reg in *.
  set (fs := [(op, 7); (field off 11 1, 1); (field off 1 4, 4); (f3, 3); (r1, 5); (r2, 5); (field off 5 6, 6); (field off 12 1, 1)]).
  assert (Hf : fits fs) by (repeat constructor; cbn [fst snd]; (lia || (apply field_range; lia) || assumption)).
  replace (b_type off r2 r1 f3 op) with (packed fs) by (unfold b_type, r_type; cbn [packed fs]; pow_consts; ring).
  cbn -[Z.land Z.shiftr Z.shiftl Z.mul Z.add packed fs].
  rewrite <- (Z.shiftr_0_r (packed fs)) at 1.
  repeat split; try packed_solve Hf.
  rewrite (land_shifted_mask _ 1 4 0x1e), Z.shiftr_shiftr by (reflexivity || lia). rewrite <- Z.land_ones by lia.
  rewrite (packed_field fs 7 31 1 _ _ Hf eq_refl eq_refl eq_refl), (packed_field fs 1 7 1 _ _ Hf eq_refl eq_refl eq_refl),
    (packed_field fs 6 25 0x3f _ _ Hf eq_refl eq_refl eq_refl),
    (packed_field fs 2 (7 + 1) (Z.ones 4) _ _ Hf eq_refl eq_refl eq_refl).
  rewrite !Z.shiftl_mul_pow2 by lia. pow_consts. ring.
Qed.

Lemma decode_j_type off d op :
  0 <= op < 0x80 -> is_reg d -> -0x100000 <= off < 0x100000 -> off mod 2 = 0 ->
  let l := decode (j_type off d op) in
  opcode l = op /\ rd l = d /\ imm_j l = off mod 0x200000.
Proof.
  intros Hop Hd Ho He. rewrite off_split_j by assumption. unfold is_reg in *.
  set (fs := [(op, 7); (d, 5); (field off 12 8, 8); (field off 11 1, 1); (field off 1 10, 10); (field off 20 1, 1)]).
  assert (Hf : fits fs) by (repeat constructor; cbn [fst snd]; (lia || (apply field_range; lia) || assumption)).
  replace (j_type off d op) with (packed fs) by (unfold j_type, u_type; cbn [packed fs]; pow_consts; ring).
  cbn -[Z.land Z.shiftr Z.shiftl Z.mul Z.add packed fs].
  rewrite <- (Z.shiftr_0_r (packed fs)) at 1.
  repeat split; try packed_solve Hf.
  rewrite (land_shifted_mask _ 12 8 (Z.shiftl 0xff 12)) by (reflexivity || lia). rewrite <- (Z.land_ones (Z.shiftr _ 12)) by lia.
  rewrite (packed_field fs 5 31 1 _ _ Hf eq_refl eq_refl eq_refl), (packed_field fs 3 20 1 _ _ Hf eq_refl eq_refl eq_refl),
    (packed_field fs 4 21 0x3ff _ _ Hf eq_refl eq_refl eq_refl),
    (packed_field fs 2 12 (Z.ones 8) _ _ Hf eq_refl eq_refl eq_refl).
  rewrite !Z.shiftl_mul_pow2 by lia. pow_consts. ring.
Qed.

(** ** Immediates *)

Lemma sext_imm z n : 0 < n <= 64 -> - 2 ^ (n - 1) <= z < 2 ^ (n - 1) -> sign_extend (z mod 2 ^ n) n = u64 z.
Proof.
  intros Hn Hz. assert (Hp : 2 ^ n = 2 * 2 ^ (n - 1)) by (rewrite <- Z.pow_succ_r by lia; f_equal; lia).
  assert (0 < 2 ^ (n - 1)) by lia.
  rewrite sign_extend_spec by (try apply Z.mod_pos_bound; lia). rewrite Hp.
  destruct (Z.ltb_spec z 0).
  - replace (z mod (2 * 2 ^ (n - 1))) with (z + 2 * 2 ^ (n - 1)); [|apply Z.mod_unique with (-1); lia].
    destruct (Z.ltb_spec (z + 2 * 2 ^ (n - 1)) (2 ^ (n - 1))); [lia|f_equal; lia].
  - rewrite (Z.mod_small z) by lia. destruct (Z.ltb_spec z (2 ^ (n - 1))); [reflexivity|lia].
Qed.
Lemma sext12 z : imm12 z -> sign_extend (z mod 0x1000) 12 = u64 z.
Proof. apply (sext_imm z 12). lia. Qed.
Lemma sext13 z : -0x1000 <= z < 0x1000 -> sign_extend (z mod 0x2000) 13 = u64 z.
Proof. apply (sext_imm z 13). lia. Qed.
Lemma sext21 z : -0x100000 <= z < 0x100000 -> sign_extend (z mod 0x200000) 21 = u64 z.
Proof. apply (sext_imm z 21). lia. Qed.
Lemma sext32_spec z : sign_extend (Z.land z 0xFFFFFFFF) 32 = sext32 z.
Proof.
  mask_to_mod. fold (u32 z). rewrite sign_extend_spec by (lia || apply (u32_range z)).
  unfold sext32, s32. change (2 ^ (32 - 1)) with 0x80000000. change (2 ^ 32) with 0x100000000. reflexivity.
Qed.
Lemma sext32_u32 z : sext32 (u32 z) = sext32 z.
Proof. unfold sext32. f_equal. word. Qed.
Lemma sext32_u64 z : sext32 (u64 z) = sext32 z.
Proof. unfold sext32. f_equal. word. Qed.

(** ** Arithmetic shifts *)

(** [n] steps of the one-bit loop are an arithmetic shift right by [n]. *)
Lemma sra_step_div k w : 0 <= k -> 0 <= w < 2 ^ (k + 1) ->
  let s z := if z <? 2 ^ k then z else z - 2 ^ (k + 1) in
  0 <= sra_step (2 ^ k) w < 2 ^ (k + 1) /\ s (sra_step (2 ^ k) w) = s w / 2.
Proof.
  intros Hk Hw s. assert (Hp : 2 ^ (k + 1) = 2 * 2 ^ k) by (rewrite Z.pow_add_r by lia; lia).
  assert (0 < 2 ^ k) by (apply Z.pow_pos_nonneg; lia).
  assert (Hstep : sra_step (2 ^ k) w = (if 2 ^ k <=? w then 2 ^ k else 0) + w / 2).
  { unfold sra_step. replace (Z.land w (2 ^ k)) with (if 2 ^ k <=? w then 2 ^ k else 0).
    - rewrite Z.shiftr_div_pow2 by lia. change (2 ^ 1) with 2.
      destruct (Z.leb_spec (2 ^ k) w).
      + symmetry. apply add_disjoint. apply Z.bits_inj'. intros i Hi. rewrite Z.land_spec, Z.bits_0.
        destruct (Z.eq_dec i k) as [->|].
        * rewrite (testbit_bound (w / 2) k); [apply andb_false_r| |lia]. zlia.
        * rewrite Z.pow2_bits_false by lia. reflexivity.
      + apply Z.lor_0_l.
    - rewrite <- (testbit_top w k) by (rewrite ?Z.pow_add_r in * by lia; lia).
      apply Z.bits_inj'. intros i Hi. rewrite Z.land_spec.
      destruct (Z.eq_dec i k) as [->|].
      + rewrite Z.pow2_bits_true by lia. rewrite andb_true_r.
        destruct (Z.testbit w k) eqn:E; [apply Z.pow2_bits_true; lia|apply Z.bits_0].
      + rewrite Z.pow2_bits_false by lia. rewrite andb_false_r.
        destruct (Z.testbit w k); [apply Z.pow2_bits_false; lia|apply Z.bits_0]. }
  rewrite Hstep. subst s. cbn beta. rewrite Hp in *.
  destruct (Z.leb_spec (2 ^ k) w); (split; [zlia|]).
  - destruct (Z.ltb_spec (2 ^ k + w / 2) (2 ^ k)), (Z.ltb_spec w (2 ^ k)); zlia.
  - destruct (Z.ltb_spec (0 + w / 2) (2 ^ k)), (Z.ltb_spec w (2 ^ k)); zlia.
Qed.

Lemma sra_iter_div k m w : 0 <= k -> 0 <= w < 2 ^ (k + 1) ->
  let s z := if z <? 2 ^ k then z else z - 2 ^ (k + 1) in
  0 <= Nat.iter m (sra_step (2 ^ k)) w < 2 ^ (k + 1) /\ s (Nat.iter m (sra_step (2 ^ k)) w) = s w / 2 ^ Z.of_nat m.
Proof.
  intros Hk Hw s. induction m as [|m [Hr Hv]].
  - cbn [Nat.iter nat_rect Z.of_nat]. rewrite Z.pow_0_r, Z.div_1_r. auto.
  - cbn [Nat.iter nat_rect]. pose proof (sra_step_div k _ Hk Hr) as [Hr' Hv']. split; [exact Hr'|].
    etransitivity; [exact Hv'|]. cbn beta in *. unfold s in Hv. rewrite Hv, Z.div_div by lia.
    rewrite Nat2Z.inj_succ, Z.pow_succ_r by lia. f_equal. ring.
Qed.
Lemma sra_loop_div k n w : 0 <= k -> 0 <= n -> 0 <= w < 2 ^ (k + 1) ->
  let s z := if z <? 2 ^ k then z else z - 2 ^ (k + 1) in
  0 <= sra_loop (2 ^ k) n w < 2 ^ (k + 1) /\ s (sra_loop (2 ^ k) n w) = s w / 2 ^ n.
Proof.
  intros Hk Hn Hw. pose proof (sra_iter_div k (Z.to_nat n) w Hk Hw) as Hi. rewrite Z2Nat.id in Hi by assumption.
  exact Hi.
Qed.

Lemma sra_loop64 n w : 0 <= n -> is_u64 w -> sra_loop (Z.shiftl 1 63) n w = u64 (s64 w / 2 ^ n).
Proof.
  intros Hn Hw. change (Z.shiftl 1 63) with (2 ^ 63).
  destruct (sra_loop_div 63 n w ltac:(lia) Hn Hw) as [Hr Hv]. cbn beta zeta in Hv.
  unfold s64 at 1. rewrite (u64_id w) by assumption.
  change (0x8000000000000000) with (2 ^ 63). change 0x10000000000000000 with (2 ^ (63 + 1)).
  rewrite <- Hv. rewrite <- (u64_id (sra_loop _ _ _)) at 1 by exact Hr.
  change (63 + 1) with 64 in *. change (2 ^ 64) with 0x10000000000000000 in *.
  generalize dependent (sra_loop (2 ^ 63) n w). intros. change (2 ^ 63) with 0x8000000000000000. word.
Qed.

Lemma sra_loop32 n w : 0 <= n -> is_u32 w -> sra_loop (Z.shiftl 1 31) n w = u32 (s32 w / 2 ^ n).
Proof.
  intros Hn Hw. change (Z.shiftl 1 31) with (2 ^ 31).
  destruct (sra_loop_div 31 n w ltac:(lia) Hn Hw) as [Hr Hv]. cbn beta zeta in Hv.
  unfold s32 at 1. rewrite (u32_id w) by assumption.
  change (0x80000000) with (2 ^ 31). change 0x100000000 with (2 ^ (31 + 1)).
  rewrite <- Hv. rewrite <- (u32_id (sra_loop _ _ _)) at 1 by exact Hr.
  change (31 + 1) with 32 in *. change (2 ^ 32) with 0x100000000 in *.
  generalize dependent (sra_loop (2 ^ 31) n w). intros. change (2 ^ 31) with 0x80000000. word.
Qed.

(** ** The arithmetic cases compute the specified values *)

Lemma mask_mod x n m : 0 <= n -> m = 2 ^ n - 1 -> Z.land x m = x mod 2 ^ n.
Proof. apply land_ones_mod. Qed.

Lemma shiftl_u64 a n : 0 <= n -> u64 (Z.shiftl a n) = u64 (a * 2 ^ n).
Proof. intros. rewrite Z.shiftl_mul_pow2 by assumption. reflexivity. Qed.

Lemma u64_s64_add a b : u64 (a + s64 b) = u64 (a + b).
Proof. rewrite <- u64_add_r, u64_s64, u64_add_r. reflexivity. Qed.

Lemma small_mod n : 0 <= n < 0x1000 -> n mod 0x1000 = n.
Proof. apply Z.mod_small. Qed.

Lemma iops_ok op a imm old : is_u64 a -> iop_imm op imm ->
  iops_result (iop_f3 op) (iop_field op imm / 32) (iop_field op imm) a old = iop_value op a imm.
Proof.
  intros Ha Hi. unfold iops_result.
  destruct op; cbn [iop_f3 iop_field iop_imm iop_value Z.eqb Pos.eqb] in *; rewrite ?sext12 by assumption;
    rewrite ?signed_value_s64 by auto using u64_range.
  - rewrite u64_s64_add, u64_add_r. reflexivity.
  - rewrite s64_u64, (s64_id imm) by (unfold is_s64, imm12 in *; lia). reflexivity.
  - reflexivity.
  - reflexivity.
  - reflexivity.
  - reflexivity.
  - rewrite small_mod by lia. rewrite (mask_mod imm 6) by (reflexivity || lia).
    rewrite Z.mod_small by (change (2 ^ 6) with 64; lia). apply shiftl_u64. lia.
  - rewrite small_mod by lia. rewrite (shiftr_div (imm / 32) 1) by lia. change (2 ^ 1) with 2.
    replace (imm / 32 / 2 =? 0) with true by zlia.
    rewrite (mask_mod imm 6) by (reflexivity || lia). rewrite Z.mod_small by (change (2 ^ 6) with 64; lia).
    apply Z.shiftr_div_pow2. lia.
  - rewrite (shiftr_div _ 1) by lia. change (2 ^ 1) with 2.
    replace ((imm + 1024) / 32 / 2 =? 0) with false by zlia.
    replace ((imm + 1024) / 32 / 2 =? 16) with true by zlia.
    rewrite (mask_mod _ 6) by (reflexivity || lia). change (2 ^ 6) with 64.
    replace ((imm + 1024) mod 64) with imm by zlia. apply sra_loop64; [lia|assumption].
Qed.

Lemma land_MASK32 a : Z.land a MASK32 = u32 a.
Proof. apply (land_ones_mod a 32); reflexivity || lia. Qed.
Lemma land_MASK64 a : Z.land a MASK64 = u64 a.
Proof. apply (land_ones_mod a 64); reflexivity || lia. Qed.
Lemma sext_u32 z : sign_extend (u32 z) 32 = sext32 z.
Proof. rewrite <- land_MASK32. apply sext32_spec. Qed.
Lemma sext_id32 z : is_u32 z -> sign_extend z 32 = sext32 z.
Proof. intros. rewrite <- (u32_id z) at 1 by assumption. apply sext_u32. Qed.
Lemma u32_u64 z : u32 (u64 z) = u32 z.
Proof. word. Qed.
Lemma s32_u32 z : s32 (u32 z) = s32 z.
Proof. word. Qed.
Lemma sext32_id z : is_s32 z -> sext32 z = u64 z.
Proof. intros. unfold sext32. rewrite s32_id by assumption. reflexivity. Qed.
Lemma sra32_range a n : is_s32 a -> 0 <= n -> is_s32 (a / 2 ^ n).
Proof.
  intros Ha Hn. assert (0 < 2 ^ n) by (apply Z.pow_pos_nonneg; lia). unfold is_s32 in *. split.
  - apply Z.div_le_lower_bound; nia.
  - apply Z.div_lt_upper_bound; nia.
Qed.
Lemma div_pow_u32 a n : is_u32 a -> 0 <= n -> is_u32 (a / 2 ^ n).
Proof.
  intros Ha Hn. assert (0 < 2 ^ n) by (apply Z.pow_pos_nonneg; lia). unfold is_u32 in *. split.
  - apply Z.div_pos; lia.
  - apply Z.div_lt_upper_bound; nia.
Qed.
Lemma sext_mul_pow a n : sext32 (u32 a * 2 ^ n) = sext32 (a * 2 ^ n).
Proof.
  rewrite <- sext32_u32, <- (sext32_u32 (a * 2 ^ n)). f_equal. unfold u32. apply Zmult_mod_idemp_l.
Qed.

Ltac masks := rewrite ?(Z.land_comm MASK32), ?land_MASK32, ?sext_u32, ?sext32_u64, ?sext32_u32.

Lemma iops64_ok op a imm old : is_u64 a -> iwop_imm op imm ->
  iops64_result (iwop_f3 op) (iwop_field op imm / 32) (iwop_field op imm) a old = iwop_value op a imm.
Proof.
  intros Ha Hi. unfold iops64_result.
  destruct op; cbn [iwop_f3 iwop_field iwop_imm iwop_value Z.eqb Pos.eqb] in *; masks.
  - rewrite sext12 by assumption. rewrite <- (sext32_u64 (a + u64 imm)), u64_add_r. apply sext32_u64.
  - rewrite small_mod by lia. rewrite (mask_mod imm 5) by (reflexivity || lia).
    rewrite Z.mod_small by (change (2 ^ 5) with 32; lia). rewrite Z.shiftl_mul_pow2 by lia. reflexivity.
  - rewrite small_mod by lia. rewrite (shiftr_div (imm / 32) 1) by lia. change (2 ^ 1) with 2.
    replace (imm / 32 / 2 =? 0) with true by zlia.
    rewrite (mask_mod imm 5) by (reflexivity || lia). rewrite Z.mod_small by (change (2 ^ 5) with 32; lia).
    rewrite Z.shiftr_div_pow2 by lia. reflexivity.
  - rewrite (shiftr_div _ 1) by lia. change (2 ^ 1) with 2.
    replace ((imm + 1024) / 32 / 2 =? 0) with false by zlia.
    replace ((imm + 1024) / 32 / 2 =? 16) with true by zlia.
    rewrite (mask_mod _ 5) by (reflexivity || lia). change (2 ^ 5) with 32.
    replace ((imm + 1024) mod 32) with imm by zlia.
    rewrite sra_loop32, s32_u32, sext32_u32 by (lia || apply u32_range). reflexivity.
Qed.

(** *** Multiplication *)

Lemma u128_mul x y : u128 (u128 x * u128 y) = u128 (x * y).
Proof. unfold u128. symmetry. apply Zmult_mod. Qed.
Lemma high_half x : u64 (Z.shiftr (u128 x) 64) = u64 (x / 2 ^ 64).
Proof.
  rewrite shiftr_div by lia. unfold u64, u128.
  change 0x100000000000000000000000000000000 with (2 ^ 64 * 0x10000000000000000).
  rewrite Z.rem_mul_r by lia. rewrite (Z.mul_comm (2 ^ 64)), Z.div_add by lia.
  rewrite (Z.div_small (x mod 2 ^ 64)) by (apply Z.mod_pos_bound; lia). rewrite Z.add_0_l. apply Z.mod_mod. lia.
Qed.

(** The register written by the four multiplications. *)
Definition mult_value (f3 a b : Z) : Z :=
  let m := mult_result f3 a b in
  if f3 =? 0 then Z.land m MASK64 else Z.land (Z.shiftr m 64) MASK64.

Lemma mult_ok op a b : is_u64 a -> is_u64 b -> rop_f7 op = 1 -> rop_f3 op < 4 ->
  mult_value (rop_f3 op) a b = rop_value op a b.
Proof.
  intros Ha Hb H7 H3. unfold mult_value, mult_result. rewrite !land_MASK64, !signed_value_s64 by assumption.
  destruct op; try discriminate H7; cbn in H3; try lia; cbn [rop_f3 rop_value Z.eqb Pos.eqb].
  - apply u64_u64.
  - rewrite u128_mul. apply high_half.
  - replace (u128 (s64 a) * b) with (u128 (s64 a) * u128 b)
      by (f_equal; apply Z.mod_small; unfold is_u64 in Hb; lia).
    rewrite u128_mul. apply high_half.
  - rewrite high_half. apply u64_id. unfold is_u64 in *. split; [apply Z.div_pos; nia|].
    apply Z.div_lt_upper_bound; [lia|]. change (2 ^ 64) with 0x10000000000000000. nia.
Qed.

(** *** Division *)

(** The operands on which DIV returns the quotient of the M extension. *)
Definition div_safe (a b : Z) : Prop := ~ (s64 b = -1 /\ - 2 ^ 63 < s64 a <= - 2 ^ 63 + 512).

(** What the emulator computes: DIV of the 512 values above [INT64_MIN] by -1 returns
    [INT64_MIN], because the overflow test compares in [double]; all else is [rop_value]. *)
Definition misdivides (a b : Z) : bool := (s64 b =? -1) && ((- 2 ^ 63 <? s64 a) && (s64 a <=? - 2 ^ 63 + 512)).
Definition rop_emulated (op : rop) (a b : Z) : Z :=
  match op with DIV => if misdivides a b then 2 ^ 63 else rop_value DIV a b | _ => rop_value op a b end.
Lemma rop_emulated_id op a b : op <> DIV -> rop_emulated op a b = rop_value op a b.
Proof. now destruct op. Qed.
Definition emulated_step (i : instr) (a : arch) : arch :=
  match i with OPR op d r1 r2 => next a d (rop_emulated op (xget a r1) (xget a r2)) | _ => spec_step i a end.

Lemma misdivides_false a b : misdivides a b = false <-> div_safe a b.
Proof. unfold misdivides, div_safe. destruct (Z.eqb_spec (s64 b) (-1)), (Z.ltb_spec (- 2 ^ 63) (s64 a)), (Z.leb_spec (s64 a) (- 2 ^ 63 + 512)); cbn [andb]; intuition (congruence || lia). Qed.
Lemma misdivided a b : is_u64 a -> is_u64 b -> misdivides a b = true -> div_result 4 a b = 2 ^ 63.
Proof.
  intros Ha Hb H. unfold misdivides in H. rewrite !andb_true_iff, Z.eqb_eq, Z.ltb_lt, Z.leb_le in H. destruct H as (Eb & Hlo & Hhi).
  unfold div_result. rewrite !signed_value_s64 by assumption. rewrite Eb. unfold divi. rewrite to_double_min by apply s64_range.
  rewrite (proj2 (Z.leb_le _ _)) by exact Hhi. reflexivity.
Qed.

Lemma div_value op a b : is_u64 a -> is_u64 b -> rop_f7 op = 1 -> 4 <= rop_f3 op -> (op = DIV -> div_safe a b) ->
  div_result (rop_f3 op) a b = rop_value op a b.
Proof.
  intros Ha Hb H7 H3 Hs. unfold div_result. rewrite !signed_value_s64 by assumption.
  destruct op; try discriminate H7; cbn in H3; try lia; cbn [rop_f3 rop_value Z.eqb Pos.eqb].
  - f_equal. apply divi_div_iff; auto using s64_range. apply Hs; reflexivity.
  - apply divi_divu; assumption.
  - rewrite divi_rem by apply s64_range. reflexivity.
  - apply divi_remu; assumption.
Qed.

Lemma div_ok op a b : is_u64 a -> is_u64 b -> rop_f7 op = 1 -> 4 <= rop_f3 op -> div_result (rop_f3 op) a b = rop_emulated op a b.
Proof.
  intros Ha Hb H7 H3. destruct (misdivides a b) eqn:E.
  - destruct op; try discriminate H7; cbn in H3; try lia; cbn [rop_emulated]; rewrite ?E;
      [now apply misdivided|apply (div_value DIVU)|apply (div_value REM)|apply (div_value REMU)]; auto; try discriminate; cbn; lia.
  - rewrite div_value by (assumption || intros _; now apply misdivides_false). destruct op; cbn [rop_emulated]; rewrite ?E; reflexivity.
Qed.

Lemma rops_ok op a b : is_u64 a -> is_u64 b -> rop_f7 op = 0 -> rops_result (rop_f3 op) a b = rop_value op a b.
Proof.
  intros Ha Hb H7. unfold rops_result. rewrite !signed_value_s64 by assumption.
  rewrite !(mask_mod b 6) by (reflexivity || lia). change (2 ^ 6) with 64. pose proof (Z.mod_pos_bound b 64 ltac:(lia)).
  destruct op; try discriminate H7; cbn [rop_f3 rop_value Z.eqb Pos.eqb]; try reflexivity.
  - apply shiftl_u64. lia.
  - apply Z.shiftr_div_pow2. lia.
Qed.

Lemma rops64_ok op a b old : is_u64 a -> is_u64 b -> rops64_result (rwop_f7 op) (rwop_f3 op) a b old = rwop_value op a b.
Proof.
  intros Ha Hb. unfold rops64_result. cbv zeta. rewrite !(mask_mod b 5) by (reflexivity || lia).
  change (2 ^ 5) with 32. pose proof (Z.mod_pos_bound b 32 ltac:(lia)) as Hm.
  rewrite !land_MASK32, !signed_value32_s32 by (apply u32_range || apply Ha || apply Hb). rewrite !s32_u32.
  destruct op; cbn [rwop_f7 rwop_f3 rwop_value Z.eqb Pos.eqb]; masks.
  - reflexivity.
  - rewrite <- (sext32_u32 (u32 a - u32 b)), <- (sext32_u32 (a - b)). f_equal. unfold u32. symmetry. apply Zminus_mod.
  - rewrite Z.shiftl_mul_pow2 by lia. reflexivity.
  - rewrite Z.shiftr_div_pow2 by lia. apply sext_id32, div_pow_u32; [apply u32_range|lia].
  - rewrite sra_loop32 by (lia || apply u32_range). rewrite s32_u32. apply sext_u32.
  - rewrite <- (sext32_u32 (u32 a * u32 b)), <- (sext32_u32 (a * b)). f_equal. unfold u32. symmetry. apply Zmult_mod.
  - rewrite divi32_divw by apply s32_range. reflexivity.
  - rewrite divi32_divuw by apply u32_range.
    apply sext_id32. unfold riscv_divuw. destruct (Z.eqb_spec (u32 b) 0); [unfold is_u32; lia|].
    pose proof (u32_range a). pose proof (u32_range b). unfold is_u32 in *. split; [apply Z.div_pos; lia|].
    apply Z.div_lt_upper_bound; nia.
  - rewrite divi32_remw by apply s32_range. reflexivity.
  - rewrite divi32_remuw by apply u32_range.
    apply sext_id32. unfold riscv_remuw. destruct (Z.eqb_spec (u32 b) 0); [apply u32_range|].
    pose proof (u32_range b). pose proof (Z.mod_pos_bound (u32 a) (u32 b)). unfold is_u32 in *. lia.
Qed.

Lemma branch_ok op a b old : is_u64 a -> is_u64 b -> branch_taken (bop_f3 op) a b old = bop_taken op a b.
Proof.
  intros. unfold branch_taken. rewrite !signed_value_s64 by assumption. destruct op; reflexivity.
Qed.

(** ** One step of a running hart *)

Section Step.
Context `{Console} (L : bool).
Local Open Scope prog_scope.

(** The 32-bit word at a DRAM address, and its fetch by a hart that is
    released, awake, not about to take an interrupt, with an aligned PC. *)
Definition word_at (w : world) (pc : Z) : Z :=
  let d := vec_get (memory w) ((pc - DRAM_BASE) / 8) in
  if (pc - DRAM_BASE) / 4 mod 2 =? 0 then u32 d else d / 2 ^ 32.

Record quiet (s : st) : Prop := {
  q_wf : st_wf s;
  q_hartid : hartid_ok s;
  q_released : smp_released (hrt s) = true;
  q_awake : in_wfi (hrt s) = false;
  q_masked : L = true \/ ms_mie (mstatus (cs (hrt s))) = 0;
  q_flag : INS_ADDR_MISSALIG (fl (hrt s)) = false;
  q_dram : DRAM_BASE <= PC (hrt s) < DRAM_BASE + DRAM_SIZE;
  q_aligned : PC (hrt s) mod 4 = 0;
  (** The standalone build stops on [mv a0, gp] and on a passing [ecall]. *)
  q_continue : L = true \/ (word_at (wld s) (PC (hrt s)) <> 0x00018513 /\ word_at (wld s) (PC (hrt s)) <> 0x73) }.

(** Each operation of the prologue, on a state in which it does nothing special. *)
Definition set_mips (t sw : bool) (h : hart) : hart :=
  { h with cs -> mip -> MTIP := if t then 1 else 0; cs -> mip -> MSIP := if sw then 1 else 0 }.

Lemma on_hart_ok f h w : on_hart f (mkst _ h w) = Ok tt (mkst _ (f h) w).
Proof. reflexivity. Qed.
Lemma park_ok h w : smp_released h = true -> park_check (mkst _ h w) = Ok (true, false) (mkst _ h w).
Proof. intros E. unfold park_check, bind, get_hart, gets. cbn. rewrite E. reflexivity. Qed.
Lemma refresh_ok h w t sw :
  check_timer_interrupt (clint w) (u32 (mhartid (cs h))) = Some t ->
  check_software_interrupt (clint w) (u32 (mhartid (cs h))) = Some sw ->
  refresh_mip (mkst _ h w) = Ok tt (mkst _ (set_mips t sw h) w).
Proof.
  intros Et Es. unfold refresh_mip, bind, get_hart, gets, check_timer, check_software. cbn [hrt wld].
  rewrite Et. cbn. rewrite Es. reflexivity.
Qed.
Lemma wfi_ok h w : in_wfi h = false -> wfi_check (mkst _ h w) = Ok true (mkst _ h w).
Proof. intros E. unfold wfi_check, bind, get_hart, gets. cbn. rewrite E. reflexivity. Qed.

Lemma getINST_ok h w pc : world_wf w -> DRAM_BASE <= pc < DRAM_BASE + DRAM_SIZE ->
  getINST ((pc - DRAM_BASE) / 4) (mkst _ h w) = Ok (word_at w pc) (mkst _ h w).
Proof.
  intros Hs Hp. unfold getINST, bind, mem_at, word_at. cbn [wld].
  rewrite Z.div_div by lia. change (4 * 2) with 8. unfold vec_in.
  pose proof (wwf_size _ Hs). unfold DRAM_BASE, DRAM_SIZE in *.
  rewrite (proj2 (Z.leb_le 0 _)), (proj2 (Z.ltb_lt _ _)) by zlia. cbn [andb]. unfold ret. f_equal.
  destruct (_ mod 2 =? 0).
  - rewrite Z.land_comm. apply land_MASK32.
  - apply shiftr_div. lia.
Qed.
Lemma fetch_ok h w pc : world_wf w -> DRAM_BASE <= pc < DRAM_BASE + DRAM_SIZE -> pc mod 4 = 0 ->
  hart_fetch_instruction pc (mkst _ h w) =
  Ok (word_at w pc) (mkst _ { h with PC_phy := pc - DRAM_BASE; instruction := word_at w pc } w).
Proof.
  intros Hw Hp Ha. unfold hart_fetch_instruction.
  rewrite (proj2 (Z.ltb_ge _ _)), (proj2 (Z.leb_gt _ _)), Ha by lia. cbn [orb Z.eqb].
  rewrite (bind_ok _ _ _ _ _ (on_hart_ok _ _ _)), (bind_ok _ _ _ _ _ (getINST_ok _ _ _ Hw Hp)).
  reflexivity.
Qed.
Lemma completion_ok h w :
  L = true \/ (instruction h <> 0x00018513 /\ instruction h <> 0x73) ->
  completion_check L (mkst _ h w) = Ok tt (mkst _ h w).
Proof.
  intros Hc. unfold completion_check, bind, get_hart, gets. cbn [hrt].
  destruct L; [reflexivity|]. destruct Hc as [|[H1 H2]]; [discriminate|].
  rewrite (proj2 (Z.eqb_neq _ _) H1), (proj2 (Z.eqb_neq _ _) H2). reflexivity.
Qed.
Lemma take_interrupts_masked h : L = true \/ ms_mie (mstatus (cs h)) = 0 -> take_interrupts L false h = h.
Proof. unfold take_interrupts. intros [-> | E]; [reflexivity|]. rewrite E. destruct L; reflexivity. Qed.

(** The hart when the decoder starts. *)
Definition fetched_hart (t sw : bool) (word : Z) (h : hart) : hart :=
  { (decay_protect (set_mips t sw (set_reg 0 0 h))) with PC_phy := PC h - DRAM_BASE; instruction := word }.

Lemma step_prologue h w : quiet (mkst _ h w) -> exists t sw,
  hart_step L (mkst _ h w) = (on_hart decode_step ;;; exec_instr L)
    (mkst _ (fetched_hart t sw (word_at w (PC h)) h) w).
Proof.
  intros [[Hh Hwf] Hid Hrel Hwfi Hmask Hflag Hpc Hal Hcont]. unfold hartid_ok in Hid. cbn [hrt wld] in *.
  pose proof (wwf_clint _ Hwf) as Hc.
  pose proof (check_timer_defined _ _ Hc Hid) as Ht. pose proof (check_software_defined _ _ Hc Hid) as Hsw.
  eexists _, _. unfold hart_step.
  rewrite (bind_ok _ _ _ _ _ (on_hart_ok _ _ _)).
  rewrite (bind_ok _ _ _ _ _ (park_ok (set_reg 0 0 h) _ Hrel)). cbn [fst snd].
  rewrite (bind_ok _ _ _ _ _ (refresh_ok (set_reg 0 0 h) _ _ _ Ht Hsw)).
  rewrite (bind_ok _ _ _ _ _ (on_hart_ok _ _ _)), take_interrupts_masked by exact Hmask.
  rewrite (bind_ok _ _ _ _ _ (on_hart_ok _ _ _)).
  set (h2 := decay_protect _). assert (E2 : in_wfi h2 = false /\ PC h2 = PC h /\ fl h2 = fl h).
  { subst h2. unfold decay_protect. destruct (_ <? _); auto. }
  destruct E2 as (E2 & E3 & E4).
  rewrite (bind_ok _ _ _ _ _ (wfi_ok h2 _ E2)). unfold bind at 1, get_hart at 1, gets. cbn [hrt]. rewrite E3.
  rewrite (bind_ok _ _ _ _ _ (fetch_ok h2 w (PC h) Hwf Hpc Hal)).
  rewrite (bind_ok _ _ _ _ _ (on_hart_ok _ _ _)).
  match goal with |- bind _ ?f (mkst _ ?x w) = _ => rewrite (bind_ok _ f _ _ _ (completion_ok x w Hcont)) end.
  unfold bind at 1, get_hart, gets. cbn [hrt].
  replace (INS_ADDR_MISSALIG _) with false; [|symmetry; rewrite <- Hflag, <- E4; reflexivity].
  unfold fetched_hart. rewrite <- E3. reflexivity.
Qed.

(** What the instruction cases may assume of the hart after decoding [word]. *)
Record ready (word : Z) (h0 h : hart) : Prop := {
  rdy_wf : hart_wf h;
  rdy_pc : PC h = u64 (PC h0 + 4);
  rdy_lt : lt h = decode word;
  rdy_instr : instruction h = word;
  rdy_x0 : reg h 0 = 0;
  rdy_regs : forall r, 0 < r < 32 -> reg h r = reg h0 r;
  rdy_fl : fl h = fl h0;
  rdy_rs : rs h = rs h0;
  rdy_tm : tm h = tm h0;
  rdy_cp : cp h = cp h0 }.

Lemma word_at_u32 w pc : world_wf w -> is_u32 (word_at w pc).
Proof.
  intros Hw. unfold word_at. pose proof (wwf_mem _ Hw ((pc - DRAM_BASE) / 8)).
  destruct (_ =? 0); [apply u32_range|]. change (2 ^ 32) with 0x100000000. word.
Qed.
Lemma reg_set d v h r : hart_wf h -> 0 <= d < 32 -> 0 <= r ->
  reg (set_reg d v h) r = if r =? d then v else reg h r.
Proof.
  intros Hh Hd Hr. unfold reg, set_reg. cbn. pose proof (hwf_len h Hh) as Hlen. destruct h; cbn in *.
  destruct (Z.eqb_spec r d) as [->|].
  - rewrite list_lookup_insert_eq by lia. reflexivity.
  - rewrite list_lookup_insert_ne by lia. reflexivity.
Qed.
Lemma set_mip_fn_wf f h : hart_wf h -> (forall m, mip_wf m -> mip_wf (f m)) -> hart_wf { h with cs -> mip ::= f }.
Proof. intros Hh Hf. apply set_cs_fn_wf; [assumption|]. intros []. constructor; cbn; auto. Qed.
Lemma set_mips_wf t sw h : hart_wf h -> hart_wf (set_mips t sw h).
Proof.
  intros. unfold set_mips.
  apply set_mip_fn_wf; [apply set_mip_fn_wf; [assumption|]|]; intros m Hm;
    [apply (set_MTIP_wf m) | apply (set_MSIP_wf m)]; auto using set_bool_bit_wf.
Qed.
Lemma fetched_wf t sw word h : hart_wf h -> is_u32 word -> DRAM_BASE <= PC h < DRAM_BASE + DRAM_SIZE ->
  hart_wf (fetched_hart t sw word h).
Proof.
  intros Hh Hw Hp. unfold fetched_hart. set (h2 := decay_protect _).
  assert (hart_wf h2) as [] by (apply decay_protect_wf, set_mips_wf, set_x0_wf; assumption).
  constructor; cbn; try assumption. unfold DRAM_BASE, DRAM_SIZE, is_u64 in *. lia.
Qed.
Lemma ready_start t sw word h : hart_wf h -> is_u32 word -> DRAM_BASE <= PC h < DRAM_BASE + DRAM_SIZE ->
  ready word h (decode_step (fetched_hart t sw word h)).
Proof.
  intros Hh Hw Hp. pose proof (fetched_wf t sw word h Hh Hw Hp) as Hf.
  assert (Hreg : reg_file (fetched_hart t sw word h) = reg_file (set_reg 0 0 h)).
  { unfold fetched_hart, decay_protect. destruct (_ <? _); reflexivity. }
  assert (Hreg' : reg_file (decode_step (fetched_hart t sw word h)) = <[0%nat := 0]> (<[0%nat := 0]> (reg_file h))).
  { change (reg_file (decode_step (fetched_hart t sw word h))) with (<[0%nat := 0]> (reg_file (fetched_hart t sw word h))).
    rewrite Hreg. reflexivity. }
  constructor; try (apply decode_step_wf; assumption);
    try (unfold fetched_hart, decay_protect; destruct (_ <? _); reflexivity).
  - unfold reg. rewrite Hreg'. pose proof (hwf_len h Hh). destruct (reg_file h); [discriminate|reflexivity].
  - intros r Hr. unfold reg. rewrite Hreg', !list_lookup_insert_ne by lia. reflexivity.
Qed.

(** The step of a quiet hart is the instruction case on a ready hart. *)
Lemma step_ready h w : quiet (mkst _ h w) -> exists h1,
  ready (word_at w (PC h)) h h1 /\ hart_step L (mkst _ h w) = exec_instr L (mkst _ h1 w).
Proof.
  intros Hq. destruct (step_prologue h w Hq) as (t & sw & Hstep). destruct Hq as [[Hh Hw] ? ? ? ? ? Hpc ? ?].
  exists (decode_step (fetched_hart t sw (word_at w (PC h)) h)). split.
  - apply ready_start; [exact Hh|apply word_at_u32, Hw|exact Hpc].
  - rewrite Hstep. reflexivity.
Qed.

(** The abstraction: program counter and registers 1 to 31. *)
Definition abs (h : hart) (a : arch) : Prop := PC h = a_pc a /\ forall r, 0 < r < 32 -> reg h r = a_regs a r.

Lemma ready_xget word h0 h a r : ready word h0 h -> abs h0 a -> is_reg r -> reg h r = xget a r.
Proof.
  intros Hr [_ Ha] H0. unfold xget, is_reg in *. destruct (Z.eqb_spec r 0) as [->|]; [apply Hr|].
  rewrite (rdy_regs _ _ _ Hr), Ha by lia. reflexivity.
Qed.
Lemma abs_write word h0 h a d v : ready word h0 h -> abs h0 a -> rd (decode word) = d -> is_reg d ->
  abs (write_back v h) (next a d v).
Proof.
  intros Hr [Hp Ha] Hd Hr0. unfold write_back, set_rd. cbn [lt set_wb].
  replace (rd (lt (set_wb v h))) with d by (rewrite <- Hd, <- (rdy_lt _ _ _ Hr); reflexivity).
  split.
  - change (PC (set_reg d v (set_wb v h))) with (PC h). rewrite (rdy_pc _ _ _ Hr), Hp. reflexivity.
  - intros r H0. assert (exists x, hart_wf (set_wb x h)) as [x Hw] by (exists 0; apply set_wb_wf; [apply Hr|unfold is_u64; lia]).
    change (reg (set_reg d v (set_wb v h)) r) with (reg (set_reg d v (set_wb x h)) r).
    rewrite reg_set by (assumption || lia). cbn [next a_regs]. unfold xput. destruct (r =? d); [reflexivity|].
    change (reg (set_wb x h) r) with (reg h r). rewrite (rdy_regs _ _ _ Hr), Ha by lia. reflexivity.
Qed.

(** The dispatch on the opcode. *)
Definition reg_case (h : hart) : option (hart -> hart) :=
  let op := opcode (lt h) in
  if op =? op_lui then Some exec_lui else if op =? op_auipc then Some exec_auipc
  else if op =? op_jump then Some exec_jump else if op =? op_jumpr then Some exec_jumpr
  else if op =? op_cjump then Some exec_cjump else if op =? op_iops then Some exec_iops
  else if op =? op_iops64 then Some exec_iops64 else if op =? op_rops then Some exec_rops
  else if op =? op_rops64 then Some exec_rops64 else None.
Lemma exec_reg_case h w f : reg_case h = Some f -> exec_instr L (mkst _ h w) = Ok tt (mkst _ (f h) w).
Proof.
  unfold reg_case, exec_instr, bind at 1, get_hart, gets. cbn [hrt].
  unfold op_lui, op_auipc, op_jump, op_jumpr, op_cjump, op_iops, op_iops64, op_rops, op_rops64, op_load, op_store.
  repeat match goal with |- context [opcode (lt h) =? ?k] => destruct (Z.eqb_spec (opcode (lt h)) k) end;
    try lia; intros [= <-]; reflexivity.
Qed.

(** *** Each group of instructions *)

Lemma ready_reg_u64 word h0 h r : ready word h0 h -> is_u64 (reg h r).
Proof. intros Hr. apply reg_u64, Hr. Qed.

Definition refines (i : instr) : Prop := forall h0 h a,
  ready (encode i) h0 h -> abs h0 a -> exists f, reg_case h = Some f /\ abs (f h) (spec_step i a).

(** Finds the case from the decoded opcode. *)
Ltac pick Hr Hop f :=
  let Hlt := fresh "Hlt" in
  pose proof (rdy_lt _ _ _ Hr) as Hlt; cbn [encode] in Hlt;
  exists f; split; [unfold reg_case; rewrite Hlt, Hop; reflexivity|]; cbn [spec_step].

Lemma refines_lui d imm : valid (LUI d imm) -> refines (LUI d imm).
Proof.
  intros [Hd Hi] h0 h a Hr Ha. destruct (decode_u_type imm d 0x37 ltac:(lia) Hd Hi) as (Ho & Hrd & Himm).
  pick Hr Ho exec_lui. unfold exec_lui.
  replace (sign_extend _ 32) with (sext32 (imm * 2 ^ 12)); [eapply abs_write; eassumption|].
  rewrite (rdy_instr _ _ _ Hr). symmetry. cbn [encode].
  rewrite (land_shifted_mask _ 12 20) by (reflexivity || lia). rewrite <- (land_ones_mod _ 20 0xFFFFF) by (reflexivity || lia).
  change (Z.land (Z.shiftr (u_type imm d 55) 12) 1048575) with (imm31_12 (decode (u_type imm d 0x37))). rewrite Himm.
  rewrite Z.mul_comm. apply sext_id32. unfold is_u32. lia.
Qed.

Lemma refines_auipc d imm : valid (AUIPC d imm) -> refines (AUIPC d imm).
Proof.
  intros [Hd Hi] h0 h a Hr Ha. destruct (decode_u_type imm d 0x17 ltac:(lia) Hd Hi) as (Ho & Hrd & Himm).
  pick Hr Ho exec_auipc. unfold exec_auipc. rewrite Hlt, Himm.
  replace (u64 _) with (u64 (a_pc a + s32 (imm * 2 ^ 12))); [eapply abs_write; eassumption|].
  rewrite (rdy_pc _ _ _ Hr), (proj1 Ha), u64_sub_l. replace (a_pc a + 4 - 4) with (a_pc a) by ring.
  rewrite u64_add_l, Z.shiftl_mul_pow2 by lia. rewrite (u64_id (imm * 2 ^ 12)) by (unfold is_u64; lia).
  rewrite sext_id32 by (unfold is_u32; lia). unfold sext32. rewrite u64_add_r. reflexivity.
Qed.

(** Jumps: [target] and the link. *)
Lemma abs_jump word h0 h a d t : ready word h0 h -> abs h0 a -> rd (lt h) = d -> is_reg d ->
  abs (let h' := set_pc t (set_wb (PC h) h) in if PC h' mod 4 =? 0 then set_rd (PC h) h' else h') (jump a t d).
Proof.
  intros Hr [Hp Ha] Hd H0. cbv zeta. unfold jump. change (PC (set_pc t (set_wb (PC h) h))) with t.
  assert (Hpc : is_u64 (PC h)) by apply (rdy_wf _ _ _ Hr).
  assert (Hw : hart_wf (set_pc 0 (set_wb (PC h) h))).
  { apply set_pc_wf; [apply set_wb_wf; [apply Hr|assumption]|unfold is_u64; lia]. }
  destruct (t mod 4 =? 0); (split; [reflexivity|]); intros r Hr0.
  - unfold set_rd. change (rd (lt (set_pc t (set_wb (PC h) h)))) with (rd (lt h)). rewrite Hd.
    change (reg (set_reg d (PC h) (set_pc t (set_wb (PC h) h))) r)
      with (reg (set_reg d (PC h) (set_pc 0 (set_wb (PC h) h))) r).
    rewrite reg_set by (assumption || lia). cbn [a_regs]. unfold xput.
    destruct (r =? d); [rewrite (rdy_pc _ _ _ Hr), Hp; reflexivity|].
    change (reg (set_pc 0 (set_wb (PC h) h)) r) with (reg h r). rewrite (rdy_regs _ _ _ Hr), Ha by lia. reflexivity.
  - change (reg (set_pc t (set_wb (PC h) h)) r) with (reg h r). rewrite (rdy_regs _ _ _ Hr), Ha by lia. reflexivity.
Qed.

Lemma refines_jal d off : valid (JAL d off) -> refines (JAL d off).
Proof.
  intros (Hd & Hi & He) h0 h a Hr Ha. destruct (decode_j_type off d 0x6f ltac:(lia) Hd Hi He) as (Ho & Hrd & Himm).
  pick Hr Ho exec_jump.
  pose proof (abs_jump _ h0 h a d (u64 (a_pc a + off)) Hr Ha ltac:(rewrite Hlt; exact Hrd) Hd) as Hj. cbv zeta in Hj.
  unfold exec_jump. replace (u64 (u64 (PC (set_wb (PC h) h) - 4) + sign_extend (imm_j (lt (set_wb (PC h) h))) 21))
    with (u64 (a_pc a + off)); [exact Hj|].
  change (PC (set_wb (PC h) h)) with (PC h). change (lt (set_wb (PC h) h)) with (lt h). rewrite Hlt, Himm.
  rewrite (sext21 off Hi). rewrite u64_add_l, u64_add_r.
  rewrite (rdy_pc _ _ _ Hr), (proj1 Ha). word.
Qed.

Lemma clear_bit0 x : is_u64 x -> Z.land x 0xFFFFFFFFFFFFFFFE = 2 * (x / 2).
Proof.
  intros Hx. rewrite (land_shifted_mask x 1 63) by (reflexivity || lia). change (2 ^ 1) with 2. f_equal.
  rewrite shiftr_div by lia. change (2 ^ 1) with 2. apply Z.mod_small. unfold is_u64 in Hx. change (2 ^ 63) with 0x8000000000000000. zlia.
Qed.

Lemma refines_jalr d r1 off : valid (JALR d r1 off) -> refines (JALR d r1 off).
Proof.
  intros (Hd & H1 & Hi) h0 h a Hr Ha.
  destruct (decode_i_type (off mod 0x1000) r1 0 d 0x67 ltac:(lia) Hd H1 ltac:(lia) ltac:(zlia)) as (Ho & Hrd & Hr1 & _ & Himm & _).
  pick Hr Ho exec_jumpr.
  pose proof (abs_jump _ h0 h a d (2 * (u64 (xget a r1 + off) / 2)) Hr Ha ltac:(rewrite Hlt; exact Hrd) Hd) as Hj.
  cbv zeta in Hj. unfold exec_jumpr.
  replace (Z.land _ 0xFFFFFFFFFFFFFFFE) with (2 * (u64 (xget a r1 + off) / 2)); [exact Hj|].
  rewrite clear_bit0 by apply u64_range. change (rv1 (set_wb (PC h) h)) with (rv1 h).
  change (lt (set_wb (PC h) h)) with (lt h). unfold rv1. rewrite Hlt, Hr1, Himm, sext12, u64_add_r by assumption.
  rewrite (ready_xget _ _ _ _ _ Hr Ha H1). reflexivity.
Qed.

Lemma refines_branch op r1 r2 off : valid (BRANCH op r1 r2 off) -> refines (BRANCH op r1 r2 off).
Proof.
  intros (H1 & H2 & Hi & He) h0 h a Hr Ha.
  destruct (decode_b_type off r2 r1 (bop_f3 op) 0x63 ltac:(lia) H1 H2 ltac:(destruct op; cbn; lia) Hi He)
    as (Ho & Hr1 & Hr2 & Hf3 & Himm).
  pick Hr Ho exec_cjump. unfold exec_cjump, rv1, rv2. rewrite Hlt, Hr1, Hr2, Hf3.
  rewrite branch_ok by (eapply ready_reg_u64, Hr).
  rewrite (ready_xget _ _ _ _ _ Hr Ha H1), (ready_xget _ _ _ _ _ Hr Ha H2).
  set (b := bop_taken _ _ _). set (h' := { h with tm -> branch := b }).
  change (branch (tm h')) with b. change (PC h') with (PC h). change (lt h') with (lt h). rewrite Hlt, Himm.
  rewrite (sext13 off Hi), u64_add_r, (rdy_pc _ _ _ Hr), (proj1 Ha).
  assert (Hregs : forall r, 0 < r < 32 -> reg h r = a_regs a r).
  { intros r H0. rewrite <- (proj2 Ha r H0). apply (rdy_regs _ _ _ Hr r H0). }
  destruct b; (split; [|exact Hregs]).
  - change (u64 (u64 (a_pc a + 4) - 4 + off) = u64 (a_pc a + off)). word.
  - change (PC h = u64 (a_pc a + 4)). rewrite (rdy_pc _ _ _ Hr), (proj1 Ha). reflexivity.
Qed.

Lemma abs_ext h1 h2 a : PC h1 = PC h2 -> reg_file h1 = reg_file h2 -> abs h1 a -> abs h2 a.
Proof. unfold abs, reg. intros -> ->. auto. Qed.

(** The register file after [reg_file[rd] = v]. *)
Definition write_v (h : hart) (v : Z) : list Z := <[Z.to_nat (rd (lt h)) := v]> (reg_file h).

Lemma refines_opi op d r1 imm : valid (OPI op d r1 imm) -> refines (OPI op d r1 imm).
Proof.
  intros (Hd & H1 & Hi) h0 h a Hr Ha.
  assert (Hf : 0 <= iop_field op imm < 0x1000) by (destruct op; cbn [iop_field iop_imm] in *; zlia).
  destruct (decode_i_type (iop_field op imm) r1 (iop_f3 op) d 0x13 ltac:(lia) Hd H1 ltac:(destruct op; cbn; lia) Hf)
    as (Ho & Hrd & Hr1 & Hf3 & Himm & Hf7).
  pick Hr Ho exec_iops. eapply (abs_ext (write_back (iop_value op (xget a r1) imm) h)); [| |eapply abs_write; eassumption].
  all: unfold exec_iops; match goal with |- context [if ?b then _ else _] => destruct b end; try reflexivity;
    change (write_v h (iop_value op (xget a r1) imm) =
      write_v h (iops_result (func3 (lt h)) (func7 (lt h)) (imm11_0 (lt h)) (reg h (rs1 (lt h))) (wb_data (tm h))));
    rewrite Hlt, Hr1, Hf3, Hf7, Himm, iops_ok by (assumption || eapply ready_reg_u64, Hr);
    rewrite (ready_xget _ _ _ _ _ Hr Ha H1); reflexivity.
Qed.

Lemma refines_opiw op d r1 imm : valid (OPIW op d r1 imm) -> refines (OPIW op d r1 imm).
Proof.
  intros (Hd & H1 & Hi) h0 h a Hr Ha.
  assert (Hf : 0 <= iwop_field op imm < 0x1000) by (destruct op; cbn [iwop_field iwop_imm] in *; zlia).
  destruct (decode_i_type (iwop_field op imm) r1 (iwop_f3 op) d 0x1b ltac:(lia) Hd H1 ltac:(destruct op; cbn; lia) Hf)
    as (Ho & Hrd & Hr1 & Hf3 & Himm & Hf7).
  pick Hr Ho exec_iops64. eapply (abs_ext (write_back (iwop_value op (xget a r1) imm) h)); [| |eapply abs_write; eassumption].
  all: unfold exec_iops64; match goal with |- context [if ?b then _ else _] => destruct b end; try reflexivity;
    change (write_v h (iwop_value op (xget a r1) imm) =
      write_v h (iops64_result (func3 (lt h)) (func7 (lt h)) (imm11_0 (lt h)) (reg h (rs1 (lt h))) (wb_data (tm h))));
    rewrite Hlt, Hr1, Hf3, Hf7, Himm, iops64_ok by (assumption || eapply ready_reg_u64, Hr);
    rewrite (ready_xget _ _ _ _ _ Hr Ha H1); reflexivity.
Qed.

(** What the register-register case writes to [rd]. *)
Lemma exec_rops_value h op d r1 r2 v : lt h = decode (r_type (rop_f7 op) r2 r1 (rop_f3 op) d 0x33) ->
  is_reg d -> is_reg r1 -> is_reg r2 -> is_u64 (reg h r1) -> is_u64 (reg h r2) ->
  v = rop_emulated op (reg h r1) (reg h r2) ->
  PC (exec_rops h) = PC h /\ reg_file (exec_rops h) = <[Z.to_nat d := v]> (reg_file h).
Proof.
  intros Hlt Hd H1 H2 Hu1 Hu2 ->.
  destruct (decode_r_type (rop_f7 op) r2 r1 (rop_f3 op) d 0x33 ltac:(lia) Hd H1 H2 ltac:(destruct op; cbn; lia) ltac:(destruct op; cbn; lia))
    as (Ho & Hrd & Hr1 & Hr2 & Hf3 & Hf7).
  unfold exec_rops, rv1, rv2. cbv zeta. rewrite Hlt, Hr1, Hr2, Hf3, Hf7.
  assert (Hw : forall v, PC (write_back v h) = PC h /\ reg_file (write_back v h) = <[Z.to_nat d := v]> (reg_file h)).
  { intros v. split; [reflexivity|]. unfold write_back, set_rd. change (lt (set_wb v h)) with (lt h).
    rewrite Hlt, Hrd. reflexivity. }
  destruct (Z.eq_dec (rop_f7 op) 0) as [E|N0]; [rewrite E; cbn [Z.eqb]; rewrite rops_ok, rop_emulated_id by (assumption || intros ->; discriminate E); apply Hw|].
  destruct (Z.eq_dec (rop_f7 op) 1) as [E|N1].
  - rewrite E. cbn [Z.eqb Pos.eqb]. destruct (Z.ltb_spec (rop_f3 op) 4).
    + rewrite rop_emulated_id, <- mult_ok by (assumption || intros ->; cbn in *; lia). split; [reflexivity|].
      unfold set_rd. match goal with |- context [set_reg (rd (lt ?x)) _ _] => change (lt x) with (lt h) end.
      rewrite Hlt, Hrd. reflexivity.
    + rewrite div_ok by assumption. split; [reflexivity|]. unfold set_rd. rewrite Hlt, Hrd. reflexivity.
  - destruct op; try (cbn in N0, N1; lia); cbn [rop_f7 rop_f3 rop_emulated rop_value Z.eqb Pos.eqb]; [apply Hw|].
    rewrite (mask_mod _ 6) by (reflexivity || lia). change (2 ^ 6) with 64.
    match goal with |- context [sra_loop _ _ (reg ?x (rs1 (lt ?x)))] =>
      change (reg x (rs1 (lt x))) with (reg h (rs1 (lt h))) end.
    rewrite Hlt, Hr1. rewrite sra_loop64 by (assumption || apply Z.mod_pos_bound; lia).
    destruct (Hw (u64 (s64 (reg h r1) / 2 ^ (reg h r2 mod 64)))) as [W1 W2]. split; [exact W1|exact W2].
Qed.

Lemma abs_insert word h0 h h' a d v : ready word h0 h -> abs h0 a -> is_reg d ->
  PC h' = PC h -> reg_file h' = <[Z.to_nat d := v]> (reg_file h) -> abs h' (next a d v).
Proof.
  intros Hr [Hp Ha] Hd Hpc Hreg. split.
  - rewrite Hpc, (rdy_pc _ _ _ Hr), Hp. reflexivity.
  - intros r H0. unfold reg. rewrite Hreg. change (default 0 (<[Z.to_nat d:=v]> (reg_file h) !! Z.to_nat r)) with (reg (set_reg d v h) r).
    rewrite reg_set by (apply Hr || exact Hd || lia). cbn [next a_regs]. unfold xput.
    destruct (r =? d); [reflexivity|]. rewrite (rdy_regs _ _ _ Hr), Ha by lia. reflexivity.
Qed.

Lemma refines_opr op d r1 r2 : valid (OPR op d r1 r2) -> forall h0 h a,
  ready (encode (OPR op d r1 r2)) h0 h -> abs h0 a ->
  exists f, reg_case h = Some f /\ abs (f h) (emulated_step (OPR op d r1 r2) a).
Proof.
  intros (Hd & H1 & H2) h0 h a Hr Ha. cbn [emulated_step].
  destruct (decode_r_type (rop_f7 op) r2 r1 (rop_f3 op) d 0x33 ltac:(lia) Hd H1 H2 ltac:(destruct op; cbn; lia) ltac:(destruct op; cbn; lia))
    as (Ho & _).
  pick Hr Ho exec_rops. rewrite <- (ready_xget _ _ _ _ _ Hr Ha H1), <- (ready_xget _ _ _ _ _ Hr Ha H2) in *.
  destruct (exec_rops_value h op d r1 r2 _ Hlt Hd H1 H2 (ready_reg_u64 _ _ _ _ Hr) (ready_reg_u64 _ _ _ _ Hr) eq_refl) as [P1 P2].
  eapply abs_insert; eassumption.
Qed.

Lemma refines_oprw op d r1 r2 : valid (OPRW op d r1 r2) -> refines (OPRW op d r1 r2).
Proof.
  intros (Hd & H1 & H2) h0 h a Hr Ha.
  destruct (decode_r_type (rwop_f7 op) r2 r1 (rwop_f3 op) d 0x3b ltac:(lia) Hd H1 H2 ltac:(destruct op; cbn; lia) ltac:(destruct op; cbn; lia))
    as (Ho & Hrd & Hr1 & Hr2 & Hf3 & Hf7).
  pick Hr Ho exec_rops64. eapply (abs_ext (write_back (rwop_value op (xget a r1) (xget a r2)) h)); [| |eapply abs_write; eassumption].
  all: unfold exec_rops64; replace ((func7 (lt h) =? 0) || (func7 (lt h) =? 1) || (func7 (lt h) =? 32)) with true
      by (rewrite Hlt, Hf7; destruct op; reflexivity);
    cbv zeta; match goal with |- context [if ?b then _ else _] => destruct b end; try reflexivity;
    change (write_v h (rwop_value op (xget a r1) (xget a r2)) =
      write_v h (rops64_result (func7 (lt h)) (func3 (lt h)) (reg h (rs1 (lt h))) (reg h (rs2 (lt h))) (wb_data (tm h))));
    rewrite Hlt, Hr1, Hr2, Hf3, Hf7, rops64_ok by (eapply ready_reg_u64, Hr);
    rewrite (ready_xget _ _ _ _ _ Hr Ha H1), (ready_xget _ _ _ _ _ Hr Ha H2); reflexivity.
Qed.
End Step.

(** A freshly started hart 0 is quiet. *)
Lemma boot_quiet `{Console} L regs cells t :
  Forall (fun p => is_u64 p.2) regs -> Forall (fun p => is_u64 p.2) cells ->
  (let word := word_at (boot_world cells t) DRAM_BASE in L = true \/ (word <> 0x00018513 /\ word <> 0x73)) ->
  quiet L (mkst _ (boot_hart L 0 regs) (boot_world cells t)).
Proof.
  intros Hr Hc Hw. destruct (boot_hart_members L 0 regs) as (E1 & E2 & E3 & E4 & E5 & _).
  split; cbn [hrt wld]; rewrite ?E1, ?E2, ?E3, ?E4, ?E5; try reflexivity.
  - split; [apply boot_hart_wf; [unfold is_u64; lia|assumption]|apply boot_world_wf, Hc].
  - unfold hartid_ok. cbn [hrt wld]. rewrite E3. vm_compute. split; congruence.
  - destruct L; reflexivity.
  - right. reflexivity.
  - unfold DRAM_BASE, DRAM_SIZE. lia.
  - exact Hw.
Qed.
Lemma abs_self h : abs h (mkarch (PC h) (reg h)).
Proof. split; reflexivity. Qed.

(** ** The simulation theorem *)

Section Simulation.
Context `{Console} (L : bool).

Lemma ready_simulates i h0 h a : ready (encode i) h0 h -> valid i -> abs h0 a ->
  exists f, reg_case h = Some f /\ abs (f h) (emulated_step i a).
Proof.
  intros Hr Hv Ha. destruct i.
  - eapply refines_lui; eassumption.
  - eapply refines_auipc; eassumption.
  - eapply refines_jal; eassumption.
  - eapply refines_jalr; eassumption.
  - eapply refines_branch; eassumption.
  - eapply refines_opi; eassumption.
  - eapply refines_opiw; eassumption.
  - eapply refines_opr; eassumption.
  - eapply refines_oprw; eassumption.
Qed.
End Simulation.
