(* ===== verification/Isa.v ===== *)
(** * The register instructions: simulation, safety of the step, division

    The whole step of the emulator against the ISA specification, the type
    invariant of every step, and the exact domain on which DIV is right. *)

From S2P Require Import Prelude Constants Alu MemAccess Csr Clint Hart Trap Execute Safety Boot Spec Refine.

(** ** Theorems *)



(** In a state where every data member holds a value of its C++ type and the
    hart number names a CLINT hart, the instruction step throws no
    [std::out_of_range], performs no unchecked access out of range, and leaves
    such a state, whatever the instruction, the console input and the outcome
    of the interrupt tests. *)
Theorem hart_step_safe `{Console} L s :
  st_wf s -> hartid_ok s -> wp (hart_step L) (fun _ s' => st_wf s') s.
Proof. intros Hs Hi. apply (step_preserves L (mhartid (cs (hrt s)))). split; [assumption|reflexivity|assumption]. Qed.
Lemma hart_step_safe_witness :
  wp (hart_step false) (fun _ s' => st_wf s') (boot false 3 [(0, 0xFFFFFFFFFFFFFFFF)] (keys [65] 0)).
Proof.
  apply hart_step_safe; [apply boot_wf|apply boot_hartid]; try lia.
  repeat constructor; unfold is_u64; cbn; lia.
Defined.

(** DIV returns the quotient of the M extension exactly on the operands of
    [div_safe]: the comparison with [-pow(2,63)] in [double] makes the division
    of the 512 values above [INT64_MIN] by -1 return [INT64_MIN]. *)
Theorem div_exact_iff a b : is_u64 a -> is_u64 b ->
  (div_result 4 a b = rop_value DIV a b <-> div_safe a b).
Proof.
  intros Ha Hb. unfold div_safe, rop_value, div_result. cbn [Z.eqb Pos.eqb].
  rewrite !signed_value_s64 by assumption.
  rewrite <- (divi_div_iff (s64 a) (s64 b)) by apply s64_range. split; [|congruence].
  intros E. rewrite <- (s64_id (divi _ _ _ _)), <- (s64_id (riscv_div _ _)), <- s64_u64, E, s64_u64; [reflexivity| |].
  - apply riscv_div_s64; apply s64_range.
  - apply divi_s64; apply s64_range.
Qed.
Lemma div_exact_iff_witness :
  div_result 4 (u64 (-2 ^ 63 + 512)) (u64 (-1)) = rop_value DIV (u64 (-2 ^ 63 + 512)) (u64 (-1))
  <-> div_safe (u64 (-2 ^ 63 + 512)) (u64 (-1)).
Proof. apply div_exact_iff; apply u64_range. Defined.
