(* ===== verification/MemInstr.v ===== *)
(** * Loads and stores: the byte-level meaning of a whole step

    [byte_at] views the cells of the memory vector as a byte array; a store
    changes exactly the bytes it names, a load returns their little-endian
    value. Accesses that cross an 8-byte cell trap. *)

From S2P Require Import Prelude Constants Alu MemAccess Csr Clint Hart Trap Execute Safety Boot Spec Refine.

(** ** Encoding and widths *)

Definition s_type (imm rs2 rs1 f3 op : Z) : Z :=
  op + 0x80 * (imm mod 0x20 + 0x20 * (f3 + 8 * (rs1 + 0x20 * (rs2 + 0x20 * (imm / 0x20))))).
Definition STORE (f3 r2 r1 off : Z) : Z := s_type (off mod 0x1000) r2 r1 f3 0x23.
Definition LOAD (f3 d r1 off : Z) : Z := i_type (off mod 0x1000) r1 f3 d 0x03.

(** Number of bytes of an access, from the [func3] field. *)
Definition access_bytes (f3 : Z) : nat :=
  if (f3 =? 0) || (f3 =? 4) then 1 else if (f3 =? 1) || (f3 =? 5) then 2
  else if (f3 =? 2) || (f3 =? 6) then 4 else 8.
(** The value written to [rd] from the loaded bytes. *)
Definition load_ext (f3 v : Z) : Z :=
  if f3 =? 0 then u64 (if v <? 0x80 then v else v - 0x100)
  else if f3 =? 1 then u64 (if v <? 0x8000 then v else v - 0x10000)
  else if f3 =? 2 then u64 (if v <? 0x80000000 then v else v - 0x100000000)
  else v.

Lemma decode_s_type imm r2 r1 f3 op :
  0 <= op < 0x80 -> is_reg r1 -> is_reg r2 -> 0 <= f3 < 8 -> 0 <= imm < 0x1000 ->
  let l := decode (s_type imm r2 r1 f3 op) in
  opcode l = op /\ rs1 l = r1 /\ rs2 l = r2 /\ func3 l = f3 /\ imm_s l = imm.
Proof.
  unfold is_reg. intros Hop H1 H2 H3 Hi.
  set (fs := [(op, 7); (imm mod 0x20, 5); (f3, 3); (r1, 5); (r2, 5); (imm / 0x20, 7)]).
  assert (Hf : fits fs) by (repeat constructor; cbn [fst snd]; change (2 ^ 5) with 32; change (2 ^ 7) with 128; (lia || zlia)).
  replace (s_type imm r2 r1 f3 op) with (packed fs) by (unfold s_type; cbn [packed fs]; pow_consts; ring).
  cbn -[Z.land Z.shiftr Z.shiftl Z.mul Z.add packed fs]. rewrite <- (Z.shiftr_0_r (packed fs)) at 1.
  repeat split; try packed_solve Hf.
  rewrite (packed_field fs 5 25 0x7f _ _ Hf eq_refl eq_refl eq_refl), (packed_field fs 1 7 0x1f _ _ Hf eq_refl eq_refl eq_refl).
  rewrite Z.shiftl_mul_pow2 by lia. change (2 ^ 5) with 32. zlia.
Qed.

Section Mem.
Context `{Console} (L : bool).
Local Open Scope prog_scope.

(** The byte at a DRAM address. *)
Definition byte_at (w : world) (a : Z) : Z := byte_of (vec_get (memory w) (dram_idx a)) (a mod 8).

(** The access stays inside one 8-byte cell. *)
Definition in_cell (a : Z) (n : nat) : Prop := a mod 8 + Z.of_nat n <= 8.

Lemma dram_idx_same a k : 0 <= k -> a mod 8 + k < 8 -> dram_idx (a + k) = dram_idx a /\ (a + k) mod 8 = a mod 8 + k.
Proof. unfold dram_idx, DRAM_BASE. intros. split; zlia. Qed.
Lemma dram_idx_inj a b : dram_idx a = dram_idx b -> b = a - a mod 8 + b mod 8.
Proof. unfold dram_idx, DRAM_BASE. intros. zlia. Qed.

Lemma byte_at_range w a : is_u8 (byte_at w a).
Proof. apply u8_range. Qed.

(** *** Stores *)

Lemma merge_all d v : is_u64 d -> is_u64 v -> merge d 0 64 v = v.
Proof.
  intros Hd Hv. apply Z.bits_inj'. intros i Hi. rewrite merge_testbit by lia. rewrite Z.sub_0_r.
  destruct (Z.leb_spec 0 i), (Z.ltb_spec i (0 + 64)); cbn [andb]; try lia; try reflexivity.
  rewrite !(testbit_bound _ 64) by (assumption || lia). reflexivity.
Qed.
Lemma merge_low d o w m v : 0 <= o -> 0 <= w -> m = Z.ones w -> merge d o w (Z.land v m) = merge d o w v.
Proof. intros Ho Hw ->. unfold merge. rewrite <- Z.land_assoc, Z.land_diag. reflexivity. Qed.

Lemma store_switch_ok h f3 n : is_u64 (store_data (tm h)) -> is_u64 (rv2 h) -> 0 <= f3 < 4 -> func3 (lt h) = f3 ->
  n = access_bytes f3 -> in_cell (store_addr (tm h)) n ->
  let h' := store_switch h in
  ls_success (tm h') = true /\
  wb_data (tm h') = merge (store_data (tm h)) (8 * (store_addr (tm h) mod 8)) (8 * Z.of_nat n) (rv2 h) /\
  reg_file h' = reg_file h /\ PC h' = PC h.
Proof.
  intros Hd Hv Hf Hf3 -> Hc. unfold store_switch, in_cell in *. rewrite Hf3.
  pose proof (Z.mod_pos_bound (store_addr (tm h)) 8 ltac:(lia)) as Hm.
  assert (Hcases : f3 = 0 \/ f3 = 1 \/ f3 = 2 \/ f3 = 3) by lia.
  destruct Hcases as [->|[->|[->| ->]]]; cbn [Z.eqb Pos.eqb access_bytes orb] in *.
  - rewrite store_byte_spec, (merge_low _ _ _ 0xFF) by (reflexivity || assumption || lia). auto.
  - rewrite store_halfw_spec, (merge_low _ _ _ 0xFFFF) by (reflexivity || assumption || lia).
    rewrite (proj2 (Z.leb_le _ 6)) by lia. auto.
  - rewrite store_word_spec, (merge_low _ _ _ 0xFFFFFFFF) by (reflexivity || assumption || lia).
    rewrite (proj2 (Z.leb_le _ 4)) by lia. auto.
  - replace (store_addr (tm h) mod 8) with 0 by lia. cbn [Z.eqb].
    change (8 * 0) with 0. change (8 * Z.of_nat 8) with 64. rewrite merge_all by assumption. auto.
Qed.

(** The world after a store of [n] bytes of [v] at [a]. *)
Definition stored (w w' : world) (a : Z) (n : nat) (v : Z) : Prop :=
  (forall b, DRAM_BASE <= b < DRAM_BASE + DRAM_SIZE ->
    byte_at w' b = if (a <=? b) && (b <? a + Z.of_nat n) then byte_of v (b - a) else byte_at w b) /\
  global_store_gen w' = u64 (global_store_gen w + 1) /\
  clint w' = clint w /\ cout w' = cout w /\ uart_rx_byte w' = uart_rx_byte w /\ term w' = term w.

Definition put_cell (w : world) (i x : Z) : world :=
  { w with memory ::= (fun m => vec_put m i x); global_store_gen := u64 (global_store_gen w + 1) }.

Lemma put_cell_stored w a n v : in_cell a n -> stored w
  (put_cell w (dram_idx a) (merge (vec_get (memory w) (dram_idx a)) (8 * (a mod 8)) (8 * Z.of_nat n) v)) a n v.
Proof.
  intros Hc. unfold stored. repeat split. intros b Hb. unfold byte_at, put_cell. cbn. rewrite vec_get_put.
  change (match w with {| memory := m |} => m end) with (memory w).
  pose proof (Z.mod_pos_bound a 8 ltac:(lia)). pose proof (Z.mod_pos_bound b 8 ltac:(lia)). unfold in_cell in Hc.
  case_decide as E.
  - pose proof (dram_idx_inj _ _ E). rewrite merge_bytes by lia. unfold cell_write_byte. rewrite <- E.
    destruct (Z.leb_spec (a mod 8) (b mod 8)), (Z.ltb_spec (b mod 8) (a mod 8 + Z.of_nat n)),
      (Z.leb_spec a b), (Z.ltb_spec b (a + Z.of_nat n)); cbn [andb]; try lia; try reflexivity. f_equal. lia.
  - destruct (Z.leb_spec a b), (Z.ltb_spec b (a + Z.of_nat n)); cbn [andb]; try reflexivity.
    exfalso. apply E. destruct (dram_idx_same a (b - a)) as [E1 _]; [lia|lia|].
    replace (a + (b - a)) with b in E1 by lia. auto.
Qed.

Lemma exec_store_ok h w a f3 n : hart_wf h -> world_wf w -> func3 (lt h) = f3 -> 0 <= f3 < 4 -> n = access_bytes f3 ->
  a = Z.land (u64 (rv1 h + sign_extend (imm_s (lt h)) 12)) 0xffffffff -> in_dram_store a = true -> in_cell a n ->
  exists h' w', exec_store L (mkst _ h w) = Ok tt (mkst _ h' w') /\ reg_file h' = reg_file h /\ PC h' = PC h /\
    stored w w' a n (rv2 h).
Proof.
  intros Hh Hw Hf3 Hf Hn Ha Hd Hc. unfold exec_store. unfold bind at 1, get_hart, gets. cbn [hrt]. rewrite <- Ha.
  rewrite (bind_ok _ _ _ _ _ (on_hart_ok _ _ _)).
  replace (negb (a =? FIFO_ADDR_TX)) with true
    by (unfold in_dram_store, DRAM_BASE, FIFO_ADDR_TX in *; symmetry; apply negb_true_iff, Z.eqb_neq; lia).
  rewrite Hd. pose proof (vec_in_dram _ _ (wwf_size _ Hw) Hd) as Hin.
  unfold bind at 1, mem_at. cbn [wld]. rewrite Hin.
  rewrite (bind_ok _ _ _ _ _ (on_hart_ok _ _ _)), (bind_ok _ _ _ _ _ (on_hart_ok _ _ _)).
  set (d := vec_get (memory w) (dram_idx a)). set (h2 := { { h with tm -> store_addr := a } with tm -> store_data := d }).
  pose proof (wwf_mem _ Hw (dram_idx a)) as Hd64.
  destruct (store_switch_ok h2 f3 n Hd64 (rv2_u64 h Hh) Hf Hf3 Hn Hc) as (E1 & E2 & E3 & E4).
  unfold store_commit, bind at 1, get_hart, gets. cbn [hrt]. rewrite E1.
  unfold bind at 1, get_world, gets. cbn [wld].
  replace (vec_size (memory w) <=? dram_idx a) with false
    by (symmetry; apply Z.leb_gt; unfold vec_in in Hin; lia).
  unfold bind, mem_put. cbn [wld]. rewrite Hin, E2.
  eexists _, (put_cell w (dram_idx a) _). split; [reflexivity|]. repeat split; try assumption.
  apply put_cell_stored. exact Hc.
Qed.

(** *** Loads *)

(** The little-endian value of [n] bytes of memory. *)
Definition mem_value (w : world) (a : Z) (n : nat) : Z := le_value n (fun k => byte_at w (a + k)).

Lemma mem_value_cell w a n : in_cell a n ->
  mem_value w a n = cell_read n (vec_get (memory w) (dram_idx a)) (a mod 8).
Proof.
  intros Hc. unfold mem_value, cell_read. apply le_value_ext_bound. intros k Hk. unfold in_cell in Hc.
  unfold byte_at. destruct (dram_idx_same a k) as [-> ->]; [lia|lia|reflexivity].
Qed.
Lemma mem_value_range w a n : 0 <= mem_value w a n < 2 ^ (8 * Z.of_nat n).
Proof.
  unfold mem_value. assert (forall f, (forall k, is_u8 (f k)) -> 0 <= le_value n f < 2 ^ (8 * Z.of_nat n)).
  { induction n as [|n IH]; intros f Hf; cbn [le_value]; [change (2 ^ (8 * Z.of_nat 0)) with 1; lia|].
    specialize (IH (fun k => f (k + 1)) ltac:(intros; apply Hf)). pose proof (Hf 0) as H0. unfold is_u8 in H0.
    rewrite Nat2Z.inj_succ. replace (8 * Z.succ (Z.of_nat n)) with (8 + 8 * Z.of_nat n) by lia.
    rewrite Z.pow_add_r by lia. change (2 ^ 8) with 0x100. lia. }
  apply H0. intros. apply byte_at_range.
Qed.

Lemma sext_load n v : 0 < n <= 64 -> 0 <= v < 2 ^ n -> sign_extend v n = u64 (if v <? 2 ^ (n - 1) then v else v - 2 ^ n).
Proof. apply sign_extend_spec. Qed.

Lemma load_switch_ok h f3 n v : hart_wf h -> 0 <= f3 < 7 -> func3 (lt h) = f3 -> n = access_bytes f3 ->
  in_cell (load_addr (tm h)) n -> v = cell_read n (load_data (tm h)) (load_addr (tm h) mod 8) ->
  load_switch h = write_back (load_ext f3 v) h.
Proof.
  intros Hh Hf Hf3 -> Hc Hv. unfold load_switch, in_cell in *. rewrite Hf3.
  pose proof (twf_ld _ (hwf_tm h Hh)) as Hd. pose proof (Z.mod_pos_bound (load_addr (tm h)) 8 ltac:(lia)) as Hm.
  pose proof (cell_read_range (access_bytes f3) (load_data (tm h)) (load_addr (tm h) mod 8) ltac:(lia)) as Hr.
  rewrite <- Hv in Hr.
  assert (Hcases : f3 = 0 \/ f3 = 1 \/ f3 = 2 \/ f3 = 3 \/ f3 = 4 \/ f3 = 5 \/ f3 = 6) by lia.
  destruct Hcases as [->|[->|[->|[->|[->|[->| ->]]]]]]; cbn [Z.eqb Pos.eqb access_bytes orb load_ext] in *;
    change (8 * Z.of_nat 1) with 8 in *; change (8 * Z.of_nat 2) with 16 in *; change (8 * Z.of_nat 4) with 32 in *;
    rewrite ?load_byte_spec, ?load_halfw_spec, ?load_word_spec, ?(proj2 (Z.leb_le _ 6)), ?(proj2 (Z.leb_le _ 4)) by lia;
    cbn [fst snd]; rewrite <- ?Hv;
    rewrite ?(land_ones_mod v 8 0xFF), ?(land_ones_mod v 16 0xFFFF), ?(land_ones_mod v 32 0xFFFFFFFF), ?Z.mod_small
      by (lia || reflexivity); rewrite ?sext_load by lia; try reflexivity.
  replace (load_addr (tm h) mod 8) with 0 in * by lia. cbn [Z.eqb]. subst v. unfold cell_read.
  rewrite le_value_byte_of, Z.mul_0_r, Z.shiftr_0_r by lia. rewrite Z.mod_small by exact Hd. reflexivity.
Qed.

Lemma exec_load_ok h w a f3 n : hart_wf h -> world_wf w -> func3 (lt h) = f3 -> 0 <= f3 < 7 -> n = access_bytes f3 ->
  a = Z.land (u64 (rv1 h + sign_extend (imm11_0 (lt h)) 12)) 0xffffffff -> in_dram_store a = true -> in_cell a n ->
  exists h', exec_load L (mkst _ h w) = Ok tt (mkst _ h' w) /\ PC h' = PC h /\
    reg_file h' = <[Z.to_nat (rd (lt h)) := load_ext f3 (mem_value w a n)]> (reg_file h).
Proof.
  intros Hh Hw Hf3 Hf Hn Ha Hd Hc. unfold exec_load. unfold bind at 1, get_hart, gets. cbn [hrt]. rewrite <- Ha.
  rewrite (bind_ok _ _ _ _ _ (on_hart_ok _ _ _)).
  assert (Hrange : DRAM_BASE <= a < 0x100000000 /\ a < DRAM_BASE + DRAM_SIZE).
  { unfold in_dram_store, DRAM_BASE, DRAM_SIZE in *. lia. }
  assert (Ha64 : is_u64 a) by (unfold is_u64, DRAM_BASE in *; lia).
  replace (signed_value a <? 0) with false.
  2:{ symmetry. apply Z.ltb_ge. rewrite signed_value_s64 by assumption. unfold DRAM_BASE in *. word. }
  replace (negb (a =? FIFO_ADDR_RX) && negb (a =? FIFO_ADDR_TX) && negb (a =? FIFO_ADDR_STATUS)) with true
    by (unfold DRAM_BASE, FIFO_ADDR_RX, FIFO_ADDR_TX, FIFO_ADDR_STATUS in *; lia).
  replace (in_dram_load a) with true by (unfold in_dram_load, in_dram_store in *; lia).
  pose proof (vec_in_dram _ _ (wwf_size _ Hw) Hd) as Hin.
  set (d := vec_get (memory w) (dram_idx a)). set (h2 := set_load_data d { h with tm -> load_addr := a }).
  erewrite (bind_ok _ _ _ tt (mkst _ h2 w)).
  2:{ unfold bind, get_world, gets, mem_at. cbn [wld].
      replace (vec_size (memory w) <=? dram_idx a) with false by (symmetry; apply Z.leb_gt; unfold vec_in in Hin; lia).
      cbn [wld]. rewrite Hin. reflexivity. }
  rewrite on_hart_ok.
  assert (Hh2 : hart_wf h2).
  { pose proof (wwf_mem _ Hw (dram_idx a)). subst h2 d. unfold set_load_data.
    apply set_tm_fn_wf; [apply set_tm_fn_wf; [assumption|]|]; intros []; constructor; cbn; assumption. }
  rewrite (load_switch_ok h2 f3 n (mem_value w a n) Hh2 Hf Hf3 Hn Hc (mem_value_cell _ _ _ Hc)).
  eexists. split; [reflexivity|]. split; reflexivity.
Qed.
End Mem.

(** *** Whole steps *)

Section Steps.
Context `{Console} (L : bool).

(** A running hart that fetches a store to the bytes [addr], ..., [addr + n - 1]. *)
Record store_at_pc (f3 r2 r1 off : Z) (n : nat) (h : hart) (w : world) (regs : arch) (addr : Z) : Prop := {
  sp_quiet : quiet L (mkst _ h w);
  sp_word : word_at w (PC h) = STORE f3 r2 r1 off;
  sp_f3 : 0 <= f3 < 4; sp_r1 : is_reg r1; sp_r2 : is_reg r2; sp_off : imm12 off;
  sp_abs : abs h regs;
  sp_n : n = access_bytes f3;
  sp_addr : addr = u32 (xget regs r1 + off);
  sp_dram : in_dram_store addr = true;
  sp_cell : in_cell addr n }.

Lemma store_step f3 r2 r1 off n h w regs addr : store_at_pc f3 r2 r1 off n h w regs addr ->
  exists h' w', hart_step L (mkst _ h w) = Ok tt (mkst _ h' w') /\
    abs h' (mkarch (u64 (a_pc regs + 4)) (a_regs regs)) /\ stored w w' addr n (xget regs r2).
Proof.
  intros [Hq Hword Hf H1 H2 Ho Ha Hn Haddr Hd Hc].
  destruct (step_ready L h w Hq) as (h1 & Hr & Hstep). rewrite Hword in Hr. unfold STORE in Hr.
  destruct (decode_s_type (off mod 0x1000) r2 r1 f3 0x23 ltac:(lia) H1 H2 ltac:(lia) ltac:(zlia)) as (Hop & D1 & D2 & D3 & Di).
  pose proof (rdy_lt _ _ _ Hr) as Hlt.
  destruct (exec_store_ok L h1 w addr f3 n) as (h' & w' & He & Hregs & Hpc & Hst); try assumption.
  - apply Hr.
  - apply (q_wf _ _ Hq).
  - rewrite Hlt. exact D3.
  - unfold rv1. rewrite Hlt, D1, Di, sext12 by assumption. rewrite (ready_xget _ _ _ _ _ Hr Ha H1), u64_add_r.
    rewrite Haddr. symmetry. etransitivity; [apply land_MASK32|apply u32_u64].
  - exists h', w'. split; [|split].
    + rewrite Hstep. unfold exec_instr, bind at 1, get_hart, gets. cbn [hrt]. rewrite Hlt, Hop. exact He.
    + split; cbn [a_pc a_regs].
      * rewrite Hpc, (rdy_pc _ _ _ Hr), (proj1 Ha). reflexivity.
      * intros r H0. unfold reg. rewrite Hregs. rewrite <- (proj2 Ha r H0). apply (rdy_regs _ _ _ Hr r H0).
    + replace (xget regs r2) with (rv2 h1); [exact Hst|]. unfold rv2. rewrite Hlt, D2. eapply ready_xget; eassumption.
Qed.
End Steps.

(** ** Theorems *)

(** C2: A store instruction of 1, 2, 4 or 8 bytes, executed by a running hart at a
    DRAM address and within one 8-byte cell, changes exactly the named bytes of
    memory, in little-endian order, advances the store generation by one and the
    PC by 4, and keeps the registers. *)
Theorem hart_step_store `{Console} L h w regs f3 r2 r1 off n addr :
  store_at_pc L f3 r2 r1 off n h w regs addr ->
  exists h' w', hart_step L (mkst _ h w) = Ok tt (mkst _ h' w') /\
    abs h' (mkarch (u64 (a_pc regs + 4)) (a_regs regs)) /\ stored w w' addr n (xget regs r2).
Proof. apply store_step. Qed.
Lemma hart_step_store_witness :
  let h := boot_hart false 0 [(1, 0x80000106); (2, 0xAABBCCDDEEFF1122)] in
  let w := boot_world [(0, STORE 1 2 1 (-4))] (keys [] 0) in
  exists h' w', hart_step false (mkst _ h w) = Ok tt (mkst _ h' w') /\
    abs h' (mkarch 0x80000004 (reg h)) /\ stored w w' 0x80000102 2 0xAABBCCDDEEFF1122.
Proof.
  apply (hart_step_store false (boot_hart false 0 [(1, 0x80000106); (2, 0xAABBCCDDEEFF1122)])
    (boot_world [(0, STORE 1 2 1 (-4))] (keys [] 0)) (mkarch DRAM_BASE (reg (boot_hart false 0 [(1, 0x80000106); (2, 0xAABBCCDDEEFF1122)])))
    1 2 1 (-4) 2 0x80000102). split; try reflexivity; try (unfold is_reg, imm12; lia).
  - apply boot_quiet; [repeat constructor; vm_compute; congruence..|]. right. vm_compute. split; congruence.
  - apply abs_self.
  - vm_compute. congruence.
Defined.

(** C7: A load instruction executed by a running hart at a DRAM address, within
    one 8-byte cell, writes to [rd] the little-endian value of the named bytes,
    sign- or zero-extended as [func3] says, advances the PC by 4 and changes
    neither memory nor anything else the harts share. *)
Theorem hart_step_load `{Console} L h w regs f3 d r1 off n addr :
  quiet L (mkst _ h w) -> word_at w (PC h) = LOAD f3 d r1 off ->
  0 <= f3 < 7 -> is_reg d -> is_reg r1 -> imm12 off -> abs h regs -> n = access_bytes f3 ->
  addr = u32 (xget regs r1 + off) -> in_dram_store addr = true -> in_cell addr n ->
  exists h', hart_step L (mkst _ h w) = Ok tt (mkst _ h' w) /\
    abs h' (next regs d (load_ext f3 (mem_value w addr n))).
Proof.
  intros Hq Hword Hf Hd H1 Ho Ha Hn Haddr Hdr Hc.
  destruct (step_ready L h w Hq) as (h1 & Hr & Hstep). rewrite Hword in Hr. unfold LOAD in Hr.
  destruct (decode_i_type (off mod 0x1000) r1 f3 d 0x03 ltac:(lia) Hd H1 ltac:(lia) ltac:(zlia)) as (Hop & D0 & D1 & D3 & Di & _).
  pose proof (rdy_lt _ _ _ Hr) as Hlt.
  destruct (exec_load_ok L h1 w addr f3 n) as (h' & He & Hpc & Hregs); try assumption.
  - apply Hr.
  - apply (q_wf _ _ Hq).
  - rewrite Hlt. exact D3.
  - unfold rv1. rewrite Hlt, D1, Di, sext12 by assumption. rewrite (ready_xget _ _ _ _ _ Hr Ha H1), u64_add_r.
    rewrite Haddr. symmetry. etransitivity; [apply land_MASK32|apply u32_u64].
  - exists h'. split.
    + rewrite Hstep. unfold exec_instr, bind at 1, get_hart, gets. cbn [hrt]. rewrite Hlt, Hop. exact He.
    + rewrite Hlt, D0 in Hregs. eapply abs_insert; eassumption.
Qed.
Lemma hart_step_load_witness :
  let h := boot_hart false 0 [(1, 0x80000106)] in
  let w := boot_world [(0, LOAD 1 3 1 (-4)); (32, 0x11223344F5667788)] (keys [] 0) in
  exists h', hart_step false (mkst _ h w) = Ok tt (mkst _ h' w) /\
    abs h' (mkarch 0x80000004 (xput 3 0xFFFFFFFFFFFFF566 (reg h))).
Proof.
  apply (hart_step_load false (boot_hart false 0 [(1, 0x80000106)])
    (boot_world [(0, LOAD 1 3 1 (-4)); (32, 0x11223344F5667788)] (keys [] 0))
    (mkarch DRAM_BASE (reg (boot_hart false 0 [(1, 0x80000106)])))
    1 3 1 (-4) 2 0x80000102); try reflexivity; try (unfold is_reg, imm12; lia).
  - apply boot_quiet; [repeat constructor; vm_compute; congruence..|]. right. vm_compute. split; congruence.
  - apply abs_self.
  - vm_compute. congruence.
Defined.
