(* ===== verification/Traps.v ===== *)
(** * Traps, interrupts, parking and WFI

    What a trap entry saves and what MRET restores, when the step takes an
    interrupt and which one, and the two states in which a hart makes no progress. *)

From S2P Require Import Prelude Constants Alu MemAccess Csr Clint Hart Trap Execute Safety Boot Spec Refine.

(** ** Trap entry *)

(** The address interrupt [code] is delivered to. *)
Definition interrupt_vector (t : mtvec_t) (code : Z) : Z :=
  if mtvec_mode t =? 0 then mtvec_base t
  else if mtvec_mode t =? 1 then u64 (mtvec_base t + 4 * code) else 0.

(** [h'] has entered a trap from [h]: handler [target], return address [pc],
    the value [cause] in mcause, interrupts masked, the old state stacked. *)
Record entered (h h' : hart) (target pc cause : Z) : Prop := {
  ent_pc : PC h' = target;
  ent_mepc : mepc (cs h') = pc;
  ent_cause : mcause_read_reg (mcause (cs h')) = cause;
  ent_mode : cp h' = MMODE;
  ent_mie : ms_mie (mstatus (cs h')) = 0;
  ent_mpie : ms_mpie (mstatus (cs h')) = ms_mie (mstatus (cs h));
  ent_mpp : ms_mpp (mstatus (cs h')) = plevel_to_Z (cp h);
  ent_regs : reg_file h' = reg_file h;
  ent_tvec : mtvec (cs h') = mtvec (cs h) }.

Lemma cause_value intr code : is_bit intr -> 0 <= code < 16 ->
  mcause_read_reg {| mcause_interrupt := intr; mcause_ecode := code |} = intr * 2 ^ 63 + code.
Proof.
  unfold is_bit. intros Hi Hc. unfold mcause_read_reg; cbn -[Z.shiftl Z.add].
  rewrite Z.land_comm. change (Z.shiftl 1 63 - 1) with (Z.ones 63).
  rewrite Z.land_ones, Z.mod_small, Z.shiftl_mul_pow2 by lia.
  assert (intr = 0 \/ intr = 1) as [-> | ->] by lia; change (u64 (0 * 2 ^ 63)) with 0; change (u64 (1 * 2 ^ 63)) with (2 ^ 63);
    rewrite u64_id by (unfold is_u64; lia); lia.
Qed.

Lemma raise_exception_entered c h : 0 <= c < 16 ->
  entered h (raise_exception c c c h) (mtvec_base (mtvec (cs h))) (u64 (PC h - 4))
    (match cp h with UMODE | MMODE => c | _ => 0 end).
Proof.
  intros Hc. unfold raise_exception, excep_function.
  constructor; try reflexivity.
  transitivity (mcause_read_reg {| mcause_interrupt := 0; mcause_ecode := match cp h with UMODE => c | MMODE => c | _ => 0 end |}).
  - reflexivity.
  - rewrite cause_value by (unfold is_bit; destruct (cp h); lia). destruct (cp h); lia.
Qed.

Lemma raise_interrupt_entered c h : 0 <= c < 16 -> ms_mie (mstatus (cs h)) = 1 ->
  entered h (raise_interrupt c h) (interrupt_vector (mtvec (cs h)) c) (PC h) (2 ^ 63 + c).
Proof.
  intros Hc Hm. unfold raise_interrupt, interrupt_function. rewrite Hm. cbn [Z.eqb Pos.eqb].
  constructor; try reflexivity; [|symmetry; exact Hm].
  transitivity (mcause_read_reg {| mcause_interrupt := 1; mcause_ecode := c |}); [reflexivity|].
  rewrite cause_value by (unfold is_bit; lia). lia.
Qed.

(** ** Interrupt selection *)

Section Select.
Implicit Types h : hart.

Definition soft_ready h : bool := negb (MSIE (mie (cs h)) =? 0) && negb (MSIP (mip (cs h)) =? 0).
Definition timer_ready h : bool := negb (MTIE (mie (cs h)) =? 0) && negb (MTIP (mip (cs h)) =? 0).

Definition unreserved h : Prop :=
  amo_reserve_valid (rs h) = false /\ amo_reserve_valid64 (rs h) = false /\ in_wfi h = false.

Lemma drop_then_entered c h : 0 <= c < 16 -> ms_mie (mstatus (cs h)) = 1 ->
  entered h (raise_interrupt c (drop_reservations h)) (interrupt_vector (mtvec (cs h)) c) (PC h) (2 ^ 63 + c)
  /\ unreserved (raise_interrupt c (drop_reservations h)).
Proof.
  intros Hc Hm. destruct (raise_interrupt_entered c (drop_reservations h) Hc Hm). split; [constructor; assumption|].
  unfold raise_interrupt, interrupt_function.
  replace (ms_mie (mstatus (cs (drop_reservations h)))) with 1 by (symmetry; exact Hm).
  repeat split.
Qed.
End Select.

(** ** Waiting *)

Section Wait.
Context `{Console}.

Lemma park_waits h w : clint_wf (clint w) -> 0 <= u32 (mhartid (cs h)) < num_harts (clint w) ->
  smp_released h = false -> vnth (msip (clint w)) (u32 (mhartid (cs h))) = 0 ->
  park_check (mkst _ h w) = Ok (false, false) (mkst _ h w).
Proof.
  intros Hc Hid Hrel Hm. unfold park_check, bind, get_hart, gets, check_software. cbn [hrt wld].
  rewrite Hrel. cbn [hrt wld]. rewrite (check_software_defined _ _ Hc Hid), Hm. reflexivity.
Qed.

(** No interrupt that the hart enables is pending in the CLINT. *)
Definition nothing_pending (h : hart) (w : world) : Prop :=
  (MSIE (mie (cs h)) = 0 \/ vnth (msip (clint w)) (u32 (mhartid (cs h))) = 0) /\
  (MTIE (mie (cs h)) = 0 \/ mtime (clint w) < get_mtimecmp (clint w) (u32 (mhartid (cs h)))).

Lemma wfi_waits h w : clint_wf (clint w) -> 0 <= u32 (mhartid (cs h)) < num_harts (clint w) ->
  in_wfi h = true -> nothing_pending h w -> wfi_check (mkst _ h w) = Ok false (mkst _ h w).
Proof.
  intros Hc Hid Hw [Hs Ht]. unfold wfi_check, bind, get_hart, gets, check_software, check_timer. cbn [hrt wld].
  rewrite Hw. cbn [negb]. cbn [hrt wld]. pose proof (check_software_defined _ _ Hc Hid) as Esw.
  pose proof (check_timer_defined _ _ Hc Hid) as Etm.
  destruct (Z.eqb_spec (MSIE (mie (cs h))) 0) as [E1|E1].
  - destruct (Z.eqb_spec (MTIE (mie (cs h))) 0) as [E2|E2]; [reflexivity|].
    cbn. rewrite Etm, (proj2 (Z.leb_gt _ _)) by lia. reflexivity.
  - destruct Hs as [|Hs]; [lia|]. cbn. rewrite Esw, Hs. cbn.
    destruct (Z.eqb_spec (MTIE (mie (cs h))) 0) as [E2|E2]; [reflexivity|].
    cbn. rewrite Etm, (proj2 (Z.leb_gt _ _)) by lia. reflexivity.
Qed.

Lemma take_interrupts_none L h w t sw :
  nothing_pending h w -> t = (get_mtimecmp (clint w) (u32 (mhartid (cs h))) <=? mtime (clint w)) ->
  sw = negb (vnth (msip (clint w)) (u32 (mhartid (cs h))) =? 0) ->
  take_interrupts L false (set_mips t sw h) = set_mips t sw h.
Proof.
  intros [Hs Ht] -> ->. unfold take_interrupts. cbv zeta. destruct L; [reflexivity|]. cbn [orb].
  destruct (_ =? 0); [reflexivity|].
  replace (negb _ && negb _) with false; [replace (negb _ && negb _) with false; [reflexivity|]|].
  - cbn. destruct h as [? ? ? ? ? ? ? ? ? []]; cbn in *. destruct Ht as [-> |Ht]; [reflexivity|].
    rewrite (proj2 (Z.leb_gt _ _)) by lia. symmetry. apply andb_false_r.
  - cbn. destruct h as [? ? ? ? ? ? ? ? ? []]; cbn in *. destruct Hs as [-> |Hs]; [reflexivity|].
    rewrite Hs. symmetry. apply andb_false_r.
Qed.
End Wait.

(** ** Theorems *)

(** C4: MRET undoes an exception: the interrupted instruction's address, the
    privilege level and the interrupt enable come back, every general register is
    kept, and MPIE is left set and MPP clear. *)
Theorem exception_mret_roundtrip c h : hart_wf h -> 0 <= c < 16 ->
  let h' := mret (raise_exception c c c h) in
  PC h' = u64 (PC h - 4) /\ cp h' = cp h /\ ms_mie (mstatus (cs h')) = ms_mie (mstatus (cs h)) /\
  ms_mpie (mstatus (cs h')) = 1 /\ ms_mpp (mstatus (cs h')) = 0 /\ reg_file h' = reg_file h /\ hart_wf h'.
Proof.
  intros Hh Hc h'. pose proof (raise_exception_entered c h Hc) as [].
  split; [exact ent_mepc0|]. split.
  { change (plevel_of_Z (ms_mpp (mstatus (cs (raise_exception c c c h)))) = cp h). rewrite ent_mpp0. apply plevel_roundtrip. }
  split; [exact ent_mpie0|]. split; [reflexivity|]. split; [reflexivity|]. split; [exact ent_regs0|].
  apply mret_wf, raise_exception_wf; assumption.
Qed.
Lemma exception_mret_roundtrip_witness :
  let h := boot_hart true 0 [(1, 5)] in
  let h' := mret (raise_exception 11 11 11 h) in
  PC h' = u64 (PC h - 4) /\ cp h' = cp h /\ ms_mie (mstatus (cs h')) = ms_mie (mstatus (cs h)) /\
  ms_mpie (mstatus (cs h')) = 1 /\ ms_mpp (mstatus (cs h')) = 0 /\ reg_file h' = reg_file h /\ hart_wf h'.
Proof.
  apply (exception_mret_roundtrip 11 (boot_hart true 0 [(1, 5)])); [|lia].
  apply boot_hart_wf; [unfold is_u64; lia|repeat constructor; vm_compute; congruence].
Defined.

(** C11: With interrupts enabled and outside the bring-up window, the standalone
    step enters the software interrupt when it is enabled and pending, else the
    timer interrupt when it is enabled and pending, else leaves the hart alone;
    entering an interrupt drops both LR reservations and ends WFI. *)
Theorem interrupt_priority h : ms_mie (mstatus (cs h)) = 1 -> post_kick_protect h = 0 ->
  let h' := take_interrupts false false h in
  if soft_ready h then
    entered h h' (interrupt_vector (mtvec (cs h)) 3) (PC h) (2 ^ 63 + 3) /\ unreserved h'
  else if timer_ready h then
    entered h h' (interrupt_vector (mtvec (cs h)) 7) (PC h) (2 ^ 63 + 7) /\ unreserved h'
  else h' = h.
Proof.
  intros Hm Hp h'. subst h'. unfold take_interrupts. cbv zeta. rewrite Hm, Hp. cbn [orb Z.eqb Z.ltb Z.compare].
  fold (soft_ready h). fold (timer_ready h).
  destruct (soft_ready h); [apply drop_then_entered; [lia|assumption]|].
  destruct (timer_ready h); [apply drop_then_entered; [lia|assumption]|reflexivity].
Qed.

(** A hart with both interrupts enabled and pending, vectored mode. *)
Definition pending_hart : hart :=
  set_mips true true { (hart_init false 0) with
    cs -> mstatus -> ms_mie := 1; cs -> mie := mie_write_reg 0x88; cs -> mtvec := mtvec_write_reg 0x80001001 }.
Lemma interrupt_priority_witness :
  let h' := take_interrupts false false pending_hart in
  entered pending_hart h' 0x8000100C DRAM_BASE (2 ^ 63 + 3) /\ unreserved h'.
Proof. exact (interrupt_priority pending_hart eq_refl eq_refl). Defined.

(** Masked interrupts are never taken: with MSTATUS.MIE clear, or in the
    LOCKSTEP build, or in the step that releases a parked hart, the take-over is
    the identity. *)
Theorem interrupts_masked L skip h :
  L = true \/ skip = true \/ ms_mie (mstatus (cs h)) = 0 -> take_interrupts L skip h = h.
Proof.
  unfold take_interrupts. intros [-> |[-> |E]]; [reflexivity|rewrite orb_true_r; reflexivity|].
  rewrite E. destruct (L || skip); reflexivity.
Qed.
Lemma interrupts_masked_witness : take_interrupts false true pending_hart = pending_hart.
Proof. apply interrupts_masked. right. left. reflexivity. Defined.

(** A secondary hart that has not been released and has no software
    interrupt pending stays parked: its step changes nothing but the hard-wired
    zero register, in particular neither its PC nor memory. *)
Theorem parked_hart_waits `{Console} L h w :
  clint_wf (clint w) -> 0 <= u32 (mhartid (cs h)) < num_harts (clint w) ->
  smp_released h = false -> vnth (msip (clint w)) (u32 (mhartid (cs h))) = 0 ->
  hart_step L (mkst _ h w) = Ok tt (mkst _ (set_reg 0 0 h) w).
Proof.
  intros Hc Hid Hrel Hm. unfold hart_step.
  rewrite (bind_ok _ _ _ _ _ (on_hart_ok _ _ _)).
  rewrite (bind_ok _ _ _ _ _ (park_waits (set_reg 0 0 h) w Hc Hid Hrel Hm)). reflexivity.
Qed.
Lemma parked_hart_waits_witness :
  let s := boot false 2 [] (keys [] 0) in
  hart_step false s = Ok tt (mkst _ (set_reg 0 0 (hrt s)) (wld s)).
Proof.
  apply (parked_hart_waits false (hrt (boot false 2 [] (keys [] 0))) (wld (boot false 2 [] (keys [] 0)))).
  - apply CLINT_new_wf. lia.
  - vm_compute. split; congruence.
  - reflexivity.
  - reflexivity.
Defined.

(** A hart in WFI with no enabled interrupt pending stays in WFI: its step
    keeps the PC, the registers and everything shared, whether or not interrupts
    are globally enabled. *)
Theorem wfi_hart_waits `{Console} L h w :
  clint_wf (clint w) -> 0 <= u32 (mhartid (cs h)) < num_harts (clint w) ->
  smp_released h = true -> in_wfi h = true -> nothing_pending h w ->
  exists h', hart_step L (mkst _ h w) = Ok tt (mkst _ h' w) /\
    PC h' = PC h /\ in_wfi h' = true /\ reg_file h' = <[0%nat := 0]> (reg_file h).
Proof.
  intros Hc Hid Hrel Hw Hn. unfold hart_step.
  pose proof (check_timer_defined _ _ Hc Hid) as Ht. pose proof (check_software_defined _ _ Hc Hid) as Hs.
  set (t := get_mtimecmp _ _ <=? _) in Ht. set (sw := negb _) in Hs.
  rewrite (bind_ok _ _ _ _ _ (on_hart_ok _ _ _)).
  rewrite (bind_ok _ _ _ _ _ (park_ok (set_reg 0 0 h) w Hrel)). cbn [fst snd].
  rewrite (bind_ok _ _ _ _ _ (refresh_ok (set_reg 0 0 h) _ _ _ Ht Hs)).
  rewrite (bind_ok _ _ _ _ _ (on_hart_ok _ _ _)), (take_interrupts_none L (set_reg 0 0 h) w t sw Hn eq_refl eq_refl).
  rewrite (bind_ok _ _ _ _ _ (on_hart_ok _ _ _)).
  set (h2 := decay_protect _).
  assert (E : in_wfi h2 = true /\ PC h2 = PC h /\ mie (cs h2) = mie (cs h) /\ mhartid (cs h2) = mhartid (cs h) /\
    reg_file h2 = <[0%nat := 0]> (reg_file h)).
  { subst h2. unfold decay_protect. destruct (_ <? _); auto. }
  destruct E as (E1 & E2 & E3 & E4 & E5).
  rewrite (bind_ok _ _ _ _ _ (wfi_waits h2 w Hc ltac:(rewrite E4; exact Hid) E1 ltac:(unfold nothing_pending; rewrite E3, E4; exact Hn))).
  exists h2. auto.
Qed.
Lemma wfi_hart_waits_witness :
  let h := { (hart_init false 0) with in_wfi := true; cs -> mie := mie_write_reg 0x88 } in
  let w := boot_world [] (keys [] 0) in
  exists h', hart_step false (mkst _ h w) = Ok tt (mkst _ h' w) /\
    PC h' = PC h /\ in_wfi h' = true /\ reg_file h' = <[0%nat := 0]> (reg_file h).
Proof.
  apply (wfi_hart_waits false { (hart_init false 0) with in_wfi := true; cs -> mie := mie_write_reg 0x88 } (boot_world [] (keys [] 0))).
  - apply CLINT_new_wf. lia.
  - vm_compute. split; congruence.
  - reflexivity.
  - reflexivity.
  - split; right; vm_compute; reflexivity.
Defined.
