(* ===== verification/Atomics.v ===== *)
(** * Atomics: AMOs and LR/SC

    The word AMOs against their specification, the exact success condition of
    SC.W, the effect of another hart's store between LR.W and SC.W, and the
    doubleword SC, which does not look at the store generation. *)

From S2P Require Import Prelude Constants Alu MemAccess Csr Clint Hart Trap Execute Safety Boot Spec Refine MemInstr.

(** ** Encoding and specification *)

(** [funct5] with the aq and rl bits [ar]; [f3] is 2 for words, 3 for doublewords. *)
Definition AMO (op ar f3 d r1 r2 : Z) : Z := r_type (4 * op + ar) r2 r1 f3 d 0x2f.

(** The value an AMO stores, on the unsigned operands of width [m = 2 ^ n]. *)
Definition amo_spec (sgn : Z -> Z) (m op old v : Z) : Z :=
  if op =? 0x00 then (old + v) mod m
  else if op =? 0x01 then v
  else if op =? 0x04 then Z.lxor old v
  else if op =? 0x08 then Z.lor old v
  else if op =? 0x0c then Z.land old v
  else if op =? 0x10 then (if sgn old <=? sgn v then old else v)
  else if op =? 0x14 then (if sgn old <=? sgn v then v else old)
  else if op =? 0x18 then (if old <=? v then old else v)
  else (if old <=? v then v else old).

Lemma decode_amo op ar f3 d r1 r2 :
  0 <= op < 32 -> 0 <= ar < 4 -> 0 <= f3 < 8 -> is_reg d -> is_reg r1 -> is_reg r2 ->
  let l := decode (AMO op ar f3 d r1 r2) in
  opcode l = 0x2f /\ rd l = d /\ rs1 l = r1 /\ rs2 l = r2 /\ func3 l = f3 /\ amo_op l = op.
Proof.
  intros Ho Har Hf Hd H1 H2. unfold AMO.
  destruct (decode_r_type (4 * op + ar) r2 r1 f3 d 0x2f ltac:(lia) Hd H1 H2 Hf ltac:(lia)) as (A & B & C & D & E & _).
  repeat split; try assumption.
  cbn -[Z.land Z.shiftr Z.mul Z.add]. unfold r_type, is_reg in *. mask_to_mod. zlia.
Qed.

Lemma u64_small z m : 0 <= z < m -> m <= 0x10000000000000000 -> u64 z = z.
Proof. intros. apply u64_id. unfold is_u64. lia. Qed.

Lemma u32_u64_s32 z : u32 (u64 (s32 z)) = u32 z.
Proof. word. Qed.

Lemma amow_result_spec op w v : is_rmw op = true -> is_u32 w -> is_u32 v ->
  amow_result op w v = amo_spec s32 0x100000000 op w v.
Proof.
  intros Hop Hw Hv. unfold amow_result, amo_spec, is_rmw in *. rewrite !land_MASK32.
  rewrite !signed_value32_s32 by (apply Hw || apply Hv).
  pose proof (lxor_range w v 32 ltac:(lia) Hw Hv) as Hx. pose proof (lor_range w v 32 ltac:(lia) Hw Hv) as Ho.
  pose proof (land_range w v 32 ltac:(lia) Hw) as Ha.
  destruct (Z.eqb_spec op 1) as [->|]; [reflexivity|].
  destruct (Z.eqb_spec op 0) as [->|]; [apply u32_u64|].
  destruct (Z.eqb_spec op 4) as [->|]; [apply u32_id, Hx|].
  destruct (Z.eqb_spec op 12) as [->|]; [apply u32_id, Ha|].
  destruct (Z.eqb_spec op 8) as [->|]; [apply u32_id, Ho|].
  assert (forall b : bool, u32 (u64 (if b then s32 w else s32 v)) = if b then w else v) as Hs.
  { intros b. destruct b; rewrite u32_u64_s32; apply u32_id; assumption. }
  destruct (Z.eqb_spec op 16) as [->|].
  { unfold Z.min. rewrite Z.leb_compare. destruct (s32 w ?= s32 v); rewrite u32_u64_s32; apply u32_id; assumption. }
  destruct (Z.eqb_spec op 20) as [->|].
  { unfold Z.max. rewrite Z.leb_compare. destruct (Z.compare_spec (s32 w) (s32 v)) as [E| |];
      rewrite u32_u64_s32; rewrite u32_id by assumption; try reflexivity.
    rewrite <- (u32_id w), <- (u32_id v), <- (u32_s32 w), <- (u32_s32 v), E by assumption. reflexivity. }
  destruct (Z.eqb_spec op 24) as [->|].
  { unfold Z.min. rewrite Z.leb_compare. destruct (w ?= v); apply u32_id; assumption. }
  unfold Z.max. rewrite Z.leb_compare.
  destruct (Z.compare_spec w v) as [E| |]; try (apply u32_id; assumption). subst. apply u32_id; assumption.
Qed.

Section Atomics.
Context `{Console}.
Local Open Scope prog_scope.

(** The hart with the address and the cell latched, at which the operation runs. *)
Definition amo_latched (a d : Z) (h : hart) : hart := set_load_data d { h with tm -> load_addr := a }.
Definition amow_body (op : Z) : M st unit :=
  if op =? 0x02 then exec_lr_w else if op =? 0x03 then exec_sc_w else when (is_rmw op) (exec_amo_rmw_w op).

Lemma exec_amo_w_frame h w a : world_wf w -> func3 (lt h) = 2 ->
  a = Z.land (rv1 h) 0xffffffff -> in_dram_amo a = true ->
  exec_amo (mkst _ h w) =
    (amow_body (amo_op (lt h)) ;;; on_hart (fun h => set_rd (ret_data (tm h)) h))
      (mkst _ (amo_latched a (vec_get (memory w) (dram_idx a)) h) w).
Proof.
  intros Hw Hf Ha Hd. pose proof (vec_in_dram _ _ (wwf_size _ Hw) (in_dram_amo_store _ Hd)) as Hin.
  unfold exec_amo, bind at 1, get_hart, gets. cbn [hrt]. rewrite Hf. cbn [Z.eqb Pos.eqb].
  unfold exec_amo_w, bind at 1, get_hart, gets. cbn [hrt]. rewrite <- Ha.
  rewrite (bind_ok _ _ _ _ _ (on_hart_ok _ _ _)), Hd. cbn [negb].
  unfold bind at 1, mem_at. cbn [wld]. rewrite Hin. reflexivity.
Qed.

Lemma amo_latched_wf a d h : hart_wf h -> is_u64 a -> is_u64 d -> hart_wf (amo_latched a d h).
Proof.
  intros. unfold amo_latched, set_load_data.
  apply set_tm_fn_wf; [apply set_tm_fn_wf; [assumption|]|]; intros []; constructor; cbn; assumption.
Qed.

Lemma cell_leb a : in_cell a 4 -> (a mod 8 <=? 4) = true.
Proof. unfold in_cell. intros. apply Z.leb_le. lia. Qed.
Lemma load_word_cell w a : in_cell a 4 -> load_word a (vec_get (memory w) (dram_idx a)) = (true, mem_value w a 4).
Proof.
  intros Hc. rewrite load_word_spec. rewrite (cell_leb _ Hc).
  rewrite <- mem_value_cell by exact Hc. reflexivity.
Qed.

(** The read-modify-write of a word. *)
Lemma exec_rmw_w_ok h w a op : hart_wf h -> world_wf w -> is_rmw op = true -> in_dram_store a = true -> in_cell a 4 ->
  let h2 := amo_latched a (vec_get (memory w) (dram_idx a)) h in
  let old := mem_value w a 4 in
  exists h', exec_amo_rmw_w op (mkst _ h2 w) =
      Ok tt (mkst _ h' (put_cell w (dram_idx a)
        (merge (vec_get (memory w) (dram_idx a)) (8 * (a mod 8)) (8 * Z.of_nat 4) (amo_spec s32 0x100000000 op old (u32 (rv2 h)))))) /\
    ret_data (tm h') = sext32 old /\ reg_file h' = reg_file h /\ PC h' = PC h /\ lt h' = lt h.
Proof.
  intros Hh Hw Hop Hd Hc h2 old. pose proof (wwf_mem _ Hw (dram_idx a)) as Hd64.
  assert (Hold : is_u32 old) by (pose proof (mem_value_range w a 4) as Hr; exact Hr).
  unfold exec_amo_rmw_w. unfold bind at 1, get_hart, gets. cbn [hrt].
  change (load_addr (tm h2)) with a. change (load_data (tm h2)) with (vec_get (memory w) (dram_idx a)).
  rewrite (load_word_cell w a Hc). rewrite (bind_ok _ _ _ _ _ (on_hart_ok _ _ _)).
  unfold bind at 1, get_hart, gets. cbn [hrt]. set (h3 := set_ls (true, mem_value w a 4) h2).
  change (ls_success (tm h3)) with true. change (wb_data (tm h3)) with old. change (rv2 h3) with (rv2 h).
  change (load_data (tm h3)) with (vec_get (memory w) (dram_idx a)).
  cbv iota zeta. rewrite !land_MASK32, (u32_id old) by assumption.
  rewrite amow_result_spec by (assumption || apply u32_range).
  rewrite store_word_spec by assumption. rewrite (cell_leb _ Hc). cbn [fst snd].
  rewrite (bind_ok _ _ _ _ _ (on_hart_ok _ _ _)).
  unfold amo_store, bind, mem_put. cbn [wld]. rewrite (vec_in_dram _ _ (wwf_size _ Hw) Hd).
  eexists. split; [reflexivity|]. split; [|split; [|split]; reflexivity].
  change (sign_extend old 32 = sext32 old). apply sext_id32. assumption.
Qed.

(** SC.W succeeds exactly when this holds. *)
Definition sc_w_ok (h : hart) (w : world) (x : Z) : bool :=
  amo_reserve_valid (rs h) && (x =? amo_reserve_addr (rs h)) && (amo_reserve_gen (rs h) =? global_store_gen w).

Lemma exec_sc_w_ok h w a : world_wf w -> in_dram_store a = true -> in_cell a 4 ->
  let h2 := amo_latched a (vec_get (memory w) (dram_idx a)) h in
  exists h' w', exec_sc_w (mkst _ h2 w) = Ok tt (mkst _ h' w') /\
    (if sc_w_ok h w (rv1 h)
     then ret_data (tm h') = 0 /\ stored w w' a 4 (rv2 h)
     else ret_data (tm h') = 1 /\ w' = w) /\
    amo_reserve_valid (rs h') = false /\ reg_file h' = reg_file h /\ PC h' = PC h /\ lt h' = lt h.
Proof.
  intros Hw Hd Hc h2. pose proof (wwf_mem _ Hw (dram_idx a)) as Hd64.
  unfold exec_sc_w. unfold bind at 1, get_hart, gets. cbn [hrt]. unfold bind at 1, get_world, gets. cbn [wld].
  change (rs h2) with (rs h). change (rv1 h2) with (rv1 h). change (rv2 h2) with (rv2 h).
  change (load_addr (tm h2)) with a. change (load_data (tm h2)) with (vec_get (memory w) (dram_idx a)).
  fold (sc_w_ok h w (rv1 h)). destruct (sc_w_ok h w (rv1 h)).
  - cbv zeta. rewrite store_word_spec by assumption. rewrite (cell_leb _ Hc). cbn [fst snd].
    pose proof (Z.mod_pos_bound a 8 ltac:(lia)). rewrite (merge_low _ _ _ MASK32) by (reflexivity || lia).
    unfold bind at 1 2. rewrite on_hart_ok.
    unfold amo_store, bind, mem_put. cbn [wld]. rewrite (vec_in_dram _ _ (wwf_size _ Hw) Hd).
    eexists _, (put_cell w (dram_idx a) _). split; [reflexivity|]. split; [split; [reflexivity|]|repeat split].
    apply put_cell_stored. exact Hc.
  - rewrite (bind_ok _ _ _ _ _ (on_hart_ok _ _ _)). eexists _, w. split; [reflexivity|]. repeat split.
Qed.

Lemma exec_lr_w_ok h w a : world_wf w -> in_cell a 4 ->
  let h2 := amo_latched a (vec_get (memory w) (dram_idx a)) h in
  exists h', exec_lr_w (mkst _ h2 w) = Ok tt (mkst _ h' w) /\
    ret_data (tm h') = sext32 (mem_value w a 4) /\
    amo_reserve_valid (rs h') = true /\ amo_reserve_addr (rs h') = a /\ amo_reserve_gen (rs h') = global_store_gen w /\
    reg_file h' = reg_file h /\ PC h' = PC h /\ lt h' = lt h.
Proof.
  intros Hw Hc h2. unfold exec_lr_w. rewrite (bind_ok _ _ _ _ _ (on_hart_ok _ _ _)).
  change (load_addr (tm h2)) with a. change (load_data (tm h2)) with (vec_get (memory w) (dram_idx a)).
  rewrite (load_word_cell w a Hc). unfold bind at 1, get_hart, gets. cbn [hrt].
  unfold bind at 1, get_world, gets. cbn [wld]. rewrite on_hart_ok.
  change (ls_success (tm (set_ls (true, mem_value w a 4) h2))) with true. cbv iota.
  eexists. split; [reflexivity|]. split; [|repeat split].
  change (sign_extend (Z.land (mem_value w a 4) MASK32) 32 = sext32 (mem_value w a 4)). apply sext32_spec.
Qed.
End Atomics.

Section AmoStep.
Context `{Console} (L : bool).
Local Open Scope prog_scope.

(** A running hart that fetches a word atomic whose address is in DRAM. *)
Record amo_at_pc (op ar d r1 r2 : Z) (h : hart) (w : world) (regs : arch) (addr : Z) : Prop := {
  ap_quiet : quiet L (mkst _ h w);
  ap_word : word_at w (PC h) = AMO op ar 2 d r1 r2;
  ap_op : 0 <= op < 32; ap_ar : 0 <= ar < 4; ap_d : is_reg d; ap_r1 : is_reg r1; ap_r2 : is_reg r2;
  ap_abs : abs h regs;
  ap_addr : addr = u32 (xget regs r1);
  ap_dram : in_dram_amo addr = true;
  ap_cell : in_cell addr 4 }.

Lemma amo_step op ar d r1 r2 h w regs addr : amo_at_pc op ar d r1 r2 h w regs addr ->
  exists h1, ready (AMO op ar 2 d r1 r2) h h1 /\ rd (lt h1) = d /\ rv1 h1 = xget regs r1 /\ rv2 h1 = xget regs r2 /\
    hart_step L (mkst _ h w) =
      (amow_body op ;;; on_hart (fun h => set_rd (ret_data (tm h)) h))
        (mkst _ (amo_latched addr (vec_get (memory w) (dram_idx addr)) h1) w).
Proof.
  intros [Hq Hword Ho Har Hd H1 H2 Ha Haddr Hdr Hc].
  destruct (step_ready L h w Hq) as (h1 & Hr & Hstep). rewrite Hword in Hr.
  destruct (decode_amo op ar 2 d r1 r2 Ho Har ltac:(lia) Hd H1 H2) as (Hop & D0 & D1 & D2 & D3 & D4).
  pose proof (rdy_lt _ _ _ Hr) as Hlt.
  assert (E1 : rv1 h1 = xget regs r1) by (unfold rv1; rewrite Hlt, D1; eapply ready_xget; eassumption).
  assert (E2 : rv2 h1 = xget regs r2) by (unfold rv2; rewrite Hlt, D2; eapply ready_xget; eassumption).
  exists h1. rewrite Hlt. split; [assumption|]. split; [assumption|]. split; [assumption|]. split; [assumption|].
  rewrite Hstep. unfold exec_instr, bind at 1, get_hart, gets. cbn [hrt]. rewrite Hlt, Hop. cbn [Z.eqb Pos.eqb].
  change (exec_amo (mkst _ h1 w) = (amow_body op ;;; on_hart (fun h => set_rd (ret_data (tm h)) h))
    (mkst _ (amo_latched addr (vec_get (memory w) (dram_idx addr)) h1) w)).
  rewrite (exec_amo_w_frame h1 w addr); [rewrite Hlt, D4; reflexivity| | | |assumption].
  - apply (q_wf _ _ Hq).
  - rewrite Hlt. exact D3.
  - rewrite E1, Haddr. symmetry. apply land_MASK32.
Qed.

(** The end of the step: [rd] receives [ret_data]. *)
Lemma amo_finish op ar d r1 r2 h h1 h' regs v : ready (AMO op ar 2 d r1 r2) h h1 -> abs h regs -> is_reg d ->
  rd (lt h1) = d -> ret_data (tm h') = v -> reg_file h' = reg_file h1 -> PC h' = PC h1 -> lt h' = lt h1 ->
  abs (set_rd (ret_data (tm h')) h') (next regs d v).
Proof.
  intros Hr Ha Hd Hrd <- Hregs Hpc Hlt. eapply abs_insert; [exact Hr|exact Ha|exact Hd|exact Hpc|].
  unfold set_rd. rewrite Hlt, Hrd, <- Hregs. reflexivity.
Qed.

Lemma sc_w_step ar d r1 r2 h w regs addr : amo_at_pc 3 ar d r1 r2 h w regs addr ->
  exists h' w', hart_step L (mkst _ h w) = Ok tt (mkst _ h' w') /\ amo_reserve_valid (rs h') = false /\
    (if sc_w_ok h w (xget regs r1)
     then abs h' (next regs d 0) /\ stored w w' addr 4 (xget regs r2)
     else abs h' (next regs d 1) /\ w' = w).
Proof.
  intros Hat. destruct (amo_step _ _ _ _ _ _ _ _ _ Hat) as (h1 & Hr & Hrd & E1 & E2 & Hstep).
  destruct Hat as [Hq _ _ _ Hd _ _ Ha _ Hdr Hc].
  destruct (exec_sc_w_ok h1 w addr (swf_world _ (q_wf _ _ Hq)) (in_dram_amo_store _ Hdr) Hc)
    as (h' & w' & He & Hres & Hv & Hregs & Hpc & Hlt).
  exists (set_rd (ret_data (tm h')) h'), w'. split; [|split].
  - rewrite Hstep. unfold amow_body. cbn [Z.eqb Pos.eqb]. rewrite (bind_ok _ _ _ _ _ He). reflexivity.
  - exact Hv.
  - rewrite E1, E2 in Hres. unfold sc_w_ok in *. rewrite (rdy_rs _ _ _ Hr) in Hres.
    destruct (_ && _); destruct Hres as [Hret Hmem]; (split; [|exact Hmem]); eapply amo_finish; eassumption.
Qed.

Lemma lr_w_step ar d r1 r2 h w regs addr : amo_at_pc 2 ar d r1 r2 h w regs addr ->
  exists h', hart_step L (mkst _ h w) = Ok tt (mkst _ h' w) /\
    abs h' (next regs d (sext32 (mem_value w addr 4))) /\
    amo_reserve_valid (rs h') = true /\ amo_reserve_addr (rs h') = addr /\ amo_reserve_gen (rs h') = global_store_gen w.
Proof.
  intros Hat. destruct (amo_step _ _ _ _ _ _ _ _ _ Hat) as (h1 & Hr & Hrd & E1 & E2 & Hstep).
  destruct Hat as [Hq _ _ _ Hd _ _ Ha _ Hdr Hc].
  destruct (exec_lr_w_ok h1 w addr (swf_world _ (q_wf _ _ Hq)) Hc) as (h' & He & Hret & V1 & V2 & V3 & Hregs & Hpc & Hlt).
  exists (set_rd (ret_data (tm h')) h'). split; [|split; [|split; [exact V1|split; [exact V2|exact V3]]]].
  - rewrite Hstep. unfold amow_body. cbn [Z.eqb Pos.eqb]. rewrite (bind_ok _ _ _ _ _ He). reflexivity.
  - eapply amo_finish; eassumption.
Qed.
End AmoStep.

(** ** Theorems *)

(** C8: An AMO on a word (swap, add, xor, and, or, min, max, minu, maxu),
    executed by a running hart, returns the sign-extended old word in [rd],
    stores the specified function of the old word and the low half of [rs2] in
    exactly those four bytes, and advances the store generation. *)
Theorem hart_step_amo_w `{Console} L op ar d r1 r2 h w regs addr :
  amo_at_pc L op ar d r1 r2 h w regs addr -> is_rmw op = true ->
  let old := mem_value w addr 4 in
  exists h' w', hart_step L (mkst _ h w) = Ok tt (mkst _ h' w') /\ abs h' (next regs d (sext32 old)) /\
    stored w w' addr 4 (amo_spec s32 0x100000000 op old (u32 (xget regs r2))).
Proof.
  intros Hat Hop old. destruct (amo_step L _ _ _ _ _ _ _ _ _ Hat) as (h1 & Hr & Hrd & E1 & E2 & Hstep).
  destruct Hat as [Hq _ _ _ Hd _ _ Ha _ Hdr Hc].
  destruct (exec_rmw_w_ok h1 w addr op (rdy_wf _ _ _ Hr) (swf_world _ (q_wf _ _ Hq)) Hop (in_dram_amo_store _ Hdr) Hc)
    as (h' & He & Hret & Hregs & Hpc & Hlt).
  eexists (set_rd (ret_data (tm h')) h'), _. split; [|split].
  - rewrite Hstep. unfold amow_body.
    destruct (Z.eqb_spec op 2) as [->|]; [discriminate Hop|]. destruct (Z.eqb_spec op 3) as [->|]; [discriminate Hop|].
    rewrite Hop. cbn [when]. rewrite (bind_ok _ _ _ _ _ He). reflexivity.
  - eapply amo_finish; eassumption.
  - rewrite E2. apply put_cell_stored. exact Hc.
Qed.

(** Hart 0 about to run atomic [op] of the first cell on the word at 0x80000104. *)
Definition amo_regs : list (Z * Z) := [(1, 0x80000104); (2, 0xFFFFFFFFFFFFFFFE)].
Definition amo_world (op : Z) : world :=
  boot_world [(0, AMO op 0 2 5 1 2); (32, 0x8000000012345678)] (keys [] 0).
Lemma amo_at_boot op : 0 <= op < 32 ->
  amo_at_pc false op 0 5 1 2 (boot_hart false 0 amo_regs) (amo_world op)
    (mkarch DRAM_BASE (reg (boot_hart false 0 amo_regs))) 0x80000104.
Proof.
  intros Hop. assert (Hw : is_u32 (AMO op 0 2 5 1 2) /\ AMO op 0 2 5 1 2 <> 0x18513 /\ AMO op 0 2 5 1 2 <> 0x73)
    by (unfold AMO, r_type, is_u32; lia). destruct Hw as (Hw & Hn1 & Hn2).
  assert (Hword : word_at (amo_world op) DRAM_BASE = AMO op 0 2 5 1 2) by (apply u32_id, Hw).
  split; try reflexivity; try (unfold is_reg; lia).
  - apply boot_quiet; [repeat constructor; vm_compute; congruence..| |].
    + repeat constructor; cbn [snd]; unfold is_u64, is_u32 in *; lia.
    + right. fold (amo_world op). rewrite Hword. auto.
  - exact Hword.
  - apply abs_self.
  - vm_compute. congruence.
Qed.
Lemma hart_step_amo_w_witness :
  let h := boot_hart false 0 amo_regs in
  let w := amo_world 0x14 in
  exists h' w', hart_step false (mkst _ h w) = Ok tt (mkst _ h' w') /\
    abs h' (next (mkarch DRAM_BASE (reg h)) 5 0xFFFFFFFF80000000) /\ stored w w' 0x80000104 4 0xFFFFFFFE.
Proof. apply (hart_step_amo_w false 0x14 0 5 1 2 _ _ _ _ (amo_at_boot 0x14 ltac:(lia))). reflexivity. Defined.

(** C3: SC.W stores and returns 0 exactly when the hart holds a word reservation
    for that address and no store has been made by any hart since its LR.W
    (the generations agree); otherwise it returns 1 and changes no memory. It
    ends the reservation either way. *)
Theorem hart_step_sc_w `{Console} L ar d r1 r2 h w regs addr :
  amo_at_pc L 3 ar d r1 r2 h w regs addr ->
  exists h' w', hart_step L (mkst _ h w) = Ok tt (mkst _ h' w') /\ amo_reserve_valid (rs h') = false /\
    (if amo_reserve_valid (rs h) && (xget regs r1 =? amo_reserve_addr (rs h))
        && (amo_reserve_gen (rs h) =? global_store_gen w)
     then abs h' (next regs d 0) /\ stored w w' addr 4 (xget regs r2)
     else abs h' (next regs d 1) /\ w' = w).
Proof. apply sc_w_step. Qed.
Lemma hart_step_sc_w_witness :
  let h := boot_hart false 0 amo_regs in
  let w := amo_world 3 in
  exists h' w', hart_step false (mkst _ h w) = Ok tt (mkst _ h' w') /\ amo_reserve_valid (rs h') = false /\
    (abs h' (next (mkarch DRAM_BASE (reg h)) 5 1) /\ w' = w).
Proof. apply (hart_step_sc_w false 0 5 1 2 _ _ _ _ (amo_at_boot 3 ltac:(lia))). Defined.

(** C6: A store by another hart between the LR.W and the SC.W of a hart makes
    the SC.W fail: A reserves, B stores anywhere in DRAM, then A's SC.W returns 1
    and leaves the memory as B's store left it. *)
Theorem sc_w_fails_after_store `{Console} L ar d r1 r2 hA w0 regsA addr hA1 w1
    f3 q2 q1 off n hB regsB addrB hB1 w2 ar' d' p1 p2 regsA' addr' :
  amo_at_pc L 2 ar d r1 r2 hA w0 regsA addr ->
  hart_step L (mkst _ hA w0) = Ok tt (mkst _ hA1 w1) ->
  store_at_pc L f3 q2 q1 off n hB w1 regsB addrB ->
  hart_step L (mkst _ hB w1) = Ok tt (mkst _ hB1 w2) ->
  amo_at_pc L 3 ar' d' p1 p2 hA1 w2 regsA' addr' ->
  exists hA2, hart_step L (mkst _ hA1 w2) = Ok tt (mkst _ hA2 w2) /\ abs hA2 (next regsA' d' 1).
Proof.
  intros Hlr Ha Hst Hb Hsc.
  destruct (lr_w_step L _ _ _ _ _ _ _ _ Hlr) as (h1 & E1 & _ & _ & _ & Hgen). rewrite Ha in E1. injection E1 as <- <-.
  destruct (store_step L _ _ _ _ _ _ _ _ _ Hst) as (h2 & w2' & E2 & _ & _ & Hbump & _). rewrite Hb in E2. injection E2 as <- <-.
  destruct (sc_w_step L _ _ _ _ _ _ _ _ Hsc) as (h3 & w3 & E3 & _ & Hres).
  unfold sc_w_ok in Hres. rewrite Hgen, Hbump in Hres.
  assert (Hw : is_u64 (global_store_gen w1)) by apply (wwf_gen _ (swf_world _ (q_wf _ _ (ap_quiet _ _ _ _ _ _ _ _ _ _ Hlr)))).
  replace (global_store_gen w1 =? u64 (global_store_gen w1 + 1)) with false in Hres by (symmetry; apply Z.eqb_neq; word).
  rewrite andb_false_r in Hres. destruct Hres as [Hregs ->]. eauto.
Qed.

(** Two harts of the lock-step build: A runs [lr.w x5, (x1)], B then runs
    [sw x2, 0(x1)] from the next cell, A then runs [sc.w x6, x2, (x1)]. *)
Module Race.
Definition w0 : world :=
  boot_world [(0, AMO 2 0 2 5 1 0 + 2 ^ 32 * AMO 3 0 2 6 1 2); (1, STORE 2 2 1 0)] (keys [] 0).
Definition hA : hart := boot_hart true 0 [(1, 0x80000100); (2, 7)].
Definition hB : hart := set_pc (DRAM_BASE + 8) (boot_hart true 1 [(1, 0x80000200); (2, 9)]).
Definition after (s : st) : st := match hart_step true s with Ok _ s' => s' | _ => s end.
Definition hA1 : hart := hrt (after (mkst _ hA w0)).
Definition w2 : world := wld (after (mkst _ hB w0)).
Definition hB1 : hart := hrt (after (mkst _ hB w0)).
End Race.

Lemma race_wf : hart_wf Race.hA /\ hart_wf Race.hB /\ world_wf Race.w0.
Proof.
  split; [|split].
  - apply boot_hart_wf; [unfold is_u64; lia|repeat constructor; vm_compute; congruence].
  - apply set_pc_wf; [apply boot_hart_wf; [unfold is_u64; lia|repeat constructor; vm_compute; congruence]|unfold is_u64, DRAM_BASE; lia].
  - apply boot_world_wf. repeat constructor; vm_compute; congruence.
Qed.

(** States computed by a step satisfy the invariant. *)
Lemma step_ok_wf `{Console} L h w h' w' : st_wf (mkst _ h w) -> hartid_ok (mkst _ h w) ->
  hart_step L (mkst _ h w) = Ok tt (mkst _ h' w') -> st_wf (mkst _ h' w').
Proof.
  intros Hs Hi E. pose proof (step_preserves L (mhartid (cs h)) (mkst _ h w)) as Hp.
  unfold wp in Hp. rewrite E in Hp. apply Hp. split; [assumption|reflexivity|assumption].
Qed.

Lemma race_step_A : hart_step true (mkst _ Race.hA Race.w0) = Ok tt (mkst _ Race.hA1 Race.w0).
Proof. vm_compute. reflexivity. Qed.
Lemma race_step_B : hart_step true (mkst _ Race.hB Race.w0) = Ok tt (mkst _ Race.hB1 Race.w2).
Proof. vm_compute. reflexivity. Qed.

Lemma race_quiet_A : quiet true (mkst _ Race.hA Race.w0).
Proof.
  split; try reflexivity; try (left; reflexivity); try (vm_compute; split; congruence).
  split; apply race_wf.
Qed.
Lemma race_quiet_B : quiet true (mkst _ Race.hB Race.w0).
Proof.
  split; try reflexivity; try (left; reflexivity); try (vm_compute; split; congruence).
  split; apply race_wf.
Qed.
Lemma race_quiet_A1 : quiet true (mkst _ Race.hA1 Race.w2).
Proof.
  split; try (vm_compute; reflexivity); try (left; reflexivity); try (vm_compute; split; congruence).
  split.
  - apply (step_ok_wf true _ _ _ _ (q_wf _ _ race_quiet_A) (q_hartid _ _ race_quiet_A) race_step_A).
  - apply (step_ok_wf true _ _ _ _ (q_wf _ _ race_quiet_B) (q_hartid _ _ race_quiet_B) race_step_B).
Qed.

Lemma sc_w_fails_after_store_witness :
  exists hA2, hart_step true (mkst _ Race.hA1 Race.w2) = Ok tt (mkst _ hA2 Race.w2) /\
    abs hA2 (next (mkarch (PC Race.hA1) (reg Race.hA1)) 6 1).
Proof.
  apply (sc_w_fails_after_store true 0 5 1 0 Race.hA Race.w0 (mkarch (PC Race.hA) (reg Race.hA)) 0x80000100 Race.hA1 Race.w0
    2 2 1 0 4 Race.hB (mkarch (PC Race.hB) (reg Race.hB)) 0x80000200 Race.hB1 Race.w2 0 6 1 2 _ 0x80000100).
  - split; try apply abs_self; try exact race_quiet_A; try (unfold is_reg; lia); try (vm_compute; reflexivity).
    vm_compute. congruence.
  - exact race_step_A.
  - split; try apply abs_self; try exact race_quiet_B; try (unfold is_reg, imm12; lia); try (vm_compute; reflexivity).
    vm_compute. congruence.
  - exact race_step_B.
  - split; try apply abs_self; try exact race_quiet_A1; try (unfold is_reg; lia); try (vm_compute; reflexivity).
    vm_compute. congruence.
Defined.

(** Unlike SC.W, a doubleword SC looks only at the reservation and its
    address: its result and effect are the same for every store generation, so a
    store by another hart does not make it fail. *)
Theorem sc_d_ignores_stores `{Console} h w a g :
  load_addr (tm h) = a -> a mod 8 = 0 -> vec_in (memory w) (dram_idx a) = true ->
  amo_reserve_valid64 (rs h) = true -> amo_reserve_addr64 (rs h) = rv1 h ->
  exists h', exec_sc_d (mkst _ h { w with global_store_gen := g }) =
    Ok tt (mkst _ h' { w with memory ::= (fun m => vec_put m (dram_idx a) (rv2 h)); global_store_gen := u64 (g + 1) }) /\
    ret_data (tm h') = 0 /\ amo_reserve_valid64 (rs h') = false.
Proof.
  intros Ha Hal Hin Hv Hr. unfold exec_sc_d. unfold bind at 1, get_hart, gets. cbn [hrt].
  rewrite Hv, Hr, Z.eqb_refl, Ha, Hal. cbn [andb negb Z.eqb].
  set (w1 := { w with global_store_gen := g }).
  assert (Hin1 : vec_in (memory w1) (dram_idx a) = true) by exact Hin.
  set (w2 := { w with memory ::= _; global_store_gen := _ }).
  set (h1 := { h with tm -> store_data := rv2 h }).
  assert (Hst : amo_store (dram_idx a) (rv2 h) (mkst _ h1 w1) = Ok tt (mkst _ h1 w2)).
  { unfold amo_store, bind, mem_put. cbn [wld]. rewrite Hin1. reflexivity. }
  exists { (set_ret 0 h1) with rs -> amo_reserve_addr64 := 0; rs -> amo_reserve_valid64 := false }.
  split; [|split; reflexivity].
  rewrite (bind_ok _ _ _ tt (mkst _ (set_ret 0 h1) w2)); [reflexivity|].
  rewrite (bind_ok _ _ _ _ _ (on_hart_ok _ _ _)). exact (bind_ok _ _ _ _ _ Hst).
Qed.
Lemma sc_d_ignores_stores_witness :
  let h := { (boot_hart false 0 [(1, 0x80000100); (2, 7)]) with
    lt -> rs1 := 1; lt -> rs2 := 2;
    rs -> amo_reserve_valid64 := true; rs -> amo_reserve_addr64 := 0x80000100; tm -> load_addr := 0x80000100 } in
  let w := boot_world [] (keys [] 0) in
  exists h', exec_sc_d (mkst _ h { w with global_store_gen := 42 }) =
    Ok tt (mkst _ h' { w with memory ::= (fun m => vec_put m (dram_idx 0x80000100) (rv2 h)); global_store_gen := u64 (42 + 1) }) /\
    ret_data (tm h') = 0 /\ amo_reserve_valid64 (rs h') = false.
Proof.
  apply (sc_d_ignores_stores { (boot_hart false 0 [(1, 0x80000100); (2, 7)]) with
    lt -> rs1 := 1; lt -> rs2 := 2;
    rs -> amo_reserve_valid64 := true; rs -> amo_reserve_addr64 := 0x80000100; tm -> load_addr := 0x80000100 }
    (boot_world [] (keys [] 0)) 0x80000100 42); vm_compute; reflexivity.
Defined.
