(* ===== verification/CsrInstr.v ===== *)
(** * CSR accesses: what a write leaves to be read, and accesses to unknown registers *)

From S2P Require Import Prelude Constants Alu MemAccess Csr Clint Hart Trap Execute Safety Boot Spec Refine.

(** The CSR numbers that both [csr_read] and [csr_write] know. *)
Definition csr_numbers : list Z :=
  [MSTATUS; SATP; MIE; MIP; MTVEC; MEPC; MCAUSE; MTVAL; PMPCFG0; PMPADDR0; MHARTID; MVENDORID; MARCHID; MIMPID;
   MSCRATCH; MISA; SCOUNTEREN; MCOUNTEREN].

(** The value a register holds after [v] is written to it. *)
Definition csr_legal (a v : Z) : Z :=
  if a =? MSTATUS then Z.land v MSTATUS_WMASK + (2 * 2 ^ 34 + 2 * 2 ^ 32)
  else if a =? SATP then (if v / 2 ^ 60 =? 8 then 2 ^ 63 else 0) + v mod 2 ^ 44
  else if (a =? MIE) || (a =? MIP) then Z.land v 0xBBB
  else v.

Lemma satp_read_write v : is_u64 v ->
  satp_read_reg (satp_write_reg v) = (if v / 2 ^ 60 =? 8 then 2 ^ 63 else 0) + v mod 2 ^ 44.
Proof.
  intros Hv. unfold satp_read_reg, satp_write_reg. cbn -[Z.shiftl Z.add Z.land].
  rewrite <- Z.land_assoc, Z.land_diag. rewrite (land_ones_mod v 44) by (reflexivity || lia).
  assert (E : u8 (Z.land (Z.shiftr v 60) 15) = v / 2 ^ 60).
  { mask_to_mod. change (2 ^ 60) with 1152921504606846976. word. }
  rewrite E. pose proof (Z.mod_pos_bound v (2 ^ 44) ltac:(lia)).
  change (u64 (Z.shiftl 0 44)) with 0. rewrite Z.add_0_r.
  destruct (Z.eqb_spec (v / 2 ^ 60) 8) as [->|].
  - change (u64 (Z.shiftl (Z.land 8 15) 60)) with (2 ^ 63). apply u64_id. unfold is_u64. lia.
  - change (u64 (Z.shiftl (Z.land 0 15) 60)) with 0. apply u64_id. unfold is_u64. lia.
Qed.

(** ** Theorems *)

(** Every implemented CSR reads back, in M-mode, the legal form of the value
    written: all bits for the plain registers, mtvec and mcause; the writable
    mask (UXL and SXL fixed at 2) for mstatus; the interrupt bits for mie and
    mip; mode Bare or Sv39, no ASID, for satp. The write never fails. *)
Theorem csr_write_read `{Console} L a v s :
  st_wf s -> cp (hrt s) = MMODE -> In a csr_numbers -> is_u64 v ->
  exists s', csr_write L a v s = Ok true s' /\ (csr_read a (hrt s')).1 = csr_legal a v /\
    csr_read_success (tm (csr_read a (hrt s')).2) = true.
Proof.
  intros Hs Hm Hin Hv. pose proof (cswf_mstatus _ (hwf_cs _ (swf_hart _ Hs))) as Hms.
  destruct s as [h w]. cbn [hrt] in *. unfold csr_legal.
  unfold csr_numbers in Hin. repeat destruct Hin as [<-|Hin]; [..|destruct Hin].
  4: { unfold csr_write, when, bind, on_hart, modify, get_hart, gets. cbn -[Z.land Z.shiftl clint_write].
       destruct (_ =? 0); (eexists; split; [reflexivity|split; [|reflexivity]]);
         (transitivity (mip_read_reg (mip_write_reg v)); [reflexivity|apply mip_read_write]). }
  1: { eexists. split; [reflexivity|]. unfold csr_read. cbn [hrt].
       replace (cp _) with MMODE by (symmetry; exact Hm). cbn [Z.eqb Pos.eqb].
       rewrite decide_True by reflexivity. split; [|reflexivity]. exact (mstatus_read_write _ _ Hms). }
  all: eexists; split; [reflexivity|split; [|reflexivity]].
  - exact (satp_read_write v Hv).
  - exact (mie_read_write v).
  - exact (mtvec_read_write v Hv).
  - reflexivity.
  - exact (mcause_read_write v Hv).
  - reflexivity.
  - reflexivity.
  - reflexivity.
  - reflexivity.
  - reflexivity.
  - reflexivity.
  - reflexivity.
  - reflexivity.
  - reflexivity.
  - reflexivity.
  - reflexivity.
Qed.
Lemma csr_write_read_witness :
  let s := boot true 0 [] (keys [] 0) in
  exists s', csr_write true MSTATUS 0xFFFFFFFFFFFFFFFF s = Ok true s' /\
    (csr_read MSTATUS (hrt s')).1 = csr_legal MSTATUS 0xFFFFFFFFFFFFFFFF /\
    csr_read_success (tm (csr_read MSTATUS (hrt s')).2) = true.
Proof.
  apply (csr_write_read true MSTATUS 0xFFFFFFFFFFFFFFFF (boot true 0 [] (keys [] 0))).
  - apply boot_wf; [lia|constructor].
  - reflexivity.
  - left. reflexivity.
  - unfold is_u64; lia.
Defined.

(** A CSR instruction on a number that is not implemented writes no register
    and no CSR but mtval: it raises the illegal-instruction flag with the
    instruction word in mtval. *)
Theorem csr_unknown_illegal `{Console} L new keep guard h w :
  ~ In (imm11_0 (lt h)) csr_numbers ->
  exists h', exec_csr L new keep guard (mkst _ h w) = Ok tt (mkst _ h' w) /\
    ILL_INS (fl h') = true /\ mtval (cs h') = instruction h /\
    reg_file h' = reg_file h /\ PC h' = PC h /\ cs h' = { (cs h) with mtval := instruction h }.
Proof.
  intros Hn. unfold exec_csr.
  assert (E : csr_read (imm11_0 (lt h)) h = (1, { h with tm -> csr_read_success := false })).
  { unfold csr_read. unfold csr_numbers in Hn. cbn [In] in Hn.
    repeat match goal with |- context [?x =? ?k] => destruct (Z.eqb_spec x k) as [E|]; [exfalso; apply Hn; rewrite E; tauto|] end.
    reflexivity. }
  rewrite (bind_ok _ _ _ _ _ (on_hart_ok _ _ _)). unfold csr_fetch. rewrite E.
  unfold bind at 1, get_hart, gets. cbn [hrt]. eexists. split; [reflexivity|]. repeat split.
Qed.
Lemma csr_unknown_illegal_witness :
  let h := { (boot_hart true 0 [(1, 5)]) with lt -> imm11_0 := 0xC00; instruction := 0xC0001073 } in
  exists h', exec_csr true (fun h _ => rv1 h) true true (mkst _ h (boot_world [] (keys [] 0))) =
      Ok tt (mkst _ h' (boot_world [] (keys [] 0))) /\
    ILL_INS (fl h') = true /\ mtval (cs h') = 0xC0001073 /\
    reg_file h' = reg_file h /\ PC h' = PC h /\ cs h' = { (cs h) with mtval := 0xC0001073 }.
Proof.
  refine (csr_unknown_illegal true (fun h _ => rv1 h) true true
    { (boot_hart true 0 [(1, 5)]) with lt -> imm11_0 := 0xC00; instruction := 0xC0001073 } (boot_world [] (keys [] 0)) _).
  vm_compute. intuition congruence.
Defined.
