(* ===== verification/Devices.v ===== *)
(** * The devices: CLINT register accesses and the UART *)

From S2P Require Import Prelude Constants Alu MemAccess Csr Clint Hart Trap Execute Safety Boot Spec Refine MemInstr.

(** ** CLINT *)

Definition mtimecmp_addr (h : Z) : Z := CLINT_BASE_ADDR + MTIMECMP_BASE + 8 * h.
Definition msip_addr (h : Z) : Z := CLINT_BASE_ADDR + MSIP_BASE + 4 * h.

(** Everything but the [mtimecmp] of hart [h] and the scratch member is unchanged. *)
Definition only_mtimecmp (h : Z) (c c' : CLINT) : Prop :=
  msip c' = msip c /\ mtime c' = mtime c /\ num_harts c' = num_harts c /\
  forall j, 0 <= j -> j <> h -> get_mtimecmp c' j = get_mtimecmp c j.

Lemma in_msip_mtimecmp c h : 0 <= h < num_harts c -> num_harts c < 256 ->
  forall d, 0 <= d < 8 -> in_msip c (mtimecmp_addr h + d) = false /\ in_mtimecmp c (mtimecmp_addr h + d) = true /\
    (mtimecmp_addr h + d - (CLINT_BASE_ADDR + MTIMECMP_BASE)) / 8 = h.
Proof.
  intros Hh Hn d Hd. unfold in_msip, in_mtimecmp, mtimecmp_addr, CLINT_BASE_ADDR, MTIMECMP_BASE, MSIP_BASE.
  split; [lia|]. split; [lia|]. zlia.
Qed.

Lemma set_cmp_only h x c : clint_wf c -> 0 <= h < num_harts c -> only_mtimecmp h c { c with mtimecmp := vset (mtimecmp c) h x }.
Proof.
  intros [] Hh. repeat split. intros j Hj Hne. unfold get_mtimecmp. cbn. destruct c; cbn.
  destruct (_ <? _); [|reflexivity]. apply vnth_vset_ne; lia.
Qed.

Lemma half_write_low old addr v : addr mod 8 = 0 -> is_u64 old ->
  half_write old addr v = old / 2 ^ 32 * 2 ^ 32 + u32 v.
Proof.
  intros Ha Ho. unfold half_write. rewrite (land_ones_mod addr 3 7) by (reflexivity || lia). change (2 ^ 3) with 8.
  rewrite Ha. cbn [Z.eqb]. rewrite (land_ones_mod v 32) by (reflexivity || lia). change (v mod 2 ^ 32) with (u32 v).
  rewrite (land_shifted_mask old 32 32) by (reflexivity || lia). rewrite (shiftr_div old 32) by lia.
  rewrite (Z.mod_small (old / 2 ^ 32)) by (unfold is_u64 in Ho; change (2 ^ 32) with 0x100000000; zlia).
  rewrite <- add_disjoint; [lia|].
  pose proof (u32_range v) as Hv. apply Z.bits_inj'. intros i Hi. rewrite Z.land_spec, Z.bits_0, Z.mul_comm.
  destruct (Z.lt_ge_cases i 32).
  - rewrite Z.mul_pow2_bits_low by lia. reflexivity.
  - rewrite (testbit_bound (u32 v) 32) by (assumption || lia). apply andb_false_r.
Qed.
Lemma half_write_high old addr v : addr mod 8 = 4 ->
  half_write old addr v = u32 old + 2 ^ 32 * u32 v.
Proof.
  intros Ha. unfold half_write. rewrite (land_ones_mod addr 3 7) by (reflexivity || lia). change (2 ^ 3) with 8.
  rewrite Ha. cbn [Z.eqb]. rewrite (land_ones_mod v 32), (land_ones_mod old 32) by (reflexivity || lia).
  change (v mod 2 ^ 32) with (u32 v). change (old mod 2 ^ 32) with (u32 old). pose proof (u32_range v) as Hv. pose proof (u32_range old) as Ho.
  rewrite Z.shiftl_mul_pow2, u64_id by (unfold is_u64, is_u32 in *; lia).
  rewrite <- add_disjoint; [lia|]. apply Z.bits_inj'. intros i Hi. rewrite Z.land_spec, Z.bits_0.
  destruct (Z.lt_ge_cases i 32).
  - rewrite Z.mul_pow2_bits_low by lia. apply andb_false_r.
  - rewrite (testbit_bound (u32 old) 32) by (assumption || lia). reflexivity.
Qed.

Lemma clint_write_cmp L c h d v sz : clint_wf c -> 0 <= h < num_harts c -> 0 <= d < 8 ->
  clint_write L c (mtimecmp_addr h + d) v sz =
    if 8 <=? sz then { c with mtimecmp := vset (mtimecmp c) h v }
    else if sz =? 4 then { c with mtimecmp := vset (mtimecmp c) h (half_write (vnth (mtimecmp c) h) (mtimecmp_addr h + d) v) }
    else c.
Proof.
  intros Hc Hh Hd. destruct (in_msip_mtimecmp c h Hh ltac:(apply Hc) d Hd) as (E1 & E2 & E3).
  unfold clint_write. rewrite E1, E2, E3. reflexivity.
Qed.

(** ** The UART *)

Section Uart.
Context `{Console}.
Local Open Scope prog_scope.

(** What the drivers do: read the status register, then the receive register. *)
Definition poll_rx : M st Z :=
  uart_load false FIFO_ADDR_STATUS ;;; uart_load false FIFO_ADDR_RX ;;;
  h <- get_hart ;; ret (wb_data (tm h)).
Fixpoint poll_many (n : nat) : M st (list Z) :=
  match n with
  | O => ret []
  | S n => c <- poll_rx ;; l <- poll_many n ;; ret (c :: l)
  end.
End Uart.

(** On the queue console: no byte held back, input [l] waiting. *)
Definition rx_idle (l : list Z) (w : world) : Prop := uart_rx_byte w = -1 /\ (term w).1 = l.

Lemma poll_rx_ok c l h w : rx_idle (c :: l) w -> is_u8 c ->
  exists h' w', poll_rx (mkst _ h w) = Ok c (mkst _ h' w') /\ rx_idle l w' /\ memory w' = memory w /\ cout w' = cout w.
Proof.
  intros [Hb Ht] Hc. destruct w as [mem cl gen rx tm0 co]. cbn in Hb, Ht. subst rx. destruct tm0 as [inp fl0]. cbn in Ht. subst inp.
  set (w := {| memory := mem; clint := cl; global_store_gen := gen; uart_rx_byte := -1; term := (c :: l, fl0) : @tty queue_console; cout := co |}).
  set (w1 := {| memory := mem; clint := cl; global_store_gen := gen; uart_rx_byte := c; term := (l, fl0) : @tty queue_console; cout := co |}).
  assert (E : u8 c = c) by (unfold u8; apply Z.mod_small; exact Hc).
  assert (Hpos : (0 <=? c) = true) by (apply Z.leb_le; apply Hc).
  assert (Hk : forall k : bool -> M st unit, bind kbhit k (mkst _ h w) = k true (mkst _ h w)).
  { intros k. unfold bind, kbhit. cbn -[Z.ltb]. change (0 <? 0) with false. rewrite (proj2 (Z.ltb_lt 0 _)) by lia. reflexivity. }
  assert (Hs : uart_load false FIFO_ADDR_STATUS (mkst _ h w) = Ok tt (mkst _ (write_back 5 h) w1)).
  { unfold uart_load. cbn [Z.eqb Pos.eqb FIFO_ADDR_STATUS]. rewrite (bind_ok _ _ _ tt (mkst _ h w1)).
    - unfold bind, get_world, gets. cbn [wld uart_rx_byte w1]. rewrite Hpos. reflexivity.
    - unfold bind at 1, get_world, gets. cbn [wld uart_rx_byte w Z.ltb Z.compare]. rewrite Hk. cbn [when].
      unfold bind, read_stdin. cbn -[u8]. rewrite E. reflexivity. }
  exists (write_back c (write_back 5 h)), {| memory := mem; clint := cl; global_store_gen := gen; uart_rx_byte := -1; term := (l, fl0) : @tty queue_console; cout := co |}.
  split; [|repeat split].
  unfold poll_rx. rewrite (bind_ok _ _ _ _ _ Hs). unfold uart_load. cbn [Z.eqb Pos.eqb FIFO_ADDR_STATUS FIFO_ADDR_RX].
  unfold bind, get_world, gets, on_world, on_hart, modify, get_hart, ret. cbn [wld uart_rx_byte w1]. rewrite Hpos. reflexivity.
Qed.

(** ** Theorems *)

(** Two 32-bit stores to the halves of a hart's mtimecmp leave exactly the
    64-bit value they spell, and change no other hart's mtimecmp, no msip and not
    mtime. *)
Theorem mtimecmp_two_halves L c h lo hi : clint_wf c -> 0 <= h < num_harts c ->
  let c' := clint_write L (clint_write L c (mtimecmp_addr h) lo 4) (mtimecmp_addr h + 4) hi 4 in
  get_mtimecmp c' h = u32 lo + 2 ^ 32 * u32 hi /\ only_mtimecmp h c c'.
Proof.
  intros Hc Hh. cbv zeta. pose proof (clint_write_cmp L c h 0 lo 4 Hc Hh ltac:(lia)) as E1. rewrite Z.add_0_r in E1.
  rewrite E1. cbn [Z.leb Z.compare Pos.compare Pos.compare_cont Z.eqb Pos.eqb].
  set (c1 := { c with mtimecmp := _ }).
  assert (Ha : mtimecmp_addr h mod 8 = 0 /\ (mtimecmp_addr h + 4) mod 8 = 4)
    by (unfold mtimecmp_addr, CLINT_BASE_ADDR, MTIMECMP_BASE; split; zlia).
  pose proof (vnth_u64 _ h (cwf_cmp c Hc)) as Hold.
  assert (Hc1 : clint_wf c1).
  { destruct Hc. constructor; cbn; rewrite ?length_vset; auto with clint word. }
  rewrite (clint_write_cmp L c1 h 4 hi 4 Hc1 Hh ltac:(lia)). cbn [Z.leb Z.compare Pos.compare Pos.compare_cont Z.eqb Pos.eqb].
  assert (Hlen : (Z.to_nat h < length (mtimecmp c))%nat) by (rewrite (cwf_cmp_len c Hc); lia).
  assert (Hlen1 : (Z.to_nat h < length (mtimecmp c1))%nat) by (subst c1; cbn; rewrite length_vset; exact Hlen).
  split.
  - unfold get_mtimecmp. change (num_harts { c1 with mtimecmp := _ }) with (num_harts c).
    rewrite (proj2 (Z.ltb_lt _ _)) by lia. cbn [mtimecmp].
    change (vnth (vset (mtimecmp c1) h (half_write (vnth (mtimecmp c1) h) (mtimecmp_addr h + 4) hi)) h = u32 lo + 2 ^ 32 * u32 hi).
    rewrite vnth_vset by exact Hlen1. rewrite half_write_high by apply Ha.
    change (mtimecmp c1) with (vset (mtimecmp c) h (half_write (vnth (mtimecmp c) h) (mtimecmp_addr h) lo)).
    rewrite vnth_vset, half_write_low by (exact Hlen || apply Ha || exact Hold). f_equal.
    change (2 ^ 32) with 0x100000000. pose proof (u32_range lo). word.
  - destruct (set_cmp_only h (half_write (vnth (mtimecmp c1) h) (mtimecmp_addr h + 4) hi) c1 Hc1 Hh) as (A1 & A2 & A3 & A4).
    destruct (set_cmp_only h (half_write (vnth (mtimecmp c) h) (mtimecmp_addr h) lo) c Hc Hh) as (B1 & B2 & B3 & B4).
    repeat split; try assumption. intros j Hj Hne. rewrite A4, <- B4 by assumption. reflexivity.
Qed.
Lemma mtimecmp_two_halves_witness :
  let c := CLINT_new 4 time0 in
  let c' := clint_write false (clint_write false c (mtimecmp_addr 2) 0x11223344 4) (mtimecmp_addr 2 + 4) 5 4 in
  get_mtimecmp c' 2 = 0x511223344 /\ only_mtimecmp 2 c c'.
Proof. apply (mtimecmp_two_halves false (CLINT_new 4 time0) 2 0x11223344 5); [apply CLINT_new_wf; lia|cbn; lia]. Defined.

(** The software interrupt is per hart: a store of 1 to the msip word of hart
    [h] raises it, a store of 0 clears it, for that hart only, and a lock-step
    build ignores the store. *)
Theorem msip_write_isolated L c h j v sz : clint_wf c -> 0 <= h < num_harts c -> 0 <= j < num_harts c ->
  check_software_interrupt (clint_write L c (msip_addr h) v sz) j =
    if negb L && (j =? h) then Some (Z.odd v) else check_software_interrupt c j.
Proof.
  intros Hc Hh Hj. pose proof Hc as [Hn Hml Hcl Hm Hcm Ht].
  assert (E1 : in_msip c (msip_addr h) = true) by (unfold in_msip, msip_addr, CLINT_BASE_ADDR, MSIP_BASE; lia).
  assert (E2 : u32 ((msip_addr h - (CLINT_BASE_ADDR + MSIP_BASE)) / 4) = h)
    by (unfold msip_addr, CLINT_BASE_ADDR, MSIP_BASE; rewrite u32_id; [zlia|unfold is_u32; zlia]).
  unfold clint_write. rewrite E1, E2. destruct L; cbn [negb andb]; [reflexivity|].
  unfold check_software_interrupt. cbn.
  change (match c with {| msip := m |} => m end) with (msip c). unfold vset. rewrite list_lookup_insert.
  destruct (Z.eqb_spec j h) as [->|Hne].
  - rewrite decide_True by lia. cbn. f_equal. rewrite (land_ones_mod v 1) by (reflexivity || lia). change (2 ^ 1) with 2.
    rewrite Zmod_odd. destruct (Z.odd v); reflexivity.
  - rewrite decide_False by lia. reflexivity.
Qed.
Lemma msip_write_isolated_witness :
  check_software_interrupt (clint_write false (CLINT_new 4 time0) (msip_addr 1) 1 4) 1 = Some true.
Proof. apply (msip_write_isolated false (CLINT_new 4 time0) 1 1 1 4); [apply CLINT_new_wf; lia|cbn; lia..]. Defined.

(** Polling the UART delivers the bytes typed on the terminal, each exactly
    once and in order, and leaves memory and output alone. *)
Theorem uart_delivers_input l h w r : rx_idle (l ++ r) w -> Forall is_u8 l ->
  exists h' w', poll_many (length l) (mkst _ h w) = Ok l (mkst _ h' w') /\ rx_idle r w' /\
    memory w' = memory w /\ cout w' = cout w.
Proof.
  intros Hr Hl. revert h w Hr. induction Hl as [|c l Hc Hl IH]; intros h w Hr.
  - exists h, w. auto.
  - cbn [app length poll_many] in *. destruct (poll_rx_ok c (l ++ r) h w Hr Hc) as (h1 & w1 & E1 & H1 & M1 & C1).
    destruct (IH h1 w1 H1) as (h2 & w2 & E2 & H2 & M2 & C2). exists h2, w2.
    rewrite (bind_ok _ _ _ _ _ E1), (bind_ok _ _ _ _ _ E2). rewrite M2, C2. auto.
Qed.
Lemma uart_delivers_input_witness :
  let s := boot false 0 [] (keys [72; 105; 10] 0) in
  exists h' w', poll_many 2 s = Ok [72; 105] (mkst _ h' w') /\ rx_idle [10] w' /\
    memory w' = memory (wld s) /\ cout w' = cout (wld s).
Proof.
  apply (uart_delivers_input [72; 105] (hrt (boot false 0 [] (keys [72; 105; 10] 0))) (wld (boot false 0 [] (keys [72; 105; 10] 0))) [10]).
  - split; reflexivity.
  - repeat constructor; unfold is_u8; lia.
Defined.

Section ClintLoad.
Context `{Console} (L : bool).

Lemma clint_read_high c a : clint_wf c -> a mod 8 = 4 -> 0 <= (clint_read c a).1 < 2 ^ 32.
Proof.
  intros Hc Ha. unfold clint_read. rewrite (land_ones_mod a 3 7) by (reflexivity || lia). change (2 ^ 3) with 8.
  rewrite Ha. cbn [Z.eqb Pos.eqb].
  pose proof (vnth_u32 _ (u32 ((a - (CLINT_BASE_ADDR + MSIP_BASE)) / 4)) (cwf_msip c Hc)).
  pose proof (vnth_u64 _ (u32 ((a - (CLINT_BASE_ADDR + MTIMECMP_BASE)) / 8)) (cwf_cmp c Hc)).
  pose proof (cwf_mtime c Hc). unfold is_u32, is_u64 in *.
  assert (Hs : forall x, 0 <= x < 0x10000000000000000 -> 0 <= Z.shiftr x 32 < 2 ^ 32).
  { intros x Hx. rewrite shiftr_div by lia. change (2 ^ 32) with 0x100000000. zlia. }
  destruct (in_msip c a); [assumption|]. destruct (in_mtimecmp c a); [apply Hs; assumption|].
  destruct (in_mtime a); [apply Hs; assumption|]. cbn. lia.
Qed.

Lemma exec_load_clint h w a : hart_wf h -> world_wf w -> func3 (lt h) = 2 ->
  a = Z.land (u64 (rv1 h + sign_extend (imm11_0 (lt h)) 12)) 0xffffffff -> in_clint a = true -> a mod 8 = 4 ->
  exists h', exec_load L (mkst _ h w) = Ok tt (mkst _ h' { w with clint := (clint_read (clint w) a).2 }) /\
    PC h' = PC h /\ reg_file h' = <[Z.to_nat (rd (lt h)) := 0]> (reg_file h).
Proof.
  intros Hh Hw Hf3 Ha Hc Hal. unfold exec_load. unfold bind at 1, get_hart, gets. cbn [hrt]. rewrite <- Ha.
  rewrite (bind_ok _ _ _ _ _ (on_hart_ok _ _ _)).
  assert (Hr : CLINT_BASE <= a <= CLINT_BASE + CLINT_SIZE) by (unfold in_clint in Hc; lia).
  unfold CLINT_BASE, CLINT_SIZE in Hr.
  replace (signed_value a <? 0) with false.
  2:{ symmetry. apply Z.ltb_ge. rewrite signed_value_s64 by (unfold is_u64; lia). word. }
  replace (negb (a =? FIFO_ADDR_RX) && negb (a =? FIFO_ADDR_TX) && negb (a =? FIFO_ADDR_STATUS)) with true
    by (unfold FIFO_ADDR_RX, FIFO_ADDR_TX, FIFO_ADDR_STATUS in *; lia).
  replace (in_dram_load a) with false by (unfold in_dram_load, DRAM_BASE; lia). rewrite Hc.
  pose proof (clint_read_high _ _ (wwf_clint _ Hw) Hal) as Hv.
  set (v := (clint_read (clint w) a).1) in *. set (c' := (clint_read (clint w) a).2).
  set (h2 := set_load_data v { h with tm -> load_addr := a }).
  erewrite (bind_ok _ _ _ tt (mkst _ h2 { w with clint := c' })).
  2:{ unfold bind, clint_load. cbn [wld]. rewrite (surjective_pairing (clint_read (clint w) a)). reflexivity. }
  rewrite on_hart_ok. eexists. split; [reflexivity|].
  unfold load_switch. change (func3 (lt h2)) with (func3 (lt h)). rewrite Hf3. cbn [Z.eqb Pos.eqb].
  change (load_addr (tm h2)) with a. change (load_data (tm h2)) with v.
  rewrite load_word_spec, Hal. cbn [Z.leb Z.compare Pos.compare Pos.compare_cont fst snd].
  replace (cell_read 4 v 4) with 0; [split; reflexivity|].
  unfold cell_read. rewrite le_value_byte_of, shiftr_div by lia.
  rewrite (Z.div_small v) by (change (8 * 4) with 32; exact Hv). reflexivity.
Qed.
End ClintLoad.

(** A 32-bit load from the upper half of any 64-bit CLINT word (the high
    half of mtime or of an mtimecmp, or the msip of an odd hart) returns 0: the
    CLINT already returns the selected half, and the load shifts it away. *)
Theorem lw_clint_high_half_zero `{Console} L h w regs d r1 off addr :
  quiet L (mkst _ h w) -> word_at w (PC h) = LOAD 2 d r1 off ->
  is_reg d -> is_reg r1 -> imm12 off -> abs h regs -> addr = u32 (xget regs r1 + off) ->
  in_clint addr = true -> addr mod 8 = 4 ->
  exists h' w', hart_step L (mkst _ h w) = Ok tt (mkst _ h' w') /\ abs h' (next regs d 0) /\
    mtime (clint w') = mtime (clint w) /\ mtimecmp (clint w') = mtimecmp (clint w) /\ msip (clint w') = msip (clint w).
Proof.
  intros Hq Hword Hd H1 Ho Ha Haddr Hc Hal.
  destruct (step_ready L h w Hq) as (h1 & Hr & Hstep). rewrite Hword in Hr. unfold LOAD in Hr.
  destruct (decode_i_type (off mod 0x1000) r1 2 d 0x03 ltac:(lia) Hd H1 ltac:(lia) ltac:(zlia)) as (Hop & D0 & D1 & D3 & Di & _).
  pose proof (rdy_lt _ _ _ Hr) as Hlt.
  destruct (exec_load_clint L h1 w addr) as (h' & He & Hpc & Hregs); try assumption.
  - apply Hr.
  - apply (q_wf _ _ Hq).
  - rewrite Hlt. exact D3.
  - unfold rv1. rewrite Hlt, D1, Di, sext12 by assumption. rewrite (ready_xget _ _ _ _ _ Hr Ha H1), u64_add_r.
    rewrite Haddr. symmetry. etransitivity; [apply land_MASK32|apply u32_u64].
  - exists h', { w with clint := (clint_read (clint w) addr).2 }. split; [|split].
    + rewrite Hstep. unfold exec_instr, bind at 1, get_hart, gets. cbn [hrt]. rewrite Hlt, Hop. exact He.
    + rewrite Hlt, D0 in Hregs. eapply abs_insert; eassumption.
    + change (clint { w with clint := (clint_read (clint w) addr).2 }) with ((clint_read (clint w) addr).2).
      unfold clint_read. repeat case_match; auto.
Qed.
Lemma lw_clint_high_half_zero_witness :
  let h := boot_hart true 0 [(1, MTIME_ADDR + 4)] in
  let w := { (boot_world [(0, LOAD 2 3 1 0)] (keys [] 0)) with clint -> mtime := 0x1234500000000 } in
  exists h' w', hart_step true (mkst _ h w) = Ok tt (mkst _ h' w') /\ abs h' (next (mkarch DRAM_BASE (reg h)) 3 0) /\
    mtime (clint w') = mtime (clint w) /\ mtimecmp (clint w') = mtimecmp (clint w) /\ msip (clint w') = msip (clint w).
Proof.
  apply (lw_clint_high_half_zero true (boot_hart true 0 [(1, MTIME_ADDR + 4)])
    { (boot_world [(0, LOAD 2 3 1 0)] (keys [] 0)) with clint -> mtime := 0x1234500000000 }
    (mkarch DRAM_BASE (reg (boot_hart true 0 [(1, MTIME_ADDR + 4)]))) 3 1 0 (MTIME_ADDR + 4));
    try reflexivity; try (unfold is_reg, imm12; lia).
  - split; try reflexivity; try (left; reflexivity); try (vm_compute; split; congruence).
    split; [apply boot_hart_wf; [unfold is_u64; lia|repeat constructor; vm_compute; congruence]|].
    destruct (boot_world_wf [(0, LOAD 2 3 1 0)] (keys [] 0)) as [A B C D E F]; [repeat constructor; vm_compute; congruence|].
    constructor; try assumption. destruct C. constructor; assumption || (vm_compute; split; congruence).
  - apply abs_self.
Defined.
