(* ===== verification/System.v ===== *)
(** * The container: loading an image, stepping the harts, the stop conditions *)

From S2P Require Import Prelude Constants Alu MemAccess Csr Clint Hart Trap Execute Emulator Safety Ends Boot Spec Refine MemInstr.

(** ** The image loader *)

Lemma byte_of_le_value n : forall f k, (forall j, is_u8 (f j)) -> 0 <= k < Z.of_nat n -> byte_of (le_value n f) k = f k.
Proof.
  induction n as [|n IH]; intros f k Hf Hk; [lia|]. cbn [le_value].
  assert (Hfk : forall j, is_u8 ((fun j => f (j + 1)) j)) by (intros; apply Hf).
  destruct (Z.eq_dec k 0) as [->|].
  - unfold byte_of. rewrite Z.mul_0_r, Z.shiftr_0_r. pose proof (Hf 0). unfold is_u8, u8 in *.
    rewrite (Z.mul_comm 0x100), Z.mod_add by lia. apply Z.mod_small. assumption.
  - transitivity (byte_of (le_value n (fun j => f (j + 1))) (k - 1)).
    + unfold byte_of. rewrite !shiftr_div by lia. replace (8 * k) with (8 + 8 * (k - 1)) by lia.
      rewrite Z.pow_add_r, <- Z.div_div by (try apply Z.pow_nonzero; try apply Z.pow_pos_nonneg; lia).
      change (2 ^ 8) with 0x100. pose proof (Hf 0). unfold is_u8 in *.
      rewrite (Z.mul_comm 0x100), Z.div_add by lia. rewrite (Z.div_small (f 0)) by lia. reflexivity.
    + rewrite IH by (assumption || lia). f_equal. lia.
Qed.

Lemma le_word_value bytes k : le_word bytes k = le_value 8 (fun j => default 0 (bytes !! (8 * k + Z.to_nat j)%nat)).
Proof. unfold le_word. cbn [le_value]. cbn -[Z.mul Z.add lookup default Nat.mul]. rewrite !Z.mul_0_r, Z.add_0_r. reflexivity. Qed.

Lemma bytes_u8 bytes j : Forall is_u8 bytes -> is_u8 (default 0 (bytes !! j)).
Proof.
  intros Hb. destruct (bytes !! j) eqn:E; cbn; [|unfold is_u8; lia]. eapply Forall_lookup_1; eassumption.
Qed.

Section Init.
Context `{Console}.

Lemma load_words_ok bytes n : forall k (e : emulator), Z.of_nat (k + n) <= vec_size (memory (shared e)) ->
  exists e', load_words bytes n k e = Ok tt e' /\ harts e' = harts e /\
    vec_size (memory (shared e')) = vec_size (memory (shared e)) /\
    (forall i, vec_get (memory (shared e')) i =
      if (Z.of_nat k <=? i) && (i <? Z.of_nat (k + n)) then le_word bytes (Z.to_nat i) else vec_get (memory (shared e)) i) /\
    clint (shared e') = clint (shared e) /\ global_store_gen (shared e') = global_store_gen (shared e).
Proof.
  induction n as [|n IH]; intros k e Hk.
  - exists e. repeat split. intros i. destruct (Z.leb_spec (Z.of_nat k) i), (Z.ltb_spec i (Z.of_nat (k + 0))); cbn; try reflexivity. lia.
  - cbn [load_words]. replace (vec_in (memory (shared e)) (Z.of_nat k)) with true by (unfold vec_in; lia).
    set (e1 := { e with shared -> memory ::= _ }).
    destruct (IH (S k) e1) as (e' & E1 & E2 & E3 & E4 & E5 & E6).
    { change (vec_size (memory (shared e1))) with (vec_size (memory (shared e))). lia. }
    exists e'. split; [exact E1|]. split; [exact E2|]. split; [exact E3|]. split; [|split; [exact E5|exact E6]].
    intros i. rewrite E4.
    change (memory (shared e1)) with (vec_put (memory (shared e)) (Z.of_nat k) (le_word bytes k)). rewrite vec_get_put.
    case_decide as Ei.
    + subst i. rewrite Nat2Z.id.
      destruct (Z.leb_spec (Z.of_nat (S k)) (Z.of_nat k)), (Z.leb_spec (Z.of_nat k) (Z.of_nat k)),
        (Z.ltb_spec (Z.of_nat k) (Z.of_nat (k + S n))); cbn [andb]; try lia; reflexivity.
    + destruct (Z.leb_spec (Z.of_nat (S k)) i), (Z.leb_spec (Z.of_nat k) i),
        (Z.ltb_spec i (Z.of_nat (S k + n))), (Z.ltb_spec i (Z.of_nat (k + S n))); cbn [andb]; try lia; reflexivity.
Qed.

Lemma init_words_ge bytes : (8 <= length bytes)%nat -> Z.of_nat (length bytes) < 2 ^ 63 ->
  init_words bytes = (length bytes / 8)%nat.
Proof.
  intros Hl Hb. unfold init_words. cbv zeta. rewrite u64_id by (unfold is_u64; zlia).
  replace (Z.min _ _) with (Z.of_nat (length bytes) / 8) by zlia.
  change 8 with (Z.of_nat 8). rewrite <- Nat2Z.inj_div. apply Nat2Z.id.
Qed.

(** *** The invariant of the container *)

Definition emu_wf (e : emulator) : Prop := Forall hart_wf (harts e) /\ world_wf (shared e).
(** Every hart's mhartid names a CLINT hart. *)
Definition emu_ids (e : emulator) : Prop := Forall (fun h => 0 <= u32 (mhartid (cs h)) < NUM_HARTS) (harts e).

(** What a step of the container may be from [e]. *)
Definition kept_or_renumbered (e e' : emulator) : Prop := length (harts e') = length (harts e) /\
  forall i h h', harts e !! i = Some h -> harts e' !! i = Some h' -> mhartid (cs h') = mhartid (cs h) \/ renumbered h'.
Definition stopped_by (L : bool) (c : Z) (e : emulator) : Prop := exists h, h ∈ harts e /\ stops L c h.

Lemma with_hart_step L i (e : emulator) h : harts e !! i = Some h -> emu_wf e ->
  match with_hart i (hart_step L) e with
  | Ok _ e' => emu_wf e' /\ exists h', harts e' = <[i := h']> (harts e) /\ same_or_renumbered h h'
  | Exit c e' => stopped_by L c e'
  | Throw _ => False
  | UB => misnumbered h
  end.
Proof.
  intros Hi [Hh Hw]. unfold with_hart. rewrite Hi.
  pose proof (sound_step L (mkst _ h (shared e)) ltac:(split; [eapply Forall_lookup_1; eassumption|exact Hw])) as Hsnd.
  pose proof (step_ends L (mkst _ h (shared e))) as Hend. unfold walk in Hend. destruct (hart_step L _) as [a s|c s|s|]; [|exists (hrt s)|exact Hsnd|exact Hsnd].
  - destruct Hsnd as [Hh' Hw']. split; [split; [apply Forall_insert; assumption|exact Hw']|]. exists (hrt s). split; [reflexivity|exact Hend].
  - split; [|exact Hend]. eapply list_elem_of_lookup_2, list_lookup_insert_eq, lookup_lt_Some, Hi.
Qed.

(** The loop over the harts: those not yet stepped are as they were. *)
Lemma for_harts_step L l : forall e : emulator, emu_wf e -> NoDup l -> (forall i, i ∈ l -> (i < length (harts e))%nat) ->
  match for_harts l (hart_step L) e with
  | Ok _ e' => emu_wf e' /\ kept_or_renumbered e e' /\ forall j, j ∉ l -> harts e' !! j = harts e !! j
  | Exit c e' => stopped_by L c e'
  | Throw _ => False
  | UB => exists j h, j ∈ l /\ harts e !! j = Some h /\ misnumbered h
  end.
Proof.
  induction l as [|i l IH]; intros e He Hnd Hl.
  - cbn. split; [exact He|]. split; [|reflexivity]. split; [reflexivity|]. intros i h h' H1 H2. left. congruence.
  - cbn [for_harts]. unfold bind. destruct (lookup_lt_is_Some_2 (harts e) i (Hl i ltac:(left))) as [h Hi].
    pose proof (with_hart_step L i e h Hi He) as Hs. destruct (with_hart i (hart_step L) e) as [a e1|c e1|e1|]; [|exact Hs|exact Hs|].
    2:{ exists i, h. split; [left|split; [exact Hi|exact Hs]]. }
    destruct Hs as [He1 (h1 & E1 & Hk)]. inversion Hnd as [|? ? Hni Hnd']; subst.
    specialize (IH e1 He1 Hnd'). rewrite E1, length_insert in IH. specialize (IH (fun j Hj => Hl j ltac:(right; assumption))).
    destruct (for_harts l (hart_step L) e1) as [b e2|c e2|e2|]; [|exact IH|exact IH|].
    + destruct IH as (He2 & [Hlen Hkr] & Hrest). split; [exact He2|]. split; [split; [now rewrite Hlen, ?E1, ?length_insert|]|].
      * intros j hj hj' H1 H2. destruct (decide (i = j)) as [<-|Hne].
        { rewrite Hrest, ?E1, list_lookup_insert_eq in H2 by (assumption || eapply lookup_lt_Some, Hi).
          assert (hj = h) as -> by congruence. injection H2 as <-. exact Hk. }
        apply (Hkr j hj hj'); [now rewrite ?E1, list_lookup_insert_ne|exact H2].
      * intros j Hj. apply not_elem_of_cons in Hj as [Hj1 Hj2]. rewrite Hrest, ?E1, list_lookup_insert_ne by congruence. reflexivity.
    + destruct IH as (j & h' & Hj & Hlj & Hm). rewrite ?E1, list_lookup_insert_ne in Hlj by (intros ->; contradiction).
      exists j, h'. split; [right; exact Hj|]. split; [exact Hlj|exact Hm].
Qed.
End Init.

(** ** Theorems *)

(** Loading an image of [n >= 8] bytes puts byte [j] of the file at address
    [DRAM_BASE + j] for every [j] below [8 * (n / 8)], and leaves every other byte
    of memory alone; in particular the last [n mod 8] bytes are not loaded. *)
Theorem init_loads_image `{Console} bytes e :
  Forall is_u8 bytes -> (8 <= length bytes)%nat -> Z.of_nat (length bytes) <= 8 * vec_size (memory (shared e)) ->
  Z.of_nat (length bytes) < 2 ^ 63 ->
  exists e', init bytes e = Ok tt e' /\ harts e' = harts e /\
    forall j, 0 <= j -> byte_at (shared e') (DRAM_BASE + j) =
      if j <? Z.of_nat (8 * (length bytes / 8)) then default 0 (bytes !! Z.to_nat j) else byte_at (shared e) (DRAM_BASE + j).
Proof.
  intros Hb Hl Hsz Hbig. unfold init. rewrite (init_words_ge _ Hl Hbig).
  destruct (load_words_ok bytes (length bytes / 8) 0 e) as (e' & E1 & E2 & _ & E4 & _).
  { cbn [Nat.add]. rewrite Nat2Z.inj_div. zlia. }
  exists e'. split; [exact E1|]. split; [exact E2|]. intros j Hj. unfold byte_at, dram_idx. rewrite E4.
  replace (DRAM_BASE + j - DRAM_BASE) with j by lia. replace ((DRAM_BASE + j) mod 8) with (j mod 8) by (unfold DRAM_BASE; zlia).
  cbn [Nat.add]. rewrite Nat2Z.inj_mul. change (Z.of_nat 8) with 8. change (Z.of_nat 0) with 0.
  destruct (Z.ltb_spec j (8 * Z.of_nat (length bytes / 8))), (Z.leb_spec 0 (j / 8)), (Z.ltb_spec (j / 8) (Z.of_nat (length bytes / 8)));
    cbn [andb]; try (exfalso; zlia); [|reflexivity].
  rewrite le_word_value, byte_of_le_value; [f_equal; f_equal; zlia|intros; apply bytes_u8; assumption|].
  change (Z.of_nat 8) with 8. zlia.
Qed.
Definition image9 : list Z := [0x13; 0x01; 0; 0; 0x73; 0; 0; 0; 0xFF].
Lemma init_loads_image_witness :
  let e := emulator_new false time0 (keys [] 0) in
  exists e', init image9 e = Ok tt e' /\ harts e' = harts e /\
    forall j, 0 <= j -> byte_at (shared e') (DRAM_BASE + j) =
      if j <? Z.of_nat (8 * (length image9 / 8)) then default 0 (image9 !! Z.to_nat j) else byte_at (shared e) (DRAM_BASE + j).
Proof.
  apply (init_loads_image image9 (emulator_new false time0 (keys [] 0))).
  - repeat constructor; unfold is_u8; lia.
  - cbn. lia.
  - vm_compute. congruence.
  - vm_compute. reflexivity.
Defined.

(** C5: One [step] of the container (the clock advances, then every hart steps in order on the
    shared world) from any well-formed state. It throws nothing. When it goes on, every hart and
    the shared world are well-formed again, and a hart number has changed only if that hart has
    just executed a CSR instruction on [mhartid]. When it ends the program, a hart has reached the
    end of a test image (status 0 or 1) or an atomic access outside DRAM (status 1). It is
    undefined only if a hart number was out of the CLINT's range before: a guest that never
    writes [mhartid] cannot bring that about. *)
Theorem emulator_step_safe `{Console} L e : emu_wf e ->
  match step L e with
  | Ok _ e' => emu_wf e' /\ kept_or_renumbered e e'
  | Exit c e' => stopped_by L c e'
  | Throw _ => False
  | UB => exists h, h ∈ harts e /\ misnumbered h
  end.
Proof.
  intros [Hh Hw]. set (e1 := { e with shared -> clint ::= (fun c => advance c 1) }).
  assert (He1 : emu_wf e1) by (split; [exact Hh|]; destruct Hw; constructor; try assumption; apply (advance_wf _ 1); assumption).
  change (step L e) with (for_harts (seq 0 (length (harts e1))) (hart_step L) e1).
  pose proof (for_harts_step L (seq 0 (length (harts e1))) e1 He1 (NoDup_seq _ _) ltac:(intros i Hi; apply elem_of_seq in Hi; lia)) as Hs.
  destruct (for_harts _ _ e1) as [a e'|c e'|e'|]; [split; apply Hs|exact Hs|exact Hs|].
  destruct Hs as (j & h & _ & Hj & Hm). exists h. split; [exact (list_elem_of_lookup_2 _ _ _ Hj)|exact Hm].
Qed.

Lemma emulator_new_wf `{Console} L t : emu_wf (emulator_new L time0 t) /\ emu_ids (emulator_new L time0 t).
Proof.
  split; [split|].
  - apply Forall_map, Forall_forall. intros i Hi. apply hart_init_wf. apply elem_of_seq in Hi. change (Z.to_nat NUM_HARTS) with 4%nat in Hi. unfold is_u64. lia.
  - apply (boot_world_wf []). constructor.
  - apply Forall_map, Forall_forall. intros i Hi. apply elem_of_seq in Hi. change (Z.to_nat NUM_HARTS) with 4%nat in Hi. cbn. rewrite u32_id by (unfold is_u32; lia). unfold NUM_HARTS. lia.
Qed.
(** With zeroed memory the step goes on; with [amoadd.w x0, x0, (x0)] in the first cell it
    ends the program with status 1. *)
Definition powered_with (cells : list (Z * Z)) : emulator :=
  mkemu (harts (emulator_new false time0 (keys [] 0))) (boot_world cells (keys [] 0)).
Lemma powered_wf cells : Forall (fun p => is_u64 p.2) cells -> emu_wf (powered_with cells).
Proof. intros Hc. split; [apply emulator_new_wf|apply boot_world_wf, Hc]. Qed.
Lemma emulator_step_safe_witness :
  match step false (powered_with []) with Ok _ e' => emu_wf e' | _ => False end /\
  match step false (powered_with [(0, 0x202f)]) with Exit c e' => c = 1 /\ stopped_by false c e' | _ => False end.
Proof.
  split.
  - pose proof (emulator_step_safe false (powered_with []) (powered_wf _ (List.Forall_nil _))) as T.
    assert (E : match step false (powered_with []) with Ok _ _ => True | _ => False end) by (vm_compute; exact I).
    destruct (step false (powered_with [])); try contradiction. apply T.
  - pose proof (emulator_step_safe false (powered_with [(0, 0x202f)]) (powered_wf [(0, 0x202f)] ltac:(repeat constructor; cbn; unfold is_u64; lia))) as T.
    assert (E : match step false (powered_with [(0, 0x202f)]) with Exit c _ => c = 1 | _ => False end) by (vm_compute; reflexivity).
    destruct (step false (powered_with [(0, 0x202f)])); try contradiction. split; [exact E|exact T].
Defined.

(** A program that writes an out-of-range number to its writable mhartid
    breaks the precondition of the step: on the next step the interrupt test
    indexes the CLINT vectors out of range, which is undefined behaviour. *)
Theorem mhartid_write_breaks_step `{Console} L h w v :
  clint_wf (clint w) -> smp_released h = true -> num_harts (clint w) <= u32 v ->
  exists s', csr_write L MHARTID v (mkst _ h w) = Ok true s' /\ hart_step L s' = UB.
Proof.
  intros Hc Hrel Hv. exists (mkst _ { h with cs -> mhartid := v } w). split; [reflexivity|].
  set (h' := { h with cs -> mhartid := v }). assert (Hrel' : smp_released h' = true) by exact Hrel.
  unfold hart_step. rewrite (bind_ok _ _ _ _ _ (on_hart_ok _ _ _)).
  rewrite (bind_ok _ _ _ _ _ (park_ok (set_reg 0 0 h') w Hrel')). cbn [fst snd].
  unfold bind at 1. replace (refresh_mip (mkst _ (set_reg 0 0 h') w)) with (@UB st unit); [reflexivity|].
  unfold refresh_mip, bind, get_hart, gets, check_timer, checked, check_timer_interrupt. cbn [hrt wld].
  change (mhartid (cs (set_reg 0 0 h'))) with v. destruct Hc.
  rewrite lookup_ge_None_2; [reflexivity|]. rewrite cwf_cmp_len. lia.
Qed.
Lemma mhartid_write_breaks_step_witness :
  let s := boot false 0 [] (keys [] 0) in
  exists s', csr_write false MHARTID 4 s = Ok true s' /\ hart_step false s' = UB.
Proof.
  apply (mhartid_write_breaks_step false (hart_init false 0) (boot_world [] (keys [] 0)) 4).
  - apply CLINT_new_wf. lia.
  - reflexivity.
  - vm_compute. congruence.
Defined.
