(* ===== verification/Cmodel.v ===== *)
(** * C arrays, counted loops and interleavings

    What the models of the bare-metal programs under [workloads/] share: arrays
    as lists indexed by [Z], [for] loops as [for_range], and the interleavings of
    the operations of several cores with the commutation lemma that reduces them
    to running the cores one after the other. *)

From S2P Require Import Prelude.
From stdpp Require Import sets.
Local Open Scope Z_scope.

(** ** Arrays

    [aget a i] is [a[i]] and [aset a i v] is [a[i] = v]. C leaves an access out
    of range undefined; here it reads an arbitrary value and writes nothing, and the
    theorems that depend on an access assume or prove that it is in range. *)
Section Arrays.
Context {A : Type} `{Inhabited A}.
Implicit Types (a : list A) (i : Z).

Definition alen a : Z := Z.of_nat (length a).
Definition aget a i : A := if 0 <=? i then a !!! Z.to_nat i else inhabitant.
Definition aset a i (v : A) : list A := if 0 <=? i then <[Z.to_nat i := v]> a else a.

Lemma alen_aset a i v : alen (aset a i v) = alen a.
Proof. unfold alen, aset. destruct (0 <=? i); [rewrite length_insert|]; reflexivity. Qed.

Lemma length_aset a i v : length (aset a i v) = length a.
Proof. unfold aset. destruct (0 <=? i); [rewrite length_insert|]; reflexivity. Qed.

Lemma aget_aset a i v : 0 <= i < alen a -> aget (aset a i v) i = v.
Proof.
  unfold alen, aget, aset. intros. destruct (Z.leb_spec 0 i); [|lia].
  rewrite list_lookup_total_insert_eq; [reflexivity|lia].
Qed.

Lemma aget_aset_ne a i j v : i <> j -> aget (aset a i v) j = aget a j.
Proof.
  unfold aget, aset. intros. destruct (Z.leb_spec 0 j), (Z.leb_spec 0 i); try reflexivity.
  rewrite list_lookup_total_insert_ne; [reflexivity|lia].
Qed.

(** The value of a cell after a write, in range or not. *)
Lemma aget_aset_case a i j v :
  aget (aset a i v) j = if (i =? j) && (0 <=? i) && (i <? alen a) then v else aget a j.
Proof.
  destruct (Z.eqb_spec i j) as [<-|Hne]; cbn [andb]; [|apply aget_aset_ne; assumption].
  unfold aget, aset, alen. destruct (Z.leb_spec 0 i); cbn [andb]; [|reflexivity].
  destruct (Z.ltb_spec i (Z.of_nat (length a))).
  - rewrite list_lookup_total_insert_eq; [reflexivity|lia].
  - rewrite list_insert_ge by lia. reflexivity.
Qed.

(** The same write to arrays that agree on a cell. *)
Lemma aget_aset_same a b i j v : alen a = alen b -> aget a j = aget b j -> aget (aset a i v) j = aget (aset b i v) j.
Proof. intros Hl He. rewrite !aget_aset_case, Hl, He. reflexivity. Qed.

Lemma aset_comm a i j v w : i <> j -> aset (aset a i v) j w = aset (aset a j w) i v.
Proof.
  unfold aset. intros. destruct (Z.leb_spec 0 i), (Z.leb_spec 0 j); try reflexivity.
  apply list_insert_insert_ne. lia.
Qed.

Lemma aset_aset a i v w : aset (aset a i v) i w = aset a i w.
Proof. unfold aset. destruct (0 <=? i); [apply list_insert_insert_eq|reflexivity]. Qed.

Lemma aget_lookup a i x : 0 <= i -> a !! Z.to_nat i = Some x -> aget a i = x.
Proof. unfold aget. intros. destruct (Z.leb_spec 0 i); [|lia]. apply list_lookup_total_correct. assumption. Qed.

Lemma lookup_aget a i : 0 <= i < alen a -> a !! Z.to_nat i = Some (aget a i).
Proof.
  unfold alen, aget. intros. destruct (Z.leb_spec 0 i); [|lia].
  apply list_lookup_lookup_total_lt. lia.
Qed.

(** Arrays with the same length and the same cells are equal. *)
Lemma aget_ext a b : length a = length b -> (forall i, 0 <= i < alen a -> aget a i = aget b i) -> a = b.
Proof.
  intros Hl He. apply (list_eq_same_length _ _ (length a)); [now rewrite Hl|reflexivity|].
  intros i x y Hi Hx Hy. specialize (He (Z.of_nat i)). unfold alen in He.
  rewrite (aget_lookup a (Z.of_nat i) x), (aget_lookup b (Z.of_nat i) y) in He; try apply He; try lia;
    rewrite ?Nat2Z.id; assumption.
Qed.

Lemma aget_replicate n (v : A) i : 0 <= i < Z.of_nat n -> aget (replicate n v) i = v.
Proof. intros. apply aget_lookup; [lia|]. apply lookup_replicate_2. lia. Qed.
End Arrays.

Arguments aget : simpl never.
Arguments aset : simpl never.

(** ** Counted loops: [for (i = lo; i < hi; i++) s = body i s] *)
Section Loops.
Context {S : Type}.

Fixpoint for_n (n : nat) (i : Z) (body : Z -> S -> S) (s : S) : S :=
  match n with
  | O => s
  | Datatypes.S n => for_n n (i + 1) body (body i s)
  end.
Definition for_range (lo hi : Z) (body : Z -> S -> S) (s : S) : S := for_n (Z.to_nat (hi - lo)) lo body s.

Lemma for_n_ind (P : Z -> S -> Prop) body n : forall i s,
  P i s -> (forall j s, i <= j < i + Z.of_nat n -> P j s -> P (j + 1) (body j s)) ->
  P (i + Z.of_nat n) (for_n n i body s).
Proof.
  induction n as [|n IH]; intros i s H0 Hs; cbn [for_n].
  - rewrite Z.add_0_r. exact H0.
  - replace (i + Z.of_nat (Datatypes.S n)) with ((i + 1) + Z.of_nat n) by lia.
    apply IH; [apply Hs; [lia|exact H0]|]. intros. apply Hs; [lia|assumption].
Qed.

(** The invariant rule. *)
Lemma for_range_ind (P : Z -> S -> Prop) lo hi body s :
  lo <= hi -> P lo s -> (forall i s, lo <= i < hi -> P i s -> P (i + 1) (body i s)) ->
  P hi (for_range lo hi body s).
Proof.
  intros Hle H0 Hs. unfold for_range. pose proof (for_n_ind P body (Z.to_nat (hi - lo)) lo s H0) as H.
  replace (lo + Z.of_nat (Z.to_nat (hi - lo))) with hi in H by lia. apply H. intros. apply Hs; [lia|assumption].
Qed.

Lemma for_range_empty lo hi body s : hi <= lo -> for_range lo hi body s = s.
Proof. intros. unfold for_range. replace (Z.to_nat (hi - lo)) with 0%nat by lia. reflexivity. Qed.

Lemma for_range_step lo hi body s : lo < hi -> for_range lo hi body s = for_range (lo + 1) hi body (body lo s).
Proof.
  intros. unfold for_range. replace (Z.to_nat (hi - lo)) with (Datatypes.S (Z.to_nat (hi - (lo + 1)))) by lia. reflexivity.
Qed.

Lemma for_n_add body n m : forall i s, for_n (n + m) i body s = for_n m (i + Z.of_nat n) body (for_n n i body s).
Proof.
  induction n as [|n IH]; intros i s; cbn [for_n Nat.add].
  - now rewrite Z.add_0_r.
  - rewrite IH. f_equal. lia.
Qed.

Lemma for_range_split lo mid hi body s : lo <= mid <= hi ->
  for_range lo hi body s = for_range mid hi body (for_range lo mid body s).
Proof.
  intros. unfold for_range. replace (Z.to_nat (hi - lo)) with (Z.to_nat (mid - lo) + Z.to_nat (hi - mid))%nat by lia.
  rewrite for_n_add. f_equal. lia.
Qed.

Lemma for_range_ext lo hi body body' s :
  (forall i s, lo <= i < hi -> body i s = body' i s) -> for_range lo hi body s = for_range lo hi body' s.
Proof.
  unfold for_range. intros He.
  assert (Hn : forall n i s, lo <= i -> i + Z.of_nat n <= Z.max lo hi -> for_n n i body s = for_n n i body' s).
  { induction n as [|n IH]; intros i t Hi Hn; cbn [for_n]; [reflexivity|].
    rewrite He by lia. apply IH; lia. }
  apply Hn; lia.
Qed.

(** A loop whose body does nothing on part of the range. *)
Lemma for_range_id lo hi body s : (forall i s, lo <= i < hi -> body i s = s) -> for_range lo hi body s = s.
Proof.
  intros Hi. rewrite (for_range_ext lo hi body (fun _ s => s) s Hi). unfold for_range.
  assert (Hn : forall n i, for_n n i (fun _ s => s) s = s) by (induction n; intros; [reflexivity|cbn [for_n]; auto]).
  apply Hn.
Qed.
End Loops.

(** The indices [lo, lo + 1, ..., hi - 1]. *)
Definition zrange (lo hi : Z) : list Z := map (fun k => lo + Z.of_nat k) (seq 0 (Z.to_nat (hi - lo))).

Lemma in_zrange lo hi i : In i (zrange lo hi) <-> lo <= i < hi.
Proof.
  unfold zrange. rewrite in_map_iff. split.
  - intros [k [<- Hk]]. apply in_seq in Hk. lia.
  - intros. exists (Z.to_nat (i - lo)). split; [lia|]. apply in_seq. lia.
Qed.

Lemma elem_of_zrange lo hi i : i ∈ zrange lo hi <-> lo <= i < hi.
Proof. rewrite list_elem_of_In. apply in_zrange. Qed.

Lemma zrange_step lo hi : lo < hi -> zrange lo hi = lo :: zrange (lo + 1) hi.
Proof.
  intros. unfold zrange. replace (Z.to_nat (hi - lo)) with (Datatypes.S (Z.to_nat (hi - (lo + 1)))) by lia.
  cbn [seq map]. f_equal; [lia|]. rewrite <- seq_shift, map_map. apply map_ext. intros. lia.
Qed.

Lemma zrange_empty lo hi : hi <= lo -> zrange lo hi = [].
Proof. intros. unfold zrange. replace (Z.to_nat (hi - lo)) with 0%nat by lia. reflexivity. Qed.

Lemma length_zrange lo hi : length (zrange lo hi) = Z.to_nat (hi - lo).
Proof. unfold zrange. now rewrite length_map, length_seq. Qed.

Lemma zrange_split lo mid hi : lo <= mid <= hi -> zrange lo hi = zrange lo mid ++ zrange mid hi.
Proof.
  intros. remember (Z.to_nat (mid - lo)) as n eqn:En. revert lo H En.
  induction n as [|n IH]; intros lo H En.
  - now replace lo with mid by lia; rewrite (zrange_empty mid mid) by lia.
  - rewrite (zrange_step lo hi), (zrange_step lo mid) by lia. cbn [app]. f_equal. apply IH; lia.
Qed.

Lemma NoDup_zrange lo hi : NoDup (zrange lo hi).
Proof.
  assert (Inj eq eq (fun k => lo + Z.of_nat k)) by (intros ? ? ?; lia).
  apply (NoDup_fmap_2 (fun k => lo + Z.of_nat k)), NoDup_seq.
Qed.

(** ** Interleavings

    A program is a list of operations; [exec] runs it. [interleaving ps l] says
    that [l] is an order in which the operations of the programs [ps], one per
    core, can take effect. *)
Section Interleave.
Context {Op S : Type} (apply : Op -> S -> S).

Definition exec (l : list Op) (s : S) : S := fold_left (fun s o => apply o s) l s.

Inductive interleaving : list (list Op) -> list Op -> Prop :=
| interleaving_done ps : Forall (eq []) ps -> interleaving ps []
| interleaving_step k o p ps l :
    ps !! k = Some (o :: p) -> interleaving (<[k := p]> ps) l -> interleaving ps (o :: l).

Definition commute (o o' : Op) : Prop := forall s, apply o (apply o' s) = apply o' (apply o s).

Lemma exec_app l l' s : exec (l ++ l') s = exec l' (exec l s).
Proof. apply fold_left_app. Qed.

Lemma exec_push o l : (forall o', In o' l -> commute o o') -> forall s, exec l (apply o s) = apply o (exec l s).
Proof.
  induction l as [|o' l IH]; intros Hc s; [reflexivity|]. cbn [exec fold_left].
  rewrite <- (Hc o') by (now left). apply IH. intros. apply Hc. now right.
Qed.

(** Operations of different programs commute. *)
Definition cross_commute (ps : list (list Op)) : Prop :=
  forall i j p q o o', i <> j -> ps !! i = Some p -> ps !! j = Some q -> In o p -> In o' q -> commute o o'.

Lemma cross_commute_step k o p ps : ps !! k = Some (o :: p) -> cross_commute ps -> cross_commute (<[k := p]> ps).
Proof.
  intros Hk Hc i j q r a b Hij Hi Hj Ha Hb.
  assert (Hsub : forall i q a, <[k := p]> ps !! i = Some q -> In a q -> exists q', ps !! i = Some q' /\ In a q').
  { intros i' q' a' Hl Hin. apply list_lookup_insert_Some in Hl as [(<- & <- & _)|[_ Hl]]; [|eauto].
    exists (o :: p). split; [exact Hk|now right]. }
  destruct (Hsub _ _ _ Hi Ha) as (q' & Hi' & Ha'). destruct (Hsub _ _ _ Hj Hb) as (r' & Hj' & Hb').
  exact (Hc i j q' r' a b Hij Hi' Hj' Ha' Hb').
Qed.

(** Any interleaving of programs whose operations commute across cores has the
    effect of running the programs one after the other. *)
Lemma interleaving_exec ps l : interleaving ps l -> cross_commute ps -> forall s, exec l s = exec (concat ps) s.
Proof.
  induction 1 as [ps Hn|k o p ps l Hk Hl IH]; intros Hc s.
  - induction Hn as [|x ps <- _ IH]; [reflexivity|]. cbn. apply IH.
    intros i j q r a b Hij Hi Hj. apply (Hc (Datatypes.S i) (Datatypes.S j)); [congruence|exact Hi|exact Hj].
  - cbn [exec fold_left]. fold (exec l (apply o s)). rewrite IH by (eapply cross_commute_step; eassumption).
    rewrite <- (take_drop_middle ps k (o :: p) Hk) at 2.
    rewrite insert_take_drop by (eapply lookup_lt_Some; eassumption).
    rewrite !concat_app, !exec_app. cbn [concat]. rewrite !exec_app. f_equal. cbn [exec fold_left]. f_equal.
    apply exec_push. intros o' Ho'. apply in_concat in Ho' as (q & Hq & Ho').
    apply list_elem_of_In, list_elem_of_lookup in Hq as [j Hj]. apply lookup_take_Some in Hj as [Hj Hlt].
    apply (Hc k j (o :: p) q); [lia|exact Hk|exact Hj|now left|exact Ho'].
Qed.
(** Running the programs one after the other is one of the interleavings. *)
Lemma interleaving_concat ps : interleaving ps (concat ps).
Proof.
  change ps with (replicate 0 [] ++ ps) at 1. generalize 0%nat as k.
  induction ps as [|p ps IH]; intros k.
  - rewrite app_nil_r. apply interleaving_done, Forall_replicate. reflexivity.
  - cbn [concat]. induction p as [|o p IHp].
    + cbn [app]. specialize (IH (Datatypes.S k)). now rewrite replicate_S_end, <- app_assoc in IH.
    + apply (interleaving_step k o p); [now rewrite lookup_app_r, length_replicate, Nat.sub_diag by (rewrite length_replicate; lia)|].
      rewrite insert_app_r_alt, length_replicate, Nat.sub_diag by (rewrite length_replicate; lia). exact IHp.
Qed.

(** A core may run the rest of its program in one piece. *)
Lemma interleaving_front k p ps l : ps !! k = Some p -> interleaving (<[k := []]> ps) l -> interleaving ps (p ++ l).
Proof.
  revert ps. induction p as [|o p IH]; intros ps Hk Hl.
  - now rewrite list_insert_id in Hl.
  - cbn [app]. apply (interleaving_step k o p); [exact Hk|]. apply IH; [apply list_lookup_insert_eq; eapply lookup_lt_Some, Hk|].
    now rewrite list_insert_insert_eq.
Qed.

Lemma interleaving_single p : interleaving [p] p.
Proof. pose proof (interleaving_concat [p]) as H. cbn [concat] in H. now rewrite app_nil_r in H. Qed.

(** An interleaving is a permutation of the programs' operations. *)
Lemma interleaving_perm ps l : interleaving ps l -> Permutation l (concat ps).
Proof.
  induction 1 as [ps Hn|k o p ps l Hk Hl IH].
  - induction Hn as [|x ps <- _ IH]; [constructor|exact IH].
  - rewrite IH, insert_take_drop by (eapply lookup_lt_Some; eassumption).
    rewrite <- (take_drop_middle ps k (o :: p) Hk) at 3. rewrite !concat_app. cbn [concat app]. now rewrite Permutation_middle.
Qed.

(** An interleaving seen through a test that only one program's operations pass. *)
Lemma interleaving_filter (f : Op -> bool) ps l : interleaving ps l -> forall k p, ps !! k = Some p ->
  (forall j q, j <> k -> ps !! j = Some q -> forall o, In o q -> f o = false) -> List.filter f l = List.filter f p.
Proof.
  induction 1 as [ps Hn|i o q ps l Hi Hl IH]; intros k p Hk Hno.
  - pose proof (proj1 (Forall_lookup _ _) Hn _ _ Hk) as <-. reflexivity.
  - cbn [List.filter]. destruct (decide (i = k)) as [->|Hne].
    + rewrite Hi in Hk. injection Hk as <-. cbn [List.filter].
      rewrite (IH k q); [reflexivity|apply list_lookup_insert_eq; eapply lookup_lt_Some, Hi|].
      intros j r Hj Hr. rewrite list_lookup_insert_ne in Hr by congruence. exact (Hno j r Hj Hr).
    + rewrite (Hno i (o :: q) Hne Hi o) by now left. apply (IH k p); [now rewrite list_lookup_insert_ne by congruence|].
      intros j r Hj Hr o' Ho'. apply list_lookup_insert_Some in Hr as [(<- & <- & _)|[_ Hr]].
      * apply (Hno i (o :: q) Hne Hi). now right.
      * exact (Hno j r Hj Hr o' Ho').
Qed.
End Interleave.
Arguments interleaving {Op}.

(** A counted loop is the run of its body over the range. *)
Lemma for_range_exec {S : Type} (body : Z -> S -> S) lo hi s : for_range lo hi body s = exec body (zrange lo hi) s.
Proof.
  destruct (Z.le_gt_cases lo hi) as [Hle|Hgt].
  - apply (for_range_ind (fun i t => t = exec body (zrange lo i) s) lo hi body s); [exact Hle| |].
    + now rewrite zrange_empty by lia.
    + intros i t Hi ->. rewrite (zrange_split lo i (i + 1)) by lia.
      rewrite (zrange_step i), (zrange_empty (i + 1)) by lia. now rewrite exec_app.
  - rewrite for_range_empty, zrange_empty by lia. reflexivity.
Qed.

(** The loop [for (i = lo; i < n; i += step)] as the list of its values of [i]. *)
Fixpoint strided (fuel : nat) (i n step : Z) : list Z :=
  match fuel with
  | O => []
  | S fuel => if i <? n then i :: strided fuel (i + step) n step else []
  end.

Lemma in_strided fuel i n step x : 0 < step -> n - i <= Z.of_nat fuel ->
  In x (strided fuel i n step) <-> i <= x < n /\ (x - i) mod step = 0.
Proof.
  intros Hs. revert i. induction fuel as [|fuel IH]; intros i Hf; [split; [intros []|lia]|]. cbn [strided].
  destruct (Z.ltb_spec i n); [|split; [intros []|lia]]. cbn [In]. rewrite IH by lia.
  assert (E : (x - (i + step)) mod step = (x - i) mod step) by (replace (x - i) with (x - (i + step) + 1 * step) by lia; now rewrite Z.mod_add by lia).
  rewrite E. split.
  - intros [->|[Hx Hm]]; [rewrite Z.sub_diag; split; [lia|now rewrite Z.mod_0_l by lia]|split; [lia|exact Hm]].
  - intros [Hx Hm]. destruct (decide (i = x)) as [->|Hne]; [now left|right]. split; [|exact Hm].
    apply Z.mod_divide in Hm as [k Hk]; [|lia]. assert (0 < k) by nia. nia.
Qed.

Lemma filter_flat_map {A B} (f : B -> bool) (g : A -> list B) l :
  List.filter f (flat_map g l) = flat_map (fun x => List.filter f (g x)) l.
Proof. induction l as [|x l IH]; [reflexivity|]. cbn. now rewrite List.filter_app, IH. Qed.

Lemma filter_of_map {A B} (f : B -> bool) (g : A -> B) l : List.filter f (map g l) = map g (List.filter (fun x => f (g x)) l).
Proof. induction l as [|x l IH]; [reflexivity|]. cbn. rewrite IH. now destruct (f (g x)). Qed.

Lemma filter_none {A} (f : A -> bool) l : (forall x, In x l -> f x = false) -> List.filter f l = [].
Proof. induction l as [|x l IH]; intros H; [reflexivity|]. cbn. rewrite (H x) by now left. apply IH. intros. apply H. now right. Qed.

(** The one value of a range that equals [y]. *)
Lemma filter_eqb_zrange lo hi y :
  List.filter (fun i => i =? y) (zrange lo hi) = if (lo <=? y) && (y <? hi) then [y] else [].
Proof.
  destruct (Z.leb_spec lo y); [destruct (Z.ltb_spec y hi)|]; cbn [andb];
    [|apply filter_none; intros x Hx; apply in_zrange in Hx; apply Z.eqb_neq; lia..].
  rewrite (zrange_split lo y hi), (zrange_step y hi), List.filter_app by lia. cbn [List.filter]. rewrite Z.eqb_refl, !filter_none; [reflexivity|..];
    intros x Hx; apply in_zrange in Hx; apply Z.eqb_neq; lia.
Qed.

Lemma exec_flat_map {Op Op' S : Type} (apply : Op -> S -> S) (f : Op' -> list Op) l s :
  exec apply (flat_map f l) s = exec (fun o s => exec apply (f o) s) l s.
Proof.
  revert s. induction l as [|o l IH]; intros s; [reflexivity|]. cbn [flat_map]. rewrite exec_app. cbn [exec fold_left].
  apply IH.
Qed.

Lemma Forall_filter {A} (P : A -> Prop) f (l : list A) : Forall P l -> Forall P (List.filter f l).
Proof. induction 1 as [|x l Hx _ IH]; cbn; [constructor|]. destruct (f x); [now constructor|exact IH]. Qed.

Lemma exec_map {Op Op' S : Type} (apply : Op -> S -> S) (f : Op' -> Op) l s :
  exec apply (map f l) s = exec (fun o s => apply (f o) s) l s.
Proof. revert s. induction l as [|o l IH]; intros s; [reflexivity|]. cbn. apply IH. Qed.

Lemma alen_exec {Op A} `{Inhabited A} (apply : Op -> list A -> list A) l a :
  (forall o a, alen (apply o a) = alen a) -> alen (exec apply l a) = alen a.
Proof. intros Ha. revert a. induction l as [|o l IH]; intros a; [reflexivity|]. cbn. unfold exec in IH. rewrite IH. apply Ha. Qed.

(** Programs of array writes [a[i] = f i]: the run writes the cells it names. *)
Definition set_cell {A} `{Inhabited A} (f : Z -> A) (i : Z) (a : list A) : list A := aset a i (f i).

Lemma exec_set_cell {A} `{Inhabited A} (f : Z -> A) l a i : 0 <= i < alen a ->
  aget (exec (set_cell f) l a) i = if bool_decide (i ∈ l) then f i else aget a i.
Proof.
  revert a. induction l as [|j l IH]; intros a Hi; [reflexivity|]. cbn [exec fold_left]. unfold exec in IH. rewrite IH by (unfold set_cell; rewrite alen_aset; assumption).
  unfold set_cell. rewrite aget_aset_case.
  destruct (decide (i ∈ l)) as [Hin|Hin];
    [rewrite (bool_decide_true (i ∈ l)), (bool_decide_true (i ∈ j :: l)) by set_solver; reflexivity|].
  rewrite (bool_decide_false (i ∈ l)) by assumption. destruct (Z.eqb_spec j i) as [->|Hne].
  - rewrite (bool_decide_true (i ∈ i :: l)) by set_solver. case_bools; cbn; try reflexivity; lia.
  - rewrite (bool_decide_false (i ∈ j :: l)) by set_solver. reflexivity.
Qed.

Lemma set_cell_commute {A} `{Inhabited A} (f : Z -> A) i j : commute (set_cell f) i j.
Proof.
  intros a. unfold set_cell. destruct (decide (i = j)) as [<-|]; [reflexivity|]. symmetry. now apply aset_comm.
Qed.

(** Programs of array updates [a[i] = g (a[i]) i], where [g] may read only its
    own cell: distinct cells commute, and each cell sees its updates once. *)
Definition upd_cell {A} `{Inhabited A} (g : Z -> A -> A) (i : Z) (a : list A) : list A := aset a i (g i (aget a i)).

Lemma upd_cell_commute {A} `{Inhabited A} (g : Z -> A -> A) i j : commute (upd_cell g) i j.
Proof.
  intros a. unfold upd_cell. destruct (decide (i = j)) as [<-|Hne]; [reflexivity|].
  rewrite !aget_aset_ne by congruence. symmetry. now apply aset_comm.
Qed.

Lemma exec_upd_cell {A} `{Inhabited A} (g : Z -> A -> A) l a i : NoDup l -> 0 <= i < alen a ->
  aget (exec (upd_cell g) l a) i = if bool_decide (i ∈ l) then g i (aget a i) else aget a i.
Proof.
  intros Hn. revert a. induction Hn as [|j l Hj Hn IH]; intros a Hi; [reflexivity|].
  cbn [exec fold_left]. unfold exec in IH. rewrite IH by (unfold upd_cell; rewrite alen_aset; assumption).
  unfold upd_cell. rewrite aget_aset_case. destruct (Z.eqb_spec j i) as [->|Hne].
  - rewrite (bool_decide_false (i ∈ l)) by assumption. rewrite (bool_decide_true (i ∈ i :: l)) by set_solver.
    case_bools; cbn; try reflexivity; lia.
  - cbn [andb]. destruct (decide (i ∈ l)) as [Hin|Hin].
    + rewrite !bool_decide_true by set_solver. reflexivity.
    + rewrite !bool_decide_false by set_solver. reflexivity.
Qed.

(** Consecutive chunks of size [q] make one range. *)
Lemma concat_chunks q nc : 0 <= q -> 0 <= nc -> concat (map (fun k => zrange (k * q) ((k + 1) * q)) (zrange 0 nc)) = zrange 0 (nc * q).
Proof.
  intros Hq Hn. pattern nc. apply natlike_ind; [rewrite !zrange_empty by lia; reflexivity| |exact Hn].
  intros k Hk IH. rewrite (zrange_split 0 k (Z.succ k)) by lia. rewrite map_app, concat_app, IH.
  rewrite (zrange_step k), (zrange_empty (k + 1)) by lia. cbn [map concat]. rewrite app_nil_r.
  rewrite <- (zrange_split 0 (k * q)) by nia. reflexivity.
Qed.

(** ** Sums and accumulation

    [add_cell (c, v)] is [a[c] += v] on an array of [int]s. *)
Definition zsum (l : list Z) : Z := fold_right Z.add 0 l.
Definition add_cell (o : Z * Z) (a : list Z) : list Z := aset a o.1 (s32 (aget a o.1 + o.2)).
(** What a program adds to the cell [c]. *)
Definition sum_for (c : Z) (l : list (Z * Z)) : Z := zsum (map (fun o : Z * Z => if o.1 =? c then o.2 else 0) l).

Lemma s32_s32_add a b : s32 (s32 a + b) = s32 (a + b).
Proof. word. Qed.

Lemma zsum_app l l' : zsum (l ++ l') = zsum l + zsum l'.
Proof. induction l as [|x l IH]; [reflexivity|]. cbn [zsum fold_right app] in *. fold (zsum (l ++ l')). fold (zsum l). rewrite IH. lia. Qed.

Lemma zsum_flat_map {A} (f : A -> list Z) l : zsum (flat_map f l) = zsum (map (fun x => zsum (f x)) l).
Proof. induction l as [|x l IH]; [reflexivity|]. cbn [flat_map map]. rewrite zsum_app, IH. reflexivity. Qed.

Lemma map_flat_map {A B C} (f : B -> C) (g : A -> list B) l : map f (flat_map g l) = flat_map (fun x => map f (g x)) l.
Proof. induction l as [|x l IH]; [reflexivity|]. cbn [flat_map]. now rewrite map_app, IH. Qed.

Lemma zsum_map_ext {A} (f g : A -> Z) l : (forall x, In x l -> f x = g x) -> zsum (map f l) = zsum (map g l).
Proof. intros. f_equal. now apply map_ext_in. Qed.

Lemma zsum_zero {A} (f : A -> Z) l : (forall x, In x l -> f x = 0) -> zsum (map f l) = 0.
Proof.
  induction l as [|x l IH]; intros Hf; [reflexivity|]. cbn. fold (zsum (map f l)). rewrite IH by (intros; apply Hf; now right).
  rewrite Hf by (now left). reflexivity.
Qed.

Lemma zsum_single (f : Z -> Z) c lo hi :
  zsum (map (fun x => if x =? c then f x else 0) (zrange lo hi)) = if (lo <=? c) && (c <? hi) then f c else 0.
Proof.
  destruct (Z.leb_spec lo c), (Z.ltb_spec c hi); cbn [andb].
  - rewrite (zrange_split lo c hi), (zrange_step c hi) by lia. rewrite map_app, zsum_app. cbn [map]. cbn [zsum fold_right].
    fold (zsum (map (fun x => if x =? c then f x else 0) (zrange (c + 1) hi))).
    rewrite !zsum_zero, Z.eqb_refl; [lia| |]; intros x Hx; apply in_zrange in Hx; destruct (Z.eqb_spec x c); lia.
  - apply zsum_zero. intros x Hx. apply in_zrange in Hx. destruct (Z.eqb_spec x c); lia.
  - apply zsum_zero. intros x Hx. apply in_zrange in Hx. destruct (Z.eqb_spec x c); lia.
  - apply zsum_zero. intros x Hx. apply in_zrange in Hx. destruct (Z.eqb_spec x c); lia.
Qed.

Lemma sum_for_app c l l' : sum_for c (l ++ l') = sum_for c l + sum_for c l'.
Proof. unfold sum_for. now rewrite map_app, zsum_app. Qed.

Lemma sum_for_flat_map {A} c (f : A -> list (Z * Z)) l : sum_for c (flat_map f l) = zsum (map (fun x => sum_for c (f x)) l).
Proof. induction l as [|x l IH]; [reflexivity|]. cbn [flat_map map]. rewrite sum_for_app, IH. reflexivity. Qed.

Lemma add_cell_commute o o' : commute add_cell o o'.
Proof.
  intros a. unfold add_cell. destruct (decide (o.1 = o'.1)) as [->|Hne].
  - rewrite !aset_aset. destruct (decide (0 <= o'.1 < alen a)) as [Hi|Hi].
    + rewrite !aget_aset, !s32_s32_add by exact Hi. f_equal. f_equal. lia.
    + unfold aset, alen in *. destruct (Z.leb_spec 0 (o'.1)); [|reflexivity]. rewrite !list_insert_ge; try reflexivity; lia.
  - rewrite !aget_aset_ne by congruence. symmetry. apply aset_comm. congruence.
Qed.

Lemma add_cell_ne o a c : o.1 <> c -> aget (add_cell o a) c = aget a c.
Proof. intros. unfold add_cell. now apply aget_aset_ne. Qed.

Lemma exec_add_cell l a c : 0 <= c < alen a -> is_s32 (aget a c) ->
  aget (exec add_cell l a) c = s32 (aget a c + sum_for c l).
Proof.
  revert a. induction l as [|o l IH]; intros a Hc Ha; cbn [exec fold_left].
  - cbn. rewrite Z.add_0_r. symmetry. now apply s32_id.
  - unfold exec in IH. unfold sum_for. cbn [map]. cbn [zsum fold_right].
    fold (zsum (map (fun o : Z * Z => if o.1 =? c then o.2 else 0) l)). fold (sum_for c l).
    unfold add_cell at 2. destruct (Z.eqb_spec o.1 c) as [->|Hne].
    + rewrite IH; rewrite ?alen_aset; try assumption; rewrite aget_aset by assumption; [|apply s32_range].
      rewrite s32_s32_add. f_equal. lia.
    + rewrite IH; rewrite ?alen_aset; try assumption; rewrite aget_aset_ne by assumption; [f_equal; lia|assumption].
Qed.
