(* ===== verification/Libc.v ===== *)
(** * The run-time library of the bare-metal programs:
    [workloads/demos/common/syscalls.c] and [workloads/benchmarks/common/syscalls.c]

    Output is the list of the bytes stored to the UART's TX register. A [char *]
    is the list of the bytes from the pointer on, terminator included; [None] is
    a read past the bytes that are there (undefined in C). *)

From Stdlib Require Import String Ascii.
From S2P Require Import Prelude Cmodel.

(** ** Characters and strings *)

(** [uart_send_char(c)] of the demos: one store of the (unsigned) char. *)
Definition uart_send_char (c : Z) : list Z := [u8 c].

(** [uart_send_char(c)] of the benchmarks: it polls STATUS first. [sts] are the
    values the polls read; the result is the polls left and the output. *)
Definition UART_STS_TX_FULL : Z := Z.shiftl 1 3.
Fixpoint uart_send_char_polled (sts : list Z) (c : Z) : option (list Z * list Z) :=
  match sts with
  | [] => None
  | s :: sts => if negb (Z.land s UART_STS_TX_FULL =? 0) then uart_send_char_polled sts c
                else Some (sts, uart_send_char c)
  end.

(** [while ( *s) uart_send_char( *s++ )] *)
Fixpoint uart_send_string (s : list Z) : option (list Z) :=
  match s with
  | [] => None
  | c :: s => if c =? 0 then Some [] else option_map (app (uart_send_char c)) (uart_send_string s)
  end.

(** ** Decimal output *)

(** The loop [while (n != 0) { buffer[i++] = (n % 10) + '0'; n = n / 10; }]; the
    buffer is kept with its last element first, the order the second loop sends
    it in. [None] when the fuel runs out. *)
Fixpoint digits_loop (fuel : nat) (n : Z) (buffer : list Z) : option (list Z) :=
  if n =? 0 then Some buffer
  else match fuel with
       | O => None
       | S fuel => digits_loop fuel (Z.quot n 10) (u8 (Z.rem n 10 + 48) :: buffer)
       end.
(** Ten digits are enough for an [int] ([digits_loop_some]). *)
Definition int_digits : nat := 10.

Definition uart_send_integer (n : Z) : option (list Z) :=
  if n =? 0 then Some (uart_send_char 48)
  else
    let '(sign, n) := if n <? 0 then (uart_send_char 45, s32 (- n)) else ([], n) in
    option_map (fun buffer => sign ++ flat_map uart_send_char buffer) (digits_loop int_digits n []).

(** ** [printf] *)

Inductive va_item := va_int (n : Z) | va_str (s : list Z).

(** One directive or character, then the rest. A ['%'] at the very end sends the
    terminator and goes on past it. *)
Fixpoint printf (format : list Z) (args : list va_item) : option (list Z) :=
  match format with
  | [] => None
  | c :: format =>
    if c =? 0 then Some []
    else if c =? 37 then
      match format with
      | [] => None
      | d :: format =>
        if d =? 100 then
          match args with
          | va_int n :: args =>
            o ← uart_send_integer n; o' ← printf format args; Some (o ++ o')
          | _ => None
          end
        else if d =? 115 then
          match args with
          | va_str s :: args =>
            o ← uart_send_string s; o' ← printf format args; Some (o ++ o')
          | _ => None
          end
        else option_map (app (uart_send_char d)) (printf format args)
      end
    else option_map (app (uart_send_char c)) (printf format args)
  end.

(** ** Matrices and arrays *)

(** The bytes of a string literal, and the literal with its terminator. *)
Definition str (s : string) : list Z := map (fun a => Z.of_N (N_of_ascii a)) (list_ascii_of_string s).
Definition cstr (s : list Z) : list Z := s ++ [0].
Definition msg_matrix : list Z := str "Result Matrix:" ++ [13; 10].
Definition msg_array : list Z := str "Result Array:" ++ [13; 10].

Definition out_app (a b : option (list Z)) : option (list Z) := o ← a; o' ← b; Some (o ++ o').
(** A sequence of [uart_send_string] and [uart_send_integer] calls. *)
Definition out_seq (l : list (option (list Z))) : option (list Z) := fold_left out_app l (Some []).
Definition send (s : list Z) : option (list Z) := uart_send_string (cstr s).

(** The weak definitions that a program without its own [thread_entry] or [main] gets:
    every core but 0 stays in [thread_entry], and [main] returns -1. *)
Definition weak_thread_entry (cid : Z) : bool := cid =? 0.
Definition weak_main : option (list Z) * Z := (send (str "Implement main(), foo!" ++ [10]), -1).
Arguments str s%_string_scope.

Definition syscall_print_matrix (lda : Z) (matrix : list Z) : option (list Z) :=
  let out := uart_send_string (cstr msg_matrix) in
  let out := for_range 0 lda (fun i out =>
    let out := for_range 0 lda (fun j out =>
      out_app (out_app out (uart_send_integer (aget matrix (j + i * lda)))) (uart_send_string (cstr [32]))) out in
    out_app out (uart_send_string (cstr [13; 10]))) out in
  out_app out (uart_send_string (cstr [13; 10])).

Definition syscall_print_array (lda : Z) (array : list Z) : option (list Z) :=
  let out := uart_send_string (cstr msg_array) in
  let out := for_range 0 lda (fun i out =>
    out_app (out_app out (uart_send_integer (aget array i))) (uart_send_string (cstr [32]))) out in
  out_app out (uart_send_string (cstr [13; 10])).

(** ** [memset] and [memcpy] on a byte memory *)

Fixpoint memset (m : list Z) (p c : Z) (n : nat) : list Z :=
  match n with
  | O => m
  | S n => memset (aset m p (u8 c)) (p + 1) c n
  end.
Fixpoint memcpy (m : list Z) (dd ss : Z) (n : nat) : list Z :=
  match n with
  | O => m
  | S n => memcpy (aset m dd (aget m ss)) (dd + 1) (ss + 1) n
  end.

(** ** Theorems: strings *)

Lemma uart_send_string_ok s : Forall is_u8 s -> ~ In 0 s -> uart_send_string (cstr s) = Some s.
Proof.
  induction 1 as [|c s Hc Hs IH]; intros Hn; [reflexivity|]. cbn.
  destruct (Z.eqb_spec c 0) as [->|Hc0]; [exfalso; apply Hn; now left|].
  fold (cstr s). rewrite IH by (intros Hi; apply Hn; now right). cbn. unfold u8.
  rewrite Z.mod_small by (unfold is_u8 in Hc; lia). reflexivity.
Qed.

(** ** Theorems: decimal output *)

(** The value of a string of decimal digits. *)
Definition dec_value (ds : list Z) : Z := fold_left (fun v d => 10 * v + (d - 48)) ds 0.
Definition is_digit (c : Z) : Prop := 48 <= c <= 57.

Lemma dec_value_from ds v : fold_left (fun v d => 10 * v + (d - 48)) ds v = v * 10 ^ Z.of_nat (length ds) + dec_value ds.
Proof.
  unfold dec_value. revert v. induction ds as [|d ds IH]; intros v; cbn [fold_left length]; [lia|].
  rewrite IH, (IH (10 * 0 + (d - 48))). rewrite Nat2Z.inj_succ, Z.pow_succ_r by lia. lia.
Qed.

Lemma dec_value_cons d ds : dec_value (d :: ds) = (d - 48) * 10 ^ Z.of_nat (length ds) + dec_value ds.
Proof. unfold dec_value at 1. cbn [fold_left]. rewrite dec_value_from. f_equal. Qed.

(** What the two loops produce for a positive number: at most [fuel] digits, no
    leading zero, of value [n], before what was in the buffer. *)
Lemma digits_loop_some fuel : forall n buf, 0 < n < 10 ^ Z.of_nat fuel ->
  exists ds d ds', ds = d :: ds' /\ digits_loop fuel n buf = Some (ds ++ buf) /\ Forall is_digit ds /\ d <> 48 /\
    dec_value ds = n /\ (length ds <= fuel)%nat.
Proof.
  induction fuel as [|fuel IH]; intros n buf Hn; [cbn in Hn; lia|].
  rewrite Nat2Z.inj_succ, Z.pow_succ_r in Hn by lia. cbn [digits_loop].
  destruct (Z.eqb_spec n 0); [lia|]. rewrite Z.quot_div_nonneg, Z.rem_mod_nonneg by lia.
  assert (Hd : u8 (n mod 10 + 48) = n mod 10 + 48).
  { unfold u8. apply Z.mod_small. pose proof (Z.mod_pos_bound n 10). lia. }
  rewrite Hd. destruct (Z.eqb_spec (n / 10) 0) as [E|E].
  - rewrite E. exists [n mod 10 + 48], (n mod 10 + 48), []. split; [reflexivity|]. split; [destruct fuel; reflexivity|].
    assert (n mod 10 = n) by (apply Z.mod_small; apply Z.div_small_iff in E; lia).
    apply Z.div_small_iff in E; [|lia]. unfold dec_value, is_digit. cbn. repeat split; [|lia..].
    constructor; [lia|constructor].
  - assert (0 < n / 10 < 10 ^ Z.of_nat fuel) as Hq.
    { split; [pose proof (Z.div_pos n 10); lia|]. apply Z.div_lt_upper_bound; lia. }
    destruct (IH (n / 10) (n mod 10 + 48 :: buf) Hq) as (ds & d & ds' & -> & -> & Hf & Hd0 & Hv & Hl).
    exists ((d :: ds') ++ [n mod 10 + 48]), d, (ds' ++ [n mod 10 + 48]). pose proof (Z.mod_pos_bound n 10).
    repeat split.
    + now rewrite <- app_assoc.
    + apply Forall_app. split; [exact Hf|]. constructor; [unfold is_digit; lia|constructor].
    + exact Hd0.
    + unfold dec_value in *. rewrite fold_left_app, Hv. cbn. pose proof (Z.div_mod n 10). lia.
    + rewrite length_app. cbn in *. lia.
Qed.

Lemma send_digits ds : Forall is_digit ds -> flat_map uart_send_char ds = ds.
Proof.
  induction 1 as [|d ds Hd _ IH]; [reflexivity|]. cbn. rewrite IH. unfold uart_send_char, u8, is_digit in *.
  rewrite Z.mod_small by lia. reflexivity.
Qed.

Lemma uart_send_integer_ok n : - 2 ^ 31 < n < 2 ^ 31 ->
  exists ds, uart_send_integer n = Some ((if n <? 0 then [45] else []) ++ ds) /\ Forall is_digit ds /\
    dec_value ds = Z.abs n /\ (1 <= length ds <= int_digits)%nat /\ (head ds = Some 48 <-> n = 0).
Proof.
  intros Hn. unfold uart_send_integer. destruct (Z.eqb_spec n 0) as [->|Hn0].
  - exists [48]. unfold is_digit, int_digits. cbn. repeat split; try lia. repeat constructor; lia.
  - assert (Hs : s32 (- n) = - n) by (apply s32_id; unfold is_s32; lia).
    assert (0 < Z.abs n < 10 ^ Z.of_nat int_digits) as Ha by (change (10 ^ Z.of_nat int_digits) with 10000000000; lia).
    destruct (digits_loop_some int_digits (Z.abs n) [] Ha) as (ds & d & ds' & E & Hl & Hf & Hd & Hv & Hlen).
    exists ds. rewrite app_nil_r in Hl.
    destruct (Z.ltb_spec n 0) as [Hneg|Hneg]; cbn [option_map];
      [rewrite Hs; replace (- n) with (Z.abs n) by lia | replace n with (Z.abs n) at 1 by lia];
      rewrite Hl; cbn [option_map]; rewrite send_digits by assumption;
      (split; [reflexivity|]; split; [assumption|]; split; [assumption|];
       rewrite E in *; cbn in *; split; [lia|]; split; [intros [=]; contradiction|lia]).
Qed.

(** [uart_send_integer] sends the decimal representation of every [int] but
    [INT_MIN]: a minus sign exactly for the negative numbers, then one to ten
    digits, without a leading zero, whose value is [|n|]; the buffer of twelve is
    never overrun. *)
Theorem uart_send_integer_decimal n : - 2 ^ 31 < n < 2 ^ 31 ->
  exists ds, uart_send_integer n = Some ((if n <? 0 then [45] else []) ++ ds) /\ Forall is_digit ds /\
    dec_value ds = Z.abs n /\ (1 <= length ds <= int_digits)%nat /\ (head ds = Some 48 <-> n = 0).
Proof. apply uart_send_integer_ok. Qed.

Lemma uart_send_integer_decimal_witness : uart_send_integer (-1203) = Some [45; 49; 50; 48; 51] /\
  exists ds, uart_send_integer (-1203) = Some ((if -1203 <? 0 then [45] else []) ++ ds) /\ Forall is_digit ds /\
    dec_value ds = Z.abs (-1203) /\ (1 <= length ds <= int_digits)%nat /\ (head ds = Some 48 <-> -1203 = 0).
Proof. split; [reflexivity|]. apply (uart_send_integer_decimal (-1203)). lia. Defined.

(** On [INT_MIN] the negation overflows and the remainders stay negative, so
    after the minus sign ten bytes are sent none of which is a digit. *)
Theorem uart_send_integer_int_min :
  exists out, uart_send_integer (- 2 ^ 31) = Some (45 :: out) /\ length out = 10%nat /\ Forall (fun c => c < 48) out.
Proof. eexists. split; [vm_compute; reflexivity|]. split; [reflexivity|]. repeat constructor. Qed.

(** ** Theorems: [printf] *)

(** The parts of a format: a character, [%d], [%s], and ['%'] before any other
    character, which sends that character. *)
Inductive piece := Lit (c : Z) | Int (n : Z) | Str (s : list Z) | Esc (d : Z).

Definition piece_ok (p : piece) : Prop :=
  match p with
  | Lit c => 0 < c < 256 /\ c <> 37
  | Int n => - 2 ^ 31 < n < 2 ^ 31
  | Str s => Forall is_u8 s /\ ~ In 0 s
  | Esc d => 0 < d < 256 /\ d <> 100 /\ d <> 115
  end.
Definition piece_fmt (p : piece) : list Z :=
  match p with Lit c => [c] | Int _ => [37; 100] | Str _ => [37; 115] | Esc d => [37; d] end.
Definition piece_args (p : piece) : list va_item :=
  match p with Int n => [va_int n] | Str s => [va_str (cstr s)] | _ => [] end.

(** [out] is the canonical decimal representation of [n]. *)
Definition decimal (n : Z) (out : list Z) : Prop :=
  exists ds, out = (if n <? 0 then [45] else []) ++ ds /\ Forall is_digit ds /\ dec_value ds = Z.abs n /\
    ds <> [] /\ (head ds = Some 48 <-> n = 0).
Definition renders (p : piece) (out : list Z) : Prop :=
  match p with
  | Lit c => out = [c]
  | Int n => decimal n out
  | Str s => out = s
  | Esc d => out = [d]
  end.

Lemma send_char_ok c : 0 < c < 256 -> uart_send_char c = [c].
Proof. intros. unfold uart_send_char, u8. now rewrite Z.mod_small by lia. Qed.

Lemma decimal_ok n : - 2 ^ 31 < n < 2 ^ 31 -> exists out, uart_send_integer n = Some out /\ decimal n out.
Proof.
  intros Hn. destruct (uart_send_integer_ok n Hn) as (ds & E & Hf & Hv & Hl & Hz).
  eexists. split; [exact E|]. exists ds. repeat split; try assumption; [|apply Hz..]. intros ->. cbn in Hl. lia.
Qed.

Lemma printf_piece p f args : piece_ok p ->
  exists out, renders p out /\ printf (piece_fmt p ++ f) (piece_args p ++ args) = option_map (app out) (printf f args).
Proof.
  destruct p as [c|n|s|d]; cbn [piece_ok piece_fmt piece_args renders app printf].
  - intros [Hc Hp]. exists [c]. split; [reflexivity|].
    destruct (Z.eqb_spec c 0), (Z.eqb_spec c 37); try lia. now rewrite send_char_ok by lia.
  - intros Hn. destruct (decimal_ok n Hn) as (out & E & Hd). exists out. split; [exact Hd|].
    change (37 =? 0) with false. change (37 =? 37) with true. change (100 =? 100) with true. cbv iota.
    rewrite E. cbn. destruct (printf f args); reflexivity.
  - intros [Hs Hn]. exists s. split; [reflexivity|].
    change (37 =? 0) with false. change (37 =? 37) with true. change (115 =? 100) with false.
    change (115 =? 115) with true. cbv iota. rewrite uart_send_string_ok by assumption. cbn. destruct (printf f args); reflexivity.
  - intros [Hd [Hnd Hns]]. exists [d]. split; [reflexivity|].
    change (37 =? 0) with false. change (37 =? 37) with true. cbv iota.
    destruct (Z.eqb_spec d 100), (Z.eqb_spec d 115); try lia. now rewrite send_char_ok by lia.
Qed.

(** [printf] on a format made of literal characters, [%d], [%s] and escaped
    characters, with the arguments they call for, sends the renderings of the
    parts in order, decimal numbers for [%d] and whole strings for [%s]. *)
Theorem printf_renders ps : Forall piece_ok ps ->
  exists outs, Forall2 renders ps outs /\
    printf (cstr (flat_map piece_fmt ps)) (flat_map piece_args ps) = Some (concat outs).
Proof.
  induction 1 as [|p ps Hp _ (outs & Hr & E)]; [exists []; split; [constructor|reflexivity]|].
  unfold cstr in *. cbn [flat_map]. rewrite <- app_assoc.
  destruct (printf_piece p (flat_map piece_fmt ps ++ [0]) (flat_map piece_args ps) Hp) as (out & Ho & ->).
  exists (out :: outs). split; [now constructor|]. now rewrite E.
Qed.

(** ["n=%d\n"] *)
Lemma printf_renders_witness :
  printf (cstr [110; 61; 37; 100; 10]) [va_int 42] = Some [110; 61; 52; 50; 10] /\
  exists outs, Forall2 renders [Lit 110; Lit 61; Int 42; Lit 10] outs /\
    printf (cstr (flat_map piece_fmt [Lit 110; Lit 61; Int 42; Lit 10]))
      (flat_map piece_args [Lit 110; Lit 61; Int 42; Lit 10]) = Some (concat outs).
Proof.
  split; [reflexivity|]. apply (printf_renders [Lit 110; Lit 61; Int 42; Lit 10]). repeat constructor; cbn; lia.
Defined.

(** ** Theorems: matrices *)

Definition dec (n : Z) : list Z := default [] (uart_send_integer n).
Definition printable (a : list Z) : Prop := Forall (fun n => - 2 ^ 31 < n < 2 ^ 31) a.

Lemma dec_ok n : - 2 ^ 31 < n < 2 ^ 31 -> uart_send_integer n = Some (dec n) /\ decimal n (dec n).
Proof. intros Hn. unfold dec. destruct (decimal_ok n Hn) as (out & -> & Hd). now split. Qed.

Lemma printable_aget a i : printable a -> - 2 ^ 31 < aget a i < 2 ^ 31.
Proof.
  intros Hp. unfold aget. destruct (0 <=? i); [|cbn; lia]. rewrite list_lookup_total_alt.
  destruct (a !! Z.to_nat i) as [x|] eqn:E; cbn; [|lia]. unfold printable in Hp. rewrite Forall_lookup in Hp. eauto.
Qed.

Lemma out_app_some a b : out_app (Some a) (Some b) = Some (a ++ b).
Proof. reflexivity. Qed.

(** A loop that appends output. *)
Lemma for_out lo hi (f : Z -> list Z) body out : lo <= hi ->
  (forall i o, lo <= i < hi -> body i (Some o) = Some (o ++ f i)) ->
  for_range lo hi body (Some out) = Some (out ++ flat_map f (zrange lo hi)).
Proof.
  intros Hle Hb. rewrite <- (app_nil_r out) at 1. change [] with (flat_map f []).
  rewrite <- (zrange_empty lo lo) by lia.
  apply (for_range_ind (fun i s => s = Some (out ++ flat_map f (zrange lo i))) lo hi body); [exact Hle|reflexivity|].
  intros i s Hi ->. rewrite Hb by lia. rewrite (zrange_split lo i (i + 1)) by lia.
  rewrite (zrange_step i), (zrange_empty (i + 1)) by lia. rewrite flat_map_app. cbn [flat_map].
  now rewrite app_nil_r, app_assoc.
Qed.

(** [syscall_print_matrix] sends the header, then the [lda] rows in order,
    each entry in decimal and followed by a blank, each row by CR LF, and a last
    CR LF; every entry is sent in canonical decimal form. *)
Theorem print_matrix_rows lda m : 0 <= lda -> printable m ->
  syscall_print_matrix lda m =
    Some (msg_matrix
      ++ flat_map (fun i => flat_map (fun j => dec (aget m (j + i * lda)) ++ [32]) (zrange 0 lda) ++ [13; 10]) (zrange 0 lda)
      ++ [13; 10])
  /\ forall i, decimal (aget m i) (dec (aget m i)).
Proof.
  intros Hl Hp. split; [|intros; apply dec_ok, printable_aget, Hp].
  unfold syscall_print_matrix. change (uart_send_string (cstr msg_matrix)) with (Some msg_matrix).
  change (uart_send_string (cstr [13; 10])) with (Some [13; 10]).
  change (uart_send_string (cstr [32])) with (Some [32]).
  rewrite (for_out 0 lda (fun i => flat_map (fun j => dec (aget m (j + i * lda)) ++ [32]) (zrange 0 lda) ++ [13; 10])); [|lia|].
  - now rewrite out_app_some, <- app_assoc.
  - intros i o Hi. rewrite (for_out 0 lda (fun j => dec (aget m (j + i * lda)) ++ [32])); [now rewrite out_app_some, <- app_assoc|lia|].
    intros j o' Hj. destruct (dec_ok (aget m (j + i * lda)) (printable_aget _ _ Hp)) as [-> _].
    now rewrite !out_app_some, <- app_assoc.
Qed.

Lemma print_matrix_rows_witness : syscall_print_matrix 1 [-7] = Some (msg_matrix ++ [45; 55; 32; 13; 10; 13; 10]) /\
  printable [-7] /\ (forall i, decimal (aget [-7] i) (dec (aget [-7] i))).
Proof.
  assert (Hp : printable [-7]) by (constructor; [lia|constructor]).
  split; [exact (proj1 (print_matrix_rows 1 [-7] ltac:(lia) Hp))|]. split; [exact Hp|].
  exact (proj2 (print_matrix_rows 1 [-7] ltac:(lia) Hp)).
Defined.

(** ** Theorems: [memset] and [memcpy] *)

Lemma alen_memcpy n : forall m dd ss, alen (memcpy m dd ss n) = alen m.
Proof. induction n; intros; cbn [memcpy]; [reflexivity|]. rewrite IHn. apply alen_aset. Qed.

Lemma memset_cell n : forall m p c i, 0 <= p -> p + Z.of_nat n <= alen m ->
  aget (memset m p c n) i = if (p <=? i) && (i <? p + Z.of_nat n) then u8 c else aget m i.
Proof.
  induction n as [|n IH]; intros m p c i Hp Hl; cbn [memset].
  - destruct (Z.leb_spec p i), (Z.ltb_spec i (p + Z.of_nat 0)); cbn; try reflexivity; lia.
  - rewrite IH by (rewrite ?alen_aset; lia). rewrite aget_aset_case.
    case_bools; cbn; try reflexivity; lia.
Qed.

(** [memcpy] of [n] bytes from [ss] to [dd], when the destination does not
    start inside the source, leaves at the destination exactly the bytes the
    source had, and every other byte alone. *)
Theorem memcpy_copies n : forall m dd ss, 0 <= dd -> 0 <= ss -> dd + Z.of_nat n <= alen m -> ss + Z.of_nat n <= alen m ->
  dd <= ss \/ ss + Z.of_nat n <= dd ->
  forall i, aget (memcpy m dd ss n) i =
    if (dd <=? i) && (i <? dd + Z.of_nat n) then aget m (ss + (i - dd)) else aget m i.
Proof.
  induction n as [|n IH]; intros m dd ss Hd Hs Hld Hls Ho i; cbn [memcpy].
  - case_bools; cbn; try reflexivity; lia.
  - rewrite IH by (rewrite ?alen_aset; lia). rewrite !aget_aset_case.
    case_bools; cbn; try reflexivity; try lia; f_equal; lia.
Qed.

Lemma memcpy_copies_witness : aget (memcpy [1; 2; 3; 4; 5; 6] 0 2 3) 1 =
  (if (0 <=? 1) && (1 <? 0 + Z.of_nat 3) then aget [1; 2; 3; 4; 5; 6] (2 + (1 - 0)) else aget [1; 2; 3; 4; 5; 6] 1).
Proof. apply (memcpy_copies 3 [1; 2; 3; 4; 5; 6] 0 2); unfold alen; cbn; lia. Defined.
