(* ===== verification/Kernels.v ===== *)
(** * The data-parallel benchmarks: [workloads/benchmarks/common/util.h] ([verify])
    and the kernels of mt-vvadd, mt-csaxpy, mt-mask-sfilter and mt-matmul

    A kernel is the list of the loop iterations a core runs, in order, and an
    operation on the shared array per iteration. The theorems are about every
    interleaving of the iterations of all the cores ([Cmodel.interleaving]); the
    iterations of distinct cores touch distinct cells, which is what makes an
    iteration a fair unit. Index arithmetic is exact (no product or sum below
    exceeds twice the array size); data arithmetic wraps as [int] does. *)

From Stdlib Require Import String.
From S2P Require Import Prelude Cmodel Libc.
From stdpp Require Import sets.
Local Open Scope Z_scope.

(** ** [verify] *)

(** [k] iterations of the unrolled loop from index [i]; [Some r] is [return r]. *)
Fixpoint verify_pairs (k : nat) (i : Z) (test ver : list Z) : option Z :=
  match k with
  | O => None
  | S k =>
    let t0 := aget test i in let t1 := aget test (i + 1) in
    let v0 := aget ver i in let v1 := aget ver (i + 1) in
    if negb (t0 =? v0) then Some (i + 1)
    else if negb (t1 =? v1) then Some (i + 2)
    else verify_pairs k (i + 2) test ver
  end.

Definition verify (n : Z) (test ver : list Z) : Z :=
  match verify_pairs (Z.to_nat (Z.quot n 2)) 0 test ver with
  | Some r => r
  | None =>
    if negb (Z.rem n 2 =? 0) && negb (aget test (n - 1) =? aget ver (n - 1)) then n else 0
  end.

(** The result of core 0: ["The code is ran with error code: "], the result, a newline. *)
Definition msg_error_code : list Z := str "The code is ran with error code: ".
Definition report (cid n : Z) (test ver : list Z) : option (list Z) :=
  if cid =? 0 then
    out_app (out_app (uart_send_string (cstr msg_error_code)) (uart_send_integer (verify n test ver)))
      (uart_send_string (cstr [10]))
  else Some [].

Lemma verify_pairs_none k : forall i t v, verify_pairs k i t v = None ->
  forall j, i <= j < i + 2 * Z.of_nat k -> aget t j = aget v j.
Proof.
  induction k as [|k IH]; intros i t v; cbn [verify_pairs]; [intros; lia|].
  destruct (Z.eqb_spec (aget t i) (aget v i)) as [E0|]; [|discriminate].
  destruct (Z.eqb_spec (aget t (i + 1)) (aget v (i + 1))) as [E1|]; [|discriminate]. cbn [negb].
  intros H j Hj. destruct (decide (j = i)) as [->|]; [exact E0|].
  destruct (decide (j = i + 1)) as [->|]; [exact E1|]. apply (IH _ _ _ H). lia.
Qed.

Lemma verify_pairs_some k : forall i t v r, verify_pairs k i t v = Some r ->
  i < r <= i + 2 * Z.of_nat k /\ aget t (r - 1) <> aget v (r - 1) /\ (forall j, i <= j < r - 1 -> aget t j = aget v j).
Proof.
  induction k as [|k IH]; intros i t v r; cbn [verify_pairs]; [discriminate|].
  destruct (Z.eqb_spec (aget t i) (aget v i)) as [E0|Hne].
  2: { intros [= <-]. replace (i + 1 - 1) with i by lia. repeat split; lia. }
  destruct (Z.eqb_spec (aget t (i + 1)) (aget v (i + 1))) as [E1|Hne].
  2: { intros [= <-]. replace (i + 2 - 1) with (i + 1) by lia. repeat split; try lia.
       intros j Hj. now replace j with i by lia. }
  cbn [negb]. intros H. destruct (IH _ _ _ _ H) as (Hr & Hne & Hall). repeat split; try lia.
  intros j Hj. destruct (decide (j = i)) as [->|]; [exact E0|].
  destruct (decide (j = i + 1)) as [->|]; [exact E1|]. apply Hall. lia.
Qed.

(** [verify] returns 0 exactly when the first [n] elements agree, and otherwise
    the 1-based position of the first element that differs. *)
Theorem verify_first_mismatch n test ver : 0 <= n ->
  let r := verify n test ver in
  if r =? 0 then forall i, 0 <= i < n -> aget test i = aget ver i
  else 1 <= r <= n /\ aget test (r - 1) <> aget ver (r - 1) /\ forall i, 0 <= i < r - 1 -> aget test i = aget ver i.
Proof.
  intros Hn r. subst r. unfold verify. rewrite Z.quot_div_nonneg, Z.rem_mod_nonneg by lia.
  destruct (verify_pairs _ 0 test ver) as [r|] eqn:E.
  - apply verify_pairs_some in E as (Hr & Hne & Hall). destruct (Z.eqb_spec r 0); [lia|].
    repeat split; [lia|zlia|assumption|]. intros. apply Hall. lia.
  - pose proof (verify_pairs_none _ _ _ _ E) as Hall.
    destruct (Z.eqb_spec (n mod 2) 0) as [Hz|Hz]; cbn [negb andb].
    { intros i Hi. apply Hall. zlia. }
    destruct (Z.eqb_spec (aget test (n - 1)) (aget ver (n - 1))) as [Ee|Ee]; cbn [negb].
    + intros i Hi. destruct (decide (i = n - 1)) as [->|]; [exact Ee|]. apply Hall. zlia.
    + destruct (Z.eqb_spec n 0); [zlia|]. repeat split; [lia|lia|assumption|]. intros i Hi. apply Hall. zlia.
Qed.

Lemma verify_first_mismatch_witness : verify 5 [1; 2; 3; 4; 5] [1; 2; 3; 9; 9] = 4 /\
  aget [1; 2; 3; 4; 5] (4 - 1) <> aget [1; 2; 3; 9; 9] (4 - 1).
Proof. split; [reflexivity|]. exact (proj1 (proj2 (verify_first_mismatch 5 [1; 2; 3; 4; 5] [1; 2; 3; 9; 9] ltac:(lia)))). Defined.

Lemma verify_equal n test ver : 0 <= n -> (forall i, 0 <= i < n -> aget test i = aget ver i) -> verify n test ver = 0.
Proof.
  intros Hn He. unfold verify. rewrite Z.quot_div_nonneg, Z.rem_mod_nonneg by lia.
  destruct (verify_pairs _ 0 test ver) as [r|] eqn:E.
  - apply verify_pairs_some in E as (Hr & Hne & _). exfalso. apply Hne, He. zlia.
  - destruct (Z.eqb_spec (n mod 2) 0); [reflexivity|]. rewrite He by zlia. now rewrite Z.eqb_refl.
Qed.

(** ** mt-vvadd *)

Definition vvadd_range (coreid ncores n : Z) : Z * Z :=
  let chunksize := Z.quot n ncores in
  let base := coreid * chunksize in
  let chunk_end := Z.min (base + chunksize) n in
  let end_ := if n <? chunk_end + chunksize then n else chunk_end in
  (base, end_).
(** [z[i] = x[i] + y[i]] *)
Definition vvadd_body (x y : list Z) : Z -> list Z -> list Z := set_cell (fun i => s32 (aget x i + aget y i)).
Definition vvadd (coreid ncores n : Z) (x y z : list Z) : list Z :=
  let '(base, end_) := vvadd_range coreid ncores n in for_range base end_ (vvadd_body x y) z.
(** The iterations of a core. *)
Definition vvadd_iters (ncores n coreid : Z) : list Z :=
  let '(base, end_) := vvadd_range coreid ncores n in zrange base end_.
(** [thread_entry] on [nc] cores: the kernels in the order [l], then the report. *)
Definition vvadd_thread_entry (n : Z) (x y ver : list Z) (l : list Z) (cid : Z) : option (list Z) :=
  report cid n (exec (vvadd_body x y) l (replicate (Z.to_nat n) 0)) ver.

(** The number of elements the cores compute between them. *)
Definition vvadd_covered (nc n : Z) : Z :=
  if (n mod nc =? 0) || (n mod nc <? n / nc) then n else nc * (n / nc).

Lemma vvadd_range_last nc n k : 0 < nc -> 0 <= n -> 0 <= k < nc ->
  vvadd_range k nc n = (k * (n / nc), if k =? nc - 1 then vvadd_covered nc n else (k + 1) * (n / nc)).
Proof.
  intros Hnc Hn Hk. unfold vvadd_range, vvadd_covered. rewrite Z.quot_div_nonneg by lia.
  pose proof (Z.div_pos n nc Hn Hnc) as Hq. pose proof (Z.mod_pos_bound n nc Hnc) as Hr.
  pose proof (Z.div_mod n nc ltac:(lia)) as Hdm. remember (n / nc) as q. remember (n mod nc) as r.
  assert (k * q + q <= nc * q) by nia.
  rewrite Z.min_l by lia. f_equal. destruct (Z.eqb_spec k (nc - 1)) as [->|Hne].
  - case_bools; cbn; nia.
  - destruct (Z.ltb_spec n (k * q + q + q)); [|lia]. assert (k + 2 <= nc) by lia. nia.
Qed.

Lemma vvadd_concat nc n : 0 < nc -> 0 <= n ->
  concat (map (vvadd_iters nc n) (zrange 0 nc)) = zrange 0 (vvadd_covered nc n).
Proof.
  intros Hnc Hn. rewrite (zrange_split 0 (nc - 1) nc) by lia.
  rewrite (zrange_step (nc - 1)), (zrange_empty (nc - 1 + 1)) by lia. rewrite map_app, concat_app. cbn [map concat].
  rewrite app_nil_r. unfold vvadd_iters at 2. rewrite vvadd_range_last, Z.eqb_refl by lia.
  erewrite (map_ext_in (vvadd_iters nc n)).
  2: { intros k Hk. apply in_zrange in Hk. unfold vvadd_iters. rewrite vvadd_range_last by lia.
       destruct (Z.eqb_spec k (nc - 1)); [lia|]. reflexivity. }
  pose proof (Z.div_pos n nc Hn Hnc). rewrite concat_chunks by lia.
  symmetry. apply zrange_split. unfold vvadd_covered. pose proof (Z.div_mod n nc). pose proof (Z.mod_pos_bound n nc Hnc).
  destruct (_ || _); nia.
Qed.

(** In every interleaving of the cores' iterations, mt-vvadd computes exactly
    the first [vvadd_covered nc n] sums and leaves the rest of the result array as
    it was: all [n] of them when [n mod nc] is 0 or less than the chunk size, and
    otherwise only [nc * (n / nc)]. *)
Theorem vvadd_parallel nc n x y z l : 0 < nc -> 0 <= n <= alen z ->
  interleaving (map (vvadd_iters nc n) (zrange 0 nc)) l ->
  forall i, 0 <= i < n ->
    aget (exec (vvadd_body x y) l z) i = if i <? vvadd_covered nc n then s32 (aget x i + aget y i) else aget z i.
Proof.
  intros Hnc Hn Hl i Hi. rewrite (interleaving_exec _ _ _ Hl).
  2: { intros ? ? ? ? ? ? _ _ _ _ _. apply set_cell_commute. }
  rewrite vvadd_concat by lia. unfold vvadd_body. rewrite exec_set_cell by lia.
  destruct (Z.ltb_spec i (vvadd_covered nc n));
    [rewrite bool_decide_true by (apply elem_of_zrange; lia)|rewrite bool_decide_false by (rewrite elem_of_zrange; lia)]; reflexivity.
Qed.

(** Ten elements on four cores: the chunk size is 2 and the last two sums are not computed. *)
Lemma vvadd_parallel_witness :
  let x := [1; 2; 3; 4; 5; 6; 7; 8; 9; 10] in
  let l := concat (map (vvadd_iters 4 10) (zrange 0 4)) in
  l = [0; 1; 2; 3; 4; 5; 6; 7] /\ aget (exec (vvadd_body x x) l (replicate 10 0)) 9 = aget (replicate 10 0) 9.
Proof.
  split; [reflexivity|].
  exact (vvadd_parallel 4 10 [1; 2; 3; 4; 5; 6; 7; 8; 9; 10] [1; 2; 3; 4; 5; 6; 7; 8; 9; 10] (replicate 10 0) _ eq_refl
    (conj (proj1 (Z.leb_le 0 10) eq_refl) (proj1 (Z.leb_le 10 10) eq_refl)) (interleaving_concat _) 9
    (conj (proj1 (Z.leb_le 0 9) eq_refl) eq_refl)).
Defined.

Lemma report_zero n test ver : 0 <= n -> (forall i, 0 <= i < n -> aget test i = aget ver i) ->
  report 0 n test ver = Some (msg_error_code ++ [48; 10]).
Proof. intros Hn He. unfold report. rewrite verify_equal by assumption. reflexivity. Qed.

(** ** mt-csaxpy *)

Definition csaxpy_range (cid nc n : Z) : Z * Z :=
  let chunk_sz := Z.quot n nc in
  let chunk := cid * chunk_sz in
  (chunk, Z.min (chunk + chunk_sz) n).
(** [if (cond[i]) inout_Y[i] += a * input_X[i]] *)
Definition csaxpy_body (a : Z) (X cond : list Z) : Z -> list Z -> list Z :=
  upd_cell (fun i y => if aget cond i =? 0 then y else s32 (y + a * aget X i)).
Definition mt_csaxpy (cid nc n a : Z) (X Y cond : list Z) : list Z :=
  let '(lo, hi) := csaxpy_range cid nc n in for_range lo hi (csaxpy_body a X cond) Y.
Definition csaxpy_iters (nc n cid : Z) : list Z := let '(lo, hi) := csaxpy_range cid nc n in zrange lo hi.
Definition csaxpy_thread_entry (n a : Z) (X Y cond ver l : list Z) (cid : Z) : option (list Z) :=
  report cid n (exec (csaxpy_body a X cond) l Y) ver.

Lemma csaxpy_concat nc n : 0 < nc -> 0 <= n ->
  concat (map (csaxpy_iters nc n) (zrange 0 nc)) = zrange 0 (nc * (n / nc)).
Proof.
  intros Hnc Hn. pose proof (Z.div_pos n nc Hn Hnc). pose proof (Z.mul_div_le n nc Hnc).
  rewrite <- concat_chunks by lia. f_equal. apply map_ext_in. intros k Hk. apply in_zrange in Hk.
  unfold csaxpy_iters, csaxpy_range. rewrite Z.quot_div_nonneg by lia. f_equal. rewrite Z.min_l by nia. lia.
Qed.

(** In every interleaving of the cores' iterations, mt-csaxpy updates each of
    the first [nc * (n / nc)] elements whose condition is set, once, and no
    other: the last [n mod nc] elements are left as they were. *)
Theorem csaxpy_parallel nc n a X Y cond l : 0 < nc -> 0 <= n <= alen Y ->
  interleaving (map (csaxpy_iters nc n) (zrange 0 nc)) l ->
  forall i, 0 <= i < n ->
    aget (exec (csaxpy_body a X cond) l Y) i =
      if (i <? nc * (n / nc)) && negb (aget cond i =? 0) then s32 (aget Y i + a * aget X i) else aget Y i.
Proof.
  intros Hnc Hn Hl i Hi. rewrite (interleaving_exec _ _ _ Hl).
  2: { intros ? ? ? ? ? ? _ _ _ _ _. apply upd_cell_commute. }
  rewrite csaxpy_concat by lia. unfold csaxpy_body.
  rewrite exec_upd_cell by (try apply NoDup_zrange; lia).
  destruct (Z.ltb_spec i (nc * (n / nc)));
    [rewrite bool_decide_true by (apply elem_of_zrange; lia)|rewrite bool_decide_false by (rewrite elem_of_zrange; lia)];
    destruct (aget cond i =? 0); reflexivity.
Qed.

Lemma csaxpy_parallel_witness :
  let l := concat (map (csaxpy_iters 2 5) (zrange 0 2)) in
  l = [0; 1; 2; 3] /\ aget (exec (csaxpy_body 3 [1; 1; 1; 1; 1] [1; 0; 1; 1; 1]) l [10; 20; 30; 40; 50]) 4 = 50.
Proof.
  split; [reflexivity|].
  exact (csaxpy_parallel 2 5 3 [1; 1; 1; 1; 1] [10; 20; 30; 40; 50] [1; 0; 1; 1; 1] _ eq_refl
    (conj (proj1 (Z.leb_le 0 5) eq_refl) (proj1 (Z.leb_le 5 5) eq_refl)) (interleaving_concat _) 4
    (conj (proj1 (Z.leb_le 0 4) eq_refl) eq_refl)).
Defined.

(** ** mt-mask-sfilter *)

Section MaskSfilter.
(** [m] is [m0, ..., m8]. *)
Context (input mask m : list Z) (input_sz : Z).

Definition sfilter_value (i j : Z) : Z :=
  if aget mask (i + j * input_sz) =? 0 then aget input (i + j * input_sz)
  else
    let i0 := s32 (aget input ((i - 1) + (j - 1) * input_sz) * aget m 0) in
    let i1 := s32 (aget input (i + (j - 1) * input_sz) * aget m 1) in
    let i2 := s32 (aget input ((i + 1) + (j - 1) * input_sz) * aget m 2) in
    let i3 := s32 (aget input ((i - 1) + j * input_sz) * aget m 3) in
    let i4 := s32 (aget input (i + j * input_sz) * aget m 4) in
    let i5 := s32 (aget input ((i + 1) + j * input_sz) * aget m 5) in
    let i6 := s32 (aget input ((i - 1) + (j + 1) * input_sz) * aget m 6) in
    let i7 := s32 (aget input (i + (j + 1) * input_sz) * aget m 7) in
    let i8 := s32 (aget input ((i + 1) + (j + 1) * input_sz) * aget m 8) in
    s32 (i0 + i1 + i2 + i3 + i4 + i5 + i6 + i7 + i8).

(** The iteration [(j, i)] of the two loops. *)
Definition sfilter_body (ji : Z * Z) (output : list Z) : list Z :=
  let '(j, i) := ji in aset output (i + j * input_sz) (sfilter_value i j).
Definition sfilter_row (j : Z) : list (Z * Z) :=
  if (j =? input_sz - 1) || (j =? 0) then [] else map (pair j) (zrange 1 (input_sz - 1)).
Definition sfilter_iters (ncores coreid : Z) : list (Z * Z) :=
  let rows := Z.quot input_sz ncores in
  flat_map sfilter_row (zrange (coreid * rows) ((coreid + 1) * rows)).
Definition mask_sfilter (coreid ncores : Z) (output : list Z) : list Z :=
  exec sfilter_body (sfilter_iters ncores coreid) output.
Definition sfilter_thread_entry (ver : list Z) (l : list (Z * Z)) (cid : Z) : option (list Z) :=
  report cid (input_sz * input_sz) (exec sfilter_body l (replicate (Z.to_nat (input_sz * input_sz)) 0)) ver.

Definition interior (i j : Z) : bool := (0 <? i) && (i <? input_sz - 1) && (0 <? j) && (j <? input_sz - 1).

(** As an operation on the cell alone. *)
Definition sfilter_cell (ind : Z) : Z := sfilter_value (ind mod input_sz) (ind / input_sz).

Lemma sfilter_body_cell ji a : 0 <= ji.2 < input_sz -> sfilter_body ji a = set_cell sfilter_cell (ji.2 + ji.1 * input_sz) a.
Proof.
  destruct ji as [j i]. cbn. intros Hi. unfold set_cell, sfilter_cell.
  rewrite Z.div_add, Z.mod_add, Z.div_small, Z.mod_small by lia. reflexivity.
Qed.

Lemma in_sfilter_iters nc k j i : In (j, i) (sfilter_iters nc k) ->
  0 < i < input_sz - 1 /\ k * Z.quot input_sz nc <= j < (k + 1) * Z.quot input_sz nc /\ j <> 0 /\ j <> input_sz - 1.
Proof.
  unfold sfilter_iters. rewrite in_flat_map. intros (j' & Hj & Hi). apply in_zrange in Hj. unfold sfilter_row in Hi.
  destruct (Z.eqb_spec j' (input_sz - 1)), (Z.eqb_spec j' 0); cbn in Hi; try contradiction.
  apply in_map_iff in Hi as (i' & [= <- <-] & Hi). apply in_zrange in Hi. lia.
Qed.

Lemma exec_sfilter l a : (forall j i, In (j, i) l -> 0 <= i < input_sz) ->
  exec sfilter_body l a = exec (set_cell sfilter_cell) (map (fun ji : Z * Z => ji.2 + ji.1 * input_sz) l) a.
Proof.
  intros Hl. rewrite exec_map. revert a. induction l as [|[j i] l IH]; intros a; [reflexivity|].
  cbn [exec fold_left]. rewrite sfilter_body_cell by (apply (Hl j); now left).
  apply IH. intros ? ? Hin. eapply Hl. right. exact Hin.
Qed.

(** When the size is a multiple of the number of cores, every interleaving of
    the cores' iterations leaves in each interior cell the masked 3x3 sum of the
    input (or the input itself where the mask is clear), and does not touch the
    border. *)
Theorem sfilter_parallel nc l output : 0 < nc -> 0 < input_sz -> input_sz mod nc = 0 -> alen output = input_sz * input_sz ->
  interleaving (map (sfilter_iters nc) (zrange 0 nc)) l ->
  forall i j, 0 <= i < input_sz -> 0 <= j < input_sz ->
    aget (exec sfilter_body l output) (i + j * input_sz) =
      if interior i j then sfilter_value i j else aget output (i + j * input_sz).
Proof.
  intros Hnc Hsz Hd Ho Hl i j Hi Hj.
  assert (Hq : input_sz = nc * Z.quot input_sz nc).
  { rewrite Z.quot_div_nonneg by lia. pose proof (Z.div_mod input_sz nc). lia. }
  assert (Hin : forall j' i', In (j', i') (concat (map (sfilter_iters nc) (zrange 0 nc))) <-> interior i' j' = true).
  { intros j' i'. rewrite in_concat. split.
    - intros (p & Hp & Hin). apply in_map_iff in Hp as (k & <- & Hk). apply in_zrange in Hk.
      apply in_sfilter_iters in Hin as (Hi' & Hj' & Hj0 & Hj1). unfold interior. rewrite !andb_true_iff, !Z.ltb_lt.
      assert ((k + 1) * Z.quot input_sz nc <= nc * Z.quot input_sz nc) by nia. nia.
    - unfold interior. rewrite !andb_true_iff, !Z.ltb_lt. intros [[[? ?] ?] ?].
      set (q := Z.quot input_sz nc) in *. assert (0 < q) by nia.
      exists (sfilter_iters nc (j' / q)). split; [apply in_map, in_zrange; split; [apply Z.div_pos; lia|apply Z.div_lt_upper_bound; lia]|].
      unfold sfilter_iters. fold q. apply in_flat_map. exists j'. split.
      + apply in_zrange. pose proof (Z.div_mod j' q). pose proof (Z.mod_pos_bound j' q). lia.
      + unfold sfilter_row. destruct (Z.eqb_spec j' (input_sz - 1)), (Z.eqb_spec j' 0); try lia. cbn.
        apply in_map, in_zrange. lia. }
  assert (Hb : forall j i, In (j, i) (concat (map (sfilter_iters nc) (zrange 0 nc))) -> 0 <= i < input_sz).
  { intros j' i' H. apply Hin in H. unfold interior in H. rewrite !andb_true_iff, !Z.ltb_lt in H. lia. }
  rewrite (interleaving_exec _ _ _ Hl).
  - rewrite exec_sfilter by exact Hb. rewrite exec_set_cell by nia. unfold sfilter_cell at 1.
    rewrite Z.div_add, Z.mod_add, Z.div_small, Z.mod_small by lia. rewrite Z.add_0_l.
    destruct (interior i j) eqn:E.
    + rewrite bool_decide_true; [reflexivity|]. apply list_elem_of_In, in_map_iff. exists (j, i). split; [reflexivity|now apply Hin].
    + rewrite bool_decide_false; [reflexivity|]. rewrite list_elem_of_In, in_map_iff. intros ([j' i'] & He & H).
      pose proof (Hb _ _ H). cbn in He. destruct (Z.div_mod_unique input_sz j' j i' i) as [-> ->]; [lia..|]. apply Hin in H. congruence.
  - intros a b p q o o' Hab Hp Hq' Ho1 Ho2 s.
    assert (Hm : forall (o : Z * Z) p k, map (sfilter_iters nc) (zrange 0 nc) !! k = Some p -> In o p -> 0 <= o.2 < input_sz).
    { intros [j1 i1] p1 k1 Hk Hin1. apply (Hb j1). apply in_concat. exists p1. split; [|exact Hin1].
      apply list_elem_of_In. eapply list_elem_of_lookup_2. exact Hk. }
    pose proof (Hm _ _ _ Hp Ho1) as H1. pose proof (Hm _ _ _ Hq' Ho2) as H2.
    rewrite !(fun a => sfilter_body_cell o a H1), !(fun a => sfilter_body_cell o' a H2). apply set_cell_commute.
Qed.
End MaskSfilter.

Lemma sfilter_parallel_witness :
  let l := concat (map (sfilter_iters 4 2) (zrange 0 2)) in
  let input := [1;2;3;4; 5;6;7;8; 9;10;11;12; 13;14;15;16] in
  aget (exec (sfilter_body input (replicate 16 1) (replicate 9 1) 4) l (replicate 16 0)) (1 + 1 * 4) = 54 /\
  aget (exec (sfilter_body input (replicate 16 1) (replicate 9 1) 4) l (replicate 16 0)) (0 + 1 * 4) = 0.
Proof.
  split.
  - exact (sfilter_parallel [1;2;3;4; 5;6;7;8; 9;10;11;12; 13;14;15;16] (replicate 16 1) (replicate 9 1) 4 2 _ (replicate 16 0)
      eq_refl eq_refl eq_refl eq_refl (interleaving_concat _) 1 1 ltac:(lia) ltac:(lia)).
  - exact (sfilter_parallel [1;2;3;4; 5;6;7;8; 9;10;11;12; 13;14;15;16] (replicate 16 1) (replicate 9 1) 4 2 _ (replicate 16 0)
      eq_refl eq_refl eq_refl eq_refl (interleaving_concat _) 0 1 ltac:(lia) ltac:(lia)).
Defined.

(** ** mt-matmul *)

Section Matmul.
Context (lda : Z) (A B : list Z).

(** The iteration [(j, k, i)]: [C[i + j*lda] += A[j*lda + k] * B[k*lda + i]]. *)
Definition matmul_op (o : Z * Z * Z) : Z * Z :=
  let '(j, k, i) := o in (i + j * lda, aget A (j * lda + k) * aget B (k * lda + i)).
Definition matmul_body (o : Z * Z * Z) (C : list Z) : list Z := add_cell (matmul_op o) C.
Definition matmul_iters (ncores coreid : Z) : list (Z * Z * Z) :=
  let block := Z.quot lda ncores in
  let start := block * coreid in
  flat_map (fun j => flat_map (fun k => map (fun i => (j, k, i)) (zrange 0 lda)) (zrange 0 lda))
    (zrange start (start + block)).
Definition matmul (coreid ncores : Z) (C : list Z) : list Z := exec matmul_body (matmul_iters ncores coreid) C.
Definition matmul_thread_entry (ver : list Z) (l : list (Z * Z * Z)) (cid : Z) : option (list Z) :=
  report cid (lda * lda) (exec matmul_body l (replicate (Z.to_nat (lda * lda)) 0)) ver.

(** The entry of the product. *)
Definition dot (i j : Z) : Z := zsum (map (fun k => aget A (j * lda + k) * aget B (k * lda + i)) (zrange 0 lda)).

Lemma sum_row i j j' : 0 <= i < lda ->
  sum_for (i + j * lda) (map matmul_op (flat_map (fun k => map (fun i => (j', k, i)) (zrange 0 lda)) (zrange 0 lda)))
  = if j' =? j then dot i j else 0.
Proof.
  intros Hi. unfold sum_for. rewrite !map_flat_map, zsum_flat_map.
  erewrite zsum_map_ext; [|intros k _; rewrite !map_map; reflexivity]. cbn [matmul_op fst snd].
  destruct (Z.eqb_spec j' j) as [->|Hne].
  - unfold dot. apply zsum_map_ext. intros k _.
    rewrite (zsum_map_ext _ (fun i' => if i' =? i then aget A (j * lda + k) * aget B (k * lda + i') else 0)).
    2: { intros i' _. destruct (Z.eqb_spec (i' + j * lda) (i + j * lda)), (Z.eqb_spec i' i); try reflexivity; lia. }
    rewrite zsum_single. destruct (Z.leb_spec 0 i), (Z.ltb_spec i lda); try lia. reflexivity.
  - apply zsum_zero. intros k _. apply zsum_zero. intros i' Hi'. apply in_zrange in Hi'.
    destruct (Z.eqb_spec (i' + j' * lda) (i + j * lda)); [|reflexivity].
    destruct (Z.div_mod_unique lda j' j i' i); lia.
Qed.

Lemma matmul_concat nc : 0 < nc -> 0 <= lda -> concat (map (matmul_iters nc) (zrange 0 nc)) =
  flat_map (fun j => flat_map (fun k => map (fun i => (j, k, i)) (zrange 0 lda)) (zrange 0 lda)) (zrange 0 (nc * (lda / nc))).
Proof.
  intros Hnc Hl. rewrite <- concat_chunks by (try apply Z.div_pos; lia).
  generalize (zrange 0 nc) as cores. induction cores as [|c cores IH]; [reflexivity|]. cbn [map concat].
  rewrite flat_map_app, <- IH. f_equal. unfold matmul_iters. rewrite Z.quot_div_nonneg by lia. do 2 f_equal; lia.
Qed.

(** In every interleaving of the cores' iterations, mt-matmul adds the entry of
    the matrix product to each cell of the first [nc * (lda / nc)] rows, with the
    wrap-around of [int], and leaves the remaining rows as they were. *)
Theorem matmul_parallel nc C l : 0 < nc -> 0 <= lda -> alen C = lda * lda ->
  (forall c, 0 <= c < alen C -> is_s32 (aget C c)) ->
  interleaving (map (matmul_iters nc) (zrange 0 nc)) l ->
  forall i j, 0 <= i < lda -> 0 <= j < lda ->
    aget (exec matmul_body l C) (i + j * lda) =
      if j <? nc * (lda / nc) then s32 (aget C (i + j * lda) + dot i j) else aget C (i + j * lda).
Proof.
  intros Hnc Hl Hlen Hr Hi i j Hi' Hj. assert (Hc : 0 <= i + j * lda < alen C) by nia.
  rewrite (interleaving_exec _ _ _ Hi) by (intros ? ? ? ? ? ? _ _ _ _ _; apply add_cell_commute).
  unfold matmul_body. rewrite <- (exec_map add_cell matmul_op). rewrite exec_add_cell by auto.
  rewrite matmul_concat by assumption.
  replace (sum_for _ _) with (if j <? nc * (lda / nc) then dot i j else 0).
  { destruct (j <? nc * (lda / nc)); [reflexivity|]. rewrite Z.add_0_r. apply s32_id. auto. }
  rewrite map_flat_map, sum_for_flat_map.
  rewrite (zsum_map_ext _ (fun j' => if j' =? j then dot i j' else 0)).
  2: { intros j' _. rewrite sum_row by assumption. destruct (Z.eqb_spec j' j) as [->|]; reflexivity. }
  rewrite zsum_single. destruct (Z.leb_spec 0 j); [reflexivity|lia].
Qed.
End Matmul.

Lemma matmul_parallel_witness :
  let l := concat (map (matmul_iters 2 2) (zrange 0 2)) in
  aget (exec (matmul_body 2 [1; 2; 3; 4] [5; 6; 7; 8]) l [0; 0; 0; 0]) (0 + 1 * 2) = 43 /\
  aget (exec (matmul_body 2 [1; 2; 3; 4] [5; 6; 7; 8]) l [0; 0; 0; 0]) (1 + 0 * 2) = 22.
Proof.
  assert (Hr : forall c, 0 <= c < alen [0; 0; 0; 0] -> is_s32 (aget [0; 0; 0; 0] c)).
  { intros c Hc. unfold alen in Hc. cbn in Hc. change [0; 0; 0; 0] with (replicate 4 0).
    rewrite aget_replicate by lia. unfold is_s32. lia. }
  split.
  - exact (matmul_parallel 2 [1; 2; 3; 4] [5; 6; 7; 8] 2 [0; 0; 0; 0] _ eq_refl ltac:(lia) eq_refl Hr (interleaving_concat _) 0 1 ltac:(lia) ltac:(lia)).
  - exact (matmul_parallel 2 [1; 2; 3; 4] [5; 6; 7; 8] 2 [0; 0; 0; 0] _ eq_refl ltac:(lia) eq_refl Hr (interleaving_concat _) 1 0 ltac:(lia) ltac:(lia)).
Defined.
