(* ===== verification/Histo.v ===== *)
(** * The histogram benchmark: [workloads/benchmarks/mt-histo/mt_histo.c]

    Each core counts its part of the input in its own block of [temp_bins], then
    merges the block into the shared [output_bins] with one [amoadd.w] per
    non-empty bin. The theorem is about every interleaving of the loop
    iterations of the cores. *)

From Stdlib Require Import String.
From S2P Require Import Prelude Cmodel Libc Kernels.
From stdpp Require Import sets.
Local Open Scope Z_scope.

Section Histo.
Context (NUM_BINS DATA_SIZE : Z) (input_data : list Z).

(** [temp_bins] and [output_bins] *)
Record bins := mkbins { temp_bins : list Z; out_bins : list Z }.

(** The iterations of the two loops of [histo_kernel]: [local_bins[pos]++] for
    the element [i] of the input, and the merge of the bin [b]. *)
Inductive histo_op := Count (cid i : Z) | Merge (cid b : Z).

(** [local_bins] is [temp_bins + cid * NUM_BINS]. *)
Definition histo_body (o : histo_op) (s : bins) : bins :=
  match o with
  | Count cid i =>
    let pos := aget input_data i in
    mkbins (add_cell (cid * NUM_BINS + pos, 1) (temp_bins s)) (out_bins s)
  | Merge cid b =>
    let n := aget (temp_bins s) (cid * NUM_BINS + b) in
    if n =? 0 then s else mkbins (temp_bins s) (add_cell (b, n) (out_bins s))
  end.

Definition histo_range (nc cid : Z) : Z * Z :=
  let local_data_size := Z.quot (DATA_SIZE - 1) nc + 1 in
  let start := cid * local_data_size in
  let end_ := Z.min (start + local_data_size) DATA_SIZE in
  (start, end_).

(** [histo_kernel(input_data + start, end - start, ...)] *)
Definition histo_kernel (nc cid : Z) : list histo_op :=
  let '(start, end_) := histo_range nc cid in
  map (Count cid) (zrange start end_) ++ map (Merge cid) (zrange 0 NUM_BINS).

Definition msg_bin : list Z := str "out_bins[%d] = %d" ++ [13; 10].
Definition printBins (out : list Z) (nbins : Z) : option (list Z) :=
  for_range 0 nbins (fun i o => out_app o (printf (cstr msg_bin) [va_int i; va_int (aget out i)])) (Some []).

Definition histo_thread_entry (ver : list Z) (l : list histo_op) (cid : Z) : option (list Z) :=
  report cid NUM_BINS
    (out_bins (exec histo_body l (mkbins (replicate (Z.to_nat (NUM_BINS * 16)) 0) (replicate (Z.to_nat NUM_BINS) 0)))) ver.

(** ** What the bins should hold *)

(** The number of [i] with [lo <= i < hi] and [input_data[i] = b]. *)
Definition count_of (b lo hi : Z) : Z := zsum (map (fun i => if aget input_data i =? b then 1 else 0) (zrange lo hi)).

Lemma count_of_split b lo mid hi : lo <= mid <= hi -> count_of b lo hi = count_of b lo mid + count_of b mid hi.
Proof. intros. unfold count_of. now rewrite (zrange_split lo mid hi), map_app, zsum_app. Qed.

Lemma count_of_empty b lo hi : hi <= lo -> count_of b lo hi = 0.
Proof. intros. unfold count_of. now rewrite zrange_empty. Qed.

Lemma count_of_bounds b lo hi : 0 <= count_of b lo hi <= Z.max 0 (hi - lo).
Proof.
  unfold count_of. replace (Z.max 0 (hi - lo)) with (Z.of_nat (length (zrange lo hi))) by (rewrite length_zrange; lia).
  induction (zrange lo hi) as [|i l IH]; [cbn; lia|]. cbn [map length]. cbn [zsum fold_right]. fold (zsum (map (fun i => if aget input_data i =? b then 1 else 0) l)).
  destruct (aget input_data i =? b); lia.
Qed.

(** ** The kernel of one core *)

Hypothesis bins_pos : 0 < NUM_BINS.
Hypothesis in_range : forall i, 0 <= i < DATA_SIZE -> 0 <= aget input_data i < NUM_BINS.
Hypothesis size_int : 0 < DATA_SIZE < 2 ^ 31.

Definition bins_ok (s : bins) : Prop :=
  alen (temp_bins s) = NUM_BINS * 16 /\ alen (out_bins s) = NUM_BINS /\
  forall b, 0 <= b < NUM_BINS -> is_s32 (aget (out_bins s) b).

Lemma exec_count cid l s :
  exec histo_body (map (Count cid) l) s =
    mkbins (exec add_cell (map (fun i => (cid * NUM_BINS + aget input_data i, 1)) l) (temp_bins s)) (out_bins s).
Proof.
  revert s. induction l as [|i l IH]; intros s; [destruct s; reflexivity|].
  cbn [map exec fold_left]. unfold exec in IH. rewrite IH. reflexivity.
Qed.

Lemma exec_merge cid l s :
  (forall b, In b l -> 0 <= b < alen (out_bins s) /\ is_s32 (aget (out_bins s) b)) -> NoDup l ->
  exec histo_body (map (Merge cid) l) s =
    mkbins (temp_bins s) (exec add_cell (map (fun b => (b, aget (temp_bins s) (cid * NUM_BINS + b))) l) (out_bins s)).
Proof.
  intros Hl Hn. revert s Hl. induction Hn as [|b l Hb Hn IH]; intros s Hl; [destruct s; reflexivity|].
  cbn [map exec fold_left]. unfold exec in IH. cbn [histo_body].
  destruct (Z.eqb_spec (aget (temp_bins s) (cid * NUM_BINS + b)) 0) as [E|E].
  - rewrite IH by (intros; apply Hl; now right). f_equal. f_equal. unfold add_cell. cbn [fst snd]. rewrite E, Z.add_0_r.
    destruct (Hl b (or_introl eq_refl)) as [Hr Hs]. rewrite s32_id by assumption.
    apply aget_ext; [now rewrite length_aset|]. intros i Hi. rewrite aget_aset_case.
    destruct (Z.eqb_spec b i) as [->|]; [|reflexivity]. now destruct (true && _ && _).
  - rewrite IH; [reflexivity|]. cbn [out_bins]. intros b' Hb'. unfold add_cell. cbn [fst snd]. rewrite alen_aset.
    rewrite list_elem_of_In in Hb. rewrite aget_aset_ne by congruence. apply Hl. now right.
Qed.

Lemma sum_for_count cid b lo hi : 0 <= lo -> hi <= DATA_SIZE -> 0 <= b < NUM_BINS -> forall cid',
  sum_for (cid' * NUM_BINS + b) (map (fun i => (cid * NUM_BINS + aget input_data i, 1)) (zrange lo hi)) =
    if cid =? cid' then count_of b lo hi else 0.
Proof.
  intros Hlo Hhi Hb cid'. unfold sum_for. rewrite map_map. cbn [fst snd]. destruct (Z.eqb_spec cid cid') as [->|Hne].
  - unfold count_of. apply zsum_map_ext. intros i _. case_bools; reflexivity || lia.
  - apply zsum_zero. intros i Hi. apply in_zrange in Hi.
    pose proof (in_range i ltac:(lia)). destruct (Z.eqb_spec (cid * NUM_BINS + aget input_data i) (cid' * NUM_BINS + b)) as [E|]; [|reflexivity].
    exfalso. apply Hne. assert (E' : NUM_BINS * cid + aget input_data i = NUM_BINS * cid' + b) by lia.
    apply (Z.div_mod_unique NUM_BINS) in E'; [tauto|lia|lia].
Qed.

Lemma sum_for_bins (f : Z -> Z) b lo hi : sum_for b (map (fun b => (b, f b)) (zrange lo hi)) = if (lo <=? b) && (b <? hi) then f b else 0.
Proof. unfold sum_for. rewrite map_map. cbn [fst snd]. apply zsum_single. Qed.

(** The kernel of core [cid], started with its block of [temp_bins] cleared, adds
    its counts to the shared bins and leaves the other blocks alone. *)
Lemma histo_kernel_effect nc cid s : 0 < nc -> 0 <= cid < nc -> nc <= 16 -> bins_ok s ->
  (forall b, 0 <= b < NUM_BINS -> aget (temp_bins s) (cid * NUM_BINS + b) = 0) ->
  let '(start, end_) := histo_range nc cid in
  let s' := exec histo_body (histo_kernel nc cid) s in
  bins_ok s' /\
  (forall cid' b, 0 <= cid' < 16 -> cid' <> cid -> 0 <= b < NUM_BINS ->
     aget (temp_bins s) (cid' * NUM_BINS + b) = 0 -> aget (temp_bins s') (cid' * NUM_BINS + b) = 0) /\
  (forall b, 0 <= b < NUM_BINS -> aget (out_bins s') b = s32 (aget (out_bins s) b + count_of b start end_)).
Proof.
  intros Hnc Hc H16 (Ht & Ho & Hs) Hz. destruct (histo_range nc cid) as [start end_] eqn:Er.
  assert (0 <= start /\ end_ <= DATA_SIZE) as [Hst Hen].
  { unfold histo_range in Er. injection Er as <- <-. rewrite Z.quot_div_nonneg by lia.
    pose proof (Z.div_pos (DATA_SIZE - 1) nc). split; [nia|lia]. }
  unfold histo_kernel. rewrite Er. rewrite exec_app, exec_count.
  set (t := exec add_cell _ (temp_bins s)).
  assert (Hlt : alen t = NUM_BINS * 16) by (unfold t; rewrite alen_exec; [exact Ht|intros; apply alen_aset]).
  assert (Hcell : forall cid' b, 0 <= cid' < 16 -> 0 <= b < NUM_BINS -> aget (temp_bins s) (cid' * NUM_BINS + b) = 0 ->
    aget t (cid' * NUM_BINS + b) = if cid =? cid' then count_of b start end_ else 0).
  { intros cid' b Hc' Hb H0. unfold t. rewrite exec_add_cell; [|nia|rewrite H0; unfold is_s32; lia].
    rewrite H0, sum_for_count by lia. apply s32_id. pose proof (count_of_bounds b start end_). unfold is_s32.
    destruct (cid =? cid'); lia. }
  rewrite exec_merge; [|intros b Hb; apply in_zrange in Hb; cbn [out_bins]; split; [lia|now apply Hs]|apply NoDup_zrange].
  cbn [temp_bins out_bins].
  assert (Hout : forall b, 0 <= b < NUM_BINS ->
    aget (exec add_cell (map (fun b => (b, aget t (cid * NUM_BINS + b))) (zrange 0 NUM_BINS)) (out_bins s)) b =
    s32 (aget (out_bins s) b + count_of b start end_)).
  { intros b Hb. rewrite exec_add_cell; [|lia|now apply Hs]. rewrite (sum_for_bins (fun b => aget t (cid * NUM_BINS + b))).
    destruct (Z.leb_spec 0 b), (Z.ltb_spec b NUM_BINS); try lia. cbn [andb].
    rewrite Hcell by (auto; lia). now rewrite Z.eqb_refl. }
  split; [|split; [|exact Hout]].
  - repeat split; cbn [temp_bins out_bins]; [exact Hlt|rewrite alen_exec; [exact Ho|intros; apply alen_aset]| |];
      rewrite Hout by assumption; apply s32_range.
  - intros cid' b Hc' Hne Hb H0. rewrite Hcell by assumption. destruct (Z.eqb_spec cid cid'); congruence.
Qed.

Lemma histo_cross_commute nc : 0 < nc -> nc <= 16 -> cross_commute histo_body (map (histo_kernel nc) (zrange 0 nc)).
Proof.
  intros Hnc H16 i j p q o o' Hij Hp Hq Ho Ho' s.
  apply list_lookup_fmap_Some in Hp as (ci & -> & Hi). apply list_lookup_fmap_Some in Hq as (cj & -> & Hj).
  assert (Hne : ci <> cj).
  { intros ->. apply Hij. eapply NoDup_lookup; [apply (NoDup_zrange 0 nc)|eassumption|eassumption]. }
  assert (Hsep : forall c d x y, c <> d -> 0 <= x < NUM_BINS -> 0 <= y < NUM_BINS -> c * NUM_BINS + x <> d * NUM_BINS + y).
  { intros c d x y Hcd Hx Hy E. apply Hcd. assert (E' : NUM_BINS * c + x = NUM_BINS * d + y) by lia.
    apply (Z.div_mod_unique NUM_BINS) in E'; [tauto|lia|lia]. }
  assert (Hcase : forall c o, 0 <= c -> In o (histo_kernel nc c) ->
    (exists i, o = Count c i /\ 0 <= aget input_data i < NUM_BINS) \/ (exists b, o = Merge c b /\ 0 <= b < NUM_BINS)).
  { intros c op Hc Hop. unfold histo_kernel in Hop. destruct (histo_range nc c) as [lo hi] eqn:Er.
    unfold histo_range in Er. injection Er as <- <-. rewrite Z.quot_div_nonneg in Hop by lia.
    pose proof (Z.div_pos (DATA_SIZE - 1) nc). apply in_app_iff in Hop.
    destruct Hop as [Hop|Hop]; apply in_map_iff in Hop as (x & <- & Hx); apply in_zrange in Hx; [left|right; eauto].
    exists x. split; [reflexivity|]. apply in_range. nia. }
  apply list_elem_of_lookup_2, elem_of_zrange in Hi, Hj.
  destruct (Hcase ci o ltac:(lia) Ho) as [(x & -> & Hx)|(x & -> & Hx)], (Hcase cj o' ltac:(lia) Ho') as [(y & -> & Hy)|(y & -> & Hy)];
    cbn [histo_body temp_bins out_bins].
  - f_equal. apply add_cell_commute.
  - rewrite add_cell_ne by (now apply Hsep).
    destruct (_ =? 0); reflexivity.
  - rewrite add_cell_ne by (apply Hsep; [congruence|assumption|assumption]).
    destruct (_ =? 0); reflexivity.
  - destruct (aget (temp_bins s) (ci * NUM_BINS + x) =? 0) eqn:Ei, (aget (temp_bins s) (cj * NUM_BINS + y) =? 0) eqn:Ej;
      cbn [temp_bins out_bins]; rewrite ?Ei, ?Ej; try reflexivity. f_equal. apply add_cell_commute.
Qed.

(** The cores one after the other: after [k] of them the first part of the input
    is counted, and the blocks of the others are still clear. *)
Lemma histo_sequential nc s : 0 < nc -> nc <= 16 -> bins_ok s -> (forall i, 0 <= i < alen (temp_bins s) -> aget (temp_bins s) i = 0) ->
  forall k, 0 <= k <= nc ->
  let s' := exec histo_body (concat (map (histo_kernel nc) (zrange 0 k))) s in
  bins_ok s' /\
  (forall cid b, k <= cid < nc -> 0 <= b < NUM_BINS -> aget (temp_bins s') (cid * NUM_BINS + b) = 0) /\
  (forall b, 0 <= b < NUM_BINS ->
     aget (out_bins s') b = s32 (aget (out_bins s) b + count_of b 0 (Z.min (k * (Z.quot (DATA_SIZE - 1) nc + 1)) DATA_SIZE))).
Proof.
  intros Hnc H16 Hs Hz k Hk. cbv zeta. assert (H0 : 0 <= k) by lia. revert Hk. pattern k. apply natlike_ind; [| |exact H0]; clear H0.
  - intros _. rewrite zrange_empty by lia. cbn. split; [exact Hs|split; [intros; apply Hz; destruct Hs as [-> _]; nia|]].
    intros b Hb. rewrite count_of_empty, Z.add_0_r by lia. symmetry. apply s32_id. now apply Hs.
  - clear k. intros k Hk IH Hk'. destruct (IH ltac:(lia)) as (Hok & Hclr & Hout). clear IH.
    rewrite (zrange_split 0 k (Z.succ k)) by lia. rewrite (zrange_step k), (zrange_empty (k + 1)) by lia.
    rewrite map_app, concat_app, exec_app. cbn [map concat]. rewrite app_nil_r.
    set (s1 := exec histo_body (concat (map (histo_kernel nc) (zrange 0 k))) s) in *.
    pose proof (histo_kernel_effect nc k s1 Hnc ltac:(lia) H16 Hok ltac:(intros; apply Hclr; lia)) as He.
    unfold histo_range in He. destruct He as (Hok' & Hclr' & Hout'). split; [exact Hok'|split].
    + intros cid b Hc Hb. apply Hclr'; try lia. apply Hclr; lia.
    + intros b Hb. rewrite Hout', Hout, s32_s32_add by assumption. f_equal.
      rewrite Z.quot_div_nonneg by lia. assert (0 <= (DATA_SIZE - 1) / nc) by (apply Z.div_pos; lia).
      remember ((DATA_SIZE - 1) / nc + 1) as q. replace (Z.succ k * q) with (k * q + q) by lia.
      destruct (Z.le_gt_cases DATA_SIZE (k * q)).
      * rewrite !Z.min_r by lia. rewrite (count_of_empty b (k * q)) by lia. lia.
      * assert (0 <= k * q) by nia. rewrite (Z.min_l (k * q)) by lia.
        rewrite (count_of_split b 0 (k * q) (Z.min (k * q + q) DATA_SIZE)) by lia. lia.
Qed.

Lemma histo_covers nc : 0 < nc -> DATA_SIZE <= nc * (Z.quot (DATA_SIZE - 1) nc + 1).
Proof.
  intros. rewrite Z.quot_div_nonneg by lia. pose proof (Z.div_mod (DATA_SIZE - 1) nc). pose proof (Z.mod_pos_bound (DATA_SIZE - 1) nc). nia.
Qed.

Lemma histo_result nc s l : 0 < nc -> nc <= 16 -> bins_ok s -> (forall i, 0 <= i < alen (temp_bins s) -> aget (temp_bins s) i = 0) ->
  interleaving (map (histo_kernel nc) (zrange 0 nc)) l ->
  forall b, 0 <= b < NUM_BINS -> aget (out_bins (exec histo_body l s)) b = s32 (aget (out_bins s) b + count_of b 0 DATA_SIZE).
Proof.
  intros Hnc H16 Hs Hz Hl b Hb. rewrite (interleaving_exec _ _ _ Hl) by (now apply histo_cross_commute).
  destruct (histo_sequential nc s Hnc H16 Hs Hz nc ltac:(lia)) as (_ & _ & Hout). rewrite Hout by assumption.
  now rewrite Z.min_r by (now apply histo_covers).
Qed.
End Histo.

(** For any number of cores up to sixteen and any interleaving of their
    counting and merging steps, started from cleared private bins, each bin ends
    with its initial value plus the number of inputs equal to it; no input is
    lost or counted twice, also when the cores do not divide the input. *)
Theorem histo_parallel NUM_BINS DATA_SIZE input nc s l :
  0 < NUM_BINS -> (forall i, 0 <= i < DATA_SIZE -> 0 <= aget input i < NUM_BINS) -> 0 < DATA_SIZE < 2 ^ 31 ->
  0 < nc <= 16 -> bins_ok NUM_BINS s -> (forall i, 0 <= i < alen (temp_bins s) -> aget (temp_bins s) i = 0) ->
  interleaving (map (histo_kernel NUM_BINS DATA_SIZE nc) (zrange 0 nc)) l ->
  forall b, 0 <= b < NUM_BINS ->
    aget (out_bins (exec (histo_body NUM_BINS input) l s)) b = s32 (aget (out_bins s) b + count_of input b 0 DATA_SIZE).
Proof. intros Hb Hi Hd [Hnc H16] Hs Hz Hl b Hb'. now apply (histo_result _ _ _ Hb Hi Hd nc). Qed.

(** Three inputs on two cores. *)
Lemma histo_parallel_witness :
  let s := mkbins (replicate 32 0) [0; 0] in
  aget (out_bins (exec (histo_body 2 [1; 0; 1]) (concat (map (histo_kernel 2 3 2) (zrange 0 2))) s)) 1 = 2.
Proof.
  assert (Hz : forall i, 0 <= i < alen (replicate 32 0) -> aget (replicate 32 0) i = 0).
  { intros i Hi. now apply aget_replicate. }
  assert (Hi : forall i, 0 <= i < 3 -> 0 <= aget [1; 0; 1] i < 2).
  { intros i Hi. assert (i = 0 \/ i = 1 \/ i = 2) as [E|[E|E]] by lia; rewrite E; vm_compute; split; congruence. }
  assert (Hb : bins_ok 2 (mkbins (replicate 32 0) [0; 0])).
  { split; [reflexivity|split; [reflexivity|]]. intros b Hb. assert (b = 0 \/ b = 1) as [E|E] by lia; rewrite E; vm_compute; split; congruence. }
  exact (histo_parallel 2 3 [1; 0; 1] 2 (mkbins (replicate 32 0) [0; 0]) _ eq_refl Hi ltac:(lia) ltac:(lia) Hb Hz
    (interleaving_concat _) 1 ltac:(lia)).
Defined.
