(* ===== verification/Barrier.v ===== *)
(** * The sense-reversing barrier: [workloads/demos/common/util.h] and
    [workloads/benchmarks/common/util.h]

    The harts run [barrier(ncores)] over and over. A step of the relation is one
    access to the shared words [sense] and [count] by one hart (the AMO of
    [atomic_fetch_add] is one access), so the relation has every interleaving;
    the fences order the accesses of each hart as the program does. *)

From S2P Require Import Prelude Cmodel.

(** ** The harts *)

(** Where a hart is in [barrier]: before it, before the AMO, before [count = 0],
    before [sense = threadsense], in the busy wait; [Init] is before
    [initialize_count_asm(0)], which the benchmarks call first. *)
Inductive bpc := Init | Arrive | Inc | Reset | Release | Spin.

(** [threadsense] and, for the statements only, the number of barriers passed. *)
Record thread := mkthread { pc : bpc; threadsense : Z; epoch : Z }.
#[export] Instance thread_inhabited : Inhabited thread := populate (mkthread Arrive 0 0).
Record bstate := mkb { sense : Z; count : Z; threads : list thread }.

(** [old = *ptr; *ptr = old + val], atomically. *)
Definition atomic_fetch_add (word val : Z) : Z * Z := (word, s32 (word + val)).
(** The store of [initialize_count_asm(initial_value)] as far as [count] goes;
    it is an 8-byte [sd], so it also clears the word after [count]. *)
Definition initialize_count_asm (initial_value : Z) (s : bstate) : bstate := mkb (sense s) initial_value (threads s).

(** One access by the hart [th]: the shared words and the hart after it. *)
Definition barrier_access (ncores : Z) (sense count : Z) (th : thread) : Z * Z * thread :=
  let ts := threadsense th in
  match pc th with
  | Init => (sense, 0, mkthread Arrive ts (epoch th))
  | Arrive => (sense, count, mkthread Inc (if ts =? 0 then 1 else 0) (epoch th))
  | Inc =>
    let '(old_count, count) := atomic_fetch_add count 1 in
    (sense, count, mkthread (if old_count =? ncores - 1 then Reset else Spin) ts (epoch th))
  | Reset => (sense, 0, mkthread Release ts (epoch th))
  | Release => (ts, count, mkthread Arrive ts (epoch th + 1))
  | Spin => (sense, count, if negb (sense =? ts) then th else mkthread Arrive ts (epoch th + 1))
  end.

(** The step of hart [t] (no effect when there is no such hart). *)
Definition barrier_step (ncores : Z) (t : nat) (s : bstate) : bstate :=
  match threads s !! t with
  | None => s
  | Some th =>
    let '(sense, count, th) := barrier_access ncores (sense s) (count s) th in
    mkb sense count (<[t := th]> (threads s))
  end.
(** A schedule names the hart that steps. *)
Definition barrier_run (ncores : Z) (sched : list nat) (s : bstate) : bstate :=
  exec (barrier_step ncores) sched s.

Definition barrier_start (ncores : Z) : bstate := mkb 0 0 (replicate (Z.to_nat ncores) (mkthread Arrive 0 0)).
(** The benchmarks' start: every hart still has to initialise [count]. *)
Definition bench_start (ncores : Z) : bstate := mkb 0 0 (replicate (Z.to_nat ncores) (mkthread Init 0 0)).

Definition reachable (ncores : Z) (s : bstate) : Prop := exists sched, s = barrier_run ncores sched (barrier_start ncores).

(** Past the AMO of its current barrier. *)
Definition entered (th : thread) : bool := match pc th with Reset | Release | Spin => true | _ => false end.

(** ** Counting harts *)

Fixpoint count_if (f : thread -> bool) (l : list thread) : Z :=
  match l with
  | [] => 0
  | th :: l => (if f th then 1 else 0) + count_if f l
  end.

Lemma count_if_insert f l t th th' : l !! t = Some th ->
  count_if f (<[t := th']> l) = count_if f l - (if f th then 1 else 0) + (if f th' then 1 else 0).
Proof.
  revert t. induction l as [|x l IH]; intros [|t] Ht; try discriminate; cbn in Ht.
  - injection Ht as ->. cbn. lia.
  - change (<[S t := th']> (x :: l)) with (x :: <[t := th']> l). cbn [count_if]. rewrite (IH _ Ht). lia.
Qed.

Lemma count_if_bounds f l : 0 <= count_if f l <= alen l.
Proof. unfold alen. induction l as [|x l IH]; cbn [count_if length]; [lia|]. destruct (f x); lia. Qed.

Lemma count_if_all f l : Forall (fun th => f th = true) l -> count_if f l = alen l.
Proof. unfold alen. induction 1 as [|x l Hx _ IH]; cbn [count_if length]; [lia|]. rewrite Hx. lia. Qed.

Lemma count_if_none f l : Forall (fun th => f th = false) l -> count_if f l = 0.
Proof. induction 1 as [|x l Hx _ IH]; cbn [count_if]; [lia|]. rewrite Hx. lia. Qed.

Lemma count_if_one_less f l t th : l !! t = Some th -> f th = false -> count_if f l <= alen l - 1.
Proof.
  unfold alen. revert t. induction l as [|x l IH]; intros [|t] Ht Hf; try discriminate; cbn in Ht; cbn [count_if length].
  - injection Ht as ->. rewrite Hf. pose proof (count_if_bounds f l). unfold alen in *. lia.
  - specialize (IH _ Ht Hf). destruct (f x); lia.
Qed.

Lemma count_if_two_less f l t th j th' : l !! t = Some th -> f th = false -> l !! j = Some th' -> f th' = false ->
  t <> j -> count_if f l <= alen l - 2.
Proof.
  revert t j. induction l as [|x l IH]; intros [|t] [|j] Ht Hf Hj Hf' Hne; try discriminate; try congruence; cbn in Ht, Hj.
  - injection Ht as ->. pose proof (count_if_one_less f l j th' Hj Hf'). unfold alen in *. cbn [count_if length]. rewrite Hf. lia.
  - injection Hj as ->. pose proof (count_if_one_less f l t th Ht Hf). unfold alen in *. cbn [count_if length]. rewrite Hf'. lia.
  - assert (Htj : t <> j) by congruence. pose proof (IH t j Ht Hf Hj Hf' Htj). unfold alen in *. cbn [count_if length].
    destruct (f x); lia.
Qed.

(** If all but one satisfy [f], the ones other than a given exception do. *)
Lemma count_if_all_but f l t th : l !! t = Some th -> f th = false -> count_if f l = alen l - 1 ->
  forall j th', j <> t -> l !! j = Some th' -> f th' = true.
Proof.
  intros Ht Hf Hc j th' Hj Hl. destruct (f th') eqn:E; [reflexivity|].
  pose proof (count_if_two_less f l t th j th' Ht Hf Hl E (not_eq_sym Hj)). lia.
Qed.

(** ** The invariant

    In episode [e] the global sense is the parity of [e]. A hart is before the
    AMO of its barrier number [e], past it, or still in the busy wait of the
    barrier number [e - 1], which the sense already lets it leave. *)
Definition parity (e : Z) : Z := e mod 2.
Definition arrived (e : Z) (th : thread) : bool := entered th && (epoch th =? e).
Definition waiting (e : Z) (th : thread) : Prop := pc th = Spin /\ epoch th = e /\ threadsense th = parity (e + 1).

Definition thread_ok (e : Z) (th : thread) : Prop :=
  match pc th with
  | Init => False
  | Arrive => epoch th = e /\ threadsense th = parity e
  | Inc => epoch th = e /\ threadsense th = parity (e + 1)
  | Spin => (epoch th = e /\ threadsense th = parity (e + 1)) \/ (epoch th = e - 1 /\ threadsense th = parity e)
  | Reset | Release => False
  end.

(** The phases of an episode: the harts come in; the last one has come in and
    the others wait; it has reset the counter. *)
Definition phase_open (e : Z) (s : bstate) : Prop :=
  Forall (thread_ok e) (threads s) /\ count s = count_if (arrived e) (threads s) /\ count s < alen (threads s).
Definition phase_last (e : Z) (p : bpc) (c : Z) (s : bstate) : Prop :=
  count s = c /\ exists r th, threads s !! r = Some th /\ pc th = p /\ epoch th = e /\ threadsense th = parity (e + 1) /\
    forall j th', j <> r -> threads s !! j = Some th' -> waiting e th'.

Definition barrier_inv (ncores e : Z) (s : bstate) : Prop :=
  alen (threads s) = ncores /\ sense s = parity e /\
  (phase_open e s \/ phase_last e Reset ncores s \/ phase_last e Release 0 s).

Lemma parity_flip e : (if parity e =? 0 then 1 else 0) = parity (e + 1).
Proof. unfold parity. case_bools; zlia. Qed.
Lemma parity_ne e : parity (e + 1) <> parity e.
Proof. unfold parity. zlia. Qed.
Lemma parity_01 e : parity e = 0 \/ parity e = 1.
Proof. unfold parity. zlia. Qed.
Lemma parity_pred e : parity (e - 1 + 1) = parity e.
Proof. f_equal. lia. Qed.

Lemma start_inv ncores : 0 < ncores -> barrier_inv ncores 0 (barrier_start ncores).
Proof.
  intros Hn. unfold barrier_start. split; [cbn; unfold alen; rewrite length_replicate; lia|]. split; [reflexivity|]. left.
  unfold phase_open. cbn [threads count]. split; [|split].
  - apply Forall_replicate. cbn. split; reflexivity.
  - rewrite count_if_none; [reflexivity|]. apply Forall_replicate. reflexivity.
  - unfold alen. rewrite length_replicate. lia.
Qed.

Lemma alen_insert {A} (l : list A) t x : alen (<[t := x]> l) = alen l.
Proof. unfold alen. now rewrite length_insert. Qed.

(** A step of a hart that leaves the phase open. *)
Lemma open_update e s t th th' c : phase_open e s -> threads s !! t = Some th -> thread_ok e th' ->
  c = count s - (if arrived e th then 1 else 0) + (if arrived e th' then 1 else 0) -> c < alen (threads s) ->
  phase_open e (mkb (sense s) c (<[t := th']> (threads s))).
Proof.
  intros (Hok & Hc & Hlt) Ht Hth' -> Hlt'. unfold phase_open. cbn [threads count].
  split; [now apply Forall_insert|]. rewrite alen_insert. split; [|lia].
  rewrite (count_if_insert _ _ _ _ _ Ht). lia.
Qed.

Lemma open_step ncores e s t : 0 < ncores < 2 ^ 31 -> alen (threads s) = ncores -> sense s = parity e -> phase_open e s ->
  barrier_inv ncores e (barrier_step ncores t s).
Proof.
  intros Hn Hl Hs Ho. unfold barrier_step. destruct (threads s !! t) as [th|] eqn:Ht; [|repeat split; auto].
  pose proof Ho as (Hok & Hc & Hlt). pose proof (count_if_bounds (arrived e) (threads s)) as Hb.
  pose proof (proj1 (Forall_lookup _ _) Hok _ _ Ht) as Hth. destruct th as [p ts ep].
  unfold thread_ok in Hth. cbn in Hth. unfold barrier_access. cbn [pc threadsense epoch].
  assert (Hdone : forall th' c, thread_ok e th' ->
    c = count s - (if arrived e (mkthread p ts ep) then 1 else 0) + (if arrived e th' then 1 else 0) -> c < alen (threads s) ->
    barrier_inv ncores e (mkb (sense s) c (<[t := th']> (threads s)))).
  { intros th' c Hth' Hc' Hlt'. split; [cbn; now rewrite alen_insert|]. split; [exact Hs|]. left. eapply open_update; eassumption. }
  destruct p; try contradiction.
  - destruct Hth as [-> ->]. apply Hdone; [split; [reflexivity|apply parity_flip]|cbn; lia|lia].
  - destruct Hth as [-> ->]. unfold atomic_fetch_add. rewrite s32_id by (unfold is_s32; lia).
    destruct (Z.eqb_spec (count s) (ncores - 1)) as [E|E].
    + split; [cbn; now rewrite alen_insert|]. split; [exact Hs|]. right. left. unfold phase_last. cbn [threads count].
      split; [lia|]. exists t, (mkthread Reset (parity (e + 1)) e).
      split; [|split; [reflexivity|split; [reflexivity|split; [reflexivity|]]]].
      * apply list_lookup_insert_eq. eapply lookup_lt_Some. exact Ht.
      * intros j th' Hj Hj'. rewrite list_lookup_insert_ne in Hj' by congruence.
        assert (Ha : arrived e th' = true) by (apply (count_if_all_but (arrived e) _ _ _ Ht) with (j := j); [reflexivity|lia|exact Hj|exact Hj']).
        pose proof (proj1 (Forall_lookup _ _) Hok _ _ Hj') as Hth'. unfold arrived, entered, thread_ok in *.
        unfold waiting. destruct (pc th'); try discriminate; try contradiction. cbn in Ha. apply Z.eqb_eq in Ha. intuition lia.
    + apply Hdone; [left; split; reflexivity| |lia]. unfold arrived. cbn. rewrite Z.eqb_refl. lia.
  - destruct (Z.eqb_spec (sense s) ts) as [E|E]; cbn [negb].
    + destruct Hth as [[-> Hts]|[-> Hts]]; [rewrite Hs in E; exfalso; apply (parity_ne e); congruence|].
      apply Hdone; [split; [cbn; lia|exact Hts]| |lia]. unfold arrived. cbn.
      destruct (Z.eqb_spec (e - 1) e); lia.
    + apply Hdone; [exact Hth|cbn; lia|lia].
Qed.

Lemma waiting_stays ncores e s j th : sense s = parity e -> threads s !! j = Some th -> waiting e th ->
  barrier_step ncores j s = s.
Proof.
  intros Hs Hj (Hp & He & Ht). unfold barrier_step, barrier_access. rewrite Hj, Hp, Ht, Hs.
  destruct (Z.eqb_spec (parity e) (parity (e + 1))) as [E|_]; [exfalso; apply (parity_ne e); congruence|]. cbn [negb].
  rewrite list_insert_id by exact Hj. rewrite <- Hs. now destruct s.
Qed.

Lemma last_step ncores e s t p c : 0 < ncores -> alen (threads s) = ncores -> sense s = parity e -> phase_last e p c s ->
  p = Reset /\ c = ncores \/ p = Release /\ c = 0 ->
  exists e', e <= e' <= e + 1 /\ barrier_inv ncores e' (barrier_step ncores t s).
Proof.
  intros Hn Hl Hs Hph Hp. pose proof Hph as (Hc & r & th & Hr & Hpc & Hep & Hts & Hw).
  assert (Hstay : barrier_inv ncores e s).
  { repeat split; auto. right. destruct Hp as [[-> ->]|[-> ->]]; auto. }
  destruct (decide (t = r)) as [->|Hne].
  2: { exists e. split; [lia|]. destruct (threads s !! t) as [th'|] eqn:Ht.
       - rewrite (waiting_stays ncores e s t th' Hs Ht (Hw _ _ Hne Ht)). exact Hstay.
       - unfold barrier_step. rewrite Ht. exact Hstay. }
  unfold barrier_step, barrier_access. rewrite Hr, Hpc, Hts, Hep. destruct Hp as [[-> Hc']|[-> Hc']].
  - exists e. split; [lia|]. split; [cbn; now rewrite alen_insert|]. split; [exact Hs|]. right. right.
    split; [reflexivity|]. cbn [threads]. exists r, (mkthread Release (parity (e + 1)) e).
    split; [|split; [reflexivity|split; [reflexivity|split; [reflexivity|]]]].
    + apply list_lookup_insert_eq. eapply lookup_lt_Some. exact Hr.
    + intros j th' Hj Hj'. rewrite list_lookup_insert_ne in Hj' by congruence. now apply (Hw j).
  - exists (e + 1). split; [lia|]. split; [cbn; now rewrite alen_insert|]. split; [reflexivity|]. left.
    assert (Hall : forall j th', <[r := mkthread Arrive (parity (e + 1)) (e + 1)]> (threads s) !! j = Some th' ->
      thread_ok (e + 1) th' /\ arrived (e + 1) th' = false).
    { intros j th' Hj. destruct (decide (j = r)) as [->|Hj'].
      - rewrite list_lookup_insert_eq in Hj by (eapply lookup_lt_Some; exact Hr). injection Hj as <-. cbn. repeat split; lia.
      - rewrite list_lookup_insert_ne in Hj by congruence. destruct (Hw _ _ Hj' Hj) as (Hp' & He' & Ht').
        unfold thread_ok, arrived, entered. rewrite Hp', He', Ht'. split; [right; split; [lia|reflexivity]|].
        cbn. destruct (Z.eqb_spec e (e + 1)); [lia|reflexivity]. }
    unfold phase_open. cbn [threads count]. split; [apply Forall_lookup; intros; eapply Hall; eassumption|].
    rewrite alen_insert. rewrite count_if_none; [lia|]. apply Forall_lookup. intros. eapply Hall. eassumption.
Qed.

Lemma step_inv ncores e s t : 0 < ncores < 2 ^ 31 -> barrier_inv ncores e s ->
  exists e', e <= e' <= e + 1 /\ barrier_inv ncores e' (barrier_step ncores t s).
Proof.
  intros Hn (Hl & Hs & [Ho|[Hp|Hp]]).
  - exists e. split; [lia|]. now apply open_step.
  - eapply last_step; try eassumption; [lia|]. left. now split.
  - eapply last_step; try eassumption; [lia|]. right. now split.
Qed.

Lemma run_inv ncores sched : 0 < ncores < 2 ^ 31 -> forall e s, barrier_inv ncores e s ->
  exists e', barrier_inv ncores e' (barrier_run ncores sched s).
Proof.
  intros Hn. induction sched as [|t sched IH]; intros e s Hi; [now exists e|].
  destruct (step_inv ncores e s t Hn Hi) as (e' & _ & Hi'). exact (IH e' _ Hi').
Qed.

Lemma reachable_inv ncores s : 0 < ncores < 2 ^ 31 -> reachable ncores s -> exists e, barrier_inv ncores e s.
Proof. intros Hn [sched ->]. eapply run_inv; [exact Hn|]. apply start_inv. lia. Qed.

(** What the invariant says of a hart. *)
Lemma inv_thread ncores e s t th : barrier_inv ncores e s -> threads s !! t = Some th ->
  epoch th = e \/ (epoch th = e - 1 /\ pc th = Spin /\ threadsense th = parity e).
Proof.
  intros (_ & _ & Hph) Ht.
  assert (Hlast : forall p c, phase_last e p c s -> epoch th = e).
  { intros p c (_ & r & th' & Hr & _ & He & _ & Hw). destruct (decide (t = r)) as [->|Hne]; [congruence|].
    apply (Hw t th Hne Ht). }
  destruct Hph as [(Hok & _)|[H|H]]; [|left; eapply Hlast; eassumption..].
  pose proof (proj1 (Forall_lookup _ _) Hok _ _ Ht) as Hth. unfold thread_ok in Hth. destruct (pc th); intuition.
Qed.

(** A hart of the episode that is not past its AMO keeps every other hart from
    being in the next episode. *)
Lemma reachable_bound ncores s i j ti tj : 0 < ncores < 2 ^ 31 -> reachable ncores s ->
  threads s !! i = Some ti -> threads s !! j = Some tj ->
  epoch ti <= epoch tj + 1 /\ (epoch tj < epoch ti -> entered tj = true).
Proof.
  intros Hn Hr Hi Hj. destruct (reachable_inv _ _ Hn Hr) as (e & Hinv).
  pose proof (inv_thread _ _ _ _ _ Hinv Hi) as H1. pose proof (inv_thread _ _ _ _ _ Hinv Hj) as H2.
  split; [lia|]. intros Hlt. destruct H2 as [H2|(_ & H2 & _)]; [lia|]. unfold entered. now rewrite H2.
Qed.

(** ** Progress *)

Definition progress (th : thread) : Z :=
  4 * epoch th + match pc th with Init => -1 | Arrive => 0 | Inc => 1 | Reset | Spin => 2 | Release => 3 end.
Fixpoint total (l : list thread) : Z := match l with [] => 0 | th :: l => progress th + total l end.

Lemma total_insert l t th th' : l !! t = Some th -> total (<[t := th']> l) = total l - progress th + progress th'.
Proof.
  revert t. induction l as [|x l IH]; intros [|t] Ht; try discriminate; cbn in Ht.
  - injection Ht as ->. cbn. lia.
  - change (<[S t := th']> (x :: l)) with (x :: <[t := th']> l). cbn [total]. rewrite (IH _ Ht). lia.
Qed.

Lemma total_bound l b : (forall t th, l !! t = Some th -> progress th <= b) -> total l <= alen l * b.
Proof.
  unfold alen. induction l as [|x l IH]; intros Hb; cbn [total length]; [lia|].
  pose proof (Hb 0%nat x eq_refl). specialize (IH (fun t th H => Hb (S t) th H)). lia.
Qed.

(** A step changes nothing, or advances its hart. *)
Lemma step_total ncores t s : barrier_step ncores t s = s \/ total (threads s) + 1 <= total (threads (barrier_step ncores t s)).
Proof.
  unfold barrier_step. destruct (threads s !! t) as [th|] eqn:Ht; [|now left]. destruct th as [p ts ep].
  unfold barrier_access, atomic_fetch_add. cbn [pc threadsense epoch]. destruct p;
    try (right; cbn [threads]; rewrite (total_insert _ _ _ _ Ht); unfold progress; cbn; lia).
  - right. destruct (_ =? ncores - 1); cbn [threads]; rewrite (total_insert _ _ _ _ Ht); unfold progress; cbn; lia.
  - destruct (sense s =? ts); cbn [negb].
    + right. cbn [threads]. rewrite (total_insert _ _ _ _ Ht). unfold progress. cbn. lia.
    + left. rewrite list_insert_id by exact Ht. now destruct s.
Qed.

Lemma step_change ncores t s : barrier_step ncores t s <> s -> total (threads s) + 1 <= total (threads (barrier_step ncores t s)).
Proof. destruct (step_total ncores t s); [contradiction|trivial]. Qed.

(** Some hart is always able to advance: the barrier does not deadlock. *)
Lemma inv_enabled ncores e s : 0 < ncores -> barrier_inv ncores e s ->
  exists t, (t < Z.to_nat ncores)%nat /\ barrier_step ncores t s <> s.
Proof.
  intros Hn (Hl & Hs & Hph).
  assert (Hgo : forall t th, threads s !! t = Some th -> (pc th = Spin -> threadsense th = parity e) -> pc th <> Init ->
    exists t, (t < Z.to_nat ncores)%nat /\ barrier_step ncores t s <> s).
  { intros t th Ht Hsp Hi. exists t. split; [apply lookup_lt_Some in Ht; unfold alen in Hl; lia|]. intros E.
    apply (f_equal threads) in E. unfold barrier_step, barrier_access, atomic_fetch_add in E. rewrite Ht in E. destruct th as [p ts ep].
    cbn [pc threadsense epoch] in *. apply (f_equal (fun l => l !! t)) in E.
    destruct p; cbn [threads] in E; try contradiction.
    all: try (rewrite Hs, Hsp, Z.eqb_refl in E by reflexivity); cbn [negb threads] in E.
    all: repeat (destruct (_ =? ncores - 1); cbn [threads] in E).
    all: rewrite list_lookup_insert_eq in E by (eapply lookup_lt_Some; exact Ht); rewrite Ht in E; injection E; intros; try congruence; lia. }
  destruct Hph as [(Hok & Hc & Hlt)|[(_ & r & th & Hr & Hp & _)|(_ & r & th & Hr & Hp & _)]].
  - destruct (Exists_dec (fun th => arrived e th = false) (threads s)) as [Hex|Hno].
    + apply Exists_exists in Hex as (th & Hin & Ha). apply list_elem_of_lookup in Hin as [t Ht].
      pose proof (proj1 (Forall_lookup _ _) Hok _ _ Ht) as Hth. apply (Hgo t th Ht).
      * intros Hp. unfold thread_ok, arrived, entered in *. rewrite Hp in *. destruct Hth as [[He _]|[_ H]]; [|exact H].
        rewrite He, Z.eqb_refl in Ha. discriminate.
      * intros Hp. unfold thread_ok in Hth. now rewrite Hp in Hth.
    + exfalso. apply not_Exists_Forall in Hno; [|intros; exact _].
      rewrite count_if_all in Hc; [lia|]. eapply Forall_impl; [exact Hno|]. intros x Hx. cbn in Hx. destruct (arrived e x); congruence.
  - apply (Hgo r th Hr); congruence.
  - apply (Hgo r th Hr); congruence.
Qed.

(** A round gives every hart at least one step, in any order. *)
Definition round (ncores : Z) (sched : list nat) : Prop := forall t, (t < Z.to_nat ncores)%nat -> In t sched.

Lemma run_total ncores sched s : barrier_run ncores sched s = s /\ (forall t, In t sched -> barrier_step ncores t s = s)
  \/ total (threads s) + 1 <= total (threads (barrier_run ncores sched s)).
Proof.
  revert s. induction sched as [|t sched IH]; intros s; [left; split; [reflexivity|intros ? []]|].
  change (barrier_run ncores (t :: sched) s) with (barrier_run ncores sched (barrier_step ncores t s)).
  destruct (step_total ncores t s) as [E|E].
  - rewrite E. destruct (IH s) as [[E' Hall]|H]; [left|now right]. split; [exact E'|].
    intros t' [<-|H']; [exact E|now apply Hall].
  - right. destruct (IH (barrier_step ncores t s)) as [[-> _]|H]; lia.
Qed.

Lemma round_total ncores e sched s : 0 < ncores -> barrier_inv ncores e s -> round ncores sched ->
  total (threads s) + 1 <= total (threads (barrier_run ncores sched s)).
Proof.
  intros Hn Hi Hr. destruct (run_total ncores sched s) as [[_ Hall]|H]; [|exact H].
  destruct (inv_enabled ncores e s Hn Hi) as (t & Ht & Hne). exfalso. apply Hne, Hall, Hr, Ht.
Qed.

Lemma rounds_total ncores rounds : 0 < ncores < 2 ^ 31 -> Forall (round ncores) rounds -> forall e s, barrier_inv ncores e s ->
  total (threads s) + Z.of_nat (length rounds) <= total (threads (barrier_run ncores (concat rounds) s)).
Proof.
  intros Hn. induction 1 as [|r rounds Hr _ IH]; intros e s Hi; cbn [concat length]; [cbn; lia|].
  unfold barrier_run in *. rewrite exec_app. destruct (run_inv ncores r Hn e s Hi) as (e' & Hi').
  pose proof (round_total ncores e r s ltac:(lia) Hi Hr) as H1. specialize (IH e' _ Hi'). unfold barrier_run in *. lia.
Qed.

Lemma start_total n : total (replicate n (mkthread Arrive 0 0)) = 0.
Proof. induction n as [|n IH]; [reflexivity|]. cbn [replicate total]. rewrite IH. reflexivity. Qed.

(** ** Theorems *)

(** C15: No hart leaves its barrier number [k] before every hart has entered its
    own barrier number [k]: in every reachable state two harts are at most one
    barrier apart, and a hart that is behind another is past its increment of
    [count]. *)
Theorem barrier_separates ncores s i j ti tj : 0 < ncores < 2 ^ 31 -> reachable ncores s ->
  threads s !! i = Some ti -> threads s !! j = Some tj ->
  epoch ti <= epoch tj + 1 /\ (epoch tj < epoch ti -> entered tj = true).
Proof. apply reachable_bound. Qed.

(** Three harts; the last one to come in leaves while the others still wait. *)
Lemma barrier_separates_witness :
  let s := barrier_run 3 [0; 0; 1; 1; 2; 2; 2; 2]%nat (barrier_start 3) in
  threads s = [mkthread Spin 1 0; mkthread Spin 1 0; mkthread Arrive 1 1] /\ entered (mkthread Spin 1 0) = true.
Proof.
  split; [reflexivity|].
  exact (proj2 (barrier_separates 3 (barrier_run 3 [0; 0; 1; 1; 2; 2; 2; 2]%nat (barrier_start 3)) 2 0 (mkthread Arrive 1 1) (mkthread Spin 1 0)
    ltac:(lia) (ex_intro _ _ eq_refl) eq_refl eq_refl) ltac:(cbn; lia)).
Defined.

(** C16: The barrier neither deadlocks nor starves: whatever the order of the steps,
    after enough rounds, each of which gives every hart at least one step, every
    hart has passed [E] barriers. *)
Theorem barrier_terminates ncores E rounds : 0 < ncores < 2 ^ 31 -> Forall (round ncores) rounds ->
  ncores * (4 * E + 3) < Z.of_nat (length rounds) ->
  forall t th, threads (barrier_run ncores (concat rounds) (barrier_start ncores)) !! t = Some th -> E <= epoch th.
Proof.
  intros Hn Hr Hlen t th Ht. set (s := barrier_run ncores (concat rounds) (barrier_start ncores)) in *.
  assert (Hreach : reachable ncores s) by (now exists (concat rounds)).
  pose proof (rounds_total ncores rounds Hn Hr 0 _ (start_inv ncores ltac:(lia))) as Htot. fold s in Htot.
  cbn [threads barrier_start] in Htot. rewrite start_total in Htot.
  destruct (Z.le_gt_cases E (epoch th)) as [|Hlt]; [assumption|exfalso].
  destruct (reachable_inv ncores s Hn Hreach) as (e & Hl & _).
  assert (total (threads s) <= alen (threads s) * (4 * E + 3)); [|nia]. apply total_bound. intros t' th' Ht'.
  destruct (reachable_bound ncores s t' t th' th Hn Hreach Ht' Ht) as [Hb _]. unfold progress. destruct (pc th'); lia.
Qed.

Lemma barrier_terminates_witness :
  Forall (fun th => 1 <= epoch th) (threads (barrier_run 2 (concat (replicate 15 [1; 0]%nat)) (barrier_start 2))).
Proof.
  apply Forall_lookup. apply (barrier_terminates 2 1 (replicate 15 [1; 0]%nat)); [lia| |reflexivity].
  apply Forall_replicate. intros t Ht. cbn. assert (t = 0 \/ t = 1)%nat by (change (Z.to_nat 2) with 2%nat in Ht; lia). intuition.
Defined.

(** [initialize_count_asm(0)], which every hart of a benchmark runs on its own
    before its first barrier, races with it: when one of four harts enters the
    barrier before another has run its initialisation, the increment is lost and
    all four harts wait for ever. *)
Theorem init_race_deadlocks :
  exists sched, let s := barrier_run 4 sched (bench_start 4) in
    Forall (fun th => pc th = Spin) (threads s) /\ forall sched', barrier_run 4 sched' s = s.
Proof.
  exists [0; 0; 0; 1; 2; 3; 1; 1; 2; 2; 3; 3]%nat. split; [repeat constructor|].
  set (s := barrier_run 4 _ _). assert (Hstep : forall t, barrier_step 4 t s = s).
  { intros t. do 4 (destruct t as [|t]; [reflexivity|]). reflexivity. }
  induction sched' as [|t sched' IH]; [reflexivity|].
  change (barrier_run 4 (t :: sched') s) with (barrier_run 4 sched' (barrier_step 4 t s)). now rewrite Hstep.
Qed.
