(* ===== verification/Lrsc.v ===== *)
(** * LR/SC words and the lost-update tests: [workloads/benchmarks/mt-lrsc/mt-lrsc.c]

    A word that several harts access with LR, SC, AMO and plain stores, with a
    reservation per hart. [kills] is the rule for reservations: [true] is the
    architecture's (any store to the word ends every reservation on it), [false]
    is what SC.D of the golden model does ([Atomics.sc_d_ignores_stores]: only
    the hart's own SC ends its reservation). Phases 1 and 3 of the test are
    modelled here, phase 2 is the list of [Llist], with the
    details of its loops in [Pushes]. *)

From Stdlib Require Import String.
From S2P Require Import Prelude Cmodel Libc.

(** ** Words with reservations *)

Record rword := mkword { val : Z; resv : list bool }.

Section Word.
Context (kills : bool).

Definition clear_resv (l : list bool) : list bool := map (fun _ => false) l.
Definition reserved (t : nat) (w : rword) : bool := default false (resv w !! t).

(** [lr.d]: the value, and the reservation of hart [t] set. *)
Definition lr64 (t : nat) (w : rword) : Z * rword := (val w, mkword (val w) (<[t := true]> (resv w))).
(** A store (plain, or the store of an AMO). *)
Definition store64 (v : Z) (w : rword) : rword := mkword v (if kills then clear_resv (resv w) else resv w).
(** [sc.d]: whether it succeeded. *)
Definition sc64 (t : nat) (v : Z) (w : rword) : bool * rword :=
  if reserved t w then (true, let w := store64 v w in mkword (val w) (<[t := false]> (resv w)))
  else (false, mkword (val w) (<[t := false]> (resv w))).
(** [amoswap.d]: the old value. *)
Definition amoswap64 (v : Z) (w : rword) : Z * rword := (val w, store64 v w).
End Word.

Lemma reserved_clear t l v : reserved t (mkword v (clear_resv l)) = false.
Proof. unfold reserved, clear_resv. cbn [resv]. rewrite list_lookup_fmap. now destruct (l !! t). Qed.

Lemma reserved_store t v w : reserved t (store64 true v w) = false.
Proof. apply reserved_clear. Qed.

Lemma reserved_lr_ne t u w : u <> t -> reserved u (lr64 t w).2 = reserved u w.
Proof. intros. unfold reserved, lr64. cbn [resv snd]. now rewrite list_lookup_insert_ne by congruence. Qed.

Lemma insert_false_true (t u : nat) (l : list bool) : default false (<[t := false]> l !! u) = true -> u <> t /\ default false (l !! u) = true.
Proof.
  intros H. destruct (<[t := false]> l !! u) as [b|] eqn:E; cbn in H; [|discriminate]. subst b.
  apply list_lookup_insert_Some in E as [(_ & E & _)|[Hne E]]; [discriminate|]. rewrite E. split; [congruence|reflexivity].
Qed.

(** The two outcomes of an SC under the rule of the architecture. *)
Lemma sc64_success t v w : reserved t w = true ->
  exists w', sc64 true t v w = (true, w') /\ val w' = v /\ forall u, reserved u w' = false.
Proof.
  intros Ht. unfold sc64. rewrite Ht. eexists. split; [reflexivity|]. split; [reflexivity|]. intros u.
  apply not_true_is_false. intros H. apply insert_false_true in H as [_ H].
  pose proof (reserved_clear u (resv w) v) as E. unfold reserved in E. cbn [resv] in E.
  change (default false (clear_resv (resv w) !! u) = true) in H. congruence.
Qed.

Lemma sc64_failure kills t v w : reserved t w = false ->
  exists w', sc64 kills t v w = (false, w') /\ val w' = val w /\ forall u, reserved u w' = true -> u <> t /\ reserved u w = true.
Proof.
  intros Ht. unfold sc64. rewrite Ht. eexists. split; [reflexivity|]. split; [reflexivity|]. intros u. apply insert_false_true.
Qed.

(** ** Sums over harts *)

Section Sum.
Context {T : Type} (f : T -> Z).
Fixpoint hsum (l : list T) : Z := match l with [] => 0 | th :: l => f th + hsum l end.

Lemma hsum_insert l t th th' : l !! t = Some th -> hsum (<[t := th']> l) = hsum l - f th + f th'.
Proof.
  revert t. induction l as [|x l IH]; intros [|t] Ht; try discriminate; cbn in Ht.
  - injection Ht as ->. cbn. lia.
  - change (<[S t := th']> (x :: l)) with (x :: <[t := th']> l). cbn [hsum]. rewrite (IH _ Ht). lia.
Qed.

Lemma hsum_const l c : Forall (fun th => f th = c) l -> hsum l = alen l * c.
Proof. unfold alen. induction 1 as [|x l Hx _ IH]; cbn [hsum length]; [lia|]. rewrite Hx, IH. lia. Qed.
End Sum.

(** ** Phase 1: every hart increments the counter [N_INC] times *)

Definition SPIN_TIMEOUT : Z := 400000000.

Inductive inc_pc := ILr | ISc (v : Z) | IFail.
Record inc_thread := mkinc { ipc : inc_pc; idone : Z; ispins : Z }.
Record inc_state := mkincs { counter : rword; incs : list inc_thread }.

(** The next access of hart [t] in the loop of phase 1, if it has one left. *)
Definition inc_step (kills : bool) (N_INC : Z) (t : nat) (s : inc_state) : inc_state :=
  match incs s !! t with
  | None => s
  | Some (mkinc p done spins) =>
    match p with
    | ILr =>
      if done <? N_INC then
        let '(v, w) := lr64 t (counter s) in mkincs w (<[t := mkinc (ISc v) done spins]> (incs s))
      else s
    | ISc v =>
      let '(ok, w) := sc64 kills t (u64 (v + 1)) (counter s) in
      let th := if ok then mkinc ILr (done + 1) 0
                else if SPIN_TIMEOUT <? spins + 1 then mkinc IFail done (spins + 1)
                else mkinc ILr done (spins + 1) in
      mkincs w (<[t := th]> (incs s))
    | IFail => s
    end
  end.
Definition inc_start (nc : nat) : inc_state := mkincs (mkword 0 (replicate nc false)) (replicate nc (mkinc ILr 0 0)).

(** The counter holds the number of increments made, and a hart with a live
    reservation has read its current value. *)
Definition inc_inv (s : inc_state) : Prop :=
  val (counter s) = u64 (hsum idone (incs s)) /\
  forall t th v, incs s !! t = Some th -> ipc th = ISc v -> reserved t (counter s) = true -> v = val (counter s).

Lemma inc_step_inv N_INC t s : inc_inv s -> inc_inv (inc_step true N_INC t s).
Proof.
  intros [Hc Hr]. unfold inc_step. destruct (incs s !! t) as [[p done spins]|] eqn:Ht; [|now split].
  destruct p as [|v|]; [|clear N_INC|now split].
  - destruct (done <? N_INC); [|now split]. unfold lr64. cbv beta iota. split; cbn [counter incs val].
    + rewrite Hc, (hsum_insert idone _ _ _ _ Ht). cbn. f_equal. lia.
    + intros u th v Hu Hp Hres. apply list_lookup_insert_Some in Hu as [(<- & <- & _)|[Hne Hu]].
      * now injection Hp as <-.
      * apply (Hr u th v Hu Hp). pose proof (reserved_lr_ne t u (counter s) ltac:(congruence)) as E.
        unfold lr64 in E. cbn [snd] in E. congruence.
  - destruct (reserved t (counter s)) eqn:Hres.
    + assert (v = val (counter s)) as -> by (eapply Hr; [exact Ht|reflexivity|exact Hres]).
      destruct (sc64_success t (u64 (val (counter s) + 1)) (counter s) Hres) as (w' & -> & Hv & Hno).
      split; cbn [counter incs].
      * rewrite Hv, Hc, (hsum_insert idone _ _ _ _ Ht). cbn. rewrite u64_add_l. f_equal. lia.
      * intros u th v' _ _ Hu. rewrite Hno in Hu. discriminate.
    + destruct (sc64_failure true t (u64 (v + 1)) (counter s) Hres) as (w' & -> & Hv & Hno).
      split; cbn [counter incs].
      * rewrite Hv, Hc, (hsum_insert idone _ _ _ _ Ht). destruct (_ <? _); cbn; f_equal; lia.
      * intros u th v' Hu Hp Hu'. rewrite Hv. destruct (Hno _ Hu') as [Hne Hres'].
        rewrite list_lookup_insert_ne in Hu by congruence. now apply (Hr u th v' Hu Hp).
Qed.

Lemma inc_start_inv nc : inc_inv (inc_start nc).
Proof.
  split; cbn [counter incs inc_start val].
  - rewrite (hsum_const _ _ 0); [now rewrite Z.mul_0_r|]. now apply Forall_replicate.
  - intros t th v Ht. apply lookup_replicate in Ht as [-> _]. discriminate.
Qed.

Lemma exec_inv {Op S} (step : Op -> S -> S) (P : S -> Prop) l : (forall o s, P s -> P (step o s)) -> forall s, P s -> P (exec step l s).
Proof. intros Hs. induction l as [|o l IH]; intros s H; [exact H|]. apply IH, Hs, H. Qed.

(** With the reservation rule of the architecture no increment is ever lost:
    under every schedule the counter is the number of increments the harts have
    completed; when every hart has made its [N_INC] it is [nc * N_INC]. *)
Theorem lrsc_counter_exact nc N_INC sched :
  let s := exec (inc_step true N_INC) sched (inc_start nc) in
  val (counter s) = u64 (hsum idone (incs s)) /\
  (Forall (fun th => idone th = N_INC) (incs s) -> val (counter s) = u64 (alen (incs s) * N_INC)).
Proof.
  intros s. destruct (exec_inv (inc_step true N_INC) inc_inv sched (inc_step_inv N_INC) _ (inc_start_inv nc)) as [Hc _].
  fold s in Hc. split; [exact Hc|]. intros Hall. now rewrite Hc, (hsum_const _ _ N_INC).
Qed.

Lemma lrsc_counter_exact_witness :
  let s := exec (inc_step true 1) [0; 1; 0; 1; 1; 1]%nat (inc_start 2) in
  Forall (fun th => idone th = 1) (incs s) /\ val (counter s) = u64 (2 * 1).
Proof.
  split; [repeat constructor|].
  exact (proj2 (lrsc_counter_exact 2 1 [0; 1; 0; 1; 1; 1]%nat) ltac:(repeat constructor)).
Defined.

(** Under the rule of the golden model's SC.D the test does lose an update:
    two harts read the counter, both SCs succeed, and after one increment each
    the counter is 1. *)
Theorem lrsc_golden_loses_update :
  let s := exec (inc_step false 1) [0; 1; 0; 1]%nat (inc_start 2) in
  Forall (fun th => idone th = 1) (incs s) /\ val (counter s) = 1.
Proof. split; [repeat constructor|reflexivity]. Qed.

(** ** Phase 3: the mutex handoff *)

(** Where a hart is: before the LR of [cmpxchg64(&owner, 0, self)], before its SC,
    at the check of [owner], in the three increments of shared counters (a load
    and a store each), before the release; or failed on a timeout. *)
Inductive mtx_pc := MLr | MSc | MCheck | MBadLd | MBadSt (c : Z) | MCritLd | MCritSt (c : Z) | MTotLd | MTotSt (c : Z) | MRel | MFail.
Record mtx_thread := mkmtx { mpc : mtx_pc; mdone : Z; mspins : Z }.
Record mtx_state := mkmtxs { owner : rword; crit : Z; lock_total : Z; owner_corrupt : Z; mtxs : list mtx_thread }.

Definition self (t : nat) : Z := Z.shiftl (Z.of_nat t + 1) 8.

Definition mtx_step (kills : bool) (N_LOCK : Z) (t : nat) (s : mtx_state) : mtx_state :=
  match mtxs s !! t with
  | None => s
  | Some (mkmtx p done spins) =>
    let goto p := <[t := mkmtx p done spins]> (mtxs s) in
    match p with
    | MLr =>
      if done <? N_LOCK then
        let '(v, w) := lr64 t (owner s) in
        let th := if v =? 0 then mkmtx MSc done spins
                  else if SPIN_TIMEOUT <? spins + 1 then mkmtx MFail done (spins + 1)
                  else mkmtx MLr done (spins + 1) in
        mkmtxs w (crit s) (lock_total s) (owner_corrupt s) (<[t := th]> (mtxs s))
      else s
    | MSc =>
      let '(ok, w) := sc64 kills t (self t) (owner s) in
      mkmtxs w (crit s) (lock_total s) (owner_corrupt s) (goto (if ok : bool then MCheck else MLr))
    | MCheck =>
      mkmtxs (owner s) (crit s) (lock_total s) (owner_corrupt s) (goto (if val (owner s) =? self t then MCritLd else MBadLd))
    | MBadLd => mkmtxs (owner s) (crit s) (lock_total s) (owner_corrupt s) (goto (MBadSt (owner_corrupt s)))
    | MBadSt c => mkmtxs (owner s) (crit s) (lock_total s) (u64 (c + 1)) (goto MCritLd)
    | MCritLd => mkmtxs (owner s) (crit s) (lock_total s) (owner_corrupt s) (goto (MCritSt (crit s)))
    | MCritSt c => mkmtxs (owner s) (u64 (c + 1)) (lock_total s) (owner_corrupt s) (goto MTotLd)
    | MTotLd => mkmtxs (owner s) (crit s) (lock_total s) (owner_corrupt s) (goto (MTotSt (lock_total s)))
    | MTotSt c => mkmtxs (owner s) (crit s) (u64 (c + 1)) (owner_corrupt s) (goto MRel)
    | MRel =>
      mkmtxs (store64 kills 0 (owner s)) (crit s) (lock_total s) (owner_corrupt s) (<[t := mkmtx MLr (done + 1) 0]> (mtxs s))
    | MFail => s
    end
  end.
Definition mtx_start (nc : nat) : mtx_state := mkmtxs (mkword 0 (replicate nc false)) 0 0 0 (replicate nc (mkmtx MLr 0 0)).

(** Between the acquisition and the release. *)
Definition in_cs (th : mtx_thread) : bool := match mpc th with MLr | MSc | MFail => false | _ => true end.

(** The hart [r] is in the critical section: what it has done so far. *)
Definition holds (s : mtx_state) (th : mtx_thread) : Prop :=
  let n := hsum mdone (mtxs s) in
  match mpc th with
  | MCheck | MCritLd => crit s = u64 n /\ lock_total s = u64 n
  | MCritSt c => crit s = u64 n /\ lock_total s = u64 n /\ c = crit s
  | MTotLd => crit s = u64 (n + 1) /\ lock_total s = u64 n
  | MTotSt c => crit s = u64 (n + 1) /\ lock_total s = u64 n /\ c = lock_total s
  | MRel => crit s = u64 (n + 1) /\ lock_total s = u64 (n + 1)
  | _ => False
  end.

Definition mtx_free (s : mtx_state) : Prop :=
  Forall (fun th => in_cs th = false) (mtxs s) /\ val (owner s) = 0 /\
  crit s = u64 (hsum mdone (mtxs s)) /\ lock_total s = u64 (hsum mdone (mtxs s)).
Definition mtx_held (r : nat) (s : mtx_state) : Prop :=
  val (owner s) = self r /\ (exists th, mtxs s !! r = Some th /\ holds s th) /\
  (forall j th, j <> r -> mtxs s !! j = Some th -> in_cs th = false).
(** A live reservation before the SC means that the lock is still free. *)
Definition mtx_inv (s : mtx_state) : Prop :=
  owner_corrupt s = 0 /\ (mtx_free s \/ exists r, mtx_held r s) /\
  (forall t th, mtxs s !! t = Some th -> mpc th = MSc -> reserved t (owner s) = true -> val (owner s) = 0).

Lemma self_pos t : self t <> 0.
Proof. unfold self. rewrite Z.shiftl_mul_pow2 by lia. lia. Qed.

Lemma hsum_same l t (th : mtx_thread) p spins : l !! t = Some th -> hsum mdone (<[t := mkmtx p (mdone th) spins]> l) = hsum mdone l.
Proof. intros Ht. rewrite (hsum_insert mdone _ _ _ _ Ht). cbn. lia. Qed.

(** A step of a hart that is outside before and after, and keeps the lock word. *)
Lemma outside_step s t th p spins w : mtx_inv s -> mtxs s !! t = Some th -> in_cs th = false ->
  (p = MLr \/ p = MFail \/ p = MSc) -> val w = val (owner s) ->
  (forall u, reserved u w = true -> u = t \/ reserved u (owner s) = true) ->
  (p = MSc -> reserved t w = true -> val (owner s) = 0) ->
  mtx_inv (mkmtxs w (crit s) (lock_total s) (owner_corrupt s) (<[t := mkmtx p (mdone th) spins]> (mtxs s))).
Proof.
  intros (Hbad & Hph & Hres) Ht Hcs Hp Hv Hu Hsc. split; [exact Hbad|]. split.
  - destruct Hph as [(Hall & Ho & Hc & Hl)|(r & Ho & (thr & Hr & Hh) & Hj)]; [left|right; exists r].
    + unfold mtx_free. cbn [mtxs owner crit lock_total]. rewrite (hsum_same _ _ _ _ _ Ht), Hv. repeat split; try assumption.
      apply Forall_insert; [assumption|]. unfold in_cs. cbn. intuition subst; reflexivity.
    + assert (r <> t) by (intros ->; rewrite Hr in Ht; injection Ht as ->; unfold holds, in_cs in *; destruct (mpc th); congruence || contradiction).
      unfold mtx_held. cbn [mtxs owner]. split; [congruence|]. split.
      * exists thr. split; [now rewrite list_lookup_insert_ne by congruence|]. unfold holds in *. cbn [mtxs crit lock_total].
        rewrite (hsum_same _ _ _ _ _ Ht). exact Hh.
      * intros j th' Hne Hl. apply list_lookup_insert_Some in Hl as [(<- & <- & _)|[_ Hl]]; [|eapply Hj; eassumption].
        unfold in_cs. cbn. intuition subst; reflexivity.
  - cbn [mtxs owner]. intros u th' Hl Hp' Hru. rewrite Hv. apply list_lookup_insert_Some in Hl as [(<- & <- & _)|[Hne Hl]].
    + now apply Hsc.
    + destruct (Hu _ Hru) as [->|Hru']; [contradiction|]. eapply Hres; eassumption.
Qed.

(** A step of the hart in the critical section that stays in it. *)
Lemma inside_step s t th p c l : mtx_inv s -> mtxs s !! t = Some th -> in_cs th = true ->
  (holds s th -> val (owner s) = self t -> holds (mkmtxs (owner s) c l (owner_corrupt s) (mtxs s)) (mkmtx p (mdone th) (mspins th))) ->
  mtx_inv (mkmtxs (owner s) c l (owner_corrupt s) (<[t := mkmtx p (mdone th) (mspins th)]> (mtxs s))).
Proof.
  intros (Hbad & Hph & Hres) Ht Hcs Hh. split; [exact Hbad|].
  destruct Hph as [(Hall & _)|(r & Ho & (thr & Hr & Hhr) & Hj)].
  { pose proof (proj1 (Forall_lookup _ _) Hall _ _ Ht) as E. cbn in E. congruence. }
  assert (r = t) as ->.
  { destruct (decide (t = r)) as [|Hne]; [congruence|]. pose proof (Hj _ _ Hne Ht). congruence. }
  rewrite Ht in Hr. injection Hr as <-. specialize (Hh Hhr Ho). split.
  - right. exists t. split; [exact Ho|]. split.
    + eexists. cbn [mtxs]. rewrite list_lookup_insert_eq by (eapply lookup_lt_Some; exact Ht). split; [reflexivity|].
      unfold holds in *. cbn [mtxs crit lock_total] in *. rewrite (hsum_same _ _ _ _ _ Ht). exact Hh.
    + cbn [mtxs]. intros j th' Hne Hl. rewrite list_lookup_insert_ne in Hl by congruence. eapply Hj; eassumption.
  - cbn [mtxs owner]. intros u th' Hl Hp' Hru. apply list_lookup_insert_Some in Hl as [(<- & <- & _)|[Hne Hl]].
    + cbn in Hp'. subst p. unfold holds in Hh. contradiction.
    + eapply Hres; eassumption.
Qed.

Lemma mtx_step_inv N_LOCK t s : mtx_inv s -> mtx_inv (mtx_step true N_LOCK t s).
Proof.
  intros Hi. unfold mtx_step. destruct (mtxs s !! t) as [th|] eqn:Ht; [|exact Hi]. destruct th as [p done spins].
  assert (Hin : forall p' c l, in_cs (mkmtx p done spins) = true ->
    (holds s (mkmtx p done spins) -> val (owner s) = self t -> holds (mkmtxs (owner s) c l (owner_corrupt s) (mtxs s)) (mkmtx p' done spins)) ->
    mtx_inv (mkmtxs (owner s) c l (owner_corrupt s) (<[t := mkmtx p' done spins]> (mtxs s)))).
  { intros p' c l. apply (inside_step s t (mkmtx p done spins) p' c l Hi Ht). }
  destruct p; try exact Hi.
  - destruct (done <? N_LOCK); [|exact Hi]. unfold lr64. cbv beta iota.
    assert (Hout : forall p' sp, (p' = MLr \/ p' = MFail \/ p' = MSc) -> (p' = MSc -> val (owner s) = 0) ->
      mtx_inv (mkmtxs (mkword (val (owner s)) (<[t := true]> (resv (owner s)))) (crit s) (lock_total s) (owner_corrupt s)
        (<[t := mkmtx p' done sp]> (mtxs s)))).
    { intros p' sp Hp' H0. apply (outside_step s t _ p' sp _ Hi Ht); try reflexivity; try assumption; [|intros; now apply H0].
      intros u Hu. destruct (decide (u = t)) as [|Hne]; [now left|right].
      pose proof (reserved_lr_ne t u (owner s) Hne) as E. unfold lr64 in E. cbn [snd] in E. congruence. }
    destruct (Z.eqb_spec (val (owner s)) 0); [now apply Hout; auto|].
    destruct (_ <? _); apply Hout; auto; discriminate.
  - destruct (reserved t (owner s)) eqn:Hres.
    + destruct (sc64_success t (self t) (owner s) Hres) as (w & -> & Hv & Hno). destruct Hi as (Hbad & Hph & Hr).
      pose proof (Hr _ _ Ht eq_refl Hres) as H0. split; [exact Hbad|]. split; [right; exists t|].
      * destruct Hph as [(Hall & _ & Hc & Hl)|(r & Ho & _)]; [|exfalso; apply (self_pos r); congruence].
        unfold mtx_held. cbn [owner mtxs]. split; [exact Hv|]. split.
        -- eexists. rewrite list_lookup_insert_eq by (eapply lookup_lt_Some; exact Ht). split; [reflexivity|].
           unfold holds. cbn [mpc crit lock_total mtxs]. pose proof (hsum_same _ _ _ MCheck spins Ht) as E. cbn [mdone] in E. rewrite E. now split.
        -- intros j th' Hne Hj. rewrite list_lookup_insert_ne in Hj by congruence. exact (proj1 (Forall_lookup _ _) Hall _ _ Hj).
      * cbn [owner]. intros u th' _ _ Hu. rewrite Hno in Hu. discriminate.
    + destruct (sc64_failure true t (self t) (owner s) Hres) as (w & -> & Hv & Hno). cbv beta iota zeta.
      apply (outside_step s t _ MLr spins w Hi Ht); auto; try discriminate. intros u Hu. right. now apply Hno.
  - apply Hin; [reflexivity|]. unfold holds. cbn. intros [-> ->] ->. rewrite Z.eqb_refl. now split.
  - apply Hin; [reflexivity|]. unfold holds. cbn. contradiction.
  - destruct Hi as (_ & [(Hall & _)|(r & _ & (thr & Hr & Hh) & Hj)] & _); exfalso.
    + pose proof (proj1 (Forall_lookup _ _) Hall _ _ Ht). discriminate.
    + destruct (decide (t = r)) as [->|Hne]; [rewrite Ht in Hr; injection Hr as <-; exact Hh|].
      pose proof (Hj _ _ Hne Ht). discriminate.
  - apply Hin; [reflexivity|]. unfold holds. cbn. intros [-> ->] _. now repeat split.
  - apply Hin; [reflexivity|]. unfold holds. cbn. intros (Hc & -> & ->) _. rewrite Hc, u64_add_l. now split.
  - apply Hin; [reflexivity|]. unfold holds. cbn. intros [-> ->] _. now repeat split.
  - apply Hin; [reflexivity|]. unfold holds. cbn. intros (-> & Hc & ->) _. rewrite Hc, u64_add_l. now split.
  - destruct Hi as (Hbad & [(Hall & _)|(r & Ho & (thr & Hr & Hh) & Hj)] & Hres).
    { pose proof (proj1 (Forall_lookup _ _) Hall _ _ Ht). discriminate. }
    assert (r = t) as -> by (destruct (decide (t = r)) as [|Hne]; [congruence|]; pose proof (Hj _ _ Hne Ht); discriminate).
    rewrite Ht in Hr. injection Hr as <-. unfold holds in Hh. cbn in Hh. destruct Hh as [Hc Hl].
    split; [exact Hbad|]. split; [left|].
    + unfold mtx_free. cbn [mtxs owner crit lock_total]. rewrite (hsum_insert mdone _ _ _ _ Ht). cbn [mdone].
      split; [|split; [reflexivity|split; [rewrite Hc|rewrite Hl]; f_equal; lia]].
      apply Forall_lookup. intros j th' Hl'. apply list_lookup_insert_Some in Hl' as [(_ & <- & _)|[Hne Hl']]; [reflexivity|].
      eapply Hj; [|exact Hl']. congruence.
    + cbn [owner]. intros u th' _ _ Hu. now rewrite reserved_store in Hu.
Qed.

Lemma mtx_start_inv nc : mtx_inv (mtx_start nc).
Proof.
  split; [reflexivity|]. split; [left|].
  - unfold mtx_free, mtx_start. cbn [mtxs owner val crit lock_total]. rewrite (hsum_const _ _ 0) by (now apply Forall_replicate).
    rewrite Z.mul_0_r. repeat split. now apply Forall_replicate.
  - intros t th Ht. apply lookup_replicate in Ht as [-> _]. discriminate.
Qed.

(** C13: The [owner] lock is a mutex under the reservation rule of the
    architecture: under every schedule at most one hart is between its
    acquisition and its release, [owner] then names it, no corruption is ever
    counted, and whenever no hart holds the lock both plain shared counters hold
    the number of sections completed. *)
Theorem lrsc_mutual_exclusion nc N_LOCK sched :
  let s := exec (mtx_step true N_LOCK) sched (mtx_start nc) in
  owner_corrupt s = 0 /\
  (forall i j ti tj, mtxs s !! i = Some ti -> mtxs s !! j = Some tj -> in_cs ti = true -> in_cs tj = true -> i = j) /\
  (forall i ti, mtxs s !! i = Some ti -> in_cs ti = true -> val (owner s) = self i) /\
  (Forall (fun th => in_cs th = false) (mtxs s) ->
     crit s = u64 (hsum mdone (mtxs s)) /\ lock_total s = u64 (hsum mdone (mtxs s))).
Proof.
  intros s. destruct (exec_inv (mtx_step true N_LOCK) mtx_inv sched (mtx_step_inv N_LOCK) _ (mtx_start_inv nc)) as (Hbad & Hph & _).
  fold s in Hbad, Hph. split; [exact Hbad|]. destruct Hph as [(Hall & _ & Hc & Hl)|(r & Ho & (thr & Hr & Hh) & Hj)].
  - rewrite Forall_lookup in Hall. repeat split; try assumption; intros.
    + specialize (Hall _ _ H). cbn in Hall. congruence.
    + specialize (Hall _ _ H). cbn in Hall. congruence.
  - assert (Hone : forall i ti, mtxs s !! i = Some ti -> in_cs ti = true -> i = r).
    { intros i ti Hi Hc. destruct (decide (i = r)) as [|Hne]; [assumption|]. pose proof (Hj _ _ Hne Hi). congruence. }
    split; [intros i j ti tj Hi Hj' Hci Hcj; rewrite (Hone i ti Hi Hci), (Hone j tj Hj' Hcj); reflexivity|]. split.
    + intros i ti Hi Hci. now rewrite (Hone i ti Hi Hci).
    + rewrite Forall_lookup. intros Hall. specialize (Hall _ _ Hr). cbn in Hall. unfold holds, in_cs in *.
      destruct (mpc thr); discriminate || contradiction.
Qed.

(** The second hart waits while the first is in the section. *)
Lemma lrsc_mutual_exclusion_witness :
  let s := exec (mtx_step true 1) [0; 1; 0; 1; 0]%nat (mtx_start 2) in
  in_cs (mkmtx MCritLd 0 0) = true /\ val (owner s) = self 0.
Proof.
  split; [reflexivity|].
  exact (proj1 (proj2 (proj2 (lrsc_mutual_exclusion 2 1 [0; 1; 0; 1; 0]%nat))) 0%nat (mkmtx MCritLd 0 0) eq_refl eq_refl).
Defined.

(** ** The verdict of core 0 *)

(** The last lines of [thread_entry]: the totals, then PASS and exit code 0 exactly
    when every total is the expected one; [exit(2)] on the other harts. *)
Definition lrsc_pass (nc N_INC N_NODES N_LOCK counter popped lock_total crit corrupt : Z) : bool :=
  (counter =? u64 (nc * N_INC)) && (popped =? u64 ((nc - 1) * N_NODES)) && (lock_total =? u64 (nc * N_LOCK))
  && (crit =? u64 (nc * N_LOCK)) && (corrupt =? 0).
Definition lrsc_verdict (nc N_INC N_NODES N_LOCK counter popped lock_total crit corrupt : Z) : option (list Z) * Z :=
  let totals := [send (str "mt-lrsc: counter="); uart_send_integer (s32 counter); send (str " popped="); uart_send_integer (s32 popped);
    send (str " lock_total="); uart_send_integer (s32 lock_total); send (str " corrupt="); uart_send_integer (s32 corrupt); send [10]] in
  if lrsc_pass nc N_INC N_NODES N_LOCK counter popped lock_total crit corrupt
  then (out_seq (totals ++ [send (str "mt-lrsc: PASS" ++ [10])]), 0)
  else (out_seq (totals ++ [send (str "mt-lrsc: FAIL totals" ++ [10])]), 1).
