(* ===== verification/Llist.v ===== *)
(** * The lock-free list: [workloads/benchmarks/mt-llist/mt-llist.c] (with
    [PUSH_CAS = 1]) and phase 2 of [mt-lrsc.c]

    Producers push their nodes with [llist_add] (a [cmpxchg64] loop made of LR.D
    and SC.D), the consumer takes the whole chain with [llist_del_all]
    ([amoswap.d]) and walks it. A step is one access to shared memory by one
    hart. A node is its address, never 0 ([NULL]). *)

From Stdlib Require Import String.
From S2P Require Import Prelude Cmodel Libc Lrsc.
From stdpp Require Import sets.
Local Open Scope Z_scope.

(** ** State *)

(** Where a producer is in [llist_add(n)]: before the first load of [head.first];
    before [n->next = first]; before the LR and the SC of [cmpxchg64]. *)
Inductive add_pc := ARead | ALink (first : Z) | ALr (first : Z) | ASc (first : Z).
(** The nodes a producer still has to push; the first is the one being pushed. *)
Record producer := mkprod { apc : add_pc; todo : list Z }.

(** Where the consumer is: at the peek of [head.first], before the swap, at the
    node [n] of the chain it walks, out of the loop because of the watchdog. *)
Inductive con_pc := CPeek | CSwap | CWalk (n : Z) | CFail.
Record lstate := mkl {
  head : rword;          (** [head.first] *)
  next : gmap Z Z;       (** [n->next] *)
  prods : list producer;
  cpc : con_pc;
  idle : Z;
  seen : list Z;         (** the nodes popped, in order: [popped_total] is its length *)
}.
Definition next_of (s : lstate) (n : Z) : Z := default 0 (next s !! n).

Definition WAIT_CAP : Z := 4000000.

(** ** Operations *)

(** The next access of producer [t] in [llist_add]. *)
Definition llist_add_step (kills : bool) (t : nat) (s : lstate) : lstate :=
  match prods s !! t with
  | Some (mkprod p (n :: rest)) =>
    let goto p := <[t := mkprod p (n :: rest)]> (prods s) in
    match p with
    | ARead => mkl (head s) (next s) (goto (ALink (val (head s)))) (cpc s) (idle s) (seen s)
    | ALink first => mkl (head s) (<[n := first]> (next s)) (goto (ALr first)) (cpc s) (idle s) (seen s)
    | ALr first =>
      let '(v, w) := lr64 t (head s) in
      mkl w (next s) (goto (if v =? first then ASc first else ALink v)) (cpc s) (idle s) (seen s)
    | ASc first =>
      let '(ok, w) := sc64 kills t n (head s) in
      let ps := if ok : bool then <[t := mkprod ARead rest]> (prods s) else goto (ALr first) in
      mkl w (next s) ps (cpc s) (idle s) (seen s)
    end
  | _ => s
  end.

(** The next access of the consumer's loop; it ends when [expected] nodes are popped. *)
Definition consumer_step (kills : bool) (expected : Z) (s : lstate) : lstate :=
  match cpc s with
  | CPeek =>
    if alen (seen s) <? expected then
      if val (head s) =? 0 then
        mkl (head s) (next s) (prods s) (if WAIT_CAP <? idle s + 1 then CFail else CPeek) (idle s + 1) (seen s)
      else mkl (head s) (next s) (prods s) CSwap (idle s) (seen s)
    else s
  | CSwap =>
    let '(n, w) := amoswap64 kills 0 (head s) in
    mkl w (next s) (prods s) (if n =? 0 then CPeek else CWalk n) 0 (seen s)
  | CWalk n =>
    let nx := next_of s n in
    mkl (head s) (next s) (prods s) (if nx =? 0 then CPeek else CWalk nx) (idle s) (seen s ++ [n])
  | CFail => s
  end.

(** A schedule: the consumer, or a producer. *)
Definition llist_step (kills : bool) (expected : Z) (who : option nat) (s : lstate) : lstate :=
  match who with None => consumer_step kills expected s | Some t => llist_add_step kills t s end.

(** The pools of the producers are fresh: [next] is 0. *)
Definition llist_start (pools : list (list Z)) : lstate :=
  mkl (mkword 0 (replicate (length pools) false)) ∅ (map (mkprod ARead) pools) CPeek 0 [].

(** [cmpxchg64] publishing a node returns whether the list was empty. *)
Definition llist_add_result (first : Z) : Z := if first =? 0 then 1 else 0.

(** ** The invariant *)

(** The nodes reachable from [p]. *)
Fixpoint chain (next : gmap Z Z) (p : Z) (l : list Z) : Prop :=
  match l with
  | [] => p = 0
  | n :: l => p = n /\ n <> 0 /\ chain next (default 0 (next !! n)) l
  end.

Definition walking (s : lstate) : Z := match cpc s with CWalk n => n | _ => 0 end.
Definition todos (s : lstate) : list Z := flat_map todo (prods s).

(** [W] is what is left of the chain being walked, [L] is the shared list; the
    nodes are divided between the popped ones, [W], [L] and those to push. *)
Definition llist_inv (all : list Z) (s : lstate) : Prop :=
  NoDup all /\ ~ In 0 all /\ (match cpc s with CWalk n => n <> 0 | _ => True end) /\
  exists W L, chain (next s) (walking s) W /\ chain (next s) (val (head s)) L /\
    seen s ++ W ++ L ++ todos s ≡ₚ all /\
    forall t p, prods s !! t = Some p ->
      match apc p, todo p with
      | ALr first, n :: _ => next_of s n = first
      | ASc first, n :: _ => next_of s n = first /\ (reserved t (head s) = true -> first = val (head s))
      | _, _ => True
      end.

Lemma chain_insert next p l n x : ~ In n l -> chain next p l -> chain (<[n := x]> next) p l.
Proof.
  revert p. induction l as [|y l IH]; intros p Hn; cbn [chain]; [trivial|]. intros (-> & Hy & Hc). repeat split; [assumption|].
  rewrite lookup_insert_ne by (intros ->; apply Hn; now left). apply IH; [|assumption]. intros H. apply Hn. now right.
Qed.

Lemma todos_insert l t p p' : l !! t = Some p ->
  exists l1 l2, flat_map todo l = l1 ++ todo p ++ l2 /\ flat_map todo (<[t := p']> l) = l1 ++ todo p' ++ l2.
Proof.
  intros Ht. exists (flat_map todo (take t l)), (flat_map todo (drop (S t) l)).
  rewrite <- (take_drop_middle l t p Ht) at 1. rewrite insert_take_drop by (eapply lookup_lt_Some; exact Ht).
  rewrite !flat_map_app. cbn [flat_map]. now split.
Qed.

Lemma todos_same l t p p' : l !! t = Some p -> todo p' = todo p -> flat_map todo (<[t := p']> l) = flat_map todo l.
Proof. intros Ht E. destruct (todos_insert l t p p' Ht) as (l1 & l2 & -> & ->). now rewrite E. Qed.

Lemma in_todos l t p n : l !! t = Some p -> In n (todo p) -> In n (flat_map todo l).
Proof. intros Ht Hn. apply in_flat_map. exists p. split; [|exact Hn]. apply list_elem_of_In. eapply list_elem_of_lookup_2, Ht. Qed.

(** The nodes being pushed by two producers differ. *)
Lemma todo_distinct l t u p q n m : NoDup (flat_map todo l) -> l !! t = Some p -> l !! u = Some q ->
  In n (todo p) -> In m (todo q) -> t <> u -> n <> m.
Proof.
  intros Hnd Ht Hu Hn Hm Hne ->. destruct (todos_insert l t p (mkprod ARead []) Ht) as (l1 & l2 & E1 & E2).
  assert (Hin : In m (l1 ++ [] ++ l2)).
  { cbn [todo] in E2. rewrite <- E2. apply (in_todos _ u q); [now rewrite list_lookup_insert_ne by congruence|exact Hm]. }
  rewrite E1 in Hnd. apply NoDup_app in Hnd as (_ & H1 & Hnd). apply NoDup_app in Hnd as (_ & H2 & _).
  cbn in Hin. apply in_app_iff in Hin as [Hin|Hin]; rewrite <- list_elem_of_In in *.
  - apply (H1 m Hin). apply elem_of_app. now left.
  - exact (H2 m Hn Hin).
Qed.

(** The parts of a NoDup division. *)
Lemma inv_parts all s W L : NoDup all -> seen s ++ W ++ L ++ todos s ≡ₚ all ->
  NoDup (todos s) /\ forall n, In n (todos s) -> ~ In n W /\ ~ In n L.
Proof.
  intros Hnd Hp. rewrite <- Hp in Hnd. apply NoDup_app in Hnd as (_ & _ & Hnd). apply NoDup_app in Hnd as (_ & H1 & Hnd).
  apply NoDup_app in Hnd as (_ & H2 & Hnd). split; [exact Hnd|]. intros n Hn. rewrite <- !list_elem_of_In in *. split; intros H.
  - apply (H1 n H). apply elem_of_app. now right.
  - exact (H2 n H Hn).
Qed.

(** A producer's step that changes only its own position (not the nodes, the
    list or the chains) and possibly a reservation. *)
Lemma local_step all s t p p' w : llist_inv all s -> prods s !! t = Some p -> todo p' = todo p ->
  val w = val (head s) -> (forall u, u <> t -> reserved u w = true -> reserved u (head s) = true) ->
  (match apc p', todo p' with
   | ALr first, n :: _ => next_of s n = first
   | ASc first, n :: _ => next_of s n = first /\ (reserved t w = true -> first = val w)
   | _, _ => True
   end) ->
  llist_inv all (mkl w (next s) (<[t := p']> (prods s)) (cpc s) (idle s) (seen s)).
Proof.
  intros (Hnd & H0 & Hwk & W & L & HW & HL & Hp & Hr) Ht Htd Hv Hu Hp'. split; [exact Hnd|split; [exact H0|split; [exact Hwk|]]]. exists W, L.
  split; [exact HW|]. split; [cbn; now rewrite Hv|]. split.
  - unfold todos. cbn [seen prods]. now rewrite (todos_same _ _ _ _ Ht Htd).
  - cbn [prods head]. intros u q Hq. apply list_lookup_insert_Some in Hq as [(<- & <- & _)|[Hne Hq]]; [exact Hp'|].
    specialize (Hr u q Hq). destruct (apc q); try exact I; destruct (todo q); try exact I; [exact Hr|].
    destruct Hr as [Hn Hr]. split; [exact Hn|]. intros Hru. rewrite Hv. apply Hr, Hu; [congruence|exact Hru].
Qed.

Lemma llist_add_inv all t s : llist_inv all s -> llist_inv all (llist_add_step true t s).
Proof.
  intros Hi. unfold llist_add_step. destruct (prods s !! t) as [[p [|n rest]]|] eqn:Ht; [exact Hi| |exact Hi].
  pose proof Hi as (Hnd & H0 & Hwk & W & L & HW & HL & Hp & Hr). pose proof (inv_parts all s W L Hnd Hp) as [Htd Hout].
  assert (Hin : In n (todos s)) by (apply (in_todos _ t _ _ Ht); now left).
  destruct p as [|first|first|first].
  - now apply (local_step all s t _ _ _ Hi Ht).
  - destruct (Hout n Hin) as [HnW HnL]. split; [exact Hnd|split; [exact H0|split; [exact Hwk|]]]. exists W, L.
    split; [now apply chain_insert|]. split; [now apply chain_insert|]. split.
    + unfold todos. cbn [seen prods]. rewrite (todos_same _ t _ _ Ht); [exact Hp|reflexivity].
    + cbn [prods head next]. unfold next_of. cbn [next]. intros u q Hq.
      apply list_lookup_insert_Some in Hq as [(<- & <- & _)|[Hne Hq]]; [cbn; now rewrite lookup_insert_eq|].
      specialize (Hr u q Hq). unfold next_of in Hr. destruct (apc q), (todo q) as [|m r] eqn:Em; try exact I; try exact Hr;
        rewrite lookup_insert_ne; try exact Hr;
        apply (todo_distinct (prods s) t u _ q n m Htd Ht Hq); [now left|rewrite Em; now left|congruence|now left|rewrite Em; now left|congruence].
  - unfold lr64. cbv beta iota zeta. apply (local_step all s t _ _ _ Hi Ht); [reflexivity|reflexivity| |].
    + intros u Hu Hru. pose proof (reserved_lr_ne t u (head s) Hu) as E. unfold lr64 in E. cbn [snd] in E. congruence.
    + specialize (Hr t _ Ht). cbn in Hr. destruct (Z.eqb_spec (val (head s)) first) as [E|E]; [|exact I]. cbn. split; [exact Hr|]. now intros.
  - pose proof (Hr t _ Ht) as [Hn Hres]. destruct (reserved t (head s)) eqn:Er.
    + destruct (sc64_success t n (head s) Er) as (w & -> & Hv & Hno). cbv beta iota zeta.
      specialize (Hres eq_refl). split; [exact Hnd|split; [exact H0|split; [exact Hwk|]]]. exists W, (n :: L).
      split; [exact HW|]. split.
      { cbn [head next chain]. split; [exact Hv|]. split; [|unfold next_of in Hn; now rewrite Hn, Hres].
        intros ->. apply H0. rewrite <- list_elem_of_In in *. rewrite <- Hp. set_solver. }
      split.
      * destruct (todos_insert (prods s) t _ (mkprod ARead rest) Ht) as (l1 & l2 & E1 & E2). unfold todos in *. cbn [seen prods].
        rewrite E2, <- Hp, E1. cbn [todo]. solve_Permutation.
      * cbn [prods head]. intros u q Hq. apply list_lookup_insert_Some in Hq as [(<- & <- & _)|[Hne Hq]]; [exact I|].
        specialize (Hr u q Hq). destruct (apc q), (todo q); try exact I; try exact Hr. split; [apply Hr|].
        intros Hru. rewrite Hno in Hru. discriminate.
    + destruct (sc64_failure true t n (head s) Er) as (w & -> & Hv & Hno). cbv beta iota zeta.
      apply (local_step all s t _ _ _ Hi Ht); [reflexivity|exact Hv| |exact Hn]. intros u _ Hu. now apply Hno.
Qed.

Lemma chain_null next l : chain next 0 l -> l = [].
Proof. destruct l as [|n l]; [reflexivity|]. cbn. intros (<- & H & _). contradiction. Qed.

Lemma chain_cons next n l : n <> 0 -> chain next n l -> exists l', l = n :: l' /\ chain next (default 0 (next !! n)) l'.
Proof. intros Hn. destruct l as [|m l]; cbn; [contradiction|]. intros (<- & _ & H). eauto. Qed.

Lemma consumer_inv all expected s : llist_inv all s -> llist_inv all (consumer_step true expected s).
Proof.
  intros Hi. pose proof Hi as (Hnd & H0 & Hwk & W & L & HW & HL & Hp & Hr). unfold consumer_step. unfold walking in HW.
  destruct (cpc s) as [| |n|] eqn:Ec; [| | |exact Hi].
  - assert (Hc : forall c i, c = CPeek \/ c = CSwap \/ c = CFail ->
      llist_inv all (mkl (head s) (next s) (prods s) c i (seen s))).
    { intros c i [E|[E|E]]; subst c; (split; [exact Hnd|split; [exact H0|split; [exact I|]]]); exists W, L; now repeat split. }
    destruct (_ <? expected); [|exact Hi]. destruct (val (head s) =? 0); [|now apply Hc; auto].
    destruct (WAIT_CAP <? idle s + 1); apply Hc; auto.
  - apply chain_null in HW as ->. cbn [amoswap64]. split; [exact Hnd|split; [exact H0|split; [cbn; now destruct (Z.eqb_spec (val (head s)) 0)|]]].
    exists L, []. unfold walking. cbn [cpc next head prods seen amoswap64 store64 val]. split; [|split; [reflexivity|split]].
    + destruct (Z.eqb_spec (val (head s)) 0) as [E|E]; [now rewrite E in HL|exact HL].
    + cbn [app]. exact Hp.
    + intros t p Ht. specialize (Hr t p Ht). destruct (apc p), (todo p); try exact I; try exact Hr. split; [apply Hr|].
      intros Hru. exfalso. pose proof (reserved_clear t (resv (head s)) 0) as E.
      change (reserved t (mkword 0 (clear_resv (resv (head s)))) = true) in Hru. congruence.
  - apply (chain_cons _ _ _ Hwk) in HW as (W' & -> & HW'). fold (next_of s n) in HW'.
    split; [exact Hnd|split; [exact H0|split; [cbn; now destruct (Z.eqb_spec (next_of s n) 0)|]]].
    exists W', L. unfold walking. cbn [cpc next head prods seen]. split; [|split; [exact HL|split; [|exact Hr]]].
    + destruct (Z.eqb_spec (next_of s n) 0) as [E|E]; [now rewrite E in HW'|exact HW'].
    + rewrite <- app_assoc. exact Hp.
Qed.

Lemma llist_step_inv all expected who s : llist_inv all s -> llist_inv all (llist_step true expected who s).
Proof. destruct who; [apply llist_add_inv|apply consumer_inv]. Qed.

Lemma llist_start_inv pools : NoDup (concat pools) -> ~ In 0 (concat pools) -> llist_inv (concat pools) (llist_start pools).
Proof.
  intros Hnd H0. split; [exact Hnd|split; [exact H0|split; [exact I|]]]. exists [], []. split; [reflexivity|split; [reflexivity|split]].
  - unfold todos, llist_start. cbn [seen prods app]. rewrite flat_map_concat_map, map_map. cbn [todo]. now rewrite map_id.
  - cbn. intros t p Hp. apply list_lookup_fmap_Some in Hp as (l & -> & _). exact I.
Qed.

Lemma llist_run_inv pools expected sched : NoDup (concat pools) -> ~ In 0 (concat pools) ->
  llist_inv (concat pools) (exec (llist_step true expected) sched (llist_start pools)).
Proof.
  intros Hnd H0. apply (exec_inv (llist_step true expected) (llist_inv (concat pools))).
  - intros o s. apply llist_step_inv.
  - now apply llist_start_inv.
Qed.

(** C14: Conservation under the reservation rule of the architecture: whatever the
    schedule, every node is popped at most once and only if it was pushed, and
    nodes are never lost: once every producer is done, the shared list is empty
    and no chain is being walked, the popped nodes are all the nodes, once each. *)
Theorem llist_conserves pools expected sched : NoDup (concat pools) -> ~ In 0 (concat pools) ->
  let s := exec (llist_step true expected) sched (llist_start pools) in
  NoDup (seen s) /\ (forall n, In n (seen s) -> In n (concat pools) /\ ~ In n (todos s)) /\
  (todos s = [] -> val (head s) = 0 -> walking s = 0 -> seen s ≡ₚ concat pools).
Proof.
  intros Hnd H0 s. destruct (llist_run_inv pools expected sched Hnd H0) as (_ & _ & _ & W & L & HW & HL & Hp & _).
  fold s in HW, HL, Hp. pose proof Hnd as Hnd'. rewrite <- Hp in Hnd'. apply NoDup_app in Hnd' as (Hs & Hd & _).
  split; [exact Hs|split].
  - intros n Hn. rewrite <- !list_elem_of_In in *. split; [rewrite <- Hp; set_solver|]. intros Ht. apply (Hd n Hn). set_solver.
  - intros Ht Hh Hw. rewrite Hh in HL. rewrite Hw in HW. apply chain_null in HW as ->, HL as ->. rewrite Ht in Hp.
    cbn [app] in Hp. now rewrite app_nil_r in Hp.
Qed.

(** Two producers collide: the second SC fails, and its node is pushed on the retry. *)
Definition collide : list (option nat) := map Some [0; 0; 0; 1; 1; 1; 0; 1; 1; 1; 1; 1]%nat ++ repeat None 4.

Lemma llist_conserves_witness :
  let s := exec (llist_step true 2) collide (llist_start [[8]; [16]]) in
  seen s = [16; 8] /\ seen s ≡ₚ concat [[8]; [16]].
Proof.
  split; [reflexivity|]. refine (proj2 (proj2 (llist_conserves [[8]; [16]] 2 collide _ _)) eq_refl eq_refl eq_refl).
  - cbn. repeat constructor; set_solver.
  - cbn. lia.
Defined.

(** Under the rule of the golden model's SC.D the list loses a node: after the
    same collision both SCs succeed, the second publishes a stale next pointer,
    and when everything is drained the first node has not been popped. *)
Theorem llist_golden_loses_node :
  let s := exec (llist_step false 2) collide (llist_start [[8]; [16]]) in
  todos s = [] /\ val (head s) = 0 /\ walking s = 0 /\ seen s = [16].
Proof. repeat split; reflexivity. Qed.

(** ** Progress *)

Definition resv_len (s : lstate) : Prop := length (resv (head s)) = length (prods s).

Lemma resv_len_step expected who s : resv_len s -> resv_len (llist_step true expected who s).
Proof.
  unfold resv_len. intros Hl. destruct who as [t|]; cbn [llist_step].
  - unfold llist_add_step. destruct (prods s !! t) as [[p [|n rest]]|]; try exact Hl.
    destruct p as [|first|first|first]; cbn [head prods lr64]; rewrite ?length_insert; try exact Hl.
    + cbn [resv]. now rewrite length_insert.
    + unfold sc64. destruct (reserved t (head s)); cbn [head prods resv store64]; rewrite ?length_insert; [|exact Hl].
      unfold clear_resv. rewrite length_map. destruct (true); rewrite ?length_insert; exact Hl.
  - unfold consumer_step. destruct (cpc s); try exact Hl.
    + destruct (_ <? expected); [|exact Hl]. destruct (_ =? 0); exact Hl.
    + cbn [amoswap64 head prods store64 resv]. unfold clear_resv. now rewrite length_map.
Qed.

Lemma reserved_lr t w : (t < length (resv w))%nat -> reserved t (lr64 t w).2 = true.
Proof. intros Ht. unfold reserved, lr64. cbn [snd resv]. now rewrite list_lookup_insert_eq. Qed.

(** A producer at the LR, alone: two steps when its expected value is current. *)
Lemma solo_from_lr s t n rest : resv_len s -> prods s !! t = Some (mkprod (ALr (val (head s))) (n :: rest)) ->
  prods (llist_add_step true t (llist_add_step true t s)) !! t = Some (mkprod ARead rest).
Proof.
  intros Hl Ht. pose proof (lookup_lt_Some _ _ _ Ht) as Hlt.
  pose proof (reserved_lr t (head s) ltac:(unfold resv_len in Hl; lia)) as Hres. unfold lr64 in Hres. cbn [snd] in Hres.
  unfold llist_add_step at 2. rewrite Ht. unfold lr64. cbv beta iota zeta. rewrite Z.eqb_refl.
  unfold llist_add_step. cbn [prods head]. rewrite list_lookup_insert_eq by exact Hlt.
  destruct (sc64_success t n _ Hres) as (w & -> & _). cbv beta iota zeta. cbn [prods].
  rewrite list_lookup_insert_eq; [reflexivity|]. now rewrite length_insert.
Qed.

Definition solo (t k : nat) (s : lstate) : lstate := exec (llist_add_step true) (repeat t k) s.

Lemma solo_add t k k' s : solo t (k + k') s = solo t k' (solo t k s).
Proof. unfold solo. rewrite repeat_app. apply exec_app. Qed.

Lemma solo_resv_len t k : forall s, resv_len s -> resv_len (solo t k s).
Proof. induction k as [|k IH]; intros s H; [exact H|]. apply (IH (llist_add_step true t s)), (resv_len_step 0 (Some t)), H. Qed.

(** One step before the LR, with the values it needs. *)
Lemma solo_link s t first n rest : prods s !! t = Some (mkprod (ALink first) (n :: rest)) ->
  val (head (solo t 1 s)) = val (head s) /\ prods (solo t 1 s) !! t = Some (mkprod (ALr first) (n :: rest)).
Proof.
  intros Ht. unfold solo, exec, llist_add_step. cbn [repeat fold_left]. rewrite Ht. cbn [head prods]. split; [reflexivity|].
  apply list_lookup_insert_eq. eapply lookup_lt_Some, Ht.
Qed.

Lemma solo_lr_stale s t first n rest : prods s !! t = Some (mkprod (ALr first) (n :: rest)) -> val (head s) <> first ->
  val (head (solo t 1 s)) = val (head s) /\ prods (solo t 1 s) !! t = Some (mkprod (ALink (val (head s))) (n :: rest)).
Proof.
  intros Ht Hne. unfold solo, exec, llist_add_step. cbn [repeat fold_left]. rewrite Ht. cbn [lr64 head prods val].
  destruct (Z.eqb_spec (val (head s)) first); [contradiction|]. split; [reflexivity|].
  apply list_lookup_insert_eq. eapply lookup_lt_Some, Ht.
Qed.

Lemma solo_push_lr s t first n rest : resv_len s -> prods s !! t = Some (mkprod (ALr first) (n :: rest)) ->
  exists k, (k <= 4)%nat /\ prods (solo t k s) !! t = Some (mkprod ARead rest).
Proof.
  intros Hl Ht. destruct (decide (val (head s) = first)) as [<-|Hne].
  - exists 2%nat. split; [lia|]. exact (solo_from_lr s t n rest Hl Ht).
  - exists (1 + (1 + 2))%nat. split; [lia|]. rewrite !solo_add.
    destruct (solo_lr_stale s t first n rest Ht Hne) as [Hv H1]. destruct (solo_link _ t _ n rest H1) as [Hv2 H2].
    apply (solo_from_lr _ t n rest); [now do 2 apply solo_resv_len|]. now rewrite Hv2, Hv.
Qed.

Lemma solo_push s t p n rest : resv_len s -> prods s !! t = Some (mkprod p (n :: rest)) ->
  exists k, (k <= 6)%nat /\ prods (solo t k s) !! t = Some (mkprod ARead rest).
Proof.
  intros Hl Ht. pose proof (lookup_lt_Some _ _ _ Ht) as Hlt.
  assert (Hafter : forall j first, (j <= 2)%nat -> prods (solo t j s) !! t = Some (mkprod (ALr first) (n :: rest)) ->
    exists k, (k <= 6)%nat /\ prods (solo t k s) !! t = Some (mkprod ARead rest)).
  { intros j first Hj H. destruct (solo_push_lr _ t first n rest (solo_resv_len t j s Hl) H) as (k & Hk & E).
    exists (j + k)%nat. split; [lia|]. now rewrite solo_add. }
  destruct p as [|first|first|first].
  - apply (Hafter 2%nat (val (head s))); [lia|]. rewrite (solo_add t 1 1).
    apply (solo_link (solo t 1 s) t (val (head s)) n rest). unfold solo, exec, llist_add_step. cbn [repeat fold_left]. rewrite Ht.
    cbn [prods]. now apply list_lookup_insert_eq.
  - apply (Hafter 1%nat first); [lia|]. now apply solo_link.
  - apply (Hafter 0%nat first); [lia|]. exact Ht.
  - destruct (reserved t (head s)) eqn:Er.
    + exists 1%nat. split; [lia|]. unfold solo, exec, llist_add_step. cbn [repeat fold_left]. rewrite Ht.
      destruct (sc64_success t n (head s) Er) as (w & -> & _). cbn [prods]. now apply list_lookup_insert_eq.
    + apply (Hafter 1%nat first); [lia|]. unfold solo, exec, llist_add_step. cbn [repeat fold_left]. rewrite Ht.
      destruct (sc64_failure true t n (head s) Er) as (w & -> & _). cbn [prods]. now apply list_lookup_insert_eq.
Qed.

(** The push loop is obstruction-free: from every reachable state a producer
    with a node to push finishes the push within six of its own accesses when no
    other hart interferes. *)
Theorem llist_push_obstruction_free pools expected sched t p n rest :
  let s := exec (llist_step true expected) sched (llist_start pools) in
  prods s !! t = Some (mkprod p (n :: rest)) ->
  exists k, (k <= 6)%nat /\ prods (solo t k s) !! t = Some (mkprod ARead rest).
Proof.
  intros s Ht. apply (solo_push s t p n rest); [|exact Ht].
  apply (exec_inv (llist_step true expected) resv_len); [intros; now apply resv_len_step|].
  unfold resv_len, llist_start. cbn. now rewrite length_replicate, length_map.
Qed.

(** Hart 1 has lost its reservation to hart 0's push. *)
Lemma llist_push_obstruction_free_witness :
  exists k, (k <= 6)%nat /\ prods (solo 1 k (exec (llist_step true 2) (map Some [0; 0; 0; 1; 1; 1; 0]%nat) (llist_start [[8]; [16]]))) !! 1%nat
    = Some (mkprod ARead []).
Proof. exact (llist_push_obstruction_free [[8]; [16]] 2 (map Some [0; 0; 0; 1; 1; 1; 0]%nat) 1 (ASc 0) 16 [] eq_refl). Defined.

(** ** The verdict of the consumer *)

(** [seen[owner][seq]] for the node [n]: the number of times it was popped. *)
Definition seen_count (n : Z) (seen : list Z) : nat := length (filter (eq n) seen).
Definition llist_lost (all seen : list Z) : Z := zsum (map (fun n => if (seen_count n seen =? 0)%nat then 1 else 0) all).
Definition llist_dup (all seen : list Z) : Z := zsum (map (fun n => if (1 <? seen_count n seen)%nat then 1 else 0) all).
Definition llist_pass (all : list Z) (s : lstate) : bool :=
  (llist_lost all (seen s) =? 0) && (llist_dup all (seen s) =? 0) && (alen (seen s) =? alen all)
  && (match cpc s with CFail => false | _ => true end).
(** The report of core 0, and its exit code; [cas] is [PUSH_CAS]. *)
Definition llist_verdict_of (cas : Z) (all : list Z) (s : lstate) : option (list Z) * Z :=
  let stalled := match cpc s with CFail => 1 | _ => 0 end in
  let totals := [send (str "mt-llist: push="); uart_send_integer (alen all); send (str " pop="); uart_send_integer (s32 (alen (seen s)));
    send (str " lost="); uart_send_integer (s32 (llist_lost all (seen s))); send (str " dup="); uart_send_integer (s32 (llist_dup all (seen s)));
    send (str " cas="); uart_send_integer cas; send (str " stalled="); uart_send_integer stalled; send [10]] in
  if llist_pass all s then (out_seq (totals ++ [send (str "mt-llist: PASS" ++ [10])]), 0)
  else if stalled =? 1 then
    (out_seq (totals ++ [send (str "mt-llist: FAIL (consumer starved: queue empty, producers never published)" ++ [10])]), 1)
  else (out_seq (totals ++ [send (str "mt-llist: FAIL (queue lost or duplicated an entry)" ++ [10])]), 1).
Definition llist_verdict : list Z -> lstate -> option (list Z) * Z := llist_verdict_of 1.

Lemma zsum_ind_zero {A} (f : A -> bool) l : zsum (map (fun x => if f x then 1 else 0) l) = 0 <-> forall x, In x l -> f x = false.
Proof.
  assert (Hnn : forall l, 0 <= zsum (map (fun x => if f x then 1 else 0) l)).
  { clear. intros l. induction l as [|x l IH]; [cbn; lia|]. cbn [map]. cbn [zsum fold_right]. unfold zsum in IH. destruct (f x); lia. }
  induction l as [|x l IH]; [split; [intros _ ? []|reflexivity]|]. specialize (Hnn l). cbn [map]. cbn [zsum fold_right]. unfold zsum in *.
  split.
  - intros H y [<-|Hy]; [destruct (f x); [lia|reflexivity]|]. apply IH; [destruct (f x); lia|exact Hy].
  - intros H. rewrite (H x) by now left. cbn. apply IH. intros y Hy. apply H. now right.
Qed.

Lemma seen_count_in n l : (seen_count n l =? 0)%nat = false <-> In n l.
Proof.
  unfold seen_count. rewrite Nat.eqb_neq. induction l as [|x l IH]; [cbn; tauto|].
  rewrite filter_cons. destruct (decide (n = x)) as [->|Hne]; cbn [length In]; [split; [now left|lia]|]. rewrite IH. firstorder congruence.
Qed.

(** The test's verdict is sound: core 0 reports PASS exactly when the popped
    nodes are the pushed ones, each once, and the watchdog has not fired. *)
Theorem llist_verdict_exact all s : NoDup all -> (forall n, In n (seen s) -> In n all) ->
  (snd (llist_verdict all s) = 0 <-> seen s ≡ₚ all /\ cpc s <> CFail).
Proof.
  intros Hnd Hsub. assert (Hp : snd (llist_verdict all s) = 0 <-> llist_pass all s = true).
  { unfold llist_verdict, llist_verdict_of. destruct (llist_pass all s); [tauto|]. destruct (_ =? 1); cbn; split; discriminate. }
  rewrite Hp. unfold llist_pass. rewrite !andb_true_iff, !Z.eqb_eq. unfold llist_lost, llist_dup. rewrite !zsum_ind_zero. split.
  - intros [[[Hl Hd] Hlen] Hc]. split; [|destruct (cpc s); congruence].
    symmetry. apply submseteq_length_Permutation; [|unfold alen in Hlen; lia].
    apply NoDup_submseteq; [exact Hnd|]. intros n Hn. rewrite list_elem_of_In in *. now apply seen_count_in, Hl.
  - intros [Hperm Hc]. repeat split.
    + intros n Hn. apply seen_count_in. rewrite <- list_elem_of_In in *. now rewrite Hperm.
    + intros n Hn. apply Nat.ltb_ge. unfold seen_count. rewrite Hperm. clear - Hnd. induction Hnd as [|x l Hx Hnd IH]; [cbn; lia|].
      rewrite filter_cons. destruct (decide (n = x)) as [->|]; [|exact IH]. cbn [length].
      assert (filter (eq x) l = []) as ->; [|cbn; lia]. destruct (filter (eq x) l) as [|y l'] eqn:E; [reflexivity|].
      exfalso. assert (Hy : y ∈ filter (eq x) l) by (rewrite E; left). apply list_elem_of_filter in Hy as [<- Hy]. contradiction.
    + unfold alen. now rewrite Hperm.
    + destruct (cpc s); congruence.
Qed.

Lemma llist_verdict_exact_witness :
  let s := exec (llist_step true 2) collide (llist_start [[8]; [16]]) in
  snd (llist_verdict [8; 16] s) = 0 /\ (snd (llist_verdict [8; 16] s) = 0 <-> seen s ≡ₚ [8; 16] /\ cpc s <> CFail).
Proof.
  split; [reflexivity|]. apply llist_verdict_exact; [repeat constructor; set_solver|]. intros n. vm_compute. tauto.
Defined.
