(* ===== verification/Seqlock.v ===== *)
(** * The sequence lock: [workloads/benchmarks/mt-seqlock/mt-seqlock.c]

    Core 0 writes [data] between two increments of [seq]; the other cores read
    [seq], [data], [seq] until the two reads of [seq] agree and are even. A step
    is one access to a shared word (only core 0 writes [seq], so its increment is
    one step); the fences keep the accesses of each core in program order. *)

From Stdlib Require Import String.
From S2P Require Import Prelude Cmodel Libc.
From Stdlib Require Import Sorted.

Section Seqlock.
Context (ITERS RETRY_CAP STALE_CAP : Z).

(** ** State *)

(** The writer is before the first increment, the store of [data] or the second
    increment of its iteration [w_i]. *)
Inductive wpc := WOdd | WData | WEven.
(** A reader has read nothing, [s1], or [s1] and [d]; or it is out of its loop. *)
Inductive rpc := RSeq1 | RData (s1 : Z) | RSeq2 (s1 d : Z) | RDone.
(** The locals of a reader, its [wedge_*] cells, and (for the statements) the
    snapshots it has accepted, the latest first. *)
Record reader := mkreader {
  r_pc : rpc; r_i : Z; retries : Z; last_d : Z; same_streak : Z;
  wedge_kind : Z; wedge_iter : Z; wedge_extra : Z; accepted : list (Z * Z) }.
Record sstate := mks { seqno : Z; data : Z; w_pc : wpc; w_i : Z; readers : list reader }.

(** ** Steps *)

Definition writer_step (s : sstate) : sstate :=
  match w_pc s with
  | WOdd => if w_i s <? ITERS then mks (s32 (seqno s + 1)) (data s) WData (w_i s) (readers s) else s
  | WData => mks (seqno s) (w_i s) WEven (w_i s) (readers s)
  | WEven => mks (s32 (seqno s + 1)) (data s) WOdd (w_i s + 1) (readers s)
  end.

(** After the third read: the retry cap, the consistency test, the staleness cap. *)
Definition reader_decide (s1 d s2 : Z) (r : reader) : reader :=
  let n := retries r + 1 in
  if RETRY_CAP <? n then
    mkreader RDone (r_i r) n (last_d r) (same_streak r) 1 (r_i r) n (accepted r)
  else if Z.odd s1 || negb (s1 =? s2) then
    mkreader RSeq1 (r_i r) n (last_d r) (same_streak r) (wedge_kind r) (wedge_iter r) (wedge_extra r) (accepted r)
  else
    let acc := (s1, d) :: accepted r in
    let pc := if r_i r + 1 <? ITERS then RSeq1 else RDone in
    if d =? last_d r then
      let streak := same_streak r + 1 in
      if STALE_CAP <? streak then mkreader RDone (r_i r) n (last_d r) streak 2 (r_i r) streak acc
      else mkreader pc (r_i r + 1) 0 (last_d r) streak (wedge_kind r) (wedge_iter r) (wedge_extra r) acc
    else mkreader pc (r_i r + 1) 0 d 0 (wedge_kind r) (wedge_iter r) (wedge_extra r) acc.

Definition reader_goto (p : rpc) (r : reader) : reader :=
  mkreader p (r_i r) (retries r) (last_d r) (same_streak r) (wedge_kind r) (wedge_iter r) (wedge_extra r) (accepted r).

Definition reader_access (s : sstate) (r : reader) : reader :=
  match r_pc r with
  | RSeq1 => reader_goto (RData (seqno s)) r
  | RData s1 => reader_goto (RSeq2 s1 (data s)) r
  | RSeq2 s1 d => reader_decide s1 d (seqno s) r
  | RDone => r
  end.

(** A schedule: the writer, or a reader. *)
Definition seqlock_step (who : option nat) (s : sstate) : sstate :=
  match who with
  | None => writer_step s
  | Some t =>
    match readers s !! t with
    | None => s
    | Some r => mks (seqno s) (data s) (w_pc s) (w_i s) (<[t := reader_access s r]> (readers s))
    end
  end.

Definition seqlock_start (nreaders : nat) : sstate :=
  mks 0 0 WOdd 0 (replicate nreaders (mkreader (if 0 <? ITERS then RSeq1 else RDone) 0 0 (-1) 0 0 0 0 [])).

(** Core 0's report on core [c]. *)
Definition seqlock_report (c : Z) (r : reader) : option (list Z) :=
  if wedge_kind r =? 0 then Some []
  else out_seq [send (str (if wedge_kind r =? 1 then "RETRY-WEDGE core " else "STALE-WEDGE core ")); uart_send_integer c;
                send (str " iter "); uart_send_integer (wedge_iter r); send (str " extra "); uart_send_integer (wedge_extra r); send [10]].
Definition seqlock_verdict (s : sstate) : Z :=
  if existsb (fun r => negb (wedge_kind r =? 0)) (readers s) then 1 else 0.

(** ** The invariant *)

Hypothesis iters_int : 0 <= ITERS < 2 ^ 30.

(** What [data] holds when [seq] is the even number [s]: the last value written. *)
Definition datum (s : Z) : Z := if s =? 0 then 0 else s / 2 - 1.

Definition writer_ok (s : sstate) : Prop :=
  0 <= w_i s <= ITERS /\
  match w_pc s with
  | WOdd => seqno s = 2 * w_i s /\ data s = datum (seqno s)
  | WData => seqno s = 2 * w_i s + 1 /\ w_i s < ITERS
  | WEven => seqno s = 2 * w_i s + 1 /\ w_i s < ITERS /\ data s = w_i s
  end.

(** A snapshot in the making is right as long as [seq] has not moved. *)
Definition reader_ok (seqno : Z) (r : reader) : Prop :=
  (match r_pc r with
   | RData s1 => s1 <= seqno /\ Forall (fun a : Z * Z => a.1 <= s1) (accepted r)
   | RSeq2 s1 d => s1 <= seqno /\ Forall (fun a : Z * Z => a.1 <= s1) (accepted r) /\ (Z.even s1 = true -> s1 = seqno -> d = datum s1)
   | _ => True
   end) /\
  Forall (fun a : Z * Z => Z.even a.1 = true /\ a.1 <= seqno /\ a.2 = datum a.1) (accepted r) /\
  StronglySorted (fun a b : Z * Z => b.1 <= a.1) (accepted r).

Definition seqlock_inv (s : sstate) : Prop := writer_ok s /\ Forall (reader_ok (seqno s)) (readers s).

(** Advancing [seq] keeps every reader right. *)
Lemma reader_ok_advance n r : reader_ok n r -> reader_ok (n + 1) r.
Proof.
  intros (Hp & Ha & Hs). split; [|split; [|exact Hs]].
  - destruct (r_pc r) as [|s1|s1 d|]; [exact I| | |exact I].
    + destruct Hp as [H1 H2]. split; [lia|exact H2].
    + destruct Hp as (H1 & H2 & H3). split; [lia|]. split; [exact H2|]. intros _ ->. lia.
  - eapply Forall_impl; [exact Ha|]. cbn. intros [a d] (H1 & H2 & H3). cbn in *. repeat split; [assumption|lia|assumption].
Qed.

Lemma even_double n : Z.even (2 * n) = true.
Proof. now rewrite Z.even_mul. Qed.
Lemma even_double_1 n : Z.even (2 * n + 1) = false.
Proof. rewrite Z.add_comm, Z.even_add_mul_2. reflexivity. Qed.

Lemma writer_step_inv s : seqlock_inv s -> seqlock_inv (writer_step s).
Proof.
  intros [(Hw & Hpc) Hr]. unfold writer_step. destruct (w_pc s) eqn:E.
  - destruct (Z.ltb_spec (w_i s) ITERS); [|split; [split; [exact Hw|now rewrite E]|exact Hr]].
    destruct Hpc as [Hs Hd]. rewrite s32_id by (unfold is_s32; lia). split.
    + split; cbn; [lia|split; lia].
    + cbn [seqno readers]. eapply Forall_impl; [exact Hr|]. intros r. apply reader_ok_advance.
  - destruct Hpc as [Hs Hlt]. split; [split; cbn; [lia|repeat split; lia]|exact Hr].
  - destruct Hpc as (Hs & Hlt & Hd). rewrite s32_id by (unfold is_s32; lia). split.
    + split; cbn; [lia|]. split; [lia|]. unfold datum. destruct (Z.eqb_spec (seqno s + 1) 0); [lia|].
      rewrite Hd, Hs. replace (2 * w_i s + 1 + 1) with ((w_i s + 1) * 2) by lia. rewrite Z.div_mul; lia.
    + cbn [seqno readers]. eapply Forall_impl; [exact Hr|]. intros r. apply reader_ok_advance.
Qed.

Lemma reader_step_inv s r : writer_ok s -> reader_ok (seqno s) r -> reader_ok (seqno s) (reader_access s r).
Proof.
  intros (Hw & Hpc) Hok. pose proof Hok as (Hp & Ha & Hs). unfold reader_access. destruct (r_pc r) as [|s1|s1 d|] eqn:E; [| | |exact Hok].
  - split; [|now split]. cbn. split; [lia|]. eapply Forall_impl; [exact Ha|]. cbn. tauto.
  - destruct Hp as [H1 H2]. split; [|now split]. cbn. split; [lia|]. split; [exact H2|]. intros He ->.
    destruct (w_pc s); destruct Hpc as [Hn Hd]; [exact Hd|rewrite Hn, even_double_1 in He; discriminate..].
  - destruct Hp as (H1 & H2 & H3). unfold reader_decide.
    destruct (RETRY_CAP <? retries r + 1); [split; [exact I|now split]|].
    rewrite <- Z.negb_even. destruct (Z.even s1) eqn:Ee; cbn [negb orb]; [|split; [exact I|now split]].
    destruct (Z.eqb_spec s1 (seqno s)) as [->|]; cbn [negb]; [|split; [exact I|now split]].
    specialize (H3 eq_refl eq_refl).
    assert (Hacc : Forall (fun a : Z * Z => Z.even a.1 = true /\ a.1 <= seqno s /\ a.2 = datum a.1) ((seqno s, d) :: accepted r) /\
      StronglySorted (fun a b : Z * Z => b.1 <= a.1) ((seqno s, d) :: accepted r)).
    { split; constructor; try assumption. cbn. repeat split; [assumption|lia|assumption]. }
    destruct (d =? last_d r); [destruct (STALE_CAP <? same_streak r + 1)|];
      (split; [cbn; try destruct (_ <? _); exact I|exact Hacc]).
Qed.

Lemma seqlock_step_inv who s : seqlock_inv s -> seqlock_inv (seqlock_step who s).
Proof.
  intros [Hw Hr]. destruct who as [t|]; cbn [seqlock_step]; [|now apply writer_step_inv].
  destruct (readers s !! t) as [r|] eqn:Et; [|now split]. split; [exact Hw|]. cbn [readers seqno].
  apply Forall_insert; [exact Hr|]. apply reader_step_inv; [exact Hw|]. exact (proj1 (Forall_lookup _ _) Hr _ _ Et).
Qed.

Lemma seqlock_start_inv n : seqlock_inv (seqlock_start n).
Proof.
  split; [split; [cbn; lia|split; reflexivity]|]. cbn. apply Forall_replicate. split; [cbn; now destruct (0 <? ITERS)|]. split; constructor.
Qed.

Lemma seqlock_run_inv n sched : seqlock_inv (exec seqlock_step sched (seqlock_start n)).
Proof.
  generalize (seqlock_start_inv n). generalize (seqlock_start n). induction sched as [|o l IH]; intros s H; [exact H|].
  apply IH, seqlock_step_inv, H.
Qed.
End Seqlock.

(** C17: Whatever the schedule, every snapshot a reader accepts is consistent: its
    sequence number is even and its datum is the value whose write that number
    completes, never one of a write in progress; and the snapshots of a reader
    never go back in time. *)
Theorem seqlock_consistent ITERS RETRY_CAP STALE_CAP nreaders sched t r :
  0 <= ITERS < 2 ^ 30 ->
  let s := exec (seqlock_step ITERS RETRY_CAP STALE_CAP) sched (seqlock_start ITERS nreaders) in
  readers s !! t = Some r ->
  Forall (fun a : Z * Z => Z.even a.1 = true /\ a.1 <= seqno s /\ a.2 = datum a.1) (accepted r) /\
  StronglySorted (fun a b : Z * Z => b.1 <= a.1) (accepted r).
Proof.
  intros Hi s Ht. destruct (seqlock_run_inv ITERS RETRY_CAP STALE_CAP Hi nreaders sched) as [_ Hr]. fold s in Hr.
  destruct (proj1 (Forall_lookup _ _) Hr _ _ Ht) as (_ & H1 & H2). now split.
Qed.

(** A read that overlaps the write of 0 is retried, and then sees it. *)
Lemma seqlock_consistent_witness :
  let s := exec (seqlock_step 2 9 9) [None; Some 0; Some 0; None; None; Some 0; Some 0; Some 0; Some 0]%nat (seqlock_start 2 1) in
  match readers s with [r] => accepted r = [(2, 0)] /\ Forall (fun a : Z * Z => Z.even a.1 = true /\ a.1 <= seqno s /\ a.2 = datum a.1) (accepted r) | _ => False end.
Proof.
  split; [reflexivity|].
  exact (proj1 (seqlock_consistent 2 9 9 1 [None; Some 0; Some 0; None; None; Some 0; Some 0; Some 0; Some 0]%nat 0 _ ltac:(lia) eq_refl)).
Defined.
