(* ===== verification/G3d.v ===== *)
(** * Fixed-point geometry: [workloads/demos/g3d/g3d.h] and the first half of
    [workloads/demos/g3d/g3d.c]

    [g3d_fx] is an [int32_t] in Q16.16. Conversions to [int32_t] wrap; a signed
    overflow, undefined in C, wraps as well, as the RV64 word instructions do. *)

From S2P Require Import Prelude Cmodel.

(** ** Q16.16 *)

Definition G3D_W : Z := 64.
Definition G3D_H : Z := 48.
Definition G3D_ONE : Z := 65536.
Definition G3D_SHIFT : Z := 16.

Record g3d_vec3 := vec3 { vx : Z; vy : Z; vz : Z }.
Record g3d_vert2 := vert2 { px : Z; py : Z; pz : Z }.
#[export] Instance vert2_inhabited : Inhabited g3d_vert2 := populate (vert2 0 0 0).
Record g3d_rgb := rgb { red : Z; green : Z; blue : Z }.
(** [m[16]] *)
Definition g3d_mat4 : Type := list Z.

Definition g3d_mul (a b : Z) : Z := s32 (Z.shiftr (a * b) G3D_SHIFT).
Definition g3d_div (a b : Z) : Z := if b =? 0 then 0 else s32 (Z.quot (Z.shiftl a G3D_SHIFT) b).
Definition g3d_from_int (v : Z) : Z := s32 (Z.shiftl v G3D_SHIFT).
Definition g3d_to_int (v : Z) : Z := Z.shiftr v G3D_SHIFT.

(** ** Sine and cosine *)

Definition g3d_sintab : list Z := [
   0; 1608; 3216; 4821; 6424; 8022; 9616; 11204;
   12785; 14359; 15924; 17479; 19024; 20557; 22078; 23586;
   25080; 26558; 28020; 29466; 30893; 32303; 33692; 35062;
   36410; 37736; 39040; 40320; 41576; 42806; 44011; 45190;
   46341; 47464; 48559; 49624; 50660; 51665; 52639; 53581;
   54491; 55368; 56212; 57022; 57798; 58538; 59244; 59914;
   60547; 61145; 61705; 62228; 62714; 63162; 63572; 63944;
   64277; 64571; 64827; 65043; 65220; 65358; 65457; 65516;
   65536; 65516; 65457; 65358; 65220; 65043; 64827; 64571;
   64277; 63944; 63572; 63162; 62714; 62228; 61705; 61145;
   60547; 59914; 59244; 58538; 57798; 57022; 56212; 55368;
   54491; 53581; 52639; 51665; 50660; 49624; 48559; 47464;
   46341; 45190; 44011; 42806; 41576; 40320; 39040; 37736;
   36410; 35062; 33692; 32303; 30893; 29466; 28020; 26558;
   25080; 23586; 22078; 20557; 19024; 17479; 15924; 14359;
   12785; 11204; 9616; 8022; 6424; 4821; 3216; 1608;
   0; -1608; -3216; -4821; -6424; -8022; -9616; -11204;
   -12785; -14359; -15924; -17479; -19024; -20557; -22078; -23586;
   -25080; -26558; -28020; -29466; -30893; -32303; -33692; -35062;
   -36410; -37736; -39040; -40320; -41576; -42806; -44011; -45190;
   -46341; -47464; -48559; -49624; -50660; -51665; -52639; -53581;
   -54491; -55368; -56212; -57022; -57798; -58538; -59244; -59914;
   -60547; -61145; -61705; -62228; -62714; -63162; -63572; -63944;
   -64277; -64571; -64827; -65043; -65220; -65358; -65457; -65516;
   -65536; -65516; -65457; -65358; -65220; -65043; -64827; -64571;
   -64277; -63944; -63572; -63162; -62714; -62228; -61705; -61145;
   -60547; -59914; -59244; -58538; -57798; -57022; -56212; -55368;
   -54491; -53581; -52639; -51665; -50660; -49624; -48559; -47464;
   -46341; -45190; -44011; -42806; -41576; -40320; -39040; -37736;
   -36410; -35062; -33692; -32303; -30893; -29466; -28020; -26558;
   -25080; -23586; -22078; -20557; -19024; -17479; -15924; -14359;
   -12785; -11204; -9616; -8022; -6424; -4821; -3216; -1608 ].

Definition g3d_sin (angle256 : Z) : Z := aget g3d_sintab (Z.land angle256 255).
Definition g3d_cos (angle256 : Z) : Z := aget g3d_sintab (Z.land (angle256 + 64) 255).

(** ** Matrices *)

Definition g3d_ident : g3d_mat4 :=
  let o := replicate 16 0 in
  aset (aset (aset (aset o 0 G3D_ONE) 5 G3D_ONE) 10 G3D_ONE) 15 G3D_ONE.

(** The loops fill [t.m[r*4 + c]] in row-major order. *)
Definition g3d_mul_mat (a b : g3d_mat4) : g3d_mat4 :=
  for_range 0 4 (fun r t =>
    for_range 0 4 (fun c t =>
      let s := for_range 0 4 (fun k s => s64 (s + aget a (r * 4 + k) * aget b (k * 4 + c))) 0 in
      aset t (r * 4 + c) (s32 (Z.shiftr s G3D_SHIFT))) t) (replicate 16 0).

Definition g3d_translate (x y z : Z) : g3d_mat4 := aset (aset (aset g3d_ident 3 x) 7 y) 11 z.
Definition g3d_rotate_x (angle256 : Z) : g3d_mat4 :=
  let c := g3d_cos angle256 in let s := g3d_sin angle256 in
  aset (aset (aset (aset g3d_ident 5 c) 6 (s32 (- s))) 9 s) 10 c.
Definition g3d_rotate_y (angle256 : Z) : g3d_mat4 :=
  let c := g3d_cos angle256 in let s := g3d_sin angle256 in
  aset (aset (aset (aset g3d_ident 0 c) 2 s) 8 (s32 (- s))) 10 c.
Definition g3d_rotate_z (angle256 : Z) : g3d_mat4 :=
  let c := g3d_cos angle256 in let s := g3d_sin angle256 in
  aset (aset (aset (aset g3d_ident 0 c) 1 (s32 (- s))) 4 s) 5 c.

Definition g3d_transform (m : g3d_mat4) (v : g3d_vec3) : g3d_vec3 :=
  let row k := s32 (g3d_mul (aget m k) (vx v) + g3d_mul (aget m (k + 1)) (vy v) + g3d_mul (aget m (k + 2)) (vz v) + aget m (k + 3)) in
  vec3 (row 0) (row 4) (row 8).

(** [None] is the return value 0: behind the near plane, the output not written. *)
Definition g3d_project (eye : g3d_vec3) (cx cy focal : Z) : option g3d_vert2 :=
  if vz eye <=? Z.quot G3D_ONE 8 then None
  else Some (vert2 (s32 (cx + g3d_to_int (g3d_div (g3d_mul (vx eye) focal) (vz eye))))
                   (s32 (cy + g3d_to_int (g3d_div (g3d_mul (vy eye) focal) (vz eye)))) (vz eye)).

(** ** Vectors *)

Definition g3d_cross (a b : g3d_vec3) : g3d_vec3 :=
  vec3 (s32 (g3d_mul (vy a) (vz b) - g3d_mul (vz a) (vy b)))
       (s32 (g3d_mul (vz a) (vx b) - g3d_mul (vx a) (vz b)))
       (s32 (g3d_mul (vx a) (vy b) - g3d_mul (vy a) (vx b))).
Definition g3d_dot (a b : g3d_vec3) : Z :=
  s32 (g3d_mul (vx a) (vx b) + g3d_mul (vy a) (vy b) + g3d_mul (vz a) (vz b)).

(** The integer square root of [g3d_normalize]: the two [while] loops on
    [(n, r, bit)]. Sixteen values of [bit] are possible. *)
Fixpoint isqrt_start (fuel : nat) (n bit : Z) : Z :=
  match fuel with
  | O => bit
  | S fuel => if n <? bit then isqrt_start fuel n (Z.shiftr bit 2) else bit
  end.
Fixpoint isqrt_loop (fuel : nat) (n r bit : Z) : Z :=
  match fuel with
  | O => r
  | S fuel =>
    if bit =? 0 then r
    else if r + bit <=? n then isqrt_loop fuel (n - (r + bit)) (Z.shiftr r 1 + bit) (Z.shiftr bit 2)
    else isqrt_loop fuel n (Z.shiftr r 1) (Z.shiftr bit 2)
  end.
Definition isqrt (n : Z) : Z := isqrt_loop 17 n 0 (isqrt_start 17 n (Z.shiftl 1 30)).

Definition g3d_normalize (v : g3d_vec3) : g3d_vec3 :=
  let len2 := g3d_dot v v in
  if len2 <=? 0 then v
  else
    let x := s32 (Z.shiftl (isqrt len2) 8) in
    if x =? 0 then v else vec3 (g3d_div (vx v) x) (g3d_div (vy v) x) (g3d_div (vz v) x).

(** [1] when the screen-space cross product is positive. *)
Definition g3d_facing (a b c : g3d_vert2) : bool :=
  let ux := px b - px a in let uy := py b - py a in
  let vx := px c - px a in let vy := py c - py a in
  0 <? ux * vy - uy * vx.

(** [o.c = (uint8_t)(amb + ((base.c * k) >> 8)); if (o.c < amb) o.c = amb], with [amb = 48]. *)
Definition shade_channel (k c : Z) : Z :=
  let o := u8 (48 + Z.shiftr (c * k) 8) in
  if o <? 48 then u8 48 else o.
Definition g3d_shade (base : g3d_rgb) (n light : g3d_vec3) : g3d_rgb :=
  let ndotl := g3d_dot n light in
  let ndotl := if ndotl <? 0 then 0 else ndotl in
  let k := Z.shiftr (s32 (ndotl * 207)) G3D_SHIFT in
  rgb (shade_channel k (red base)) (shade_channel k (green base)) (shade_channel k (blue base)).

(** ** Theorems: sine, cosine and matrices *)

Lemma land_255 a : Z.land a 255 = a mod 256.
Proof. apply (land_ones_mod a 8 255); lia. Qed.

Definition unit_circle_ok (a : Z) : bool :=
  let s := g3d_sin a in let c := g3d_cos a in
  (Z.abs (s * s + c * c - G3D_ONE * G3D_ONE) <=? 72284) && (g3d_sin (a + 128) =? - s) && (Z.abs s <=? G3D_ONE) && (Z.abs c <=? G3D_ONE).

Lemma g3d_sin_mod a : g3d_sin a = g3d_sin (a mod 256).
Proof. unfold g3d_sin. rewrite !land_255. now rewrite Z.mod_mod by lia. Qed.
Lemma g3d_cos_mod a : g3d_cos a = g3d_cos (a mod 256).
Proof. unfold g3d_cos. rewrite !land_255. now rewrite Zplus_mod_idemp_l. Qed.

Lemma forallb_zrange f lo hi : forallb f (zrange lo hi) = true -> forall i, lo <= i < hi -> f i = true.
Proof. rewrite forallb_forall. intros H i Hi. now apply H, in_zrange. Qed.

(** For every angle, wrapped to 256 steps, the table's sine and cosine lie on
    the unit circle (the squared radius is off by less than 2^-15), are bounded by one, and change
    sign over half a turn. *)
Theorem sincos_unit_circle a :
  Z.abs (g3d_sin a * g3d_sin a + g3d_cos a * g3d_cos a - G3D_ONE * G3D_ONE) <= 72284 /\
  g3d_sin (a + 128) = - g3d_sin a /\ Z.abs (g3d_sin a) <= G3D_ONE /\ Z.abs (g3d_cos a) <= G3D_ONE.
Proof.
  assert (H : unit_circle_ok (a mod 256) = true).
  { apply (forallb_zrange unit_circle_ok 0 256); [vm_compute; reflexivity|]. apply Z.mod_pos_bound. lia. }
  unfold unit_circle_ok in H. rewrite !andb_true_iff, !Z.leb_le, Z.eqb_eq in H.
  assert (E : g3d_sin (a mod 256 + 128) = g3d_sin (a + 128)) by (now rewrite (g3d_sin_mod (_ + 128)), Zplus_mod_idemp_l, <- g3d_sin_mod).
  rewrite E, <- (g3d_sin_mod a), <- (g3d_cos_mod a) in H. tauto.
Qed.

(** ** Theorems: the integer square root *)

Definition pow4 (k : nat) : Z := 4 ^ Z.of_nat k.

Lemma pow4_S k : pow4 (S k) = 4 * pow4 k.
Proof. unfold pow4. rewrite Nat2Z.inj_succ, Z.pow_succ_r by lia. lia. Qed.
Lemma pow4_pos k : 0 < pow4 k.
Proof. unfold pow4. apply Z.pow_pos_nonneg; lia. Qed.
Lemma shiftr_pow4 k : Z.shiftr (pow4 (S k)) 2 = pow4 k.
Proof. rewrite Z.shiftr_div_pow2, pow4_S by lia. change (2 ^ 2) with 4. rewrite Z.mul_comm. apply Z.div_mul. lia. Qed.
Lemma pow4_square k : pow4 k = 2 ^ Z.of_nat k * 2 ^ Z.of_nat k.
Proof. unfold pow4. change 4 with (2 * 2). now rewrite Z.pow_mul_l. Qed.

Lemma isqrt_loop_zero fuel n r : isqrt_loop fuel n r 0 = r.
Proof. now destruct fuel. Qed.

(** The loop invariant: with [q] the root found so far, a multiple of twice the
    current digit [d], [r = 2 q d] and [n = n0 - q^2 < (2d)^2 + 2 q (2d)]. *)
Lemma isqrt_digits k : forall fuel n0 q, (k < fuel)%nat -> let d := 2 ^ Z.of_nat k in
  0 <= q -> q * q <= n0 < (q + 2 * d) * (q + 2 * d) -> (exists m, q = 2 * d * m) ->
  isqrt_loop fuel (n0 - q * q) (2 * q * d) (d * d) = Z.sqrt n0.
Proof.
  induction k as [|k IH]; intros fuel n0 q Hf d Hq Hn [m Hm]; (destruct fuel as [|fuel]; [lia|]); cbn [isqrt_loop].
  - change d with 1 in *. cbn [Z.mul]. rewrite !Z.mul_1_r. change (1 =? 0) with false. cbv iota.
    replace (Z.shiftr (2 * q) 1) with q by (rewrite Z.shiftr_div_pow2 by lia; change (2 ^ 1) with 2; zlia).
    change (Z.shiftr 1 2) with 0. destruct (Z.leb_spec (2 * q + 1) (n0 - q * q)).
    + rewrite isqrt_loop_zero. symmetry. apply Z.sqrt_unique. lia.
    + rewrite isqrt_loop_zero. symmetry. apply Z.sqrt_unique. lia.
  - assert (Hd : d = 2 * 2 ^ Z.of_nat k) by (unfold d; rewrite Nat2Z.inj_succ, Z.pow_succ_r by lia; lia).
    set (e := 2 ^ Z.of_nat k) in *. assert (0 < e) by (apply Z.pow_pos_nonneg; lia).
    destruct (Z.eqb_spec (d * d) 0) as [E|_]; [nia|].
    replace (Z.shiftr (d * d) 2) with (e * e) by (rewrite Z.shiftr_div_pow2 by lia; rewrite Hd; change (2 ^ 2) with 4; replace (2 * e * (2 * e)) with (e * e * 4) by lia; now rewrite Z.div_mul).
    replace (Z.shiftr (2 * q * d) 1) with (q * d) by (rewrite Z.shiftr_div_pow2 by lia; change (2 ^ 1) with 2; replace (2 * q * d) with (q * d * 2) by lia; now rewrite Z.div_mul).
    destruct (Z.leb_spec (2 * q * d + d * d) (n0 - q * q)).
    + replace (n0 - q * q - (2 * q * d + d * d)) with (n0 - (q + d) * (q + d)) by lia.
      replace (q * d + d * d) with (2 * (q + d) * e) by lia. apply IH; [lia|lia| |exists (2 * m + 1); fold e; nia].
      fold e. split; [lia|]. replace (q + d + 2 * e) with (q + 2 * d) by lia. lia.
    + replace (q * d) with (2 * q * e) by lia. apply IH; [lia|lia| |exists (2 * m); fold e; nia].
      fold e. split; [lia|]. rewrite <- Hd. lia.
Qed.

(** The first loop finds a digit from which the second can start. *)
Lemma isqrt_start_bit n k : forall fuel, (k < fuel)%nat -> 0 < n -> n < 4 * pow4 k ->
  exists j, isqrt_start fuel n (pow4 k) = pow4 j /\ (j <= k)%nat /\ n < 4 * pow4 j.
Proof.
  induction k as [|k IH]; intros fuel Hf Hp Hn; (destruct fuel as [|fuel]; [lia|]); cbn [isqrt_start].
  - destruct (Z.ltb_spec n (pow4 0)) as [Hlt|_]; [change (pow4 0) with 1 in Hlt; lia|]. exists 0%nat. split; [reflexivity|]. split; [lia|exact Hn].
  - rewrite shiftr_pow4. destruct (Z.ltb_spec n (pow4 (S k))) as [Hlt|_].
    + rewrite pow4_S in Hlt. destruct (IH fuel ltac:(lia) Hp Hlt) as (j & -> & Hj & H). exists j. split; [reflexivity|]. split; [lia|exact H].
    + exists (S k). split; [reflexivity|]. split; [lia|exact Hn].
Qed.

Lemma isqrt_correct n : 0 < n < 2 ^ 31 -> isqrt n = Z.sqrt n.
Proof.
  intros Hn. unfold isqrt. change (Z.shiftl 1 30) with (pow4 15).
  destruct (isqrt_start_bit n 15 17 ltac:(lia) ltac:(lia)) as (j & -> & Hj & Hlt); [change (pow4 15) with (2 ^ 30); lia|].
  pose proof (isqrt_digits j 17 n 0 ltac:(lia)) as H. cbv zeta in H. rewrite pow4_square in *.
  replace (n - 0 * 0) with n in H by lia. replace (2 * 0 * 2 ^ Z.of_nat j) with 0 in H by lia.
  apply H; [lia|split; [lia|]|exists 0; lia]. lia.
Qed.

(** The bit-by-bit loop of [g3d_normalize] computes the integer square root of
    every positive squared length, and both loops end (the fuel is not used up):
    the length it divides by is [256 * sqrt(len2)]. *)
Theorem normalize_sqrt v : let len2 := g3d_dot v v in 0 < len2 ->
  let x := 256 * Z.sqrt len2 in
  g3d_normalize v = vec3 (g3d_div (vx v) x) (g3d_div (vy v) x) (g3d_div (vz v) x).
Proof.
  intros len2 Hl x. unfold g3d_normalize. fold len2. destruct (Z.leb_spec len2 0); [lia|].
  assert (Hr : len2 < 2 ^ 31) by (unfold len2, g3d_dot; pose proof (s32_range (g3d_mul (vx v) (vx v) + g3d_mul (vy v) (vy v) + g3d_mul (vz v) (vz v))) as H'; unfold is_s32 in H'; lia).
  rewrite isqrt_correct by lia. rewrite Z.shiftl_mul_pow2 by lia. change (2 ^ 8) with 256.
  pose proof (Z.sqrt_spec len2 ltac:(lia)) as [H1 H2]. assert (0 < Z.sqrt len2) by (apply Z.sqrt_pos; lia).
  assert (Z.sqrt len2 < 2 ^ 16) by nia. rewrite s32_id by (unfold is_s32; lia).
  replace (Z.sqrt len2 * 256) with x by (unfold x; lia). destruct (Z.eqb_spec x 0); [unfold x in *; lia|reflexivity].
Qed.

Lemma normalize_sqrt_witness : g3d_normalize (vec3 (3 * G3D_ONE) 0 (4 * G3D_ONE)) = vec3 39321 0 52428.
Proof. refine (eq_trans (normalize_sqrt (vec3 (3 * G3D_ONE) 0 (4 * G3D_ONE)) _) _); reflexivity. Defined.

(** ** Theorems: shading *)

(** For unit-length arguments (a dot product of at most one) no channel of
    [g3d_shade] wraps or falls below the ambient level. *)
Theorem shade_range base n light : 0 <= red base < 256 -> 0 <= green base < 256 -> 0 <= blue base < 256 ->
  g3d_dot n light <= G3D_ONE ->
  let o := g3d_shade base n light in
  48 <= red o <= 254 /\ 48 <= green o <= 254 /\ 48 <= blue o <= 254 /\
  (0 <= g3d_dot n light -> red o = 48 + red base * (g3d_dot n light * 207 / 65536) / 256).
Proof.
  intros Hr Hg Hb Hd o. subst o. unfold g3d_shade. set (nd := if g3d_dot n light <? 0 then 0 else g3d_dot n light).
  assert (Hnd : 0 <= nd <= 65536) by (unfold nd, G3D_ONE in *; destruct (Z.ltb_spec (g3d_dot n light) 0); lia).
  rewrite (s32_id (nd * 207)) by (unfold is_s32; lia). unfold G3D_SHIFT. rewrite (Z.shiftr_div_pow2 _ 16) by lia. change (2 ^ 16) with 65536.
  set (k := nd * 207 / 65536). assert (Hk : 0 <= k <= 207) by (unfold k; zlia).
  assert (Hch : forall c, 0 <= c < 256 -> shade_channel k c = 48 + c * k / 256 /\ 48 <= 48 + c * k / 256 <= 254).
  { intros c Hc. unfold shade_channel. rewrite Z.shiftr_div_pow2 by lia. change (2 ^ 8) with 256.
    assert (0 <= c * k <= 255 * 207) by nia. assert (0 <= c * k / 256 <= 206) by zlia. unfold u8. rewrite Z.mod_small by lia.
    destruct (Z.ltb_spec (48 + c * k / 256) 48); lia. }
  cbn [red green blue]. pose proof (Hch _ Hr) as [-> H1]. pose proof (Hch _ Hg) as [-> H2]. pose proof (Hch _ Hb) as [-> H3].
  repeat split; try lia. intros Hd'. unfold k, nd. destruct (Z.ltb_spec (g3d_dot n light) 0); [lia|reflexivity].
Qed.

Lemma shade_range_witness : 48 <= red (g3d_shade (rgb 220 70 70) (vec3 0 0 (-65536)) (vec3 24576 24576 (-49152))) <= 254.
Proof. apply (shade_range (rgb 220 70 70) (vec3 0 0 (-65536)) (vec3 24576 24576 (-49152))); vm_compute; split || idtac; congruence. Defined.
