(* ===== verification/Raster.v ===== *)
(** * Rasterisation: [g3d_clear], [g3d_plot], [g3d_line] and [g3d_triangle] of
    [workloads/demos/g3d/g3d.c]

    A target is the frame buffer and, when it is not null, the z-buffer, both
    [G3D_W * G3D_H] cells in row-major order. *)

From S2P Require Import Prelude Cmodel G3d.

#[export] Instance rgb_inhabited : Inhabited g3d_rgb := populate (rgb 0 0 0).
Record target := mktarget { fb : list g3d_rgb; zbuf : option (list Z) }.

Definition cells : Z := G3D_W * G3D_H.
Definition target_ok (s : target) : Prop := alen (fb s) = cells /\ forall z, zbuf s = Some z -> alen z = cells.

(** ** Pixels *)

Definition g3d_clear (s : target) (c : g3d_rgb) : target :=
  for_range 0 (G3D_W * G3D_H) (fun i s =>
    mktarget (aset (fb s) i c) (option_map (fun z => aset z i 0xFFFF) (zbuf s))) s.

Definition z_encode (zi : Z) : Z :=
  let v := Z.shiftr zi 8 in
  let v := if v <? 0 then 0 else v in
  let v := if 65535 <? v then 65535 else v in
  u16 v.

(** The unsigned comparisons reject negative coordinates as well. *)
Definition g3d_plot (s : target) (x y zi : Z) (c : g3d_rgb) : target :=
  if (G3D_W <=? u32 x) || (G3D_H <=? u32 y) then s
  else
    let idx := y * G3D_W + x in
    let ze := z_encode zi in
    match zbuf s with
    | Some z => if aget z idx <=? ze then s else mktarget (aset (fb s) idx c) (Some (aset z idx ze))
    | None => mktarget (aset (fb s) idx c) None
    end.

(** ** Lines *)

(** A line has a frame buffer and no z-buffer: [g3d_plot(fb, 0, x, y, 0, c)]. *)
Definition plot_fb (f : list g3d_rgb) (x y : Z) (c : g3d_rgb) : list g3d_rgb := fb (g3d_plot (mktarget f None) x y 0 c).

(** The endless loop of [g3d_line]; [None] when the fuel runs out. *)
Fixpoint line_loop (fuel : nat) (x1 y1 dx dy sx sy x y err : Z) (c : g3d_rgb) (f : list g3d_rgb) : option (list g3d_rgb) :=
  match fuel with
  | O => None
  | S fuel =>
    let f := plot_fb f x y c in
    if (x =? x1) && (y =? y1) then Some f
    else
      let e2 := s32 (Z.shiftl err 1) in
      let '(err1, x) := if s32 (- dy) <? e2 then (s32 (err - dy), s32 (x + sx)) else (err, x) in
      let '(err2, y) := if e2 <? dx then (s32 (err1 + dx), s32 (y + sy)) else (err1, y) in
      line_loop fuel x1 y1 dx dy sx sy x y err2 c f
  end.
Definition g3d_line (fuel : nat) (f : list g3d_rgb) (x0 y0 x1 y1 : Z) (c : g3d_rgb) : option (list g3d_rgb) :=
  let dx := s32 (x1 - x0) in
  let dy := s32 (y1 - y0) in
  let sx := if 0 <=? dx then 1 else -1 in
  let sy := if 0 <=? dy then 1 else -1 in
  let dx := if dx <? 0 then s32 (- dx) else dx in
  let dy := if dy <? 0 then s32 (- dy) else dy in
  line_loop fuel x1 y1 dx dy sx sy x0 y0 (s32 (dx - dy)) c f.

(** ** Triangles *)

Definition lerp_i (a b num den : Z) : Z := if den =? 0 then a else s32 (a + s32 (Z.quot (s32 (b - a) * num) den)).
Definition lerp_z (a b num den : Z) : Z := if den =? 0 then a else s32 (a + s32 (Z.quot (s32 (b - a) * num) den)).

(** The three exchanges: the vertices ordered by [y]. *)
Definition sort3 (a b c : g3d_vert2) : g3d_vert2 * g3d_vert2 * g3d_vert2 :=
  let '(a, b) := if py b <? py a then (b, a) else (a, b) in
  let '(b, c) := if py c <? py b then (c, b) else (b, c) in
  let '(a, b) := if py b <? py a then (b, a) else (a, b) in
  (a, b, c).

(** The span of the scanline [y]: its ends and their depths; [None] is [continue]. *)
Definition span (a b c : g3d_vert2) (y : Z) : option (Z * Z * Z * Z) :=
  let y0 := py a in let y1 := py b in let y2 := py c in
  let xl := lerp_i (px a) (px c) (s32 (y - y0)) (s32 (y2 - y0)) in
  let zl := lerp_z (pz a) (pz c) (s32 (y - y0)) (s32 (y2 - y0)) in
  let right :=
    if (y <? y1) && negb (y1 =? y0) then
      Some (lerp_i (px a) (px b) (s32 (y - y0)) (s32 (y1 - y0)), lerp_z (pz a) (pz b) (s32 (y - y0)) (s32 (y1 - y0)))
    else if negb (y2 =? y1) then
      Some (lerp_i (px b) (px c) (s32 (y - y1)) (s32 (y2 - y1)), lerp_z (pz b) (pz c) (s32 (y - y1)) (s32 (y2 - y1)))
    else None in
  match right with
  | None => None
  | Some (xr, zr) => if xr <? xl then Some (xr, zr, xl, zl) else Some (xl, zl, xr, zr)
  end.

(** One iteration of the scanline loop inside the band. *)
Definition scanline (a b c : g3d_vert2) (col : g3d_rgb) (y : Z) (s : target) : target :=
  match span a b c y with
  | None => s
  | Some (xl, zl, xr, zr) =>
    for_range xl (xr + 1) (fun x s => g3d_plot s x y (lerp_z zl zr (s32 (x - xl)) (s32 (xr - xl))) col) s
  end.

Definition g3d_triangle (s : target) (a b c : g3d_vert2) (col : g3d_rgb) (y_lo y_hi : Z) : target :=
  let '(a, b, c) := sort3 a b c in
  if py c =? py a then s
  else
    let y_lo := if y_lo <? 0 then 0 else y_lo in
    let y_hi := if G3D_H <? y_hi then G3D_H else y_hi in
    for_range (py a) (py c + 1) (fun y s =>
      if (y <? y_lo) || (y_hi <=? y) then s else scanline a b c col y s) s.

(** ** Theorems: pixels *)

Lemma u32_in_range n x : 0 < n <= 2 ^ 31 -> is_s32 x -> (n <=? u32 x) = negb ((0 <=? x) && (x <? n)).
Proof.
  intros Hn Hx. unfold is_s32, u32 in *. destruct (Z.leb_spec 0 x).
  - rewrite Z.mod_small by lia. destruct (Z.leb_spec n x), (Z.ltb_spec x n); cbn; try reflexivity; lia.
  - replace (x mod 0x100000000) with (x + 0x100000000) by zlia. cbn [andb negb]. apply Z.leb_le. lia.
Qed.

Definition on_screen (x y : Z) : bool := (0 <=? x) && (x <? G3D_W) && ((0 <=? y) && (y <? G3D_H)).

Lemma plot_offscreen s x y zi c : is_s32 x -> is_s32 y -> on_screen x y = false -> g3d_plot s x y zi c = s.
Proof.
  intros Hx Hy H. unfold g3d_plot. rewrite !u32_in_range by (assumption || (unfold G3D_W, G3D_H; lia)).
  unfold on_screen in H. destruct ((0 <=? x) && (x <? G3D_W)), ((0 <=? y) && (y <? G3D_H)); try discriminate; reflexivity.
Qed.

Lemma plot_ok s x y zi c : target_ok s -> target_ok (g3d_plot s x y zi c).
Proof.
  intros Hs. pose proof Hs as [Hf Hz]. unfold g3d_plot. destruct (_ || _); [exact Hs|]. destruct (zbuf s) as [z|] eqn:E.
  - destruct (_ <=? _); [exact Hs|]. split; cbn; [now rewrite alen_aset|]. intros z' [= <-]. rewrite alen_aset. now apply Hz.
  - split; cbn; [now rewrite alen_aset|discriminate].
Qed.

(** The row of a cell. *)
Definition row_of (i : Z) : Z := i / G3D_W.

(** Two targets agree on a row. *)
Definition same_row (y : Z) (s s' : target) : Prop :=
  (forall i, row_of i = y -> aget (fb s) i = aget (fb s') i) /\
  match zbuf s, zbuf s' with
  | Some z, Some z' => forall i, row_of i = y -> aget z i = aget z' i
  | None, None => True
  | _, _ => False
  end.

#[export] Instance same_row_equiv y : Equivalence (same_row y).
Proof.
  split.
  - intros s. split; [reflexivity|]. now destruct (zbuf s).
  - intros s s' [H1 H2]. split; [intros; symmetry; auto|]. destruct (zbuf s), (zbuf s'); try contradiction; auto. intros; symmetry; auto.
  - intros s s' s'' [H1 H2] [H3 H4]. split; [intros i Hi; now rewrite H1, H3|].
    destruct (zbuf s), (zbuf s'), (zbuf s''); try contradiction; auto. intros i Hi. now rewrite H2, H4.
Qed.

Lemma row_of_idx x y : 0 <= x < G3D_W -> row_of (y * G3D_W + x) = y.
Proof. intros. unfold row_of. rewrite Z.add_comm, Z.div_add, Z.div_small by (unfold G3D_W in *; lia). lia. Qed.

(** A plot changes its own row only. *)
Lemma plot_other_row s x y zi c y' : is_s32 x -> is_s32 y -> y <> y' -> same_row y' (g3d_plot s x y zi c) s.
Proof.
  intros Hx Hy Hne. destruct (on_screen x y) eqn:Hon; [|rewrite plot_offscreen by assumption; reflexivity].
  unfold on_screen in Hon. rewrite !andb_true_iff, !Z.leb_le, !Z.ltb_lt in Hon.
  assert (Hi : forall i, row_of i = y' -> y * G3D_W + x <> i) by (intros i Hi <-; rewrite row_of_idx in Hi by lia; congruence).
  unfold g3d_plot. destruct (_ || _); [reflexivity|]. destruct (zbuf s) as [z|] eqn:E.
  - destruct (_ <=? _); [reflexivity|]. split; cbn; [intros i H; now rewrite aget_aset_ne by auto|]. rewrite E. intros i H. now rewrite aget_aset_ne by auto.
  - split; cbn; [intros i H; now rewrite aget_aset_ne by auto|]. now rewrite E.
Qed.

(** What a plot does to its row depends on that row only. *)
Lemma plot_same_row s s' x y zi c y' : target_ok s -> target_ok s' -> is_s32 x -> is_s32 y -> same_row y' s s' ->
  same_row y' (g3d_plot s x y zi c) (g3d_plot s' x y zi c).
Proof.
  intros [Hf Hz] [Hf' Hz'] Hx Hy Hs. destruct (decide (y = y')) as [<-|Hne].
  2: { now rewrite !plot_other_row by assumption. }
  destruct (on_screen x y) eqn:Hon; [|now rewrite !plot_offscreen by assumption].
  unfold on_screen in Hon. rewrite !andb_true_iff, !Z.leb_le, !Z.ltb_lt in Hon.
  pose proof Hs as [H1 H2]. unfold g3d_plot. destruct (_ || _); [exact Hs|].
  destruct (zbuf s) as [z|] eqn:E, (zbuf s') as [z'|] eqn:E'; try contradiction.
  - rewrite (H2 (y * G3D_W + x)) by (now apply row_of_idx). destruct (_ <=? _); [exact Hs|].
    split; cbn; intros i Hi; apply aget_aset_same; auto; [congruence|]. now rewrite (Hz z eq_refl), (Hz' z' eq_refl).
  - split; cbn; [|exact I]. intros i Hi. apply aget_aset_same; auto. congruence.
Qed.

(** ** Scanlines and bands *)

(** What a core does to one row: clear it, or draw one triangle's scanline. *)
Inductive draw_op := ClearRow (black : g3d_rgb) (y : Z) | Scan (a b c : g3d_vert2) (col : g3d_rgb) (y : Z).
Definition op_row (o : draw_op) : Z := match o with ClearRow _ y => y | Scan _ _ _ _ y => y end.

(** The row-clearing loop of the demos. *)
Definition clear_row (black : g3d_rgb) (y : Z) (s : target) : target :=
  for_range 0 G3D_W (fun x s =>
    let idx := y * G3D_W + x in mktarget (aset (fb s) idx black) (option_map (fun z => aset z idx 0xFFFF) (zbuf s))) s.
Definition draw (o : draw_op) : target -> target :=
  match o with
  | ClearRow black y => clear_row black y
  | Scan a b c col y => scanline a b c col y
  end.

(** The scanlines of a triangle inside a band. *)
Definition triangle_ops (y_lo y_hi : Z) (t : g3d_vert2 * g3d_vert2 * g3d_vert2 * g3d_rgb) : list draw_op :=
  let '(a, b, c, col) := t in
  let '(a, b, c) := sort3 a b c in
  if py c =? py a then []
  else
    let y_lo := if y_lo <? 0 then 0 else y_lo in
    let y_hi := if G3D_H <? y_hi then G3D_H else y_hi in
    map (Scan a b c col) (List.filter (fun y => negb ((y <? y_lo) || (y_hi <=? y))) (zrange (py a) (py c + 1))).

Lemma exec_filter {A S} (f : A -> bool) (body : A -> S -> S) l s :
  exec (fun y s => if f y then s else body y s) l s = exec body (List.filter (fun y => negb (f y)) l) s.
Proof.
  revert s. induction l as [|x l IH]; intros s; [reflexivity|]. cbn [List.filter]. destruct (f x) eqn:E; cbn [negb exec fold_left];
    unfold exec in *; rewrite ?E; apply IH.
Qed.

Lemma triangle_exec s a b c col y_lo y_hi : g3d_triangle s a b c col y_lo y_hi = exec draw (triangle_ops y_lo y_hi (a, b, c, col)) s.
Proof.
  unfold g3d_triangle, triangle_ops. destruct (sort3 a b c) as [[a' b'] c']. destruct (_ =? _); [reflexivity|].
  rewrite for_range_exec, exec_filter, exec_map. reflexivity.
Qed.

Definition vert_ok (v : g3d_vert2) : Prop := is_s32 (px v) /\ is_s32 (py v).
Definition op_ok (o : draw_op) : Prop :=
  0 <= op_row o < G3D_H /\ match o with Scan a b c _ _ => vert_ok a /\ vert_ok b /\ vert_ok c | _ => True end.

Lemma lerp_i_s32 a b n d : is_s32 a -> is_s32 (lerp_i a b n d).
Proof. intros. unfold lerp_i. destruct (d =? 0); [assumption|apply s32_range]. Qed.

Lemma span_s32 a b c y xl zl xr zr : vert_ok a -> vert_ok b -> span a b c y = Some (xl, zl, xr, zr) -> is_s32 xl /\ is_s32 xr /\ xl <= xr.
Proof.
  intros [Ha _] [Hb _]. unfold span.
  pose proof (lerp_i_s32 (px a) (px c) (s32 (y - py a)) (s32 (py c - py a)) Ha) as H1.
  pose proof (lerp_i_s32 (px a) (px b) (s32 (y - py a)) (s32 (py b - py a)) Ha) as H2.
  pose proof (lerp_i_s32 (px b) (px c) (s32 (y - py b)) (s32 (py c - py b)) Hb) as H3.
  destruct ((y <? py b) && _); [|destruct (negb (_ =? _)); [|discriminate]];
    match goal with |- context [?r <? ?l] => destruct (Z.ltb_spec r l) end; intros [= <- _ <- _];
    (split; [assumption|split; [assumption|lia]]).
Qed.

(** A loop over the cells of one row keeps the relations of the row. *)
Lemma loop_same_row y' lo hi body s s' :
  (forall x s, lo <= x < hi -> target_ok s -> target_ok (body x s)) ->
  (forall x s s', lo <= x < hi -> target_ok s -> target_ok s' -> same_row y' s s' -> same_row y' (body x s) (body x s')) ->
  target_ok s -> target_ok s' -> same_row y' s s' ->
  (target_ok (for_range lo hi body s) /\ target_ok (for_range lo hi body s')) /\ same_row y' (for_range lo hi body s) (for_range lo hi body s').
Proof.
  intros Hok Hrow. rewrite !for_range_exec. assert (Hb : forall x, In x (zrange lo hi) -> lo <= x < hi) by (intros x; apply in_zrange).
  revert s s' Hb. induction (zrange lo hi) as [|x l IH]; intros s s' Hb Hs Hs' Hr; [exact (conj (conj Hs Hs') Hr)|]. cbn [exec fold_left].
  assert (lo <= x < hi) by (apply Hb; now left). apply IH; auto. intros z Hz. apply Hb. now right.
Qed.

Lemma loop_other_row y' lo hi body s :
  (forall x s, lo <= x < hi -> same_row y' (body x s) s) -> same_row y' (for_range lo hi body s) s.
Proof.
  intros Hb. rewrite for_range_exec. assert (Hx : forall x, In x (zrange lo hi) -> lo <= x < hi) by (intros x; apply in_zrange).
  revert s Hx. induction (zrange lo hi) as [|x l IH]; intros s Hx; [reflexivity|]. cbn [exec fold_left].
  etransitivity; [apply IH; intros; apply Hx; now right|]. apply Hb, Hx. now left.
Qed.

Definition clear_cell (black : g3d_rgb) (y x : Z) (s : target) : target :=
  let idx := y * G3D_W + x in mktarget (aset (fb s) idx black) (option_map (fun z => aset z idx 0xFFFF) (zbuf s)).

Lemma clear_cell_ok black y x s : target_ok s -> target_ok (clear_cell black y x s).
Proof.
  intros [Hf Hz]. split; cbn; [now rewrite alen_aset|]. intros z E. destruct (zbuf s) as [z'|]; [|discriminate].
  injection E as <-. rewrite alen_aset. now apply Hz.
Qed.

Lemma clear_cell_same black y x s s' y' : target_ok s -> target_ok s' -> same_row y' s s' -> same_row y' (clear_cell black y x s) (clear_cell black y x s').
Proof.
  intros [Hf Hz] [Hf' Hz'] [H1 H2]. split; cbn.
  - intros i Hi. apply aget_aset_same; auto. congruence.
  - destruct (zbuf s) as [z|], (zbuf s') as [z'|]; try contradiction; auto. intros i Hi. apply aget_aset_same; auto.
    now rewrite (Hz z eq_refl), (Hz' z' eq_refl).
Qed.

Lemma clear_cell_other black y x s y' : 0 <= x < G3D_W -> y <> y' -> same_row y' (clear_cell black y x s) s.
Proof.
  intros Hx Hne. assert (Hi : forall i, row_of i = y' -> y * G3D_W + x <> i) by (intros i Hi <-; rewrite row_of_idx in Hi by lia; congruence).
  split; cbn; [intros i H; now rewrite aget_aset_ne by auto|]. destruct (zbuf s); [|exact I]. intros i H. now rewrite aget_aset_ne by auto.
Qed.

(** The two facts about an operation: it leaves the other rows alone, and its
    effect on a row depends on that row only. *)
Lemma draw_same_row o s s' y' : op_ok o -> target_ok s -> target_ok s' -> same_row y' s s' ->
  (target_ok (draw o s) /\ target_ok (draw o s')) /\ same_row y' (draw o s) (draw o s').
Proof.
  intros [Hrow Hv] Hs Hs' Hr. destruct o as [black y|a b c col y]; cbn [draw].
  - apply loop_same_row; try assumption; intros; [now apply clear_cell_ok|now apply clear_cell_same].
  - unfold scanline. destruct (span a b c y) as [[[[xl zl] xr] zr]|] eqn:E; [|exact (conj (conj Hs Hs') Hr)].
    destruct Hv as (Ha & Hb & _). pose proof (span_s32 _ _ _ _ _ _ _ _ Ha Hb E) as (Hl & Hr' & _). cbn in Hrow.
    unfold is_s32 in *. apply loop_same_row; try assumption; intros; [now apply plot_ok|].
    apply plot_same_row; auto; unfold is_s32, G3D_H in *; lia.
Qed.

Lemma draw_other_row o s y' : op_ok o -> op_row o <> y' -> same_row y' (draw o s) s.
Proof.
  intros [Hrow Hv] Hne. destruct o as [black y|a b c col y]; cbn [draw] in *; cbn in Hrow, Hne.
  - apply loop_other_row. intros. now apply clear_cell_other.
  - unfold scanline. destruct (span a b c y) as [[[[xl zl] xr] zr]|] eqn:E; [|reflexivity].
    destruct Hv as (Ha & Hb & _). pose proof (span_s32 _ _ _ _ _ _ _ _ Ha Hb E) as (Hl & Hr' & _).
    unfold is_s32, G3D_H in *. apply loop_other_row. intros. apply plot_other_row; auto; unfold is_s32; lia.
Qed.

Lemma exec_draw_ok l s : Forall op_ok l -> target_ok s -> target_ok (exec draw l s).
Proof.
  intros Hl. revert s. induction Hl as [|o l Ho _ IH]; intros s Hs; [exact Hs|]. apply IH.
  now destruct (draw_same_row o s s 0 Ho Hs Hs ltac:(reflexivity)) as [[H _] _].
Qed.

(** A row after a program is the row after the program's operations on it. *)
Lemma exec_draw_row l y : Forall op_ok l -> forall s, target_ok s ->
  same_row y (exec draw l s) (exec draw (List.filter (fun o => op_row o =? y) l) s).
Proof.
  intros Hl. assert (Hcong : forall l s s', Forall op_ok l -> target_ok s -> target_ok s' -> same_row y s s' ->
    same_row y (exec draw l s) (exec draw l s')).
  { clear. intros l s s' Hl. revert s s'. induction Hl as [|o l Ho _ IH]; intros s s' Hs Hs' Hr; [exact Hr|]. cbn [exec fold_left].
    destruct (draw_same_row o s s' y Ho Hs Hs' Hr) as [[H1 H2] H3]. now apply IH. }
  induction Hl as [|o l Ho Hl IH]; intros s Hs; [reflexivity|]. cbn [List.filter].
  destruct (draw_same_row o s s 0 Ho Hs Hs ltac:(reflexivity)) as [[Hok _] _].
  destruct (Z.eqb_spec (op_row o) y) as [E|E]; cbn [exec fold_left]; [now apply IH|].
  etransitivity; [apply (IH (draw o s) Hok)|].
  apply Hcong; [now apply Forall_filter|exact Hok|exact Hs|].
  now apply draw_other_row.
Qed.
