(* ===== verification/Cube.v ===== *)
(** * The cube demos: [workloads/demos/mt-cube.c], [mt-solid.c] and the host
    program [g3d/host_smoke.c]

    One frame of [mt-solid] is a stage in which the cores share out the vertices
    and normals, a barrier, a stage in which each core clears and fills its own
    rows, and a barrier ([Barrier.barrier_separates] is why the stages do not
    overlap). A stage is any interleaving of the cores' operations: the vertices,
    the normals, the row clears and the scanlines. *)

From S2P Require Import Prelude Cmodel G3d Raster.
From stdpp Require Import sets.
Local Open Scope Z_scope.

#[export] Instance vec3_inhabited : Inhabited g3d_vec3 := populate (vec3 0 0 0).

Definition NVERT : Z := 8.
Definition NEDGE : Z := 12.
Definition NFACE : Z := 12.

Definition cube_obj : list g3d_vec3 := [
  vec3 (- G3D_ONE) (- G3D_ONE) (- G3D_ONE);
  vec3 G3D_ONE (- G3D_ONE) (- G3D_ONE);
  vec3 G3D_ONE G3D_ONE (- G3D_ONE);
  vec3 (- G3D_ONE) G3D_ONE (- G3D_ONE);
  vec3 (- G3D_ONE) (- G3D_ONE) G3D_ONE;
  vec3 G3D_ONE (- G3D_ONE) G3D_ONE;
  vec3 G3D_ONE G3D_ONE G3D_ONE;
  vec3 (- G3D_ONE) G3D_ONE G3D_ONE].

Definition cube_edge : list (Z * Z) :=
  [(0, 1); (1, 2); (2, 3); (3, 0); (4, 5); (5, 6); (6, 7); (7, 4); (0, 4); (1, 5); (2, 6); (3, 7)].

Definition cube_tri : list (Z * Z * Z) :=
  [(0, 1, 2); (0, 2, 3); (5, 4, 7); (5, 7, 6); (4, 0, 3); (4, 3, 7);
   (1, 5, 6); (1, 6, 2); (4, 5, 1); (4, 1, 0); (3, 2, 6); (3, 6, 7)].

Definition face_n : list g3d_vec3 := [
  vec3 0 0 (- G3D_ONE); vec3 0 0 (- G3D_ONE); vec3 0 0 G3D_ONE; vec3 0 0 G3D_ONE;
  vec3 (- G3D_ONE) 0 0; vec3 (- G3D_ONE) 0 0; vec3 G3D_ONE 0 0; vec3 G3D_ONE 0 0;
  vec3 0 (- G3D_ONE) 0; vec3 0 (- G3D_ONE) 0; vec3 0 G3D_ONE 0; vec3 0 G3D_ONE 0].

Definition face_col : list g3d_rgb :=
  [rgb 220 70 70; rgb 70 200 80; rgb 70 110 230; rgb 230 200 60; rgb 200 80 200; rgb 70 210 210].

Definition focal : Z := g3d_from_int 72.
Definition cx : Z := Z.quot G3D_W 2.
Definition cy : Z := Z.quot G3D_H 2.

(** ** Vertices and normals *)

(** [g3d_transform] and [g3d_project] of vertex [i]; the projection is not
    written when the vertex is behind the near plane. *)
Definition eye_of (world : g3d_mat4) (i : Z) : g3d_vec3 := g3d_transform world (aget cube_obj i).
Definition put_vertex (world : g3d_mat4) (i : Z) (projected : list g3d_vert2) : list g3d_vert2 :=
  match g3d_project (eye_of world i) cx cy focal with
  | Some v => aset projected i v
  | None => projected
  end.

Definition rotate_normal (rot : g3d_mat4) (i : Z) : g3d_vec3 :=
  let n := aget face_n i in
  let row k := s32 (g3d_mul (aget rot k) (vx n) + g3d_mul (aget rot (k + 1)) (vy n) + g3d_mul (aget rot (k + 2)) (vz n)) in
  vec3 (row 0) (row 4) (row 8).

(** ** mt-cube *)

Section MtCube.
Context (angle_y : Z).
Definition cube_world : g3d_mat4 := g3d_mul_mat (g3d_translate 0 0 (g3d_from_int 4)) (g3d_rotate_y angle_y).
Definition cube_slice (cid nc : Z) : list Z := zrange (Z.quot (cid * NVERT) nc) (Z.quot ((cid + 1) * NVERT) nc).

(** Core 0's drawing: [None] when a line runs out of fuel. *)
Definition cyan : g3d_rgb := rgb 80 220 255.
Definition cube_draw (fuel : nat) (projected : list g3d_vert2) (f : list g3d_rgb) : option (list g3d_rgb) :=
  fold_left (fun f e =>
    match f with
    | None => None
    | Some f =>
      let a := aget projected e.1 in let b := aget projected e.2 in
      g3d_line fuel f (px a) (py a) (px b) (py b) cyan
    end) cube_edge (Some (fb (g3d_clear (mktarget f None) (rgb 0 0 0)))).
Definition next_angle : Z := Z.land (angle_y + 3) 255.
End MtCube.

(** ** mt-solid *)

Record scene := mkscene { projected : list g3d_vert2; nrot : list g3d_vec3 }.

Definition solid_rot (angle_x angle_y : Z) : g3d_mat4 := g3d_mul_mat (g3d_rotate_y angle_y) (g3d_rotate_x angle_x).
Definition solid_world (angle_x angle_y : Z) : g3d_mat4 :=
  g3d_mul_mat (g3d_translate 0 0 (g3d_from_int 4)) (solid_rot angle_x angle_y).

Inductive scene_op := Vertex (i : Z) | Normal (i : Z).
Definition put (world rot : g3d_mat4) (o : scene_op) (s : scene) : scene :=
  match o with
  | Vertex i => mkscene (put_vertex world i (projected s)) (nrot s)
  | Normal i => mkscene (projected s) (aset (nrot s) i (rotate_normal rot i))
  end.
#[export] Instance scene_op_eq_dec : EqDecision scene_op.
Proof. solve_decision. Defined.
(** The two strided loops of a core. *)
Definition scene_program (nc cid : Z) : list scene_op :=
  map Vertex (strided 8 cid NVERT nc) ++ map Normal (strided 12 cid NFACE nc).

Definition black : g3d_rgb := rgb 8 8 16.
Definition light : g3d_vec3 := vec3 24576 24576 (-49152).
Definition y_lo (nc cid : Z) : Z := Z.quot (cid * G3D_H) nc.
Definition y_hi (nc cid : Z) : Z := Z.quot ((cid + 1) * G3D_H) nc.

(** The triangle of face [i] and its colour; [None] is the [continue] of the culling test. *)
Definition corner (sc : scene) (k : Z) : g3d_vert2 := aget (projected sc) k.
Definition face (sc : scene) (i : Z) : option (g3d_vert2 * g3d_vert2 * g3d_vert2 * g3d_rgb) :=
  let '(ka, kb, kc) := aget cube_tri i in
  let a := corner sc ka in let b := corner sc kb in let c := corner sc kc in
  if g3d_facing a b c then None
  else Some (a, b, c, g3d_shade (aget face_col (Z.quot i 2)) (aget (nrot sc) i) light).

(** The second stage of a core: its rows cleared, then every face clipped to them. *)
Definition solid_band (nc cid : Z) (sc : scene) (s : target) : target :=
  let s := for_range (y_lo nc cid) (y_hi nc cid) (clear_row black) s in
  for_range 0 NFACE (fun i s =>
    match face sc i with
    | None => s
    | Some (a, b, c, col) => g3d_triangle s a b c col (y_lo nc cid) (y_hi nc cid)
    end) s.

(** The angles of frame [k]: core 0 advances both after presenting. *)
Fixpoint frame_angles (k : nat) : Z * Z :=
  match k with
  | O => (18, 30)
  | S k => let '(angle_x, angle_y) := frame_angles k in (Z.land (angle_x + 1) 255, Z.land (angle_y + 3) 255)
  end.

(** ** host_smoke *)

Definition smoke_box (acc : Z * Z * Z * Z * Z) (i : Z) : Z * Z * Z * Z * Z :=
  let '(xmin, xmax, ymin, ymax, ok) := acc in
  match g3d_project (eye_of (solid_world 18 30) i) 32 24 (g3d_from_int 72) with
  | None => acc
  | Some p => (if px p <? xmin then px p else xmin, if xmax <? px p then px p else xmax,
               if py p <? ymin then py p else ymin, if ymax <? py p then py p else ymax, ok + 1)
  end.
(** The exit code of [main]. *)
Definition smoke_main : Z :=
  let '(xmin, xmax, ymin, ymax, ok) := for_range 0 8 (fun i acc => smoke_box acc i) (999, -999, 999, -999, 0) in
  if ok <? 8 then 1
  else if (xmax <? 0) || (64 <=? xmin) || (ymax <? 0) || (48 <=? ymin) then 2
  else if (xmax - xmin <? 8) || (ymax - ymin <? 8) then 3
  else 0.

(** ** Theorems: the first stage *)

Definition scene_ok (sc : scene) : Prop := alen (projected sc) = NVERT /\ alen (nrot sc) = NFACE.

Lemma alen_put_vertex world i p : alen (put_vertex world i p) = alen p.
Proof. unfold put_vertex. destruct (g3d_project _ _ _ _); [apply alen_aset|reflexivity]. Qed.

Lemma put_ok world rot o sc : scene_ok sc -> scene_ok (put world rot o sc).
Proof.
  unfold scene_ok. intros [H1 H2]. destruct o; cbn [put projected nrot]; [now rewrite alen_put_vertex|now rewrite alen_aset].
Qed.

Lemma exec_put_ok world rot l sc : scene_ok sc -> scene_ok (exec (put world rot) l sc).
Proof. revert sc. induction l as [|o l IH]; intros sc H; [exact H|]. apply IH, put_ok, H. Qed.

Lemma in_cons_eq (o : scene_op) l : bool_decide (o ∈ o :: l) = true.
Proof. apply bool_decide_true, elem_of_cons. now left. Qed.
Lemma in_cons_ne (o o' : scene_op) l : o <> o' -> bool_decide (o ∈ o' :: l) = bool_decide (o ∈ l).
Proof. intros. apply bool_decide_ext. rewrite elem_of_cons. tauto. Qed.

(** A vertex is what its own operation writes, if it runs at all. *)
Lemma exec_vertex world rot l sc i : scene_ok sc -> 0 <= i < NVERT ->
  aget (projected (exec (put world rot) l sc)) i =
    if bool_decide (Vertex i ∈ l) then default (aget (projected sc) i) (g3d_project (eye_of world i) cx cy focal)
    else aget (projected sc) i.
Proof.
  intros Hok Hi. revert sc Hok. induction l as [|o l IH]; intros sc Hok; [reflexivity|]. cbn [exec fold_left].
  unfold exec in IH. rewrite IH by now apply put_ok. destruct Hok as [Hp Hn].
  destruct o as [j|j]; cbn [put projected].
  - unfold put_vertex. destruct (decide (i = j)) as [<-|Hne].
    + rewrite in_cons_eq.
      destruct (g3d_project _ _ _ _) as [v|] eqn:E; cbn [default]; [rewrite aget_aset by lia|]; now destruct (bool_decide _).
    + rewrite in_cons_ne by congruence.
      destruct (g3d_project (eye_of world j) _ _ _); [now rewrite !aget_aset_ne by congruence|reflexivity].
  - now rewrite in_cons_ne by congruence.
Qed.

Lemma exec_normal world rot l sc i : scene_ok sc -> 0 <= i < NFACE ->
  aget (nrot (exec (put world rot) l sc)) i = if bool_decide (Normal i ∈ l) then rotate_normal rot i else aget (nrot sc) i.
Proof.
  intros Hok Hi. revert sc Hok. induction l as [|o l IH]; intros sc Hok; [reflexivity|]. cbn [exec fold_left].
  unfold exec in IH. rewrite IH by now apply put_ok. destruct Hok as [Hp Hn].
  destruct o as [j|j]; cbn [put nrot].
  - now rewrite in_cons_ne by congruence.
  - destruct (decide (i = j)) as [<-|Hne].
    + rewrite in_cons_eq. rewrite aget_aset by lia. now destruct (bool_decide _).
    + rewrite in_cons_ne by congruence. now rewrite aget_aset_ne by congruence.
Qed.

(** Every vertex and normal is some core's. *)
Lemma scene_programs_all nc l : 0 < nc -> interleaving (map (scene_program nc) (zrange 0 nc)) l ->
  (forall i, 0 <= i < NVERT -> Vertex i ∈ l) /\ (forall i, 0 <= i < NFACE -> Normal i ∈ l).
Proof.
  intros Hnc Hl. apply interleaving_perm in Hl.
  assert (Hin : forall cid o, 0 <= cid < nc -> In o (scene_program nc cid) -> o ∈ l).
  { intros cid o Hcid Ho. rewrite Hl. apply list_elem_of_In, in_concat. eexists. split; [|exact Ho]. apply in_map, in_zrange. exact Hcid. }
  assert (Hmod : forall i, 0 <= i -> (i - i mod nc) mod nc = 0 /\ 0 <= i mod nc < nc /\ i mod nc <= i).
  { intros i Hi. pose proof (Z.mod_pos_bound i nc Hnc). pose proof (Z.div_mod i nc ltac:(lia)). pose proof (Z.div_pos i nc Hi Hnc).
    repeat split; try lia; try nia. replace (i - i mod nc) with (i / nc * nc) by lia. apply Z.mod_mul. lia. }
  split; intros i Hi; destruct (Hmod i (proj1 Hi)) as (H1 & H2 & H3); apply (Hin (i mod nc) _ H2); unfold scene_program;
    rewrite in_app_iff, !in_map_iff; [left|right]; exists i; (split; [reflexivity|]); unfold NVERT, NFACE in *;
    rewrite in_strided by lia; split; (exact H1 || lia).
Qed.

(** The scene does not depend on the cores' number or interleaving. *)
Lemma scene_parallel world rot nc l sc : 0 < nc -> scene_ok sc -> interleaving (map (scene_program nc) (zrange 0 nc)) l ->
  exec (put world rot) l sc = exec (put world rot) (scene_program 1 0) sc.
Proof.
  intros Hnc Hok Hl. apply scene_programs_all in Hl as [Hv Hn]; [|assumption].
  destruct (scene_programs_all 1 (scene_program 1 0) ltac:(lia)) as [Hv1 Hn1].
  { exact (interleaving_single (scene_program 1 0)). }
  pose proof (exec_put_ok world rot l sc Hok) as [Hp1 Hq1]. pose proof (exec_put_ok world rot (scene_program 1 0) sc Hok) as [Hp2 Hq2].
  assert (Hext : forall s s', projected s = projected s' -> nrot s = nrot s' -> s = s') by (intros [] [] H1 H2; cbn in *; congruence).
  apply Hext; (apply aget_ext; [unfold alen in *; lia|]); rewrite ?Hp1, ?Hq1; intros i Hi.
  - now rewrite !exec_vertex, !bool_decide_true by auto.
  - now rewrite !exec_normal, !bool_decide_true by auto.
Qed.

(** ** Theorems: the second stage *)

(** The faces drawn, and a core's program on them. *)
Definition solid_tris (sc : scene) : list (g3d_vert2 * g3d_vert2 * g3d_vert2 * g3d_rgb) :=
  flat_map (fun i => match face sc i with Some t => [t] | None => [] end) (zrange 0 NFACE).
Definition band_ops (lo hi : Z) (tris : list (g3d_vert2 * g3d_vert2 * g3d_vert2 * g3d_rgb)) : list draw_op :=
  map (ClearRow black) (zrange lo hi) ++ flat_map (triangle_ops lo hi) tris.
Definition band_program (nc : Z) (sc : scene) (cid : Z) : list draw_op := band_ops (y_lo nc cid) (y_hi nc cid) (solid_tris sc).

Lemma faces_exec lo hi sc l : forall s,
  exec (fun i s => match face sc i with None => s | Some (a, b, c, col) => g3d_triangle s a b c col lo hi end) l s =
  exec draw (flat_map (triangle_ops lo hi) (flat_map (fun i => match face sc i with Some t => [t] | None => [] end) l)) s.
Proof.
  induction l as [|i l IH]; intros s; [reflexivity|]. cbn [flat_map]. rewrite flat_map_app, exec_app, <- IH.
  unfold exec at 1. cbn [fold_left]. f_equal. destruct (face sc i) as [[[[a b] c] col]|]; cbn [flat_map]; [rewrite app_nil_r; apply triangle_exec|reflexivity].
Qed.

(** The program is the second stage of [thread_entry]. *)
Lemma solid_band_exec nc cid sc s : solid_band nc cid sc s = exec draw (band_program nc sc cid) s.
Proof.
  unfold solid_band, band_program, band_ops, solid_tris. rewrite exec_app, exec_map, !for_range_exec. rewrite faces_exec.
  change (fun (o : Z) s => draw (ClearRow black o) s) with (clear_row black). reflexivity.
Qed.

(** What a program does to a row of its band. *)
Definition row_ops (y : Z) (tris : list (g3d_vert2 * g3d_vert2 * g3d_vert2 * g3d_rgb)) : list draw_op :=
  ClearRow black y :: flat_map (triangle_ops y (y + 1)) tris.

Lemma filter_filter {A} (f g : A -> bool) l : List.filter f (List.filter g l) = List.filter (fun x => g x && f x) l.
Proof. induction l as [|x l IH]; [reflexivity|]. cbn. destruct (g x); cbn; rewrite IH; reflexivity. Qed.

Lemma triangle_ops_row lo hi y t : 0 <= lo -> hi <= G3D_H -> 0 <= y < G3D_H ->
  List.filter (fun o => op_row o =? y) (triangle_ops lo hi t) = if (lo <=? y) && (y <? hi) then triangle_ops y (y + 1) t else [].
Proof.
  intros Hlo Hhi Hy. destruct t as [[[a b] c] col]. unfold triangle_ops. destruct (sort3 a b c) as [[a' b'] c'].
  destruct (_ =? _); [now destruct (_ && _)|].
  rewrite (proj2 (Z.ltb_ge lo 0)), (proj2 (Z.ltb_ge G3D_H hi)), (proj2 (Z.ltb_ge y 0)), (proj2 (Z.ltb_ge G3D_H (y + 1))) by lia.
  rewrite filter_of_map. cbn [op_row]. rewrite filter_filter.
  destruct ((lo <=? y) && (y <? hi)) eqn:E; [apply (f_equal (map _)), List.filter_ext|change [] with (map (Scan a' b' c' col) []); apply (f_equal (map _)), filter_none]; intros x; case_bools; cbn; try reflexivity; lia.
Qed.

Lemma band_ops_row lo hi y tris : 0 <= lo -> hi <= G3D_H -> 0 <= y < G3D_H ->
  List.filter (fun o => op_row o =? y) (band_ops lo hi tris) = if (lo <=? y) && (y <? hi) then row_ops y tris else [].
Proof.
  intros Hlo Hhi Hy. unfold band_ops, row_ops. rewrite List.filter_app, filter_of_map, filter_flat_map. cbn [op_row].
  rewrite filter_eqb_zrange. rewrite (flat_map_ext _ _ (fun t => triangle_ops_row lo hi y t Hlo Hhi Hy)).
  destruct (_ && _); [reflexivity|]. cbn [map app]. now induction tris.
Qed.

Lemma in_triangle_ops lo hi t o : In o (triangle_ops lo hi t) -> 0 <= op_row o < G3D_H /\ lo <= op_row o < hi /\
  let '(a, b, c, col) := t in (forall P : g3d_vert2 -> Prop, P a -> P b -> P c -> match o with Scan a' b' c' _ _ => P a' /\ P b' /\ P c' | _ => True end).
Proof.
  destruct t as [[[a b] c] col]. unfold triangle_ops. destruct (sort3 a b c) as [[a' b'] c'] eqn:Es. destruct (_ =? _); [intros []|].
  rewrite in_map_iff. intros (y & <- & Hy). apply filter_In in Hy as [_ Hy]. cbn [op_row].
  split; [|split].
  - destruct (Z.ltb_spec lo 0), (Z.ltb_spec G3D_H hi); apply negb_true_iff, orb_false_iff in Hy as [H1 H2]; rewrite Z.ltb_ge in H1; rewrite Z.leb_gt in H2; lia.
  - destruct (Z.ltb_spec lo 0), (Z.ltb_spec G3D_H hi); apply negb_true_iff, orb_false_iff in Hy as [H1 H2]; rewrite Z.ltb_ge in H1; rewrite Z.leb_gt in H2; lia.
  - intros P Pa Pb Pc. unfold sort3 in Es. repeat case_match; simplify_eq; auto.
Qed.

(** The bands partition the rows. *)
Lemma band_owner nc y : 0 < nc -> 0 <= y < G3D_H -> let k := ((y + 1) * nc - 1) / G3D_H in
  0 <= k < nc /\ forall cid, 0 <= cid -> (y_lo nc cid <=? y) && (y <? y_hi nc cid) = (cid =? k).
Proof.
  intros Hnc Hy k. unfold y_lo, y_hi, G3D_H in *. split; [unfold k; split; [apply Z.div_pos; nia|apply Z.div_lt_upper_bound; nia]|]. intros cid Hc. rewrite !Z.quot_div_nonneg by lia.
  assert (Hle : forall a, a * 48 / nc <= y <-> a <= k).
  { intros a. transitivity (a * 48 < (y + 1) * nc).
    - split; intros H; [|apply Z.lt_succ_r, Z.div_lt_upper_bound; lia].
      pose proof (Z.mul_succ_div_gt (a * 48) nc Hnc). nia.
    - unfold k. split; intros H; [apply Z.div_le_lower_bound; lia|]. pose proof (Z.mul_div_le ((y + 1) * nc - 1) 48 ltac:(lia)). lia. }
  pose proof (Hle cid). pose proof (Hle (cid + 1)). case_bools; try reflexivity; lia.
Qed.

Definition verts_ok (sc : scene) : Prop := Forall vert_ok (projected sc).
Definition tri_ok (t : g3d_vert2 * g3d_vert2 * g3d_vert2 * g3d_rgb) : Prop :=
  let '(a, b, c, _) := t in vert_ok a /\ vert_ok b /\ vert_ok c.

Lemma band_ops_ok lo hi tris : 0 <= lo -> hi <= G3D_H -> Forall tri_ok tris -> Forall op_ok (band_ops lo hi tris).
Proof.
  intros Hlo Hhi Ht. unfold band_ops. rewrite Forall_app. split.
  - apply List.Forall_forall. intros o Ho. apply in_map_iff in Ho as (y & <- & Hy). apply in_zrange in Hy. split; [cbn; lia|exact I].
  - apply List.Forall_forall. intros o Ho. apply in_flat_map in Ho as (t & Hin & Ho).
    rewrite List.Forall_forall in Ht. specialize (Ht _ Hin). destruct t as [[[a b] c] col]. destruct Ht as (Ha & Hb & Hc).
    apply in_triangle_ops in Ho as (Hr & _ & Hp). split; [exact Hr|]. exact (Hp vert_ok Ha Hb Hc).
Qed.

Lemma vert_ok_corner sc k : verts_ok sc -> vert_ok (corner sc k).
Proof.
  unfold verts_ok, corner, aget. intros H. assert (Hi : vert_ok inhabitant) by (split; unfold is_s32; cbn; lia).
  destruct (0 <=? k); [|exact Hi]. rewrite list_lookup_total_alt. destruct (projected sc !! Z.to_nat k) eqn:E; [|exact Hi].
  exact (proj1 (Forall_lookup _ _) H _ _ E).
Qed.

Lemma solid_tris_ok sc : verts_ok sc -> Forall tri_ok (solid_tris sc).
Proof.
  intros H. apply List.Forall_forall. intros t Ht. apply in_flat_map in Ht as (i & _ & Ht). unfold face in Ht.
  destruct (aget cube_tri i) as [[ka kb] kc]. destruct (g3d_facing _ _ _); [destruct Ht|]. destruct Ht as [<-|[]].
  repeat split; now apply vert_ok_corner.
Qed.

Lemma project_vert_ok eye cx cy f v : g3d_project eye cx cy f = Some v -> vert_ok v.
Proof. unfold g3d_project. destruct (_ <=? _); [discriminate|]. intros [= <-]. split; apply s32_range. Qed.

Lemma exec_put_verts_ok world rot l sc : verts_ok sc -> verts_ok (exec (put world rot) l sc).
Proof.
  revert sc. induction l as [|o l IH]; intros sc H; [exact H|]. apply IH. destruct o as [i|i]; [|exact H].
  unfold verts_ok, put, put_vertex. cbn [projected]. destruct (g3d_project _ _ _ _) as [v|] eqn:E; [|exact H].
  unfold aset. destruct (0 <=? i); [|exact H]. apply Forall_insert; [exact H|]. eapply project_vert_ok, E.
Qed.

(** Targets that agree on every row are equal. *)
Lemma target_ext s s' : target_ok s -> target_ok s' -> (forall y, 0 <= y < G3D_H -> same_row y s s') -> s = s'.
Proof.
  intros [Hf Hz] [Hf' Hz'] Hrow.
  assert (Hr : forall i, 0 <= i < cells -> 0 <= row_of i < G3D_H) by (unfold row_of, cells, G3D_W, G3D_H; intros; zlia).
  assert (Efb : fb s = fb s').
  { apply aget_ext; [unfold alen in *; lia|]. rewrite Hf. intros i Hi. now apply (proj1 (Hrow _ (Hr i Hi))). }
  assert (Ez : zbuf s = zbuf s').
  { pose proof (proj2 (Hrow 0 ltac:(unfold G3D_H; lia))) as H0.
    destruct (zbuf s) as [z|] eqn:E, (zbuf s') as [z'|] eqn:E'; try contradiction; [|reflexivity]. f_equal.
    apply aget_ext; [specialize (Hz _ eq_refl); specialize (Hz' _ eq_refl); unfold alen in *; lia|].
    rewrite (Hz _ eq_refl). intros i Hi. pose proof (proj2 (Hrow _ (Hr i Hi))) as H. rewrite E, E' in H. now apply H. }
  destruct s, s'; cbn in *; congruence.
Qed.

Lemma y_lo_nonneg nc cid : 0 < nc -> 0 <= cid -> 0 <= y_lo nc cid.
Proof. intros. unfold y_lo, G3D_H. rewrite Z.quot_div_nonneg by lia. apply Z.div_pos; lia. Qed.
Lemma y_hi_le nc cid : 0 <= cid < nc -> y_hi nc cid <= G3D_H.
Proof. intros. unfold y_hi, G3D_H. rewrite Z.quot_div_nonneg by lia. apply Z.div_le_upper_bound; nia. Qed.

(** A run of the cores' bands is, row by row, the owner's program. *)
Lemma bands_row nc sc l y : 0 < nc -> interleaving (map (band_program nc sc) (zrange 0 nc)) l -> 0 <= y < G3D_H ->
  List.filter (fun o => op_row o =? y) l = row_ops y (solid_tris sc).
Proof.
  intros Hnc Hl Hy. destruct (band_owner nc y Hnc Hy) as [Hk Hown]. set (k := ((y + 1) * nc - 1) / G3D_H) in *.
  assert (Hb : forall cid, 0 <= cid < nc -> List.filter (fun o => op_row o =? y) (band_program nc sc cid) = if cid =? k then row_ops y (solid_tris sc) else []).
  { intros cid Hc. unfold band_program. rewrite band_ops_row; [now rewrite Hown by lia|now apply y_lo_nonneg|now apply y_hi_le|exact Hy]. }
  assert (Hlook : forall j q, map (band_program nc sc) (zrange 0 nc) !! j = Some q -> q = band_program nc sc (Z.of_nat j) /\ Z.of_nat j < nc).
  { intros j q Hq. rewrite <- list_fmap_map in Hq || idtac. apply list_lookup_fmap_Some in Hq as (x & -> & Hx) || apply lookup_map_Some in Hq.
    unfold zrange in Hx. apply list_lookup_fmap_Some in Hx as (m & -> & Hm). apply lookup_seq in Hm as [-> Hm]. split; [f_equal; lia|lia]. }
  rewrite (interleaving_filter _ _ _ Hl (Z.to_nat k) (band_program nc sc k)); [rewrite Hb by lia; now rewrite Z.eqb_refl| |].
  - apply list_lookup_fmap_Some. exists k. split; [reflexivity|]. unfold zrange. apply list_lookup_fmap_Some. exists (Z.to_nat k). split; [lia|]. apply lookup_seq. lia.
  - intros j q Hj Hq o Ho. apply Hlook in Hq as [-> Hjn]. specialize (Hb (Z.of_nat j) ltac:(lia)). destruct (Z.eqb_spec (Z.of_nat j) k); [lia|].
    destruct (op_row o =? y) eqn:E; [|reflexivity]. exfalso. assert (In o []) by (rewrite <- Hb; apply filter_In; now split). contradiction.
Qed.

Lemma bands_ok nc sc l : 0 < nc -> Forall tri_ok (solid_tris sc) ->
  interleaving (map (band_program nc sc) (zrange 0 nc)) l -> Forall op_ok l.
Proof.
  intros Hnc Ht Hl. rewrite (interleaving_perm _ _ Hl). apply List.Forall_forall. intros o Ho.
  apply in_concat in Ho as (p & Hp & Ho). apply in_map_iff in Hp as (cid & <- & Hc). apply in_zrange in Hc.
  pose proof (band_ops_ok (y_lo nc cid) (y_hi nc cid) (solid_tris sc) (y_lo_nonneg nc cid Hnc (proj1 Hc)) (y_hi_le nc cid Hc) Ht) as H.
  rewrite List.Forall_forall in H. exact (H o Ho).
Qed.

(** The second stage in any interleaving is that of one core. *)
Lemma bands_parallel nc sc l s : 0 < nc -> verts_ok sc -> target_ok s -> interleaving (map (band_program nc sc) (zrange 0 nc)) l ->
  exec draw l s = solid_band 1 0 sc s.
Proof.
  intros Hnc Hv Hs Hl. assert (Ht : Forall tri_ok (solid_tris sc)) by (apply solid_tris_ok, Hv). rewrite solid_band_exec.
  assert (Hok1 : Forall op_ok (band_program 1 sc 0)) by (apply band_ops_ok; [vm_compute; congruence|vm_compute; congruence|exact Ht]).
  assert (Hok : Forall op_ok l) by (eapply bands_ok; eassumption).
  apply target_ext; [now apply exec_draw_ok..|]. intros y Hy.
  rewrite (exec_draw_row l y Hok s Hs), (exec_draw_row _ y Hok1 s Hs).
  rewrite (bands_row nc sc l y Hnc Hl Hy), (bands_row 1 sc (band_program 1 sc 0) y ltac:(lia) (interleaving_single _) Hy). reflexivity.
Qed.
Lemma solid_band_ok sc s : verts_ok sc -> target_ok s -> target_ok (solid_band 1 0 sc s).
Proof.
  intros Hv Hs. rewrite solid_band_exec. apply exec_draw_ok; [|exact Hs].
  apply band_ops_ok; [vm_compute; congruence|vm_compute; congruence|apply solid_tris_ok, Hv].
Qed.

(** A frame of mt-solid drawn by any number of cores, with their vertices,
    normals, row clears and scanlines interleaved in any way within the two stages, is the frame one core
    draws: the same frame buffer and the same z-buffer, whatever they held before. *)
Theorem solid_frame_parallel nc angle_x angle_y l1 l2 sc s :
  let world := solid_world angle_x angle_y in let rot := solid_rot angle_x angle_y in
  let sc' := exec (put world rot) l1 sc in
  0 < nc -> scene_ok sc -> verts_ok sc -> target_ok s ->
  interleaving (map (scene_program nc) (zrange 0 nc)) l1 ->
  interleaving (map (band_program nc sc') (zrange 0 nc)) l2 ->
  exec draw l2 s = solid_band 1 0 (exec (put world rot) (scene_program 1 0) sc) s.
Proof.
  intros world rot sc' Hnc Hsc Hv Hs H1 H2. rewrite <- (scene_parallel world rot nc l1 sc Hnc Hsc H1). fold sc'.
  apply (bands_parallel nc); [exact Hnc|apply exec_put_verts_ok, Hv|exact Hs|exact H2].
Qed.

Definition scene0 : scene := mkscene (replicate 8 (vert2 0 0 0)) (replicate 12 (vec3 0 0 0)).
Definition target0 : target := mktarget (replicate 3072 (rgb 0 0 0)) (Some (replicate 3072 0)).

Lemma solid_frame_parallel_witness :
  let l1 := concat (map (scene_program 4) (zrange 0 4)) in
  let sc' := exec (put (solid_world 18 30) (solid_rot 18 30)) l1 scene0 in
  exec draw (concat (map (band_program 4 sc') (zrange 0 4))) target0 =
  solid_band 1 0 (exec (put (solid_world 18 30) (solid_rot 18 30)) (scene_program 1 0) scene0) target0.
Proof.
  refine (solid_frame_parallel 4 18 30 _ _ scene0 target0 _ _ _ _ (interleaving_concat _) (interleaving_concat _)).
  - lia.
  - split; reflexivity.
  - apply Forall_replicate. split; unfold is_s32; cbn; lia.
  - split; [reflexivity|]. intros z [= <-]. reflexivity.
Defined.

(** ** Theorems: the frames shown *)

Lemma frame_angles_eq k : frame_angles k = ((18 + Z.of_nat k) mod 256, (30 + 3 * Z.of_nat k) mod 256).
Proof.
  induction k as [|k IH]; [reflexivity|]. cbn [frame_angles]. rewrite IH, !land_255, !Zplus_mod_idemp_l. f_equal; f_equal; lia.
Qed.

Lemma frame_angles_mod k : frame_angles k = frame_angles (Z.to_nat (Z.of_nat k mod 256)).
Proof.
  rewrite !frame_angles_eq. pose proof (Z.mod_pos_bound (Z.of_nat k) 256). rewrite Z2Nat.id by lia. rewrite Z.add_mod_idemp_r by lia.
  f_equal. rewrite <- (Zplus_mod_idemp_r (3 * (_ mod _))), Zmult_mod_idemp_r, Zplus_mod_idemp_r. reflexivity.
Qed.

(** The eye-space plane of a face: positive when the face looks away from the eye, which is at the origin. *)
Definition away (rot world : g3d_mat4) (i : Z) : Z :=
  let n := rotate_normal rot i in let e := eye_of world (fst (fst (aget cube_tri i))) in vx n * vx e + vy n * vy e + vz n * vz e.

(** The scene of a frame, from any earlier one. *)
Definition frame_scene (angles : Z * Z) : scene :=
  let '(angle_x, angle_y) := angles in exec (put (solid_world angle_x angle_y) (solid_rot angle_x angle_y)) (scene_program 1 0) scene0.
Definition near_plane_ok (a : Z * Z) (i : Z) : bool := Z.quot G3D_ONE 8 <? vz (eye_of (solid_world a.1 a.2) i).
Definition is_culled (sc : scene) (i : Z) : bool := match face sc i with None => true | Some _ => false end.
Definition culled_ok (a : Z * Z) (i : Z) : bool :=
  let d := away (solid_rot a.1 a.2) (solid_world a.1 a.2) i in
  if 300000000 <? Z.abs d then Bool.eqb (is_culled (frame_scene a) i) (d <? 0) else true.

(** A test of the first [n] frames and [m] indices. *)
Definition frames_ok (n m : Z) (f : Z * Z -> Z -> bool) : bool :=
  forallb (fun k => let a := frame_angles (Z.to_nat k) in forallb (fun i => f a i) (zrange 0 m)) (zrange 0 n).
Lemma frames_ok_nth n m f : frames_ok n m f = true -> forall k i, Z.of_nat k < n -> 0 <= i < m -> f (frame_angles k) i = true.
Proof.
  unfold frames_ok. rewrite forallb_forall. intros H k i Hk Hi. specialize (H (Z.of_nat k)). rewrite in_zrange in H.
  specialize (H ltac:(lia)). cbv zeta in H. rewrite Nat2Z.id in H. rewrite forallb_forall in H. apply H, in_zrange, Hi.
Qed.
Lemma near_plane_frames : frames_ok 256 8 near_plane_ok = true.
Proof. vm_compute. reflexivity. Qed.
Lemma culled_frames : frames_ok 16 12 culled_ok = true.
Proof. vm_compute. reflexivity. Qed.

Lemma near_plane_ok_spec a i : near_plane_ok a i = true -> Z.quot G3D_ONE 8 < vz (eye_of (solid_world a.1 a.2) i).
Proof. unfold near_plane_ok. generalize (vz (eye_of (solid_world a.1 a.2) i)). intros z. apply Z.ltb_lt. Qed.
Lemma culled_ok_spec a i : culled_ok a i = true ->
  300000000 < Z.abs (away (solid_rot a.1 a.2) (solid_world a.1 a.2) i) ->
  (face (frame_scene a) i = None <-> away (solid_rot a.1 a.2) (solid_world a.1 a.2) i < 0).
Proof.
  unfold culled_ok, is_culled. generalize (away (solid_rot a.1 a.2) (solid_world a.1 a.2) i) as d. intros d H Hd.
  rewrite (proj2 (Z.ltb_lt _ _) Hd) in H. apply Bool.eqb_prop in H.
  destruct (face _ i); [split; [discriminate|intros Hlt; rewrite (proj2 (Z.ltb_lt _ _) Hlt) in H; discriminate]|].
  split; [intros _; now apply Z.ltb_lt|reflexivity].
Qed.

(** Every vertex of every frame is in front of the near plane, so every frame
    writes all eight projections. *)
Lemma frames_in_front k i : 0 <= i < NVERT ->
  Z.quot G3D_ONE 8 < vz (eye_of (solid_world (frame_angles k).1 (frame_angles k).2) i).
Proof.
  intros Hi. rewrite frame_angles_mod. apply near_plane_ok_spec.
  apply (frames_ok_nth 256 8 near_plane_ok near_plane_frames); [|exact Hi]. pose proof (Z.mod_pos_bound (Z.of_nat k) 256). lia.
Qed.

(** In each of the first sixteen frames of mt-solid, every triangle that is not seen
    nearly edge-on is culled exactly when its outward normal points towards the
    eye: the demo discards the faces the viewer should see and draws the hidden ones. *)
Theorem solid_culls_visible_faces k i : (k < 16)%nat -> 0 <= i < NFACE ->
  let rot := solid_rot (frame_angles k).1 (frame_angles k).2 in
  let world := solid_world (frame_angles k).1 (frame_angles k).2 in
  300000000 < Z.abs (away rot world i) ->
  (face (frame_scene (frame_angles k)) i = None <-> away rot world i < 0).
Proof.
  intros Hk Hi. apply culled_ok_spec. apply (frames_ok_nth 16 12 culled_ok culled_frames); [lia|exact Hi].
Qed.

Lemma solid_culls_visible_faces_witness : face (frame_scene (frame_angles 0)) 0 = None <-> away (solid_rot 18 30) (solid_world 18 30) 0 < 0.
Proof. refine (solid_culls_visible_faces 0 0 _ _ _); [lia|unfold NFACE; lia|vm_compute; reflexivity]. Defined.

(** The host program's pose passes its own checks. *)
Lemma smoke_main_ok : smoke_main = 0.
Proof. vm_compute. reflexivity. Qed.
