(* ===== verification/Line.v ===== *)
(** * [g3d_line] terminates and draws the line; the z-buffer keeps the nearest

    The loop of [g3d_line] leaves by the test [x == x1 && y == y1] only. The
    invariant of Bresenham's error term shows that the test is met after
    [max |dx| |dy|] steps, so the fuel [max |dx| |dy| + 1] is enough. *)

From S2P Require Import Prelude Cmodel G3d Raster Cube.
From stdpp Require Import sets.
Local Open Scope Z_scope.

(** ** The loop *)

Definition plot_at (c : g3d_rgb) (p : Z * Z) (f : list g3d_rgb) : list g3d_rgb := plot_fb f p.1 p.2 c.

(** [a] steps in x and [b] steps in y have been made: the point, and its signed
    distance from the ideal line, scaled by twice the longer side. *)
Section Bresenham.
Context (x0 y0 dx dy sx sy : Z).
Definition drift (a b : Z) : Z := 2 * (a * dy - b * dx).
Definition near (a b : Z) : Prop :=
  if dy <=? dx then - dx < drift a b <= dx else - dy <= drift a b < dy.
Definition err_of (a b : Z) : Z := (b + 1) * dx - (a + 1) * dy.

Context (Hdx : 0 <= dx <= 2 ^ 28) (Hdy : 0 <= dy <= 2 ^ 28) (Hpos : 0 < Z.max dx dy).

Lemma near_step a b : near a b -> 0 <= a <= dx -> 0 <= b <= dy -> ~ (a = dx /\ b = dy) ->
  let e2 := 2 * err_of a b in
  let a' := if - dy <? e2 then a + 1 else a in
  let b' := if e2 <? dx then b + 1 else b in
  near a' b' /\ 0 <= a' <= dx /\ 0 <= b' <= dy /\
  (if dy <=? dx then a' = a + 1 else b' = b + 1).
Proof.
  unfold near, drift, err_of. intros Hn Ha Hb Hne. cbv zeta.
  destruct (Z.leb_spec dy dx) as [Hle|Hlt].
  - assert (E : dx = dy -> a = b) by (intros ->; nia).
    assert (Hax : a < dx) by (destruct (Z.eq_dec a dx) as [->|]; [exfalso; apply Hne; split; [reflexivity|nia]|lia]).
    destruct (Z.ltb_spec (- dy) (2 * ((b + 1) * dx - (a + 1) * dy))); [|exfalso; destruct (Z.eq_dec dx dy); [specialize (E ltac:(assumption)); nia|nia]].
    destruct (Z.ltb_spec (2 * ((b + 1) * dx - (a + 1) * dy)) dx); (split; [nia|split; [lia|split; [nia|reflexivity]]]).
  - assert (Hby : b < dy) by (destruct (Z.eq_dec b dy) as [->|]; [exfalso; apply Hne; split; [nia|reflexivity]|lia]).
    destruct (Z.ltb_spec (2 * ((b + 1) * dx - (a + 1) * dy)) dx); [|exfalso; nia].
    destruct (Z.ltb_spec (- dy) (2 * ((b + 1) * dx - (a + 1) * dy))); (split; [nia|split; [nia|split; [lia|reflexivity]]]).
Qed.

Lemma err_bound a b : near a b -> Z.abs (err_of a b) <= 2 ^ 28 + 2 ^ 27.
Proof.
  unfold near, drift, err_of. replace ((b + 1) * dx - (a + 1) * dy) with (dx - dy - (a * dy - b * dx)) by lia.
  intros H. destruct (Z.leb_spec dy dx); lia.
Qed.

(** The distance test of the ideal line, for an absolute point. *)
Definition on_line (p : Z * Z) : Prop :=
  Z.abs (2 * ((p.1 - x0) * (sy * dy) - (p.2 - y0) * (sx * dx))) <= Z.max dx dy.

Context (Hsx : sx = 1 \/ sx = -1) (Hsy : sy = 1 \/ sy = -1).
Context (Hx0 : Z.abs x0 <= 2 ^ 27) (Hy0 : Z.abs y0 <= 2 ^ 27).

Lemma near_on_line a b : near a b -> on_line (x0 + sx * a, y0 + sy * b).
Proof.
  unfold near, on_line, drift. cbn [fst snd]. intros H.
  replace ((x0 + sx * a - x0) * (sy * dy) - (y0 + sy * b - y0) * (sx * dx)) with (sx * sy * (a * dy - b * dx)) by lia.
  destruct Hsx as [-> | ->], Hsy as [-> | ->]; destruct (Z.leb_spec dy dx); lia.
Qed.

Lemma at_end a b :
  (x0 + sx * a =? x0 + sx * dx) && (y0 + sy * b =? y0 + sy * dy) = (a =? dx) && (b =? dy).
Proof.
  f_equal; [destruct Hsx as [-> | ->]|destruct Hsy as [-> | ->]]; case_bools; try reflexivity; lia.
Qed.

(** The box of the two ends. *)
Definition inside (p : Z * Z) : Prop :=
  Z.min x0 (x0 + sx * dx) <= p.1 <= Z.max x0 (x0 + sx * dx) /\ Z.min y0 (y0 + sy * dy) <= p.2 <= Z.max y0 (y0 + sy * dy).
Lemma at_inside a b : 0 <= a <= dx -> 0 <= b <= dy -> inside (x0 + sx * a, y0 + sy * b).
Proof. intros Ha Hb. unfold inside. cbn [fst snd]. destruct Hsx as [-> | ->], Hsy as [-> | ->]; lia. Qed.

Definition loop_at (fuel : nat) (a b : Z) (c : g3d_rgb) (s : list g3d_rgb) : option (list g3d_rgb) :=
  line_loop fuel (x0 + sx * dx) (y0 + sy * dy) dx dy sx sy (x0 + sx * a) (y0 + sy * b) (err_of a b) c s.

(** One iteration, in the coordinates [a] and [b]. *)
Lemma loop_step fuel a b c s : near a b -> 0 <= a <= dx -> 0 <= b <= dy -> (a =? dx) && (b =? dy) = false ->
  let e2 := 2 * err_of a b in
  loop_at (S fuel) a b c s =
  loop_at fuel (if - dy <? e2 then a + 1 else a) (if e2 <? dx then b + 1 else b) c (plot_at c (x0 + sx * a, y0 + sy * b) s).
Proof.
  intros Hn Ha Hb Hne e2. subst e2. pose proof (err_bound a b Hn) as He. unfold loop_at. cbn [line_loop]. rewrite at_end, Hne.
  rewrite (Z.shiftl_mul_pow2 _ 1) by lia. change (2 ^ 1) with 2. rewrite (Z.mul_comm _ 2).
  rewrite (s32_id (2 * err_of a b)), (s32_id (- dy)) by (unfold is_s32; lia).
  assert (Hx : s32 (x0 + sx * a + sx) = x0 + sx * (a + 1)) by (rewrite s32_id by (unfold is_s32; destruct Hsx as [-> | ->]; lia); lia).
  assert (Hy : s32 (y0 + sy * b + sy) = y0 + sy * (b + 1)) by (rewrite s32_id by (unfold is_s32; destruct Hsy as [-> | ->]; lia); lia).
  rewrite Hx, Hy. destruct (- dy <? 2 * err_of a b); destruct (2 * err_of a b <? dx); cbv iota beta;
    rewrite ?(s32_id (err_of a b - dy)), ?(s32_id (err_of a b - dy + dx)), ?(s32_id (err_of a b + dx)) by (unfold is_s32; lia);
    unfold plot_at; cbn [fst snd]; f_equal; unfold err_of; lia.
Qed.

Lemma loop_draws c fuel : forall a b s, near a b -> 0 <= a <= dx -> 0 <= b <= dy ->
  let n := (if (dy <=? dx)%Z then dx - a else dy - b) in
  n < Z.of_nat fuel ->
  exists pts, loop_at fuel a b c s = Some (exec (plot_at c) pts s) /\ Z.of_nat (length pts) = n + 1 /\
    head pts = Some (x0 + sx * a, y0 + sy * b) /\ last pts = Some (x0 + sx * dx, y0 + sy * dy) /\ Forall inside pts /\ Forall on_line pts.
Proof.
  induction fuel as [|fuel IH]; intros a b s Hn Ha Hb n Hf; [unfold n in Hf; destruct (dy <=? dx); lia|].
  destruct ((a =? dx) && (b =? dy)) eqn:E.
  - unfold loop_at. cbn [line_loop]. rewrite at_end, E. apply andb_true_iff in E. rewrite !Z.eqb_eq in E. destruct E as [-> ->].
    exists [(x0 + sx * dx, y0 + sy * dy)]. split; [reflexivity|]. split; [unfold n; destruct (dy <=? dx); cbn [length]; lia|].
    split; [reflexivity|]. split; [reflexivity|]. split; (constructor; [|constructor]); [now apply at_inside|now apply near_on_line].
  - rewrite loop_step by assumption. assert (Hne : ~ (a = dx /\ b = dy)) by (intros [-> ->]; rewrite !Z.eqb_refl in E; discriminate).
    destruct (near_step a b Hn Ha Hb Hne) as (Hn' & Ha' & Hb' & Hs).
    set (a' := if - dy <? 2 * err_of a b then a + 1 else a) in *. set (b' := if 2 * err_of a b <? dx then b + 1 else b) in *.
    destruct (IH a' b' (plot_at c (x0 + sx * a, y0 + sy * b) s) Hn' Ha' Hb') as (pts & Hp & Hlen & Hhd & Hlast & Hbox & Hall).
    { unfold n in Hf. destruct (dy <=? dx); lia. }
    exists ((x0 + sx * a, y0 + sy * b) :: pts). split; [exact Hp|]. split; [unfold n; cbn [length]; destruct (dy <=? dx); lia|].
    split; [reflexivity|]. split; [destruct pts; [discriminate|exact Hlast]|].
    split; (constructor; [|assumption]); [now apply at_inside|now apply near_on_line].
Qed.
End Bresenham.

(** ** The line *)

Lemma line_setup fuel s x0 y0 dx dy sx sy c : 0 <= dx <= 2 ^ 28 -> 0 <= dy <= 2 ^ 28 ->
  sx = 1 \/ (sx = -1 /\ 0 < dx) -> sy = 1 \/ (sy = -1 /\ 0 < dy) ->
  g3d_line fuel s x0 y0 (x0 + sx * dx) (y0 + sy * dy) c = loop_at x0 y0 dx dy sx sy fuel 0 0 c s.
Proof.
  intros Hdx Hdy Hsx Hsy. unfold g3d_line, loop_at, err_of. replace (x0 + sx * dx - x0) with (sx * dx) by lia. replace (y0 + sy * dy - y0) with (sy * dy) by lia.
  rewrite !Z.mul_0_r, !Z.add_0_r. replace ((0 + 1) * dx - (0 + 1) * dy) with (dx - dy) by lia.
  assert (Hx : (if 0 <=? s32 (sx * dx) then 1 else -1) = sx /\ (if s32 (sx * dx) <? 0 then s32 (- s32 (sx * dx)) else s32 (sx * dx)) = dx).
  { rewrite (s32_id (sx * dx)) by (unfold is_s32; lia). destruct Hsx as [->|[-> H]]; [|rewrite (s32_id (- _)) by (unfold is_s32; lia)];
      split; case_bools; lia. }
  assert (Hy : (if 0 <=? s32 (sy * dy) then 1 else -1) = sy /\ (if s32 (sy * dy) <? 0 then s32 (- s32 (sy * dy)) else s32 (sy * dy)) = dy).
  { rewrite (s32_id (sy * dy)) by (unfold is_s32; lia). destruct Hsy as [->|[-> H]]; [|rewrite (s32_id (- _)) by (unfold is_s32; lia)];
      split; case_bools; lia. }
  destruct Hx as [-> ->], Hy as [-> ->]. now rewrite s32_id by (unfold is_s32; lia).
Qed.

(** A difference as a direction and a length. *)
Lemma direction a b : Z.abs a <= 2 ^ 27 -> Z.abs b <= 2 ^ 27 ->
  exists d s, b = a + s * d /\ 0 <= d <= 2 ^ 28 /\ d = Z.abs (b - a) /\ (s = 1 \/ (s = -1 /\ 0 < d)).
Proof. intros Ha Hb. destruct (Z.le_gt_cases a b); [exists (b - a), 1|exists (a - b), (-1)]; lia. Qed.

Lemma g3d_line_points fuel s x0 y0 x1 y1 c :
  Z.abs x0 <= 2 ^ 27 -> Z.abs y0 <= 2 ^ 27 -> Z.abs x1 <= 2 ^ 27 -> Z.abs y1 <= 2 ^ 27 ->
  let n := Z.max (Z.abs (x1 - x0)) (Z.abs (y1 - y0)) in n < Z.of_nat fuel ->
  exists pts, g3d_line fuel s x0 y0 x1 y1 c = Some (exec (plot_at c) pts s) /\
    Z.of_nat (length pts) = n + 1 /\ head pts = Some (x0, y0) /\ last pts = Some (x1, y1) /\
    Forall (fun p => Z.min x0 x1 <= p.1 <= Z.max x0 x1 /\ Z.min y0 y1 <= p.2 <= Z.max y0 y1) pts /\
    Forall (fun p => Z.abs (2 * ((p.1 - x0) * (y1 - y0) - (p.2 - y0) * (x1 - x0))) <= n) pts.
Proof.
  intros Hx0 Hy0 Hx1 Hy1. destruct (direction x0 x1 Hx0 Hx1) as (dx & sx & -> & Hdx & <- & Hsx).
  destruct (direction y0 y1 Hy0 Hy1) as (dy & sy & -> & Hdy & <- & Hsy). intros n Hf.
  rewrite line_setup by assumption. destruct (Z.eq_dec n 0) as [Hz|Hz].
  - assert (dx = 0 /\ dy = 0) as [-> ->] by lia. rewrite !Z.mul_0_r, !Z.add_0_r. exists [(x0, y0)]. destruct fuel as [|fuel]; [lia|].
    unfold loop_at. cbn [line_loop]. rewrite !Z.mul_0_r, !Z.add_0_r, !Z.eqb_refl. split; [reflexivity|]. split; [cbn [length]; lia|].
    split; [reflexivity|]. split; [reflexivity|]. split; (constructor; [cbn [fst snd]; lia|constructor]).
  - assert (Hs : (sx = 1 \/ sx = -1) /\ (sy = 1 \/ sy = -1)) by (clear - Hsx Hsy; tauto).
    assert (Hpos : 0 < Z.max dx dy) by lia.
    assert (Hnear : near dx dy 0 0) by (clear - Hdx Hdy Hpos; unfold near, drift; destruct (Z.leb_spec dy dx); lia).
    assert (Hn0 : (if (dy <=? dx)%Z then dx - 0 else dy - 0) = n) by (unfold n; clear; destruct (Z.leb_spec dy dx); lia).
    destruct (loop_draws x0 y0 dx dy sx sy Hdx Hdy Hpos (proj1 Hs) (proj2 Hs) Hx0 Hy0 c fuel 0 0 s Hnear) as (pts & Hp & Hlen & Hhd & Hlast & Hbox & Hall);
      [lia|lia|lia|].
    exists pts. rewrite !Z.mul_0_r, !Z.add_0_r in Hhd. split; [exact Hp|]. split; [lia|]. split; [exact Hhd|]. split; [exact Hlast|]. split; [exact Hbox|].
    eapply Forall_impl; [exact Hall|]. intros p Hon. unfold on_line in Hon.
    replace (x0 + sx * dx - x0) with (sx * dx) by lia. replace (y0 + sy * dy - y0) with (sy * dy) by lia. exact Hon.
Qed.

Lemma g3d_line_total fuel s x0 y0 x1 y1 c :
  Z.abs x0 <= 127 -> Z.abs y0 <= 127 -> Z.abs x1 <= 127 -> Z.abs y1 <= 127 -> (255 <= fuel)%nat ->
  exists s', g3d_line fuel s x0 y0 x1 y1 c = Some s'.
Proof.
  intros. destruct (g3d_line_points fuel s x0 y0 x1 y1 c) as (pts & Hp & _); [lia..|]. eauto.
Qed.

(** What a sequence of plots leaves in a pixel. *)
Lemma exec_plot_at c pts f x y : alen f = cells -> Forall (fun p => is_s32 p.1 /\ is_s32 p.2) pts -> 0 <= x < G3D_W -> 0 <= y < G3D_H ->
  aget (exec (plot_at c) pts f) (y * G3D_W + x) = if bool_decide ((x, y) ∈ pts) then c else aget f (y * G3D_W + x).
Proof.
  intros Hf Hpts Hx Hy. revert f Hf. induction Hpts as [|[u v] pts [Hu Hv] _ IH]; intros f Hf; [reflexivity|].
  change (exec (plot_at c) ((u, v) :: pts) f) with (exec (plot_at c) pts (plot_at c (u, v) f)). cbn [fst snd] in Hu, Hv.
  destruct (plot_ok (mktarget f None) u v 0 c) as [Hl _]; [split; [exact Hf|discriminate]|].
  change (alen (plot_at c (u, v) f) = cells) in Hl. rewrite (IH _ Hl). clear IH. case_bool_decide as Hin; [now rewrite bool_decide_true by now right|].
  assert (Hp : aget (plot_at c (u, v) f) (y * G3D_W + x) = if bool_decide ((x, y) = (u, v)) then c else aget f (y * G3D_W + x)).
  { unfold plot_at, plot_fb. cbn [fst snd]. destruct (on_screen u v) eqn:Hon.
    - unfold g3d_plot. rewrite !u32_in_range by (assumption || (unfold G3D_W, G3D_H; lia)). unfold on_screen in Hon.
      apply andb_true_iff in Hon as [Hou Hov]. rewrite Hou, Hov. cbn [negb orb zbuf fb]. rewrite andb_true_iff, Z.leb_le, Z.ltb_lt in Hou, Hov.
      case_bool_decide as E.
      + injection E as -> ->. apply aget_aset. unfold cells, G3D_W, G3D_H in *. lia.
      + apply aget_aset_ne. intros E'. apply E. f_equal; unfold G3D_W in *; lia.
    - rewrite plot_offscreen by assumption. rewrite bool_decide_false; [reflexivity|]. intros [= <- <-].
      unfold on_screen in Hon. rewrite (proj2 (Z.leb_le 0 x)), (proj2 (Z.leb_le 0 y)), (proj2 (Z.ltb_lt x _)), (proj2 (Z.ltb_lt y _)) in Hon by lia. discriminate. }
  rewrite Hp. case_bool_decide as E; [rewrite bool_decide_true; [reflexivity|rewrite E; left]|].
  rewrite bool_decide_false; [reflexivity|]. intros Hc. apply elem_of_cons in Hc as [Hc|Hc]; contradiction.
Qed.

(** The points between two near ends are machine integers. *)
Lemma near_points_s32 x0 y0 x1 y1 n pts : Forall (fun p => Z.min x0 x1 <= p.1 <= Z.max x0 x1 /\ Z.min y0 y1 <= p.2 <= Z.max y0 y1) pts ->
  n = 2 ^ 27 -> Z.abs x0 <= n -> Z.abs y0 <= n -> Z.abs x1 <= n -> Z.abs y1 <= n -> Forall (fun p => is_s32 p.1 /\ is_s32 p.2) pts.
Proof. intros Hp -> ? ? ? ?. eapply Forall_impl; [exact Hp|]. cbv beta. unfold is_s32. lia. Qed.

(** C12: [g3d_line] terminates, for coordinates of magnitude at most [2 ^ 27]: with fuel for the
    longer side plus one it returns, having plotted exactly that many points, the first and the
    last of which are the end points, all of them between the end points and none further from
    the ideal line than half a pixel along the shorter axis. In the frame buffer it leaves, the
    pixels at these points have the colour of the line and every other one is as before. *)
Theorem g3d_line_draws f x0 y0 x1 y1 c : alen f = cells ->
  Z.abs x0 <= 2 ^ 27 -> Z.abs y0 <= 2 ^ 27 -> Z.abs x1 <= 2 ^ 27 -> Z.abs y1 <= 2 ^ 27 ->
  let n := Z.max (Z.abs (x1 - x0)) (Z.abs (y1 - y0)) in
  exists pts f', g3d_line (Z.to_nat (n + 1)) f x0 y0 x1 y1 c = Some f' /\
    Z.of_nat (length pts) = n + 1 /\ head pts = Some (x0, y0) /\ last pts = Some (x1, y1) /\
    Forall (fun p => Z.min x0 x1 <= p.1 <= Z.max x0 x1 /\ Z.min y0 y1 <= p.2 <= Z.max y0 y1) pts /\
    Forall (fun p => Z.abs (2 * ((p.1 - x0) * (y1 - y0) - (p.2 - y0) * (x1 - x0))) <= n) pts /\
    forall x y, 0 <= x < G3D_W -> 0 <= y < G3D_H ->
      aget f' (y * G3D_W + x) = if bool_decide ((x, y) ∈ pts) then c else aget f (y * G3D_W + x).
Proof.
  intros Hf Hx0 Hy0 Hx1 Hy1 n. destruct (g3d_line_points (Z.to_nat (n + 1)) f x0 y0 x1 y1 c Hx0 Hy0 Hx1 Hy1) as (pts & Hp & Hl & Hh & Ht & Hbox & Hon); [lia|].
  exists pts, (exec (plot_at c) pts f). do 6 (split; [assumption|]). intros x y Hx Hy. apply exec_plot_at; try assumption.
  eapply (near_points_s32 x0 y0 x1 y1); eauto.
Qed.

(** From (0, 0) to (5, 2): both ends are drawn, six points in all. *)
Lemma g3d_line_draws_witness : exists (pts : list (Z * Z)) f',
  g3d_line 6 (fb target0) 0 0 5 2 cyan = Some f' /\ length pts = 6%nat /\ aget f' 0 = cyan /\ aget f' (2 * G3D_W + 5) = cyan.
Proof.
  destruct (g3d_line_draws (fb target0) 0 0 5 2 cyan) as (pts & f' & Hp & Hlen & Hh & Ht & _ & _ & Hc); [reflexivity|lia..|].
  exists pts, f'. split; [exact Hp|]. split; [cbn in Hlen; lia|]. split.
  - change 0 with (0 * G3D_W + 0) at 1. rewrite (Hc 0 0) by (unfold G3D_W, G3D_H; lia). rewrite bool_decide_true; [reflexivity|].
    apply head_Some_elem_of, Hh.
  - rewrite (Hc 5 2) by (unfold G3D_W, G3D_H; lia). rewrite bool_decide_true; [reflexivity|]. apply last_Some_elem_of, Ht.
Defined.

(** ** The wireframe of mt-cube *)

Lemma put_vertices world rot l p ns : exec (put_vertex world) l p = projected (exec (put world rot) (map Vertex l) (mkscene p ns)).
Proof. revert p. induction l as [|i l IH]; intros p; [reflexivity|]. unfold exec in *. cbn [fold_left map put projected nrot]. apply IH. Qed.

(** Every vertex is in some core's slice. *)
Lemma slices_all nc l i : 0 < nc -> interleaving (map (fun cid => cube_slice cid nc) (zrange 0 nc)) l -> 0 <= i < NVERT -> In i l.
Proof.
  intros Hnc Hl Hi. apply (Permutation_in i (Permutation_sym (interleaving_perm _ _ Hl))). apply in_concat.
  set (k := ((i + 1) * nc - 1) / NVERT). assert (Hk : 0 <= k < nc) by (unfold k, NVERT in *; split; [apply Z.div_pos; nia|apply Z.div_lt_upper_bound; nia]).
  exists (cube_slice k nc). split; [apply in_map_iff; exists k; split; [reflexivity|now apply in_zrange]|].
  unfold cube_slice. apply in_zrange. rewrite !Z.quot_div_nonneg by (unfold NVERT; lia).
  pose proof (Z.mul_div_le ((i + 1) * nc - 1) NVERT eq_refl). pose proof (Z.mul_succ_div_gt ((i + 1) * nc - 1) NVERT eq_refl). fold k in H, H0.
  assert (k * NVERT / nc < i + 1) by (apply Z.div_lt_upper_bound; lia). assert (i + 1 <= (k + 1) * NVERT / nc) by (apply Z.div_le_lower_bound; lia). lia.
Qed.

Lemma alen_put_vertices world l p : alen (exec (put_vertex world) l p) = alen p.
Proof. apply alen_exec. apply alen_put_vertex. Qed.

(** A vertex of the cube at an angle, projected. *)
Abbreviation cube_vertex angle i := (g3d_project (eye_of (cube_world angle) i) cx cy focal).
Definition small (v : option g3d_vert2) : bool :=
  match v with Some v => (Z.abs (px v) <=? 127) && (Z.abs (py v) <=? 127) | None => false end.
Lemma cube_vertices_small : forallb (fun a => forallb (fun i => small (cube_vertex a i)) (zrange 0 8)) (zrange 0 256) = true.
Proof. vm_compute. reflexivity. Qed.

Lemma cube_vertex_mod angle i : cube_vertex angle i = cube_vertex (angle mod 256) i.
Proof. unfold cube_world, g3d_rotate_y. now rewrite g3d_sin_mod, g3d_cos_mod, <- g3d_sin_mod. Qed.

Lemma in_forallb2 (f : Z -> Z -> bool) n m : forallb (fun a => forallb (f a) (zrange 0 m)) (zrange 0 n) = true ->
  forall a i, 0 <= a < n -> 0 <= i < m -> f a i = true.
Proof.
  rewrite forallb_forall. intros H a i Ha Hi. specialize (H a (proj2 (in_zrange _ _ _) Ha)). rewrite forallb_forall in H.
  apply H, in_zrange, Hi.
Qed.

Lemma small_some v : small v = true -> exists w, v = Some w /\ Z.abs (px w) <= 127 /\ Z.abs (py w) <= 127.
Proof.
  unfold small. destruct v as [w|]; [|discriminate]. rewrite andb_true_iff, !Z.leb_le. intros H. now exists w.
Qed.

Lemma cube_vertex_small angle i : 0 <= i < NVERT ->
  exists v, cube_vertex angle i = Some v /\ Z.abs (px v) <= 127 /\ Z.abs (py v) <= 127.
Proof.
  intros Hi. rewrite cube_vertex_mod. apply small_some.
  apply (in_forallb2 (fun a i => small (cube_vertex a i)) 256 8 cube_vertices_small); [apply Z.mod_pos_bound; reflexivity|exact Hi].
Qed.

Lemma put_vertices_get angle l p i : alen p = NVERT -> 0 <= i < NVERT -> In i l ->
  let v := aget (exec (put_vertex (cube_world angle)) l p) i in
  cube_vertex angle i = Some v /\ Z.abs (px v) <= 127 /\ Z.abs (py v) <= 127.
Proof.
  intros Hp Hi Hin v. destruct (cube_vertex_small angle i Hi) as (w & Hw & Hs).
  assert (v = w) as ->; [|now split]. unfold v. rewrite (put_vertices _ g3d_ident l p (nrot scene0)).
  rewrite exec_vertex; [|split; [exact Hp|reflexivity]|exact Hi].
  rewrite bool_decide_true by (apply list_elem_of_In, in_map, Hin). now rewrite Hw.
Qed.

Lemma vertices_ext (p q : list g3d_vert2) : alen p = NVERT -> alen q = NVERT ->
  (forall i, 0 <= i < NVERT -> Some (aget p i) = Some (aget q i)) -> p = q.
Proof.
  intros Hp Hq H. apply aget_ext; [unfold alen in *; lia|]. rewrite Hp. intros i Hi. specialize (H i Hi). congruence.
Qed.

Lemma lines_draw es p : (forall i, 0 <= i < NVERT -> Z.abs (px (aget p i)) <= 127 /\ Z.abs (py (aget p i)) <= 127) ->
  Forall (fun e : Z * Z => 0 <= e.1 < NVERT /\ 0 <= e.2 < NVERT) es -> forall s, exists s',
  fold_left (fun s e => match s with None => None | Some s => let a := aget p e.1 in let b := aget p e.2 in g3d_line 255 s (px a) (py a) (px b) (py b) cyan end) es (Some s) = Some s'.
Proof.
  intros Hv. induction 1 as [|e es [H1 H2] _ IH]; intros s; [now exists s|]. cbn [fold_left].
  destruct (Hv _ H1), (Hv _ H2).
  destruct (g3d_line_total 255 s (px (aget p e.1)) (py (aget p e.1)) (px (aget p e.2)) (py (aget p e.2)) cyan) as [s1 ->]; [lia..|]. apply IH.
Qed.

(** In every frame of mt-cube, for every angle, number of cores and interleaving of
    their vertex loops, core 0 finds all eight vertices projected, as one core would have
    left them, and its twelve lines all terminate. *)
Theorem cube_frame_draws nc angle l p s : 0 < nc -> alen p = NVERT ->
  interleaving (map (fun cid => cube_slice cid nc) (zrange 0 nc)) l ->
  let p' := exec (put_vertex (cube_world angle)) l p in
  p' = exec (put_vertex (cube_world angle)) (zrange 0 NVERT) p /\ exists s', cube_draw 255 p' s = Some s'.
Proof.
  intros Hnc Hp Hl p'. subst p'. pose proof (fun i => slices_all nc l i Hnc Hl) as Hin. split.
  - apply vertices_ext; [now rewrite alen_put_vertices..|]. intros i Hi.
    pose proof (put_vertices_get angle l p i Hp Hi (Hin i Hi)) as [E1 _].
    pose proof (put_vertices_get angle (zrange 0 NVERT) p i Hp Hi (proj2 (in_zrange _ _ _) Hi)) as [E2 _]. now rewrite <- E1, <- E2.
  - apply lines_draw; [intros i Hi; now apply (put_vertices_get angle l p i Hp Hi (Hin i Hi))|].
    unfold cube_edge, NVERT. repeat constructor; cbn; lia.
Qed.

Lemma cube_frame_draws_witness :
  let l := concat (map (fun cid => cube_slice cid 3) (zrange 0 3)) in
  exists s', cube_draw 255 (exec (put_vertex (cube_world 20)) l (projected scene0)) (fb target0) = Some s'.
Proof. exact (proj2 (cube_frame_draws 3 20 _ (projected scene0) (fb target0) eq_refl eq_refl (interleaving_concat _))). Defined.

(** ** The z-buffer *)

Record pixel := mkpixel { pix_x : Z; pix_y : Z; pix_z : Z; pix_col : g3d_rgb }.
Definition plot_pixel (p : pixel) (s : target) : target := g3d_plot s (pix_x p) (pix_y p) (pix_z p) (pix_col p).
Definition pixel_ok (p : pixel) : Prop := is_s32 (pix_x p) /\ is_s32 (pix_y p).

(** What a cell holds: its depth and its colour. *)
Definition cell (s : target) (x y : Z) : option (Z * g3d_rgb) :=
  match zbuf s with Some z => Some (aget z (y * G3D_W + x), aget (fb s) (y * G3D_W + x)) | None => None end.

(** A plot replaces the cell it names when it is nearer, and no other cell. *)
Lemma plot_cell p s x y z c : target_ok s -> pixel_ok p -> 0 <= x < G3D_W -> 0 <= y < G3D_H -> cell s x y = Some (z, c) ->
  cell (plot_pixel p s) x y =
    Some (if (pix_x p =? x) && (pix_y p =? y) && (z_encode (pix_z p) <? z) then (z_encode (pix_z p), pix_col p) else (z, c)).
Proof.
  intros [Hf Hz] [Hpx Hpy] Hx Hy. unfold cell, plot_pixel. destruct (zbuf s) as [zb|] eqn:E; [|discriminate]. intros [= <- <-].
  specialize (Hz _ eq_refl). destruct (on_screen (pix_x p) (pix_y p)) eqn:Hon.
  - unfold g3d_plot. rewrite !u32_in_range by (assumption || (unfold G3D_W, G3D_H; lia)). unfold on_screen in Hon.
    apply andb_true_iff in Hon as [Hox Hoy]. rewrite Hox, Hoy, E. cbn [negb orb]. rewrite andb_true_iff, Z.leb_le, Z.ltb_lt in Hox, Hoy.
    destruct ((pix_x p =? x) && (pix_y p =? y)) eqn:Exy.
    + rewrite andb_true_iff, !Z.eqb_eq in Exy. destruct Exy as [-> ->]. cbn [andb].
      assert (0 <= y * G3D_W + x < cells) by (unfold cells, G3D_W, G3D_H in *; lia).
      destruct (Z.leb_spec (aget zb (y * G3D_W + x)) (z_encode (pix_z p))), (Z.ltb_spec (z_encode (pix_z p)) (aget zb (y * G3D_W + x))); try lia.
      * now rewrite E.
      * cbn [zbuf fb]. now rewrite !aget_aset by lia.
    + cbn [andb]. assert (pix_y p * G3D_W + pix_x p <> y * G3D_W + x).
      { intros Eq. assert (pix_y p = y /\ pix_x p = x) as [Ey Ex] by (unfold G3D_W in *; lia). rewrite Ex, Ey, !Z.eqb_refl in Exy. discriminate. }
      destruct (_ <=? _); [now rewrite E|]. cbn [zbuf fb]. now rewrite !aget_aset_ne by assumption.
  - rewrite plot_offscreen by assumption. rewrite E.
    destruct (Z.eqb_spec (pix_x p) x) as [Ex|]; [|reflexivity]. destruct (Z.eqb_spec (pix_y p) y) as [Ey|]; [|reflexivity].
    unfold on_screen in Hon. rewrite Ex, Ey in Hon.
    rewrite (proj2 (Z.leb_le 0 x)), (proj2 (Z.leb_le 0 y)), (proj2 (Z.ltb_lt x _)), (proj2 (Z.ltb_lt y _)) in Hon by lia. discriminate.
Qed.

(** C19: After any sequence of plots on a target with a z-buffer, every cell holds a
    depth no greater than its first one and than that of every pixel plotted there,
    and its depth and colour are those of one of them, or the ones it had: hidden
    surfaces are removed whatever the drawing order. *)
Theorem z_buffer_nearest pts s x y z0 c0 : target_ok s -> Forall pixel_ok pts -> 0 <= x < G3D_W -> 0 <= y < G3D_H ->
  cell s x y = Some (z0, c0) ->
  exists z c, cell (exec plot_pixel pts s) x y = Some (z, c) /\ z <= z0 /\
    (forall p, p ∈ pts -> pix_x p = x -> pix_y p = y -> z <= z_encode (pix_z p)) /\
    ((z = z0 /\ c = c0) \/ exists p, p ∈ pts /\ pix_x p = x /\ pix_y p = y /\ z = z_encode (pix_z p) /\ c = pix_col p).
Proof.
  intros Hs Hpts Hx Hy. revert s z0 c0 Hs. induction Hpts as [|p pts Hp _ IH]; intros s z0 c0 Hs Hc.
  - exists z0, c0. split; [exact Hc|]. split; [lia|]. split; [intros p Hin; now apply elem_of_nil in Hin|now left].
  - assert (Hs' : target_ok (plot_pixel p s)) by (now apply plot_ok).
    pose proof (plot_cell p s x y z0 c0 Hs Hp Hx Hy Hc) as Hc'.
    destruct ((pix_x p =? x) && (pix_y p =? y) && (z_encode (pix_z p) <? z0)) eqn:E;
      destruct (IH _ _ _ Hs' Hc') as (z & c & Hz & Hle & Hall & Hor); exists z, c; (split; [exact Hz|]).
    + rewrite !andb_true_iff, !Z.eqb_eq, Z.ltb_lt in E. destruct E as [[Ex Ey] El]. split; [lia|]. split.
      * intros q Hq. apply elem_of_cons in Hq as [E|Hq]; [subst q; intros; lia|now apply Hall].
      * right. destruct Hor as [[-> ->]|(q & Hq & Hor)]; [exists p|exists q; split; [now right|exact Hor]].
        split; [now left|]. repeat split; assumption.
    + split; [lia|]. split.
      * intros q Hq Hqx Hqy. apply elem_of_cons in Hq as [E'|Hq]; [subst q|now apply Hall].
        rewrite Hqx, Hqy, !Z.eqb_refl in E. cbn [andb] in E. rewrite Z.ltb_ge in E. lia.
      * destruct Hor as [Hor|(q & Hq & Hor)]; [now left|right; exists q; split; [now right|exact Hor]].
Qed.

Lemma z_buffer_nearest_witness : exists z c,
  cell (exec plot_pixel [mkpixel 3 2 512 cyan; mkpixel 3 2 256 black] (mktarget (replicate 3072 black) (Some (replicate 3072 65535)))) 3 2 = Some (z, c) /\ z <= 1.
Proof.
  destruct (z_buffer_nearest [mkpixel 3 2 512 cyan; mkpixel 3 2 256 black] (mktarget (replicate 3072 black) (Some (replicate 3072 65535))) 3 2 65535 black) as (z & c & Hz & _ & Hall & _).
  - split; [vm_compute; reflexivity|]. intros z H. vm_compute in H. injection H as <-. reflexivity.
  - repeat constructor; cbn; lia.
  - unfold G3D_W; lia.
  - unfold G3D_H; lia.
  - vm_compute. reflexivity.
  - exists z, c. split; [exact Hz|]. apply (Hall (mkpixel 3 2 256 black)); [|reflexivity|reflexivity]. right. left.
Defined.
