(* ===== verification/Tty.v ===== *)
(** * Terminal graphics: [workloads/demos/common/GL_tty.h] and [g3d_present] of
    [workloads/demos/g3d/g3d.c]

    The programs' output is the list of the bytes sent to the UART. A terminal
    that interprets the escape sequences they use (SGR 38/48 colours, the space and
    the U+2583 block) gives the output its meaning: a list of cells, each with the
    colour of its upper and lower part. *)

From Stdlib Require Import String Ascii.
From S2P Require Import Prelude Cmodel Libc G3d Raster.
Local Open Scope Z_scope.

(** ** The terminal *)

Inductive event := Glyph (top bottom : g3d_rgb) | Newline.
Inductive mode := Ground | EscSeen | Csi (cur : Z) (params : list Z) | Block1 | Block2.
Record term := mkterm { bg : g3d_rgb; fg : g3d_rgb; screen : list event; tmode : mode }.

Definition show (e : event) (t : term) : term := mkterm (bg t) (fg t) (screen t ++ [e]) Ground.
Definition sgr (params : list Z) (t : term) : term :=
  match params with
  | [48; 2; r; g; b] => mkterm (rgb r g b) (fg t) (screen t) Ground
  | [38; 2; r; g; b] => mkterm (bg t) (rgb r g b) (screen t) Ground
  | _ => mkterm (bg t) (fg t) (screen t) Ground
  end.
Definition set_mode (m : mode) (t : term) : term := mkterm (bg t) (fg t) (screen t) m.

Definition term_byte (t : term) (c : Z) : term :=
  match tmode t with
  | Ground =>
    if c =? 27 then set_mode EscSeen t
    else if c =? 10 then show Newline t
    else if c =? 32 then show (Glyph (bg t) (bg t)) t
    else if c =? 0xE2 then set_mode Block1 t
    else t
  | EscSeen => if c =? 91 then set_mode (Csi 0 []) t else set_mode Ground t
  | Csi cur ps =>
    if (48 <=? c) && (c <=? 57) then set_mode (Csi (10 * cur + (c - 48)) ps) t
    else if c =? 59 then set_mode (Csi 0 (ps ++ [cur])) t
    else if c =? 63 then t
    else if c =? 109 then sgr (ps ++ [cur]) t
    else set_mode Ground t
  | Block1 => if c =? 0x96 then set_mode Block2 t else set_mode Ground t
  | Block2 => if c =? 0x83 then show (Glyph (bg t) (fg t)) t else set_mode Ground t
  end.
Definition term_run (out : list Z) (t : term) : term := fold_left term_byte out t.

Lemma term_run_app o o' t : term_run (o ++ o') t = term_run o' (term_run o t).
Proof. apply fold_left_app. Qed.

(** ** [g3d_put_u8], [g3d_put_str], [g3d_rgb_eq] *)

(** [while (v >= k) { v = v - k; h++; }] on [uint8_t]s. *)
Fixpoint sub_loop (fuel : nat) (k v h : Z) : option (Z * Z) :=
  match fuel with
  | O => None
  | S fuel => if k <=? v then sub_loop fuel k (u8 (v - k)) (u8 (h + 1)) else Some (v, h)
  end.
Definition g3d_put_u8 (v : Z) : list Z :=
  match sub_loop 3 100 v 0 with
  | None => []
  | Some (v, h) =>
    match sub_loop 11 10 v 0 with
    | None => []
    | Some (v, t) =>
      (if h =? 0 then [] else uart_send_char (48 + h)) ++
      (if (h =? 0) && (t =? 0) then [] else uart_send_char (48 + t)) ++ uart_send_char (48 + v)
    end
  end.
(** The bytes of a string literal, sent one by one. *)
Definition g3d_put_str (s : list Z) : list Z := flat_map uart_send_char s.
Definition g3d_rgb_eq (a b : g3d_rgb) : bool := (red a =? red b) && (green a =? green b) && (blue a =? blue b).

Definition csi : list Z := [27; 91].
Definition put_rgb (c : g3d_rgb) : list Z :=
  g3d_put_u8 (red c) ++ uart_send_char 59 ++ g3d_put_u8 (green c) ++ uart_send_char 59 ++ g3d_put_u8 (blue c) ++ uart_send_char 109.
Definition put_bg (c : g3d_rgb) : list Z := g3d_put_str (csi ++ str "48;2;") ++ put_rgb c.
Definition put_fg (c : g3d_rgb) : list Z := g3d_put_str (csi ++ str "38;2;") ++ put_rgb c.

(** ** [g3d_present] *)

(** The two colours last sent, and the output. *)
Record pstate := mkpstate { last_bg : g3d_rgb; last_fg : g3d_rgb; pout : list Z }.

Definition present_cell (a b : g3d_rgb) (s : pstate) : pstate :=
  if g3d_rgb_eq a b then
    let s := if negb (g3d_rgb_eq a (last_bg s)) || negb (g3d_rgb_eq a (last_fg s))
             then mkpstate a a (pout s ++ put_bg a) else s in
    mkpstate (last_bg s) (last_fg s) (pout s ++ uart_send_char 32)
  else
    let s := if negb (g3d_rgb_eq a (last_bg s)) then mkpstate a (last_fg s) (pout s ++ put_bg a) else s in
    let s := if negb (g3d_rgb_eq b (last_fg s)) then mkpstate (last_bg s) b (pout s ++ put_fg b) else s in
    mkpstate (last_bg s) (last_fg s) (pout s ++ g3d_put_str [0xE2; 0x96; 0x83]).

Definition newline_bytes : list Z := csi ++ str "38;2;0;0;0m" ++ csi ++ str "48;2;0;0;0m" ++ [10].
Definition present_newline (s : pstate) : pstate :=
  mkpstate (rgb 1 (green (last_bg s)) (blue (last_bg s))) (rgb 2 (green (last_fg s)) (blue (last_fg s)))
    (pout s ++ g3d_put_str newline_bytes).

(** The loop counter [y] goes in steps of two: [y = 2 * k]. *)
Definition g3d_present (fb : list g3d_rgb) : list Z :=
  let s := mkpstate (rgb 1 2 3) (rgb 3 2 1) (g3d_put_str (csi ++ str "H")) in
  pout (for_range 0 (G3D_H / 2) (fun k s =>
    let y := 2 * k in
    present_newline (for_range 0 G3D_W (fun x s =>
      present_cell (aget fb (y * G3D_W + x)) (aget fb ((y + 1) * G3D_W + x)) s) s)) s).

(** ** Theorems: decimal bytes *)

Definition u8_digits_ok (v : Z) : bool :=
  let ds := g3d_put_u8 v in
  forallb (fun d => (48 <=? d) && (d <=? 57)) ds && (dec_value ds =? v) &&
  (Z.of_nat (List.length ds) =? (if v <? 10 then 1 else if v <? 100 then 2 else 3)).

Lemma put_u8_ok v : 0 <= v < 256 ->
  Forall is_digit (g3d_put_u8 v) /\ dec_value (g3d_put_u8 v) = v /\
  Z.of_nat (List.length (g3d_put_u8 v)) = (if v <? 10 then 1 else if v <? 100 then 2 else 3).
Proof.
  intros Hv. assert (H : u8_digits_ok v = true).
  { apply (forallb_zrange u8_digits_ok 0 256); [vm_compute; reflexivity|exact Hv]. }
  unfold u8_digits_ok in H. rewrite !andb_true_iff, !Z.eqb_eq, forallb_forall in H. destruct H as [[H1 H2] H3].
  split; [|now split]. apply List.Forall_forall. intros d Hd. apply H1 in Hd. unfold is_digit. lia.
Qed.

(** For every byte value, [g3d_put_u8] (no division) sends its decimal digits,
    without a leading zero: one, two or three of them; both subtraction loops end. *)
Theorem g3d_put_u8_decimal v : 0 <= v < 256 ->
  Forall is_digit (g3d_put_u8 v) /\ dec_value (g3d_put_u8 v) = v /\
  Z.of_nat (List.length (g3d_put_u8 v)) = (if v <? 10 then 1 else if v <? 100 then 2 else 3).
Proof. apply put_u8_ok. Qed.

Lemma g3d_put_u8_decimal_witness : g3d_put_u8 207 = [50; 48; 55] /\ dec_value (g3d_put_u8 207) = 207.
Proof. split; [reflexivity|]. apply g3d_put_u8_decimal. lia. Defined.

Lemma term_digits ds : Forall is_digit ds -> forall cur ps t, tmode t = Csi cur ps ->
  term_run ds t = set_mode (Csi (fold_left (fun v d => 10 * v + (d - 48)) ds cur) ps) t.
Proof.
  induction 1 as [|d ds Hd _ IH]; intros cur ps t Ht; [cbn; destruct t; cbn in *; now rewrite <- Ht|].
  cbn [term_run fold_left]. unfold term_byte at 2. rewrite Ht. unfold is_digit in Hd.
  rewrite (proj2 (Z.leb_le 48 d)), (proj2 (Z.leb_le d 57)) by lia. cbn [andb].
  fold (term_run ds (set_mode (Csi (10 * cur + (d - 48)) ps) t)). now rewrite (IH (10 * cur + (d - 48)) ps).
Qed.

Lemma term_put_u8 v ps t : 0 <= v < 256 -> tmode t = Csi 0 ps -> term_run (g3d_put_u8 v) t = set_mode (Csi v ps) t.
Proof.
  intros Hv Ht. destruct (put_u8_ok v Hv) as (Hd & Hval & _). rewrite (term_digits _ Hd 0 ps t Ht).
  unfold dec_value in Hval. now rewrite Hval.
Qed.

(** ** Theorems: colours *)

Definition rgb_ok (c : g3d_rgb) : Prop := 0 <= red c < 256 /\ 0 <= green c < 256 /\ 0 <= blue c < 256.

Lemma term_sep cur ps t : tmode t = Csi cur ps -> term_byte t 59 = set_mode (Csi 0 (ps ++ [cur])) t.
Proof. unfold term_byte. now intros ->. Qed.
Lemma term_sgr cur ps t : tmode t = Csi cur ps -> term_byte t 109 = sgr (ps ++ [cur]) t.
Proof. unfold term_byte. now intros ->. Qed.

Lemma term_u8_sep v ps t : 0 <= v < 256 -> tmode t = Csi 0 ps ->
  term_run (g3d_put_u8 v ++ [59]) t = set_mode (Csi 0 (ps ++ [v])) t.
Proof. intros Hv Ht. rewrite term_run_app, (term_put_u8 v ps t Hv Ht). cbn [term_run fold_left]. now rewrite (term_sep v ps). Qed.
Lemma term_u8_sgr v ps t : 0 <= v < 256 -> tmode t = Csi 0 ps -> term_run (g3d_put_u8 v ++ [109]) t = sgr (ps ++ [v]) t.
Proof.
  intros Hv Ht. rewrite term_run_app, (term_put_u8 v ps t Hv Ht). cbn [term_run fold_left]. now rewrite (term_sgr v ps).
Qed.

(** The three numbers and their separators, inside an SGR sequence. *)
Lemma term_put_rgb c ps t : rgb_ok c -> tmode t = Csi 0 ps -> term_run (put_rgb c) t = sgr (ps ++ [red c; green c; blue c]) t.
Proof.
  intros (Hr & Hg & Hb) Ht.
  assert (E : put_rgb c = (g3d_put_u8 (red c) ++ [59]) ++ (g3d_put_u8 (green c) ++ [59]) ++ (g3d_put_u8 (blue c) ++ [109])).
  { unfold put_rgb, uart_send_char. change (u8 59) with 59. change (u8 109) with 109. now rewrite <- !app_assoc. }
  rewrite E, !(term_run_app (_ ++ _)), (term_u8_sep (red c) ps t Hr Ht).
  rewrite (term_u8_sep (green c) (ps ++ [red c])), (term_u8_sgr (blue c) ((ps ++ [red c]) ++ [green c])) by (assumption || reflexivity).
  rewrite <- !app_assoc. reflexivity.
Qed.

Lemma term_put_bg c t : rgb_ok c -> tmode t = Ground -> term_run (put_bg c) t = mkterm c (fg t) (screen t) Ground.
Proof.
  intros Hc Ht. unfold put_bg. rewrite term_run_app.
  assert (E : term_run (g3d_put_str (csi ++ str "48;2;")) t = set_mode (Csi 0 [48; 2]) t).
  { destruct t as [b f s m]. cbn in Ht. subst m. reflexivity. }
  rewrite E, (term_put_rgb c [48; 2]) by (exact Hc || reflexivity). now destruct c.
Qed.
Lemma term_put_fg c t : rgb_ok c -> tmode t = Ground -> term_run (put_fg c) t = mkterm (bg t) c (screen t) Ground.
Proof.
  intros Hc Ht. unfold put_fg. rewrite term_run_app.
  assert (E : term_run (g3d_put_str (csi ++ str "38;2;")) t = set_mode (Csi 0 [38; 2]) t).
  { destruct t as [b f s m]. cbn in Ht. subst m. reflexivity. }
  rewrite E, (term_put_rgb c [38; 2]) by (exact Hc || reflexivity). now destruct c.
Qed.

Lemma term_space t : tmode t = Ground -> term_run (uart_send_char 32) t = show (Glyph (bg t) (bg t)) t.
Proof. destruct t as [b f s m]. cbn. now intros ->. Qed.
Lemma term_block t : tmode t = Ground -> term_run (g3d_put_str [0xE2; 0x96; 0x83]) t = show (Glyph (bg t) (fg t)) t.
Proof. destruct t as [b f s m]. cbn. now intros ->. Qed.
Lemma term_newline t : tmode t = Ground ->
  term_run (g3d_put_str newline_bytes) t = mkterm (rgb 0 0 0) (rgb 0 0 0) (screen t ++ [Newline]) Ground.
Proof. destruct t as [b f s m]. cbn. now intros ->. Qed.

(** ** Theorems: [g3d_present] *)

Lemma g3d_rgb_eq_spec a b : reflect (a = b) (g3d_rgb_eq a b).
Proof.
  destruct a as [r g b'], b as [r2 g2 b2]. unfold g3d_rgb_eq. cbn.
  destruct (Z.eqb_spec r r2), (Z.eqb_spec g g2), (Z.eqb_spec b' b2); constructor; congruence.
Qed.
#[export] Instance rgb_eq_dec : EqDecision g3d_rgb.
Proof. solve_decision. Defined.

(** What a row of the screen shows for the pixel pairs of the row. [seen] are the
    colours of the earlier cells of the row whose two pixels were equal: after one,
    a cell whose lower pixel has its colour may show another colour there. *)
Fixpoint row_shows (seen : list g3d_rgb) (cells : list (g3d_rgb * g3d_rgb)) (row : list event) : Prop :=
  match cells, row with
  | [], [] => True
  | (a, b) :: cells, Glyph t u :: row =>
    t = a /\ (a = b \/ b ∉ seen -> u = b) /\ row_shows (if decide (a = b) then a :: seen else seen) cells row
  | _, _ => False
  end.

(** The pixel colours the resend marks can be mistaken for have a red of 1, 2 or 3. *)
Definition pixel_col_ok (c : g3d_rgb) : Prop := rgb_ok c /\ ~ (1 <= red c <= 3).

(** The colours tracked are the terminal's, a mark no pixel has, or (foreground) the
    colour of an earlier uniform cell. *)
Definition tracks (seen : list g3d_rgb) (s : pstate) (t : term) : Prop :=
  tmode t = Ground /\ (last_bg s = bg t \/ red (last_bg s) = 1) /\
  (last_fg s = fg t \/ 2 <= red (last_fg s) <= 3 \/ last_fg s ∈ seen).

(** The output of a cell: the colours it must send, then its character. *)
Lemma present_cell_uniform a s :
  exists o, present_cell a a s = mkpstate a a (pout s ++ o ++ uart_send_char 32) /\ ((o = [] /\ a = last_bg s) \/ o = put_bg a).
Proof.
  unfold present_cell. destruct (g3d_rgb_eq_spec a a) as [_|]; [|contradiction].
  destruct (g3d_rgb_eq_spec a (last_bg s)) as [Eb|Eb]; [destruct (g3d_rgb_eq_spec a (last_fg s)) as [Ef|Ef]|]; cbn [negb orb last_bg last_fg pout].
  - exists []. rewrite <- Eb, <- Ef. split; [reflexivity|left; now split].
  - exists (put_bg a). rewrite <- app_assoc. split; [reflexivity|now right].
  - exists (put_bg a). rewrite <- app_assoc. split; [reflexivity|now right].
Qed.

Lemma present_cell_mixed a b s : a <> b ->
  exists o1 o2, present_cell a b s = mkpstate a b (pout s ++ o1 ++ o2 ++ g3d_put_str [0xE2; 0x96; 0x83]) /\
    ((o1 = [] /\ a = last_bg s) \/ o1 = put_bg a) /\ ((o2 = [] /\ b = last_fg s) \/ o2 = put_fg b).
Proof.
  intros Hne. unfold present_cell. destruct (g3d_rgb_eq_spec a b) as [|_]; [contradiction|]. destruct s as [lb lf o].
  cbn [last_bg last_fg pout].
  destruct (g3d_rgb_eq_spec a lb) as [<-|Eb]; cbn [negb last_bg last_fg pout];
    destruct (g3d_rgb_eq_spec b lf) as [<-|Ef]; cbn [negb last_bg last_fg pout].
  - exists [], []. split; [reflexivity|split; left; now split].
  - exists [], (put_fg b). rewrite <- app_assoc. split; [reflexivity|split; [left; now split|now right]].
  - exists (put_bg a), []. rewrite <- app_assoc. split; [reflexivity|split; [now right|left; now split]].
  - exists (put_bg a), (put_fg b). rewrite <- !app_assoc. split; [reflexivity|split; now right].
Qed.

(** Sending a background colour, or not when it is the last one sent. *)
Lemma term_maybe_bg a o s t : pixel_col_ok a -> tmode t = Ground -> last_bg s = bg t \/ red (last_bg s) = 1 ->
  (o = [] /\ a = last_bg s) \/ o = put_bg a -> term_run o t = mkterm a (fg t) (screen t) Ground.
Proof.
  intros [Ha Har] Ht Hbg [[-> E]| ->]; [|now apply term_put_bg]. destruct Hbg as [Hbg|Hbg]; [|rewrite <- E in Hbg; lia].
  destruct t; cbn in *; subst. reflexivity.
Qed.

Lemma present_cell_shows a b seen s t0 : pixel_col_ok a -> pixel_col_ok b -> tracks seen s (term_run (pout s) t0) ->
  let t := term_run (pout s) t0 in
  let s' := present_cell a b s in let t' := term_run (pout s') t0 in
  tracks (if decide (a = b) then a :: seen else seen) s' t' /\
  exists u, screen t' = screen t ++ [Glyph a u] /\ (a = b \/ b ∉ seen -> u = b).
Proof.
  intros Ha Hb (Ht & Hbg & Hfg) t s' t'. fold t in Ht, Hbg, Hfg. subst s' t'.
  destruct (decide (a = b)) as [<-|Hne].
  - destruct (present_cell_uniform a s) as (o & -> & Ho). cbn [pout]. rewrite !term_run_app. fold t.
    rewrite (term_maybe_bg a o s t Ha Ht Hbg Ho), term_space by reflexivity. cbn.
    split; [split; [reflexivity|split; [now left|right; right; now left]]|]. exists a. now split.
  - destruct (present_cell_mixed a b s Hne) as (o1 & o2 & -> & H1 & H2). cbn [pout]. rewrite !term_run_app. fold t.
    rewrite (term_maybe_bg a o1 s t Ha Ht Hbg H1). destruct H2 as [[-> E]| ->].
    + cbn [term_run fold_left]. rewrite term_block by reflexivity. cbn. rewrite <- E in Hfg. split.
      * split; [reflexivity|split; [now left|exact Hfg]].
      * exists (fg t). split; [reflexivity|]. intros [|Hs]; [contradiction|]. destruct Hb as [_ Hb].
        destruct Hfg as [Hfg|[Hfg|Hfg]]; [congruence|lia|contradiction].
    + rewrite term_put_fg by (apply Hb || reflexivity). rewrite term_block by reflexivity. cbn.
      split; [split; [reflexivity|split; [now left|now left]]|]. exists b. now split.
Qed.

Definition present_row (cells : list (g3d_rgb * g3d_rgb)) (s : pstate) : pstate :=
  fold_left (fun s c => present_cell c.1 c.2 s) cells s.

Lemma present_row_shows cells seen s t0 : Forall (fun c => pixel_col_ok c.1 /\ pixel_col_ok c.2) cells ->
  tracks seen s (term_run (pout s) t0) ->
  let t' := term_run (pout (present_row cells s)) t0 in
  tmode t' = Ground /\ exists row, screen t' = screen (term_run (pout s) t0) ++ row /\ row_shows seen cells row.
Proof.
  intros Hc. revert seen s. induction Hc as [|[a b] cells [Ha Hb] _ IH]; intros seen s Htr.
  - split; [apply Htr|]. exists []. rewrite app_nil_r. now split.
  - cbn in Ha, Hb. cbn [present_row fold_left fst snd]. destruct (present_cell_shows a b seen s t0 Ha Hb Htr) as (Htr' & u & Hu & Hor).
    destruct (IH _ _ Htr') as (Hm & row & Hrow & Hs). split; [exact Hm|]. exists (Glyph a u :: row).
    rewrite Hu, <- app_assoc in Hrow. split; [exact Hrow|]. cbn. split; [reflexivity|]. now split.
Qed.

(** The pixel pairs of a row of the screen. *)
Definition row_cells (fb : list g3d_rgb) (k : Z) : list (g3d_rgb * g3d_rgb) :=
  map (fun x => (aget fb (2 * k * G3D_W + x), aget fb ((2 * k + 1) * G3D_W + x))) (zrange 0 G3D_W).

(** What the whole screen shows. *)
Inductive shows (fb : list g3d_rgb) : list Z -> list event -> Prop :=
| shows_nil : shows fb [] []
| shows_row k ks row es : row_shows [] (row_cells fb k) row -> shows fb ks es -> shows fb (k :: ks) (row ++ [Newline] ++ es).

Definition present_rows (fb : list g3d_rgb) (ks : list Z) (s : pstate) : pstate :=
  fold_left (fun s k => present_newline (present_row (row_cells fb k) s)) ks s.

Lemma g3d_present_rows fb : g3d_present fb = pout (present_rows fb (zrange 0 (G3D_H / 2)) (mkpstate (rgb 1 2 3) (rgb 3 2 1) (g3d_put_str (csi ++ str "H")))).
Proof.
  unfold g3d_present. rewrite for_range_exec. unfold exec, present_rows. f_equal.
Qed.

Lemma present_rows_shows fb ks t0 : Forall pixel_col_ok fb -> (forall k, k ∈ ks -> 0 <= k < G3D_H / 2) -> alen fb = cells ->
  forall s, tracks [] s (term_run (pout s) t0) ->
  exists es, screen (term_run (pout (present_rows fb ks s)) t0) = screen (term_run (pout s) t0) ++ es /\ shows fb ks es.
Proof.
  intros Hfb Hks Hlen. assert (Hget : forall i, 0 <= i < cells -> pixel_col_ok (aget fb i)).
  { intros i Hi. eapply (proj1 (Forall_lookup _ _) Hfb). apply lookup_aget. rewrite Hlen. exact Hi. }
  induction ks as [|k ks IH]; intros s Htr; [exists []; split; [now rewrite app_nil_r|constructor]|]. cbn [present_rows fold_left].
  assert (Hk : 0 <= k < 24) by (apply (Hks k); now left).
  destruct (present_row_shows (row_cells fb k) [] s t0) as (Hm & row & Hrow & Hs); [|exact Htr|].
  { apply List.Forall_forall. intros c Hc. apply in_map_iff in Hc as (x & <- & Hx). apply in_zrange in Hx. cbn. unfold cells, G3D_W, G3D_H in *.
    split; apply Hget; lia. }
  set (s1 := present_row (row_cells fb k) s) in *.
  assert (E : term_run (pout (present_newline s1)) t0 = mkterm (rgb 0 0 0) (rgb 0 0 0) (screen (term_run (pout s1) t0) ++ [Newline]) Ground).
  { unfold present_newline. cbn [pout]. rewrite term_run_app. now apply term_newline. }
  destruct (IH ltac:(intros; apply Hks; now right) (present_newline s1)) as (es & Hes & Hsh).
  { rewrite E. split; [reflexivity|]. split; [right; reflexivity|right; left; cbn; lia]. }
  exists (row ++ [Newline] ++ es). split; [|now constructor]. rewrite E in Hes. cbn [screen] in Hes.
  rewrite Hrow in Hes. rewrite <- !app_assoc in Hes. exact Hes.
Qed.

(** C18: The bytes [g3d_present] sends, interpreted by a terminal, show the frame buffer
    (whose colours do not have a red of 1, 2 or 3, the values its resend marks use): a row of cells
    for every two pixel rows, the upper part of every cell in the colour of the upper pixel, and the
    lower part in the colour of the lower pixel except, possibly, where that colour is the one
    of an earlier cell of the row whose two pixels were equal. *)
Theorem g3d_present_shows fb t : Forall pixel_col_ok fb -> alen fb = cells -> tmode t = Ground ->
  exists es, screen (term_run (g3d_present fb) t) = screen t ++ es /\ shows fb (zrange 0 (G3D_H / 2)) es.
Proof.
  intros Hfb Hlen Ht. rewrite g3d_present_rows.
  set (s0 := mkpstate (rgb 1 2 3) (rgb 3 2 1) (g3d_put_str (csi ++ str "H"))).
  assert (E : term_run (pout s0) t = t) by (destruct t as [b f s m]; cbn in Ht; subst m; reflexivity).
  destruct (present_rows_shows fb (zrange 0 (G3D_H / 2)) t Hfb) with (s := s0) as (es & Hes & Hsh).
  - intros k Hk. now apply list_elem_of_In, in_zrange in Hk.
  - exact Hlen.
  - rewrite E. split; [exact Ht|]. split; [now right|right; left; cbn; lia].
  - exists es. rewrite E in Hes. now split.
Qed.

Lemma g3d_present_shows_witness : exists es,
  screen (term_run (g3d_present (replicate 3072 (rgb 8 8 16))) (mkterm (rgb 0 0 0) (rgb 0 0 0) [] Ground)) = es /\
  shows (replicate 3072 (rgb 8 8 16)) (zrange 0 24) es.
Proof.
  destruct (g3d_present_shows (replicate 3072 (rgb 8 8 16)) (mkterm (rgb 0 0 0) (rgb 0 0 0) [] Ground)) as (es & H1 & H2).
  - apply Forall_replicate. unfold pixel_col_ok, rgb_ok. cbn. lia.
  - reflexivity.
  - reflexivity.
  - exists es. split; [exact H1|exact H2].
Defined.

(** A frame with black, cyan and black-cyan cells in its first row. *)
Definition cyan_frame : list g3d_rgb :=
  let k := rgb 0 0 0 in let c := rgb 80 220 255 in
  aset (aset (replicate 3072 k) 2 c) 64 c.

(** The exception is real: of the three cells black over cyan, black over
    black and cyan over black, the third one shows cyan in its lower part, because the uniform
    cell recorded a foreground colour that was never sent. *)
Theorem g3d_present_stale_foreground :
  let es := screen (term_run (g3d_present cyan_frame) (mkterm (rgb 0 0 0) (rgb 0 0 0) [] Ground)) in
  aget cyan_frame 2 = rgb 80 220 255 /\ aget cyan_frame (64 + 2) = rgb 0 0 0 /\
  nth_error es 2 = Some (Glyph (rgb 80 220 255) (rgb 80 220 255)).
Proof. vm_compute. repeat split. Qed.
