(* ===== verification/Gl.v ===== *)
(** * [workloads/demos/common/GL_tty.h]

    Every function of the header is the [printf] calls it makes; [None] is a
    [printf] that reads past its format or arguments. *)

From Stdlib Require Import String Ascii.
From S2P Require Import Prelude Cmodel Libc G3d Raster Tty.
Local Open Scope Z_scope.

(** A format: [\033[] and the rest. *)
Definition csi_fmt (s : string) : list Z := cstr (csi ++ str s).
Arguments csi_fmt s%_string_scope.

Definition GL_gotoxy (x y : Z) : option (list Z) := printf (csi_fmt "%d;%dH") [va_int y; va_int x].
Definition GL_setpixelRGBhere (R G B : Z) : option (list Z) := printf (csi_fmt "48;2;%d;%d;%dm ") [va_int R; va_int G; va_int B].
Definition block_fmt : list Z := cstr [0xE2; 0x96; 0x83].

Definition GL_set2pixelsRGBhere (r1 g1 b1 r2 g2 b2 : Z) : option (list Z) :=
  if (r2 =? r1) && (g2 =? g1) && (b2 =? b1) then GL_setpixelRGBhere r1 g1 b1
  else
    out_app (out_app (printf (csi_fmt "48;2;%d;%d;%dm") [va_int r1; va_int g1; va_int b1])
                     (printf (csi_fmt "38;2;%d;%d;%dm") [va_int r2; va_int g2; va_int b2]))
            (printf block_fmt []).

(** [cmap] is an array of strings; [None] is a null pointer. *)
Definition GL_setpixelIhere (cmap : list (option (list Z))) (c : Z) : option (list Z) :=
  s ← aget cmap c; printf (csi_fmt "48;2;%sm ") [va_str s].
Definition GL_set2pixelsIhere (cmap : list (option (list Z))) (c1 c2 : Z) : option (list Z) :=
  if c1 =? c2 then GL_setpixelIhere cmap c1
  else
    out_app (out_app (s ← aget cmap c1; printf (csi_fmt "48;2;%sm") [va_str s])
                     (s ← aget cmap c2; printf (csi_fmt "38;2;%sm") [va_str s]))
            (printf block_fmt []).

Definition GL_newline : option (list Z) :=
  out_app (printf (csi_fmt "38;2;0;0;0m") []) (printf (cstr (csi ++ str "48;2;0;0;0m" ++ [10])) []).
Definition GL_setpixelRGB (x y R G B : Z) : option (list Z) := out_app (GL_gotoxy x y) (GL_setpixelRGBhere R G B).
Definition GL_restore_default_colors : option (list Z) :=
  printf (cstr (csi ++ str "48;5;16m" ++ csi ++ str "38;5;15m")) [].
Definition GL_clear : option (list Z) := out_app GL_restore_default_colors (printf (csi_fmt "2J") []).
Definition GL_home : option (list Z) := printf (csi_fmt "H") [].
Definition GL_init : option (list Z) := out_app (out_app (printf (csi_fmt "?25l") []) GL_home) GL_clear.
Definition GL_terminate (GL_height : Z) : option (list Z) :=
  out_app (out_app GL_restore_default_colors (GL_gotoxy 0 GL_height)) (printf (csi_fmt "?25h") []).

(** The shader [do_pixel] gives the three components of a pixel. [j = 2 * k]. *)
Definition GL_scan_RGB (width height : Z) (do_pixel : Z -> Z -> Z * Z * Z) : option (list Z) :=
  for_range 0 (Z.quot (height + 1) 2) (fun k out =>
    let j := 2 * k in
    for_range 0 width (fun i out =>
      let '(r1, g1, b1) := do_pixel i j in
      let '(r2, g2, b2) := do_pixel i (j + 1) in
      let out := out_app out (GL_set2pixelsRGBhere r1 g1 b1 r2 g2 b2) in
      if i =? width - 1 then out_app out GL_newline else out) out) GL_home.

(** ** [GL_line] *)

Section Line.
Context (GL_width GL_height : Z).
Definition XMIN : Z := 0.
Definition XMAX : Z := GL_width - 1.
Definition YMIN : Z := 0.
Definition YMAX : Z := GL_height - 1.
Definition LEFT : Z := 1.
Definition RIGHT : Z := 2.
Definition BOTTOM : Z := 4.
Definition TOP : Z := 8.

Definition code (x y : Z) : Z :=
  Z.lor (Z.lor (Z.lor (Z.b2z (x <? XMIN)) (Z.shiftl (Z.b2z (XMAX <? x)) 1)) (Z.shiftl (Z.b2z (y <? YMIN)) 2)) (Z.shiftl (Z.b2z (YMAX <? y)) 3).

(** The clipping loop: [Some None] when the line is outside, [None] when the fuel
    runs out. [(x2 - x1) * (...) / (...)] is C's truncating division. *)
Fixpoint clip (fuel : nat) (x1 y1 x2 y2 code1 code2 : Z) : option (option (Z * Z * Z * Z)) :=
  match fuel with
  | O => None
  | S fuel =>
    if (code1 =? 0) && (code2 =? 0) then Some (Some (x1, y1, x2, y2))
    else if negb (Z.land code1 code2 =? 0) then Some None
    else
      let codeout := if negb (code1 =? 0) then code1 else code2 in
      let at_y Y := s32 (x1 + Z.quot (s32 (s32 (x2 - x1) * s32 (Y - y1))) (s32 (y2 - y1))) in
      let at_x X := s32 (y1 + Z.quot (s32 (s32 (y2 - y1) * s32 (X - x1))) (s32 (x2 - x1))) in
      let '(x, y) :=
        if negb (Z.land codeout TOP =? 0) then (at_y YMAX, YMAX)
        else if negb (Z.land codeout BOTTOM =? 0) then (at_y YMIN, YMIN)
        else if negb (Z.land codeout RIGHT =? 0) then (XMAX, at_x XMAX)
        else (XMIN, at_x XMIN) in
      if codeout =? code1 then clip fuel x y x2 y2 (code x y) code2
      else clip fuel x1 y1 x y code1 (code x y)
  end.

(** What the drawing sends: [GL_setpixelRGB] at a point, or a bare space. *)
Inductive gl_op := Pixel (x y : Z) | Space.
Record gl_state := mkgl { gx : Z; gy : Z; ge : Z; ops : list gl_op }.

(** [while (ex >= 0) { x++; ex -= dy << 1; uart_send_char(' '); }] *)
Fixpoint steep_spaces (fuel : nat) (dy : Z) (s : gl_state) : option gl_state :=
  match fuel with
  | O => None
  | S fuel =>
    if 0 <=? ge s then steep_spaces fuel dy (mkgl (s32 (gx s + 1)) (gy s) (s32 (ge s - s32 (Z.shiftl dy 1))) (ops s ++ [Space]))
    else Some s
  end.
(** [while (ey >= 0) { y += sy; ey -= dx << 1; GL_setpixelRGB(x,y,R,G,B); }] *)
Fixpoint shallow_pixels (fuel : nat) (dx sy : Z) (s : gl_state) : option gl_state :=
  match fuel with
  | O => None
  | S fuel =>
    if 0 <=? ge s then
      let y := s32 (gy s + sy) in
      shallow_pixels fuel dx sy (mkgl (gx s) y (s32 (ge s - s32 (Z.shiftl dx 1))) (ops s ++ [Pixel (gx s) y]))
    else Some s
  end.

Definition steep_body (dx dy sy : Z) (s : option gl_state) : option gl_state :=
  s ← s;
  let s := mkgl (gx s) (s32 (gy s + sy)) (ge s) (ops s ++ [Pixel (gx s) (gy s)]) in
  let s := if 0 <=? ge s then
             let x := s32 (gx s + 1) in mkgl x (gy s) (s32 (ge s - s32 (Z.shiftl dy 1))) (ops s ++ [Pixel x (gy s)])
           else s in
  s ← steep_spaces 2 dy s;
  Some (mkgl (gx s) (gy s) (s32 (ge s + s32 (Z.shiftl dx 1))) (ops s)).
Definition shallow_body (dx dy sy : Z) (s : option gl_state) : option gl_state :=
  s ← s;
  let s := mkgl (s32 (gx s + 1)) (gy s) (ge s) (ops s ++ [Pixel (gx s) (gy s)]) in
  s ← shallow_pixels 2 dx sy s;
  Some (mkgl (gx s) (gy s) (s32 (ge s + s32 (Z.shiftl dy 1))) (ops s)).

(** The part after clipping. *)
Definition gl_draw (x1 y1 x2 y2 : Z) : option (list gl_op) :=
  let '(x1, y1, x2, y2) := if x2 <? x1 then (x2, y2, x1, y1) else (x1, y1, x2, y2) in
  let dy := s32 (y2 - y1) in
  let '(sy, dy) := if dy <? 0 then (-1, s32 (- dy)) else (1, dy) in
  let dx := s32 (x2 - x1) in
  option_map ops
    (if dx <? dy then for_range 0 dy (fun _ => steep_body dx dy sy) (Some (mkgl x1 y1 (s32 (s32 (Z.shiftl dx 1) - dy)) []))
     else for_range 0 dx (fun _ => shallow_body dx dy sy) (Some (mkgl x1 y1 (s32 (s32 (Z.shiftl dy 1) - dx)) []))).

(** [fuel] is for the clipping loop. *)
Definition GL_line (fuel : nat) (x1 y1 x2 y2 : Z) : option (list gl_op) :=
  match clip fuel x1 y1 x2 y2 (code x1 y1) (code x2 y2) with
  | None => None
  | Some None => Some []
  | Some (Some (x1, y1, x2, y2)) => gl_draw x1 y1 x2 y2
  end.
End Line.

Definition gl_bytes (R G B : Z) (o : gl_op) : option (list Z) :=
  match o with
  | Pixel x y => GL_setpixelRGB x y R G B
  | Space => Some (uart_send_char 32)
  end.

(** ** Theorems: cells *)

Lemma printf_int n fmt args : - 2 ^ 31 < n < 2 ^ 31 ->
  printf (37 :: 100 :: fmt) (va_int n :: args) = option_map (app (dec n)) (printf fmt args).
Proof. intros Hn. cbn [printf Z.eqb Pos.eqb]. destruct (dec_ok n Hn) as [-> _]. cbn. now destruct (printf fmt args). Qed.

Lemma dec_u8 n : 0 <= n < 256 -> Forall is_digit (dec n) /\ dec_value (dec n) = n.
Proof.
  intros Hn. destruct (dec_ok n ltac:(lia)) as [E _]. destruct (uart_send_integer_ok n ltac:(lia)) as (ds & E' & Hd & Hv & _).
  rewrite E in E'. injection E' as ->. rewrite (proj2 (Z.ltb_ge n 0)) by lia. cbn [app]. split; [exact Hd|]. rewrite Hv. lia.
Qed.

Definition sgr_bytes (k : Z) (c : g3d_rgb) : list Z :=
  [27; 91; k; 56; 59; 50; 59] ++ dec (red c) ++ [59] ++ dec (green c) ++ [59] ++ dec (blue c) ++ [109].

Ltac run_printf :=
  match goal with |- context [csi_fmt ?s] => let f := eval vm_compute in (csi_fmt s) in change (csi_fmt s) with f end;
  cbn [printf Z.eqb Pos.eqb]; rewrite !(fun n H => proj1 (dec_ok n H)) by lia; cbn; rewrite <- ?app_assoc; reflexivity.

Lemma printf_bg c : rgb_ok c -> printf (csi_fmt "48;2;%d;%d;%dm") [va_int (red c); va_int (green c); va_int (blue c)] = Some (sgr_bytes 52 c).
Proof. intros (Hr & Hg & Hb). run_printf. Qed.
Lemma printf_fg c : rgb_ok c -> printf (csi_fmt "38;2;%d;%d;%dm") [va_int (red c); va_int (green c); va_int (blue c)] = Some (sgr_bytes 51 c).
Proof. intros (Hr & Hg & Hb). run_printf. Qed.
Lemma printf_bg_space c : rgb_ok c -> printf (csi_fmt "48;2;%d;%d;%dm ") [va_int (red c); va_int (green c); va_int (blue c)] = Some (sgr_bytes 52 c ++ [32]).
Proof. intros (Hr & Hg & Hb). unfold sgr_bytes. rewrite <- !app_assoc. run_printf. Qed.

(** The terminal's reading of the sequence. *)
Lemma term_dec n ps t : 0 <= n < 256 -> tmode t = Csi 0 ps -> term_run (dec n) t = set_mode (Csi n ps) t.
Proof.
  intros Hn Ht. destruct (dec_u8 n Hn) as [Hd Hv]. rewrite (term_digits _ Hd 0 ps t Ht). unfold dec_value in Hv. now rewrite Hv.
Qed.
Lemma term_dec_sep n ps t : 0 <= n < 256 -> tmode t = Csi 0 ps -> term_run (dec n ++ [59]) t = set_mode (Csi 0 (ps ++ [n])) t.
Proof. intros Hv Ht. rewrite term_run_app, (term_dec n ps t Hv Ht). cbn [term_run fold_left]. now rewrite (term_sep n ps). Qed.
Lemma term_dec_sgr n ps t : 0 <= n < 256 -> tmode t = Csi 0 ps -> term_run (dec n ++ [109]) t = sgr (ps ++ [n]) t.
Proof. intros Hv Ht. rewrite term_run_app, (term_dec n ps t Hv Ht). cbn [term_run fold_left]. now rewrite (term_sgr n ps). Qed.

Lemma term_sgr_bytes k c t : k = 51 \/ k = 52 -> rgb_ok c -> tmode t = Ground ->
  term_run (sgr_bytes k c) t = if k =? 52 then mkterm c (fg t) (screen t) Ground else mkterm (bg t) c (screen t) Ground.
Proof.
  intros Hk (Hr & Hg & Hb) Ht. unfold sgr_bytes.
  assert (E : forall d ds, term_run ([27; 91; k; 56; 59; 50; 59] ++ dec d ++ ds) t = term_run (dec d ++ ds) (set_mode (Csi 0 [10 * (k - 48) + 8; 2]) t)).
  { intros. rewrite term_run_app. f_equal. destruct t as [b f s m]. cbn in Ht. subst m. destruct Hk as [-> | ->]; reflexivity. }
  rewrite E. change (dec (red c) ++ [59] ++ ?l) with (dec (red c) ++ ([59] ++ l)). rewrite (app_assoc (dec (red c))), term_run_app.
  rewrite (term_dec_sep (red c) [10 * (k - 48) + 8; 2]) by (assumption || reflexivity).
  rewrite (app_assoc (dec (green c))), term_run_app.
  rewrite (term_dec_sep (green c) ([10 * (k - 48) + 8; 2] ++ [red c])) by (assumption || reflexivity).
  rewrite (term_dec_sgr (blue c) (([10 * (k - 48) + 8; 2] ++ [red c]) ++ [green c])) by (assumption || reflexivity).
  destruct c. destruct Hk as [-> | ->]; reflexivity.
Qed.

(** [GL_set2pixelsRGBhere], whatever colours the terminal had, shows one cell with the
    upper pixel's colour above and the lower pixel's below, for all byte-valued components. *)
Theorem gl_set2pixels_shows c1 c2 t : rgb_ok c1 -> rgb_ok c2 -> tmode t = Ground ->
  exists out, GL_set2pixelsRGBhere (red c1) (green c1) (blue c1) (red c2) (green c2) (blue c2) = Some out /\
    screen (term_run out t) = screen t ++ [Glyph c1 c2] /\ tmode (term_run out t) = Ground.
Proof.
  intros H1 H2 Ht. unfold GL_set2pixelsRGBhere, GL_setpixelRGBhere.
  assert (E : (red c2 =? red c1) && (green c2 =? green c1) && (blue c2 =? blue c1) = g3d_rgb_eq c2 c1) by reflexivity.
  rewrite E. destruct (g3d_rgb_eq_spec c2 c1) as [->|Hne].
  - rewrite printf_bg_space by assumption. eexists. split; [reflexivity|]. rewrite term_run_app, term_sgr_bytes by auto. split; reflexivity.
  - rewrite printf_bg, printf_fg by assumption. eexists. split; [reflexivity|]. rewrite !term_run_app.
    rewrite (term_sgr_bytes 52 c1 t) by auto. rewrite (term_sgr_bytes 51 c2) by (auto || reflexivity). split; reflexivity.
Qed.

Lemma gl_set2pixels_shows_witness : exists out, GL_set2pixelsRGBhere 252 0 7 1 2 3 = Some out /\
  screen (term_run out (mkterm (rgb 9 9 9) (rgb 9 9 9) [] Ground)) = [Glyph (rgb 252 0 7) (rgb 1 2 3)].
Proof.
  destruct (gl_set2pixels_shows (rgb 252 0 7) (rgb 1 2 3) (mkterm (rgb 9 9 9) (rgb 9 9 9) [] Ground)) as (out & H & Hs & _).
  - unfold rgb_ok; cbn; lia.
  - unfold rgb_ok; cbn; lia.
  - reflexivity.
  - exists out. split; [exact H|exact Hs].
Defined.

(** ** Theorems: lines *)

Section LineBounds.
Context (x1 y1 dx dy sy W H : Z).
Context (Hdx : 0 <= dx) (Hdy : 0 <= dy) (Hsy : sy = 1 \/ sy = -1) (HW : W <= 2 ^ 20) (HH : H <= 2 ^ 20).
Context (Hx1 : 0 <= x1) (Hx2 : x1 + dx < W) (Hy1 : 0 <= y1 < H) (Hy2 : 0 <= y1 + sy * dy < H).

Definition op_on_screen (o : gl_op) : Prop := match o with Pixel x y => 0 <= x < W /\ 0 <= y < H | Space => False end.

Lemma between b : 0 <= b <= dy -> 0 <= y1 + sy * b < H.
Proof. intros Hb. destruct Hsy as [-> | ->]; lia. Qed.

(** After [u] iterations. *)
Definition steep_at (u : Z) (s : option gl_state) : Prop :=
  exists s', s = Some s' /\ 0 <= gx s' - x1 <= dx /\ gy s' = y1 + sy * u /\
    ge s' = 2 * dx * (u + 1) - dy * (1 + 2 * (gx s' - x1)) /\ - 2 * dy <= ge s' < 2 * dx /\ Forall op_on_screen (ops s').
Definition shallow_at (u : Z) (s : option gl_state) : Prop :=
  exists s' b, s = Some s' /\ 0 <= b <= dy /\ gx s' = x1 + u /\ gy s' = y1 + sy * b /\
    ge s' = 2 * dy * (u + 1) - dx * (1 + 2 * b) /\ - 2 * dx <= ge s' < 2 * dy /\ Forall op_on_screen (ops s').

Lemma steep_step u s : dx < dy -> 0 <= u < dy -> steep_at u s -> steep_at (u + 1) (steep_body dx dy sy s).
Proof.
  intros Hlt Hu (s' & -> & Ha & Hy & He & Heb & Hops). pose proof (between u ltac:(lia)) as B1. pose proof (between (u + 1) ltac:(lia)) as B2.
  cbn. rewrite !Z.shiftl_mul_pow2 by lia. change (2 ^ 1) with 2.
  rewrite (s32_id (gy s' + sy)), (s32_id (dx * 2)), (s32_id (dy * 2)) by (unfold is_s32; destruct Hsy as [-> | ->]; lia).
  destruct (Z.leb_spec 0 (ge s')) as [Hg|Hg]; cbn [gx gy ge ops].
  - assert (Hlt' : gx s' - x1 < dx) by nia.
    rewrite (s32_id (gx s' + 1)), (s32_id (ge s' - dy * 2)) by (unfold is_s32; lia). rewrite (proj2 (Z.leb_gt 0 (ge s' - dy * 2))) by lia. cbn.
    rewrite s32_id by (unfold is_s32; lia). eexists. split; [reflexivity|]. cbn [gx gy ge ops].
    split; [lia|]. split; [lia|]. split; [lia|]. split; [lia|]. rewrite !Forall_app. repeat split; try assumption; repeat constructor; cbn; lia.
  - rewrite (proj2 (Z.leb_gt 0 (ge s'))) by lia. cbn. rewrite s32_id by (unfold is_s32; lia). eexists. split; [reflexivity|]. cbn [gx gy ge ops].
    split; [lia|]. split; [lia|]. split; [lia|]. split; [lia|]. rewrite !Forall_app. repeat split; try assumption; repeat constructor; cbn; lia.
Qed.

Lemma shallow_step u s : dy <= dx -> 0 <= u < dx -> shallow_at u s -> shallow_at (u + 1) (shallow_body dx dy sy s).
Proof.
  intros Hle Hu (s' & b & -> & Hb & Hx & Hy & He & Heb & Hops). pose proof (between b Hb) as B1.
  cbn. rewrite !Z.shiftl_mul_pow2 by lia. change (2 ^ 1) with 2.
  rewrite (s32_id (gx s' + 1)), (s32_id (dx * 2)), (s32_id (dy * 2)) by (unfold is_s32; lia).
  destruct (Z.leb_spec 0 (ge s')) as [Hg|Hg]; cbn [gx gy ge ops].
  - assert (Hb' : b < dy) by nia. pose proof (between (b + 1) ltac:(lia)) as B2.
    rewrite (s32_id (gy s' + sy)), (s32_id (ge s' - dx * 2)) by (unfold is_s32; destruct Hsy as [-> | ->]; lia).
    rewrite (proj2 (Z.leb_gt 0 (ge s' - dx * 2))) by lia. cbn.
    rewrite s32_id by (unfold is_s32; lia). eexists _, (b + 1). split; [reflexivity|]. cbn [gx gy ge ops].
    split; [lia|]. split; [lia|]. split; [lia|]. split; [lia|]. split; [lia|].
    rewrite !Forall_app. repeat split; try assumption; repeat constructor; cbn; lia.
  - cbn. rewrite s32_id by (unfold is_s32; lia). eexists _, b. split; [reflexivity|]. cbn [gx gy ge ops].
    split; [lia|]. split; [lia|]. split; [lia|]. split; [lia|]. split; [lia|].
    rewrite !Forall_app. repeat split; try assumption; repeat constructor; cbn; lia.
Qed.

Lemma steep_loop : dx < dy -> exists l, option_map ops (for_range 0 dy (fun _ => steep_body dx dy sy) (Some (mkgl x1 y1 (2 * dx - dy) []))) = Some l /\ Forall op_on_screen l.
Proof.
  intros Hlt. assert (H1 : steep_at dy (for_range 0 dy (fun _ => steep_body dx dy sy) (Some (mkgl x1 y1 (2 * dx - dy) [])))).
  { apply (for_range_ind steep_at); [lia| |intros u s Hu; now apply steep_step].
    eexists. split; [reflexivity|]. cbn. repeat split; lia || constructor. }
  destruct H1 as (s' & -> & _ & _ & _ & _ & Hops). now exists (ops s').
Qed.
Lemma shallow_loop : dy <= dx -> exists l, option_map ops (for_range 0 dx (fun _ => shallow_body dx dy sy) (Some (mkgl x1 y1 (2 * dy - dx) []))) = Some l /\ Forall op_on_screen l.
Proof.
  intros Hle. destruct (Z.eq_dec dx 0) as [E|E]; [rewrite E, for_range_empty by lia; exists []; split; [reflexivity|constructor]|].
  assert (H1 : shallow_at dx (for_range 0 dx (fun _ => shallow_body dx dy sy) (Some (mkgl x1 y1 (2 * dy - dx) [])))).
  { apply (for_range_ind shallow_at); [lia| |intros u s Hu; now apply shallow_step].
    eexists _, 0. split; [reflexivity|]. cbn. repeat split; lia || constructor. }
  destruct H1 as (s' & b & -> & _ & _ & _ & _ & _ & Hops). now exists (ops s').
Qed.
End LineBounds.

(** A line whose end points are on the screen is not clipped; its drawing
    terminates, sets only pixels on the screen, and never takes the branch that sends
    bare spaces without moving the cursor. *)
Theorem gl_line_on_screen W H x1 y1 x2 y2 fuel : W <= 2 ^ 20 -> H <= 2 ^ 20 -> (1 <= fuel)%nat ->
  0 <= x1 < W -> 0 <= x2 < W -> 0 <= y1 < H -> 0 <= y2 < H ->
  exists l, GL_line W H fuel x1 y1 x2 y2 = Some l /\
    Forall (fun o => match o with Pixel x y => 0 <= x < W /\ 0 <= y < H | Space => False end) l.
Proof.
  intros HW HH Hf Hx1 Hx2 Hy1 Hy2. assert (Hcode : forall x y, 0 <= x < W -> 0 <= y < H -> code W H x y = 0).
  { intros x y Hx Hy. unfold code, XMIN, XMAX, YMIN, YMAX.
    rewrite (proj2 (Z.ltb_ge x 0)), (proj2 (Z.ltb_ge (W - 1) x)), (proj2 (Z.ltb_ge y 0)), (proj2 (Z.ltb_ge (H - 1) y)) by lia. reflexivity. }
  unfold GL_line. rewrite !Hcode by assumption. destruct fuel as [|fuel]; [lia|]. cbn [clip Z.eqb andb].
  assert (Hdraw : forall x1 y1 x2 y2, 0 <= x1 < W -> 0 <= x2 < W -> 0 <= y1 < H -> 0 <= y2 < H -> x1 <= x2 ->
    exists l, gl_draw x1 y1 x2 y2 = Some l /\ Forall (op_on_screen W H) l).
  { clear - HW HH. intros x1 y1 x2 y2 Hx1 Hx2 Hy1 Hy2 Hle. unfold gl_draw. rewrite (proj2 (Z.ltb_ge x2 x1)) by lia.
    rewrite (s32_id (y2 - y1)), (s32_id (x2 - x1)) by (unfold is_s32; lia).
    set (sy := if y2 - y1 <? 0 then -1 else 1). set (dy := Z.abs (y2 - y1)).
    assert (E : (if y2 - y1 <? 0 then (-1, s32 (- (y2 - y1))) else (1, y2 - y1)) = (sy, dy)).
    { unfold sy, dy. destruct (Z.ltb_spec (y2 - y1) 0); [rewrite s32_id by (unfold is_s32; lia)|]; f_equal; lia. }
    assert (Hsy : (sy = 1 \/ sy = -1) /\ y1 + sy * dy = y2) by (unfold sy, dy; destruct (Z.ltb_spec (y2 - y1) 0); lia).
    rewrite E, !(Z.shiftl_mul_pow2 _ 1) by lia. change (2 ^ 1) with 2. unfold dy in *.
    rewrite (s32_id ((x2 - x1) * 2)), (s32_id (Z.abs (y2 - y1) * 2)), !s32_id by (unfold is_s32; lia). rewrite !(Z.mul_comm _ 2).
    destruct (Z.ltb_spec (x2 - x1) (Z.abs (y2 - y1))); [apply steep_loop|apply shallow_loop]; lia. }
  destruct (Z.le_gt_cases x1 x2) as [Hle|Hgt]; [now apply Hdraw|].
  assert (E : gl_draw x1 y1 x2 y2 = gl_draw x2 y2 x1 y1) by (unfold gl_draw; rewrite (proj2 (Z.ltb_lt x2 x1)), (proj2 (Z.ltb_ge x1 x2)) by lia; reflexivity).
  rewrite E. apply Hdraw; lia.
Qed.

Lemma gl_line_on_screen_witness : exists l, GL_line 80 25 1 3 20 7 2 = Some l /\ List.length l = 22%nat /\
  Forall (fun o => match o with Pixel x y => 0 <= x < 80 /\ 0 <= y < 25 | Space => False end) l.
Proof.
  destruct (gl_line_on_screen 80 25 3 20 7 2 1) as (l & E & Hl); [lia..|]. exists l. split; [exact E|]. split; [|exact Hl].
  vm_compute in E. injection E as <-. reflexivity.
Defined.
