(* ===== verification/Fire.v ===== *)
(** * The fire demo: [workloads/demos/mt-fire.c]

    One pass of [thread_entry] is six phases separated by barriers; the display
    and the scrolling share a phase. A core's work in a phase is a list of
    operations on the shared [fire] array of [GL_width * GL_height] bytes. *)

From Stdlib Require Import String Ascii.
From S2P Require Import Prelude Cmodel Libc Raster Tty Gl.
From stdpp Require Import sets.
Local Open Scope Z_scope.

Definition GL_width : Z := 80.
Definition GL_height : Z := 50.

(** [GL_RGB(R,G,B)]: the decimal numerals joined by semicolons. *)
Definition GL_RGB (r g b : Z) : list Z := cstr (dec r ++ [59] ++ dec g ++ [59] ++ dec b).
Definition palette_head : list (list Z) := [
   GL_RGB 0 0 0; GL_RGB 0 4 4; GL_RGB 0 16 20; GL_RGB 0 28 36;
   GL_RGB 0 32 44; GL_RGB 0 36 48; GL_RGB 60 24 32; GL_RGB 100 16 16;
   GL_RGB 132 12 12; GL_RGB 160 8 8; GL_RGB 192 8 8; GL_RGB 220 4 4;
   GL_RGB 252 0 0; GL_RGB 252 0 0; GL_RGB 252 12 0; GL_RGB 252 28 0;
   GL_RGB 252 40 0; GL_RGB 252 52 0; GL_RGB 252 64 0; GL_RGB 252 80 0;
   GL_RGB 252 92 0; GL_RGB 252 104 0; GL_RGB 252 116 0; GL_RGB 252 132 0;
   GL_RGB 252 144 0; GL_RGB 252 156 0; GL_RGB 252 156 0; GL_RGB 252 160 0;
   GL_RGB 252 160 0; GL_RGB 252 164 0; GL_RGB 252 168 0; GL_RGB 252 168 0;
   GL_RGB 252 172 0; GL_RGB 252 176 0; GL_RGB 252 176 0; GL_RGB 252 180 0;
   GL_RGB 252 180 0; GL_RGB 252 184 0; GL_RGB 252 188 0; GL_RGB 252 188 0;
   GL_RGB 252 192 0; GL_RGB 252 196 0; GL_RGB 252 196 0; GL_RGB 252 200 0;
   GL_RGB 252 204 0; GL_RGB 252 204 0; GL_RGB 252 208 0; GL_RGB 252 212 0;
   GL_RGB 252 212 0; GL_RGB 252 216 0; GL_RGB 252 220 0; GL_RGB 252 220 0;
   GL_RGB 252 224 0; GL_RGB 252 228 0; GL_RGB 252 228 0; GL_RGB 252 232 0;
   GL_RGB 252 232 0; GL_RGB 252 236 0; GL_RGB 252 240 0; GL_RGB 252 240 0;
   GL_RGB 252 244 0; GL_RGB 252 248 0; GL_RGB 252 248 0; GL_RGB 252 252 0].
Definition palette : list (option (list Z)) := map Some (palette_head ++ replicate 192 (GL_RGB 252 252 252)).

(** ** Blur *)

Record blur := mkblur { circ : list Z; beg : Z; boffset : Z; bfire : list Z }.

Definition blur_body (step nsteps i : Z) (s : blur) : blur :=
  let f := aset (bfire s) (boffset s) (u8 (Z.quot (aget (circ s) 0 + aget (circ s) 1 + aget (circ s) 2) 3)) in
  let v := if i + 2 <? nsteps then aget f (boffset s + 2 * step) else 0 in
  mkblur (aset (circ s) (Z.rem (beg s + 2) 3) v) (u8 (beg s + 1)) (boffset s + step) f.
Definition line_blur (offset step nsteps : Z) (fire : list Z) : list Z :=
  bfire (for_range 0 nsteps (blur_body step nsteps) (mkblur [0; aget fire offset; aget fire (offset + step)] 1 offset fire)).

(** ** Random numbers *)

(** [static long int randomseed[2]]; [None] is an index outside the array. *)
Definition randomseed0 : list Z := [0; 1].
Definition myrand (cid : Z) (randomseed : list Z) : option (Z * list Z) :=
  if (0 <=? cid) && (cid <? alen randomseed) then
    let r := Z.rem (s64 (s64 (aget randomseed cid * 1366) + 150889)) 714025 in
    Some (s32 r, aset randomseed cid r)
  else None.

(** ** The phases of a core *)

Definition share (total cid nc : Z) : Z * Z :=
  let per := Z.quot total nc in
  (cid * per, if cid =? nc - 1 then total else cid * per + per).

Definition blur_rows (cid nc : Z) (fire : list Z) : list Z :=
  let '(lo, hi) := share GL_height cid nc in for_range lo hi (fun j => line_blur (j * GL_width) 1 GL_width) fire.
Definition blur_cols (cid nc : Z) (fire : list Z) : list Z :=
  let '(lo, hi) := share GL_width cid nc in for_range lo hi (fun i => line_blur i GL_width GL_height) fire.

(** The seeds and the fire; [None] after an access outside [randomseed]. *)
Definition fire_state : Type := list Z * list Z.
Definition cool_pixel (cid i : Z) (s : option fire_state) : option fire_state :=
  '(seeds, fire) ← s;
  '(r, seeds) ← myrand cid seeds;
  Some (seeds, if (Z.land r 15 =? 0) && (0 <? aget fire i) then aset fire i (u8 (aget fire i - 1)) else fire).
Definition cool (cid nc : Z) (s : option fire_state) : option fire_state :=
  let '(lo, hi) := share (GL_width * GL_height) cid nc in for_range lo hi (cool_pixel cid) s.

Definition heat_pixel (cid i : Z) (s : option fire_state) : option fire_state :=
  '(seeds, fire) ← s;
  let idx := i + (GL_height - 1) * GL_width in
  '(r, seeds) ← myrand cid seeds;
  if Z.rem r 32 =? 0 then
    '(r', seeds) ← myrand cid seeds; Some (seeds, aset fire idx (u8 (128 + Z.rem r' 128)))
  else Some (seeds, aset fire idx (if aget fire idx <? 16 then 16 else aget fire idx)).
Definition heat (cid : Z) (s : option fire_state) : option fire_state :=
  if cid =? 0 then for_range 0 GL_width (heat_pixel cid) s else s.

(** The display, by core 0: [j = 2 * k]. *)
Definition display (fire : list Z) : option (list Z) :=
  for_range 0 (Z.quot GL_height 2) (fun k out =>
    let j := 2 * k in
    out_app (for_range 0 GL_width (fun i out =>
      out_app out (GL_set2pixelsIhere palette (aget fire (i + j * GL_width)) (aget fire (i + (j + 1) * GL_width)))) out) GL_newline)
    GL_home.

(** The scrolling of a core, as the list of the pixels [(j, i)] it copies up. *)
Definition scroll_pixel (p : Z * Z) (fire : list Z) : list Z :=
  let '(j, i) := p in aset fire (i + (j - 1) * GL_width) (aget fire (i + j * GL_width)).
Definition scroll (cid nc : Z) : list (Z * Z) :=
  let per := Z.quot (GL_height - 1) nc in
  let start_j := cid * per + 1 in
  let end_j := if cid =? nc - 1 then GL_height else start_j + per in
  flat_map (fun j => map (pair j) (zrange 0 GL_width)) (zrange start_j end_j).

(** ** Theorems: blur *)

(** The three-tap blur of a line: the samples beyond its ends are 0. *)
Section Blur.
Context (fire : list Z) (offset step nsteps : Z).
Definition sample (i : Z) : Z := if (0 <=? i) && (i <? nsteps) then aget fire (offset + i * step) else 0.
Definition blurred (i : Z) : Z := Z.quot (sample (i - 1) + sample i + sample (i + 1)) 3.

Context (Hn : 2 <= nsteps <= 254) (Hstep : 0 < step) (Hoff : 0 <= offset) (Hend : offset + (nsteps - 1) * step < alen fire).
Context (Hu8 : forall i, 0 <= i < alen fire -> 0 <= aget fire i < 256).

Lemma sample_u8 i : 0 <= sample i < 256.
Proof. unfold sample. destruct ((0 <=? i) && (i <? nsteps)) eqn:E; [|lia]. apply Hu8. rewrite andb_true_iff, Z.leb_le, Z.ltb_lt in E. nia. Qed.

Lemma cell_ne i k : i <> k -> offset + i * step <> offset + k * step.
Proof. nia. Qed.

(** After [i] iterations the ring holds the samples [i - 1], [i] and [i + 1]. *)
Definition blur_at (i : Z) (s : blur) : Prop :=
  beg s = i + 1 /\ boffset s = offset + i * step /\ alen (circ s) = 3 /\ alen (bfire s) = alen fire /\
  aget (circ s) (i mod 3) = sample (i - 1) /\ aget (circ s) ((i + 1) mod 3) = sample i /\ aget (circ s) ((i + 2) mod 3) = sample (i + 1) /\
  (forall k, 0 <= k < i -> aget (bfire s) (offset + k * step) = blurred k) /\
  (forall c, (forall k, 0 <= k < i -> c <> offset + k * step) -> aget (bfire s) c = aget fire c).

Lemma ring_sum s i : 0 <= i -> aget (circ s) (i mod 3) = sample (i - 1) -> aget (circ s) ((i + 1) mod 3) = sample i ->
  aget (circ s) ((i + 2) mod 3) = sample (i + 1) -> aget (circ s) 0 + aget (circ s) 1 + aget (circ s) 2 = sample (i - 1) + sample i + sample (i + 1).
Proof.
  intros Hi <- <- <-. pose proof (Z.mod_pos_bound i 3 ltac:(lia)). rewrite <- (Zplus_mod_idemp_l i 1), <- (Zplus_mod_idemp_l i 2).
  assert (i mod 3 = 0 \/ i mod 3 = 1 \/ i mod 3 = 2) as [-> | [-> | ->]] by lia;
    change ((0 + 1) mod 3) with 1; change ((0 + 2) mod 3) with 2; change ((1 + 1) mod 3) with 2; change ((1 + 2) mod 3) with 0;
    change ((2 + 1) mod 3) with 0; change ((2 + 2) mod 3) with 1; lia.
Qed.

Lemma ring_ne i : (i + 1) mod 3 <> i mod 3 /\ (i + 2) mod 3 <> i mod 3.
Proof. split; zlia. Qed.

Lemma blur_step i s : 0 <= i < nsteps -> blur_at i s -> blur_at (i + 1) (blur_body step nsteps i s).
Proof.
  intros Hi (Hb & Ho & Hc & Hf & H0 & H1 & H2 & Hdone & Hrest). unfold blur_body.
  rewrite (ring_sum s i ltac:(lia) H0 H1 H2), Hb, Ho. fold (blurred i).
  assert (Hbl : u8 (blurred i) = blurred i).
  { unfold u8. apply Z.mod_small. unfold blurred. pose proof (sample_u8 (i - 1)). pose proof (sample_u8 i). pose proof (sample_u8 (i + 1)).
    rewrite Z.quot_div_nonneg by lia. zlia. }
  rewrite Hbl. assert (Hin : 0 <= offset + i * step < alen (bfire s)) by (rewrite Hf; nia).
  assert (Hv : (if i + 2 <? nsteps then aget (aset (bfire s) (offset + i * step) (blurred i)) (offset + i * step + 2 * step) else 0) = sample (i + 2)).
  { unfold sample. rewrite (proj2 (Z.leb_le 0 (i + 2))) by lia. cbn [andb]. destruct (Z.ltb_spec (i + 2) nsteps); [|reflexivity].
    replace (offset + i * step + 2 * step) with (offset + (i + 2) * step) by lia. rewrite aget_aset_ne by nia. apply Hrest. intros k Hk. nia. }
  rewrite Hv. assert (Hr : Z.rem (i + 1 + 2) 3 = i mod 3) by (rewrite Z.rem_mod_nonneg by lia; replace (i + 1 + 2) with (i + 1 * 3) by lia; apply Z.mod_add; lia).
  rewrite Hr. pose proof (ring_ne i) as [N1 N2]. pose proof (Z.mod_pos_bound i 3 ltac:(lia)).
  unfold blur_at. cbn [beg boffset circ bfire].
  split; [unfold u8; rewrite Z.mod_small; lia|]. split; [lia|]. split; [now rewrite alen_aset|]. split; [now rewrite alen_aset|].
  replace (i + 1 - 1) with i by lia. replace (i + 1 + 1) with (i + 2) by lia.
  split; [now rewrite aget_aset_ne by congruence|]. split; [now rewrite aget_aset_ne by congruence|].
  split; [replace ((i + 1 + 2) mod 3) with (i mod 3) by (rewrite <- Hr; rewrite Z.rem_mod_nonneg by lia; reflexivity); replace (i + 2) with (i + 1 + 1) by lia; apply aget_aset; lia|].
  split.
  - intros k Hk. destruct (Z.eq_dec k i) as [->|]; [now apply aget_aset|]. rewrite aget_aset_ne by nia. apply Hdone. lia.
  - intros c Hne. rewrite aget_aset_ne by (intros E; apply (Hne i); [lia|now symmetry]). apply Hrest. intros k Hk. apply Hne. lia.
Qed.

Lemma line_blur_ok : blur_at nsteps (for_range 0 nsteps (blur_body step nsteps) (mkblur [0; aget fire offset; aget fire (offset + step)] 1 offset fire)).
Proof.
  apply (for_range_ind blur_at); [lia| |intros i s Hi; now apply blur_step].
  unfold blur_at, sample. cbn [beg boffset circ bfire]. rewrite (proj2 (Z.ltb_lt 0 nsteps)), (proj2 (Z.ltb_lt (0 + 1) nsteps)) by lia.
  change (0 mod 3) with 0. change ((0 + 1) mod 3) with 1. change ((0 + 2) mod 3) with 2.
  repeat split; try lia.
  - change (aget fire offset = aget fire (offset + 0 * step)). f_equal. lia.
  - change (aget fire (offset + step) = aget fire (offset + (0 + 1) * step)). f_equal. lia.
Qed.
End Blur.

(** The in-place blur with its three-entry ring computes the three-tap
    average of the line's original values, at every one of its [nsteps] cells (up to 254, the range of its
    byte counter), and changes no other cell. *)
Theorem line_blur_reference fire offset step nsteps : 2 <= nsteps <= 254 -> 0 < step -> 0 <= offset ->
  offset + (nsteps - 1) * step < alen fire -> (forall i, 0 <= i < alen fire -> 0 <= aget fire i < 256) ->
  (forall i, 0 <= i < nsteps -> aget (line_blur offset step nsteps fire) (offset + i * step) = blurred fire offset step nsteps i) /\
  (forall c, (forall i, 0 <= i < nsteps -> c <> offset + i * step) -> aget (line_blur offset step nsteps fire) c = aget fire c).
Proof.
  intros Hn Hs Ho He Hu. destruct (line_blur_ok fire offset step nsteps Hn Hs Ho He Hu) as (_ & _ & _ & _ & _ & _ & _ & H1 & H2). now split.
Qed.

Lemma line_blur_reference_witness :
  aget (line_blur 1 2 3 [9; 30; 9; 60; 9; 90; 9]) 3 = 60 /\ aget (line_blur 1 2 3 [9; 30; 9; 60; 9; 90; 9]) 4 = 9.
Proof.
  assert (Hu : forall i, 0 <= i < 7 -> 0 <= aget [9; 30; 9; 60; 9; 90; 9] i < 256).
  { intros i Hi. assert (i = 0 \/ i = 1 \/ i = 2 \/ i = 3 \/ i = 4 \/ i = 5 \/ i = 6) as H by lia. destruct H as [-> |[-> |[-> |[-> |[-> |[-> | ->]]]]]]; split; vm_compute; congruence. }
  destruct (line_blur_reference [9; 30; 9; 60; 9; 90; 9] 1 2 3 ltac:(lia) ltac:(lia) ltac:(lia) ltac:(unfold alen; cbn [length]; lia) Hu) as [H1 H2].
  split; [exact (H1 1 ltac:(lia))|apply H2; lia].
Defined.

(** ** Theorems: random numbers *)

Definition seeds_ok (seeds : list Z) : Prop := alen seeds = 2 /\ forall c, 0 <= c < 2 -> 0 <= aget seeds c < 714025.

(** Core 0 and core 1 stay inside the table, and their seeds inside its range. *)
Lemma myrand_ok cid seeds : 0 <= cid < 2 -> seeds_ok seeds ->
  exists r seeds', myrand cid seeds = Some (r, seeds') /\ 0 <= r < 714025 /\ seeds_ok seeds' /\
    r = (aget seeds cid * 1366 + 150889) mod 714025.
Proof.
  intros Hc [Hlen Hs]. pose proof (Hs cid Hc) as Hv. unfold myrand. rewrite Hlen, (proj2 (Z.leb_le 0 cid)), (proj2 (Z.ltb_lt cid 2)) by lia.
  cbn [andb]. rewrite (s64_id (aget seeds cid * 1366)), s64_id by (unfold is_s64; lia). rewrite Z.rem_mod_nonneg by lia.
  pose proof (Z.mod_pos_bound (aget seeds cid * 1366 + 150889) 714025 ltac:(lia)) as Hm. rewrite s32_id by (unfold is_s32; lia).
  eexists _, _. split; [reflexivity|]. split; [exact Hm|]. split; [|reflexivity]. split; [now rewrite alen_aset|].
  intros c Hc'. destruct (Z.eq_dec c cid) as [->|]; [rewrite aget_aset by lia; exact Hm|]. rewrite aget_aset_ne by congruence. now apply Hs.
Qed.

(** The cooling and heating loops of cores 0 and 1 are defined. *)
Lemma cool_two_cores cid nc seeds fire : 0 <= cid < 2 -> 0 < nc -> cid < nc -> seeds_ok seeds ->
  exists seeds' fire', cool cid nc (Some (seeds, fire)) = Some (seeds', fire') /\ seeds_ok seeds'.
Proof.
  intros Hc Hnc Hlt Hs. unfold cool, share.
  assert (Hle : cid * Z.quot (GL_width * GL_height) nc <= (if cid =? nc - 1 then GL_width * GL_height else cid * Z.quot (GL_width * GL_height) nc + Z.quot (GL_width * GL_height) nc)).
  { rewrite Z.quot_div_nonneg by (unfold GL_width, GL_height; lia). pose proof (Z.mul_div_le (GL_width * GL_height) nc Hnc).
    pose proof (Z.div_pos (GL_width * GL_height) nc ltac:(unfold GL_width, GL_height; lia) Hnc). destruct (_ =? _); nia. }
  refine (for_range_ind (fun _ s => exists seeds' fire', s = Some (seeds', fire') /\ seeds_ok seeds') _ _ _ _ Hle _ _); [eauto|].
  intros i s _ (sd & f & -> & Hsd). destruct (myrand_ok cid sd Hc Hsd) as (r & sd' & E & _ & Hsd' & _). unfold cool_pixel. cbn [mbind option_bind]. rewrite E. cbn. eauto.
Qed.

Lemma cool_none cid lo hi : for_range lo hi (cool_pixel cid) None = None.
Proof.
  destruct (Z.le_gt_cases lo hi); [|apply for_range_empty; lia].
  apply (for_range_ind (fun _ s => s = None)); [assumption|reflexivity|]. now intros i s _ ->.
Qed.

(** With four cores, the default build, cores 2 and 3 index the two-entry seed table out of
    bounds on their first random number; cores 0 and 1 never do, in any number of frames. *)
Theorem fire_seed_bounds cid nc seeds fire : 0 <= cid < nc -> seeds_ok seeds ->
  (cid < 2 -> exists seeds' fire', cool cid nc (Some (seeds, fire)) = Some (seeds', fire') /\ seeds_ok seeds') /\
  (2 <= cid -> nc = 4 -> cool cid nc (Some (seeds, fire)) = None).
Proof.
  intros Hc Hs. split; [intros Hlt; apply cool_two_cores; try assumption; lia|]. intros Hge ->.
  assert (H1 : forall lo hi, lo < hi -> for_range lo hi (cool_pixel cid) (Some (seeds, fire)) = None).
  { intros lo hi Hlt. rewrite for_range_step by assumption. unfold cool_pixel at 2. cbn [mbind option_bind]. unfold myrand.
    destruct Hs as [Hlen _]. rewrite Hlen, (proj2 (Z.ltb_ge cid 2)), andb_false_r by lia. cbn. apply cool_none. }
  unfold cool, share. change (Z.quot (GL_width * GL_height) 4) with 1000. apply H1.
  destruct (Z.eqb_spec cid (4 - 1)); unfold GL_width, GL_height; lia.
Qed.

Lemma fire_seed_bounds_witness : cool 3 4 (Some (randomseed0, replicate 4000 0)) = None.
Proof.
  apply (fire_seed_bounds 3 4 randomseed0 (replicate 4000 0)); [lia| |lia|reflexivity].
  split; [reflexivity|]. intros c Hc. assert (c = 0 \/ c = 1) as [-> | ->] by lia; split; vm_compute; congruence.
Defined.

(** ** Theorems: scrolling *)

Lemma alen_scroll l fire : alen (exec scroll_pixel l fire) = alen fire.
Proof. apply alen_exec. intros [j i] a. apply alen_aset. Qed.

(** The cells of row [j - 1] become those of row [j]. *)
Definition cell_after (j n c : Z) : Z := if (c / GL_width =? j - 1) && (c mod GL_width <? n) then c + GL_width else c.

Lemma row_scrolled_upto j fire n : 1 <= j < GL_height -> alen fire = GL_width * GL_height -> 0 <= n <= GL_width ->
  forall c, 0 <= c < GL_width * GL_height ->
  aget (for_range 0 n (fun i f => scroll_pixel (j, i) f) fire) c = aget fire (cell_after j n c).
Proof.
  intros Hj Hlen Hn. assert (H : let f := for_range 0 n (fun i f => scroll_pixel (j, i) f) fire in
    alen f = GL_width * GL_height /\ forall c, 0 <= c < GL_width * GL_height -> aget f c = aget fire (cell_after j n c)); [|apply H].
  apply (for_range_ind (fun n f => alen f = GL_width * GL_height /\ forall c, 0 <= c < GL_width * GL_height -> aget f c = aget fire (cell_after j n c))); [lia| |].
  - split; [exact Hlen|]. intros c Hc. unfold cell_after. rewrite (proj2 (Z.ltb_ge _ 0)), andb_false_r; [reflexivity|]. apply Z.mod_pos_bound. reflexivity.
  - unfold GL_width, GL_height in *. intros i f Hi [Hf Hfc]. split; [unfold scroll_pixel; now rewrite alen_aset|]. intros c Hc. unfold scroll_pixel.
    unfold GL_width. destruct (Z.eq_dec c (i + (j - 1) * 80)) as [->|Hne].
    + rewrite aget_aset by lia. rewrite Hfc by lia. unfold cell_after, GL_width. rewrite !Z.div_add, !Z.mod_add, (Z.div_small i), (Z.mod_small i) by lia.
      rewrite (proj2 (Z.eqb_neq (0 + j) (j - 1))), (proj2 (Z.eqb_eq (0 + (j - 1)) (j - 1))), (proj2 (Z.ltb_lt i (i + 1))) by lia. cbn [andb]. f_equal. lia.
    + rewrite aget_aset_ne by congruence. rewrite Hfc by assumption. f_equal. unfold cell_after, GL_width.
      pose proof (Z.div_mod c 80 ltac:(lia)). case_bools; cbn [andb]; try reflexivity; lia.
Qed.

Lemma row_scrolled j fire c : 1 <= j < GL_height -> alen fire = GL_width * GL_height -> 0 <= c < GL_width * GL_height ->
  aget (exec scroll_pixel (map (pair j) (zrange 0 GL_width)) fire) c = aget fire (if c / GL_width =? j - 1 then c + GL_width else c).
Proof.
  intros Hj Hlen Hc. rewrite exec_map, <- for_range_exec. rewrite row_scrolled_upto by (assumption || (unfold GL_width; lia)).
  unfold cell_after. rewrite (proj2 (Z.ltb_lt _ _)) by (apply Z.mod_pos_bound; reflexivity). now rewrite andb_true_r.
Qed.

(** The rows [lo, hi) copied up in order: every row of them moves up by one. *)
Definition rows (lo hi : Z) : list (Z * Z) := flat_map (fun j => map (pair j) (zrange 0 GL_width)) (zrange lo hi).
Lemma rows_scrolled lo hi fire c : 1 <= lo <= hi -> hi <= GL_height -> alen fire = GL_width * GL_height -> 0 <= c < GL_width * GL_height ->
  aget (exec scroll_pixel (rows lo hi) fire) c = aget fire (if (lo - 1 <=? c / GL_width) && (c / GL_width <? hi - 1) then c + GL_width else c).
Proof.
  intros Hlo Hhi Hlen Hc. unfold rows. rewrite exec_flat_map, <- for_range_exec.
  set (body := fun j f => exec scroll_pixel (map (pair j) (zrange 0 GL_width)) f).
  assert (H : alen (for_range lo hi body fire) = GL_width * GL_height /\ forall c, 0 <= c < GL_width * GL_height ->
    aget (for_range lo hi body fire) c = aget fire (if (lo - 1 <=? c / GL_width) && (c / GL_width <? hi - 1) then c + GL_width else c)); [|now apply H].
  apply (for_range_ind (fun hi f => alen f = GL_width * GL_height /\ forall c, 0 <= c < GL_width * GL_height ->
    aget f c = aget fire (if (lo - 1 <=? c / GL_width) && (c / GL_width <? hi - 1) then c + GL_width else c))); [lia| |].
  - split; [exact Hlen|]. intros d Hd. case_bools; cbn [andb]; try reflexivity; lia.
  - intros j f Hj [Hf Hfc]. split; [unfold body; now rewrite alen_scroll|]. intros d Hd. unfold body. rewrite row_scrolled by (assumption || lia).
    unfold GL_width, GL_height in *. pose proof (Z.div_pos d 80 ltac:(lia) ltac:(lia)). destruct (Z.eqb_spec (d / 80) (j - 1)) as [E|E].
    + pose proof (Z.div_mod d 80 ltac:(lia)). pose proof (Z.mod_pos_bound d 80 ltac:(lia)). rewrite Hfc by lia.
      replace ((d + 80) / 80) with j by (replace (d + 80) with (d + 1 * 80) by lia; rewrite Z.div_add by lia; lia).
      f_equal. rewrite E. case_bools; cbn [andb]; try reflexivity; lia.
    + rewrite Hfc by assumption. f_equal. case_bools; cbn [andb]; try reflexivity; lia.
Qed.

(** *** The order of the copies *)

(** [a] comes before [b] in [l]. *)
Definition before (a b : Z * Z) (l : list (Z * Z)) : Prop := exists l1 l2 l3, l = l1 ++ a :: l2 ++ b :: l3.

Lemma before_app_l a b l r : before a b l -> before a b (l ++ r).
Proof. intros (x & y & z & ->). exists x, y, (z ++ r). rewrite <- app_assoc. cbn [app]. now rewrite <- app_assoc. Qed.
Lemma before_across a b l r : a ∈ l -> b ∈ r -> before a b (l ++ r).
Proof.
  intros (x & y & ->)%list_elem_of_split (z & t & ->)%list_elem_of_split. exists x, (y ++ z), t.
  rewrite <- app_assoc. cbn [app]. now rewrite <- app_assoc.
Qed.
Lemma before_elem a b l : before a b l -> a ∈ l /\ b ∈ l.
Proof. intros (x & y & z & ->). split; set_solver. Qed.
Lemma before_filter (f : Z * Z -> bool) a b l : f a = true -> f b = true -> before a b l -> before a b (List.filter f l).
Proof.
  intros Ha Hb (x & y & z & ->). exists (List.filter f x), (List.filter f y), (List.filter f z).
  rewrite List.filter_app. cbn [List.filter]. rewrite Ha, List.filter_app. cbn [List.filter]. now rewrite Hb.
Qed.
Lemma before_prefix a b l r : NoDup (l ++ r) -> b ∈ l -> before a b (l ++ r) -> before a b l.
Proof.
  induction l as [|h l IH]; intros Hnd Hb (x & y & z & E); [now apply elem_of_nil in Hb|].
  cbn [app] in *. apply NoDup_cons in Hnd as [Hh Hnd]. destruct x as [|h' x]; injection E as -> E.
  - apply elem_of_cons in Hb as [->|Hb]; [exfalso; apply Hh; rewrite E; set_solver|].
    apply list_elem_of_split in Hb as (u & v & ->). now exists [], u, v.
  - apply elem_of_cons in Hb as [->|Hb]; [exfalso; apply Hh; rewrite E; set_solver|].
    destruct (IH Hnd Hb) as (u & v & w & ->); [now exists x, y, z|]. now exists (h' :: u), v, w.
Qed.
Lemma before_here a b l r : NoDup (l ++ b :: r) -> a <> b -> before a b (l ++ b :: r) -> a ∈ l.
Proof.
  intros Hnd Hne Hb. change (b :: r) with ([b] ++ r) in *. rewrite app_assoc in *.
  apply before_prefix in Hb; [|exact Hnd|set_solver]. apply before_elem in Hb as [Ha _]. set_solver.
Qed.
Lemma before_app a b l r : before a b (l ++ r) -> before a b l \/ before a b r \/ (a ∈ l /\ b ∈ r).
Proof.
  intros (x & y & z & E). apply app_eq_inv in E as [(k & El & Er)|(k & Ex & Er)].
  - destruct k as [|h k]; cbn [app] in Er; [right; left; rewrite <- Er; now exists [], y, z|]. injection Er as <- Er.
    apply app_eq_inv in Er as [(k' & Ey & Er)|(k' & Ek & Er)].
    + right. right. split; [rewrite El; set_solver|rewrite Er; set_solver].
    + destruct k' as [|h' k']; cbn [app] in Er; [rewrite <- Er; right; right; split; [rewrite El; set_solver|left]|].
      injection Er as <- _. left. exists x, y, k'. now rewrite El, Ek.
  - right. left. rewrite Er. now exists k, y, z.
Qed.

Lemma elem_of_rows p lo hi : p ∈ rows lo hi <-> lo <= p.1 < hi /\ 0 <= p.2 < GL_width.
Proof.
  unfold rows. rewrite list_elem_of_In, in_flat_map. split.
  - intros (j & Hj & Hp). apply in_map_iff in Hp as (i & <- & Hi). rewrite in_zrange in *. now split.
  - destruct p as [j i]. cbn [fst snd]. intros [Hj Hi]. exists j. split; [now apply in_zrange|]. apply in_map_iff. exists i. split; [reflexivity|now apply in_zrange].
Qed.
Lemma rows_split lo mid hi : lo <= mid <= hi -> rows lo hi = rows lo mid ++ rows mid hi.
Proof. intros H. unfold rows. now rewrite (zrange_split lo mid hi H), flat_map_app. Qed.
Lemma rows_step lo hi : lo < hi -> rows lo hi = map (pair lo) (zrange 0 GL_width) ++ rows (lo + 1) hi.
Proof. intros H. unfold rows. now rewrite (zrange_step lo hi H). Qed.
(** The rows are in order, also when seen through a test. *)
Lemma rows_filtered_in_order (f : Z * Z -> bool) a b lo hi : before a b (List.filter f (rows lo hi)) -> a.1 <= b.1.
Proof.
  remember (Z.to_nat (hi - lo)) as n eqn:En. revert lo En. induction n as [|n IH]; intros lo En Hb.
  - unfold rows in Hb. rewrite (zrange_empty lo hi) in Hb by lia. apply before_elem in Hb as [Ha _]. now apply elem_of_nil in Ha.
  - rewrite rows_step, List.filter_app in Hb by lia.
    assert (Hr : forall p : Z * Z, p ∈ List.filter f (map (pair lo) (zrange 0 GL_width)) -> p.1 = lo)
      by (intros p Hp; apply list_elem_of_In, filter_In in Hp as [Hp _]; apply in_map_iff in Hp as (i & <- & _); reflexivity).
    apply before_app in Hb as [Hb|[Hb|[Ha Hb]]].
    + apply before_elem in Hb as [Ha Hb]. rewrite (Hr _ Ha), (Hr _ Hb). lia.
    + apply (IH (lo + 1)); [lia|exact Hb].
    + rewrite (Hr _ Ha). apply list_elem_of_In, filter_In in Hb as [Hb _]. apply list_elem_of_In, elem_of_rows in Hb. lia.
Qed.
Lemma rows_in_order a b lo hi : before a b (rows lo hi) -> a.1 <= b.1.
Proof. intros Hb. apply (rows_filtered_in_order (fun _ => true) a b lo hi). now apply before_filter. Qed.
Lemma NoDup_rows lo hi : NoDup (rows lo hi).
Proof.
  remember (Z.to_nat (hi - lo)) as n eqn:En. revert lo En. induction n as [|n IH]; intros lo En.
  - unfold rows. rewrite (zrange_empty lo hi) by lia. constructor.
  - rewrite rows_step by lia. apply NoDup_app. split; [apply NoDup_fmap_2; [congruence|apply NoDup_zrange]|]. split; [|apply IH; lia].
    intros p Hp%list_elem_of_In Hq. apply in_map_iff in Hp as (i & <- & _). apply elem_of_rows in Hq. cbn in Hq. lia.
Qed.

(** A copy changes one cell, which no other copy changes. *)
Lemma exec_scroll_other l f j i : (j, i) ∉ l -> 0 <= i < GL_width -> Forall (fun p => 1 <= p.1 < GL_height /\ 0 <= p.2 < GL_width) l ->
  aget (exec scroll_pixel l f) (i + (j - 1) * GL_width) = aget f (i + (j - 1) * GL_width).
Proof.
  intros Hn Hi Hl. revert f. induction Hl as [|[u v] l [Hu Hv] _ IH]; intros f; [reflexivity|]. cbn [fst snd] in *.
  change (exec scroll_pixel ((u, v) :: l) f) with (exec scroll_pixel l (scroll_pixel (u, v) f)). rewrite IH by set_solver.
  apply aget_aset_ne. intros E. apply Hn. assert (j = u /\ i = v) as [-> ->] by (unfold GL_width in *; lia). left.
Qed.

(** What the row above row [j] receives: the first row from [j] on whose copy was not overtaken. *)
Definition overtaken (l : list (Z * Z)) (j i : Z) : Prop := before (j + 1, i) (j, i) l.

Lemma scroll_source n : forall l f j i, (List.length l <= n)%nat -> NoDup l -> Forall (fun p => 1 <= p.1 < GL_height /\ 0 <= p.2 < GL_width) l ->
  alen f = GL_width * GL_height -> (j, i) ∈ l ->
  exists k, j <= k /\ (k, i) ∈ l /\ ~ overtaken l k i /\ (forall m, j <= m < k -> overtaken l m i) /\
    aget (exec scroll_pixel l f) (i + (j - 1) * GL_width) = aget f (i + k * GL_width).
Proof.
  induction n as [|n IH]; intros l f j i Hlen Hnd Hl Hf Hj; [destruct l; [now apply elem_of_nil in Hj|cbn in Hlen; lia]|].
  apply list_elem_of_split in Hj as (l1 & l2 & ->). pose proof Hl as Hl0. apply Forall_app in Hl0 as [Hl1 Hl2]. apply Forall_cons in Hl2 as [[Hj Hi] Hl2]. cbn [fst snd] in Hj, Hi.
  pose proof Hnd as Hnd0. apply NoDup_app in Hnd0 as (Hnd1 & Hd & Hnd2). apply NoDup_cons in Hnd2 as [Hn2 _].
  set (L := l1 ++ (j, i) :: l2) in *.
  assert (Hpt : aget (exec scroll_pixel L f) (i + (j - 1) * GL_width) = aget (exec scroll_pixel l1 f) (i + j * GL_width)).
  { unfold L. rewrite exec_app. change (exec scroll_pixel ((j, i) :: l2) ?g) with (exec scroll_pixel l2 (scroll_pixel (j, i) g)).
    rewrite exec_scroll_other by assumption. apply aget_aset. rewrite alen_scroll, Hf. unfold GL_width, GL_height in *. lia. }
  rewrite Hpt. replace (i + j * GL_width) with (i + (j + 1 - 1) * GL_width) by lia.
  destruct (decide ((j + 1, i) ∈ l1)) as [Hin|Hnin].
  - destruct (IH l1 f (j + 1) i) as (k & Hk & Hkin & Hno & Hov & Hv); [unfold L in Hlen; rewrite length_app in Hlen; cbn [List.length] in Hlen; lia|assumption..|].
    exists k. split; [lia|]. split; [unfold L; set_solver|]. split.
    + intros Hb. apply Hno. unfold overtaken, L in *. eapply before_prefix; [exact Hnd|exact Hkin|exact Hb].
    + split; [|exact Hv]. intros m Hm. destruct (Z.eq_dec m j) as [->|]; [apply before_across; [exact Hin|left]|apply before_app_l, Hov; lia].
  - exists j. split; [lia|]. split; [unfold L; set_solver|]. split; [|split; [lia|]].
    + intros Hb. apply Hnin. eapply before_here; [exact Hnd|intros E; injection E; lia|exact Hb].
    + rewrite exec_scroll_other by assumption. f_equal. lia.
Qed.

(** *** The programs of the cores *)

Definition scrolls (nc : Z) : list (list (Z * Z)) := map (fun cid => scroll cid nc) (zrange 0 nc).
(** The last row of a core that is not the last. *)
Definition last_row (cid nc : Z) : Z := (cid + 1) * Z.quot (GL_height - 1) nc.
Definition end_row (cid nc : Z) : Z := if cid =? nc - 1 then GL_height else last_row cid nc + 1.

Lemma scroll_rows cid nc : scroll cid nc = rows (cid * Z.quot (GL_height - 1) nc + 1) (end_row cid nc).
Proof. unfold scroll, rows, end_row, last_row. destruct (cid =? nc - 1); [reflexivity|]. do 2 f_equal. lia. Qed.

Lemma scrolls_concat nc : 0 < nc -> concat (scrolls nc) = rows 1 GL_height.
Proof.
  intros Hnc. set (q := Z.quot (GL_height - 1) nc).
  assert (Hq : 0 <= q /\ q * nc <= GL_height - 1).
  { subst q. rewrite Z.quot_div_nonneg by (unfold GL_height; lia). split; [apply Z.div_pos; unfold GL_height; lia|]. rewrite Z.mul_comm. apply Z.mul_div_le. lia. }
  assert (H : forall n, Z.of_nat n < nc -> concat (map (fun cid => scroll cid nc) (zrange 0 (Z.of_nat n))) = rows 1 (Z.of_nat n * q + 1)).
  { induction n as [|n IH]; intros Hn; [reflexivity|]. rewrite (zrange_split 0 (Z.of_nat n)), map_app, concat_app, IH by lia.
    replace (zrange (Z.of_nat n) (Z.of_nat (S n))) with [Z.of_nat n] by (rewrite zrange_step, zrange_empty by lia; reflexivity).
    cbn [map concat]. rewrite app_nil_r, scroll_rows. unfold end_row, last_row. fold q. destruct (Z.eqb_spec (Z.of_nat n) (nc - 1)); [lia|].
    rewrite <- rows_split by nia. f_equal. lia. }
  unfold scrolls. rewrite (zrange_split 0 (nc - 1)), map_app, concat_app by lia. replace (nc - 1) with (Z.of_nat (Z.to_nat (nc - 1))) at 1 by lia.
  rewrite H by lia. rewrite (zrange_step (nc - 1)), (zrange_empty (nc - 1 + 1)) by lia. cbn [map concat]. rewrite app_nil_r, scroll_rows.
  unfold end_row. rewrite Z.eqb_refl. fold q. replace (Z.of_nat (Z.to_nat (nc - 1))) with (nc - 1) by lia. symmetry. apply rows_split. unfold GL_height in *. nia.
Qed.

Lemma scrolls_lookup nc k : 0 <= k < nc -> scrolls nc !! Z.to_nat k = Some (scroll k nc).
Proof.
  intros Hk. unfold scrolls, zrange. rewrite map_map. change (map ?g ?l) with (g <$> l). rewrite list_lookup_fmap, lookup_seq_lt by lia.
  cbn. now rewrite Z2Nat.id by lia.
Qed.
Lemma scrolls_lookup_inv nc k p : scrolls nc !! k = Some p -> Z.of_nat k < nc /\ p = scroll (Z.of_nat k) nc.
Proof.
  unfold scrolls, zrange. rewrite map_map. change (map ?g ?l) with (g <$> l). rewrite list_lookup_fmap. intros E.
  destruct (seq 0 (Z.to_nat (nc - 0)) !! k) as [m|] eqn:Em; [|discriminate]. apply lookup_seq in Em as [-> Hm]. injection E as <-. split; [lia|reflexivity].
Qed.

(** Two rows of one core keep their order in every interleaving. *)
Lemma core_in_order nc l cid a b : interleaving (scrolls nc) l -> 0 <= cid < nc ->
  a ∈ scroll cid nc -> b ∈ scroll cid nc -> before a b l -> a.1 <= b.1.
Proof.
  intros Hl Hc Ha Hb Hab. set (f := fun p : Z * Z => bool_decide (p = a \/ p = b)).
  apply (before_filter f) in Hab; [|apply bool_decide_true; auto..].
  rewrite (interleaving_filter f _ _ Hl (Z.to_nat cid) (scroll cid nc)) in Hab; [|now apply scrolls_lookup|].
  - rewrite scroll_rows in Hab. exact (rows_filtered_in_order _ _ _ _ _ Hab).
  - intros k p Hk Hp o Ho. apply bool_decide_false. apply scrolls_lookup_inv in Hp as [Hk2 ->].
    assert (Hd : forall q, q ∈ scroll cid nc -> q ∉ scroll (Z.of_nat k) nc).
    { intros q Hq Hq'. rewrite scroll_rows, elem_of_rows in Hq, Hq'. unfold end_row, last_row in *.
      assert (0 <= Z.quot (GL_height - 1) nc) by (rewrite Z.quot_div_nonneg by (unfold GL_height; lia); apply Z.div_pos; unfold GL_height; lia).
      destruct (Z.eqb_spec cid (nc - 1)), (Z.eqb_spec (Z.of_nat k) (nc - 1)); nia. }
    apply list_elem_of_In in Ho. intros [-> | ->]; [apply (Hd a)|apply (Hd b)]; assumption.
Qed.

Lemma overtaken_boundary nc l j i : 0 < nc < GL_height -> interleaving (scrolls nc) l -> overtaken l j i ->
  exists cid, 0 <= cid < nc - 1 /\ j = last_row cid nc.
Proof.
  intros Hnc Hl Hov. pose proof (interleaving_perm _ _ Hl) as Hp. pose proof (scrolls_concat nc ltac:(lia)) as Hcat.
  pose proof (before_elem _ _ _ Hov) as [Ha Hb]. rewrite Hp, Hcat, elem_of_rows in Ha, Hb. cbn [fst snd] in Ha, Hb.
  set (q := Z.quot (GL_height - 1) nc).
  assert (Hq : 1 <= q /\ q * nc <= GL_height - 1).
  { subst q. rewrite Z.quot_div_nonneg by (unfold GL_height; lia). split; [apply Z.div_le_lower_bound; lia|]. rewrite Z.mul_comm. apply Z.mul_div_le. lia. }
  set (cid := Z.min ((j - 1) / q) (nc - 1)).
  assert (Hd : q * ((j - 1) / q) <= j - 1 < q * ((j - 1) / q) + q) by (pose proof (Z.mul_div_le (j - 1) q); pose proof (Z.mul_succ_div_gt (j - 1) q); lia).
  assert (0 <= (j - 1) / q) by (apply Z.div_pos; lia). assert (Hc : 0 <= cid < nc) by lia.
  destruct (Z.eq_dec cid (nc - 1)) as [E|Hne].
  - exfalso. apply (core_in_order nc l cid _ _ Hl Hc) in Hov; [cbn in Hov; lia|..];
      rewrite scroll_rows, elem_of_rows; cbn [fst snd]; unfold end_row; rewrite E, Z.eqb_refl; fold q; nia.
  - assert (Ec : cid = (j - 1) / q) by lia. destruct (Z.eq_dec j (last_row cid nc)) as [Ej|Hnj]; [exists cid; split; [lia|exact Ej]|].
    exfalso. unfold last_row in Hnj. fold q in Hnj.
    apply (core_in_order nc l cid _ _ Hl Hc) in Hov; [cbn in Hov; lia|..];
      rewrite scroll_rows, elem_of_rows; cbn [fst snd]; unfold end_row, last_row; fold q; destruct (Z.eqb_spec cid (nc - 1)); try lia; rewrite Ec in *; nia.
Qed.

(** The next core may run its rows first. *)
Lemma overtaking_exists nc cid : 0 < nc < GL_height -> 0 <= cid < nc - 1 ->
  exists l, interleaving (scrolls nc) l /\ forall i, 0 <= i < GL_width -> overtaken l (last_row cid nc) i.
Proof.
  intros Hnc Hc. set (q := Z.quot (GL_height - 1) nc).
  assert (Hq : 1 <= q /\ q * nc <= GL_height - 1).
  { subst q. rewrite Z.quot_div_nonneg by (unfold GL_height; lia). split; [apply Z.div_le_lower_bound; lia|]. rewrite Z.mul_comm. apply Z.mul_div_le. lia. }
  exists (scroll (cid + 1) nc ++ concat (<[Z.to_nat (cid + 1) := []]> (scrolls nc))). split.
  - apply (interleaving_front (Z.to_nat (cid + 1))); [apply scrolls_lookup; lia|apply interleaving_concat].
  - intros i Hi. apply before_across.
    + rewrite scroll_rows, elem_of_rows. unfold end_row, last_row. fold q. cbn [fst snd]. split; [|exact Hi].
      destruct (Z.eqb_spec (cid + 1) (nc - 1)); [|nia]. split; [lia|]. unfold GL_height in *. nia.
    + apply list_elem_of_In, in_concat. exists (scroll cid nc). split.
      * apply list_elem_of_In, (list_elem_of_lookup_2 _ (Z.to_nat cid)). rewrite list_lookup_insert_ne by lia. apply scrolls_lookup. lia.
      * apply list_elem_of_In. rewrite scroll_rows, elem_of_rows. unfold end_row, last_row. fold q. cbn [fst snd]. split; [|exact Hi].
        destruct (Z.eqb_spec cid (nc - 1)); nia.
Qed.

(** C20: The scrolling phase, for any number of cores and any interleaving of their copies. The
    cell above row [j] receives its column of the first row from [j] on whose copy was not
    overtaken by the copy of the row below it; so a row that is overtaken is lost, and the image
    moves up by one exactly where none is. Only the last row of a core that is not the last can be
    overtaken; in core order none is, and for every such core there is an interleaving in which its
    last row is overtaken in every column: the phase has a data race. *)
Theorem fire_scroll_race nc : 0 < nc < GL_height ->
  (forall l fire j i, interleaving (scrolls nc) l -> alen fire = GL_width * GL_height -> 1 <= j < GL_height -> 0 <= i < GL_width ->
    (exists k, j <= k < GL_height /\ ~ overtaken l k i /\ (forall m, j <= m < k -> overtaken l m i) /\
      aget (exec scroll_pixel l fire) (i + (j - 1) * GL_width) = aget fire (i + k * GL_width)) /\
    (overtaken l j i -> exists cid, 0 <= cid < nc - 1 /\ j = last_row cid nc)) /\
  (forall j i, ~ overtaken (concat (scrolls nc)) j i) /\
  (forall cid, 0 <= cid < nc - 1 -> exists l, interleaving (scrolls nc) l /\ forall i, 0 <= i < GL_width -> overtaken l (last_row cid nc) i).
Proof.
  intros Hnc. pose proof (scrolls_concat nc ltac:(lia)) as Hcat. split; [|split].
  - intros l fire j i Hl Hf Hj Hi. pose proof (interleaving_perm _ _ Hl) as Hp. rewrite Hcat in Hp.
    assert (Hnd : NoDup l) by (rewrite Hp; apply NoDup_rows).
    assert (Hin : forall p, p ∈ l <-> 1 <= p.1 < GL_height /\ 0 <= p.2 < GL_width) by (intros p; rewrite Hp; apply elem_of_rows).
    split.
    + destruct (scroll_source (List.length l) l fire j i) as (k & Hk & Hkin & Hrest); [lia|exact Hnd|apply Forall_forall; intros p; apply Hin|exact Hf|now apply Hin|].
      exists k. split; [|exact Hrest]. apply Hin in Hkin. cbn in Hkin. lia.
    + intros Hov. apply (overtaken_boundary nc l j i); assumption || lia.
  - intros j i Hov. unfold overtaken in Hov. rewrite Hcat in Hov. apply rows_in_order in Hov. cbn in Hov. lia.
  - intros cid Hc. apply overtaking_exists; lia.
Qed.

(** Two cores: core order moves row 24 up; when core 1 goes first its copy overtakes and row 24 is lost. *)
Lemma fire_scroll_race_witness :
  (forall fire i, alen fire = GL_width * GL_height -> 0 <= i < GL_width ->
    aget (exec scroll_pixel (concat (scrolls 2)) fire) (i + 23 * GL_width) = aget fire (i + 24 * GL_width)) /\
  exists l, interleaving (scrolls 2) l /\ overtaken l 24 7.
Proof.
  destruct (fire_scroll_race 2 ltac:(split; reflexivity)) as (H1 & H2 & H3). split.
  - intros fire i Hf Hi. destruct (H1 _ fire 24 i (interleaving_concat _) Hf ltac:(split; [discriminate|reflexivity]) Hi) as [(k & Hk & Hno & Hov & Hv) _].
    destruct (Z.eq_dec k 24) as [->|]; [exact Hv|]. exfalso. apply (H2 24 i), Hov. lia.
  - destruct (H3 0 ltac:(split; [discriminate|reflexivity])) as (l & Hl & Hov). exists l. split; [exact Hl|].
    apply (Hov 7). split; [discriminate|reflexivity].
Defined.
