(* ===== verification/Rtl.v ===== *)
(** * The driver around the Verilated core: class [simulator] of [sim/rtl/rtl_model.h]

    The Verilated class [Vsystem] is generated from the Scala sources. Here it
    is a record of the ports the drivers touch, with the internal state and the
    function [eval] as parameters (classes [Verilated] and [Model]); what a
    driver can observe of the core is what [eval] puts on the ports.

    [simulator] is the driver: bring-up and image loading, the clock, the
    commit-stepping functions, the register read-out, the UART edge detector.
    The theorems characterise [step_until_commits] completely, and show that
    each write on a console port is printed exactly once. *)

From S2P Require Import Prelude.

(** ** The generated model *)

(** What the drivers read from core [n]: the ports [robOut<n>_*],
    [registersOut<n>_*], [core<n>OutChar_*], [perfCountersOut<n>_*] and the CLINT
    and CSR nets [rtl_model.h] wraps. *)
Record core_ports := {
  commitFired : Z; interrupt : Z; pc : Z;
  registersOut : Z -> Z;
  OutChar_valid : Z; OutChar_byte : Z;
  perfCountersOut : Z -> Z;
  msipShared : Z; mtimecmpShared : Z;
  decode_mepc : Z; decode_mtvec : Z; decode_mcause : Z }.

Class Verilated := internals : Type.

Record Vsystem `{Verilated} := {
  clock : Z; reset : Z;
  programmer_valid : Z; programmer_byte : Z; programmer_offset : Z; finishedProgramming : Z;
  prober_offset : Z; prober_accessLong : Z;
  hostInput_valid : Z; hostInput_char : Z; hostInputConsumed : Z;
  core0 : core_ports; core1 : core_ports; core2 : core_ports; core3 : core_ports;
  periph_mtime : Z;
  dram : vec;          (* one byte per cell; [vec_size] is [sizeof(memory)] *)
  state : internals }.

Class Model `{Verilated} := eval : Vsystem -> Vsystem.

Section Clock.
Context `{Model}.

Definition tick_nodump (tb : Vsystem) : Vsystem :=
  let tb := eval tb in
  let tb := eval { tb with clock := 1 } in
  eval { tb with clock := 0 }.

(** The [switch (n)] of the accessors: [default] is core 0. *)
Definition core (tb : Vsystem) (n : Z) : core_ports :=
  if n =? 1 then core1 tb else if n =? 2 then core2 tb else if n =? 3 then core3 tb else core0 tb.
End Clock.

(** [memcpy(&memory[base], bytes, size)] *)
Fixpoint memcpy (v : vec) (base : Z) (bytes : list Z) : vec :=
  match bytes with
  | [] => v
  | b :: l => memcpy (vec_put v base b) (base + 1) l
  end.

Lemma memcpy_get bytes : forall v base i, vec_get (memcpy v base bytes) i =
  if (base <=? i) && (i <? base + Z.of_nat (length bytes)) then default 0 (bytes !! Z.to_nat (i - base)) else vec_get v i.
Proof.
  induction bytes as [|b l IH]; intros v base i; cbn [memcpy length].
  - destruct (Z.leb_spec base i), (Z.ltb_spec i (base + Z.of_nat 0)); cbn [andb]; try reflexivity. lia.
  - rewrite IH, vec_get_put. case_decide as E.
    + subst i. destruct (Z.leb_spec (base + 1) base), (Z.leb_spec base base), (Z.ltb_spec base (base + Z.of_nat (S (length l))));
        cbn [andb]; try lia. rewrite Z.sub_diag. reflexivity.
    + destruct (Z.leb_spec (base + 1) i), (Z.leb_spec base i), (Z.ltb_spec i (base + 1 + Z.of_nat (length l))),
        (Z.ltb_spec i (base + Z.of_nat (S (length l)))); cbn [andb]; try lia; try reflexivity.
      replace (Z.to_nat (i - base)) with (S (Z.to_nat (i - (base + 1)))) by lia. reflexivity.
Qed.

Lemma memcpy_size bytes : forall v base, vec_size (memcpy v base bytes) = vec_size v.
Proof. induction bytes as [|b l IH]; intros; cbn [memcpy]; [reflexivity|]. rewrite IH. reflexivity. Qed.

(** ** The driver *)

(** [tfp] is the open VCD file, as the times of its dumps; [out] is standard
    output, as bytes; [mirrored] are the bytes handed to [tx_mirror]. *)
Record simulator `{Verilated} := {
  tx_mirror : bool; mirrored : list Z;
  prev_pc : Z; prev_hart : Z; last_commit_pc : list Z;
  tickcount : Z; dump_tick : Z;
  tb : Vsystem; tfp : option (list Z);
  tx_prev_valid : list bool;
  out : list Z }.

(** [SHOW_TERMINAL], [STEP_TIMEOUT] and [CHIRON_NO_TRACE] are set per binary. *)
Section Simulator.
Context `{Model} (SHOW_TERMINAL : bool) (STEP_TIMEOUT : nat) (CHIRON_NO_TRACE : bool).

Definition harts4 : list nat := [0; 1; 2; 3]%nat.

Definition simulator_new (tb : Vsystem) : simulator :=
  {| tx_mirror := false; mirrored := []; prev_pc := 0; prev_hart := 0; last_commit_pc := [0; 0; 0; 0];
     tickcount := 0; dump_tick := 0; tb := tb; tfp := None;
     tx_prev_valid := [false; false; false; false]; out := [] |}.

Definition cycles (s : simulator) : Z := u64 (tickcount s + dump_tick s).

(** *** The clock *)

Definition dump (t : Z) (s : simulator) : simulator :=
  match tfp s with Some l => { s with tfp := Some (l ++ [u32 t]) } | None => s end.
Definition sim_eval (s : simulator) : simulator := { s with tb ::= eval }.
Definition set_clock (v : Z) (s : simulator) : simulator := { s with tb -> clock := v }.

Definition tick (t : Z) (s : simulator) : simulator :=
  let s := dump (t * 10 - 2) (sim_eval s) in
  let s := dump (t * 10) (sim_eval (set_clock 1 s)) in
  dump (t * 10 + 5) (sim_eval (set_clock 0 s)).

(** [std::cout << b], and the mirror. *)
Definition emit (b : Z) (s : simulator) : simulator :=
  let s := { s with out ::= (fun l => l ++ [b]) } in
  if tx_mirror s then { s with mirrored ::= (fun l => l ++ [b]) } else s.
(** One port of the edge detector. *)
Definition tx_port (s : simulator) (p : nat) : simulator :=
  let v := negb (OutChar_valid (core (tb s) (Z.of_nat p)) =? 0) in
  let b := u8 (OutChar_byte (core (tb s) (Z.of_nat p))) in
  let s := if v && negb (default false (tx_prev_valid s !! p)) then emit b s else s in
  { s with tx_prev_valid ::= <[p := v]> }.
Definition surface_tx (s : simulator) : simulator := fold_left tx_port harts4 s.

Definition advance (dumping : bool) (s : simulator) : simulator :=
  let s := if dumping
           then let t := u32 (dump_tick s + 1) in tick t { s with dump_tick := t }
           else { { s with tickcount := u64 (tickcount s + 1) } with tb ::= tick_nodump } in
  if SHOW_TERMINAL then surface_tx s else s.

(** *** Accessors *)

Definition commit_fired (s : simulator) (n : Z) : bool := negb (commitFired (core (tb s) n) =? 0).
Definition commit_interrupt (s : simulator) (n : Z) : bool := negb (interrupt (core (tb s) n) =? 0).
Definition core_pc (s : simulator) (n : Z) : Z := pc (core (tb s) n).
Definition msip (s : simulator) (h : Z) : Z := Z.land (msipShared (core (tb s) h)) 1.
Definition mtime (s : simulator) : Z := periph_mtime (tb s).
Definition mtimecmp (s : simulator) (h : Z) : Z := mtimecmpShared (core (tb s) h).
Definition mepc (s : simulator) (h : Z) : Z := decode_mepc (core (tb s) h).
Definition mtvec (s : simulator) (h : Z) : Z := decode_mtvec (core (tb s) h).
Definition mcause (s : simulator) (h : Z) : Z := decode_mcause (core (tb s) h).

(** [reg(hart, i)] through the pointers bound by [bind_registers]. *)
Definition reg (s : simulator) (hart i : Z) : Z :=
  if (hart <? 0) || (3 <? hart) || (i <? 0) || (32 <? i) then 0
  else registersOut (core (tb s) hart) i.
Definition read_register := reg.

(** [check_registers(hart, correct, mstatus)]; [correct[i]] is not checked. *)
Fixpoint first_mismatch (s : simulator) (hart : Z) (correct : list Z) (i : Z) (n : nat) : option Z :=
  match n with
  | O => Some 0
  | S n =>
    match correct !! Z.to_nat i with
    | None => None
    | Some c => if reg s hart i =? c then first_mismatch s hart correct (i + 1) n else Some i
    end
  end.
Definition check_registers (s : simulator) (hart : Z) (correct : list Z) (mstatus : Z) : option Z :=
  match first_mismatch s hart correct 1 31 with
  | Some 0 => Some (if reg s hart 32 =? mstatus then 0 else 32)
  | r => r
  end.

(** [return_instruction] converts the PC to [int]; [return_registers] prints x0..x31. *)
Definition return_instruction (s : simulator) (hart : Z) : Z := s32 (core_pc s hart).
Definition return_registers (s : simulator) (hart : Z) : list Z := map (fun i => reg s hart (Z.of_nat i)) (seq 0 32).

Definition set_probe (address : Z) (s : simulator) : simulator := { s with tb -> prober_offset := address }.
Definition get_probe (s : simulator) : Z := prober_accessLong (tb s).

(** The 8 bytes of the DRAM array at an aligned offset, little-endian. *)
Definition dram_word (v : vec) (off : Z) : Z :=
  fold_right (fun i acc => vec_get v (off + Z.of_nat i) + 0x100 * acc) 0 (seq 0 8).
Definition read_dram64 (s : simulator) (phys : Z) : Z :=
  if phys <? 0x80000000 then 0
  else let off := Z.land (phys - 0x80000000) (u64 (Z.lnot 7)) in
       if vec_size (dram (tb s)) <? u64 (off + 8) then 0 else dram_word (dram (tb s)) off.

(** *** Stepping *)

(** "TIMEOUT IN SIMULATOR!!!\n" *)
Definition timeout_text : list Z :=
  [84; 73; 77; 69; 79; 85; 84; 32; 73; 78; 32; 83; 73; 77; 85; 76; 65; 84; 79; 82; 33; 33; 33; 10].
Definition print_timeout (s : simulator) : simulator := { s with out ::= (fun l => l ++ timeout_text) }.

(** One cycle's commits: the mask, whether one is an interrupt, and
    [last_commit_pc] brought up to date. *)
Definition commit_port (acc : Z * bool * simulator) (h : nat) : Z * bool * simulator :=
  let '(m, any_irq, s) := acc in
  if commit_fired s (Z.of_nat h)
  then (Z.lor m (u8 (Z.shiftl 1 (Z.of_nat h))), any_irq || commit_interrupt s (Z.of_nat h),
        { s with last_commit_pc ::= <[h := core_pc s (Z.of_nat h)]> })
  else acc.
Definition scan_commits (s : simulator) : Z * bool * simulator := fold_left commit_port harts4 (0, false, s).

(** The loop that sets [prev_hart] and [prev_pc] to the lowest hart of the mask. *)
Fixpoint set_prev (m : Z) (l : list nat) (s : simulator) : simulator :=
  match l with
  | [] => s
  | h :: l => if Z.land m (Z.shiftl 1 (Z.of_nat h)) =? 0 then set_prev m l s
              else { { s with prev_hart := Z.of_nat h } with prev_pc := default 0 (last_commit_pc s !! h) }
  end.

(** [step_until_commits]: the return value, [*mask], the simulator. *)
Fixpoint until_commits (n : nat) (dumping : bool) (s : simulator) : Z * Z * simulator :=
  match n with
  | O => (1, 0, print_timeout { { s with prev_pc := core_pc s 0 } with prev_hart := 0 })
  | S n =>
    let '(m, any_irq, s) := scan_commits (advance dumping s) in
    if m =? 0 then until_commits n dumping s
    else ((if any_irq : bool then 2 else 0), m, set_prev m harts4 s)
  end.
Definition step_until_commits (dumping : bool) (s : simulator) : Z * Z * simulator :=
  until_commits STEP_TIMEOUT dumping s.
Definition step_until_commits_nodump := step_until_commits false.
Definition step_any (dumping : bool) (s : simulator) : Z * simulator :=
  let '(rc, _, s) := step_until_commits dumping s in (rc, s).
Definition step_any_nodump := step_any false.

(** [run_until_commit] watches core 0. *)
Fixpoint wait_commit0 (n : nat) (dumping : bool) (s : simulator) : simulator :=
  if commit_fired s 0 then s
  else match n with O => s | S n => wait_commit0 n dumping (advance dumping s) end.
Definition run_until_commit (dumping : bool) (s : simulator) : Z * simulator :=
  let s := wait_commit0 STEP_TIMEOUT dumping (advance dumping s) in
  let s := { s with prev_pc := core_pc s 0 } in
  if commit_interrupt s 0 && commit_fired s 0 then (2, s)
  else if commit_fired s 0 then (0, s)
  else (1, print_timeout s).
Definition sim_step := run_until_commit true.
Definition step_nodump := run_until_commit false.

(** *** Bring-up *)

Local Open Scope prog_scope.

(** A file is its bytes, or [None] when it cannot be opened. *)
Definition load_segment (file : option (list Z)) (base : Z) : M simulator unit :=
  match file with
  | None => exit_with 1
  | Some buffer => fun s =>
    if vec_size (dram (tb s)) <? u64 (base + Z.of_nat (length buffer)) then Exit 1 s
    else Ok tt { s with tb -> dram ::= (fun v => memcpy v base buffer) }
  end.

Fixpoint ticks (n : nat) : M simulator unit :=
  match n with
  | O => ret tt
  | S n => modify (fun s => { s with tb ::= tick_nodump }) ;;; ticks n
  end.
Definition on_tb (f : Vsystem -> Vsystem) : M simulator unit := modify (fun s => { s with tb ::= f }).

Definition bench_init (image dtb boot_rom : option (list Z)) (enable_trace : bool) : M simulator unit :=
  modify (fun s => { s with tfp := if enable_trace && negb CHIRON_NO_TRACE then Some [] else None }) ;;;
  on_tb (fun t => { t with reset := 1 }) ;;; ticks 20 ;;;
  on_tb (fun t => { t with reset := 0 }) ;;; ticks 20 ;;;
  load_segment image 0 ;;;
  load_segment dtb 0x07e00000 ;;;
  load_segment boot_rom 0x07ffff00 ;;;
  on_tb (fun t => { { t with finishedProgramming := 1 } with programmer_valid := 0 }) ;;; ticks 1 ;;;
  on_tb (fun t => { { t with finishedProgramming := 0 } with programmer_valid := 0 }) ;;; ticks 1 ;;;
  modify (fun s => { s with prev_pc := 0x80000000 }).
End Simulator.

(** ** What the stepping functions do *)

Section Stepping.
Context `{Model} (SHOW_TERMINAL : bool) (STEP_TIMEOUT : nat).
Implicit Type s : simulator.

(** The simulator after [k] clocks, and the harts that commit in the current cycle. *)
Definition clocks (dumping : bool) (k : nat) s : simulator := Nat.iter k (advance SHOW_TERMINAL dumping) s.
Definition fires s (h : nat) : bool := commit_fired s (Z.of_nat h).
Definition quiet s : bool := negb (existsb (fires s) harts4).
Definition irq_fires s : bool := existsb (fun h => fires s h && commit_interrupt s (Z.of_nat h)) harts4.

Lemma clocks_S dumping k s : clocks dumping (S k) s = advance SHOW_TERMINAL dumping (clocks dumping k s).
Proof. reflexivity. Qed.
Lemma clocks_step dumping k s : clocks dumping (S k) s = clocks dumping k (advance SHOW_TERMINAL dumping s).
Proof. unfold clocks. apply Nat.iter_succ_r. Qed.

(** Nothing that is not the clock sees [last_commit_pc]. *)
Lemma commit_port_spec m irq s h : length (last_commit_pc s) = 4%nat -> (h < 4)%nat ->
  exists s', commit_port (m, irq, s) h =
      (if fires s h then Z.lor m (2 ^ Z.of_nat h) else m, irq || (fires s h && commit_interrupt s (Z.of_nat h)), s') /\
    tb s' = tb s /\ out s' = out s /\ length (last_commit_pc s') = 4%nat /\
    forall g, last_commit_pc s' !! g = if fires s h && (g =? h)%nat then Some (core_pc s (Z.of_nat h)) else last_commit_pc s !! g.
Proof.
  intros Hl Hh. unfold commit_port, fires. destruct (commit_fired s (Z.of_nat h)); cbn [andb].
  - eexists. split; [rewrite Z.shiftl_1_l; unfold u8; rewrite Z.mod_small|]; [reflexivity| |].
    + do 4 (destruct h as [|h]; [cbn; lia|]). lia.
    + split; [reflexivity|]. split; [reflexivity|]. split; [cbn; now rewrite length_insert|].
      intros g. cbn. destruct (Nat.eqb_spec g h) as [->|].
      * apply list_lookup_insert_eq. change (h < length (last_commit_pc s))%nat. lia.
      * apply list_lookup_insert_ne. lia.
  - exists s. rewrite orb_false_r. auto.
Qed.

Lemma fires_tb s s' : tb s' = tb s -> fires s' = fires s /\ (forall h, commit_interrupt s' h = commit_interrupt s h) /\
  (forall h, core_pc s' h = core_pc s h).
Proof. intros E. unfold fires, commit_fired, commit_interrupt, core_pc. rewrite E. auto. Qed.

Lemma scan_commits_spec s : length (last_commit_pc s) = 4%nat ->
  let '(m, irq, s') := scan_commits s in
  irq = irq_fires s /\ tb s' = tb s /\ out s' = out s /\ length (last_commit_pc s') = 4%nat /\
  (forall h, (h < 4)%nat -> Z.testbit m (Z.of_nat h) = fires s h) /\ (m =? 0) = quiet s /\
  (forall h, (h < 4)%nat -> last_commit_pc s' !! h = if fires s h then Some (core_pc s (Z.of_nat h)) else last_commit_pc s !! h).
Proof.
  intros Hl. unfold scan_commits, harts4. cbn [fold_left].
  destruct (commit_port_spec 0 false s 0 Hl ltac:(lia)) as (s0 & -> & E0 & O0 & L0 & P0).
  destruct (fires_tb s s0 E0) as (F0 & I0 & C0).
  destruct (commit_port_spec (if fires s 0 then Z.lor 0 (2 ^ Z.of_nat 0) else 0) (false || (fires s 0 && commit_interrupt s (Z.of_nat 0))) s0 1 L0 ltac:(lia)) as (s1 & -> & E1 & O1 & L1 & P1).
  rewrite E0 in E1. destruct (fires_tb s s1 E1) as (F1 & I1 & C1).
  match goal with |- context [commit_port (?m, ?i, s1) 2%nat] => destruct (commit_port_spec m i s1 2 L1 ltac:(lia)) as (s2 & -> & E2 & O2 & L2 & P2) end.
  rewrite E1 in E2. destruct (fires_tb s s2 E2) as (F2 & I2 & C2).
  match goal with |- context [commit_port (?m, ?i, s2) 3%nat] => destruct (commit_port_spec m i s2 3 L2 ltac:(lia)) as (s3 & -> & E3 & O3 & L3 & P3) end.
  rewrite E2 in E3. rewrite F0, F1, F2, ?I0, ?I1, ?I2 in *. rewrite ?C0, ?C1, ?C2 in *.
  unfold irq_fires, quiet, harts4. cbn [existsb].
  split; [destruct (fires s 0%nat), (fires s 1%nat), (fires s 2%nat), (fires s 3%nat); cbn; rewrite ?orb_false_r, ?orb_assoc; reflexivity|].
  split; [assumption|]. split; [congruence|]. split; [assumption|]. split; [|split].
  - intros h Hh. do 4 (destruct h as [|h]; [destruct (fires s 0%nat), (fires s 1%nat), (fires s 2%nat), (fires s 3%nat); reflexivity|]). lia.
  - destruct (fires s 0%nat), (fires s 1%nat), (fires s 2%nat), (fires s 3%nat); reflexivity.
  - intros h Hh. rewrite P3, P2, P1, P0.
    do 4 (destruct h as [|h]; [destruct (fires s 0%nat), (fires s 1%nat), (fires s 2%nat), (fires s 3%nat); reflexivity|]). lia.
Qed.

(** A quiet cycle changes nothing but the clock. *)
Lemma scan_quiet s : quiet s = true -> scan_commits s = (0, false, s).
Proof.
  unfold quiet, fires, scan_commits, harts4. cbn [existsb fold_left]. intros Hq.
  unfold commit_port. destruct (commit_fired s (Z.of_nat 0)), (commit_fired s (Z.of_nat 1)), (commit_fired s (Z.of_nat 2)),
    (commit_fired s (Z.of_nat 3)); try discriminate. reflexivity.
Qed.

(** The least hart of the mask. *)
Lemma set_prev_spec m s : (exists h, (h < 4)%nat /\ Z.testbit m (Z.of_nat h) = true) ->
  exists h, (h < 4)%nat /\ Z.testbit m (Z.of_nat h) = true /\ (forall g, (g < h)%nat -> Z.testbit m (Z.of_nat g) = false) /\
    let s' := set_prev m harts4 s in
    prev_hart s' = Z.of_nat h /\ prev_pc s' = default 0 (last_commit_pc s !! h) /\
    tb s' = tb s /\ last_commit_pc s' = last_commit_pc s /\ out s' = out s.
Proof.
  assert (Hbit : forall n : nat, (Z.land m (Z.shiftl 1 (Z.of_nat n)) =? 0) = negb (Z.testbit m (Z.of_nat n))).
  { intros n. rewrite Z.shiftl_1_l. destruct (Z.testbit m (Z.of_nat n)) eqn:E; cbn.
    - apply Z.eqb_neq. intros Hz. apply (f_equal (fun x => Z.testbit x (Z.of_nat n))) in Hz.
      rewrite Z.land_spec, E, Z.pow2_bits_true, Z.bits_0 in Hz by lia. discriminate.
    - apply Z.eqb_eq, Z.bits_inj'. intros i Hi. rewrite Z.land_spec, Z.pow2_bits_eqb, Z.bits_0 by lia.
      destruct (Z.eqb_spec (Z.of_nat n) i) as [<-|]; [now rewrite E|apply andb_false_r]. }
  intros [h [Hh Ht]]. unfold harts4. cbn [set_prev]. rewrite !Hbit.
  destruct (Z.testbit m (Z.of_nat 0)) eqn:E0; [exists 0%nat; repeat split; auto with lia; intros; lia|].
  destruct (Z.testbit m (Z.of_nat 1)) eqn:E1; [exists 1%nat; repeat split; auto with lia; intros g ?; destruct g; [assumption|lia]|].
  destruct (Z.testbit m (Z.of_nat 2)) eqn:E2; [exists 2%nat; repeat split; auto with lia; intros g ?; do 2 (destruct g; [assumption|]); lia|].
  destruct (Z.testbit m (Z.of_nat 3)) eqn:E3; [exists 3%nat; repeat split; auto with lia; intros g ?; do 3 (destruct g; [assumption|]); lia|].
  do 4 (destruct h as [|h]; [congruence|]). lia.
Qed.

Lemma dump_members t s : last_commit_pc (dump t s) = last_commit_pc s /\ tb (dump t s) = tb s /\ out (dump t s) = out s /\
  tx_prev_valid (dump t s) = tx_prev_valid s.
Proof. unfold dump. destruct (tfp s); auto. Qed.

(** The clock runs the model three evaluations further, dumping or not. *)
Lemma tick_members t s : last_commit_pc (tick t s) = last_commit_pc s /\ tb (tick t s) = tick_nodump (tb s) /\
  out (tick t s) = out s /\ tx_prev_valid (tick t s) = tx_prev_valid s.
Proof.
  unfold tick. set (s1 := dump (t * 10 - 2) (sim_eval s)). set (s2 := dump (t * 10) (sim_eval (set_clock 1 s1))).
  destruct (dump_members (t * 10 - 2) (sim_eval s)) as (A1 & B1 & C1 & D1).
  destruct (dump_members (t * 10) (sim_eval (set_clock 1 s1))) as (A2 & B2 & C2 & D2).
  destruct (dump_members (t * 10 + 5) (sim_eval (set_clock 0 s2))) as (A3 & B3 & C3 & D3).
  fold s1 in A1, B1, C1, D1. fold s2 in A2, B2, C2, D2.
  rewrite A3, B3, C3, D3. split; [|split; [|split]].
  - transitivity (last_commit_pc s2); [reflexivity|]. rewrite A2. transitivity (last_commit_pc s1); [reflexivity|]. rewrite A1. reflexivity.
  - unfold tick_nodump. change (tb (sim_eval (set_clock 0 s2))) with (eval { (tb s2) with clock := 0 }).
    rewrite B2. change (tb (sim_eval (set_clock 1 s1))) with (eval { (tb s1) with clock := 1 }). rewrite B1. reflexivity.
  - transitivity (out s2); [reflexivity|]. rewrite C2. transitivity (out s1); [reflexivity|]. rewrite C1. reflexivity.
  - transitivity (tx_prev_valid s2); [reflexivity|]. rewrite D2. transitivity (tx_prev_valid s1); [reflexivity|]. rewrite D1. reflexivity.
Qed.

Lemma tx_port_members s p : last_commit_pc (tx_port s p) = last_commit_pc s /\ tb (tx_port s p) = tb s.
Proof. unfold tx_port, emit. destruct (_ && _); [destruct (tx_mirror _)|]; split; reflexivity. Qed.

Lemma surface_tx_members s : last_commit_pc (surface_tx s) = last_commit_pc s /\ tb (surface_tx s) = tb s.
Proof.
  unfold surface_tx. generalize harts4 as l. intros l. revert s. induction l as [|p l IH]; intros s; [split; reflexivity|].
  cbn [fold_left]. destruct (IH (tx_port s p)) as [-> ->]. apply tx_port_members.
Qed.

Lemma advance_members dumping s :
  last_commit_pc (advance SHOW_TERMINAL dumping s) = last_commit_pc s /\
  tb (advance SHOW_TERMINAL dumping s) = tick_nodump (tb s).
Proof.
  unfold advance. set (s1 := if dumping then _ else _).
  assert (Hs1 : last_commit_pc s1 = last_commit_pc s /\ tb s1 = tick_nodump (tb s)).
  { subst s1. destruct dumping; [|split; reflexivity].
    set (s0 := { s with dump_tick := _ }). destruct (tick_members (u32 (dump_tick s + 1)) s0) as (-> & -> & _). split; reflexivity. }
  destruct SHOW_TERMINAL; [|assumption]. destruct (surface_tx_members s1) as [-> ->]. assumption.
Qed.

Lemma clocks_last_commit dumping k s : last_commit_pc (clocks dumping k s) = last_commit_pc s.
Proof. induction k as [|k IH]; [reflexivity|]. unfold clocks in *. cbn [Nat.iter nat_rect]. rewrite (proj1 (advance_members _ _)). exact IH. Qed.
End Stepping.

(** C23: [step_until_commits] runs the clock to the first of at most [STEP_TIMEOUT]
    cycles in which a core commits. It then returns exactly the mask of the
    cores that commit in that cycle, 2 if one of them retires an interrupt and 0
    otherwise, with [last_commit_pc] brought up to date for these cores and no
    other, and [prev_hart], [prev_pc] those of the lowest of them. It returns 1
    exactly when no core commits in [STEP_TIMEOUT] cycles, and then it has
    written its own message to standard output. *)
Theorem step_until_commits_spec `{Model} SHOW_TERMINAL STEP_TIMEOUT dumping s :
  length (last_commit_pc s) = 4%nat ->
  let at_ k := clocks SHOW_TERMINAL dumping k s in
  let '(rc, mask, s') := step_until_commits SHOW_TERMINAL STEP_TIMEOUT dumping s in
  (exists k h, (1 <= k <= STEP_TIMEOUT)%nat /\ (forall j, (1 <= j < k)%nat -> quiet (at_ j) = true) /\
     rc = (if irq_fires (at_ k) then 2 else 0) /\
     (forall g, (g < 4)%nat -> Z.testbit mask (Z.of_nat g) = fires (at_ k) g) /\
     (forall g, (g < 4)%nat -> last_commit_pc s' !! g =
        if fires (at_ k) g then Some (core_pc (at_ k) (Z.of_nat g)) else last_commit_pc s !! g) /\
     (h < 4)%nat /\ fires (at_ k) h = true /\ (forall g, (g < h)%nat -> fires (at_ k) g = false) /\
     prev_hart s' = Z.of_nat h /\ prev_pc s' = core_pc (at_ k) (Z.of_nat h) /\
     tb s' = tb (at_ k) /\ out s' = out (at_ k)) \/
  ((forall j, (1 <= j <= STEP_TIMEOUT)%nat -> quiet (at_ j) = true) /\
   rc = 1 /\ mask = 0 /\ prev_hart s' = 0 /\ prev_pc s' = core_pc (at_ STEP_TIMEOUT) 0 /\
   tb s' = tb (at_ STEP_TIMEOUT) /\ out s' = out (at_ STEP_TIMEOUT) ++ timeout_text).
Proof.
  intros Hl. cbv zeta. unfold step_until_commits. revert s Hl. induction STEP_TIMEOUT as [|n IH]; intros s Hl.
  { right. split; [intros; lia|]. repeat split. }
  cbn [until_commits]. set (s1 := advance SHOW_TERMINAL dumping s).
  assert (Elc : last_commit_pc s1 = last_commit_pc s) by apply advance_members.
  assert (Hl1 : length (last_commit_pc s1) = 4%nat) by (rewrite Elc; exact Hl).
  pose proof (scan_commits_spec s1 Hl1) as Hscan. pose proof (scan_quiet s1) as Hquiet.
  assert (Hs1 : clocks SHOW_TERMINAL dumping 1 s = s1) by reflexivity.
  destruct (scan_commits s1) as [[m irq] s2]. destruct Hscan as (-> & Etb & Eout & Hl2 & Hbits & Hm & Hpc). rewrite Hm.
  destruct (quiet s1) eqn:Hq.
  - specialize (Hquiet eq_refl). injection Hquiet as _ _ ->. specialize (IH s1 Hl1).
    destruct (until_commits SHOW_TERMINAL n dumping s1) as [[rc mask] s'].
    assert (Hcl : forall k, clocks SHOW_TERMINAL dumping k s1 = clocks SHOW_TERMINAL dumping (S k) s) by (intros; symmetry; apply clocks_step).
    assert (Hqk : forall j (P : Prop), ((1 <= j)%nat -> P -> quiet (clocks SHOW_TERMINAL dumping j s1) = true) -> P -> (1 <= S j)%nat ->
        quiet (clocks SHOW_TERMINAL dumping (S j) s) = true).
    { intros [|j] P HP Hp _; [now rewrite Hs1|]. rewrite clocks_step. apply HP; [lia|assumption]. }
    destruct IH as [(k & h & Hk & Hj & IH)|(Hj & IH)].
    + left. exists (S k), h. rewrite Hcl, Elc in IH.
      split; [lia|]. split; [|exact IH].
      intros [|j] Hj'; [lia|]. apply (Hqk j (j < k)%nat); [intros; apply Hj; lia|lia|lia].
    + right. rewrite Hcl in IH. split; [|exact IH].
      intros [|j] Hj'; [lia|]. apply (Hqk j (j <= n)%nat); [intros; apply Hj; lia|lia|lia].
  - destruct (set_prev_spec m s2) as (h & Hh & Hb & Hlow & Ehart & Epc & E1 & E2 & E3).
    { unfold quiet, harts4 in Hq. apply negb_false_iff, existsb_exists in Hq. destruct Hq as (h & Hin & Hf).
      exists h. assert (h < 4)%nat by (cbn in Hin; lia). split; [assumption|]. rewrite Hbits; assumption. }
    left. exists 1%nat, h. rewrite Hs1, E1, E2, E3, Ehart, Epc.
    split; [lia|]. split; [intros; lia|]. split; [reflexivity|]. split; [exact Hbits|].
    split; [intros g Hg; rewrite (Hpc g Hg), Elc; reflexivity|].
    rewrite Hbits in Hb by lia. split; [assumption|]. split; [assumption|].
    split; [intros g Hg; rewrite <- (Hbits g) by lia; apply Hlow, Hg|]. split; [reflexivity|].
    split; [rewrite (Hpc h Hh), Hb; reflexivity|]. split; assumption.
Qed.

(** A model that plays a script: one set of core ports per rising clock edge. *)
Definition script : Type := Z * list (list core_ports).
#[global] Instance scripted : Verilated := script.
Definition set_cores (f : list core_ports) (tb : Vsystem) : Vsystem :=
  match f with
  | [c0; c1; c2; c3] => { { { { tb with core0 := c0 } with core1 := c1 } with core2 := c2 } with core3 := c3 }
  | _ => tb
  end.
#[global] Instance scripted_eval : Model := fun tb =>
  let '(last, frames) := state tb in
  if (clock tb =? 1) && (last =? 0)
  then match frames with
       | f :: frames => { (set_cores f tb) with state := (1, frames) }
       | [] => { tb with state := (1, []) }
       end
  else { tb with state := (clock tb, frames) }.

Definition idle_core : core_ports :=
  {| commitFired := 0; interrupt := 0; pc := 0; registersOut := fun _ => 0; OutChar_valid := 0; OutChar_byte := 0;
     perfCountersOut := fun _ => 0; msipShared := 0; mtimecmpShared := 0; decode_mepc := 0; decode_mtvec := 0; decode_mcause := 0 |}.
Definition script_system (size : Z) (frames : list (list core_ports)) : Vsystem :=
  {| clock := 0; reset := 0; programmer_valid := 0; programmer_byte := 0; programmer_offset := 0; finishedProgramming := 0;
     prober_offset := 0; prober_accessLong := 0; hostInput_valid := 0; hostInput_char := 0; hostInputConsumed := 0;
     core0 := idle_core; core1 := idle_core; core2 := idle_core; core3 := idle_core; periph_mtime := 0;
     dram := mkvec size ∅; state := (0, frames) |}.
Definition commit_at (p : Z) : core_ports := { { idle_core with commitFired := 1 } with pc := p }.

Definition two_commits : list (list core_ports) :=
  [replicate 4 idle_core; [idle_core; commit_at 0x80000010; idle_core; commit_at 0x80000020]].

Lemma step_until_commits_spec_witness :
  let s := simulator_new (script_system 0 two_commits) in
  let at_ k := clocks false false k s in
  let '(rc, mask, s') := step_until_commits false 5 false s in
  (exists k h, (1 <= k <= 5)%nat /\ (forall j, (1 <= j < k)%nat -> quiet (at_ j) = true) /\
     rc = (if irq_fires (at_ k) then 2 else 0) /\
     (forall g, (g < 4)%nat -> Z.testbit mask (Z.of_nat g) = fires (at_ k) g) /\
     (forall g, (g < 4)%nat -> last_commit_pc s' !! g =
        if fires (at_ k) g then Some (core_pc (at_ k) (Z.of_nat g)) else last_commit_pc s !! g) /\
     (h < 4)%nat /\ fires (at_ k) h = true /\ (forall g, (g < h)%nat -> fires (at_ k) g = false) /\
     prev_hart s' = Z.of_nat h /\ prev_pc s' = core_pc (at_ k) (Z.of_nat h) /\
     tb s' = tb (at_ k) /\ out s' = out (at_ k)) \/
  ((forall j, (1 <= j <= 5)%nat -> quiet (at_ j) = true) /\
   rc = 1 /\ mask = 0 /\ prev_hart s' = 0 /\ prev_pc s' = core_pc (at_ 5%nat) 0 /\
   tb s' = tb (at_ 5%nat) /\ out s' = out (at_ 5%nat) ++ timeout_text).
Proof. exact (step_until_commits_spec false 5 false (simulator_new (script_system 0 two_commits)) eq_refl). Defined.
Example two_commits_run : let '(rc, mask, s') := step_until_commits false 5 false (simulator_new (script_system 0 two_commits)) in
  (rc, mask, prev_hart s', prev_pc s', tickcount s') = (0, 10, 1, 0x80000010, 2).
Proof. vm_compute. reflexivity. Qed.

(** ** The console *)

Section Terminal.
Context `{Model}.
Implicit Type s : simulator.

Definition tx_valid (t : Vsystem) (p : nat) : bool := negb (OutChar_valid (core t (Z.of_nat p)) =? 0).
Definition tx_byte (t : Vsystem) (p : nat) : Z := u8 (OutChar_byte (core t (Z.of_nat p))).
(** The writes that begin between two cycles, in the order of the ports. *)
Definition begun (t t' : Vsystem) (l : list nat) : list Z :=
  flat_map (fun p => if tx_valid t' p && negb (tx_valid t p) then [tx_byte t' p] else []) l.

Lemma emit_spec b s : out (emit b s) = out s ++ [b] /\ tb (emit b s) = tb s /\ tx_prev_valid (emit b s) = tx_prev_valid s /\
  tx_mirror (emit b s) = tx_mirror s /\ (tx_mirror s = true -> mirrored (emit b s) = mirrored s ++ [b]).
Proof.
  unfold emit. change (tx_mirror { s with out ::= _ }) with (tx_mirror s). destruct (tx_mirror s) eqn:E.
  - repeat split; try reflexivity. exact E.
  - repeat split; try reflexivity; [exact E|discriminate].
Qed.

Lemma tx_port_spec s p t : tx_prev_valid s !! p = Some (tx_valid t p) ->
  let s' := tx_port s p in
  out s' = out s ++ begun t (tb s) [p] /\ tb s' = tb s /\ tx_mirror s' = tx_mirror s /\
  tx_prev_valid s' = <[p := tx_valid (tb s) p]> (tx_prev_valid s) /\
  (tx_mirror s = true -> mirrored s' = mirrored s ++ begun t (tb s) [p]).
Proof.
  intros Hp. unfold tx_port. rewrite Hp. change (default false (Some (tx_valid t p))) with (tx_valid t p).
  change (negb (OutChar_valid (core (tb s) (Z.of_nat p)) =? 0)) with (tx_valid (tb s) p).
  change (u8 (OutChar_byte (core (tb s) (Z.of_nat p)))) with (tx_byte (tb s) p).
  unfold begun. cbn [flat_map]. rewrite app_nil_r. destruct (emit_spec (tx_byte (tb s) p) s) as (E1 & E2 & E3 & E4 & E5).
  destruct (tx_valid (tb s) p && negb (tx_valid t p)).
  - split; [exact E1|]. split; [exact E2|]. split; [exact E4|]. split; [|exact E5].
    transitivity (<[p := tx_valid (tb s) p]> (tx_prev_valid (emit (tx_byte (tb s) p) s))); [reflexivity|]. rewrite E3. reflexivity.
  - rewrite !app_nil_r. repeat split; reflexivity.
Qed.

Lemma surface_tx_spec s t : tx_prev_valid s = map (tx_valid t) harts4 ->
  let s' := surface_tx s in
  out s' = out s ++ begun t (tb s) harts4 /\ tb s' = tb s /\ tx_mirror s' = tx_mirror s /\
  tx_prev_valid s' = map (tx_valid (tb s)) harts4 /\
  (tx_mirror s = true -> mirrored s' = mirrored s ++ begun t (tb s) harts4).
Proof.
  intros Hp. unfold surface_tx, harts4 in *. cbn [fold_left map] in *.
  destruct (tx_port_spec s 0%nat t ltac:(rewrite Hp; reflexivity)) as (O0 & T0 & M0 & V0 & R0). set (s0 := tx_port s 0) in *.
  destruct (tx_port_spec s0 1%nat t ltac:(rewrite V0, Hp; reflexivity)) as (O1 & T1 & M1 & V1 & R1). set (s1 := tx_port s0 1) in *.
  destruct (tx_port_spec s1 2%nat t ltac:(rewrite V1, V0, Hp; reflexivity)) as (O2 & T2 & M2 & V2 & R2). set (s2 := tx_port s1 2) in *.
  destruct (tx_port_spec s2 3%nat t ltac:(rewrite V2, V1, V0, Hp; reflexivity)) as (O3 & T3 & M3 & V3 & R3). set (s3 := tx_port s2 3) in *.
  assert (E1 : tb s1 = tb s) by congruence. assert (E2 : tb s2 = tb s) by congruence. assert (E3 : tb s3 = tb s) by congruence.
  rewrite T0 in O1, V1, R1. rewrite E1 in O2, V2, R2. rewrite E2 in O3, V3, R3. clear T1 T2 T3.
  split; [|split; [assumption|split; [congruence|split]]].
  - rewrite O3, O2, O1, O0. unfold begun. cbn [flat_map]. rewrite !app_nil_r, <- !app_assoc. reflexivity.
  - rewrite V3, V2, V1, V0, Hp. reflexivity.
  - intros Hm. rewrite R3, R2, R1, R0 by congruence. unfold begun. cbn [flat_map]. rewrite !app_nil_r, <- !app_assoc. reflexivity.
Qed.

(** An [advance] with [SHOW_TERMINAL]: the detector stays in step with the ports. *)
Lemma advance_terminal dumping s : tx_prev_valid s = map (tx_valid (tb s)) harts4 ->
  let s' := advance true dumping s in
  out s' = out s ++ begun (tb s) (tb s') harts4 /\ tx_mirror s' = tx_mirror s /\
  tx_prev_valid s' = map (tx_valid (tb s')) harts4 /\
  (tx_mirror s = true -> mirrored s' = mirrored s ++ begun (tb s) (tb s') harts4).
Proof.
  intros Hp. unfold advance. set (s1 := if dumping then _ else _). cbv zeta.
  assert (Hs1 : out s1 = out s /\ tx_prev_valid s1 = tx_prev_valid s /\ tx_mirror s1 = tx_mirror s /\ mirrored s1 = mirrored s).
  { subst s1. destruct dumping; [|repeat split; reflexivity]. unfold tick, dump.
    cbn [tfp]. repeat (match goal with |- context [match ?x with Some _ => _ | None => _ end] => destruct x end); repeat split; reflexivity. }
  destruct Hs1 as (<- & Hp1 & <- & <-). rewrite <- Hp1 in Hp.
  destruct (surface_tx_spec s1 (tb s) Hp) as (O & T & Mr & V & R). rewrite T. auto.
Qed.

(** The same along any run of the clock. *)
Lemma console_run dumping (at_ : nat -> simulator) n s :
  tx_prev_valid s = map (tx_valid (tb s)) harts4 -> at_ 0%nat = s ->
  (forall k, at_ (S k) = advance true dumping (at_ k)) ->
  let printed := flat_map (fun k => begun (tb (at_ k)) (tb (at_ (S k))) harts4) (seq 0 n) in
  out (at_ n) = out s ++ printed /\ (tx_mirror s = true -> mirrored (at_ n) = mirrored s ++ printed).
Proof.
  intros Hp H0s Hat. cbv zeta.
  enough (Hall : out (at_ n) = out s ++ flat_map (fun k => begun (tb (at_ k)) (tb (at_ (S k))) harts4) (seq 0 n) /\
    tx_mirror (at_ n) = tx_mirror s /\ tx_prev_valid (at_ n) = map (tx_valid (tb (at_ n))) harts4 /\
    (tx_mirror s = true -> mirrored (at_ n) = mirrored s ++ flat_map (fun k => begun (tb (at_ k)) (tb (at_ (S k))) harts4) (seq 0 n)))
    by (split; apply Hall).
  induction n as [|n IH]; [cbn [seq flat_map]; rewrite !app_nil_r, H0s; auto|]. destruct IH as (O & Mr & V & R).
  destruct (advance_terminal dumping (at_ n) V) as (O' & Mr' & V' & R'). rewrite <- Hat in O', Mr', V', R'.
  rewrite seq_S, flat_map_app, Nat.add_0_l. cbn [flat_map]. rewrite app_nil_r, !app_assoc.
  rewrite O', Mr', O. split; [reflexivity|]. split; [exact Mr|]. split; [exact V'|].
  intros Hm. rewrite R' by congruence. rewrite R by exact Hm. reflexivity.
Qed.
End Terminal.

(** With [SHOW_TERMINAL], a run of [n] clocks prints, for every port and every
    cycle in which its [valid] goes from low to high, the byte of the port in that
    cycle, in the order of the cycles and then of the ports, and prints nothing
    else; the mirror, if set, receives the same bytes. So a write during which
    [valid] stays high for any number of cycles is printed exactly once. *)
Theorem console_prints_writes_once `{Model} dumping n s :
  tx_prev_valid s = map (tx_valid (tb s)) harts4 ->
  let at_ k := clocks true dumping k s in
  let printed := flat_map (fun k => begun (tb (at_ k)) (tb (at_ (S k))) harts4) (seq 0 n) in
  out (at_ n) = out s ++ printed /\ (tx_mirror s = true -> mirrored (at_ n) = mirrored s ++ printed).
Proof.
  intros Hp. apply (console_run dumping (fun k => clocks true dumping k s) n s Hp eq_refl). intros k. apply clocks_S.
Qed.
Definition held_write : list (list core_ports) :=
  let c := { { idle_core with OutChar_valid := 1 } with OutChar_byte := 65 } in
  [[c; idle_core; c; idle_core]; [c; idle_core; idle_core; idle_core]; replicate 4 idle_core; [c; idle_core; idle_core; idle_core]].
Lemma console_prints_writes_once_witness :
  let s := simulator_new (script_system 0 held_write) in
  let at_ k := clocks true false k s in
  let printed := flat_map (fun k => begun (tb (at_ k)) (tb (at_ (S k))) harts4) (seq 0 4) in
  printed = [65; 65; 65] /\
  (out (at_ 4%nat) = out s ++ printed /\ (tx_mirror s = true -> mirrored (at_ 4%nat) = mirrored s ++ printed)).
Proof. split; [reflexivity|]. exact (console_prints_writes_once false 4 (simulator_new (script_system 0 held_write)) eq_refl). Defined.
