(* ===== verification/Image.v ===== *)
(** * What the harnesses share: [sim/harness/common/args.h], [image.h] and the
    argument part of [completion.h]

    The argv scanner with the C library's [strtoull], the reset sequence and the
    image loader through the [programmer] port. The theorems compare the three
    ways an image reaches memory: the programmer port ([load_image]), the direct
    copy of [rtl_model.h] ([load_segment]) and the golden model's [init]. *)

From Stdlib Require Import String Ascii.
From S2P Require Import Prelude Constants Alu MemAccess Csr Clint Hart Trap Execute Emulator Safety Boot Spec Refine MemInstr System Rtl.

(** ** [args.h] *)

(** Value following the first occurrence of [flag]; [argv[0]] is the program. *)
Fixpoint find_arg_from (l : list string) (flag : string) (def : option string) : option string :=
  match l with
  | a :: (v :: _) as l' => if String.eqb a flag then Some v else find_arg_from l' flag def
  | _ => def
  end.
Definition find_arg (argv : list string) (flag : string) (def : option string) : option string :=
  find_arg_from (tl argv) flag def.

Definition has_flag (argv : list string) (flag : string) : bool := existsb (fun a => String.eqb a flag) (tl argv).

(** [strtoull(s, nullptr, base)] of the C library, [base] 0 or 10, on a string
    with an optional sign: digits up to the first other character, saturated
    at [ULLONG_MAX], negated modulo 2^64. *)
Definition digit_value (c : ascii) : Z :=
  let n := Z.of_nat (nat_of_ascii c) in
  if (48 <=? n) && (n <=? 57) then n - 48
  else if (97 <=? n) && (n <=? 122) then n - 87
  else if (65 <=? n) && (n <=? 90) then n - 55 else 99.
Fixpoint digits_value (base acc : Z) (s : string) : Z :=
  match s with
  | EmptyString => acc
  | String c s => if digit_value c <? base then digits_value base (base * acc + digit_value c) s else acc
  end.
Definition ULLONG_MAX : Z := 0xFFFFFFFFFFFFFFFF.
Definition is_space (c : ascii) : bool :=
  let n := nat_of_ascii c in (n =? 32)%nat || ((9 <=? n)%nat && (n <=? 13)%nat).
Fixpoint skip_spaces (s : string) : string :=
  match s with String c s' => if is_space c then skip_spaces s' else s | EmptyString => s end.
Definition strtoull_digits (base : Z) (s : string) : Z :=
  Z.min ULLONG_MAX
    (match s with
     | String "0" (String x (String d _ as hex)) =>
       if (base =? 0) && (String.eqb (String x "") "x" || String.eqb (String x "") "X") && (digit_value d <? 16)
       then digits_value 16 0 hex else digits_value (if base =? 0 then 8 else base) 0 s
     | String "0" _ => digits_value (if base =? 0 then 8 else base) 0 s
     | _ => digits_value (if base =? 0 then 10 else base) 0 s
     end).
Definition strtoull (base : Z) (s : string) : Z :=
  match skip_spaces s with
  | String "-" s => u64 (- strtoull_digits base s)
  | String "+" s => strtoull_digits base s
  | s => strtoull_digits base s
  end.

Fixpoint collect_from (l : list string) (flag : string) : list Z :=
  match l with
  | a :: (v :: _) as l' => if String.eqb a flag then strtoull 0 v :: collect_from l' flag else collect_from l' flag
  | _ => []
  end.
Definition collect_hex_args (argv : list string) (flag : string) : list Z := collect_from (tl argv) flag.

(** [Completion::parse] *)
Definition parse (argv : list string) : Completion :=
  let a0 := find_arg argv "--done-a0" None in
  {| done_pcs := collect_hex_args argv "--done-pc";
     have_a0 := match a0 with Some _ => true | None => false end;
     a0_val := match a0 with Some s => strtoull 0 s | None => 0 end |}.

Example parse_example :
  parse ["lockstep.out"; "--image"; "a.bin"; "--done-pc"; "0x80000bc8"; "--done-a0"; "010"; "--done-pc"; "12x"; "--done-pc"]%string =
  {| done_pcs := [0x80000bc8; 12]; have_a0 := true; a0_val := 8 |}.
Proof. reflexivity. Qed.

(** ** [image.h] *)

Section Image.
Context `{Model}.

(** The model and the caller's [tickcount]. *)
Definition run_tick (x : Vsystem * Z) : Vsystem * Z := (tick_nodump x.1, u64 (x.2 + 1)).
Definition do_reset (x : Vsystem * Z) : Vsystem * Z :=
  let x := Nat.iter 20 run_tick ({ x.1 with Rtl.reset := 1 }, x.2) in
  Nat.iter 20 run_tick ({ x.1 with Rtl.reset := 0 }, x.2).

(** [buffer.resize((size + 7) & ~7, 0)] *)
Definition resize8 (buffer : list Z) : list Z :=
  let size := Z.of_nat (List.length buffer) in
  let rounded := Z.land (u64 (size + 7)) (u64 (Z.lnot 7)) in
  firstn (Z.to_nat rounded) buffer ++ replicate (Z.to_nat (rounded - size)) 0.

(** The body of the loop at byte [8 * k] of the buffer. *)
Definition program_word (buffer : list Z) (x : Vsystem * Z) (k : nat) : Vsystem * Z :=
  run_tick ({ { x.1 with programmer_byte := le_word buffer k } with programmer_offset := 8 * Z.of_nat k }, x.2).
(** [for (i = 0; i + 7 < size; i += 8)] *)
Definition stream_words (buffer : list Z) (x : Vsystem * Z) : Vsystem * Z :=
  fold_left (program_word buffer) (seq 0 (List.length buffer / 8)) x.

(** [load_image]: [false] when the file cannot be opened. *)
Definition load_image (image : option (list Z)) (x : Vsystem * Z) : bool * (Vsystem * Z) :=
  match image with
  | None => (false, x)
  | Some bytes =>
    let buffer := resize8 bytes in
    let x := stream_words buffer ({ x.1 with programmer_valid := 1 }, x.2) in
    let x := run_tick ({ { x.1 with finishedProgramming := 1 } with programmer_valid := 0 }, x.2) in
    let x := run_tick ({ x.1 with finishedProgramming := 0 }, x.2) in
    (true, x)
  end.
End Image.

(** ** Words and bytes *)

Definition word_bytes (w : Z) : list Z := map (fun i => byte_of w (Z.of_nat i)) (seq 0 8).

Lemma word_bytes_le_word bytes k : Forall is_u8 bytes ->
  word_bytes (le_word bytes k) = map (fun i => default 0 (bytes !! (8 * k + i)%nat)) (seq 0 8).
Proof.
  intros Hb. unfold word_bytes. apply map_ext_in. intros i Hi. apply in_seq in Hi. rewrite le_word_value.
  rewrite byte_of_le_value; [now rewrite Nat2Z.id|intros; apply bytes_u8; assumption|lia].
Qed.

(** The words of a buffer of [8 * n] bytes, taken apart again, are the buffer. *)
Lemma flat_map_words bytes n : Forall is_u8 bytes -> List.length bytes = (8 * n)%nat ->
  flat_map (fun k => word_bytes (le_word bytes k)) (seq 0 n) = bytes.
Proof.
  intros Hb Hn. transitivity (map (fun i => default 0 (bytes !! i)) (seq 0 (8 * n))).
  - clear Hn. induction n as [|n IH]; [reflexivity|].
    rewrite seq_S, flat_map_app, IH, Nat.add_0_l. cbn [flat_map]. rewrite app_nil_r, word_bytes_le_word by assumption.
    replace (8 * S n)%nat with (8 * n + 8)%nat by lia. rewrite seq_app, map_app, Nat.add_0_l. f_equal.
    cbn [seq map]. rewrite Nat.add_0_r. repeat (apply (f_equal2 cons); [do 2 f_equal; lia|]). reflexivity.
  - apply list_eq. intros i. rewrite list_lookup_fmap.
    destruct (lt_dec i (8 * n)).
    + rewrite lookup_seq_lt by lia. cbn. destruct (lookup_lt_is_Some_2 bytes i) as [x Hx]; [lia|]. now rewrite Hx.
    + rewrite lookup_seq_ge by lia. rewrite lookup_ge_None_2 by lia. reflexivity.
Qed.

Lemma memcpy_app l1 : forall v base l2, memcpy v base (l1 ++ l2) = memcpy (memcpy v base l1) (base + Z.of_nat (List.length l1)) l2.
Proof.
  induction l1 as [|b l1 IH]; intros v base l2; cbn [memcpy app List.length]; [now rewrite Z.add_0_r|].
  rewrite IH. f_equal. lia.
Qed.

Lemma resize8_spec bytes : Z.of_nat (List.length bytes) < 2 ^ 62 ->
  exists pad, (pad < 8)%nat /\ resize8 bytes = bytes ++ replicate pad 0 /\
    List.length (resize8 bytes) = (8 * ((List.length bytes + 7) / 8))%nat.
Proof.
  intros Hl. unfold resize8. cbv zeta. set (n := List.length bytes) in *.
  assert (Hr : Z.land (u64 (Z.of_nat n + 7)) (u64 (Z.lnot 7)) = 8 * ((Z.of_nat n + 7) / 8)).
  { rewrite u64_id by (unfold is_u64; lia). change (u64 (Z.lnot 7)) with (Z.shiftl (Z.ones 61) 3).
    apply Z.bits_inj'. intros i Hi. rewrite Z.land_spec, (Z.mul_comm 8). change 8 with (2 ^ 3) at 2.
    rewrite <- (Z.shiftr_div_pow2 _ 3), <- (Z.shiftl_mul_pow2 _ 3) by lia.
    destruct (Z.ltb_spec i 3).
    - rewrite !Z.shiftl_spec_low by lia. apply andb_false_r.
    - rewrite !Z.shiftl_spec, Z.shiftr_spec by lia. replace (i - 3 + 3) with i by lia.
      destruct (Z.ltb_spec i 64).
      + rewrite Z.testbit_ones_nonneg by lia. replace (i - 3 <? 61) with true by lia. apply andb_true_r.
      + rewrite (testbit_bound _ 64) by lia. reflexivity. }
  rewrite Hr. exists (Z.to_nat (8 * ((Z.of_nat n + 7) / 8) - Z.of_nat n)).
  assert (Hle : Z.of_nat n <= 8 * ((Z.of_nat n + 7) / 8) < Z.of_nat n + 8) by zlia.
  split; [lia|]. rewrite firstn_all2 by (fold n; lia). split; [reflexivity|].
  rewrite length_app, length_replicate. fold n.
  assert (Hd : Z.of_nat (8 * ((n + 7) / 8)) = 8 * ((Z.of_nat n + 7) / 8)) by (rewrite Nat2Z.inj_mul, Nat2Z.inj_div, Nat2Z.inj_add; reflexivity).
  lia.
Qed.

(** ** The programmer port against the direct copy *)

(** What [mainMemory.scala] promises of the port. [loading] says of the internal state that the
    latch [programmed] is low: a reset clears it, a clock with [finishedProgramming] sets it.
    While it is low a clock with [valid] writes the eight bytes of [byte] at [offset], and the
    cores do not reach the memory. The driver's inputs keep their values. *)
Class ProgrammerPort `{Model} (loading : internals -> Prop) : Prop := {
  port_inputs : forall tb, clock tb = 0 ->
    let tb' := tick_nodump tb in
    clock tb' = 0 /\ Rtl.reset tb' = Rtl.reset tb /\ programmer_valid tb' = programmer_valid tb /\
    finishedProgramming tb' = finishedProgramming tb;
  port_reset : forall tb, clock tb = 0 -> Rtl.reset tb = 1 -> loading (state (tick_nodump tb));
  port_idle : forall tb, clock tb = 0 -> Rtl.reset tb = 0 -> programmer_valid tb = 0 -> finishedProgramming tb = 0 ->
    loading (state tb) -> loading (state (tick_nodump tb));
  port_write : forall tb, clock tb = 0 -> Rtl.reset tb = 0 -> programmer_valid tb = 1 -> finishedProgramming tb = 0 ->
    loading (state tb) ->
    dram (tick_nodump tb) = memcpy (dram tb) (programmer_offset tb) (word_bytes (programmer_byte tb)) /\
    loading (state (tick_nodump tb));
  port_finish : forall tb, clock tb = 0 -> Rtl.reset tb = 0 -> programmer_valid tb = 0 -> finishedProgramming tb = 1 ->
    loading (state tb) -> dram (tick_nodump tb) = dram tb }.

Section Programmer.
Context `{Model} (loading : internals -> Prop) `{!ProgrammerPort loading}.

(** The inputs of the driver between two clocks. *)
Definition driven (r v f : Z) (tb : Vsystem) : Prop :=
  clock tb = 0 /\ Rtl.reset tb = r /\ programmer_valid tb = v /\ finishedProgramming tb = f.

Lemma driven_tick r v f tb : driven r v f tb -> driven r v f (tick_nodump tb).
Proof. intros (Hc & Hr & Hv & Hf). destruct (port_inputs tb Hc) as (? & ? & ? & ?). unfold driven. repeat split; congruence. Qed.

(** After the bring-up the memory waits for its image. *)
Lemma do_reset_loading x : clock x.1 = 0 -> programmer_valid x.1 = 0 -> finishedProgramming x.1 = 0 ->
  driven 0 0 0 (do_reset x).1 /\ loading (state (do_reset x).1).
Proof.
  intros Hc Hv Hf. unfold do_reset. set (x1 := ({ x.1 with Rtl.reset := 1 }, x.2)).
  assert (H1 : forall n, driven 1 0 0 (Nat.iter n run_tick x1).1).
  { induction n as [|n IH]; [now repeat split|]. rewrite Nat.iter_succ. exact (driven_tick _ _ _ _ IH). }
  set (x2 := Nat.iter 20 run_tick x1).
  assert (H2 : driven 1 0 0 x2.1 /\ loading (state x2.1)).
  { split; [apply H1|]. unfold x2. rewrite Nat.iter_succ. specialize (H1 19%nat). destruct H1 as (Hc1 & Hr1 & _).
    exact (port_reset _ Hc1 Hr1). }
  clearbody x2. destruct H2 as [(Hc2 & Hr2 & Hv2 & Hf2) Hl2]. cbv zeta.
  assert (H3 : forall n, let y := Nat.iter n run_tick ({ x2.1 with Rtl.reset := 0 }, x2.2) in driven 0 0 0 y.1 /\ loading (state y.1)).
  { induction n as [|n IH]; [split; [now repeat split|exact Hl2]|]. cbv zeta in *. rewrite Nat.iter_succ. destruct IH as [IH1 IH2].
    split; [exact (driven_tick _ _ _ _ IH1)|]. destruct IH1 as (? & ? & ? & ?). apply port_idle; assumption. }
  apply H3.
Qed.

Lemma stream_words_dram buffer n x : driven 0 1 0 x.1 -> loading (state x.1) ->
  let x' := fold_left (program_word buffer) (seq 0 n) x in
  dram x'.1 = memcpy (dram x.1) 0 (flat_map (fun k => word_bytes (le_word buffer k)) (seq 0 n)) /\
  driven 0 1 0 x'.1 /\ loading (state x'.1).
Proof.
  intros Hx Hl. induction n as [|n IH]; [cbn; auto|]. cbv zeta in *.
  rewrite seq_S, fold_left_app, flat_map_app, Nat.add_0_l. cbn [fold_left flat_map]. rewrite app_nil_r.
  destruct IH as (Hd & Hp & Hly). set (y := fold_left _ _ _) in *.
  set (tb1 := { { y.1 with programmer_byte := le_word buffer n } with programmer_offset := 8 * Z.of_nat n }).
  assert (Hp1 : driven 0 1 0 tb1) by exact Hp. assert (Hl1 : loading (state tb1)) by exact Hly.
  change (program_word buffer y n) with (tick_nodump tb1, u64 (y.2 + 1)). cbn [fst snd].
  pose proof Hp1 as (Hc & Hr & Hv & Hf). destruct (port_write tb1 Hc Hr Hv Hf Hl1) as [Hd1 Hl2].
  split; [|split; [now apply driven_tick|exact Hl2]].
  rewrite Hd1. change (dram tb1) with (dram y.1). change (programmer_offset tb1) with (8 * Z.of_nat n).
  change (programmer_byte tb1) with (le_word buffer n). rewrite Hd, memcpy_app. f_equal.
  clear. induction n as [|n IH]; [reflexivity|]. rewrite seq_S, flat_map_app, length_app, Nat.add_0_l. cbn [flat_map].
  rewrite app_nil_r. change (List.length (word_bytes (le_word buffer n))) with 8%nat. lia.
Qed.

(** The streaming loop on the padded buffer. *)
Lemma stream_image bytes x : Forall is_u8 bytes -> Z.of_nat (List.length bytes) < 2 ^ 62 -> driven 0 1 0 x.1 -> loading (state x.1) ->
  let x' := stream_words (resize8 bytes) x in
  dram x'.1 = memcpy (dram x.1) 0 (resize8 bytes) /\ driven 0 1 0 x'.1 /\ loading (state x'.1).
Proof.
  intros Hb Hl Hx Hld. destruct (resize8_spec bytes Hl) as (pad & _ & Er & Hlen).
  assert (Hb8 : Forall is_u8 (resize8 bytes)).
  { rewrite Er. apply Forall_app. split; [exact Hb|]. apply Forall_replicate. unfold is_u8. lia. }
  unfold stream_words. rewrite Hlen.
  replace (8 * ((List.length bytes + 7) / 8) / 8)%nat with ((List.length bytes + 7) / 8)%nat by (rewrite Nat.mul_comm, Nat.div_mul; lia).
  pose proof (stream_words_dram (resize8 bytes) ((List.length bytes + 7) / 8) x Hx Hld) as Hs.
  now rewrite (flat_map_words _ _ Hb8 Hlen) in Hs.
Qed.
(** Loading, up to the clock with [finishedProgramming]. *)
Lemma load_image_ends bytes x : Forall is_u8 bytes -> Z.of_nat (List.length bytes) < 2 ^ 62 -> driven 0 0 0 x.1 -> loading (state x.1) ->
  exists x2, load_image (Some bytes) x = (true, run_tick ({ x2.1 with finishedProgramming := 0 }, x2.2)) /\
    dram x2.1 = memcpy (dram x.1) 0 (resize8 bytes).
Proof.
  intros Hb Hl (Hc1 & Hr1 & Hv1 & Hf1) Hld. unfold load_image. cbv zeta.
  assert (Hx : driven 0 1 0 ({ x.1 with programmer_valid := 1 }, x.2).1) by (repeat split; assumption).
  destruct (stream_image bytes ({ x.1 with programmer_valid := 1 }, x.2) Hb Hl Hx Hld) as (Ed & (Hc2 & Hr2 & Hv2 & Hf2) & Hl2).
  revert Ed Hc2 Hr2 Hv2 Hf2 Hl2. generalize (stream_words (resize8 bytes) ({ x.1 with programmer_valid := 1 }, x.2)). intros y Ed Hc2 Hr2 Hv2 Hf2 Hl2.
  set (z := { { y.1 with finishedProgramming := 1 } with programmer_valid := 0 }).
  assert (Ez : dram (tick_nodump z) = dram z) by (apply port_finish; [exact Hc2|exact Hr2|reflexivity|reflexivity|exact Hl2]).
  exists (run_tick (z, y.2)). split; [reflexivity|]. etransitivity; [exact Ez|exact Ed].
Qed.
End Programmer.

Lemma load_segment_direct `{Verilated} bytes s : Z.of_nat (List.length bytes) < 2 ^ 62 -> Z.of_nat (List.length bytes) <= vec_size (dram (tb s)) ->
  exists s', load_segment (Some bytes) 0 s = Ok tt s' /\ dram (tb s') = memcpy (dram (tb s)) 0 bytes.
Proof.
  intros Hl Hsz. unfold load_segment. rewrite Z.add_0_l, u64_id by (unfold is_u64; lia).
  destruct (Z.ltb_spec (vec_size (dram (tb s))) (Z.of_nat (List.length bytes))) as [|_]; [lia|]. eexists. split; reflexivity.
Qed.

(** The padded copy against the direct one. *)
Lemma resized_copy v bytes i : Z.of_nat (List.length bytes) < 2 ^ 62 ->
  vec_get (memcpy v 0 (resize8 bytes)) i =
    if (Z.of_nat (List.length bytes) <=? i) && (i <? 8 * ((Z.of_nat (List.length bytes) + 7) / 8)) then 0
    else vec_get (memcpy v 0 bytes) i.
Proof.
  intros Hl. destruct (resize8_spec bytes Hl) as (pad & Hpad & Er & Hlen).
  assert (Hbound : Z.of_nat (List.length (resize8 bytes)) = 8 * ((Z.of_nat (List.length bytes) + 7) / 8)).
  { rewrite Hlen, Nat2Z.inj_mul, Nat2Z.inj_div, Nat2Z.inj_add. reflexivity. }
  assert (Hin : forall i, 0 <= i < Z.of_nat (List.length bytes) -> default 0 (resize8 bytes !! Z.to_nat i) = default 0 (bytes !! Z.to_nat i)).
  { intros k Hk. rewrite Er, lookup_app_l by lia. reflexivity. }
  assert (Hle : Z.of_nat (List.length bytes) <= 8 * ((Z.of_nat (List.length bytes) + 7) / 8)) by zlia.
  rewrite !memcpy_get, !Z.add_0_l, Hbound, !Z.sub_0_r.
  destruct (Z.leb_spec 0 i), (Z.leb_spec (Z.of_nat (List.length bytes)) i), (Z.ltb_spec i (Z.of_nat (List.length bytes))),
    (Z.ltb_spec i (8 * ((Z.of_nat (List.length bytes) + 7) / 8))); cbn [andb]; try lia; try reflexivity; try (apply Hin; lia).
  rewrite Er, lookup_app_r by lia. destruct (replicate pad 0 !! _) eqn:E; [|reflexivity].
  apply lookup_replicate in E as [-> _]. reflexivity.
Qed.

(** C27: The bring-up of a harness, [reset] and then [load_image], on a memory whose
    programmer port writes while its latch [programmed] is low. When the clock with
    [finishedProgramming] has passed (one more clock follows), byte [i] of the file is at DRAM offset [i] for every byte
    of the file, also when its length is not a multiple of 8, where at most seven zero bytes
    follow. So memory is filled as [load_segment] at base 0 does, which copies the file directly. *)
Theorem load_image_as_load_segment `{Model} loading `{!ProgrammerPort loading} bytes x s :
  clock x.1 = 0 -> programmer_valid x.1 = 0 -> finishedProgramming x.1 = 0 ->
  Forall is_u8 bytes -> Z.of_nat (List.length bytes) < 2 ^ 62 ->
  Z.of_nat (List.length bytes) <= vec_size (dram (tb s)) -> dram (tb s) = dram (do_reset x).1 ->
  exists x2 s', load_image (Some bytes) (do_reset x) = (true, run_tick ({ x2.1 with finishedProgramming := 0 }, x2.2)) /\
    load_segment (Some bytes) 0 s = Ok tt s' /\
    (forall i, 0 <= i < Z.of_nat (List.length bytes) -> vec_get (dram x2.1) i = default 0 (bytes !! Z.to_nat i)) /\
    forall i, vec_get (dram x2.1) i =
      if (Z.of_nat (List.length bytes) <=? i) && (i <? 8 * ((Z.of_nat (List.length bytes) + 7) / 8)) then 0
      else vec_get (dram (tb s')) i.
Proof.
  intros Hc Hv Hf Hb Hl Hsz Hd. destruct (do_reset_loading loading x Hc Hv Hf) as [Hdr Hld].
  destruct (load_image_ends loading bytes (do_reset x) Hb Hl Hdr Hld) as (x2 & Ex & Ez). rewrite <- Hd in Ez.
  destruct (load_segment_direct bytes s Hl Hsz) as (s' & Es & Ed). exists x2, s'. split; [exact Ex|]. split; [exact Es|].
  split; intros i; [intros Hi|]; rewrite Ez, resized_copy by exact Hl; [|now rewrite Ed].
  rewrite (proj2 (Z.leb_gt _ i)) by lia. cbn [andb]. rewrite memcpy_get, Z.add_0_l, Z.sub_0_r.
  now rewrite (proj2 (Z.leb_le 0 i)), (proj2 (Z.ltb_lt i _)) by lia.
Qed.

(** A memory with such a port, working on the rising edge of the clock: the last value of the
    clock, and the latch. *)
Module PortModel.
Definition clock_latch : Verilated := (Z * bool)%type.
Definition port_eval : @Model clock_latch := fun tb =>
  let '(last, programmed) := state tb in
  if (clock tb =? 1) && (last =? 0) then
    let tb' := if negb programmed && (programmer_valid tb =? 1)
               then { tb with dram ::= (fun v => memcpy v (programmer_offset tb) (word_bytes (programmer_byte tb))) } else tb in
    { tb' with state := (clock tb, if Rtl.reset tb =? 1 then false else programmed || (finishedProgramming tb =? 1)) }
  else { tb with state := (clock tb, programmed) }.
Definition port_loading (s : Z * bool) : Prop := s = (0, false).
End PortModel.
(** A tick is its rising edge. *)
Lemma port_tick (tb : @Vsystem PortModel.clock_latch) : clock tb = 0 ->
  @tick_nodump _ PortModel.port_eval tb =
  let '(last, programmed) := state tb in
  let tb' := if negb programmed && (programmer_valid tb =? 1)
             then { tb with dram ::= (fun v => memcpy v (programmer_offset tb) (word_bytes (programmer_byte tb))) } else tb in
  { tb' with state := (0, if Rtl.reset tb =? 1 then false else programmed || (finishedProgramming tb =? 1)) }.
Proof.
  destruct tb as [c r pv pb po pf ro ra hv hc hcc c0 c1 c2 c3 pm d [last pr]]. cbn [clock state Rtl.reset programmer_valid programmer_offset programmer_byte finishedProgramming]. intros ->.
  unfold tick_nodump, eval, PortModel.port_eval. cbn -[memcpy word_bytes]. destruct (negb pr && (pv =? 1)); reflexivity.
Qed.
#[global] Instance port_model_programs : @ProgrammerPort PortModel.clock_latch PortModel.port_eval PortModel.port_loading.
Proof.
  split; unfold PortModel.port_loading.
  - intros tb Hc. cbv zeta. rewrite port_tick by exact Hc. destruct (state tb) as [l pr]. destruct (negb pr && _); now repeat split.
  - intros tb Hc Hr. rewrite port_tick, Hr by exact Hc. destruct (state tb) as [l pr]. destruct (negb pr && _); reflexivity.
  - intros tb Hc Hr Hv Hf Hs. rewrite port_tick, Hr, Hv, Hf, Hs by exact Hc. reflexivity.
  - intros tb Hc Hr Hv Hf Hs. rewrite port_tick, Hr, Hv, Hf, Hs by exact Hc. split; reflexivity.
  - intros tb Hc Hr Hv Hf Hs. rewrite port_tick, Hr, Hv, Hf, Hs by exact Hc. reflexivity.
Qed.
Definition port_system : @Vsystem PortModel.clock_latch :=
  {| clock := 0; Rtl.reset := 0; programmer_valid := 0; programmer_byte := 0; programmer_offset := 0; finishedProgramming := 0;
     prober_offset := 0; prober_accessLong := 0; hostInput_valid := 0; hostInput_char := 0; hostInputConsumed := 0;
     core0 := idle_core; core1 := idle_core; core2 := idle_core; core3 := idle_core; periph_mtime := 0;
     dram := mkvec 64 ∅; state := (0, false) |}.
(** Eleven bytes; when they have been loaded the port is closed to a second image. *)
Definition image11 : list Z := [1; 2; 3; 4; 5; 6; 7; 8; 9; 10; 11].
Example port_closes :
  let x := (@load_image _ PortModel.port_eval (Some image11) (@do_reset _ PortModel.port_eval (port_system, 0))).2 in
  x.2 = 44 /\ forallb (fun i => vec_get (dram (@load_image _ PortModel.port_eval (Some [7]) x).2.1) i =? vec_get (dram x.1) i) (map Z.of_nat (seq 0 16)) = true.
Proof. vm_compute. split; reflexivity. Qed.
Lemma load_image_as_load_segment_witness :
  let x := @do_reset _ PortModel.port_eval (port_system, 0) in
  exists x2 s', @load_image _ PortModel.port_eval (Some image11) x = (true, @run_tick _ PortModel.port_eval ({ x2.1 with finishedProgramming := 0 }, x2.2)) /\
    load_segment (Some image11) 0 (simulator_new port_system) = Ok tt s' /\
    (forall i, 0 <= i < 11 -> vec_get (dram x2.1) i = default 0 (image11 !! Z.to_nat i)) /\
    forall i, vec_get (dram x2.1) i = if (11 <=? i) && (i <? 16) then 0 else vec_get (dram (tb s')) i.
Proof.
  apply (@load_image_as_load_segment PortModel.clock_latch PortModel.port_eval PortModel.port_loading port_model_programs image11 (port_system, 0) (simulator_new port_system)); try reflexivity.
  - repeat constructor; unfold is_u8; lia.
  - vm_compute. congruence.
Defined.

(** ** The two sides of the lock step *)

Lemma dram_word_le_value v off : dram_word v off = le_value 8 (fun j => vec_get v (off + j)).
Proof.
  unfold dram_word. cbn [seq fold_right le_value]. rewrite Z.mul_0_r, !Z.add_0_r. cbn [Z.of_nat Pos.of_succ_nat Pos.succ].
  repeat f_equal; lia.
Qed.

Lemma le_bytes_ext n : forall f g, (forall k, 0 <= k < Z.of_nat n -> f k = g k) -> le_value n f = le_value n g.
Proof.
  induction n as [|n IH]; intros f g Hfg; [reflexivity|]. cbn [le_value]. rewrite Hfg by lia. f_equal. f_equal.
  apply IH. intros k Hk. apply Hfg. lia.
Qed.

Lemma le_value_zero n : forall f, (forall k, 0 <= k -> 0 <= f k) -> le_value n f = 0 -> forall k, 0 <= k < Z.of_nat n -> f k = 0.
Proof.
  induction n as [|n IH]; intros f Hf Hz k Hk; [lia|]. cbn [le_value] in Hz.
  assert (Hn : forall m g, (forall j, 0 <= j -> 0 <= g j) -> 0 <= le_value m g).
  { induction m as [|m IHm]; intros g Hg; cbn [le_value]; [lia|]. pose proof (Hg 0 ltac:(lia)).
    pose proof (IHm (fun j => g (j + 1)) ltac:(intros; apply Hg; lia)). lia. }
  pose proof (Hn n (fun j => f (j + 1)) ltac:(intros; apply Hf; lia)). pose proof (Hf 0 ltac:(lia)).
  destruct (Z.eq_dec k 0) as [->|]; [lia|]. replace k with (k - 1 + 1) by lia.
  apply (IH (fun j => f (j + 1))); [intros; apply Hf; lia|lia|lia].
Qed.

(** An aligned address of DRAM as both sides index it. *)
Lemma aligned_offset k : 0 <= k < 0x1200000 ->
  Z.land (0x80000000 + 8 * k - 0x80000000) (u64 (Z.lnot 7)) = 8 * k /\ (0x80000000 + 8 * k - 0x80000000) / 8 = k /\
  outside_dram (0x80000000 + 8 * k) = false /\ (0x80000000 + 8 * k <? 0x80000000) = false.
Proof.
  intros Hk. replace (0x80000000 + 8 * k - 0x80000000) with (8 * k) by lia. split; [|split; [zlia|split; [|lia]]].
  - change (u64 (Z.lnot 7)) with (Z.shiftl (Z.ones 61) 3). rewrite Z.mul_comm. change 8 with (2 ^ 3).
    rewrite <- Z.shiftl_mul_pow2 by lia. rewrite <- Z.shiftl_land, Z.land_ones by lia. f_equal. apply Z.mod_small. lia.
  - unfold outside_dram. destruct (Z.ltb_spec (0x80000000 + 8 * k) 0x80000000), (Z.leb_spec (0x80000000 + 0x9000000) (0x80000000 + 8 * k)); try lia; reflexivity.
Qed.

(** The RTL side ([load_segment] at base 0) and the golden model's [init], given
    the same image of [n >= 8] bytes and zeroed memories: they agree on every
    aligned word of DRAM except the word the image ends in when [n] is not a
    multiple of 8. There the RTL has the last [n mod 8] bytes and the golden model
    has 0, so the two sides start from different memories unless those bytes are 0. *)
Theorem lockstep_images `{Model} `{Console} bytes s e :
  Forall is_u8 bytes -> (8 <= List.length bytes)%nat -> Z.of_nat (List.length bytes) <= 0x9000000 ->
  vec_size (dram (tb s)) = 0x10000000 -> vec_size (memory (shared e)) = 2 ^ 28 ->
  (forall i, vec_get (dram (tb s)) i = 0) -> (forall i, vec_get (memory (shared e)) i = 0) ->
  exists s' e', load_segment (Some bytes) 0 s = Ok tt s' /\ init bytes e = Ok tt e' /\
    forall k, 0 <= k < 0x1200000 ->
      exists g, read_mem64 (0x80000000 + 8 * k) e' = Ok g e' /\
        (g = read_dram64 s' (0x80000000 + 8 * k) <->
         (k = Z.of_nat (List.length bytes / 8) -> forall j, (8 * (List.length bytes / 8) <= j)%nat -> default 0 (bytes !! j) = 0)).
Proof.
  intros Hb Hl Hmax Hs He Hzs Hze. set (n := List.length bytes) in *. set (q := (n / 8)%nat).
  assert (Hq : (8 * q <= n < 8 * q + 8)%nat).
  { unfold q. pose proof (Nat.div_mod n 8 ltac:(lia)). pose proof (Nat.mod_upper_bound n 8 ltac:(lia)). lia. }
  unfold load_segment. rewrite Hs, Z.add_0_l, u64_id by (unfold is_u64; fold n; lia).
  destruct (Z.ltb_spec 0x10000000 (Z.of_nat (List.length bytes))) as [|_]; [fold n in H2; lia|].
  unfold init. rewrite (init_words_ge _ Hl) by (fold n; lia). fold n q.
  destruct (load_words_ok bytes q 0 e) as (e' & -> & _ & Esz & Eget & _); [rewrite He; change (2 ^ 28) with 268435456; lia|].
  eexists _, e'. split; [reflexivity|]. split; [reflexivity|]. intros k Hk.
  destruct (aligned_offset k Hk) as (A1 & A2 & A3 & A4).
  unfold read_mem64. rewrite A3, A2. unfold vec_in. rewrite Esz, He. change (2 ^ 28) with 268435456.
  destruct (Z.leb_spec 0 k), (Z.ltb_spec k 268435456); cbn [andb]; try lia.
  eexists. split; [reflexivity|]. rewrite Eget, Hze. unfold read_dram64. rewrite A4, A1.
  change (vec_size (dram (tb { s with tb -> dram ::= _ }))) with (vec_size (memcpy (dram (tb s)) 0 bytes)).
  rewrite memcpy_size, Hs, u64_id by (unfold is_u64; lia).
  destruct (Z.ltb_spec 0x10000000 (8 * k + 8)); [lia|].
  change (dram (tb { s with tb -> dram ::= _ })) with (memcpy (dram (tb s)) 0 bytes).
  rewrite dram_word_le_value.
  assert (Hw : le_value 8 (fun j => vec_get (memcpy (dram (tb s)) 0 bytes) (8 * k + j)) = le_word bytes (Z.to_nat k)).
  { rewrite le_word_value. apply le_bytes_ext. intros j Hj. rewrite memcpy_get, Hzs, Z.add_0_l, Z.sub_0_r.
    destruct (Z.leb_spec 0 (8 * k + j)), (Z.ltb_spec (8 * k + j) (Z.of_nat (List.length bytes))); cbn [andb]; try lia.
    - do 2 f_equal. lia.
    - rewrite lookup_ge_None_2 by lia. reflexivity. }
  rewrite Hw. clear Hw. cbn [Nat.add]. change (Z.of_nat 0) with 0.
  destruct (Z.leb_spec 0 k), (Z.ltb_spec k (Z.of_nat q)); cbn [andb]; try lia.
  rewrite le_word_value. split.
  - intros Heq Hkq j Hj. destruct (le_lt_dec n j) as [Hj'|Hj']; [rewrite lookup_ge_None_2 by (fold n; lia); reflexivity|].
    pose proof (le_value_zero 8 _ (fun k' _ => proj1 (bytes_u8 bytes _ Hb)) (eq_sym Heq) (Z.of_nat j - 8 * k)) as Hz.
    cbv beta in Hz. specialize (Hz ltac:(lia)). replace (8 * Z.to_nat k + Z.to_nat (Z.of_nat j - 8 * k))%nat with j in Hz by lia. exact Hz.
  - intros Htail. transitivity (le_value 8 (fun _ => 0)); [reflexivity|]. apply le_bytes_ext. intros j Hj. cbv beta.
    destruct (Z.eq_dec k (Z.of_nat q)) as [->|].
    + symmetry. apply Htail; [reflexivity|]. lia.
    + rewrite lookup_ge_None_2 by (fold n; lia). reflexivity.
Qed.
Definition image10 : list Z := [0x13; 0; 0; 0; 0x13; 0; 0; 0; 0x13; 5].
Lemma lockstep_images_witness :
  let s := simulator_new (script_system 0x10000000 []) in let e := emulator_new true time0 (keys [] 0) in
  exists s' e', load_segment (Some image10) 0 s = Ok tt s' /\ init image10 e = Ok tt e' /\
    forall k, 0 <= k < 0x1200000 ->
      exists g, read_mem64 (0x80000000 + 8 * k) e' = Ok g e' /\
        (g = read_dram64 s' (0x80000000 + 8 * k) <->
         (k = Z.of_nat (10 / 8) -> forall j, (8 * (10 / 8) <= j)%nat -> default 0 (image10 !! j) = 0)).
Proof.
  apply (lockstep_images image10 (simulator_new (script_system 0x10000000 [])) (emulator_new true time0 (keys [] 0))).
  - repeat constructor; unfold is_u8; lia.
  - cbn. lia.
  - cbn. lia.
  - reflexivity.
  - vm_compute. reflexivity.
  - intros i. reflexivity.
  - intros i. reflexivity.
Defined.
