(* ===== verification/Standalone.v ===== *)
(** * The standalone program: [main] of [sim/emulator/emulator_linux.cpp]

    The choice of the image, the raw mode of the terminal around the loop of [Emulator],
    and the handler of Ctrl-C. The theorem follows the local-mode flags of the terminal
    through every instruction: which ends of the program give the terminal back. *)

From Stdlib Require Import String Ascii.
From S2P Require Import Prelude Constants Alu Csr Clint Hart Trap Execute Emulator Safety Ends Boot Spec Refine System Image.
Local Open Scope Z_scope.

(** ** [main] *)

(** [(argc > 1 && argv[1][0] != '-') ? argv[1] : "sim/data/Image"] *)
Definition image_arg (argv : list string) : string :=
  match argv with
  | _ :: a :: _ => match a with String "-" _ => "sim/data/Image" | _ => a end
  | _ => "sim/data/Image"
  end%string.

Section Standalone.
Context `{Console}.
Local Open Scope prog_scope.
(** [tcflush(0, TCIFLUSH)], and the files by name. *)
Context (tcflush : tty -> tty) (files : string -> option (list Z)).

(** [emulator::init] with the test of the stream. *)
Definition init_image (image_name : string) : M emulator unit :=
  match files image_name with
  | None => exit_with 1
  | Some bytes => init bytes
  end.

(** [signal_callback_handler] *)
Definition signal_callback_handler (signum : Z) : M emulator bool :=
  with_hart 0 disable_raw_mode ;;;
  on_shared (fun w => { w with term ::= tcflush }) ;;;
  exit_with signum.

(** [main]: [n] iterations of the loop; if they have not ended the program and [sigint] is
    a signal, its handler. [true] when [main] has returned. *)
Definition standalone_main (argv : list string) (n : nat) (sigint : option Z) : M emulator bool :=
  let done := parse argv in
  init_image (image_arg argv) ;;;
  with_hart 0 enable_raw_mode ;;;
  returned <- main_loop done n ;;
  if returned : bool then ret true
  else match sigint with Some signum => signal_callback_handler signum | None => ret false end.
End Standalone.

Example image_of_flags : image_arg ["linux"; "--done-pc"; "0x80000bc8"]%string = "sim/data/Image"%string.
Proof. reflexivity. Qed.

(** ** The terminal *)

(** What the program relies on of the terminal calls. *)
Class TermLaws `{Console} (tcflush : tty -> tty) : Prop := {
  get_set : forall l t, tcgetattr_lflag (tcsetattr_lflag l t) = l;
  fionread_keeps : forall t, tcgetattr_lflag (ioctl_fionread t).2 = tcgetattr_lflag t;
  read_keeps : forall t, tcgetattr_lflag (read_byte t).2 = tcgetattr_lflag t;
  flush_keeps : forall t, tcgetattr_lflag (tcflush t) = tcgetattr_lflag t }.

#[export] Instance queue_laws : TermLaws (H := queue_console) (fun t => keys [] (tcgetattr_lflag t)).
Proof. split; intros; try reflexivity. cbn. now destruct t as [[|c l] f]. Qed.

Section Terminal.
Local Open Scope prog_scope.
Context `{HC : Console} (tcflush : tty -> tty) {HL : TermLaws tcflush}.

Definition lflag (w : world) : Z := tcgetattr_lflag (term w).
Definition cooked (w : world) : Prop := Z.land (lflag w) (Z.lor ICANON ECHO) = Z.lor ICANON ECHO.
Definition uncooked (w : world) : Prop := Z.land (lflag w) (Z.lor ICANON ECHO) = 0.
(** [m] leaves the flags alone; it ends the program with a cooked terminal, or at a refused
    atomic access. *)
Definition quiet {A} (m : M st A) (s : st) : Prop :=
  match m s with
  | Ok _ s' => lflag (wld s') = lflag (wld s)
  | Exit c s' => cooked (wld s') \/ (lflag (wld s') = lflag (wld s) /\ c = 1 /\ refused (hrt s'))
  | _ => True
  end.

Lemma quiet_bind {A B} (m : M st A) (f : A -> M st B) s : quiet m s -> (forall a s', m s = Ok a s' -> quiet (f a) s') -> quiet (bind m f) s.
Proof.
  unfold quiet, bind. intros Hm Hf. destruct (m s) as [a s'|c s'| |]; [|exact Hm|exact I|exact I].
  specialize (Hf a s' eq_refl). destruct (f a s') as [b s2|c s2| |]; [congruence| |exact I|exact I].
  destruct Hf as [Hc|(E & Hc)]; [now left|right]. split; [congruence|exact Hc].
Qed.
Lemma quiet_ret {A} (a : A) s : quiet (ret a) s.
Proof. reflexivity. Qed.
Lemma quiet_gets {A} (f : st -> A) s : quiet (gets f) s.
Proof. reflexivity. Qed.
Lemma quiet_on_hart f s : quiet (on_hart f) s.
Proof. reflexivity. Qed.
Lemma quiet_on_world f s : (forall w, term (f w) = term w) -> quiet (on_world f) s.
Proof. intros Hf. unfold quiet, lflag. cbn. now rewrite Hf. Qed.
Lemma quiet_mem_at i s : quiet (mem_at i) s.
Proof. unfold quiet, mem_at. now destruct (vec_in _ _). Qed.
Lemma quiet_mem_put i x s : quiet (mem_put i x) s.
Proof. unfold quiet, mem_put. now destruct (vec_in _ _). Qed.
Lemma quiet_check_timer h s : quiet (check_timer h) s.
Proof. unfold quiet, check_timer, checked. now destruct (check_timer_interrupt _ _). Qed.
Lemma quiet_check_software h s : quiet (check_software h) s.
Proof. unfold quiet, check_software, checked. now destruct (check_software_interrupt _ _). Qed.
Lemma quiet_clint_load a s : quiet (clint_load a) s.
Proof. unfold quiet, clint_load. now destruct (clint_read _ _). Qed.
Lemma quiet_kbhit s : quiet kbhit s.
Proof. unfold quiet, kbhit, lflag. pose proof (fionread_keeps (term (wld s))) as E. destruct (ioctl_fionread _) as [[r n] t]. exact E. Qed.
Lemma quiet_read_stdin s : quiet read_stdin s.
Proof. unfold quiet, read_stdin, lflag. pose proof (read_keeps (term (wld s))) as E. destruct (read_byte _) as [[r n] t]. exact E. Qed.

(** The walk through a member function: what remains is what ends the program. *)
Ltac quiet :=
  repeat first
    [ apply quiet_ret | apply quiet_gets | apply quiet_on_hart | apply quiet_mem_at | apply quiet_mem_put
    | apply quiet_check_timer | apply quiet_check_software | apply quiet_clint_load | apply quiet_kbhit | apply quiet_read_stdin
    | apply quiet_on_world; reflexivity
    | match goal with |- quiet (bind _ _) _ => apply quiet_bind; [|intros ? ? _] end
    | progress unfold when, get_hart, get_world, bump_store_gen, put_char, clint_store
    | match goal with |- quiet (if ?b then _ else _) _ => destruct b end ].

Lemma quiet_fetch pc s : quiet (hart_fetch_instruction pc) s.
Proof. unfold hart_fetch_instruction, getINST. quiet. Qed.
Lemma quiet_csr_write L a v s : quiet (csr_write L a v) s.
Proof. unfold csr_write. quiet. Qed.
Lemma quiet_exec_load L s : quiet (exec_load L) s.
Proof. unfold exec_load, uart_load. quiet. Qed.
Lemma quiet_exec_store L s : quiet (exec_store L) s.
Proof. unfold exec_store, store_commit. quiet. Qed.
Lemma quiet_exec_systm L s : quiet (exec_systm L) s.
Proof. unfold exec_systm, exec_csr, exec_priv. quiet; apply quiet_csr_write. Qed.

(** The atomics: outside DRAM the program ends, with the hart at the refused access. *)
Lemma quiet_amo_frame a (m : M st unit) s : opcode (lt (hrt s)) = op_amo -> (forall s', quiet m s') ->
  quiet (on_hart (fun h => { h with tm -> load_addr := a }) ;;; if negb (in_dram_amo a) then exit_with 1 else m) s.
Proof.
  intros Hop Hm. destruct (in_dram_amo a) eqn:Ha; cbn [negb].
  - apply quiet_bind; [apply quiet_on_hart|]. intros _ s' _. apply Hm.
  - right. split; [reflexivity|]. split; [reflexivity|]. split; [exact Hop|exact Ha].
Qed.
Lemma quiet_exec_amo s : opcode (lt (hrt s)) = op_amo -> quiet exec_amo s.
Proof.
  intros Hop. unfold exec_amo. apply quiet_bind; [apply quiet_gets|]. intros h s' [= <- <-].
  destruct (_ =? 2); [|destruct (_ =? 3); [|apply quiet_ret]].
  - unfold exec_amo_w. apply quiet_bind; [apply quiet_gets|]. intros h s' [= <- <-]. apply quiet_amo_frame; [exact Hop|]. intros s'.
    unfold exec_lr_w, exec_sc_w, exec_amo_rmw_w, amo_store. quiet.
  - unfold exec_amo_d. apply quiet_bind; [apply quiet_gets|]. intros h s' [= <- <-]. apply quiet_amo_frame; [exact Hop|]. intros s'.
    unfold exec_lr_d, exec_sc_d, exec_amo_rmw_d, amo_store. quiet.
Qed.
Lemma quiet_exec_instr L s : quiet (exec_instr L) s.
Proof.
  unfold exec_instr. apply quiet_bind; [apply quiet_gets|]. intros h s' [= <- <-].
  repeat match goal with |- quiet (if ?o =? ?c then _ else _) _ => destruct (Z.eqb_spec o c) end;
    match goal with
    | |- quiet (on_hart _) _ => apply quiet_on_hart
    | |- quiet (exec_load _) _ => apply quiet_exec_load
    | |- quiet (exec_store _) _ => apply quiet_exec_store
    | |- quiet exec_amo _ => now apply quiet_exec_amo
    | |- quiet (exec_systm _) _ => apply quiet_exec_systm
    | |- quiet (ret _) _ => apply quiet_ret
    end.
Qed.

(** Raw mode and back. *)
Lemma cooked_disable s : exists s', disable_raw_mode s = Ok tt s' /\ hrt s' = hrt s /\ cooked (wld s').
Proof.
  eexists. split; [reflexivity|split; [reflexivity|]]. unfold cooked, lflag. cbn. rewrite (get_set (tcflush := tcflush)).
  generalize (Z.lor ICANON ECHO). intros m. apply Z.bits_inj'. intros i Hi. rewrite Z.land_spec, Z.lor_spec.
  destruct (Z.testbit m i); [now rewrite orb_true_r|apply andb_false_r].
Qed.
Lemma raw_enable s : exists s', enable_raw_mode s = Ok tt s' /\ hrt s' = hrt s /\ uncooked (wld s').
Proof.
  eexists. split; [reflexivity|split; [reflexivity|]]. unfold uncooked, lflag. cbn. rewrite (get_set (tcflush := tcflush)).
  generalize (Z.lor ICANON ECHO). intros m. unfold u32. change 0x100000000 with (2 ^ 32). rewrite <- (Z.land_ones _ 32) by lia.
  apply Z.bits_inj'. intros i Hi. rewrite !Z.land_spec, Z.bits_0, Z.lnot_spec by lia. destruct (Z.testbit m i); cbn [negb andb]; now rewrite ?andb_false_r.
Qed.

Lemma quiet_completion L s : quiet (completion_check L) s.
Proof.
  unfold completion_check. apply quiet_bind; [apply quiet_gets|]. intros h s' _. destruct L; [apply quiet_ret|].
  assert (Hend : forall c, quiet (disable_raw_mode ;;; exit_with (A := unit) c) s').
  { intros c. destruct (cooked_disable s') as (s2 & E & _ & Hc). unfold quiet, bind. rewrite E. left. exact Hc. }
  destruct (_ && _); [apply Hend|]. destruct (_ =? _); [apply Hend|apply quiet_ret].
Qed.
Lemma quiet_step L s : quiet (hart_step L) s.
Proof.
  unfold hart_step, park_check, refresh_mip, wfi_check. quiet.
  all: match goal with
    | |- quiet (hart_fetch_instruction _) _ => apply quiet_fetch
    | |- quiet (completion_check _) _ => apply quiet_completion
    | |- quiet (exec_instr _) _ => apply quiet_exec_instr
    end.
Qed.
Lemma quiet_interrupts s : quiet (hart_set_interrupts false) s.
Proof. unfold hart_set_interrupts, refresh_mip. quiet. Qed.

(** ** The loop *)

(** What the loop does to the machine, one member function at a time. *)
Inductive loop_step : emulator -> emulator -> Prop :=
| loop_tick e : loop_step e { e with shared -> clint ::= (fun c => advance c 1) }
| loop_hart i e e' : step_hart_only false i e = Ok tt e' -> loop_step e e'
| loop_irq i e e' : with_hart i (hart_set_interrupts false ;;; ret tt) e = Ok tt e' -> loop_step e e'.

(** How the program may stop while the flags are [l]. *)
Definition stopped (l c : Z) (e : emulator) : Prop :=
  cooked (shared e) \/ (lflag (shared e) = l /\ c = 1 /\ exists h, h ∈ harts e /\ refused h).

Section Loop.
Context (l : Z) (e0 : emulator).

(** The state between two member functions: the flags are held, the machine is well-formed
    and comes from [e0]. *)
Record held (e : emulator) : Prop := {
  held_flags : lflag (shared e) = l; held_wf : emu_wf e; held_harts : length (harts e) = 4%nat; held_from : rtc loop_step e0 e }.
(** Where undefined behaviour starts. *)
Definition undefined : Prop := exists e, held e /\ exists h, h ∈ harts e /\ misnumbered h.

Definition erun {A} (m : M emulator A) (Q : A -> emulator -> Prop) (e : emulator) : Prop :=
  match m e with Ok a e' => Q a e' | Exit c e' => stopped l c e' | Throw _ => False | UB => undefined end.

Lemma erun_bind {A B} (m : M emulator A) (f : A -> M emulator B) Q e : erun m (fun a e' => erun (f a) Q e') e -> erun (bind m f) Q e.
Proof. unfold erun, bind. destruct (m e); auto. Qed.
Lemma erun_mono {A} (m : M emulator A) (Q R : A -> emulator -> Prop) e : erun m Q e -> (forall a e', Q a e' -> R a e') -> erun m R e.
Proof. unfold erun. destruct (m e); auto. Qed.
Lemma erun_with_hart {A} i (m : M st A) e : (i < 4)%nat -> (forall s, quiet m s) -> sound m ->
  (forall a e', with_hart i m e = Ok a e' -> rtc loop_step e e') -> held e -> erun (with_hart i m) (fun _ => held) e.
Proof.
  intros Hi Hm Hsnd Hl [Hf [Hwf Hww] Hn Hfrom]. unfold erun. destruct (lookup_lt_is_Some_2 (harts e) i ltac:(lia)) as [h Hh].
  specialize (Hm (mkst _ h (shared e))). unfold quiet in Hm. specialize (Hl).
  specialize (Hsnd (mkst _ h (shared e)) ltac:(split; [eapply Forall_lookup_1; eassumption|exact Hww])).
  unfold with_hart in *. rewrite Hh in *. destruct (m _) as [a s|c s| |].
  - cbn [hrt wld] in *. split; cbn [shared harts]; [congruence| |now rewrite length_insert|].
    + destruct Hsnd. split; [apply Forall_insert; assumption|assumption].
    + etransitivity; [exact Hfrom|]. now apply (Hl a).
  - cbn [shared harts hrt wld] in *. destruct Hm as [Hc|(E & -> & Hr)]; [now left|right]. split; [cbn [shared]; congruence|]. split; [reflexivity|].
    exists (hrt s). split; [|exact Hr]. eapply list_elem_of_lookup_2, list_lookup_insert_eq, lookup_lt_Some, Hh.
  - exact Hsnd.
  - exists e. split; [now split|]. exists h. split; [eapply list_elem_of_lookup_2, Hh|exact Hsnd].
Qed.
Lemma erun_step i e : (i < 4)%nat -> held e -> erun (step_hart_only false i) (fun _ => held) e.
Proof.
  intros Hi. apply erun_with_hart; [exact Hi|intros s; apply quiet_step|apply sound_step|].
  intros [] e' E. apply rtc_once, (loop_hart i), E.
Qed.
Lemma erun_get {A} i (f : st -> A) e : (i < 4)%nat -> held e -> erun (with_hart i (gets f)) (fun _ => held) e.
Proof.
  intros Hi. apply erun_with_hart; [exact Hi|intros s; apply quiet_gets|intros s Hs; exact Hs|].
  intros a e' E. unfold with_hart in E. destruct (harts e !! i) as [h|] eqn:Hh; [|discriminate]. cbn in E. injection E as _ <-.
  rewrite list_insert_id by exact Hh. now destruct e.
Qed.

Lemma erun_stop_loop i k : (i < 4)%nat -> forall e, held e -> erun (stop_loop i k) (fun _ => held) e.
Proof.
  intros Hi. induction k as [|k IH]; intros e He; [exact He|]. cbn [stop_loop]. apply erun_bind. eapply erun_mono; [apply erun_step, He; exact Hi|]. cbv beta. intros _ e1 H1.
  apply erun_bind. eapply erun_mono; [apply erun_get, H1; exact Hi|]. cbv beta. intros pc e2 H2. destruct (in_stop_region pc); [now apply IH|exact H2].
Qed.

(** [main] returns with a cooked terminal, or goes on. *)
Definition given_back (b : bool) (e : emulator) : Prop := if b then cooked (shared e) else held e.

Lemma erun_main_hart done i e : (i < 4)%nat -> held e -> erun (main_hart done i) given_back e.
Proof.
  intros Hi He. unfold main_hart. apply erun_bind. eapply erun_mono; [apply erun_step, He; exact Hi|]. cbv beta. intros _ e1 H1.
  apply erun_bind. eapply erun_mono; [apply erun_get, H1; exact Hi|]. cbv beta. intros pc e2 H2. apply erun_bind. apply (erun_mono _ given_back).
  - destruct (active done); [|exact H2]. apply erun_bind. eapply erun_mono; [apply erun_get, H2; exact Hi|]. cbv beta. intros r e3 H3.
    destruct (hit _ _ _); [|exact H3]. unfold erun, bind, with_hart. destruct (lookup_lt_is_Some_2 (harts e3) i ltac:(destruct H3; lia)) as [h ->].
    destruct (cooked_disable (mkst _ h (shared e3))) as (s & -> & _ & Hc). exact Hc.
  - intros [|] e3 H3; [exact H3|]. apply erun_bind. apply (erun_mono _ (fun _ => held)).
    + destruct (in_stop_region pc); [now apply erun_stop_loop|exact H3].
    + cbv beta. intros _ e4 H4. exact H4.
Qed.
Lemma erun_main_harts done hs : Forall (fun i => (i < 4)%nat) hs -> forall e, held e -> erun (main_harts done hs) given_back e.
Proof.
  induction 1 as [|i hs Hi _ IH]; intros e He; [exact He|]. cbn [main_harts]. apply erun_bind. eapply erun_mono; [apply erun_main_hart, He; exact Hi|].
  intros [|] e1 H1; [exact H1|now apply IH].
Qed.
Lemma erun_deliver hs : Forall (fun i => (i < 4)%nat) hs -> forall e, held e -> erun (for_harts hs (hart_set_interrupts false ;;; ret tt)) (fun _ => held) e.
Proof.
  induction 1 as [|i hs Hi _ IH]; intros e He; [exact He|]. cbn [for_harts]. apply erun_bind. eapply erun_mono.
  - apply erun_with_hart; [exact Hi| |apply sound_interrupts| |exact He].
    + intros s. apply quiet_bind; [apply quiet_interrupts|]. intros a s' _. apply quiet_ret.
    + intros [] e' E. apply rtc_once, (loop_irq i), E.
  - cbv beta. intros _ e1 H1. now apply IH.
Qed.
Lemma held_tick e : held e -> held { e with shared -> clint ::= (fun c => advance c 1) }.
Proof.
  intros [Hf [Hh Hw] Hn Hr]. split; [exact Hf| |exact Hn|eapply rtc_r; [exact Hr|apply loop_tick]].
  split; [exact Hh|]. destruct Hw. constructor; try assumption. apply (advance_wf _ 1). assumption.
Qed.
Lemma below_4 n : n = 4%nat -> Forall (fun i => (i < 4)%nat) (seq 0 n).
Proof. intros ->. repeat constructor. Qed.
Lemma erun_main_loop done n : forall e, held e -> erun (main_loop done n) given_back e.
Proof.
  induction n as [|n IH]; intros e He; [exact He|]. cbn [main_loop]. apply erun_bind. apply (erun_mono _ given_back).
  - unfold main_iteration. apply erun_bind. change (erun tick_only (fun _ e' => erun (stop <- main_harts done (seq 0 (Z.to_nat NUM_HARTS)) ;;
      if stop : bool then ret true else deliver_interrupts false ;;; ret false) given_back e') e).
    unfold erun at 1, tick_only, on_clint, on_shared. cbn [modify]. apply erun_bind. eapply erun_mono; [apply erun_main_harts; [now apply below_4|apply held_tick, He]|].
    intros [|] e1 H1; [exact H1|]. apply erun_bind. eapply erun_mono; [apply erun_deliver; [apply below_4, H1|exact H1]|]. cbv beta. intros _ e2 H2. exact H2.
  - intros [|] e1 H1; [exact H1|now apply IH].
Qed.
End Loop.

(** Loading the image: the bytes fit, or the program ends before it touches the terminal. *)
Lemma le_word_u64 bytes k : Forall is_u8 bytes -> is_u64 (le_word bytes k).
Proof.
  intros Hb. unfold le_word, is_u64. pose proof (fun j => bytes_u8 bytes (8 * k + j)%nat Hb) as H. unfold is_u8 in H.
  pose proof (H 0%nat). pose proof (H 1%nat). pose proof (H 2%nat). pose proof (H 3%nat).
  pose proof (H 4%nat). pose proof (H 5%nat). pose proof (H 6%nat). pose proof (H 7%nat). lia.
Qed.
Lemma load_words_sound bytes n : Forall is_u8 bytes -> forall k e, emu_wf e ->
  match load_words bytes n k e with
  | Ok _ e' => emu_wf e' /\ harts e' = harts e /\ term (shared e') = term (shared e)
  | Throw e' => term (shared e') = term (shared e) /\ vec_size (memory (shared e)) < Z.of_nat (k + n)
  | _ => False
  end.
Proof.
  intros Hb. induction n as [|n IH]; intros k e He; [now split|]. cbn [load_words]. unfold vec_in at 1. destruct (_ && _) eqn:Hk.
  - set (e1 := { e with shared -> memory ::= _ }). specialize (IH (S k) e1).
    assert (He1 : emu_wf e1).
    { destruct He as [Hh []]. split; [exact Hh|]. constructor; try assumption. cbn. apply vec_put_wf; [assumption|now apply le_word_u64]. }
    specialize (IH He1). destruct (load_words bytes n (S k) e1); try exact IH. destruct IH as [IH1 IH2]. split; [exact IH1|].
    change (vec_size (memory (shared e1))) with (vec_size (memory (shared e))) in IH2. lia.
  - split; [reflexivity|]. lia.
Qed.

(** The machine when the loop starts. *)
Definition started (bytes : list Z) (e e0 : emulator) : Prop :=
  (init bytes ;;; with_hart 0 enable_raw_mode) e = Ok tt e0.
End Terminal.

(** C37: Every end of the standalone program, for a machine that is well-formed (as the
    constructor leaves it) and files of bytes. The terminal is given back (canonical mode and echo
    on) when [main] returns and when the program or its Ctrl-C handler calls [exit], with one
    exception: an atomic access outside DRAM ends it with status 1 and the terminal raw. It ends
    before raw mode is entered when the image cannot be opened, and by an exception when the
    image is larger than the memory; nothing throws after that. Undefined behaviour can be reached
    only in the loop, with the terminal raw, from a machine whose guest has overwritten a hart
    number with one the CLINT does not have. While the loop runs the terminal is raw. *)
Theorem standalone_terminal `{Console} tcflush `{!TermLaws tcflush} files argv n sigint e :
  emu_wf e -> length (harts e) = 4%nat -> (forall name bytes, files name = Some bytes -> Forall is_u8 bytes) ->
  match standalone_main tcflush files argv n sigint e with
  | Ok true e' => cooked (shared e')
  | Ok false e' => uncooked (shared e') /\ sigint = None
  | Exit c e' =>
    (files (image_arg argv) = None /\ c = 1 /\ e' = e) \/
    cooked (shared e') \/
    (uncooked (shared e') /\ c = 1 /\ exists h, h ∈ harts e' /\ refused h)
  | Throw e' => lflag (shared e') = lflag (shared e) /\
    exists bytes, files (image_arg argv) = Some bytes /\ vec_size (memory (shared e)) < Z.of_nat (init_words bytes)
  | UB => exists bytes e0 e', files (image_arg argv) = Some bytes /\ started bytes e e0 /\ rtc loop_step e0 e' /\
    uncooked (shared e') /\ exists h, h ∈ harts e' /\ misnumbered h
  end.
Proof.
  intros He Hn Hfiles. unfold standalone_main, init_image, started, bind at 1. destruct (files (image_arg argv)) as [bytes|] eqn:Hf; [|left; now split].
  pose proof (load_words_sound bytes (init_words bytes) (Hfiles _ _ Hf) 0 e He) as Hi. unfold init.
  destruct (load_words bytes _ _ e) as [[] e1| |e1|] eqn:El; [|contradiction|split; [unfold lflag; f_equal; apply Hi|exists bytes; split; [reflexivity|apply Hi]]|contradiction].
  destruct Hi as (He1 & Eh & _). destruct (lookup_lt_is_Some_2 (harts e1) 0) as [h Hh]; [rewrite Eh, Hn; lia|].
  destruct (raw_enable tcflush (mkst _ h (shared e1))) as (s & Es & _ & Hraw).
  set (e2 := mkemu (<[0%nat := hrt s]> (harts e1)) (wld s)).
  assert (Eraw : with_hart 0 enable_raw_mode e1 = Ok tt e2) by (unfold with_hart; now rewrite Hh, Es).
  rewrite (bind_ok _ _ _ _ _ Eraw).
  assert (Hheld : held (lflag (shared e2)) e2 e2).
  { split; [reflexivity| |cbn [harts e2]; now rewrite length_insert, Eh|apply rtc_refl].
    injection Es as <-. destruct He1 as [Hwf []]. split; cbn.
    - apply Forall_insert; [exact Hwf|]. eapply Forall_lookup_1; eassumption.
    - constructor; assumption. }
  pose proof (erun_main_loop tcflush (lflag (shared e2)) e2 (parse argv) n e2 Hheld) as Hl. unfold erun, bind in *.
  destruct (main_loop (parse argv) n e2) as [[|] e3|c e3| |]; [exact Hl| | |contradiction|].
  - destruct sigint as [signum|]; [|split; [|reflexivity]].
    + unfold signal_callback_handler, bind, with_hart. destruct (lookup_lt_is_Some_2 (harts e3) 0) as [h3 ->]; [destruct Hl; lia|].
      destruct (cooked_disable tcflush (mkst _ h3 (shared e3))) as (s3 & -> & _ & Hc). right. left.
      unfold cooked, lflag in *. cbn. rewrite (flush_keeps (tcflush := tcflush)). exact Hc.
    + unfold uncooked. rewrite (held_flags _ _ _ Hl). exact Hraw.
  - right. destruct Hl as [Hc|(E & -> & Hr)]; [now left|right]. split; [unfold uncooked; rewrite E; exact Hraw|split; [reflexivity|exact Hr]].
  - destruct Hl as (e4 & H4 & Hbad). exists bytes, e2, e4. split; [reflexivity|]. split; [unfold init, bind; now rewrite El, Eraw|].
    split; [apply H4|]. split; [unfold uncooked; rewrite (held_flags _ _ _ H4); exact Hraw|exact Hbad].
Qed.

(** [amoadd.w x0, x0, (x0)] twice, and [j .] twice. *)
Definition amo_image : list Z := [0x2f; 0x20; 0; 0; 0x2f; 0x20; 0; 0].
Definition spin_image : list Z := [0x6f; 0; 0; 0; 0x6f; 0; 0; 0].
Definition flush_queue (t : @tty queue_console) : @tty queue_console := keys [] (tcgetattr_lflag t).
Definition disk (name : string) : option (list Z) :=
  if String.eqb name "amo.bin" then Some amo_image else if String.eqb name "spin.bin" then Some spin_image else None.
Definition powered : emulator := emulator_new false time0 (keys [65] 0x1a).

Lemma disk_bytes name bytes : disk name = Some bytes -> Forall is_u8 bytes.
Proof. unfold disk. destruct (String.eqb _ _); [|destruct (String.eqb _ _); [|discriminate]]; intros [= <-]; repeat constructor; unfold is_u8; lia. Qed.

(** An atomic access at address 0 ends the program with the terminal raw. *)
Lemma refused_leaves_raw :
  match standalone_main flush_queue disk ["linux"; "amo.bin"]%string 1 None powered with
  | Exit c e' => c = 1 /\ lflag (shared e') = 0x10
  | _ => False
  end.
Proof. vm_compute. split; reflexivity. Qed.

(** A guest that writes 4 to its hart number makes the next interrupt test undefined. *)
Definition renumber_image : list Z := [0x73; 0x50; 0x42; 0xf1; 0x6f; 0; 0; 0].
Lemma renumbering_is_undefined :
  standalone_main flush_queue (fun _ => Some renumber_image) ["linux"]%string 1 None powered = UB.
Proof. vm_compute. reflexivity. Qed.

(** The completion PC is met in the first iteration; Ctrl-C discards the input as well. *)
Lemma standalone_terminal_witness :
  match standalone_main flush_queue disk ["linux"; "spin.bin"; "--done-pc"; "0x80000000"]%string 1 None powered with
  | Ok true e' => cooked (shared e')
  | _ => False
  end /\
  match standalone_main flush_queue disk ["linux"; "spin.bin"]%string 2 (Some 2) powered with
  | Exit 2 e' => term (shared e') = keys [] 0x1a
  | _ => False
  end.
Proof.
  split; [|vm_compute; reflexivity].
  pose proof (standalone_terminal flush_queue disk ["linux"; "spin.bin"; "--done-pc"; "0x80000000"]%string 1 None powered (proj1 (emulator_new_wf false _)) eq_refl disk_bytes) as T.
  assert (E : match standalone_main flush_queue disk ["linux"; "spin.bin"; "--done-pc"; "0x80000000"]%string 1 None powered with Ok true _ => True | _ => False end) by (vm_compute; exact I).
  destruct (standalone_main flush_queue disk _ 1 None powered) as [[|] e'| | |]; try contradiction. exact T.
Defined.
