(* ===== verification/Lockstep.v ===== *)
(** * The single-core lock-step harnesses: [sim/harness/lockstep.cpp] and [lockstep_isa.cpp]

    The two programs run the RTL driver ([Rtl.simulator]) and the golden model
    ([Emulator.emulator], compiled with [LOCKSTEP]) side by side: after each
    commit of core 0 the PC and the registers are compared, then the RTL runs to
    its next commit and the golden model steps once, and on through the CSR
    instructions the RTL does not report.

    [main] is a loop without bound; [lockstep_loop n] makes at most [n]
    iterations and [OutOfFuel] says that the loop still runs, or that the inner
    loop over CSR instructions took more than [n] steps. The text the logs are
    formatted with and [show_state] are not modelled: a log is the list of the
    values printed in each line. *)

From S2P Require Import Prelude Constants Alu MemAccess Csr Clint Hart Trap Execute Emulator Safety Boot Rtl.

(** ** State *)

Record keystroke_buffer := { reader : Z; writer : Z; char_buffer : list Z }.

Inductive message :=
| PCMismatch (emulator_pc insn simulator_pc : Z)
| RegisterMismatch (bad value ticks : Z)
| ShowState (hart : Z)
| TestComplete | TestFailed
| ProgramCycles (n : Z)
| TimeOutMessage (total_ticks : Z).

Inductive verdict := Continue | Break | Return (code : Z) | OutOfFuel.

Record harness `{Verilated} `{Console} := mkharness {
  bench : simulator; golden : emulator; keys_rx : keystroke_buffer;
  run_log : list (Z * Z * Z);       (* cycle, PC, instruction *)
  state_log : list Z;               (* instruction *)
  regs_log : list (Z * list Z);     (* PC as an int, x0..x31 *)
  count_start : Z; count_stop : Z;
  said : list message }.

Section Lockstep.
Context `{Model} `{Console} (STEP_TIMEOUT : nat).
(** [getchar()], which reads the same standard input as the golden model's UART. *)
Context (getchar : tty -> Z * tty).
Local Open Scope prog_scope.

(** ** The two sides *)

Definition on_golden {A} (m : M emulator A) : M harness A := fun s =>
  match m (golden s) with
  | Ok a g => Ok a { s with golden := g }
  | Exit c g => Exit c { s with golden := g }
  | Throw g => Throw { s with golden := g }
  | UB => UB
  end.
Definition on_bench {A} (f : simulator -> A * simulator) : M harness A := fun s =>
  let '(a, b) := f (bench s) in Ok a { s with bench := b }.
Definition say (m : message) : M harness unit := modify (fun s => { s with said ::= (fun l => l ++ [m]) }).

Definition bench_step (dump_waves : bool) : simulator -> Z * simulator :=
  if dump_waves then sim_step false STEP_TIMEOUT else step_nodump false STEP_TIMEOUT.

(** An instruction of the SYSTEM opcode with a non-zero [funct3]: a CSR access. *)
Definition is_csr_insn (i : Z) : bool := (Z.land i 0x7f =? 0x73) && negb (Z.land i 0x7000 =? 0).
(** [while (is_csr_insn(golden_model.get_instruction(0))) golden_model.step();]
    [false] when [n] steps do not end it. *)
Fixpoint skip_csrs (n : nat) : M emulator bool :=
  i <- emu_get_instruction 0 ;;
  if is_csr_insn i
  then match n with O => ret false | S n => step true ;;; skip_csrs n end
  else ret true.
Definition golden_advance (n : nat) : M emulator bool := step true ;;; skip_csrs n.

(** The golden model's part of a keystroke: [kbhit] and [getchar]. *)
Definition poll_key : M emulator (option Z) := fun e =>
  let '(r, waiting, t) := ioctl_fionread (term (shared e)) in
  let e := { e with shared -> term := t } in
  if (if r <? 0 then false else 0 <? waiting)
  then let '(ch, t) := getchar t in Ok (Some (u8 ch)) { e with shared -> term := t }
  else Ok None e.

(** [keys_rx.char_buffer[keys_rx.writer++] = ch] and the advance of the reader. *)
Definition push_key (ch : Z) : M harness unit := fun s =>
  let k := keys_rx s in
  if writer k <? 128 then
    let w := u8 (writer k + 1) in
    Ok tt { s with keys_rx := {| reader := u8 (reader k + (if reader k =? w then 1 else 0)); writer := w;
                                 char_buffer := <[Z.to_nat (writer k) := ch]> (char_buffer k) |} }
  else UB.
Definition read_key : M harness unit :=
  k <- on_golden poll_key ;;
  match k with Some ch => push_key ch | None => ret tt end.

(** ** One iteration *)

(** The golden model's part of a log line: its PC and, twice, its instruction. *)
Definition golden_line : M emulator (Z * Z * Z) :=
  p <- emu_get_pc 0 ;; i <- emu_get_instruction 0 ;; j <- emu_get_instruction 0 ;; ret (p, i, j).

Definition log_commit (show_state : bool) : M harness unit :=
  l <- on_golden golden_line ;;
  let '(p, i, j) := l in
  modify (fun s => { s with run_log ::= (fun l => l ++ [(cycles (bench s), p, i)]);
                            state_log ::= (fun l => l ++ [j]) }) ;;;
  when show_state (say (ShowState 0)) ;;;
  modify (fun s => { s with regs_log ::= (fun l => l ++ [(return_instruction (bench s) 0, return_registers (bench s) 0)]) }).

(** The state comparison. *)
Definition compare : M harness verdict :=
  p <- on_golden (emu_get_pc 0) ;;
  s <- gets id ;;
  if negb (prev_pc (bench s) =? p) then
    i <- on_golden (emu_get_instruction 0) ;;
    say (PCMismatch p i (prev_pc (bench s))) ;;; say (ShowState 0) ;;; ret Break
  else
    regs <- on_golden (emu_reg_file 0) ;;
    ms <- on_golden (emu_get_mstatus 0) ;;
    match check_registers (bench s) 0 regs ms with
    | None => undefined
    | Some bad =>
      if bad =? 0 then ret Continue
      else
        say (RegisterMismatch bad (read_register (bench s) 0 bad) (u64 (tickcount (bench s) + dump_tick (bench s)))) ;;;
        say (ShowState 0) ;;;
        modify (fun s => { s with bench ::= Nat.iter 5 (fun b => (sim_step false STEP_TIMEOUT b).2) }) ;;;
        ret Break
    end.

(** Advance both models by one commit. *)
Definition advance_both (n : nat) (dump_waves : bool) : M harness verdict :=
  xx <- on_bench (bench_step dump_waves) ;;
  if xx =? 1 then ret Break
  else if xx =? 0 then
    ended <- on_golden (golden_advance n) ;; ret (if ended : bool then Continue else OutOfFuel)
  else
    xx <- on_bench (bench_step dump_waves) ;;
    if xx =? 1 then ret (Return 1)
    else ended <- on_golden (golden_advance n) ;; ret (if ended : bool then Continue else OutOfFuel).

(** The program-cycle window. *)
Definition count_window (count_start_pc count_stop_pc : Z) (s : harness) : harness :=
  if negb (count_start_pc =? 0) && (prev_pc (bench s) =? count_start_pc)
  then { s with count_start := dump_tick (bench s) }
  else if negb (count_stop_pc =? 0) && (prev_pc (bench s) =? count_stop_pc)
  then { s with count_stop := dump_tick (bench s) }
  else s.

(** The command line of [lockstep.cpp]; [lockstep_isa.cpp] has no completion and no window. *)
Record options := {
  show_state : bool; dump_waves : bool; completion : Completion; count_start_pc : Z; count_stop_pc : Z }.

Definition completion_check (o : options) : M harness verdict :=
  s <- gets id ;;
  if hit (completion o) (prev_pc (bench s)) (read_register (bench s) 0 10) then
    say TestComplete ;;;
    when (negb (count_start_pc o =? 0) && negb (count_stop_pc o =? 0) && (count_start s <=? count_stop s))
      (say (ProgramCycles (s64 (count_stop s - count_start s)))) ;;;
    ret (Return 0)
  else ret Continue.

Definition isa_check : M harness verdict :=
  s <- gets id ;;
  match isa_test_status (read_register (bench s) 0 3) (read_register (bench s) 0 17) with
  | Pass => say TestComplete ;;; ret (Return 0)
  | Failed => say TestFailed ;;; ret (Return 1)
  | Running => ret Continue
  end.

(** [x] and, unless it leaves the loop, [k]. *)
Definition and_then (x k : M harness verdict) : M harness verdict :=
  v <- x ;; match v with Continue => k | v => ret v end.

(** What the two loops share: everything up to the termination test. *)
Definition round (n : nat) (show waves : bool) (check : M harness verdict) : M harness verdict :=
  read_key ;;; log_commit show ;;; and_then compare (and_then (advance_both n waves) check).
Definition iteration (n : nat) (o : options) : M harness verdict :=
  round n (show_state o) (dump_waves o)
    (modify (count_window (count_start_pc o) (count_stop_pc o)) ;;; completion_check o).
Definition isa_iteration (n : nat) (show waves : bool) : M harness verdict := round n show waves isa_check.

(** ** The programs *)

Fixpoint loop (iter : M harness verdict) (n : nat) : M harness verdict :=
  match n with
  | O => ret OutOfFuel
  | S n => and_then iter (loop iter n)
  end.

(** After [break]. *)
Definition timed_out (isa : bool) : M harness verdict :=
  modify (fun s => { s with said ::= (fun l => l ++ [TimeOutMessage (s64 (tickcount (bench s) + dump_tick (bench s)))]) }) ;;;
  let last := (on_golden (step true) ;;; i <- on_golden (emu_get_instruction 0) ;;
               modify (fun s => { s with state_log ::= (fun l => l ++ [i]) }) ;;; when isa (say (ShowState 0))) in
  last ;;; last ;;; ret (Return 1).
Definition finish (isa : bool) (x : M harness verdict) : M harness verdict :=
  v <- x ;; match v with Break => timed_out isa | v => ret v end.

(** From the point where both sides are initialised. *)
Definition start : M harness unit :=
  modify (fun s => { s with bench ::= set_probe (Z.land (0xCA3BF0 - 136) (u64 (Z.lnot 7))) }) ;;;
  on_bench (step_nodump false STEP_TIMEOUT) ;;; ret tt.
Definition lockstep_main (n : nat) (o : options) : M harness verdict := start ;;; finish false (loop (iteration n o) n).
Definition lockstep_isa_main (n : nat) (show waves : bool) : M harness verdict :=
  start ;;; finish true (loop (isa_iteration n show waves) n).

(** ** What a PASS means *)

(** Core 0 of the RTL and hart 0 of the golden model show the same PC, the same
    x1..x31 and the same mstatus. *)
Definition agree (b : simulator) (g : emulator) : Prop := exists h,
  harts g !! 0%nat = Some h /\ prev_pc b = PC h /\
  (forall i, 1 <= i <= 31 -> reg_file h !! Z.to_nat i = Some (Rtl.reg b 0 i)) /\ Rtl.reg b 0 32 = get_mstatus h.

(** Each side on its own: the RTL after [k] rounds, the golden model after [k]
    rounds, and as the comparison of the next round sees it. *)
Definition rtl_round (waves : bool) (b : simulator) : option simulator :=
  let '(rc, b) := bench_step waves b in
  if rc =? 1 then None else if rc =? 0 then Some b
  else let '(rc, b) := bench_step waves b in if rc =? 1 then None else Some b.
Fixpoint rtl_after (waves : bool) (k : nat) (b : simulator) : option simulator :=
  match k with O => Some b | S k => match rtl_round waves b with Some b => rtl_after waves k b | None => None end end.
Definition golden_seen (g : emulator) : option emulator :=
  match (poll_key ;;; golden_line) g with Ok _ g => Some g | _ => None end.
Definition golden_round (n : nat) (g : emulator) : option emulator :=
  match golden_seen g with
  | Some g => match golden_advance n g with Ok true g => Some g | _ => None end
  | None => None
  end.
Fixpoint golden_after (n k : nat) (g : emulator) : option emulator :=
  match k with O => Some g | S k => match golden_round n g with Some g => golden_after n k g | None => None end end.

Lemma on_golden_inv {A} (m : M emulator A) s a s' : on_golden m s = Ok a s' ->
  m (golden s) = Ok a (golden s') /\ bench s' = bench s.
Proof. unfold on_golden. destruct (m (golden s)) as [x g| | |]; intros E; try discriminate. injection E as <- <-. split; reflexivity. Qed.

Lemma with_hart_gets {A} (f : hart -> A) i g a g' : with_hart i (gets (fun s => f (hrt s))) g = Ok a g' ->
  g' = g /\ exists h, harts g !! i = Some h /\ a = f h.
Proof.
  unfold with_hart. destruct (harts g !! i) as [h|] eqn:E; [|discriminate]. cbn. intros Heq. injection Heq as <- <-.
  split; [|eauto]. rewrite list_insert_id by exact E. destruct g. reflexivity.
Qed.

Lemma read_key_inv s u s' : read_key s = Ok u s' ->
  bench s' = bench s /\ exists k, poll_key (golden s) = Ok k (golden s').
Proof.
  intros E. apply bind_inv in E as (k & s1 & E1 & E2). apply on_golden_inv in E1 as [E1 Eb].
  rewrite <- Eb. destruct k as [ch|].
  - unfold push_key in E2. destruct (writer (keys_rx s1) <? 128); [|discriminate]. injection E2 as _ <-. split; [reflexivity|].
    exists (Some ch). exact E1.
  - injection E2 as _ <-. split; [reflexivity|]. exists None. exact E1.
Qed.

Lemma log_commit_inv show s u s' : log_commit show s = Ok u s' ->
  bench s' = bench s /\ exists l, golden_line (golden s) = Ok l (golden s').
Proof.
  intros E. apply bind_inv in E as ([[p i] j] & s1 & E1 & E2). apply on_golden_inv in E1 as [E1 Eb].
  apply bind_inv in E2 as (u1 & s2 & E2 & E3). injection E2 as _ <-.
  apply bind_inv in E3 as (u2 & s3 & E3 & E4). injection E4 as _ <-.
  rewrite <- Eb. destruct show; injection E3 as _ <-; split; eauto.
Qed.

Lemma first_mismatch_zero b hart correct : forall n i, 0 < i -> first_mismatch b hart correct i n = Some 0 ->
  forall j, i <= j < i + Z.of_nat n -> correct !! Z.to_nat j = Some (Rtl.reg b hart j).
Proof.
  induction n as [|n IH]; intros i Hi E j Hj; [lia|]. cbn [first_mismatch] in E.
  destruct (correct !! Z.to_nat i) as [c|] eqn:Ec; [|discriminate].
  destruct (Z.eqb_spec (Rtl.reg b hart i) c) as [Ei|]; [|injection E as ->; lia].
  destruct (Z.eq_dec i j) as [<-|]; [congruence|]. apply (IH (i + 1)); [lia|exact E|lia].
Qed.

Lemma check_registers_zero b hart correct ms : check_registers b hart correct ms = Some 0 ->
  (forall i, 1 <= i <= 31 -> correct !! Z.to_nat i = Some (Rtl.reg b hart i)) /\ Rtl.reg b hart 32 = ms.
Proof.
  unfold check_registers. destruct (first_mismatch b hart correct 1 31) as [r|] eqn:E; [|discriminate].
  destruct r as [|r|r]; try discriminate.
  destruct (Z.eqb_spec (Rtl.reg b hart 32) ms) as [E2|]; [|discriminate]. intros _. split; [|exact E2].
  intros i Hi. apply (first_mismatch_zero b hart correct 31 1); [lia|exact E|lia].
Qed.

Lemma compare_inv s v s' : compare s = Ok v s' ->
  v = Break \/ v = Continue /\ bench s' = bench s /\ golden s' = golden s /\ agree (bench s) (golden s).
Proof.
  intros E. apply bind_inv in E as (p & s1 & E1 & E). apply on_golden_inv in E1 as [E1 B1].
  apply with_hart_gets in E1 as [G1 (h & Hh & ->)].
  apply bind_inv in E as (s0 & s2 & E2 & E). injection E2 as <- <-.
  destruct (Z.eqb_spec (prev_pc (bench s1)) (get_pc h)) as [Hpc|Hpc]; cbn [negb] in E.
  - apply bind_inv in E as (regs & s3 & E3 & E). apply on_golden_inv in E3 as [E3 B3].
    apply with_hart_gets in E3 as [G3 (h3 & Hh3 & ->)].
    apply bind_inv in E as (ms & s4 & E4 & E). apply on_golden_inv in E4 as [E4 B4].
    apply with_hart_gets in E4 as [G4 (h4 & Hh4 & ->)].
    assert (h3 = h) as -> by congruence. assert (h4 = h) as -> by congruence.
    destruct (check_registers (bench s1) 0 (reg_file h) (get_mstatus h)) as [bad|] eqn:Ec; [|discriminate].
    destruct (Z.eqb_spec bad 0) as [->|].
    + injection E as <- <-. right. split; [reflexivity|]. split; [congruence|]. split; [congruence|].
      apply check_registers_zero in Ec as [Hr Hm]. rewrite B1 in *. exists h. auto.
    + apply bind_inv in E as (u1 & s5 & E5 & E). apply bind_inv in E as (u2 & s6 & E6 & E).
      apply bind_inv in E as (u3 & s7 & E7 & E). injection E as <- _. left. reflexivity.
  - apply bind_inv in E as (i & s3 & E3 & E). apply bind_inv in E as (u1 & s5 & E5 & E). apply bind_inv in E as (u2 & s6 & E6 & E).
    injection E as <- _. left. reflexivity.
Qed.

Lemma advance_both_inv n waves s v s' : advance_both n waves s = Ok v s' ->
  v = Break \/ v = Return 1 \/ v = OutOfFuel \/
  v = Continue /\ rtl_round waves (bench s) = Some (bench s') /\ golden_advance n (golden s) = Ok true (golden s').
Proof.
  intros E. apply bind_inv in E as (xx & s1 & E1 & E). unfold on_bench in E1. unfold rtl_round.
  destruct (bench_step waves (bench s)) as [rc b]. injection E1 as <- <-.
  destruct (rc =? 1); [injection E as <- _; auto|]. destruct (rc =? 0).
  - apply bind_inv in E as (ended & s2 & E2 & E). apply on_golden_inv in E2 as [E2 B2].
    destruct ended; injection E as <- <-; [|auto]. do 3 right. rewrite B2. auto.
  - apply bind_inv in E as (xx & s2 & E2 & E). unfold on_bench in E2. cbn [bench] in E2.
    change (bench { s with bench := b }) with b in E2. destruct (bench_step waves b) as [rc' b']. injection E2 as <- <-.
    destruct (rc' =? 1); [injection E as <- _; auto|].
    apply bind_inv in E as (ended & s3 & E3 & E). apply on_golden_inv in E3 as [E3 B3].
    destruct ended; injection E as <- <-; [|auto]. do 3 right. rewrite B3. auto.
Qed.

(** A termination test reads the two sides only. *)
Definition reads (check : M harness verdict) : Prop := forall s v s', check s = Ok v s' -> bench s' = bench s /\ golden s' = golden s.

(** The rounds of a loop that ends with [Return 0]. *)
Lemma loop_pass n show waves check m : reads check -> forall s s',
  loop (round n show waves check) m s = Ok (Return 0) s' ->
  exists k b s1, (k < m)%nat /\ rtl_after waves (S k) (bench s) = Some b /\ bench s1 = b /\ check s1 = Ok (Return 0) s' /\
    forall i, (i <= k)%nat -> exists bi gi gi', rtl_after waves i (bench s) = Some bi /\
      golden_after n i (golden s) = Some gi /\ golden_seen gi = Some gi' /\ agree bi gi'.
Proof.
  intros Hreads. induction m as [|m IH]; intros s s' E; [discriminate|]. cbn [loop] in E.
  apply bind_inv in E as (v & s5 & E & Enext).
  apply bind_inv in E as (u1 & s1 & E1 & E). apply read_key_inv in E1 as [B1 (key & K1)].
  apply bind_inv in E as (u2 & s2 & E2 & E). apply log_commit_inv in E2 as [B2 (l & L2)].
  apply bind_inv in E as (v3 & s3 & E3 & E). apply compare_inv in E3 as [->|(-> & B3 & G3 & Hagree)]; [injection E as <- <-; discriminate|].
  apply bind_inv in E as (v4 & s4 & E4 & E).
  apply advance_both_inv in E4 as [->|[->|[->|(-> & Hr & Hg)]]]; try (injection E as <- <-; discriminate).
  assert (Hseen : golden_seen (golden s) = Some (golden s2)) by (unfold golden_seen, bind; rewrite K1, L2; reflexivity).
  assert (Hb : bench s2 = bench s) by congruence. rewrite Hb in *. rewrite B3 in Hr. rewrite G3 in Hg.
  assert (Hfirst : exists bi gi gi', rtl_after waves 0 (bench s) = Some bi /\ golden_after n 0 (golden s) = Some gi /\
      golden_seen gi = Some gi' /\ agree bi gi') by (exists (bench s), (golden s), (golden s2); auto).
  assert (Hs5 := Hreads _ _ _ E). destruct Hs5 as [B5 G5].
  destruct v as [| |code|]; try discriminate.
  - destruct (IH s5 s' Enext) as (k & b & s6 & Hk & Hb6 & E6 & Ec & Hi). rewrite B5, G5 in *.
    exists (S k), b, s6. split; [lia|]. split; [cbn [rtl_after] in *; rewrite Hr; exact Hb6|]. split; [exact E6|]. split; [exact Ec|].
    intros [|i] Hle; [exact Hfirst|]. destruct (Hi i ltac:(lia)) as (bi & gi & gi' & R1 & R2 & R3).
    exists bi, gi, gi'. cbn [rtl_after golden_after]. rewrite Hr. unfold golden_round. rewrite Hseen, Hg. auto.
  - injection Enext as -> ->. exists 0%nat, (bench s4), s4. split; [lia|].
    split; [cbn; rewrite Hr; reflexivity|]. split; [reflexivity|]. split; [exact E|].
    intros i Hi. assert (i = 0%nat) as -> by lia. exact Hfirst.
Qed.
End Lockstep.

Section Pass.
Context `{Model} `{Console}.

Lemma bench_window a b (s : harness) : bench (count_window a b s) = bench s /\ golden (count_window a b s) = golden s.
Proof. unfold count_window. destruct (_ && _); [split; reflexivity|]. destruct (_ && _); split; reflexivity. Qed.

Lemma completion_check_inv o s v s' : completion_check o s = Ok v s' ->
  bench s' = bench s /\ golden s' = golden s /\
  (v = Return 0 -> hit (completion o) (prev_pc (bench s)) (Rtl.reg (bench s) 0 10) = true).
Proof.
  unfold completion_check, bind, gets. cbn [id]. change (read_register (bench s) 0 10) with (Rtl.reg (bench s) 0 10).
  destruct (hit _ _ _); [|intros E; injection E as <- <-; repeat split; discriminate].
  unfold say, when, modify, ret. destruct (_ && _); intros E; injection E as <- <-; repeat split.
Qed.

Lemma window_check_reads o :
  reads (modify (count_window (count_start_pc o) (count_stop_pc o)) ;;; completion_check o)%prog.
Proof.
  intros s v s' E. unfold bind, modify in E. apply completion_check_inv in E as (-> & -> & _). apply bench_window.
Qed.

Lemma isa_check_inv s v s' : isa_check s = Ok v s' ->
  bench s' = bench s /\ golden s' = golden s /\
  (v = Return 0 -> Rtl.reg (bench s) 0 3 = 1 /\ Rtl.reg (bench s) 0 17 = 93).
Proof.
  unfold isa_check, bind, gets. cbn [id]. change (read_register (bench s) 0 3) with (Rtl.reg (bench s) 0 3).
  change (read_register (bench s) 0 17) with (Rtl.reg (bench s) 0 17). unfold isa_test_status, say, modify, ret.
  destruct (Z.eqb_spec (Rtl.reg (bench s) 0 17) 93); cbn [negb]; [destruct (Z.eqb_spec (Rtl.reg (bench s) 0 3) 1)|];
    intros E; injection E as <- <-; repeat split; congruence.
Qed.

Lemma bench_start_inv T s u s' : start T s = Ok u s' ->
  bench s' = (step_nodump false T (set_probe (Z.land (0xCA3BF0 - 136) (u64 (Z.lnot 7))) (bench s))).2 /\ golden s' = golden s.
Proof.
  intros E. unfold start, bind, modify, on_bench in E.
  change (bench { s with bench ::= _ }) with (set_probe (Z.land (0xCA3BF0 - 136) (u64 (Z.lnot 7))) (bench s)) in E.
  destruct (step_nodump false T _) as [rc b]. injection E as _ <-. split; reflexivity.
Qed.

Lemma finish_pass isa x s s' : finish isa x s = Ok (Return 0) s' -> x s = Ok (Return 0) s'.
Proof.
  intros E. apply bind_inv in E as (v & s1 & Ex & E).
  destruct v; try (injection E as -> <-; exact Ex); try discriminate.
  exfalso. repeat (apply bind_inv in E as (? & ? & _ & E)). injection E as E. discriminate.
Qed.
End Pass.

(** C21: When [lockstep.out] ends with exit code 0, there is a [k] such that after
    each of the first [k + 1] commits the RTL, run on its own, and the golden
    model, stepped on its own, had the same PC, the same x1..x31 and the same
    mstatus on core 0, and the commit that follows is at a done-PC with the
    required a0. That last commit itself was not compared. *)
Theorem lockstep_pass_agrees `{Model} `{Console} T getchar n o s s' :
  lockstep_main T getchar n o s = Ok (Return 0) s' ->
  let b0 := (step_nodump false T (set_probe (Z.land (0xCA3BF0 - 136) (u64 (Z.lnot 7))) (bench s))).2 in
  exists k b, rtl_after T (dump_waves o) (S k) b0 = Some b /\ bench s' = b /\
    hit (completion o) (prev_pc b) (Rtl.reg b 0 10) = true /\
    forall i, (i <= k)%nat -> exists bi gi gi', rtl_after T (dump_waves o) i b0 = Some bi /\
      golden_after getchar n i (golden s) = Some gi /\ golden_seen getchar gi = Some gi' /\ agree bi gi'.
Proof.
  intros E. cbv zeta. apply bind_inv in E as (u & s0 & Es & E). apply bench_start_inv in Es as [<- <-].
  apply finish_pass in E.
  destruct (loop_pass T getchar n _ _ _ n (window_check_reads o) s0 s' E) as (k & b & s1 & _ & Hr & Eb & Ec & Hi).
  exists k, b. split; [exact Hr|]. unfold bind, modify in Ec. apply completion_check_inv in Ec as (B & _ & Hh).
  destruct (bench_window (count_start_pc o) (count_stop_pc o) s1) as [Bw _]. rewrite Bw, Eb in *.
  split; [exact B|]. split; [apply Hh; reflexivity|]. exact Hi.
Qed.

(** The same for the ISA tests: exit code 0 needs gp = 1 and a7 = 93. *)
Lemma lockstep_isa_pass_agrees `{Model} `{Console} T getchar n show waves s s' :
  lockstep_isa_main T getchar n show waves s = Ok (Return 0) s' ->
  let b0 := (step_nodump false T (set_probe (Z.land (0xCA3BF0 - 136) (u64 (Z.lnot 7))) (bench s))).2 in
  exists k b, rtl_after T waves (S k) b0 = Some b /\ bench s' = b /\ Rtl.reg b 0 3 = 1 /\ Rtl.reg b 0 17 = 93 /\
    forall i, (i <= k)%nat -> exists bi gi gi', rtl_after T waves i b0 = Some bi /\
      golden_after getchar n i (golden s) = Some gi /\ golden_seen getchar gi = Some gi' /\ agree bi gi'.
Proof.
  intros E. cbv zeta. apply bind_inv in E as (u & s0 & Es & E). apply bench_start_inv in Es as [<- <-].
  apply finish_pass in E.
  assert (Hreads : reads isa_check) by (intros x v x' Ex; apply isa_check_inv in Ex as (-> & -> & _); split; reflexivity).
  destruct (loop_pass T getchar n show waves _ n Hreads s0 s' E) as (k & b & s1 & _ & Hr & Eb & Ec & Hi).
  exists k, b. apply isa_check_inv in Ec as (B & _ & Hh). rewrite Eb in *. destruct (Hh eq_refl). auto.
Qed.

(** ** Concrete runs *)

(** A program of two additions, and the core ports at its commits. *)
Definition adds : list (Z * Z) := [(0, 0x0070011300500093)].  (* addi x1, x0, 5; addi x2, x0, 7 *)
Definition golden_with (cells : list (Z * Z)) : emulator :=
  { (emulator_new true time0 (keys [] 0)) with shared := boot_world cells (keys [] 0) }.
Definition no_keys : list Z * Z -> Z * (list Z * Z) := fun t => (-1, t).
Definition mstatus0 : Z := get_mstatus (hart_init true 0).
Definition core_at (p : Z) (regs : list (Z * Z)) : core_ports :=
  { (commit_at p) with registersOut := fun i =>
      if i =? 32 then mstatus0 else default 0 (snd <$> List.find (fun x => x.1 =? i) regs) }.
Definition commits (l : list core_ports) : list (list core_ports) := map (fun c => [c; idle_core; idle_core; idle_core]) l.
Definition harness_new (frames : list (list core_ports)) (cells : list (Z * Z)) : harness :=
  {| bench := simulator_new (script_system 0 frames); golden := golden_with cells;
     keys_rx := {| reader := 0; writer := 0; char_buffer := replicate 128 0 |};
     run_log := []; state_log := []; regs_log := []; count_start := 0; count_stop := 0; said := [] |}.
Definition done_at (p : Z) : options :=
  {| show_state := false; dump_waves := false; completion := {| done_pcs := [p]; have_a0 := false; a0_val := 0 |};
     count_start_pc := 0x80000000; count_stop_pc := p |}.
Definition good_run : harness :=
  harness_new (commits [core_at 0x80000000 []; core_at 0x80000004 [(1, 5)]; core_at 0x80000008 [(1, 5); (2, 7)]]) adds.
Definition end_state (r : outcome harness verdict) : harness := match r with Ok _ s => s | _ => good_run end.

Lemma lockstep_pass_agrees_witness :
  let s' := end_state (lockstep_main 5 no_keys 5 (done_at 0x80000008) good_run) in
  lockstep_main 5 no_keys 5 (done_at 0x80000008) good_run = Ok (Return 0) s' /\
  let b0 := (step_nodump false 5 (set_probe (Z.land (0xCA3BF0 - 136) (u64 (Z.lnot 7))) (bench good_run))).2 in
  exists k b, rtl_after 5 false (S k) b0 = Some b /\ bench s' = b /\
    hit (completion (done_at 0x80000008)) (prev_pc b) (Rtl.reg b 0 10) = true /\
    forall i, (i <= k)%nat -> exists bi gi gi', rtl_after 5 false i b0 = Some bi /\
      golden_after no_keys 5 i (golden good_run) = Some gi /\ golden_seen no_keys gi = Some gi' /\ agree bi gi'.
Proof.
  assert (E : lockstep_main 5 no_keys 5 (done_at 0x80000008) good_run =
    Ok (Return 0) (end_state (lockstep_main 5 no_keys 5 (done_at 0x80000008) good_run))) by (vm_compute; reflexivity).
  split; [exact E|]. exact (lockstep_pass_agrees 5 no_keys 5 (done_at 0x80000008) good_run _ E).
Defined.

(** The commit at the done-PC is not compared: this core jumps there after one
    instruction, where the golden model has reached another PC, and passes. *)
Theorem last_commit_unchecked :
  let s := harness_new (commits [core_at 0x80000000 []; core_at 0x80000BC8 []]) adds in
  exists s' h, lockstep_main 5 no_keys 5 (done_at 0x80000BC8) s = Ok (Return 0) s' /\
    said s' = [TestComplete; ProgramCycles 0] /\ harts (golden s') !! 0%nat = Some h /\
    PC h = 0x80000004 /\ prev_pc (bench s') = 0x80000BC8 /\
    reg_file h !! 1%nat = Some 5 /\ Rtl.reg (bench s') 0 1 = 0.
Proof.
  cbv zeta. set (r := lockstep_main _ _ _ _ _). exists (end_state r), (default (hart_init true 0) (harts (golden (end_state r)) !! 0%nat)).
  vm_compute. auto 10.
Qed.

(** [keys_rx] has room for 128 keys and [writer] counts to 255: the 129th keystroke
    of a run is written past the end of the buffer. *)
Theorem keystroke_129_overflows `{Verilated} `{Console} chs ch (s : harness) :
  keys_rx s = {| reader := 0; writer := 0; char_buffer := replicate 128 0 |} -> length chs = 128%nat ->
  exists s', fold_left (fun m c => m ;;; push_key c)%prog chs (ret tt) s = Ok tt s' /\ push_key ch s' = UB.
Proof.
  intros Hk Hl.
  enough (Hn : forall n, (n <= 128)%nat -> exists s', fold_left (fun m c => m ;;; push_key c)%prog (firstn n chs) (ret tt) s = Ok tt s' /\
      writer (keys_rx s') = Z.of_nat n).
  { destruct (Hn 128%nat ltac:(lia)) as (s' & E & Ew). rewrite firstn_all2 in E by lia. exists s'. split; [exact E|].
    unfold push_key. rewrite Ew. reflexivity. }
  induction n as [|n IH]; intros Hle; [exists s; rewrite Hk; auto|]. destruct IH as (s1 & E & Ew); [lia|].
  destruct (nth_lookup_or_length chs n 0) as [Hc|]; [|lia].
  erewrite take_S_r by exact Hc. rewrite fold_left_app. cbn [fold_left]. unfold bind at 1. rewrite E. unfold push_key. rewrite Ew.
  destruct (Z.ltb_spec (Z.of_nat n) 128); [|lia]. eexists. split; [reflexivity|].
  cbn. unfold u8. rewrite Z.mod_small by lia. lia.
Qed.
