(* ===== verification/Quad.v ===== *)
(** * The four-hart lock-step harness: [sim/harness/lockstep_quad.cpp]

    At every clock in which some hart commits, each committing hart is brought
    to the comparison: a pending load of [mtime] takes the RTL's value, a trap
    the RTL has entered is delivered on the golden side, then PC, registers and
    mstatus are compared; a mismatch in the destination of the memory operation
    the golden model executed last is reconciled by adopting the RTL's outcome.
    Then the golden hart makes its step.

    [apply_pending_mtime_rd], [golden_step_hart], [amo_result] and [splice_word]
    have the same text in [lockstep_linux.cpp]. Loops over CSR instructions take
    [n] steps at most; [None] and [OutOfFuel] say that they did not end. Console
    text is a list of [message]s, a log a list of frames. *)

From S2P Require Import Prelude Constants Alu MemAccess Csr Clint Hart Trap Execute Emulator Safety Boot Spec Refine MemInstr Atomics Rtl Lockstep.

(** ** Memory operations under reconciliation *)

Record MemOp := mkmemop {
  valid : bool; kind : Z;       (* 0 none, 1 load, 2 LR, 3 SC, 4 AMO *)
  rd : Z; width : Z; funct5 : Z; addr : Z; rs2val : Z; oldword : Z }.
Definition MemOp_init : MemOp := mkmemop false 0 0 8 0 0 0 0.

Definition sext32 (v : Z) : Z := u64 (s32 v).
Definition amo_result (funct5 width oldv rs2 : Z) : Z :=
  let oldv := if width =? 4 then sext32 oldv else oldv in
  let rs2 := if width =? 4 then sext32 rs2 else rs2 in
  if funct5 =? 0x00 then u64 (oldv + rs2)
  else if funct5 =? 0x01 then rs2
  else if funct5 =? 0x04 then Z.lxor oldv rs2
  else if funct5 =? 0x08 then Z.lor oldv rs2
  else if funct5 =? 0x0c then Z.land oldv rs2
  else if funct5 =? 0x10 then (if s64 oldv <? s64 rs2 then oldv else rs2)
  else if funct5 =? 0x14 then (if s64 rs2 <? s64 oldv then oldv else rs2)
  else if funct5 =? 0x18 then (if oldv <? rs2 then oldv else rs2)
  else if funct5 =? 0x1c then (if rs2 <? oldv then oldv else rs2)
  else oldv.

Definition splice_word (word8 addr width value : Z) : Z :=
  if width =? 8 then value
  else if negb (Z.land addr 4 =? 0) then Z.lor (Z.land word8 0x00000000ffffffff) (u64 (Z.shiftl value 32))
  else Z.lor (Z.land word8 0xffffffff00000000) (Z.land value 0xffffffff).

(** [addr & ~7] *)
Definition align8 (a : Z) : Z := Z.land a (u64 (Z.lnot 7)).
Definition kClintMtime : Z := 0x0200bff8.

(** ** State *)

Inductive qmessage :=
| QMismatch (kind : Z) (matched : Z) (hart : nat) (cycle : Z) (rtl_pcs golden_pcs : list Z)  (* 0 stall, 1 PC, 2 register *)
| QValues (r rtl golden : Z) (diffs : list (Z * Z * Z))
| QPCs (emulator insn rtl : Z)
| QShowState (hart : nat)
| RacyFixup (n : Z) (hart : nat) (pc kind r rtl golden addr site_n : Z)
| QComplete (matched : Z) (per_hart : list Z) (racy : Z)
| QProgress (matched cycle : Z) (per_hart : list Z)
| QTimeOut (ticks matched : Z) (per_hart : list Z).

(** One tick of the logs: the cycle, and per core the PC, the golden
    instruction and the RTL registers. *)
Record frame := { f_cycle : Z; f_cores : list (Z * Z * list Z) }.

Record quad `{Verilated} `{Console} := mkquad {
  qbench : simulator; qgolden : emulator;
  msip_latch : list Z; pending_mtime_rd : list Z; last_memop : list MemOp;
  racy_fixups : Z; fixup_seen : gmap Z Z;
  matched : Z; matched_per_hart : list Z;
  frames : list frame; qsaid : list qmessage }.

Section Quad.
Context `{Model} `{Console} (STEP_TIMEOUT : nat).
Local Open Scope prog_scope.

Definition golden_do {A} (m : M emulator A) : M quad A := fun s =>
  match m (qgolden s) with
  | Ok a g => Ok a { s with qgolden := g }
  | Exit c g => Exit c { s with qgolden := g }
  | Throw g => Throw { s with qgolden := g }
  | UB => UB
  end.
Definition rtl {A} (f : simulator -> A) : M quad A := gets (fun s => f (qbench s)).
Definition qsay (m : qmessage) : M quad unit := modify (fun s => { s with qsaid ::= (fun l => l ++ [m]) }).
Definition hart_ix (h : nat) : Z := Z.of_nat h.

(** [x] for every hart in turn, with the results. *)
Fixpoint collect {A} (l : list nat) (x : nat -> M quad A) : M quad (list A) :=
  match l with
  | [] => ret []
  | h :: l => a <- x h ;; r <- collect l x ;; ret (a :: r)
  end.
Fixpoint each (l : list nat) (x : nat -> M quad unit) : M quad unit :=
  match l with
  | [] => ret tt
  | h :: l => x h ;;; each l x
  end.

(** ** Before the comparison *)

Definition apply_pending_mtime_rd (h : nat) : M quad unit :=
  s <- gets id ;;
  let rd := default (-1) (pending_mtime_rd s !! h) in
  if rd <? 0 then ret tt
  else
    modify (fun s => { s with pending_mtime_rd ::= <[h := -1]> }) ;;;
    if rd =? 0 then ret tt
    else golden_do (emu_set_register_with_value (u8 rd) (Rtl.reg (qbench s) (hart_ix h) (u8 rd)) h).

(** The CSR instructions the RTL hides, stepped through on one golden hart. *)
Fixpoint skip_hart_csrs (n : nat) (h : nat) : M emulator bool :=
  i <- emu_get_instruction h ;;
  if is_csr_insn i
  then match n with O => ret false | S n => step_hart_only true h ;;; skip_hart_csrs n h end
  else ret true.

(** [golden_model.step_hart_only(h)] and the CSR loop. *)
Definition step_hart_csrs (n : nat) (h : nat) : M emulator bool := step_hart_only true h ;;; skip_hart_csrs n h.

Definition in_trap_window (tv pc : Z) : bool := (tv <=? pc) && (pc <? u64 (tv + 16)).

(** The catch-up loop of the forced trap, at most [g] steps. *)
Fixpoint catch_up (g n : nat) (h : nat) (tv rp : Z) : M emulator bool :=
  match g with
  | O => ret true
  | S g =>
    gpc <- emu_get_pc h ;;
    if gpc =? rp then ret true
    else if negb (in_trap_window tv gpc && (gpc <? rp)) then ret true
    else ended <- step_hart_csrs n h ;; if ended : bool then catch_up g n h tv rp else ret false
  end.

(** The registers and mstatus of hart [h] of the RTL, written into the golden hart. *)
Fixpoint adopt_gprs (b : simulator) (h : nat) (r : Z) (k : nat) : M emulator unit :=
  match k with
  | O => ret tt
  | S k => emu_set_register_with_value r (read_register b (hart_ix h) r) h ;;; adopt_gprs b h (r + 1) k
  end.
Definition adopt_state (b : simulator) (h : nat) : M emulator unit :=
  adopt_gprs b h 1 31 ;;; emu_set_mstatus h (read_register b (hart_ix h) 32).

(** The decision, on the PCs of the two sides. *)
Definition must_take (b : simulator) (h : nat) (gp : Z) : bool :=
  let rp := default 0 (last_commit_pc b !! h) in
  let tv := Rtl.mtvec b (hart_ix h) in
  let rtl_in_trap_entry := negb (tv =? 0) && in_trap_window tv rp in
  negb (rp =? gp) && negb (in_trap_window tv gp) && (commit_interrupt b (hart_ix h) || rtl_in_trap_entry).

Definition force_take (n : nat) (h : nat) : M quad (option bool) :=
  b <- rtl id ;;
  let rp := default 0 (last_commit_pc b !! h) in
  let tv := Rtl.mtvec b (hart_ix h) in
  (if Rtl.mcause b (hart_ix h) =? 0x8000000000000003
   then golden_do (emu_take_machine_soft_irq h) else golden_do (emu_take_machine_timer_irq h)) ;;;
  (let rtl_mepc := Rtl.mepc b (hart_ix h) in
   if negb (rtl_mepc =? 0) then golden_do (emu_set_mepc h rtl_mepc) else ret tt) ;;;
  ended <- golden_do (catch_up 32 n h tv rp) ;;
  if ended : bool then
    gp <- golden_do (emu_get_pc h) ;;
    when (gp =? rp) (golden_do (adopt_state b h)) ;;;
    ret (Some true)
  else ret None.

(** [force_take_if_needed]; [None] when a CSR loop did not end. *)
Definition force_take_if_needed (n : nat) (h : nat) : M quad (option bool) :=
  gp <- golden_do (emu_get_pc h) ;;
  b <- rtl id ;;
  if must_take b h gp then force_take n h else ret (Some false).

(** ** Reconciliation *)

(** The memory part: SC and AMO outcomes redone from the RTL's [rd]. *)
Definition reconcile_memory (op : MemOp) (rtl_rd gold_rd : Z) : M emulator unit :=
  if kind op =? 3 then
    w8 <- read_mem64 (align8 (addr op)) ;;
    if (rtl_rd =? 0) && negb (gold_rd =? 0)
    then write_mem64 (align8 (addr op)) (splice_word w8 (addr op) (width op) (rs2val op))
    else if negb (rtl_rd =? 0) && (gold_rd =? 0)
    then write_mem64 (align8 (addr op)) (oldword op)
    else ret tt
  else if kind op =? 4 then
    let neww := amo_result (funct5 op) (width op) rtl_rd (rs2val op) in
    w8 <- read_mem64 (align8 (addr op)) ;;
    write_mem64 (align8 (addr op)) (splice_word w8 (addr op) (width op) neww)
  else ret tt.

(** The bookkeeping of the message. *)
Definition count_fixup (h : nat) (r rtl_pc : Z) (op : MemOp) (rtl_rd gold_rd : Z) : M quad unit :=
  modify (fun s => { s with racy_fixups := u64 (racy_fixups s + 1) }) ;;;
  let site := Z.lor (u64 (Z.shiftl (hart_ix h) 62)) rtl_pc in
  modify (fun s => { s with fixup_seen ::= (fun m => <[site := u32 (default 0 (m !! site) + 1)]> m) }) ;;;
  s <- gets id ;;
  let n_site := default 0 (fixup_seen s !! site) in
  when ((n_site <=? 5) || (racy_fixups s mod 1000 =? 0))
    (qsay (RacyFixup (racy_fixups s) h rtl_pc (kind op) r rtl_rd gold_rd (addr op) n_site)).

Definition reconcile_racy (h : nat) (r rtl_pc : Z) : M quad bool :=
  s <- gets id ;;
  let op := default MemOp_init (last_memop s !! h) in
  if (r <? 1) || (31 <? r) || negb (valid op) || negb (r =? rd op) then ret false
  else
    let rtl_rd := read_register (qbench s) (hart_ix h) r in
    regs <- golden_do (emu_reg_file h) ;;
    let gold_rd := default 0 (regs !! Z.to_nat r) in
    golden_do (emu_set_register_with_value (u8 r) rtl_rd h) ;;;
    golden_do (reconcile_memory op rtl_rd gold_rd) ;;;
    count_fixup h r rtl_pc op rtl_rd gold_rd ;;;
    ret true.

(** ** The golden step *)

(** What the harness notes about the instruction about to be executed: the
    destination of a load of [mtime], and the memory operation. *)
Definition note_mtime (insn : Z) (regs : list Z) : Z :=
  if Z.land insn 0x7f =? 0x03 then
    let addr := u64 (default 0 (regs !! Z.to_nat (Z.land (Z.shiftr insn 15) 0x1f)) + Z.shiftr (s32 insn) 20) in
    if align8 addr =? kClintMtime then Z.land (Z.shiftr insn 7) 0x1f else -1
  else -1.
Definition note_memop (insn : Z) (regs : list Z) : M emulator (option MemOp) :=
  let rd := Z.land (Z.shiftr insn 7) 0x1f in
  let rs1 := Z.land (Z.shiftr insn 15) 0x1f in
  let at_ r := default 0 (regs !! Z.to_nat r) in
  if Z.land insn 0x7f =? 0x03 then
    let addr := u64 (at_ rs1 + Z.shiftr (s32 insn) 20) in
    ret (if negb (rd =? 0) && (0x80000000 <=? addr) then Some (mkmemop true 1 rd 8 0 addr 0 0) else None)
  else if Z.land insn 0x7f =? 0x2f then
    let rs2 := Z.land (Z.shiftr insn 20) 0x1f in
    let funct5 := Z.shiftr insn 27 in
    let width := if Z.land (Z.shiftr insn 12) 7 =? 2 then 4 else 8 in
    let addr := at_ rs1 in
    let kind := if funct5 =? 0x02 then 2 else if funct5 =? 0x03 then 3 else 4 in
    if negb (rd =? 0) && (0x80000000 <=? addr) then
      old <- read_mem64 (align8 addr) ;;
      ret (Some (mkmemop true kind rd width funct5 addr (at_ rs2) old))
    else ret None
  else ret None.

Definition invalidate (o : MemOp) : MemOp := { o with valid := false }.

Definition golden_step_hart (n : nat) (h : nat) : M quad bool :=
  golden_do (emu_clear_wfi h) ;;;
  b <- rtl id ;;
  modify (fun s => if Rtl.msip b (hart_ix h) =? 0 then { s with msip_latch ::= <[h := 0]> } else s) ;;;
  s <- gets id ;;
  golden_do (emu_set_msip (hart_ix h) (default 0 (msip_latch s !! h))) ;;;
  insn_before <- golden_do (emu_get_instruction h) ;;
  modify (fun s => { s with last_memop ::= alter invalidate h }) ;;;
  regs <- golden_do (emu_reg_file h) ;;
  op <- golden_do (note_memop insn_before regs) ;;
  modify (fun s => match op with Some o => { s with last_memop ::= <[h := o]> } | None => s end) ;;;
  let mtime_rd := note_mtime insn_before regs in
  ended <- golden_do (step_hart_csrs n h) ;;
  if ended : bool then
    modify (fun s => if insn_before =? 0x10500073 then { s with msip_latch ::= <[h := Rtl.msip b (hart_ix h)]> } else s) ;;;
    modify (fun s => if 0 <=? mtime_rd then { s with pending_mtime_rd ::= <[h := mtime_rd]> } else s) ;;;
    ret true
  else ret false.

(** ** Logs and messages *)

Definition log_quad_step (mask : Z) : M quad unit :=
  s <- gets id ;;
  cores <- collect harts4 (fun h =>
    insn <- golden_do (emu_get_instruction h) ;;
    let b := qbench s in
    let pc := if Z.testbit mask (hart_ix h) then default 0 (last_commit_pc b !! h) else core_pc b (hart_ix h) in
    ret (pc, insn, return_registers b (hart_ix h))) ;;
  modify (fun s' => { s' with frames ::= (fun l => l ++ [{| f_cycle := cycles (qbench s); f_cores := cores |}]) }).

Definition dump_mismatch (kind : Z) (hart : nat) : M quad unit :=
  s <- gets id ;;
  pcs <- collect harts4 (fun h => golden_do (emu_get_pc h)) ;;
  qsay (QMismatch kind (matched s) hart (cycles (qbench s)) (map (fun h => core_pc (qbench s) (hart_ix h)) harts4) pcs).

(** 50 dumped cycles after a mismatch. *)
Definition dump_window (dump_waves : bool) : M quad unit :=
  modify (fun s => if dump_waves then { s with qbench ::= Nat.iter 50 (fun b => (sim_step false STEP_TIMEOUT b).2) } else s).

(** ** A tick *)

Inductive commit_verdict := Skipped | Matched (done : bool) | Mismatched | Unfinished.

Definition check_hart_registers (h : nat) : M quad Z :=
  b <- rtl id ;;
  regs <- golden_do (emu_reg_file h) ;;
  ms <- golden_do (emu_get_mstatus h) ;;
  match check_registers b (hart_ix h) regs ms with Some r => ret r | None => undefined end.

(** The PC comparison. *)
Definition report_pc (h : nat) (dump_waves : bool) (insn rtl_pc emu_pc : Z) : M quad commit_verdict :=
  dump_mismatch 1 h ;;; qsay (QPCs emu_pc insn rtl_pc) ;;; qsay (QShowState h) ;;; dump_window dump_waves ;;; ret Mismatched.

(** The values printed for a register mismatch. *)
Definition report_registers (h : nat) (dump_waves : bool) (r : Z) : M quad commit_verdict :=
  dump_mismatch 2 h ;;;
  b <- rtl id ;;
  regs <- golden_do (emu_reg_file h) ;;
  ms <- golden_do (emu_get_mstatus h) ;;
  let gold i := default 0 (regs !! Z.to_nat i) in
  qsay (QValues r (read_register b (hart_ix h) r) (if r =? 32 then ms else gold r)
    (filter (fun d => negb (d.1.2 =? d.2))
      (map (fun i => let i := Z.of_nat i in (i, read_register b (hart_ix h) i, gold i)) (seq 1 31)))) ;;;
  qsay (QShowState h) ;;; dump_window dump_waves ;;; ret Mismatched.

(** Everything before [matched++]: the PC and the register mismatch that remains. *)
Definition settle_hart (n : nat) (h : nat) : M quad (option (Z * Z * Z * Z)) :=
  apply_pending_mtime_rd h ;;;
  took <- force_take_if_needed n h ;;
  match took with
  | None => ret None
  | Some _ =>
    b <- rtl id ;;
    let rtl_pc := default 0 (last_commit_pc b !! h) in
    emu_pc <- golden_do (emu_get_pc h) ;;
    insn <- golden_do (emu_get_instruction h) ;;
    if negb (rtl_pc =? emu_pc) then ret (Some (rtl_pc, emu_pc, insn, 0))
    else
      r <- check_hart_registers h ;;
      if negb (r =? 0) then
        fixed <- reconcile_racy h r rtl_pc ;;
        if fixed : bool then r <- check_hart_registers h ;; ret (Some (rtl_pc, emu_pc, insn, r))
        else ret (Some (rtl_pc, emu_pc, insn, r))
      else ret (Some (rtl_pc, emu_pc, insn, 0))
  end.

Definition commit_hart (n : nat) (dump_waves : bool) (completion : Completion) (h : nat) : M quad commit_verdict :=
  x <- settle_hart n h ;;
  match x with
  | None => ret Unfinished
  | Some (rtl_pc, emu_pc, insn, r) =>
    if negb (rtl_pc =? emu_pc) then report_pc h dump_waves insn rtl_pc emu_pc
    else if negb (r =? 0) then report_registers h dump_waves r
    else
      modify (fun s => { s with matched := u64 (matched s + 1); matched_per_hart ::= alter (fun x => u64 (x + 1)) h }) ;;;
      ended <- golden_step_hart n h ;;
      if ended : bool then
        b <- rtl id ;;
        ret (Matched ((h =? 0)%nat && hit completion rtl_pc (Rtl.reg b 0 10)))
      else ret Unfinished
  end.

(** The loop over the harts of the mask: failed, done or neither. *)
Fixpoint commit_harts (n : nat) (dump_waves : bool) (completion : Completion) (mask : Z) (done : bool) (l : list nat)
  : M quad commit_verdict :=
  match l with
  | [] => ret (Matched done)
  | h :: l =>
    if Z.testbit mask (hart_ix h) then
      v <- commit_hart n dump_waves completion h ;;
      match v with
      | Matched d => commit_harts n dump_waves completion mask (done || d) l
      | Skipped => commit_harts n dump_waves completion mask done l
      | v => ret v
      end
    else commit_harts n dump_waves completion mask done l
  end.

(** The golden clock follows the RTL's. *)
Definition follow_clint : M quad unit :=
  b <- rtl id ;;
  golden_do (emu_set_mtime (Rtl.mtime b)) ;;;
  each harts4 (fun h => golden_do (emu_set_mtimecmp (hart_ix h) (Rtl.mtimecmp b (hart_ix h)))).

Definition quad_tick (n : nat) (show_state dump_waves : bool) (completion : Completion) : M quad verdict :=
  s <- gets id ;;
  let '(x, mask, b) := step_until_commits false STEP_TIMEOUT dump_waves (qbench s) in
  modify (fun s => { s with qbench := b }) ;;;
  if x =? 1 then dump_mismatch 0 0 ;;; ret Break
  else
    follow_clint ;;;
    log_quad_step mask ;;;
    when show_state (each harts4 (fun h => qsay (QShowState h))) ;;;
    v <- commit_harts n dump_waves completion mask false harts4 ;;
    s <- gets id ;;
    match v with
    | Unfinished => ret OutOfFuel
    | Mismatched => ret (Return 1)
    | Matched true => qsay (QComplete (matched s) (matched_per_hart s) (racy_fixups s)) ;;; ret (Return 0)
    | _ =>
      when ((matched s mod 1000000 =? 0) && (0 <? matched s))
        (qsay (QProgress (matched s) (cycles (qbench s)) (matched_per_hart s))) ;;;
      ret Continue
    end.

Fixpoint quad_loop (tick : M quad verdict) (n : nat) : M quad verdict :=
  match n with
  | O => ret OutOfFuel
  | S n => v <- tick ;; match v with Continue => quad_loop tick n | v => ret v end
  end.

(** [main], from the point where both sides are initialised. *)
Definition quad_main (n : nat) (show_state dump_waves : bool) (completion : Completion) : M quad verdict :=
  modify (fun s => { s with qbench ::= set_probe (Z.land (0xCA3BF0 - 136) (u64 (Z.lnot 7))) }) ;;;
  v <- quad_loop (quad_tick n show_state dump_waves completion) n ;;
  match v with
  | Break =>
    s <- gets id ;;
    qsay (QTimeOut (s64 (cycles (qbench s))) (matched s) (matched_per_hart s)) ;;; ret (Return 1)
  | v => ret v
  end.
End Quad.

(** ** The reconciled value *)

Lemma u32_sext32 v : u32 (sext32 v) = u32 v.
Proof. unfold sext32. word. Qed.
Lemma s64_sext32 v : s64 (sext32 v) = s32 v.
Proof. unfold sext32. word. Qed.
(** Sign extension keeps the unsigned order of words. *)
Lemma sext32_ltb a b : (sext32 a <? sext32 b) = (u32 a <? u32 b).
Proof. unfold sext32. apply Bool.eq_true_iff_eq. rewrite !Z.ltb_lt. word. Qed.

Lemma u32_land_mask x : u32 x = Z.land x (Z.ones 32).
Proof. rewrite Z.land_ones by lia. reflexivity. Qed.
Lemma u32_bitwise f a b : (forall x y, Z.land (f x y) (Z.ones 32) = f (Z.land x (Z.ones 32)) (Z.land y (Z.ones 32))) ->
  u32 (f (sext32 a) (sext32 b)) = f (u32 a) (u32 b).
Proof. intros Hf. rewrite u32_land_mask, Hf, <- !u32_land_mask, !u32_sext32. reflexivity. Qed.

Lemma amo_result_word op old v : is_rmw op = true -> u32 (amo_result op 4 old v) = amo_spec s32 0x100000000 op (u32 old) (u32 v).
Proof.
  intros Hop. unfold amo_result, amo_spec, is_rmw in *. change (4 =? 4) with true. cbv iota.
  destruct (Z.eqb_spec op 0) as [->|].
  { transitivity (u32 (sext32 old + sext32 v)); [apply u32_u64|]. unfold u32 at 1. rewrite Z.add_mod by lia.
    fold (u32 (sext32 old)) (u32 (sext32 v)). rewrite !u32_sext32. reflexivity. }
  destruct (Z.eqb_spec op 1) as [->|]; [apply u32_sext32|].
  destruct (Z.eqb_spec op 4) as [->|].
  { apply u32_bitwise. intros. apply Z.bits_inj'. intros i _. rewrite !Z.lxor_spec, !Z.land_spec, Z.lxor_spec. destruct (Z.testbit (Z.ones 32) i); rewrite ?andb_true_r, ?andb_false_r; reflexivity. }
  destruct (Z.eqb_spec op 8) as [->|].
  { apply u32_bitwise. intros. apply Z.bits_inj'. intros i _. rewrite !Z.lor_spec, !Z.land_spec, Z.lor_spec. destruct (Z.testbit (Z.ones 32) i); rewrite ?andb_true_r, ?andb_false_r; reflexivity. }
  destruct (Z.eqb_spec op 12) as [->|].
  { apply u32_bitwise. intros. apply Z.bits_inj'. intros i _. rewrite !Z.land_spec. destruct (Z.testbit (Z.ones 32) i); rewrite ?andb_true_r, ?andb_false_r; reflexivity. }
  rewrite !s64_sext32, !sext32_ltb.
  assert (Es : forall x, s32 (u32 x) = s32 x) by (intros; word). rewrite !Es.
  destruct (Z.eqb_spec op 16) as [->|]; [destruct (Z.ltb_spec (s32 old) (s32 v)), (Z.leb_spec (s32 old) (s32 v)); try lia; rewrite u32_sext32; try reflexivity; assert (s32 old = s32 v) by lia; rewrite <- (u32_s32 old), <- (u32_s32 v); congruence|].
  destruct (Z.eqb_spec op 20) as [->|]; [destruct (Z.ltb_spec (s32 v) (s32 old)), (Z.leb_spec (s32 old) (s32 v)); try lia; rewrite u32_sext32; try reflexivity; assert (s32 old = s32 v) by lia; rewrite <- (u32_s32 old), <- (u32_s32 v); congruence|].
  destruct (Z.eqb_spec op 24) as [->|]; [destruct (Z.ltb_spec (u32 old) (u32 v)), (Z.leb_spec (u32 old) (u32 v)); try lia; rewrite u32_sext32; lia|].
  destruct (Z.eqb_spec op 28) as [->|]; [destruct (Z.ltb_spec (u32 v) (u32 old)), (Z.leb_spec (u32 old) (u32 v)); try lia; rewrite u32_sext32; lia|].
  cbn in Hop. repeat match goal with Hop : context [?a =? ?b] |- _ => destruct (Z.eqb_spec a b); [lia|] end. discriminate.
Qed.

Lemma amo_result_double op old v : is_rmw op = true -> is_u64 old -> is_u64 v -> amo_result op 8 old v = amod_result op old v.
Proof.
  intros Hop Ho Hv. unfold amo_result, amod_result, is_rmw in *. change (8 =? 4) with false. cbv iota.
  rewrite !signed_value_s64 by assumption.
  assert (Hs : forall x, is_u64 x -> u64 (s64 x) = x) by (intros; rewrite u64_s64; apply u64_id; assumption).
  destruct (Z.eqb_spec op 0) as [->|]; [reflexivity|]. destruct (Z.eqb_spec op 1) as [->|]; [reflexivity|].
  destruct (Z.eqb_spec op 4) as [->|]; [reflexivity|]. destruct (Z.eqb_spec op 8) as [->|]; [reflexivity|].
  destruct (Z.eqb_spec op 12) as [->|]; [reflexivity|].
  destruct (Z.eqb_spec op 16) as [->|].
  { destruct (Z.ltb_spec (s64 old) (s64 v)).
    - rewrite Z.min_l by lia. symmetry. apply Hs, Ho.
    - rewrite Z.min_r by lia. symmetry. apply Hs, Hv. }
  destruct (Z.eqb_spec op 20) as [->|].
  { destruct (Z.ltb_spec (s64 v) (s64 old)).
    - rewrite Z.max_l by lia. symmetry. apply Hs, Ho.
    - rewrite Z.max_r by lia. symmetry. apply Hs, Hv. }
  destruct (Z.eqb_spec op 24) as [->|]; [destruct (Z.ltb_spec old v); lia|].
  destruct (Z.eqb_spec op 28) as [->|]; [destruct (Z.ltb_spec v old); lia|].
  cbn in Hop. repeat match goal with Hop : context [?a =? ?b] |- _ => destruct (Z.eqb_spec a b); [lia|] end. discriminate.
Qed.

(** Splicing a word is the golden model's store to an aligned address. *)
Lemma splice_store_word word8 addr v : is_u64 word8 -> addr mod 4 = 0 -> 0 <= addr ->
  splice_word word8 addr 4 v = (store_word addr word8 (u32 v)).2.
Proof.
  intros Hw Ha Hp. unfold splice_word, store_word. change (4 =? 8) with false. cbv iota.
  assert (H48 : addr mod 8 = 0 \/ addr mod 8 = 4) by zlia.
  assert (Hbit : Z.land addr 4 = if addr mod 8 =? 4 then 4 else 0).
  { replace (Z.land addr 4) with (Z.land (Z.land addr 7) 4) by (rewrite <- Z.land_assoc; reflexivity).
    rewrite (land_ones_mod addr 3 7) by reflexivity || lia. change (2 ^ 3) with 8. destruct H48 as [-> | ->]; reflexivity. }
  assert (Hv : Z.land (u32 v) 0xffffffff = u32 v).
  { change 0xffffffff with (Z.ones 32). rewrite Z.land_ones by lia. apply u32_id, u32_range. }
  assert (Hv' : Z.land v 0xffffffff = u32 v) by (change 0xffffffff with (Z.ones 32); rewrite Z.land_ones by lia; reflexivity).
  assert (Hlow : Z.land (Z.land word8 0xffffffff00000000) (u32 v) = 0).
  { rewrite <- Hv'. transitivity (Z.land (Z.land word8 v) (Z.land 0xffffffff00000000 0xffffffff)).
    - apply Z.bits_inj'. intros i _. rewrite !Z.land_spec. destruct (Z.testbit word8 i), (Z.testbit v i); cbn [andb]; rewrite ?andb_false_r; reflexivity.
    - apply Z.land_0_r. }
  assert (Hhigh : Z.land (Z.land word8 0xffffffff) (Z.shiftl (u32 v) 32) = 0).
  { apply Z.bits_inj'. intros i Hi. rewrite !Z.land_spec, Z.bits_0. destruct (Z.ltb_spec i 32).
    - rewrite (Z.shiftl_spec_low (u32 v)) by lia. apply andb_false_r.
    - rewrite (testbit_bound 0xffffffff 32) by lia. rewrite andb_false_r. reflexivity. }
  assert (Hsh : u64 (Z.shiftl v 32) = Z.shiftl (u32 v) 32).
  { rewrite !Z.shiftl_mul_pow2 by lia. unfold u64, u32. change 0x10000000000000000 with (0x100000000 * 2 ^ 32).
    apply Z.mul_mod_distr_r; lia. }
  assert (Hsh64 : is_u64 (Z.shiftl (u32 v) 32)) by (rewrite <- Hsh; apply u64_range).
  assert (Hu : is_u64 (u32 v)) by (pose proof (u32_range v); unfold is_u32, is_u64 in *; lia).
  rewrite Hbit. destruct H48 as [-> | ->]; cbv beta iota zeta delta [Z.eqb Pos.eqb negb snd]; rewrite Hv, ?Hv', ?Z.shiftl_0_r.
  - rewrite (u64_id (u32 v)), add_disjoint, u64_id by auto with word. reflexivity.
  - rewrite Hsh, (u64_id (Z.shiftl (u32 v) 32)), add_disjoint, u64_id by auto with word. reflexivity.
Qed.

(** ** What reconciliation does to the golden memory *)

Section Reconcile.
Context `{Console}.

(** The golden memory with the word at [i] replaced. *)
Definition with_word (e : emulator) (i x : Z) : emulator := { e with shared -> memory ::= (fun m => vec_put m i x) }.

(** A memory operation on DRAM, naturally aligned. *)
Definition dram_op (op : MemOp) : Prop :=
  0x80000000 <= addr op < 0x80000000 + 0x9000000 /\ addr op mod width op = 0 /\ (width op = 4 \/ width op = 8).

Lemma align8_spec a : 0 <= a < 2 ^ 64 -> align8 a = 8 * (a / 8).
Proof.
  intros Ha. unfold align8. change (u64 (Z.lnot 7)) with (Z.shiftl (Z.ones 61) 3).
  apply Z.bits_inj'. intros i Hi. rewrite Z.land_spec, (Z.mul_comm 8). change 8 with (2 ^ 3).
  rewrite <- (Z.shiftr_div_pow2 _ 3), <- (Z.shiftl_mul_pow2 _ 3) by lia.
  destruct (Z.ltb_spec i 3).
  - rewrite !Z.shiftl_spec_low by lia. apply andb_false_r.
  - rewrite !Z.shiftl_spec, Z.shiftr_spec by lia. replace (i - 3 + 3) with i by lia.
    destruct (Z.ltb_spec i 64).
    + rewrite Z.testbit_ones_nonneg by lia. replace (i - 3 <? 61) with true by lia. apply andb_true_r.
    + rewrite (testbit_bound _ 64) by lia. reflexivity.
Qed.

Lemma dram_op_index op e : dram_op op -> vec_size (memory (shared e)) = 2 ^ 28 ->
  read_mem64 (align8 (addr op)) e = Ok (vec_get (memory (shared e)) (dram_idx (addr op))) e /\
  forall x, write_mem64 (align8 (addr op)) x e = Ok tt (with_word e (dram_idx (addr op)) x).
Proof.
  intros (Ha & _ & _) Hs. unfold read_mem64, write_mem64. rewrite align8_spec by lia.
  replace (outside_dram (8 * (addr op / 8))) with false.
  2:{ unfold outside_dram. destruct (Z.ltb_spec (8 * (addr op / 8)) 0x80000000), (Z.leb_spec (0x80000000 + 0x9000000) (8 * (addr op / 8))); try reflexivity; exfalso; zlia. }
  replace ((8 * (addr op / 8) - 0x80000000) / 8) with (dram_idx (addr op)) by (unfold dram_idx, DRAM_BASE; zlia).
  assert (Hin : vec_in (memory (shared e)) (dram_idx (addr op)) = true).
  { unfold vec_in. rewrite Hs. change (2 ^ 28) with 268435456. unfold dram_idx, DRAM_BASE. apply andb_true_iff. split; [apply Z.leb_le|apply Z.ltb_lt]; zlia. }
  rewrite Hin. split; reflexivity.
Qed.
End Reconcile.

(** C26: When RTL and golden model disagree on the result of an AMO, reconciliation
    leaves in the golden memory the word the golden model itself would have
    written if it had read the RTL's old value: its own [store_word] of its own
    read-modify-write function for a word, its doubleword function for a doubleword. *)
Theorem reconcile_amo_as_golden `{Console} op rtl_rd gold_rd e :
  kind op = 4 -> is_rmw (funct5 op) = true -> dram_op op -> vec_size (memory (shared e)) = 2 ^ 28 ->
  vec_wf (memory (shared e)) -> is_u64 rtl_rd -> is_u64 (rs2val op) ->
  let i := dram_idx (addr op) in
  reconcile_memory op rtl_rd gold_rd e = Ok tt (with_word e i
    (if width op =? 4
     then (store_word (addr op) (vec_get (memory (shared e)) i) (amow_result (funct5 op) (u32 rtl_rd) (u32 (rs2val op)))).2
     else amod_result (funct5 op) rtl_rd (rs2val op))).
Proof.
  intros Hk Hop Hd Hs Hwf Hr H2. cbv zeta. destruct (dram_op_index op e Hd Hs) as [Er Ew].
  unfold reconcile_memory. rewrite Hk. change (4 =? 3) with false. change (4 =? 4) with true. cbv iota zeta.
  rewrite (bind_ok _ _ _ _ _ Er), Ew. f_equal. f_equal. destruct Hd as (Ha & Hal & [Ew4|Ew8]).
  - rewrite Ew4 in *. change (4 =? 4) with true. cbv iota. rewrite splice_store_word by (apply Hwf || assumption || lia).
    rewrite amow_result_spec by (assumption || apply u32_range). rewrite amo_result_word by assumption. reflexivity.
  - rewrite Ew8. change (8 =? 4) with false. cbv iota. unfold splice_word. change (8 =? 8) with true. cbv iota.
    apply amo_result_double; assumption.
Qed.

(** Undoing an SC that only the golden model let succeed writes back the whole
    doubleword as it was before the golden SC, whatever has been stored in it since. *)
Lemma reconcile_sc_undo `{Console} op rtl_rd e :
  kind op = 3 -> dram_op op -> vec_size (memory (shared e)) = 2 ^ 28 -> rtl_rd <> 0 ->
  reconcile_memory op rtl_rd 0 e = Ok tt (with_word e (dram_idx (addr op)) (oldword op)).
Proof.
  intros Hk Hd Hs Hr. destruct (dram_op_index op e Hd Hs) as [Er Ew].
  unfold reconcile_memory. rewrite Hk. change (3 =? 3) with true. cbv iota.
  rewrite (bind_ok _ _ _ _ _ Er). destruct (Z.eqb_spec rtl_rd 0); [contradiction|].
  change (negb (0 =? 0)) with false. cbn [andb negb]. change (0 =? 0) with true. cbv iota. apply Ew.
Qed.
Definition race_op : MemOp := mkmemop true 4 5 4 0x00 0x80000104 3 0x1122334455667788.
Lemma reconcile_amo_as_golden_witness :
  let e := { (emulator_new true time0 (keys [] 0)) with shared := boot_world [(32, 0xFFFFFFFF00000009)] (keys [] 0) } in
  reconcile_memory race_op 0xFFFFFFFFFFFFFFFE 0xFFFFFFFFFFFFFFFF e = Ok tt (with_word e 32 0x0000000100000009).
Proof.
  exact (reconcile_amo_as_golden race_op 0xFFFFFFFFFFFFFFFE 0xFFFFFFFFFFFFFFFF
    { (emulator_new true time0 (keys [] 0)) with shared := boot_world [(32, 0xFFFFFFFF00000009)] (keys [] 0) }
    eq_refl eq_refl ltac:(split; [cbn; lia|split; [reflexivity|left; reflexivity]]) eq_refl
    ltac:(apply (cells_wf _ [(32, 0xFFFFFFFF00000009)]); repeat constructor; cbn; unfold is_u64; lia)
    ltac:(unfold is_u64; lia) ltac:(cbn; unfold is_u64; lia)).
Defined.

(** ** What acceptance of a commit means *)

Section Accept.
Context `{Model} `{Console} (STEP_TIMEOUT : nat).

(** Hart [h] of the golden model has the PC, the registers and the mstatus of core [h]. *)
Definition agree_hart (b : simulator) (g : emulator) (h : nat) : Prop := exists hh,
  harts g !! h = Some hh /\ default 0 (last_commit_pc b !! h) = PC hh /\
  (forall i, 1 <= i <= 31 -> reg_file hh !! Z.to_nat i = Some (Rtl.reg b (Z.of_nat h) i)) /\
  Rtl.reg b (Z.of_nat h) 32 = get_mstatus hh.

(** An action that never touches the RTL. *)
Definition keeps {A} (m : M quad A) : Prop := forall s a s', m s = Ok a s' -> qbench s' = qbench s.

Lemma keeps_ret {A} (a : A) : keeps (ret a).
Proof. intros s x s' E. injection E as _ <-. reflexivity. Qed.
Lemma keeps_bind {A B} (m : M quad A) (f : A -> M quad B) : keeps m -> (forall a, keeps (f a)) -> keeps (bind m f).
Proof. intros Hm Hf s b s' E. apply bind_inv in E as (a & s1 & E1 & E2). rewrite (Hf a _ _ _ E2). exact (Hm _ _ _ E1). Qed.
Lemma keeps_golden {A} (m : M emulator A) : keeps (golden_do m).
Proof. intros s a s' E. unfold golden_do in E. destruct (m (qgolden s)); try discriminate. injection E as _ <-. reflexivity. Qed.
Lemma keeps_modify f : (forall s, qbench (f s) = qbench s) -> keeps (modify f).
Proof. intros Hf s a s' E. injection E as _ <-. apply Hf. Qed.
Lemma keeps_gets {A} (f : quad -> A) : keeps (gets f).
Proof. intros s a s' E. injection E as _ <-. reflexivity. Qed.
Lemma keeps_when b m : keeps m -> keeps (when b m).
Proof. destruct b; [auto|intros _; apply keeps_ret]. Qed.
Lemma keeps_undefined {A} : keeps (@undefined quad A).
Proof. intros s a s' E. discriminate. Qed.
End Accept.

Create HintDb keeps.
#[export] Hint Resolve keeps_ret keeps_golden keeps_gets keeps_undefined : keeps.

(** Walks through a program of the harness. *)
Ltac keeps :=
  repeat (intros; match goal with
    | |- keeps (bind _ _) => apply keeps_bind
    | |- keeps (when _ _) => apply keeps_when
    | |- keeps (rtl _) => apply keeps_gets
    | |- keeps (qsay _) => apply keeps_modify; reflexivity
    | |- keeps (modify _) => apply keeps_modify; intros; try reflexivity
    | |- keeps (if ?b then _ else _) => destruct b
    | |- keeps (match ?x with _ => _ end) => destruct x
    | |- keeps _ => solve [eauto with keeps]
    | |- qbench (if ?b then _ else _) = _ => destruct b; reflexivity
    | |- qbench (match ?x with _ => _ end) = _ => destruct x; reflexivity
    end).

Section Accept.
Context `{Model} `{Console} (STEP_TIMEOUT : nat).

Lemma keeps_apply h : keeps (apply_pending_mtime_rd h).
Proof. unfold apply_pending_mtime_rd. cbv zeta. keeps. Qed.
Lemma keeps_take n h : keeps (force_take_if_needed n h).
Proof. unfold force_take_if_needed, force_take. cbv zeta. keeps. Qed.
Lemma keeps_check h : keeps (check_hart_registers h).
Proof. unfold check_hart_registers. keeps. Qed.
Lemma keeps_reconcile h r pc : keeps (reconcile_racy h r pc).
Proof. unfold reconcile_racy, count_fixup. cbv zeta. keeps. Qed.
Lemma keeps_step n h : keeps (golden_step_hart n h).
Proof. unfold golden_step_hart. cbv zeta. keeps. Qed.
End Accept.
#[export] Hint Resolve keeps_apply keeps_take keeps_check keeps_reconcile keeps_step : keeps.

Section Accept.
Context `{Model} `{Console} (STEP_TIMEOUT : nat).

Lemma golden_do_inv {A} (m : M emulator A) s a s' : golden_do m s = Ok a s' ->
  m (qgolden s) = Ok a (qgolden s') /\ s' = { s with qgolden := qgolden s' }.
Proof. unfold golden_do. destruct (m (qgolden s)) as [x g| | |]; intros E; try discriminate. injection E as <- <-. split; reflexivity. Qed.

(** Hart [h] keeps its PC, registers and mstatus. *)
Definition same_hart (g g' : emulator) (h : nat) : Prop := forall hh, harts g !! h = Some hh ->
  exists hh', harts g' !! h = Some hh' /\ PC hh' = PC hh /\ reg_file hh' = reg_file hh /\ get_mstatus hh' = get_mstatus hh.
(** ... its PC and mstatus. *)
Definition same_pc (g g' : emulator) (h : nat) : Prop := forall hh, harts g !! h = Some hh ->
  exists hh', harts g' !! h = Some hh' /\ PC hh' = PC hh.

Lemma getINST_same i (s : st) : (exists d, getINST i s = Ok d s) \/ getINST i s = Throw s.
Proof. unfold getINST, bind, mem_at. destruct (vec_in _ _); [left; eexists; reflexivity|right; reflexivity]. Qed.

Lemma get_instruction_same h g i g' : emu_get_instruction h g = Ok i g' -> same_hart g g' h.
Proof.
  intros E hh Hh. unfold emu_get_instruction, with_hart in E. rewrite Hh in E.
  assert (Hlen : (h < length (harts g))%nat) by (eapply lookup_lt_Some; exact Hh).
  destruct (get_instruction (mkst _ hh (shared g))) as [x s| | |] eqn:Ei; try discriminate. injection E as _ <-. cbn [harts].
  exists (hrt s). rewrite list_lookup_insert_eq by exact Hlen. split; [reflexivity|].
  unfold get_instruction, bind, get_hart, gets, hart_fetch_instruction in Ei. cbn [hrt] in Ei.
  destruct ((PC hh <? DRAM_BASE) || (DRAM_BASE + DRAM_SIZE <=? PC hh)); [injection Ei as _ <-; auto|].
  unfold on_hart, modify, bind in Ei. destruct (PC hh mod 4 =? 0).
  - match type of Ei with context [getINST ?i ?s1] => destruct (getINST_same i s1) as [[d Ed]|Ed]; rewrite Ed in Ei end; [|discriminate].
    injection Ei as _ <-. split; [exact eq_refl|]. split; [exact eq_refl|]. apply (f_equal mstatus_read_reg). exact eq_refl.
  - injection Ei as _ <-. split; [exact eq_refl|]. split; [exact eq_refl|]. apply (f_equal mstatus_read_reg). exact eq_refl.
Qed.

Lemma get_pc_inv h g a g' : emu_get_pc h g = Ok a g' -> g' = g /\ exists hh, harts g !! h = Some hh /\ a = PC hh.
Proof. apply with_hart_gets. Qed.

Lemma check_hart_inv h s r s' : check_hart_registers h s = Ok r s' -> s' = s /\ exists hh, harts (qgolden s) !! h = Some hh /\
  check_registers (qbench s) (Z.of_nat h) (reg_file hh) (get_mstatus hh) = Some r.
Proof.
  intros E. apply bind_inv in E as (b & s1 & E1 & E). injection E1 as <- <-.
  apply bind_inv in E as (regs & s2 & E2 & E). apply golden_do_inv in E2 as [E2 Es2].
  apply with_hart_gets in E2 as [G2 (h2 & Hh2 & ->)].
  apply bind_inv in E as (ms & s3 & E3 & E). apply golden_do_inv in E3 as [E3 Es3].
  apply with_hart_gets in E3 as [G3 (h3 & Hh3 & ->)].
  assert (h3 = h2) as -> by congruence.
  assert (s3 = s) as ->. { rewrite Es3, Es2, G3, G2. destruct s. reflexivity. }
  cbn [id] in E. destruct (check_registers _ _ _ _) as [r'|] eqn:Ec in E; [|discriminate]. injection E as <- <-. eauto.
Qed.

Lemma set_register_same_pc h r v g g' : emu_set_register_with_value r v h g = Ok tt g' -> same_pc g g' h.
Proof.
  intros E hh Hh. unfold emu_set_register_with_value, with_hart in E. rewrite Hh in E.
  assert (Hlen : (h < length (harts g))%nat) by (eapply lookup_lt_Some; exact Hh).
  cbn [hrt] in E. unfold set_register_with_value in E. case_decide; [|discriminate]. injection E as <-. cbn [harts].
  eexists. rewrite list_lookup_insert_eq by exact Hlen. split; reflexivity.
Qed.

Lemma read_mem64_same a g x g' : read_mem64 a g = Ok x g' -> g' = g.
Proof. unfold read_mem64. destruct (outside_dram a); [|destruct (vec_in _ _)]; intros E; try discriminate; injection E as _ <-; reflexivity. Qed.
Lemma write_mem64_same a v g u g' : write_mem64 a v g = Ok u g' -> harts g' = harts g.
Proof. unfold write_mem64. destruct (outside_dram a); [|destruct (vec_in _ _)]; intros E; try discriminate; injection E as _ <-; reflexivity. Qed.

Lemma reconcile_memory_same op a b g u g' : reconcile_memory op a b g = Ok u g' -> harts g' = harts g.
Proof.
  unfold reconcile_memory. generalize (align8 (addr op)) as A. intros A E. destruct (kind op =? 3); [|destruct (kind op =? 4)].
  - apply bind_inv in E as (w & g1 & E1 & E). apply read_mem64_same in E1 as ->.
    destruct (_ && _); [|destruct (_ && _)]; [exact (write_mem64_same _ _ _ _ _ E)|exact (write_mem64_same _ _ _ _ _ E)|injection E as _ <-; reflexivity].
  - cbv zeta in E. apply bind_inv in E as (w & g1 & E1 & E). apply read_mem64_same in E1 as ->. exact (write_mem64_same _ _ _ _ _ E).
  - injection E as _ <-. reflexivity.
Qed.
End Accept.

Section Accept.
Context `{Model} `{Console} (STEP_TIMEOUT : nat).

Lemma reconcile_racy_pc h r pc s f s' : reconcile_racy h r pc s = Ok f s' -> same_pc (qgolden s) (qgolden s') h.
Proof.
  intros E hh Hh. apply bind_inv in E as (s0 & s1 & E1 & E). injection E1 as <- <-. cbv beta zeta in E. cbn [id] in E.
  destruct (_ || _) in E; [injection E as _ <-; eauto|].
  apply bind_inv in E as (regs & s2 & E2 & E). apply golden_do_inv in E2 as [E2 _]. apply with_hart_gets in E2 as [G2 _].
  apply bind_inv in E as (u3 & s3 & E3 & E). apply golden_do_inv in E3 as [E3 _]. destruct u3.
  destruct (set_register_same_pc _ _ _ _ _ E3 hh ltac:(rewrite G2; exact Hh)) as (h3 & Hh3 & Hpc).
  apply bind_inv in E as (u4 & s4 & E4 & E). apply golden_do_inv in E4 as [E4 _]. apply reconcile_memory_same in E4.
  apply bind_inv in E as (u5 & s5 & E5 & E). injection E as _ <-.
  exists h3. split; [|exact Hpc].
  assert (Hg : qgolden s5 = qgolden s4).
  { unfold count_fixup, bind, modify, gets, qsay, when, ret, modify in E5. destruct (_ || _) in E5; injection E5 as _ <-; reflexivity. }
  rewrite Hg, E4. exact Hh3.
Qed.

Lemma check_agree b g h hh : harts g !! h = Some hh -> default 0 (last_commit_pc b !! h) = PC hh ->
  check_registers b (Z.of_nat h) (reg_file hh) (get_mstatus hh) = Some 0 -> agree_hart b g h.
Proof. intros Hh Hpc Hc. apply check_registers_zero in Hc as [Hr Hm]. exists hh. auto. Qed.

(** A hart that passes the comparison agrees with its core in the golden state
    the comparison leaves behind. *)
Lemma settle_agrees n h s rp ep i s' : settle_hart n h s = Ok (Some (rp, ep, i, 0)) s' -> rp = ep ->
  qbench s' = qbench s /\ rp = default 0 (last_commit_pc (qbench s) !! h) /\ agree_hart (qbench s) (qgolden s') h.
Proof.
  intros E Heq. apply bind_inv in E as (u & s1 & E1 & E). apply keeps_apply in E1.
  apply bind_inv in E as (took & s2 & E2 & E). apply keeps_take in E2. destruct took as [took|]; [|discriminate].
  apply bind_inv in E as (b & s3 & E3 & E). injection E3 as <- <-. cbv zeta in E. cbn [id] in E.
  assert (B : qbench s2 = qbench s) by congruence. rewrite B in E. clear E1 E2.
  apply bind_inv in E as (emu_pc & s4 & E4 & E). apply golden_do_inv in E4 as [E4 S4]. apply get_pc_inv in E4 as [G4 (h4 & Hh4 & ->)].
  apply bind_inv in E as (insn & s5 & E5 & E). apply golden_do_inv in E5 as [E5 S5]. apply get_instruction_same in E5.
  rewrite G4 in E5. destruct (E5 _ Hh4) as (h5 & Hh5 & P5 & _ & _).
  assert (B5 : qbench s5 = qbench s) by (rewrite S5, S4; exact B).
  destruct (Z.eqb_spec (default 0 (last_commit_pc (qbench s) !! h)) (PC h4)) as [Hpc|Hpc]; cbn [negb] in E.
  2:{ injection E as <- <- _ _. contradiction. }
  apply bind_inv in E as (r & s6 & E6 & E). apply check_hart_inv in E6 as [-> (h6 & Hh6 & Hc6)]. rewrite B5 in Hc6.
  assert (h6 = h5) as -> by congruence.
  destruct (Z.eqb_spec r 0) as [->|Hr]; cbn [negb] in E.
  - injection E as <- _ _ <-. split; [exact B5|]. split; [reflexivity|]. eapply check_agree; [exact Hh6|congruence|exact Hc6].
  - apply bind_inv in E as (fixed & s7 & E7 & E).
    assert (B7 : qbench s7 = qbench s) by (rewrite <- B5; exact (keeps_reconcile _ _ _ _ _ _ E7)).
    destruct (reconcile_racy_pc _ _ _ _ _ _ E7 _ Hh5) as (h7 & Hh7 & P7).
    destruct fixed; [|injection E as <- _ _ -> _; contradiction].
    apply bind_inv in E as (r8 & s8 & E8 & E). apply check_hart_inv in E8 as [-> (h8 & Hh8 & Hc8)]. injection E as <- _ _ -> <-.
    assert (h8 = h7) as -> by congruence. rewrite B7 in Hc8.
    split; [exact B7|]. split; [reflexivity|]. eapply check_agree; [exact Hh7|congruence|exact Hc8].
Qed.

(** No pending load of [mtime], no trap on the RTL's side, no memory operation
    to reconcile: the comparison has nothing it may patch. *)
Definition plain_commit (s : quad) (h : nat) : Prop :=
  default (-1) (pending_mtime_rd s !! h) < 0 /\ commit_interrupt (qbench s) (Z.of_nat h) = false /\
  (Rtl.mtvec (qbench s) (Z.of_nat h) = 0 \/
   in_trap_window (Rtl.mtvec (qbench s) (Z.of_nat h)) (default 0 (last_commit_pc (qbench s) !! h)) = false) /\
  valid (default MemOp_init (last_memop s !! h)) = false.

Lemma settle_plain n h s rp ep i s' : plain_commit s h -> settle_hart n h s = Ok (Some (rp, ep, i, 0)) s' -> rp = ep ->
  agree_hart (qbench s) (qgolden s) h.
Proof.
  intros (Hp & Hi & Ht & Hm) E Heq. apply bind_inv in E as (u & s1 & E1 & E).
  assert (s1 = s) as ->.
  { unfold apply_pending_mtime_rd, bind, gets in E1. cbn [id] in E1. apply Z.ltb_lt in Hp. rewrite Hp in E1. injection E1 as _ <-. reflexivity. }
  apply bind_inv in E as (took & s2 & E2 & E).
  assert (Hs2 : qgolden s2 = qgolden s /\ qbench s2 = qbench s /\ last_memop s2 = last_memop s).
  { unfold force_take_if_needed in E2. apply bind_inv in E2 as (gp & s3 & E3 & E2). apply golden_do_inv in E3 as [E3 S3].
    apply get_pc_inv in E3 as [G3 _]. apply bind_inv in E2 as (b & s4 & E4 & E2). injection E4 as <- <-. cbn [id] in E2.
    assert (B3 : qbench s3 = qbench s) by (rewrite S3; reflexivity). rewrite B3 in E2.
    replace (must_take (qbench s) h gp) with false in E2.
    - injection E2 as _ <-. split; [exact G3|]. split; [exact B3|]. rewrite S3. reflexivity.
    - unfold must_take. cbv zeta. change (hart_ix h) with (Z.of_nat h). rewrite Hi. cbn [orb].
      destruct Ht as [->| ->]; [change (negb (0 =? 0)) with false|]; rewrite ?andb_false_l, ?andb_false_r; reflexivity. }
  destruct Hs2 as (G & B & Hmem). destruct took as [took|]; [|discriminate].
  apply bind_inv in E as (b & s3 & E3 & E). injection E3 as <- <-. cbv zeta in E. cbn [id] in E. rewrite B in E.
  apply bind_inv in E as (emu_pc & s4 & E4 & E). apply golden_do_inv in E4 as [E4 S4]. apply get_pc_inv in E4 as [G4 (h4 & Hh4 & ->)].
  apply bind_inv in E as (insn & s5 & E5 & E). apply golden_do_inv in E5 as [E5 S5]. apply get_instruction_same in E5.
  rewrite G4 in E5. destruct (E5 _ Hh4) as (h5 & Hh5 & P5 & R5 & M5).
  assert (B5 : qbench s5 = qbench s) by (rewrite S5, S4; exact B).
  assert (L5 : last_memop s5 = last_memop s) by (rewrite S5, S4; exact Hmem).
  destruct (Z.eqb_spec (default 0 (last_commit_pc (qbench s) !! h)) (PC h4)) as [Hpc|Hpc]; cbn [negb] in E.
  2:{ injection E as <- <- _ _. contradiction. }
  apply bind_inv in E as (r & s6 & E6 & E). apply check_hart_inv in E6 as [-> (h6 & Hh6 & Hc6)]. rewrite B5 in Hc6.
  assert (h6 = h5) as -> by congruence.
  destruct (Z.eqb_spec r 0) as [->|Hr]; cbn [negb] in E.
  - rewrite G in Hh4. rewrite R5, M5 in Hc6. eapply check_agree; eassumption.
  - exfalso. apply bind_inv in E as (fixed & s7 & E7 & E).
    unfold reconcile_racy, bind, gets in E7. cbn [id] in E7. cbv zeta in E7. rewrite L5, Hm in E7. cbn [negb] in E7.
    rewrite orb_true_r in E7. cbn [orb] in E7. injection E7 as <- <-. injection E as _ _ _ -> _. contradiction.
Qed.
End Accept.

(** C34: When [lockstep_quad.out] accepts a commit of hart [h] and goes on, the
    golden hart had, at the moment of its step, exactly the PC, x1..x31 and
    mstatus of the core; and if no load of [mtime] was pending, the core was not
    entering a trap and the golden hart's last instruction was not a memory
    operation, it had them before the comparison, so nothing was patched. The
    commit that ends the run with [Return 0] is hart 0's, and it was compared. *)
Theorem quad_commit_accepted `{Model} `{Console} T n waves c h s d s' :
  commit_hart T n waves c h s = Ok (Matched d) s' ->
  qbench s' = qbench s /\
  (exists s1, agree_hart (qbench s) (qgolden s1) h /\ golden_step_hart n h s1 = Ok true s') /\
  (plain_commit s h -> agree_hart (qbench s) (qgolden s) h) /\
  (d = true -> h = 0%nat /\ hit c (default 0 (last_commit_pc (qbench s) !! 0%nat)) (Rtl.reg (qbench s) 0 10) = true).
Proof.
  intros E. apply bind_inv in E as (x & s1 & E1 & E). destruct x as [[[[rp ep] i] r]|]; [|discriminate].
  destruct (Z.eqb_spec rp ep) as [Heq|]; cbn [negb] in E.
  2:{ exfalso. repeat (apply bind_inv in E as (? & ? & _ & E)). discriminate. }
  destruct (Z.eqb_spec r 0) as [->|]; cbn [negb] in E.
  2:{ exfalso. repeat (apply bind_inv in E as (? & ? & _ & E)). discriminate. }
  destruct (settle_agrees _ _ _ _ _ _ _ E1 Heq) as (B1 & Hrp & Hagree).
  apply bind_inv in E as (u & s2 & E2 & E). injection E2 as _ <-.
  apply bind_inv in E as (ended & s3 & E3 & E). destruct ended; [|discriminate].
  apply bind_inv in E as (b & s4 & E4 & E). injection E4 as <- <-. injection E as <- <-.
  assert (B3 : qbench s3 = qbench s) by (rewrite <- B1; exact (keeps_step _ _ _ _ _ E3)).
  split; [exact B3|]. split.
  { eexists. split; [|exact E3]. exact Hagree. }
  split; [intros Hp; exact (settle_plain _ _ _ _ _ _ _ Hp E1 Heq)|].
  cbn [id]. rewrite B3. intros Hd. apply andb_true_iff in Hd as [Hh Hhit]. apply Nat.eqb_eq in Hh as ->. split; [reflexivity|].
  rewrite <- Hrp. exact Hhit.
Qed.

(** ** Concrete runs *)

Definition quad_new (l : list (list core_ports)) (cells : list (Z * Z)) : quad :=
  {| qbench := simulator_new (script_system 0 l); qgolden := golden_with cells;
     msip_latch := replicate 4 0; pending_mtime_rd := replicate 4 (-1); last_memop := replicate 4 MemOp_init;
     racy_fixups := 0; fixup_seen := ∅; matched := 0; matched_per_hart := replicate 4 0; frames := []; qsaid := [] |}.
Definition done_pc (p : Z) : Completion := {| done_pcs := [p]; have_a0 := false; a0_val := 0 |}.
(** Harts 0 and 1 run [adds]; hart 1 is one commit behind. *)
Definition two_harts : quad :=
  let c0 := core_at 0x80000000 [] in let c1 := core_at 0x80000004 [(1, 5)] in let c2 := core_at 0x80000008 [(1, 5); (2, 7)] in
  quad_new [[c0; idle_core; idle_core; idle_core]; [c1; c0; idle_core; idle_core]; [c2; c1; idle_core; idle_core]] adds.
Definition quad_end (r : outcome quad verdict) : quad := match r with Ok _ s => s | _ => two_harts end.

Example two_harts_pass : let s' := quad_end (quad_main 5 5 false false (done_pc 0x80000008) two_harts) in
  quad_main 5 5 false false (done_pc 0x80000008) two_harts = Ok (Return 0) s' /\
  qsaid s' = [QComplete 5 [3; 2; 0; 0] 0].
Proof. vm_compute. split; reflexivity. Qed.

(** The state at the first commit of hart 0. *)
Definition first_commit : quad := { two_harts with qbench ::= (fun b => (step_until_commits false 5 false b).2) }.
Definition commit_end (r : outcome quad commit_verdict) : quad := match r with Ok _ s => s | _ => two_harts end.
Lemma quad_commit_accepted_witness :
  let c := done_pc 0x80000000 in
  let s' := commit_end (commit_hart 5 5 false c 0 first_commit) in
  commit_hart 5 5 false c 0 first_commit = Ok (Matched true) s' /\
  (qbench s' = qbench first_commit /\
   (exists s1, agree_hart (qbench first_commit) (qgolden s1) 0 /\ golden_step_hart 5 0 s1 = Ok true s') /\
   (plain_commit first_commit 0 -> agree_hart (qbench first_commit) (qgolden first_commit) 0) /\
   (true = true -> 0%nat = 0%nat /\ hit c (default 0 (last_commit_pc (qbench first_commit) !! 0%nat)) (Rtl.reg (qbench first_commit) 0 10) = true)).
Proof.
  assert (E : commit_hart 5 5 false (done_pc 0x80000000) 0 first_commit =
    Ok (Matched true) (commit_end (commit_hart 5 5 false (done_pc 0x80000000) 0 first_commit))) by (vm_compute; reflexivity).
  split; [exact E|]. exact (quad_commit_accepted 5 5 false (done_pc 0x80000000) 0 first_commit true _ E).
Defined.

(** The undo of an SC can erase another hart's store. Hart 0's golden SC.W to
    0x80000100 succeeded and its RTL SC failed; in between the golden hart 1
    stored to the other half of the doubleword. After the reconciliation that
    store is gone. *)
Definition sc_state (cell : Z) : emulator :=
  { (golden_with []) with shared := boot_world [(32, cell)] (keys [] 0) }.
Definition sc_race_op : MemOp := mkmemop true 3 5 4 0x03 0x80000100 0x11 0x2222222200000000.
Theorem sc_undo_loses_store :
  let after_sc := (store_word 0x80000100 (oldword sc_race_op) (rs2val sc_race_op)).2 in
  let after_store := (store_word 0x80000104 after_sc 0x33333333).2 in
  exists e', reconcile_memory sc_race_op 1 0 (sc_state after_store) = Ok tt e' /\
    read_mem64 0x80000100 e' = Ok 0x2222222200000000 e' /\ after_store = 0x3333333300000011.
Proof.
  cbv zeta. eexists. split; [|split].
  - apply reconcile_sc_undo; [reflexivity| |reflexivity|discriminate]. split; [cbn; lia|]. split; [reflexivity|left; reflexivity].
  - vm_compute. reflexivity.
  - vm_compute. reflexivity.
Qed.
