(* ===== verification/Linuxlock.v ===== *)
(** * Lock step of a Linux image: [sim/harness/lockstep_linux.cpp]

    The program shares its memory-operation and stepping helpers with
    [lockstep_quad.cpp] ([Quad]); what differs is here: the forced trap reports
    a take that did nothing, every commit enters a ring of the last 128, which is
    written out when the run ends in a stall or a mismatch, the register
    comparison can be switched off, and nothing ends the run with success. The
    console of the guest is shown ([SHOW_TERMINAL]). *)

From S2P Require Import Prelude Constants Alu MemAccess Csr Clint Hart Trap Execute Emulator Safety Boot Spec Refine MemInstr Atomics Rtl Lockstep Quad.

Definition RING : Z := 128.

Record entry := { e_cycle : Z; e_hart : nat; e_emu_pc : Z; e_rtl_pc : Z; e_insn : Z }.
Definition entry_init : entry := {| e_cycle := 0; e_hart := 0; e_emu_pc := 0; e_rtl_pc := 0; e_insn := 0 |}.

(** The local variables [ring], [ring_i], [ring_n]. *)
Record ring_t := { ring : list entry; ring_i : Z; ring_n : Z }.
Definition ring_init : ring_t := {| ring := replicate (Z.to_nat RING) entry_init; ring_i := 0; ring_n := 0 |}.
Definition ring_push (e : entry) (r : ring_t) : ring_t :=
  {| ring := <[Z.to_nat (ring_i r) := e]> (ring r); ring_i := (ring_i r + 1) mod RING;
     ring_n := if ring_n r <? RING then ring_n r + 1 else ring_n r |}.
(** The loop that writes the ring, oldest first. *)
Definition ring_dump (r : ring_t) : list entry :=
  map (fun k => default entry_init (ring r !! Z.to_nat (Z.rem (ring_i r + RING - ring_n r + Z.of_nat k) RING)))
    (seq 0 (Z.to_nat (ring_n r))).

Inductive note :=
| NoOpTake (hart : nat) (emu_pc rtl_pc mstatus : Z)
| Csrs (hart : nat) (rtl_mstatus golden_mstatus rtl_mepc golden_mepc rtl_mcause rtl_mtvec : Z)
| TakeFlags (force_take gpr_resync : bool) (pc insn : Z)
| RingDump (l : list entry)
| Progress (matched cycle : Z) (per_hart : list Z).

Record lsim `{Verilated} `{Console} := mklsim { quad_ : quad; ring_ : ring_t; notes : list note }.

Section Linux.
Context `{Model} `{Console} (STEP_TIMEOUT : nat).
Local Open Scope prog_scope.

Definition on_quad {A} (m : M quad A) : M lsim A := fun s =>
  match m (quad_ s) with
  | Ok a q => Ok a { s with quad_ := q }
  | Exit c q => Exit c { s with quad_ := q }
  | Throw q => Throw { s with quad_ := q }
  | UB => UB
  end.
Definition golden_l {A} (m : M emulator A) : M lsim A := on_quad (golden_do m).
Definition tell (n : note) : M lsim unit := modify (fun s => { s with notes ::= (fun l => l ++ [n]) }).

(** ** The forced trap: whether it was taken and whether the registers were adopted *)

Definition linux_force_take (n : nat) (h : nat) : M lsim (option (bool * bool)) :=
  gp <- golden_l (emu_get_pc h) ;;
  b <- on_quad (rtl id) ;;
  let rp := default 0 (last_commit_pc b !! h) in
  let tv := Rtl.mtvec b (hart_ix h) in
  if must_take b h gp then
    (if Rtl.mcause b (hart_ix h) =? 0x8000000000000003
     then golden_l (emu_take_machine_soft_irq h) else golden_l (emu_take_machine_timer_irq h)) ;;;
    after <- golden_l (emu_get_pc h) ;;
    ms <- golden_l (emu_get_mstatus h) ;;
    when (after =? gp) (tell (NoOpTake h gp rp ms)) ;;;
    (let rtl_mepc := Rtl.mepc b (hart_ix h) in
     if negb (rtl_mepc =? 0) then golden_l (emu_set_mepc h rtl_mepc) else ret tt) ;;;
    ended <- golden_l (catch_up 32 n h tv rp) ;;
    if ended : bool then
      gp <- golden_l (emu_get_pc h) ;;
      when (gp =? rp) (golden_l (adopt_state b h)) ;;;
      ret (Some (true, gp =? rp))
    else ret None
  else ret (Some (false, false)).

(** ** Reports *)

Definition dump_mismatch_header (kind : Z) (hart : nat) : M lsim unit :=
  on_quad (dump_mismatch kind hart) ;;;
  b <- on_quad (rtl id) ;;
  ms <- golden_l (emu_get_mstatus hart) ;;
  ep <- golden_l (emu_get_mepc hart) ;;
  tell (Csrs hart (read_register b (hart_ix hart) 32) ms (Rtl.mepc b (hart_ix hart)) ep
          (Rtl.mcause b (hart_ix hart)) (Rtl.mtvec b (hart_ix hart))).
Definition write_ring : M lsim unit := s <- gets id ;; tell (RingDump (ring_dump (ring_ s))).
(** [for (...) bench.step();] *)
Definition dump_steps (n : nat) : M lsim unit :=
  on_quad (modify (fun q => { q with qbench ::= Nat.iter n (fun b => (sim_step true STEP_TIMEOUT b).2) })).

Definition push_commit (h : nat) (emu_pc rtl_pc : Z) : M lsim unit :=
  insn <- golden_l (emu_get_instruction h) ;;
  modify (fun s => let b := qbench (quad_ s) in
    { s with ring_ ::= ring_push {| e_cycle := u64 (tickcount b + dump_tick b); e_hart := h; e_emu_pc := emu_pc;
                                    e_rtl_pc := rtl_pc; e_insn := insn |} }).

Definition linux_report_pc (h : nat) (rtl_pc emu_pc : Z) : M lsim commit_verdict :=
  dump_mismatch_header 1 h ;;;
  insn <- golden_l (emu_get_instruction h) ;;
  on_quad (qsay (QPCs emu_pc insn rtl_pc)) ;;;
  write_ring ;;; on_quad (qsay (QShowState h)) ;;; dump_steps 200 ;;; ret Mismatched.

Definition linux_report_registers (h : nat) (r rtl_pc : Z) (took resynced : bool) : M lsim commit_verdict :=
  dump_mismatch_header 2 h ;;;
  b <- on_quad (rtl id) ;;
  regs <- golden_l (emu_reg_file h) ;;
  ms <- golden_l (emu_get_mstatus h) ;;
  insn <- golden_l (emu_get_instruction h) ;;
  let gold i := default 0 (regs !! Z.to_nat i) in
  on_quad (qsay (QValues r (read_register b (hart_ix h) r) (if r =? 32 then ms else gold r)
    (filter (fun d => negb (d.1.2 =? d.2))
      (map (fun i => let i := Z.of_nat i in (i, read_register b (hart_ix h) i, gold i)) (seq 1 31))))) ;;;
  tell (TakeFlags took resynced rtl_pc insn) ;;;
  write_ring ;;; on_quad (qsay (QShowState h)) ;;; dump_steps 50 ;;; ret Mismatched.

(** The register comparison with its reconciliation: the mismatch that remains. *)
Definition compare_registers (h : nat) (rtl_pc : Z) : M lsim Z :=
  on_quad (r <- check_hart_registers h ;;
           if negb (r =? 0) then
             fixed <- reconcile_racy h r rtl_pc ;;
             if fixed : bool then check_hart_registers h else ret r
           else ret 0).

(** ** A tick *)

(** Everything before [matched++]: the PCs, the register mismatch that remains,
    and the flags of the forced trap. [pc_only] is [CHIRON_LOCKSTEP_PC_ONLY=1]. *)
Definition linux_settle (n : nat) (pc_only : bool) (h : nat) : M lsim (option (Z * Z * Z * (bool * bool))) :=
  on_quad (apply_pending_mtime_rd h) ;;;
  took <- linux_force_take n h ;;
  match took with
  | None => ret None
  | Some flags =>
    b <- on_quad (rtl id) ;;
    let rtl_pc := default 0 (last_commit_pc b !! h) in
    emu_pc <- golden_l (emu_get_pc h) ;;
    push_commit h emu_pc rtl_pc ;;;
    if negb (rtl_pc =? emu_pc) then ret (Some (rtl_pc, emu_pc, 0, flags))
    else
      r <- (if pc_only then ret 0 else compare_registers h rtl_pc) ;;
      ret (Some (rtl_pc, emu_pc, r, flags))
  end.

Definition linux_commit_hart (n : nat) (pc_only : bool) (h : nat) : M lsim commit_verdict :=
  x <- linux_settle n pc_only h ;;
  match x with
  | None => ret Unfinished
  | Some (rtl_pc, emu_pc, r, (force_took, force_resynced)) =>
    if negb (rtl_pc =? emu_pc) then linux_report_pc h rtl_pc emu_pc
    else if negb (r =? 0) then linux_report_registers h r rtl_pc force_took force_resynced
    else
      on_quad (modify (fun s => { s with matched := u64 (matched s + 1);
                                         matched_per_hart ::= alter (fun x => u64 (x + 1)) h })) ;;;
      ended <- on_quad (golden_step_hart n h) ;;
      ret (if ended : bool then Matched false else Unfinished)
  end.

Fixpoint linux_commit_harts (n : nat) (pc_only : bool) (mask : Z) (l : list nat) : M lsim commit_verdict :=
  match l with
  | [] => ret (Matched false)
  | h :: l =>
    if Z.testbit mask (hart_ix h) then
      v <- linux_commit_hart n pc_only h ;;
      match v with Matched _ | Skipped => linux_commit_harts n pc_only mask l | v => ret v end
    else linux_commit_harts n pc_only mask l
  end.

Definition linux_tick (n : nat) (pc_only : bool) : M lsim verdict :=
  s <- gets id ;;
  let '(x, mask, b) := step_until_commits_nodump true STEP_TIMEOUT (qbench (quad_ s)) in
  on_quad (modify (fun q => { q with qbench := b })) ;;;
  if x =? 1 then dump_mismatch_header 0 0 ;;; write_ring ;;; dump_steps 200 ;;; ret Break
  else
    on_quad follow_clint ;;;
    v <- linux_commit_harts n pc_only mask harts4 ;;
    s <- gets id ;;
    match v with
    | Unfinished => ret OutOfFuel
    | Mismatched => ret (Return 1)
    | _ =>
      let q := quad_ s in
      when ((matched q mod 1000000 =? 0) && (0 <? matched q))
        (tell (Progress (matched q) (u64 (tickcount (qbench q) + dump_tick (qbench q))) (matched_per_hart q))) ;;;
      ret Continue
    end.

Fixpoint linux_loop (n k : nat) (pc_only : bool) : M lsim verdict :=
  match k with
  | O => ret OutOfFuel
  | S k => v <- linux_tick n pc_only ;; match v with Continue => linux_loop n k pc_only | v => ret v end
  end.

(** [main], from the point where both sides are initialised. *)
Definition linux_main (n : nat) (pc_only : bool) : M lsim verdict :=
  on_quad (modify (fun q => { q with qbench ::= set_probe (Z.land (0x2004000 + 0) (u64 (Z.lnot 7))) })) ;;;
  v <- linux_loop n n pc_only ;;
  match v with
  | Break =>
    s <- gets id ;;
    let q := quad_ s in
    on_quad (qsay (QTimeOut (s64 (tickcount (qbench q) + dump_tick (qbench q))) (matched q) (matched_per_hart q))) ;;;
    ret (Return 1)
  | v => ret v
  end.
End Linux.

(** ** The ring *)

(** After any number of pushes the ring is written out as the last 128 entries
    pushed, or all of them when there were fewer, oldest first. *)
Definition pushed (l : list entry) : ring_t := fold_left (fun r e => ring_push e r) l ring_init.
Definition last_entries (l : list entry) : list entry := drop (length l - Z.to_nat RING) l.

Lemma pushed_snoc l e : pushed (l ++ [e]) = ring_push e (pushed l).
Proof. unfold pushed. rewrite fold_left_app. reflexivity. Qed.

Lemma pushed_state l :
  length (ring (pushed l)) = 128%nat /\ ring_i (pushed l) = Z.of_nat (length l) mod 128 /\
  ring_n (pushed l) = Z.min (Z.of_nat (length l)) 128 /\
  forall j, (length l <= j + 128)%nat -> (j < length l)%nat -> ring (pushed l) !! (j mod 128)%nat = l !! j.
Proof.
  induction l as [|e l IH] using rev_ind; [cbn; repeat split; intros; lia|].
  destruct IH as (Hlen & Hi & Hn & Hj). rewrite pushed_snoc, length_app. cbn [length].
  unfold ring_push, RING. cbn [ring ring_i ring_n]. rewrite length_insert, Hi, Hn.
  split; [assumption|]. split; [|split].
  - rewrite Zplus_mod_idemp_l. f_equal. lia.
  - destruct (Z.ltb_spec (Z.min (Z.of_nat (length l)) 128) 128); lia.
  - intros j H1 H2.
    assert (Hmod : Z.to_nat (Z.of_nat (length l) mod 128) = (length l mod 128)%nat) by (rewrite <- (Nat2Z.inj_mod _ 128); apply Nat2Z.id).
    rewrite Hmod. destruct (Nat.eq_dec j (length l)) as [->|Hne].
    + rewrite list_lookup_insert_eq by (rewrite Hlen; apply Nat.mod_upper_bound; lia).
      rewrite lookup_app_r, Nat.sub_diag by lia. reflexivity.
    + rewrite lookup_app_l by lia. rewrite list_lookup_insert_ne; [apply Hj; lia|].
      intros Heq. pose proof (Nat.div_mod j 128 ltac:(lia)). pose proof (Nat.div_mod (length l) 128 ltac:(lia)).
      rewrite Heq in *. assert (j / 128 = length l / 128)%nat by nia. lia.
Qed.

(** The trace a failing Linux lock step writes to run.log is the last 128
    commits in the order they happened (all of them if there were fewer). *)
Theorem ring_dump_last_commits l : ring_dump (pushed l) = last_entries l.
Proof.
  destruct (pushed_state l) as (Hlen & Hi & Hn & Hj). unfold ring_dump, last_entries, RING. rewrite Hi, Hn.
  change (Z.to_nat 128) with 128%nat. apply list_eq. intros k. rewrite list_lookup_fmap, lookup_drop.
  destruct (lt_dec k (Z.to_nat (Z.min (Z.of_nat (length l)) 128))) as [Hk|Hk].
  - rewrite lookup_seq_lt by exact Hk. cbn [fmap option_fmap option_map Nat.add].
    set (j := (length l - 128 + k)%nat).
    assert (Hjr : Z.to_nat (Z.rem (Z.of_nat (length l) mod 128 + 128 - Z.min (Z.of_nat (length l)) 128 + Z.of_nat k) 128) = (j mod 128)%nat).
    { rewrite Z.rem_mod_nonneg by (pose proof (Z.mod_pos_bound (Z.of_nat (length l)) 128); lia).
      rewrite <- (Nat2Z.id (j mod 128)%nat). f_equal. rewrite Nat2Z.inj_mod. change (Z.of_nat 128) with 128. unfold j.
      destruct (Z.leb_spec (Z.of_nat (length l)) 128).
      - rewrite Z.min_l by lia. replace (length l - 128)%nat with 0%nat by lia. zlia.
      - rewrite Z.min_r by lia. rewrite Nat2Z.inj_add, Nat2Z.inj_sub by lia. change (Z.of_nat 128) with 128. zlia. }
    rewrite Hjr, Hj by (unfold j; lia).
    destruct (lookup_lt_is_Some_2 l j) as [x Hx]; [unfold j; lia|]. rewrite Hx. reflexivity.
  - rewrite lookup_seq_ge by lia. symmetry. apply lookup_ge_None_2. lia.
Qed.

(** ** The same judgement as the four-hart harness *)

Section Erase.
Context `{Model} `{Console}.
Local Open Scope prog_scope.

(** [m], with the ring and the notes forgotten, is [m'], up to [R] on results. *)
Definition erases_at {A B} (R : A -> B -> Prop) (m : M lsim A) (m' : M quad B) (s : lsim) : Prop :=
  match m s with
  | Ok a s' => exists b, m' (quad_ s) = Ok b (quad_ s') /\ R a b
  | Exit c s' => m' (quad_ s) = Exit c (quad_ s')
  | Throw s' => m' (quad_ s) = Throw (quad_ s')
  | UB => m' (quad_ s) = UB
  end.
Definition erases {A B} (R : A -> B -> Prop) (m : M lsim A) (m' : M quad B) : Prop := forall s, erases_at R m m' s.

Lemma erases_ret {A B} (R : A -> B -> Prop) a b : R a b -> erases R (ret a) (ret b).
Proof. intros Hr s. exists b. split; [reflexivity|exact Hr]. Qed.
Lemma erases_quad {A} (m : M quad A) : erases eq (on_quad m) m.
Proof. intros s. unfold erases_at, on_quad. destruct (m (quad_ s)); eauto. Qed.
Lemma erases_bind_at {A B A' B'} (Q : A -> A' -> Prop) (R : B -> B' -> Prop) m m' k k' s :
  erases_at Q m m' s -> (forall a a' s1, m s = Ok a s1 -> Q a a' -> erases_at R (k a) (k' a') s1) ->
  erases_at R (bind m k) (bind m' k') s.
Proof.
  unfold erases_at, bind. intros Hm Hk. destruct (m s) as [a s1|c s1|s1|]; [|rewrite Hm; reflexivity..].
  destruct Hm as (a' & -> & Hq). exact (Hk a a' s1 eq_refl Hq).
Qed.
Lemma erases_bind {A B A' B'} (Q : A -> A' -> Prop) (R : B -> B' -> Prop) m m' k k' :
  erases Q m m' -> (forall a a', Q a a' -> erases R (k a) (k' a')) -> erases R (bind m k) (bind m' k').
Proof. intros Hm Hk s. apply (erases_bind_at Q); [apply Hm|]. intros a a' s1 _ Hq. apply Hk, Hq. Qed.
Lemma erases_let {A B B'} (R : B -> B' -> Prop) (m : M quad A) k k' :
  (forall a, erases R (k a) (k' a)) -> erases R (bind (on_quad m) k) (bind m k').
Proof. intros Hk. apply (erases_bind eq); [apply erases_quad|]. intros a _ <-. apply Hk. Qed.
Lemma erases_note {B B'} (R : B -> B' -> Prop) (m : M lsim unit) k k' :
  (forall s, exists s', m s = Ok tt s' /\ quad_ s' = quad_ s) -> erases R k k' -> erases R (m ;;; k) k'.
Proof. intros Hm Hk s. unfold erases_at, bind. destruct (Hm s) as (s' & -> & <-). apply Hk. Qed.
Lemma erases_assoc {A C B B'} (R : B -> B' -> Prop) (m : M lsim A) (k : A -> M lsim C) k2 m' :
  erases R (bind m (fun a => bind (k a) k2)) m' -> erases R (bind (bind m k) k2) m'.
Proof. intros Hm s. specialize (Hm s). unfold erases_at, bind in *. destruct (m s); exact Hm. Qed.
Lemma erases_ext {A B} (R : A -> B -> Prop) m m1 m2 : (forall q, m1 q = m2 q) -> erases R m m1 -> erases R m m2.
Proof. intros E Hm s. specialize (Hm s). unfold erases_at in *. rewrite <- E. exact Hm. Qed.

(** Two reads of a hart that was just changed. *)
Lemma erases_probe {B B'} (R : B -> B' -> Prop) f h (m : Z -> Z -> M lsim unit) k k' :
  (forall a b s, exists s', m a b s = Ok tt s' /\ quad_ s' = quad_ s) -> erases R k k' ->
  erases R (golden_l (with_hart h (on_hart f)) ;;;
            after <- golden_l (emu_get_pc h) ;; ms <- golden_l (emu_get_mstatus h) ;; m after ms ;;; k)
           (golden_do (with_hart h (on_hart f)) ;;; k').
Proof.
  intros Hm Hk s. apply (erases_bind_at eq); [apply erases_quad|]. intros u u' s1 E _.
  assert (Hh : exists hh, harts (qgolden (quad_ s1)) !! h = Some hh).
  { unfold golden_l, on_quad, golden_do, with_hart in E. destruct (harts (qgolden (quad_ s)) !! h) as [h0|] eqn:Eh; [|discriminate].
    assert (Hlen : (h < length (harts (qgolden (quad_ s))))%nat) by (eapply lookup_lt_Some; exact Eh).
    unfold on_hart, modify in E. injection E as _ <-. eexists. apply list_lookup_insert_eq, Hlen. }
  clear E. destruct Hh as [hh Hh].
  assert (Hget : forall (p : hart -> Z), on_quad (golden_do (with_hart h (gets (fun s => p (hrt s))))) s1 = Ok (p hh) s1).
  { intros p. unfold on_quad, golden_do, with_hart. rewrite Hh. unfold gets. cbn [hrt wld].
    rewrite list_insert_id by exact Hh. destruct s1 as [q r l]. destruct q as [? g0 ? ? ? ? ? ? ? ? ?]. destruct g0. reflexivity. }
  unfold erases_at, emu_get_pc, emu_get_mstatus, golden_l, bind. rewrite (Hget get_pc), (Hget get_mstatus).
  destruct (Hm (get_pc hh) (get_mstatus hh) s1) as (s2 & -> & <-). apply Hk.
Qed.

(** *** The forced trap *)

Lemma tell_note n (s : lsim) : exists s', tell n s = Ok tt s' /\ quad_ s' = quad_ s.
Proof. eexists. split; reflexivity. Qed.

(** [force_take] on a driver read once. *)
Definition force_body (n : nat) (h : nat) (b : simulator) : M quad (option bool) :=
  let rp := default 0 (last_commit_pc b !! h) in
  let tv := Rtl.mtvec b (hart_ix h) in
  (if Rtl.mcause b (hart_ix h) =? 0x8000000000000003
   then golden_do (emu_take_machine_soft_irq h) else golden_do (emu_take_machine_timer_irq h)) ;;;
  (let rtl_mepc := Rtl.mepc b (hart_ix h) in
   if negb (rtl_mepc =? 0) then golden_do (emu_set_mepc h rtl_mepc) else ret tt) ;;;
  ended <- golden_do (catch_up 32 n h tv rp) ;;
  if ended : bool then
    gp <- golden_do (emu_get_pc h) ;;
    when (gp =? rp) (golden_do (adopt_state b h)) ;;;
    ret (Some true)
  else ret None.
Lemma force_take_body n h q :
  (gp <- golden_do (emu_get_pc h) ;; b <- rtl id ;; if must_take b h gp then force_body n h b else ret (Some false)) q =
  force_take_if_needed n h q.
Proof.
  unfold force_take_if_needed. unfold bind at 1 3. destruct (golden_do (emu_get_pc h) q) as [gp q1| | |]; try reflexivity.
  unfold bind at 1 2. cbn [rtl gets]. unfold rtl, gets. destruct (must_take _ h gp); reflexivity.
Qed.

Definition took_alike (x : option (bool * bool)) (y : option bool) : Prop := option_map fst x = y.
Lemma force_take_erases n h : erases took_alike (linux_force_take n h) (force_take_if_needed n h).
Proof.
  eapply erases_ext; [intros q; apply force_take_body|]. unfold linux_force_take.
  apply erases_let. intros gp. apply erases_let. intros b. cbv zeta.
  destruct (must_take b h gp); [|apply erases_ret; reflexivity]. unfold force_body. cbv zeta.
  assert (Hrest : erases took_alike
    ((if negb (Rtl.mepc b (hart_ix h) =? 0) then golden_l (emu_set_mepc h (Rtl.mepc b (hart_ix h))) else ret tt) ;;;
     ended <- golden_l (catch_up 32 n h (Rtl.mtvec b (hart_ix h)) (default 0 (last_commit_pc b !! h))) ;;
     if ended : bool then
       gp <- golden_l (emu_get_pc h) ;;
       when (gp =? default 0 (last_commit_pc b !! h)) (golden_l (adopt_state b h)) ;;;
       ret (Some (true, gp =? default 0 (last_commit_pc b !! h)))
     else ret None)
    ((if negb (Rtl.mepc b (hart_ix h) =? 0) then golden_do (emu_set_mepc h (Rtl.mepc b (hart_ix h))) else ret tt) ;;;
     ended <- golden_do (catch_up 32 n h (Rtl.mtvec b (hart_ix h)) (default 0 (last_commit_pc b !! h))) ;;
     if ended : bool then
       gp <- golden_do (emu_get_pc h) ;;
       when (gp =? default 0 (last_commit_pc b !! h)) (golden_do (adopt_state b h)) ;;;
       ret (Some true)
     else ret None)).
  { apply (erases_bind eq); [destruct (negb _); [apply erases_quad|apply erases_ret; reflexivity]|]. intros u u' _.
    apply erases_let. intros [|]; [|apply erases_ret; reflexivity]. apply erases_let. intros gp'.
    apply (erases_bind eq); [unfold when; destruct (gp' =? _); [apply erases_quad|apply erases_ret; reflexivity]|].
    intros w w' _. apply erases_ret. reflexivity. }
  assert (Hnote : forall a ms s, exists s', when (a =? gp) (tell (NoOpTake h gp (default 0 (last_commit_pc b !! h)) ms)) s = Ok tt s' /\ quad_ s' = quad_ s)
    by (intros a ms s; unfold when; destruct (a =? gp); [apply tell_note|exists s; split; reflexivity]).
  destruct (_ =? 0x8000000000000003).
  - exact (erases_probe took_alike take_machine_soft_irq h (fun a ms => when (a =? gp) (tell (NoOpTake h gp (default 0 (last_commit_pc b !! h)) ms))) _ _ Hnote Hrest).
  - exact (erases_probe took_alike take_machine_timer_irq h (fun a ms => when (a =? gp) (tell (NoOpTake h gp (default 0 (last_commit_pc b !! h)) ms))) _ _ Hnote Hrest).
Qed.

(** *** A commit *)

Definition settled_alike (x : option (Z * Z * Z * (bool * bool))) (y : option (Z * Z * Z * Z)) : Prop :=
  match x, y with
  | None, None => True
  | Some (rp, ep, r, _), Some (rp', ep', _, r') => rp = rp' /\ ep = ep' /\ r = r'
  | _, _ => False
  end.

(** The register comparison of the four-hart harness as one program. *)
Definition compare_body (h : nat) (rtl_pc : Z) : M quad Z :=
  r <- check_hart_registers h ;;
  if negb (r =? 0) then
    fixed <- reconcile_racy h r rtl_pc ;;
    if fixed : bool then check_hart_registers h else ret r
  else ret 0.
Lemma compare_tail h (rp ep i : Z) q :
  (r <- compare_body h rp ;; ret (Some (rp, ep, i, r))) q =
  (r <- check_hart_registers h ;;
   if negb (r =? 0) then
     fixed <- reconcile_racy h r rp ;;
     if fixed : bool then r <- check_hart_registers h ;; ret (Some (rp, ep, i, r)) else ret (Some (rp, ep, i, r))
   else ret (Some (rp, ep, i, 0))) q.
Proof.
  unfold compare_body, bind. destruct (check_hart_registers h q) as [r q1| | |]; try reflexivity.
  destruct (negb (r =? 0)); [|reflexivity]. destruct (reconcile_racy h r rp q1) as [[|] q2| | |]; reflexivity.
Qed.

Lemma settle_erases n h : erases settled_alike (linux_settle n false h) (settle_hart n h).
Proof.
  unfold linux_settle, settle_hart. apply erases_let. intros _.
  apply (erases_bind took_alike); [apply force_take_erases|]. intros x y Hxy.
  destruct x as [flags|], y as [t|]; try discriminate; [|apply erases_ret; exact I].
  apply erases_let. intros b. cbv zeta. apply erases_let. intros ep. unfold push_commit. apply erases_assoc.
  apply erases_let. intros i. apply erases_note; [intros s; eexists; split; reflexivity|].
  destruct (negb _); [apply erases_ret; repeat split|].
  eapply erases_ext; [intros q; apply compare_tail|]. cbv iota. unfold compare_registers.
  apply (erases_let settled_alike (compare_body h _)). intros r. apply erases_ret. repeat split.
Qed.

(** Both accept, or neither. *)
Definition both_accept (x : outcome lsim commit_verdict) (y : outcome quad commit_verdict) : Prop :=
  (forall d s', x = Ok (Matched d) s' -> exists e, y = Ok (Matched e) (quad_ s')) /\
  (forall e q', y = Ok (Matched e) q' -> exists s', x = Ok (Matched false) s' /\ quad_ s' = q').

Context (T : nat).
Lemma linux_pc_rejects h rp ep d s s' : linux_report_pc T h rp ep s <> Ok (Matched d) s'.
Proof. intros E. unfold linux_report_pc in E. repeat (apply bind_inv in E as (? & ? & _ & E)). discriminate. Qed.
Lemma linux_registers_reject h r rp took res d s s' : linux_report_registers T h r rp took res s <> Ok (Matched d) s'.
Proof. intros E. unfold linux_report_registers in E. repeat (apply bind_inv in E as (? & ? & _ & E)). discriminate. Qed.
Lemma quad_pc_rejects w h i rp ep d q q' : report_pc T h w i rp ep q <> Ok (Matched d) q'.
Proof. intros E. unfold report_pc in E. repeat (apply bind_inv in E as (? & ? & _ & E)). discriminate. Qed.
Lemma quad_registers_reject w h r d q q' : report_registers T h w r q <> Ok (Matched d) q'.
Proof. intros E. unfold report_registers in E. repeat (apply bind_inv in E as (? & ? & _ & E)). discriminate. Qed.

Lemma commit_alike n w c h s : both_accept (linux_commit_hart T n false h s) (commit_hart T n w c h (quad_ s)).
Proof.
  unfold linux_commit_hart, commit_hart. pose proof (settle_erases n h s) as Hs. unfold erases_at in Hs.
  destruct (linux_settle n false h s) as [x s1|k s1|s1|] eqn:E1; [|unfold bind; rewrite E1, Hs; split; discriminate..].
  destruct Hs as (y & E2 & Hxy). rewrite (bind_ok _ _ _ _ _ E1), (bind_ok _ _ _ _ _ E2). clear E1 E2. destruct x as [[[[rp ep] r] [took res]]|], y as [[[[rp' ep'] i] r']|]; try contradiction;
    [|split; discriminate]. destruct Hxy as (<- & <- & <-).
  destruct (negb (rp =? ep)); [split; intros d s' E; exfalso; [exact (linux_pc_rejects _ _ _ _ _ _ E)|exact (quad_pc_rejects _ _ _ _ _ _ _ _ E)]|].
  destruct (negb (r =? 0)); [split; intros d s' E; exfalso; [exact (linux_registers_reject _ _ _ _ _ _ _ _ E)|exact (quad_registers_reject _ _ _ _ _ _ E)]|].
  match goal with |- both_accept ((on_quad (modify ?f) ;;; ?k) s1) _ =>
    change ((on_quad (modify f) ;;; k) s1) with (k { s1 with quad_ := f (quad_ s1) });
    set (s2 := { s1 with quad_ := f (quad_ s1) });
    match goal with |- both_accept _ (?x (quad_ s1)) => set (y := x (quad_ s1)) end;
    change y with ((ended <- golden_step_hart n h ;;
      if ended : bool then b <- rtl id ;; ret (Matched ((h =? 0)%nat && hit c rp (Rtl.reg b 0 10))) else ret Unfinished) (quad_ s2)) end.
  clearbody s2. unfold bind at 1 2. unfold on_quad. destruct (golden_step_hart n h (quad_ s2)) as [[|] q3|k q3|q3|]; try (split; discriminate).
  split; [intros d s' [= _ <-]; eexists; reflexivity|]. intros e q' [= _ <-]. eexists. split; reflexivity.
Qed.
End Erase.

(** C22: The Linux harness judges a commit exactly as the four-hart harness does: from
    the same drivers, golden model and bookkeeping, one accepts the commit of hart
    [h] if and only if the other does, and both go on in the same state. What
    [lockstep_linux] adds (the ring, the no-op and flag notes) never influences a
    verdict, and its dump options differ only after a rejection. *)
Theorem linux_commit_as_quad `{Model} `{Console} T n waves c h s :
  (forall d s', linux_commit_hart T n false h s = Ok (Matched d) s' ->
     exists e, commit_hart T n waves c h (quad_ s) = Ok (Matched e) (quad_ s')) /\
  (forall e q', commit_hart T n waves c h (quad_ s) = Ok (Matched e) q' ->
     exists s', linux_commit_hart T n false h s = Ok (Matched false) s' /\ quad_ s' = q').
Proof. exact (commit_alike T n waves c h s). Qed.

(** The first commit of [Quad.two_harts], accepted by both. *)
Definition linux_first : lsim := mklsim _ _ first_commit ring_init [].
Definition linux_end (r : outcome lsim commit_verdict) : lsim := match r with Ok _ s => s | _ => linux_first end.
Lemma linux_commit_as_quad_witness :
  let s' := linux_end (linux_commit_hart 5 5 false 0 linux_first) in
  ring_n (ring_ s') = 1 /\
  exists e, commit_hart 5 5 false (done_pc 0x80000000) 0 first_commit = Ok (Matched e) (quad_ s').
Proof.
  assert (E : linux_commit_hart 5 5 false 0 linux_first = Ok (Matched false) (linux_end (linux_commit_hart 5 5 false 0 linux_first)))
    by (vm_compute; reflexivity).
  split; [vm_compute; reflexivity|].
  exact (proj1 (linux_commit_as_quad 5 5 false (done_pc 0x80000000) 0 linux_first) false _ E).
Defined.
