(* ===== verification/Invariants.v ===== *)
(** * The microarchitectural assertions: [sim/harness/invariants.h]

    [chiron_invariants] samples the reorder buffer of each core before every
    clock edge and compares the sample with the previous one: a ready bit may
    only rise where a port of the previous cycle could have set it, a branch is
    resolved once per allocation, and a hart retires something every
    [CHIRON_WEDGE_CYCLES] cycles. An array of the C++ struct is a function of
    the slot; printed text is a list of [event]s that carries the diagnostic
    history with it. The nets the sampler reads are a parameter ([Nets]).

    The theorems: the ROB window, the decoding of a ROB entry, the two
    ready-bit detectors as counts over the trace of samples, and the wedge
    detector, which reports a stall once. *)

From S2P Require Import Prelude Rtl.

Definition ROB_DEPTH : Z := 16.

(** ** Samples *)

Record ports := {
  readPtr : Z; writePtr : Z; allocFired : Z;
  bevValid : Z; bevPassed : Z; bevRob : Z; bevMask : Z;
  aluValid : Z; aluRob : Z; mValid : Z; mRob : Z;
  loadValid : Z; loadPrf : Z; loadInsn : Z;
  aceRespRob : Z; aceReadRob : Z; periphRespRob : Z;
  rbOpValid : Z; rbReqType : Z; rbAddr : Z; rbRob : Z; rbMask : Z; rbBrValid : Z;
  allocMask : Z; mrValid : Z; mrMask : Z; mrAddr : Z }.
Record core_sample := { at_ : ports; ready : Z -> Z; insn : Z -> Z }.

(** The nets of a core: the ports and the two memories of its ROB, by slot and 32-bit word. *)
Record core_nets := { net_ports : ports; results_memReg : Z -> Z -> Z; fifo_memReg : Z -> Z -> Z }.
Class Nets `{Verilated} := nets : Vsystem -> Z -> core_nets.

(** Bits [37:6] of the words of a ROB entry. *)
Definition insn_of (w : Z -> Z) : Z :=
  u32 (fold_left (fun v i => let b := 6 + Z.of_nat i in
         Z.lor v (Z.shiftl (Z.land (Z.shiftr (w (Z.shiftr b 5)) (Z.land b 31)) 1) (Z.of_nat i))) (seq 0 32) 0).

Definition sample_core `{Nets} (tb : Vsystem) (n : Z) : core_sample :=
  {| at_ := net_ports (nets tb n);
     ready := fun i => Z.land (results_memReg (nets tb n) i 0) 1;
     insn := fun i => insn_of (fifo_memReg (nets tb n) i) |}.

(** ** The state kept per core *)

Record sq_ev := { sq_cyc : Z; sq_rob : Z; sq_passed : Z; sq_mask : Z }.
Record lk_ev := { lk_cyc : Z; lk_rob : Z; lk_mask : Z; lk_bv : Z; lk_type : Z; lk_addr : Z }.
Record mr_ev := { mr_cyc : Z; mr_mask : Z; mr_addr : Z }.

Definition ports0 : ports := Build_ports 0 0 0 0 0 0 0 0 0 0 0 0 0 0 0 0 0 0 0 0 0 0 0 0 0 0 0.
Definition zeros : Z -> Z := fun _ => 0.
Definition upd {A} (i : Z) (v : A) (f : Z -> A) : Z -> A := fun j => if j =? i then v else f j.

(** [prev] holds the previous cycle's port state, the fields [p*] of the struct. *)
Record st := {
  seen : bool;
  prevReady : Z -> Z; pendingResolve : Z -> Z; prevRead : Z; lastCommitCyc : Z; wedgeReported : bool;
  prev : ports;
  lastAllocCyc : Z -> Z; lastReadyCyc : Z -> Z; lastRetireCyc : Z -> Z;
  sq : Z -> sq_ev; sqn : Z; lk : Z -> lk_ev; lkn : Z; allocMasks : Z -> Z; mr : Z -> mr_ev; mrn : Z;
  n_ready_no_resolve : Z; first_rnr : Z; n_ready_outside_window : Z; first_row : Z;
  n_double_resolve : Z; first_dr : Z; n_wedged : Z; first_wedge : Z;
  by_alu : Z; by_mext : Z; by_other : Z }.
Definition st_init : st :=
  {| seen := false; prevReady := zeros; pendingResolve := zeros; prevRead := 0xffff; lastCommitCyc := 0; wedgeReported := false;
     prev := ports0; lastAllocCyc := zeros; lastReadyCyc := zeros; lastRetireCyc := zeros;
     sq := fun _ => {| sq_cyc := 0; sq_rob := 0; sq_passed := 0; sq_mask := 0 |}; sqn := 0;
     lk := fun _ => {| lk_cyc := 0; lk_rob := 0; lk_mask := 0; lk_bv := 0; lk_type := 0; lk_addr := 0 |}; lkn := 0;
     allocMasks := zeros; mr := fun _ => {| mr_cyc := 0; mr_mask := 0; mr_addr := 0 |}; mrn := 0;
     n_ready_no_resolve := 0; first_rnr := 0; n_ready_outside_window := 0; first_row := 0;
     n_double_resolve := 0; first_dr := 0; n_wedged := 0; first_wedge := 0; by_alu := 0; by_mext := 0; by_other := 0 |}.

(** The logs as a violation prints them: the last entries, oldest first. *)
Definition tail_of {A} (n size keep : Z) (f : Z -> A) : list A :=
  let from := if keep <=? n then n - keep else 0 in
  map (fun k => f ((from + Z.of_nat k) mod size)) (seq 0 (Z.to_nat (n - from))).

Inductive culprit := ByAlu | ByMext | ByLoad | Unknown.
Inductive event :=
| Wedged (cyc : Z) (core : Z) (stalled slot insn ready rd wr : Z)
| DoubleResolve (cyc core slot passed : Z)
| BranchReady (cyc core slot insn : Z) (c : culprit) (at_prev : ports)
| ReadyOutside (cyc core slot insn rd wr : Z) (prev_rd : Z) (at_prev : ports) (alloc ready retire : Z)
    (squashes : list sq_ev) (mask : Z) (requests : list mr_ev) (lookups : list lk_ev).

Section Check.
Context (WEDGE_CYCLES : Z).

Definition in_window (i rd wr : Z) : bool :=
  let occ := Z.land (u32 (wr - rd)) (ROB_DEPTH - 1) in
  if occ =? 0 then true else Z.land (u32 (i - rd)) (ROB_DEPTH - 1) <? occ.

(** [n++; if (!first) first = cyc;] *)
Definition first_at (first cyc : Z) : Z := if first =? 0 then cyc else first.

(** *** Forward progress *)
Definition check_progress (c : Z) (s : core_sample) (cyc : Z) (x : st) : st * list event :=
  let rd := readPtr (at_ s) in
  let x := if negb (prevRead x =? 0xffff) && negb (rd =? prevRead x) then { x with lastCommitCyc := cyc } else x in
  let x := if prevRead x =? 0xffff then { x with lastCommitCyc := cyc } else x in
  let '(x, ev) :=
    if negb (wedgeReported x) && (u64 (lastCommitCyc x + WEDGE_CYCLES) <? cyc) then
      ({ x with wedgeReported := true; n_wedged := u64 (n_wedged x + 1); first_wedge := first_at (first_wedge x) cyc },
       [Wedged cyc c (u64 (cyc - lastCommitCyc x)) rd (insn s rd) (ready s rd) rd (writePtr (at_ s))])
    else (x, []) in
  (if negb (rd =? prevRead x) then { x with wedgeReported := false } else x, ev).

(** *** Diagnostic history *)
Fixpoint stamp_retired (fuel : nat) (r rd cyc : Z) (x : st) : st :=
  match fuel with
  | O => x
  | S fuel => if r =? rd then x
              else stamp_retired fuel (Z.land (u32 (r + 1)) (ROB_DEPTH - 1)) rd cyc { x with lastRetireCyc ::= upd r cyc }
  end.
Definition note_alloc (p : ports) (cyc : Z) (x : st) : st :=
  if negb (allocFired p =? 0)
  then { x with lastAllocCyc ::= upd (writePtr p) cyc; allocMasks ::= upd (writePtr p) (allocMask p) } else x.
Definition note_request (p : ports) (cyc : Z) (x : st) : st :=
  if negb (mrValid p =? 0)
  then { x with mr ::= upd (mrn x mod 48) {| mr_cyc := cyc; mr_mask := mrMask p; mr_addr := mrAddr p |}; mrn := u32 (mrn x + 1) } else x.
Definition note_retired (p : ports) (cyc : Z) (x : st) : st :=
  if negb (prevRead x =? 0xffff) && negb (readPtr p =? prevRead x)
  then stamp_retired (Z.to_nat ROB_DEPTH) (prevRead x) (readPtr p) cyc x else x.
Definition note_lookup (p : ports) (cyc : Z) (x : st) : st :=
  if negb (rbOpValid p =? 0)
  then { x with lk ::= upd (lkn x mod 48) {| lk_cyc := cyc; lk_rob := rbRob p; lk_mask := rbMask p; lk_bv := rbBrValid p;
                                             lk_type := rbReqType p; lk_addr := rbAddr p |};
                lkn := u32 (lkn x + 1) } else x.
Definition check_history (s : core_sample) (cyc : Z) (x : st) : st :=
  note_lookup (at_ s) cyc (note_retired (at_ s) cyc (note_request (at_ s) cyc (note_alloc (at_ s) cyc x))).

(** *** Resolutions *)
Definition check_resolve (c : Z) (s : core_sample) (cyc : Z) (x : st) : st * list event :=
  let p := at_ s in
  let '(x, ev) :=
    if negb (bevValid p =? 0) then
      let '(x, ev) :=
        if negb (pendingResolve x (bevRob p) =? 0)
        then ({ x with n_double_resolve := u64 (n_double_resolve x + 1); first_dr := first_at (first_dr x) cyc },
              [DoubleResolve cyc c (bevRob p) (bevPassed p)])
        else (x, []) in
      ({ x with pendingResolve ::= upd (bevRob p) 1;
                sq ::= upd (Z.land (sqn x) 15) {| sq_cyc := cyc; sq_rob := bevRob p; sq_passed := bevPassed p; sq_mask := bevMask p |};
                sqn := u32 (sqn x + 1) }, ev)
    else (x, []) in
  (if negb (allocFired p =? 0) then { x with pendingResolve ::= upd (writePtr p) 0 } else x, ev).

(** *** One slot: V1 and V2 *)
Definition rising (x : st) (s : core_sample) (i : Z) : bool := negb (ready s i =? 0) && (prevReady x i =? 0).
Definition was_alloc (x : st) (i : Z) : bool := negb (allocFired (prev x) =? 0) && (writePtr (prev x) =? i).
Definition was_named (x : st) (i : Z) : bool := negb (bevValid (prev x) =? 0) && (bevRob (prev x) =? i).

Definition branch_violation (x : st) (s : core_sample) (i : Z) : bool :=
  (Z.land (insn s i) 0x7f =? 0x63) && negb (was_named x i) && negb (was_alloc x i).
Definition check_branch (c : Z) (s : core_sample) (cyc i : Z) (x : st) : st * list event :=
  if branch_violation x s i then
    let aluHit := negb (aluValid (prev x) =? 0) && (aluRob (prev x) =? i) in
    let mHit := negb (mValid (prev x) =? 0) && (mRob (prev x) =? i) in
    let x := { x with n_ready_no_resolve := u64 (n_ready_no_resolve x + 1); first_rnr := first_at (first_rnr x) cyc } in
    let x := if aluHit then { x with by_alu := u64 (by_alu x + 1) }
             else if mHit then { x with by_mext := u64 (by_mext x + 1) } else { x with by_other := u64 (by_other x + 1) } in
    (x, [BranchReady cyc c i (insn s i)
           (if aluHit then ByAlu else if mHit then ByMext else if negb (loadValid (prev x) =? 0) then ByLoad else Unknown) (prev x)])
  else (x, []).

Definition outside_violation (x : st) (s : core_sample) (i : Z) : bool :=
  negb (was_alloc x i) && negb (in_window i (readPtr (at_ s)) (writePtr (at_ s))) &&
  negb (negb (prevRead x =? 0xffff) && in_window i (prevRead x) (writePtr (prev x))).
Definition check_outside (c : Z) (s : core_sample) (cyc i : Z) (x : st) : st * list event :=
  if outside_violation x s i then
    let x := { x with n_ready_outside_window := u64 (n_ready_outside_window x + 1); first_row := first_at (first_row x) cyc } in
    (x, [ReadyOutside cyc c i (insn s i) (readPtr (at_ s)) (writePtr (at_ s)) (prevRead x) (prev x)
           (lastAllocCyc x i) (lastReadyCyc x i) (lastRetireCyc x i)
           (tail_of (sqn x) 16 12 (sq x)) (allocMasks x i) (tail_of (mrn x) 48 40 (mr x)) (tail_of (lkn x) 48 48 (lk x))])
  else (x, []).

Definition check_slot (c : Z) (s : core_sample) (cyc : Z) (acc : st * list event) (k : nat) : st * list event :=
  let '(x, ev) := acc in
  let i := Z.of_nat k in
  let '(x, ev) :=
    if rising x s i then
      let '(x, ev1) := check_branch c s cyc i x in
      let '(x, ev2) := check_outside c s cyc i x in
      ({ x with lastReadyCyc ::= upd i cyc }, ev ++ ev1 ++ ev2)
    else (x, ev) in
  ({ x with prevReady ::= upd i (ready s i) }, ev).

(** *** The whole check of one core in one cycle *)
Definition check (c : Z) (s : core_sample) (cyc : Z) (x : st) : st * list event :=
  let x := { x with seen := true } in
  let '(x, e1) := check_progress c s cyc x in
  let x := check_history s cyc x in
  let '(x, e2) := check_resolve c s cyc x in
  let '(x, e3) := fold_left (check_slot c s cyc) (seq 0 (Z.to_nat ROB_DEPTH)) (x, []) in
  ({ x with prevRead := readPtr (at_ s); prev := at_ s }, e1 ++ e2 ++ e3).

(** ** The class *)

Record chiron_invariants := { cores : list st; printed : list event }.
Definition invariants_new : chiron_invariants := {| cores := replicate 4 st_init; printed := [] |}.

Definition inv_tick `{Nets} (tb : Vsystem) (cyc : Z) (inv : chiron_invariants) : chiron_invariants :=
  fold_left (fun inv n =>
    let '(x, ev) := check (Z.of_nat n) (sample_core tb (Z.of_nat n)) cyc (default st_init (cores inv !! n)) in
    {| cores := <[n := x]> (cores inv); printed := printed inv ++ ev |}) [0; 1; 2; 3]%nat inv.

Definition violations (inv : chiron_invariants) : Z :=
  fold_left (fun n x => u64 (n + n_ready_no_resolve x + n_ready_outside_window x + n_double_resolve x + n_wedged x)) (cores inv) 0.
(** [report]: its return value. *)
Definition report (inv : chiron_invariants) : Z := if violations inv =? 0 then 0 else 1.

(** [tick_checked]: the sample is taken after [eval] and before the edge. *)
Definition tick_checked `{Model} `{!Nets} (tb : Vsystem) (inv : chiron_invariants) (cyc : Z) : Vsystem * chiron_invariants :=
  let tb := eval tb in
  let inv := inv_tick tb cyc inv in
  let tb := eval { tb with clock := 1 } in
  (eval { tb with clock := 0 }, inv).
End Check.

(** ** The window and the ROB entry *)

Lemma land15 a : Z.land (u32 a) (ROB_DEPTH - 1) = a mod 16.
Proof. change (ROB_DEPTH - 1) with 15. rewrite (land_ones_mod _ 4) by (reflexivity || lia). unfold u32. change (2 ^ 4) with 16. zlia. Qed.

(** Slot [i] lies in the window when it is one of the slots from the read pointer
    up to, and not including, the write pointer; with equal pointers every slot does. *)
Lemma in_window_spec i rd wr : 0 <= i < 16 -> 0 <= rd < 16 -> 0 <= wr < 16 ->
  in_window i rd wr = true <-> rd = wr \/ exists k, 0 <= k < (wr - rd) mod 16 /\ i = (rd + k) mod 16.
Proof.
  intros Hi Hr Hw. unfold in_window. cbv zeta. rewrite !land15. destruct (Z.eqb_spec ((wr - rd) mod 16) 0).
  - split; [intros _; left; zlia|reflexivity].
  - rewrite Z.ltb_lt. split.
    + intros Hlt. right. exists ((i - rd) mod 16). split; [pose proof (Z.mod_pos_bound (i - rd) 16); lia|]. zlia.
    + intros [->|(k & Hk & ->)]; [exfalso; zlia|]. zlia.
Qed.

(** The entry layout of the comment: PC[101:38] | instruction[37:6] | prfDest[5:0]. *)
Definition rob_entry (pc insn prf : Z) : Z := pc * 2 ^ 38 + insn * 2 ^ 6 + prf.
Definition words_of (e k : Z) : Z := u32 (Z.shiftr e (32 * k)).

Lemma word_bit e i : 0 <= e -> 0 <= i ->
  Z.land (Z.shiftr (words_of e (Z.shiftr i 5)) (Z.land i 31)) 1 = Z.b2z (Z.testbit e i).
Proof.
  intros He Hi. rewrite (land_ones_mod _ 1) by (reflexivity || lia). change (2 ^ 1) with 2. rewrite (land_ones_mod i 5) by (reflexivity || lia).
  rewrite (shiftr_div i 5) by lia. change (2 ^ 5) with 32.
  assert (Hm : 0 <= i mod 32 < 32) by (apply Z.mod_pos_bound; lia).
  rewrite <- Z.bit0_mod, Z.shiftr_spec, Z.add_0_l by lia. unfold words_of, u32. change 0x100000000 with (2 ^ 32).
  rewrite Z.mod_pow2_bits_low by lia. rewrite Z.shiftr_spec by lia. f_equal. f_equal. zlia.
Qed.

Lemma insn_of_bits e : 0 <= e -> insn_of (words_of e) = u32 (Z.shiftr e 6).
Proof.
  intros He. unfold insn_of.
  assert (Hfold : forall n acc, fold_left (fun v i => let b := 6 + Z.of_nat i in
      Z.lor v (Z.shiftl (Z.land (Z.shiftr (words_of e (Z.shiftr b 5)) (Z.land b 31)) 1) (Z.of_nat i))) (seq 0 n) acc =
    Z.lor acc (Z.shiftr e 6 mod 2 ^ Z.of_nat n)).
  { induction n as [|n IH]; intros acc.
    - cbn [seq fold_left]. change (2 ^ Z.of_nat 0) with 1. rewrite Z.mod_1_r, Z.lor_0_r. reflexivity.
    - rewrite seq_S, fold_left_app, IH. cbn [fold_left]. cbv zeta. rewrite Nat.add_0_l, word_bit by lia.
      rewrite <- Z.lor_assoc. f_equal. apply Z.bits_inj'. intros j Hj. rewrite Z.lor_spec.
      rewrite Nat2Z.inj_succ. destruct (Z.ltb_spec j (Z.of_nat n)) as [Hlt|Hge].
      + rewrite !Z.mod_pow2_bits_low by lia. rewrite Z.shiftl_spec_low by lia. apply orb_false_r.
      + rewrite (Z.mod_pow2_bits_high _ (Z.of_nat n)) by lia. cbn [orb]. rewrite Z.shiftl_spec by lia.
        destruct (Z.eq_dec j (Z.of_nat n)) as [->|Hne].
        * rewrite Z.sub_diag, Z.mod_pow2_bits_low by lia. rewrite Z.shiftr_spec by lia. rewrite Z.b2z_bit0. f_equal. lia.
        * rewrite Z.mod_pow2_bits_high by lia. apply (testbit_bound _ 1); [|lia]. destruct (Z.testbit e _); cbn; lia. }
  rewrite Hfold, Z.lor_0_l. change (2 ^ Z.of_nat 32) with 0x100000000. apply u32_id, u32_range.
Qed.

(** The instruction stored in a ROB entry is read back from its words. *)
Lemma insn_of_entry pc i prf : 0 <= pc -> is_u32 i -> 0 <= prf < 64 -> insn_of (words_of (rob_entry pc i prf)) = i.
Proof.
  intros Hp Hi Hf. unfold is_u32 in Hi. rewrite insn_of_bits by (unfold rob_entry; lia).
  rewrite shiftr_div by lia. unfold rob_entry, u32. change (2 ^ 38) with 274877906944. change (2 ^ 6) with 64. zlia.
Qed.

(** ** The detectors over a trace *)

Section Trace.
Context (W c : Z).

(** One sample after another, with their cycle numbers. *)
Definition feed (l : list (core_sample * Z)) (x : st) : st := fold_left (fun x p => (check W c p.1 p.2 x).1) l x.

(** What makes a transition between two consecutive samples illegal at slot [i]. *)
Definition risen (s0 s : core_sample) (i : Z) : bool := negb (ready s i =? 0) && (ready s0 i =? 0).
Definition allocated (s0 : core_sample) (i : Z) : bool := negb (allocFired (at_ s0) =? 0) && (writePtr (at_ s0) =? i).
Definition resolved (s0 : core_sample) (i : Z) : bool := negb (bevValid (at_ s0) =? 0) && (bevRob (at_ s0) =? i).
Definition inside (s : core_sample) (i : Z) : bool := in_window i (readPtr (at_ s)) (writePtr (at_ s)).
(** A branch became ready although it was neither resolved nor allocated. *)
Definition stale_branch (s0 s : core_sample) (i : Z) : bool :=
  risen s0 s i && ((Z.land (insn s i) 0x7f =? 0x63) && negb (resolved s0 i) && negb (allocated s0 i)).
(** A slot became ready that was not allocated before, after or in between. *)
Definition stale_slot (s0 s : core_sample) (i : Z) : bool :=
  risen s0 s i && (negb (allocated s0 i) && negb (inside s i) && negb (inside s0 i)).

Definition slots (f : Z -> bool) (n : nat) : Z := Z.of_nat (length (List.filter (fun k => f (Z.of_nat k)) (seq 0 n))).
Fixpoint transitions (f : core_sample -> core_sample -> Z -> bool) (s0 : core_sample) (l : list core_sample) : Z :=
  match l with [] => 0 | s :: l => slots (f s0 s) 16 + transitions f s l end.

(** [x] is the state after sample [s0]. *)
Definition follows (x : st) (s0 : core_sample) : Prop :=
  prev x = at_ s0 /\ prevRead x = readPtr (at_ s0) /\ forall i, 0 <= i < 16 -> prevReady x i = ready s0 i.

(** What the slot loop reads and counts is untouched by the rest. *)
Definition same_slots (x x' : st) : Prop :=
  prev x' = prev x /\ prevRead x' = prevRead x /\ prevReady x' = prevReady x /\
  n_ready_no_resolve x' = n_ready_no_resolve x /\ n_ready_outside_window x' = n_ready_outside_window x.
Lemma same_slots_refl x : same_slots x x.
Proof. repeat split. Qed.
Lemma same_slots_trans x y z : same_slots x y -> same_slots y z -> same_slots x z.
Proof. unfold same_slots. intuition congruence. Qed.

Lemma progress_same s cyc x : same_slots x (check_progress W c s cyc x).1.
Proof.
  unfold check_progress. cbv zeta.
  repeat match goal with |- context [if ?b then _ else _] => destruct b; cbn [fst] end; repeat split.
Qed.
Lemma stamp_same fuel : forall r rd cyc x, same_slots x (stamp_retired fuel r rd cyc x).
Proof.
  induction fuel as [|fuel IH]; intros; cbn [stamp_retired]; [apply same_slots_refl|]. destruct (r =? rd); [apply same_slots_refl|].
  eapply same_slots_trans; [|apply IH]. repeat split.
Qed.
Lemma history_same s cyc x : same_slots x (check_history s cyc x).
Proof.
  unfold check_history.
  apply (same_slots_trans _ (note_alloc (at_ s) cyc x)); [unfold note_alloc; destruct (negb _); repeat split|].
  set (x1 := note_alloc _ _ _). apply (same_slots_trans _ (note_request (at_ s) cyc x1)); [unfold note_request; destruct (negb _); repeat split|].
  set (x2 := note_request _ _ _). apply (same_slots_trans _ (note_retired (at_ s) cyc x2)); [unfold note_retired; destruct (_ && _); [apply stamp_same|repeat split]|].
  unfold note_lookup. destruct (negb _); repeat split.
Qed.
Lemma resolve_same s cyc x : same_slots x (check_resolve c s cyc x).1.
Proof.
  unfold check_resolve. cbv zeta. destruct (negb (bevValid _ =? 0)); [destruct (negb (pendingResolve x _ =? 0))|];
    destruct (negb (allocFired _ =? 0)); repeat split.
Qed.
End Trace.

Section Slots.
Context (W c : Z).

(** A counter after one more detection. *)
Definition counted (b : bool) (n : Z) : Z := if b then u64 (n + 1) else n.

Lemma branch_step s cyc i x : let x' := (check_branch c s cyc i x).1 in
  prev x' = prev x /\ prevRead x' = prevRead x /\ prevReady x' = prevReady x /\
  n_ready_no_resolve x' = counted (branch_violation x s i) (n_ready_no_resolve x) /\
  n_ready_outside_window x' = n_ready_outside_window x.
Proof.
  unfold check_branch. destruct (branch_violation x s i); [|repeat split]. cbv zeta.
  repeat match goal with |- context [if ?b then _ else _] => destruct b end; repeat split.
Qed.
Lemma outside_slot_step s cyc i x : let x' := (check_outside c s cyc i x).1 in
  prev x' = prev x /\ prevRead x' = prevRead x /\ prevReady x' = prevReady x /\
  n_ready_no_resolve x' = n_ready_no_resolve x /\
  n_ready_outside_window x' = counted (outside_violation x s i) (n_ready_outside_window x).
Proof. unfold check_outside. destruct (outside_violation x s i); repeat split. Qed.

Lemma slot_step s cyc x ev k : let i := Z.of_nat k in let x' := (check_slot c s cyc (x, ev) k).1 in
  prev x' = prev x /\ prevRead x' = prevRead x /\ prevReady x' = upd i (ready s i) (prevReady x) /\
  n_ready_no_resolve x' = counted (rising x s i && branch_violation x s i) (n_ready_no_resolve x) /\
  n_ready_outside_window x' = counted (rising x s i && outside_violation x s i) (n_ready_outside_window x).
Proof.
  cbv zeta. unfold check_slot. set (i := Z.of_nat k). destruct (rising x s i); [|repeat split]. cbn [andb].
  pose proof (branch_step s cyc i x) as (A1 & A2 & A3 & A4 & A5). destruct (check_branch c s cyc i x) as [y e1]. cbn [fst] in *.
  pose proof (outside_slot_step s cyc i y) as (B1 & B2 & B3 & B4 & B5). destruct (check_outside c s cyc i y) as [z e2]. cbn [fst] in *.
  assert (Ho : outside_violation y s i = outside_violation x s i) by (unfold outside_violation, was_alloc; rewrite A1, A2; reflexivity).
  split; [exact (eq_trans B1 A1)|]. split; [exact (eq_trans B2 A2)|].
  split; [transitivity (upd i (ready s i) (prevReady z)); [reflexivity|congruence]|].
  split; [exact (eq_trans B4 A4)|]. rewrite <- Ho, <- A5. exact B5.
Qed.

Lemma slots_S f n : slots f (S n) = slots f n + Z.b2z (f (Z.of_nat n)).
Proof.
  unfold slots. rewrite seq_S, List.filter_app, length_app, Nat.add_0_l. cbn [List.filter].
  destruct (f (Z.of_nat n)); cbn [length Z.b2z]; lia.
Qed.

Lemma counted_u64 b n k : counted b (u64 (n + k)) = u64 (n + (k + Z.b2z b)).
Proof. destruct b; cbn [counted Z.b2z]; [rewrite u64_add_l; f_equal; lia|f_equal; lia]. Qed.

(** The loop over the slots, from a state that follows [s0]. *)
Lemma slots_loop s0 s cyc x n : follows x s0 -> 0 <= readPtr (at_ s0) < 16 -> (n <= 16)%nat ->
  is_u64 (n_ready_no_resolve x) -> is_u64 (n_ready_outside_window x) ->
  let x' := (fold_left (check_slot c s cyc) (seq 0 n) (x, [])).1 in
  prev x' = prev x /\ prevRead x' = prevRead x /\
  (forall i, 0 <= i < 16 -> prevReady x' i = if i <? Z.of_nat n then ready s i else ready s0 i) /\
  n_ready_no_resolve x' = u64 (n_ready_no_resolve x + slots (stale_branch s0 s) n) /\
  n_ready_outside_window x' = u64 (n_ready_outside_window x + slots (stale_slot s0 s) n).
Proof.
  intros (Hp & Hr & Hready) Hrd Hn Hn1 Hn2. cbv zeta. induction n as [|n IH].
  - change (slots (stale_branch s0 s) 0) with 0. change (slots (stale_slot s0 s) 0) with 0. cbn [seq fold_left fst].
    rewrite !Z.add_0_r, !u64_id by assumption. repeat split. intros i Hi.
    destruct (Z.ltb_spec i (Z.of_nat 0)); [lia|]. apply Hready, Hi.
  - destruct (IH ltac:(lia)) as (A1 & A2 & A3 & A4 & A5). clear IH. rewrite seq_S, fold_left_app, Nat.add_0_l. cbn [fold_left].
    destruct (fold_left (check_slot c s cyc) (seq 0 n) (x, [])) as [y ev]. cbn [fst] in *.
    destruct (slot_step s cyc y ev n) as (B1 & B2 & B3 & B4 & B5). set (z := (check_slot c s cyc (y, ev) n).1) in *.
    assert (Hrise : rising y s (Z.of_nat n) = risen s0 s (Z.of_nat n)).
    { unfold rising, risen. rewrite A3 by lia. destruct (Z.ltb_spec (Z.of_nat n) (Z.of_nat n)); [lia|]. reflexivity. }
    assert (Hy : prev y = at_ s0) by congruence. assert (Hyr : prevRead y = readPtr (at_ s0)) by congruence.
    rewrite Hrise in B4, B5. rewrite !slots_S.
    split; [congruence|]. split; [congruence|]. split; [|split].
    + intros i Hi. rewrite B3. unfold upd. destruct (Z.eqb_spec i (Z.of_nat n)) as [->|].
      * destruct (Z.ltb_spec (Z.of_nat n) (Z.of_nat (S n))); [reflexivity|lia].
      * rewrite A3 by lia. destruct (Z.ltb_spec i (Z.of_nat n)), (Z.ltb_spec i (Z.of_nat (S n))); try lia; reflexivity.
    + rewrite B4, A4, counted_u64. unfold stale_branch, branch_violation, was_named, was_alloc, resolved, allocated. rewrite Hy. reflexivity.
    + rewrite B5, A5, counted_u64. unfold stale_slot, outside_violation, was_alloc, allocated, inside. rewrite Hy, Hyr.
      destruct (Z.eqb_spec (readPtr (at_ s0)) 0xffff); [lia|]. reflexivity.
Qed.

(** One check: the counters grow by the illegal slots of the transition. *)
Lemma check_counts s0 s cyc x : follows x s0 -> 0 <= readPtr (at_ s0) < 16 ->
  is_u64 (n_ready_no_resolve x) -> is_u64 (n_ready_outside_window x) ->
  let x' := (check W c s cyc x).1 in
  follows x' s /\
  n_ready_no_resolve x' = u64 (n_ready_no_resolve x + slots (stale_branch s0 s) 16) /\
  n_ready_outside_window x' = u64 (n_ready_outside_window x + slots (stale_slot s0 s) 16).
Proof.
  intros Hf Hrd Hn1 Hn2. cbv zeta. unfold check. set (x0 := { x with seen := true }).
  pose proof (progress_same W c s cyc x0) as P1. destruct (check_progress W c s cyc x0) as [x1 e1]. cbn [fst] in P1.
  pose proof (history_same s cyc x1) as P2. set (x2 := check_history s cyc x1) in *.
  pose proof (resolve_same c s cyc x2) as P3. destruct (check_resolve c s cyc x2) as [x3 e2]. cbn [fst] in P3.
  assert (P : same_slots x0 x3) by eauto using same_slots_trans. destruct P as (Q1 & Q2 & Q3 & Q4 & Q5).
  change (prev x0) with (prev x) in Q1. change (prevRead x0) with (prevRead x) in Q2. change (prevReady x0) with (prevReady x) in Q3.
  change (n_ready_no_resolve x0) with (n_ready_no_resolve x) in Q4. change (n_ready_outside_window x0) with (n_ready_outside_window x) in Q5.
  assert (Hf3 : follows x3 s0) by (destruct Hf as (F1 & F2 & F3); split; [congruence|split; [congruence|]]; rewrite Q3; exact F3).
  change (Z.to_nat ROB_DEPTH) with 16%nat.
  destruct (slots_loop s0 s cyc x3 16 Hf3 Hrd ltac:(lia) ltac:(congruence) ltac:(congruence)) as (L1 & L2 & L3 & L4 & L5).
  destruct (fold_left (check_slot c s cyc) (seq 0 16) (x3, [])) as [x4 e3]. cbn [fst] in *.
  split; [|split].
  - split; [reflexivity|]. split; [reflexivity|]. intros i Hi. change (prevReady { x4 with prevRead := _; prev := _ }) with (prevReady x4).
    rewrite L3 by assumption. destruct (Z.ltb_spec i (Z.of_nat 16)); [reflexivity|lia].
  - transitivity (n_ready_no_resolve x4); [reflexivity|]. rewrite L4, Q4. reflexivity.
  - transitivity (n_ready_outside_window x4); [reflexivity|]. rewrite L5, Q5. reflexivity.
Qed.

Lemma feed_counts l : forall s0 x, follows x s0 -> Forall (fun s => 0 <= readPtr (at_ s) < 16) (s0 :: map fst l) ->
  is_u64 (n_ready_no_resolve x) -> is_u64 (n_ready_outside_window x) ->
  n_ready_no_resolve (feed W c l x) = u64 (n_ready_no_resolve x + transitions stale_branch s0 (map fst l)) /\
  n_ready_outside_window (feed W c l x) = u64 (n_ready_outside_window x + transitions stale_slot s0 (map fst l)).
Proof.
  induction l as [|[s cyc] l IH]; intros s0 x Hf Hrd Hn1 Hn2; cbn [map fst transitions].
  - change (feed W c [] x) with x. rewrite !Z.add_0_r, !u64_id by assumption. split; reflexivity.
  - inversion Hrd as [|? ? Hrd0 Hrd1]; subst.
    destruct (check_counts s0 s cyc x Hf Hrd0 Hn1 Hn2) as (F & C1 & C2). cbn [map fst] in Hrd1.
    destruct (IH s (check W c s cyc x).1 F Hrd1) as (I1 & I2); [rewrite C1; apply u64_range|rewrite C2; apply u64_range|].
    change (feed W c ((s, cyc) :: l) x) with (feed W c l (check W c s cyc x).1).
    rewrite I1, I2, C1, C2, !u64_add_l, !Z.add_assoc. split; reflexivity.
Qed.
End Slots.

Section Theorems.
Context (W c : Z).

(** With nothing ready the slot loop only copies the ready bits. *)
Lemma slots_quiet s cyc x n : (forall i, 0 <= i < 16 -> ready s i = 0) -> (n <= 16)%nat ->
  let x' := (fold_left (check_slot c s cyc) (seq 0 n) (x, [])).1 in
  (forall i, 0 <= i < Z.of_nat n -> prevReady x' i = ready s i) /\
  n_ready_no_resolve x' = n_ready_no_resolve x /\ n_ready_outside_window x' = n_ready_outside_window x.
Proof.
  intros Hq Hn. cbv zeta. induction n as [|n IH]; [split; [intros; lia|split; reflexivity]|].
  destruct (IH ltac:(lia)) as (A1 & A2 & A3). rewrite seq_S, fold_left_app, Nat.add_0_l. cbn [fold_left].
  destruct (fold_left (check_slot c s cyc) (seq 0 n) (x, [])) as [y ev]. cbn [fst] in *.
  destruct (slot_step c s cyc y ev n) as (_ & _ & B3 & B4 & B5). set (z := (check_slot c s cyc (y, ev) n).1) in *.
  unfold rising in B4, B5. rewrite (Hq (Z.of_nat n)) in B4, B5 by lia. cbn in B4, B5.
  split; [|split; [rewrite B4; exact A2|rewrite B5; exact A3]].
  intros i Hi. rewrite B3. unfold upd. destruct (Z.eqb_spec i (Z.of_nat n)) as [->|]; [reflexivity|]. apply A1. lia.
Qed.

Lemma check_first s cyc : (forall i, 0 <= i < 16 -> ready s i = 0) ->
  let x := (check W c s cyc st_init).1 in
  follows x s /\ n_ready_no_resolve x = 0 /\ n_ready_outside_window x = 0.
Proof.
  intros Hq. cbv zeta. unfold check. set (x0 := { st_init with seen := true }).
  pose proof (progress_same W c s cyc x0) as P1. destruct (check_progress W c s cyc x0) as [x1 e1]. cbn [fst] in P1.
  pose proof (history_same s cyc x1) as P2. set (x2 := check_history s cyc x1) in *.
  pose proof (resolve_same c s cyc x2) as P3. destruct (check_resolve c s cyc x2) as [x3 e2]. cbn [fst] in P3.
  assert (P : same_slots x0 x3) by eauto using same_slots_trans. destruct P as (_ & _ & _ & Q4 & Q5).
  change (Z.to_nat ROB_DEPTH) with 16%nat. destruct (slots_quiet s cyc x3 16 Hq ltac:(lia)) as (L1 & L2 & L3).
  destruct (fold_left (check_slot c s cyc) (seq 0 16) (x3, [])) as [x4 e3]. cbn [fst] in *.
  split; [split; [reflexivity|split; [reflexivity|exact L1]]|]. split; [exact (eq_trans L2 Q4)|exact (eq_trans L3 Q5)].
Qed.

(** ** Forward progress *)

Definition same_progress (x x' : st) : Prop :=
  prevRead x' = prevRead x /\ lastCommitCyc x' = lastCommitCyc x /\ wedgeReported x' = wedgeReported x /\ n_wedged x' = n_wedged x.
Lemma same_progress_trans x y z : same_progress x y -> same_progress y z -> same_progress x z.
Proof. unfold same_progress. intuition congruence. Qed.

Lemma stamp_progress fuel : forall r rd cyc x, same_progress x (stamp_retired fuel r rd cyc x).
Proof.
  induction fuel as [|fuel IH]; intros; cbn [stamp_retired]; [repeat split|]. destruct (r =? rd); [repeat split|].
  eapply same_progress_trans; [|apply IH]. repeat split.
Qed.
Lemma history_progress s cyc x : same_progress x (check_history s cyc x).
Proof.
  unfold check_history.
  apply (same_progress_trans _ (note_alloc (at_ s) cyc x)); [unfold note_alloc; destruct (negb _); repeat split|].
  set (x1 := note_alloc _ _ _). apply (same_progress_trans _ (note_request (at_ s) cyc x1)); [unfold note_request; destruct (negb _); repeat split|].
  set (x2 := note_request _ _ _). apply (same_progress_trans _ (note_retired (at_ s) cyc x2)); [unfold note_retired; destruct (_ && _); [apply stamp_progress|repeat split]|].
  unfold note_lookup. destruct (negb _); repeat split.
Qed.
Lemma resolve_progress s cyc x : same_progress x (check_resolve c s cyc x).1.
Proof.
  unfold check_resolve. cbv zeta. destruct (negb (bevValid _ =? 0)); [destruct (negb (pendingResolve x _ =? 0))|];
    destruct (negb (allocFired _ =? 0)); repeat split.
Qed.
Lemma slot_progress s cyc x ev k : same_progress x (check_slot c s cyc (x, ev) k).1.
Proof.
  unfold check_slot. cbv zeta. destruct (rising x s (Z.of_nat k)); [|repeat split].
  assert (H1 : same_progress x (check_branch c s cyc (Z.of_nat k) x).1).
  { unfold check_branch. cbv zeta. repeat match goal with |- context [if ?b then _ else _] => destruct b end; repeat split. }
  destruct (check_branch c s cyc (Z.of_nat k) x) as [y e1]. cbn [fst] in H1.
  assert (H2 : same_progress y (check_outside c s cyc (Z.of_nat k) y).1).
  { unfold check_outside. destruct (outside_violation _ _ _); repeat split. }
  destruct (check_outside c s cyc (Z.of_nat k) y) as [z e2]. cbn [fst] in H2.
  eapply same_progress_trans; [exact H1|]. eapply same_progress_trans; [exact H2|]. repeat split.
Qed.
Lemma slots_progress s cyc n : forall x ev, same_progress x (fold_left (check_slot c s cyc) (seq 0 n) (x, ev)).1.
Proof.
  induction n as [|n IH]; intros x ev; [repeat split|]. rewrite seq_S, fold_left_app, Nat.add_0_l. cbn [fold_left].
  specialize (IH x ev). destruct (fold_left (check_slot c s cyc) (seq 0 n) (x, ev)) as [y ev']. cbn [fst] in IH.
  eapply same_progress_trans; [exact IH|apply slot_progress].
Qed.

(** The wedge detector on its own: the last commit, the flag and the count. *)
Definition wedge_view (rd pr lc : Z) (rep : bool) (n cyc : Z) : Z * bool * Z :=
  let lc := if (pr =? 0xffff) || negb (rd =? pr) then cyc else lc in
  let fire := negb rep && (u64 (lc + W) <? cyc) in
  (lc, if rd =? pr then rep || fire else false, counted fire n).

Lemma progress_view s cyc x : let y := (check_progress W c s cyc x).1 in
  (lastCommitCyc y, wedgeReported y, n_wedged y) =
  wedge_view (readPtr (at_ s)) (prevRead x) (lastCommitCyc x) (wedgeReported x) (n_wedged x) cyc.
Proof.
  unfold check_progress, wedge_view. destruct x. cbn.
  destruct (prevRead0 =? 0xffff) eqn:E1, (readPtr (at_ s) =? prevRead0) eqn:E2, wedgeReported0;
    cbn; repeat (progress rewrite ?E1, ?E2; cbn); try reflexivity;
    match goal with |- context [u64 ?a <? ?b] => destruct (u64 a <? b) end; cbn; repeat (progress rewrite ?E1, ?E2; cbn); reflexivity.
Qed.

(** What a check does to the wedge detector is what its first part does. *)
Lemma check_wedge s cyc x : let x' := (check W c s cyc x).1 in
  prevRead x' = readPtr (at_ s) /\
  (lastCommitCyc x', wedgeReported x', n_wedged x') =
  wedge_view (readPtr (at_ s)) (prevRead x) (lastCommitCyc x) (wedgeReported x) (n_wedged x) cyc.
Proof.
  cbv zeta. unfold check. cbv zeta.
  match goal with |- context [check_progress W c s cyc ?x0] =>
    pose proof (progress_view s cyc x0) as Hv; cbv zeta in Hv;
    change (prevRead x0) with (prevRead x) in Hv; change (lastCommitCyc x0) with (lastCommitCyc x) in Hv;
    change (wedgeReported x0) with (wedgeReported x) in Hv; change (n_wedged x0) with (n_wedged x) in Hv;
    destruct (check_progress W c s cyc x0) as [x1 e1] end.
  cbn [fst] in Hv.
  pose proof (history_progress s cyc x1) as P2. set (x2 := check_history s cyc x1) in *.
  pose proof (resolve_progress s cyc x2) as P3. destruct (check_resolve c s cyc x2) as [x3 e2]. cbn [fst] in P3.
  pose proof (slots_progress s cyc (Z.to_nat ROB_DEPTH) x3 []) as P4.
  destruct (fold_left (check_slot c s cyc) (seq 0 (Z.to_nat ROB_DEPTH)) (x3, [])) as [x4 e3]. cbn [fst] in *.
  destruct (same_progress_trans _ _ _ P2 (same_progress_trans _ _ _ P3 P4)) as (_ & Q2 & Q3 & Q4).
  split; [reflexivity|]. transitivity (lastCommitCyc x4, wedgeReported x4, n_wedged x4); [reflexivity|].
  rewrite Q2, Q3, Q4. exact Hv.
Qed.
End Theorems.

(** C24: Fed with any sequence of samples of a core, beginning with one in which
    nothing is ready, the two ready-bit detectors count exactly the illegal
    transitions of the trace: the slots that become ready although the previous
    sample neither allocates them nor resolves them, if the slot holds a branch;
    and the slots that become ready without being allocated, while they lie
    outside the ROB window of both samples. *)
Theorem detectors_count_trace W c s0 cyc0 l :
  Forall (fun s => 0 <= readPtr (at_ s) < 16) (s0 :: map fst l) -> (forall i, 0 <= i < 16 -> ready s0 i = 0) ->
  let x := feed W c ((s0, cyc0) :: l) st_init in
  n_ready_no_resolve x = u64 (transitions stale_branch s0 (map fst l)) /\
  n_ready_outside_window x = u64 (transitions stale_slot s0 (map fst l)).
Proof.
  intros Hrd Hq. cbv zeta. change (feed W c ((s0, cyc0) :: l) st_init) with (feed W c l (check W c s0 cyc0 st_init).1).
  destruct (check_first W c s0 cyc0 Hq) as (F & N1 & N2).
  destruct (feed_counts W c l s0 _ F Hrd) as [C1 C2]; [rewrite N1; unfold is_u64; lia|rewrite N2; unfold is_u64; lia|].
  rewrite C1, C2, N1, N2. split; reflexivity.
Qed.

(** A multiplier result lands on slot 3, which speculation has handed to a branch. *)
Definition rob_at (rd wr : Z) (r : Z -> Z) : core_sample :=
  {| at_ := { { ports0 with readPtr := rd } with writePtr := wr }; ready := r; insn := fun i => if i =? 3 then 0x63 else 0x13 |}.
Definition stale_trace : list (core_sample * Z) :=
  [({ (rob_at 1 5 zeros) with at_ -> mValid := 1; at_ -> mRob := 3 }, 101); (rob_at 1 5 (upd 3 1 zeros), 102)].
Lemma detectors_count_trace_witness :
  let x := feed 2000000 0 ((rob_at 1 5 zeros, 100) :: stale_trace) st_init in
  by_mext x = 1 /\
  (n_ready_no_resolve x = u64 (transitions stale_branch (rob_at 1 5 zeros) (map fst stale_trace)) /\
   n_ready_outside_window x = u64 (transitions stale_slot (rob_at 1 5 zeros) (map fst stale_trace))).
Proof.
  split; [vm_compute; reflexivity|]. apply (detectors_count_trace 2000000 0 (rob_at 1 5 zeros) 100 stale_trace).
  - repeat constructor; cbn; lia.
  - reflexivity.
Defined.
Example stale_trace_counts : transitions stale_branch (rob_at 1 5 zeros) (map fst stale_trace) = 1.
Proof. reflexivity. Qed.

(** C25: A hart that last retired at cycle [c0] and is sampled in every cycle from
    then on without retiring is reported as wedged exactly once, in cycle
    [c0 + CHIRON_WEDGE_CYCLES + 1], however long the stall lasts. *)
Theorem wedge_reported_once W c r c0 (s : nat -> core_sample) n x :
  0 <= W -> 0 <= c0 -> c0 + W < 2 ^ 64 -> r <> 0xffff ->
  prevRead x = r -> lastCommitCyc x = c0 -> wedgeReported x = false -> is_u64 (n_wedged x) ->
  (forall k, readPtr (at_ (s k)) = r) ->
  let x' := feed W c (map (fun k => (s k, c0 + 1 + Z.of_nat k)) (seq 0 n)) x in
  n_wedged x' = (if W <? Z.of_nat n then u64 (n_wedged x + 1) else n_wedged x) /\
  wedgeReported x' = (W <? Z.of_nat n) /\ lastCommitCyc x' = c0.
Proof.
  intros HW Hc0 Hov Hr Hpr Hlc Hrep Hn Hs. cbv zeta.
  enough (Hall : let x' := feed W c (map (fun k => (s k, c0 + 1 + Z.of_nat k)) (seq 0 n)) x in
    prevRead x' = r /\ (lastCommitCyc x', wedgeReported x', n_wedged x') =
      (c0, W <? Z.of_nat n, if W <? Z.of_nat n then u64 (n_wedged x + 1) else n_wedged x)).
  { cbv zeta in Hall. destruct Hall as [_ E]. injection E as -> -> ->. auto. }
  cbv zeta. induction n as [|n IH].
  - cbn [seq map feed fold_left]. destruct (Z.ltb_spec W (Z.of_nat 0)); [lia|]. rewrite Hlc, Hrep. auto.
  - rewrite seq_S, map_app, Nat.add_0_l. unfold feed. rewrite fold_left_app. cbn [map fold_left fst snd].
    destruct IH as (I1 & I2). set (y := fold_left _ _ x) in *.
    change (feed W c (map (fun k => (s k, c0 + 1 + Z.of_nat k)) (seq 0 n)) x) with y in I1, I2. injection I2 as J1 J2 J3.
    destruct (check_wedge W c (s n) (c0 + 1 + Z.of_nat n) y) as [E1 E2]. rewrite Hs in E1, E2. split; [exact E1|].
    rewrite E2, I1, J1, J2, J3. unfold wedge_view. destruct (Z.eqb_spec r 0xffff); [contradiction|].
    rewrite Z.eqb_refl. cbn [negb orb]. cbv iota zeta. rewrite (u64_id (c0 + W)) by (unfold is_u64; lia).
    destruct (Z.ltb_spec W (Z.of_nat n)), (Z.ltb_spec (c0 + W) (c0 + 1 + Z.of_nat n)), (Z.ltb_spec W (Z.of_nat (S n))); try lia; reflexivity.
Qed.
Lemma wedge_reported_once_witness :
  let x := (check 3 0 (rob_at 1 5 zeros) 7 st_init).1 in
  let x' := feed 3 0 (map (fun k => ((fun _ => rob_at 1 5 zeros) k, 7 + 1 + Z.of_nat k)) (seq 0 10)) x in
  n_wedged x' = 1 /\ wedgeReported x' = true /\ lastCommitCyc x' = 7.
Proof.
  apply (wedge_reported_once 3 0 1 7 (fun _ => rob_at 1 5 zeros) 10 (check 3 0 (rob_at 1 5 zeros) 7 st_init).1);
    try lia; try reflexivity. vm_compute. split; congruence.
Defined.
