(* ===== verification/Firesim.v ===== *)
(** * The UART streamer: [sim/harness/fire.cpp]

    A run loads an image through the programmer port and clocks the core until a
    given number of frames has been shown, core 0 retires the done PC, or the
    cycle budget is used up. A frame ends with the three bytes ESC [ H, looked
    for in a two-byte window over the UART output.

    The loop is bounded by [max_cycles], so it is a structural recursion over
    that number; the theorem says what the exit code, the output and the frame
    count are in terms of the clocks of the core alone. *)

From S2P Require Import Prelude Rtl Image.

(** ** The run *)

(** [run] is the model with [tickcount]; [shown] is standard output. *)
Record fire `{Verilated} := mkfire {
  run : Vsystem * Z; sim_cycles : Z; frames : Z; w0 : Z; w1 : Z; shown : list Z }.

Section Fire.
Context `{Model}.
Context (max_frames max_cycles : Z) (done_pc : option Z).

(** ESC [ H *)
Definition home (a b c : Z) : bool := (a =? 0x1b) && (b =? 91) && (c =? 72).

(** The UART byte of this clock, if any; [true] when the last frame is complete. *)
Definition fire_byte (s : fire) : bool * fire :=
  let c0 := core (run s).1 0 in
  if OutChar_valid c0 =? 0 then (false, s) else
  let c := u8 (OutChar_byte c0) in
  let s := { s with shown ::= (fun l => l ++ [c]) } in
  let '(hit, s) :=
    if home (w0 s) (w1 s) c && negb (max_frames =? 0)
    then (max_frames <=? u64 (frames s + 1), { s with frames := u64 (frames s + 1) })
    else (false, s) in
  if hit then (true, s) else (false, { { s with w0 := w1 s } with w1 := c }).

Definition fire_done (s : fire) : bool :=
  match done_pc with
  | None => false
  | Some p => negb (commitFired (core (run s).1 0) =? 0) && (pc (core (run s).1 0) =? p)
  end.

(** One iteration of the loop; [true] is the [break] with [exit_code = 0]. *)
Definition fire_cycle (s : fire) : bool * fire :=
  let s := { { s with run ::= run_tick } with sim_cycles := u64 (sim_cycles s + 1) } in
  let '(hit, s) := fire_byte s in
  (hit || fire_done s, s).

Fixpoint fire_loop (n : nat) (s : fire) : Z * fire :=
  match n with
  | O => (2, s)
  | S n =>
    if sim_cycles s <? max_cycles then
      let '(hit, s) := fire_cycle s in
      if hit then (0, s) else fire_loop n s
    else (2, s)
  end.

Definition fire_start (x : Vsystem * Z) : fire := mkfire _ x 0 0 0 0 [].
Definition fire_main (image : option (list Z)) (tb : Vsystem) : Z * fire :=
  let '(ok, x) := load_image image (do_reset (tb, 0)) in
  if ok then fire_loop (Z.to_nat max_cycles) (fire_start x) else (2, fire_start x).
End Fire.

(** ** What a run shows *)

(** The bytes of the first [n] clocks, and the ends of frames in a byte string. *)
Definition uart_byte `{Verilated} (tb : Vsystem) : list Z :=
  if OutChar_valid (core tb 0) =? 0 then [] else [u8 (OutChar_byte (core tb 0))].
Definition after `{Model} (tb : Vsystem) (k : nat) : Vsystem := Nat.iter k tick_nodump tb.
Definition uart_bytes `{Model} (tb : Vsystem) (n : nat) : list Z := flat_map (fun k => uart_byte (after tb (S k))) (seq 0 n).

Fixpoint homes (l : list Z) : Z :=
  match l with
  | [] => 0
  | a :: t => Z.b2z (match t with b :: c :: _ => home a b c | _ => false end) + homes t
  end.

Lemma homes_snoc l a b c : homes (l ++ [a; b; c]) = homes (l ++ [a; b]) + Z.b2z (home a b c).
Proof.
  induction l as [|z l IH]; [cbn; lia|]. cbn [app homes]. rewrite IH.
  destruct l as [|y [|x l]]; cbn [app]; lia.
Qed.
Lemma homes_range l : 0 <= homes l <= Z.of_nat (length l).
Proof. induction l as [|a l IH]; cbn [homes length]; [lia|]. destruct (match l with b :: c :: _ => home a b c | _ => false end); cbn [Z.b2z]; lia. Qed.

Section Run.
Context `{Model} (max_frames max_cycles : Z) (done_pc : option Z) (tb : Vsystem).

(** The run stops after clock [k]. *)
Definition last_frame (k : nat) : bool := negb (max_frames =? 0) && (max_frames <=? homes (uart_bytes tb k)).
Definition retires_done (k : nat) : bool :=
  match k, done_pc with
  | S _, Some p => negb (commitFired (core (after tb k) 0) =? 0) && (pc (core (after tb k) 0) =? p)
  | _, _ => false
  end.
Definition stops (k : nat) : bool := last_frame k || retires_done k.

(** The window holds the last two bytes shown. *)
Definition window (s : fire) : Prop :=
  (shown s = [] /\ w0 s = 0 /\ w1 s = 0) \/ (w0 s = 0 /\ shown s = [w1 s]) \/ (exists l, shown s = l ++ [w0 s; w1 s]).

Lemma window_home s c : window s -> homes (shown s ++ [c]) = homes (shown s) + Z.b2z (home (w0 s) (w1 s) c).
Proof.
  intros [(-> & -> & ->)|[(-> & ->)|(l & ->)]]; [reflexivity|reflexivity|].
  rewrite <- app_assoc. apply homes_snoc.
Qed.

Definition reached (k : nat) (s : fire) : Prop :=
  (run s).1 = after tb k /\ sim_cycles s = Z.of_nat k /\ shown s = uart_bytes tb k /\
  frames s = (if max_frames =? 0 then 0 else homes (shown s)).

Lemma uart_bytes_S k : uart_bytes tb (S k) = uart_bytes tb k ++ uart_byte (after tb (S k)).
Proof. unfold uart_bytes. rewrite seq_S, flat_map_app. cbn [flat_map]. rewrite app_nil_r. reflexivity. Qed.

Lemma uart_bytes_length k : (length (uart_bytes tb k) <= k)%nat.
Proof.
  induction k as [|k IH]; [reflexivity|]. rewrite uart_bytes_S, length_app. unfold uart_byte.
  destruct (_ =? 0); cbn [length]; lia.
Qed.

Definition counted (l : list Z) : Z := if max_frames =? 0 then 0 else homes l.

Lemma fire_byte_spec s : window s -> frames s = counted (shown s) -> Z.of_nat (length (shown s)) < 2 ^ 64 - 1 ->
  let '(hit, s') := fire_byte max_frames s in
  run s' = run s /\ sim_cycles s' = sim_cycles s /\ shown s' = shown s ++ uart_byte (run s).1 /\
  frames s' = counted (shown s') /\ (hit = false -> window s') /\
  (hit = true -> max_frames <> 0 /\ max_frames <= homes (shown s')) /\
  (hit = false -> max_frames = 0 \/ homes (shown s) < max_frames -> max_frames = 0 \/ homes (shown s') < max_frames).
Proof.
  intros Hw Hf Hl. unfold fire_byte, uart_byte. destruct (OutChar_valid _ =? 0).
  - rewrite app_nil_r. repeat (split; [reflexivity || assumption|]). split; [auto|]. split; [discriminate|auto].
  - set (c := u8 _). pose proof (window_home s c Hw) as Hh. pose proof (homes_range (shown s)) as Hr.
    destruct s as [rn cy fr a0 a1 sh]. cbn in Hw, Hf, Hl, Hh, Hr |- *. set (b := home a0 a1 c) in *.
    assert (Hwin : forall f, window (mkfire _ rn cy f a1 c (sh ++ [c]))).
    { intros f. unfold window in *; cbn in *. destruct Hw as [(-> & _ & ->)|[(_ & ->)|(l & ->)]]; [right; left; auto|right; right; exists []; reflexivity|].
      right; right. exists (l ++ [a0]). rewrite <- !app_assoc. reflexivity. }
    unfold counted in *. revert Hf. destruct (Z.eqb_spec max_frames 0) as [E0|E0]; intros Hf.
    + rewrite andb_false_r. cbn. do 3 (split; [reflexivity|]). split; [assumption|]. split; [intros _; apply Hwin|]. split; [discriminate|auto].
    + rewrite andb_true_r. destruct b; cbn [Z.b2z] in Hh.
      * rewrite (u64_id (fr + 1)) by (unfold is_u64; lia).
        destruct (Z.leb_spec max_frames (fr + 1)) as [Hle|Hlt]; cbn.
        -- do 3 (split; [reflexivity|]). split; [lia|]. split; [discriminate|]. split; [intros _; lia|discriminate].
        -- do 3 (split; [reflexivity|]). split; [lia|]. split; [intros _; apply Hwin|]. split; [discriminate|intros _ _; lia].
      * cbn. do 3 (split; [reflexivity|]). split; [lia|]. split; [intros _; apply Hwin|]. split; [discriminate|intros _; lia].
Qed.

(** One iteration moves from clock [k] to clock [k + 1]. *)
Lemma fire_cycle_step k s : reached k s -> window s -> Z.of_nat k < 2 ^ 64 - 1 -> stops k = false ->
  let '(hit, s') := fire_cycle max_frames done_pc s in
  reached (S k) s' /\ hit = stops (S k) /\ (hit = false -> window s').
Proof.
  intros (Hrun & Hcyc & Hsh & Hfr) Hw Hk Hst. unfold fire_cycle.
  set (s1 := { { s with run ::= run_tick } with sim_cycles := u64 (sim_cycles s + 1) }).
  assert (Hrun1 : (run s1).1 = after tb (S k)) by (change (tick_nodump (run s).1 = after tb (S k)); rewrite Hrun; reflexivity).
  pose proof (uart_bytes_length k) as Hlen. rewrite <- Hsh in Hlen.
  pose proof (fire_byte_spec s1 Hw Hfr ltac:(change (shown s1) with (shown s); lia)) as Hb.
  destruct (fire_byte max_frames s1) as [hit s2].
  destruct Hb as (R1 & R2 & R3 & R4 & R5 & R6 & R7). rewrite Hrun1 in R3. change (shown s1) with (shown s) in R3, R7.
  rewrite Hsh, <- uart_bytes_S in R3. apply orb_false_iff in Hst as [Hst _].
  unfold last_frame in Hst. rewrite <- Hsh in Hst.
  assert (Hst' : max_frames = 0 \/ homes (shown s) < max_frames).
  { destruct (Z.eqb_spec max_frames 0); [left; assumption|]. cbn in Hst. apply Z.leb_gt in Hst. right; assumption. }
  assert (Hd : fire_done done_pc s2 = retires_done (S k)) by (unfold fire_done, retires_done; rewrite R1, Hrun1; reflexivity).
  assert (Hhit : hit = last_frame (S k)).
  { unfold last_frame. rewrite <- R3. destruct hit.
    - destruct (R6 eq_refl) as [N L]. destruct (Z.eqb_spec max_frames 0); [contradiction|]. symmetry. apply Z.leb_le, L.
    - destruct (R7 eq_refl Hst') as [->|L]; [reflexivity|]. apply Z.leb_gt in L. rewrite L, andb_false_r. reflexivity. }
  split; [|split].
  - split; [rewrite R1; exact Hrun1|]. split; [rewrite R2; transitivity (u64 (sim_cycles s + 1)); [reflexivity|];
      rewrite Hcyc, u64_id by (unfold is_u64; lia); lia|]. split; [exact R3|exact R4].
  - rewrite Hd, Hhit. reflexivity.
  - intros Hf. apply orb_false_iff in Hf as [Hf _]. apply R5, Hf.
Qed.

Lemma fire_loop_spec n : forall k s, reached k s -> window s -> stops k = false -> Z.of_nat (k + n) = max_cycles -> max_cycles < 2 ^ 64 ->
  let '(code, s') := fire_loop max_frames max_cycles done_pc n s in
  exists m, (k <= m <= k + n)%nat /\ reached m s' /\ (forall j, (k <= j < m)%nat -> stops j = false) /\
    code = (if stops m then 0 else 2) /\ (stops m = false -> m = k + n)%nat.
Proof.
  induction n as [|n IH]; intros k s Hr Hw Hs Hk Hm; cbn [fire_loop].
  - exists k. rewrite Hs. split; [lia|]. split; [exact Hr|]. split; [intros; lia|]. split; [reflexivity|lia].
  - assert (Hc : sim_cycles s = Z.of_nat k) by apply Hr. rewrite Hc. destruct (Z.ltb_spec (Z.of_nat k) max_cycles); [|lia].
    pose proof (fire_cycle_step k s Hr Hw ltac:(lia) Hs) as Hstep. destruct (fire_cycle max_frames done_pc s) as [hit s1].
    destruct Hstep as (Hr1 & Hh & Hw1). destruct hit.
    + exists (S k). rewrite <- Hh. split; [lia|]. split; [exact Hr1|].
      split; [intros j Hj; replace j with k by lia; exact Hs|]. split; [reflexivity|discriminate].
    + specialize (IH (S k) s1 Hr1 (Hw1 eq_refl) (eq_sym Hh) ltac:(lia) Hm).
      destruct (fire_loop max_frames max_cycles done_pc n s1) as [code s'].
      destruct IH as (m & L1 & L2 & L3 & L4 & L5). exists m. split; [lia|]. split; [exact L2|].
      split; [intros j Hj; destruct (Nat.eq_dec j k) as [->|]; [exact Hs|apply L3; lia]|]. split; [exact L4|]. intros E. specialize (L5 E). lia.
Qed.
End Run.

Lemma load_image_some `{Model} bytes x : load_image (Some bytes) x = (true, (load_image (Some bytes) x).2).
Proof. reflexivity. Qed.

(** A run of fire.cpp always ends: with code 0 after the first clock in which
    the [max_frames]-th ESC [ H is complete or core 0 retires the done PC, or with
    code 2 after [max_cycles] clocks. Standard output is exactly the UART output
    of the clocks run, and [frames] the number of frame ends in it (which is not
    counted when [max_frames] is 0). *)
Theorem fire_run_spec `{Model} max_frames max_cycles done_pc bytes tb :
  0 <= max_frames -> 0 <= max_cycles < 2 ^ 64 ->
  let x := (load_image (Some bytes) (do_reset (tb, 0))).2 in
  let stop := stops max_frames done_pc x.1 in
  let '(code, s) := fire_main max_frames max_cycles done_pc (Some bytes) tb in
  exists m, Z.of_nat m <= max_cycles /\ (forall j, (j < m)%nat -> stop j = false) /\
    code = (if stop m then 0 else 2) /\ (stop m = false -> Z.of_nat m = max_cycles) /\
    sim_cycles s = Z.of_nat m /\ shown s = uart_bytes x.1 m /\
    frames s = (if max_frames =? 0 then 0 else homes (shown s)).
Proof.
  intros Hf Hc. cbv zeta. unfold fire_main. rewrite (load_image_some bytes (do_reset (tb, 0))).
  generalize (load_image (Some bytes) (do_reset (tb, 0))).2 as x. intros x. cbn [snd].
  assert (L0 : stops max_frames done_pc x.1 0 = false).
  { unfold stops, last_frame. cbn [uart_bytes seq flat_map homes retires_done]. rewrite orb_false_r.
    destruct (Z.eqb_spec max_frames 0); [reflexivity|]. apply Z.leb_gt. lia. }
  assert (Hr : reached max_frames x.1 0 (fire_start x)) by (repeat split; cbn; destruct (max_frames =? 0); reflexivity).
  assert (Hw : window (fire_start x)) by (left; repeat split).
  pose proof (fire_loop_spec max_frames max_cycles done_pc x.1 (Z.to_nat max_cycles) 0 _ Hr Hw L0 ltac:(lia) ltac:(lia)) as Hl.
  destruct (fire_loop max_frames max_cycles done_pc (Z.to_nat max_cycles) (fire_start x)) as [code s].
  destruct Hl as (m & L1 & (R1 & R2 & R3 & R4) & L3 & L4 & L5). exists m.
  split; [lia|]. split; [intros j Hj; apply L3; lia|]. split; [exact L4|]. split; [intros E; specialize (L5 E); lia|].
  split; [exact R2|]. split; [exact R3|exact R4].
Qed.

(** Ten clocks: two frames are complete at the sixth byte. *)
Definition sends (b : Z) : list core_ports := [{ { idle_core with OutChar_valid := 1 } with OutChar_byte := b }; idle_core; idle_core; idle_core].
Definition two_frames : list (list core_ports) := map sends [27; 91; 72; 27; 91; 72; 65; 65].
Definition fire_system : Vsystem := script_system 64 (replicate 44 (replicate 4 idle_core) ++ two_frames).
Lemma fire_run_spec_witness :
  let '(code, s) := fire_main 2 1000 None (Some [1; 2; 3]) fire_system in
  code = 0 /\ shown s = [27; 91; 72; 27; 91; 72] /\
  exists m, Z.of_nat m <= 1000 /\
    (forall j, (j < m)%nat -> stops 2 None (load_image (Some [1; 2; 3]) (do_reset (fire_system, 0))).2.1 j = false) /\
    code = (if stops 2 None (load_image (Some [1; 2; 3]) (do_reset (fire_system, 0))).2.1 m then 0 else 2) /\
    (stops 2 None (load_image (Some [1; 2; 3]) (do_reset (fire_system, 0))).2.1 m = false -> Z.of_nat m = 1000) /\
    sim_cycles s = Z.of_nat m /\ shown s = uart_bytes (load_image (Some [1; 2; 3]) (do_reset (fire_system, 0))).2.1 m /\
    frames s = (if 2 =? 0 then 0 else homes (shown s)).
Proof.
  pose proof (fire_run_spec 2 1000 None [1; 2; 3] fire_system ltac:(lia) ltac:(lia)) as Hs. cbv zeta in Hs.
  assert (E : let '(code, s) := fire_main 2 1000 None (Some [1; 2; 3]) fire_system in code = 0 /\ shown s = [27; 91; 72; 27; 91; 72])
    by (vm_compute; split; reflexivity).
  destruct (fire_main 2 1000 None (Some [1; 2; 3]) fire_system) as [code s]. destruct E as [E1 E2].
  split; [exact E1|]. split; [exact E2|exact Hs].
Defined.
