(* ===== verification/Wedge.v ===== *)
(** * The wedge tracers: [sim/harness/linux_sim_trace.cpp] and [seqlock_wedge_trace.cpp]

    Both run the core undumped until some hart looks stuck, and are meant to
    record a waveform of a bounded window from there on. [linux_sim_trace] steps
    the driver of [rtl_model.h] from commit to commit and watches for a PC that
    stays in two kernel functions; [seqlock_wedge_trace] clocks the model itself
    and watches for a PC that does not change.

    [seqlock_wedge_trace] is bounded by [--max-cycles] and ends; its theorem says
    when it reports a wedge. The capture window of [linux_sim_trace] is measured
    on [tickcount], which the dumping driver does not advance: the window is
    never complete. The progress lines printed every five seconds of wall time
    are not modelled. *)

From S2P Require Import Prelude Rtl Image Firesim.

(** ** [linux_sim_trace.cpp] *)

Definition kWatched : list (Z * Z) := [(0x802820d0, 0x8028220c); (0x80283870, 0x80283a10)].
Definition kWedgeThresholdCycles : Z := 2000000.
Definition kTraceWindowCycles : Z := 2000000.

(** [watched_name(pc) != nullptr] *)
Definition watched (p : Z) : bool := existsb (fun w => (fst w <=? p) && (p <? snd w)) kWatched.

Inductive stop := Stalled | WindowComplete.

Record tracer `{Verilated} := mktracer {
  t_bench : simulator; streak_cycles : list Z; last_seen_pc : list Z;
  triggered : bool; trigger_tickcount : Z }.

Section Trace.
Context `{Model} (SHOW_TERMINAL : bool) (STEP_TIMEOUT : nat).

(** The streak of hart [h] after a step of [elapsed] clocks. *)
Definition trace_hart (b : simulator) (elapsed : Z) (s : tracer) (h : nat) : tracer :=
  let p := core_pc b (Z.of_nat h) in
  let n := if watched p then u64 (default 0 (streak_cycles s !! h) + elapsed) else 0 in
  { { s with streak_cycles ::= <[h := n]> } with last_seen_pc ::= <[h := p]> }.

(** One iteration of the loop; [Some] is a [break]. *)
Definition trace_step (s : tracer) : option stop * tracer :=
  let '(rc, b) := step_any SHOW_TERMINAL STEP_TIMEOUT (triggered s) (t_bench s) in
  let elapsed := u64 (tickcount b - tickcount (t_bench s)) in
  let s := { s with t_bench := b } in
  if rc =? 1 then (Some Stalled, s) else
  let s := fold_left (trace_hart b elapsed) harts4 s in
  if negb (triggered s) then
    (None, if existsb (fun n => kWedgeThresholdCycles <=? n) (streak_cycles s)
           then { { s with triggered := true } with trigger_tickcount := tickcount b } else s)
  else if kTraceWindowCycles <=? u64 (tickcount b - trigger_tickcount s) then (Some WindowComplete, s) else (None, s).

(** At most [n] iterations; [None] when the loop still runs. *)
Fixpoint trace_loop (n : nat) (s : tracer) : option stop * tracer :=
  match n with
  | O => (None, s)
  | S n => let '(r, s) := trace_step s in match r with Some r => (Some r, s) | None => trace_loop n s end
  end.
Definition trace_start (b : simulator) : tracer := mktracer _ b [0; 0; 0; 0] [0; 0; 0; 0] false 0.

(** *** A dumping driver does not advance [tickcount] *)

Lemma dump_tickcount t b : tickcount (dump t b) = tickcount b.
Proof. unfold dump. destruct (tfp b); reflexivity. Qed.
Lemma tx_port_tickcount b p : tickcount (tx_port b p) = tickcount b.
Proof. unfold tx_port, emit. destruct (_ && _); [destruct (tx_mirror _)|]; reflexivity. Qed.
Lemma surface_tx_tickcount b : tickcount (surface_tx b) = tickcount b.
Proof.
  unfold surface_tx. generalize harts4 as l. intros l. revert b. induction l as [|p l IH]; intros b; [reflexivity|].
  cbn [fold_left]. rewrite IH. apply tx_port_tickcount.
Qed.
Lemma tick_tickcount t b : tickcount (tick t b) = tickcount b.
Proof.
  unfold tick. rewrite dump_tickcount. set (b2 := dump _ (sim_eval (set_clock 1 _))).
  transitivity (tickcount b2); [reflexivity|]. subst b2. rewrite dump_tickcount. set (b1 := dump _ (sim_eval b)).
  transitivity (tickcount b1); [reflexivity|]. subst b1. rewrite dump_tickcount. reflexivity.
Qed.
Lemma advance_tickcount b : tickcount (advance SHOW_TERMINAL true b) = tickcount b.
Proof.
  unfold advance. set (b1 := tick _ _). assert (E : tickcount b1 = tickcount b) by (subst b1; rewrite tick_tickcount; reflexivity).
  destruct SHOW_TERMINAL; [rewrite surface_tx_tickcount|]; exact E.
Qed.
Lemma commit_port_tickcount m irq b h : tickcount (commit_port (m, irq, b) h).2 = tickcount b.
Proof. unfold commit_port. destruct (commit_fired _ _); reflexivity. Qed.
Lemma scan_tickcount b : tickcount (scan_commits b).2 = tickcount b.
Proof.
  unfold scan_commits. generalize harts4 as l. intros l. generalize 0 as m, false as irq. revert b.
  induction l as [|h l IH]; intros b m irq; [reflexivity|]. cbn [fold_left].
  pose proof (commit_port_tickcount m irq b h) as E. destruct (commit_port (m, irq, b) h) as [[m' irq'] b']. cbn [snd] in E.
  rewrite IH. exact E.
Qed.
Lemma set_prev_tickcount m l b : tickcount (set_prev m l b) = tickcount b.
Proof. induction l as [|h l IH]; [reflexivity|]. cbn [set_prev]. destruct (_ =? 0); [exact IH|reflexivity]. Qed.

Lemma until_commits_tickcount n : forall b, tickcount (until_commits SHOW_TERMINAL n true b).2 = tickcount b.
Proof.
  induction n as [|n IH]; intros b; [reflexivity|]. cbn [until_commits].
  pose proof (scan_tickcount (advance SHOW_TERMINAL true b)) as E. rewrite advance_tickcount in E.
  destruct (scan_commits (advance SHOW_TERMINAL true b)) as [[m irq] b']. cbn [snd] in E.
  destruct (m =? 0); [rewrite IH; exact E|]. cbn [snd]. rewrite set_prev_tickcount. exact E.
Qed.
Lemma step_any_tickcount b : tickcount (step_any SHOW_TERMINAL STEP_TIMEOUT true b).2 = tickcount b.
Proof.
  unfold step_any, step_until_commits. pose proof (until_commits_tickcount STEP_TIMEOUT b) as E.
  destruct (until_commits _ _ _ _) as [[rc m] b']. exact E.
Qed.

Lemma trace_harts b elapsed l : forall s, let s' := fold_left (trace_hart b elapsed) l s in
  t_bench s' = t_bench s /\ triggered s' = triggered s /\ trigger_tickcount s' = trigger_tickcount s.
Proof.
  induction l as [|h l IH]; intros s; [repeat split|]. cbn [fold_left]. destruct (IH (trace_hart b elapsed s h)) as (E1 & E2 & E3).
  cbv zeta. rewrite E1, E2, E3. repeat split.
Qed.

(** Once triggered, the trigger is the current tick. *)
Definition armed (s : tracer) : Prop := triggered s = true -> tickcount (t_bench s) = trigger_tickcount s.

Lemma trace_step_armed s : armed s -> let '(r, s') := trace_step s in r <> Some WindowComplete /\ (r = None -> armed s').
Proof.
  intros Ha. unfold trace_step.
  assert (Ht : triggered s = true -> tickcount (step_any SHOW_TERMINAL STEP_TIMEOUT (triggered s) (t_bench s)).2 = trigger_tickcount s)
    by (intros E; rewrite E, step_any_tickcount; exact (Ha E)).
  destruct (step_any _ _ _ _) as [rc b]. cbn [snd] in Ht. destruct (rc =? 1); [split; discriminate|].
  set (s1 := { s with t_bench := b }). destruct (trace_harts b (u64 (tickcount b - tickcount (t_bench s))) harts4 s1) as (E1 & E2 & E3).
  set (s2 := fold_left _ harts4 s1) in *. rewrite E2. change (triggered s1) with (triggered s) in *.
  change (trigger_tickcount s1) with (trigger_tickcount s) in E3. change (t_bench s1) with b in E1.
  destruct (triggered s) eqn:Et; cbn [negb].
  - rewrite E3, <- (Ht eq_refl), Z.sub_diag. change (kTraceWindowCycles <=? u64 0) with false. cbv iota.
    split; [discriminate|]. intros _ _. rewrite E1, E3. exact (Ht eq_refl).
  - split; [discriminate|]. intros _. destruct (existsb _ _).
    + intros _. transitivity (tickcount b); [|reflexivity]. transitivity (tickcount (t_bench s2)); [reflexivity|]. rewrite E1. reflexivity.
    + intros E. rewrite E2 in E. discriminate.
Qed.
End Trace.

(** Linux_sim_trace never reaches the end of its capture window: however long
    it runs, it is still in its loop or it has stopped because no hart commits. The
    window is counted in [tickcount], and the steps that dump advance [dump_tick]. *)
Theorem trace_window_never_completes `{Model} SHOW_TERMINAL STEP_TIMEOUT n b :
  (trace_loop SHOW_TERMINAL STEP_TIMEOUT n (trace_start b)).1 <> Some WindowComplete.
Proof.
  assert (Ha : armed (trace_start b)) by discriminate.
  revert Ha. generalize (trace_start b) as s. induction n as [|n IH]; intros s Ha; [discriminate|]. cbn [trace_loop].
  pose proof (trace_step_armed SHOW_TERMINAL STEP_TIMEOUT s Ha) as Hs. destruct (trace_step _ _ s) as [[r|] s'].
  - exact (proj1 Hs).
  - apply IH, Hs. reflexivity.
Qed.

(** ** [seqlock_wedge_trace.cpp] *)

Definition kRegDumpStride : Z := 200.

(** An entry of the reg-log: the wedge report, the line of a cycle (PC and commit
    flag of each core), the registers of all cores. *)
Inductive reg_entry :=
| WedgeDetected (c pc cycle : Z) (pcs : list Z)
| CycleLine (cycle : Z) (cores : list (Z * bool))
| RegDump (cycle : Z) (cores : list (list Z)).

(** [vcd] are the times of the dumps; [reglog] is [None] until it is opened. *)
Record seqtracer `{Verilated} := mkseq {
  q_run : Vsystem * Z; prev_pcs : list Z; streak : list Z; q_triggered : bool; trigger_cycle : Z;
  q_dump_tick : Z; vcd : list Z; reglog : option (list reg_entry) }.

Section Seqtrace.
Context `{Model} (threshold trace_window max_cycles : Z).

Definition seq_pc (tb : Vsystem) (h : nat) : Z := pc (core tb (Z.of_nat h)).
Definition seq_commit (tb : Vsystem) (h : nat) : bool := negb (commitFired (core tb (Z.of_nat h)) =? 0).
Definition seq_regs (tb : Vsystem) : list (list Z) :=
  map (fun h => map (fun i => registersOut (core tb (Z.of_nat h)) (Z.of_nat i)) (seq 0 33)) harts4.

(** The clock: [tick_dump] once triggered. *)
Definition seq_tick (s : seqtracer) : seqtracer :=
  if q_triggered s then
    let t := u32 (q_dump_tick s + 1) in
    { { { s with q_run ::= run_tick } with q_dump_tick := t } with vcd ::= (fun l => l ++ [u64 (t * 10 - 2); t * 10; t * 10 + 5]) }
  else { s with q_run ::= run_tick }.

(** [if (pc[c] == prev_pc[c]) ++streak[c]; else { streak[c] = 0; prev_pc[c] = pc[c]; }] *)
Definition seq_hart (tb : Vsystem) (s : seqtracer) (h : nat) : seqtracer :=
  if seq_pc tb h =? default 0 (prev_pcs s !! h)
  then { s with streak ::= <[h := u64 (default 0 (streak s !! h) + 1)]> }
  else { { s with streak ::= <[h := 0]> } with prev_pcs ::= <[h := seq_pc tb h]> }.

Definition log (l : list reg_entry) (s : seqtracer) : seqtracer := { s with reglog ::= option_map (fun r => r ++ l) }.

(** The first hart whose streak reaches the threshold opens the reg-log. *)
Definition seq_trigger (tb : Vsystem) (cycle : Z) (s : seqtracer) : seqtracer :=
  match List.find (fun h => threshold <=? default 0 (streak s !! h)) harts4 with
  | None => s
  | Some h =>
    { { { s with q_triggered := true } with trigger_cycle := cycle } with
      reglog := Some [WedgeDetected (Z.of_nat h) (seq_pc tb h) cycle (map (seq_pc tb) harts4); RegDump cycle (seq_regs tb)] }
  end.

(** One iteration; [true] is the [break] at the end of the window. *)
Definition seq_cycle (cycle : Z) (s : seqtracer) : bool * seqtracer :=
  let s := seq_tick s in
  let tb := (q_run s).1 in
  let s := fold_left (seq_hart tb) harts4 s in
  let s := if negb (q_triggered s) then seq_trigger tb cycle s else s in
  if q_triggered s then
    let s := log [CycleLine cycle (map (fun h => (seq_pc tb h, seq_commit tb h)) harts4)] s in
    let s := if (cycle - trigger_cycle s) mod kRegDumpStride =? 0 then log [RegDump cycle (seq_regs tb)] s else s in
    (trace_window <=? u64 (cycle - trigger_cycle s), s)
  else (false, s).

(** [for (; cycle < max_cycles; ++cycle)], [n] iterations from the end. *)
Fixpoint seq_loop (n : nat) (s : seqtracer) : seqtracer :=
  match n with
  | O => s
  | S n => let '(stop, s) := seq_cycle (max_cycles - Z.of_nat (S n)) s in if stop then s else seq_loop n s
  end.

Definition seq_start (x : Vsystem * Z) : seqtracer := mkseq _ x (map (seq_pc x.1) harts4) [0; 0; 0; 0] false 0 0 [] None.
Definition seqlock_main (image : option (list Z)) (tb : Vsystem) : Z * seqtracer :=
  let '(ok, x) := load_image image (do_reset (tb, 0)) in
  if ok then let s := seq_loop (Z.to_nat max_cycles) (seq_start x) in ((if q_triggered s then 0 else 1), s)
  else (2, seq_start x).
End Seqtrace.

(** *** When a wedge is reported *)

Section Seqproof.
Context `{Model} (threshold trace_window max_cycles : Z) (tb : Vsystem).

(** For how many clocks the PC of hart [h] has not changed at clock [c]. *)
Fixpoint runlen (h c : nat) : Z :=
  match c with
  | O => 0
  | S c' => if seq_pc (after tb c) h =? seq_pc (after tb c') h then runlen h c' + 1 else 0
  end.

Lemma runlen_range h c : 0 <= runlen h c <= Z.of_nat c.
Proof. induction c as [|c IH]; cbn [runlen]; [lia|]. destruct (_ =? _); lia. Qed.

(** A run of length [m] is [m] clocks back with the same PC. *)
Lemma runlen_same h c : forall m, 0 <= m ->
  m <= runlen h c <-> m <= Z.of_nat c /\ forall j, (j <= Z.to_nat m)%nat -> seq_pc (after tb (c - j)) h = seq_pc (after tb c) h.
Proof.
  induction c as [|c IH]; intros m Hm; cbn [runlen].
  - split; [intros Hle; split; [lia|intros j _; reflexivity]|intros [Hle _]; lia].
  - destruct (Z.eqb_spec (seq_pc (after tb (S c)) h) (seq_pc (after tb c) h)) as [E|E].
    + destruct (Z.eq_dec m 0) as [->|Hm0]; [split; [intros _; split; [lia|]; intros j Hj; replace j with 0%nat by lia; reflexivity|pose proof (runlen_range h c); lia]|].
      transitivity (m - 1 <= runlen h c); [lia|]. rewrite (IH (m - 1) ltac:(lia)). split; intros [Hle Hj]; (split; [lia|]).
      * intros [|j] Hj'; [reflexivity|]. rewrite E. apply (Hj j). lia.
      * intros j Hj'. rewrite <- E. apply (Hj (S j)). lia.
    + split; [intros Hle; split; [lia|]; intros j Hj; replace j with 0%nat by lia; reflexivity|].
      intros [Hle Hj]. destruct (Z.eq_dec m 0); [lia|]. exfalso. apply E. symmetry. rewrite <- (Hj 1%nat) by lia. cbn [Nat.sub]. rewrite Nat.sub_0_r. reflexivity.
Qed.

(** One clock for the four harts. *)
Definition watching (c : nat) (s : seqtracer) : Prop :=
  (q_run s).1 = after tb c /\ prev_pcs s = map (seq_pc (after tb c)) harts4 /\ streak s = map (fun h => runlen h c) harts4 /\
  q_triggered s = false /\ vcd s = [].

Lemma seq_hart_step (t : Vsystem) s h p k : prev_pcs s !! h = Some p -> streak s !! h = Some k ->
  let s' := seq_hart t s h in
  prev_pcs s' = <[h := seq_pc t h]> (prev_pcs s) /\ streak s' = <[h := if seq_pc t h =? p then u64 (k + 1) else 0]> (streak s) /\
  q_run s' = q_run s /\ q_triggered s' = q_triggered s /\ vcd s' = vcd s /\ trigger_cycle s' = trigger_cycle s.
Proof.
  intros Hp Hk. unfold seq_hart. cbv zeta. rewrite Hp, Hk. cbn [from_option]. unfold id. destruct (Z.eqb_spec (seq_pc t h) p) as [->|].
  - split; [rewrite list_insert_id by assumption; reflexivity|repeat split].
  - repeat split.
Qed.

Lemma seq_harts t s p0 p1 p2 p3 k0 k1 k2 k3 : prev_pcs s = [p0; p1; p2; p3] -> streak s = [k0; k1; k2; k3] ->
  let s' := fold_left (seq_hart t) harts4 s in
  let step h p k := if seq_pc t h =? p then u64 (k + 1) else 0 in
  prev_pcs s' = map (seq_pc t) harts4 /\ streak s' = [step 0%nat p0 k0; step 1%nat p1 k1; step 2%nat p2 k2; step 3%nat p3 k3] /\
  q_run s' = q_run s /\ q_triggered s' = q_triggered s /\ vcd s' = vcd s /\ trigger_cycle s' = trigger_cycle s.
Proof.
  intros Hp Hk. cbn [fold_left harts4]. cbv zeta.
  destruct (seq_hart_step t s 0 p0 k0) as (A1 & A2 & A3 & A4 & A5 & A6); [rewrite Hp; reflexivity|rewrite Hk; reflexivity|].
  rewrite Hp in A1. rewrite Hk in A2. cbn [insert list_insert] in A1, A2. set (s1 := seq_hart t s 0) in *.
  destruct (seq_hart_step t s1 1 p1 k1) as (B1 & B2 & B3 & B4 & B5 & B6); [rewrite A1; reflexivity|rewrite A2; reflexivity|].
  rewrite A1 in B1. rewrite A2 in B2. cbn [insert list_insert] in B1, B2. set (s2 := seq_hart t s1 1) in *.
  destruct (seq_hart_step t s2 2 p2 k2) as (C1 & C2 & C3 & C4 & C5 & C6); [rewrite B1; reflexivity|rewrite B2; reflexivity|].
  rewrite B1 in C1. rewrite B2 in C2. cbn [insert list_insert] in C1, C2. set (s3 := seq_hart t s2 2) in *.
  destruct (seq_hart_step t s3 3 p3 k3) as (D1 & D2 & D3 & D4 & D5 & D6); [rewrite C1; reflexivity|rewrite C2; reflexivity|].
  rewrite C1 in D1. rewrite C2 in D2. cbn [insert list_insert] in D1, D2.
  split; [exact D1|]. split; [exact D2|]. split; [congruence|]. split; [congruence|]. split; congruence.
Qed.

Lemma watching_step c s : watching c s -> Z.of_nat c < 2 ^ 64 - 1 ->
  let t := after tb (S c) in watching (S c) (fold_left (seq_hart t) harts4 (seq_tick s)).
Proof.
  intros (Hr & Hp & Hk & Ht & Hv) Hc. cbv zeta.
  assert (E : q_run (seq_tick s) = run_tick (q_run s) /\ prev_pcs (seq_tick s) = prev_pcs s /\ streak (seq_tick s) = streak s /\
    q_triggered (seq_tick s) = false /\ vcd (seq_tick s) = []) by (unfold seq_tick; rewrite Ht; repeat split; assumption).
  destruct E as (E1 & E2 & E3 & E4 & E5). rewrite Hp in E2. rewrite Hk in E3.
  destruct (seq_harts (after tb (S c)) (seq_tick s) _ _ _ _ _ _ _ _ E2 E3) as (P1 & P2 & P3 & P4 & P5 & _).
  split; [rewrite P3, E1; change (tick_nodump (q_run s).1 = after tb (S c)); rewrite Hr; reflexivity|]. split; [exact P1|].
  split; [|split; [rewrite P4; exact E4|rewrite P5; exact E5]]. rewrite P2. cbn [map harts4].
  assert (Hu : forall h, (if seq_pc (after tb (S c)) h =? seq_pc (after tb c) h then u64 (runlen h c + 1) else 0) = runlen h (S c)).
  { clear P2. intros h. cbn [runlen]. destruct (seq_pc _ h =? _); [|reflexivity]. apply u64_id. pose proof (runlen_range h c). unfold is_u64. lia. }
  rewrite !Hu. reflexivity.
Qed.

(** The harts that have been stuck for [threshold] clocks at clock [c]. *)
Definition wedged (c : nat) : bool := existsb (fun h => threshold <=? runlen h c) harts4.

Lemma seq_trigger_spec c s cycle : watching c s ->
  let s' := seq_trigger threshold (after tb c) cycle s in
  if wedged c then q_triggered s' = true /\ trigger_cycle s' = cycle /\ vcd s' = [] else s' = s.
Proof.
  intros (_ & _ & Hk & _ & Hv). unfold seq_trigger, wedged. cbv zeta. rewrite Hk. cbn [map harts4 List.find existsb lookup list_lookup from_option]; unfold id.
  repeat (match goal with |- context [threshold <=? ?x] => destruct (threshold <=? x) end; [repeat split; exact Hv|]). reflexivity.
Qed.

Lemma log_members l s : q_triggered (log l s) = q_triggered s /\ trigger_cycle (log l s) = trigger_cycle s /\ vcd (log l s) = vcd s.
Proof. repeat split. Qed.

(** A captured cycle, once the trigger is set. *)
Lemma capture_cycle s cycle t (tb' : Vsystem) : q_triggered s = true -> trigger_cycle s = t ->
  let s1 := log [CycleLine cycle (map (fun h => (seq_pc tb' h, seq_commit tb' h)) harts4)] s in
  let s2 := if (cycle - trigger_cycle s1) mod kRegDumpStride =? 0 then log [RegDump cycle (seq_regs tb')] s1 else s1 in
  q_triggered s2 = true /\ trigger_cycle s2 = t /\ vcd s2 = vcd s.
Proof. intros Ht Hc. cbv zeta. destruct (_ =? 0); rewrite <- ?Hc, <- ?Ht; repeat split; assumption. Qed.

Lemma capture_loop n : forall s t, q_triggered s = true -> trigger_cycle s = t -> 0 <= t ->
  let d := max_cycles - Z.of_nat n - 1 - t in 0 <= d < trace_window -> max_cycles < 2 ^ 64 ->
  let s' := seq_loop threshold trace_window max_cycles n s in
  q_triggered s' = true /\ trigger_cycle s' = t /\
  Z.of_nat (length (vcd s')) = Z.of_nat (length (vcd s)) + 3 * Z.min (trace_window - d) (Z.of_nat n).
Proof.
  induction n as [|n IH]; intros s t Ht Hc Ht0 d Hd Hm; cbn [seq_loop]; cbv zeta.
  - split; [exact Ht|]. split; [exact Hc|]. lia.
  - unfold seq_cycle. set (cycle := max_cycles - Z.of_nat (S n)).
    set (s1 := seq_tick s).
    assert (E1 : q_triggered s1 = true /\ trigger_cycle s1 = t /\ Z.of_nat (length (vcd s1)) = Z.of_nat (length (vcd s)) + 3).
    { subst s1. unfold seq_tick. rewrite Ht. split; [exact Ht|]. split; [exact Hc|].
      transitivity (Z.of_nat (length (vcd s ++ [u64 (u32 (q_dump_tick s + 1) * 10 - 2); u32 (q_dump_tick s + 1) * 10; u32 (q_dump_tick s + 1) * 10 + 5]))); [reflexivity|].
      rewrite length_app. cbn [length]. lia. }
    destruct E1 as (A1 & A2 & A3).
    set (s2 := fold_left (seq_hart (q_run s1).1) harts4 s1).
    assert (E2 : q_triggered s2 = true /\ trigger_cycle s2 = t /\ vcd s2 = vcd s1).
    { subst s2. generalize (q_run s1).1 as tb1. revert A1 A2. generalize harts4 as l. clearbody s1. clear A3. revert s1. intros s1 l; revert s1.
      induction l as [|h l IHl]; intros s1 A1 A2 tb1; [repeat split; assumption|]. cbn [fold_left].
      assert (Eh : q_triggered (seq_hart tb1 s1 h) = true /\ trigger_cycle (seq_hart tb1 s1 h) = t /\ vcd (seq_hart tb1 s1 h) = vcd s1)
        by (unfold seq_hart; destruct (_ =? _); repeat split; assumption).
      destruct Eh as (H1' & H2' & H3'). destruct (IHl _ H1' H2' tb1) as (I1 & I2 & I3). repeat split; congruence. }
    destruct E2 as (B1 & B2 & B3). rewrite B1. cbn [negb]. rewrite B1.
    pose proof (capture_cycle s2 cycle t (q_run s1).1 B1 B2) as Hcap. cbv zeta in Hcap.
    set (s3 := if (cycle - trigger_cycle _) mod kRegDumpStride =? 0 then _ else _) in *.
    destruct Hcap as (C1 & C2 & C3). rewrite C2, u64_id by (unfold is_u64, cycle; lia).
    destruct (Z.leb_spec trace_window (cycle - t)) as [Hle|Hlt].
    + split; [exact C1|]. split; [exact C2|]. rewrite C3, B3, A3. unfold cycle in *. lia.
    + destruct (IH s3 t C1 C2 Ht0 ltac:(unfold cycle in *; lia) Hm) as (D1 & D2 & D3).
      split; [exact D1|]. split; [exact D2|]. rewrite D3, C3, B3, A3. unfold cycle in *. lia.
Qed.

Definition captured (s : seqtracer) (m : nat) : Prop :=
  q_triggered s = true /\ trigger_cycle s = Z.of_nat m - 1 /\
  Z.of_nat (length (vcd s)) = 3 * Z.min trace_window (max_cycles - Z.of_nat m).

Lemma seq_loop_spec n : forall c s, watching c s -> Z.of_nat (c + n) = max_cycles -> max_cycles < 2 ^ 64 -> 0 <= trace_window ->
  let s' := seq_loop threshold trace_window max_cycles n s in
  (exists m, (c < m <= c + n)%nat /\ wedged m = true /\ (forall j, (c < j < m)%nat -> wedged j = false) /\ captured s' m) \/
  ((forall j, (c < j <= c + n)%nat -> wedged j = false) /\ q_triggered s' = false /\ vcd s' = []).
Proof.
  induction n as [|n IH]; intros c s Hw Hc Hm Hwin; cbn [seq_loop]; cbv zeta.
  - right. split; [intros; lia|]. split; apply Hw.
  - unfold seq_cycle. pose proof (watching_step c s Hw ltac:(lia)) as Hw1. cbv zeta in Hw1.
    assert (Hr : (q_run (seq_tick s)).1 = after tb (S c)).
    { unfold seq_tick. destruct Hw as (Hr & _ & _ & Ht & _). rewrite Ht. change (tick_nodump (q_run s).1 = after tb (S c)). rewrite Hr. reflexivity. }
    rewrite Hr. set (s1 := fold_left _ harts4 _) in *. assert (Ht1 : q_triggered s1 = false) by apply Hw1. rewrite Ht1. cbn [negb].
    replace (max_cycles - Z.of_nat (S n)) with (Z.of_nat c) by lia.
    pose proof (seq_trigger_spec (S c) s1 (Z.of_nat c) Hw1) as Htr. cbv zeta in Htr. set (s2 := seq_trigger _ _ _ _) in *.
    destruct (wedged (S c)) eqn:Ew.
    + destruct Htr as (T1 & T2 & T3). rewrite T1.
      pose proof (capture_cycle s2 (Z.of_nat c) (Z.of_nat c) (after tb (S c)) T1 T2) as Hcap. cbv zeta in Hcap.
      set (s3 := if (Z.of_nat c - trigger_cycle _) mod kRegDumpStride =? 0 then _ else _) in *. destruct Hcap as (C1 & C2 & C3).
      left. exists (S c). split; [lia|]. split; [exact Ew|]. split; [intros; lia|]. rewrite C2, Z.sub_diag, u64_id by (unfold is_u64; lia).
      destruct (Z.leb_spec trace_window 0).
      * split; [exact C1|]. split; [rewrite C2; lia|]. rewrite C3, T3. cbn [length]. lia.
      * destruct (capture_loop n s3 (Z.of_nat c) C1 C2 ltac:(lia) ltac:(lia) Hm) as (D1 & D2 & D3).
        split; [exact D1|]. split; [rewrite D2; lia|]. rewrite D3, C3, T3. cbn [length]. lia.
    + rewrite Htr, Ht1.
      destruct (IH (S c) s1 Hw1 ltac:(lia) Hm Hwin) as [(m & M1 & M2 & M3 & M4)|(N1 & N2 & N3)].
      * left. exists m. split; [lia|]. split; [exact M2|]. split; [|exact M4]. intros j Hj.
        destruct (Nat.eq_dec j (S c)) as [->|]; [exact Ew|apply M3; lia].
      * right. split; [|split; assumption]. intros j Hj. destruct (Nat.eq_dec j (S c)) as [->|]; [exact Ew|apply N1; lia].
Qed.

Lemma watching_start tick : watching 0 (seq_start (tb, tick)).
Proof. repeat split. Qed.
End Seqproof.

(** Hart [h] has sat on one PC for [threshold] clocks at clock [m]. *)
Definition stuck `{Model} (threshold : Z) (tb : Vsystem) (m : nat) : Prop :=
  exists h, (h < 4)%nat /\ threshold <= Z.of_nat m /\
    forall j, (j <= Z.to_nat threshold)%nat -> seq_pc (after tb (m - j)) h = seq_pc (after tb m) h.

Lemma wedged_stuck `{Model} threshold tb m : 0 <= threshold -> wedged threshold tb m = true <-> stuck threshold tb m.
Proof.
  intros Ht. unfold wedged, stuck. rewrite existsb_exists. split.
  - intros (h & Hin & Hle%Z.leb_le). exists h. split; [cbn in Hin; lia|]. apply (runlen_same tb h m threshold Ht), Hle.
  - intros (h & Hh & Hs). exists h. split; [cbn; lia|]. apply Z.leb_le, (runlen_same tb h m threshold Ht), Hs.
Qed.

(** Seqlock_wedge_trace ends, and reports a wedge (code 0) exactly when within
    [--max-cycles] clocks some hart sits on one PC for [--threshold] clocks. The
    trigger is the first such clock, and the waveform covers the [--window] clocks
    after it, or those that are left: three dumps each. *)
Theorem seqlock_trace_captures `{Model} threshold trace_window max_cycles bytes tb :
  0 <= threshold -> 0 <= trace_window -> 0 <= max_cycles < 2 ^ 64 ->
  let tb0 := (load_image (Some bytes) (do_reset (tb, 0))).2.1 in
  let '(code, s) := seqlock_main threshold trace_window max_cycles (Some bytes) tb in
  (code = 0 /\ exists m, (0 < m)%nat /\ Z.of_nat m <= max_cycles /\ stuck threshold tb0 m /\
     (forall j, (0 < j < m)%nat -> ~ stuck threshold tb0 j) /\
     trigger_cycle s = Z.of_nat m - 1 /\ Z.of_nat (length (vcd s)) = 3 * Z.min trace_window (max_cycles - Z.of_nat m)) \/
  (code = 1 /\ vcd s = [] /\ forall m, (0 < m)%nat -> Z.of_nat m <= max_cycles -> ~ stuck threshold tb0 m).
Proof.
  intros Ht Hw Hm. cbv zeta. unfold seqlock_main. rewrite (load_image_some bytes (do_reset (tb, 0))).
  generalize (load_image (Some bytes) (do_reset (tb, 0))).2 as x. intros [tb0 tick]. cbn [fst snd].
  assert (Hno : forall j, wedged threshold tb0 j = false -> ~ stuck threshold tb0 j).
  { intros j Hj Hs. apply (wedged_stuck threshold tb0 j Ht) in Hs. congruence. }
  destruct (seq_loop_spec threshold trace_window max_cycles tb0 (Z.to_nat max_cycles) 0 _ (watching_start tb0 tick) ltac:(lia) ltac:(lia) Hw)
    as [(m & M1 & M2 & M3 & C1 & C2 & C3)|(N1 & N2 & N3)].
  - rewrite C1. left. split; [reflexivity|]. exists m. split; [lia|]. split; [lia|]. split; [apply wedged_stuck; assumption|].
    split; [intros j Hj; apply Hno, M3, Hj|]. split; [exact C2|exact C3].
  - rewrite N2. right. split; [reflexivity|]. split; [exact N3|]. intros m H1 H2. apply Hno, N1. lia.
Qed.

(** Hart 2 stops at clock 3 of the run; with a threshold of 4 the wedge is seen in
    the cycle after and two clocks are dumped. *)
Definition at_pcs (l : list Z) : list core_ports := map (fun p => { idle_core with pc := p }) l.
Definition wedge_system : Vsystem :=
  script_system 64 (replicate 43 (at_pcs [1; 2; 3; 4]) ++ map at_pcs [[5; 6; 7; 8]; [1; 2; 3; 4]; [5; 6; 7; 8]] ++
    map (fun k => at_pcs [k; k; 7; k]) [11; 12; 13; 14; 15; 16; 17; 18]).
Lemma seqlock_trace_captures_witness :
  let tb0 := (load_image (Some [1; 2; 3]) (do_reset (wedge_system, 0))).2.1 in
  let '(code, s) := seqlock_main 4 2 20 (Some [1; 2; 3]) wedge_system in
  trigger_cycle s = 6 /\
  ((code = 0 /\ exists m, (0 < m)%nat /\ Z.of_nat m <= 20 /\ stuck 4 tb0 m /\
     (forall j, (0 < j < m)%nat -> ~ stuck 4 tb0 j) /\
     trigger_cycle s = Z.of_nat m - 1 /\ Z.of_nat (length (vcd s)) = 3 * Z.min 2 (20 - Z.of_nat m)) \/
  (code = 1 /\ vcd s = [] /\ forall m, (0 < m)%nat -> Z.of_nat m <= 20 -> ~ stuck 4 tb0 m)).
Proof.
  pose proof (seqlock_trace_captures 4 2 20 [1; 2; 3] wedge_system ltac:(lia) ltac:(lia) ltac:(lia)) as Hs. cbv zeta in Hs |- *.
  assert (E : let '(code, s) := seqlock_main 4 2 20 (Some [1; 2; 3]) wedge_system in trigger_cycle s = 6) by (vm_compute; reflexivity).
  destruct (seqlock_main 4 2 20 (Some [1; 2; 3]) wedge_system) as [code s]. split; [exact E|exact Hs].
Defined.
