(* ===== verification/Uartrx.v ===== *)
(** * The console input test: [sim/harness/uartrx_test.cpp]

    The harness offers a text to the core byte by byte through the [hostInput]
    pins, with a four-phase handshake, collects what the core transmits, and
    compares the part between < and > with the text.

    [hostInput_valid] and [hostInput_char] are inputs of the Verilated model:
    evaluating it does not change them. That is the hypothesis [host_pins]; the
    echo device at the end satisfies it. The theorem follows the pins cycle by
    cycle: the harness offers the bytes of the text, in order, each until it is consumed,
    and what exactly the verdict PASS means. The printed messages and the
    environment variables, which are arguments here, are not modelled. *)

From S2P Require Import Prelude Rtl.

(** ** The run *)

Record rx `{Verilated} := mkrx { x_model : Vsystem; sent : nat; tx : list Z; tx_prev : list bool }.

(** [tx.find(c)] for a byte and for a string *)
Fixpoint find_byte (c : Z) (l : list Z) : option nat :=
  match l with
  | [] => None
  | b :: l => if b =? c then Some 0%nat else option_map S (find_byte c l)
  end.
Fixpoint starts_with (p l : list Z) : bool :=
  match p, l with
  | [], _ => true
  | a :: p, b :: l => (a =? b) && starts_with p l
  | _, [] => false
  end.
Fixpoint contains (p l : list Z) : bool := starts_with p l || match l with [] => false | _ :: l => contains p l end.
Definition rxfail : list Z := [82; 88; 70; 65; 73; 76].
Definition open_tag : Z := 60.
Definition close_tag : Z := 62.

Section Rx.
Context `{Model} (text : list Z) (poll : Z).

(** The handshake, between the first [eval] and the clock edge. *)
Definition serve (cyc : Z) (s : rx) : rx :=
  let t := x_model s in
  if cyc mod poll =? 0 then
    if negb (hostInput_valid t =? 0) then
      if negb (hostInputConsumed t =? 0)
      then { { s with x_model -> hostInput_valid := 0 } with sent ::= S }
      else s
    else if (hostInputConsumed t =? 0) && (sent s <? length text)%nat
    then { s with x_model ::= (fun t => { { t with hostInput_char := u8 (default 0 (text !! sent s)) } with hostInput_valid := 1 }) }
    else s
  else s.

(** One port of the TX capture. *)
Definition rx_port (s : rx) (p : nat) : rx :=
  let c := core (x_model s) (Z.of_nat p) in
  let v := negb (OutChar_valid c =? 0) in
  let s := if v && negb (default false (tx_prev s !! p)) then { s with tx ::= (fun l => l ++ [u8 (OutChar_byte c)]) } else s in
  { s with tx_prev ::= <[p := v]> }.

Definition rx_clock (s : rx) : rx :=
  { s with x_model ::= (fun t => eval { (eval { t with clock := 1 }) with clock := 0 }) }.

Definition rx_cycle (cyc : Z) (s : rx) : rx :=
  let s := { s with x_model ::= eval } in
  fold_left rx_port harts4 (rx_clock (serve cyc s)).

(** [for (; cyc < maxcyc; ++cyc)], with the two [break]s. *)
Fixpoint rx_loop (n : nat) (cyc : Z) (s : rx) : rx :=
  match n with
  | O => s
  | S n =>
    let s := rx_cycle cyc s in
    if existsb (fun b => b =? close_tag) (tx s) || contains rxfail (tx s) then s else rx_loop n (cyc + 1) s
  end.

Definition rx_start (t : Vsystem) : rx :=
  mkrx _ { { t with hostInput_valid := 0 } with hostInput_char := 0 } 0 [] [false; false; false; false].

(** The verdict on what was transmitted: 0 is PASS. *)
Definition rx_verdict (l : list Z) : Z :=
  if contains rxfail l then 1 else
  match find_byte open_tag l, find_byte close_tag l with
  | Some lo, Some hi =>
    if (hi <? lo)%nat then 1
    else if bool_decide (firstn (hi - lo - 1) (skipn (lo + 1) l) = text) then 0 else 1
  | _, _ => 1
  end.

Local Open Scope prog_scope.
Definition uartrx_main (CHIRON_NO_TRACE : bool) (image dtb boot_rom : option (list Z)) (maxcyc : nat) : M simulator Z :=
  bench_init CHIRON_NO_TRACE image dtb boot_rom false ;;;
  s <- gets tb ;;
  let r := rx_loop maxcyc 0 (rx_start s) in
  modify (fun b => { b with tb := x_model r }) ;;;
  ret (rx_verdict (tx r)).
End Rx.

(** ** The handshake *)

(** Inputs of the model are written by the driver only. *)
Definition host_pins `{Model} : Prop := forall t,
  hostInput_valid (eval t) = hostInput_valid t /\ hostInput_char (eval t) = hostInput_char t.

Section Handshake.
Context `{Model} (text : list Z) (poll : Z) (t0 : Vsystem) (Hpins : host_pins).

(** The state before cycle [k], as long as the loop runs. *)
Fixpoint rx_at (k : nat) : rx :=
  match k with O => rx_start t0 | S k => rx_cycle text poll (Z.of_nat k) (rx_at k) end.
(** What the device is offered when cycle [k] begins, and what the harness sees of it in that cycle. *)
Definition offered (k : nat) : Z := hostInput_valid (x_model (rx_at k)).
Definition offered_char (k : nat) : Z := hostInput_char (x_model (rx_at k)).
Definition consumed (k : nat) : bool := negb (hostInputConsumed (eval (x_model (rx_at k))) =? 0).
Definition serviced (k : nat) : bool := Z.of_nat k mod poll =? 0.
(** In cycle [k] a byte is retired. *)
Definition retires (k : nat) : bool := negb (offered k =? 0) && serviced k && consumed k.
Definition retired (k : nat) : list nat := List.filter retires (seq 0 k).

Lemma rx_ports_pins l : forall s, x_model (fold_left rx_port l s) = x_model s /\ sent (fold_left rx_port l s) = sent s.
Proof.
  induction l as [|p l IH]; intros s; [now split|]. cbn [fold_left]. destruct (IH (rx_port s p)) as [-> ->].
  unfold rx_port. destruct (_ && _); now split.
Qed.
Lemma rx_clock_pins s : hostInput_valid (x_model (rx_clock s)) = hostInput_valid (x_model s) /\
  hostInput_char (x_model (rx_clock s)) = hostInput_char (x_model s).
Proof.
  change (x_model (rx_clock s)) with (eval { (eval { (x_model s) with clock := 1 }) with clock := 0 }). split.
  - rewrite (proj1 (Hpins _)). change (hostInput_valid (eval { (x_model s) with clock := 1 }) = hostInput_valid (x_model s)). now rewrite (proj1 (Hpins _)).
  - rewrite (proj2 (Hpins _)). change (hostInput_char (eval { (x_model s) with clock := 1 }) = hostInput_char (x_model s)). now rewrite (proj2 (Hpins _)).
Qed.

Lemma rx_cycle_pins cyc s : let s2 := serve text poll cyc { s with x_model ::= eval } in let s' := rx_cycle text poll cyc s in
  hostInput_valid (x_model s') = hostInput_valid (x_model s2) /\ hostInput_char (x_model s') = hostInput_char (x_model s2) /\ sent s' = sent s2.
Proof.
  cbv zeta. unfold rx_cycle. cbv zeta. generalize (serve text poll cyc { s with x_model ::= eval }). intros s2.
  destruct (rx_ports_pins harts4 (rx_clock s2)) as [Em En]. destruct (rx_clock_pins s2) as [Ev Ec].
  split; [|split].
  - exact (eq_trans (f_equal hostInput_valid Em) Ev).
  - exact (eq_trans (f_equal hostInput_char Em) Ec).
  - exact En.
Qed.

(** One cycle, on the pins. *)
Lemma rx_step k :
  (offered (S k), offered_char (S k), sent (rx_at (S k))) =
  if serviced k then
    if negb (offered k =? 0) then
      if consumed k then (0, offered_char k, S (sent (rx_at k))) else (offered k, offered_char k, sent (rx_at k))
    else if negb (consumed k) && (sent (rx_at k) <? length text)%nat
    then (1, u8 (default 0 (text !! sent (rx_at k))), sent (rx_at k)) else (offered k, offered_char k, sent (rx_at k))
  else (offered k, offered_char k, sent (rx_at k)).
Proof.
  unfold offered, offered_char, consumed, serviced. destruct (rx_cycle_pins (Z.of_nat k) (rx_at k)) as (E1 & E2 & E3).
  change (rx_cycle text poll (Z.of_nat k) (rx_at k)) with (rx_at (S k)) in *. rewrite E1, E2, E3. clear E1 E2 E3.
  generalize (rx_at k). intros s. set (s1 := { s with x_model ::= eval }).
  assert (Ev : hostInput_valid (x_model s1) = hostInput_valid (x_model s)) by apply (Hpins (x_model s)).
  assert (Ec : hostInput_char (x_model s1) = hostInput_char (x_model s)) by apply (Hpins (x_model s)).
  assert (Es : sent s1 = sent s) by reflexivity. assert (Ed : hostInputConsumed (x_model s1) = hostInputConsumed (eval (x_model s))) by reflexivity.
  rewrite <- Ev, <- Ec, <- Es, <- Ed. clear Ev Ec Es Ed. unfold serve. clearbody s1. destruct (_ mod _ =? 0); [|reflexivity].
  destruct (hostInput_valid (x_model s1) =? 0) eqn:E; cbn [negb].
  - rewrite negb_involutive. destruct (_ && _); reflexivity.
  - destruct (negb _); reflexivity.
Qed.

(** Nothing is offered, or the next byte of the text is; those retired are the text up to here. *)
Lemma rx_at_offering k :
  (sent (rx_at k) <= length text)%nat /\ map offered_char (retired k) = map u8 (firstn (sent (rx_at k)) text) /\
  (offered k = 0 \/ offered k = 1 /\ exists b, text !! sent (rx_at k) = Some b /\ offered_char k = u8 b).
Proof.
  induction k as [|k (Hs & Ha & Hv)]; [split; [cbn; lia|]; split; [reflexivity|left; reflexivity]|].
  pose proof (rx_step k) as E. unfold retired in *. rewrite seq_S, List.filter_app, map_app, Ha. cbn [List.filter Nat.add]. unfold retires at 1.
  revert E. generalize (offered (S k)) (offered_char (S k)) (sent (rx_at (S k))). intros o c n E.
  destruct (serviced k); cbn [andb] in *; rewrite ?andb_false_r, ?andb_true_r in *.
  2:{ injection E as -> -> ->. cbn [map]. rewrite ?app_nil_r. now repeat split. }
  destruct (Z.eqb_spec (offered k) 0) as [E0|N0]; cbn [negb andb] in *.
  - destruct (negb (consumed k)); cbn [andb] in E; [destruct (Nat.ltb_spec (sent (rx_at k)) (length text)) as [Hlt|]|];
      injection E as -> -> ->; cbn [map]; rewrite ?app_nil_r; (split; [exact Hs|split; [reflexivity|]]); try now left.
    right. split; [reflexivity|]. destruct (lookup_lt_is_Some_2 text _ Hlt) as [b ->]. eauto.
  - destruct Hv as [Hv|(Hv & b & Hb & Hc)]; [contradiction|]. destruct (consumed k); injection E as -> -> ->; cbn [map].
    + split; [apply lookup_lt_Some in Hb; lia|]. split; [|now left]. rewrite (take_S_r text _ b Hb), map_app, Hc. reflexivity.
    + rewrite app_nil_r. split; [exact Hs|]. split; [reflexivity|]. right. eauto.
Qed.

(** How the loop ends. *)
Definition rx_over (s : rx) : bool := existsb (fun b => b =? close_tag) (tx s) || contains rxfail (tx s).
Lemma rx_loop_at n : forall k, exists m, (m <= n)%nat /\ rx_loop text poll n (Z.of_nat k) (rx_at k) = rx_at (k + m) /\
  (m = n \/ rx_over (rx_at (k + m)) = true).
Proof.
  induction n as [|n IH]; intros k; [exists 0%nat; rewrite Nat.add_0_r; auto|]. cbn [rx_loop].
  change (rx_cycle text poll (Z.of_nat k) (rx_at k)) with (rx_at (S k)). fold (rx_over (rx_at (S k))). destruct (rx_over (rx_at (S k))) eqn:Eo.
  - exists 1%nat. split; [lia|]. rewrite Nat.add_1_r. auto.
  - destruct (IH (S k)) as (m & Hm & E & Hor). exists (S m). replace (Z.of_nat k + 1) with (Z.of_nat (S k)) by lia.
    rewrite Nat.add_succ_r. split; [lia|]. split; [exact E|]. destruct Hor; [left; lia|now right].
Qed.
End Handshake.

(** ** The verdict *)

Lemma find_byte_spec c l k : find_byte c l = Some k <-> exists l1 l2, l = l1 ++ c :: l2 /\ length l1 = k /\ ~ In c l1.
Proof.
  revert k. induction l as [|b l IH]; intros k; cbn [find_byte].
  - split; [discriminate|]. intros ([|? ?] & l2 & E & _); discriminate.
  - destruct (Z.eqb_spec b c) as [->|Hb].
    + split; [intros [= <-]; exists [], l; repeat split; auto|].
      intros ([|x l1] & l2 & E & <- & Hn); [reflexivity|]. injection E as <- _. exfalso. apply Hn. left. reflexivity.
    + split.
      * destruct (find_byte c l) as [j|] eqn:Ej; [|discriminate]. intros [= <-].
        destruct (proj1 (IH j) eq_refl) as (l1 & l2 & -> & <- & Hn). exists (b :: l1), l2. repeat split. intros [->|Hin]; [congruence|auto].
      * intros ([|x l1] & l2 & E & <- & Hn); [injection E as -> _; congruence|]. injection E as <- ->.
        rewrite (proj2 (IH (length l1))); [reflexivity|]. exists l1, l2. repeat split. intros Hin. apply Hn. right. exact Hin.
Qed.

(** PASS: the text came back between the first < and the first >. *)
Definition framed (text l : list Z) : Prop :=
  exists l1 l2, l = l1 ++ open_tag :: text ++ close_tag :: l2 /\ ~ In open_tag l1 /\ ~ In close_tag (l1 ++ text).

Lemma rx_verdict_pass text l : rx_verdict text l = 0 <-> contains rxfail l = false /\ framed text l.
Proof.
  unfold rx_verdict. destruct (contains rxfail l); [split; [discriminate|intros [[=] _]]|].
  split.
  - intros E. split; [reflexivity|]. revert E. destruct (find_byte open_tag l) as [lo|] eqn:Elo; [|discriminate].
    destruct (find_byte close_tag l) as [hi|] eqn:Ehi; [|discriminate].
    destruct (Nat.ltb_spec hi lo); [discriminate|]. case_bool_decide as Et; [|discriminate]. intros _.
    apply find_byte_spec in Elo as (l1 & l2 & El & <- & Hn). apply find_byte_spec in Ehi as (m1 & m2 & Em & <- & Hm).
    assert (Hlt : (length l1 < length m1)%nat).
    { destruct (Nat.eq_dec (length l1) (length m1)) as [E|]; [|lia]. subst l. apply app_inj_1 in Em as [_ Em]; [discriminate|exact E]. }
    subst l.
    assert (Ex : exists m, m1 = l1 ++ open_tag :: m).
    { exists (firstn (length m1 - S (length l1)) l2). transitivity (firstn (length m1) (l1 ++ open_tag :: l2)).
      - rewrite Em, take_app_length. reflexivity.
      - rewrite take_app, take_ge by lia. f_equal. replace (length m1 - length l1)%nat with (S (length m1 - S (length l1))) by lia. reflexivity. }
    destruct Ex as [m ->]. rewrite <- app_assoc in Em. apply app_inv_head in Em. injection Em as ->.
    exists l1, m2.
    assert (Etm : text = m).
    { rewrite <- Et. rewrite skipn_app, skipn_all2 by lia. replace (length l1 + 1 - length l1)%nat with 1%nat by lia. cbn [app skipn].
      rewrite length_app. cbn [length]. replace (length l1 + S (length m) - length l1 - 1)%nat with (length m) by lia. apply take_app_length. }
    subst m. split; [rewrite <- ?app_assoc; reflexivity|]. split; [exact Hn|].
    rewrite in_app_iff. intros [Hin|Hin]; apply Hm; rewrite in_app_iff; [left|right; right]; exact Hin.
  - intros (_ & l1 & l2 & -> & Hn & Hm).
    rewrite (proj2 (find_byte_spec open_tag _ (length l1))) by (exists l1, (text ++ close_tag :: l2); repeat split; assumption).
    rewrite (proj2 (find_byte_spec close_tag _ (length l1 + 1 + length text))).
    2: { exists (l1 ++ open_tag :: text), l2. split; [rewrite <- app_assoc; reflexivity|]. split; [rewrite length_app; cbn [length]; lia|].
      rewrite in_app_iff in *. intros [Hin|[Heq|Hin]]; [apply Hm; left; exact Hin|discriminate Heq|apply Hm; right; exact Hin]. }
    destruct (Nat.ltb_spec (length l1 + 1 + length text) (length l1)); [lia|].
    rewrite bool_decide_eq_true_2; [reflexivity|].
    rewrite skipn_app, skipn_all2 by lia. replace (length l1 + 1 - length l1)%nat with 1%nat by lia. cbn [app skipn].
    replace (length l1 + 1 + length text - length l1 - 1)%nat with (length text) by lia. apply take_app_length.
Qed.

(** C28: However the core behaves, over the [m] cycles the loop runs (all [n], or up to the cycle
    in which > or RXFAIL has been received). A byte that is offered stays on the pins, valid and
    unchanged, until a serviced cycle in which the device has consumed it; there it is retired and
    valid is dropped for the clock edge. A byte is offered in the serviced cycles in which nothing
    is, the device has let go of the last one, and the text has more, and then it is the next byte
    of the text. The bytes retired are the text up to [sent], in order. PASS is reported exactly
    when RXFAIL does not appear in what was transmitted and the text stands there between the
    first < and the first >. *)
Theorem uartrx_handshake `{Model} text poll n t : host_pins ->
  let at_ := rx_at text poll t in let valid := offered text poll t in let char := offered_char text poll t in
  let done := consumed text poll t in
  exists m, (m <= n)%nat /\ rx_loop text poll n 0 (rx_start t) = at_ m /\ (m = n \/ rx_over (at_ m) = true) /\
    (forall k, valid k <> 0 ->
      if serviced poll k && done k then valid (S k) = 0 /\ sent (at_ (S k)) = S (sent (at_ k))
      else valid (S k) = valid k /\ char (S k) = char k /\ sent (at_ (S k)) = sent (at_ k)) /\
    (forall k, valid k = 0 -> sent (at_ (S k)) = sent (at_ k) /\
      if serviced poll k && negb (done k) && (sent (at_ k) <? length text)%nat
      then valid (S k) = 1 /\ exists b, text !! sent (at_ k) = Some b /\ char (S k) = u8 b
      else valid (S k) = 0) /\
    map char (retired text poll t m) = map u8 (firstn (sent (at_ m)) text) /\
    (rx_verdict text (tx (at_ m)) = 0 <-> contains rxfail (tx (at_ m)) = false /\ framed text (tx (at_ m))).
Proof.
  intros Hp. cbv zeta. destruct (rx_loop_at text poll t n 0) as (m & Hm & E & Hor). exists m.
  split; [exact Hm|]. split; [exact E|]. split; [exact Hor|]. split; [|split; [|split; [apply rx_at_offering, Hp|apply rx_verdict_pass]]].
  - intros k Hv. pose proof (rx_step text poll t Hp k) as Es. rewrite (proj2 (Z.eqb_neq _ _) Hv) in Es. cbn [negb] in Es.
    revert Es. generalize (offered text poll t (S k)) (offered_char text poll t (S k)) (sent (rx_at text poll t (S k))). intros o c u Es.
    destruct (serviced poll k), (consumed text poll t k); cbn [andb]; injection Es as -> -> ->; auto.
  - intros k Hv. pose proof (rx_step text poll t Hp k) as Es. rewrite (proj2 (Z.eqb_eq _ _) Hv) in Es. cbn [negb] in Es.
    revert Es. generalize (offered text poll t (S k)) (offered_char text poll t (S k)) (sent (rx_at text poll t (S k))). intros o c u Es.
    destruct (serviced poll k); cbn [andb]; [|injection Es as -> _ ->; auto].
    destruct (negb (consumed text poll t k)); cbn [andb] in *; [|injection Es as -> _ ->; auto].
    destruct (Nat.ltb_spec (sent (rx_at text poll t k)) (length text)) as [Hlt|]; injection Es as -> -> ->; [|auto].
    split; [reflexivity|]. split; [reflexivity|]. destruct (lookup_lt_is_Some_2 text _ Hlt) as [b ->]. eauto.
Qed.

(** A device that echoes what it is sent between < and >. *)
Module Echo.
Record device := mkdevice { last : Z; taken : Z; queue : list Z; expected : nat }.
Definition echo : Verilated := device.
Definition take_byte (valid char : Z) (d : device) : device :=
  if valid =? 0 then { d with taken := 0 }
  else if taken d =? 0
  then mkdevice (last d) 1 (queue d ++ char :: (if (expected d =? 1)%nat then [close_tag] else [])) (pred (expected d))
  else d.
Definition echo_eval : @Model echo := fun t =>
  let d := state t in
  if (clock t =? 1) && (last d =? 0) then
    let d := take_byte (hostInput_valid t) (hostInput_char t) { d with last := 1 } in
    match queue d with
    | b :: q =>
      if OutChar_valid (core0 t) =? 0
      then { { { t with core0 := { { idle_core with OutChar_valid := 1 } with OutChar_byte := b } } with hostInputConsumed := taken d } with
             state := { d with queue := q } }
      else { { { t with core0 := idle_core } with hostInputConsumed := taken d } with state := d }
    | [] => { { { t with core0 := idle_core } with hostInputConsumed := taken d } with state := d }
    end
  else { t with state := { d with last := clock t } }.
Definition echo_system (n : nat) : @Vsystem echo :=
  {| clock := 0; reset := 0; programmer_valid := 0; programmer_byte := 0; programmer_offset := 0; finishedProgramming := 0;
     prober_offset := 0; prober_accessLong := 0; hostInput_valid := 0; hostInput_char := 0; hostInputConsumed := 0;
     core0 := idle_core; core1 := idle_core; core2 := idle_core; core3 := idle_core; periph_mtime := 0;
     dram := mkvec 64 ∅; state := mkdevice 0 0 [open_tag] n |}.
End Echo.

Lemma echo_pins : @host_pins Echo.echo Echo.echo_eval.
Proof.
  intros t. unfold eval, Echo.echo_eval. cbv zeta. destruct (_ && _); [|split; reflexivity].
  destruct (Echo.queue _); [split; reflexivity|]. destruct (_ =? 0); split; reflexivity.
Qed.

(** Three bytes are echoed; all three have been retired when the run passes. *)
Lemma uartrx_handshake_witness :
  exists m, (m <= 40)%nat /\
    @rx_loop Echo.echo Echo.echo_eval [65; 98; 51] 1 40 0 (rx_start (Echo.echo_system 3)) = @rx_at Echo.echo Echo.echo_eval [65; 98; 51] 1 (Echo.echo_system 3) m /\
    map (@offered_char Echo.echo Echo.echo_eval [65; 98; 51] 1 (Echo.echo_system 3)) (@retired Echo.echo Echo.echo_eval [65; 98; 51] 1 (Echo.echo_system 3) m) = [65; 98; 51].
Proof.
  destruct (@uartrx_handshake Echo.echo Echo.echo_eval [65; 98; 51] 1 40 (Echo.echo_system 3) echo_pins) as (m & Hm & E & _ & _ & _ & Ha & _).
  exists m. split; [exact Hm|]. split; [exact E|]. rewrite Ha, <- E. vm_compute. reflexivity.
Defined.
Example echo_passes : rx_verdict [65; 98; 51] (tx (@rx_loop Echo.echo Echo.echo_eval [65; 98; 51] 1 40 0 (rx_start (Echo.echo_system 3)))) = 0.
Proof. vm_compute. reflexivity. Qed.

(** A text with > cannot pass. *)
Lemma close_tag_never_passes text l : In close_tag text -> rx_verdict text l <> 0.
Proof.
  intros Hin E. apply rx_verdict_pass in E as (_ & l1 & l2 & _ & _ & Hn). apply Hn. rewrite in_app_iff. right. exact Hin.
Qed.
