(* ===== verification/Double.v ===== *)
(** * Binary64 arithmetic, as the profilers use it

    The conversions from [uint64_t], the products and the quotients of
    [sim/rtl/profiler.h] and [profiler_quad.h] are those of IEEE-754 binary64 with
    rounding to nearest even: the operations of the Standard Library's
    [SpecFloat] at precision 53 and exponent limit 1024.

    The lemmas bound the magnitude of a result by powers of two. They are enough
    to show that an expression over 64-bit counters cannot overflow, divide by
    zero or be NaN, whatever the roundings do. *)

From Stdlib Require Import SpecFloat.
From S2P Require Import Prelude.

Definition double := spec_float.
Definition of_u64 (z : Z) : double := binary_normalize 53 1024 z 0 false.
Definition dmul : double -> double -> double := SFmul 53 1024.
Definition ddiv : double -> double -> double := SFdiv 53 1024.

(** Neither NaN nor infinite. *)
Definition is_finite (x : double) : Prop :=
  match x with S754_zero _ | S754_finite _ _ _ => True | _ => False end.

(** [0 <= x < 2 ^ k], and [x >= 1]. *)
Definition below (k : Z) (x : double) : Prop :=
  match x with S754_zero false => True | S754_finite false m e => Zpos (digits2_pos m) + e <= k | _ => False end.
Definition at_least_1 (x : double) : Prop :=
  match x with S754_finite false m e => 1 <= Zpos (digits2_pos m) + e | _ => False end.

Lemma below_finite k x : below k x -> is_finite x.
Proof. destruct x as [|[]| |[]]; cbn; auto. Qed.
Lemma below_le k k' x : below k x -> k <= k' -> below k' x.
Proof. destruct x as [[]|[]| |[] m e]; cbn; auto. intros. lia. Qed.

(** ** Digits *)

Lemma digits2_pos_bounds p : 2 ^ (Zpos (digits2_pos p) - 1) <= Zpos p < 2 ^ Zpos (digits2_pos p).
Proof.
  induction p as [p IH|p IH|]; cbn [digits2_pos]; [| |cbn; lia].
  - rewrite Pos2Z.inj_succ. replace (Z.succ (Zpos (digits2_pos p)) - 1) with (Z.succ (Zpos (digits2_pos p) - 1)) by lia.
    rewrite !Z.pow_succ_r by lia. lia.
  - rewrite Pos2Z.inj_succ. replace (Z.succ (Zpos (digits2_pos p)) - 1) with (Z.succ (Zpos (digits2_pos p) - 1)) by lia.
    rewrite !Z.pow_succ_r by lia. lia.
Qed.

Lemma Zdigits2_bounds n : 0 < n -> 2 ^ (Zdigits2 n - 1) <= n < 2 ^ Zdigits2 n.
Proof. destruct n as [|p|p]; try lia. intros _. apply digits2_pos_bounds. Qed.
Lemma Zdigits2_nonneg n : 0 <= Zdigits2 n.
Proof. destruct n; cbn; lia. Qed.
Lemma Zdigits2_pos n : 0 < n -> 1 <= Zdigits2 n.
Proof. destruct n; cbn; lia. Qed.

(** Digits are bounded by a power of two above, and reach one below. *)
Lemma Zdigits2_lt n k : 0 <= n -> 0 <= k -> n < 2 ^ k -> Zdigits2 n <= k.
Proof.
  intros Hn Hk Hlt. destruct (Z.eq_dec n 0) as [->|]; [cbn; lia|]. destruct (Zdigits2_bounds n ltac:(lia)) as [Hlo _].
  assert (2 ^ (Zdigits2 n - 1) < 2 ^ k) by lia.
  assert (Zdigits2 n - 1 < k); [|lia]. apply (Z.pow_lt_mono_r_iff 2); lia.
Qed.
Lemma Zdigits2_ge n k : 0 < k -> 2 ^ (k - 1) <= n -> k <= Zdigits2 n.
Proof.
  intros Hk Hle. assert (0 < 2 ^ (k - 1)) by (apply Z.pow_pos_nonneg; lia). destruct (Zdigits2_bounds n ltac:(lia)) as [_ Hhi].
  assert (2 ^ (k - 1) < 2 ^ Zdigits2 n) by lia. assert (k - 1 < Zdigits2 n); [|lia].
  apply (Z.pow_lt_mono_r_iff 2); try lia. apply Zdigits2_nonneg.
Qed.
Lemma Zdigits2_mono a b : 0 <= a <= b -> Zdigits2 a <= Zdigits2 b.
Proof.
  intros [Ha Hab]. destruct (Z.eq_dec a 0) as [->|]; [apply Zdigits2_nonneg|].
  apply Zdigits2_ge; [pose proof (Zdigits2_pos a); lia|]. destruct (Zdigits2_bounds a ltac:(lia)). lia.
Qed.
Lemma Zdigits2_succ n : 0 <= n -> Zdigits2 (n + 1) <= Zdigits2 n + 1.
Proof.
  intros Hn. destruct (Z.eq_dec n 0) as [->|]; [vm_compute; discriminate|]. destruct (Zdigits2_bounds n ltac:(lia)) as [_ Hhi].
  apply Zdigits2_lt; [lia|pose proof (Zdigits2_nonneg n); lia|]. rewrite Z.pow_add_r by (pose proof (Zdigits2_nonneg n); lia). change (2 ^ 1) with 2. lia.
Qed.

(** ** Shifting right *)

Lemma iter_pos_spec {A} (f : A -> A) n : forall x, SpecFloat.iter_pos f n x = Nat.iter (Pos.to_nat n) f x.
Proof.
  induction n as [n IH|n IH|]; intros x; cbn [SpecFloat.iter_pos].
  - rewrite !IH, <- Nat.iter_add. rewrite Pos2Nat.inj_xI. replace (S (2 * Pos.to_nat n)) with (Pos.to_nat n + Pos.to_nat n + 1)%nat by lia.
    rewrite (Nat.iter_add (Pos.to_nat n + Pos.to_nat n) 1). reflexivity.
  - rewrite !IH, <- Nat.iter_add, Pos2Nat.inj_xO. f_equal. lia.
  - reflexivity.
Qed.

(** One step drops one digit. *)
Lemma shr_1_digits r : 0 <= shr_m r -> 0 <= shr_m (shr_1 r) /\ Zdigits2 (shr_m (shr_1 r)) = Z.max 0 (Zdigits2 (shr_m r) - 1).
Proof. destruct r as [[|[p|p|]|p] b s]; cbn; intros; try lia; rewrite ?Pos2Z.inj_succ; lia. Qed.

Lemma shr_iter_digits n r : 0 <= shr_m r ->
  0 <= shr_m (Nat.iter n shr_1 r) /\ Zdigits2 (shr_m (Nat.iter n shr_1 r)) = Z.max 0 (Zdigits2 (shr_m r) - Z.of_nat n).
Proof.
  intros Hr. induction n as [|n [IH1 IH2]]; [split; [exact Hr|]; pose proof (Zdigits2_nonneg (shr_m r)); cbn [Nat.iter nat_rect]; lia|].
  rewrite Nat.iter_succ. destruct (shr_1_digits _ IH1) as [J1 J2]. split; [exact J1|]. rewrite J2, IH2. lia.
Qed.

(** A shift by [n] leaves the magnitude, or underflows. *)
Lemma shr_spec r e n : 0 <= shr_m r -> let '(r', e') := shr r e n in
  0 <= shr_m r' /\ e' = e + Z.max 0 n /\ Zdigits2 (shr_m r') = Z.max 0 (Zdigits2 (shr_m r) - Z.max 0 n).
Proof.
  intros Hr. pose proof (Zdigits2_nonneg (shr_m r)). destruct n as [|p|p]; cbn [shr].
  - split; [exact Hr|]. lia.
  - rewrite iter_pos_spec. destruct (shr_iter_digits (Pos.to_nat p) r Hr) as [J1 J2]. split; [exact J1|]. rewrite J2. lia.
  - split; [exact Hr|]. lia.
Qed.

Lemma shr_m_of_loc m l : shr_m (shr_record_of_loc m l) = m.
Proof. destruct l as [|[]]; reflexivity. Qed.

Lemma round_nearest_even_range m l : 0 <= m -> m <= round_nearest_even m l <= m + 1.
Proof. intros Hm. destruct l as [|[]]; cbn; try lia. destruct (Z.even m); lia. Qed.

Lemma shr_fexp_spec m e l : 0 <= m -> let '(r', e') := shr_fexp 53 1024 m e l in
  let n := Z.max 0 (fexp 53 1024 (Zdigits2 m + e) - e) in
  0 <= shr_m r' /\ e' = e + n /\ Zdigits2 (shr_m r') = Z.max 0 (Zdigits2 m - n).
Proof.
  intros Hm. unfold shr_fexp.
  pose proof (shr_spec (shr_record_of_loc m l) e (fexp 53 1024 (Zdigits2 m + e) - e)) as Hs. rewrite shr_m_of_loc in Hs.
  specialize (Hs Hm). destruct (shr _ _ _) as [r' e']. exact Hs.
Qed.

(** Rounding keeps a number below [2 ^ (k + 1)] and at least 1. *)
Lemma binary_round_aux_below m e l k : 0 <= m -> Zdigits2 m + e <= k -> -1073 <= k <= 900 ->
  below (k + 1) (binary_round_aux 53 1024 false m e l) /\
  (0 < m -> 1 <= Zdigits2 m + e -> at_least_1 (binary_round_aux 53 1024 false m e l)).
Proof.
  intros Hm Hk Hr. unfold binary_round_aux. pose proof (shr_fexp_spec m e l Hm) as H1.
  destruct (shr_fexp 53 1024 m e l) as [r1 e1]. destruct H1 as (A1 & A2 & A3).
  set (m1 := round_nearest_even (shr_m r1) (loc_of_shr_record r1)).
  pose proof (round_nearest_even_range (shr_m r1) (loc_of_shr_record r1) A1) as B. fold m1 in B.
  pose proof (shr_fexp_spec m1 e1 loc_Exact ltac:(lia)) as H2. destruct (shr_fexp 53 1024 m1 e1 loc_Exact) as [r2 e2].
  destruct H2 as (C1 & C2 & C3).
  pose proof (Zdigits2_succ (shr_m r1) A1). pose proof (Zdigits2_mono m1 (shr_m r1 + 1) ltac:(lia)).
  pose proof (Zdigits2_mono (shr_m r1) m1 ltac:(lia)). pose proof (Zdigits2_nonneg m). pose proof (Zdigits2_nonneg m1).
  unfold fexp, emin in *.
  destruct (shr_m r2) as [|p|p] eqn:E; [| |lia].
  - cbn in C3. split; [exact I|]. intros Hp%Zdigits2_pos Hl. exfalso. lia.
  - cbn [Zdigits2] in C3. destruct (Z.leb_spec e2 (1024 - 53)); [|lia]. cbn [below at_least_1]. lia.
Qed.

(** ** The operations *)

Lemma of_u64_bounds z : 0 <= z < 2 ^ 64 -> below 65 (of_u64 z) /\ (1 <= z -> at_least_1 (of_u64 z)).
Proof.
  intros Hz. unfold of_u64, binary_normalize. destruct z as [|p|p]; [split; [exact I|lia]| |lia].
  unfold binary_round. pose proof (Zdigits2_lt (Zpos p) 64 ltac:(lia) ltac:(lia) ltac:(lia)) as Hd. cbn [Zdigits2] in Hd.
  set (d := Zpos (digits2_pos p)) in *. unfold shl_align.
  set (x := fexp 53 1024 (d + 0)). assert (Ex : x = Z.max (d + 0 - 53) (-1074)) by reflexivity. clearbody x.
  assert (Hshift : forall n, Zdigits2 (Zpos (Pos.iter xO p n)) = d + Zpos n).
  { intros n. unfold d. induction n using Pos.peano_ind; [cbn; lia|]. rewrite Pos.iter_succ. cbn [Zdigits2 digits2_pos] in *. lia. }
  destruct (x - 0) as [|q|q] eqn:E.
  - destruct (binary_round_aux_below (Zpos p) 0 loc_Exact 64) as [B1 B2]; [lia|cbn [Zdigits2]; fold d; lia|lia|].
    split; [exact B1|]. intros _. apply B2; [lia|]. cbn [Zdigits2]. fold d. unfold d. lia.
  - destruct (binary_round_aux_below (Zpos p) 0 loc_Exact 64) as [B1 B2]; [lia|cbn [Zdigits2]; fold d; lia|lia|].
    split; [exact B1|]. intros _. apply B2; [lia|]. cbn [Zdigits2]. fold d. unfold d. lia.
  - pose proof (Hshift q) as Hs. set (m := Pos.iter xO p q) in *.
    destruct (binary_round_aux_below (Zpos m) x loc_Exact 64) as [B1 B2]; [lia|lia|lia|].
    split; [exact B1|]. intros _. apply B2; [lia|]. unfold d in *. lia.
Qed.

Lemma dmul_below x y k l : below k x -> below l y -> -1073 <= k + l <= 900 -> below (k + l + 1) (dmul x y).
Proof.
  unfold dmul. destruct x as [[]|[]| |[] m e], y as [[]|[]| |[] m' e']; cbn [below SFmul xorb]; try contradiction; auto.
  intros Hx Hy Hk. apply binary_round_aux_below; [lia| |exact Hk].
  assert (Zdigits2 (Zpos (m * m')) <= Zpos (digits2_pos m) + Zpos (digits2_pos m')); [|lia].
  destruct (digits2_pos_bounds m) as [_ H1], (digits2_pos_bounds m') as [_ H2].
  apply Zdigits2_lt; [lia|lia|]. rewrite Z.pow_add_r by lia. rewrite Pos2Z.inj_mul. nia.
Qed.

Lemma ddiv_below x y k : below k x -> at_least_1 y -> 0 <= k <= 900 -> below (k + 1) (ddiv x y).
Proof.
  unfold ddiv. destruct x as [[]|[]| |[] m e], y as [[]|[]| |[] m' e']; cbn [below at_least_1 SFdiv xorb]; try contradiction; auto.
  intros Hx Hy Hk. unfold SFdiv_core_binary.
  set (d1 := Zdigits2 (Zpos m)). set (d2 := Zdigits2 (Zpos m')).
  set (e1 := Z.min (fexp 53 1024 (d1 + e - (d2 + e'))) (e - e')). set (s := e - e' - e1).
  set (m1 := match s with Zpos _ => Z.shiftl (Zpos m) s | Z0 => Zpos m | Zneg _ => 0 end).
  assert (Hs : 0 <= s) by (unfold s, e1; lia).
  assert (Hd1 : 1 <= d1) by (apply Zdigits2_pos; lia). assert (Hd2 : 1 <= d2) by (apply Zdigits2_pos; lia).
  assert (Hm1 : m1 = Zpos m * 2 ^ s).
  { unfold m1. destruct s as [|p|p]; [rewrite Z.mul_1_r; reflexivity|apply Z.shiftl_mul_pow2; lia|lia]. }
  destruct (Z.div_eucl m1 (Zpos m')) as [q r] eqn:E. pose proof (Z.div_eucl_eq m1 (Zpos m') ltac:(lia)) as Eq. rewrite E in Eq.
  assert (Er : 0 <= r < Zpos m') by (pose proof (Z.mod_pos_bound m1 (Zpos m') ltac:(lia)) as Hr; unfold Z.modulo in Hr; rewrite E in Hr; exact Hr).
  destruct (digits2_pos_bounds m) as [_ H1], (digits2_pos_bounds m') as [H2 _].
  assert (Hp : 0 < 2 ^ s) by (apply Z.pow_pos_nonneg; lia).
  assert (Hm0 : 0 <= m1) by (rewrite Hm1; nia).
  assert (Hq : 0 <= q) by nia.
  assert (Hd : Zdigits2 q <= Z.max 0 (d1 + s - d2 + 1)).
  { apply Zdigits2_lt; [exact Hq|lia|]. 
    assert (Hlt : q * 2 ^ (d2 - 1) < 2 ^ (d1 + s)).
    { rewrite Z.pow_add_r by lia. apply Z.le_lt_trans with (q * Zpos m'); [unfold d2; cbn [Zdigits2]; nia|].
      apply Z.le_lt_trans with (Zpos m * 2 ^ s); [lia|]. unfold d1; cbn [Zdigits2]. nia. }
    destruct (Z.le_gt_cases 0 (d1 + s - d2 + 1)).
    - rewrite Z.max_r by lia. apply Z.mul_lt_mono_pos_r with (2 ^ (d2 - 1)); [apply Z.pow_pos_nonneg; lia|].
      rewrite <- Z.pow_add_r by lia. replace (d1 + s - d2 + 1 + (d2 - 1)) with (d1 + s) by lia. exact Hlt.
    - rewrite Z.max_l by lia. cbn. assert (2 ^ (d1 + s) <= 2 ^ (d2 - 1)) by (apply Z.pow_le_mono_r; lia). nia. }
  apply binary_round_aux_below; [exact Hq| |lia].
  assert (Hse : s = e - e' - e1) by reflexivity.
  assert (He1 : e1 <= Z.max (d1 + e - (d2 + e') - 53) (-1074)) by (unfold e1, fexp, emin; lia).
  change (d1 + e <= k) in Hx. change (1 <= d2 + e') in Hy. clearbody m1 s e1 d1 d2. lia.
Qed.
