(* ===== verification/Profile.v ===== *)
(** * The profilers: [sim/rtl/profiler.h] and [sim/rtl/profiler_quad.h]

    Both read the performance counters of the core ([perfCountersOut<n>_<k>])
    and derive rates from them in double arithmetic ([Double]). [ProfilerQuad] also splits
    the commits of each hart into blocks of 64, and keeps the counters as they
    stood at the end of the last block that does not look like a spin loop.

    The theorems show what the block classifier computes for any run, that no
    derived metric is ever NaN or infinite, and that the two profilers agree. *)

From S2P Require Import Prelude Double Rtl.

(** ** Counters *)

Definition safe_max1 (v : Z) : Z := if 0 <? v then v else 1.

Section Counters.
Context `{Verilated}.

(** [Profiler::get_perf_counter]: core 0. *)
Definition get_perf_counter (tb : Vsystem) (id : Z) : Z :=
  if (0 <=? id) && (id <=? 40) then perfCountersOut (core0 tb) id else 0.

(** [ProfilerQuad::get_core_counter]: slots 27 and 28 are not read. *)
Definition get_core_counter (tb : Vsystem) (c id : Z) : Z :=
  if (0 <=? c) && (c <=? 3)
  then if ((0 <=? id) && (id <=? 26)) || ((29 <=? id) && (id <=? 40)) then perfCountersOut (core tb c) id else 0
  else 0.
Definition read_counters (tb : Vsystem) (c : Z) : list Z := map (fun k => get_core_counter tb c (Z.of_nat k)) (seq 0 41).
End Counters.

(** ** [PerfMetrics] *)

Record PerfMetrics := {
  m_cycles : Z; inst_retired : Z; branch_total : Z; branches_passed : Z; scheduler_stalls : Z; rob_stalls : Z;
  decode_ready : Z; decode_fired : Z; icache_stalls : Z; dcache_reqs : Z; dcache_miss : Z; dcache_rd_beats : Z;
  dcache_wr_beats : Z; icache_miss : Z; icache_rd_beats : Z; l2_to_mem_rd_reqs : Z; l2_to_mem_rd_beats : Z;
  l2_to_mem_wr_beats : Z; fe_fetch_not_ready : Z; fe_decode_not_ready : Z; fe_expected_block : Z;
  fe_resp_valid_idle : Z; fe_cache_not_prod : Z; fe_req_fire : Z; fe_req_refused : Z;
  ds_prf_exhausted : Z; ds_branch_mask_full : Z; ds_rename_collide : Z;
  flush_branch : Z; flush_coherent : Z; retired_branch : Z;
  rob_head_not_ready : Z; rob_ready_blocked : Z; hnr_load : Z; hnr_branch : Z; hnr_mext : Z; hnr_amo : Z; hnr_other : Z;
  rnr_store_gate : Z; rnr_wb_gate : Z; rnr_load_gate : Z;
  ipc : double; ip_per_sec : double; branch_accuracy_pct : double; icache_miss_rate_pct : double;
  dcache_miss_rate_pct : double; l1d_read_bw_bytes_per_cycle : double; l1d_write_bw_bytes_per_cycle : double;
  l1i_read_bw_bytes_per_cycle : double; dram_read_bw_MB_per_sec : double; dram_write_bw_MB_per_sec : double;
  scheduler_stall_pct : double; rob_stall_pct : double; decode_efficiency_pct : double;
  dcache_mem_reqs_per_million_cycles : double }.

(** [100.0 * (double)a / (double)b], [(double)a * bytes_per_beat / (double)b] *)
Definition pct (a b : Z) : double := ddiv (dmul (of_u64 100) (of_u64 a)) (of_u64 b).
Definition beats_per (a b : Z) : double := ddiv (dmul (of_u64 a) (of_u64 8)) (of_u64 b).
Definition clock_hz : double := of_u64 75000000.
Definition million : double := of_u64 1000000.

(** [ProfilerQuad::metrics_from]: [r] is a snapshot of the counters. *)
Definition metrics_from (r : list Z) : PerfMetrics :=
  let r k := default 0 (r !! k) in
  let sc := safe_max1 (r 0%nat) in
  let sdr := safe_max1 (r 6%nat) in
  let sbt := safe_max1 (r 2%nat) in
  let sdq := safe_max1 (r 9%nat) in
  let ipc_ := ddiv (of_u64 (r 1%nat)) (of_u64 sc) in
  {| m_cycles := r 0%nat; inst_retired := r 1%nat; branch_total := r 2%nat; branches_passed := r 3%nat;
     scheduler_stalls := r 4%nat; rob_stalls := r 5%nat; decode_ready := r 6%nat; decode_fired := r 7%nat;
     icache_stalls := r 8%nat; dcache_reqs := r 9%nat; dcache_miss := r 10%nat; dcache_rd_beats := r 11%nat;
     dcache_wr_beats := r 12%nat; icache_miss := r 13%nat; icache_rd_beats := r 14%nat;
     l2_to_mem_rd_reqs := r 15%nat; l2_to_mem_rd_beats := r 16%nat; l2_to_mem_wr_beats := r 17%nat;
     fe_fetch_not_ready := r 18%nat; fe_decode_not_ready := r 19%nat; fe_expected_block := r 20%nat;
     fe_resp_valid_idle := 0; fe_cache_not_prod := 0; fe_req_fire := 0; fe_req_refused := 0;
     ds_prf_exhausted := r 21%nat; ds_branch_mask_full := r 22%nat; ds_rename_collide := r 23%nat;
     flush_branch := r 24%nat; flush_coherent := r 25%nat; retired_branch := r 26%nat;
     rob_head_not_ready := r 29%nat; rob_ready_blocked := r 30%nat; hnr_load := r 31%nat; hnr_branch := r 32%nat;
     hnr_mext := r 33%nat; hnr_amo := r 34%nat; hnr_other := r 35%nat;
     rnr_store_gate := r 36%nat; rnr_wb_gate := r 37%nat; rnr_load_gate := r 38%nat;
     ipc := ipc_;
     ip_per_sec := dmul ipc_ clock_hz;
     branch_accuracy_pct := pct (r 3%nat) sbt;
     icache_miss_rate_pct := pct (r 13%nat) sdr;
     dcache_miss_rate_pct := pct (r 10%nat) sdq;
     l1d_read_bw_bytes_per_cycle := beats_per (r 11%nat) sc;
     l1d_write_bw_bytes_per_cycle := beats_per (r 12%nat) sc;
     l1i_read_bw_bytes_per_cycle := beats_per (r 14%nat) sc;
     dram_read_bw_MB_per_sec := ddiv (dmul (beats_per (r 16%nat) sc) clock_hz) million;
     dram_write_bw_MB_per_sec := ddiv (dmul (beats_per (r 17%nat) sc) clock_hz) million;
     scheduler_stall_pct := pct (r 4%nat) sdr;
     rob_stall_pct := pct (r 5%nat) sdr;
     decode_efficiency_pct := pct (r 7%nat) sdr;
     dcache_mem_reqs_per_million_cycles := dmul (ddiv (of_u64 (r 9%nat)) (of_u64 sc)) million |}.

(** [Profiler::compute_metrics] *)
Definition compute_metrics `{Verilated} (tb : Vsystem) : PerfMetrics :=
  let r := get_perf_counter tb in
  let safe_cycles := safe_max1 (r 0) in
  let safe_decode_ready := safe_max1 (r 6) in
  let safe_branch_total := safe_max1 (r 2) in
  let safe_dcache_reqs := safe_max1 (r 9) in
  let ipc_ := ddiv (of_u64 (r 1)) (of_u64 safe_cycles) in
  {| m_cycles := r 0; inst_retired := r 1; branch_total := r 2; branches_passed := r 3;
     scheduler_stalls := r 4; rob_stalls := r 5; decode_ready := r 6; decode_fired := r 7;
     icache_stalls := r 8; dcache_reqs := r 9; dcache_miss := r 10; dcache_rd_beats := r 11;
     dcache_wr_beats := r 12; icache_miss := r 13; icache_rd_beats := r 14;
     l2_to_mem_rd_reqs := r 15; l2_to_mem_rd_beats := r 16; l2_to_mem_wr_beats := r 17;
     fe_fetch_not_ready := r 18; fe_decode_not_ready := r 19; fe_expected_block := r 20;
     fe_resp_valid_idle := 0; fe_cache_not_prod := 0; fe_req_fire := 0; fe_req_refused := 0;
     ds_prf_exhausted := r 21; ds_branch_mask_full := r 22; ds_rename_collide := r 23;
     flush_branch := r 24; flush_coherent := r 25; retired_branch := r 26;
     rob_head_not_ready := r 29; rob_ready_blocked := r 30; hnr_load := r 31; hnr_branch := r 32;
     hnr_mext := r 33; hnr_amo := r 34; hnr_other := r 35;
     rnr_store_gate := r 36; rnr_wb_gate := r 37; rnr_load_gate := r 38;
     ipc := ipc_;
     ip_per_sec := dmul ipc_ clock_hz;
     branch_accuracy_pct := pct (r 3) safe_branch_total;
     icache_miss_rate_pct := pct (r 13) safe_decode_ready;
     dcache_miss_rate_pct := pct (r 10) safe_dcache_reqs;
     l1d_read_bw_bytes_per_cycle := beats_per (r 11) safe_cycles;
     l1d_write_bw_bytes_per_cycle := beats_per (r 12) safe_cycles;
     l1i_read_bw_bytes_per_cycle := beats_per (r 14) safe_cycles;
     dram_read_bw_MB_per_sec := ddiv (dmul (beats_per (r 16) safe_cycles) clock_hz) million;
     dram_write_bw_MB_per_sec := ddiv (dmul (beats_per (r 17) safe_cycles) clock_hz) million;
     scheduler_stall_pct := pct (r 4) safe_decode_ready;
     rob_stall_pct := pct (r 5) safe_decode_ready;
     decode_efficiency_pct := pct (r 7) safe_decode_ready;
     dcache_mem_reqs_per_million_cycles := dmul (ddiv (of_u64 (r 9)) (of_u64 safe_cycles)) million |}.

Definition compute_core_metrics `{Verilated} (tb : Vsystem) (c : Z) : PerfMetrics := metrics_from (read_counters tb c).

(** The two profilers report the same metrics for core 0. *)
Lemma profilers_agree `{Verilated} tb : compute_core_metrics tb 0 = compute_metrics tb.
Proof. reflexivity. Qed.

(** *** No metric is NaN or infinite *)

Definition derived (m : PerfMetrics) : list double :=
  [ipc m; ip_per_sec m; branch_accuracy_pct m; icache_miss_rate_pct m; dcache_miss_rate_pct m; l1d_read_bw_bytes_per_cycle m;
   l1d_write_bw_bytes_per_cycle m; l1i_read_bw_bytes_per_cycle m; dram_read_bw_MB_per_sec m; dram_write_bw_MB_per_sec m;
   scheduler_stall_pct m; rob_stall_pct m; decode_efficiency_pct m; dcache_mem_reqs_per_million_cycles m].

Lemma safe_max1_range v : is_u64 v -> is_u64 (safe_max1 v) /\ 1 <= safe_max1 v.
Proof. unfold is_u64, safe_max1. intros Hv. destruct (Z.ltb_spec 0 v); lia. Qed.

Lemma quotient_below x v k : below k x -> is_u64 v -> 0 <= k <= 900 -> below (k + 1) (ddiv x (of_u64 (safe_max1 v))).
Proof.
  intros Hx Hv Hk. destruct (safe_max1_range v Hv) as [H1 H2]. apply ddiv_below; [exact Hx| |exact Hk]. apply of_u64_bounds; assumption.
Qed.
Lemma product_below x z k : below k x -> is_u64 z -> 0 <= k <= 800 -> below (k + 66) (dmul x (of_u64 z)).
Proof.
  intros Hx Hz Hk. replace (k + 66) with (k + 65 + 1) by lia. apply dmul_below; [exact Hx| |lia]. apply of_u64_bounds, Hz.
Qed.
Lemma pct_below a v : is_u64 a -> is_u64 v -> below 132 (pct a (safe_max1 v)).
Proof.
  intros Ha Hv. apply (quotient_below _ v 131); [|exact Hv|lia]. apply (product_below _ a 65); [|exact Ha|lia]. apply of_u64_bounds. lia.
Qed.
Lemma beats_per_below a v : is_u64 a -> is_u64 v -> below 132 (beats_per a (safe_max1 v)).
Proof.
  intros Ha Hv. apply (quotient_below _ v 131); [|exact Hv|lia]. apply (product_below _ 8 65); [|unfold is_u64; lia|lia].
  apply of_u64_bounds, Ha.
Qed.
Lemma ratio_below a v : is_u64 a -> is_u64 v -> below 66 (ddiv (of_u64 a) (of_u64 (safe_max1 v))).
Proof. intros Ha Hv. apply (quotient_below _ v 65); [|exact Hv|lia]. apply of_u64_bounds, Ha. Qed.
Lemma dram_bw_below a v : is_u64 a -> is_u64 v -> below 199 (ddiv (dmul (beats_per a (safe_max1 v)) clock_hz) million).
Proof.
  intros Ha Hv. apply (ddiv_below _ _ 198); [| |lia]; [|apply of_u64_bounds; lia].
  apply (product_below _ 75000000 132); [apply beats_per_below; assumption|unfold is_u64; lia|lia].
Qed.

(** Whatever 64-bit values the counters have, zeros included, no derived metric
    is NaN or infinite. *)
Lemma metrics_finite r : Forall is_u64 r -> Forall is_finite (derived (metrics_from r)).
Proof.
  intros Hr. assert (Hk : forall k, is_u64 (default 0 (r !! k))).
  { intros k. destruct (r !! k) as [v|] eqn:E; [|unfold is_u64; cbn; lia]. exact (Forall_lookup_1 _ _ _ _ Hr E). }
  assert (Hpct : forall i j, is_finite (pct (default 0 (r !! i)) (safe_max1 (default 0 (r !! j)))))
    by (intros; eapply below_finite; apply pct_below; apply Hk).
  assert (Hbeats : forall i, is_finite (beats_per (default 0 (r !! i)) (safe_max1 (default 0 (r !! 0%nat)))))
    by (intros; eapply below_finite; apply beats_per_below; apply Hk).
  assert (Hbw : forall i, is_finite (ddiv (dmul (beats_per (default 0 (r !! i)) (safe_max1 (default 0 (r !! 0%nat)))) clock_hz) million))
    by (intros; eapply below_finite; apply dram_bw_below; apply Hk).
  assert (Hratio : forall i, below 66 (ddiv (of_u64 (default 0 (r !! i))) (of_u64 (safe_max1 (default 0 (r !! 0%nat))))))
    by (intros; apply ratio_below; apply Hk).
  assert (Hscaled : forall i z, is_u64 z -> is_finite (dmul (ddiv (of_u64 (default 0 (r !! i))) (of_u64 (safe_max1 (default 0 (r !! 0%nat))))) (of_u64 z)))
    by (intros i z Hz; eapply below_finite; apply (product_below _ _ 66); [apply Hratio|exact Hz|lia]).
  repeat apply List.Forall_cons; [exact (below_finite _ _ (Hratio 1%nat))|exact (Hscaled 1%nat 75000000 ltac:(unfold is_u64; lia))
    |apply Hpct|apply Hpct|apply Hpct|apply Hbeats|apply Hbeats|apply Hbeats|apply Hbw|apply Hbw|apply Hpct|apply Hpct|apply Hpct
    |exact (Hscaled 9%nat 1000000 ltac:(unfold is_u64; lia))|apply List.Forall_nil].
Qed.

Definition zero_counters : list Z := replicate 41 0.

(** ** Blocks of commits *)

Definition BLOCK_COMMITS : Z := 64.
Definition WORK_SPAN_BYTES : Z := 16.

Record WorkWin := {
  blk_lo : Z; blk_hi : Z; blk_n : Z; commits : Z; spin_commits : Z; spin_lo : Z; spin_hi : Z;
  work_cycle : Z; snap : list Z; have_snap : bool }.
Definition WorkWin_init : WorkWin :=
  {| blk_lo := u64 (-1); blk_hi := 0; blk_n := 0; commits := 0; spin_commits := 0; spin_lo := u64 (-1); spin_hi := 0;
     work_cycle := 0; snap := replicate 41 0; have_snap := false |}.

(** A commit at [pc] extends the block under way. *)
Definition note_pc (pc : Z) (w : WorkWin) : WorkWin :=
  let w := { w with commits := u64 (commits w + 1) } in
  let w := if pc <? blk_lo w then { w with blk_lo := pc } else w in
  let w := if blk_hi w <? pc then { w with blk_hi := pc } else w in
  { w with blk_n := blk_n w + 1 }.
(** The end of a block: a snapshot after real code, a count after a spin loop. *)
Definition close_block (cycle : Z) (counters : list Z) (w : WorkWin) : WorkWin :=
  let w :=
    if WORK_SPAN_BYTES <? u64 (blk_hi w - blk_lo w)
    then { { { w with work_cycle := cycle } with snap := counters } with have_snap := true }
    else
      let w := { w with spin_commits := u64 (spin_commits w + BLOCK_COMMITS) } in
      let w := if blk_lo w <? spin_lo w then { w with spin_lo := blk_lo w } else w in
      if spin_hi w <? blk_hi w then { w with spin_hi := blk_hi w } else w in
  { { { w with blk_lo := u64 (-1) } with blk_hi := 0 } with blk_n := 0 }.
Definition sample_commit (cycle pc : Z) (counters : list Z) (w : WorkWin) : WorkWin :=
  let w := note_pc pc w in
  if blk_n w <? BLOCK_COMMITS then w else close_block cycle counters w.

Section Sample.
Context `{Verilated}.

(** One hart of [ProfilerQuad::sample], and the whole of it. *)
Definition sample_hart (tb : Vsystem) (cycle : Z) (win : list WorkWin) (h : nat) : list WorkWin :=
  let c := core tb (Z.of_nat h) in
  if u8 (commitFired c) =? 0 then win
  else match win !! h with
       | Some w => <[h := sample_commit cycle (pc c) (read_counters tb (Z.of_nat h)) w]> win
       | None => win
       end.
Definition sample (tb : Vsystem) (cycle : Z) (win : list WorkWin) : list WorkWin := fold_left (sample_hart tb cycle) harts4 win.

Definition win_init : list WorkWin := replicate 4 WorkWin_init.

Definition spin_commit_pct (w : WorkWin) : double := pct (spin_commits w) (safe_max1 (commits w)).
Definition compute_core_metrics_work (tb : Vsystem) (win : list WorkWin) (c : nat) : PerfMetrics :=
  match win !! c with
  | Some w => if have_snap w then metrics_from (snap w) else compute_core_metrics tb (Z.of_nat c)
  | None => compute_core_metrics tb (Z.of_nat c)
  end.
End Sample.

(** ** What the block classifier computes *)

(** A commit: the cycle, the PC, the counters of the hart after it. *)
Record commit := mkcommit { at_cycle : Z; at_pc : Z; counters_then : list Z }.
Definition feed_commits (l : list commit) (w : WorkWin) : WorkWin :=
  fold_left (fun w c => sample_commit (at_cycle c) (at_pc c) (counters_then c) w) l w.

Definition lowest (l : list commit) : Z := fold_right Z.min (u64 (-1)) (map at_pc l).
Definition highest (l : list commit) : Z := fold_right Z.max 0 (map at_pc l).
(** Real code spans more than four instructions. *)
Definition wide (b : list commit) : bool := WORK_SPAN_BYTES <? highest b - lowest b.
Definition pcs_ok (l : list commit) : Prop := Forall (fun c => is_u64 (at_pc c)) l.

Lemma lowest_snoc l c : lowest (l ++ [c]) = Z.min (lowest l) (Z.min (at_pc c) (u64 (-1))).
Proof. unfold lowest. induction l as [|x l IH]; cbn [app map fold_right] in *; lia. Qed.
Lemma highest_snoc l c : highest (l ++ [c]) = Z.max (highest l) (Z.max (at_pc c) 0).
Proof. unfold highest. induction l as [|x l IH]; cbn [app map fold_right] in *; lia. Qed.
Lemma highest_range l : pcs_ok l -> is_u64 (highest l).
Proof. unfold highest. induction 1 as [|c l Hc _ IH]; cbn [map fold_right]; unfold is_u64 in *; lia. Qed.
Lemma lowest_range l : pcs_ok l -> 0 <= lowest l /\ (l <> [] -> lowest l <= highest l).
Proof.
  unfold lowest, highest. change (u64 (-1)) with (2 ^ 64 - 1).
  induction 1 as [|c l Hc _ IH]; cbn [map fold_right]; unfold is_u64 in *; [split; [lia|intros Hne; destruct Hne; reflexivity]|]. split; [lia|]. intros _. lia.
Qed.

(** A block under way, and what closing one does to the rest of the window. *)
Definition partial (w : WorkWin) (l : list commit) : WorkWin :=
  {| blk_lo := lowest l; blk_hi := highest l; blk_n := Z.of_nat (length l); commits := u64 (commits w + Z.of_nat (length l));
     spin_commits := spin_commits w; spin_lo := spin_lo w; spin_hi := spin_hi w;
     work_cycle := work_cycle w; snap := snap w; have_snap := have_snap w |}.
Definition closed (w : WorkWin) (b : list commit) : WorkWin :=
  {| blk_lo := u64 (-1); blk_hi := 0; blk_n := 0; commits := u64 (commits w + BLOCK_COMMITS);
     spin_commits := if wide b then spin_commits w else u64 (spin_commits w + BLOCK_COMMITS);
     spin_lo := if wide b then spin_lo w else Z.min (lowest b) (spin_lo w);
     spin_hi := if wide b then spin_hi w else Z.max (highest b) (spin_hi w);
     work_cycle := if wide b then match last b with Some c => (at_cycle c) | None => work_cycle w end else work_cycle w;
     snap := if wide b then match last b with Some c => (counters_then c) | None => snap w end else snap w;
     have_snap := if wide b then true else have_snap w |}.

Definition idle_win (w : WorkWin) : Prop := blk_lo w = u64 (-1) /\ blk_hi w = 0 /\ blk_n w = 0 /\ is_u64 (commits w).

Lemma feed_snoc l c w : feed_commits (l ++ [c]) w = sample_commit (at_cycle c) (at_pc c) (counters_then c) (feed_commits l w).
Proof. unfold feed_commits. rewrite fold_left_app. reflexivity. Qed.

Lemma note_pc_partial p w l c : (at_pc c) = p -> is_u64 p -> note_pc p (partial w l) = partial w (l ++ [c]).
Proof.
  unfold is_u64. intros Hc Hp. unfold note_pc, partial. rewrite lowest_snoc, highest_snoc, length_app, Hc. cbn.
  change (u64 (-1)) with (2 ^ 64 - 1).
  destruct (p <? lowest l) eqn:E1; cbn; destruct (highest l <? p) eqn:E2; cbn; rewrite u64_add_l; f_equal; try lia; f_equal; lia.
Qed.

Lemma close_partial w b c l : b = l ++ [c] -> Z.of_nat (length b) = BLOCK_COMMITS -> pcs_ok b ->
  close_block (at_cycle c) (counters_then c) (partial w b) = closed w b.
Proof.
  intros Hb Hn Hp. destruct (lowest_range b Hp) as [Hlo Hle]. specialize (Hle ltac:(intros ->; destruct l; discriminate)).
  pose proof (highest_range b Hp) as Hhi. unfold is_u64 in Hhi.
  assert (Hl : last b = Some c) by (rewrite Hb; apply last_snoc).
  unfold close_block, closed, wide. rewrite Hl. unfold partial at 1 2. cbn. rewrite (u64_id (highest b - lowest b)) by (unfold is_u64; lia). rewrite Hn.
  destruct (WORK_SPAN_BYTES <? highest b - lowest b); cbn; [reflexivity|].
  destruct (lowest b <? spin_lo w) eqn:E1; cbn; destruct (spin_hi w <? highest b) eqn:E2; cbn; f_equal; lia.
Qed.

Lemma partial_nil w : idle_win w -> partial w [] = w.
Proof.
  intros (H1 & H2 & H3 & H4). unfold partial. cbn [length]. rewrite Z.add_0_r, (u64_id (commits w) H4).
  destruct w; cbn in *; subst; reflexivity.
Qed.

Lemma feed_partial w l : idle_win w -> pcs_ok l -> Z.of_nat (length l) < BLOCK_COMMITS -> feed_commits l w = partial w l.
Proof.
  intros Hw. induction l as [|c l IH] using rev_ind; intros Hp Hn; [symmetry; apply partial_nil, Hw|].
  apply Forall_app in Hp as [Hp Hc]. apply Forall_cons in Hc as [Hc _]. rewrite length_app in Hn. cbn [length] in Hn.
  rewrite feed_snoc, IH by (assumption || lia). unfold sample_commit; cbv zeta. rewrite (note_pc_partial (at_pc c) w l c eq_refl Hc).
  replace (blk_n (partial w (l ++ [c])) <? BLOCK_COMMITS) with true; [reflexivity|].
  symmetry. apply Z.ltb_lt. cbn [partial blk_n]. rewrite length_app. cbn [length]. lia.
Qed.

Lemma feed_block w b : idle_win w -> pcs_ok b -> Z.of_nat (length b) = BLOCK_COMMITS -> feed_commits b w = closed w b.
Proof.
  intros Hw Hp Hn. destruct b as [|c l _] using rev_ind; [discriminate Hn|]. pose proof Hp as Hp'.
  apply Forall_app in Hp' as [Hpl Hc]. apply Forall_cons in Hc as [Hc _]. pose proof Hn as Hn'. rewrite length_app in Hn'. cbn [length] in Hn'.
  rewrite feed_snoc, feed_partial by (assumption || lia). unfold sample_commit; cbv zeta. rewrite (note_pc_partial (at_pc c) w l c eq_refl Hc).
  replace (blk_n (partial w (l ++ [c])) <? BLOCK_COMMITS) with false by (symmetry; apply Z.ltb_ge; cbn [partial blk_n]; lia).
  exact (close_partial w _ c l eq_refl Hn Hp).
Qed.

Definition full (b : list commit) : Prop := Z.of_nat (length b) = BLOCK_COMMITS /\ pcs_ok b.

Lemma feed_blocks bs : forall w, idle_win w -> Forall full bs ->
  feed_commits (concat bs) w = fold_left closed bs w /\ idle_win (fold_left closed bs w).
Proof.
  induction bs as [|b bs IH]; intros w Hw Hb; [split; [reflexivity|exact Hw]|].
  apply Forall_cons in Hb as [[Hn Hp] Hb]. cbn [concat fold_left].
  assert (Hc : idle_win (closed w b)) by (repeat split; apply u64_range).
  destruct (IH _ Hc Hb) as [E I]. split; [|exact I]. rewrite <- E, <- (feed_block w b Hw Hp Hn).
  unfold feed_commits. apply fold_left_app.
Qed.

(** What a list of blocks leaves in the window. *)
Definition narrow (b : list commit) : bool := negb (wide b).
Definition last_work (bs : list (list commit)) : option commit := last (List.filter wide bs) ≫= last.

Lemma closed_blocks bs : forall w, Forall full bs -> let w' := fold_left closed bs w in
  is_u64 (commits w) -> is_u64 (spin_commits w) ->
  commits w' = u64 (commits w + BLOCK_COMMITS * Z.of_nat (length bs)) /\
  spin_commits w' = u64 (spin_commits w + BLOCK_COMMITS * Z.of_nat (length (List.filter narrow bs))) /\
  spin_lo w' = fold_left Z.min (map lowest (List.filter narrow bs)) (spin_lo w) /\
  spin_hi w' = fold_left Z.max (map highest (List.filter narrow bs)) (spin_hi w) /\
  match last_work bs with
  | Some c => have_snap w' = true /\ work_cycle w' = at_cycle c /\ snap w' = counters_then c
  | None => have_snap w' = have_snap w /\ work_cycle w' = work_cycle w /\ snap w' = snap w
  end.
Proof.
  induction bs as [|b bs IH]; intros w Hb w' Hc Hs; subst w'; cbn [fold_left length List.filter map].
  - rewrite !Z.mul_0_r, !Z.add_0_r, !u64_id by assumption. repeat split.
  - apply Forall_cons in Hb as [[Hn Hp] Hb].
    destruct (IH (closed w b) Hb) as (I1 & I2 & I3 & I4 & I5); [apply u64_range| |].
    { cbn [closed spin_commits]. destruct (wide b); [exact Hs|apply u64_range]. }
    rewrite I1, I2, I3, I4. cbn [closed commits spin_commits spin_lo spin_hi]. change (narrow b) with (negb (wide b)).
    split; [rewrite u64_add_l; f_equal; lia|].
    assert (Hlast : last_work (b :: bs) = match last_work bs with Some c => Some c | None => if wide b then last b else None end).
    { unfold last_work. cbn [List.filter]. destruct (wide b); [|destruct (_ ≫= _); reflexivity].
      destruct (List.filter wide bs) as [|b' l] eqn:El; [reflexivity|].
      change (last (b :: b' :: l)) with (last (b' :: l)). destruct (last (b' :: l)) as [x|] eqn:Ex; [|apply last_None in Ex; discriminate].
      cbn [mbind option_bind]. destruct (last x) as [c|] eqn:Ec; [reflexivity|]. exfalso. apply last_None in Ec. subst x.
      assert (Hin : In [] (List.filter wide bs)) by (rewrite El; apply last_Some in Ex as [m ->]; apply in_app_iff; right; left; reflexivity).
      apply filter_In in Hin as [Hin _]. rewrite List.Forall_forall in Hb. destruct (Hb _ Hin) as [Hlen _]. discriminate Hlen. }
    rewrite Hlast. destruct (wide b) eqn:Ew; cbn [negb map fold_left length].
    + split; [reflexivity|]. split; [reflexivity|]. split; [reflexivity|]. destruct (last_work bs) as [c|]; [exact I5|].
      destruct I5 as (J1 & J2 & J3). cbn [closed have_snap work_cycle snap] in J1, J2, J3. rewrite Ew in J1, J2, J3.
      destruct (last b) as [c|] eqn:El; [repeat split; assumption|]. apply last_None in El. subst b. discriminate Hn.
    + split; [rewrite u64_add_l; f_equal; lia|]. split; [f_equal; lia|]. split; [f_equal; lia|]. destruct (last_work bs) as [c|]; [exact I5|].
      cbn [closed have_snap work_cycle snap] in I5. rewrite Ew in I5. exact I5.
Qed.

(** *** The samples of a run *)

Section Trace.
Context `{Verilated}.

(** The commits of hart [h] in a run, one sample per cycle. *)
Definition commits_of (h : nat) (trace : list (Z * Vsystem)) : list commit :=
  flat_map (fun x => let c := core x.2 (Z.of_nat h) in
    if u8 (commitFired c) =? 0 then [] else [mkcommit x.1 (pc c) (read_counters x.2 (Z.of_nat h))]) trace.
Definition sample_all (trace : list (Z * Vsystem)) (win : list WorkWin) : list WorkWin :=
  fold_left (fun win x => sample x.2 x.1 win) trace win.

Lemma sample_hart_lookup tb cycle win h k : sample_hart tb cycle win k !! h =
  if decide (h = k) then (fun w => feed_commits (commits_of h [(cycle, tb)]) w) <$> (win !! h) else win !! h.
Proof.
  unfold sample_hart, commits_of. cbn [flat_map fst snd]. rewrite app_nil_r. destruct (decide (h = k)) as [->|Hne].
  - destruct (u8 _ =? 0); [destruct (win !! k); reflexivity|]. destruct (win !! k) as [w|] eqn:E; [|rewrite E; reflexivity].
    rewrite list_lookup_insert_eq by (eapply lookup_lt_Some, E). reflexivity.
  - destruct (u8 _ =? 0); [reflexivity|]. destruct (win !! k); [|reflexivity]. apply list_lookup_insert_ne. congruence.
Qed.

Lemma sample_lookup tb cycle win h : (h < 4)%nat ->
  sample tb cycle win !! h = (fun w => feed_commits (commits_of h [(cycle, tb)]) w) <$> (win !! h).
Proof.
  intros Hh. unfold sample. cbn [harts4 fold_left]. rewrite !sample_hart_lookup.
  do 4 (destruct h as [|h]; [cbn [decide decide_rel Nat.eq_dec]; repeat case_decide; try lia; reflexivity|]). lia.
Qed.

Lemma sample_all_lookup h trace : (h < 4)%nat -> forall win,
  sample_all trace win !! h = (fun w => feed_commits (commits_of h trace) w) <$> (win !! h).
Proof.
  intros Hh. induction trace as [|x trace IH]; intros win; [change (sample_all [] win) with win; destruct (win !! h); reflexivity|].
  unfold sample_all. cbn [fold_left]. change (fold_left _ trace ?w) with (sample_all trace w).
  rewrite IH, sample_lookup by exact Hh. destruct (win !! h) as [w|]; [|reflexivity]. cbn [fmap option_fmap option_map].
  f_equal. unfold commits_of. cbn [flat_map]. rewrite app_nil_r. unfold feed_commits. rewrite fold_left_app. destruct x. reflexivity.
Qed.
End Trace.

(** Sampled once per cycle, the window of a hart depends only on the sequence of
    its commits, cut into blocks of 64. [spin_commits] counts the commits of the
    complete blocks whose PCs span at most 16 bytes, [spin_lo] and [spin_hi] are
    the bounds of these PCs, and the snapshot holds the counters and the cycle of
    the last commit of the last block that spans more, if there is one. *)
Theorem sample_windows `{Verilated} h trace bs rest : (h < 4)%nat ->
  commits_of h trace = concat bs ++ rest -> Forall full bs -> pcs_ok rest -> Z.of_nat (length rest) < BLOCK_COMMITS ->
  let spins := List.filter narrow bs in
  exists w, sample_all trace win_init !! h = Some w /\
    commits w = u64 (BLOCK_COMMITS * Z.of_nat (length bs) + Z.of_nat (length rest)) /\
    spin_commits w = u64 (BLOCK_COMMITS * Z.of_nat (length spins)) /\
    spin_lo w = fold_left Z.min (map lowest spins) (u64 (-1)) /\ spin_hi w = fold_left Z.max (map highest spins) 0 /\
    match last_work bs with
    | Some c => have_snap w = true /\ work_cycle w = at_cycle c /\ snap w = counters_then c
    | None => have_snap w = false
    end.
Proof.
  intros Hh Hc Hb Hp Hr. cbv zeta.
  assert (Hi : idle_win WorkWin_init) by (repeat split; unfold is_u64; cbn; lia).
  destruct (feed_blocks bs WorkWin_init Hi Hb) as [E1 Hi1].
  destruct (closed_blocks bs WorkWin_init Hb) as (C1 & C2 & C3 & C4 & C5); [unfold is_u64; cbn; lia|unfold is_u64; cbn; lia|].
  exists (partial (fold_left closed bs WorkWin_init) rest). split.
  - rewrite (sample_all_lookup h trace Hh), Hc. unfold win_init. rewrite lookup_replicate_2 by exact Hh. cbn [fmap option_fmap option_map].
    f_equal. unfold feed_commits. rewrite fold_left_app. change (fold_left _ (concat bs) ?w) with (feed_commits (concat bs) w).
    rewrite E1. apply (feed_partial _ rest Hi1 Hp Hr).
  - cbn [partial commits spin_commits spin_lo spin_hi have_snap work_cycle snap]. rewrite C1, C2, C3, C4. cbn [WorkWin_init commits spin_commits spin_lo spin_hi].
    split; [rewrite u64_add_l; f_equal; lia|]. split; [f_equal; lia|]. split; [reflexivity|]. split; [reflexivity|].
    destruct (last_work bs) as [c|]; [exact C5|]. exact (proj1 C5).
Qed.

(** Hart 2 runs through 256 bytes of code, spins on two instructions for two
    blocks, and is stopped in the middle of a fourth block. *)
Definition sample_pc (k : nat) : Z := 0x80001000 + 4 * Z.of_nat (if (k <? 64)%nat then k else 64 + k mod 2).
Definition sample_system (k : nat) : @Vsystem scripted :=
  { (script_system 0 []) with core2 := { (commit_at (sample_pc k)) with perfCountersOut := fun i => Z.of_nat k * (i + 1) } }.
Definition sample_trace : list (Z * @Vsystem scripted) := map (fun k => (Z.of_nat k + 1, sample_system k)) (seq 0 200).
Definition sample_commits (l : list nat) : list commit :=
  map (fun k => mkcommit (Z.of_nat k + 1) (sample_pc k) (read_counters (sample_system k) 2)) l.
Definition sample_blocks : list (list commit) := [sample_commits (seq 0 64); sample_commits (seq 64 64); sample_commits (seq 128 64)].
Lemma sample_windows_witness :
  last_work sample_blocks = Some (mkcommit 64 (0x80001000 + 4 * 63) (read_counters (sample_system 63) 2)) /\
  length (List.filter narrow sample_blocks) = 2%nat /\
  exists w, sample_all sample_trace win_init !! 2%nat = Some w /\
    commits w = u64 (BLOCK_COMMITS * Z.of_nat (length sample_blocks) + Z.of_nat (length (sample_commits (seq 192 8)))) /\
    spin_commits w = u64 (BLOCK_COMMITS * Z.of_nat (length (List.filter narrow sample_blocks))) /\
    spin_lo w = fold_left Z.min (map lowest (List.filter narrow sample_blocks)) (u64 (-1)) /\
    spin_hi w = fold_left Z.max (map highest (List.filter narrow sample_blocks)) 0 /\
    match last_work sample_blocks with
    | Some c => have_snap w = true /\ work_cycle w = at_cycle c /\ snap w = counters_then c
    | None => have_snap w = false
    end.
Proof.
  split; [vm_compute; reflexivity|]. split; [vm_compute; reflexivity|].
  apply (@sample_windows scripted 2 sample_trace sample_blocks (sample_commits (seq 192 8))).
  - lia.
  - vm_compute. reflexivity.
  - repeat constructor; vm_compute; congruence.
  - repeat constructor; vm_compute; congruence.
  - vm_compute. reflexivity.
Defined.

(** A hart that spins from its first commit on has no snapshot, and the
    work-region report falls back to the whole run. *)
Lemma spin_only_falls_back `{Verilated} tb win c w : win !! c = Some w -> have_snap w = false ->
  compute_core_metrics_work tb win c = compute_core_metrics tb (Z.of_nat c).
Proof. intros E1 E2. unfold compute_core_metrics_work. rewrite E1, E2. reflexivity. Qed.
