(* ===== verification/Linuxsim.v ===== *)
(** * Booting Linux on the core alone: [sim/harness/linux_sim.cpp] and [common/simlog.h]

    The harness steps the core from commit to commit until it stalls, a cycle
    budget is reached or a signal arrives. In between it forwards keystrokes
    through the four-phase handshake of the UART, prints counters, and, with
    [--debug], writes heartbeats that show where each hart spins and saves
    checkpoints, of which it keeps the last few.

    [lx_loop] runs at most [n] iterations and says how the loop ended, if it did.
    The Verilated model is saved and restored as a whole. The disk is the map from
    the cycle in a checkpoint's name to its contents; [can_open] says which of
    them can be created, [interrupted] in which iterations a signal is pending, and
    [stdin] is what each non-blocking read returns. Texts are values of [note];
    wall-clock times and rates in them are left out. *)

From Stdlib Require Import String Ascii Sorted.
From S2P Require Import Prelude Emulator Boot Rtl Image Double Profile.

(** ** [simlog.h] *)

Inductive why := Wedged | MaxCycles | Signalled.
Inductive note :=
  | CannotLog | LogStarted | CannotRestore | NotACheckpoint
  | Booted (image dtb bootrom : string) | Resumed (cyc steps : Z) | CkptInto (every keep : Z)
  | CountersTo (max_cycles : bool) (json : bool) | BoundedRun (n : Z) | SnapshotEvery (n : Z)
  | Guest (line : list Z)
  | Stalled (cyc : Z) (pcs : list Z) | Wedge (cyc : Z)
  | Compact (m : list PerfMetrics) | Summary (w : why) (cyc : Z) (m : list PerfMetrics) | JsonWritten | CountersWritten
  | Heartbeat (steps cyc : Z) (pcs : list (Z * Z)) (all_pinned : bool) | Bands (l : list (Z * Z))
  | Wrote (cyc : Z) | CannotOpen (cyc : Z) | Pruned (cyc : Z).

(** [sink] is null or not; [file] is what the log file holds. *)
Record simlog := { sink : bool; file : list note }.
Definition enabled (l : simlog) : bool := sink l.
Definition logf (n : note) (l : simlog) : simlog := if sink l then { l with file ::= (fun f => f ++ [n]) } else l.
(** [open(path)]: the log and what goes to stderr. *)
Definition simlog_open (path : string) (fopen : bool) (l : simlog) : simlog * list note :=
  if String.eqb path "" then (l, [])
  else if fopen then ({| sink := true; file := [LogStarted] |}, []) else (l, [CannotLog]).
Definition simlog_close (l : simlog) : simlog := { l with sink := false }.

(** ** The console mirror: one call per byte *)

(** The pending [line], and the lines logged. *)
Definition console_mirror (x : list Z * list note) (c : Z) : list Z * list note :=
  let '(line, logged) := x in
  if c =? 10 then ([], logged ++ [Guest line])
  else if negb (c =? 13) then
    let line := line ++ [c] in
    if 512 <=? Z.of_nat (List.length line) then ([], logged ++ [Guest line]) else (line, logged)
  else x.
Definition mirror_all (bytes : list Z) : list Z * list note := fold_left console_mirror bytes ([], []).

(** ** Command line *)

Record lx_options := {
  image : string; dtb : string; bootrom : string;
  debug : bool; log_path : string; ckpt_dir : string; restore : option string; no_ckpt : bool;
  ckpt_every : Z; ckpt_keep : Z; hb_every : Z; max_cycles : Z; profile_out : option string; profile_every : Z }.

(** [(argc > k && argv[k][0] != '-') ? argv[k] : def] *)
Definition positional (argv : list string) (k : nat) (def : string) : string :=
  match argv !! k with
  | Some (String "-" _) => def
  | Some a => a
  | None => def
  end.
Definition arg_or (argv : list string) (flag def : string) : string := default def (find_arg argv flag None).
Definition lx_parse (argv : list string) : lx_options :=
  let max_cycles := match find_arg argv "--max-cycles" None with Some s => strtoull 0 s | None => 0 end in
  {| image := positional argv 1 "sim/data/Image"; dtb := positional argv 2 "sim/data/qemu.dtb";
     bootrom := positional argv 3 "sim/data/boot.bin";
     debug := has_flag argv "--debug"; log_path := arg_or argv "--log" "build/linux-sim.log";
     ckpt_dir := arg_or argv "--ckpt-dir" "ckpt"; restore := find_arg argv "--restore" None;
     no_ckpt := has_flag argv "--no-ckpt";
     ckpt_every := strtoull 0 (arg_or argv "--ckpt-every" "20000000");
     ckpt_keep := strtoull 0 (arg_or argv "--ckpt-keep" "16");
     hb_every := strtoull 0 (arg_or argv "--hb" "100000");
     max_cycles := max_cycles;
     profile_out := find_arg argv "--profile-out" None;
     profile_every := match find_arg argv "--profile-every" None with
                      | Some s => strtoull 0 s
                      | None => if max_cycles =? 0 then 0 else 5000000
                      end |}.

(** The value of an option in the second or third position is taken for a file. *)
Example lx_parse_example :
  let o := lx_parse ["linux_sim.out"; "img"; "--debug"; "--ckpt-keep"; "0x2"]%string in
  (image o, dtb o, bootrom o) = ("img", "sim/data/qemu.dtb", "sim/data/boot.bin")%string /\
  (debug o, ckpt_keep o, ckpt_every o, profile_every o) = (true, 2, 20000000, 0).
Proof. vm_compute. split; reflexivity. Qed.
Lemma option_value_is_dtb :
  dtb (lx_parse ["linux_sim.out"; "--max-cycles"; "1000"]%string) = "1000"%string /\
  bootrom (lx_parse ["linux_sim.out"; "--debug"; "--hb"; "5000"]%string) = "5000"%string.
Proof. vm_compute. split; reflexivity. Qed.

(** ** State *)

Definition kCkptMagic : Z := 0x434849524F4E4C58.
Definition kCkptVersion : Z := 1.
Definition kInputPoll : Z := 4096.
Definition NEVER : Z := 0xFFFFFFFFFFFFFFFF.

Record checkpoint `{Verilated} := { magic : Z; version : Z; cyc : Z; saved_steps : Z; saved_tb : Vsystem }.

Record lx `{Verilated} := mklx {
  bench : simulator; steps : Z;
  input_tick : Z; stdin : list (option Z);
  next_hb : Z; next_prof : Z; next_ckpt : Z;
  last_pc : list Z; band_lo : list Z; band_hi : list Z; prev_lo : list Z; prev_hi : list Z;
  ckpts : list Z; disk : gmap Z checkpoint;
  log : simlog; err : list note; json : option (list PerfMetrics) }.

Section Linux.
Context `{Model} (SHOW_TERMINAL : bool) (STEP_TIMEOUT : nat) (CHIRON_NO_SAVE : bool).
Context (o : lx_options) (can_open : Z -> bool) (interrupted : Z -> bool).

Definition ckpt_on : bool := negb CHIRON_NO_SAVE && (debug o && negb (no_ckpt o) && (0 <? ckpt_every o)).
Definition cycle (s : lx) : Z := tickcount (bench s).
Definition SIMLOG (n : note) (s : lx) : lx := { s with log ::= logf n }.
Definition to_stderr (n : note) (s : lx) : lx := { s with err ::= (fun l => l ++ [n]) }.
(** The log when there is one, stderr otherwise. *)
Definition to_note (n : note) (s : lx) : lx := if enabled (log s) then SIMLOG n s else to_stderr n s.

(** *** Counters *)

Definition metrics (s : lx) : list PerfMetrics := map (fun c => compute_core_metrics (tb (bench s)) (Z.of_nat c)) (seq 0 4).
Definition print_json (s : lx) : lx := to_note JsonWritten { s with json := Some (metrics s) }.
Definition when_json (f : lx -> lx) (s : lx) : lx := match profile_out o with Some _ => f s | None => s end.
Definition dump_profile (w : why) (s : lx) : lx :=
  let s := to_note (Summary w (cycle s) (metrics s)) s in
  when_json (fun s => SIMLOG CountersWritten (print_json s)) s.
Definition snapshot (s : lx) : lx :=
  if negb (profile_every o =? 0) && (next_prof s <=? cycle s)
  then let s := when_json print_json (to_note (Compact (metrics s)) s) in
       { s with next_prof := u64 (cycle s + profile_every o) }
  else s.

(** *** Console input *)

Definition host_retire (s : lx) : lx :=
  if hostInputConsumed (tb (bench s)) =? 0 then s else { s with bench -> tb -> hostInput_valid := 0 }.
(** [::read(STDIN_FILENO, &ch, 1)] *)
Definition read_stdin (s : lx) : option Z * lx :=
  match stdin s with [] => (None, s) | r :: l => (r, { s with stdin := l }) end.
Definition host_input (s : lx) : lx :=
  let s := host_retire s in
  if (hostInput_valid (tb (bench s)) =? 0) && (hostInputConsumed (tb (bench s)) =? 0) then
    let t := u64 (input_tick s + 1) in
    if kInputPoll <=? t then
      let '(r, s) := read_stdin { s with input_tick := 0 } in
      match r with
      | Some ch => { s with bench -> tb ::= (fun t => { { t with hostInput_char := u8 ch } with hostInput_valid := 1 }) }
      | None => s
      end
    else { s with input_tick := t }
  else s.

(** *** Heartbeat *)

Definition nth (l : list Z) (i : nat) : Z := default 0 (l !! i).
Definition pcs_of (s : lx) : list Z := map (fun h => core_pc (bench s) (Z.of_nat h)) harts4.
Definition fold_band (s : lx) (i : nat) : lx :=
  let p := core_pc (bench s) (Z.of_nat i) in
  let s := if p <? nth (band_lo s) i then { s with band_lo ::= <[i := p]> } else s in
  if nth (band_hi s) i <? p then { s with band_hi ::= <[i := p]> } else s.
Definition fold_bands (s : lx) : lx := fold_left fold_band harts4 s.

Definition tight (s : lx) (i : nat) : bool :=
  (nth (band_lo s) i <=? nth (band_hi s) i) && (u64 (nth (band_hi s) i - nth (band_lo s) i) <? 0x1000).
Definition same (s : lx) (i : nat) : bool :=
  (nth (band_lo s) i =? nth (prev_lo s) i) && (nth (band_hi s) i =? nth (prev_hi s) i).
(** '#', '*' or ' ' *)
Definition hb_flag (s : lx) (i : nat) : Z :=
  if tight s i && same s i then 35 else if core_pc (bench s) (Z.of_nat i) =? nth (last_pc s) i then 42 else 32.
Definition pinned (s : lx) : Z := Z.of_nat (List.length (List.filter (fun i => tight s i && same s i) harts4)).
Definition next_window (s : lx) : lx :=
  let s := { s with last_pc := pcs_of s } in
  let s := { { s with prev_lo := band_lo s } with prev_hi := band_hi s } in
  { { s with band_lo := replicate 4 NEVER } with band_hi := replicate 4 0 }.
Definition heartbeat (s : lx) : lx :=
  if next_hb s <=? cycle s then
    let s := { s with next_hb := u64 (cycle s + hb_every o) } in
    let all := pinned s =? 4 in
    let s' := SIMLOG (Heartbeat (steps s) (cycle s) (zip (pcs_of s) (map (hb_flag s) harts4)) all) s in
    let s' := if all then SIMLOG (Bands (zip (band_lo s) (band_hi s))) s' else s' in
    next_window s'
  else s.

(** *** Checkpoints *)

Definition checkpoint_of (s : lx) : checkpoint :=
  {| magic := kCkptMagic; version := kCkptVersion; cyc := cycle s; saved_steps := steps s; saved_tb := tb (bench s) |}.

(** The [while] that removes the oldest files. *)
Fixpoint prune (l : list Z) (s : lx) : lx :=
  match l with
  | c :: l' =>
    if negb (ckpt_keep o =? 0) && (ckpt_keep o <? Z.of_nat (List.length l))
    then prune l' (SIMLOG (Pruned c) { { s with disk ::= delete c } with ckpts := l' })
    else s
  | [] => s
  end.
Definition write_checkpoint (s : lx) : lx :=
  let s := SIMLOG (Wrote (cycle s)) { s with disk ::= <[cycle s := checkpoint_of s]> } in
  let s := { s with ckpts ::= (fun l => l ++ [cycle s]) } in
  prune (ckpts s) s.
Definition save_checkpoint (s : lx) : lx :=
  if negb CHIRON_NO_SAVE && (next_ckpt s <=? cycle s) then
    let s := { s with next_ckpt := u64 (cycle s + ckpt_every o) } in
    if can_open (cycle s) then write_checkpoint s
    else { (SIMLOG (CannotOpen (cycle s)) s) with next_ckpt := NEVER }
  else s.

(** *** The main loop *)

Definition close (s : lx) : lx := { s with log ::= simlog_close }.
Definition wedge (s : lx) : lx :=
  let s := to_stderr (Stalled (cycle s) (pcs_of s)) s in
  close (dump_profile Wedged (SIMLOG (Wedge (cycle s)) s)).
Definition debug_work (s : lx) : lx := if debug o then save_checkpoint (heartbeat (fold_bands s)) else s.

(** One iteration; [Some] is the process's exit code. *)
Definition lx_iteration (s : lx) : option Z * lx :=
  let '(rc, b) := step_any_nodump SHOW_TERMINAL STEP_TIMEOUT (bench s) in
  let s := { s with bench := b } in
  if rc =? 1 then (Some 1, wedge s) else
  let s := snapshot { s with steps := u64 (steps s + 1) } in
  if negb (max_cycles o =? 0) && (max_cycles o <=? cycle s) then (Some 0, close (dump_profile MaxCycles s))
  else if interrupted (steps s) then (Some 0, close (dump_profile Signalled s))
  else (None, debug_work (host_input s)).

Fixpoint lx_loop (n : nat) (s : lx) : option Z * lx :=
  match n with
  | O => (None, s)
  | S n => let '(r, s) := lx_iteration s in match r with Some _ => (r, s) | None => lx_loop n s end
  end.

(** *** Start *)

(** From the simulator that is booted or restored to the first iteration. *)
Definition lx_setup (n0 : Z) (input : list (option Z)) (l : simlog) (b : simulator) : lx :=
  let s := {| bench := b; steps := n0; input_tick := 0; stdin := input; next_hb := 0; next_prof := 0; next_ckpt := 0;
              last_pc := replicate 4 0; band_lo := replicate 4 NEVER; band_hi := replicate 4 0;
              prev_lo := replicate 4 0; prev_hi := replicate 4 0; ckpts := []; disk := ∅; log := l; err := []; json := None |} in
  let s := if ckpt_on then SIMLOG (CkptInto (ckpt_every o) (ckpt_keep o)) s else s in
  let s := if enabled (log s) then { s with bench -> tx_mirror := true } else s in
  let with_json := match profile_out o with Some _ => true | None => false end in
  let s := if negb (max_cycles o =? 0) || negb (profile_every o =? 0) || with_json
           then to_note (CountersTo (negb (max_cycles o =? 0)) with_json) s else s in
  let s := if max_cycles o =? 0 then s else to_note (BoundedRun (max_cycles o)) s in
  let s := if profile_every o =? 0 then s else to_note (SnapshotEvery (profile_every o)) s in
  let s := { s with bench -> tb ::= (fun t => { { t with hostInput_valid := 0 } with hostInput_char := 0 }) } in
  { { { s with next_hb := u64 (cycle s + hb_every o) }
           with next_prof := if profile_every o =? 0 then NEVER else u64 (cycle s + profile_every o) }
           with next_ckpt := if ckpt_on then u64 ((cycle s / ckpt_every o + 1) * ckpt_every o) else NEVER }.

(** [init_no_image], and the fields that are read from the file. *)
Definition restored (fresh : Vsystem) (k : checkpoint) : simulator :=
  { { (simulator_new fresh) with tb := saved_tb k } with tickcount := cyc k }.

Section Start.
(** A new model, the files, and whether the log can be created. *)
Context (fresh : Vsystem) (read_file : string -> option (list Z)) (read_ckpt : string -> checkpoint) (log_ok : bool).

Definition open_log : simlog * list note :=
  let l := {| sink := false; file := [] |} in if debug o then simlog_open (log_path o) log_ok l else (l, []).
Definition boot_bench : outcome simulator unit :=
  bench_init true (read_file (image o)) (read_file (dtb o)) (read_file (bootrom o)) false (simulator_new fresh).

(** [inl] is an exit before the loop, with what stderr shows. *)
Definition lx_start (input : list (option Z)) : (Z * list note) + lx :=
  let '(l, e) := open_log in
  match restore o with
  | Some path =>
    if CHIRON_NO_SAVE then inl (1, e ++ [CannotRestore]) else
    let k := read_ckpt path in
    if (magic k =? kCkptMagic) && (version k =? kCkptVersion)
    then inr { (lx_setup (saved_steps k) input (logf (Resumed (cyc k) (saved_steps k)) l) (restored fresh k))
                    with err ::= (fun l => e ++ l) }
    else inl (1, e ++ [NotACheckpoint])
  | None =>
    match boot_bench with
    | Ok _ b => inr { (lx_setup 0 input (logf (Booted (image o) (dtb o) (bootrom o)) l) b) with err ::= (fun l => e ++ l) }
    | Exit c _ => inl (c, e)
    | _ => inl (1, e)
    end
  end.
Definition lx_main (input : list (option Z)) (n : nat) : option Z * ((Z * list note) + lx) :=
  match lx_start input with
  | inl x => (Some x.1, inl x)
  | inr s => let '(r, s) := lx_loop n s in (r, inr s)
  end.
End Start.
End Linux.

(** ** The console mirror *)

Definition guest_text (n : note) : list Z := match n with Guest l => l | _ => [] end.
Definition printable (c : Z) : bool := negb (c =? 10) && negb (c =? 13).

Lemma mirror_from bytes : forall line logged,
  (List.length line < 512)%nat -> Forall (fun n => exists l, n = Guest l /\ (List.length l <= 512)%nat) logged ->
  let '(line', logged') := fold_left console_mirror bytes (line, logged) in
  flat_map guest_text logged' ++ line' = flat_map guest_text logged ++ line ++ List.filter printable bytes /\
  Forall (fun n => exists l, n = Guest l /\ (List.length l <= 512)%nat) logged' /\ (List.length line' < 512)%nat.
Proof.
  induction bytes as [|c bytes IH]; intros line logged Hl Hf.
  - cbn [fold_left List.filter]. rewrite app_nil_r. auto.
  - cbn [fold_left List.filter]. unfold console_mirror at 2, printable at 1. destruct (Z.eqb_spec c 10) as [->|Hc].
    + specialize (IH [] (logged ++ [Guest line])). cbn [negb andb].
      destruct (fold_left _ _ _) as [line' logged']. destruct IH as (I1 & I2); [cbn; lia| |].
      * apply Forall_app. split; [assumption|]. repeat constructor. exists line. split; [reflexivity|lia].
      * split; [|exact I2]. rewrite I1, flat_map_app. cbn [flat_map guest_text]. rewrite app_nil_r, <- app_assoc. reflexivity.
    + destruct (Z.eqb_spec c 13) as [->|Hc']; cbn [negb andb]; [apply IH; assumption|].
      rewrite length_app. cbn [List.length]. destruct (Z.leb_spec 512 (Z.of_nat (List.length line + 1))).
      * specialize (IH [] (logged ++ [Guest (line ++ [c])])). destruct (fold_left _ _ _) as [line' logged'].
        destruct IH as (I1 & I2); [cbn; lia| |].
        -- apply Forall_app. split; [assumption|]. repeat constructor. exists (line ++ [c]). rewrite length_app. cbn. split; [reflexivity|lia].
        -- split; [|exact I2]. rewrite I1, flat_map_app. cbn [flat_map guest_text app]. rewrite app_nil_r, <- !app_assoc. reflexivity.
      * specialize (IH (line ++ [c]) logged). destruct (fold_left _ _ _) as [line' logged'].
        destruct IH as (I1 & I2); [rewrite length_app; cbn; lia|assumption|]. split; [|exact I2]. rewrite I1, <- !app_assoc. reflexivity.
Qed.

(** The mirror loses nothing but line ends: the lines it logs, and the one it
    still holds, are the bytes of the console without CR and LF; no line is longer
    than 512 bytes. *)
Theorem mirror_keeps_text bytes :
  let '(line, logged) := mirror_all bytes in
  flat_map guest_text logged ++ line = List.filter printable bytes /\
  Forall (fun n => exists l, n = Guest l /\ (List.length l <= 512)%nat) logged /\ (List.length line < 512)%nat.
Proof. apply (mirror_from bytes [] []); [cbn; lia|constructor]. Qed.

(** A line of exactly 512 bytes is followed by an empty one. *)
Lemma mirror_blank_line : (mirror_all (replicate 512 65 ++ [10])).2 = [Guest (replicate 512 65); Guest []].
Proof. vm_compute. reflexivity. Qed.

(** ** What a step shares with the step of another driver on the same model *)

(** The same model, clock and edge detectors; after [pre] and [pre'], the same output. *)
Definition same_run `{Verilated} (pre pre' : list Z) (b1 b2 : simulator) : Prop :=
  tb b1 = tb b2 /\ tickcount b1 = tickcount b2 /\ tx_prev_valid b1 = tx_prev_valid b2 /\
  exists rest, out b1 = pre ++ rest /\ out b2 = pre' ++ rest.

Section Same.
Context `{Model} (SHOW_TERMINAL : bool) (STEP_TIMEOUT : nat) (pre pre' : list Z).
Implicit Types b : simulator.

Lemma same_tx_port b1 b2 p : same_run pre pre' b1 b2 -> same_run pre pre' (tx_port b1 p) (tx_port b2 p).
Proof.
  destruct b1 as [mi1 mr1 pp1 ph1 lc1 tc1 dt1 tb1 tf1 tx1 o1], b2 as [mi2 mr2 pp2 ph2 lc2 tc2 dt2 tb2 tf2 tx2 o2].
  unfold same_run. cbn. intros (-> & -> & -> & rest & -> & ->). unfold tx_port, emit. cbn.
  destruct (_ && _); [|destruct mi1, mi2; cbn; repeat split; now exists rest].
  destruct mi1, mi2; cbn; (split; [reflexivity|split; [reflexivity|split; [reflexivity|]]]); eexists (rest ++ [_]); split; now rewrite <- app_assoc.
Qed.
Lemma same_advance b1 b2 : same_run pre pre' b1 b2 ->
  same_run pre pre' (advance SHOW_TERMINAL false b1) (advance SHOW_TERMINAL false b2).
Proof.
  intros Hs. unfold advance.
  set (c1 := { { b1 with tickcount := _ } with tb ::= tick_nodump }). set (c2 := { { b2 with tickcount := _ } with tb ::= tick_nodump }).
  assert (Hc : same_run pre pre' c1 c2).
  { subst c1 c2. destruct b1, b2. destruct Hs as (E1 & E2 & E3 & E4). cbn in E1, E2, E3, E4. subst. repeat split. exact E4. }
  destruct SHOW_TERMINAL; [|exact Hc]. unfold surface_tx. revert Hc. generalize c1, c2. clear. generalize harts4 as l.
  induction l as [|p l IH]; intros c1 c2 Hc; [exact Hc|]. cbn [fold_left]. apply IH, same_tx_port, Hc.
Qed.
Lemma same_commit_port m irq b1 b2 h : same_run pre pre' b1 b2 ->
  (commit_port (m, irq, b1) h).1 = (commit_port (m, irq, b2) h).1 /\
  same_run pre pre' (commit_port (m, irq, b1) h).2 (commit_port (m, irq, b2) h).2.
Proof.
  intros (E1 & E2 & E3 & E4). unfold commit_port, commit_fired, commit_interrupt. rewrite E1.
  destruct (negb _); repeat split; assumption.
Qed.
Lemma same_scan b1 b2 : same_run pre pre' b1 b2 ->
  (scan_commits b1).1 = (scan_commits b2).1 /\ same_run pre pre' (scan_commits b1).2 (scan_commits b2).2.
Proof.
  unfold scan_commits. generalize harts4 as l, 0 as m, false as irq. intros l. revert b1 b2.
  induction l as [|h l IH]; intros b1 b2 m irq Hs; [split; [reflexivity|exact Hs]|]. cbn [fold_left].
  destruct (same_commit_port m irq b1 b2 h Hs) as [E Hs'].
  destruct (commit_port (m, irq, b1) h) as [[m1 i1] c1], (commit_port (m, irq, b2) h) as [[m2 i2] c2].
  injection E as -> ->. apply IH, Hs'.
Qed.
Lemma same_set_prev m l b1 b2 : same_run pre pre' b1 b2 -> same_run pre pre' (set_prev m l b1) (set_prev m l b2).
Proof. intros Hs. induction l as [|h l IH]; [exact Hs|]. cbn [set_prev]. destruct (_ =? 0); [exact IH|exact Hs]. Qed.
Lemma same_until_from n b1 b2 :
  (forall c1 c2, same_run pre pre' c1 c2 ->
    (until_commits SHOW_TERMINAL n false c1).1 = (until_commits SHOW_TERMINAL n false c2).1 /\
    same_run pre pre' (until_commits SHOW_TERMINAL n false c1).2 (until_commits SHOW_TERMINAL n false c2).2) ->
  same_run pre pre' (advance SHOW_TERMINAL false b1) (advance SHOW_TERMINAL false b2) ->
  (until_commits SHOW_TERMINAL (S n) false b1).1 = (until_commits SHOW_TERMINAL (S n) false b2).1 /\
  same_run pre pre' (until_commits SHOW_TERMINAL (S n) false b1).2 (until_commits SHOW_TERMINAL (S n) false b2).2.
Proof.
  intros IH Ha. cbn [until_commits]. destruct (same_scan _ _ Ha) as [E Hs'].
  destruct (scan_commits (advance SHOW_TERMINAL false b1)) as [[m1 i1] c1], (scan_commits (advance SHOW_TERMINAL false b2)) as [[m2 i2] c2].
  injection E as -> ->. cbn [snd] in Hs'. destruct (m2 =? 0); [apply IH, Hs'|]. split; [reflexivity|]. cbn [snd]. apply same_set_prev, Hs'.
Qed.
Lemma same_until n : forall b1 b2, same_run pre pre' b1 b2 ->
  (until_commits SHOW_TERMINAL n false b1).1 = (until_commits SHOW_TERMINAL n false b2).1 /\
  same_run pre pre' (until_commits SHOW_TERMINAL n false b1).2 (until_commits SHOW_TERMINAL n false b2).2.
Proof.
  induction n as [|n IH]; intros b1 b2 Hs.
  - cbn [until_commits]. split; [reflexivity|]. destruct Hs as (E1 & E2 & E3 & rest & E4 & E5). repeat split; try assumption.
    exists (rest ++ timeout_text). rewrite !app_assoc, <- E4, <- E5. split; reflexivity.
  - apply same_until_from; [exact IH|]. apply same_advance, Hs.
Qed.
(** It is enough that the two agree from the first clock on. *)
Lemma same_step b1 b2 : (0 < STEP_TIMEOUT)%nat -> same_run pre pre' (advance SHOW_TERMINAL false b1) (advance SHOW_TERMINAL false b2) ->
  (step_any_nodump SHOW_TERMINAL STEP_TIMEOUT b1).1 = (step_any_nodump SHOW_TERMINAL STEP_TIMEOUT b2).1 /\
  same_run pre pre' (step_any_nodump SHOW_TERMINAL STEP_TIMEOUT b1).2 (step_any_nodump SHOW_TERMINAL STEP_TIMEOUT b2).2.
Proof.
  intros Hn Hs. unfold step_any_nodump, step_any, step_until_commits. destruct STEP_TIMEOUT as [|m]; [lia|].
  destruct (same_until_from m b1 b2 (same_until m) Hs) as [E Hs'].
  destruct (until_commits SHOW_TERMINAL (S m) false b1) as [[rc1 m1] c1], (until_commits SHOW_TERMINAL (S m) false b2) as [[rc2 m2] c2].
  injection E as -> ->. split; [reflexivity|exact Hs'].
Qed.
End Same.

(** ** What the bookkeeping leaves alone *)

Section Book.
Context `{Model} (SHOW_TERMINAL : bool) (STEP_TIMEOUT : nat) (CHIRON_NO_SAVE : bool).
Context (o : lx_options) (can_open : Z -> bool) (interrupted : Z -> bool).
Implicit Types s : lx.

Definition run_of s : simulator * Z * list (option Z) * Z := (bench s, steps s, stdin s, input_tick s).

Lemma run_note n s : run_of (to_note n s) = run_of s.
Proof. unfold to_note. destruct (enabled _); reflexivity. Qed.
Lemma run_json s : run_of (print_json s) = run_of s.
Proof. unfold print_json. rewrite run_note. reflexivity. Qed.
Lemma run_dump w s : run_of (close (dump_profile o w s)) = run_of s.
Proof.
  unfold dump_profile, when_json. transitivity (run_of (to_note (Summary w (cycle s) (metrics s)) s)); [|apply run_note].
  destruct (profile_out o); [|reflexivity].
  transitivity (run_of (print_json (to_note (Summary w (cycle s) (metrics s)) s))); [reflexivity|apply run_json].
Qed.
Lemma run_snapshot s : run_of (snapshot o s) = run_of s.
Proof.
  unfold snapshot. destruct (_ && _); [|reflexivity].
  transitivity (run_of (when_json o print_json (to_note (Compact (metrics s)) s))); [reflexivity|].
  unfold when_json. destruct (profile_out o); rewrite ?run_json; apply run_note.
Qed.
Lemma run_bands s : run_of (fold_bands s) = run_of s.
Proof.
  unfold fold_bands. generalize harts4 as l. intros l. revert s. induction l as [|i l IH]; intros s; [reflexivity|].
  cbn [fold_left]. rewrite IH. unfold fold_band. destruct (_ <? nth (band_lo s) i); destruct (nth _ i <? _); reflexivity.
Qed.
Lemma run_heartbeat s : run_of (heartbeat o s) = run_of s.
Proof. unfold heartbeat. destruct (_ <=? _); [|reflexivity]. destruct (pinned _ =? 4); reflexivity. Qed.
Lemma run_prune l : forall s, run_of (prune o l s) = run_of s.
Proof. induction l as [|c l IH]; intros s; [reflexivity|]. cbn [prune]. destruct (_ && _); [|reflexivity]. rewrite IH. reflexivity. Qed.
Lemma run_save s : run_of (save_checkpoint CHIRON_NO_SAVE o can_open s) = run_of s.
Proof.
  unfold save_checkpoint. destruct (_ && _); [|reflexivity]. destruct (can_open _); [|reflexivity].
  unfold write_checkpoint. rewrite run_prune. reflexivity.
Qed.
Lemma run_debug s : run_of (debug_work CHIRON_NO_SAVE o can_open s) = run_of s.
Proof. unfold debug_work. destruct (debug o); [|reflexivity]. rewrite run_save, run_heartbeat, run_bands. reflexivity. Qed.
Lemma run_wedge s : run_of (wedge o s) = run_of s.
Proof. unfold wedge. rewrite run_dump. reflexivity. Qed.

Lemma run_of_inj s s' : run_of s = run_of s' -> bench s = bench s' /\ steps s = steps s' /\ stdin s = stdin s' /\ input_tick s = input_tick s'.
Proof. unfold run_of. intros E. injection E. auto. Qed.

(** *** Two runs with the same keystrokes *)

Context (pre pre' : list Z).

Definition quiet_keys s : Prop := Forall (fun r => r = None) (stdin s).
(** The same reads at the same polls, or none that returns anything. *)
Definition same_keys s1 s2 : Prop :=
  (stdin s1 = stdin s2 /\ input_tick s1 = input_tick s2) \/ (quiet_keys s1 /\ quiet_keys s2).
Definition tracks s1 s2 : Prop := same_run pre pre' (bench s1) (bench s2) /\ steps s1 = steps s2 /\ same_keys s1 s2.

Lemma keys_run s1 s2 s1' s2' : same_keys s1 s2 -> run_of s1' = run_of s1 -> run_of s2' = run_of s2 -> same_keys s1' s2'.
Proof.
  intros Ht E1 E2. apply run_of_inj in E1 as (_ & _ & A3 & A4), E2 as (_ & _ & B3 & B4).
  unfold same_keys, quiet_keys in *. rewrite A3, A4, B3, B4. exact Ht.
Qed.
Lemma tracks_run s1 s2 s1' s2' : tracks s1 s2 -> run_of s1' = run_of s1 -> run_of s2' = run_of s2 -> tracks s1' s2'.
Proof.
  intros (Ha & Hb & Hk) E1 E2. pose proof (keys_run _ _ _ _ Hk E1 E2) as Hk'.
  apply run_of_inj in E1 as (A1 & A2 & _), E2 as (B1 & B2 & _). split; [|split; [|exact Hk']]; congruence.
Qed.

(** Without a keystroke the input only drops [hostInput_valid]. *)
Definition retired (b : simulator) : simulator :=
  if hostInputConsumed (tb b) =? 0 then b else { b with tb -> hostInput_valid := 0 }.
Lemma retire_run s : run_of (host_retire s) = (retired (bench s), steps s, stdin s, input_tick s).
Proof. unfold host_retire, retired. destruct (_ =? 0); reflexivity. Qed.
Lemma quiet_input s : quiet_keys s ->
  bench (host_input s) = retired (bench s) /\ steps (host_input s) = steps s /\ quiet_keys (host_input s).
Proof.
  intros Hq. unfold host_input. pose proof (retire_run s) as E. set (s1 := host_retire s) in *. clearbody s1.
  unfold run_of in E. injection E as E1 E2 E3 _. unfold quiet_keys in *. rewrite <- E3 in Hq.
  destruct (_ && _); [|auto]. destruct (_ <=? _); [|auto].
  unfold read_stdin. change (stdin { s1 with input_tick := 0 }) with (stdin s1).
  destruct (stdin s1) as [|r l] eqn:El; [|apply Forall_cons in Hq as [-> Hl]]; (split; [exact E1|]; split; [exact E2|]).
  - change (Forall (fun r => r = None) (stdin s1)). rewrite El. constructor.
  - exact Hl.
Qed.
Lemma same_with f b1 b2 : same_run pre pre' b1 b2 -> same_run pre pre' { b1 with tb ::= f } { b2 with tb ::= f }.
Proof. intros (E1 & E2 & E3 & E4). split; [exact (f_equal f E1)|]. split; [exact E2|]. split; [exact E3|exact E4]. Qed.
Lemma same_retired b1 b2 : same_run pre pre' b1 b2 -> same_run pre pre' (retired b1) (retired b2).
Proof.
  intros Hs. unfold retired. rewrite (proj1 Hs). destruct (_ =? 0); [exact Hs|].
  exact (same_with (fun t => { t with hostInput_valid := 0 }) b1 b2 Hs).
Qed.
Lemma input_steps s : steps (host_input s) = steps s.
Proof.
  unfold host_input. pose proof (retire_run s) as E. set (s1 := host_retire s) in *. clearbody s1.
  unfold run_of in E. injection E as _ E2 _ _. rewrite <- E2.
  destruct (_ && _); [|reflexivity]. destruct (_ <=? _); [|reflexivity].
  unfold read_stdin. destruct (stdin _) as [|[ch|] l]; reflexivity.
Qed.
Lemma same_input s1 s2 : tracks s1 s2 -> tracks (host_input s1) (host_input s2).
Proof.
  intros (Hb & Hs & Hk). split; [|split; [rewrite !input_steps; exact Hs|]]; destruct Hk as [[K1 K2]|[Q1 Q2]].
  2: { destruct (quiet_input s1 Q1) as (-> & _), (quiet_input s2 Q2) as (-> & _). apply same_retired, Hb. }
  3: { right. split; apply quiet_input; assumption. }
  all: pose proof (same_retired _ _ Hb) as Hr; pose proof (retire_run s1) as E1; pose proof (retire_run s2) as E2;
    unfold host_input; set (t1 := host_retire s1) in *; set (t2 := host_retire s2) in *; clearbody t1 t2;
    unfold run_of in E1, E2; injection E1 as A1 A2 A3 A4; injection E2 as B1 B2 B3 B4;
    rewrite <- A1, <- B1 in Hr; rewrite <- A3, <- B3 in K1; rewrite <- A4, <- B4 in K2; clear - Hr K1 K2;
    rewrite (proj1 Hr), K2; (destruct (_ && _); [|first [exact Hr|left; split; assumption]]); destruct (_ <=? _);
    [|first [exact Hr|left; split; [exact K1|reflexivity]]]; unfold read_stdin;
    change (stdin { t1 with input_tick := 0 }) with (stdin t1); change (stdin { t2 with input_tick := 0 }) with (stdin t2);
    rewrite K1; destruct (stdin t2) as [|[ch|] l] eqn:El; try exact Hr;
    try (left; split; [first [exact (eq_trans K1 (eq_sym El))|reflexivity]|reflexivity]).
  exact (same_with (fun t => { { t with hostInput_char := u8 ch } with hostInput_valid := 1 }) _ _ Hr).
Qed.

(** The setup of a restored run. *)
Lemma setup_run n0 input l b : stdin (lx_setup CHIRON_NO_SAVE o n0 input l b) = input /\
  input_tick (lx_setup CHIRON_NO_SAVE o n0 input l b) = 0 /\
  steps (lx_setup CHIRON_NO_SAVE o n0 input l b) = n0 /\
  let b' := bench (lx_setup CHIRON_NO_SAVE o n0 input l b) in
  tb b' = { { (tb b) with hostInput_valid := 0 } with hostInput_char := 0 } /\ tickcount b' = tickcount b /\
  tx_prev_valid b' = tx_prev_valid b /\ out b' = out b.
Proof.
  unfold lx_setup.
  set (s0 := mklx _ b n0 0 input 0 0 0 _ _ _ _ _ _ _ _ _ _).
  set (s1 := if ckpt_on CHIRON_NO_SAVE o then _ else s0).
  assert (E1 : run_of s1 = (b, n0, input, 0)) by (subst s1; destruct (ckpt_on _ _); reflexivity).
  clearbody s1. clear s0. set (s2 := if enabled (log s1) then _ else s1).
  assert (E2 : stdin s2 = input /\ input_tick s2 = 0 /\ steps s2 = n0 /\ tb (bench s2) = tb b /\ tickcount (bench s2) = tickcount b /\
    tx_prev_valid (bench s2) = tx_prev_valid b /\ out (bench s2) = out b).
  { apply run_of_inj in E1 || (unfold run_of in E1; injection E1; intros A0 A1 A2 A3).
    subst s2. destruct (enabled _); [|rewrite A0, A1, A2, A3; repeat split].
    split; [exact A1|]. split; [exact A0|]. split; [exact A2|].
    repeat split; (transitivity (tb (bench s1)) || transitivity (tickcount (bench s1)) || transitivity (tx_prev_valid (bench s1)) || transitivity (out (bench s1)));
      (reflexivity || (rewrite A3; reflexivity)). }
  clearbody s2. clear E1 s1.
  set (j := match profile_out o with Some _ => true | None => false end).
  set (s3 := if negb (max_cycles o =? 0) || _ || j then _ else s2).
  assert (R3 : run_of s3 = run_of s2) by (subst s3; clearbody j; destruct (_ || j); [apply run_note|reflexivity]).
  set (s4 := if max_cycles o =? 0 then s3 else _).
  assert (R4 : run_of s4 = run_of s2) by (subst s4; destruct (max_cycles o =? 0); [|etransitivity; [apply run_note|]]; exact R3).
  set (s5 := if profile_every o =? 0 then s4 else _).
  assert (R5 : run_of s5 = run_of s2) by (subst s5; destruct (profile_every o =? 0); [|etransitivity; [apply run_note|]]; exact R4).
  clearbody s5. clear R3 R4 s3 s4. apply run_of_inj in R5 as (B1 & B2 & B3 & B4). destruct E2 as (C1 & C0 & C2 & C3 & C4 & C5 & C6).
  split; [transitivity (stdin s5); [reflexivity|congruence]|]. split; [transitivity (input_tick s5); [reflexivity|congruence]|]. split; [transitivity (steps s5); [reflexivity|congruence]|]. cbv zeta.
  split; [transitivity { { (tb (bench s5)) with hostInput_valid := 0 } with hostInput_char := 0 }; [reflexivity|]; rewrite B1, C3; reflexivity|].
  split; [transitivity (tickcount (bench s5)); [reflexivity|congruence]|].
  split; [transitivity (tx_prev_valid (bench s5)); [reflexivity|congruence]|].
  transitivity (out (bench s5)); [reflexivity|congruence].
Qed.
End Book.

(** The options of the two runs may differ in all but [--max-cycles]. *)
Section Track.
Context `{Model} (SHOW_TERMINAL : bool) (STEP_TIMEOUT : nat) (interrupted : Z -> bool) (pre pre' : list Z).
Context (CHIRON_NO_SAVE : bool) (o : lx_options) (can_open : Z -> bool).
Context (CHIRON_NO_SAVE2 : bool) (o2 : lx_options) (can_open2 : Z -> bool) (Hmax : max_cycles o = max_cycles o2).
Implicit Types s : lx.

Lemma tracks_iteration s1 s2 : (0 < STEP_TIMEOUT)%nat ->
  same_run pre pre' (advance SHOW_TERMINAL false (bench s1)) (advance SHOW_TERMINAL false (bench s2)) ->
  steps s1 = steps s2 -> same_keys s1 s2 ->
  let it1 := lx_iteration SHOW_TERMINAL STEP_TIMEOUT CHIRON_NO_SAVE o can_open interrupted in
  let it2 := lx_iteration SHOW_TERMINAL STEP_TIMEOUT CHIRON_NO_SAVE2 o2 can_open2 interrupted in
  (it1 s1).1 = (it2 s2).1 /\ tracks pre pre' (it1 s1).2 (it2 s2).2.
Proof.
  intros Hn Ha Hst Hk. cbv zeta. unfold lx_iteration.
  destruct (same_step SHOW_TERMINAL STEP_TIMEOUT pre pre' (bench s1) (bench s2) Hn Ha) as [E Hs'].
  destruct (step_any_nodump _ _ (bench s1)) as [rc1 b1], (step_any_nodump _ _ (bench s2)) as [rc2 b2].
  cbn [fst snd] in E, Hs'. subst rc2.
  assert (T0 : tracks pre pre' { s1 with bench := b1 } { s2 with bench := b2 }) by (split; [exact Hs'|split; assumption]).
  set (u1 := { s1 with bench := b1 }) in *. set (u2 := { s2 with bench := b2 }) in *. clearbody u1 u2.
  destruct (rc1 =? 1); [split; [reflexivity|]; apply (tracks_run pre pre' u1 u2); [exact T0|apply run_wedge|apply run_wedge]|].
  assert (T1 : tracks pre pre' { u1 with steps := u64 (steps u1 + 1) } { u2 with steps := u64 (steps u2 + 1) }).
  { destruct T0 as (A & B & C). split; [exact A|]. split; [|exact C].
    transitivity (u64 (steps u1 + 1)); [reflexivity|]. rewrite B. reflexivity. }
  set (v1 := { u1 with steps := _ }) in *. set (v2 := { u2 with steps := _ }) in *. clearbody v1 v2.
  assert (T2 : tracks pre pre' (snapshot o v1) (snapshot o2 v2)) by (apply (tracks_run pre pre' v1 v2); [exact T1|apply run_snapshot|apply run_snapshot]).
  set (w1 := snapshot o v1) in *. set (w2 := snapshot o2 v2) in *. clearbody w1 w2.
  pose proof T2 as (A & B & C). unfold cycle. rewrite Hmax, (proj1 (proj2 A)), B.
  destruct (_ && _); [split; [reflexivity|]; apply (tracks_run pre pre' w1 w2); [exact T2|apply run_dump|apply run_dump]|].
  destruct (interrupted _); [split; [reflexivity|]; apply (tracks_run pre pre' w1 w2); [exact T2|apply run_dump|apply run_dump]|].
  split; [reflexivity|]. cbn [snd]. apply (tracks_run pre pre' (host_input w1) (host_input w2)); [|apply run_debug|apply run_debug].
  apply same_input, T2.
Qed.

(** Two runs of which the first clocks agree. *)
Lemma tracks_loop n : forall s1 s2, (0 < STEP_TIMEOUT)%nat ->
  same_run pre pre' (advance SHOW_TERMINAL false (bench s1)) (advance SHOW_TERMINAL false (bench s2)) ->
  steps s1 = steps s2 -> same_keys s1 s2 ->
  let lp1 := lx_loop SHOW_TERMINAL STEP_TIMEOUT CHIRON_NO_SAVE o can_open interrupted (S n) in
  let lp2 := lx_loop SHOW_TERMINAL STEP_TIMEOUT CHIRON_NO_SAVE2 o2 can_open2 interrupted (S n) in
  (lp1 s1).1 = (lp2 s2).1 /\ tracks pre pre' (lp1 s1).2 (lp2 s2).2.
Proof.
  induction n as [|n IH]; intros s1 s2 Hn Ha Hst Hk; cbv zeta;
    destruct (tracks_iteration s1 s2 Hn Ha Hst Hk) as [E Ht'].
  - cbn [lx_loop]. destruct (lx_iteration _ _ _ _ _ _ s1) as [r1 s1'], (lx_iteration _ _ _ _ _ _ s2) as [r2 s2'].
    cbn [fst snd] in E, Ht'. subst r2. destruct r1; (split; [reflexivity|exact Ht']).
  - specialize (IH (lx_iteration SHOW_TERMINAL STEP_TIMEOUT CHIRON_NO_SAVE o can_open interrupted s1).2
      (lx_iteration SHOW_TERMINAL STEP_TIMEOUT CHIRON_NO_SAVE2 o2 can_open2 interrupted s2).2 Hn (same_advance _ _ _ _ _ (proj1 Ht')) (proj1 (proj2 Ht')) (proj2 (proj2 Ht'))).
    remember (S n) as m. cbn [lx_loop].
    destruct (lx_iteration _ _ _ _ _ _ s1) as [r1 s1'], (lx_iteration _ _ _ _ _ _ s2) as [r2 s2'].
    cbn [fst snd] in E, Ht', IH. subst r2. destruct r1; [split; [reflexivity|exact Ht']|]. exact IH.
Qed.

End Track.

(** *** What a checkpoint does not hold *)

(** The bytes that the edge detectors, where they stand, see in a state of the model. *)
Definition surfaced `{Model} (prev : list bool) (t : Vsystem) : list Z :=
  flat_map (fun p => if tx_valid t p && negb (default false (prev !! p)) then [tx_byte t p] else []) harts4.
Lemma surface_out `{Model} b : List.length (tx_prev_valid b) = 4%nat ->
  out (surface_tx b) = out b ++ surfaced (tx_prev_valid b) (tb b) /\ tb (surface_tx b) = tb b /\
  tickcount (surface_tx b) = tickcount b /\ tx_prev_valid (surface_tx b) = map (tx_valid (tb b)) harts4.
Proof.
  assert (Hp : forall c p, let c' := tx_port c p in
    out c' = out c ++ (if tx_valid (tb c) p && negb (default false (tx_prev_valid c !! p)) then [tx_byte (tb c) p] else []) /\
    tb c' = tb c /\ tickcount c' = tickcount c /\ tx_prev_valid c' = <[p := tx_valid (tb c) p]> (tx_prev_valid c)).
  { intros c p. cbv zeta. unfold tx_port, emit, tx_valid, tx_byte.
    destruct (_ && _); [destruct (tx_mirror _)|]; rewrite ?app_nil_r; repeat split; reflexivity. }
  intros Hl. unfold surface_tx, harts4. cbn [fold_left map].
  destruct (Hp b 0%nat) as (O0 & T0 & K0 & V0). set (s0 := tx_port b 0) in *.
  destruct (Hp s0 1%nat) as (O1 & T1 & K1 & V1). set (s1 := tx_port s0 1) in *.
  destruct (Hp s1 2%nat) as (O2 & T2 & K2 & V2). set (s2 := tx_port s1 2) in *.
  destruct (Hp s2 3%nat) as (O3 & T3 & K3 & V3). set (s3 := tx_port s2 3) in *. clearbody s0 s1 s2 s3. clear Hp.
  rewrite T0 in *. rewrite T1 in *. rewrite T2 in *. rewrite V0 in *. rewrite V1 in *. rewrite V2 in *.
  unfold surfaced, harts4. cbn [flat_map]. rewrite O3, O2, O1, O0, K3, K2, K1, K0, V3, T3. clear - Hl.
  destruct (tx_prev_valid b) as [|a0 [|a1 [|a2 [|a3 [|? ?]]]]]; try discriminate Hl.
  rewrite app_nil_r, <- !app_assoc. repeat split; reflexivity.
Qed.

(** The run that wrote the checkpoint, going on without what the checkpoint lacks:
    the byte offered to the core is withdrawn, the polls are counted from 0, and the
    keys are [keys]. *)
Definition withdrawn `{Verilated} (keys : list (option Z)) (s : lx) : lx :=
  { { { s with bench -> tb ::= (fun t => { { t with hostInput_valid := 0 } with hostInput_char := 0 }) }
          with input_tick := 0 } with stdin := keys }.
(** It is the run itself when there is nothing to withdraw and no key is pressed in either. *)
Definition goes_on `{Verilated} (keys : list (option Z)) (s c : lx) : Prop :=
  c = withdrawn keys s \/
  (c = s /\ hostInput_valid (tb (bench s)) = 0 /\ hostInput_char (tb (bench s)) = 0 /\
   quiet_keys s /\ Forall (fun r => r = None) keys).

Lemma goes_on_spec `{Verilated} keys s c : goes_on keys s c ->
  tb (bench c) = { { (tb (bench s)) with hostInput_valid := 0 } with hostInput_char := 0 } /\
  tickcount (bench c) = tickcount (bench s) /\ tx_prev_valid (bench c) = tx_prev_valid (bench s) /\
  out (bench c) = out (bench s) /\ steps c = steps s /\
  forall s0, stdin s0 = keys -> input_tick s0 = 0 -> same_keys c s0.
Proof.
  intros [->|(-> & Hv & Hc & Hq & Hk)].
  - repeat split. intros s0 E1 E2. left. rewrite E1, E2. split; reflexivity.
  - split; [|repeat split].
    + revert Hv Hc. destruct (tb (bench s)). cbn. intros -> ->. reflexivity.
    + intros s0 E1 _. right. split; [exact Hq|]. unfold quiet_keys. rewrite E1. exact Hk.
Qed.

(** What the first clock makes of two simulators with the same model. *)
Lemma advance_from `{Model} b1 b2 : tb b1 = tb b2 -> tickcount b1 = tickcount b2 ->
  List.length (tx_prev_valid b1) = 4%nat -> List.length (tx_prev_valid b2) = 4%nat ->
  same_run (out b1 ++ surfaced (tx_prev_valid b1) (tick_nodump (tb b1))) (out b2 ++ surfaced (tx_prev_valid b2) (tick_nodump (tb b2)))
    (advance true false b1) (advance true false b2).
Proof.
  intros Et Ec L1 L2. unfold advance. cbv iota.
  set (c1 := { { b1 with tickcount := _ } with tb ::= tick_nodump }). set (c2 := { { b2 with tickcount := _ } with tb ::= tick_nodump }).
  assert (T1 : tb c1 = tick_nodump (tb b1)) by reflexivity. assert (T2 : tb c2 = tick_nodump (tb b2)) by reflexivity.
  assert (K : tickcount c1 = tickcount c2) by (exact (f_equal (fun x => u64 (x + 1)) Ec)).
  change (tx_prev_valid b1) with (tx_prev_valid c1) in *. change (tx_prev_valid b2) with (tx_prev_valid c2) in *.
  change (out b1) with (out c1). change (out b2) with (out c2). rewrite <- T1, <- T2. rewrite <- Et in T2. clearbody c1 c2.
  destruct (surface_out c1 L1) as (O1 & P1 & Q1 & R1), (surface_out c2 L2) as (O2 & P2 & Q2 & R2).
  split; [congruence|]. split; [congruence|]. split; [congruence|]. exists []. rewrite !app_nil_r. split; assumption.
Qed.

(** C31: A run resumed from a checkpoint goes on as the run that wrote it would
    without its host input: the byte offered to the core is withdrawn, the polls
    are counted from 0 and the keys are those of the resumed run. This is the run
    itself when no byte is offered and no key is pressed in either. However many
    iterations both make, they end in the same way, at the same cycle and step, with
    the same core. Both print the same from the second clock on; in the first, each
    prints the bytes that its own edge detectors see, and those of the resumed run
    start at rest: it repeats a byte that was on a console port when the
    checkpoint was written. The options may differ in all but the cycle budget, and
    both are built with [SHOW_TERMINAL]. *)
Theorem resume_continues `{Model} STEP_TIMEOUT no_save o can_open interrupted s c
    fresh read_file read_ckpt log_ok o' can_open' path keys n :
  (0 < STEP_TIMEOUT)%nat -> List.length (tx_prev_valid (bench s)) = 4%nat -> goes_on keys s c ->
  restore o' = Some path -> read_ckpt path = checkpoint_of s -> max_cycles o' = max_cycles o ->
  exists s0, lx_start false o' fresh read_file read_ckpt log_ok keys = inr s0 /\
    let '(r1, s1) := lx_loop true STEP_TIMEOUT no_save o can_open interrupted (S n) c in
    let '(r2, s2) := lx_loop true STEP_TIMEOUT false o' can_open' interrupted (S n) s0 in
    let first := tick_nodump (tb (bench c)) in
    r1 = r2 /\ steps s1 = steps s2 /\ cycle s1 = cycle s2 /\ tb (bench s1) = tb (bench s2) /\
    exists rest, out (bench s1) = out (bench s) ++ surfaced (tx_prev_valid (bench s)) first ++ rest /\
                 out (bench s2) = surfaced (replicate 4 false) first ++ rest.
Proof.
  intros Hn Hl Hg Hp Hr Hm. unfold lx_start. destruct (open_log o' log_ok) as [l e]. rewrite Hp, Hr.
  change ((magic (checkpoint_of s) =? kCkptMagic) && (version (checkpoint_of s) =? kCkptVersion)) with true. cbv iota.
  pose proof (setup_run false o' (saved_steps (checkpoint_of s)) keys (logf (Resumed (cyc (checkpoint_of s)) (saved_steps (checkpoint_of s))) l)
    (restored fresh (checkpoint_of s))) as Hst. cbv zeta in Hst.
  set (st := lx_setup _ _ _ _ _ _) in *. clearbody st.
  eexists. split; [reflexivity|]. set (s0 := { st with err ::= _ }).
  change (stdin st) with (stdin s0) in Hst. change (steps st) with (steps s0) in Hst.
  change (input_tick st) with (input_tick s0) in Hst. change (bench st) with (bench s0) in Hst. clearbody s0. clear st.
  destruct Hst as (P1 & P0 & P2 & P3 & P4 & P5 & P6).
  destruct (goes_on_spec keys s c Hg) as (G1 & G2 & G3 & G4 & G5 & G6).
  assert (K : same_keys c s0) by (apply G6; assumption).
  assert (Et : tb (bench c) = tb (bench s0)) by (rewrite G1, P3; reflexivity).
  assert (Ha : same_run (out (bench s) ++ surfaced (tx_prev_valid (bench s)) (tick_nodump (tb (bench c))))
                        (surfaced (replicate 4 false) (tick_nodump (tb (bench c))))
                 (advance true false (bench c)) (advance true false (bench s0))).
  { pose proof (advance_from (bench c) (bench s0) Et) as Ha. rewrite G3, G4, P5, P6, <- Et in Ha.
    apply Ha; [rewrite G2, P4; reflexivity|exact Hl|reflexivity]. }
  destruct (tracks_loop true STEP_TIMEOUT interrupted _ _ no_save o can_open false o' can_open' (eq_sym Hm) n c s0 Hn Ha
    ltac:(rewrite G5, P2; reflexivity) K) as [E Ht'].
  destruct (lx_loop _ _ _ _ _ _ _ c) as [r1 s1], (lx_loop _ _ _ _ _ _ _ s0) as [r2 s2]. cbn [fst snd] in E, Ht'.
  destruct Ht' as ((A1 & A2 & A3 & rest & A4 & A5) & B & _). repeat split; try assumption.
  exists rest. rewrite A4, A5, <- app_assoc. split; reflexivity.
Qed.

(** ** How the clock advances *)

Section Ticks.
Context `{Model} (SHOW_TERMINAL : bool) (STEP_TIMEOUT : nat).
Implicit Types b : simulator.

Lemma tx_port_tick b p : tickcount (tx_port b p) = tickcount b.
Proof. unfold tx_port, emit. destruct (_ && _); [destruct (tx_mirror _)|]; reflexivity. Qed.
Lemma advance_tick b : tickcount (advance SHOW_TERMINAL false b) = u64 (tickcount b + 1).
Proof.
  unfold advance. set (c := { { b with tickcount := _ } with tb ::= tick_nodump }).
  change (u64 (tickcount b + 1)) with (tickcount c). clearbody c. destruct SHOW_TERMINAL; [|reflexivity].
  unfold surface_tx. revert c. generalize harts4 as l. induction l as [|p l IH]; intros c; [reflexivity|].
  cbn [fold_left]. rewrite IH. apply tx_port_tick.
Qed.
Lemma scan_tick b : tickcount (scan_commits b).2 = tickcount b.
Proof.
  unfold scan_commits. generalize harts4 as l, 0 as m, false as irq. intros l. revert b.
  induction l as [|h l IH]; intros b m irq; [reflexivity|]. cbn [fold_left].
  unfold commit_port at 2. destruct (commit_fired b (Z.of_nat h)); rewrite IH; reflexivity.
Qed.
Lemma set_prev_tick m l b : tickcount (set_prev m l b) = tickcount b.
Proof. induction l as [|h l IH]; [reflexivity|]. cbn [set_prev]. destruct (_ =? 0); [exact IH|reflexivity]. Qed.

(** A step takes at least one clock and at most [n]; it takes all [n] when it times out. *)
Lemma until_ticks n : forall b, 0 <= tickcount b -> tickcount b + Z.of_nat n < 2 ^ 64 ->
  let '(rc, _, b') := until_commits SHOW_TERMINAL n false b in
  tickcount b <= tickcount b' <= tickcount b + Z.of_nat n /\
  (rc = 1 -> tickcount b' = tickcount b + Z.of_nat n) /\ (rc <> 1 -> tickcount b < tickcount b').
Proof.
  induction n as [|n IH]; intros b H0' Hn; cbn [until_commits].
  - change (tickcount (print_timeout _)) with (tickcount b). lia.
  - pose proof (scan_tick (advance SHOW_TERMINAL false b)) as E. rewrite advance_tick, u64_id in E by (unfold is_u64; lia).
    destruct (scan_commits (advance SHOW_TERMINAL false b)) as [[m irq] b1]. cbn [snd] in E. destruct (m =? 0).
    + specialize (IH b1 ltac:(lia) ltac:(lia)). destruct (until_commits _ n false b1) as [[rc mk] b']. lia.
    + rewrite set_prev_tick, E. destruct irq; (split; [lia|]; split; [discriminate|lia]).
Qed.
Lemma step_ticks b : 0 <= tickcount b -> tickcount b + Z.of_nat STEP_TIMEOUT < 2 ^ 64 ->
  let '(rc, b') := step_any_nodump SHOW_TERMINAL STEP_TIMEOUT b in
  tickcount b <= tickcount b' <= tickcount b + Z.of_nat STEP_TIMEOUT /\
  (rc = 1 -> tickcount b' = tickcount b + Z.of_nat STEP_TIMEOUT) /\ (rc <> 1 -> tickcount b < tickcount b').
Proof.
  intros H1 H2. unfold step_any_nodump, step_any, step_until_commits. pose proof (until_ticks STEP_TIMEOUT b H1 H2) as Hu.
  destruct (until_commits _ _ _ _) as [[rc m] b']. exact Hu.
Qed.

(** *** Which cores retire *)

Definition retires (t : Vsystem) (h : nat) : bool := negb (commitFired (core t (Z.of_nat h)) =? 0).
Lemma scan_tb b : tb (scan_commits b).2 = tb b.
Proof.
  unfold scan_commits. generalize harts4 as l, 0 as m, false as irq. intros l. revert b.
  induction l as [|h l IH]; intros b m irq; [reflexivity|]. cbn [fold_left].
  unfold commit_port at 2. destruct (commit_fired b (Z.of_nat h)); rewrite IH; reflexivity.
Qed.
Lemma scan_mask b : (scan_commits b).1.1 =? 0 = quiet b.
Proof.
  assert (Hf : forall l b' m irq, tb b' = tb b -> (fold_left commit_port l (m, irq, b')).1.1 =
    fold_left (fun m h => if retires (tb b) h then Z.lor m (u8 (Z.shiftl 1 (Z.of_nat h))) else m) l m).
  { induction l as [|h l IH]; intros b' m irq E; [reflexivity|]. cbn [fold_left].
    unfold commit_port at 2. change (retires (tb b) h) with (commit_fired b (Z.of_nat h)).
    replace (commit_fired b' (Z.of_nat h)) with (commit_fired b (Z.of_nat h)) by (unfold commit_fired; rewrite E; reflexivity).
    destruct (commit_fired b (Z.of_nat h)); rewrite IH; first [exact E|reflexivity]. }
  unfold scan_commits. rewrite Hf by reflexivity. unfold quiet, harts4. cbn [fold_left existsb].
  change (fires b) with (retires (tb b)).
  destruct (retires (tb b) 0), (retires (tb b) 1), (retires (tb b) 2), (retires (tb b) 3); reflexivity.
Qed.
Lemma advance_tb b : tb (advance SHOW_TERMINAL false b) = tick_nodump (tb b).
Proof. apply advance_members. Qed.
Lemma set_prev_tb m l b : tb (set_prev m l b) = tb b.
Proof. induction l as [|h l IH]; [reflexivity|]. cbn [set_prev]. destruct (_ =? 0); [exact IH|reflexivity]. Qed.
Lemma quiet_retires b : quiet b = true <-> forall h, (h < 4)%nat -> retires (tb b) h = false.
Proof.
  unfold quiet, fires, harts4. cbn [existsb]. change (commit_fired b (Z.of_nat ?h)) with (retires (tb b) h).
  rewrite negb_true_iff, !orb_false_iff. split.
  - intros (A & B & C & D & _) h Hh. do 4 (destruct h as [|h]; [assumption|]). lia.
  - intros Hh. repeat split; apply Hh; lia.
Qed.

(** A step returns 1 exactly when no core retires in [n] clocks, and otherwise stops in a clock in which one does. *)
Lemma until_retires n : forall b,
  let '(rc, _, b') := until_commits SHOW_TERMINAL n false b in
  (rc = 1 /\ tb b' = Nat.iter n tick_nodump (tb b) /\
   forall j h, (1 <= j <= n)%nat -> (h < 4)%nat -> retires (Nat.iter j tick_nodump (tb b)) h = false) \/
  (rc <> 1 /\ exists j h, (1 <= j <= n)%nat /\ (h < 4)%nat /\ tb b' = Nat.iter j tick_nodump (tb b) /\ retires (tb b') h = true).
Proof.
  induction n as [|n IH]; intros b; cbn [until_commits]; [left; split; [reflexivity|split; [reflexivity|lia]]|].
  pose proof (scan_tb (advance SHOW_TERMINAL false b)) as Et. pose proof (scan_mask (advance SHOW_TERMINAL false b)) as Em.
  pose proof (quiet_retires (advance SHOW_TERMINAL false b)) as Hq. rewrite advance_tb in Et, Hq.
  destruct (scan_commits _) as [[m irq] b1]. cbn [fst snd] in Et, Em. rewrite Em. destruct (quiet _).
  - specialize (IH b1). destruct (until_commits _ n false b1) as [[rc mk] b']. rewrite Et in IH.
    destruct IH as [(-> & E & Hr)|(Hc & j & h & Hj & Hh & E & Hr)].
    + left. split; [reflexivity|]. split; [rewrite E, Nat.iter_succ_r; reflexivity|].
      intros [|j] h Hj Hh; [lia|]. destruct j as [|j]; [apply (proj1 Hq eq_refl), Hh|]. rewrite Nat.iter_succ_r. apply Hr; lia.
    + right. split; [exact Hc|]. exists (S j), h. rewrite Nat.iter_succ_r. repeat split; (assumption || lia).
  - right. split; [destruct irq; discriminate|]. exists 1%nat. rewrite set_prev_tb, Et. cbn [Nat.iter nat_rect].
    destruct (retires (tick_nodump (tb b)) 0) eqn:E0; [exists 0%nat; repeat split; (assumption || lia)|].
    destruct (retires (tick_nodump (tb b)) 1) eqn:E1; [exists 1%nat; repeat split; (assumption || lia)|].
    destruct (retires (tick_nodump (tb b)) 2) eqn:E2; [exists 2%nat; repeat split; (assumption || lia)|].
    destruct (retires (tick_nodump (tb b)) 3) eqn:E3; [exists 3%nat; repeat split; (assumption || lia)|].
    enough (false = true) by discriminate. apply Hq. intros h Hh. do 4 (destruct h as [|h]; [assumption|]). lia.
Qed.
End Ticks.

(** ** A bounded run ends *)

Section Bounded.
Context `{Model} (SHOW_TERMINAL : bool) (STEP_TIMEOUT : nat) (CHIRON_NO_SAVE : bool).
Context (o : lx_options) (can_open : Z -> bool) (interrupted : Z -> bool).
Implicit Types s : lx.

Definition notes s : list note := file (log s) ++ err s.
(** How the last iteration, from [before], ends the run, and that the summary was printed. *)
Definition ends before (w : why) (code : Z) s : Prop :=
  sink (log s) = false /\ In (Summary w (cycle s) (metrics s)) (notes s) /\
  match w with
  | Wedged =>
    code = 1 /\ tb (bench s) = Nat.iter STEP_TIMEOUT tick_nodump (tb (bench before)) /\
    forall j h, (1 <= j <= STEP_TIMEOUT)%nat -> (h < 4)%nat -> retires (Nat.iter j tick_nodump (tb (bench before))) h = false
  | _ =>
    code = 0 /\ (exists j h, (1 <= j <= STEP_TIMEOUT)%nat /\ (h < 4)%nat /\
      tb (bench s) = Nat.iter j tick_nodump (tb (bench before)) /\ retires (tb (bench s)) h = true) /\
    (if w is MaxCycles then max_cycles o <> 0 /\ max_cycles o <= cycle s else interrupted (steps s) = true)
  end.

Lemma cycle_of s s' : run_of s = run_of s' -> cycle s = cycle s' /\ metrics s = metrics s' /\ steps s = steps s'.
Proof. intros E. apply run_of_inj in E as (E1 & E2 & _). unfold cycle, metrics. rewrite E1, E2. auto. Qed.

Lemma in_to_note n s : In n (notes (to_note n s)).
Proof.
  unfold to_note, notes, enabled, SIMLOG, to_stderr, logf. destruct s as [? ? ? ? ? ? ? ? ? ? ? ? ? ? [[] f] e ?]; cbn;
    rewrite !in_app_iff; cbn; auto.
Qed.
Lemma notes_grow n m s : In n (notes s) -> In n (notes (to_note m s)) /\ In n (notes (SIMLOG m s)).
Proof.
  unfold to_note, notes, enabled, SIMLOG, to_stderr, logf. destruct s as [? ? ? ? ? ? ? ? ? ? ? ? ? ? [[] f] e ?]; cbn;
    rewrite !in_app_iff; cbn; tauto.
Qed.
Lemma dump_summary w s : let s' := close (dump_profile o w s) in
  sink (log s') = false /\ In (Summary w (cycle s') (metrics s')) (notes s').
Proof.
  cbv zeta. destruct (cycle_of _ _ (run_dump o w s)) as (-> & -> & _). split; [reflexivity|].
  unfold dump_profile. set (n := Summary w (cycle s) (metrics s)). change (In n (notes (when_json o (fun s => SIMLOG CountersWritten (print_json s)) (to_note n s)))).
  pose proof (in_to_note n s) as Hi. unfold when_json. destruct (profile_out o); [|exact Hi].
  apply notes_grow. unfold print_json. apply notes_grow. exact Hi.
Qed.

Lemma input_cycle s : cycle (host_input s) = cycle s /\ steps (host_input s) = steps s.
Proof.
  unfold host_input. set (s1 := host_retire s).
  assert (E : cycle s1 = cycle s /\ steps s1 = steps s) by (subst s1; unfold host_retire; destruct (_ =? 0); split; reflexivity).
  clearbody s1. destruct E as [<- <-]. destruct (_ && _); [|split; reflexivity]. destruct (_ <=? _); [|split; reflexivity].
  unfold read_stdin. destruct (stdin _) as [|[ch|] l]; split; reflexivity.
Qed.

Lemma iteration_spec s : 0 <= cycle s -> cycle s + Z.of_nat STEP_TIMEOUT < 2 ^ 64 ->
  let '(r, s') := lx_iteration SHOW_TERMINAL STEP_TIMEOUT CHIRON_NO_SAVE o can_open interrupted s in
  cycle s <= cycle s' <= cycle s + Z.of_nat STEP_TIMEOUT /\
  match r with
  | Some code => exists w, ends s w code s'
  | None => cycle s < cycle s' /\ (max_cycles o = 0 \/ cycle s' < max_cycles o) /\ interrupted (steps s') = false
  end.
Proof.
  intros Hc Ht. unfold lx_iteration. pose proof (step_ticks SHOW_TERMINAL STEP_TIMEOUT (bench s) Hc Ht) as Hstep.
  pose proof (until_retires SHOW_TERMINAL STEP_TIMEOUT (bench s)) as Hret.
  unfold step_any_nodump, step_any, step_until_commits in *. destruct (until_commits _ _ _ _) as [[rc mk] b].
  destruct Hstep as (T1 & T2 & T3). fold (cycle s) in T1, T2, T3.
  set (u := { s with bench := b }). assert (Eu : cycle u = tickcount b) by reflexivity.
  change (tb b) with (tb (bench u)) in Hret. clearbody u.
  destruct (Z.eqb_spec rc 1) as [E1|E1].
  - destruct Hret as [(_ & Hret)|[Hne _]]; [|contradiction]. destruct (cycle_of _ _ (run_wedge o u)) as (-> & _). split; [lia|]. exists Wedged.
    rewrite <- (f_equal tb (proj1 (run_of_inj _ _ (run_wedge o u)))) in Hret. unfold wedge in *.
    destruct (dump_summary Wedged (SIMLOG (Wedge (cycle u)) (to_stderr (Stalled (cycle u) (pcs_of u)) u))) as [D1 D2].
    split; [exact D1|]. split; [exact D2|]. split; [reflexivity|exact Hret].
  - destruct Hret as [[He _]|[_ Hret]]; [contradiction|]. set (v := { u with steps := u64 (steps u + 1) }).
    destruct (cycle_of _ _ (run_snapshot o v)) as (Ev & _ & _). change (cycle v) with (cycle u) in Ev.
    pose proof (f_equal tb (proj1 (run_of_inj _ _ (run_snapshot o v)))) as Eb. change (tb (bench v)) with (tb (bench u)) in Eb.
    rewrite <- Eb in Hret. set (x := snapshot o v) in *. clearbody x. clear v Eb.
    destruct (negb (max_cycles o =? 0) && (max_cycles o <=? cycle x)) eqn:Em.
    + apply andb_true_iff in Em as [Em1 Em2]. apply negb_true_iff, Z.eqb_neq in Em1. apply Z.leb_le in Em2.
      destruct (cycle_of _ _ (run_dump o MaxCycles x)) as (Ec & _). split; [lia|]. exists MaxCycles.
      rewrite <- (f_equal tb (proj1 (run_of_inj _ _ (run_dump o MaxCycles x)))) in Hret.
      destruct (dump_summary MaxCycles x) as [D1 D2]. split; [exact D1|]. split; [exact D2|]. split; [reflexivity|]. split; [exact Hret|]. lia.
    + destruct (interrupted (steps x)) eqn:Ei.
      * destruct (cycle_of _ _ (run_dump o Signalled x)) as (Ec & _ & Es). split; [lia|]. exists Signalled.
        rewrite <- (f_equal tb (proj1 (run_of_inj _ _ (run_dump o Signalled x)))) in Hret.
        destruct (dump_summary Signalled x) as [D1 D2]. split; [exact D1|]. split; [exact D2|]. split; [reflexivity|]. split; [exact Hret|]. rewrite Es. exact Ei.
      * destruct (cycle_of _ _ (run_debug CHIRON_NO_SAVE o can_open (host_input x))) as (Ec & _ & Es).
        destruct (input_cycle x) as [I1 I2]. split; [lia|]. split; [lia|]. split; [|rewrite Es, I2; exact Ei].
        apply andb_false_iff in Em as [Em|Em]; [left; apply negb_false_iff, Z.eqb_eq in Em; exact Em|right; apply Z.leb_gt in Em; lia].
Qed.
End Bounded.

(** C33: A run with [--max-cycles] ends, after at most as many iterations as there are
    cycles left: the last one starts within the budget, from [before], and either no
    core retires in the [STEP_TIMEOUT] clocks from there, and the code is 1; or it
    stops at a clock in which a core retires, and the code is 0, because the budget is
    then reached, overshot by less than [STEP_TIMEOUT], or a signal arrived. In each
    case the counters of the final state are printed and the log is closed. *)
Theorem bounded_run_ends `{Model} SHOW_TERMINAL STEP_TIMEOUT no_save o can_open interrupted s n :
  0 <= cycle s < max_cycles o -> max_cycles o + Z.of_nat STEP_TIMEOUT < 2 ^ 64 -> max_cycles o - cycle s <= Z.of_nat n ->
  exists k before code s', (k < n)%nat /\
    lx_loop SHOW_TERMINAL STEP_TIMEOUT no_save o can_open interrupted k s = (None, before) /\ cycle before < max_cycles o /\
    lx_loop SHOW_TERMINAL STEP_TIMEOUT no_save o can_open interrupted n s = (Some code, s') /\
    cycle s' < max_cycles o + Z.of_nat STEP_TIMEOUT /\ exists w, ends STEP_TIMEOUT o interrupted before w code s'.
Proof.
  intros Hc Ht. revert s Hc. induction n as [|n IH]; intros s Hc Hn; [lia|]. cbn [lx_loop].
  pose proof (iteration_spec SHOW_TERMINAL STEP_TIMEOUT no_save o can_open interrupted s ltac:(lia) ltac:(lia)) as Hi.
  destruct (lx_iteration _ _ _ _ _ _ s) as [[code|] s1] eqn:Ei; destruct Hi as [I1 I2].
  - exists 0%nat, s, code, s1. split; [lia|]. split; [reflexivity|]. split; [lia|]. split; [reflexivity|]. split; [lia|exact I2].
  - destruct (IH s1 ltac:(lia) ltac:(lia)) as (k & before & code & s' & Hk & Hb & R). exists (S k), before, code, s'.
    split; [lia|]. split; [|exact R]. cbn [lx_loop]. rewrite Ei. exact Hb.
Qed.

(** ** Witnesses *)

(** Core 0 retires in every other clock and prints "Hi". *)
Definition says (p b : Z) : core_ports := { { (commit_at p) with OutChar_valid := 1 } with OutChar_byte := b }.
Definition boot_script : list (list core_ports) :=
  map (fun c => [c; idle_core; idle_core; idle_core])
    [says 0x80000000 72; commit_at 0x80000004; says 0x80000008 105; commit_at 0x8000000c; commit_at 0x80000010].
Definition no_signal : Z -> bool := fun _ => false.
Definition log_off : simlog := {| sink := false; file := [] |}.
Definition opts (l : list string) : lx_options := lx_parse ("linux_sim.out"%string :: l).
Definition boot_state (l : list string) : lx := lx_setup false (opts l) 0 [] log_off (simulator_new (script_system 64 boot_script)).
(** After two steps. *)
Definition at_checkpoint : lx := (lx_loop true 8 false (opts []) (fun _ => true) no_signal 2 (boot_state [])).2.

(** The checkpoint is taken while the core is offered a byte, and the resumed run has a key of its own. *)
Definition offering : lx := { at_checkpoint with bench -> tb -> hostInput_valid := 1 }.
Lemma resume_continues_witness :
  let o' := opts ["--restore"; "ckpt/ckpt_000000000002.bin"]%string in
  let c := withdrawn [Some 104] offering in
  cycle offering = 2 /\ out (bench offering) = [72] /\
  exists s0, lx_start false o' (script_system 0 []) (fun _ => None) (fun _ => checkpoint_of offering) true [Some 104] = inr s0 /\
    let '(r1, s1) := lx_loop true 8 false (opts []) (fun _ => true) no_signal 3 c in
    let '(r2, s2) := lx_loop true 8 false o' (fun _ => true) no_signal 3 s0 in
    let first := tick_nodump (tb (bench c)) in
    r1 = r2 /\ steps s1 = steps s2 /\ cycle s1 = cycle s2 /\ tb (bench s1) = tb (bench s2) /\
    exists rest, out (bench s1) = out (bench offering) ++ surfaced (tx_prev_valid (bench offering)) first ++ rest /\
                 out (bench s2) = surfaced (replicate 4 false) first ++ rest.
Proof.
  cbv zeta. split; [vm_compute; reflexivity|]. split; [vm_compute; reflexivity|].
  apply (resume_continues 8 false (opts []) (fun _ => true) no_signal offering (withdrawn [Some 104] offering) (script_system 0 []) (fun _ => None)
    (fun _ => checkpoint_of offering) true (opts ["--restore"; "ckpt/ckpt_000000000002.bin"]%string) (fun _ => true)
    "ckpt/ckpt_000000000002.bin"%string [Some 104] 2%nat);
    [lia|vm_compute; reflexivity|left; reflexivity|vm_compute; reflexivity|reflexivity|vm_compute; reflexivity].
Defined.

(** A checkpoint taken while a byte is on a console port: the resumed run prints the
    byte again, where the run that wrote it prints nothing more. *)
Definition hold (c : core_ports) : core_ports := { { c with OutChar_valid := 1 } with OutChar_byte := 72 }.
Definition held_script : list (list core_ports) :=
  map (fun c => [hold c; idle_core; idle_core; idle_core]) [commit_at 0x80000000; commit_at 0x80000004].
Lemma resume_repeats_byte :
  let s0 := lx_setup false (opts []) 0 [] log_off (simulator_new (script_system 64 held_script)) in
  let s := (lx_loop true 8 false (opts []) (fun _ => true) no_signal 1 s0).2 in
  let s' := lx_setup false (opts []) (steps s) [] log_off (restored (script_system 0 []) (checkpoint_of s)) in
  let first := tick_nodump (tb (bench s)) in
  (surfaced (tx_prev_valid (bench s)) first, surfaced (replicate 4 false) first) = ([], [72]) /\
  out (bench (lx_loop true 8 false (opts []) (fun _ => true) no_signal 1 s).2) = [72] /\
  out (bench (lx_loop true 8 false (opts []) (fun _ => true) no_signal 1 s').2) = [72].
Proof. vm_compute. repeat split; reflexivity. Qed.

Lemma bounded_run_ends_witness :
  let o := opts ["a"; "b"; "c"; "--max-cycles"; "4"]%string in
  let s := boot_state ["a"; "b"; "c"; "--max-cycles"; "4"]%string in
  exists k before code s', (k < 10)%nat /\
    lx_loop true 8 false o (fun _ => true) no_signal k s = (None, before) /\ cycle before < max_cycles o /\
    lx_loop true 8 false o (fun _ => true) no_signal 10 s = (Some code, s') /\
    cycle s' < max_cycles o + Z.of_nat 8 /\ exists w, ends 8 o no_signal before w code s'.
Proof.
  cbv zeta. apply (bounded_run_ends true 8 false (opts ["a"; "b"; "c"; "--max-cycles"; "4"]%string) (fun _ => true) no_signal
    (boot_state ["a"; "b"; "c"; "--max-cycles"; "4"]%string) 10%nat); vm_compute; [split; congruence|reflexivity|congruence].
Defined.

(** ** The checkpoints on disk *)


Section Kept.
Context `{Model} (SHOW_TERMINAL : bool) (STEP_TIMEOUT : nat) (CHIRON_NO_SAVE : bool).
Context (o : lx_options) (can_open : Z -> bool) (interrupted : Z -> bool).
Implicit Types s : lx.












End Kept.

Section Reached.
Context `{Model} (SHOW_TERMINAL : bool) (STEP_TIMEOUT : nat) (no_save : bool).
Context (o : lx_options) (can_open : Z -> bool) (interrupted : Z -> bool).



End Reached.


