(* ===== verification/Profrun.v ===== *)
(** * The profiling runs: [sim/harness/profile.cpp] and [profile_quad.cpp]

    Both load an image through the programmer port and clock the core until it
    completes, stalls or uses up its cycle budget, and then report the counters.
    [profile] watches core 0. [profile_quad] also runs the invariant detectors,
    classifies the commits of every hart, and keeps the first megabyte of the UART
    output, in which it looks for the error code the benchmark printed.

    Both loops are bounded by [--timeout], so they are structural recursions over
    that number ([bounded]). [printed] is standard output up to the report; what
    the report says is the subject of [Report]. *)

From Stdlib Require Import String Ascii.
From S2P Require Import Prelude Emulator Cmodel Libc Kernels Boot Rtl Image Firesim Invariants Double Profile.

(** ** A loop with a cycle budget *)

Section Bounded.
Context {S : Type} (sim_cycles : S -> Z) (max_cycles : Z) (step : S -> option Z * S).

(** [while (sim_cycles < max_cycles)], with [exit_code] 2 when it runs out. *)
Fixpoint bounded (n : nat) (s : S) : Z * S :=
  match n with
  | O => (2, s)
  | Datatypes.S n =>
    if sim_cycles s <? max_cycles then
      let '(r, s) := step s in match r with Some c => (c, s) | None => bounded n s end
    else (2, s)
  end.

(** If the state after [k] steps is known and step [k + 1] ends the loop as [verdict (k + 1)] says, the loop ends at the first verdict. *)
Lemma bounded_spec (at_ : nat -> S -> Prop) (verdict : nat -> option Z) :
  (forall k s, at_ k s -> sim_cycles s = Z.of_nat k) ->
  (forall k s, at_ k s -> Z.of_nat k < max_cycles -> let '(r, s') := step s in r = verdict (Datatypes.S k) /\ at_ (Datatypes.S k) s') ->
  forall n k s, at_ k s -> Z.of_nat (k + n) = max_cycles ->
  let '(code, s') := bounded n s in
  exists m, (k <= m <= k + n)%nat /\ at_ m s' /\ (forall j, (k < j < m)%nat -> verdict j = None) /\
    ((k < m)%nat /\ verdict m = Some code \/ m = (k + n)%nat /\ code = 2 /\ ((k < m)%nat -> verdict m = None)).
Proof.
  intros Hc Hstep. induction n as [|n IH]; intros k s Hs Hm; cbn [bounded].
  - exists k. split; [lia|]. split; [exact Hs|]. split; [intros; lia|]. right. split; [lia|]. split; [reflexivity|lia].
  - rewrite (Hc k s Hs). destruct (Z.ltb_spec (Z.of_nat k) max_cycles); [|lia].
    specialize (Hstep k s Hs ltac:(lia)). destruct (step s) as [r s1]. destruct Hstep as [-> H1].
    destruct (verdict (Datatypes.S k)) as [c|] eqn:Ev.
    + exists (Datatypes.S k). split; [lia|]. split; [exact H1|]. split; [intros; lia|]. left. split; [lia|exact Ev].
    + specialize (IH (Datatypes.S k) s1 H1 ltac:(lia)). destruct (bounded n s1) as [code s'].
      destruct IH as (m & L1 & L2 & L3 & L4). exists m. split; [lia|]. split; [exact L2|]. split.
      * intros j Hj. destruct (Nat.eq_dec j (Datatypes.S k)) as [->|]; [exact Ev|apply L3; lia].
      * destruct L4 as [[L4 L5]|(L4 & L5 & L6)]; [left; split; [lia|exact L5]|right].
        split; [lia|]. split; [exact L5|]. intros _. destruct (Nat.eq_dec m (Datatypes.S k)) as [->|]; [exact Ev|apply L6; lia].
Qed.
End Bounded.

(** ** Common to both *)

Definition PASS_PC_0 : Z := 0x800009a0.
Definition PASS_PC_1 : Z := 0x800009ac.
Definition BENCH_DONE_PC : Z := 0x80000bc8.
Definition MAX_STALL : Z := 500000.

(** What appears on standard output: UART bytes and verdicts. *)
Inductive item :=
  | Byte (b : Z) | Deadlock (n pc : Z) | BenchmarkComplete (pc : Z) | TestPassed (pc : Z) | TestFailed (gp pc : Z) | PassAt (pc : Z)
  | TimeoutAfter (n : Z) | PartialProfile | VerifyFail (code : Z) | Report.

(** [benchmark_name] from the path: after the last slash, before the last dot. *)
Fixpoint after_slash (s : string) : option string :=
  match s with
  | EmptyString => None
  | String c s => match after_slash s with
                  | Some r => Some r
                  | None => if (c =? "/")%char || (c =? "\")%char then Some s else None
                  end
  end.
Fixpoint before_dot (s : string) : option string :=
  match s with
  | EmptyString => None
  | String c s => match before_dot s with
                  | Some r => Some (String c r)
                  | None => if (c =? ".")%char then Some EmptyString else None
                  end
  end.
Definition benchmark_name (bench_name : option string) (image_path : string) : string :=
  match bench_name with
  | Some n => n
  | None => let p := default image_path (after_slash image_path) in default p (before_dot p)
  end.
Example benchmark_name_example :
  map (benchmark_name None) ["build/mt-vvadd.4.bin"; "Image"; "a.b/c"; ".bin"]%string = ["mt-vvadd.4"; "Image"; "c"; ""]%string.
Proof. reflexivity. Qed.

(** The command line; [--timeout] and [--print-interval] are decimal. [None] is [--help]. *)
Record run_options := {
  image_path : string; output_path : string; report_name : string; timeout : Z; print_interval : Z; completion_of : Completion }.
Definition run_parse (argv : list string) (default_timeout : string) : run_options :=
  let arg flag def := default def (find_arg argv flag None) in
  {| image_path := arg "--image" "sim/data/Image"; output_path := arg "--output" "";
     report_name := benchmark_name (find_arg argv "--name" None) (arg "--image" "sim/data/Image");
     timeout := strtoull 10 (arg "--timeout" default_timeout); print_interval := strtoull 10 (arg "--print-interval" "10000000");
     completion_of := parse argv |}%string.
Definition wants_help (argv : list string) : bool := has_flag argv "--help" || has_flag argv "-h".
Definition profile_parse (argv : list string) : option run_options :=
  if wants_help argv then None else Some { (run_parse argv "2000000000") with print_interval := 10000000 }.
Definition profile_quad_parse (argv : list string) : option run_options :=
  if wants_help argv then None else Some (run_parse argv "4000000000").
(** A hexadecimal [--timeout] is 0: the run ends at once with a time-out. *)
Example parse_timeout :
  map (fun t => option_map timeout (profile_quad_parse ["profile_quad.out"; "--timeout"; t]%string)) ["1000"; "0x1000"; "010"]%string =
  [Some 1000; Some 0; Some 10].
Proof. vm_compute. reflexivity. Qed.

Section Verdict.
Context `{Verilated} (completion : Completion).

(** The completion and ISA-test checks of a commit of core 0: exit code and message. *)
Definition done_verdict (tb : Vsystem) : option (Z * item) :=
  let c0 := core0 tb in
  if active completion && hit completion (pc c0) (registersOut c0 10) then Some (0, BenchmarkComplete (pc c0)) else
  match (if active completion then Running else isa_test_status (registersOut c0 3) (registersOut c0 17)) with
  | Pass => Some (0, TestPassed (pc c0))
  | Failed => Some (1, TestFailed (registersOut c0 3) (pc c0))
  | Running => None
  end.
(** [profile.cpp] has two checks more. *)
Definition profile_verdict (tb : Vsystem) : option (Z * item) :=
  let c0 := core0 tb in
  match done_verdict tb with
  | Some v => Some v
  | None =>
    if ((pc c0 =? PASS_PC_0) || (pc c0 =? PASS_PC_1)) && ((registersOut c0 10 =? 2) || (registersOut c0 3 =? 1))
    then Some (0, PassAt (pc c0))
    else if pc c0 =? BENCH_DONE_PC then Some (0, BenchmarkComplete (pc c0)) else None
  end.
Definition fired0 (tb : Vsystem) : bool := negb (commitFired (core0 tb) =? 0).
End Verdict.

(** ** [profile.cpp] *)

(** [p_run] is the model with [tickcount]; [progress] are the lines the debug log holds, when there is one. *)
Record profile_state `{Verilated} := mkprofile {
  p_run : Vsystem * Z; p_cycles : Z; last_print : Z; stall_cycles : Z; printed : list item; progress : list (Z * list Z) }.

Section Run.
Context `{Model} (completion : Completion) (max_cycles PRINT_INTERVAL : Z).
Implicit Types s : profile_state.

Definition say (i : item) s : profile_state := { s with printed ::= (fun l => l ++ [i]) }.
Definition p_tick s : profile_state := { { s with p_run ::= run_tick } with p_cycles := u64 (p_cycles s + 1) }.
(** The heartbeat of the debug log, with the PCs of the harts in [l]. *)
Definition p_progress (unit_ : Z) (l : list Z) s : profile_state :=
  if PRINT_INTERVAL <=? u64 (p_cycles s - last_print s)
  then { { s with progress ::= (fun p => p ++ [(p_cycles s / unit_, map (fun h => pc (core (p_run s).1 h)) l)]) } with last_print := p_cycles s }
  else s.
Definition p_uart s : profile_state :=
  if OutChar_valid (core0 (p_run s).1) =? 0 then s else say (Byte (u8 (OutChar_byte (core0 (p_run s).1)))) s.
(** The stall check, or the verdict of the commit. *)
Definition p_commit (verdict : Vsystem -> option (Z * item)) s : option Z * profile_state :=
  let tb := (p_run s).1 in
  if negb (fired0 tb) then
    let s := { s with stall_cycles := u64 (stall_cycles s + 1) } in
    if MAX_STALL <=? stall_cycles s then (Some 3, say (Deadlock (stall_cycles s) (pc (core0 tb))) s) else (None, s)
  else
    let s := { s with stall_cycles := 0 } in
    match verdict tb with Some (c, i) => (Some c, say i s) | None => (None, s) end.
Definition p_cycle s : option Z * profile_state :=
  p_commit (profile_verdict completion) (p_uart (p_progress 1000000 [0] (p_tick s))).

Definition p_start (x : Vsystem * Z) : profile_state := mkprofile _ x 0 0 0 [] [].
Definition p_verdict_text (code : Z) s : profile_state :=
  if code =? 2 then say (TimeoutAfter (p_cycles s)) s else if code =? 3 then say PartialProfile s else s.
(** [None] when the image cannot be loaded. *)
Definition profile_main (image : option (list Z)) (tb : Vsystem) : Z * option profile_state :=
  let '(ok, x) := load_image image (do_reset (tb, 0)) in
  if ok then
    let '(code, s) := bounded p_cycles max_cycles p_cycle (Z.to_nat max_cycles) (p_start x) in
    (code, Some (say Report (p_verdict_text code s)))
  else (2, None).
End Run.

(** ** [profile_quad.cpp] *)

(** [strlen(key)] bytes on from the last occurrence of [key]. *)
Fixpoint prefix (key l : list Z) : option (list Z) :=
  match key, l with
  | [], l => Some l
  | a :: key, b :: l => if a =? b then prefix key l else None
  | _ :: _, [] => None
  end.
Fixpoint rfind (key l : list Z) : option (list Z) :=
  match l with
  | [] => None
  | a :: t => match rfind key t with Some r => Some r | None => prefix key l end
  end.
(** [atoi]: blanks, a sign, digits; [strtol] saturates, and the result is cut to [int]. *)
Fixpoint digits (acc : Z) (l : list Z) : Z :=
  match l with
  | c :: l => if (48 <=? c) && (c <=? 57) then digits (10 * acc + (c - 48)) l else acc
  | [] => acc
  end.
Definition is_blank (c : Z) : bool := (c =? 32) || ((9 <=? c) && (c <=? 13)).
Fixpoint skip_blanks (l : list Z) : list Z :=
  match l with c :: l' => if is_blank c then skip_blanks l' else l | [] => [] end.
Definition atoi (l : list Z) : Z :=
  match skip_blanks l with
  | 45 :: l => s32 (Z.max (- 2 ^ 63) (- digits 0 l))
  | 43 :: l => s32 (Z.min (2 ^ 63 - 1) (digits 0 l))
  | l => s32 (Z.min (2 ^ 63 - 1) (digits 0 l))
  end.
Definition key : list Z := str "error code: ".
Definition bench_error (uart_log : list Z) : Z := match rfind key uart_log with Some l => atoi l | None => -1 end.
Definition UART_LOG_MAX : Z := 2 ^ 20.

Record quad_state `{Verilated} := mkquad {
  base : profile_state; invariants : chiron_invariants; windows : list WorkWin; uart_log : list Z }.

Section QuadRun.
Context `{Model} `{!Nets} (WEDGE : Z) (CHIRON_INVARIANTS : bool) (completion : Completion) (max_cycles PRINT_INTERVAL : Z).
Implicit Types s : quad_state.

(** The counter handed to the detectors is [sim_cycles] before it is advanced. *)
Definition q_tick s : quad_state :=
  let tb := (p_run (base s)).1 in
  let inv := if CHIRON_INVARIANTS then (tick_checked WEDGE tb (invariants s) (p_cycles (base s))).2 else invariants s in
  { { s with base ::= p_tick } with invariants := inv }.
(** [take_uart] for port [h]. *)
Definition take_uart s (h : nat) : quad_state :=
  let c := core (p_run (base s)).1 (Z.of_nat h) in
  if OutChar_valid c =? 0 then s else
  let b := u8 (OutChar_byte c) in
  let s := { s with base ::= say (Byte b) } in
  if Z.of_nat (List.length (uart_log s)) <? UART_LOG_MAX then { s with uart_log ::= (fun l => l ++ [b]) } else s.
Definition q_uart s : quad_state := fold_left take_uart harts4 s.
Definition q_sample s : quad_state := { s with windows := sample (p_run (base s)).1 (p_cycles (base s)) (windows s) }.
Definition q_cycle s : option Z * quad_state :=
  let s := q_tick s in
  let s := { s with base ::= p_progress PRINT_INTERVAL 1 [0; 1; 2; 3] } in
  let s := q_sample (q_uart s) in
  let '(r, b) := p_commit (done_verdict completion) (base s) in
  (r, { s with base := b }).

Definition q_start (x : Vsystem * Z) : quad_state := mkquad _ (p_start x) invariants_new win_init [].
(** The exit code after the loop: the error code the benchmark printed, then the detectors. *)
Definition q_verify (code : Z) s : Z * quad_state :=
  let e := bench_error (uart_log s) in
  if (code =? 0) && (0 <? e) then (4, { s with base ::= say (VerifyFail e) }) else (code, s).
Definition q_report (code : Z) s : Z * quad_state :=
  let s := { s with base ::= say Report } in
  (if CHIRON_INVARIANTS && negb (report (invariants s) =? 0) && (code =? 0) then 4 else code, s).
Definition quad_main (image : option (list Z)) (tb : Vsystem) : Z * option quad_state :=
  let '(ok, x) := load_image image (do_reset (tb, 0)) in
  if ok then
    let '(code, s) := bounded (fun s => p_cycles (base s)) max_cycles q_cycle (Z.to_nat max_cycles) (q_start x) in
    let '(code, s) := q_verify code { s with base ::= p_verdict_text code } in
    let '(code, s) := q_report code s in
    (code, Some s)
  else (2, None).
End QuadRun.

(** ** What decides a run *)

Definition bytes_of (l : list item) : list Z := flat_map (fun i => match i with Byte b => [b] | _ => [] end) l.
Lemma bytes_of_snoc l i : bytes_of (l ++ [i]) = bytes_of l ++ bytes_of [i].
Proof. apply flat_map_app. Qed.

Section Outcome.
Context `{Model} (verdict : Vsystem -> option (Z * item)).
Context (silent : forall tb c i, verdict tb = Some (c, i) -> bytes_of [i] = []).

(** The clocks since core 0 last retired, after clock [k]. *)
Fixpoint stalls (tb : Vsystem) (k : nat) : Z :=
  match k with
  | O => 0
  | S k' => if fired0 (after tb k) then 0 else stalls tb k' + 1
  end.
(** The exit code if the run ends at clock [k]. *)
Definition outcome_at (tb : Vsystem) (k : nat) : option Z :=
  if fired0 (after tb k) then option_map fst (verdict (after tb k))
  else if MAX_STALL <=? stalls tb k then Some 3 else None.

Lemma stalls_range tb k : 0 <= stalls tb k <= Z.of_nat k.
Proof. induction k as [|k IH]; cbn [stalls]; [lia|]. destruct (fired0 _); lia. Qed.

Lemma commit_step tb k s : (p_run s).1 = after tb (S k) -> stall_cycles s = stalls tb k -> Z.of_nat k + 1 < 2 ^ 64 ->
  let '(r, s') := p_commit verdict s in
  r = outcome_at tb (S k) /\ (p_run s').1 = after tb (S k) /\ p_cycles s' = p_cycles s /\ stall_cycles s' = stalls tb (S k) /\
  bytes_of (printed s') = bytes_of (printed s).
Proof.
  intros Hr Hs Hk. pose proof (stalls_range tb k) as Hb. unfold p_commit, outcome_at. rewrite Hr. cbn [stalls].
  destruct (fired0 (after tb (S k))); cbn [negb].
  - destruct (verdict (after tb (S k))) as [[c i]|] eqn:Ev; cbn [option_map fst].
    + split; [reflexivity|]. split; [exact Hr|]. split; [reflexivity|]. split; [reflexivity|].
      change (bytes_of (printed s ++ [i]) = bytes_of (printed s)). rewrite bytes_of_snoc, (silent _ _ _ Ev). apply app_nil_r.
    + repeat (split; [reflexivity || exact Hr|]). reflexivity.
  - set (s1 := { s with stall_cycles := u64 (stall_cycles s + 1) }).
    assert (E : stall_cycles s1 = stalls tb k + 1) by (change (stall_cycles s1) with (u64 (stall_cycles s + 1)); rewrite Hs; apply u64_id; unfold is_u64; lia).
    rewrite E. destruct (Z.leb_spec MAX_STALL (stalls tb k + 1)).
    + split; [reflexivity|]. split; [exact Hr|]. split; [reflexivity|]. split; [exact E|].
      match goal with |- bytes_of (printed (say ?i s1)) = _ => change (bytes_of (printed s ++ [i]) = bytes_of (printed s)) end.
      rewrite bytes_of_snoc. apply app_nil_r.
    + split; [reflexivity|]. split; [exact Hr|]. split; [reflexivity|]. split; [exact E|reflexivity].
Qed.
End Outcome.

Lemma done_silent `{Verilated} c tb code i : done_verdict c tb = Some (code, i) -> bytes_of [i] = [].
Proof.
  unfold done_verdict. destruct (_ && _); [intros [= _ <-]; reflexivity|].
  destruct (if active c then _ else _); intros [= _ <-]; reflexivity.
Qed.
Lemma profile_silent `{Verilated} c tb code i : profile_verdict c tb = Some (code, i) -> bytes_of [i] = [].
Proof.
  unfold profile_verdict. destruct (done_verdict c tb) as [[d j]|] eqn:E; [intros [= <- <-]; exact (done_silent c tb d j E)|].
  destruct (_ && _); [intros [= _ <-]; reflexivity|]. destruct (_ =? _); [intros [= _ <-]; reflexivity|discriminate].
Qed.

Lemma p_progress_same `{Verilated} i u l s : let s' := p_progress i u l s in
  p_run s' = p_run s /\ p_cycles s' = p_cycles s /\ stall_cycles s' = stall_cycles s /\ printed s' = printed s.
Proof. unfold p_progress. destruct (_ <=? _); repeat split. Qed.

(** ** [profile] *)

Section Profile.
Context `{Model} (completion : Completion) (max_cycles PRINT_INTERVAL : Z) (tb : Vsystem).

Definition p_at (k : nat) (s : profile_state) : Prop :=
  (p_run s).1 = after tb k /\ p_cycles s = Z.of_nat k /\ stall_cycles s = stalls tb k /\ bytes_of (printed s) = uart_bytes tb k.

Lemma p_tick_at k s : (p_run s).1 = after tb k -> p_cycles s = Z.of_nat k -> Z.of_nat k + 1 < 2 ^ 64 ->
  (p_run (p_tick s)).1 = after tb (S k) /\ p_cycles (p_tick s) = Z.of_nat (S k) /\
  stall_cycles (p_tick s) = stall_cycles s /\ printed (p_tick s) = printed s.
Proof.
  intros E1 E2 Hk. split; [change (tick_nodump (p_run s).1 = after tb (S k)); rewrite E1; reflexivity|].
  split; [|split; reflexivity]. transitivity (u64 (p_cycles s + 1)); [reflexivity|]. rewrite E2, u64_id by (unfold is_u64; lia). lia.
Qed.

Lemma p_cycle_at k s : p_at k s -> Z.of_nat k + 1 < 2 ^ 64 ->
  let '(r, s') := p_cycle completion PRINT_INTERVAL s in
  r = outcome_at (profile_verdict completion) tb (S k) /\ p_at (S k) s'.
Proof.
  intros (A1 & A2 & A3 & A4) Hk. unfold p_cycle. destruct (p_tick_at k s A1 A2 Hk) as (B1 & B2 & B3 & B4).
  set (s1 := p_tick s) in *. clearbody s1. destruct (p_progress_same PRINT_INTERVAL 1000000 [0] s1) as (C1 & C2 & C3 & C4).
  set (s2 := p_progress _ _ _ s1) in *. clearbody s2. set (s3 := p_uart s2).
  assert (D : p_run s3 = p_run s2 /\ p_cycles s3 = p_cycles s2 /\ stall_cycles s3 = stall_cycles s2 /\
    bytes_of (printed s3) = bytes_of (printed s2) ++ uart_byte (p_run s2).1).
  { subst s3. unfold p_uart, uart_byte. change (core (p_run s2).1 0) with (core0 (p_run s2).1).
    destruct (OutChar_valid _ =? 0); [rewrite app_nil_r; repeat split|].
    split; [reflexivity|]. split; [reflexivity|]. split; [reflexivity|].
    match goal with |- bytes_of (printed (say ?i s2)) = _ => change (bytes_of (printed s2 ++ [i]) = bytes_of (printed s2) ++ bytes_of [i]) end.
    apply bytes_of_snoc. }
  clearbody s3. destruct D as (D1 & D2 & D3 & D4).
  pose proof (commit_step (profile_verdict completion) (profile_silent completion) tb k s3 ltac:(rewrite D1, C1; exact B1) ltac:(congruence) Hk) as Hc.
  destruct (p_commit _ s3) as [r s']. destruct Hc as (E1 & E2 & E3 & E4 & E5). split; [exact E1|].
  split; [exact E2|]. split; [congruence|]. split; [exact E4|].
  rewrite E5, D4, C4, B4, A4, C1, B1. symmetry. apply uart_bytes_S.
Qed.
End Profile.

(** A run of profile.cpp always ends: at the first clock in which core 0 retires
    an instruction that completes the benchmark or the ISA test, or in which it has
    not retired for 500000 clocks, with the exit code of that event, and otherwise
    with code 2 after [--timeout] clocks. It shows exactly the bytes on the UART port
    in these clocks. *)
Theorem profile_run_spec `{Model} completion max_cycles interval bytes tb : 0 <= max_cycles < 2 ^ 64 ->
  let x := (load_image (Some bytes) (do_reset (tb, 0))).2 in
  let outcome := outcome_at (profile_verdict completion) x.1 in
  exists code s m, profile_main completion max_cycles interval (Some bytes) tb = (code, Some s) /\
    Z.of_nat m <= max_cycles /\ (forall j, (0 < j < m)%nat -> outcome j = None) /\
    ((0 < m)%nat /\ outcome m = Some code \/ Z.of_nat m = max_cycles /\ code = 2 /\ ((0 < m)%nat -> outcome m = None)) /\
    p_cycles s = Z.of_nat m /\ bytes_of (printed s) = uart_bytes x.1 m.
Proof.
  intros Hm. cbv zeta. unfold profile_main. rewrite (load_image_some bytes (do_reset (tb, 0))).
  generalize (load_image (Some bytes) (do_reset (tb, 0))).2 as x. intros x. cbn [snd].
  pose proof (bounded_spec p_cycles max_cycles (p_cycle completion interval) (p_at x.1) (outcome_at (profile_verdict completion) x.1)
    (fun k s Ha => proj1 (proj2 Ha)) (fun k s Ha Hk => p_cycle_at completion interval x.1 k s Ha ltac:(lia))
    (Z.to_nat max_cycles) 0 (p_start x) ltac:(repeat split) ltac:(lia)) as Hb.
  destruct (bounded _ _ _ _ _) as [code s]. destruct Hb as (m & L1 & (A1 & A2 & A3 & A4) & L3 & L4).
  exists code, (say Report (p_verdict_text code s)), m. split; [reflexivity|]. split; [lia|]. split; [exact L3|].
  split; [destruct L4 as [L4|(L4 & L5 & L6)]; [left; exact L4|right; split; [lia|split; assumption]]|].
  assert (Hp : p_cycles (p_verdict_text code s) = p_cycles s /\ bytes_of (printed (p_verdict_text code s)) = bytes_of (printed s)).
  { unfold p_verdict_text. destruct (code =? 2); [|destruct (code =? 3)]; (split; [reflexivity|]); try reflexivity;
      match goal with |- bytes_of (printed (say ?i s)) = _ => change (bytes_of (printed s ++ [i]) = bytes_of (printed s)) end;
      rewrite bytes_of_snoc; apply app_nil_r. }
  destruct Hp as [P1 P2]. split; [transitivity (p_cycles (p_verdict_text code s)); [reflexivity|congruence]|].
  transitivity (bytes_of (printed (p_verdict_text code s) ++ [Report])); [reflexivity|]. rewrite bytes_of_snoc, P2, A4. apply app_nil_r.
Qed.

(** ** [profile_quad] *)

(** The bytes the four ports show after a clock, in port order. *)
Definition port_byte `{Verilated} (tb : Vsystem) (h : nat) : list Z :=
  if OutChar_valid (core tb (Z.of_nat h)) =? 0 then [] else [u8 (OutChar_byte (core tb (Z.of_nat h)))].
Definition quad_bytes `{Model} (tb : Vsystem) (n : nat) : list Z :=
  flat_map (fun k => flat_map (port_byte (after tb (S k))) harts4) (seq 0 n).
Definition first_mb (l : list Z) : list Z := firstn (Z.to_nat UART_LOG_MAX) l.

Lemma first_mb_snoc l b :
  (if Z.of_nat (List.length (first_mb l)) <? UART_LOG_MAX then first_mb l ++ [b] else first_mb l) = first_mb (l ++ [b]).
Proof.
  assert (Hz : 0 <= UART_LOG_MAX) by (vm_compute; discriminate). unfold first_mb. revert Hz. generalize UART_LOG_MAX as M. intros M HM.
  rewrite firstn_app, length_firstn.
  destruct (Z.ltb_spec (Z.of_nat (Nat.min (Z.to_nat M) (List.length l))) M) as [Hlt|Hge].
  - replace (Z.to_nat M - List.length l)%nat with (S (Z.to_nat M - List.length l - 1)) by lia. cbn [firstn].
    destruct (Z.to_nat M - List.length l - 1)%nat; reflexivity.
  - replace (Z.to_nat M - List.length l)%nat with 0%nat by lia. rewrite firstn_O, app_nil_r. reflexivity.
Qed.

Section Quad.
Context `{Model} `{!Nets} (WEDGE : Z) (CHIRON_INVARIANTS : bool) (completion : Completion) (max_cycles PRINT_INTERVAL : Z) (tb : Vsystem).

(** The detectors after [k] clocks of the core. *)
Fixpoint detectors (k : nat) : chiron_invariants :=
  match k with
  | O => invariants_new
  | S k => if CHIRON_INVARIANTS then (tick_checked WEDGE (after tb k) (detectors k) (Z.of_nat k)).2 else detectors k
  end.
Definition q_at (k : nat) (s : quad_state) : Prop :=
  (p_run (base s)).1 = after tb k /\ p_cycles (base s) = Z.of_nat k /\ stall_cycles (base s) = stalls tb k /\
  bytes_of (printed (base s)) = quad_bytes tb k /\ uart_log s = first_mb (quad_bytes tb k) /\ invariants s = detectors k.

Lemma quad_bytes_S k : quad_bytes tb (S k) = quad_bytes tb k ++ flat_map (port_byte (after tb (S k))) harts4.
Proof. unfold quad_bytes. rewrite seq_S, flat_map_app. cbn [flat_map]. rewrite app_nil_r. reflexivity. Qed.

(** The ports: what stays, and what is shown and logged. *)
Definition with_bytes (s : quad_state) (l : list Z) : Prop := bytes_of (printed (base s)) = l /\ uart_log s = first_mb l.
Lemma take_uart_spec s h l : with_bytes s l -> let s' := take_uart s h in
  with_bytes s' (l ++ port_byte (p_run (base s)).1 h) /\ p_run (base s') = p_run (base s) /\ p_cycles (base s') = p_cycles (base s) /\
  stall_cycles (base s') = stall_cycles (base s) /\ invariants s' = invariants s.
Proof.
  intros [W1 W2]. unfold take_uart, port_byte. destruct (OutChar_valid _ =? 0); [rewrite app_nil_r; repeat split; assumption|].
  set (b := u8 _). set (s1 := { s with base ::= say (Byte b) }).
  assert (E1 : bytes_of (printed (base s1)) = l ++ [b]).
  { transitivity (bytes_of (printed (base s) ++ [Byte b])); [reflexivity|]. rewrite bytes_of_snoc, W1. reflexivity. }
  assert (E2 : uart_log s1 = first_mb l) by exact W2. pose proof (first_mb_snoc l b) as Hmb. rewrite <- E2 in Hmb.
  destruct (_ <? UART_LOG_MAX); (split; [split|repeat split]).
  - exact E1.
  - transitivity (uart_log s1 ++ [b]); [reflexivity|exact Hmb].
  - exact E1.
  - exact Hmb.
Qed.
Lemma q_uart_spec s l : with_bytes s l -> let s' := q_uart s in
  with_bytes s' (l ++ flat_map (port_byte (p_run (base s)).1) harts4) /\ p_run (base s') = p_run (base s) /\
  p_cycles (base s') = p_cycles (base s) /\ stall_cycles (base s') = stall_cycles (base s) /\ invariants s' = invariants s.
Proof.
  unfold q_uart. generalize harts4 as hs. intros hs. revert s l. induction hs as [|h hs IH]; intros s l Hw; cbn [fold_left flat_map].
  - rewrite app_nil_r. repeat split; apply Hw.
  - destruct (take_uart_spec s h l Hw) as (A1 & A2 & A3 & A4 & A5). destruct (IH (take_uart s h) _ A1) as (B1 & B2 & B3 & B4 & B5).
    rewrite A2, <- app_assoc in B1. cbv zeta. split; [exact B1|]. repeat split; congruence.
Qed.

Lemma q_cycle_at k s : q_at k s -> Z.of_nat k + 1 < 2 ^ 64 ->
  let '(r, s') := q_cycle WEDGE CHIRON_INVARIANTS completion PRINT_INTERVAL s in
  r = outcome_at (done_verdict completion) tb (S k) /\ q_at (S k) s'.
Proof.
  intros (A1 & A2 & A3 & A4 & A5 & A6) Hk. unfold q_cycle. set (s1 := q_tick WEDGE CHIRON_INVARIANTS s).
  destruct (p_tick_at tb k (base s) A1 A2 Hk) as (B1 & B2 & B3 & B4).
  assert (D1 : base s1 = p_tick (base s)) by reflexivity.
  assert (D2 : uart_log s1 = uart_log s) by reflexivity.
  assert (D3 : invariants s1 = detectors (S k)).
  { cbn [detectors]. rewrite <- A6, <- A1, <- A2. reflexivity. }
  clearbody s1. destruct (p_progress_same PRINT_INTERVAL 1 [0; 1; 2; 3] (base s1)) as (C1 & C2 & C3 & C4).
  set (s2 := { s1 with base ::= p_progress PRINT_INTERVAL 1 [0; 1; 2; 3] }).
  assert (F1 : base s2 = p_progress PRINT_INTERVAL 1 [0; 1; 2; 3] (base s1)) by reflexivity.
  assert (F2 : uart_log s2 = uart_log s1 /\ invariants s2 = invariants s1) by (split; reflexivity). destruct F2 as [F2 F3].
  clearbody s2. assert (Hw : with_bytes s2 (quad_bytes tb k)) by (split; [rewrite F1, C4, D1, B4; exact A4|congruence]).
  destruct (q_uart_spec s2 _ Hw) as (G1 & G2 & G3 & G4 & G5).
  replace (p_run (base s2)).1 with (after tb (S k)) in G1 by (rewrite F1, C1, D1; symmetry; exact B1).
  rewrite <- quad_bytes_S in G1. set (s3 := q_uart s2) in *. clearbody s3. set (s4 := q_sample s3).
  assert (K1 : base s4 = base s3) by reflexivity. assert (K2 : uart_log s4 = uart_log s3) by reflexivity.
  assert (K3 : invariants s4 = invariants s3) by reflexivity. clearbody s4.
  pose proof (commit_step (done_verdict completion) (done_silent completion) tb k (base s4)
    ltac:(rewrite K1, G2, F1, C1, D1; exact B1) ltac:(rewrite K1, G4, F1, C3, D1, B3; exact A3) Hk) as Hc.
  destruct (p_commit _ (base s4)) as [r b]. destruct Hc as (E1 & E2 & E3 & E4 & E5). split; [exact E1|].
  destruct G1 as [G1 G1']. split; [exact E2|]. split; [transitivity (p_cycles b); [reflexivity|]; rewrite E3, K1, G3, F1, C2, D1; exact B2|].
  split; [exact E4|]. split; [transitivity (bytes_of (printed b)); [reflexivity|]; rewrite E5, K1; exact G1|].
  split; [transitivity (uart_log s4); [reflexivity|congruence]|]. transitivity (invariants s4); [reflexivity|congruence].
Qed.

(** What the report adds to a run that ended at clock [m] with [code]. *)
Definition final_code (m : nat) (code : Z) : Z :=
  if (code =? 0) && (0 <? bench_error (first_mb (quad_bytes tb m))) then 4
  else if CHIRON_INVARIANTS && negb (report (detectors m) =? 0) && (code =? 0) then 4 else code.

Lemma p_text_bytes code (s : profile_state) : bytes_of (printed (p_verdict_text code s)) = bytes_of (printed s).
Proof.
  unfold p_verdict_text. destruct (code =? 2); [|destruct (code =? 3); [|reflexivity]];
    match goal with |- bytes_of (printed (say ?i s)) = _ => change (bytes_of (printed s ++ [i]) = bytes_of (printed s)) end;
    rewrite bytes_of_snoc; apply app_nil_r.
Qed.

Lemma finish_at m code s : q_at m s ->
  let '(code1, s1) := q_verify code { s with base ::= p_verdict_text code } in
  let '(code2, s2) := q_report CHIRON_INVARIANTS code1 s1 in
  code2 = final_code m code /\ bytes_of (printed (base s2)) = quad_bytes tb m.
Proof.
  intros (A1 & A2 & A3 & A4 & A5 & A6). set (s0 := { s with base ::= p_verdict_text code }).
  assert (E1 : uart_log s0 = uart_log s) by reflexivity. assert (E2 : invariants s0 = invariants s) by reflexivity.
  assert (E3 : bytes_of (printed (base s0)) = quad_bytes tb m)
    by (transitivity (bytes_of (printed (p_verdict_text code (base s)))); [reflexivity|]; rewrite p_text_bytes; exact A4).
  clearbody s0. unfold q_verify, final_code. rewrite E1, A5.
  assert (Hrep : forall (s1 : quad_state) c, invariants s1 = detectors m -> bytes_of (printed (base s1)) = quad_bytes tb m ->
    let '(code2, s2) := q_report CHIRON_INVARIANTS c s1 in
    code2 = (if CHIRON_INVARIANTS && negb (report (detectors m) =? 0) && (c =? 0) then 4 else c) /\
    bytes_of (printed (base s2)) = quad_bytes tb m).
  { intros s1 c I1 I2. unfold q_report. split; [rewrite <- I1; reflexivity|].
    transitivity (bytes_of (printed (base s1) ++ [Report])); [reflexivity|]. rewrite bytes_of_snoc, I2. apply app_nil_r. }
  destruct ((code =? 0) && (0 <? bench_error (first_mb (quad_bytes tb m)))).
  - set (e := VerifyFail _). set (s1 := { s0 with base ::= say e }).
    specialize (Hrep s1 4 ltac:(transitivity (invariants s0); [reflexivity|congruence])).
    assert (I : bytes_of (printed (base s1)) = quad_bytes tb m).
    { transitivity (bytes_of (printed (base s0) ++ [e])); [reflexivity|]. rewrite bytes_of_snoc, E3. apply app_nil_r. }
    specialize (Hrep I). destruct (q_report _ 4 s1) as [c2 s2]. destruct Hrep as [-> R2]. split; [|exact R2].
    change (4 =? 0) with false. rewrite andb_false_r. reflexivity.
  - specialize (Hrep s0 code ltac:(congruence) E3). destruct (q_report _ code s0) as [c2 s2]. exact Hrep.
Qed.

End Quad.

Lemma quad_run `{Model} `{!Nets} WEDGE checks completion max_cycles interval bytes tb : 0 <= max_cycles < 2 ^ 64 ->
  let x := (load_image (Some bytes) (do_reset (tb, 0))).2.1 in
  let outcome := outcome_at (done_verdict completion) x in
  exists code s m, quad_main WEDGE checks completion max_cycles interval (Some bytes) tb = (final_code WEDGE checks x m code, Some s) /\
    Z.of_nat m <= max_cycles /\ (forall j, (0 < j < m)%nat -> outcome j = None) /\
    ((0 < m)%nat /\ outcome m = Some code \/ Z.of_nat m = max_cycles /\ code = 2) /\
    bytes_of (printed (base s)) = quad_bytes x m.
Proof.
  intros Hm. cbv zeta. unfold quad_main. rewrite (load_image_some bytes (do_reset (tb, 0))).
  generalize (load_image (Some bytes) (do_reset (tb, 0))).2 as x. intros x.
  pose proof (bounded_spec (fun s => p_cycles (base s)) max_cycles (q_cycle WEDGE checks completion interval) (q_at WEDGE checks x.1)
    (outcome_at (done_verdict completion) x.1) (fun k s Ha => proj1 (proj2 Ha))
    (fun k s Ha Hk => q_cycle_at WEDGE checks completion interval x.1 k s Ha ltac:(lia))
    (Z.to_nat max_cycles) 0 (q_start x) ltac:(repeat split) ltac:(lia)) as Hb.
  destruct (bounded _ _ _ _ _) as [code s]. destruct Hb as (m & L1 & L2 & L3 & L4).
  pose proof (finish_at WEDGE checks x.1 m code s L2) as Hf. destruct (q_verify code _) as [code1 s1].
  destruct (q_report checks code1 s1) as [code2 s2]. destruct Hf as [-> F2]. exists code, s2, m. split; [reflexivity|].
  split; [lia|]. split; [exact L3|]. split; [destruct L4 as [L4|(L4 & L5 & L6)]; [left; exact L4|right; split; [lia|exact L5]]|exact F2].
Qed.

(** Core 0 retires the instruction that completes the program: a done PC with the
    required [a0], or, when there is none, the exit of an ISA test that passed. *)
Definition completes `{Verilated} (c : Completion) (tb : Vsystem) : Prop :=
  fired0 tb = true /\
  if active c then hit c (pc (core0 tb)) (registersOut (core0 tb) 10) = true
  else registersOut (core0 tb) 17 = 93 /\ registersOut (core0 tb) 3 = 1.

Lemma outcome_pass `{Model} c tb m : outcome_at (done_verdict c) tb m = Some 0 -> completes c (after tb m).
Proof.
  unfold outcome_at, completes, done_verdict. destruct (fired0 (after tb m)); [|destruct (_ <=? _); discriminate]. intros Ho.
  split; [reflexivity|]. revert Ho. destruct (active c); cbn [andb].
  - destruct (hit _ _ _); [reflexivity|discriminate].
  - unfold isa_test_status. destruct (Z.eqb_spec (registersOut (core0 (after tb m)) 17) 93) as [E1|E1]; [|discriminate]. cbn [negb].
    destruct (Z.eqb_spec (registersOut (core0 (after tb m)) 3) 1) as [E2|E2]; [auto|discriminate].
Qed.

Lemma final_code_zero `{Model} `{!Nets} WEDGE checks x m code : final_code WEDGE checks x m code = 0 ->
  code = 0 /\ bench_error (first_mb (quad_bytes x m)) <= 0 /\ (checks = true -> violations (detectors WEDGE checks x m) = 0).
Proof.
  unfold final_code. generalize (bench_error (first_mb (quad_bytes x m))) as e. intros e.
  unfold report. destruct (Z.eqb_spec code 0) as [->|Hne]; cbn [andb].
  - destruct (Z.ltb_spec 0 e); [discriminate|]. intros Hc. split; [reflexivity|]. split; [assumption|]. intros ->.
    destruct (Z.eqb_spec (violations (detectors WEDGE true x m)) 0) as [Ev|]; [exact Ev|discriminate].
  - rewrite andb_false_r. intros ->. contradiction.
Qed.

Lemma pair_some_inj {A B} (a c : A) (b d : B) : (a, Some b) = (c, Some d) -> a = c /\ b = d.
Proof. now intros [= -> ->]. Qed.

(** C29: If profile_quad.cpp exits with 0, core 0 retired the completing instruction
    within [--timeout] clocks and nothing ended the run before; the last error code in
    the first megabyte of the UART output is not positive; and, when the detectors
    are compiled in, none of them counted a violation over the whole run. *)
Theorem quad_pass_verified `{Model} `{!Nets} WEDGE checks completion max_cycles interval bytes tb s :
  0 <= max_cycles < 2 ^ 64 ->
  quad_main WEDGE checks completion max_cycles interval (Some bytes) tb = (0, Some s) ->
  let x := (load_image (Some bytes) (do_reset (tb, 0))).2.1 in
  exists m, Z.of_nat m <= max_cycles /\ completes completion (after x m) /\
    (forall j, (0 < j < m)%nat -> outcome_at (done_verdict completion) x j = None) /\
    bytes_of (printed (base s)) = quad_bytes x m /\ bench_error (first_mb (quad_bytes x m)) <= 0 /\
    (checks = true -> violations (detectors WEDGE true x m) = 0).
Proof.
  intros Hm Hq. cbv zeta.
  destruct (quad_run WEDGE checks completion max_cycles interval bytes tb Hm) as (code & s' & m & E & L1 & L2 & L3 & L4).
  rewrite E in Hq. apply pair_some_inj in Hq as [Hc ->]. clear E. revert L2 L3 L4 Hc. generalize (load_image (Some bytes) (do_reset (tb, 0))).2.1 as x.
  intros x L2 L3 L4 Hc. exists m. split; [exact L1|]. apply final_code_zero in Hc as (-> & Hb & Hv).
  destruct L3 as [[_ L3]|[_ [=]]]. split; [apply outcome_pass, L3|]. split; [exact L2|]. split; [exact L4|]. split; [exact Hb|].
  intros ->. apply Hv. reflexivity.
Qed.

(** ** The error code in the log *)

Lemma rfind_app k l r a : rfind k l = Some r -> rfind k (a ++ l) = Some r.
Proof. intros E. induction a as [|c a IH]; [exact E|]. cbn. rewrite IH. reflexivity. Qed.

Lemma rfind_skip c l : c <> 101 -> rfind key l = None -> rfind key (c :: l) = None.
Proof. intros Hc Hl. cbn [rfind]. rewrite Hl. change key with (101 :: tl key). cbn [prefix]. destruct (Z.eqb_spec 101 c); [congruence|reflexivity]. Qed.

Lemma digits_dec ds c l v : Forall is_digit ds -> ~ is_digit c ->
  digits v (ds ++ c :: l) = fold_left (fun v d => 10 * v + (d - 48)) ds v.
Proof.
  intros Hd Hc. revert v. induction Hd as [|d ds Hd _ IH]; intros v; cbn [app digits fold_left].
  - destruct (Z.leb_spec 48 c), (Z.leb_spec c 57); try reflexivity. exfalso. apply Hc. unfold is_digit. lia.
  - unfold is_digit in Hd. destruct (Z.leb_spec 48 d), (Z.leb_spec d 57); try lia. cbn [andb]. apply IH.
Qed.

Lemma atoi_decimal n out l : 0 <= n < 2 ^ 31 -> decimal n out -> atoi (out ++ 10 :: l) = n.
Proof.
  intros Hn (ds & -> & Hf & Hv & Hne & _). destruct (Z.ltb_spec n 0); [lia|]. cbn [app].
  destruct ds as [|d ds]; [contradiction|]. pose proof (digits_dec (d :: ds) 10 l 0 Hf ltac:(unfold is_digit; lia)) as Hd.
  change (fold_left _ (d :: ds) 0) with (dec_value (d :: ds)) in Hd. rewrite Hv, Z.abs_eq in Hd by lia.
  assert (Hdd : is_digit d) by (inversion Hf; assumption). unfold is_digit in Hdd. unfold atoi.
  cbn [app skip_blanks]. unfold is_blank. destruct (Z.eqb_spec d 32); [lia|].
  destruct (Z.leb_spec 9 d), (Z.leb_spec d 13); try lia; cbn [orb andb].
  assert (E : s32 (Z.min (2 ^ 63 - 1) (digits 0 ((d :: ds) ++ 10 :: l))) = n)
    by (rewrite Hd, Z.min_r by lia; apply s32_id; unfold is_s32; lia).
  cbn [app] in E. destruct d as [|p|p]; try lia. do 6 (destruct p; try exact E; try lia).
Qed.

(** The report of a benchmark, followed by more output without the key. *)
Lemma scrape_report pre post n test ver out : Kernels.report 0 n test ver = Some out -> 0 <= verify n test ver < 2 ^ 31 ->
  rfind key post = None -> bench_error (pre ++ out ++ post) = verify n test ver.
Proof.
  intros Hr Hv Hp. unfold Kernels.report in Hr. cbn [Z.eqb] in Hr.
  destruct (decimal_ok (verify n test ver) ltac:(lia)) as (d & Ed & Hd). rewrite Ed in Hr.
  assert (E1 : uart_send_string (cstr msg_error_code) = Some msg_error_code) by reflexivity.
  assert (E2 : uart_send_string (cstr [10]) = Some [10]) by reflexivity. rewrite E1, E2, !out_app_some in Hr.
  apply (f_equal (default [])) in Hr. cbn [default from_option id] in Hr. subst out. clear E1 E2.
  assert (Em : msg_error_code = firstn 21 msg_error_code ++ key) by reflexivity.
  revert Em. generalize (firstn 21 msg_error_code) as text. intros text ->.
  assert (Hk : rfind key (key ++ d ++ 10 :: post) = Some (d ++ 10 :: post)).
  { assert (Ht : rfind key (d ++ 10 :: post) = None).
    { destruct Hd as (ds & -> & Hf & _). assert (H10 : rfind key (10 :: post) = None) by (apply rfind_skip; [lia|exact Hp]).
      assert (Hds : rfind key (ds ++ 10 :: post) = None).
      { clear - Hf H10. induction Hf as [|c ds Hc _ IH]; [exact H10|]. cbn [app]. apply rfind_skip; [unfold is_digit in Hc; lia|exact IH]. }
      destruct (_ <? 0); [apply rfind_skip; [lia|exact Hds]|exact Hds]. }
    revert Ht. generalize (d ++ 10 :: post) as l. intros l Hl. change key with [101; 114; 114; 111; 114; 32; 99; 111; 100; 101; 58; 32] in *.
    cbn [app rfind]. rewrite Hl. reflexivity. }
  unfold bench_error. replace (pre ++ _ ++ post) with ((pre ++ text) ++ key ++ d ++ 10 :: post) by (rewrite <- !app_assoc; reflexivity).
  rewrite (rfind_app _ _ _ _ Hk). apply atoi_decimal; [lia|exact Hd].
Qed.

Lemma first_mb_all l : Z.of_nat (List.length l) <= UART_LOG_MAX -> first_mb l = l.
Proof. intros Hl. unfold first_mb. apply firstn_all2. lia. Qed.

(** A benchmark that computed a wrong result never passes: if the first megabyte of
    the UART output holds the report of [verify] with a nonzero result, and no other
    error code after it, profile_quad.cpp does not exit with 0, however the program
    reached its done PC. *)
Theorem quad_wrong_result_fails `{Model} `{!Nets} WEDGE checks completion max_cycles interval bytes tb code s pre post n test ver out :
  0 <= max_cycles < 2 ^ 64 ->
  quad_main WEDGE checks completion max_cycles interval (Some bytes) tb = (code, Some s) ->
  bytes_of (printed (base s)) = pre ++ out ++ post -> Z.of_nat (List.length (pre ++ out ++ post)) <= UART_LOG_MAX ->
  Kernels.report 0 n test ver = Some out -> 0 < verify n test ver < 2 ^ 31 -> rfind key post = None -> code <> 0.
Proof.
  intros Hm Hq Hb Hl Hr Hv Hp ->.
  destruct (quad_run WEDGE checks completion max_cycles interval bytes tb Hm) as (c & s' & m & E & _ & _ & _ & L4).
  rewrite E in Hq. apply pair_some_inj in Hq as [Hc ->]. clear E. apply final_code_zero in Hc as (_ & Hc & _).
  rewrite <- L4, Hb, (first_mb_all _ Hl), (scrape_report pre post n test ver out Hr ltac:(lia) Hp) in Hc. lia.
Qed.

(** ** Witnesses *)

(** After reset and load: core 0 shows "A" and retires, shows "B", and retires the done PC. *)
Definition boot_frames : list (list core_ports) := replicate 43 (replicate 4 idle_core).
Definition one (c : core_ports) : list core_ports := [c; idle_core; idle_core; idle_core].
Definition shows (b : Z) (c : core_ports) : core_ports := { { c with OutChar_valid := 1 } with OutChar_byte := b }.
Definition short_run : Vsystem :=
  script_system 64 (boot_frames ++ map one [shows 65 (commit_at 0x80000000); shows 66 idle_core; commit_at 0x80000bc8]).
Definition no_done : Completion := {| done_pcs := []; have_a0 := false; a0_val := 0 |}.
Lemma profile_run_spec_witness :
  option_map (fun s => bytes_of (printed s)) (profile_main no_done 100 10 (Some [1; 2; 3]) short_run).2 = Some [65; 66] /\
  let x := (load_image (Some [1; 2; 3]) (do_reset (short_run, 0))).2 in
  let outcome := outcome_at (profile_verdict no_done) x.1 in
  exists code s m, profile_main no_done 100 10 (Some [1; 2; 3]) short_run = (code, Some s) /\
    Z.of_nat m <= 100 /\ (forall j, (0 < j < m)%nat -> outcome j = None) /\
    ((0 < m)%nat /\ outcome m = Some code \/ Z.of_nat m = 100 /\ code = 2 /\ ((0 < m)%nat -> outcome m = None)) /\
    p_cycles s = Z.of_nat m /\ bytes_of (printed s) = uart_bytes x.1 m.
Proof.
  split; [vm_compute; reflexivity|]. cbv zeta.
  exact (profile_run_spec no_done 100 10 [1; 2; 3] short_run (conj (proj1 (Z.leb_le 0 100) eq_refl) eq_refl)).
Defined.

(** A program that reports [n] errors and goes to its done PC. *)
#[local] Instance quiet_nets : Nets := fun _ _ => {| net_ports := ports0; results_memReg := fun _ _ => 0; fifo_memReg := fun _ _ => 0 |}.
Definition report_run (text : list Z) : Vsystem :=
  script_system 64 (boot_frames ++ map (fun b => one (shows b idle_core)) text ++ map one [commit_at 0x80000100]).
Definition done_100 : Completion := {| done_pcs := [0x80000100]; have_a0 := false; a0_val := 0 |}.
Definition quad_example (text : list Z) : Z * option quad_state := quad_main 2000000 true done_100 1000 10 (Some [1; 2; 3]) (report_run text).
Definition state_of (r : Z * option quad_state) : quad_state := default (q_start (short_run, 0)) r.2.

Definition good_text : list Z := default [] (Kernels.report 0 2 [1; 2] [1; 2]).
Lemma quad_pass_verified_witness :
  let x := (load_image (Some [1; 2; 3]) (do_reset (report_run good_text, 0))).2.1 in
  quad_main 2000000 true done_100 1000 10 (Some [1; 2; 3]) (report_run good_text) = (0, Some (state_of (quad_example good_text))) /\
  exists m, Z.of_nat m <= 1000 /\ completes done_100 (after x m) /\
    (forall j, (0 < j < m)%nat -> outcome_at (done_verdict done_100) x j = None) /\
    bytes_of (printed (base (state_of (quad_example good_text)))) = quad_bytes x m /\ bench_error (first_mb (quad_bytes x m)) <= 0 /\
    (true = true -> violations (detectors 2000000 true x m) = 0).
Proof.
  assert (E : quad_main 2000000 true done_100 1000 10 (Some [1; 2; 3]) (report_run good_text) = (0, Some (state_of (quad_example good_text))))
    by (vm_compute; reflexivity).
  generalize (state_of (quad_example good_text)) as s, E. clear E. intros s E. split; [exact E|].
  exact (quad_pass_verified 2000000 true done_100 1000 10 [1; 2; 3] (report_run good_text) s (conj (proj1 (Z.leb_le 0 1000) eq_refl) eq_refl) E).
Defined.

Definition bad_text : list Z := default [] (Kernels.report 0 2 [1; 2] [1; 3]).
Lemma quad_wrong_result_fails_witness : (quad_example bad_text).1 = 4 /\ (quad_example bad_text).1 <> 0.
Proof.
  split; [vm_compute; reflexivity|].
  apply (quad_wrong_result_fails 2000000 true done_100 1000 10 [1; 2; 3] (report_run bad_text) (quad_example bad_text).1
    (state_of (quad_example bad_text)) [] [] 2 [1; 2] [1; 3] bad_text);
    [lia|vm_compute; reflexivity|vm_compute; reflexivity|vm_compute; discriminate|vm_compute; reflexivity|vm_compute; split; reflexivity|vm_compute; reflexivity].
Defined.

(** [profile] ends at its two built-in addresses even when [--done-pc] names another. *)
Lemma done_pc_not_exclusive : profile_verdict done_100 { (script_system 64 []) with core0 := commit_at 0x80000bc8 } =
  Some (0, BenchmarkComplete 0x80000bc8).
Proof. vm_compute. reflexivity. Qed.
