(* ===== verification/Probes.v ===== *)
(** * Five probes that judge what they see: [sim/harness/probes/]

    [image_load_probe.cpp] compares DRAM with the image file, [tty_scan_probe.cpp]
    searches DRAM for console texts while the system runs, [ckpt_uart_index.cpp]
    reads checkpoint headers, [linux_invariants_probe.cpp] runs the detectors of
    [Invariants] over a boot, and [linux_itext_probe.cpp] classifies the words of a
    memory region. The other probes have files of their own, after [Watch].

    Environment variables are arguments; a text that is printed is a value. *)

From Stdlib Require Import String Ascii.
From S2P Require Import Prelude Emulator Libc Rtl Image Invariants Quad Firesim Linuxsim Profrun.
Local Open Scope Z_scope.

(** ** [image_load_probe.cpp] *)

(** [reported] are the lines printed: offset, byte in DRAM, byte in the file. *)
Record image_report := { bad : Z; first : Z; last : Z; reported : list (Z * Z * Z) }.
Definition compare_byte (max_report : Z) (dram : vec) (want : list Z) (r : image_report) (k : nat) : image_report :=
  let i := Z.of_nat k in
  let d := vec_get dram i in
  let w := default 0 (want !! k) in
  if d =? w then r
  else {| bad := bad r + 1; first := if bad r =? 0 then i else first r; last := i;
          reported := if bad r <? max_report then reported r ++ [(i, d, w)] else reported r |}.
Definition compare_image (max_report : Z) (dram : vec) (want : list Z) : image_report :=
  fold_left (compare_byte max_report dram want) (seq 0 (List.length want)) {| bad := 0; first := 0; last := 0; reported := [] |}.
Definition image_load_probe `{Model} (max_report : Z) (image : option (list Z)) (tb : Vsystem) : Z * option image_report :=
  match image with
  | None => (2, None)
  | Some want =>
    let r := compare_image max_report (dram (load_image (Some want) (do_reset (tb, 0))).2.1) want in
    (if bad r =? 0 then 0 else 1, Some r)
  end.

(** The offsets below [n] at which DRAM and file differ. *)
Definition differing (dram : vec) (want : list Z) (n : nat) : list nat :=
  List.filter (fun k => negb (vec_get dram (Z.of_nat k) =? default 0 (want !! k))) (seq 0 n).

(** The probe counts the differences, knows the first and the last of them, and
    prints the first [max_report]. *)
Lemma compare_image_spec max_report dram want : 0 <= max_report ->
  let r := compare_image max_report dram want in
  let d := differing dram want (List.length want) in
  bad r = Z.of_nat (List.length d) /\
  (0 < bad r -> Some (first r) = option_map Z.of_nat (head d) /\ Some (last r) = option_map Z.of_nat (list.last d)) /\
  map (fun x => x.1.1) (reported r) = map Z.of_nat (firstn (Z.to_nat max_report) d).
Proof.
  intros Hm. unfold compare_image. cbv zeta. generalize (List.length want) as n. induction n as [|n IH].
  { unfold differing. cbn [seq List.filter fold_left bad reported List.length map]. rewrite firstn_nil. repeat split; try reflexivity; cbn in *; lia. }
  rewrite seq_S, fold_left_app, Nat.add_0_l. cbn [fold_left].
  assert (Ed : differing dram want (S n) = differing dram want n ++
    (if vec_get dram (Z.of_nat n) =? default 0 (want !! n) then [] else [n])).
  { unfold differing. rewrite seq_S, List.filter_app, Nat.add_0_l. cbn [List.filter]. destruct (_ =? _); reflexivity. }
  rewrite Ed. clear Ed. set (r := fold_left _ _ _) in *. set (d := differing dram want n) in *. clearbody r d.
  destruct IH as (I1 & I2 & I3). unfold compare_byte. destruct (_ =? _); [rewrite app_nil_r; auto|]. cbn [bad first last reported].
  rewrite length_app. cbn [List.length]. split; [lia|]. split.
  - intros _. rewrite last_snoc. split; [|reflexivity]. destruct (Z.eqb_spec (bad r) 0) as [E|E].
    + destruct d; [reflexivity|cbn in I1; lia].
    + destruct d as [|a d]; [cbn in I1; lia|]. apply I2. lia.
  - destruct (Z.ltb_spec (bad r) max_report).
    + rewrite map_app, I3. cbn [map fst]. rewrite !firstn_all2 by (rewrite ?length_app; cbn [List.length]; lia).
      rewrite map_app. reflexivity.
    + rewrite I3, firstn_app. replace (Z.to_nat max_report - List.length d)%nat with 0%nat by lia. rewrite firstn_O, app_nil_r. reflexivity.
Qed.

(** ** [tty_scan_probe.cpp] *)

(** The probe's own console line: the buffer, and the lines printed. *)
Definition con_char (x : list Z * list (list Z)) (c : Z) : list Z * list (list Z) :=
  let '(linebuf, lines) := x in
  if (c =? 10) || (510 <=? Z.of_nat (List.length linebuf)) then ([], lines ++ [linebuf])
  else if negb (c =? 13) then (linebuf ++ [c], lines) else x.
(** The byte that finds the buffer full is lost. *)
Lemma con_char_loses_byte : fold_left con_char (replicate 510 65 ++ [66; 67]) ([], []) = ([67], [replicate 510 65]).
Proof. vm_compute. reflexivity. Qed.

Section Scan.
Context (dram_sz : Z) (at_ : Z -> Z).

(** [memcmp(dram + off, nd, nl) == 0] *)
Fixpoint matches (off : Z) (nd : list Z) : bool :=
  match nd with [] => true | c :: nd => (at_ off =? c) && matches (off + 1) nd end.

(** [for (off = 0; off + nl < dram_sz; ++off)]: the offsets reported, at most four.
    After a hit the needle is skipped, and one byte more. [None]: out of fuel. *)
Fixpoint scan (fuel : nat) (nd : list Z) (off : Z) (hits : list Z) : option (list Z) :=
  if off + Z.of_nat (List.length nd) <? dram_sz then
    match fuel with
    | O => None
    | S fuel =>
      if matches off nd then
        let hits := hits ++ [off] in
        if 4 <=? Z.of_nat (List.length hits) then Some hits else scan fuel nd (off + Z.of_nat (List.length nd) + 1) hits
      else scan fuel nd (off + 1) hits
    end
  else Some hits.
Definition scan_needle (nd : list Z) : option (list Z) := scan (Z.to_nat dram_sz) nd 0 [].

Definition occurs (nd : list Z) (off : Z) : Prop := off + Z.of_nat (List.length nd) < dram_sz /\ matches off nd = true.

Lemma scan_spec nd fuel : forall off hits, dram_sz - off <= Z.of_nat fuel -> 0 <= off ->
  exists r, scan fuel nd off hits = Some (hits ++ r) /\ Forall (fun o => off <= o /\ occurs nd o) r /\
    (r = [] -> forall o, off <= o -> ~ occurs nd o).
Proof.
  induction fuel as [|fuel IH]; intros off hits Hf Ho; cbn [scan].
  - destruct (Z.ltb_spec (off + Z.of_nat (List.length nd)) dram_sz); [lia|]. exists []. rewrite app_nil_r.
    split; [reflexivity|]. split; [constructor|]. intros _ o Hle [Hlt _]. lia.
  - destruct (Z.ltb_spec (off + Z.of_nat (List.length nd)) dram_sz) as [Hlt|Hge].
    + destruct (matches off nd) eqn:Em.
      * assert (Hocc : off <= off /\ occurs nd off) by (split; [lia|split; assumption]).
        destruct (4 <=? _); [exists [off]; split; [reflexivity|]; split; [repeat constructor; apply Hocc|discriminate]|].
        destruct (IH (off + Z.of_nat (List.length nd) + 1) (hits ++ [off]) ltac:(lia) ltac:(lia)) as (r & -> & Hr & _).
        exists (off :: r). rewrite <- app_assoc. split; [reflexivity|]. split; [|discriminate].
        constructor; [exact Hocc|]. eapply Forall_impl; [exact Hr|]. intros o [H1 H2]. split; [lia|exact H2].
      * destruct (IH (off + 1) hits ltac:(lia) ltac:(lia)) as (r & -> & Hr & Hn). exists r. split; [reflexivity|]. split.
        -- eapply Forall_impl; [exact Hr|]. intros o [H1 H2]. split; [lia|exact H2].
        -- intros E o Hle Hoc. destruct (Z.eq_dec o off) as [->|]; [destruct Hoc as [_ Hm]; congruence|]. apply (Hn E o); [lia|exact Hoc].
    + exists []. rewrite app_nil_r. split; [reflexivity|]. split; [constructor|]. intros _ o Hle [H1 _]. lia.
Qed.

(** The scan ends; every hit is an occurrence, and NOT FOUND means there is none
    (the last place a needle fits in is not looked at). *)
Theorem scan_needle_exact nd :
  exists hits, scan_needle nd = Some hits /\ Forall (occurs nd) hits /\ (hits = [] <-> forall o, 0 <= o -> ~ occurs nd o).
Proof.
  destruct (scan_spec nd (Z.to_nat dram_sz) 0 [] ltac:(lia) ltac:(lia)) as (r & E & Hr & Hn). exists r. split; [exact E|].
  split; [eapply Forall_impl; [exact Hr|]; intros o [_ Ho]; exact Ho|]. split; [exact Hn|].
  intros Hno. destruct r as [|o r]; [reflexivity|]. apply Forall_cons in Hr as [[H1 H2] _]. exfalso. exact (Hno o H1 H2).
Qed.
End Scan.

(** A needle at the very end of memory is not found. *)
Lemma scan_misses_end : scan_needle 4 (fun i => if i =? 2 then 65 else if i =? 3 then 66 else 0) [65; 66] = Some [].
Proof. vm_compute. reflexivity. Qed.

Definition needles : list (list Z) :=
  [str "mounting sysfs"; str "mounting devpts"; str "can't read '/proc/mounts'"; str "Starting syslogd"; str "Starting network";
   str "Welcome to Buildroot"; str "buildroot login"; str "seedrng"].

(** [console] is the line buffer and the lines; a scan is its cycle and the hits of each needle. *)
Record tty_scan `{Verilated} := mktty {
  s_tb : Vsystem; s_cyc : Z; next_scan : Z; tx_prev : list bool; console : list Z * list (list Z);
  scans : list (Z * list (option (list Z))); prog : list (Z * list Z) }.
Section TtyScan.
Context `{Model} (END SCAN_STEP : Z).
Definition tty_port (s : tty_scan) (p : nat) : tty_scan :=
  let c := core (s_tb s) (Z.of_nat p) in
  let v := negb (OutChar_valid c =? 0) in
  let s := if v && negb (default false (tx_prev s !! p)) then { s with console ::= (fun x => con_char x (OutChar_byte c)) } else s in
  { s with tx_prev ::= <[p := v]> }.
Definition tty_cycle (s : tty_scan) : tty_scan :=
  let s := { { s with s_tb ::= tick_nodump } with s_cyc := u64 (s_cyc s + 1) } in
  let s := fold_left tty_port harts4 s in
  let s := if s_cyc s mod 20000000 =? 0
           then { s with prog ::= (fun l => l ++ [(s_cyc s, map (fun h => pc (core (s_tb s) (Z.of_nat h))) harts4)]) } else s in
  if s_cyc s <? next_scan s then s
  else
    let d := dram (s_tb s) in
    { { s with next_scan := u64 (next_scan s + SCAN_STEP) }
        with scans ::= (fun l => l ++ [(s_cyc s, map (scan_needle (vec_size d) (vec_get d)) needles)]) }.
Fixpoint tty_loop (n : nat) (s : tty_scan) : tty_scan :=
  match n with O => s | S n => if s_cyc s <? END then tty_loop n (tty_cycle s) else s end.
Definition tty_scan_main (SCAN_FROM : Z) (tb : Vsystem) : tty_scan :=
  tty_loop (Z.to_nat END) (mktty _ tb 0 SCAN_FROM [false; false; false; false] ([], []) [] []).
End TtyScan.

(** ** [ckpt_uart_index.cpp] *)

(** The leading 64-bit words of a checkpoint: what [linux_sim.cpp] writes before the
    model, and what this tool reads: cycle and UART byte count. *)
Definition linux_sim_header `{Verilated} (k : checkpoint) : list Z := [magic k; version k; cyc k; saved_steps k].
Definition probe_header (cyc : Z) (msip : list Z) (last_uart uart_bytes : Z) : list Z := cyc :: msip ++ [last_uart; uart_bytes].
Definition uart_index (words : list Z) : Z * Z := (default 0 (words !! 0%nat), default 0 (words !! 6%nat)).

Lemma uart_index_of_probe cyc m0 m1 m2 m3 last n : uart_index (probe_header cyc [m0; m1; m2; m3] last n) = (cyc, n).
Proof. reflexivity. Qed.
(** On a checkpoint of [linux_sim] the tool prints the magic number as the cycle. *)
Lemma uart_index_of_linux_sim `{Verilated} s model : (uart_index (linux_sim_header (checkpoint_of s) ++ model)).1 = kCkptMagic.
Proof. reflexivity. Qed.

(** ** [linux_invariants_probe.cpp] *)

Section LinuxInvariants.
Context `{Model} `{!Nets} (WEDGE END EVERY : Z).
(** The model, the detectors, the violation counts printed on the way. *)
Definition inv_cycle (x : Vsystem * chiron_invariants * list (Z * Z)) (k : nat) : Vsystem * chiron_invariants * list (Z * Z) :=
  let '(tb, inv, said) := x in
  let cyc := Z.of_nat k in
  let '(tb, inv) := tick_checked WEDGE tb inv cyc in
  (tb, inv, if negb (EVERY =? 0) && negb (cyc =? 0) && (cyc mod EVERY =? 0) then said ++ [(cyc, violations inv)] else said).
Definition linux_invariants_main (tb : Vsystem) : Z * list (Z * Z) :=
  let '(_, inv, said) := fold_left inv_cycle (seq 0 (Z.to_nat END)) (tb, invariants_new, []) in (report inv, said).

Lemma inv_cycles tb n : exists said, fold_left inv_cycle (seq 0 n) (tb, invariants_new, []) =
  (Firesim.after tb n, detectors WEDGE true tb n, said).
Proof.
  induction n as [|n [said IH]]; [exists []; reflexivity|]. rewrite seq_S, fold_left_app, IH, Nat.add_0_l. cbn [fold_left inv_cycle].
  unfold inv_cycle. cbn [detectors]. set (p := tick_checked _ _ _ _). assert (Ep : p.1 = Firesim.after tb (S n)) by reflexivity.
  destruct p as [tb' inv']. cbn [fst snd] in *. subst tb'. eexists. reflexivity.
Qed.

(** The exit status is 0 exactly when no detector counted anything in the boot, and
    a profiling run of as many clocks would have counted the same. *)
Theorem linux_invariants_exit tb : (linux_invariants_main tb).1 = 0 <-> violations (detectors WEDGE true tb (Z.to_nat END)) = 0.
Proof.
  unfold linux_invariants_main. destruct (inv_cycles tb (Z.to_nat END)) as [said ->]. cbn [fst]. unfold report.
  destruct (Z.eqb_spec (violations (detectors WEDGE true tb (Z.to_nat END))) 0); split; congruence.
Qed.
End LinuxInvariants.

(** ** [linux_itext_probe.cpp] *)

Section Itext.
Context `{Verilated} (bench : simulator).
Definition word_here (a : Z) : Z :=
  let dw := read_dram64 bench (Z.land a (u64 (Z.lnot 7))) in
  if Z.land a 4 =? 0 then u32 dw else u32 (Z.shiftr dw 32).
Definition looks_legal (w : Z) : bool := (Z.land w 3 =? 3) && negb (w =? 0).
Inductive word_class := LegalLooking | ZeroWord | NotAnInsn.
Definition classify (w : Z) : word_class := if looks_legal w then LegalLooking else if w =? 0 then ZeroWord else NotAnInsn.
(** The restore is left out (the bench is the restored one). The lines of the dump, and the counts of zero, nonzero and legal-looking words. *)
Definition itext_dump (ADDR WORDS : Z) : list (Z * Z * word_class) :=
  let base := if 32 <=? ADDR then ADDR - 32 else ADDR in
  map (fun i => let a := u64 (base + Z.of_nat i * 4) in (a, word_here a, classify (word_here a))) (seq 0 (Z.to_nat WORDS)).
Definition count_class (f : word_class -> bool) (l : list (Z * Z * word_class)) : Z := Z.of_nat (List.length (List.filter (fun x => f x.2) l)).
Definition itext_summary (l : list (Z * Z * word_class)) : Z * Z * Z :=
  (count_class (fun c => match c with ZeroWord => true | _ => false end) l,
   count_class (fun c => match c with ZeroWord => false | _ => true end) l,
   count_class (fun c => match c with LegalLooking => true | _ => false end) l).
Definition dram_holds_code (l : list (Z * Z * word_class)) : bool := 0 <? (itext_summary l).2.

(** Scan mode: the chunks in which one of the sampled words is not zero (the first
    40 are printed) and the number of chunks, for a positive stride and a range
    whose last step does not wrap. *)
Definition chunk_any (stride a : Z) : bool :=
  existsb (fun k => negb (read_dram64 bench (Z.land (u64 (a + 8 * Z.of_nat k)) (u64 (Z.lnot 7))) =? 0))
    (seq 0 (Z.to_nat ((Z.min stride 256 + 7) / 8))).
Definition itext_scan (lo hi stride : Z) : list Z * Z :=
  let chunks := map (fun k => lo + stride * Z.of_nat k) (seq 0 (Z.to_nat ((hi - lo + stride - 1) / stride))) in
  (List.filter (chunk_any stride) chunks, Z.of_nat (List.length chunks)).

(** The two halves of a doubleword are read as the two words in it. *)
Lemma word_here_halves a : a mod 8 = 0 -> 0 <= a < 2 ^ 63 -> is_u64 (read_dram64 bench a) ->
  word_here a + 2 ^ 32 * word_here (a + 4) = read_dram64 bench a.
Proof.
  intros Ha Hr Hd. unfold word_here. change (u64 (Z.lnot 7)) with (Z.shiftl (Z.ones 61) 3).
  assert (Hal : forall b, a <= b < a + 8 -> Z.land b (Z.shiftl (Z.ones 61) 3) = a).
  { intros b Hb. transitivity (align8 b); [reflexivity|]. rewrite align8_spec by lia. zlia. }
  assert (H4 : forall b, (Z.land b 4 =? 0) = (b / 4 mod 2 =? 0)).
  { intros b. change 4 with (2 ^ 2). rewrite <- Z.testbit_spec' by lia.
    assert (Z.land b (2 ^ 2) = if Z.testbit b 2 then 2 ^ 2 else 0) as ->; [|by destruct (Z.testbit b 2)].
    apply Z.bits_inj'. intros i Hi. rewrite Z.land_spec, Z.pow2_bits_eqb by lia.
    destruct (Z.eqb_spec 2 i) as [<-|Hne]; [by destruct (Z.testbit b 2)|].
    rewrite andb_false_r. destruct (Z.testbit b 2); [|by rewrite Z.bits_0].
    rewrite Z.pow2_bits_eqb by lia. destruct (Z.eqb_spec 2 i); congruence. }
  rewrite !Hal, !H4 by lia.
  replace (a / 4 mod 2) with 0 by zlia. replace ((a + 4) / 4 mod 2) with 1 by zlia.
  cbn [Z.eqb]. rewrite Z.shiftr_div_pow2 by lia. unfold u32, is_u64 in *. change (2 ^ 32) with 0x100000000. zlia.
Qed.
End Itext.
