(* ===== verification/Json.v ===== *)
(** * Reports: numbers as C++ streams print them, and JSON

    What [print_json] of the profilers relies on: decimal output of integers, output
    of doubles under [std::fixed] with a precision, the padding of [printf].
    [parse_json] is a parser for the JSON grammar (RFC 8259), written independently
    of what the program prints; the lemmas say how it reads the pieces of a
    document that is laid out one member per line. *)

From Stdlib Require Import String Ascii SpecFloat.
From S2P Require Import Prelude Libc Double.
Local Open Scope Z_scope.
Local Notation text := (list Z).

(** ** Decimal output *)

Fixpoint dec_digits (fuel : nat) (n : Z) : text :=
  match fuel with O => [] | S fuel => (if n <? 10 then [] else dec_digits fuel (n / 10)) ++ [48 + n mod 10] end.
(** [ss << n] for an unsigned number; a number has no more digits than bits. *)
Definition dec_nat (n : Z) : text := dec_digits (S (Z.to_nat (Z.log2 n))) n.
Definition dec_int (n : Z) : text := (if n <? 0 then [45] else []) ++ dec_nat (Z.abs n).
(** The last [p] digits of [n], zeros included. *)
Fixpoint digits_w (p : nat) (n : Z) : text := match p with O => [] | S p => digits_w p (n / 10) ++ [48 + n mod 10] end.

(** [a / b] rounded to the nearest integer, ties to even. *)
Definition div_even (a b : Z) : Z :=
  let q := a / b in let r := a mod b in
  if 2 * r <? b then q else if b <? 2 * r then q + 1 else if Z.even q then q else q + 1.
(** The magnitude of [x] in units of [10 ^ -p]. *)
Definition scaled (p : nat) (x : double) : Z :=
  match x with
  | S754_finite _ m e =>
    if 0 <=? e then Zpos m * 2 ^ e * 10 ^ Z.of_nat p else div_even (Zpos m * 10 ^ Z.of_nat p) (2 ^ (- e))
  | _ => 0
  end.
Definition fixed_digits (p : nat) (n : Z) : text :=
  dec_nat (n / 10 ^ Z.of_nat p) ++ match p with O => [] | _ => 46 :: digits_w p n end.
(** [ss << std::fixed << std::setprecision(p) << x], and [%.<p>f]. *)
Definition fixed (p : nat) (x : double) : text :=
  match x with
  | S754_zero s | S754_finite s _ _ => (if s then [45] else []) ++ fixed_digits p (scaled p x)
  | S754_infinity s => (if s then [45] else []) ++ str "inf"
  | S754_nan => str "nan"
  end.

(** [%<w>] of [printf]: at least [w] characters, blanks on the left. *)
Definition pad (w : nat) (t : text) : text := replicate (w - List.length t) 32 ++ t.

Example fixed_example : map (fun x => fixed 4 x) [ddiv (of_u64 1) (of_u64 3); ddiv (of_u64 200000) (of_u64 3); of_u64 0; ddiv (of_u64 1) (of_u64 32)] =
  [str "0.3333"; str "66666.6667"; str "0.0000"; str "0.0312"]%string.
Proof. vm_compute. reflexivity. Qed.

(** *** Digits and values *)

Definition digits_of_value (ds : text) (n : Z) : Prop := Forall is_digit ds /\ dec_value ds = n.

Lemma dec_value_snoc ds d : dec_value (ds ++ [d]) = 10 * dec_value ds + (d - 48).
Proof. unfold dec_value. rewrite fold_left_app. reflexivity. Qed.
Lemma dec_value_app a b : dec_value (a ++ b) = dec_value a * 10 ^ Z.of_nat (List.length b) + dec_value b.
Proof. unfold dec_value at 1. rewrite fold_left_app. apply dec_value_from. Qed.

Lemma dec_digits_spec fuel : forall n, 0 <= n < 10 ^ Z.of_nat fuel -> (0 < fuel)%nat ->
  digits_of_value (dec_digits fuel n) n /\ (exists d ds, dec_digits fuel n = d :: ds /\ (d = 48 -> ds = [])).
Proof.
  induction fuel as [|fuel IH]; intros n Hn Hf; [lia|]. rewrite Nat2Z.inj_succ, Z.pow_succ_r in Hn by lia. cbn [dec_digits].
  pose proof (Z.mod_pos_bound n 10 ltac:(lia)) as Hm. pose proof (Z.div_mod n 10 ltac:(lia)) as Hdm.
  destruct (Z.ltb_spec n 10) as [Hs|Hs].
  - split; [split; [repeat constructor; unfold is_digit; lia|cbn; lia]|]. exists (48 + n mod 10), []. auto.
  - assert (Hq : 0 <= n / 10 < 10 ^ Z.of_nat fuel) by lia.
    assert (Hf' : (0 < fuel)%nat) by (destruct fuel; [cbn in Hq; lia|lia]).
    destruct (IH (n / 10) Hq Hf') as ([I1 I2] & d & ds & E & Hd). split; [split|].
    + apply Forall_app. split; [exact I1|]. repeat constructor; unfold is_digit; lia.
    + rewrite dec_value_snoc, I2. lia.
    + exists d, (ds ++ [48 + n mod 10]). rewrite E. split; [reflexivity|]. intros ->. rewrite (Hd eq_refl) in E.
      rewrite E in I2. cbn in I2. lia.
Qed.

Lemma dec_spec n : 0 <= n -> digits_of_value (dec_nat n) n /\ (exists d ds, dec_nat n = d :: ds /\ (d = 48 -> ds = [])).
Proof.
  intros Hn. apply dec_digits_spec; [|lia]. split; [exact Hn|]. rewrite Nat2Z.inj_succ, Z2Nat.id by apply Z.log2_nonneg.
  destruct (Z.eq_dec n 0) as [->|Hne]; [cbn; lia|]. destruct (Z.log2_spec n ltac:(lia)) as [_ Hl].
  eapply Z.lt_le_trans; [exact Hl|]. apply Z.pow_le_mono_l. lia.
Qed.

Lemma digits_w_spec p : forall n, 0 <= n -> digits_of_value (digits_w p n) (n mod 10 ^ Z.of_nat p) /\ List.length (digits_w p n) = p.
Proof.
  induction p as [|p IH]; intros n Hn; cbn [digits_w]; [split; [split; [constructor|rewrite Z.mod_1_r; reflexivity]|reflexivity]|].
  destruct (IH (n / 10) ltac:(apply Z.div_pos; lia)) as ([I1 I2] & I3). pose proof (Z.mod_pos_bound n 10 ltac:(lia)). split; [split|].
  - apply Forall_app. split; [exact I1|]. repeat constructor; unfold is_digit; lia.
  - rewrite dec_value_snoc, I2, Nat2Z.inj_succ, Z.pow_succ_r by lia.
    pose proof (Z.pow_pos_nonneg 10 (Z.of_nat p) ltac:(lia) ltac:(lia)). rewrite Z.rem_mul_r by lia. lia.
  - rewrite length_app, I3. cbn. lia.
Qed.

(** *** [std::fixed] is exact to half a unit of its last digit *)

Lemma div_even_near a b : 0 < b -> Z.abs (2 * (div_even a b * b - a)) <= b.
Proof.
  intros Hb. unfold div_even. pose proof (Z.div_mod a b ltac:(lia)) as E. pose proof (Z.mod_pos_bound a b Hb).
  set (q := a / b) in *. set (r := a mod b) in *. clearbody q r. subst a.
  destruct (Z.ltb_spec (2 * r) b); [lia|]. destruct (Z.ltb_spec b (2 * r)); [lia|]. destruct (Z.even q); lia.
Qed.
Lemma div_even_nonneg a b : 0 <= a -> 0 < b -> 0 <= div_even a b.
Proof. intros Ha Hb. unfold div_even. pose proof (Z.div_pos a b Ha Hb). repeat case_match; lia. Qed.
Lemma scaled_nonneg p x : 0 <= scaled p x.
Proof.
  pose proof (Z.pow_pos_nonneg 10 (Z.of_nat p) ltac:(lia) ltac:(lia)).
  destruct x as [| | |s m e]; cbn [scaled]; try lia. destruct (Z.leb_spec 0 e).
  - pose proof (Z.pow_pos_nonneg 2 e ltac:(lia) ltac:(lia)). nia.
  - apply div_even_nonneg; [nia|]. apply Z.pow_pos_nonneg; lia.
Qed.

(** ** JSON *)

(** [Num m e] is [m * 10 ^ e]. *)
Inductive json :=
  | Null | Bool (b : bool) | Num (m e : Z) | Text (s : text) | Arr (l : list json) | Obj (l : list (text * json)).

Definition is_ws (c : Z) : bool := (c =? 32) || (c =? 10) || (c =? 13) || (c =? 9).
Fixpoint skip_ws (s : text) : text := match s with c :: s' => if is_ws c then skip_ws s' else s | [] => [] end.
Definition digit (c : Z) : bool := (48 <=? c) && (c <=? 57).
Fixpoint take_digits (s : text) : text * text :=
  match s with
  | c :: s' => if digit c then let '(ds, r) := take_digits s' in (c :: ds, r) else ([], s)
  | [] => ([], [])
  end.
(** [expect c s]: [s] without its first character if this is [c]. *)
Definition expect (c : Z) (s : text) : option text := match s with d :: s => if d =? c then Some s else None | [] => None end.
Fixpoint expect_all (w s : text) : option text := match w with [] => Some s | c :: w => expect c s ≫= expect_all w end.

(** [number = [ "-" ] int [ frac ] [ exp ]] *)
Definition parse_frac (s : text) : option (text * text) :=
  match expect 46 s with
  | None => Some ([], s)
  | Some s => let '(ds, s) := take_digits s in match ds with [] => None | _ => Some (ds, s) end
  end.
Definition parse_exp (s : text) : option (Z * text) :=
  match s with
  | c :: s' =>
    if (c =? 101) || (c =? 69) then
      let '(sign, s') := match s' with d :: s'' => if d =? 45 then (-1, s'') else if d =? 43 then (1, s'') else (1, s') | [] => (1, []) end in
      let '(ds, s') := take_digits s' in match ds with [] => None | _ => Some (sign * dec_value ds, s') end
    else Some (0, s)
  | [] => Some (0, [])
  end.
Definition parse_number (s : text) : option (json * text) :=
  let '(sign, s) := match expect 45 s with Some s => (-1, s) | None => (1, s) end in
  let '(ip, s) := take_digits s in
  match ip with
  | [] => None
  | d :: ip' =>
    if (d =? 48) && negb (match ip' with [] => true | _ => false end) then None
    else '(fp, s) ← parse_frac s; '(e, s) ← parse_exp s;
      Some (Num (sign * dec_value (ip ++ fp)) (e - Z.of_nat (List.length fp)), s)
  end.

(** A string after its opening quote. [\u] stands for a code unit. *)
Definition hex (c : Z) : option Z :=
  if digit c then Some (c - 48) else if (97 <=? c) && (c <=? 102) then Some (c - 87)
  else if (65 <=? c) && (c <=? 70) then Some (c - 55) else None.
Definition escape (c : Z) : option Z :=
  if (c =? 34) || (c =? 92) || (c =? 47) then Some c else if c =? 98 then Some 8 else if c =? 102 then Some 12
  else if c =? 110 then Some 10 else if c =? 114 then Some 13 else if c =? 116 then Some 9 else None.
Definition chr (c : Z) (r : option (text * text)) : option (text * text) := '(s, rest) ← r; Some (c :: s, rest).
Fixpoint parse_string (s : text) : option (text * text) :=
  match s with
  | [] => None
  | c :: s =>
    if c =? 34 then Some ([], s) else if c <? 32 then None
    else if c =? 92 then
      match s with
      | [] => None
      | d :: s =>
        if d =? 117 then
          match s with
          | h1 :: h2 :: h3 :: h4 :: s =>
            a ← hex h1; b ← hex h2; c ← hex h3; d ← hex h4; chr (((a * 16 + b) * 16 + c) * 16 + d) (parse_string s)
          | _ => None
          end
        else d ← escape d; chr d (parse_string s)
      end
    else chr c (parse_string s)
  end.

(** Values, the members of an object after ["{"] and the elements of an array after
    ["["]. [fuel]: the length of the text is enough. *)
Fixpoint parse_value (fuel : nat) (s : text) : option (json * text) :=
  match fuel with
  | O => None
  | S fuel =>
    match skip_ws s with
    | [] => None
    | c :: s' =>
      if c =? 123 then
        match expect 125 (skip_ws s') with
        | Some r => Some (Obj [], r)
        | None => '(l, r) ← parse_members fuel s'; Some (Obj l, r)
        end
      else if c =? 91 then
        match expect 93 (skip_ws s') with
        | Some r => Some (Arr [], r)
        | None => '(l, r) ← parse_elements fuel s'; Some (Arr l, r)
        end
      else if c =? 34 then '(t, r) ← parse_string s'; Some (Text t, r)
      else if c =? 116 then r ← expect_all (str "rue") s'; Some (Bool true, r)
      else if c =? 102 then r ← expect_all (str "alse") s'; Some (Bool false, r)
      else if c =? 110 then r ← expect_all (str "ull") s'; Some (Null, r)
      else parse_number (c :: s')
    end
  end
with parse_members (fuel : nat) (s : text) : option (list (text * json) * text) :=
  match fuel with
  | O => None
  | S fuel =>
    s ← expect 34 (skip_ws s); '(k, s) ← parse_string s; s ← expect 58 (skip_ws s); '(v, s) ← parse_value fuel s;
    match skip_ws s with
    | c :: r =>
      if c =? 125 then Some ([(k, v)], r)
      else if c =? 44 then '(l, r) ← parse_members fuel r; Some ((k, v) :: l, r) else None
    | [] => None
    end
  end
with parse_elements (fuel : nat) (s : text) : option (list json * text) :=
  match fuel with
  | O => None
  | S fuel =>
    '(v, s) ← parse_value fuel s;
    match skip_ws s with
    | c :: r =>
      if c =? 93 then Some ([v], r) else if c =? 44 then '(l, r) ← parse_elements fuel r; Some (v :: l, r) else None
    | [] => None
    end
  end.
(** A text is one value, with blanks around it. *)
Definition parse_json (s : text) : option json :=
  match parse_value (List.length s) s with
  | Some (v, r) => match skip_ws r with [] => Some v | _ => None end
  | None => None
  end.

Definition quoted (s : text) : text := 34 :: s ++ [34].
Example parse_json_example :
  parse_json (str " { " ++ quoted (str "a") ++ str ": [1, -2.50, 1e3, true],"  ++ quoted (str "b") ++ str ":{}}") =
  Some (Obj [(str "a", Arr [Num 1 0; Num (-250) (-2); Num 1 3; Bool true]); (str "b", Obj [])])%string.
Proof. vm_compute. reflexivity. Qed.
Example parse_json_rejects : map parse_json [str "{"; str "01"; str "1."; str "nan"; str "[1,]"; str "1 2"]%string = replicate 6 None.
Proof. vm_compute. reflexivity. Qed.

(** *** Reading what was printed *)

(** What follows a value in a document: a comma or the end of the line. *)
Definition ends (r : text) : Prop := match r with [] => True | c :: _ => c = 44 \/ c = 10 end.
Definition blank (t : text) : Prop := Forall (fun c => c = 32) t.
(** Characters a JSON string may hold as they are. *)
Definition plain (t : text) : Prop := Forall (fun c => 32 <= c /\ c <> 34 /\ c <> 92) t.

(** [t] is read as [v]. *)
Definition reads (t : text) (v : json) : Prop :=
  forall fuel r, (List.length t <= fuel)%nat -> ends r -> parse_value fuel (t ++ r) = Some (v, r).
(** [t] is read as the members [l], up to the brace on a line of its own; elements likewise. *)
Definition reads_members (t : text) (l : list (text * json)) : Prop :=
  forall fuel i r, (List.length t <= fuel)%nat -> blank i -> parse_members fuel (t ++ i ++ 125 :: r) = Some (l, r).
Definition reads_elements (t : text) (l : list json) : Prop :=
  forall fuel i r, (List.length t <= fuel)%nat -> blank i -> parse_elements fuel (t ++ i ++ 93 :: r) = Some (l, r).

Lemma skip_blank i s : blank i -> skip_ws (i ++ s) = skip_ws s.
Proof. induction 1 as [|c i -> _ IH]; [reflexivity|]. exact IH. Qed.

Lemma take_digits_app ds r : Forall is_digit ds -> (match r with [] => True | c :: _ => ~ is_digit c end) -> take_digits (ds ++ r) = (ds, r).
Proof.
  intros Hd Hr. induction Hd as [|d ds Hd _ IH]; cbn [app take_digits].
  - destruct r as [|c r]; [reflexivity|]. cbn [take_digits]. unfold digit. unfold is_digit in Hr. destruct (Z.leb_spec 48 c), (Z.leb_spec c 57); try reflexivity. lia.
  - rewrite IH. unfold digit, is_digit in *. destruct (Z.leb_spec 48 d), (Z.leb_spec d 57); try lia. reflexivity.
Qed.

Lemma ends_not_digit r : ends r -> match r with [] => True | c :: _ => ~ is_digit c end.
Proof. destruct r as [|c r]; [auto|]. unfold is_digit. cbn. lia. Qed.
Lemma parse_exp_ends r : ends r -> parse_exp r = Some (0, r).
Proof. destruct r as [|c r]; [reflexivity|]. cbn. intros [->| ->]; reflexivity. Qed.
Lemma expect_ends c r : ends r -> c <> 44 -> c <> 10 -> expect c r = None.
Proof. destruct r as [|d r]; [reflexivity|]. cbn. intros Hd H1 H2. destruct (Z.eqb_spec d c); [lia|reflexivity]. Qed.

Lemma parse_value_number fuel c s : c = 45 \/ is_digit c -> parse_value (S fuel) (c :: s) = parse_number (c :: s).
Proof.
  unfold is_digit. intros Hc. cbn [parse_value skip_ws].
  replace (is_ws c) with false by (unfold is_ws; repeat case_match; lia).
  replace (c =? 123) with false by lia. replace (c =? 91) with false by lia. replace (c =? 34) with false by lia.
  replace (c =? 116) with false by lia. replace (c =? 102) with false by lia. replace (c =? 110) with false by lia. reflexivity.
Qed.

(** A number: a sign, an integer part without leading zero, digits after a point. *)
Definition number_text (neg : bool) (n : Z) (fp : text) : text :=
  (if neg then [45] else []) ++ dec_nat n ++ match fp with [] => [] | _ => 46 :: fp end.
Lemma parse_number_text neg n fp r : 0 <= n -> Forall is_digit fp -> ends r ->
  parse_number (number_text neg n fp ++ r) =
    Some (Num ((if neg then -1 else 1) * (n * 10 ^ Z.of_nat (List.length fp) + dec_value fp)) (- Z.of_nat (List.length fp)), r).
Proof.
  intros Hn Hf Hr. destruct (dec_spec n Hn) as ([D1 D2] & d & ds & E & Hd).
  assert (Hd0 : is_digit d) by (rewrite E in D1; inversion D1; assumption).
  set (tl := (match fp with [] => [] | _ => 46 :: fp end) ++ r).
  assert (Hsplit : number_text neg n fp ++ r = (if neg then [45] else []) ++ dec_nat n ++ tl) by (unfold number_text, tl; rewrite <- !app_assoc; reflexivity).
  assert (Htl : match tl with [] => True | c :: _ => ~ is_digit c end).
  { unfold tl. destruct fp; [apply ends_not_digit, Hr|]. cbn. unfold is_digit. lia. }
  assert (Hfrac : parse_frac tl = Some (fp, r)).
  { unfold parse_frac, tl. destruct fp as [|f fp']; cbn [app]; [rewrite expect_ends by (exact Hr || lia); reflexivity|].
    cbn [expect]. rewrite Z.eqb_refl. change (f :: fp' ++ r) with ((f :: fp') ++ r). rewrite (take_digits_app (f :: fp') r Hf (ends_not_digit r Hr)). reflexivity. }
  rewrite Hsplit. unfold parse_number.
  assert (Hs : (match expect 45 ((if neg then [45] else []) ++ dec_nat n ++ tl) with Some s => (-1, s) | None => (1, (if neg then [45] else []) ++ dec_nat n ++ tl) end)
    = ((if neg then -1 else 1), dec_nat n ++ tl)).
  { destruct neg; [reflexivity|]. rewrite E. cbn [app expect]. destruct (Z.eqb_spec d 45); [unfold is_digit in Hd0; lia|reflexivity]. }
  rewrite Hs, take_digits_app by assumption. rewrite E at 1.
  replace ((d =? 48) && negb (match ds with [] => true | _ => false end)) with false
    by (destruct (Z.eqb_spec d 48) as [E'|]; [rewrite (Hd E')|]; reflexivity).
  rewrite Hfrac. cbn [mbind option_bind]. rewrite (parse_exp_ends r Hr). cbn [mbind option_bind]. rewrite dec_value_app, D2.
  do 2 f_equal; lia.
Qed.

Lemma reads_number neg n fp : 0 <= n -> Forall is_digit fp ->
  reads (number_text neg n fp) (Num ((if neg then -1 else 1) * (n * 10 ^ Z.of_nat (List.length fp) + dec_value fp)) (- Z.of_nat (List.length fp))).
Proof.
  intros Hn Hf fuel r Hl Hr. rewrite <- (parse_number_text neg n fp r Hn Hf Hr).
  destruct (dec_spec n Hn) as ([D1 _] & d & ds & E & _). assert (Hd0 : is_digit d) by (rewrite E in D1; inversion D1; assumption).
  unfold number_text in *. rewrite E in *. destruct neg; cbn [app List.length] in *; (destruct fuel as [|fuel]; [lia|]); apply parse_value_number; auto.
Qed.

Lemma reads_int n : reads (dec_int n) (Num n 0).
Proof.
  pose proof (reads_number (n <? 0) (Z.abs n) [] ltac:(lia) ltac:(constructor)) as H. unfold number_text in H. rewrite app_nil_r in H.
  change (Z.of_nat (List.length [])) with 0 in H. change (dec_value []) with 0 in H. change (10 ^ 0) with 1 in H. change (- 0) with 0 in H.
  replace ((if n <? 0 then -1 else 1) * (Z.abs n * 1 + 0)) with n in H by (destruct (Z.ltb_spec n 0); lia). exact H.
Qed.

Definition signed (x : double) (n : Z) : Z := match x with S754_zero true | S754_finite true _ _ => - n | _ => n end.
Lemma reads_fixed p x : is_finite x -> reads (fixed p x) (Num (signed x (scaled p x)) (- Z.of_nat p)).
Proof.
  intros Hx. pose proof (scaled_nonneg p x) as Hn. set (n := scaled p x) in *.
  pose proof (Z.pow_pos_nonneg 10 (Z.of_nat p) ltac:(lia) ltac:(lia)) as Hp.
  destruct (digits_w_spec p n Hn) as ([W1 W2] & W3).
  assert (H : forall s : bool, reads ((if s then [45] else []) ++ fixed_digits p n) (Num ((if s then -1 else 1) * n) (- Z.of_nat p))).
  { intros s. pose proof (reads_number s (n / 10 ^ Z.of_nat p) (digits_w p n) ltac:(apply Z.div_pos; lia) W1) as H.
    rewrite W2, W3 in H. replace (n / 10 ^ Z.of_nat p * 10 ^ Z.of_nat p + n mod 10 ^ Z.of_nat p) with n in H by (rewrite Z.mul_comm; apply Z.div_mod; lia).
    unfold number_text in H. unfold fixed_digits. destruct p; [exact H|]. destruct (digits_w (S p) n) eqn:E; [discriminate W3|exact H]. }
  destruct x as [[]|[]| |[] m e]; try contradiction; cbn [signed fixed]; fold n; [specialize (H true)|specialize (H false)|specialize (H true)|specialize (H false)];
    cbn [signed] in *; [replace (- n) with (-1 * n) by lia|replace n with (1 * n) at 2 by lia|replace (- n) with (-1 * n) by lia|replace n with (1 * n) at 2 by lia]; exact H.
Qed.

Lemma parse_string_plain s r : plain s -> parse_string (s ++ 34 :: r) = Some (s, r).
Proof.
  induction 1 as [|c s [H1 [H2 H3]] _ IH]; [reflexivity|]. cbn [app parse_string]. rewrite IH.
  destruct (Z.eqb_spec c 34); [contradiction|]. destruct (Z.ltb_spec c 32); [lia|]. destruct (Z.eqb_spec c 92); [contradiction|reflexivity].
Qed.
Lemma quoted_app s r : quoted s ++ r = 34 :: s ++ 34 :: r.
Proof. unfold quoted. cbn [app]. rewrite <- app_assoc. reflexivity. Qed.
Lemma reads_text s : plain s -> reads (quoted s) (Text s).
Proof.
  intros Hs fuel r Hl Hr. destruct fuel as [|fuel]; [unfold quoted in Hl; cbn in Hl; lia|]. rewrite quoted_app.
  change (parse_value (S fuel) (34 :: s ++ 34 :: r)) with ('(t, r) ← parse_string (s ++ 34 :: r); Some (Text t, r)).
  rewrite (parse_string_plain s r Hs). reflexivity.
Qed.
Lemma reads_bool (b : bool) : reads (if b then str "true" else str "false") (Bool b).
Proof. intros fuel r Hl Hr. destruct b; (destruct fuel as [|fuel]; [cbn in Hl; lia|]); reflexivity. Qed.

(** ** Documents with one member per line *)

(** [<indent>"<name>": <value>] and what ends the line. *)
Definition member (i : text) (name : text) (v : text) : text := i ++ quoted name ++ [58; 32] ++ v.
Definition comma : text := [44; 10].
Definition newline : text := [10].
(** A brace or bracket, lines, and its end on a line of its own. *)
Definition braces (t i : text) : text := [123; 10] ++ t ++ i ++ [125].
Definition brackets (t i : text) : text := [91; 10] ++ t ++ i ++ [93].

Lemma parse_member i name tv v rest fuel : blank i -> plain name -> reads tv v -> ends rest -> (List.length tv <= fuel)%nat ->
  parse_members (S fuel) (member i name tv ++ rest) =
    match skip_ws rest with
    | c :: r => if c =? 125 then Some ([(name, v)], r)
                else if c =? 44 then '(l, r) ← parse_members fuel r; Some ((name, v) :: l, r) else None
    | [] => None
    end.
Proof.
  intros Hi Hname Hv Hr Hl. unfold member. rewrite <- !app_assoc. cbn [parse_members]. rewrite (skip_blank i _ Hi), quoted_app.
  cbn [skip_ws is_ws expect Z.eqb Pos.eqb orb mbind option_bind]. rewrite (parse_string_plain name _ Hname).
  cbn [mbind option_bind app skip_ws is_ws expect Z.eqb Pos.eqb orb].
  destruct fuel as [|fuel]; [destruct tv; [|cbn in Hl; lia]|].
  - specialize (Hv 0%nat rest ltac:(cbn; lia) Hr). discriminate Hv.
  - assert (Hw : parse_value (S fuel) (32 :: tv ++ rest) = Some (v, rest)) by (rewrite <- (Hv (S fuel) rest Hl Hr); reflexivity).
    rewrite Hw. reflexivity.
Qed.

Lemma members_one i name tv v : blank i -> plain name -> reads tv v -> reads_members (member i name tv ++ newline) [(name, v)].
Proof.
  intros Hi Hn Hv fuel j r Hl Hj. destruct fuel as [|fuel]; [unfold member in Hl; rewrite !length_app in Hl; cbn in Hl; lia|].
  rewrite <- app_assoc, (parse_member i name tv v) by
    (assumption || (right; reflexivity) || (unfold member in Hl; rewrite !length_app in Hl; cbn in Hl; lia)).
  cbn [newline app skip_ws is_ws Z.eqb Pos.eqb orb]. rewrite (skip_blank j _ Hj). reflexivity.
Qed.
Lemma members_cons i name tv v t l : blank i -> plain name -> reads tv v -> reads_members t l ->
  reads_members (member i name tv ++ comma ++ t) ((name, v) :: l).
Proof.
  intros Hi Hn Hv Ht fuel j r Hl Hj. assert (Hlen : (List.length tv + List.length t < fuel)%nat)
    by (unfold member, comma in Hl; rewrite !length_app in Hl; cbn in Hl; lia).
  destruct fuel as [|fuel]; [lia|]. rewrite <- !app_assoc, (parse_member i name tv v) by (assumption || (left; reflexivity) || lia).
  cbn [comma app skip_ws is_ws Z.eqb Pos.eqb orb].
  destruct fuel as [|fuel]; [destruct tv, t; cbn in Hlen; try lia; specialize (Hv 0%nat [] ltac:(cbn; lia) I); discriminate Hv|].
  assert (Hw : parse_members (S fuel) (10 :: t ++ j ++ 125 :: r) = parse_members (S fuel) (t ++ j ++ 125 :: r)) by reflexivity.
  rewrite Hw, (Ht (S fuel) j r ltac:(lia) Hj). reflexivity.
Qed.

Lemma reads_braces t l i : reads_members t l -> blank i -> reads (braces t i) (Obj l).
Proof.
  intros Ht Hi fuel r Hl Hr. unfold braces in *. rewrite !length_app in Hl. cbn [List.length] in Hl.
  destruct fuel as [|fuel]; [lia|]. rewrite <- !app_assoc. cbn [app].
  assert (Hm : parse_members fuel (t ++ i ++ 125 :: r) = Some (l, r)) by (apply Ht; [lia|exact Hi]).
  assert (Hne : expect 125 (skip_ws (t ++ i ++ 125 :: r)) = None).
  { destruct fuel as [|fuel']; [discriminate Hm|]. cbn [parse_members] in Hm. destruct (skip_ws (t ++ i ++ 125 :: r)) as [|c s]; [reflexivity|].
    cbn [expect] in *. destruct (Z.eqb_spec c 34) as [->|]; [reflexivity|discriminate Hm]. }
  transitivity (match expect 125 (skip_ws (t ++ i ++ 125 :: r)) with
                | Some r0 => Some (Obj [], r0)
                | None => '(l, r) ← parse_members (S (Nat.pred fuel)) (10 :: t ++ i ++ 125 :: r); Some (Obj l, r) end).
  { destruct fuel as [|fuel]; [discriminate Hm|reflexivity]. }
  rewrite Hne. destruct fuel as [|fuel]; [discriminate Hm|]. cbn [Nat.pred].
  assert (Hs : parse_members (S fuel) (10 :: t ++ i ++ 125 :: r) = parse_members (S fuel) (t ++ i ++ 125 :: r)) by reflexivity.
  rewrite Hs, Hm. reflexivity.
Qed.

(** An element is printed on lines of its own. *)
Lemma parse_blank_value fuel i t v r : blank i -> reads t v -> ends r -> (List.length t <= fuel)%nat ->
  parse_value fuel (i ++ t ++ r) = Some (v, r).
Proof.
  intros Hi Ht Hr Hl. destruct fuel as [|fuel]; [destruct t; [|cbn in Hl; lia]; specialize (Ht 0%nat r ltac:(cbn; lia) Hr); discriminate Ht|].
  rewrite <- (Ht (S fuel) r Hl Hr). cbn [parse_value]. rewrite (skip_blank i _ Hi). reflexivity.
Qed.
Lemma elements_one i t v : blank i -> reads t v -> reads_elements (i ++ t ++ newline) [v].
Proof.
  intros Hi Ht fuel j r Hl Hj. rewrite !length_app in Hl. cbn in Hl. destruct fuel as [|fuel]; [lia|]. rewrite <- !app_assoc.
  cbn [parse_elements]. rewrite (parse_blank_value fuel i t v _ Hi Ht) by ((right; reflexivity) || lia).
  cbn [mbind option_bind newline app skip_ws is_ws Z.eqb Pos.eqb orb]. rewrite (skip_blank j _ Hj). reflexivity.
Qed.
Lemma elements_cons i t v ts l : blank i -> reads t v -> reads_elements ts l -> reads_elements (i ++ t ++ comma ++ ts) (v :: l).
Proof.
  intros Hi Ht Hts fuel j r Hl Hj. rewrite !length_app in Hl. cbn in Hl. destruct fuel as [|fuel]; [lia|]. rewrite <- !app_assoc.
  cbn [parse_elements]. rewrite (parse_blank_value fuel i t v _ Hi Ht) by ((left; reflexivity) || lia).
  cbn [mbind option_bind comma app skip_ws is_ws Z.eqb Pos.eqb orb].
  assert (Hw : forall s, parse_elements fuel (10 :: s) = parse_elements fuel s) by (intros; destruct fuel as [|[|f]]; reflexivity).
  rewrite Hw, (Hts fuel j r ltac:(lia) Hj). reflexivity.
Qed.
Lemma reads_brackets t l i : reads_elements t l -> blank i -> (forall s, expect 93 (skip_ws (t ++ s)) = None) -> reads (brackets t i) (Arr l).
Proof.
  intros Ht Hi Hne fuel r Hl Hr. unfold brackets in *. rewrite !length_app in Hl. cbn [List.length] in Hl.
  destruct fuel as [|fuel]; [lia|]. rewrite <- !app_assoc. cbn [app].
  assert (Hm : parse_elements fuel (10 :: t ++ i ++ 93 :: r) = Some (l, r)).
  { transitivity (parse_elements fuel (t ++ i ++ 93 :: r)); [destruct fuel as [|[|f]]; reflexivity|]. apply Ht; [lia|exact Hi]. }
  transitivity (match expect 93 (skip_ws (t ++ i ++ 93 :: r)) with
                | Some r0 => Some (Arr [], r0)
                | None => '(l, r) ← parse_elements fuel (10 :: t ++ i ++ 93 :: r); Some (Arr l, r) end); [reflexivity|].
  rewrite Hne, Hm. reflexivity.
Qed.

(** A document: a value and the newline after it. *)
Lemma parse_document t v : reads t v -> parse_json (t ++ newline) = Some v.
Proof.
  intros Ht. unfold parse_json. rewrite (Ht _ newline) by ((right; reflexivity) || (rewrite length_app; lia)). reflexivity.
Qed.

(** ** Leaves *)

(** What is printed after a key: an integer, a double with a precision, a flag, a string. *)
Inductive leaf := Int (n : Z) | Dbl (p : nat) (x : double) | Flag (b : bool) | Quoted (s : text).
Definition leaf_text (c : leaf) : text :=
  match c with
  | Int n => dec_int n | Dbl p x => fixed p x | Flag b => if b then str "true" else str "false" | Quoted s => quoted s
  end.
Definition leaf_json (c : leaf) : json :=
  match c with
  | Int n => Num n 0 | Dbl p x => Num (signed x (scaled p x)) (- Z.of_nat p) | Flag b => Bool b | Quoted s => Text s
  end.
Definition leaf_ok (c : leaf) : Prop := match c with Dbl _ x => is_finite x | Quoted s => plain s | _ => True end.
Lemma reads_leaf c : leaf_ok c -> reads (leaf_text c) (leaf_json c).
Proof. destruct c; cbn [leaf_ok leaf_text leaf_json]; intros Hc; [apply reads_int|apply reads_fixed, Hc|apply reads_bool|apply reads_text, Hc]. Qed.

(** The lines of a flat object. *)
Fixpoint fields (i : text) (l : list (string * leaf)) : text :=
  match l with
  | [] => []
  | [(name, c)] => member i (str name) (leaf_text c) ++ newline
  | (name, c) :: l => member i (str name) (leaf_text c) ++ comma ++ fields i l
  end.
Definition fields_json (l : list (string * leaf)) : list (text * json) := map (fun x => (str x.1, leaf_json x.2)) l.
Definition fields_ok (l : list (string * leaf)) : Prop := Forall (fun x => plain (str x.1) /\ leaf_ok x.2) l.
Lemma reads_fields i l : blank i -> l <> [] -> fields_ok l -> reads_members (fields i l) (fields_json l).
Proof.
  intros Hi Hne Hl. induction Hl as [|[name c] l [Hn Hc] Hl IH]; [contradiction|]. destruct l as [|y l].
  - apply members_one; [exact Hi|exact Hn|apply reads_leaf, Hc].
  - change (fields i ((name, c) :: y :: l)) with (member i (str name) (leaf_text c) ++ comma ++ fields i (y :: l)).
    apply (members_cons i (str name) _ (leaf_json c)); [exact Hi|exact Hn|apply reads_leaf, Hc|apply IH; discriminate].
Qed.

(** *** The value read back is the double to half a unit of the last digit *)

(** [|10^p x - n| <= 1/2] for [x = m 2^e]: twice the difference, on the common denominator. *)
Lemma scaled_near p s m e : Z.abs (2 * (scaled p (S754_finite s m e) * 2 ^ Z.max 0 (- e) - Zpos m * 2 ^ Z.max 0 e * 10 ^ Z.of_nat p)) <= 2 ^ Z.max 0 (- e).
Proof.
  cbn [scaled]. destruct (Z.leb_spec 0 e).
  - rewrite (Z.max_r 0 e), (Z.max_l 0 (- e)) by lia. change (2 ^ 0) with 1. lia.
  - rewrite (Z.max_l 0 e), (Z.max_r 0 (- e)) by lia. rewrite Z.mul_1_r.
    apply div_even_near. apply Z.pow_pos_nonneg; lia.
Qed.

(** [n] is [10^p x] to the nearest integer. *)
Definition near (p : nat) (x : double) (n : Z) : Prop :=
  match x with
  | S754_zero _ => n = 0
  | S754_finite s m e =>
    Z.abs (2 * (n * 2 ^ Z.max 0 (- e) - (if s then -1 else 1) * Zpos m * 2 ^ Z.max 0 e * 10 ^ Z.of_nat p)) <= 2 ^ Z.max 0 (- e)
  | _ => False
  end.

(** A finite double printed with [std::fixed] and precision [p] is a JSON number
    with [p] decimals that differs from it by at most half a unit of the last. *)
Theorem fixed_reads_near p x : is_finite x ->
  exists n, parse_json (fixed p x ++ newline) = Some (Num n (- Z.of_nat p)) /\ near p x n.
Proof.
  intros Hx. exists (signed x (scaled p x)). split; [apply parse_document, reads_fixed, Hx|].
  destruct x as [[]|[]| |s m e]; try contradiction; try reflexivity. pose proof (scaled_near p s m e) as Hn.
  destruct s; cbn [signed near]; lia.
Qed.
(** 200000/3 = 66666.666..., and 1/32 = 0.03125, a tie. *)
Lemma fixed_reads_near_witness : is_finite (ddiv (of_u64 200000) (of_u64 3)) /\
  exists n, parse_json (fixed 4 (ddiv (of_u64 200000) (of_u64 3)) ++ newline) = Some (Num n (- Z.of_nat 4)) /\ near 4 (ddiv (of_u64 200000) (of_u64 3)) n.
Proof. split; [vm_compute; exact I|]. apply (fixed_reads_near 4 (ddiv (of_u64 200000) (of_u64 3))). vm_compute. exact I. Defined.
