(* ===== verification/Report.v ===== *)
(** * The reports of the profilers: [print_json], [print_summary], [print_compact]

    [sim/rtl/profiler.h] and [profiler_quad.h] print the counters and the derived
    metrics as a JSON document and as tables. A document is given by the list of
    its lines; [fields] are the lines of one block, in the order of the code.

    The theorems read the documents with [Json.parse_json]: they are well formed, and
    hold every counter exactly and every metric to half a unit of its last digit,
    for every value of the counters and every benchmark name that holds no quote,
    backslash or control character. The names are not escaped. *)

From Stdlib Require Import String Ascii.
From S2P Require Import Prelude Libc Rtl Double Profile Json.
Local Open Scope Z_scope.
Local Notation text := (list Z).

Definition ind (n : nat) : text := replicate n 32.
(** [<indent>"<name>": {] and the closing lines. *)
Definition opened (n : nat) (name : string) : text := ind n ++ quoted (str name) ++ str ": {" ++ newline.
Definition closed_more (n : nat) : text := ind n ++ str "}," ++ newline.
Definition closed_last (n : nat) : text := ind n ++ str "}" ++ newline.

(** ** Fields *)

Definition raw_fields (m : PerfMetrics) : list (string * leaf) :=
  [("cycles", Int (m_cycles m)); ("inst_retired", Int (inst_retired m)); ("branch_total", Int (branch_total m));
   ("branches_passed", Int (branches_passed m)); ("scheduler_stalls", Int (scheduler_stalls m)); ("rob_stalls", Int (rob_stalls m));
   ("decode_ready", Int (decode_ready m)); ("decode_fired", Int (decode_fired m)); ("icache_stalls", Int (icache_stalls m));
   ("dcache_reqs", Int (dcache_reqs m)); ("dcache_miss", Int (dcache_miss m)); ("dcache_rd_beats", Int (dcache_rd_beats m));
   ("dcache_wr_beats", Int (dcache_wr_beats m)); ("icache_miss", Int (icache_miss m)); ("icache_rd_beats", Int (icache_rd_beats m));
   ("l2_to_mem_rd_reqs", Int (l2_to_mem_rd_reqs m)); ("l2_to_mem_rd_beats", Int (l2_to_mem_rd_beats m));
   ("l2_to_mem_wr_beats", Int (l2_to_mem_wr_beats m)); ("fe_fetch_not_ready", Int (fe_fetch_not_ready m));
   ("fe_decode_not_ready", Int (fe_decode_not_ready m)); ("fe_expected_block", Int (fe_expected_block m));
   ("ds_prf_exhausted", Int (ds_prf_exhausted m)); ("ds_branch_mask_full", Int (ds_branch_mask_full m));
   ("ds_rename_collide", Int (ds_rename_collide m)); ("flush_branch", Int (flush_branch m)); ("flush_coherent", Int (flush_coherent m));
   ("retired_branch", Int (retired_branch m)); ("rob_head_not_ready", Int (rob_head_not_ready m));
   ("rob_ready_blocked", Int (rob_ready_blocked m)); ("hnr_load", Int (hnr_load m)); ("hnr_branch", Int (hnr_branch m));
   ("hnr_mext", Int (hnr_mext m)); ("hnr_amo", Int (hnr_amo m)); ("hnr_other", Int (hnr_other m));
   ("rnr_store_gate", Int (rnr_store_gate m)); ("rnr_wb_gate", Int (rnr_wb_gate m)); ("rnr_load_gate", Int (rnr_load_gate m))]%string.

(** [Profiler]: [ip_per_sec] has no decimals, the others four. *)
Definition derived_fields (m : PerfMetrics) : list (string * leaf) :=
  [("ipc", Dbl 4 (ipc m)); ("ip_per_sec", Dbl 0 (ip_per_sec m)); ("branch_accuracy_pct", Dbl 4 (branch_accuracy_pct m));
   ("icache_miss_rate_pct", Dbl 4 (icache_miss_rate_pct m)); ("dcache_miss_rate_pct", Dbl 4 (dcache_miss_rate_pct m));
   ("l1d_read_bw_bytes_per_cycle", Dbl 4 (l1d_read_bw_bytes_per_cycle m)); ("l1d_write_bw_bytes_per_cycle", Dbl 4 (l1d_write_bw_bytes_per_cycle m));
   ("l1i_read_bw_bytes_per_cycle", Dbl 4 (l1i_read_bw_bytes_per_cycle m)); ("dram_read_bw_MB_per_sec", Dbl 4 (dram_read_bw_MB_per_sec m));
   ("dram_write_bw_MB_per_sec", Dbl 4 (dram_write_bw_MB_per_sec m)); ("scheduler_stall_pct", Dbl 4 (scheduler_stall_pct m));
   ("rob_stall_pct", Dbl 4 (rob_stall_pct m)); ("decode_efficiency_pct", Dbl 4 (decode_efficiency_pct m));
   ("dcache_mem_reqs_per_million_cycles", Dbl 4 (dcache_mem_reqs_per_million_cycles m))]%string.

Definition profiler_json (benchmark_name : text) (m : PerfMetrics) : text :=
  str "{" ++ newline ++
  member (ind 2) (str "benchmark") (quoted benchmark_name) ++ comma ++
  opened 2 "raw" ++ fields (ind 4) (raw_fields m) ++ closed_more 2 ++
  opened 2 "derived" ++ fields (ind 4) (derived_fields m) ++ closed_last 2 ++
  str "}" ++ newline.

(** What is printed, and what is written to the output file. [opens]: the file can be created. *)
Record emitted := { to_stdout : text; to_stderr : text; to_file : option text }.
Definition profiler_print_json `{Verilated} (tb : Vsystem) (benchmark_name output_path : text) (opens : bool) : emitted :=
  let json_str := profiler_json benchmark_name (compute_metrics tb) in
  match output_path with
  | [] => {| to_stdout := json_str; to_stderr := []; to_file := None |}
  | _ => if opens
         then {| to_stdout := json_str ++ str "[profiler] JSON written to: " ++ output_path ++ newline; to_stderr := []; to_file := Some json_str |}
         else {| to_stdout := json_str; to_stderr := str "[profiler] ERROR: could not open output file: " ++ output_path ++ newline; to_file := None |}
  end.

(** ** [ProfilerQuad] *)

Definition quad_raw_fields (m : PerfMetrics) : list (string * leaf) := raw_fields m.
Definition agg_inst (c : list PerfMetrics) : Z := fold_left (fun a m => u64 (a + inst_retired m)) c 0.
Definition agg_cyc (c : list PerfMetrics) : Z := fold_left (fun a m => if a <? m_cycles m then m_cycles m else a) c 0.
Definition agg_ipc (c : list PerfMetrics) : double := ddiv (of_u64 (agg_inst c)) (of_u64 (safe_max1 (agg_cyc c))).
Definition aggregate_fields (c : list PerfMetrics) : list (string * leaf) :=
  [("total_inst_retired", Int (agg_inst c)); ("max_cycles", Int (agg_cyc c)); ("aggregate_ipc", Dbl 4 (agg_ipc c))]%string.
Definition result_fields (harness_exit bench_error : Z) : list (string * leaf) :=
  [("complete", Flag (harness_exit =? 0)%Z); ("harness_exit", Int harness_exit); ("bench_error", Int bench_error)]%string.
Definition work_fields (w : PerfMetrics) (win : WorkWin) : list (string * leaf) :=
  let swc := safe_max1 (m_cycles w) in
  [("cycles", Int (m_cycles w)); ("inst_retired", Int (inst_retired w)); ("ipc", Dbl 4 (ipc w));
   ("spin_commit_pct", Dbl 4 (spin_commit_pct win)); ("spin_pc_lo", Int (spin_lo win)); ("spin_pc_hi", Int (spin_hi win));
   ("rob_head_not_ready_pct", Dbl 4 (pct (rob_head_not_ready w) swc)); ("hnr_load_pct", Dbl 4 (pct (hnr_load w) swc));
   ("hnr_mext_pct", Dbl 4 (pct (hnr_mext w) swc)); ("hnr_other_pct", Dbl 4 (pct (hnr_other w) swc));
   ("rob_ready_blocked_pct", Dbl 4 (pct (rob_ready_blocked w) swc)); ("rnr_store_gate_pct", Dbl 4 (pct (rnr_store_gate w) swc));
   ("icache_stall_pct", Dbl 4 (pct (icache_stalls w) swc)); ("dcache_reqs", Int (dcache_reqs w)); ("dcache_miss", Int (dcache_miss w));
   ("dcache_miss_rate_pct", Dbl 4 (dcache_miss_rate_pct w)); ("dcache_rd_beats", Int (dcache_rd_beats w));
   ("dcache_wr_beats", Int (dcache_wr_beats w)); ("retired_branch", Int (retired_branch w))]%string.
Definition quad_derived_fields (m : PerfMetrics) : list (string * leaf) :=
  [("ipc", Dbl 4 (ipc m)); ("branch_accuracy_pct", Dbl 4 (branch_accuracy_pct m)); ("icache_miss_rate_pct", Dbl 4 (icache_miss_rate_pct m));
   ("dcache_miss_rate_pct", Dbl 4 (dcache_miss_rate_pct m)); ("l1d_read_bw_bytes_per_cycle", Dbl 4 (l1d_read_bw_bytes_per_cycle m));
   ("l1d_write_bw_bytes_per_cycle", Dbl 4 (l1d_write_bw_bytes_per_cycle m)); ("scheduler_stall_pct", Dbl 4 (scheduler_stall_pct m));
   ("rob_stall_pct", Dbl 4 (rob_stall_pct m)); ("decode_efficiency_pct", Dbl 4 (decode_efficiency_pct m))]%string.

Section Quad.
Context `{Verilated} (tb : Vsystem) (win : list WorkWin).
Definition quad_metrics : list PerfMetrics := map (fun i => compute_core_metrics tb (Z.of_nat i)) harts4.
Definition win_of (i : nat) : WorkWin := default WorkWin_init (win !! i).

(** One turn of the loop over the cores. *)
Definition quad_core (i : nat) : text :=
  let m := compute_core_metrics tb (Z.of_nat i) in
  ind 4 ++ str "{" ++ newline ++
  member (ind 6) (str "core") (dec_int (Z.of_nat i)) ++ comma ++
  opened 6 "raw" ++ fields (ind 8) (quad_raw_fields m) ++ closed_more 6 ++
  opened 6 "work" ++ fields (ind 8) (work_fields (compute_core_metrics_work tb win i) (win_of i)) ++ closed_more 6 ++
  opened 6 "derived" ++ fields (ind 8) (quad_derived_fields m) ++ closed_last 6 ++
  ind 4 ++ str "}" ++ (if (i <? 3)%nat then str "," else []) ++ newline.
Definition quad_json (benchmark_name : text) (harness_exit bench_error : Z) : text :=
  str "{" ++ newline ++
  member (ind 2) (str "benchmark") (quoted benchmark_name) ++ comma ++
  opened 2 "aggregate" ++ fields (ind 4) (aggregate_fields quad_metrics) ++ closed_more 2 ++
  opened 2 "result" ++ fields (ind 4) (result_fields harness_exit bench_error) ++ closed_more 2 ++
  ind 2 ++ quoted (str "cores") ++ str ": [" ++ newline ++ flat_map quad_core harts4 ++ ind 2 ++ str "]" ++ newline ++
  str "}" ++ newline.
(** Here standard output is used only without an output file; messages go to the note sink. *)
Definition quad_print_json (benchmark_name output_path : text) (harness_exit bench_error : Z) (opens : bool) : emitted :=
  let json_str := quad_json benchmark_name harness_exit bench_error in
  match output_path with
  | [] => {| to_stdout := json_str; to_stderr := []; to_file := None |}
  | _ => if opens
         then {| to_stdout := []; to_stderr := str "[profiler_quad] JSON written to: " ++ output_path ++ newline; to_file := Some json_str |}
         else {| to_stdout := []; to_stderr := str "[profiler_quad] ERROR: cannot open: " ++ output_path ++ newline; to_file := None |}
  end.
End Quad.

(** ** Tables *)

Definition llu (w : nat) (n : Z) : text := pad w (dec_int n).
Definition flt (w p : nat) (x : double) : text := pad w (fixed p x).
Definition line (l : list text) : text := concat l ++ newline.
(** [  <label> <percentage of sc>%  (<count>)<note>] *)
Definition share_line (label : string) (a sc : Z) (note : text) : text :=
  line [str label; flt 19 2 (pct a sc); str "%  ("; dec_int a; str ")"; note].

Definition profiler_print_summary `{Verilated} (tb : Vsystem) : text :=
  let m := compute_metrics tb in
  let ctr := get_perf_counter tb in
  let sc := safe_max1 (m_cycles m) in
  let srb := safe_max1 (retired_branch m) in
  newline ++ line [str "========== Performance Summary =========="] ++
  line [str "  Cycles:            "; llu 20 (m_cycles m)] ++
  line [str "  Instructions:      "; llu 20 (inst_retired m)] ++
  line [str "  IPC:               "; flt 20 4 (ipc m)] ++
  line [str "  IP/sec (75 MHz):   "; flt 20 0 (ip_per_sec m)] ++
  newline ++ line [str "--- Branch Prediction ---"] ++
  line [str "  Branch total:      "; llu 20 (branch_total m)] ++
  line [str "  Branches passed:   "; llu 20 (branches_passed m)] ++
  line [str "  Accuracy:          "; flt 19 2 (branch_accuracy_pct m); str "%"] ++
  newline ++ line [str "--- Cache Performance ---"] ++
  line [str "  I-Cache misses:    "; llu 20 (icache_miss m)] ++
  line [str "  I-Cache miss rate: "; flt 19 2 (icache_miss_rate_pct m); str "%"] ++
  line [str "  D-Cache req cyc:   "; llu 20 (dcache_reqs m)] ++
  line [str "  D-Cache misses:    "; llu 20 (dcache_miss m)] ++
  line [str "  D-Cache miss rate: "; flt 19 2 (dcache_miss_rate_pct m); str "%"] ++
  newline ++ line [str "--- Memory Bandwidth ---"] ++
  line [str "  L1D read BW:       "; flt 15 4 (l1d_read_bw_bytes_per_cycle m); str " B/cyc"] ++
  line [str "  L1D write BW:      "; flt 15 4 (l1d_write_bw_bytes_per_cycle m); str " B/cyc"] ++
  line [str "  L1I read BW:       "; flt 15 4 (l1i_read_bw_bytes_per_cycle m); str " B/cyc"] ++
  line [str "  DRAM read BW:      "; flt 15 2 (dram_read_bw_MB_per_sec m); str " MB/s"] ++
  line [str "  DRAM write BW:     "; flt 15 2 (dram_write_bw_MB_per_sec m); str " MB/s"] ++
  newline ++ line [str "--- Pipeline Utilization ---"] ++
  line [str "  Scheduler stalls:  "; flt 19 2 (scheduler_stall_pct m); str "%"] ++
  line [str "  ROB stalls:        "; flt 19 2 (rob_stall_pct m); str "%"] ++
  line [str "  Decode efficiency: "; flt 19 2 (decode_efficiency_pct m); str "%"] ++
  line [str "  D$ req/Mcyc:       "; flt 20 2 (dcache_mem_reqs_per_million_cycles m)] ++
  newline ++ line [str "--- Frontend Bubble Decomposition (% of cycles) ---"] ++
  share_line "  Fetch not ready:   " (fe_fetch_not_ready m) sc [] ++
  share_line "  Decode backpress:  " (fe_decode_not_ready m) sc [] ++
  share_line "  Expected mismatch: " (fe_expected_block m) sc [] ++
  newline ++ line [str "--- Rename Stalls (% of cycles decode refused) ---"] ++
  share_line "  PRF exhausted:     " (ds_prf_exhausted m) sc [] ++
  share_line "  Branch mask full:  " (ds_branch_mask_full m) sc [] ++
  share_line "  Rename collision:  " (ds_rename_collide m) sc [] ++
  newline ++ line [str "--- Pipeline Flushes ---"] ++
  line [str "  Retired branches:  "; llu 20 (retired_branch m)] ++
  line [str "  Branch mispredict: "; llu 20 (flush_branch m); str "   ("; fixed 2 (pct (flush_branch m) srb); str "% of retired branches)"] ++
  line [str "  Coherent squash:   "; llu 20 (flush_coherent m)] ++
  line [str "  -- ROB head stall split (B1) --"] ++
  share_line "  head not ready:    " (ctr 29) sc (str "  [latency-bound]") ++
  share_line "  ready, no retire:  " (ctr 30) sc (str "  [commit-width-bound]") ++
  line [str "  -- head-not-ready by class --"] ++
  share_line "    load:            " (ctr 31) sc [] ++
  share_line "    branch/jump:     " (ctr 32) sc [] ++
  share_line "    M-ext (mul/div): " (ctr 33) sc [] ++
  share_line "    AMO:             " (ctr 34) sc [] ++
  share_line "    other (ALU/sys): " (ctr 35) sc [] ++
  line [str "  -- ready-no-retire by gate --"] ++
  share_line "    store wr-commit: " (ctr 36) sc [] ++
  share_line "    writeback port:  " (ctr 37) sc [] ++
  share_line "    load commit:     " (ctr 38) sc [] ++
  line [str "  -- 2-wide opportunity (W0) --"] ++
  share_line "    issue >=2 ready: " (ctr 39) sc (str "  [2-wide issue ceiling]") ++
  share_line "    commit 2 ready:  " (ctr 40) sc (str "  [2-wide commit ceiling]") ++
  line [str "========================================="] ++ newline.

(** The three tables of [ProfilerQuad::print_summary]. *)
Definition row_1 (i : nat) (m : PerfMetrics) : list text :=
  [str "    "; dec_int (Z.of_nat i); str "  | "; llu 14 (m_cycles m); str " | "; llu 14 (inst_retired m); str " | "; flt 6 4 (ipc m);
   str " | "; flt 6 2 (dcache_miss_rate_pct m); str "% | "; flt 6 2 (icache_miss_rate_pct m); str "%"].
Definition row_2 (i : nat) (m : PerfMetrics) : list text :=
  [str "    "; dec_int (Z.of_nat i); str "  | "; flt 12 2 (scheduler_stall_pct m); str " | "; flt 12 2 (rob_stall_pct m); str " | ";
   flt 8 2 (decode_efficiency_pct m); str " | "; flt 6 2 (branch_accuracy_pct m)].
Definition row_3 (i : nat) (m : PerfMetrics) : list text :=
  [str "    "; dec_int (Z.of_nat i); str "  | "; flt 8 2 (pct (icache_stalls m) (safe_max1 (m_cycles m))); str " | "; llu 10 (icache_miss m);
   str " | "; llu 10 (dcache_reqs m); str " | "; llu 10 (dcache_miss m); str " | "; llu 10 (l2_to_mem_rd_beats m); str " | ";
   flt 8 2 (pct (hnr_load m) (safe_max1 (m_cycles m)))].
Definition header_1 : text := str "  Core | Cycles         | Insts          | IPC    | D$miss% | I$miss%".
Definition header_2 : text := str "  Core | Sched-stall%  | ROB-stall%   | Dec-eff%  | BPred%".
Definition header_3 : text := str "  Core | I$stall% | I$miss     | D$req      | D$miss     | L2rd beats | hnr_load%".
Definition table_rows (row : nat -> PerfMetrics -> list text) (c : list PerfMetrics) : text := concat (imap (fun i m => line (row i m)) c).
Definition quad_print_summary `{Verilated} (tb : Vsystem) : text :=
  let c := quad_metrics tb in
  newline ++ line [str "========== Quad-Core Performance Summary =========="] ++
  line [str "  Aggregate IPC:     "; flt 20 4 (agg_ipc c); str "  (sum_insts / max_cycles)"] ++
  line [str "  Total instructions:"; llu 20 (agg_inst c)] ++
  line [str "  Max cycles:        "; llu 20 (agg_cyc c)] ++
  newline ++ line [header_1] ++ line [str "  -----|----------------|----------------|--------|---------|--------"] ++ table_rows row_1 c ++
  newline ++ line [header_2] ++ line [str "  -----|--------------|--------------|----------|--------"] ++ table_rows row_2 c ++
  newline ++ line [header_3] ++ line [str "  -----|----------|------------|------------|------------|------------|----------"] ++ table_rows row_3 c ++
  line [str "===================================================="] ++ newline.

(** [ProfilerQuad::print_compact]: one line. *)
Definition compact_core (i : nat) (m : PerfMetrics) : list text :=
  [str " | C"; dec_int (Z.of_nat i); str " ipc="; fixed 4 (ipc m); str " I$="; fixed 2 (icache_miss_rate_pct m); str "% D$=";
   fixed 2 (dcache_miss_rate_pct m); str "% br="; fixed 1 (branch_accuracy_pct m); str "% I$st=";
   fixed 1 (pct (icache_stalls m) (safe_max1 (m_cycles m))); str "% rob="; fixed 1 (rob_stall_pct m); str "%"].
Definition quad_print_compact `{Verilated} (tb : Vsystem) : text :=
  let c := quad_metrics tb in
  line ([str "[prof] cyc="; dec_int (agg_cyc c); str " aggIPC="; fixed 4 (agg_ipc c); str " inst="; dec_int (agg_inst c)] ++
        concat (imap compact_core c)).

(** Columns: a row is as wide as its header when every figure fits its column. *)
Definition width (l : list text) : nat := List.length (concat l).
Lemma pad_length w t : (List.length t <= w)%nat -> List.length (pad w t) = w.
Proof. intros Ht. unfold pad. rewrite length_app, length_replicate. lia. Qed.
Lemma width_cons t l : width (t :: l) = (List.length t + width l)%nat.
Proof. unfold width. cbn [concat]. apply length_app. Qed.
Definition fits (w : nat) (t : text) : Prop := (List.length t <= w)%nat.
Lemma row_1_aligned i m : (i < 4)%nat -> fits 14 (dec_int (m_cycles m)) -> fits 14 (dec_int (inst_retired m)) -> fits 6 (fixed 4 (ipc m)) ->
  fits 6 (fixed 2 (dcache_miss_rate_pct m)) -> fits 6 (fixed 2 (icache_miss_rate_pct m)) -> width (row_1 i m) = List.length header_1.
Proof.
  intros Hi H1 H2 H3 H4 H5. unfold row_1, llu, flt. rewrite !width_cons, !pad_length by assumption.
  do 4 (destruct i as [|i]; [reflexivity|]). lia.
Qed.
(** ** The documents as values *)

(** The counter of each key of a [raw] block: slots 27, 28, 39 and 40 are not reported. *)
Definition raw_keys : list text := map (fun x => str x.1) (raw_fields (metrics_from [])).
Definition raw_slots : list nat := seq 0 27 ++ seq 29 10.
Definition raw_json (r : list Z) : json := Obj (combine raw_keys (map (fun k => Num (default 0 (r !! k)) 0) raw_slots)).

Definition core_json (r : list Z) (i : nat) (w : PerfMetrics) (win : WorkWin) : json :=
  Obj [(str "core", Num (Z.of_nat i) 0); (str "raw", raw_json r); (str "work", Obj (fields_json (work_fields w win)));
       (str "derived", Obj (fields_json (quad_derived_fields (metrics_from r))))].
Definition quad_value `{Verilated} (tb : Vsystem) (win : list WorkWin) (benchmark_name : text) (harness_exit bench_error : Z) : json :=
  Obj [(str "benchmark", Text benchmark_name);
       (str "aggregate", Obj (fields_json (aggregate_fields (quad_metrics tb))));
       (str "result", Obj (fields_json (result_fields harness_exit bench_error)));
       (str "cores", Arr (map (fun i => core_json (read_counters tb (Z.of_nat i)) i (compute_core_metrics_work tb win i) (win_of win i)) harts4))].
Definition profiler_value (benchmark_name : text) (r : list Z) : json :=
  Obj [(str "benchmark", Text benchmark_name); (str "raw", raw_json r);
       (str "derived", Obj (fields_json (derived_fields (metrics_from r))))].

Lemma raw_fields_json r : Obj (fields_json (raw_fields (metrics_from r))) = raw_json r.
Proof. reflexivity. Qed.
Lemma raw_keys_distinct : NoDup raw_keys.
Proof. apply (bool_decide_unpack _). vm_compute. exact I. Qed.

(** *** Reading the pieces *)

Definition plainb (t : text) : bool := forallb (fun c => (32 <=? c) && negb (c =? 34) && negb (c =? 92)) t.
Lemma plainb_ok t : plainb t = true -> plain t.
Proof.
  unfold plainb, plain. intros Ht. rewrite List.Forall_forall. intros c Hc. rewrite forallb_forall in Ht. specialize (Ht c Hc).
  destruct (Z.leb_spec 32 c), (Z.eqb_spec c 34), (Z.eqb_spec c 92); cbn in Ht; try discriminate; auto.
Qed.
Lemma blank_ind n : blank (ind n).
Proof. unfold blank, ind. apply Forall_replicate. reflexivity. Qed.
#[local] Hint Resolve blank_ind : core.

Lemma fields_ok_intro l : forallb plainb (map (fun x => str x.1) l) = true -> Forall (fun x => leaf_ok x.2) l -> fields_ok l.
Proof.
  intros Hn Hc. unfold fields_ok. induction Hc as [|x l Hx _ IH]; [constructor|]. cbn [map forallb] in Hn. apply andb_prop in Hn as [H1 H2].
  constructor; [split; [apply plainb_ok, H1|exact Hx]|apply IH, H2].
Qed.

(** A block of fields is read as an object. *)
Lemma reads_block n l : l <> [] -> forallb plainb (map (fun x => str x.1) l) = true -> Forall (fun x => leaf_ok x.2) l ->
  reads (braces (fields (ind (n + 2)) l) (ind n)) (Obj (fields_json l)).
Proof. intros H1 H2 H3. apply reads_braces; [|auto]. apply reads_fields; [auto|exact H1|apply fields_ok_intro; assumption]. Qed.

(** The lines of a block, as the code prints them, are a member with braces. *)
Lemma block_more n name t rest : opened n name ++ t ++ closed_more n ++ rest = member (ind n) (str name) (braces t (ind n)) ++ comma ++ rest.
Proof. unfold opened, closed_more, member, braces. rewrite <- !app_assoc. reflexivity. Qed.
Lemma block_last n name t : opened n name ++ t ++ closed_last n = member (ind n) (str name) (braces t (ind n)) ++ newline.
Proof. unfold opened, closed_last, member, braces. rewrite <- !app_assoc. reflexivity. Qed.

Definition finite_metrics (m : PerfMetrics) : Prop := Forall is_finite (derived m).

Lemma raw_ok m : Forall (fun x => leaf_ok x.2) (raw_fields m).
Proof. unfold raw_fields. repeat constructor. Qed.
Lemma derived_ok m : finite_metrics m -> Forall (fun x => leaf_ok x.2) (derived_fields m).
Proof. intros Hm. unfold finite_metrics, derived in Hm. rewrite !Forall_cons in Hm. unfold derived_fields. rewrite !Forall_cons. cbn [snd leaf_ok]. naive_solver. Qed.
Lemma quad_derived_ok m : finite_metrics m -> Forall (fun x => leaf_ok x.2) (quad_derived_fields m).
Proof. intros Hm. unfold finite_metrics, derived in Hm. rewrite !Forall_cons in Hm. unfold quad_derived_fields. rewrite !Forall_cons. cbn [snd leaf_ok]. naive_solver. Qed.

(** *** No infinity and no NaN in the documents *)

Definition counters_u64 `{Verilated} (tb : Vsystem) : Prop := forall c, Forall is_u64 (read_counters tb c).
Definition window_ok (w : WorkWin) : Prop := is_u64 (commits w) /\ is_u64 (spin_commits w) /\ Forall is_u64 (snap w).

Lemma sample_commit_ok cycle pc r w : Forall is_u64 r -> window_ok w -> window_ok (sample_commit cycle pc r w).
Proof.
  intros Hr (H1 & H2 & H3). unfold sample_commit. set (w' := note_pc pc w).
  assert (Hn : window_ok w') by (unfold w', note_pc; do 2 case_match; split; try apply u64_range; split; assumption).
  destruct (blk_n w' <? BLOCK_COMMITS); [exact Hn|]. destruct Hn as (N1 & N2 & N3). unfold close_block. clearbody w'.
  destruct (WORK_SPAN_BYTES <? _); [split; [exact N1|]; split; [exact N2|exact Hr]|].
  do 2 case_match; (split; [exact N1|]; split; [apply u64_range|exact N3]).
Qed.
Lemma sample_hart_ok `{Verilated} tb cycle win h : counters_u64 tb -> Forall window_ok win -> Forall window_ok (sample_hart tb cycle win h).
Proof.
  intros Ht Hw. unfold sample_hart. destruct (u8 _ =? 0); [exact Hw|]. destruct (win !! h) as [w|] eqn:E; [|exact Hw].
  apply Forall_insert; [exact Hw|]. apply sample_commit_ok; [apply Ht|]. exact (Forall_lookup_1 _ _ _ _ Hw E).
Qed.
(** The windows of a run hold 64-bit values. *)
Lemma sample_all_ok `{Verilated} trace : Forall (fun x => counters_u64 x.2) trace -> Forall window_ok (sample_all trace win_init).
Proof.
  assert (H0 : Forall window_ok win_init) by (unfold win_init; apply Forall_replicate; repeat split; unfold is_u64; cbn; try lia; repeat constructor; lia).
  unfold sample_all. revert H0. generalize win_init as win. induction trace as [|x trace IH]; intros win Hw Ht; [exact Hw|].
  apply Forall_cons in Ht as [Hx Ht]. cbn [fold_left]. apply IH; [|exact Ht]. unfold sample. cbn [harts4 fold_left].
  repeat apply sample_hart_ok; assumption.
Qed.

Section Finite.
Context `{Verilated} (tb : Vsystem) (win : list WorkWin) (Htb : counters_u64 tb) (Hwin : Forall window_ok win).

Lemma counter_u64 r k : Forall is_u64 r -> is_u64 (default 0 (r !! k)).
Proof. intros Hr. destruct (r !! k) eqn:E; [exact (Forall_lookup_1 _ _ _ _ Hr E)|unfold is_u64; cbn; lia]. Qed.

Lemma window_window_ok i : window_ok (win_of win i).
Proof.
  unfold win_of. destruct (win !! i) eqn:E; [exact (Forall_lookup_1 _ _ _ _ Hwin E)|].
  repeat split; unfold is_u64; cbn; try lia. repeat constructor; lia.
Qed.
(** The counters a work block is computed from. *)
Lemma work_counters i : exists r, Forall is_u64 r /\ compute_core_metrics_work tb win i = metrics_from r.
Proof.
  unfold compute_core_metrics_work. destruct (win !! i) as [w|] eqn:E; [destruct (have_snap w)|].
  - exists (snap w). split; [|reflexivity]. apply (Forall_lookup_1 _ _ _ _ Hwin E).
  - eexists. split; [apply Htb|reflexivity].
  - eexists. split; [apply Htb|reflexivity].
Qed.
Lemma work_ok i : Forall (fun x => leaf_ok x.2) (work_fields (compute_core_metrics_work tb win i) (win_of win i)).
Proof.
  destruct (work_counters i) as (r & Hr & ->). pose proof (metrics_finite r Hr) as Hm. unfold derived in Hm. rewrite !Forall_cons in Hm.
  destruct (window_window_ok i) as (W1 & W2 & _).
  assert (Hp : forall a, is_u64 a -> is_finite (pct a (safe_max1 (default 0 (r !! 0%nat)))))
    by (intros a Ha; eapply below_finite, pct_below; [exact Ha|apply counter_u64, Hr]).
  assert (Hs : is_finite (spin_commit_pct (win_of win i))) by (eapply below_finite, pct_below; assumption).
  unfold work_fields. rewrite !Forall_cons. cbn [snd leaf_ok].
  destruct Hm as (Fipc & _ & _ & _ & Fmiss & _).
  repeat (split; [lazymatch goal with
    | |- True => exact I
    | |- is_finite (spin_commit_pct _) => exact Hs
    | |- is_finite (ipc _) => exact Fipc
    | |- is_finite (dcache_miss_rate_pct _) => exact Fmiss
    | |- is_finite (pct ?a _) => exact (Hp a (counter_u64 r _ Hr))
    end|]). constructor.
Qed.

Lemma agg_inst_u64 c a : is_u64 a -> is_u64 (fold_left (fun a m => u64 (a + inst_retired m)) c a).
Proof. revert a. induction c as [|m c IH]; intros a Ha; [exact Ha|]. cbn [fold_left]. apply IH, u64_range. Qed.
Lemma agg_cyc_u64 c : forall a, is_u64 a -> Forall (fun m => is_u64 (m_cycles m)) c -> is_u64 (fold_left (fun a m => if a <? m_cycles m then m_cycles m else a) c a).
Proof. induction c as [|m c IH]; intros a Ha Hc; [exact Ha|]. apply Forall_cons in Hc as [Hm Hc]. cbn [fold_left]. apply IH; [case_match; assumption|exact Hc]. Qed.
Lemma aggregate_ok : Forall (fun x => leaf_ok x.2) (aggregate_fields (quad_metrics tb)).
Proof.
  unfold aggregate_fields. rewrite !Forall_cons. cbn [snd leaf_ok]. split; [exact I|]. split; [exact I|]. split; [|constructor].
  eapply below_finite, ratio_below; [apply agg_inst_u64; unfold is_u64; lia|]. apply agg_cyc_u64; [unfold is_u64; lia|].
  unfold quad_metrics. cbn [map harts4]. rewrite !Forall_cons.
  repeat (split; [apply (counter_u64 (read_counters tb _) 0), Htb|]). constructor.
Qed.
End Finite.

(** *** The documents are read back *)

Lemma reads_profiler name r : plain name -> Forall is_u64 r ->
  parse_json (profiler_json name (metrics_from r)) = Some (profiler_value name r).
Proof.
  intros Hn Hr. unfold profiler_json.
  assert (Hd : reads (braces (fields (ind (2 + 2)) (derived_fields (metrics_from r))) (ind 2)) (Obj (fields_json (derived_fields (metrics_from r)))))
    by (apply reads_block; [discriminate|reflexivity|apply derived_ok, metrics_finite, Hr]).
  assert (Hraw : reads (braces (fields (ind (2 + 2)) (raw_fields (metrics_from r))) (ind 2)) (raw_json r))
    by (rewrite <- raw_fields_json; apply reads_block; [discriminate|reflexivity|apply raw_ok]).
  rewrite block_more, (app_assoc (fields _ (derived_fields _))), (app_assoc (opened 2 "derived")), (block_last 2 "derived").
  pose proof (members_one (ind 2) _ _ _ (blank_ind 2) (plainb_ok (str "derived") eq_refl) Hd) as M1.
  pose proof (members_cons (ind 2) _ _ _ _ _ (blank_ind 2) (plainb_ok (str "raw") eq_refl) Hraw M1) as M2.
  pose proof (members_cons (ind 2) _ _ _ _ _ (blank_ind 2) (plainb_ok (str "benchmark") eq_refl) (reads_text name Hn) M2) as M3.
  etransitivity; [|exact (parse_document _ _ (reads_braces _ _ [] M3 (Forall_nil_2 _)))]. unfold braces. rewrite <- !app_assoc. reflexivity.
Qed.

(** One element of the array of cores. *)
Definition core_object `{Verilated} (tb : Vsystem) (win : list WorkWin) (i : nat) : text :=
  let m := compute_core_metrics tb (Z.of_nat i) in
  braces (member (ind 6) (str "core") (dec_int (Z.of_nat i)) ++ comma ++
    member (ind 6) (str "raw") (braces (fields (ind 8) (quad_raw_fields m)) (ind 6)) ++ comma ++
    member (ind 6) (str "work") (braces (fields (ind 8) (work_fields (compute_core_metrics_work tb win i) (win_of win i))) (ind 6)) ++ comma ++
    member (ind 6) (str "derived") (braces (fields (ind 8) (quad_derived_fields m)) (ind 6)) ++ newline) (ind 4).
Lemma quad_core_object `{Verilated} tb win i :
  quad_core tb win i = ind 4 ++ core_object tb win i ++ (if (i <? 3)%nat then comma else newline).
Proof.
  unfold quad_core, core_object. cbv zeta. rewrite !block_more, <- (block_last 6 "derived"). unfold braces at 3. rewrite <- !app_assoc.
  destruct (i <? 3)%nat; reflexivity.
Qed.

(** The array of cores is a member with brackets. *)
Lemma array_last n name t : ind n ++ quoted (str name) ++ str ": [" ++ newline ++ t ++ ind n ++ str "]" ++ newline =
  member (ind n) (str name) (brackets t (ind n)) ++ newline.
Proof. unfold member, brackets. rewrite <- !app_assoc. reflexivity. Qed.
(** A document: a brace, the lines of its members, a brace. *)
Lemma document_lines t : str "{" ++ newline ++ t ++ str "}" ++ newline = braces t [] ++ newline.
Proof. unfold braces. rewrite <- !app_assoc. reflexivity. Qed.

Section ReadsQuad.
Context `{Verilated} (tb : Vsystem) (win : list WorkWin) (Htb : counters_u64 tb) (Hwin : Forall window_ok win).

Lemma reads_core i : reads (core_object tb win i)
  (core_json (read_counters tb (Z.of_nat i)) i (compute_core_metrics_work tb win i) (win_of win i)).
Proof.
  unfold core_object. cbv zeta. apply reads_braces; [|apply blank_ind].
  apply members_cons; [apply blank_ind|apply plainb_ok; reflexivity|apply reads_int|].
  apply members_cons; [apply blank_ind|apply plainb_ok; reflexivity|rewrite <- raw_fields_json; apply (reads_block 6); [discriminate|reflexivity|apply raw_ok]|].
  apply members_cons; [apply blank_ind|apply plainb_ok; reflexivity|apply (reads_block 6); [discriminate|reflexivity|apply work_ok; assumption]|].
  apply members_one; [apply blank_ind|apply plainb_ok; reflexivity|].
  apply (reads_block 6); [discriminate|reflexivity|apply quad_derived_ok, metrics_finite, Htb].
Qed.

Lemma reads_quad name code err : plain name -> parse_json (quad_json tb win name code err) = Some (quad_value tb win name code err).
Proof.
  intros Hn. unfold quad_json. rewrite !block_more. cbn [harts4 flat_map]. rewrite !quad_core_object, app_nil_r. cbn [Nat.ltb Nat.leb].
  pose proof (elements_one (ind 4) _ _ (blank_ind 4) (reads_core 3)) as E3.
  pose proof (elements_cons (ind 4) _ _ _ _ (blank_ind 4) (reads_core 2) E3) as E2.
  pose proof (elements_cons (ind 4) _ _ _ _ (blank_ind 4) (reads_core 1) E2) as E1.
  pose proof (elements_cons (ind 4) _ _ _ _ (blank_ind 4) (reads_core 0) E1) as E0.
  pose proof (reads_brackets _ _ (ind 2) E0 (blank_ind 2) (fun s => eq_refl)) as Hcores.
  pose proof (members_one (ind 2) _ _ _ (blank_ind 2) (plainb_ok (str "cores") eq_refl) Hcores) as M0.
  assert (Hres : reads (braces (fields (ind (2 + 2)) (result_fields code err)) (ind 2)) (Obj (fields_json (result_fields code err))))
    by (apply reads_block; [discriminate|reflexivity|repeat constructor]).
  assert (Hagg : reads (braces (fields (ind (2 + 2)) (aggregate_fields (quad_metrics tb))) (ind 2)) (Obj (fields_json (aggregate_fields (quad_metrics tb)))))
    by (apply reads_block; [discriminate|reflexivity|apply aggregate_ok; assumption]).
  pose proof (members_cons (ind 2) _ _ _ _ _ (blank_ind 2) (plainb_ok (str "result") eq_refl) Hres M0) as M1.
  pose proof (members_cons (ind 2) _ _ _ _ _ (blank_ind 2) (plainb_ok (str "aggregate") eq_refl) Hagg M1) as M2.
  pose proof (members_cons (ind 2) _ _ _ _ _ (blank_ind 2) (plainb_ok (str "benchmark") eq_refl) (reads_text name Hn) M2) as M3.
  rewrite <- (parse_document _ _ (reads_braces _ _ [] M3 (Forall_nil_2 _)) : _ = Some (quad_value tb win name code err)). f_equal.
  rewrite <- document_lines, <- array_last. rewrite <- !app_assoc. reflexivity.
Qed.
End ReadsQuad.

(** ** Theorems *)

(** The document [profile] prints, and writes to its output file when that can be
    created, is well-formed JSON: the benchmark name, every reported counter of core
    0 exactly under its own key, and the derived metrics rounded to their decimals. *)
Theorem profiler_json_faithful `{Verilated} tb name path opens : plain name -> Forall is_u64 (read_counters tb 0) ->
  exists doc msg, parse_json doc = Some (profiler_value name (read_counters tb 0)) /\
    to_stdout (profiler_print_json tb name path opens) = doc ++ msg /\
    to_file (profiler_print_json tb name path opens) = (match path with [] => None | _ => if opens then Some doc else None end) /\
    ((path = [] \/ opens = false) -> msg = []).
Proof.
  intros Hn Hr. exists (profiler_json name (compute_metrics tb)). pose proof (reads_profiler name _ Hn Hr) as Hp.
  unfold profiler_print_json. destruct path as [|c path]; [|destruct opens]; cbn [to_stdout to_file];
    (eexists; split; [exact Hp|]; split; [first [reflexivity|symmetry; apply app_nil_r]|]; split; [reflexivity|]).
  - reflexivity.
  - intros [[=]|[=]].
  - reflexivity.
Qed.

(** C30: The document of a four-core run is well-formed JSON and is read back as the
    counters of the four cores, the metrics, the totals, the exit code and the
    error code, whatever commits were sampled; it is printed, or written to the
    output file, if that can be created. *)
Theorem quad_json_faithful `{Verilated} tb trace name path code err opens :
  plain name -> counters_u64 tb -> Forall (fun x => counters_u64 x.2) trace ->
  let win := sample_all trace win_init in
  exists doc, parse_json doc = Some (quad_value tb win name code err) /\
    quad_print_json tb win name path code err opens =
      match path with
      | [] => {| to_stdout := doc; to_stderr := []; to_file := None |}
      | _ => if opens
             then {| to_stdout := []; to_stderr := str "[profiler_quad] JSON written to: " ++ path ++ newline; to_file := Some doc |}
             else {| to_stdout := []; to_stderr := str "[profiler_quad] ERROR: cannot open: " ++ path ++ newline; to_file := None |}
      end.
Proof.
  intros Hn Ht Htr win. exists (quad_json tb win name code err). split; [|reflexivity].
  apply reads_quad; [exact Ht|apply sample_all_ok, Htr|exact Hn].
Qed.

(** A name with a quote breaks the document. *)
Lemma quote_breaks_document : parse_json (profiler_json (str "mt" ++ [34] ++ str "x") (metrics_from zero_counters)) = None.
Proof. vm_compute. reflexivity. Qed.

Lemma counters_u64_script : counters_u64 (sample_system 63).
Proof.
  intros c. unfold read_counters. rewrite List.Forall_forall. intros v Hv. apply in_map_iff in Hv as (k & <- & Hk). apply in_seq in Hk.
  unfold get_core_counter. destruct ((0 <=? c) && (c <=? 3)); [|unfold is_u64; lia].
  destruct (_ || _); [|unfold is_u64; lia].
  destruct c as [|[[]|[]|]|]; cbn; unfold is_u64; lia.
Qed.
Lemma profiler_json_faithful_witness : plain (str "mt-vvadd") /\
  exists doc msg, parse_json doc = Some (profiler_value (str "mt-vvadd") (read_counters (sample_system 63) 0)) /\
    to_stdout (profiler_print_json (sample_system 63) (str "mt-vvadd") (str "out.json") false) = doc ++ msg /\
    to_file (profiler_print_json (sample_system 63) (str "mt-vvadd") (str "out.json") false) =
      (match str "out.json" with [] => None | _ => if false then Some doc else None end) /\
    ((str "out.json" = [] \/ false = false) -> msg = []).
Proof.
  split; [apply plainb_ok; reflexivity|].
  apply (profiler_json_faithful (sample_system 63) (str "mt-vvadd") (str "out.json") false); [apply plainb_ok; reflexivity|apply counters_u64_script].
Defined.
Lemma quad_json_faithful_witness : let win := sample_all [(64, sample_system 63)] win_init in
  exists doc, parse_json doc = Some (quad_value (sample_system 63) win (str "mt-vvadd") 4 1) /\
    quad_print_json (sample_system 63) win (str "mt-vvadd") [] 4 1 true = {| to_stdout := doc; to_stderr := []; to_file := None |}.
Proof.
  apply (quad_json_faithful (sample_system 63) [(64, sample_system 63)] (str "mt-vvadd") [] 4 1 true);
    [apply plainb_ok; reflexivity|apply counters_u64_script|constructor; [apply counters_u64_script|constructor]].
Defined.
