(* ===== verification/Spmd.v ===== *)
(** * Programs in phases: the harts of a demo between its barriers

    The demos under [workloads/demos/] run [thread_entry(cid, nc)] on every hart:
    phases of work on shared arrays, each ended by [barrier(nc)]. This file
    composes the barrier of [Barrier] with the work: a step is one operation of a
    hart, or one access of its barrier. Any schedule is allowed.

    What a hart does in a phase is computed from the shared memory when it enters
    the phase ([program]). That is what the code does if no operation of the
    phase changes what the programs of the phase were computed from ([stable]);
    a hart that leaves a barrier late then still computes the same program. An
    operation may have to wait ([guard]). *)

From S2P Require Import Prelude Cmodel Barrier.
Local Open Scope Z_scope.

Record spmd (S O : Type) := mkspmd { bar : bstate; work : list (list O); mem : S }.
Arguments mkspmd {S O}. Arguments bar {S O}. Arguments work {S O}. Arguments mem {S O}.

Section Spmd.
Context {S O : Type} (act : O -> S -> S) (guard : O -> S -> bool) (program : Z -> nat -> S -> list O) (ncores : Z).

Definition harts : list nat := seq 0 (Z.to_nat ncores).
Definition programs (e : Z) (m : S) : list (list O) := map (fun t => program e t m) harts.
Definition epoch_of (b : bstate) (t : nat) : Z := match threads b !! t with Some th => epoch th | None => 0 end.

(** A hart with work left does its next operation if this need not wait; one
    without is in the barrier, and has the work of the next phase when it leaves. *)
Definition spmd_step (t : nat) (s : spmd S O) : spmd S O :=
  match work s !! t with
  | Some (o :: rest) => if guard o (mem s) then mkspmd (bar s) (<[t := rest]> (work s)) (act o (mem s)) else s
  | Some [] =>
    let b := barrier_step ncores t (bar s) in
    mkspmd b (if epoch_of b t =? epoch_of (bar s) t then work s else <[t := program (epoch_of b t) t (mem s)]> (work s)) (mem s)
  | None => s
  end.
Definition spmd_start (m : S) : spmd S O := mkspmd (barrier_start ncores) (programs 0 m) m.
Definition spmd_run (sched : list nat) (s : spmd S O) : spmd S O := exec spmd_step sched s.

(** The memory after [e] complete phases, the operations of each in some interleaving. *)
Inductive phases (m0 : S) : Z -> S -> Prop :=
| phases_start : phases m0 0 m0
| phases_next e m l : phases m0 e m -> interleaving (programs e m) l -> phases m0 (e + 1) (exec act l m).

Definition stable : Prop := forall e t o m t', In o (program e t m) -> program e t' (act o m) = program e t' m.

Context (Hn : 0 < ncores < 2 ^ 31) (Hstable : stable) (m0 : S).

(** What hart [t] has still to do in phase [e], which started with memory [m]. *)
Definition left_of (e : Z) (m : S) (s : spmd S O) (t : nat) : list O :=
  match threads (bar s) !! t with
  | Some th => if epoch th =? e then default [] (work s !! t) else program e t m
  | None => []
  end.

Record inv (e : Z) (m : S) (l : list O) (s : spmd S O) : Prop := {
  inv_bar : barrier_inv ncores e (bar s);
  inv_epoch : forall t th, threads (bar s) !! t = Some th -> 0 <= epoch th;
  inv_work : List.length (work s) = Z.to_nat ncores;
  inv_phases : phases m0 e m;
  inv_mem : mem s = exec act l m;
  inv_stable : forall t, program e t (mem s) = program e t m;
  inv_busy : forall t th w, threads (bar s) !! t = Some th -> work s !! t = Some w -> w <> [] -> pc th = Arrive /\ epoch th = e;
  inv_in : forall t o, In o (left_of e m s t) -> In o (program e t m);
  inv_inter : forall l', interleaving (map (left_of e m s) harts) l' -> interleaving (programs e m) (l ++ l') }.

Lemma harts_lookup t : (t < Z.to_nat ncores)%nat -> harts !! t = Some t.
Proof. intros Ht. unfold harts. rewrite lookup_seq_lt by exact Ht. reflexivity. Qed.
Lemma map_harts {A} (f : nat -> A) t : (t < Z.to_nat ncores)%nat -> map f harts !! t = Some (f t).
Proof. intros Ht. change (map f harts) with (f <$> harts). rewrite list_lookup_fmap, harts_lookup by exact Ht. reflexivity. Qed.
Lemma map_harts_insert {A} (f g : nat -> A) t : (t < Z.to_nat ncores)%nat -> (forall i, i <> t -> g i = f i) ->
  map g harts = <[t := g t]> (map f harts).
Proof.
  intros Ht Hg. apply list_eq. intros i. destruct (decide (i < Z.to_nat ncores)%nat) as [Hi|Hi].
  - rewrite map_harts by exact Hi. destruct (decide (i = t)) as [->|Hne].
    + rewrite list_lookup_insert_eq; [reflexivity|]. unfold harts. rewrite length_map, length_seq. exact Ht.
    + rewrite list_lookup_insert_ne, map_harts by (congruence || exact Hi). now rewrite Hg.
  - rewrite !lookup_ge_None_2; [reflexivity|..]; rewrite ?length_insert; unfold harts; rewrite length_map, length_seq; lia.
Qed.

Lemma threads_lookup e s t : barrier_inv ncores e s -> (t < Z.to_nat ncores)%nat -> exists th, threads s !! t = Some th.
Proof. intros (Hl & _) Ht. apply lookup_lt_is_Some_2. unfold alen in Hl. lia. Qed.

Lemma start_ok : inv 0 m0 [] (spmd_start m0).
Proof.
  assert (Hth : forall t th, threads (barrier_start ncores) !! t = Some th -> th = mkthread Arrive 0 0)
    by (intros t th E; apply lookup_replicate in E; apply E).
  assert (Hleft : forall t, (t < Z.to_nat ncores)%nat -> left_of 0 m0 (spmd_start m0) t = program 0 t m0).
  { intros t Ht. unfold left_of. cbn [bar spmd_start work]. destruct (threads _ !! t) as [th|] eqn:E.
    - rewrite (Hth _ _ E). cbn [epoch Z.eqb]. unfold programs. rewrite map_harts by exact Ht. reflexivity.
    - exfalso. apply lookup_ge_None in E. cbn [threads barrier_start] in E. rewrite length_replicate in E. lia. }
  split.
  - apply start_inv. lia.
  - intros t th Ht. rewrite (Hth _ _ Ht). reflexivity.
  - cbn. unfold programs, harts. rewrite length_map, length_seq. reflexivity.
  - constructor.
  - reflexivity.
  - reflexivity.
  - intros t th w Ht _ _. rewrite (Hth _ _ Ht). auto.
  - intros t o Ho. destruct (decide (t < Z.to_nat ncores)%nat) as [Ht|Ht]; [now rewrite Hleft in Ho|].
    unfold left_of in Ho. cbn [bar spmd_start] in Ho. rewrite lookup_ge_None_2 in Ho; [destruct Ho|].
    cbn [threads barrier_start]. rewrite length_replicate. lia.
  - intros l' Hl. cbn [app]. replace (programs 0 m0) with (map (left_of 0 m0 (spmd_start m0)) harts); [exact Hl|].
    unfold programs. apply map_ext_in. intros t Ht. apply in_seq in Ht. apply Hleft. lia.
Qed.

(** An operation. *)
Lemma act_ok e m l s t o rest : inv e m l s -> work s !! t = Some (o :: rest) ->
  inv e m (l ++ [o]) (mkspmd (bar s) (<[t := rest]> (work s)) (act o (mem s))).
Proof.
  intros [Hb Hep Hw Hp Hm Hs Hbusy Hin Hi] Ht.
  assert (Htn : (t < Z.to_nat ncores)%nat) by (rewrite <- Hw; eapply lookup_lt_Some, Ht).
  destruct (threads_lookup e _ t Hb Htn) as [th Hth]. destruct (Hbusy t th _ Hth Ht ltac:(discriminate)) as [Hpc He].
  set (s' := mkspmd _ _ _).
  assert (Hl : left_of e m s t = o :: rest) by (unfold left_of; rewrite Hth, He, Z.eqb_refl, Ht; reflexivity).
  assert (Hl' : left_of e m s' t = rest).
  { unfold left_of, s'. cbn [bar work]. rewrite Hth, He, Z.eqb_refl, list_lookup_insert_eq by (rewrite Hw; exact Htn). reflexivity. }
  assert (Hne : forall i, i <> t -> left_of e m s' i = left_of e m s i).
  { intros i Hi'. unfold left_of, s'. cbn [bar work]. rewrite list_lookup_insert_ne by congruence. reflexivity. }
  split; cbn [bar work mem s'].
  - exact Hb.
  - exact Hep.
  - rewrite length_insert. exact Hw.
  - exact Hp.
  - rewrite exec_app, Hm. reflexivity.
  - intros t'. rewrite <- (Hs t'). apply (Hstable e t). rewrite Hs. apply Hin. rewrite Hl. now left.
  - intros i thi w Hthi Hwi Hne'. destruct (decide (i = t)) as [->|]; [split; congruence|].
    rewrite list_lookup_insert_ne in Hwi by congruence. exact (Hbusy i thi w Hthi Hwi Hne').
  - intros i o'. destruct (decide (i = t)) as [->|Hit]; [rewrite Hl'; intros Ho; apply Hin; rewrite Hl; now right|rewrite Hne by exact Hit; apply Hin].
  - intros l' Hl0. rewrite <- app_assoc. cbn [app]. apply Hi. apply (interleaving_step t o rest).
    + rewrite map_harts by exact Htn. now rewrite Hl.
    + rewrite <- Hl'. rewrite <- (map_harts_insert (left_of e m s) (left_of e m s') t Htn Hne). exact Hl0.
Qed.

(** An access of the barrier changes its hart only: it stays in its barrier, or leaves it. *)
Lemma barrier_step_other t i b : i <> t -> threads (barrier_step ncores t b) !! i = threads b !! i.
Proof.
  intros Hi. unfold barrier_step. destruct (threads b !! t) as [th|]; [|reflexivity].
  destruct (barrier_access _ _ _ _) as [[x y] th']. cbn [threads]. apply list_lookup_insert_ne. congruence.
Qed.
Lemma barrier_step_self t b th : threads b !! t = Some th ->
  exists th', threads (barrier_step ncores t b) !! t = Some th' /\ (epoch th' = epoch th \/ epoch th' = epoch th + 1 /\ pc th' = Arrive).
Proof.
  intros Ht. unfold barrier_step. rewrite Ht. destruct (barrier_access ncores (sense b) (count b) th) as [[x y] th'] eqn:E.
  exists th'. cbn [threads]. rewrite list_lookup_insert_eq by (eapply lookup_lt_Some, Ht). split; [reflexivity|].
  unfold barrier_access in E. destruct (pc th); try (injection E as <- <- <-; cbn; auto; fail).
  destruct (negb _); injection E as <- <- <-; cbn; auto.
Qed.

Lemma in_harts i : In i harts <-> (i < Z.to_nat ncores)%nat.
Proof. unfold harts. rewrite in_seq. lia. Qed.
Lemma epoch_of_eq b t th : threads b !! t = Some th -> epoch_of b t = epoch th.
Proof. intros E. unfold epoch_of. rewrite E. reflexivity. Qed.

Section BarrierStep.
Context (e : Z) (m : S) (l : list O) (s : spmd S O) (t : nat) (th th' : thread) (Hi : inv e m l s).
Context (Ht : work s !! t = Some []) (Hth : threads (bar s) !! t = Some th).
Let b := barrier_step ncores t (bar s).
Context (Hth' : threads b !! t = Some th').
Context (Hstep : epoch th' = epoch th \/ epoch th' = epoch th + 1 /\ pc th' = Arrive).
Let s' := mkspmd b (if epoch_of b t =? epoch_of (bar s) t then work s else <[t := program (epoch_of b t) t (mem s)]> (work s)) (mem s).

Lemma step_hart : (t < Z.to_nat ncores)%nat.
Proof. rewrite <- (inv_work _ _ _ _ Hi). eapply lookup_lt_Some, Ht. Qed.
Lemma step_work_length : List.length (work s') = Z.to_nat ncores.
Proof. unfold s'. cbn [work]. destruct (_ =? _); [|rewrite length_insert]; apply (inv_work _ _ _ _ Hi). Qed.
Lemma step_work_other i : i <> t -> work s' !! i = work s !! i.
Proof. intros Hne. unfold s'. cbn [work]. destruct (_ =? _); [reflexivity|]. apply list_lookup_insert_ne. congruence. Qed.
Lemma step_work_self : work s' !! t = Some (if epoch th' =? epoch th then [] else program (epoch th') t (mem s)).
Proof.
  unfold s'. cbn [work]. rewrite (epoch_of_eq b t th' Hth'), (epoch_of_eq (bar s) t th Hth). destruct (epoch th' =? epoch th); [exact Ht|].
  rewrite list_lookup_insert_eq; [reflexivity|]. rewrite (inv_work _ _ _ _ Hi). apply step_hart.
Qed.

Lemma step_epochs i thi : threads b !! i = Some thi -> 0 <= epoch thi.
Proof.
  intros Hthi. destruct (decide (i = t)) as [->|Hne].
  - assert (thi = th') by congruence. subst thi. pose proof (inv_epoch _ _ _ _ Hi t th Hth). lia.
  - unfold b in Hthi. rewrite barrier_step_other in Hthi by exact Hne. exact (inv_epoch _ _ _ _ Hi i thi Hthi).
Qed.

(** The phase goes on. *)
Lemma same_phase : barrier_inv ncores e b -> inv e m l s'.
Proof.
  intros Hb. pose proof step_hart as Htn. destruct Hi as [Hb0 Hep Hw Hp Hm Hs Hbusy Hin Hii].
  pose proof (inv_thread _ _ _ _ _ Hb Hth') as H1. pose proof (inv_thread _ _ _ _ _ Hb0 Hth) as H0.
  assert (Hl : forall i, left_of e m s' i = left_of e m s i).
  { intros i. unfold left_of, s' at 1. cbn [bar]. destruct (decide (i = t)) as [->|Hne].
    - rewrite Hth', Hth, step_work_self, Ht. cbn [default from_option id].
      destruct (Z.eqb_spec (epoch th') (epoch th)) as [E|E]; [rewrite E; destruct (_ =? _); reflexivity|].
      destruct (Z.eqb_spec (epoch th') e) as [E'|E']; [|lia]. destruct (Z.eqb_spec (epoch th) e); [lia|]. rewrite E'. apply Hs.
    - rewrite step_work_other by exact Hne. unfold b. rewrite barrier_step_other by exact Hne. reflexivity. }
  split; cbn [bar mem s']; try assumption.
  - exact step_epochs.
  - exact step_work_length.
  - intros i thi w Hthi Hwi Hne. destruct (decide (i = t)) as [->|Hit].
    + fold s' in Hwi. rewrite step_work_self in Hwi. injection Hwi as <-. assert (thi = th') by congruence. subst thi.
      destruct (Z.eqb_spec (epoch th') (epoch th)); [contradiction|]. destruct Hstep as [|[H2 H3]]; [contradiction|]. split; [exact H3|lia].
    + fold s' in Hwi. rewrite step_work_other in Hwi by exact Hit. unfold b in Hthi. rewrite barrier_step_other in Hthi by exact Hit.
      exact (Hbusy i thi w Hthi Hwi Hne).
  - intros i o. rewrite Hl. apply Hin.
  - intros l' Hl'. apply Hii. erewrite map_ext; [exact Hl'|]. intros i. symmetry. apply Hl.
Qed.

(** The last hart releases the others: every operation of the phase is done. *)
Lemma next_phase : barrier_inv ncores (e + 1) b -> inv (e + 1) (mem s) [] s'.
Proof.
  intros Hb. pose proof step_hart as Htn. destruct Hi as [Hb0 Hep Hw Hp Hm Hs Hbusy Hin Hii].
  pose proof (inv_thread _ _ _ _ _ Hb Hth') as H1. pose proof (inv_thread _ _ _ _ _ Hb0 Hth) as H0.
  assert (He : epoch th = e).
  { destruct H0 as [|(E & _)]; [assumption|]. destruct Hstep as [E'|[E' Hpc]]; [lia|]. destruct H1 as [|(_ & Hsp & _)]; [lia|congruence]. }
  assert (Hother : forall i thi, i <> t -> threads b !! i = Some thi -> threads (bar s) !! i = Some thi /\ epoch thi = e /\ pc thi = Spin).
  { intros i thi Hne Hthi. pose proof Hthi as Hthi'. unfold b in Hthi'. rewrite barrier_step_other in Hthi' by exact Hne. split; [exact Hthi'|].
    pose proof (inv_thread _ _ _ _ _ Hb Hthi) as H2. pose proof (inv_thread _ _ _ _ _ Hb0 Hthi') as H3.
    destruct H2 as [|(H2 & H2' & _)]; [lia|]. split; [lia|exact H2']. }
  assert (Hdone : forall i, (i < Z.to_nat ncores)%nat -> left_of e m s i = []).
  { intros i Hin'. unfold left_of. destruct (decide (i = t)) as [->|Hne]; [rewrite Hth, He, Z.eqb_refl, Ht; reflexivity|].
    destruct (threads_lookup _ _ i Hb Hin') as [thi Hthi]. destruct (Hother i thi Hne Hthi) as (E1 & E2 & E3).
    rewrite E1, E2, Z.eqb_refl. destruct (work s !! i) as [w|] eqn:Ew; [|reflexivity]. cbn [default from_option id].
    destruct w as [|o w]; [reflexivity|]. destruct (Hbusy i thi _ E1 Ew ltac:(discriminate)). congruence. }
  assert (Hleft : forall i, (i < Z.to_nat ncores)%nat -> left_of (e + 1) (mem s) s' i = program (e + 1) i (mem s)).
  { intros i Hin'. unfold left_of. cbn [bar s']. destruct (threads_lookup _ _ i Hb Hin') as [thi Hthi]. rewrite Hthi.
    destruct (Z.eqb_spec (epoch thi) (e + 1)) as [E|E]; [|reflexivity]. destruct (decide (i = t)) as [->|Hne].
    - fold s'. rewrite step_work_self. assert (thi = th') by congruence. subst thi. cbn [default from_option id].
      destruct (Z.eqb_spec (epoch th') (epoch th)); [lia|]. rewrite E. reflexivity.
    - destruct (Hother i thi Hne Hthi) as (_ & E2 & _). lia. }
  split; cbn [bar mem s'].
  - exact Hb.
  - exact step_epochs.
  - exact step_work_length.
  - rewrite Hm. apply (phases_next m0 e m l Hp). rewrite <- (app_nil_r l). apply Hii. apply interleaving_done.
    rewrite List.Forall_forall. intros p Hp'. apply in_map_iff in Hp' as (i & <- & Hi'). symmetry. apply Hdone, in_harts, Hi'.
  - reflexivity.
  - reflexivity.
  - intros i thi w Hthi Hwi Hne. fold s' in Hwi. destruct (decide (i = t)) as [->|Hit].
    + rewrite step_work_self in Hwi. injection Hwi as <-. assert (thi = th') by congruence. subst thi.
      destruct (Z.eqb_spec (epoch th') (epoch th)); [contradiction|]. destruct Hstep as [|[H2 H3]]; [contradiction|]. split; [exact H3|lia].
    + rewrite step_work_other in Hwi by exact Hit. destruct (Hother i thi Hit Hthi) as (E1 & E2 & E3).
      destruct (Hbusy i thi w E1 Hwi Hne). congruence.
  - intros i o. destruct (decide (i < Z.to_nat ncores)%nat) as [Hin'|Hin']; [rewrite Hleft by exact Hin'; auto|].
    unfold left_of. cbn [bar s']. rewrite (lookup_ge_None_2 (threads b)); [intros []|]. destruct Hb as (Hb & _). unfold alen in Hb. lia.
  - intros l' Hl'. cbn [app]. replace (programs (e + 1) (mem s)) with (map (left_of (e + 1) (mem s) s') harts); [exact Hl'|].
    unfold programs. apply map_ext_in. intros i Hi'. apply Hleft, in_harts, Hi'.
Qed.
End BarrierStep.

Lemma step_ok t e m l s : inv e m l s -> exists e' m' l', inv e' m' l' (spmd_step t s).
Proof.
  intros Hi. unfold spmd_step. destruct (work s !! t) as [[|o rest]|] eqn:Ht; [| |now exists e, m, l].
  - assert (Htn : (t < Z.to_nat ncores)%nat) by (rewrite <- (inv_work _ _ _ _ Hi); eapply lookup_lt_Some, Ht).
    destruct (threads_lookup e _ t (inv_bar _ _ _ _ Hi) Htn) as [th Hth].
    destruct (barrier_step_self t _ th Hth) as (th' & Hth' & Hstep).
    destruct (step_inv ncores e (bar s) t Hn (inv_bar _ _ _ _ Hi)) as (e' & He & Hb).
    assert (e' = e \/ e' = e + 1) as [->| ->] by lia.
    + exists e, m, l. exact (same_phase e m l s t th th' Hi Ht Hth Hth' Hstep Hb).
    + exists (e + 1), (mem s), []. exact (next_phase e m l s t th th' Hi Ht Hth Hth' Hstep Hb).
  - destruct (guard o (mem s)); [|now exists e, m, l]. exists e, m, (l ++ [o]). apply act_ok; assumption.
Qed.

Lemma run_ok sched : forall e m l s, inv e m l s -> exists e' m' l', inv e' m' l' (spmd_run sched s).
Proof.
  induction sched as [|t sched IH]; intros e m l s Hi; [now exists e, m, l|].
  destruct (step_ok t e m l s Hi) as (e' & m' & l' & Hi'). exact (IH e' m' l' _ Hi').
Qed.

(** Whatever the schedule: some phases are complete, each in some interleaving of the
    programs computed from the memory it started with, and a part [l] of the
    operations of the next phase is done, which the rest of the harts' work completes. *)
Lemma spmd_invariant sched : exists e m l, inv e m l (spmd_run sched (spmd_start m0)).
Proof. apply (run_ok sched 0 m0 []), start_ok. Qed.

(** The operations done in the phase under way can be completed to one of its interleavings. *)
Lemma inv_complete e m l s : inv e m l s -> exists l', interleaving (programs e m) (l ++ l').
Proof. intros Hi. eexists. apply (inv_inter _ _ _ _ Hi), interleaving_concat. Qed.
Lemma inv_ops e m l s o : inv e m l s -> In o l -> exists t, In o (program e t m).
Proof.
  intros Hi Ho. destruct (inv_complete _ _ _ _ Hi) as [l' Hl]. apply interleaving_perm in Hl.
  assert (Hin : In o (concat (programs e m))) by (eapply Permutation_in; [exact Hl|]; apply in_app_iff; now left).
  apply in_concat in Hin as (p & Hp & Ho'). apply in_map_iff in Hp as (t & <- & _). exists t. exact Ho'.
Qed.

(** A start-up handshake: in phase 0 hart 0 does [go], some operations of the other
    harts wait for it, and nothing waits afterwards. Then never do all harts wait. *)
Lemma handshake_live (waits : O -> bool) (go : O) :
  (forall o m, guard o m = false -> waits o = true) ->
  (forall e t m o, In o (program e t m) -> waits o = true -> e = 0) ->
  (forall m o, In o (program 0 0 m) -> waits o = false) ->
  (forall t m, In go (program 0 t m) <-> t = 0%nat) ->
  (forall l m o, In go l -> (forall o, In o l -> exists t, In o (program 0 t m)) -> guard o (exec act l m) = true) ->
  forall e m l s, inv e m l s -> (exists t o w, work s !! t = Some (o :: w)) ->
  exists t o w, work s !! t = Some (o :: w) /\ guard o (mem s) = true.
Proof.
  intros Hwait H0 Hhart0 Hgo Hafter e m l s Hi (t & o & w & Ht). destruct (guard o (mem s)) eqn:Hg; [eauto|].
  assert (Htn : (t < Z.to_nat ncores)%nat) by (rewrite <- (inv_work _ _ _ _ Hi); eapply lookup_lt_Some, Ht).
  destruct (threads_lookup e _ t (inv_bar _ _ _ _ Hi) Htn) as [th Hth].
  destruct (inv_busy _ _ _ _ Hi t th _ Hth Ht ltac:(discriminate)) as [_ He].
  assert (Hleft : left_of e m s t = o :: w) by (unfold left_of; rewrite Hth, He, Z.eqb_refl, Ht; reflexivity).
  assert (e = 0) as -> by (eapply H0; [apply (inv_in _ _ _ _ Hi t o); rewrite Hleft; now left|apply (Hwait _ _ Hg)]).
  assert (Hno : ~ In go l).
  { intros Hin. rewrite (inv_mem _ _ _ _ Hi), (Hafter l m o Hin) in Hg; [discriminate|]. intros o' Ho'. exact (inv_ops 0 m l s o' Hi Ho'). }
  destruct (threads_lookup 0 _ 0 (inv_bar _ _ _ _ Hi) ltac:(lia)) as [th0 Hth0].
  destruct (lookup_lt_is_Some_2 (work s) 0) as [w0 Hw0]; [rewrite (inv_work _ _ _ _ Hi); lia|].
  assert (He0 : epoch th0 = 0).
  { pose proof (inv_epoch _ _ _ _ Hi _ _ Hth0). destruct (inv_thread _ _ _ _ _ (inv_bar _ _ _ _ Hi) Hth0) as [|(? & _)]; lia. }
  assert (Hl0 : left_of 0 m s 0 = w0) by (unfold left_of; rewrite Hth0, He0, Hw0; reflexivity).
  assert (Hgo0 : In go w0).
  { pose proof (inv_inter _ _ _ _ Hi _ (interleaving_concat _)) as Hp. apply interleaving_perm in Hp.
    assert (Hg0 : In go (l ++ concat (map (left_of 0 m s) harts))).
    { eapply Permutation_in; [symmetry; exact Hp|]. apply in_concat. exists (program 0 0 m). split; [|now apply Hgo].
      unfold programs. apply in_map_iff. exists 0%nat. split; [reflexivity|]. apply in_harts. lia. }
    apply in_app_iff in Hg0 as [|Hg0]; [contradiction|]. apply in_concat in Hg0 as (p & Hp' & Hg0). apply in_map_iff in Hp' as (t' & <- & Ht').
    pose proof (inv_in _ _ _ _ Hi t' go Hg0) as Hg1. apply Hgo in Hg1 as ->. rewrite <- Hl0. exact Hg0. }
  destruct w0 as [|o0 w0]; [destruct Hgo0|]. exists 0%nat, o0, w0. split; [exact Hw0|]. destruct (guard o0 (mem s)) eqn:Hg0; [reflexivity|].
  assert (Hf : waits o0 = false) by (apply (Hhart0 m), (inv_in _ _ _ _ Hi); rewrite Hl0; now left).
  rewrite (Hwait _ _ Hg0) in Hf. discriminate.
Qed.

(** ** Progress *)

(** A bound on the operations of a hart in a phase, and no set of harts that all wait. *)
Context (N : Z) (Hbound : forall e t m, (t < Z.to_nat ncores)%nat -> Z.of_nat (List.length (program e t m)) <= N).
Context (Hlive : forall e m l s, inv e m l s -> (exists t o w, work s !! t = Some (o :: w)) ->
  exists t o w, work s !! t = Some (o :: w) /\ guard o (mem s) = true).

Definition offset (th : thread) : Z := progress th - 4 * epoch th.
Definition gain (s : spmd S O) (t : nat) : Z :=
  match threads (bar s) !! t, work s !! t with
  | Some th, Some w => (N + 4) * epoch th + (N - Z.of_nat (List.length w)) + offset th
  | _, _ => 0
  end.
Definition zsum (l : list Z) : Z := fold_right Z.add 0 l.
Definition total_gain (s : spmd S O) : Z := zsum (map (gain s) harts).

Lemma zsum_insert l : forall t x y, l !! t = Some x -> zsum (<[t := y]> l) = zsum l - x + y.
Proof.
  induction l as [|z l IH]; intros [|t] x y Ht; try discriminate; cbn in Ht.
  - injection Ht as ->. unfold zsum. cbn. lia.
  - change (<[Datatypes.S t := y]> (z :: l)) with (z :: <[t := y]> l). unfold zsum in *. cbn [fold_right]. rewrite (IH t x y Ht). lia.
Qed.
Lemma zsum_bound l b : Forall (fun x => x <= b) l -> zsum l <= Z.of_nat (List.length l) * b.
Proof. unfold zsum. induction 1 as [|x l Hx _ IH]; cbn [fold_right List.length]; lia. Qed.
Lemma total_one s s' t : (t < Z.to_nat ncores)%nat -> (forall i, i <> t -> gain s' i = gain s i) -> gain s t + 1 <= gain s' t ->
  total_gain s + 1 <= total_gain s'.
Proof.
  intros Ht Hne Hg. unfold total_gain. rewrite (map_harts_insert (gain s) (gain s') t Ht Hne).
  rewrite (zsum_insert _ t (gain s t)) by (apply map_harts, Ht). lia.
Qed.

Lemma barrier_step_gain t b th : threads b !! t = Some th -> pc th <> Init -> barrier_step ncores t b = b \/
  exists th', threads (barrier_step ncores t b) !! t = Some th' /\
    (epoch th' = epoch th /\ offset th + 1 <= offset th' \/ epoch th' = epoch th + 1 /\ offset th <= 3 /\ offset th' = 0).
Proof.
  intros Ht Hi. unfold barrier_step. rewrite Ht. destruct th as [p ts ep]. unfold barrier_access, atomic_fetch_add. cbn [pc threadsense epoch].
  assert (Hl : (t < List.length (threads b))%nat) by (eapply lookup_lt_Some, Ht).
  destruct p; try contradiction;
    try (right; eexists; cbn [threads]; rewrite list_lookup_insert_eq by exact Hl; split; [reflexivity|]; unfold offset, progress; cbn; lia).
  - right. eexists. cbn [threads]. rewrite list_lookup_insert_eq by exact Hl. split; [reflexivity|].
    destruct (_ =? ncores - 1); unfold offset, progress; cbn; lia.
  - destruct (sense b =? ts); cbn [negb].
    + right. eexists. cbn [threads]. rewrite list_lookup_insert_eq by exact Hl. split; [reflexivity|]. unfold offset, progress. cbn. lia.
    + left. rewrite list_insert_id by exact Ht. now destruct b.
Qed.

Lemma inv_not_init e b t th : barrier_inv ncores e b -> threads b !! t = Some th -> pc th <> Init.
Proof.
  intros (_ & _ & [(Hok & _)|[H|H]]) Ht.
  - pose proof (proj1 (Forall_lookup _ _) Hok _ _ Ht) as Hth. unfold thread_ok in Hth. intros E. now rewrite E in Hth.
  - destruct H as (_ & r & th' & Hr & Hp & _ & _ & Hw). destruct (decide (t = r)) as [->|Hne]; [congruence|]. destruct (Hw t th Hne Ht). congruence.
  - destruct H as (_ & r & th' & Hr & Hp & _ & _ & Hw). destruct (decide (t = r)) as [->|Hne]; [congruence|]. destruct (Hw t th Hne Ht). congruence.
Qed.

(** A step changes nothing or gains. *)
Lemma step_gain e m l s t : inv e m l s -> spmd_step t s = s \/ total_gain s + 1 <= total_gain (spmd_step t s).
Proof.
  intros Hi. unfold spmd_step. destruct (work s !! t) as [[|o rest]|] eqn:Ht; [| |now left].
  - assert (Htn : (t < Z.to_nat ncores)%nat) by (rewrite <- (inv_work _ _ _ _ Hi); eapply lookup_lt_Some, Ht).
    destruct (threads_lookup e _ t (inv_bar _ _ _ _ Hi) Htn) as [th Hth].
    destruct (barrier_step_gain t (bar s) th Hth (inv_not_init _ _ _ _ (inv_bar _ _ _ _ Hi) Hth)) as [E|(th' & Hth' & Hg)].
    + left. cbv zeta. rewrite E, Z.eqb_refl. now destruct s.
    + right. cbv zeta. set (b := barrier_step ncores t (bar s)) in *. set (w' := if _ =? _ then _ else _).
      apply (total_one s _ t Htn).
      * intros i Hne. unfold gain. cbn [bar work]. unfold b. rewrite barrier_step_other by exact Hne.
        replace (w' !! i) with (work s !! i); [reflexivity|]. unfold w'. destruct (_ =? _); [reflexivity|]. now rewrite list_lookup_insert_ne by congruence.
      * unfold gain at 2. cbn [bar work]. rewrite Hth'.
        assert (Hw' : w' !! t = Some (if epoch th' =? epoch th then [] else program (epoch th') t (mem s))).
        { unfold w'. rewrite (epoch_of_eq b t th' Hth'), (epoch_of_eq (bar s) t th Hth). destruct (epoch th' =? epoch th); [exact Ht|].
          apply list_lookup_insert_eq. eapply lookup_lt_Some, Ht. }
        rewrite Hw'. unfold gain. rewrite Hth, Ht. cbn [List.length]. destruct Hg as [[E Ho]|(E & Ho & Ho')]; rewrite E.
        -- rewrite Z.eqb_refl. cbn [List.length]. lia.
        -- destruct (Z.eqb_spec (epoch th + 1) (epoch th)); [lia|]. specialize (Hbound (epoch th + 1) t (mem s) Htn). lia.
  - destruct (guard o (mem s)); [right|now left].
    assert (Htn : (t < Z.to_nat ncores)%nat) by (rewrite <- (inv_work _ _ _ _ Hi); eapply lookup_lt_Some, Ht).
    destruct (threads_lookup e _ t (inv_bar _ _ _ _ Hi) Htn) as [th Hth]. apply (total_one s _ t Htn).
    + intros i Hne. unfold gain. cbn [bar work]. now rewrite list_lookup_insert_ne by congruence.
    + unfold gain. cbn [bar work]. rewrite Hth, Ht, list_lookup_insert_eq by (eapply lookup_lt_Some, Ht). cbn [List.length]. lia.
Qed.

Lemma run_gain sched : forall e m l s, inv e m l s -> spmd_run sched s = s /\ (forall t, In t sched -> spmd_step t s = s) \/
  total_gain s + 1 <= total_gain (spmd_run sched s).
Proof.
  induction sched as [|t sched IH]; intros e m l s Hi; [left; split; [reflexivity|intros ? []]|].
  change (spmd_run (t :: sched) s) with (spmd_run sched (spmd_step t s)). destruct (step_ok t e m l s Hi) as (e' & m' & l' & Hi').
  destruct (step_gain e m l s t Hi) as [E|E].
  - rewrite E in *. destruct (IH _ _ _ s Hi) as [[E' Hall]|H]; [left|now right]. split; [exact E'|].
    intros t' [<-|H']; [exact E|now apply Hall].
  - right. destruct (IH _ _ _ _ Hi') as [[-> _]|H]; lia.
Qed.

Lemma inv_can_step e m l s : inv e m l s -> exists t, (t < Z.to_nat ncores)%nat /\ spmd_step t s <> s.
Proof.
  intros Hi. destruct (Exists_dec (fun w : list O => w <> []) (work s)) as [Hex|Hno].
  - apply Exists_exists in Hex as (w & Hin & Hw). apply list_elem_of_lookup in Hin as [t Ht]. destruct w as [|o w]; [contradiction|].
    destruct (Hlive e m l s Hi) as (t' & o' & w' & Ht' & Hg); [eauto|]. exists t'. split.
    { rewrite <- (inv_work _ _ _ _ Hi). eapply lookup_lt_Some, Ht'. }
    unfold spmd_step. rewrite Ht', Hg. intros E. apply (f_equal work) in E. cbn [work] in E. apply (f_equal (fun x => x !! t')) in E.
    rewrite list_lookup_insert_eq, Ht' in E by (eapply lookup_lt_Some, Ht'). injection E as E. apply (f_equal (@List.length O)) in E. cbn in E. lia.
  - apply not_Exists_Forall in Hno; [|intros; exact _].
    destruct (inv_enabled ncores e (bar s) ltac:(lia) (inv_bar _ _ _ _ Hi)) as (t & Htn & Hne). exists t. split; [exact Htn|].
    assert (Hlt : (t < List.length (work s))%nat) by (rewrite (inv_work _ _ _ _ Hi); exact Htn).
    destruct (lookup_lt_is_Some_2 _ _ Hlt) as [w Ht]. pose proof (proj1 (Forall_lookup _ _) Hno _ _ Ht) as Hw. cbn in Hw.
    destruct w as [|o w]; [|exfalso; apply Hw; discriminate]. unfold spmd_step. rewrite Ht. intros E. apply Hne. apply (f_equal bar) in E. exact E.
Qed.

Lemma rounds_gain rounds : Forall (round ncores) rounds -> forall e m l s, inv e m l s ->
  total_gain s + Z.of_nat (List.length rounds) <= total_gain (spmd_run (concat rounds) s).
Proof.
  induction 1 as [|r rounds Hr _ IH]; intros e m l s Hi; cbn [concat List.length]; [cbn; lia|].
  unfold spmd_run in *. rewrite exec_app. destruct (run_ok r e m l s Hi) as (e' & m' & l' & Hi'). specialize (IH _ _ _ _ Hi').
  destruct (run_gain r e m l s Hi) as [[_ Hall]|H]; [|unfold spmd_run in *; lia].
  destruct (inv_can_step e m l s Hi) as (t & Ht & Hne). exfalso. apply Hne, Hall, Hr, Ht.
Qed.

(** After enough rounds, in any order, [E] phases are complete. *)
Lemma spmd_progress E rounds : Forall (round ncores) rounds -> ncores * ((N + 4) * E + N + 3) < Z.of_nat (List.length rounds) ->
  exists e m l, E <= e /\ inv e m l (spmd_run (concat rounds) (spmd_start m0)).
Proof.
  intros Hr Hlen. destruct (spmd_invariant (concat rounds)) as (e & m & l & Hi). exists e, m, l. split; [|exact Hi].
  pose proof (rounds_gain rounds Hr 0 m0 [] _ start_ok) as Hg. set (s := spmd_run _ _) in *.
  assert (HN : 0 <= N) by (specialize (Hbound 0 0%nat m0 ltac:(lia)); lia).
  assert (H0 : 0 <= total_gain (spmd_start m0)).
  { unfold total_gain, zsum. generalize harts as hs. induction hs as [|t hs IH]; cbn [map fold_right]; [lia|].
    assert (0 <= gain (spmd_start m0) t); [|lia]. unfold gain. cbn [bar work spmd_start]. destruct (threads _ !! t) as [th|] eqn:E1; [|lia].
    destruct (programs 0 m0 !! t) as [w|] eqn:E2; [|lia]. apply lookup_replicate in E1 as [-> _]. unfold offset, progress. cbn [epoch pc].
    unfold programs in E2. change (map ?f harts) with (f <$> harts) in E2. rewrite list_lookup_fmap in E2.
    destruct (harts !! t) as [t'|] eqn:E3; [|discriminate]. injection E2 as <-.
    assert (Ht' : (t' < Z.to_nat ncores)%nat) by (apply in_harts, list_elem_of_In; eapply list_elem_of_lookup_2, E3).
    specialize (Hbound 0 t' m0 Ht'). lia. }
  assert (Hb : total_gain s <= ncores * ((N + 4) * e + N + 3)).
  { unfold total_gain. replace ncores with (Z.of_nat (List.length (map (gain s) harts))) at 1 by (rewrite length_map; unfold harts; rewrite length_seq; lia).
    apply zsum_bound. rewrite List.Forall_forall. intros x Hx. apply in_map_iff in Hx as (t & <- & Ht). unfold gain.
    assert (0 <= e). { pose proof (inv_phases _ _ _ _ Hi) as Hp. clear -Hp. induction Hp; lia. }
    destruct (threads (bar s) !! t) as [th|] eqn:E1; [|nia]. destruct (work s !! t) as [w|]; [|nia].
    pose proof (inv_thread _ _ _ _ _ (inv_bar _ _ _ _ Hi) E1) as H1. assert (offset th <= 3) by (unfold offset, progress; destruct (pc th); lia).
    assert (epoch th <= e) by (destruct H1 as [|(? & _)]; lia). nia. }
  nia.
Qed.
End Spmd.

(** ** Interleavings of phases *)

Lemma interleaving_map_inv {A B} (f : A -> B) ps l : interleaving (map (map f) ps) l -> exists l', l = map f l' /\ interleaving ps l'.
Proof.
  remember (map (map f) ps) as qs eqn:E. intros Hl. revert ps E. induction Hl as [qs Hq|k o q qs l Hk Hl IH]; intros ps ->.
  - exists []. split; [reflexivity|]. apply interleaving_done. rewrite List.Forall_forall in *. intros p Hp.
    specialize (Hq (map f p) (in_map _ _ _ Hp)). destruct p; [reflexivity|discriminate].
  - change (map (map f) ps) with (map f <$> ps) in Hk. rewrite list_lookup_fmap in Hk. destruct (ps !! k) as [[|a p]|] eqn:Ep; try discriminate.
    cbn in Hk. injection Hk as <- <-. destruct (IH (<[k := p]> ps)) as (l' & -> & Hl').
    + change (map (map f)) with (fmap (M := list) (map f)). rewrite list_fmap_insert. reflexivity.
    + exists (a :: l'). split; [reflexivity|]. exact (interleaving_step k a p ps l' Ep Hl').
Qed.

(** The harts by number. *)
Lemma zrange_harts nc : zrange 0 nc = map Z.of_nat (harts nc).
Proof. unfold zrange, harts. rewrite Z.sub_0_r. apply map_ext. intros k. lia. Qed.

(** A phase in which only hart 0 has anything to do but wait. *)
Lemma phase_of_hart_0 {O} (f : O -> bool) nc (ps : nat -> list O) l (p : list O) : 0 < nc -> interleaving (map ps (harts nc)) l ->
  ps 0%nat = p -> (forall t o, t <> 0%nat -> In o (ps t) -> f o = false) -> (forall o, In o p -> f o = true) ->
  List.filter f l = p.
Proof.
  intros Hnc Hl Hp Hno Hyes. rewrite (interleaving_filter f _ _ Hl 0 p).
  - clear -Hyes. induction p as [|o p IH]; [reflexivity|]. cbn [List.filter]. rewrite (Hyes o) by now left. f_equal. apply IH. intros. apply Hyes. now right.
  - rewrite map_harts by lia. now rewrite Hp.
  - intros j q Hj Hq o Ho. change (map ps (harts nc)) with (ps <$> harts nc) in Hq. rewrite list_lookup_fmap in Hq.
    destruct (harts nc !! j) as [t|] eqn:E; [|discriminate]. injection Hq as <-. unfold harts in E. apply lookup_seq in E as [-> _].
    apply (Hno (0 + j)%nat); [lia|exact Ho].
Qed.

Lemma prefix_app {A} (l l' p : list A) : l ++ l' = p -> l = firstn (List.length l) p.
Proof. intros <-. now rewrite firstn_app, Nat.sub_diag, firstn_O, app_nil_r, firstn_all. Qed.

