(* ===== verification/Solid.v ===== *)
(** * The solid cube on all harts: [workloads/demos/mt-solid.c]

    [thread_entry] as a program in phases ([Spmd]): the start-up with its handshake
    on [video_go], and then for every frame the three phases between barriers:
    vertices and normals, row bands, and the presentation by hart 0, which also
    advances the angles. The stages of a frame are those of [Cube].

    The theorems compare any schedule of any number of harts with one hart that
    draws frame after frame: the bytes sent are always those of some number of
    its frames, and whatever the schedule they get ahead. *)

From Stdlib Require Import String Ascii.
From S2P Require Import Prelude Cmodel Libc Raster Tty G3d Cube Barrier Spmd.
Local Open Scope Z_scope.

(** The shared variables, and the bytes sent over the UART. *)
Record solid_mem := mksolid { angle_x : Z; angle_y : Z; video_go : Z; the_scene : scene; tgt : target; sent : list Z }.

Definition on_scene (f : scene -> scene) (m : solid_mem) : solid_mem :=
  mksolid (angle_x m) (angle_y m) (video_go m) (f (the_scene m)) (tgt m) (sent m).
Definition on_target (f : target -> target) (m : solid_mem) : solid_mem :=
  mksolid (angle_x m) (angle_y m) (video_go m) (the_scene m) (f (tgt m)) (sent m).
Definition uart_out (s : list Z) (m : solid_mem) : solid_mem :=
  mksolid (angle_x m) (angle_y m) (video_go m) (the_scene m) (tgt m) (sent m ++ s).

Inductive solid_op :=
  | AngleX (v : Z) | AngleY (v : Z) | Print (s : list Z) | Go | WaitGo
  | Put (world rot : g3d_mat4) (o : scene_op) | Draw (o : draw_op) | Present | NextY | NextX.
Definition solid_act (o : solid_op) (m : solid_mem) : solid_mem :=
  match o with
  | AngleX v => { m with angle_x := v }
  | AngleY v => { m with angle_y := v }
  | Print s => uart_out s m
  | Go => { m with video_go := 1 }
  | WaitGo => m
  | Put world rot o => on_scene (put world rot o) m
  | Draw o => on_target (draw o) m
  | Present => uart_out (g3d_present (fb (tgt m))) m
  | NextY => { m with angle_y := Z.land (angle_y m + 3) 255 }
  | NextX => { m with angle_x := Z.land (angle_x m + 1) 255 }
  end.
(** [while (!video_go);] *)
Definition solid_guard (o : solid_op) (m : solid_mem) : bool := match o with WaitGo => negb (video_go m =? 0) | _ => true end.

(** [printf("\033[?25l\033[H\033[2J")] *)
Definition clear_screen : list Z := [27] ++ str "[?25l" ++ [27] ++ str "[H" ++ [27] ++ str "[2J".
Lemma clear_screen_printf : printf (cstr clear_screen) [] = Some clear_screen.
Proof. vm_compute. reflexivity. Qed.

Definition start_up (cid : Z) : list solid_op := if cid =? 0 then [AngleX 18; AngleY 30; Print clear_screen; Go] else [WaitGo].
Definition scene_phase (nc cid : Z) (m : solid_mem) : list solid_op :=
  map (Put (solid_world (angle_x m) (angle_y m)) (solid_rot (angle_x m) (angle_y m))) (scene_program nc cid).
Definition band_phase (nc cid : Z) (m : solid_mem) : list solid_op := map Draw (band_program nc (the_scene m) cid).
Definition present_phase (cid : Z) : list solid_op := if cid =? 0 then [Present; NextY; NextX] else [].

(** Phase 0 is the start-up, phases [1 + 3k], [2 + 3k] and [3 + 3k] are those of frame [k]. *)
Definition solid_program (nc : Z) (e : Z) (t : nat) (m : solid_mem) : list solid_op :=
  let cid := Z.of_nat t in
  if e =? 0 then start_up cid
  else if (e - 1) mod 3 =? 0 then scene_phase nc cid m
  else if (e - 1) mod 3 =? 1 then band_phase nc cid m
  else present_phase cid.
Definition solid_start (nc : Z) (m0 : solid_mem) : spmd solid_mem solid_op := spmd_start (solid_program nc) nc m0.
Definition solid_run (nc : Z) (sched : list nat) (m0 : solid_mem) : solid_mem :=
  mem (spmd_run solid_act solid_guard (solid_program nc) nc sched (solid_start nc m0)).

(** ** One hart alone *)

Definition solid_started (m0 : solid_mem) : solid_mem := mksolid 18 30 1 (the_scene m0) (tgt m0) (sent m0 ++ clear_screen).
Definition with_scene (m : solid_mem) : solid_mem :=
  on_scene (exec (put (solid_world (angle_x m) (angle_y m)) (solid_rot (angle_x m) (angle_y m))) (scene_program 1 0)) m.
Definition with_picture (m : solid_mem) : solid_mem := on_target (solid_band 1 0 (the_scene m)) m.
Definition presented (m : solid_mem) : solid_mem := solid_act NextX (solid_act NextY (solid_act Present m)).
Definition solid_frame (m : solid_mem) : solid_mem := presented (with_picture (with_scene m)).
(** After [k] frames. *)
Definition solid_seq (m0 : solid_mem) (k : nat) : solid_mem := Nat.iter k solid_frame (solid_started m0).

(** ** The programs do not change what they were computed from *)

Lemma solid_stable nc : stable solid_act (solid_program nc).
Proof.
  intros e t o m t' Ho. unfold solid_program in *. destruct (e =? 0); [reflexivity|].
  destruct ((e - 1) mod 3 =? 0).
  - apply in_map_iff in Ho as (x & <- & _). reflexivity.
  - destruct ((e - 1) mod 3 =? 1); [|reflexivity]. apply in_map_iff in Ho as (x & <- & _). reflexivity.
Qed.

(** ** What a complete phase does *)

Definition mem_ok (m : solid_mem) : Prop := scene_ok (the_scene m) /\ verts_ok (the_scene m) /\ target_ok (tgt m).

Lemma exec_put_mem world rot l : forall m, exec solid_act (map (Put world rot) l) m = on_scene (exec (put world rot) l) m.
Proof. induction l as [|o l IH] using rev_ind; intros m; [now destruct m|]. rewrite map_app, exec_app, IH. unfold on_scene, on_target. rewrite exec_app. reflexivity. Qed.
Lemma exec_draw_mem l : forall m, exec solid_act (map Draw l) m = on_target (exec draw l) m.
Proof. induction l as [|o l IH] using rev_ind; intros m; [now destruct m|]. rewrite map_app, exec_app, IH. unfold on_scene, on_target. rewrite exec_app. reflexivity. Qed.

Definition waits (o : solid_op) : bool := match o with WaitGo => true | _ => false end.
Lemma exec_waits l : forall m, exec solid_act l m = exec solid_act (List.filter (fun o => negb (waits o)) l) m.
Proof.
  induction l as [|o l IH]; intros m; [reflexivity|]. cbn [List.filter].
  change (exec solid_act (o :: l) m) with (exec solid_act l (solid_act o m)). rewrite IH.
  destruct o; cbn [waits negb]; reflexivity.
Qed.

Section Phases.
Context (nc : Z) (Hnc : 0 < nc).

Lemma start_up_done m l : interleaving (programs (solid_program nc) nc 0 m) l -> exec solid_act l m = solid_started m.
Proof.
  intros Hl. rewrite exec_waits.
  rewrite (phase_of_hart_0 (fun o => negb (waits o)) nc _ l [AngleX 18; AngleY 30; Print clear_screen; Go] Hnc Hl eq_refl).
  - reflexivity.
  - intros t o Ht Ho. unfold solid_program, start_up in Ho. cbn [Z.eqb] in Ho. destruct (Z.eqb_spec (Z.of_nat t) 0); [lia|].
    destruct Ho as [<-|[]]. reflexivity.
  - intros o [<-|[<-|[<-|[<-|[]]]]]; reflexivity.
Qed.
Lemma present_done l : interleaving (map (fun t => present_phase (Z.of_nat t)) (harts nc)) l -> l = [Present; NextY; NextX].
Proof.
  intros Hl. rewrite <- (phase_of_hart_0 (fun _ => true) nc _ l [Present; NextY; NextX] Hnc Hl eq_refl).
  - clear Hl. induction l as [|o l IH]; [reflexivity|]. cbn [List.filter]. now rewrite IH at 1.
  - intros t o Ht Ho. unfold present_phase in Ho. destruct (Z.eqb_spec (Z.of_nat t) 0); [lia|destruct Ho].
  - reflexivity.
Qed.
Lemma scene_done m l : scene_ok (the_scene m) -> interleaving (map (fun t => scene_phase nc (Z.of_nat t) m) (harts nc)) l ->
  exec solid_act l m = with_scene m.
Proof.
  intros Hsc Hl. unfold scene_phase in Hl.
  rewrite <- (map_map (fun t => scene_program nc (Z.of_nat t)) (map (Put _ _))) in Hl.
  apply interleaving_map_inv in Hl as (l' & -> & Hl). rewrite exec_put_mem. unfold with_scene, on_scene.
  rewrite (scene_parallel _ _ nc l' (the_scene m) Hnc Hsc); [reflexivity|]. rewrite zrange_harts, map_map. exact Hl.
Qed.
Lemma band_done m l : verts_ok (the_scene m) -> target_ok (tgt m) ->
  interleaving (map (fun t => band_phase nc (Z.of_nat t) m) (harts nc)) l -> exec solid_act l m = with_picture m.
Proof.
  intros Hv Ht Hl. unfold band_phase in Hl.
  rewrite <- (map_map (fun t => band_program nc (the_scene m) (Z.of_nat t)) (map Draw)) in Hl.
  apply interleaving_map_inv in Hl as (l' & -> & Hl). rewrite exec_draw_mem. unfold with_picture, on_target.
  rewrite (bands_parallel nc (the_scene m) l' (tgt m) Hnc Hv Ht); [reflexivity|]. rewrite zrange_harts, map_map. exact Hl.
Qed.

(** Where a run of complete phases is. *)
Definition at_phase (m0 : solid_mem) (e : Z) (m : solid_mem) : Prop :=
  e = 0 /\ m = m0 \/ exists k, let s := solid_seq m0 k in
    e = 1 + 3 * Z.of_nat k /\ m = s \/ e = 2 + 3 * Z.of_nat k /\ m = with_scene s \/
    e = 3 + 3 * Z.of_nat k /\ m = with_picture (with_scene s).

Lemma program_1 k t m : solid_program nc (1 + 3 * Z.of_nat k) t m = scene_phase nc (Z.of_nat t) m.
Proof. unfold solid_program. destruct (Z.eqb_spec (1 + 3 * Z.of_nat k) 0); [lia|]. replace ((1 + 3 * Z.of_nat k - 1) mod 3) with 0 by zlia. reflexivity. Qed.
Lemma program_2 k t m : solid_program nc (2 + 3 * Z.of_nat k) t m = band_phase nc (Z.of_nat t) m.
Proof. unfold solid_program. destruct (Z.eqb_spec (2 + 3 * Z.of_nat k) 0); [lia|]. replace ((2 + 3 * Z.of_nat k - 1) mod 3) with 1 by zlia. reflexivity. Qed.
Lemma program_3 k t m : solid_program nc (3 + 3 * Z.of_nat k) t m = present_phase (Z.of_nat t).
Proof. unfold solid_program. destruct (Z.eqb_spec (3 + 3 * Z.of_nat k) 0); [lia|]. replace ((3 + 3 * Z.of_nat k - 1) mod 3) with 2 by zlia. reflexivity. Qed.

Lemma mem_ok_started m : mem_ok m -> mem_ok (solid_started m).
Proof. exact (fun H => H). Qed.
Lemma mem_ok_scene m : mem_ok m -> mem_ok (with_scene m).
Proof. intros (H1 & H2 & H3). split; [apply exec_put_ok, H1|]. split; [apply exec_put_verts_ok, H2|exact H3]. Qed.
Lemma mem_ok_picture m : mem_ok m -> mem_ok (with_picture m).
Proof. intros (H1 & H2 & H3). split; [exact H1|]. split; [exact H2|]. apply solid_band_ok; assumption. Qed.
Lemma mem_ok_presented m : mem_ok m -> mem_ok (presented m).
Proof. exact (fun H => H). Qed.
Lemma mem_ok_seq m0 k : mem_ok m0 -> mem_ok (solid_seq m0 k).
Proof.
  intros H0. induction k as [|k IH]; [apply mem_ok_started, H0|]. unfold solid_seq in *. rewrite Nat.iter_succ.
  apply mem_ok_presented, mem_ok_picture, mem_ok_scene, IH.
Qed.

Lemma phases_at m0 e m : mem_ok m0 -> phases solid_act (solid_program nc) nc m0 e m -> at_phase m0 e m.
Proof.
  intros H0. induction 1 as [|e m l _ IH Hl]; [left; auto|]. right. destruct IH as [[-> ->]|[k IH]].
  - exists 0%nat. left. split; [reflexivity|]. apply start_up_done, Hl.
  - pose proof (mem_ok_seq m0 k H0) as Hk. cbv zeta in IH. unfold programs in Hl. destruct IH as [[-> ->]|[[-> ->]|[-> ->]]].
    + exists k. right. left. split; [lia|]. apply scene_done; [apply Hk|]. erewrite map_ext; [exact Hl|]. intros t. symmetry. apply program_1.
    + apply mem_ok_scene in Hk. exists k. right. right. split; [lia|]. apply band_done; [apply Hk|apply Hk|].
      erewrite map_ext; [exact Hl|]. intros t. symmetry. apply program_2.
    + exists (Datatypes.S k). left. split; [lia|]. rewrite (present_done l); [unfold solid_seq; rewrite Nat.iter_succ; reflexivity|].
      erewrite map_ext; [exact Hl|]. intros t. symmetry. apply program_3.
Qed.
End Phases.

(** ** What has been sent *)

(** The picture of frame [i], and the bytes after [k] frames. *)
Definition picture (m0 : solid_mem) (i : nat) : list g3d_rgb := fb (tgt (with_picture (with_scene (solid_seq m0 i)))).
Definition frames_sent (m0 : solid_mem) (k : nat) : list Z := clear_screen ++ flat_map (fun i => g3d_present (picture m0 i)) (seq 0 k).

Lemma solid_seq_S m0 k : solid_seq m0 (Datatypes.S k) = solid_frame (solid_seq m0 k).
Proof. unfold solid_seq. rewrite Nat.iter_succ. reflexivity. Qed.
Lemma sent_presented m : sent (presented m) = sent m ++ g3d_present (fb (tgt m)).
Proof. reflexivity. Qed.
Lemma sent_picture m : sent (with_picture (with_scene m)) = sent m.
Proof. reflexivity. Qed.
Lemma sent_seq m0 k : sent m0 = [] -> sent (solid_seq m0 k) = frames_sent m0 k.
Proof.
  intros H0. induction k as [|k IH]; [cbn; rewrite H0; reflexivity|]. unfold frames_sent in *. rewrite seq_S, flat_map_app, app_assoc, <- IH.
  cbn [flat_map Nat.add]. rewrite app_nil_r. rewrite solid_seq_S. unfold solid_frame. rewrite sent_presented, sent_picture. unfold picture. reflexivity.
Qed.
Lemma angles_frame m : (angle_x (solid_frame m), angle_y (solid_frame m)) = (Z.land (angle_x m + 1) 255, Z.land (angle_y m + 3) 255).
Proof.
  unfold solid_frame, presented. assert (E : forall p, angle_x p = angle_x m -> angle_y p = angle_y m ->
    (angle_x (solid_act NextX (solid_act NextY (solid_act Present p))), angle_y (solid_act NextX (solid_act NextY (solid_act Present p))))
    = (Z.land (angle_x m + 1) 255, Z.land (angle_y m + 3) 255)) by (intros p <- <-; reflexivity).
  apply E; reflexivity.
Qed.
(** Frame [k] has the angles of [Cube.frame_angles]. *)
Lemma angles_seq m0 k : (angle_x (solid_seq m0 k), angle_y (solid_seq m0 k)) = frame_angles k.
Proof. induction k as [|k IH]; [reflexivity|]. cbn [frame_angles]. rewrite <- IH, solid_seq_S. apply angles_frame. Qed.

Definition silent (o : solid_op) : Prop := match o with Put _ _ _ | Draw _ => True | _ => False end.
Lemma exec_silent l : Forall silent l -> forall m, sent (exec solid_act l m) = sent m.
Proof.
  induction 1 as [|o l Ho _ IH]; intros m; [reflexivity|]. change (exec solid_act (o :: l) m) with (exec solid_act l (solid_act o m)).
  rewrite IH. destruct o; try contradiction; reflexivity.
Qed.

Section Schedules.
Context (nc : Z) (Hnc : 0 < nc < 2 ^ 31) (m0 : solid_mem) (H0 : mem_ok m0) (Hsent : sent m0 = []).
Notation inv := (inv solid_act (solid_program nc) nc m0).

Lemma inv_sent e m l s : inv e m l s -> e = 0 /\ sent (mem s) = [] \/ exists k, e <= 3 + 3 * Z.of_nat k /\ sent (mem s) = frames_sent m0 k.
Proof.
  intros Hi. pose proof (phases_at nc (proj1 Hnc) m0 e m H0 (inv_phases _ _ _ _ _ _ _ _ Hi)) as Hat.
  rewrite (inv_mem _ _ _ _ _ _ _ _ Hi). destruct (inv_complete _ _ _ _ _ _ _ _ Hi) as [l' Hl]. destruct Hat as [[-> ->]|[k Hk]].
  - set (f := fun o => negb (waits o)).
    assert (Hf : List.filter f (l ++ l') = [AngleX 18; AngleY 30; Print clear_screen; Go]).
    { apply (phase_of_hart_0 f nc _ _ _ (proj1 Hnc) Hl eq_refl).
      - intros t o Ht Ho. unfold solid_program, start_up in Ho. cbn [Z.eqb] in Ho. destruct (Z.eqb_spec (Z.of_nat t) 0); [lia|].
        destruct Ho as [<-|[]]. reflexivity.
      - intros o [<-|[<-|[<-|[<-|[]]]]]; reflexivity. }
    rewrite List.filter_app in Hf. apply prefix_app in Hf. rewrite exec_waits. fold f. rewrite Hf.
    destruct (List.length (List.filter f l)) as [|[|[|n]]]; [left; auto|left; auto|left; auto|right; exists 0%nat].
    split; [lia|]. rewrite <- (sent_seq m0 0 Hsent). transitivity (sent m0 ++ clear_screen); [|reflexivity].
    generalize clear_screen as c. intros c. destruct n as [|n]; [reflexivity|]. rewrite firstn_all2 by (cbn; lia). reflexivity.
  - right. cbv zeta in Hk. destruct Hk as [[-> ->]|[[-> ->]|[-> ->]]].
    + exists k. split; [lia|]. rewrite exec_silent; [apply (sent_seq m0 k Hsent)|].
      apply List.Forall_forall. intros o Ho. destruct (inv_ops _ _ _ _ _ _ _ _ _ Hi Ho) as [t Ht]. rewrite program_1 in Ht.
      apply in_map_iff in Ht as (x & <- & _). exact I.
    + exists k. split; [lia|]. rewrite exec_silent; [apply (sent_seq m0 k Hsent)|].
      apply List.Forall_forall. intros o Ho. destruct (inv_ops _ _ _ _ _ _ _ _ _ Hi Ho) as [t Ht]. rewrite program_2 in Ht.
      apply in_map_iff in Ht as (x & <- & _). exact I.
    + assert (Hl3 : l ++ l' = [Present; NextY; NextX]).
      { apply (present_done nc (proj1 Hnc)). unfold programs in Hl. erewrite map_ext; [exact Hl|]. intros t. symmetry. apply program_3. }
      apply prefix_app in Hl3. rewrite Hl3. destruct (List.length l) as [|n].
      * exists k. split; [lia|]. apply (sent_seq m0 k Hsent).
      * exists (Datatypes.S k). split; [lia|]. rewrite <- (sent_seq m0 (Datatypes.S k) Hsent). rewrite solid_seq_S.
        unfold solid_frame. rewrite sent_presented. generalize (with_picture (with_scene (solid_seq m0 k))) as M. intros M.
        destruct n as [|[|n]]; [reflexivity|reflexivity|]. rewrite firstn_all2 by (cbn; lia). reflexivity.
Qed.
End Schedules.

(** ** The harts keep going *)

Section Live.
Context (nc : Z) (Hnc : 0 < nc < 2 ^ 31) (m0 : solid_mem).
Notation inv := (inv solid_act (solid_program nc) nc m0).

(** A hart that waits for [video_go] does so while hart 0 is still starting up. *)
Lemma exec_go l m : In Go l -> (forall o, In o l -> match o with AngleX _ | AngleY _ | Print _ | Go | WaitGo => True | _ => False end) ->
  video_go (exec solid_act l m) = 1.
Proof.
  intros Hin. induction l as [|o l IH] using rev_ind; intros Hall; [destruct Hin|]. rewrite exec_app. apply in_app_iff in Hin.
  pose proof (Hall o ltac:(apply in_app_iff; right; now left)) as Ho.
  destruct Hin as [Hin|[->|[]]]; [|reflexivity]. specialize (IH Hin ltac:(intros o' Ho'; apply Hall, in_app_iff; now left)).
  revert IH. generalize (exec solid_act l m) as M. intros M HM. destruct o; try contradiction; first [exact HM|reflexivity].
Qed.

Lemma solid_live e m l s : inv e m l s -> (exists t o w, work s !! t = Some (o :: w)) ->
  exists t o w, work s !! t = Some (o :: w) /\ solid_guard o (mem s) = true.
Proof.
  apply (handshake_live _ _ _ _ Hnc m0 waits Go); clear.
  - intros [] m; try discriminate; reflexivity.
  - intros e t m o Hin Hw. unfold solid_program in Hin. destruct (Z.eqb_spec e 0); [assumption|]. destruct o; try discriminate Hw.
    destruct (_ =? 0); [apply in_map_iff in Hin as (? & [=] & _)|]. destruct (_ =? 1); [apply in_map_iff in Hin as (? & [=] & _)|].
    unfold present_phase in Hin. destruct (_ =? 0); [|destruct Hin]. destruct Hin as [[=]|[[=]|[[=]|[]]]].
  - intros m o [<-|[<-|[<-|[<-|[]]]]]; reflexivity.
  - intros t m. unfold solid_program, start_up. cbn [Z.eqb]. destruct (Z.eqb_spec (Z.of_nat t) 0).
    + split; [intros _; lia|]. intros _. right. right. right. now left.
    + split; [intros [[=]|[]]|lia].
  - intros l m o Hin Hops. assert (Hv : video_go (exec solid_act l m) = 1).
    { apply exec_go; [exact Hin|]. intros o' Ho'. destruct (Hops o' Ho') as [t Ht]. unfold solid_program, start_up in Ht. cbn [Z.eqb] in Ht.
      destruct (Z.of_nat t =? 0); [destruct Ht as [<-|[<-|[<-|[<-|[]]]]]|destruct Ht as [<-|[]]]; exact I. }
    destruct o; try reflexivity. cbn [solid_guard]. rewrite Hv. reflexivity.
Qed.

(** No hart has more than 640 operations in a phase. *)
Definition most_ops : Z := 640.
Lemma length_flat_map {A B} (f : A -> list B) n l : (forall x, In x l -> (List.length (f x) <= n)%nat) -> (List.length (flat_map f l) <= List.length l * n)%nat.
Proof.
  induction l as [|x l IH]; intros Hf; [cbn; lia|]. cbn [flat_map List.length]. rewrite length_app.
  pose proof (Hf x ltac:(now left)). specialize (IH ltac:(intros; apply Hf; now right)). lia.
Qed.
Lemma triangle_ops_length lo hi t : (List.length (triangle_ops lo hi t) <= 48)%nat.
Proof.
  unfold triangle_ops. destruct t as [[[a b] c] col]. destruct (sort3 a b c) as [[a' b'] c']. destruct (_ =? _); [cbn; lia|]. rewrite length_map.
  change 48%nat with (List.length (zrange 0 48)).
  apply NoDup_incl_length; [apply List.NoDup_filter, NoDup_ListNoDup, NoDup_zrange|].
  intros y Hy. apply filter_In in Hy as [_ Hy]. apply negb_true_iff, orb_false_iff in Hy as [H1 H2].
  apply Z.ltb_ge in H1. apply Z.leb_gt in H2. apply in_zrange. unfold G3D_H in *.
  destruct (Z.ltb_spec lo 0), (Z.ltb_spec 48 hi); lia.
Qed.
Lemma solid_tris_length sc : (List.length (solid_tris sc) <= 12)%nat.
Proof.
  unfold solid_tris. change 12%nat with (List.length (zrange 0 NFACE) * 1)%nat. apply length_flat_map. intros i _. destruct (face sc i); cbn; lia.
Qed.
Lemma band_length sc cid : 0 <= cid < nc -> (List.length (band_program nc sc cid) <= 640)%nat.
Proof.
  intros Hc. unfold band_program, band_ops. rewrite length_app, length_map, length_zrange.
  pose proof (y_lo_nonneg nc cid (proj1 Hnc) (proj1 Hc)). pose proof (y_hi_le nc cid Hc) as Hhi. unfold G3D_H in Hhi.
  pose proof (length_flat_map (triangle_ops (y_lo nc cid) (y_hi nc cid)) 48 (solid_tris sc) (fun t _ => triangle_ops_length _ _ t)).
  pose proof (solid_tris_length sc). nia.
Qed.
Lemma strided_length fuel : forall i n step, (List.length (strided fuel i n step) <= fuel)%nat.
Proof.
  induction fuel as [|fuel IH]; intros i n step; cbn [strided]; [reflexivity|]. destruct (i <? n); [|cbn; lia].
  specialize (IH (i + step) n step). cbn [List.length]. lia.
Qed.
Lemma program_bound e t m : (t < Z.to_nat nc)%nat -> Z.of_nat (List.length (solid_program nc e t m)) <= most_ops.
Proof.
  intros Ht. unfold most_ops, solid_program, start_up, scene_phase, band_phase, present_phase.
  destruct (e =? 0); [destruct (_ =? 0); cbn; lia|]. destruct (_ =? 0).
  - rewrite length_map. unfold scene_program. rewrite length_app, !length_map.
    pose proof (strided_length 8 (Z.of_nat t) NVERT nc). pose proof (strided_length 12 (Z.of_nat t) NFACE nc). lia.
  - destruct (_ =? 1); [rewrite length_map; pose proof (band_length (the_scene m) (Z.of_nat t) ltac:(lia)); lia|].
    destruct (_ =? 0); cbn; lia.
Qed.
End Live.

(** ** Theorems *)

(** C9: However the operations of the harts and the accesses of their barriers are
    interleaved, from the start-up on, the bytes mt-solid has sent are nothing yet, or the
    clear-screen sequence and the pictures of the first [k] frames that one hart
    alone draws one after the other. *)
Theorem solid_output_sequential nc sched m0 : 0 < nc < 2 ^ 31 -> mem_ok m0 -> sent m0 = [] ->
  sent (solid_run nc sched m0) = [] \/ exists k, sent (solid_run nc sched m0) = frames_sent m0 k.
Proof.
  intros Hnc H0 Hs. destruct (spmd_invariant solid_act solid_guard (solid_program nc) nc Hnc (solid_stable nc) m0 sched) as (e & m & l & Hi).
  destruct (inv_sent nc Hnc m0 H0 Hs e m l _ Hi) as [[_ E]|(k & _ & E)]; [left; exact E|right; exists k; exact E].
Qed.

(** C10: The frames keep coming: after enough rounds, each of which gives every hart a
    step, in any order, at least [K] frames have been sent, and what was sent is
    what one hart alone sends. *)
Theorem solid_frames_arrive nc K rounds m0 : 0 < nc < 2 ^ 31 -> mem_ok m0 -> sent m0 = [] -> Forall (round nc) rounds ->
  nc * (644 * (1 + 3 * Z.of_nat K) + 643) < Z.of_nat (List.length rounds) ->
  exists k, (K <= k)%nat /\ sent (solid_run nc (concat rounds) m0) = frames_sent m0 k.
Proof.
  intros Hnc H0 Hs Hr Hlen.
  destruct (spmd_progress solid_act solid_guard (solid_program nc) nc Hnc (solid_stable nc) m0 most_ops (program_bound nc Hnc)
    (solid_live nc Hnc m0) (1 + 3 * Z.of_nat K) rounds Hr) as (e & m & l & He & Hi); [unfold most_ops; lia|].
  destruct (inv_sent nc Hnc m0 H0 Hs e m l _ Hi) as [[E _]|(k & Hk & E)]; [lia|]. exists k. split; [lia|exact E].
Qed.

Definition memory0 : solid_mem := mksolid 0 0 0 scene0 target0 [].
Lemma memory0_ok : mem_ok memory0.
Proof.
  split; [split; reflexivity|]. split; [apply Forall_replicate; split; unfold is_s32; cbn; lia|].
  split; [reflexivity|]. intros z [= <-]. reflexivity.
Qed.
(** Four harts; hart 2 starts, and waits, before hart 0 has printed. *)
Lemma solid_output_sequential_witness :
  sent (solid_run 4 [2; 1; 0; 0; 2; 0; 3]%nat memory0) = clear_screen /\
  (sent (solid_run 4 [2; 1; 0; 0; 2; 0; 3]%nat memory0) = [] \/ exists k, sent (solid_run 4 [2; 1; 0; 0; 2; 0; 3]%nat memory0) = frames_sent memory0 k).
Proof. split; [vm_compute; reflexivity|]. apply (solid_output_sequential 4 [2; 1; 0; 0; 2; 0; 3]%nat memory0); [lia|apply memory0_ok|reflexivity]. Defined.
Definition many_rounds : list (list nat) := replicate 6500 [1; 0]%nat.
Lemma solid_frames_arrive_witness :
  exists k, (1 <= k)%nat /\ sent (solid_run 2 (concat many_rounds) memory0) = frames_sent memory0 k.
Proof.
  refine (solid_frames_arrive 2 1 many_rounds memory0 _ memory0_ok eq_refl _ _).
  - lia.
  - unfold many_rounds. apply Forall_replicate. intros t Ht. change (Z.to_nat 2) with 2%nat in Ht. cbn. lia.
  - unfold many_rounds. rewrite length_replicate. vm_compute. reflexivity.
Defined.
