(* ===== verification/Wire.v ===== *)
(** * The wireframe cube on all harts: [workloads/demos/mt-cube.c]

    [thread_entry] as a program in phases ([Spmd]): the start-up with its handshake
    on [video_go], and for every frame the phase in which each hart transforms its
    slice of the vertices and the phase in which hart 0 clears the frame buffer,
    draws the edges, presents it and advances the angle.

    [fuel] bounds the loop of [g3d_line] ([Line.g3d_line_draws] says how much a line
    needs); a frame buffer of [None] is a line that ran out of it. The theorems hold
    for every [fuel]. *)

From Stdlib Require Import String Ascii.
From S2P Require Import Prelude Cmodel Libc Raster Tty G3d Cube Barrier Json Spmd Solid.
Local Open Scope Z_scope.

Record wire_mem := mkwire { w_angle : Z; w_go : Z; points : list g3d_vert2; w_fb : option (list g3d_rgb); w_sent : list Z }.
Definition on_points (f : list g3d_vert2 -> list g3d_vert2) (m : wire_mem) : wire_mem :=
  mkwire (w_angle m) (w_go m) (f (points m)) (w_fb m) (w_sent m).
Definition wire_out (s : list Z) (m : wire_mem) : wire_mem := mkwire (w_angle m) (w_go m) (points m) (w_fb m) (w_sent m ++ s).

Inductive wire_op := WAngle (v : Z) | WPrint (s : list Z) | WGo | WWait | WVertex (world : g3d_mat4) (i : Z) | WEdges | WPresent | WNext.

Section Wire.
Context (fuel : nat).

Definition wire_act (o : wire_op) (m : wire_mem) : wire_mem :=
  match o with
  | WAngle v => mkwire v (w_go m) (points m) (w_fb m) (w_sent m)
  | WPrint s => wire_out s m
  | WGo => mkwire (w_angle m) 1 (points m) (w_fb m) (w_sent m)
  | WWait => m
  | WVertex world i => on_points (put_vertex world i) m
  | WEdges => mkwire (w_angle m) (w_go m) (points m) (w_fb m ≫= cube_draw fuel (points m)) (w_sent m)
  | WPresent => wire_out (match w_fb m with Some f => g3d_present f | None => [] end) m
  | WNext => mkwire (next_angle (w_angle m)) (w_go m) (points m) (w_fb m) (w_sent m)
  end.
Definition wire_guard (o : wire_op) (m : wire_mem) : bool := match o with WWait => negb (w_go m =? 0) | _ => true end.

Definition wire_start_up (cid : Z) : list wire_op := if cid =? 0 then [WAngle 20; WPrint clear_screen; WGo] else [WWait].
Definition slice_phase (nc cid : Z) (m : wire_mem) : list wire_op := map (WVertex (cube_world (w_angle m))) (cube_slice cid nc).
Definition edges_phase (cid : Z) : list wire_op := if cid =? 0 then [WEdges; WPresent; WNext] else [].
(** Phase 0 is the start-up, phases [1 + 2k] and [2 + 2k] are those of frame [k]. *)
Definition wire_program (nc : Z) (e : Z) (t : nat) (m : wire_mem) : list wire_op :=
  let cid := Z.of_nat t in
  if e =? 0 then wire_start_up cid else if (e - 1) mod 2 =? 0 then slice_phase nc cid m else edges_phase cid.
Definition wire_run (nc : Z) (sched : list nat) (m0 : wire_mem) : wire_mem :=
  mem (spmd_run wire_act wire_guard (wire_program nc) nc sched (spmd_start (wire_program nc) nc m0)).

(** ** One hart alone *)

Definition wire_started (m0 : wire_mem) : wire_mem := mkwire 20 1 (points m0) (w_fb m0) (w_sent m0 ++ clear_screen).
Definition with_points (m : wire_mem) : wire_mem := on_points (exec (put_vertex (cube_world (w_angle m))) (zrange 0 NVERT)) m.
Definition edged (m : wire_mem) : wire_mem := exec wire_act [WEdges; WPresent; WNext] m.
Definition wire_seq (m0 : wire_mem) (k : nat) : wire_mem := Nat.iter k (fun m => edged (with_points m)) (wire_started m0).

(** ** The slices *)

Lemma cube_slices nc i : 0 < nc -> 0 <= i < NVERT -> exists cid, 0 <= cid < nc /\ In i (cube_slice cid nc).
Proof.
  intros Hnc Hi. unfold NVERT in Hi. set (k := ((i + 1) * nc - 1) / 8).
  assert (Hk : 0 <= k < nc) by (unfold k; split; [apply Z.div_pos; nia|apply Z.div_lt_upper_bound; nia]).
  exists k. split; [exact Hk|]. unfold cube_slice, NVERT. rewrite !Z.quot_div_nonneg by lia. apply in_zrange.
  pose proof (Z.mul_div_le ((i + 1) * nc - 1) 8 ltac:(lia)). pose proof (Z.mul_succ_div_gt ((i + 1) * nc - 1) 8 ltac:(lia)). fold k in H, H0. split.
  - apply Z.lt_succ_r, Z.div_lt_upper_bound; lia.
  - apply Z.lt_le_trans with (i + 1); [lia|]. apply Z.div_le_lower_bound; lia.
Qed.

(** A list of vertices that has them all leaves the points of a whole pass. *)
Lemma exec_points world l p : alen p = NVERT -> (forall i, 0 <= i < NVERT -> In i l) ->
  exec (put_vertex world) l p = exec (put_vertex world) (zrange 0 NVERT) p.
Proof.
  intros Hp Hall. set (sc := mkscene p (replicate 12 (vec3 0 0 0))). assert (Hok : scene_ok sc) by (split; [exact Hp|reflexivity]).
  assert (Hproj : forall l, exec (put_vertex world) l p = projected (exec (put world world) (map Vertex l) sc)).
  { intros k. induction k as [|i k IH] using rev_ind; [reflexivity|]. rewrite map_app, !exec_app, IH. reflexivity. }
  rewrite !Hproj. destruct (exec_put_ok world world (map Vertex l) sc Hok) as [H1 _].
  destruct (exec_put_ok world world (map Vertex (zrange 0 NVERT)) sc Hok) as [H2 _].
  apply aget_ext; [unfold alen in *; lia|]. rewrite H1. intros i Hi. rewrite !exec_vertex by assumption.
  rewrite !bool_decide_true; [reflexivity|..]; apply list_elem_of_In, in_map; [apply in_zrange; exact Hi|apply Hall, Hi].
Qed.

Lemma wire_stable nc : stable wire_act (wire_program nc).
Proof.
  intros e t o m t' Ho. unfold wire_program in *. destruct (e =? 0); [reflexivity|]. destruct (_ =? 0); [|reflexivity].
  apply in_map_iff in Ho as (x & <- & _). reflexivity.
Qed.

(** ** What a complete phase does *)

Definition w_waits (o : wire_op) : bool := match o with WWait => true | _ => false end.
Lemma exec_w_waits l : forall m, exec wire_act l m = exec wire_act (List.filter (fun o => negb (w_waits o)) l) m.
Proof.
  induction l as [|o l IH]; intros m; [reflexivity|]. cbn [List.filter].
  change (exec wire_act (o :: l) m) with (exec wire_act l (wire_act o m)). rewrite IH. destruct o; cbn [w_waits negb]; reflexivity.
Qed.
Lemma exec_vertices world l : forall m, exec wire_act (map (WVertex world) l) m = on_points (exec (put_vertex world) l) m.
Proof. induction l as [|o l IH] using rev_ind; intros m; [now destruct m|]. rewrite map_app, exec_app, IH. unfold on_points. rewrite exec_app. reflexivity. Qed.

Section Phases.
Context (nc : Z) (Hnc : 0 < nc).

Lemma wire_start_filter m l : interleaving (programs (wire_program nc) nc 0 m) l ->
  List.filter (fun o => negb (w_waits o)) l = [WAngle 20; WPrint clear_screen; WGo].
Proof.
  intros Hl. apply (phase_of_hart_0 _ nc _ _ _ Hnc Hl eq_refl).
  - intros t o Ht Ho. unfold wire_program, wire_start_up in Ho. cbn [Z.eqb] in Ho. destruct (Z.eqb_spec (Z.of_nat t) 0); [lia|].
    destruct Ho as [<-|[]]. reflexivity.
  - intros o [<-|[<-|[<-|[]]]]; reflexivity.
Qed.
Lemma edges_done l : interleaving (map (fun t => edges_phase (Z.of_nat t)) (harts nc)) l -> l = [WEdges; WPresent; WNext].
Proof.
  intros Hl. rewrite <- (phase_of_hart_0 (fun _ => true) nc _ l [WEdges; WPresent; WNext] Hnc Hl eq_refl).
  - clear Hl. induction l as [|o l IH]; [reflexivity|]. cbn [List.filter]. now rewrite IH at 1.
  - intros t o Ht Ho. unfold edges_phase in Ho. destruct (Z.eqb_spec (Z.of_nat t) 0); [lia|destruct Ho].
  - reflexivity.
Qed.
Lemma slices_done m l : alen (points m) = NVERT -> interleaving (map (fun t => slice_phase nc (Z.of_nat t) m) (harts nc)) l ->
  exec wire_act l m = with_points m.
Proof.
  intros Hp Hl. unfold slice_phase in Hl.
  rewrite <- (map_map (fun t => cube_slice (Z.of_nat t) nc) (map (WVertex _))) in Hl.
  apply interleaving_map_inv in Hl as (l' & -> & Hl). rewrite exec_vertices. unfold with_points, on_points. f_equal.
  apply exec_points; [exact Hp|]. intros i Hi. destruct (cube_slices nc i Hnc Hi) as (cid & Hc & Hin).
  apply interleaving_perm in Hl. eapply Permutation_in; [symmetry; exact Hl|]. apply in_concat. exists (cube_slice cid nc). split; [|exact Hin].
  apply in_map_iff. exists (Z.to_nat cid). rewrite Z2Nat.id by lia. split; [reflexivity|]. apply in_harts. lia.
Qed.

Definition wire_at (m0 : wire_mem) (e : Z) (m : wire_mem) : Prop :=
  e = 0 /\ m = m0 \/ exists k, e = 1 + 2 * Z.of_nat k /\ m = wire_seq m0 k \/ e = 2 + 2 * Z.of_nat k /\ m = with_points (wire_seq m0 k).

Lemma wire_1 k t m : wire_program nc (1 + 2 * Z.of_nat k) t m = slice_phase nc (Z.of_nat t) m.
Proof. unfold wire_program. destruct (Z.eqb_spec (1 + 2 * Z.of_nat k) 0); [lia|]. replace ((1 + 2 * Z.of_nat k - 1) mod 2) with 0 by zlia. reflexivity. Qed.
Lemma wire_2 k t m : wire_program nc (2 + 2 * Z.of_nat k) t m = edges_phase (Z.of_nat t).
Proof. unfold wire_program. destruct (Z.eqb_spec (2 + 2 * Z.of_nat k) 0); [lia|]. replace ((2 + 2 * Z.of_nat k - 1) mod 2) with 1 by zlia. reflexivity. Qed.

Lemma alen_points world l : forall p, alen (exec (put_vertex world) l p) = alen p.
Proof. induction l as [|i l IH]; intros p; [reflexivity|]. change (exec (put_vertex world) (i :: l) p) with (exec (put_vertex world) l (put_vertex world i p)). now rewrite IH, alen_put_vertex. Qed.
Lemma wire_seq_S m0 k : wire_seq m0 (S k) = edged (with_points (wire_seq m0 k)).
Proof. unfold wire_seq. rewrite Nat.iter_succ. reflexivity. Qed.
Lemma alen_seq m0 k : alen (points (wire_seq m0 k)) = alen (points m0).
Proof.
  induction k as [|k IH]; [reflexivity|]. rewrite wire_seq_S, <- IH. generalize (wire_seq m0 k) as m. intros m.
  transitivity (alen (points (with_points m))); [reflexivity|]. apply alen_points.
Qed.

Lemma phases_wire m0 e m : alen (points m0) = NVERT -> phases wire_act (wire_program nc) nc m0 e m -> wire_at m0 e m.
Proof.
  intros H0. induction 1 as [|e m l _ IH Hl]; [left; auto|]. right. destruct IH as [[-> ->]|[k IH]].
  - exists 0%nat. left. split; [reflexivity|]. rewrite exec_w_waits, (wire_start_filter _ _ Hl). reflexivity.
  - unfold programs in Hl. destruct IH as [[-> ->]|[-> ->]].
    + exists k. right. split; [lia|]. apply slices_done; [rewrite alen_seq; exact H0|]. erewrite map_ext; [exact Hl|]. intros t. symmetry. apply wire_1.
    + exists (S k). left. split; [lia|]. rewrite (edges_done l); [rewrite wire_seq_S; reflexivity|].
      erewrite map_ext; [exact Hl|]. intros t. symmetry. apply wire_2.
Qed.
End Phases.

(** ** What has been sent *)

Definition wire_frames (m0 : wire_mem) (k : nat) : list Z :=
  clear_screen ++ flat_map (fun i => match w_fb (wire_seq m0 (S i)) with Some f => g3d_present f | None => [] end) (seq 0 k).
Lemma sent_edged m : w_sent (edged m) = w_sent m ++ match w_fb (edged m) with Some f => g3d_present f | None => [] end.
Proof. reflexivity. Qed.
Lemma wire_seq_sent m0 k : w_sent m0 = [] -> w_sent (wire_seq m0 k) = wire_frames m0 k.
Proof.
  intros H0. induction k as [|k IH]; [cbn; rewrite H0; reflexivity|]. unfold wire_frames in *. rewrite seq_S, flat_map_app, app_assoc, <- IH.
  cbn [flat_map Nat.add]. rewrite app_nil_r, wire_seq_S, sent_edged. f_equal.
Qed.
(** Frame [k] is drawn at the angle [20 + 3k], modulo 256. *)
Lemma wire_seq_angle m0 k : w_angle (wire_seq m0 k) = (20 + 3 * Z.of_nat k) mod 256.
Proof.
  induction k as [|k IH]; [reflexivity|]. rewrite wire_seq_S. transitivity (next_angle (w_angle (wire_seq m0 k))); [reflexivity|].
  unfold next_angle. rewrite IH, (Z.land_ones _ 8 ltac:(lia) : Z.land _ 255 = _). change (2 ^ 8) with 256. rewrite Zplus_mod_idemp_l. f_equal. lia.
Qed.

Section Schedules.
Context (nc : Z) (Hnc : 0 < nc < 2 ^ 31) (m0 : wire_mem) (H0 : alen (points m0) = NVERT).
Notation inv := (inv wire_act (wire_program nc) nc m0).

Lemma exec_vertices_sent world l : forall m, (forall o, In o l -> exists i, o = WVertex world i) -> w_sent (exec wire_act l m) = w_sent m.
Proof.
  induction l as [|o l IH]; intros m Hl; [reflexivity|]. change (exec wire_act (o :: l) m) with (exec wire_act l (wire_act o m)).
  rewrite IH by (intros; apply Hl; now right). destruct (Hl o ltac:(now left)) as [i ->]. reflexivity.
Qed.

Lemma wire_inv_sent e m l s : w_sent m0 = [] -> inv e m l s ->
  e = 0 /\ w_sent (mem s) = [] \/ exists k, e <= 2 + 2 * Z.of_nat k /\ w_sent (mem s) = wire_frames m0 k.
Proof.
  intros Hsent Hi. pose proof (phases_wire nc (proj1 Hnc) m0 e m H0 (inv_phases _ _ _ _ _ _ _ _ Hi)) as Hat.
  rewrite (inv_mem _ _ _ _ _ _ _ _ Hi). destruct (inv_complete _ _ _ _ _ _ _ _ Hi) as [l' Hl]. destruct Hat as [[-> ->]|[k [[-> ->]|[-> ->]]]].
  - pose proof (wire_start_filter nc (proj1 Hnc) m0 _ Hl) as Hf. rewrite List.filter_app in Hf. apply prefix_app in Hf. rewrite exec_w_waits, Hf.
    destruct (List.length _) as [|[|n]]; [left; auto|left; auto|right; exists 0%nat].
    split; [lia|]. rewrite <- (wire_seq_sent m0 0 Hsent). transitivity (w_sent m0 ++ clear_screen); [|reflexivity].
    generalize clear_screen as c. intros c. destruct n as [|n]; [reflexivity|]. rewrite firstn_all2 by (cbn; lia). reflexivity.
  - right. exists k. split; [lia|]. rewrite (exec_vertices_sent (cube_world (w_angle (wire_seq m0 k)))); [apply (wire_seq_sent m0 k Hsent)|].
    intros o Ho. destruct (inv_ops _ _ _ _ _ _ _ _ _ Hi Ho) as [t Ht]. rewrite wire_1 in Ht. apply in_map_iff in Ht as (i & <- & _). eauto.
  - assert (Hl3 : l ++ l' = [WEdges; WPresent; WNext]).
    { apply (edges_done nc (proj1 Hnc)). unfold programs in Hl. erewrite map_ext; [exact Hl|]. intros t. symmetry. apply wire_2. }
    apply prefix_app in Hl3. right. rewrite Hl3. destruct (List.length l) as [|[|n]].
    + exists k. split; [lia|]. apply (wire_seq_sent m0 k Hsent).
    + exists k. split; [lia|]. apply (wire_seq_sent m0 k Hsent).
    + exists (S k). split; [lia|]. rewrite <- (wire_seq_sent m0 (S k) Hsent), wire_seq_S. generalize (with_points (wire_seq m0 k)) as M. intros M.
      destruct n as [|n]; [reflexivity|]. rewrite firstn_all2 by (cbn; lia). reflexivity.
Qed.

Lemma exec_w_go l m : In WGo l -> (forall o, In o l -> match o with WAngle _ | WPrint _ | WGo | WWait => True | _ => False end) ->
  w_go (exec wire_act l m) = 1.
Proof.
  intros Hin. induction l as [|o l IH] using rev_ind; intros Hall; [destruct Hin|]. rewrite exec_app. apply in_app_iff in Hin.
  pose proof (Hall o ltac:(apply in_app_iff; right; now left)) as Ho.
  destruct Hin as [Hin|[->|[]]]; [|reflexivity]. specialize (IH Hin ltac:(intros o' Ho'; apply Hall, in_app_iff; now left)).
  revert IH. generalize (exec wire_act l m) as M. intros M HM. destruct o; try contradiction; first [exact HM|reflexivity].
Qed.
Lemma wire_live e m l s : inv e m l s -> (exists t o w, work s !! t = Some (o :: w)) ->
  exists t o w, work s !! t = Some (o :: w) /\ wire_guard o (mem s) = true.
Proof.
  apply (handshake_live _ _ _ _ Hnc m0 w_waits WGo); clear.
  - intros [] m; try discriminate; reflexivity.
  - intros e t m o Hin Hw. unfold wire_program in Hin. destruct (Z.eqb_spec e 0); [assumption|]. destruct o; try discriminate Hw.
    destruct (_ =? 0); [apply in_map_iff in Hin as (? & [=] & _)|].
    unfold edges_phase in Hin. destruct (_ =? 0); [|destruct Hin]. destruct Hin as [[=]|[[=]|[[=]|[]]]].
  - intros m o [<-|[<-|[<-|[]]]]; reflexivity.
  - intros t m. unfold wire_program, wire_start_up. cbn [Z.eqb]. destruct (Z.eqb_spec (Z.of_nat t) 0).
    + split; [intros _; lia|]. intros _. right. right. now left.
    + split; [intros [[=]|[]]|lia].
  - intros l m o Hin Hops. assert (Hv : w_go (exec wire_act l m) = 1).
    { apply exec_w_go; [exact Hin|]. intros o' Ho'. destruct (Hops o' Ho') as [t Ht]. unfold wire_program, wire_start_up in Ht. cbn [Z.eqb] in Ht.
      destruct (Z.of_nat t =? 0); [destruct Ht as [<-|[<-|[<-|[]]]]|destruct Ht as [<-|[]]]; exact I. }
    destruct o; try reflexivity. cbn [wire_guard]. rewrite Hv. reflexivity.
Qed.
Lemma wire_bound e t m : (t < Z.to_nat nc)%nat -> Z.of_nat (List.length (wire_program nc e t m)) <= 9.
Proof.
  intros Ht. unfold wire_program, wire_start_up, slice_phase, edges_phase.
  destruct (e =? 0); [destruct (_ =? 0); cbn; lia|]. destruct (_ =? 0); [|destruct (_ =? 0); cbn; lia].
  rewrite length_map. unfold cube_slice. rewrite length_zrange. unfold NVERT. rewrite !Z.quot_div_nonneg by lia.
  assert ((Z.of_nat t + 1) * 8 / nc <= 8) by (apply Z.div_le_upper_bound; lia). pose proof (Z.div_pos (Z.of_nat t * 8) nc ltac:(lia) ltac:(lia)). lia.
Qed.
End Schedules.

(** ** Theorems *)

(** Under every schedule of any number of harts, what mt-cube has sent is
    nothing, or the clear-screen sequence and the pictures of the first [k] frames
    of one hart alone. *)
Theorem wire_output_sequential nc sched m0 : 0 < nc < 2 ^ 31 -> alen (points m0) = NVERT -> w_sent m0 = [] ->
  w_sent (wire_run nc sched m0) = [] \/ exists k, w_sent (wire_run nc sched m0) = wire_frames m0 k.
Proof.
  intros Hnc H0 Hs. destruct (spmd_invariant wire_act wire_guard (wire_program nc) nc Hnc (wire_stable nc) m0 sched) as (e & m & l & Hi).
  destruct (wire_inv_sent nc Hnc m0 H0 e m l _ Hs Hi) as [[_ E]|(k & _ & E)]; [left; exact E|right; exists k; exact E].
Qed.

(** The frames keep coming under every schedule that gives all harts turns. *)
Theorem wire_frames_arrive nc K rounds m0 : 0 < nc < 2 ^ 31 -> alen (points m0) = NVERT -> w_sent m0 = [] -> Forall (round nc) rounds ->
  nc * (13 * (1 + 2 * Z.of_nat K) + 12) < Z.of_nat (List.length rounds) ->
  exists k, (K <= k)%nat /\ w_sent (wire_run nc (concat rounds) m0) = wire_frames m0 k.
Proof.
  intros Hnc H0 Hs Hr Hlen.
  destruct (spmd_progress wire_act wire_guard (wire_program nc) nc Hnc (wire_stable nc) m0 9 (wire_bound nc Hnc)
    (wire_live nc Hnc m0) (1 + 2 * Z.of_nat K) rounds Hr) as (e & m & l & He & Hi); [lia|].
  destruct (wire_inv_sent nc Hnc m0 H0 e m l _ Hs Hi) as [[E _]|(k & Hk & E)]; [lia|]. exists k. split; [lia|exact E].
Qed.
End Wire.

(** Three harts: the fourth frame and what was before it, after 400 rounds. *)
Lemma wire_frames_arrive_example : let m0 := mkwire 0 0 (replicate 8 (vert2 0 0 0)) (Some (fb target0)) [] in
  exists k, (4 <= k)%nat /\ w_sent (wire_run 100 3 (concat (replicate 400 [2; 0; 1]%nat)) m0) = wire_frames 100 m0 k.
Proof.
  cbv zeta. apply (wire_frames_arrive 100 3 4); [lia|reflexivity|reflexivity| |reflexivity].
  apply Forall_replicate. intros t Ht. change (Z.to_nat 3) with 3%nat in Ht. cbn. lia.
Qed.

(** ** What [g3d/host_smoke.c] prints *)

Definition smoke_vertex (i : Z) (p : g3d_vert2) : list Z :=
  str "v" ++ dec_int i ++ str " -> (" ++ dec_int (px p) ++ str "," ++ dec_int (py p) ++ str ") z=" ++ dec_int (Z.shiftr (pz p) 16) ++ [10].
Definition smoke_text : list Z :=
  for_range 0 8 (fun i out => out ++ match g3d_project (eye_of (solid_world 18 30) i) 32 24 (g3d_from_int 72) with
                                     | Some p => smoke_vertex i p | None => [] end) [] ++
  let '(xmin, xmax, ymin, ymax, ok) := for_range 0 8 (fun i acc => smoke_box acc i) (999, -999, 999, -999, 0) in
  str "projected " ++ dec_int ok ++ str "/8  bbox x[" ++ dec_int xmin ++ str "," ++ dec_int xmax ++ str "] y[" ++ dec_int ymin ++ str "," ++
  dec_int ymax ++ str "]" ++ [10].
(** The last line: the pose reaches beyond the 48 rows, which the exit code 0 allows. *)
Lemma smoke_text_end : skipn (List.length smoke_text - 37) smoke_text = str "projected 8/8  bbox x[0,59] y[-3,56]" ++ [10].
Proof. vm_compute. reflexivity. Qed.
