(* ===== verification/Radix.v ===== *)
(** * The radix sort benchmark: [workloads/benchmarks/mt-radix/mt-radix.c]

    [thread_entry] as a program in phases ([Spmd]): every hart fills its part of
    the array with keys, then two passes sort it by one digit of eight bits each.
    A pass is a histogram per hart, the prefix sums computed by hart 0, and the
    scatter in which every hart writes over the whole destination array. An
    operation is an iteration of a loop, the prefix sums of hart 0 are one
    operation. [NUM_KEYS] is 2048 in the source.

    The theorems are about every schedule: a pass moves the keys to their ranks
    in the stable order of the digit ([pass_effect]), two passes sort
    ([radix_sorts]), and the program says so ([radix_reports_ok]). *)

From Stdlib Require Import String.
From S2P Require Import Prelude Cmodel Libc Kernels Histo Barrier Spmd.
From stdpp Require Import sets.
Local Open Scope Z_scope.

Definition MAX_CORES : Z := 4.
Definition RADIX_BITS : Z := 8.
Definition RADIX : Z := 256.
Definition MAX_KEY : Z := 65536.
Definition NUM_PASSES : Z := 2.

(** The value, and the state left. *)
Definition splitmix64 (state : Z) : Z * Z :=
  let state := u64 (state + 0x9E3779B97F4A7C15) in
  let z := state in
  let z := u64 (Z.lxor z (Z.shiftr z 30) * 0xBF58476D1CE4E5B9) in
  let z := u64 (Z.lxor z (Z.shiftr z 27) * 0x94D049BB133111EB) in
  (Z.lxor z (Z.shiftr z 31), state).

(** [key[0]] and [key[1]]; [hist] and [prefix], [MAX_CORES] rows of [RADIX] cells; what was
    sent to the UART and the calls of [exit], by hart. *)
Record rmem := mkrmem { key0 : list Z; key1 : list Z; hist : list Z; prefix : list Z; r_sent : option (list Z); exits : list (Z * Z) }.

Inductive radix_op :=
| RKey (i v : Z)
| RZero (cid d : Z)
| RCount (cid from shift i : Z)
| RPrefix
| RMove (cid from shift i : Z)
| RVerify (from : Z)
| RExit (cid : Z).

Section Radix.
Context (NUM_KEYS nc : Z).

Definition chunk : Z := Z.quot NUM_KEYS nc.
Definition first_key (cid : Z) : Z := cid * chunk.
Definition end_ (cid : Z) : Z := if cid =? nc - 1 then NUM_KEYS else first_key cid + chunk.

Definition keys_of (b : Z) (m : rmem) : list Z := if b =? 0 then key0 m else key1 m.
Definition set_key (b : Z) (k : list Z) (m : rmem) : rmem :=
  if b =? 0 then mkrmem k (key1 m) (hist m) (prefix m) (r_sent m) (exits m) else mkrmem (key0 m) k (hist m) (prefix m) (r_sent m) (exits m).
Definition set_hist (h : list Z) (m : rmem) : rmem := mkrmem (key0 m) (key1 m) h (prefix m) (r_sent m) (exits m).
Definition set_prefix (p : list Z) (m : rmem) : rmem := mkrmem (key0 m) (key1 m) (hist m) p (r_sent m) (exits m).

Definition digit_of (shift k : Z) : Z := Z.land (Z.shiftr k shift) (RADIX - 1).
(** [hist[cid][d]] *)
Definition hist_cell (cid d : Z) : Z := cid * RADIX + d.

(** The prefix sums: for each digit, hart by hart. *)
Definition prefix_step (hist : list Z) (d p : Z) (a : list Z * Z) : list Z * Z :=
  (aset a.1 (hist_cell p d) a.2, s64 (a.2 + aget hist (hist_cell p d))).
Definition prefix_sums (hist prefix : list Z) : list Z :=
  (for_range 0 RADIX (fun d a => for_range 0 nc (prefix_step hist d) a) (prefix, 0)).1.

(** [verify_sorted(n, arr)] *)
Definition verify_sorted (n : Z) (arr : list Z) : Z :=
  default 0 (List.find (fun i => aget arr i <? aget arr (i - 1)) (zrange 1 n)).
Definition verdict_text (err : Z) : option (list Z) :=
  if negb (err =? 0) then out_seq [send (str "mt-radix: FAIL at index "); uart_send_integer err; send [10]]
  else send (str "mt-radix: ALL SORTED OK" ++ [10]).

Definition radix_act (o : radix_op) (m : rmem) : rmem :=
  match o with
  | RKey i v => set_key 0 (aset (key0 m) i v) m
  | RZero cid d => set_hist (aset (hist m) (hist_cell cid d) 0) m
  | RCount cid from shift i =>
    let c := hist_cell cid (digit_of shift (aget (keys_of from m) i)) in
    set_hist (aset (hist m) c (s64 (aget (hist m) c + 1))) m
  | RPrefix => set_prefix (prefix_sums (hist m) (prefix m)) m
  | RMove cid from shift i =>
    let c := hist_cell cid (digit_of shift (aget (keys_of from m) i)) in
    let pos := aget (prefix m) c in
    set_key (1 - from) (aset (keys_of (1 - from) m) pos (aget (keys_of from m) i)) (set_prefix (aset (prefix m) c (s64 (pos + 1))) m)
  | RVerify from =>
    let err := verify_sorted NUM_KEYS (keys_of from m) in
    mkrmem (key0 m) (key1 m) (hist m) (prefix m) (out_app (r_sent m) (verdict_text err)) (exits m ++ [(0, if err =? 0 then 0 else 1)])
  | RExit cid => mkrmem (key0 m) (key1 m) (hist m) (prefix m) (r_sent m) (exits m ++ [(cid, 2)])
  end.

(** *** The phases of a hart *)

Fixpoint gen_loop (n : nat) (i state : Z) : list radix_op :=
  match n with
  | O => []
  | S n => let '(z, state) := splitmix64 state in RKey i (Z.land z (MAX_KEY - 1)) :: gen_loop n (i + 1) state
  end.
Definition gen_keys (cid : Z) : list radix_op := gen_loop (Z.to_nat (end_ cid - first_key cid)) (first_key cid) (u64 (0x9E3779B9 + cid)).
Definition histogram (cid from shift : Z) : list radix_op :=
  map (RZero cid) (zrange 0 RADIX) ++ map (RCount cid from shift) (zrange (first_key cid) (end_ cid)).
Definition permute (cid from shift : Z) : list radix_op := map (RMove cid from shift) (zrange (first_key cid) (end_ cid)).

(** Phase 0 generates, phases [1 + 3p], [2 + 3p] and [3 + 3p] are those of pass [p], after which
    [from] and [to] change places; phase 7 is the verdict. [exit] does not return: a hart
    that has called it has no operations left. *)
Definition radix_program (e : Z) (t : nat) (m : rmem) : list radix_op :=
  let cid := Z.of_nat t in
  if e =? 0 then gen_keys cid
  else if e <? 1 + 3 * NUM_PASSES then
    let pass := (e - 1) / 3 in
    let shift := pass * RADIX_BITS in
    let from := pass mod 2 in
    if (e - 1) mod 3 =? 0 then histogram cid from shift
    else if (e - 1) mod 3 =? 1 then (if cid =? 0 then [RPrefix] else [])
    else permute cid from shift
  else if e =? 1 + 3 * NUM_PASSES then (if cid =? 0 then [RVerify (NUM_PASSES mod 2)] else [RExit cid])
  else [].

(** *** Interleavings of loops *)

(** Every hart runs a loop, [at_ t] is where it is in it. *)
Lemma interleaving_loop {O S} (act : O -> S -> S) (op : nat -> Z -> O) (lo hi : nat -> Z) (P : (nat -> Z) -> S -> Prop) :
  (forall at_ s t, (t < Z.to_nat nc)%nat -> lo t <= at_ t < hi t -> P at_ s -> P (fun u => if (u =? t)%nat then at_ t + 1 else at_ u) (act (op t (at_ t)) s)) ->
  forall l at_ s, interleaving (map (fun t => map (op t) (zrange (at_ t) (hi t))) (harts nc)) l ->
  (forall t, (t < Z.to_nat nc)%nat -> lo t <= at_ t <= hi t) -> P at_ s ->
  exists at', (forall t, (t < Z.to_nat nc)%nat -> at' t = hi t) /\ P at' (exec act l s).
Proof.
  intros Hstep l. induction l as [|o l IH]; intros at_ s Hl Hat HP; inversion Hl as [ps Hn Eps El|k o' p ps l' Hk Hl' Eps El]; subst.
  - exists at_. split; [|exact HP]. intros t Ht. specialize (Hat t Ht). apply Forall_lookup_1 with (i := t) (x := map (op t) (zrange (at_ t) (hi t))) in Hn; [|apply map_harts; exact Ht].
    symmetry in Hn. apply map_eq_nil in Hn. destruct (Z.lt_ge_cases (at_ t) (hi t)) as [Hlt|]; [rewrite zrange_step in Hn by exact Hlt; discriminate|lia].
  - assert (Hkn : (k < Z.to_nat nc)%nat) by (apply lookup_lt_Some in Hk; rewrite length_map in Hk; unfold harts in Hk; rewrite length_seq in Hk; exact Hk).
    rewrite map_harts in Hk by exact Hkn. apply (inj Some) in Hk. specialize (Hat k Hkn) as Hatk.
    destruct (Z.lt_ge_cases (at_ k) (hi k)) as [Hlt|]; [|rewrite zrange_empty in Hk by lia; discriminate].
    rewrite zrange_step in Hk by exact Hlt. cbn [map] in Hk. injection Hk as Eo Ep. subst o. set (at2 := fun u => if (u =? k)%nat then at_ k + 1 else at_ u).
    apply (IH at2); [| |apply (Hstep at_ s k Hkn ltac:(lia) HP)].
    + erewrite map_harts_insert; [|exact Hkn|].
      * subst at2. cbv beta. rewrite Nat.eqb_refl. rewrite Ep. exact Hl'.
      * intros i Hi. subst at2. cbv beta. destruct (Nat.eqb_spec i k); [contradiction|reflexivity].
    + intros t Ht. subst at2. cbv beta. destruct (Nat.eqb_spec t k) as [->|]; [lia|apply Hat, Ht].
Qed.

(** *** The parts of the harts *)

Context (Hnc : 0 < nc <= MAX_CORES) (HN : 0 <= NUM_KEYS < 2 ^ 31).

Definition edge (p : Z) : Z := if p =? nc then NUM_KEYS else first_key p.
Lemma chunk_nonneg : 0 <= chunk /\ nc * chunk <= NUM_KEYS.
Proof. unfold chunk. rewrite Z.quot_div_nonneg by lia. split; [apply Z.div_pos; lia|apply Z.mul_div_le; lia]. Qed.
Lemma start_edge cid : cid < nc -> first_key cid = edge cid.
Proof. intros Hc. unfold edge. destruct (Z.eqb_spec cid nc); [lia|reflexivity]. Qed.
Lemma end_edge cid : cid < nc -> end_ cid = edge (cid + 1).
Proof.
  intros Hc. unfold end_, edge. destruct (Z.eqb_spec cid (nc - 1)), (Z.eqb_spec (cid + 1) nc); try lia. unfold first_key. lia.
Qed.
Lemma edge_mono p q : 0 <= p <= q -> q <= nc -> 0 <= edge p <= edge q /\ edge q <= NUM_KEYS.
Proof.
  intros Hp Hq. destruct chunk_nonneg as [Hc Hm]. unfold edge, first_key. destruct (Z.eqb_spec p nc), (Z.eqb_spec q nc); nia.
Qed.
Lemma edge_0 : edge 0 = 0.
Proof. unfold edge, first_key. destruct (Z.eqb_spec 0 nc); lia. Qed.
Lemma edge_nc : edge nc = NUM_KEYS.
Proof. unfold edge. now rewrite Z.eqb_refl. Qed.
(** The hart that owns index [i]. *)
Lemma owner_of i : 0 <= i < NUM_KEYS -> exists t, (t < Z.to_nat nc)%nat /\ first_key (Z.of_nat t) <= i < end_ (Z.of_nat t).
Proof.
  intros Hi. assert (Hp : forall n, (n <= Z.to_nat nc)%nat -> i < edge (Z.of_nat n) -> exists t, (t < n)%nat /\ edge (Z.of_nat t) <= i < edge (Z.of_nat t + 1)).
  { induction n as [|n IH]; intros Hn Hlt; [change (Z.of_nat 0) with 0 in Hlt; rewrite edge_0 in Hlt; lia|].
    destruct (Z.lt_ge_cases i (edge (Z.of_nat n))) as [H1|H1]; [destruct (IH ltac:(lia) H1) as (t & Ht & H2); exists t; split; [lia|exact H2]|].
    exists n. split; [lia|]. split; [exact H1|]. replace (Z.of_nat n + 1) with (Z.of_nat (S n)) by lia. exact Hlt. }
  destruct (Hp (Z.to_nat nc) ltac:(lia)) as (t & Ht & H1); [rewrite Z2Nat.id by lia; rewrite edge_nc; lia|].
  exists t. split; [exact Ht|]. rewrite start_edge, end_edge by lia. exact H1.
Qed.
Lemma owner_unique t u i : (t < Z.to_nat nc)%nat -> (u < Z.to_nat nc)%nat -> first_key (Z.of_nat t) <= i < end_ (Z.of_nat t) -> first_key (Z.of_nat u) <= i < end_ (Z.of_nat u) -> t = u.
Proof.
  intros Ht Hu. rewrite !start_edge, !end_edge by lia. intros H1 H2. destruct (Nat.lt_trichotomy t u) as [Hlt|[E|Hlt]]; [|exact E|]; exfalso.
  - pose proof (edge_mono (Z.of_nat t + 1) (Z.of_nat u) ltac:(lia) ltac:(lia)). lia.
  - pose proof (edge_mono (Z.of_nat u + 1) (Z.of_nat t) ltac:(lia) ltac:(lia)). lia.
Qed.
Lemma range_of t : (t < Z.to_nat nc)%nat -> 0 <= first_key (Z.of_nat t) <= end_ (Z.of_nat t) /\ end_ (Z.of_nat t) <= NUM_KEYS.
Proof. intros Ht. rewrite start_edge, end_edge by lia. apply edge_mono; lia. Qed.
Lemma cell_inj c d x y : 0 <= x < RADIX -> 0 <= y < RADIX -> hist_cell c x = hist_cell d y -> c = d /\ x = y.
Proof. unfold hist_cell, RADIX. lia. Qed.
Lemma cell_range t d : (t < Z.to_nat nc)%nat -> 0 <= d < RADIX -> 0 <= hist_cell (Z.of_nat t) d < MAX_CORES * RADIX.
Proof. unfold hist_cell, RADIX, MAX_CORES in *. lia. Qed.
Lemma digit_range shift k : 0 <= digit_of shift k < RADIX.
Proof. unfold digit_of, RADIX. change (256 - 1) with (Z.ones 8). rewrite Z.land_ones by lia. apply Z.mod_pos_bound. lia. Qed.

(** *** The stable order of a digit *)

Section Order.
Context (D : list Z) (HD : forall i, 0 <= aget D i < RADIX).
Definition below (d : Z) : Z := Cmodel.zsum (map (fun j => if aget D j <? d then 1 else 0) (zrange 0 NUM_KEYS)).
Definition rank (i : Z) : Z := below (aget D i) + count_of D (aget D i) 0 i.

Lemma below_succ d : below (d + 1) = below d + count_of D d 0 NUM_KEYS.
Proof.
  unfold below, count_of, Cmodel.zsum. induction (zrange 0 NUM_KEYS) as [|j l IH]; [reflexivity|]. cbn [map fold_right]. rewrite IH.
  destruct (Z.ltb_spec (aget D j) (d + 1)), (Z.ltb_spec (aget D j) d), (Z.eqb_spec (aget D j) d); lia.
Qed.
Lemma below_mono d d' : d <= d' -> below d <= below d'.
Proof.
  intros Hd. replace d' with (d + Z.of_nat (Z.to_nat (d' - d))) by lia. induction (Z.to_nat (d' - d)) as [|n IH]; [rewrite Z.add_0_r; lia|].
  replace (d + Z.of_nat (S n)) with (d + Z.of_nat n + 1) by lia. rewrite below_succ. pose proof (count_of_bounds D (d + Z.of_nat n) 0 NUM_KEYS). lia.
Qed.
Lemma below_0 : below 0 = 0.
Proof. unfold below. apply zsum_zero. intros j _. destruct (Z.ltb_spec (aget D j) 0); [specialize (HD j); lia|reflexivity]. Qed.
Lemma below_RADIX : below RADIX = NUM_KEYS.
Proof.
  unfold below, Cmodel.zsum. transitivity (Z.of_nat (length (zrange 0 NUM_KEYS))); [|rewrite length_zrange; lia].
  induction (zrange 0 NUM_KEYS) as [|j l IH]; [reflexivity|]. cbn [map length fold_right]. rewrite IH.
  destruct (Z.ltb_spec (aget D j) RADIX); [lia|specialize (HD j); lia].
Qed.
Lemma count_of_one d i : count_of D d i (i + 1) = if aget D i =? d then 1 else 0.
Proof. unfold count_of. rewrite zrange_step, zrange_empty by lia. cbn. lia. Qed.
Lemma count_of_succ d lo i : lo <= i -> count_of D d lo (i + 1) = count_of D d lo i + if aget D i =? d then 1 else 0.
Proof. intros Hi. rewrite (count_of_split D d lo i (i + 1)) by lia. now rewrite count_of_one. Qed.

Lemma rank_next i : 0 <= i < NUM_KEYS -> rank i + 1 <= below (aget D i + 1).
Proof.
  intros Hi. unfold rank. rewrite below_succ, (count_of_split D _ 0 (i + 1) NUM_KEYS), count_of_succ, Z.eqb_refl by lia.
  pose proof (count_of_bounds D (aget D i) (i + 1) NUM_KEYS). lia.
Qed.
Lemma rank_lt i j : 0 <= i < NUM_KEYS -> 0 <= j < NUM_KEYS -> aget D i < aget D j \/ aget D i = aget D j /\ i < j -> rank i < rank j.
Proof.
  intros Hi Hj [Hlt|[E Hlt]].
  - pose proof (rank_next i Hi). assert (Hle : aget D i + 1 <= aget D j) by lia. apply below_mono in Hle.
    assert (below (aget D j) <= rank j) by (unfold rank; pose proof (count_of_bounds D (aget D j) 0 j); lia). lia.
  - unfold rank. rewrite E, (count_of_split D _ 0 (i + 1) j), count_of_succ, E, Z.eqb_refl by lia. pose proof (count_of_bounds D (aget D j) (i + 1) j). lia.
Qed.
Lemma rank_order i j : 0 <= i < NUM_KEYS -> 0 <= j < NUM_KEYS -> rank i < rank j -> aget D i < aget D j \/ aget D i = aget D j /\ i < j.
Proof.
  intros Hi Hj Hr. destruct (Z.lt_trichotomy (aget D i) (aget D j)) as [|[E|H]]; [now left| |pose proof (rank_lt j i Hj Hi (or_introl H)); lia].
  right. split; [exact E|]. destruct (Z.lt_trichotomy i j) as [|[->|H]]; [assumption|lia|]. pose proof (rank_lt j i Hj Hi (or_intror (conj (eq_sym E) H))). lia.
Qed.
Lemma rank_inj i j : 0 <= i < NUM_KEYS -> 0 <= j < NUM_KEYS -> rank i = rank j -> i = j.
Proof.
  intros Hi Hj E. destruct (Z.lt_trichotomy i j) as [H|[H|H]]; [|exact H|];
    destruct (Z.lt_trichotomy (aget D i) (aget D j)) as [H2|[H2|H2]];
    first [pose proof (rank_lt i j Hi Hj ltac:(lia)); lia|pose proof (rank_lt j i Hj Hi ltac:(lia)); lia].
Qed.
Lemma rank_range i : 0 <= i < NUM_KEYS -> 0 <= rank i < NUM_KEYS.
Proof.
  intros Hi. pose proof (rank_next i Hi). pose proof (HD i) as HDi. assert (H1 : aget D i + 1 <= RADIX) by lia. apply below_mono in H1. rewrite below_RADIX in H1.
  assert (H2 : 0 <= aget D i) by lia. apply below_mono in H2. rewrite below_0 in H2. unfold rank in *. pose proof (count_of_bounds D (aget D i) 0 i). lia.
Qed.
Lemma rank_perm : Permutation (map rank (zrange 0 NUM_KEYS)) (zrange 0 NUM_KEYS).
Proof.
  apply NoDup_Permutation_bis.
  - apply NoDup_ListNoDup, NoDup_fmap_2_strong; [|apply NoDup_zrange]. intros x y Hx Hy. apply elem_of_zrange in Hx, Hy. apply rank_inj; assumption.
  - rewrite length_map. lia.
  - intros x Hx. apply in_map_iff in Hx as (i & <- & Hi). apply in_zrange in Hi. apply in_zrange, rank_range, Hi.
Qed.
Lemma rank_onto p : 0 <= p < NUM_KEYS -> exists i, 0 <= i < NUM_KEYS /\ rank i = p.
Proof.
  intros Hp. assert (Hin : In p (map rank (zrange 0 NUM_KEYS))) by (eapply Permutation_in; [symmetry; apply rank_perm|apply in_zrange; exact Hp]).
  apply in_map_iff in Hin as (i & E & Hi). apply in_zrange in Hi. exists i. auto.
Qed.

(** An array filled by rank: a permutation, in the order of the digit, and equal digits in
    the order they had. *)
Lemma list_of_cells (a : list Z) : alen a = NUM_KEYS -> map (aget a) (zrange 0 NUM_KEYS) = a.
Proof.
  intros Ha. apply aget_ext; [rewrite length_map, length_zrange; unfold alen in Ha; lia|]. intros i Hi. unfold alen in Hi. rewrite length_map, length_zrange in Hi.
  apply aget_lookup; [lia|]. change (map (aget a) (zrange 0 NUM_KEYS)) with (aget a <$> zrange 0 NUM_KEYS). rewrite list_lookup_fmap. unfold zrange.
  change (map ?f (seq 0 ?n)) with (f <$> seq 0 n). rewrite list_lookup_fmap, lookup_seq_lt by lia. cbn. f_equal. f_equal. lia.
Qed.
Definition placed (a b : list Z) : Prop := alen a = NUM_KEYS /\ alen b = NUM_KEYS /\ forall i, 0 <= i < NUM_KEYS -> aget b (rank i) = aget a i.
Lemma placed_perm a b : placed a b -> Permutation b a.
Proof.
  intros (Ha & Hb & Hr). rewrite <- (list_of_cells a Ha), <- (list_of_cells b Hb). etransitivity; [apply Permutation_map; symmetry; apply rank_perm|].
  rewrite map_map. apply Permutation_refl'. apply map_ext_in. intros i Hi. apply in_zrange in Hi. now apply Hr.
Qed.
Lemma placed_stable a b p q : placed a b -> 0 <= p < q -> q < NUM_KEYS ->
  exists i j, 0 <= i < NUM_KEYS /\ 0 <= j < NUM_KEYS /\ aget b p = aget a i /\ aget b q = aget a j /\ (aget D i < aget D j \/ aget D i = aget D j /\ i < j).
Proof.
  intros (_ & _ & Hr) Hp Hq. destruct (rank_onto p ltac:(lia)) as (i & Hi & <-), (rank_onto q ltac:(lia)) as (j & Hj & <-). exists i, j.
  rewrite !Hr by assumption. repeat split; try lia. apply rank_order; lia.
Qed.
End Order.

(** *** The histogram *)

Definition sizes (m : rmem) : Prop :=
  alen (key0 m) = NUM_KEYS /\ alen (key1 m) = NUM_KEYS /\ alen (hist m) = MAX_CORES * RADIX /\ alen (prefix m) = MAX_CORES * RADIX.
Lemma sizes_key b m : sizes m -> alen (keys_of b m) = NUM_KEYS.
Proof. intros (H1 & H2 & _). unfold keys_of. destruct (b =? 0); assumption. Qed.
Lemma key_set_key b c k m : keys_of b (set_key c k m) = if (b =? 0) && (c =? 0) || negb (b =? 0) && negb (c =? 0) then k else keys_of b m.
Proof. unfold keys_of, set_key. destruct (b =? 0), (c =? 0); reflexivity. Qed.

(** The digits of an array. *)
Definition digits (shift : Z) (k : list Z) : list Z := map (digit_of shift) k.
Lemma digits_get shift k i : 0 <= i < alen k -> aget (digits shift k) i = digit_of shift (aget k i).
Proof.
  intros Hi. apply aget_lookup; [lia|]. unfold digits. change (map (digit_of shift) k) with (digit_of shift <$> k). rewrite list_lookup_fmap, lookup_aget by exact Hi. reflexivity.
Qed.
Lemma digits_range shift k i : 0 <= aget (digits shift k) i < RADIX.
Proof.
  unfold aget. destruct (0 <=? i); [|cbv; split; congruence]. rewrite list_lookup_total_alt. unfold digits. change (map (digit_of shift) k) with (digit_of shift <$> k).
  rewrite list_lookup_fmap. destruct (k !! Z.to_nat i) as [x|]; cbn; [apply digit_range|cbv; split; congruence].
Qed.

Definition hist_op (o : radix_op) : Prop := match o with RZero _ d => 0 <= d < RADIX | RCount _ _ _ _ => True | _ => False end.
Definition own (k : Z) (o : radix_op) : bool := match o with RZero c _ | RCount c _ _ _ => c =? k | _ => false end.

Lemma hist_frame l : forall m, (forall o, In o l -> hist_op o) -> let m' := exec radix_act l m in
  key0 m' = key0 m /\ key1 m' = key1 m /\ prefix m' = prefix m /\ r_sent m' = r_sent m /\ exits m' = exits m /\ alen (hist m') = alen (hist m).
Proof.
  induction l as [|o l IH]; intros m Hl; [repeat split|]. cbv zeta. cbn [exec fold_left]. fold (exec radix_act l (radix_act o m)).
  destruct (IH (radix_act o m) ltac:(intros; apply Hl; now right)) as (E1 & E2 & E3 & E4 & E5 & E6). rewrite E1, E2, E3, E4, E5, E6.
  specialize (Hl o (or_introl eq_refl)). destruct o; try contradiction; cbn [radix_act set_hist key0 key1 hist prefix r_sent exits]; rewrite alen_aset; repeat split.
Qed.

(** A cell of [hist] depends on the operations of its hart only. *)
Lemma hist_own k d l : 0 <= d < RADIX -> forall m m', (forall o, In o l -> hist_op o) -> key0 m = key0 m' -> key1 m = key1 m' ->
  alen (hist m) = alen (hist m') -> aget (hist m) (hist_cell k d) = aget (hist m') (hist_cell k d) ->
  aget (hist (exec radix_act l m)) (hist_cell k d) = aget (hist (exec radix_act (List.filter (own k) l) m')) (hist_cell k d).
Proof.
  intros Hd. induction l as [|o l IH]; intros m m' Hl E0 E1 Ea Ec; [exact Ec|]. pose proof (Hl o (or_introl eq_refl)) as Ho.
  assert (Hrest : forall o, In o l -> hist_op o) by (intros; apply Hl; now right). cbn [List.filter exec fold_left]. fold (exec radix_act l (radix_act o m)).
  assert (Hk : forall b, keys_of b m = keys_of b m') by (intros b; unfold keys_of; rewrite E0, E1; reflexivity).
  destruct o as [|c d'|c from shift i| | | |]; try contradiction; cbn [own].
  - destruct (Z.eqb_spec c k) as [->|Hne].
    + cbn [fold_left]. apply IH; [exact Hrest|exact E0|exact E1| |]; cbn [radix_act set_hist hist]; [now rewrite !alen_aset|apply aget_aset_same; assumption].
    + apply IH; [exact Hrest|exact E0|exact E1| |]; cbn [radix_act set_hist hist]; [now rewrite alen_aset|].
      rewrite aget_aset_ne by (intros E; apply cell_inj in E; [lia|exact Ho|exact Hd]). exact Ec.
  - destruct (Z.eqb_spec c k) as [->|Hne].
    + cbn [fold_left]. apply IH; [exact Hrest|exact E0|exact E1| |]; cbn [radix_act set_hist hist]; [now rewrite !alen_aset|].
      rewrite <- Hk, !aget_aset_case, <- Ea. destruct (Z.eqb_spec (hist_cell k (digit_of shift (aget (keys_of from m) i))) (hist_cell k d)) as [E|]; [rewrite E|]; rewrite Ec; reflexivity.
    + apply IH; [exact Hrest|exact E0|exact E1| |]; cbn [radix_act set_hist hist]; [now rewrite alen_aset|].
      rewrite aget_aset_ne by (intros E; apply cell_inj in E; [lia|apply digit_range|exact Hd]). exact Ec.
Qed.

Lemma hist_zeros k d l : 0 <= d < RADIX -> forall m, 0 <= hist_cell k d < alen (hist m) -> (forall x, In x l -> 0 <= x < RADIX) ->
  In d l \/ aget (hist m) (hist_cell k d) = 0 -> aget (hist (exec radix_act (map (RZero k) l) m)) (hist_cell k d) = 0.
Proof.
  intros Hd. induction l as [|x l IH]; intros m Hc Hl Hin; [destruct Hin as [[]|E]; exact E|]. cbn [map exec fold_left]. fold (exec radix_act (map (RZero k) l) (radix_act (RZero k x) m)).
  apply IH; [|intros; apply Hl; now right|]; cbn [radix_act set_hist hist]; [now rewrite alen_aset|]. destruct (decide (x = d)) as [->|Hne]; [right; apply aget_aset; exact Hc|].
  destruct Hin as [[E|Hin]|E]; [contradiction|now left|right]. rewrite aget_aset_ne; [exact E|]. intros Ex. apply cell_inj in Ex; [lia|apply Hl; now left|exact Hd].
Qed.
Lemma hist_counts k from shift d l : forall m c0, 0 <= hist_cell k d < alen (hist m) -> aget (hist m) (hist_cell k d) = c0 -> 0 <= c0 -> c0 + Z.of_nat (length l) < 2 ^ 63 ->
  aget (hist (exec radix_act (map (RCount k from shift) l) m)) (hist_cell k d) = c0 + Cmodel.zsum (map (fun i => if digit_of shift (aget (keys_of from m) i) =? d then 1 else 0) l).
Proof.
  change (2 ^ 63) with 9223372036854775808. unfold Cmodel.zsum.
  induction l as [|i l IH]; intros m c0 Hc E0 Hpos Hb; [cbn [map fold_right exec fold_left]; lia|]. cbn [length] in Hb. cbn [map exec fold_left fold_right].
  fold (exec radix_act (map (RCount k from shift) l) (radix_act (RCount k from shift i) m)). set (m1 := radix_act (RCount k from shift i) m).
  assert (Ek : keys_of from m1 = keys_of from m) by reflexivity.
  rewrite (IH m1 (c0 + if digit_of shift (aget (keys_of from m) i) =? d then 1 else 0)); [rewrite Ek; lia| | | |].
  - subst m1. cbn [radix_act set_hist hist]. now rewrite alen_aset.
  - subst m1. cbn [radix_act set_hist hist]. destruct (Z.eqb_spec (digit_of shift (aget (keys_of from m) i)) d) as [E|Hne].
    + rewrite E, aget_aset, E0 by exact Hc. apply s64_id. unfold is_s64. lia.
    + rewrite aget_aset_ne by (unfold hist_cell; lia). lia.
  - destruct (_ =? d); lia.
  - destruct (_ =? d); lia.
Qed.

Lemma in_histogram c from shift o : In o (histogram c from shift) -> hist_op o /\ forall k, own k o = (c =? k).
Proof.
  unfold histogram. rewrite in_app_iff, !in_map_iff. intros [(d & <- & Hd)|(i & <- & _)]; [|split; [exact I|reflexivity]].
  apply in_zrange in Hd. split; [exact Hd|reflexivity].
Qed.
Lemma histogram_effect from shift m l : sizes m -> interleaving (map (fun t => histogram (Z.of_nat t) from shift) (harts nc)) l ->
  let m' := exec radix_act l m in
  key0 m' = key0 m /\ key1 m' = key1 m /\ prefix m' = prefix m /\ r_sent m' = r_sent m /\ exits m' = exits m /\ alen (hist m') = alen (hist m) /\
  forall t d, (t < Z.to_nat nc)%nat -> 0 <= d < RADIX ->
    aget (hist m') (hist_cell (Z.of_nat t) d) = count_of (digits shift (keys_of from m)) d (first_key (Z.of_nat t)) (end_ (Z.of_nat t)).
Proof.
  intros Hm Hl. cbv zeta. assert (Hops : forall o, In o l -> hist_op o).
  { intros o Ho. eapply Permutation_in in Ho; [|apply interleaving_perm, Hl]. apply in_concat in Ho as (p & Hp & Ho). apply in_map_iff in Hp as (t & <- & _). now apply in_histogram in Ho. }
  destruct (hist_frame l m Hops) as (E1 & E2 & E3 & E4 & E5 & E6). repeat (split; [assumption|]). intros t d Ht Hd. pose proof (range_of t Ht) as Hr.
  assert (Hc : 0 <= hist_cell (Z.of_nat t) d < alen (hist m)) by (destruct Hm as (_ & _ & -> & _); apply cell_range; assumption).
  rewrite (hist_own (Z.of_nat t) d l Hd m m Hops) by reflexivity.
  rewrite (interleaving_filter (own (Z.of_nat t)) _ _ Hl t (histogram (Z.of_nat t) from shift)); [|apply map_harts; exact Ht|].
  - assert (Ef : List.filter (own (Z.of_nat t)) (histogram (Z.of_nat t) from shift) = histogram (Z.of_nat t) from shift).
    { assert (Hall : forall o, In o (histogram (Z.of_nat t) from shift) -> own (Z.of_nat t) o = true) by (intros o Ho; apply in_histogram in Ho as [_ ->]; apply Z.eqb_refl).
      induction (histogram _ _ _) as [|o p IH]; [reflexivity|]. cbn [List.filter]. rewrite (Hall o) by now left. f_equal. apply IH. intros. apply Hall. now right. }
    rewrite Ef. unfold histogram. rewrite exec_app. set (m1 := exec radix_act (map (RZero _) _) m).
    assert (Hz : forall o, In o (map (RZero (Z.of_nat t)) (zrange 0 RADIX)) -> hist_op o) by (intros o Ho; apply in_map_iff in Ho as (x & <- & Hx); apply in_zrange in Hx; exact Hx).
    destruct (hist_frame _ m Hz) as (F1 & F2 & _ & _ & _ & F6). fold m1 in F1, F2, F6.
    assert (Hk : keys_of from m1 = keys_of from m) by (unfold keys_of; rewrite F1, F2; reflexivity).
    rewrite (hist_counts (Z.of_nat t) from shift d _ m1 0); [|rewrite F6; exact Hc|apply hist_zeros; [exact Hd|exact Hc|intros x; apply in_zrange|left; apply in_zrange; exact Hd]|lia|rewrite length_zrange; lia].
    rewrite Z.add_0_l. unfold count_of. f_equal. apply map_ext_in. intros i Hi. apply in_zrange in Hi. rewrite Hk, digits_get; [reflexivity|]. rewrite sizes_key by exact Hm. lia.
  - intros j q Hj Hq o Ho. pose proof (lookup_lt_Some _ _ _ Hq) as Hlt. rewrite length_map in Hlt. unfold harts in Hlt. rewrite length_seq in Hlt. rewrite map_harts in Hq by exact Hlt.
    apply (inj Some) in Hq. subst q. apply in_histogram in Ho as [_ ->]. apply Z.eqb_neq. lia.
Qed.

(** *** The prefix sums *)

Lemma prefix_sums_effect D (h pre : list Z) : (forall i, 0 <= aget D i < RADIX) -> alen pre = MAX_CORES * RADIX ->
  (forall p d, 0 <= p < nc -> 0 <= d < RADIX -> aget h (hist_cell p d) = count_of D d (edge p) (edge (p + 1))) ->
  alen (prefix_sums h pre) = alen pre /\
  forall p d, 0 <= p < nc -> 0 <= d < RADIX -> aget (prefix_sums h pre) (hist_cell p d) = below D d + count_of D d 0 (edge p).
Proof.
  intros HD Hpre Hh. set (val := fun p d => below D d + count_of D d 0 (edge p)).
  assert (Hbound : forall d p, 0 <= d < RADIX -> 0 <= p <= nc -> 0 <= val p d <= NUM_KEYS).
  { intros d p Hd Hp. unfold val. assert (B1 : below D 0 <= below D d) by (apply below_mono; lia). rewrite below_0 in B1 by exact HD.
    assert (B2 : below D (d + 1) <= below D RADIX) by (apply below_mono; lia). rewrite below_RADIX, below_succ in B2 by exact HD.
    pose proof (edge_mono p nc ltac:(lia) ltac:(lia)) as He. rewrite edge_nc in He. rewrite (count_of_split D d 0 (edge p) NUM_KEYS) in B2 by lia.
    pose proof (count_of_bounds D d (edge p) NUM_KEYS). pose proof (count_of_bounds D d 0 (edge p)). lia. }
  set (done := fun (dd pp : Z) (a : list Z * Z) => alen a.1 = alen pre /\ a.2 = val pp dd /\
    forall p d, 0 <= p < nc -> 0 <= d < RADIX -> d < dd \/ d = dd /\ p < pp -> aget a.1 (hist_cell p d) = val p d).
  assert (Hend : done RADIX 0 (for_range 0 RADIX (fun d a => for_range 0 nc (prefix_step h d) a) (pre, 0))).
  { apply (for_range_ind (fun d a => done d 0 a)); [unfold RADIX; lia| |].
    - split; [reflexivity|]. split; [unfold val; rewrite below_0, edge_0, count_of_empty by (exact HD || lia); reflexivity|]. intros; lia.
    - intros d a Hd Ha. assert (Hin : done d nc (for_range 0 nc (prefix_step h d) a)).
      { apply (for_range_ind (fun p a => done d p a)); [lia|exact Ha|]. intros p b Hp (H1 & H2 & H3). unfold prefix_step. split; [cbn [fst]; rewrite alen_aset; exact H1|]. split.
        - cbn [snd]. rewrite H2, Hh by lia. pose proof (edge_mono p (p + 1) ltac:(lia) ltac:(lia)).
          assert (E : val p d + count_of D d (edge p) (edge (p + 1)) = val (p + 1) d) by (unfold val; rewrite (count_of_split D d 0 (edge p) (edge (p + 1))) by lia; lia).
          rewrite E. apply s64_id. pose proof (Hbound d (p + 1) Hd ltac:(lia)). unfold is_s64. lia.
        - cbn [fst]. intros p' d' Hp' Hd' Hlt. destruct (decide (hist_cell p d = hist_cell p' d')) as [E|E].
          + apply cell_inj in E as [<- <-]; [|lia|exact Hd']. rewrite aget_aset; [exact H2|]. rewrite H1, Hpre. unfold hist_cell, RADIX, MAX_CORES in *. lia.
          + rewrite aget_aset_ne by exact E. apply H3; [exact Hp'|exact Hd'|]. destruct (decide (d' = d)) as [->|]; [|lia]. destruct (decide (p' = p)) as [->|]; [contradiction|lia]. }
      destruct Hin as (H1 & H2 & H3). split; [exact H1|]. split; [|intros p' d' Hp' Hd' Hlt; apply H3; [exact Hp'|exact Hd'|lia]].
      rewrite H2. unfold val. rewrite edge_nc, edge_0, below_succ, (count_of_empty D (d + 1)) by lia. lia. }
  destruct Hend as (H1 & _ & H3). split; [exact H1|]. intros p d Hp Hd. apply H3; [exact Hp|exact Hd|lia].
Qed.

(** *** The scatter *)

Lemma permute_effect from shift m l : sizes m -> from = 0 \/ from = 1 -> interleaving (map (fun t => permute (Z.of_nat t) from shift) (harts nc)) l ->
  let D := digits shift (keys_of from m) in
  (forall t d, (t < Z.to_nat nc)%nat -> 0 <= d < RADIX -> aget (prefix m) (hist_cell (Z.of_nat t) d) = below D d + count_of D d 0 (first_key (Z.of_nat t))) ->
  let m' := exec radix_act l m in
  sizes m' /\ keys_of from m' = keys_of from m /\ placed D (keys_of from m) (keys_of (1 - from) m').
Proof.
  intros Hm Hfrom Hl D Hpre. cbv zeta. pose proof (digits_range shift (keys_of from m)) as HD. fold D in HD. pose proof (sizes_key from m Hm) as Hlen.
  assert (Hdig : forall i, 0 <= i < NUM_KEYS -> aget D i = digit_of shift (aget (keys_of from m) i)) by (intros i Hi; apply digits_get; lia).
  set (P := fun (at_ : nat -> Z) (s : rmem) => keys_of from s = keys_of from m /\ sizes s /\
    (forall t d, (t < Z.to_nat nc)%nat -> 0 <= d < RADIX -> aget (prefix s) (hist_cell (Z.of_nat t) d) = below D d + count_of D d 0 (at_ t)) /\
    (forall t i, (t < Z.to_nat nc)%nat -> first_key (Z.of_nat t) <= i < at_ t -> i < end_ (Z.of_nat t) -> aget (keys_of (1 - from) s) (rank D i) = aget (keys_of from m) i)).
  destruct (interleaving_loop radix_act (fun t => RMove (Z.of_nat t) from shift) (fun t => first_key (Z.of_nat t)) (fun t => end_ (Z.of_nat t)) P) with (l := l) (at_ := fun t => first_key (Z.of_nat t)) (s := m)
    as (at' & Hat & Hk & Hs & _ & Hdone); [|exact Hl|intros t Ht; pose proof (range_of t Ht); lia|split; [reflexivity|]; split; [exact Hm|]; split; [exact Hpre|intros; lia]|].
  - intros at_ s t Ht Hat (Hk & Hs & Hp & Hd). pose proof (range_of t Ht) as Hr. set (i := at_ t) in *. assert (Hi : 0 <= i < NUM_KEYS) by lia.
    cbn [radix_act]. rewrite Hk, <- Hdig by exact Hi. set (c := hist_cell (Z.of_nat t) (aget D i)).
    assert (Epos : aget (prefix s) c = rank D i) by (apply Hp; [exact Ht|apply HD]). rewrite Epos. pose proof (rank_range D HD i Hi) as Hrank.
    pose proof Hs as (S1 & S2 & S3 & S4). assert (Hc : 0 <= c < alen (prefix s)) by (rewrite S4; apply cell_range; [exact Ht|apply HD]).
    set (p' := aset (prefix s) c (s64 (rank D i + 1))). set (k' := aset (keys_of (1 - from) s) (rank D i) (aget (keys_of from m) i)).
    assert (Hk' : alen k' = NUM_KEYS) by (subst k'; rewrite alen_aset; apply sizes_key, Hs). assert (Hp' : alen p' = MAX_CORES * RADIX) by (subst p'; rewrite alen_aset; exact S4).
    split; [destruct Hfrom as [-> | ->]; exact Hk|]. split; [destruct Hfrom as [-> | ->]; (split; [|split; [|split]]); assumption|]. split.
    + intros u d Hu Hd'. assert (Ep : prefix (set_key (1 - from) k' (set_prefix p' s)) = p') by (destruct Hfrom as [-> | ->]; reflexivity). rewrite Ep. subst p'.
      destruct (decide (hist_cell (Z.of_nat t) (aget D i) = hist_cell (Z.of_nat u) d)) as [E|E].
      * rewrite <- E. fold c. rewrite aget_aset by exact Hc. apply cell_inj in E as [Eu Ed]; [|apply HD|exact Hd']. assert (u = t) by lia. subst u d. rewrite Nat.eqb_refl.
        rewrite count_of_succ, Z.eqb_refl by lia. rewrite s64_id by (unfold is_s64; lia). unfold rank. lia.
      * rewrite aget_aset_ne by exact E. rewrite Hp by assumption. f_equal. destruct (Nat.eqb_spec u t) as [->|]; [|reflexivity]. fold i. rewrite count_of_succ by lia.
        destruct (Z.eqb_spec (aget D i) d) as [Ed|]; [exfalso; apply E; now rewrite Ed|lia].
    + intros u j Hu Hj Hje. assert (Ek : keys_of (1 - from) (set_key (1 - from) k' (set_prefix p' s)) = k') by (destruct Hfrom as [-> | ->]; reflexivity). rewrite Ek. subst k'.
      pose proof (range_of u Hu) as Hru. destruct (decide (j = i)) as [->|Hne]; [apply aget_aset; rewrite sizes_key by exact Hs; exact Hrank|].
      rewrite aget_aset_ne by (intros E; apply rank_inj in E; lia || assumption). apply (Hd u j Hu); [|exact Hje]. destruct (Nat.eqb_spec u t) as [->|]; [|exact Hj]. fold i in Hj |- *. lia.
  - split; [exact Hs|]. split; [exact Hk|]. split; [exact Hlen|]. split; [apply sizes_key, Hs|]. intros i Hi. destruct (owner_of i Hi) as (t & Ht & Hown).
    apply (Hdone t i Ht); [|lia]. rewrite (Hat t Ht). exact Hown.
Qed.

(** A pass, in any interleaving of its three phases. *)
Lemma pass_effect from shift m l1 l2 l3 : sizes m -> from = 0 \/ from = 1 ->
  interleaving (map (fun t => histogram (Z.of_nat t) from shift) (harts nc)) l1 ->
  interleaving (map (fun t => if Z.of_nat t =? 0 then [RPrefix] else []) (harts nc)) l2 ->
  interleaving (map (fun t => permute (Z.of_nat t) from shift) (harts nc)) l3 ->
  let m' := exec radix_act l3 (exec radix_act l2 (exec radix_act l1 m)) in
  sizes m' /\ keys_of from m' = keys_of from m /\ placed (digits shift (keys_of from m)) (keys_of from m) (keys_of (1 - from) m').
Proof.
  intros Hm Hfrom H1 H2 H3. destruct (histogram_effect from shift m l1 Hm H1) as (E1 & E2 & E3 & _ & _ & E6 & Hh). set (m1 := exec radix_act l1 m) in *.
  assert (El2 : l2 = [RPrefix]).
  { rewrite <- (phase_of_hart_0 (fun _ => true) nc _ l2 [RPrefix] ltac:(lia) H2 eq_refl); [|intros t o Ht Ho; destruct (Z.eqb_spec (Z.of_nat t) 0); [lia|destruct Ho]|reflexivity].
    clear. induction l2 as [|o l IH]; [reflexivity|]. cbn [List.filter]. now rewrite IH at 1. }
  subst l2. cbn [exec fold_left]. set (m2 := radix_act RPrefix m1). assert (Hk2 : forall b, keys_of b m2 = keys_of b m) by (intros b; unfold m2, keys_of; cbn [radix_act set_prefix key0 key1]; rewrite E1, E2; reflexivity).
  pose proof Hm as (S1 & S2 & S3 & S4). destruct (prefix_sums_effect (digits shift (keys_of from m)) (hist m1) (prefix m1)) as [P1 P2]; [apply digits_range|rewrite E3; exact S4| |].
  { intros p d Hp Hd. specialize (Hh (Z.to_nat p) d ltac:(lia) Hd). rewrite Z2Nat.id, start_edge, end_edge in Hh by lia. exact Hh. }
  assert (Hs2 : sizes m2) by (unfold sizes, m2; cbn [radix_act set_prefix key0 key1 hist prefix]; rewrite E1, E2, E6, P1, E3; exact Hm).
  pose proof (permute_effect from shift m2 l3 Hs2 Hfrom H3) as Hp. cbv zeta in Hp. rewrite Hk2 in Hp. apply Hp. intros t d Ht Hd.
  unfold m2. cbn [radix_act set_prefix prefix]. rewrite P2 by lia. rewrite start_edge by lia. reflexivity.
Qed.

(** *** The keys *)

Lemma in_gen_loop o n : forall i state, In o (gen_loop n i state) -> exists j v, o = RKey j v /\ i <= j < i + Z.of_nat n /\ 0 <= v < MAX_KEY.
Proof.
  induction n as [|n IH]; intros i state Ho; [destruct Ho|]. cbn [gen_loop] in Ho. destruct (splitmix64 state) as [z state']. destruct Ho as [<-|Ho].
  - exists i, (Z.land z (MAX_KEY - 1)). split; [reflexivity|]. split; [lia|]. unfold MAX_KEY. change (65536 - 1) with (Z.ones 16). rewrite Z.land_ones by lia. apply Z.mod_pos_bound. lia.
  - destruct (IH _ _ Ho) as (j & v & E & Hj & Hv). exists j, v. split; [exact E|]. split; [lia|exact Hv].
Qed.
Lemma gen_loop_all n : forall i state j, i <= j < i + Z.of_nat n -> exists v, In (RKey j v) (gen_loop n i state).
Proof.
  induction n as [|n IH]; intros i state j Hj; [lia|]. cbn [gen_loop]. destruct (splitmix64 state) as [z state']. destruct (decide (j = i)) as [->|].
  - eexists. now left.
  - destruct (IH (i + 1) state' j ltac:(lia)) as [v Hv]. exists v. now right.
Qed.
Lemma in_gen_keys t o : (t < Z.to_nat nc)%nat -> In o (gen_keys (Z.of_nat t)) ->
  exists j v, o = RKey j v /\ first_key (Z.of_nat t) <= j < end_ (Z.of_nat t) /\ 0 <= v < MAX_KEY.
Proof.
  intros Ht Ho. pose proof (range_of t Ht). apply in_gen_loop in Ho as (j & v & E & Hj & Hv). exists j, v. split; [exact E|]. split; [lia|exact Hv].
Qed.
Definition generation : list (list radix_op) := map (fun t => gen_keys (Z.of_nat t)) (harts nc).
(** The keys: what the harts write one after the other. *)
Definition generated (m0 : rmem) : list Z := key0 (exec radix_act (concat generation) m0).
Lemma generation_commutes : cross_commute radix_act generation.
Proof.
  intros i j p q o o' Hij Hp Hq Ho Ho' s.
  assert (Hl : forall k r, generation !! k = Some r -> (k < Z.to_nat nc)%nat /\ r = gen_keys (Z.of_nat k)).
  { intros k r Hr. pose proof (lookup_lt_Some _ _ _ Hr) as Hlt. unfold generation in *. rewrite length_map in Hlt. unfold harts in Hlt. rewrite length_seq in Hlt.
    rewrite map_harts in Hr by exact Hlt. apply (inj Some) in Hr. auto. }
  apply Hl in Hp as [Hi ->], Hq as [Hj ->]. apply in_gen_keys in Ho as (x & v & -> & Hx & _), Ho' as (y & w & -> & Hy & _); [|exact Hj|exact Hi].
  cbn [radix_act]. unfold set_key. cbn [Z.eqb key0 key1 hist prefix r_sent exits]. f_equal. apply aset_comm.
  intros <-. apply Hij. apply (owner_unique i j y); assumption.
Qed.
Lemma exec_keys l : forall m, (forall o, In o l -> exists j v, o = RKey j v /\ 0 <= v < MAX_KEY) -> let m' := exec radix_act l m in
  key1 m' = key1 m /\ hist m' = hist m /\ prefix m' = prefix m /\ alen (key0 m') = alen (key0 m) /\
  forall i, 0 <= i < alen (key0 m) -> (exists v, In (RKey i v) l) \/ 0 <= aget (key0 m) i < MAX_KEY -> 0 <= aget (key0 m') i < MAX_KEY.
Proof.
  induction l as [|o l IH]; intros m Hl; cbv zeta; [repeat split; destruct H0 as [[v []]|H0]; apply H0|].
  cbn [exec fold_left]. fold (exec radix_act l (radix_act o m)). destruct (Hl o (or_introl eq_refl)) as (j & v & -> & Hv).
  destruct (IH (radix_act (RKey j v) m) ltac:(intros; apply Hl; now right)) as (E1 & E2 & E3 & E4 & E5). rewrite E1, E2, E3, E4.
  cbn [radix_act] in *. unfold set_key in *. cbn [Z.eqb key0 key1 hist prefix] in *. rewrite alen_aset in *. repeat (split; [reflexivity|]).
  intros i Hi Hin. apply E5; [exact Hi|]. destruct (decide (j = i)) as [->|Hne]; [right; rewrite aget_aset by exact Hi; exact Hv|].
  rewrite aget_aset_ne by exact Hne. destruct Hin as [[w [Ew|Hw]]|Hw]; [injection Ew; intros; contradiction|left; now exists w|now right].
Qed.
Lemma generation_effect m0 l : sizes m0 -> interleaving generation l ->
  let m := exec radix_act l m0 in sizes m /\ key0 m = generated m0 /\ forall i, 0 <= i < NUM_KEYS -> 0 <= aget (key0 m) i < MAX_KEY.
Proof.
  intros (S1 & S2 & S3 & S4) Hl. cbv zeta.
  assert (Hops : forall o, In o l -> exists t, (t < Z.to_nat nc)%nat /\ In o (gen_keys (Z.of_nat t))).
  { intros o Ho. eapply Permutation_in in Ho; [|apply interleaving_perm, Hl]. apply in_concat in Ho as (p & Hp & Ho). apply in_map_iff in Hp as (t & <- & Ht). exists t. split; [apply in_harts, Ht|exact Ho]. }
  destruct (exec_keys l m0) as (E1 & E2 & E3 & E4 & E5); [intros o Ho; destruct (Hops o Ho) as (t & Ht & Hin); apply in_gen_keys in Hin as (j & v & E & _ & Hv); [now exists j, v|exact Ht]|].
  split; [unfold sizes; rewrite E1, E2, E3, E4; auto|]. split; [unfold generated; now rewrite (interleaving_exec radix_act _ _ Hl generation_commutes)|].
  intros i Hi. apply E5; [lia|]. left. destruct (owner_of i Hi) as (t & Ht & Hown).
  destruct (gen_loop_all (Z.to_nat (end_ (Z.of_nat t) - first_key (Z.of_nat t))) (first_key (Z.of_nat t)) (u64 (0x9E3779B9 + Z.of_nat t)) i ltac:(lia)) as [v Hv].
  exists v. eapply Permutation_in; [symmetry; apply interleaving_perm, Hl|]. apply in_concat. exists (gen_keys (Z.of_nat t)). split; [apply in_map_iff; exists t; split; [reflexivity|apply in_harts, Ht]|exact Hv].
Qed.

(** *** Two passes sort *)

Definition sorted (a : list Z) : Prop := forall p q, 0 <= p < q -> q < NUM_KEYS -> aget a p <= aget a q.
Lemma digits_of_key x : 0 <= x < MAX_KEY -> x = RADIX * digit_of 8 x + digit_of 0 x.
Proof.
  unfold MAX_KEY, digit_of, RADIX. intros Hx. change (256 - 1) with (Z.ones 8). rewrite !Z.land_ones, Z.shiftr_0_r, Z.shiftr_div_pow2 by lia. change (2 ^ 8) with 256.
  rewrite (Z.mod_small (x / 256)) by (split; [apply Z.div_pos; lia|apply Z.div_lt_upper_bound; lia]). apply Z.div_mod. lia.
Qed.
Lemma two_passes a b c : (forall i, 0 <= i < NUM_KEYS -> 0 <= aget a i < MAX_KEY) ->
  placed (digits 0 a) a b -> placed (digits 8 b) b c -> Permutation c a /\ sorted c.
Proof.
  intros Ha Hab Hbc. pose proof (digits_range 0 a) as D1. pose proof (digits_range 8 b) as D2.
  split; [etransitivity; [exact (placed_perm _ D2 _ _ Hbc)|exact (placed_perm _ D1 _ _ Hab)]|].
  assert (Hb : forall i, 0 <= i < NUM_KEYS -> 0 <= aget b i < MAX_KEY).
  { intros i Hi. destruct (rank_onto _ D1 i Hi) as (j & Hj & <-). destruct Hab as (_ & _ & E). rewrite E by exact Hj. now apply Ha. }
  intros p q Hp Hq. destruct (placed_stable _ D2 b c p q Hbc Hp Hq) as (i & j & Hi & Hj & -> & -> & Hord). pose proof Hbc as (Lb & _). pose proof Hab as (La & _).
  rewrite !digits_get in Hord by lia. pose proof (digits_of_key _ (Hb i Hi)) as Ei. pose proof (digits_of_key _ (Hb j Hj)) as Ej.
  pose proof (digit_range 0 (aget b i)). pose proof (digit_range 0 (aget b j)). unfold RADIX in *. destruct Hord as [Hlt|[E Hlt]]; [lia|].
  assert (digit_of 0 (aget b i) <= digit_of 0 (aget b j)); [|lia].
  destruct (placed_stable _ D1 a b i j Hab ltac:(lia) ltac:(lia)) as (i' & j' & Hi' & Hj' & -> & -> & Hord'). rewrite !digits_get in Hord' by lia. lia.
Qed.

(** *** The run *)

Lemma phases_inv e m0 m' : 0 <= e -> phases radix_act radix_program nc m0 (e + 1) m' ->
  exists m l, phases radix_act radix_program nc m0 e m /\ interleaving (map (fun t => radix_program e t m) (harts nc)) l /\ m' = exec radix_act l m.
Proof.
  intros He Hp. remember (e + 1) as e' eqn:E. destruct Hp as [|e1 m l Hp Hl]; [lia|]. assert (e1 = e) by lia. subst e1. exists m, l. auto.
Qed.
Lemma phases_nonneg e m0 m' : phases radix_act radix_program nc m0 e m' -> 0 <= e.
Proof. induction 1; lia. Qed.

Context (m0 : rmem) (H0 : sizes m0).

Lemma sorted_at_7 m : phases radix_act radix_program nc m0 7 m -> sizes m /\ Permutation (key0 m) (generated m0) /\ sorted (key0 m).
Proof.
  intros Hp. apply (phases_inv 6) in Hp as (m6 & l6 & Hp & H6 & ->); [|lia]. apply (phases_inv 5) in Hp as (m5 & l5 & Hp & H5 & ->); [|lia].
  apply (phases_inv 4) in Hp as (m4 & l4 & Hp & H4 & ->); [|lia]. apply (phases_inv 3) in Hp as (m3 & l3 & Hp & H3 & ->); [|lia].
  apply (phases_inv 2) in Hp as (m2 & l2 & Hp & H2 & ->); [|lia]. apply (phases_inv 1) in Hp as (m1 & l1 & Hp & H1 & ->); [|lia].
  apply (phases_inv 0) in Hp as (m & l & Hp & Hl & ->); [|lia]. assert (m = m0) by (remember 0 as e eqn:Ee; destruct Hp as [|e m l' Hp]; [reflexivity|apply phases_nonneg in Hp; lia]). subst m.
  destruct (generation_effect m0 l H0 Hl) as (Hs & Hg & Hr). set (ma := exec radix_act l m0) in *.
  destruct (pass_effect 0 0 ma l1 l2 l3 Hs ltac:(now left) H1 H2 H3) as (Hs' & Hk & Hp1). set (mb := exec radix_act l3 (exec radix_act l2 (exec radix_act l1 ma))) in *.
  destruct (pass_effect 1 8 mb l4 l5 l6 Hs' ltac:(now right) H4 H5 H6) as (Hs'' & Hk' & Hp2). set (mc := exec radix_act l6 (exec radix_act l5 (exec radix_act l4 mb))) in *.
  split; [exact Hs''|]. rewrite <- Hg. apply (two_passes (key0 ma) (key1 mb) (key0 mc) Hr Hp1 Hp2).
Qed.

Definition silent (o : radix_op) : Prop := match o with RVerify _ | RExit _ => False | _ => True end.
Lemma silent_exec l : forall m, (forall o, In o l -> silent o) -> r_sent (exec radix_act l m) = r_sent m /\ exits (exec radix_act l m) = exits m.
Proof.
  induction l as [|o l IH]; intros m Hl; [auto|]. cbn [exec fold_left]. fold (exec radix_act l (radix_act o m)). destruct (IH (radix_act o m) ltac:(intros; apply Hl; now right)) as [-> ->].
  specialize (Hl o (or_introl eq_refl)). destruct o; try contradiction; cbn [radix_act]; unfold set_key; repeat case_match; auto.
Qed.
Lemma silent_program e t m o : (t < Z.to_nat nc)%nat -> 0 <= e <= 6 -> In o (radix_program e t m) -> silent o.
Proof.
  intros Ht He Ho. unfold radix_program in Ho. destruct (e =? 0); [apply in_gen_keys in Ho as (j & v & -> & _); [exact I|exact Ht]|].
  destruct (Z.ltb_spec e (1 + 3 * NUM_PASSES)); [|unfold NUM_PASSES in *; lia]. cbv zeta in Ho. destruct (_ =? 0) in Ho.
  - apply in_histogram in Ho as [Ho _]. destruct o; try contradiction; exact I.
  - destruct (_ =? 1) in Ho; [destruct (_ =? 0) in Ho; [destruct Ho as [<-|[]]; exact I|destruct Ho]|]. apply in_map_iff in Ho as (i & <- & _). exact I.
Qed.
Lemma program_7 t m : radix_program 7 t m = if Z.of_nat t =? 0 then [RVerify 0] else [RExit (Z.of_nat t)].
Proof. reflexivity. Qed.
Lemma program_8 e t m : 8 <= e -> radix_program e t m = [].
Proof.
  intros He. unfold radix_program. unfold NUM_PASSES. destruct (Z.eqb_spec e 0); [lia|]. destruct (Z.ltb_spec e (1 + 3 * 2)); [lia|]. destruct (Z.eqb_spec e (1 + 3 * 2)); [lia|reflexivity].
Qed.

Definition all_sorted_ok : list Z := str "mt-radix: ALL SORTED OK" ++ [10].
Lemma verify_ok a : alen a = NUM_KEYS -> sorted a -> verify_sorted NUM_KEYS a = 0.
Proof.
  intros Ha Hs. unfold verify_sorted. destruct (List.find _ _) as [i|] eqn:E; [|reflexivity]. apply find_some in E as [Hi Hlt]. apply in_zrange in Hi.
  apply Z.ltb_lt in Hlt. specialize (Hs (i - 1) i ltac:(lia) ltac:(lia)). lia.
Qed.
(** How hart [t] ends. *)
Definition ending (x : Z * Z) : Prop := x = (0, 0) \/ x.1 <> 0 /\ x.2 = 2.

(** The last phase, or a part of it. *)
Lemma last_phase m l : alen (key0 m) = NUM_KEYS -> sorted (key0 m) -> (forall o, In o l -> o = RVerify 0 \/ exists c, c <> 0 /\ o = RExit c) ->
  forall k, r_sent m = out_app (Some []) (Some (concat (replicate k all_sorted_ok))) -> Forall ending (exits m) ->
  let m' := exec radix_act l m in
  r_sent m' = out_app (Some []) (Some (concat (replicate (k + length (List.filter (fun o => match o with RVerify _ => true | _ => false end) l)) all_sorted_ok))) /\
  Forall ending (exits m') /\ key0 m' = key0 m.
Proof.
  intros Ha Hsort. revert m Ha Hsort. induction l as [|o l IH]; intros m Ha Hsort Hops k Hk He; cbv zeta; [rewrite Nat.add_0_r; auto|].
  cbn [exec fold_left]. fold (exec radix_act l (radix_act o m)). assert (Hrest : forall o, In o l -> o = RVerify 0 \/ exists c, c <> 0 /\ o = RExit c) by (intros; apply Hops; now right).
  destruct (Hops o (or_introl eq_refl)) as [->|(c & Hc & ->)].
  - cbn [List.filter length]. rewrite Nat.add_succ_r, <- Nat.add_succ_l. apply (IH (radix_act (RVerify 0) m) Ha Hsort Hrest).
    + cbn [radix_act r_sent]. change (keys_of 0 m) with (key0 m). rewrite (verify_ok _ Ha Hsort), Hk. change (verdict_text 0) with (Some all_sorted_ok).
      rewrite replicate_S_end, concat_app. cbn [concat]. rewrite app_nil_r. reflexivity.
    + cbn [radix_act exits]. change (keys_of 0 m) with (key0 m). rewrite (verify_ok _ Ha Hsort). apply Forall_app. split; [exact He|]. constructor; [now left|constructor].
  - apply (IH (radix_act (RExit c) m) Ha Hsort Hrest k Hk). cbn [radix_act exits]. apply Forall_app. split; [exact He|]. constructor; [right; auto|constructor].
Qed.
Lemma ops_7 l l' : interleaving (map (fun t => if Z.of_nat t =? 0 then [RVerify 0] else [RExit (Z.of_nat t)]) (harts nc)) (l ++ l') ->
  (forall o, In o l -> o = RVerify 0 \/ exists c, c <> 0 /\ o = RExit c) /\
  let n := length (List.filter (fun o => match o with RVerify _ => true | _ => false end) l) in (n <= 1)%nat /\ (l' = [] -> n = 1%nat).
Proof.
  intros Hl. split.
  - intros o Ho. assert (Hin : In o (l ++ l')) by (apply in_app_iff; now left). eapply Permutation_in in Hin; [|apply interleaving_perm, Hl].
    apply in_concat in Hin as (p & Hp & Hin). apply in_map_iff in Hp as (t & <- & _). destruct (Z.eqb_spec (Z.of_nat t) 0) as [E|E]; destruct Hin as [<-|[]]; [now left|right; eauto].
  - cbv zeta. pose proof (interleaving_filter (fun o => match o with RVerify _ => true | _ => false end) _ _ Hl 0 [RVerify 0]) as Hf.
    assert (Hf' := Hf ltac:(rewrite map_harts by lia; reflexivity)). clear Hf. rewrite List.filter_app in Hf'. cbn [List.filter] in Hf'. apply (f_equal (@length _)) in Hf'.
    + rewrite length_app in Hf'. cbn [length] in Hf'. split; [lia|]. intros ->. cbn [List.filter length] in Hf'. lia.
    + intros j q Hj Hq o Ho. pose proof (lookup_lt_Some _ _ _ Hq) as Hlt. rewrite length_map in Hlt. unfold harts in Hlt. rewrite length_seq in Hlt. rewrite map_harts in Hq by exact Hlt.
      apply (inj Some) in Hq. subst q. destruct (Z.eqb_spec (Z.of_nat j) 0); [lia|]. destruct Ho as [<-|[]]. reflexivity.
Qed.

Context (Hquiet : r_sent m0 = Some [] /\ exits m0 = []).
Lemma phases_report e m : phases radix_act radix_program nc m0 e m ->
  (e <= 7 -> r_sent m = Some [] /\ exits m = []) /\ (8 <= e -> r_sent m = Some all_sorted_ok /\ Forall ending (exits m)).
Proof.
  induction 1 as [|e m l Hp IH Hl]; [split; [auto|lia]|]. pose proof (phases_nonneg _ _ _ Hp) as He. destruct IH as [IH1 IH2]. split; intros Hle.
  - destruct (silent_exec l m) as [-> ->]; [|apply IH1; lia]. intros o Ho. eapply Permutation_in in Ho; [|apply interleaving_perm, Hl].
    apply in_concat in Ho as (p & Hp' & Ho). apply in_map_iff in Hp' as (t & <- & Ht). apply (silent_program e t m); [apply in_harts, Ht|lia|exact Ho].
  - destruct (decide (e = 7)) as [->|Hne].
    + destruct (sorted_at_7 m Hp) as (Hs & _ & Hsort). destruct (IH1 ltac:(lia)) as [Es Ee]. unfold programs in Hl. rewrite <- (app_nil_r l) in Hl.
      destruct (ops_7 l [] Hl) as (Hops & _ & Hn). specialize (Hn eq_refl). destruct (last_phase m l (proj1 Hs) Hsort Hops 0) as (E1 & E2 & _); [rewrite Es; reflexivity|rewrite Ee; constructor|].
      rewrite E1, Hn. split; [reflexivity|exact E2].
    + assert (El : l = []); [|subst l; apply IH2; lia]. destruct l as [|o l]; [reflexivity|]. exfalso. assert (Ho : In o (o :: l)) by now left. eapply Permutation_in in Ho; [|apply interleaving_perm, Hl].
      apply in_concat in Ho as (p & Hp' & Ho). apply in_map_iff in Hp' as (t & <- & _). rewrite program_8 in Ho by lia. destruct Ho.
Qed.
Lemma radix_stable : stable radix_act radix_program.
Proof. intros e t o m t' _. reflexivity. Qed.
Notation inv := (inv radix_act radix_program nc m0).
Lemma inv_report e m l s : inv e m l s ->
  (r_sent (mem s) = Some [] \/ r_sent (mem s) = Some all_sorted_ok) /\ Forall ending (exits (mem s)) /\ (8 <= e -> r_sent (mem s) = Some all_sorted_ok).
Proof.
  intros Hi. pose proof (inv_phases _ _ _ _ _ _ _ _ Hi) as Hp. destruct (phases_report e m Hp) as [R1 R2]. rewrite (inv_mem _ _ _ _ _ _ _ _ Hi).
  pose proof (phases_nonneg _ _ _ Hp) as He. destruct (inv_complete _ _ _ _ _ _ _ _ Hi) as [l' Hl].
  assert (Hin : forall o, In o l -> exists t, (t < Z.to_nat nc)%nat /\ In o (radix_program e t m)).
  { intros o Ho. assert (Ho' : In o (l ++ l')) by (apply in_app_iff; now left). eapply Permutation_in in Ho'; [|apply interleaving_perm, Hl].
    apply in_concat in Ho' as (p & Hp' & Ho'). apply in_map_iff in Hp' as (t & <- & Ht). exists t. split; [apply in_harts, Ht|exact Ho']. }
  destruct (Z.le_gt_cases e 6) as [Hle|Hgt]; [|destruct (decide (e = 7)) as [->|]].
  - destruct (silent_exec l m) as [-> ->]; [intros o Ho; destruct (Hin o Ho) as (t & Ht & Ho'); apply (silent_program e t m); [exact Ht|lia|exact Ho']|].
    destruct (R1 ltac:(lia)) as [-> ->]. split; [now left|]. split; [constructor|lia].
  - destruct (R1 ltac:(lia)) as [Es Ee]. destruct (sorted_at_7 m Hp) as (Hs & _ & Hsort). destruct (ops_7 l l' Hl) as (Hops & Hn & _).
    destruct (last_phase m l (proj1 Hs) Hsort Hops 0) as (E1 & E2 & _); [rewrite Es; reflexivity|rewrite Ee; constructor|]. split; [|split; [exact E2|lia]].
    rewrite E1. destruct (length _) as [|[|n]]; [now left|now right|lia].
  - assert (El : l = []) by (destruct l as [|o l]; [reflexivity|]; exfalso; destruct (Hin o (or_introl eq_refl)) as (t & _ & Ho); rewrite program_8 in Ho by lia; destruct Ho).
    subst l. destruct (R2 ltac:(lia)) as [E1 E2]. change (exec radix_act [] m) with m. auto.
Qed.
Lemma radix_bound e t m : (t < Z.to_nat nc)%nat -> Z.of_nat (length (radix_program e t m)) <= NUM_KEYS + RADIX.
Proof.
  intros Ht. pose proof (range_of t Ht) as Hr. assert (Hg : forall n i st, length (gen_loop n i st) = n).
  { induction n as [|n IH]; intros i st; [reflexivity|]. cbn [gen_loop]. destruct (splitmix64 st). cbn [length]. now rewrite IH. }
  unfold radix_program, gen_keys, histogram, permute, RADIX. repeat case_match; rewrite ?length_app, ?length_map, ?length_zrange, ?Hg; cbn [length]; lia.
Qed.
End Radix.

(** ** Theorems *)

(** C38: However the operations of up to four harts interleave, when the last barrier opens
    [key[0]] holds the generated keys in ascending order. *)
Theorem radix_sorts NUM_KEYS nc m0 m : 0 < nc <= MAX_CORES -> 0 <= NUM_KEYS < 2 ^ 31 -> sizes NUM_KEYS m0 ->
  phases (radix_act NUM_KEYS nc) (radix_program NUM_KEYS nc) nc m0 7 m ->
  Permutation (key0 m) (generated NUM_KEYS nc m0) /\ forall p q, 0 <= p < q -> q < NUM_KEYS -> aget (key0 m) p <= aget (key0 m) q.
Proof. intros Hnc HN H0 Hp. destruct (sorted_at_7 NUM_KEYS nc Hnc HN m0 H0 m Hp) as (_ & H1 & H2). exact (conj H1 H2). Qed.

(** C39: Under every schedule the program says nothing but that all is sorted, once; hart 0 exits
    with 0 and the others with 2, if they do. A schedule that gives all harts enough turns gets
    there. *)
Theorem radix_reports_ok NUM_KEYS nc m0 rounds : 0 < nc <= MAX_CORES -> 0 <= NUM_KEYS < 2 ^ 31 -> sizes NUM_KEYS m0 -> r_sent m0 = Some [] /\ exits m0 = [] ->
  let run sched := mem (spmd_run (radix_act NUM_KEYS nc) (fun _ _ => true) (radix_program NUM_KEYS nc) nc sched (spmd_start (radix_program NUM_KEYS nc) nc m0)) in
  (forall sched, (r_sent (run sched) = Some [] \/ r_sent (run sched) = Some all_sorted_ok) /\ Forall ending (exits (run sched))) /\
  (Forall (round nc) rounds -> nc * ((NUM_KEYS + RADIX + 4) * 8 + (NUM_KEYS + RADIX) + 3) < Z.of_nat (length rounds) -> r_sent (run (concat rounds)) = Some all_sorted_ok).
Proof.
  intros Hnc HN H0 Hq run. assert (Hn : 0 < nc < 2 ^ 31) by (unfold MAX_CORES in Hnc; lia). split.
  - intros sched. destruct (spmd_invariant (radix_act NUM_KEYS nc) (fun _ _ => true) (radix_program NUM_KEYS nc) nc Hn (radix_stable NUM_KEYS nc) m0 sched) as (e & m & l & Hi).
    destruct (inv_report NUM_KEYS nc Hnc HN m0 H0 Hq e m l _ Hi) as (E1 & E2 & _). exact (conj E1 E2).
  - intros Hr Hlen. destruct (spmd_progress (radix_act NUM_KEYS nc) (fun _ _ => true) (radix_program NUM_KEYS nc) nc Hn (radix_stable NUM_KEYS nc) m0 (NUM_KEYS + RADIX)
      (fun e t m Ht => radix_bound NUM_KEYS nc Hnc HN e t m Ht) (fun e m l s _ Hw => match Hw with ex_intro _ t (ex_intro _ o (ex_intro _ w E)) => ex_intro _ t (ex_intro _ o (ex_intro _ w (conj E eq_refl))) end) 8 rounds Hr Hlen)
      as (e & m & l & He & Hi).
    apply (inv_report NUM_KEYS nc Hnc HN m0 H0 Hq e m l _ Hi). exact He.
Qed.

(** The harts one after the other in every phase, and what eight keys become. *)
Definition radix_seq (NUM_KEYS nc : Z) (m0 : rmem) (k : nat) : rmem :=
  fold_left (fun m e => exec (radix_act NUM_KEYS nc) (concat (programs (radix_program NUM_KEYS nc) nc (Z.of_nat e) m)) m) (seq 0 k) m0.
Lemma radix_seq_phases NUM_KEYS nc m0 k : phases (radix_act NUM_KEYS nc) (radix_program NUM_KEYS nc) nc m0 (Z.of_nat k) (radix_seq NUM_KEYS nc m0 k).
Proof.
  induction k as [|k IH]; [constructor|]. unfold radix_seq. rewrite seq_S, fold_left_app. cbn [fold_left Nat.add]. replace (Z.of_nat (S k)) with (Z.of_nat k + 1) by lia.
  apply phases_next; [exact IH|apply interleaving_concat].
Qed.
Definition eight_keys : rmem := mkrmem (replicate 8 0) (replicate 8 0) (replicate 1024 0) (replicate 1024 0) (Some []) [].
Example eight_sorted : generated 8 3 eight_keys = [30447; 14458; 37119; 18925; 25465; 37867; 16932; 177] /\
  key0 (radix_seq 8 3 eight_keys 7) = [177; 14458; 16932; 18925; 25465; 30447; 37119; 37867] /\
  exits (radix_seq 8 3 eight_keys 8) = [(0, 0); (1, 2); (2, 2)].
Proof. vm_compute. repeat split. Qed.

Lemma radix_sorts_witness : aget (key0 (radix_seq 8 3 eight_keys 7)) 0 <= aget (key0 (radix_seq 8 3 eight_keys 7)) 7.
Proof.
  refine (proj2 (radix_sorts 8 3 eight_keys _ _ _ _ (radix_seq_phases 8 3 eight_keys 7)) 0 7 _ _); [unfold MAX_CORES; lia|lia|repeat split|lia|lia].
Defined.
Lemma radix_reports_ok_witness :
  let run := mem (spmd_run (radix_act 8 3) (fun _ _ => true) (radix_program 8 3) 3 (concat (replicate 7320 [2; 0; 1]%nat)) (spmd_start (radix_program 8 3) 3 eight_keys)) in
  r_sent run = Some all_sorted_ok.
Proof.
  refine (proj2 (radix_reports_ok 8 3 eight_keys (replicate 7320 [2; 0; 1]%nat) _ _ _ _) _ _); [unfold MAX_CORES; lia|lia|repeat split|split; reflexivity| |reflexivity].
  apply Forall_replicate. intros t Ht. change (Z.to_nat 3) with 3%nat in Ht. cbn. lia.
Defined.
