(* ===== verification/Regress.v ===== *)
(** * Two regressions of one hart: [mt-divburst.c] and [mt-uartrx.c]

    [mt-divburst] runs a cluster of adjacent divisions in assembly and again in C, and
    compares the checksums; the instructions have the meaning of [Spec]. [mt-uartrx] reads
    bytes from the UART and echoes them between markers; the registers of the device are a
    parameter. The harts other than hart 0 do nothing of note in either. *)

From Stdlib Require Import String.
From S2P Require Import Prelude Alu Spec Refine Cmodel Libc.
Local Open Scope Z_scope.

(** ** [mt-divburst.c] *)

Definition ITERS : Z := 512.
Definition seed64 : Z := 0x9e3779b97f4a7c15.
Definition divu64 (n d : Z) : Z := if d =? 0 then u64 (Z.lnot 0) else n / d.
Definition remu64 (n d : Z) : Z := if d =? 0 then n else n mod d.
Definition divu32 (n d : Z) : Z := if d =? 0 then u32 (Z.lnot 0) else n / d.

(** The operands of iteration [i]. *)
Definition op_a (x : Z) : Z := Z.lxor x (Z.shiftr x 7).
Definition op_b (i : Z) : Z := u64 (i * 977 + 13).
Definition op_c (x : Z) : Z := Z.lor (u32 (Z.shiftr (op_a x) 11)) 1.
Definition op_d (i : Z) : Z := u32 (i * 31 + 7).

(** The registers after the block: [q0], [q1], [r0] are 64-bit variables, [q2] and [q3] the
    low halves of their registers. *)
Definition asm_cluster (x i : Z) : Z :=
  let a := op_a x in let b := op_b i in let c := op_c x in let d := op_d i in
  let q0 := rop_value DIVU a b in
  let q2 := u32 (rwop_value DIVUW c d) in
  let r0 := rop_value DIVU a q0 in
  let q1 := rop_value REMU a b in
  let q3 := u32 (rwop_value DIVUW d c) in
  u64 (q0 + q1 + q2 + q3 + r0).
Definition c_cluster (x i : Z) : Z :=
  let a := op_a x in let b := op_b i in let c := op_c x in let d := op_d i in
  let rq0 := divu64 a b in
  u64 (rq0 + remu64 a b + divu32 c d + divu32 d c + divu64 a rq0).
Definition next_x (x : Z) : Z := u64 (x * 6364136223846793005 + 1442695040888963407).

(** [acc_asm], [acc_c], [x]. *)
Definition divburst_body (i : Z) (s : Z * Z * Z) : Z * Z * Z :=
  let '(acc_asm, acc_c, x) := s in (u64 (acc_asm + asm_cluster x i), u64 (acc_c + c_cluster x i), next_x x).
(** What hart 0 sends, and the argument of [exit]. *)
Definition divburst_main (seed : Z) : option (list Z) * Z :=
  let '(acc_asm, acc_c, _) := for_range 1 (ITERS + 1) divburst_body (0, 0, seed) in
  if acc_asm =? acc_c then (send (str "mt-divburst: PASS" ++ [10]), 0) else (send (str "mt-divburst: FAIL checksum" ++ [10]), 1).

Lemma op_c_u32 x : is_u32 (op_c x).
Proof.
  unfold op_c. generalize (u32_range (Z.shiftr (op_a x) 11)). generalize (u32 (Z.shiftr (op_a x) 11)) as y. intros y Hy.
  assert (H1 : 0 <= 1 < 2 ^ 32) by lia. exact (lor_range y 1 32 ltac:(lia) Hy H1).
Qed.
Lemma divuw_is_divu32 n d : is_u32 n -> is_u32 d -> u32 (rwop_value DIVUW n d) = divu32 n d.
Proof.
  intros Hn Hd. cbn [rwop_value]. unfold sext32, riscv_divuw, divu32. rewrite (u32_id n Hn), (u32_id d Hd).
  assert (Hr : is_u32 (if d =? 0 then 2 ^ 32 - 1 else n / d)).
  { unfold is_u32 in *. destruct (Z.eqb_spec d 0); [lia|]. split; [apply Z.div_pos; lia|apply Z.div_lt_upper_bound; nia]. }
  rewrite u32_u64, u32_s32, u32_id by exact Hr. destruct (d =? 0); reflexivity.
Qed.
Lemma clusters_agree x i : asm_cluster x i = c_cluster x i.
Proof.
  unfold asm_cluster, c_cluster. cbv zeta. rewrite !divuw_is_divu32 by (apply op_c_u32 || apply u32_range).
  assert (E1 : forall n d, rop_value DIVU n d = divu64 n d) by (intros n d; cbn [rop_value]; unfold riscv_divu, divu64; destruct (d =? 0); reflexivity).
  assert (E2 : forall n d, rop_value REMU n d = remu64 n d) by reflexivity. rewrite !E1, E2. reflexivity.
Qed.
(** Whatever the seed, the checksums agree and mt-divburst passes. *)
Theorem divburst_passes seed : divburst_main seed = (send (str "mt-divburst: PASS" ++ [10]), 0).
Proof.
  unfold divburst_main. pose proof (for_range_ind (fun _ s => let '(a, c, _) := s in a = c) 1 (ITERS + 1) divburst_body (0, 0, seed)) as Hi.
  specialize (Hi ltac:(unfold ITERS; lia) eq_refl). destruct (for_range _ _ _ _) as [[a c] x]. cbv beta iota in Hi. rewrite Hi; [rewrite Z.eqb_refl; reflexivity|].
  intros i [[a' c'] x'] _ ->. cbn [divburst_body]. now rewrite clusters_agree.
Qed.

(** ** [mt-uartrx.c] *)

Definition UART_STS_RX_VALID : Z := 1.

Section Uartrx.
Context {D : Type} (sts rx : D -> Z * D) (RX_CHARS : nat) (RX_SPIN_LIMIT : nat).

(** [while (!( *sts & UART_STS_RX_VALID)) if (++spins >= RX_SPIN_LIMIT) ...]: [n] more reads may
    fail. *)
Fixpoint poll (n : nat) (d : D) : option D :=
  let '(v, d) := sts d in
  if negb (Z.land v UART_STS_RX_VALID =? 0) then Some d
  else match n with O => None | S n => match n with O => None | S _ => poll n d end end.
Fixpoint receive (k : nat) (d : D) : option (list Z) :=
  match k with
  | O => Some []
  | S k =>
    match poll RX_SPIN_LIMIT d with
    | None => None
    | Some d => let '(v, d) := rx d in match receive k d with Some l => Some (Z.land v 0xff :: l) | None => None end
    end
  end.
Definition mt_uartrx_main (d : D) : option (list Z) * Z :=
  match receive RX_CHARS d with
  | None => (send ([10] ++ str "RXFAIL: STATUS never asserted RX_VALID" ++ [10]), 1)
  | Some got => (out_seq [send (str "<"); uart_send_string (got ++ [0]); send (str ">")], 0)
  end.
End Uartrx.

(** A device with a queue of bytes, each behind a number of reads of the status that find
    nothing. *)
Definition queue_sts (q : list (nat * Z)) : Z * list (nat * Z) :=
  match q with
  | [] => (0, [])
  | (O, b) :: q => (1, (O, b) :: q)
  | (S k, b) :: q => (0, (k, b) :: q)
  end.
Definition queue_rx (q : list (nat * Z)) : Z * list (nat * Z) := match q with [] => (0, []) | (_, b) :: q => (b, q) end.

Lemma poll_queue k : forall n b q, (k < n)%nat -> poll queue_sts n ((k, b) :: q) = Some ((O, b) :: q).
Proof.
  induction k as [|k IH]; intros n b q Hk; destruct n as [|n]; try lia; [reflexivity|]. cbn [poll queue_sts]. change (Z.land 0 UART_STS_RX_VALID =? 0) with true. cbn [negb].
  destruct n as [|n]; [lia|]. apply IH. lia.
Qed.
Lemma poll_late k : forall n b q, (0 < n)%nat -> (n <= k)%nat -> poll queue_sts n ((k, b) :: q) = None.
Proof.
  induction k as [|k IH]; intros n b q Hn Hk; [lia|]. destruct n as [|n]; [lia|]. cbn [poll queue_sts]. change (Z.land 0 UART_STS_RX_VALID =? 0) with true. cbn [negb].
  destruct n as [|n]; [reflexivity|]. apply IH; lia.
Qed.
Lemma poll_empty n : poll queue_sts n [] = None.
Proof. induction n as [|n IH]; [reflexivity|]. cbn [poll queue_sts]. change (Z.land 0 UART_STS_RX_VALID =? 0) with true. cbn [negb]. destruct n; [reflexivity|exact IH]. Qed.
Lemma receive_queue LIMIT l : forall rest, Forall (fun x : nat * Z => (fst x < LIMIT)%nat /\ 0 <= snd x < 256) l ->
  receive queue_sts queue_rx LIMIT (length l) (l ++ rest) = Some (map snd l).
Proof.
  induction l as [|[k b] l IH]; intros rest Hl; [reflexivity|]. apply Forall_cons in Hl as [[Hk Hb] Hl]. cbn [length app receive map fst snd] in *.
  rewrite poll_queue by exact Hk. cbn [queue_rx]. rewrite IH by exact Hl. change 0xff with (Z.ones 8). rewrite Z.land_ones, Z.mod_small by lia. reflexivity.
Qed.

(** If every one of the next [RX_CHARS] bytes arrives within the limit, exactly these are
    echoed, in order, and the test passes; if one comes too late or not at all, it fails. *)
Theorem uartrx_echoes RX_CHARS LIMIT l rest : (0 < LIMIT)%nat -> Forall (fun x : nat * Z => (fst x < LIMIT)%nat /\ 0 < snd x < 256) l ->
  (length l = RX_CHARS -> mt_uartrx_main queue_sts queue_rx RX_CHARS LIMIT (l ++ rest) = (Some ([60] ++ map snd l ++ [62]), 0)) /\
  ((length l < RX_CHARS)%nat -> match rest with [] => True | (k, _) :: _ => (LIMIT <= k)%nat end -> snd (mt_uartrx_main queue_sts queue_rx RX_CHARS LIMIT (l ++ rest)) = 1).
Proof.
  intros HL Hl. assert (Hl' : Forall (fun x : nat * Z => (fst x < LIMIT)%nat /\ 0 <= snd x < 256) l) by (eapply Forall_impl; [exact Hl|]; intros x [H1 H2]; split; [exact H1|lia]).
  unfold mt_uartrx_main. split.
  - intros <-. rewrite receive_queue by exact Hl'. change (map snd l ++ [0]) with (cstr (map snd l)). rewrite uart_send_string_ok; [reflexivity| |];
      clear -Hl; induction Hl as [|[k b] l [_ Hb] _ IH]; cbn [map snd] in *; [constructor|constructor; [unfold is_u8; lia|exact IH]|intros []|intros [E|E]; [lia|exact (IH E)]].
  - intros Hn Hrest. assert (E : receive queue_sts queue_rx LIMIT RX_CHARS (l ++ rest) = None); [|rewrite E; reflexivity].
    clear Hl. revert RX_CHARS Hn. induction Hl' as [|[k b] l [Hk Hb] _ IH]; intros n Hn; destruct n as [|n]; cbn [length] in Hn; try lia.
    + cbn [app receive]. destruct rest as [|[k b] rest]; [rewrite poll_empty|rewrite poll_late by lia]; reflexivity.
    + cbn [app receive fst snd] in *. rewrite poll_queue by exact Hk. cbn [queue_rx]. rewrite IH by lia. reflexivity.
Qed.
Example uartrx_twelve : mt_uartrx_main queue_sts queue_rx 2 5 [(3%nat, 104); (0%nat, 105)] = (Some [60; 104; 105; 62], 0).
Proof. reflexivity. Qed.
