(* ===== verification/Handshake.v ===== *)
(** * Flags between harts: [mt-csdwait.c] and [mt-spinwait.c]

    Two benchmarks in which harts wait for a store of another hart: the lock of a
    cross-call descriptor ([csd_lock_wait]) and the wake-up of parked harts. A step is one
    access of a hart to the shared words, between the two barriers of [thread_entry]; any
    schedule is allowed. Every wait is bounded, and a hart that gives up says so.

    The theorems: no release is lost or seen twice, and the verdict is a failure exactly
    when a hart gave up ([csdwait_verdict_exact]); a hart that counts as woken has read
    both of its words ([spinwait_verdict_exact]). The divide in the wait loop, the fences and
    the padding have no effect on the state. *)

From Stdlib Require Import String.
From S2P Require Import Prelude Cmodel Libc.
Local Open Scope Z_scope.

(** An array with one cell per hart. *)
Definition put_at {A} (t : nat) (v : A) (f : nat -> A) : nat -> A := fun u => if (u =? t)%nat then v else f u.
Lemma put_eq {A} t (v : A) f : put_at t v f t = v.
Proof. unfold put_at. now rewrite Nat.eqb_refl. Qed.
Lemma put_ne {A} t (v : A) f u : u <> t -> put_at t v f u = f u.
Proof. intros Hne. unfold put_at. destruct (Nat.eqb_spec u t); [contradiction|reflexivity]. Qed.

(** ** [mt-csdwait.c] *)

(** The observer, hart 0: it waits for hart [t] to lock its flag in round [r], delays, clears
    the flag; it records the round when all are served. *)
Inductive obs_pc :=
| OWait (r : Z) (t : nat) (s : Z) | ODelay (r : Z) (t : nat) (d : Z) | OClear (r : Z) (t : nat) | ORecord (r : Z)
| OGiveUp (r : Z) (t : nat) | OGaveUp (r : Z) (t : nat) | ODone.
(** A spinner: it sets its flag, spins until it is cleared, records the round. *)
Inductive spin_pc := SSet (r : Z) | SWait (r spin : Z) | SRecord (r : Z) | SGiveUp (r : Z) | SGaveUp (r : Z) | SFinished.
Record csdwait_state := mkcsd { flag : nat -> Z; rounds_done : nat -> Z; fail_hart : nat -> Z; observer : obs_pc; spinner : nat -> spin_pc }.

Section Csdwait.
Context (ROUNDS WAIT_CAP CLEAR_DELAY : Z) (nc : nat).

(** The next hart to serve_hart in round [r]. *)
Definition serve_hart (r : Z) (t : nat) : obs_pc := if (t <? nc)%nat then OWait r t 0 else ORecord r.
Definition next_round (r : Z) : obs_pc := if r <=? ROUNDS then serve_hart r 1 else ODone.
Definition lock_round (r : Z) : spin_pc := if r <=? ROUNDS then SSet r else SFinished.

Definition csd_observe (s : csdwait_state) : csdwait_state :=
  let goto p := mkcsd (flag s) (rounds_done s) (fail_hart s) p (spinner s) in
  match observer s with
  | OWait r t n => if flag s t =? 0 then goto (if WAIT_CAP <? n then OGiveUp r t else OWait r t (n + 1)) else goto (ODelay r t 0)
  | ODelay r t d => goto (if d <? CLEAR_DELAY then ODelay r t (d + 1) else OClear r t)
  | OClear r t => mkcsd (put_at t 0 (flag s)) (rounds_done s) (fail_hart s) (serve_hart r (S t)) (spinner s)
  | ORecord r => mkcsd (flag s) (put_at 0%nat r (rounds_done s)) (fail_hart s) (next_round (r + 1)) (spinner s)
  | OGiveUp r t => mkcsd (flag s) (rounds_done s) (put_at t 1 (fail_hart s)) (OGaveUp r t) (spinner s)
  | OGaveUp _ _ | ODone => s
  end.
(** [csd_lock_wait]: [for (spin = 0; ( *flag & 1) != 0; spin++) if (spin > WAIT_CAP) return 1] *)
Definition csd_spin (t : nat) (s : csdwait_state) : csdwait_state :=
  let goto p := mkcsd (flag s) (rounds_done s) (fail_hart s) (observer s) (put_at t p (spinner s)) in
  match spinner s t with
  | SSet r => mkcsd (put_at t 1 (flag s)) (rounds_done s) (fail_hart s) (observer s) (put_at t (SWait r 0) (spinner s))
  | SWait r n => if Z.land (flag s t) 1 =? 0 then goto (SRecord r) else goto (if WAIT_CAP <? n then SGiveUp r else SWait r (n + 1))
  | SRecord r => mkcsd (flag s) (put_at t r (rounds_done s)) (fail_hart s) (observer s) (put_at t (lock_round (r + 1)) (spinner s))
  | SGiveUp r => mkcsd (flag s) (rounds_done s) (put_at t 1 (fail_hart s)) (observer s) (put_at t (SGaveUp r) (spinner s))
  | SGaveUp _ | SFinished => s
  end.
Definition csdwait_step (t : nat) (s : csdwait_state) : csdwait_state :=
  if (t =? 0)%nat then csd_observe s else if (t <? nc)%nat then csd_spin t s else s.
Definition csdwait_start : csdwait_state := mkcsd (fun _ => 0) (fun _ => 0) (fun _ => 0) (next_round 1) (fun _ => lock_round 1).
Definition csdwait_run (sched : list nat) : csdwait_state := exec csdwait_step sched csdwait_start.

(** What hart 0 reports, and the argument of [exit]. *)
Definition csd_ok (s : csdwait_state) : bool := forallb (fun t => (fail_hart s t =? 0) && (rounds_done s t =? ROUNDS)) (seq 1 (nc - 1)).
Definition csdwait_report (CSD_RELAX : bool) (s : csdwait_state) : option (list Z) * Z :=
  (out_seq ([send (str "mt-csdwait: relax="); send (str (if CSD_RELAX then "div" else "none")); send (str " rounds=")] ++
     List.concat (map (fun i => [uart_send_integer (s32 (rounds_done s i)); send (str (if (i =? 3)%nat then " fail=" else ","))]) (seq 0 4)) ++
     List.concat (map (fun i => [uart_send_integer (fail_hart s i); send (if (i =? 3)%nat then [10] else str ",")]) (seq 0 4)) ++
     [send (if csd_ok s then str "mt-csdwait: PASS" ++ [10] else str "mt-csdwait: FAIL (spinner never observed the release)" ++ [10])]),
   if csd_ok s then 0 else 1).

(** The harts have left their loops. *)
Definition csd_over (s : csdwait_state) : Prop :=
  match observer s with ODone | OGaveUp _ _ => True | _ => False end /\
  forall t, (1 <= t < nc)%nat -> match spinner s t with SFinished | SGaveUp _ => True | _ => False end.
(** Hart [t] gave up, or the observer gave up on it. *)
Definition gave_up (s : csdwait_state) (t : nat) : Prop :=
  match observer s with OGaveUp _ u => u = t | _ => False end \/ match spinner s t with SGaveUp _ => True | _ => False end.

(** The number of releases of hart [t]. *)
Definition releases (s : csdwait_state) (t : nat) : Z :=
  match observer s with
  | OWait r u _ | ODelay r u _ | OClear r u | OGiveUp r u | OGaveUp r u => if (t <? u)%nat then r else r - 1
  | ORecord r => r
  | ODone => ROUNDS
  end.

(** Hart [t] in its round [r]: it has not locked yet, or is locked, or was released. *)
Definition csdwait_hart (s : csdwait_state) (t : nat) : Prop :=
  match spinner s t with
  | SSet r => 1 <= r <= ROUNDS /\ flag s t = 0 /\ releases s t = r - 1 /\ rounds_done s t = r - 1
  | SWait r _ | SGiveUp r | SGaveUp r => 1 <= r <= ROUNDS /\ (flag s t = 1 /\ releases s t = r - 1 \/ flag s t = 0 /\ releases s t = r) /\ rounds_done s t = r - 1
  | SRecord r => 1 <= r <= ROUNDS /\ flag s t = 0 /\ releases s t = r /\ rounds_done s t = r - 1
  | SFinished => flag s t = 0 /\ releases s t = ROUNDS /\ rounds_done s t = ROUNDS
  end.
Definition csd_observer (s : csdwait_state) : Prop :=
  match observer s with
  | OWait r u _ | OGiveUp r u | OGaveUp r u => 1 <= r <= ROUNDS /\ (1 <= u < nc)%nat
  | ODelay r u _ | OClear r u => 1 <= r <= ROUNDS /\ (1 <= u < nc)%nat /\ flag s u = 1
  | ORecord r => 1 <= r <= ROUNDS
  | ODone => True
  end.
Definition csd_inv (s : csdwait_state) : Prop :=
  csd_observer s /\ (forall t, (1 <= t < nc)%nat -> csdwait_hart s t /\ (fail_hart s t = 0 /\ ~ gave_up s t \/ fail_hart s t = 1 /\ gave_up s t)).

Context (Hrounds : 1 <= ROUNDS).

Lemma releases_serve s r u t : (1 <= t < nc)%nat -> releases (mkcsd (flag s) (rounds_done s) (fail_hart s) (serve_hart r u) (spinner s)) t = if (t <? u)%nat then r else r - 1.
Proof.
  intros Ht. unfold releases, serve_hart. cbn [observer]. destruct (Nat.ltb_spec u nc); [reflexivity|]. destruct (Nat.ltb_spec t u); [reflexivity|lia].
Qed.
Lemma releases_next s r t : (1 <= t < nc)%nat -> r <= ROUNDS -> releases (mkcsd (flag s) (rounds_done s) (fail_hart s) (next_round (r + 1)) (spinner s)) t = r.
Proof.
  intros Ht Hr. unfold next_round. destruct (Z.leb_spec (r + 1) ROUNDS); [rewrite releases_serve by exact Ht; destruct (Nat.ltb_spec t 1); lia|]. unfold releases. cbn [observer]. lia.
Qed.
Lemma csd_hart_ext s s' t : spinner s' t = spinner s t -> flag s' t = flag s t -> releases s' t = releases s t -> rounds_done s' t = rounds_done s t -> csdwait_hart s t -> csdwait_hart s' t.
Proof. unfold csdwait_hart. intros -> -> -> ->. exact id. Qed.

(** The observer's step, seen by hart [t]. *)
Lemma observe_hart s t : (1 <= t < nc)%nat -> csd_observer s -> csdwait_hart s t -> csdwait_hart (csd_observe s) t.
Proof.
  intros Ht Ho Hh. unfold csd_observe, csd_observer in *. destruct (observer s) as [r u n|r u d|r u|r|r u|r u|] eqn:E; try exact Hh.
  - assert (Er : forall p, releases (mkcsd (flag s) (rounds_done s) (fail_hart s) p (spinner s)) t = releases s t -> csdwait_hart (mkcsd (flag s) (rounds_done s) (fail_hart s) p (spinner s)) t)
      by (intros p Hp; revert Hh; apply csd_hart_ext; reflexivity || exact Hp).
    destruct (flag s u =? 0); [destruct (WAIT_CAP <? n)|]; apply Er; unfold releases; rewrite E; reflexivity.
  - destruct (d <? CLEAR_DELAY); revert Hh; apply csd_hart_ext; try reflexivity; unfold releases; rewrite E; reflexivity.
  - destruct Ho as (Hr & Hu & Hf). set (s1 := mkcsd _ _ _ _ _). assert (Hrel : releases s1 t = if (t <? S u)%nat then r else r - 1).
    { rewrite <- (releases_serve s r (S u) t Ht). reflexivity. }
    assert (Hold : releases s t = if (t <? u)%nat then r else r - 1) by (unfold releases; rewrite E; reflexivity).
    destruct (decide (t = u)) as [->|Hne].
    + rewrite Nat.ltb_irrefl in Hold. rewrite (proj2 (Nat.ltb_lt u (S u))) in Hrel by lia. unfold csdwait_hart in *. rewrite Hrel. rewrite Hold, Hf in Hh.
      change (spinner s1 u) with (spinner s u). change (rounds_done s1 u) with (rounds_done s u). change (flag s1 u) with (put_at u 0 (flag s) u). rewrite put_eq.
      destruct (spinner s u); lia.
    + revert Hh. apply csd_hart_ext; try reflexivity; [apply put_ne; exact Hne|]. rewrite Hrel, Hold. destruct (Nat.ltb_spec t (S u)), (Nat.ltb_spec t u); lia.
  - set (s1 := mkcsd _ _ _ _ _). assert (Hrel : releases s1 t = r) by (rewrite <- (releases_next s r t Ht ltac:(lia)); reflexivity).
    revert Hh. apply csd_hart_ext; try reflexivity; [rewrite Hrel; unfold releases; rewrite E; reflexivity|]. apply put_ne. lia.
  - revert Hh. apply csd_hart_ext; try reflexivity. unfold releases. rewrite E. reflexivity.
Qed.
Lemma serve_ok s r u : 1 <= r <= ROUNDS -> (1 <= u)%nat -> csd_observer (mkcsd (flag s) (rounds_done s) (fail_hart s) (serve_hart r u) (spinner s)).
Proof. intros Hr Hu. unfold csd_observer, serve_hart. cbn [observer flag]. destruct (Nat.ltb_spec u nc); [split; [exact Hr|lia]|exact Hr]. Qed.
Lemma next_round_ok s r : 1 <= r -> csd_observer (mkcsd (flag s) (rounds_done s) (fail_hart s) (next_round r) (spinner s)).
Proof. intros Hr. unfold next_round. destruct (Z.leb_spec r ROUNDS); [apply serve_ok; lia|exact I]. Qed.
(** Only the waits of the observer look at the flags of others. *)
Lemma observe_observer s : csd_observer s -> (forall t, (1 <= t < nc)%nat -> csdwait_hart s t) -> csd_observer (csd_observe s).
Proof.
  intros Ho Hh. unfold csd_observe, csd_observer in Ho |- *. destruct (observer s) as [r u n|r u d|r u|r|r u|r u|] eqn:E; cbn [observer flag]; try exact Ho; try (rewrite E; exact Ho).
  - destruct Ho as [Hr Hu]. destruct (Z.eqb_spec (flag s u) 0) as [|Hf]; [destruct (WAIT_CAP <? n); split; assumption|]. split; [exact Hr|]. split; [exact Hu|].
    specialize (Hh u Hu). change (flag s u = 1). unfold csdwait_hart in Hh. destruct (spinner s u); lia.
  - destruct (d <? CLEAR_DELAY); exact Ho.
  - destruct Ho as (Hr & Hu & _). exact (serve_ok (mkcsd (put_at u 0 (flag s)) (rounds_done s) (fail_hart s) ODone (spinner s)) r (S u) Hr ltac:(lia)).
  - exact (next_round_ok (mkcsd (flag s) (put_at 0%nat r (rounds_done s)) (fail_hart s) ODone (spinner s)) (r + 1) ltac:(lia)).
Qed.
Lemma spin_observer s t : (1 <= t < nc)%nat -> csd_observer s -> csd_observer (csd_spin t s).
Proof.
  intros Ht Ho. unfold csd_spin. destruct (spinner s t) eqn:E; try exact Ho; [|destruct (_ =? 0); [|destruct (_ <? _)]; exact Ho].
  unfold csd_observer in *. cbn [observer flag]. destruct (observer s); try exact Ho; destruct Ho as (Hr & Hu & Hf); (split; [exact Hr|]; split; [exact Hu|]);
    unfold put_at; destruct (_ =? _)%nat; [reflexivity|exact Hf|reflexivity|exact Hf].
Qed.
Lemma spin_hart s t u : (1 <= t < nc)%nat -> (1 <= u < nc)%nat -> csd_observer s -> csdwait_hart s u -> csdwait_hart (csd_spin t s) u.
Proof.
  intros Ht Hu Ho Hh. destruct (decide (u = t)) as [->|Hne].
  - assert (Hrel : releases (csd_spin t s) t = releases s t) by (unfold csd_spin; destruct (spinner s t); try reflexivity; destruct (_ =? 0); [|destruct (_ <? _)]; reflexivity).
    unfold csdwait_hart in *. rewrite Hrel. unfold csd_spin. destruct (spinner s t) as [r|r n|r|r|r|] eqn:E; cbn [spinner flag rounds_done]; rewrite ?put_eq, ?E; try exact Hh.
    + lia.
    + destruct Hh as (Hr & Hf & Hd). assert (Ef : (Z.land (flag s t) 1 =? 0) = (flag s t =? 0)) by (destruct Hf as [[-> _]|[-> _]]; reflexivity). rewrite Ef.
      destruct (Z.eqb_spec (flag s t) 0); [|destruct (WAIT_CAP <? n)]; cbn [spinner flag rounds_done]; rewrite put_eq; lia.
    + unfold lock_round. destruct (Z.leb_spec (r + 1) ROUNDS); lia.
  - revert Hh. apply csd_hart_ext; unfold csd_spin; destruct (spinner s t); try reflexivity; try (destruct (_ =? 0); [|destruct (_ <? _)]); cbn [spinner flag rounds_done]; try reflexivity; apply put_ne; exact Hne.
Qed.

(** The failure flags. *)
Lemma observe_fails s t : (1 <= t < nc)%nat -> csd_observer s -> (fail_hart s t = 0 /\ ~ gave_up s t \/ fail_hart s t = 1 /\ gave_up s t) ->
  fail_hart (csd_observe s) t = 0 /\ ~ gave_up (csd_observe s) t \/ fail_hart (csd_observe s) t = 1 /\ gave_up (csd_observe s) t.
Proof.
  intros Ht Ho Hf. unfold csd_observe, gave_up, csd_observer in *. destruct (observer s) as [r u n|r u d|r u|r|r u|r u|] eqn:E; cbn [fail_hart observer spinner]; try (rewrite E; exact Hf).
  - destruct (flag s u =? 0); [destruct (WAIT_CAP <? n)|]; cbn [fail_hart observer spinner]; exact Hf.
  - destruct (d <? CLEAR_DELAY); exact Hf.
  - unfold serve_hart. destruct (S u <? nc)%nat; exact Hf.
  - unfold next_round, serve_hart. destruct (r + 1 <=? ROUNDS); [destruct (1 <? nc)%nat|]; exact Hf.
  - destruct (decide (t = u)) as [->|Hne]; [rewrite put_eq; right; auto|]. rewrite put_ne by exact Hne. destruct Hf as [[H1 H2]|[H1 H2]]; [left|right]; (split; [exact H1|]); tauto || (intuition congruence).
Qed.
Lemma spin_fails s t u : (1 <= t < nc)%nat -> (fail_hart s u = 0 /\ ~ gave_up s u \/ fail_hart s u = 1 /\ gave_up s u) ->
  fail_hart (csd_spin t s) u = 0 /\ ~ gave_up (csd_spin t s) u \/ fail_hart (csd_spin t s) u = 1 /\ gave_up (csd_spin t s) u.
Proof.
  intros Ht Hf. assert (Hput : forall (p : spin_pc), (match p with SGaveUp _ => False | _ => True end) -> match spinner s t with SGaveUp _ => False | _ => True end ->
    forall fl rd, let s' := mkcsd fl rd (fail_hart s) (observer s) (put_at t p (spinner s)) in fail_hart s' u = 0 /\ ~ gave_up s' u \/ fail_hart s' u = 1 /\ gave_up s' u).
  { intros p Hp Hs fl rd. cbv zeta. unfold gave_up in *. cbn [fail_hart observer spinner]. destruct (decide (u = t)) as [->|Hne]; [rewrite put_eq|rewrite put_ne by exact Hne; exact Hf].
    destruct p, (spinner s t); try contradiction; exact Hf. }
  unfold csd_spin. destruct (spinner s t) as [r|r n|r|r|r|] eqn:E; try exact Hf; try (apply Hput; exact I).
  - destruct (_ =? 0); [|destruct (WAIT_CAP <? n)]; apply Hput; exact I.
  - apply Hput; [|exact I]. unfold lock_round. destruct (_ <=? _); exact I.
  - unfold gave_up in *. cbn [fail_hart observer spinner]. destruct (decide (u = t)) as [->|Hne]; [rewrite !put_eq; right; auto|]. rewrite !put_ne by exact Hne. exact Hf.
Qed.

Lemma csd_step_inv s t : csd_inv s -> csd_inv (csdwait_step t s).
Proof.
  intros [Ho Hh]. unfold csdwait_step. destruct (Nat.eqb_spec t 0) as [->|Hne]; [|destruct (Nat.ltb_spec t nc); [|split; assumption]]; (split; [|intros u Hu; destruct (Hh u Hu) as [H1 H2]; split]).
  - apply observe_observer; [exact Ho|]. intros u Hu. apply Hh, Hu.
  - apply observe_hart; assumption.
  - apply observe_fails; assumption.
  - apply spin_observer; [lia|exact Ho].
  - apply spin_hart; try assumption; lia.
  - apply spin_fails; [lia|exact H2].
Qed.
Lemma csd_start_inv : csd_inv csdwait_start.
Proof.
  split; [exact (next_round_ok csdwait_start 1 ltac:(lia))|]. intros t Ht. split.
  - unfold csdwait_hart, csdwait_start. cbn [spinner flag rounds_done]. unfold lock_round. rewrite (proj2 (Z.leb_le 1 ROUNDS) Hrounds). split; [lia|]. split; [reflexivity|]. split; [|reflexivity].
    unfold releases. cbn [observer]. unfold next_round, serve_hart. rewrite (proj2 (Z.leb_le 1 ROUNDS) Hrounds), (proj2 (Nat.ltb_lt 1 nc)) by lia. destruct (Nat.ltb_spec t 1); lia.
  - left. split; [reflexivity|]. unfold gave_up, csdwait_start. cbn [observer spinner]. unfold next_round, serve_hart, lock_round. rewrite (proj2 (Z.leb_le 1 ROUNDS) Hrounds). destruct (1 <? nc)%nat; tauto.
Qed.
Lemma csd_reachable sched : csd_inv (csdwait_run sched).
Proof.
  unfold csdwait_run. generalize csd_start_inv. generalize csdwait_start as s. induction sched as [|t sched IH]; intros s Hs; [exact Hs|]. apply (IH (csdwait_step t s)), csd_step_inv, Hs.
Qed.
End Csdwait.

(** Under every schedule: a hart has completed as many rounds as it was released, or one
    less. When all harts have left their loops the report is a failure exactly if a hart
    gave up, and [fail_hart] names it. *)
Theorem csdwait_verdict_exact ROUNDS WAIT_CAP CLEAR_DELAY nc sched : 1 <= ROUNDS ->
  let s := csdwait_run ROUNDS WAIT_CAP CLEAR_DELAY nc sched in
  (forall t, (1 <= t < nc)%nat -> rounds_done s t <= releases ROUNDS s t <= rounds_done s t + 1) /\
  (csd_over nc s -> (snd (csdwait_report ROUNDS nc true s) = 1 <-> exists t, (1 <= t < nc)%nat /\ gave_up s t) /\
     forall t, (1 <= t < nc)%nat -> fail_hart s t = 1 <-> gave_up s t).
Proof.
  intros HR. cbv zeta. destruct (csd_reachable ROUNDS WAIT_CAP CLEAR_DELAY nc HR sched) as [Ho Hh]. set (s := csdwait_run _ _ _ _ _) in *. split.
  - intros t Ht. destruct (Hh t Ht) as [H1 _]. unfold csdwait_hart in H1. destruct (spinner s t); lia.
  - intros [Ov Hover]. assert (Hfail : forall t, (1 <= t < nc)%nat -> fail_hart s t = 1 <-> gave_up s t).
    { intros t Ht. destruct (Hh t Ht) as [_ [[H1 H2]|[H1 H2]]]; split; intros Hx; try tauto; lia. }
    split; [|exact Hfail]. cbn [csdwait_report snd]. destruct (csd_ok ROUNDS nc s) eqn:Eok.
    + split; [discriminate|]. intros (t & Ht & Hg). unfold csd_ok in Eok. rewrite forallb_forall in Eok. specialize (Eok t ltac:(apply in_seq; lia)).
      apply andb_prop in Eok as [E1 _]. apply Z.eqb_eq in E1. apply Hfail in Hg; [lia|exact Ht].
    + split; [intros _|reflexivity]. assert (Hex : exists t, In t (seq 1 (nc - 1)) /\ (fail_hart s t =? 0) && (rounds_done s t =? ROUNDS) = false).
      { clear -Eok. unfold csd_ok in Eok. induction (seq 1 (nc - 1)) as [|t l IH]; [discriminate|]. cbn [forallb] in Eok. apply andb_false_iff in Eok as [E|E]; [exists t; split; [now left|exact E]|].
        destruct (IH E) as (u & Hu & E'). exists u. split; [now right|exact E']. }
      destruct Hex as (t & Hin & E). apply in_seq in Hin. assert (Ht : (1 <= t < nc)%nat) by lia. exists t. split; [exact Ht|]. destruct (Hh t Ht) as [H1 [[H2 H3]|[_ H3]]]; [|exact H3].
      rewrite H2 in E. cbn [Z.eqb andb] in E. apply Z.eqb_neq in E. specialize (Hover t Ht). unfold csdwait_hart in H1. destruct (spinner s t) eqn:Es; try contradiction; [right; rewrite Es; exact I|lia].
Qed.

(** Four harts in turns pass; a release that comes after the cap fails. *)
Example csd_turns : let s := csdwait_run 3 20 2 4 (List.concat (repeat [0; 1; 2; 3]%nat 80)) in csd_over 4 s /\ snd (csdwait_report 3 4 true s) = 0.
Proof. cbv zeta. split; [split; [exact I|]|vm_compute; reflexivity]. intros t Ht. assert (t = 1 \/ t = 2 \/ t = 3)%nat as [->|[->| ->]] by lia; exact I. Qed.
Example csd_late : let s := csdwait_run 3 20 2 2 (repeat 1%nat 30 ++ repeat 0%nat 100) in csd_over 2 s /\ snd (csdwait_report 3 2 true s) = 1.
Proof. cbv zeta. split; [split; [exact I|]|vm_compute; reflexivity]. intros t Ht. assert (t = 1)%nat as -> by lia. exact I. Qed.
Lemma csdwait_verdict_exact_witness : let s := csdwait_run 3 20 2 2 (repeat 1%nat 30 ++ repeat 0%nat 100) in rounds_done s 1 <= releases 3 s 1 <= rounds_done s 1 + 1.
Proof. exact (proj1 (csdwait_verdict_exact 3 20 2 2 (repeat 1%nat 30 ++ repeat 0%nat 100) ltac:(lia)) 1%nat ltac:(lia)). Defined.

(** ** [mt-spinwait.c] *)

(** The primary, hart 0: it writes both words of every secondary, then waits for each to come
    online. *)
Inductive prim_pc := PStack (i : nat) | PTask (i : nat) | PWait (i : nat) (spins : Z) | PFail (i : nat) | PBarrier.
(** A secondary: it reads its two words until both are there or it gives up; [WOnline] and
    [WBarrier] carry what it read last. *)
Inductive wake_pc := WStack (spins : Z) | WTask (sp spins : Z) | WFail (sp tp : Z) | WOnline (sp tp : Z) | WBarrier (sp tp : Z).
Record wake_state := mkwake { stack_ptr : nat -> Z; task_ptr : nat -> Z; online : nat -> Z; wake_fail : nat -> Z; primary : prim_pc; secondary : nat -> wake_pc }.

Section Spinwait.
Context (WAIT_CAP : Z) (nc : nat).
Definition stack_of (i : nat) : Z := u64 (0x80010000 + Z.of_nat i * 0x1000).
Definition task_of (i : nat) : Z := u64 (0x80020000 + Z.of_nat i * 0x1000).
Definition publish (i : nat) : prim_pc := if (i <? nc)%nat then PStack i else if (1 <? nc)%nat then PWait 1 0 else PBarrier.
Definition await (i : nat) : prim_pc := if (i <? nc)%nat then PWait i 0 else PBarrier.

Definition wake_primary (s : wake_state) : wake_state :=
  let goto p := mkwake (stack_ptr s) (task_ptr s) (online s) (wake_fail s) p (secondary s) in
  match primary s with
  | PStack i => mkwake (put_at i (stack_of i) (stack_ptr s)) (task_ptr s) (online s) (wake_fail s) (PTask i) (secondary s)
  | PTask i => mkwake (stack_ptr s) (put_at i (task_of i) (task_ptr s)) (online s) (wake_fail s) (publish (S i)) (secondary s)
  | PWait i spins => if online s i =? 0 then goto (if WAIT_CAP <? spins + 1 then PFail i else PWait i (spins + 1)) else goto (await (S i))
  | PFail i => mkwake (stack_ptr s) (task_ptr s) (online s) (put_at i 1 (wake_fail s)) (await (S i)) (secondary s)
  | PBarrier => s
  end.
(** [if (sp != 0 && tp != 0) online[cid] = 1], after the loop. *)
Definition woken (sp tp : Z) : wake_pc := if negb (sp =? 0) && negb (tp =? 0) then WOnline sp tp else WBarrier sp tp.
Definition wake_secondary (c : nat) (s : wake_state) : wake_state :=
  let goto p := mkwake (stack_ptr s) (task_ptr s) (online s) (wake_fail s) (primary s) (put_at c p (secondary s)) in
  match secondary s c with
  | WStack spins => goto (WTask (stack_ptr s c) spins)
  | WTask sp spins =>
    let tp := task_ptr s c in
    if WAIT_CAP <? spins + 1 then goto (WFail sp tp)
    else if (sp =? 0) || (tp =? 0) then goto (WStack (spins + 1)) else goto (woken sp tp)
  | WFail sp tp => mkwake (stack_ptr s) (task_ptr s) (online s) (put_at c 1 (wake_fail s)) (primary s) (put_at c (woken sp tp) (secondary s))
  | WOnline sp tp => mkwake (stack_ptr s) (task_ptr s) (put_at c 1 (online s)) (wake_fail s) (primary s) (put_at c (WBarrier sp tp) (secondary s))
  | WBarrier _ _ => s
  end.
Definition wake_step (t : nat) (s : wake_state) : wake_state :=
  if (t =? 0)%nat then wake_primary s else if (t <? nc)%nat then wake_secondary t s else s.
Definition wake_start : wake_state := mkwake (fun _ => 0) (fun _ => 0) (fun _ => 0) (fun _ => 0) (publish 1) (fun _ => WStack 0).
Definition wake_run (sched : list nat) : wake_state := exec wake_step sched wake_start.

Definition asleep (s : wake_state) (i : nat) : bool := negb (wake_fail s i =? 0) || (online s i =? 0).
Definition wake_report (s : wake_state) : option (list Z) * Z :=
  let failed := List.filter (asleep s) (seq 1 (nc - 1)) in
  (out_seq (List.concat (map (fun i => [send (str "SPINWAIT-FAIL hart "); uart_send_integer (Z.of_nat i); send (str " online="); uart_send_integer (online s i); send [10]]) failed) ++
     match failed with [] => [send (str "mt-spinwait: ALL SECONDARIES WOKE" ++ [10])] | _ => [] end),
   match failed with [] => 0 | _ => 1 end).

(** The second barrier: all harts have reached it. *)
Definition wake_over (s : wake_state) : Prop :=
  primary s = PBarrier /\ forall c, (1 <= c < nc)%nat -> exists sp tp, secondary s c = WBarrier sp tp.

(** A word is not there, or is the one for its hart. *)
Definition sees_word (word : nat -> Z) (c : nat) (v : Z) : Prop := v = 0 \/ v = word c.
Definition wake_hart (s : wake_state) (c : nat) : Prop :=
  sees_word stack_of c (stack_ptr s c) /\ sees_word task_of c (task_ptr s c) /\
  match secondary s c with
  | WStack _ => online s c = 0
  | WTask sp _ => sees_word stack_of c sp /\ online s c = 0
  | WFail sp tp => sees_word stack_of c sp /\ sees_word task_of c tp /\ online s c = 0
  | WOnline sp tp => sp = stack_of c /\ tp = task_of c /\ online s c = 0
  | WBarrier sp tp => online s c = 1 /\ sp = stack_of c /\ tp = task_of c \/ online s c = 0 /\ wake_fail s c = 1
  end.

Lemma woken_ok c sp tp (on fl : Z) : sees_word stack_of c sp -> sees_word task_of c tp -> on = 0 -> fl = 1 \/ sp <> 0 /\ tp <> 0 ->
  match woken sp tp with
  | WOnline sp tp => sp = stack_of c /\ tp = task_of c /\ on = 0
  | WBarrier sp tp => on = 1 /\ sp = stack_of c /\ tp = task_of c \/ on = 0 /\ fl = 1
  | _ => False
  end.
Proof.
  unfold woken, sees_word. intros Hs Ht Ho Hf. destruct (Z.eqb_spec sp 0), (Z.eqb_spec tp 0); cbn [negb andb]; [right; split; [exact Ho|lia]..|].
  repeat split; [destruct Hs; [contradiction|assumption]|destruct Ht; [contradiction|assumption]|exact Ho].
Qed.

Lemma wake_primary_hart s c : wake_hart s c -> wake_hart (wake_primary s) c.
Proof.
  intros Hh. unfold wake_primary. destruct (primary s) as [i|i|i n|i|]; try exact Hh.
  - destruct Hh as (H1 & H2 & H3). split; [|split; [exact H2|exact H3]]. cbn [stack_ptr]. unfold put_at. destruct (Nat.eqb_spec c i) as [->|]; [now right|exact H1].
  - destruct Hh as (H1 & H2 & H3). split; [exact H1|]. split; [|exact H3]. cbn [task_ptr]. unfold put_at. destruct (Nat.eqb_spec c i) as [->|]; [now right|exact H2].
  - destruct (_ =? 0); [destruct (_ <? _)|]; exact Hh.
  - destruct Hh as (H1 & H2 & H3). split; [exact H1|]. split; [exact H2|]. cbn [secondary online wake_fail]. destruct (secondary s c); try exact H3.
    destruct H3 as [H3|[H3 H4]]; [now left|right]. split; [exact H3|]. unfold put_at. destruct (c =? i)%nat; [reflexivity|exact H4].
Qed.
Lemma wake_secondary_hart s t c : wake_hart s c -> wake_hart (wake_secondary t s) c.
Proof.
  intros Hh. destruct (decide (c = t)) as [->|Hne].
  - destruct Hh as (H1 & H2 & H3). unfold wake_secondary. destruct (secondary s t) as [n|sp n|sp tp|sp tp|sp tp] eqn:E.
    + split; [exact H1|]. split; [exact H2|]. cbn [secondary online]. rewrite put_eq. split; [exact H1|exact H3].
    + destruct H3 as [H3 H4]. destruct (WAIT_CAP <? n + 1); [|destruct (Z.eqb_spec sp 0) as [|Hs], (Z.eqb_spec (task_ptr s t) 0) as [|Ht]; cbn [orb]]; (split; [exact H1|]; split; [exact H2|]); cbn [secondary online wake_fail]; rewrite put_eq; auto.
      pose proof (woken_ok t sp (task_ptr s t) (online s t) (wake_fail s t) H3 H2 H4 (or_intror (conj Hs Ht))) as Hw. destruct (woken sp (task_ptr s t)); try contradiction; exact Hw.
    + destruct H3 as (H3 & H4 & H5). split; [exact H1|]. split; [exact H2|]. cbn [secondary online wake_fail]. rewrite !put_eq.
      pose proof (woken_ok t sp tp (online s t) 1 H3 H4 H5 (or_introl eq_refl)) as Hw. destruct (woken sp tp); try contradiction; exact Hw.
    + destruct H3 as (H3 & H4 & H5). split; [exact H1|]. split; [exact H2|]. cbn [secondary online]. rewrite !put_eq. left. auto.
    + unfold wake_hart. rewrite E. auto.
  - destruct Hh as (H1 & H2 & H3). unfold wake_secondary. assert (Hsec : forall p, put_at t p (secondary s) c = secondary s c) by (intros p; apply put_ne; exact Hne).
    destruct (secondary s t) as [n|sp n|sp tp|sp tp|sp tp] eqn:E; try (destruct (_ <? _); [|destruct (_ || _)]); (split; [exact H1|]; split; [exact H2|]); cbn [secondary online wake_fail]; rewrite ?Hsec, ?put_ne by exact Hne; exact H3.
Qed.
Lemma wake_reachable sched c : wake_hart (wake_run sched) c.
Proof.
  unfold wake_run. assert (H0 : wake_hart wake_start c) by (split; [now left|]; split; [now left|reflexivity]). revert H0. generalize wake_start as s.
  induction sched as [|t sched IH]; intros s Hs; [exact Hs|]. apply (IH (wake_step t s)). unfold wake_step. destruct (t =? 0)%nat; [now apply wake_primary_hart|]. destruct (t <? nc)%nat; [now apply wake_secondary_hart|exact Hs].
Qed.
End Spinwait.

(** Under every schedule, a secondary that is online has read both of its words, and no other
    value. At the second barrier the report is a success exactly if no hart gave up. *)
Theorem spinwait_verdict_exact WAIT_CAP nc sched : let s := wake_run WAIT_CAP nc sched in wake_over nc s ->
  (forall c sp tp, (1 <= c < nc)%nat -> secondary s c = WBarrier sp tp -> online s c <> 0 -> sp = stack_of c /\ tp = task_of c) /\
  (snd (wake_report nc s) = 0 <-> forall c, (1 <= c < nc)%nat -> wake_fail s c = 0).
Proof.
  cbv zeta. intros [_ Hover]. pose proof (wake_reachable WAIT_CAP nc sched) as Hh. set (s := wake_run _ _ _) in *. split.
  - intros c sp tp Hc E Hon. destruct (Hh c) as (_ & _ & H3). rewrite E in H3. destruct H3 as [(_ & H3)|[H3 _]]; [exact H3|contradiction].
  - unfold wake_report. cbn [snd]. destruct (List.filter (asleep s) (seq 1 (nc - 1))) as [|i l] eqn:E.
    + split; [|reflexivity]. intros _ c Hc. destruct (Z.eq_dec (wake_fail s c) 0) as [|Hf]; [assumption|]. exfalso.
      assert (Hin : In c (List.filter (asleep s) (seq 1 (nc - 1)))) by (apply filter_In; split; [apply in_seq; lia|]; unfold asleep; rewrite (proj2 (Z.eqb_neq _ _) Hf); reflexivity).
      rewrite E in Hin. exact Hin.
    + split; [discriminate|]. intros Hno. exfalso. assert (Hin : In i (List.filter (asleep s) (seq 1 (nc - 1)))) by (rewrite E; now left).
      apply filter_In in Hin as [Hi Ha]. apply in_seq in Hi. assert (Hc : (1 <= i < nc)%nat) by lia. specialize (Hno i Hc). unfold asleep in Ha. rewrite Hno in Ha. cbn [Z.eqb negb orb] in Ha. apply Z.eqb_eq in Ha.
      destruct (Hover i Hc) as (sp & tp & Es). destruct (Hh i) as (_ & _ & H3). rewrite Es in H3. lia.
Qed.
Example wake_turns : let s := wake_run 20 4 (List.concat (repeat [3; 2; 1; 0]%nat 20)) in wake_over 4 s /\ snd (wake_report 4 s) = 0.
Proof. cbv zeta. split; [split; [reflexivity|]|vm_compute; reflexivity]. intros c Hc. assert (c = 1 \/ c = 2 \/ c = 3)%nat as [->|[->| ->]] by lia; vm_compute; eauto. Qed.
