(* ===== verification/Ipi.v ===== *)
(** * Software interrupts between harts: [workloads/benchmarks/mt-ipi/mt-ipi.c]

    Hart 0 rings every other hart [ROUNDS] times and waits for its counter; then every hart
    rings hart 0 once. A ring is a store to the CLINT's [msip] of the target, which traps
    when the target has interrupts enabled: the handler clears the word, reads it back and
    counts. A step is one access of a hart, of its program or of its handler; the schedule
    also says whether a pending interrupt is taken now or later. The steps begin after
    [ipi_arm] and end at the last barrier.

    The theorem: no interrupt is lost or counted twice under any schedule, those of
    the secondaries and those of hart 0 ([ipi_counts_exact]); the test can fail only
    by a time-out. *)

From Stdlib Require Import String.
From S2P Require Import Prelude Cmodel Libc Handshake.
Local Open Scope Z_scope.

(** [thread_entry]: hart 0 sends and waits, then hands out [go] and waits; a secondary waits
    for its rounds and its turn. [MFail] is the call of [fail], with where it happened. *)
Inductive main_pc :=
| MSend (r : Z) (t : nat) | MWait (r : Z) (t : nat) (spin : Z) | MGo (t : nat) | MBack (t : nat) (spin : Z)
| RWait (spin : Z) | RTurn | RSend | MBarrier | MFail (p : main_pc).
(** The handler: the store and the load of [msip], the load and the store of the counter. *)
Inductive isr_pc := HNone | HClear | HRead | HLoad | HStore (c : Z).
Record mt_ipi_state := mkipi { msip : nat -> Z; ipi_count : nat -> Z; go : Z; main : nat -> main_pc; isr : nat -> isr_pc }.

Section Ipi.
Context (ROUNDS SPIN_TIMEOUT : Z) (nc : nat).

Definition first_go (t : nat) : main_pc := if (t <? nc)%nat then MGo t else MBarrier.
Definition first_send (r : Z) : main_pc := if (r <=? ROUNDS) && (1 <? nc)%nat then MSend r 1 else first_go 1.
Definition after_send (r : Z) (t : nat) : main_pc := if (S t <? nc)%nat then MSend r (S t) else first_send (r + 1).

Definition isr_step (t : nat) (s : mt_ipi_state) : mt_ipi_state :=
  let goto h := mkipi (msip s) (ipi_count s) (go s) (main s) (put_at t h (isr s)) in
  match isr s t with
  | HNone => goto HClear
  | HClear => mkipi (put_at t 0 (msip s)) (ipi_count s) (go s) (main s) (put_at t HRead (isr s))
  | HRead => goto HLoad
  | HLoad => goto (HStore (ipi_count s t))
  | HStore c => mkipi (msip s) (put_at t (u64 (c + 1)) (ipi_count s)) (go s) (main s) (put_at t HNone (isr s))
  end.
Definition main_step (t : nat) (s : mt_ipi_state) : mt_ipi_state :=
  let goto p := mkipi (msip s) (ipi_count s) (go s) (put_at t p (main s)) (isr s) in
  match main s t with
  | MSend r u => mkipi (put_at u 1 (msip s)) (ipi_count s) (go s) (put_at t (MWait r u 0) (main s)) (isr s)
  | MWait r u n => goto (if ipi_count s u <? r then (if SPIN_TIMEOUT <? n then MFail (MWait r u n) else MWait r u (n + 1)) else after_send r u)
  | MGo u => mkipi (msip s) (ipi_count s) (Z.of_nat u) (put_at t (MBack u 0) (main s)) (isr s)
  | MBack u n => goto (if ipi_count s 0%nat <? Z.of_nat u then (if SPIN_TIMEOUT <? n then MFail (MBack u n) else MBack u (n + 1)) else first_go (S u))
  | RWait n => goto (if ipi_count s t <? ROUNDS then (if SPIN_TIMEOUT <? n then MFail (RWait n) else RWait (n + 1)) else RTurn)
  | RTurn => if go s =? Z.of_nat t then goto RSend else s
  | RSend => mkipi (put_at 0%nat 1 (msip s)) (ipi_count s) (go s) (put_at t MBarrier (main s)) (isr s)
  | MBarrier | MFail _ => s
  end.
(** A step of hart [t]; [irq]: a pending interrupt is taken. *)
Definition ipi_step (who : nat * bool) (s : mt_ipi_state) : mt_ipi_state :=
  let '(t, irq) := who in
  if (t <? nc)%nat then
    match isr s t with
    | HNone => if irq && negb (msip s t =? 0) then isr_step t s else main_step t s
    | _ => isr_step t s
    end
  else s.
Definition mt_ipi_start : mt_ipi_state := mkipi (fun _ => 0) (fun _ => 0) 0 (fun t => if (t =? 0)%nat then first_send 1 else RWait 0) (fun _ => HNone).
Definition mt_ipi_run (sched : list (nat * bool)) : mt_ipi_state := exec ipi_step sched mt_ipi_start.

Definition ipi_ok (s : mt_ipi_state) : bool := (ipi_count s 0%nat =? Z.of_nat nc - 1) && forallb (fun t => ipi_count s t =? ROUNDS) (seq 1 (nc - 1)).
Definition counts_text (s : mt_ipi_state) : list (option (list Z)) :=
  List.concat (map (fun i => [uart_send_integer (s32 (ipi_count s i)); send (if (i =? 3)%nat then [10] else str ",")]) (seq 0 4)).
Definition mt_ipi_report (s : mt_ipi_state) : option (list Z) * Z :=
  (out_seq (send (str "mt-ipi: counts=") :: counts_text s ++ [send (if ipi_ok s then str "mt-ipi: PASS" ++ [10] else str "mt-ipi: FAIL counts" ++ [10])]), if ipi_ok s then 0 else 1).
(** [fail(what, hart)], before [exit(1)]. *)
Definition ipi_fail (what : list Z) (hart : Z) (s : mt_ipi_state) : option (list Z) :=
  out_seq ([send (str "mt-ipi: FAIL "); send what; send (str " hart="); uart_send_integer hart; send (str " counts=")] ++ counts_text s).

(** The rings sent to hart [t > 0]. *)
Fixpoint sent (p : main_pc) (t : nat) : Z :=
  match p with
  | MSend r u => if (t <? u)%nat then r else r - 1
  | MWait r u _ => if (t <=? u)%nat then r else r - 1
  | MFail p => sent p t
  | _ => ROUNDS
  end.
(** Rings on their way: the pending bit, and the handler between its two stores. *)
Definition underway (s : mt_ipi_state) (t : nat) : Z :=
  msip s t + match isr s t with HRead | HLoad | HStore _ => 1 | _ => 0 end.
Definition at_barrier (p : main_pc) : bool := match p with MBarrier => true | _ => false end.
(** The rings sent to hart 0: a secondary is at the last barrier when it has rung. *)
Definition rung (s : mt_ipi_state) : Z := Z.of_nat (List.length (List.filter (fun t => at_barrier (main s t)) (seq 1 (nc - 1)))).
(** The secondaries that have had their turn. *)
Fixpoint turns (s : mt_ipi_state) (p : main_pc) : Z :=
  match p with
  | MGo t => Z.of_nat t - 1
  | MBack t _ => Z.of_nat t - 1 + (if at_barrier (main s t) then 1 else 0)
  | MBarrier => Z.of_nat nc - 1
  | MFail p => turns s p
  | _ => 0
  end.
Definition delivered (s : mt_ipi_state) (t : nat) (n : Z) : Prop :=
  n = ipi_count s t + underway s t /\ 0 <= ipi_count s t /\ (msip s t = 0 \/ msip s t = 1) /\
  (isr s t = HClear -> msip s t = 1) /\ (forall c, isr s t = HStore c -> c = ipi_count s t).

(** Where hart 0 is: what it has waited for, and who has had its turn. *)
Fixpoint leader (s : mt_ipi_state) (p : main_pc) : Prop :=
  match p with
  | MSend r u => 1 <= r <= ROUNDS /\ (1 <= u < nc)%nat /\ (forall t, (1 <= t < nc)%nat -> ipi_count s t = sent p t) /\ go s = 0
  | MWait r u _ => 1 <= r <= ROUNDS /\ (1 <= u < nc)%nat /\ (forall t, (1 <= t < nc)%nat -> t <> u -> ipi_count s t = sent p t) /\ go s = 0 /\ r - 1 <= ipi_count s u
  | MGo t => (1 <= t < nc)%nat /\ (forall u, (1 <= u < nc)%nat -> ipi_count s u = ROUNDS) /\ go s = Z.of_nat t - 1 /\ ipi_count s 0%nat = Z.of_nat t - 1
  | MBack t _ => (1 <= t < nc)%nat /\ (forall u, (1 <= u < nc)%nat -> ipi_count s u = ROUNDS) /\ go s = Z.of_nat t /\ Z.of_nat t - 1 <= ipi_count s 0%nat
  | MBarrier => (forall u, (1 <= u < nc)%nat -> ipi_count s u = ROUNDS) /\ ipi_count s 0%nat = Z.of_nat nc - 1
  | MFail p => leader s p
  | _ => False
  end.
(** Hart 0 has handed out the turn of [t] and not seen it used; or it is past it. *)
Fixpoint turn_of (p : main_pc) (t : nat) : Prop := match p with MBack u _ => u = t | MFail p => turn_of p t | _ => False end.
Fixpoint past (p : main_pc) (t : nat) : Prop := match p with MGo u | MBack u _ => (t < u)%nat | MBarrier => True | MFail p => past p t | _ => False end.
Definition follower (s : mt_ipi_state) (t : nat) : Prop :=
  match main s t with
  | RWait _ | MFail (RWait _) | RTurn => ~ past (main s 0%nat) t
  | RSend => turn_of (main s 0%nat) t
  | MBarrier => turn_of (main s 0%nat) t \/ past (main s 0%nat) t
  | _ => False
  end.
Definition ipi_inv (s : mt_ipi_state) : Prop :=
  leader s (main s 0%nat) /\ delivered s 0%nat (turns s (main s 0%nat)) /\
  forall t, (1 <= t < nc)%nat -> delivered s t (sent (main s 0%nat) t) /\ follower s t.

Context (Hnc : (1 <= nc)%nat) (Hsmall : Z.of_nat nc < 2 ^ 31) (Hrounds : 0 <= ROUNDS < 2 ^ 63).

Lemma sent_bound s p t : leader s p -> sent p t <= ROUNDS.
Proof. induction p; cbn [leader sent]; intros Hl; try lia; [destruct (_ <? _)%nat|destruct (_ <=? _)%nat|auto]; lia. Qed.
Lemma turns_bound s p : leader s p -> 0 <= turns s p <= Z.of_nat nc.
Proof. induction p; cbn [leader turns]; intros Hl; try lia; [destruct (at_barrier _); lia|auto]. Qed.
Lemma delivered_ext s s' t n : msip s' t = msip s t -> ipi_count s' t = ipi_count s t -> isr s' t = isr s t -> delivered s t n -> delivered s' t n.
Proof. unfold delivered, underway. intros -> -> ->. exact id. Qed.
Lemma leader_ext s s' p : go s' = go s -> (forall t, (t < nc)%nat -> ipi_count s' t = ipi_count s t) -> leader s p -> leader s' p.
Proof.
  intros Eg Ec. induction p; cbn [leader]; rewrite ?Eg; intros Hl; try exact Hl; try (apply IHp, Hl); rewrite ?Ec by lia; intuition; rewrite Ec by lia; auto.
Qed.
Lemma turns_ext s s' p : (forall t, main s' t = main s t) -> turns s' p = turns s p.
Proof. intros Em. induction p; cbn [turns]; rewrite ?Em; auto. Qed.
Lemma underway_nonneg s t n : delivered s t n -> 0 <= underway s t.
Proof. intros (_ & _ & Hm & _). unfold underway. destruct (isr s t); lia. Qed.

(** *** The handler *)

(** What it does to the deliveries of its hart: nothing, up to the moment it counts. *)
Lemma isr_delivered s t n : 0 <= n < 2 ^ 64 -> (isr s t = HNone -> msip s t = 1) -> delivered s t n -> delivered (isr_step t s) t n.
Proof.
  intros Hn Hpend (En & Hc & Hm & Hcl & Hst). unfold delivered, underway, isr_step in *. destruct (isr s t) as [| | | |c] eqn:E; cbn [msip ipi_count isr]; rewrite ?put_eq.
  - specialize (Hpend eq_refl). repeat split; try lia; try congruence; try discriminate.
  - specialize (Hcl eq_refl). repeat split; try lia; try discriminate.
  - repeat split; try lia; try discriminate.
  - repeat split; try lia; try discriminate. intros c Ec. injection Ec as <-. reflexivity.
  - rewrite (Hst c eq_refl) in *. rewrite u64_id by (unfold is_u64; lia). repeat split; try lia; discriminate.
Qed.
Lemma isr_other s t u n : u <> t -> delivered s u n -> delivered (isr_step t s) u n.
Proof. intros Hne. apply delivered_ext; unfold isr_step; destruct (isr s t); cbn [msip ipi_count isr]; try reflexivity; apply put_ne; exact Hne. Qed.
Lemma isr_count s t u : ipi_count (isr_step t s) u = ipi_count s u \/ u = t /\ exists c, isr s t = HStore c.
Proof.
  unfold isr_step. destruct (isr s t) as [| | | |c]; cbn [ipi_count]; auto. destruct (decide (u = t)) as [->|Hne]; [right; eauto|left; apply put_ne; exact Hne].
Qed.
(** A hart whose rings have all been counted is not in the middle of its handler. *)
Lemma settled_not_storing s t n c : delivered s t n -> ipi_count s t = n -> isr s t <> HStore c.
Proof. intros (En & _ & Hm & _) Hs E. unfold underway in En. rewrite E in En. lia. Qed.
Lemma isr_settled s t u n : delivered s u n -> ipi_count s u = n -> ipi_count (isr_step t s) u = n.
Proof.
  intros Hd Hs. destruct (isr_count s t u) as [->|[-> [c Ec]]]; [exact Hs|]. exfalso. exact (settled_not_storing s t n c Hd Hs Ec).
Qed.
Lemma isr_count_mono s t u n : n < 2 ^ 64 -> delivered s u n -> ipi_count s u <= ipi_count (isr_step t s) u.
Proof.
  intros Hn (En & Hc & Hm & _ & Hst). unfold isr_step. destruct (isr s t) as [| | | |c] eqn:E; cbn [ipi_count]; try lia. unfold put_at. destruct (Nat.eqb_spec u t) as [->|]; [|lia].
  rewrite (Hst c E) in *. unfold underway in En. rewrite E in En. rewrite u64_id by (unfold is_u64; lia). lia.
Qed.
Lemma isr_leader s t p : (forall u, (1 <= u < nc)%nat -> delivered s u (sent p u)) -> delivered s 0%nat (turns s p) -> leader s p -> leader (isr_step t s) p.
Proof.
  assert (Eg : go (isr_step t s) = go s) by (unfold isr_step; destruct (isr s t); reflexivity).
  induction p as [r u|r u n|u|u n|n| | | |p IH]; cbn [leader]; rewrite ?Eg; intros Hd H0 Hl; try exact Hl.
  - destruct Hl as (H1 & H2 & H3 & H4). repeat split; try lia. intros v Hv. apply isr_settled; [exact (Hd v Hv)|exact (H3 v Hv)].
  - destruct Hl as (H1 & H2 & H3 & H4 & H5). repeat split; try lia; [intros v Hv Hne; apply isr_settled; [exact (Hd v Hv)|exact (H3 v Hv Hne)]|].
    assert (Hb : sent (MWait r u n) u < 2 ^ 64) by (cbn [sent]; destruct (_ <=? _)%nat; lia). pose proof (isr_count_mono s t u _ Hb (Hd u H2)). lia.
  - destruct Hl as (H1 & H2 & H3 & H4). repeat split; try lia; [intros v Hv; apply isr_settled; [exact (Hd v Hv)|exact (H2 v Hv)]|apply isr_settled; [exact H0|exact H4]].
  - destruct Hl as (H1 & H2 & H3 & H4). repeat split; try lia; [intros v Hv; apply isr_settled; [exact (Hd v Hv)|exact (H2 v Hv)]|].
    assert (Hb : turns s (MBack u n) < 2 ^ 64) by (cbn [turns]; destruct (at_barrier _); lia). pose proof (isr_count_mono s t 0%nat _ Hb H0). lia.
  - destruct Hl as (H1 & H2). split; [intros v Hv; apply isr_settled; [exact (Hd v Hv)|exact (H1 v Hv)]|apply isr_settled; [exact H0|exact H2]].
  - exact (IH Hd H0 Hl).
Qed.
Lemma isr_inv s t : (t < nc)%nat -> (isr s t = HNone -> msip s t <> 0) -> ipi_inv s -> ipi_inv (isr_step t s).
Proof.
  intros Ht Hp (Hl & H0 & Hs). assert (Em : forall u, main (isr_step t s) u = main s u) by (intros u; unfold isr_step; destruct (isr s t); reflexivity).
  assert (Hdel : forall u n, n < 2 ^ 64 -> delivered s u n -> delivered (isr_step t s) u n).
  { intros u n Hn Hd. destruct (decide (u = t)) as [->|Hne]; [|now apply isr_other]. apply isr_delivered; [|intros E; specialize (Hp E); destruct Hd as (_ & _ & [H1|H1] & _); [contradiction|exact H1]|exact Hd].
    pose proof (underway_nonneg _ _ _ Hd). destruct Hd as (En & Hc & _). lia. }
  pose proof (turns_bound s _ Hl) as Hb. unfold ipi_inv. rewrite (Em 0%nat), (turns_ext s (isr_step t s) _ Em). split; [|split].
  - apply isr_leader; [|exact H0|exact Hl]. intros u Hu. apply Hs, Hu.
  - apply Hdel; [lia|exact H0].
  - intros u Hu. destruct (Hs u Hu) as [H1 H2]. pose proof (sent_bound s _ u Hl). split; [apply Hdel; [lia|exact H1]|]. unfold follower. rewrite !Em. exact H2.
Qed.

(** *** Hart 0 *)

Lemma ring_delivered s t n k : delivered s t n -> ipi_count s t = n -> msip k t = 1 -> ipi_count k t = ipi_count s t -> isr k t = isr s t -> delivered k t (n + 1).
Proof.
  intros (En & Hc & Hm & Hcl & Hst) Hs Hk Ec Ei. unfold delivered, underway in *. rewrite Hk, Ec, Ei. rewrite Hs in En.
  destruct (isr s t) eqn:E; repeat split; try lia; try discriminate.
Qed.
(** The counters and the deliveries stay, hart 0 goes on to [p]. *)
Lemma leader_step s k p : (forall t, (t < nc)%nat -> msip k t = msip s t /\ ipi_count k t = ipi_count s t /\ isr k t = isr s t) -> main k 0%nat = p -> (forall t, (1 <= t)%nat -> main k t = main s t) ->
  leader k p -> turns k p = turns s (main s 0%nat) -> (forall t, (1 <= t < nc)%nat -> sent p t = sent (main s 0%nat) t) ->
  (forall t, (1 <= t < nc)%nat -> follower s t -> follower k t) -> ipi_inv s -> ipi_inv k.
Proof.
  intros Hsame Em0 Em Hl Ht Hsent Hf (_ & H0 & Hs). unfold ipi_inv. rewrite Em0, Ht. split; [exact Hl|]. split.
  - destruct (Hsame 0%nat ltac:(lia)) as (E1 & E2 & E3). revert H0. apply delivered_ext; assumption.
  - intros t Hi. destruct (Hsame t ltac:(lia)) as (E1 & E2 & E3). destruct (Hs t Hi) as [H1 H2]. rewrite Hsent by exact Hi. split; [revert H1; apply delivered_ext; assumption|apply Hf; assumption].
Qed.
Lemma main_0_inv s : ipi_inv s -> ipi_inv (main_step 0 s).
Proof.
  intros Hi. pose proof Hi as (Hl & H0 & Hs). unfold main_step. destruct (main s 0%nat) as [r u|r u n|u|u n|n| | | |p] eqn:E; cbn [leader] in Hl; try contradiction; try exact Hi.
  - destruct Hl as (H1 & H2 & H3 & H4). unfold ipi_inv. cbn [main]. rewrite put_eq. split; [|split].
    + cbn [leader ipi_count go]. repeat split; try lia; [intros t Ht Hne; rewrite H3 by exact Ht; cbn [sent]; destruct (Nat.ltb_spec t u), (Nat.leb_spec t u); lia|].
      rewrite H3 by exact H2. cbn [sent]. rewrite Nat.ltb_irrefl. lia.
    + revert H0. apply delivered_ext; try reflexivity. cbn [msip]. apply put_ne. lia.
    + intros t Ht. destruct (Hs t Ht) as [Hd Hf]. split.
      * destruct (decide (t = u)) as [->|Hne].
        -- replace (sent (MWait r u 0) u) with (sent (MSend r u) u + 1) by (cbn [sent]; rewrite Nat.ltb_irrefl, Nat.leb_refl; lia).
           apply (ring_delivered s u); [exact Hd|apply H3, Ht|cbn [msip]; apply put_eq|reflexivity|reflexivity].
        -- replace (sent (MWait r u 0) t) with (sent (MSend r u) t) by (cbn [sent]; destruct (Nat.ltb_spec t u), (Nat.leb_spec t u); lia).
           revert Hd. apply delivered_ext; try reflexivity. cbn [msip]. now apply put_ne.
      * unfold follower in *. cbn [main]. rewrite put_eq, put_ne by lia. rewrite E in Hf. exact Hf.
  - destruct Hl as (H1 & H2 & H3 & H4 & Hc). destruct (Z.ltb_spec (ipi_count s u) r) as [Hlt|Hge].
    { apply (leader_step s _ (if SPIN_TIMEOUT <? n then MFail (MWait r u n) else MWait r u (n + 1))); try exact Hi; cbn [msip ipi_count isr main].
      - auto.
      - apply put_eq.
      - intros t Ht. apply put_ne. lia.
      - destruct (_ <? _); cbn [leader ipi_count go]; repeat split; try lia; exact H3 || exact Hc.
      - rewrite E. destruct (_ <? _); reflexivity.
      - intros t Ht. rewrite E. destruct (_ <? _); reflexivity.
      - intros t Ht Hf. unfold follower in *. cbn [main]. rewrite put_eq, put_ne by lia. rewrite E in Hf. destruct (_ <? _); exact Hf. }
    assert (Eu : ipi_count s u = r).
    { destruct (Hs u H2) as [Hd _]. pose proof (underway_nonneg _ _ _ Hd). destruct Hd as [En _]. cbn [sent] in En. rewrite Nat.leb_refl in En. lia. }
    assert (Hall : forall t, (1 <= t < nc)%nat -> ipi_count s t = if (t <=? u)%nat then r else r - 1).
    { intros t Ht. destruct (decide (t = u)) as [->|Hne]; [rewrite Nat.leb_refl; exact Eu|]. rewrite H3 by assumption. reflexivity. }
    assert (Hc0 : ipi_count s 0%nat = 0) by (cbn [turns] in H0; pose proof (underway_nonneg _ _ _ H0); destruct H0 as (En & Hp & _); lia).
    assert (Hcase : (S u < nc)%nat /\ after_send r u = MSend r (S u) \/ S u = nc /\ r + 1 <= ROUNDS /\ after_send r u = MSend (r + 1) 1 \/ S u = nc /\ r = ROUNDS /\ after_send r u = MGo 1).
    { unfold after_send, first_send, first_go. destruct (Nat.ltb_spec (S u) nc); [left; auto|right]. rewrite (proj2 (Nat.ltb_lt 1 nc)) by lia.
      destruct (Z.leb_spec (r + 1) ROUNDS); cbn [andb]; [left|right]; repeat split; lia. }
    apply (leader_step s _ (after_send r u)); try exact Hi; cbn [msip ipi_count isr main]; [auto|apply put_eq|intros t Ht; apply put_ne; lia| | | |].
    + destruct Hcase as [[H5 ->]|[(H5 & H6 & ->)|(H5 & H6 & ->)]]; cbn [leader ipi_count go sent]; repeat split; try lia; intros t Ht; rewrite Hall by exact Ht;
        destruct (Nat.leb_spec t u); try lia; [destruct (Nat.ltb_spec t (S u)); lia..|destruct (Nat.ltb_spec t 1); lia].
    + rewrite E. destruct Hcase as [[H5 ->]|[(H5 & H6 & ->)|(H5 & H6 & ->)]]; reflexivity.
    + intros t Ht. rewrite E. cbn [sent]. destruct Hcase as [[H5 ->]|[(H5 & H6 & ->)|(H5 & H6 & ->)]]; cbn [sent]; destruct (Nat.leb_spec t u); try lia; [destruct (Nat.ltb_spec t (S u)); lia..|destruct (Nat.ltb_spec t 1); lia].
    + intros t Ht Hf. unfold follower in *. cbn [main]. rewrite put_eq, put_ne by lia. rewrite E in Hf. cbn [past turn_of] in Hf.
      assert (Hp : ~ past (after_send r u) t) by (destruct Hcase as [[H5 ->]|[(H5 & H6 & ->)|(H5 & H6 & ->)]]; cbn [past]; lia). destruct (main s t) as [| | | |n'| | | |q]; try tauto; destruct q; tauto.
  - destruct Hl as (H1 & H2 & H3 & H4). assert (Hbar : at_barrier (main s u) = false).
    { destruct (Hs u H1) as [_ Hf]. unfold follower in Hf. rewrite E in Hf. cbn [past turn_of] in Hf. destruct (main s u); try reflexivity. lia. }
    unfold ipi_inv. cbn [main]. rewrite put_eq. split; [|split].
    + cbn [leader ipi_count go]. repeat split; try lia. exact H2.
    + cbn [turns main]. rewrite put_ne, Hbar by lia. rewrite Z.add_0_r. revert H0. apply delivered_ext; reflexivity.
    + intros t Ht. destruct (Hs t Ht) as [Hd Hf]. split; [revert Hd; apply delivered_ext; reflexivity|]. unfold follower in *. cbn [main]. rewrite put_eq, put_ne by lia. rewrite E in Hf. cbn [past turn_of] in *.
      destruct (main s t) as [| | | |n'| | | |q]; try tauto; destruct q; tauto.
  - destruct Hl as (H1 & H2 & H3 & H4). destruct (Z.ltb_spec (ipi_count s 0%nat) (Z.of_nat u)) as [Hlt|Hge].
    { apply (leader_step s _ (if SPIN_TIMEOUT <? n then MFail (MBack u n) else MBack u (n + 1))); try exact Hi; cbn [msip ipi_count isr main].
      - auto.
      - apply put_eq.
      - intros t Ht. apply put_ne. lia.
      - destruct (_ <? _); cbn [leader ipi_count go]; repeat split; try lia; exact H2.
      - rewrite E. destruct (_ <? _); cbn [turns main]; rewrite put_ne by lia; reflexivity.
      - intros t Ht. rewrite E. destruct (_ <? _); reflexivity.
      - intros t Ht Hf. unfold follower in *. cbn [main]. rewrite put_eq, put_ne by lia. rewrite E in Hf. destruct (_ <? _); exact Hf. }
    assert (Hback : at_barrier (main s u) = true /\ ipi_count s 0%nat = Z.of_nat u).
    { pose proof (underway_nonneg _ _ _ H0). destruct H0 as (En & _). cbn [turns] in En. destruct (at_barrier (main s u)); [split; [reflexivity|lia]|lia]. }
    destruct Hback as [Hbar Hc0]. assert (Emu : main s u = MBarrier) by (destruct (main s u); try discriminate; reflexivity).
    assert (Hcase : (S u < nc)%nat /\ first_go (S u) = MGo (S u) \/ S u = nc /\ first_go (S u) = MBarrier) by (unfold first_go; destruct (Nat.ltb_spec (S u) nc); [left|right]; split; lia || reflexivity).
    apply (leader_step s _ (first_go (S u))); try exact Hi; cbn [msip ipi_count isr main]; [auto|apply put_eq|intros t Ht; apply put_ne; lia| | | |].
    + destruct Hcase as [[H5 ->]|[H5 ->]]; cbn [leader ipi_count go]; repeat split; try lia; exact H2.
    + rewrite E. cbn [turns]. rewrite Hbar. destruct Hcase as [[H5 ->]|[H5 ->]]; cbn [turns]; lia.
    + intros t Ht. rewrite E. destruct Hcase as [[H5 ->]|[H5 ->]]; reflexivity.
    + intros t Ht Hf. unfold follower in *. cbn [main]. rewrite put_eq, put_ne by lia. rewrite E in Hf. cbn [past turn_of] in Hf.
      assert (Hp : past (first_go (S u)) t <-> (t < S u)%nat) by (destruct Hcase as [[H5 ->]|[H5 ->]]; cbn [past]; [reflexivity|split; [lia|tauto]]).
      destruct (decide (t = u)) as [->|Hne]; [rewrite Emu in *; right; apply Hp; lia|].
      destruct (main s t) as [| | | |n'| | | |q]; first [tauto|rewrite Hp; lia|exfalso; congruence|right; apply Hp; lia|destruct q; first [tauto|rewrite Hp; lia]].
Qed.

(** *** The others *)

Lemma leader_gap s p t : leader s p -> (1 <= t < nc)%nat -> sent p t <= ipi_count s t + 1.
Proof.
  intros Hl Ht. induction p as [r u|r u n|u|u n|n| | | |p IH]; cbn [leader] in Hl; try contradiction; [| | | | |exact (IH Hl)].
  - destruct Hl as (_ & _ & H3 & _). rewrite H3 by exact Ht. lia.
  - destruct Hl as (_ & _ & H3 & _ & H5). destruct (decide (t = u)) as [->|Hne]; [cbn [sent]; rewrite Nat.leb_refl; lia|rewrite H3 by assumption; lia].
  - destruct Hl as (_ & H3 & _). rewrite H3 by exact Ht. cbn [sent]. lia.
  - destruct Hl as (_ & H3 & _). rewrite H3 by exact Ht. cbn [sent]. lia.
  - destruct Hl as (H3 & _). rewrite H3 by exact Ht. cbn [sent]. lia.
Qed.

Lemma turns_gap s p : leader s p -> 0 <= ipi_count s 0%nat -> turns s p <= ipi_count s 0%nat + 1.
Proof. induction p; cbn [leader turns]; intros Hl Hc; try lia; [destruct (at_barrier _); lia|auto]. Qed.
Lemma turn_given s p t : leader s p -> go s = Z.of_nat t -> (1 <= t < nc)%nat -> ~ past p t -> turn_of p t.
Proof. intros Hl Hg Ht. induction p; cbn [leader past turn_of] in *; try lia; try tauto. Qed.
Lemma turn_taken s k p t : leader s p -> turn_of p t -> at_barrier (main s t) = false -> at_barrier (main k t) = true -> turns k p = turns s p + 1 /\ turns s p <= ipi_count s 0%nat.
Proof.
  intros Hl Ht Hb Hk. induction p; cbn [leader turns turn_of] in *; try contradiction; [|auto]. subst t0. rewrite Hb, Hk. lia.
Qed.
Lemma turns_same s k p : (forall u, at_barrier (main k u) = at_barrier (main s u)) -> turns k p = turns s p.
Proof. intros Hb. induction p; cbn [turns]; rewrite ?Hb; auto. Qed.

(** A secondary moves without ringing. *)
Lemma follower_step s t p : (1 <= t < nc)%nat -> at_barrier p = at_barrier (main s t) ->
  follower (mkipi (msip s) (ipi_count s) (go s) (put_at t p (main s)) (isr s)) t -> ipi_inv s -> ipi_inv (mkipi (msip s) (ipi_count s) (go s) (put_at t p (main s)) (isr s)).
Proof.
  intros Ht Hb Hf (Hl & H0 & Hs). set (k := mkipi _ _ _ _ _) in *. assert (E0 : main k 0%nat = main s 0%nat) by (apply put_ne; lia).
  unfold ipi_inv. rewrite E0. split; [revert Hl; apply leader_ext; reflexivity|]. split.
  - rewrite (turns_same s k); [revert H0; apply delivered_ext; reflexivity|]. intros u. unfold k. cbn [main]. unfold put_at. destruct (Nat.eqb_spec u t) as [->|]; [exact Hb|reflexivity].
  - intros u Hu. destruct (Hs u Hu) as [H1 H2]. split; [revert H1; apply delivered_ext; reflexivity|]. destruct (decide (u = t)) as [->|Hne]; [exact Hf|].
    unfold follower in *. rewrite E0. unfold k. cbn [main]. rewrite put_ne by exact Hne. exact H2.
Qed.
Lemma main_t_inv s t : (1 <= t < nc)%nat -> ipi_inv s -> ipi_inv (main_step t s).
Proof.
  intros Ht Hi. pose proof Hi as (Hl & H0 & Hs). destruct (Hs t Ht) as [_ Hf]. unfold main_step.
  assert (E0 : forall p, put_at t p (main s) 0%nat = main s 0%nat) by (intros p; apply put_ne; lia).
  destruct (main s t) as [r u|r u n|u|u n|n| | | |q] eqn:E; unfold follower in Hf; rewrite E in Hf; try contradiction; try exact Hi.
  - apply follower_step; [exact Ht|rewrite E; destruct (_ <? ROUNDS); [destruct (_ <? _)|]; reflexivity| |exact Hi]. unfold follower. cbn [main]. rewrite put_eq, E0. destruct (_ <? ROUNDS); [destruct (_ <? _)|]; exact Hf.
  - destruct (Z.eqb_spec (go s) (Z.of_nat t)) as [Eg|]; [|exact Hi]. apply follower_step; [exact Ht|rewrite E; reflexivity| |exact Hi]. unfold follower. cbn [main]. rewrite put_eq, E0.
    exact (turn_given s _ t Hl Eg Ht Hf).
  - set (k := mkipi _ _ _ _ _). assert (Ek0 : main k 0%nat = main s 0%nat) by apply E0.
    destruct (turn_taken s k (main s 0%nat) t Hl Hf) as [Et Hc]; [rewrite E; reflexivity|unfold k; cbn [main]; rewrite put_eq; reflexivity|].
    unfold ipi_inv. rewrite Ek0, Et. split; [revert Hl; apply leader_ext; reflexivity|]. split.
    + apply (ring_delivered s 0%nat); [exact H0| |apply put_eq|reflexivity|reflexivity]. pose proof (underway_nonneg _ _ _ H0). destruct H0 as [En _]. lia.
    + intros u Hu. destruct (Hs u Hu) as [H1 H2]. split; [revert H1; apply delivered_ext; try reflexivity; apply put_ne; lia|].
      unfold follower in *. rewrite Ek0. unfold k. cbn [main]. destruct (decide (u = t)) as [->|Hne]; [rewrite put_eq; now left|rewrite put_ne by exact Hne; exact H2].
Qed.

Lemma ipi_step_inv s who : ipi_inv s -> ipi_inv (ipi_step who s).
Proof.
  intros Hi. destruct who as [t irq]. unfold ipi_step. destruct (Nat.ltb_spec t nc) as [Ht|]; [|exact Hi].
  assert (Hm : ipi_inv (main_step t s)) by (destruct (decide (t = 0)%nat) as [->|]; [now apply main_0_inv|apply main_t_inv; [lia|exact Hi]]).
  destruct (isr s t) eqn:E; [destruct irq; cbn [andb]; [destruct (Z.eqb_spec (msip s t) 0); cbn [negb]|]; [exact Hm| |exact Hm]|..]; apply isr_inv; try assumption; intros; congruence.
Qed.
Lemma ipi_start_inv : ipi_inv mt_ipi_start.
Proof.
  unfold ipi_inv. cbn [mt_ipi_start main]. rewrite Nat.eqb_refl. assert (Hcase : (1 < nc)%nat /\ 1 <= ROUNDS /\ first_send 1 = MSend 1 1 \/ (1 < nc)%nat /\ ROUNDS = 0 /\ first_send 1 = MGo 1 \/ nc = 1%nat /\ first_send 1 = MBarrier).
  { unfold first_send, first_go. destruct (Z.leb_spec 1 ROUNDS), (Nat.ltb_spec 1 nc); cbn [andb]; [left|right; right|right; left|right; right]; repeat split; lia || reflexivity. }
  assert (Hz : forall t, delivered mt_ipi_start t 0) by (intros t; unfold delivered, underway; cbn; repeat split; try lia; discriminate).
  destruct Hcase as [(H1 & H2 & ->)|[(H1 & H2 & ->)|(H1 & ->)]]; cbn [leader turns sent].
  - split; [repeat split; try lia; intros t Ht; destruct (Nat.ltb_spec t 1); cbn; lia|]. split; [apply Hz|]. intros t Ht. split; [destruct (Nat.ltb_spec t 1); [lia|apply Hz]|].
    unfold follower. cbn [mt_ipi_start main]. rewrite Nat.eqb_refl. destruct (Nat.eqb_spec t 0); [lia|]. unfold first_send. rewrite (proj2 (Z.leb_le 1 ROUNDS)), (proj2 (Nat.ltb_lt 1 nc)) by lia. exact id.
  - split; [repeat split; try lia; intros t Ht; cbn; lia|]. split; [apply Hz|]. intros t Ht. rewrite H2. split; [apply Hz|].
    unfold follower. cbn [mt_ipi_start main]. rewrite Nat.eqb_refl. destruct (Nat.eqb_spec t 0); [lia|]. unfold first_send. rewrite (proj2 (Z.leb_gt 1 ROUNDS)) by lia. cbn [andb]. unfold first_go. rewrite (proj2 (Nat.ltb_lt 1 nc)) by lia. cbn [past]. lia.
  - split; [split; [lia|cbn; lia]|]. split; [rewrite H1; apply Hz|]. lia.
Qed.
(** The rings sent to hart 0 are those hart 0 knows of and that of the secondary whose turn it is. *)
Lemma rung_split s k (b : bool) : (1 <= k <= nc)%nat -> (forall t, (1 <= t < k)%nat -> at_barrier (main s t) = true) ->
  (forall t, (k < t < nc)%nat -> at_barrier (main s t) = false) -> ((k < nc)%nat -> at_barrier (main s k) = b) -> ((k = nc)%nat -> b = false) ->
  rung s = Z.of_nat k - 1 + (if b then 1 else 0).
Proof.
  intros Hk Hlow Hhigh Hb Hn. unfold rung. replace (nc - 1)%nat with ((k - 1) + (nc - k))%nat by lia. rewrite seq_app, List.filter_app, length_app.
  rewrite forallb_filter_id by (apply forallb_forall; intros t Ht; apply in_seq in Ht; apply Hlow; lia). rewrite length_seq.
  replace (1 + (k - 1))%nat with k by lia. destruct (Nat.eq_dec k nc) as [->|Hne].
  - rewrite Nat.sub_diag. rewrite (Hn eq_refl). cbn [seq List.filter List.length]. lia.
  - replace (nc - k)%nat with (S (nc - k - 1)) by lia. cbn [seq List.filter]. rewrite (Hb ltac:(lia)).
    assert (E : List.filter (fun t => at_barrier (main s t)) (seq (S k) (nc - k - 1)) = []).
    { generalize (nc - k - 1)%nat, (S k) as j, (le_n (S k) : (k < S k)%nat), (ltac:(lia) : (S k + (nc - k - 1) <= nc)%nat).
      intros n. induction n as [|n IH]; intros j Hj Hjn; [reflexivity|]. cbn [seq List.filter]. rewrite Hhigh by lia. apply IH; lia. }
    rewrite E. destruct b; cbn [List.length]; lia.
Qed.
Lemma rung_turns s : ipi_inv s -> rung s = turns s (main s 0%nat).
Proof.
  intros (Hl & _ & Hs). assert (Hbar : forall t, (1 <= t < nc)%nat -> at_barrier (main s t) = true -> turn_of (main s 0%nat) t \/ past (main s 0%nat) t).
  { intros t Ht. destruct (Hs t Ht) as [_ Hf]. unfold follower in Hf. destruct (main s t); try discriminate. intros _. exact Hf. }
  assert (Hpast : forall t, (1 <= t < nc)%nat -> past (main s 0%nat) t -> ~ turn_of (main s 0%nat) t -> at_barrier (main s t) = true).
  { intros t Ht Hp Hn. destruct (Hs t Ht) as [_ Hf]. unfold follower in Hf. destruct (main s t) as [| | | | | | | |q]; try contradiction; [reflexivity|]. destruct q; contradiction. }
  clear Hs. revert Hl Hbar Hpast. generalize (main s 0%nat) as p. induction p as [r u|r u n|u|u n|n| | | |p IH]; cbn [leader turn_of past turns]; intros Hl Hbar Hpast; try contradiction; [| | | | |exact (IH Hl Hbar Hpast)].
  1, 2: rewrite (rung_split s 1 false); [lia|lia|lia|intros t Ht; apply not_true_is_false; intros E; destruct (Hbar t ltac:(lia) E); contradiction
      |intros Hn; apply not_true_is_false; intros E; destruct (Hbar 1%nat ltac:(lia) E); contradiction|reflexivity].
  - destruct Hl as (Hu & _). rewrite (rung_split s u false); [lia|lia|intros t Ht; apply Hpast; lia || tauto|..]; try reflexivity.
    + intros t Ht. apply not_true_is_false. intros E. destruct (Hbar t ltac:(lia) E) as [[]|]. lia.
    + intros _. apply not_true_is_false. intros E. destruct (Hbar u ltac:(lia) E) as [[]|]. lia.
  - destruct Hl as (Hu & _). apply rung_split; [lia|intros t Ht; apply Hpast; lia| |reflexivity|lia].
    intros t Ht. apply not_true_is_false. intros E. destruct (Hbar t ltac:(lia) E); lia.
  - rewrite (rung_split s nc false); [lia|lia|intros t Ht; apply Hpast; lia || tauto|lia|lia|reflexivity].
Qed.
Lemma ipi_reachable sched : ipi_inv (mt_ipi_run sched).
Proof.
  unfold mt_ipi_run. generalize ipi_start_inv. generalize mt_ipi_start as s. induction sched as [|w sched IH]; intros s Hs; [exact Hs|]. apply (IH (ipi_step w s)), ipi_step_inv, Hs.
Qed.
End Ipi.

(** C40: Under every schedule, and however late the interrupts are taken, the rings sent to a
    hart, to each secondary by hart 0 and to hart 0 by the secondaries, are those it has counted
    and one that is pending or that its handler is at, never both; when all harts are at the
    last barrier the counts are exact and the test passes. *)
Theorem ipi_counts_exact ROUNDS SPIN_TIMEOUT nc sched : (1 <= nc)%nat -> Z.of_nat nc < 2 ^ 31 -> 0 <= ROUNDS < 2 ^ 63 ->
  let s := mt_ipi_run ROUNDS SPIN_TIMEOUT nc sched in
  (forall t, (1 <= t < nc)%nat -> sent ROUNDS (main s 0%nat) t = ipi_count s t + underway s t /\ 0 <= underway s t <= 1) /\
  (rung nc s = ipi_count s 0%nat + underway s 0%nat /\ 0 <= underway s 0%nat <= 1) /\
  ((forall t, (t < nc)%nat -> main s t = MBarrier) -> snd (mt_ipi_report ROUNDS nc s) = 0).
Proof.
  intros H1 H2 H3. cbv zeta. pose proof (ipi_reachable ROUNDS SPIN_TIMEOUT nc H1 H2 H3 sched) as Hinv. pose proof (rung_turns ROUNDS nc H1 _ Hinv) as Hr.
  destruct Hinv as (Hl & H0 & Hs). set (s := mt_ipi_run _ _ _ _) in *. split; [|split].
  - intros t Ht. destruct (Hs t Ht) as [Hd _]. assert (0 <= underway s t) by (eapply underway_nonneg; eassumption). split; [exact (proj1 Hd)|]. split; [assumption|].
    assert (sent ROUNDS (main s 0%nat) t <= ipi_count s t + 1) by (eapply leader_gap; eassumption). destruct Hd as [En _]. lia.
  - rewrite Hr. assert (0 <= underway s 0%nat) by (eapply underway_nonneg; eassumption). destruct H0 as (En & Hc & _).
    assert (turns nc s (main s 0%nat) <= ipi_count s 0%nat + 1) by (eapply turns_gap; eassumption). lia.
  - intros Hall. rewrite (Hall 0%nat ltac:(lia)) in Hl. cbn [leader] in Hl. destruct Hl as [Hc H4]. unfold mt_ipi_report, ipi_ok. rewrite H4, Z.eqb_refl. cbn [andb snd].
    assert (E : forallb (fun t => ipi_count s t =? ROUNDS) (seq 1 (nc - 1)) = true); [|rewrite E; reflexivity]. apply forallb_forall. intros t Ht. apply in_seq in Ht. apply Z.eqb_eq, Hc. lia.
Qed.

(** Two rounds on three harts: interrupts taken at once, and none taken by hart 2. *)
Definition promptly : list (nat * bool) := List.concat (repeat [(0, true); (1, true); (2, true)]%nat 80).
Example ipi_two_rounds : let s := mt_ipi_run 2 50 3 promptly in map (main s) (seq 0 3) = [MBarrier; MBarrier; MBarrier] /\ mt_ipi_report 2 3 s = (Some (str "mt-ipi: counts=2,2,2,0" ++ [10] ++ str "mt-ipi: PASS" ++ [10]), 0).
Proof. vm_compute. auto. Qed.
Example ipi_late : main (mt_ipi_run 2 50 3 (List.concat (repeat [(0, true); (1, true); (2, false)]%nat 100))) 0%nat = MFail (MWait 1 2 51).
Proof. vm_compute. reflexivity. Qed.
Lemma ipi_counts_exact_witness : snd (mt_ipi_report 2 3 (mt_ipi_run 2 50 3 promptly)) = 0.
Proof.
  refine (proj2 (proj2 (ipi_counts_exact 2 50 3 promptly _ _ _)) _); [lia|lia|lia|]. intros t Ht. assert (t = 0 \/ t = 1 \/ t = 2)%nat as [->|[->| ->]] by lia; vm_compute; reflexivity.
Defined.
