(* ===== verification/Watch.v ===== *)
(** * What the probes of [sim/harness/probes/] share

    A probe clocks the model and looks at it once per cycle. [post_loop] looks
    after the clock edges, [pre_loop] between [eval] and the edges; the look may
    end the run. Their lemmas turn a run into an induction over the states
    [Firesim.after] of the model. Around that loop the probes have the same few
    devices, each with its specification here: a ring buffer of the last events,
    in the three forms in which they index it; a bounded [std::deque]; a stream of
    committed PCs sampled from a level; a counter of how long a value has stood
    still; bit fields of a wide signal held in 32-bit words. *)

From Stdlib Require String.
From stdpp Require Import sorting.
From S2P Require Import Prelude Rtl Firesim Invariants.

(** ** Lists *)

(** The last [n] elements. *)
Definition lastn {A} (n : nat) (l : list A) : list A := skipn (length l - n) l.

Lemma lastn_all {A} n (l : list A) : (length l <= n)%nat -> lastn n l = l.
Proof. intros Hn. unfold lastn. replace (length l - n)%nat with 0%nat by lia. reflexivity. Qed.
Lemma lastn_length {A} n (l : list A) : length (lastn n l) = Nat.min n (length l).
Proof. unfold lastn. rewrite length_skipn. lia. Qed.
Lemma lastn_app {A} n (l k : list A) : lastn n (lastn n l ++ k) = lastn n (l ++ k).
Proof.
  unfold lastn. rewrite !length_app, length_skipn, !skipn_app, !length_skipn, skipn_skipn. f_equal; f_equal; lia.
Qed.
Lemma lastn_lookup {A} n (l : list A) i : lastn n l !! i = l !! (length l - n + i)%nat.
Proof. unfold lastn. apply lookup_drop. Qed.
Lemma lastn_snoc {A} n (l : list A) x : lastn (S n) (l ++ [x]) = lastn n l ++ [x].
Proof.
  unfold lastn. rewrite length_app. cbn [length]. rewrite skipn_app.
  replace (length l + 1 - S n)%nat with (length l - n)%nat by lia.
  replace (length l - n - length l)%nat with 0%nat by lia. reflexivity.
Qed.

(** ** Clocking *)

(** The edges after [eval]: [tb->clock = 1; tb->eval(); tb->clock = 0; tb->eval()]. *)
Definition edges `{Model} (tb : Vsystem) : Vsystem :=
  let tb := eval { tb with clock := 1 } in eval { tb with clock := 0 }.
Lemma tick_edges `{Model} tb : tick_nodump tb = edges (eval tb).
Proof. reflexivity. Qed.
Lemma after_S `{Model} tb k : after tb (S k) = edges (eval (after tb k)).
Proof. reflexivity. Qed.
Lemma after_add `{Model} tb j k : after (after tb j) k = after tb (j + k).
Proof. unfold after. rewrite Nat.add_comm, Nat.iter_add. reflexivity. Qed.

Section Loop.
Context `{Model} {S R : Type} (more : Z -> bool) (look : Vsystem -> Z -> S -> option R * S).

(** [while (more(cyc)) { eval; edges; ++cyc; look }] *)
Fixpoint post_loop (n : nat) (tb : Vsystem) (cyc : Z) (s : S) : option R * (Vsystem * Z * S) :=
  match n with
  | O => (None, (tb, cyc, s))
  | Datatypes.S n =>
    if more cyc then
      let tb := edges (eval tb) in
      let cyc := u64 (cyc + 1) in
      let '(r, s) := look tb cyc s in
      match r with Some _ => (r, (tb, cyc, s)) | None => post_loop n tb cyc s end
    else (None, (tb, cyc, s))
  end.

(** [while (more(cyc)) { eval; look; edges; ++cyc }] *)
Fixpoint pre_loop (n : nat) (tb : Vsystem) (cyc : Z) (s : S) : option R * (Vsystem * Z * S) :=
  match n with
  | O => (None, (tb, cyc, s))
  | Datatypes.S n =>
    if more cyc then
      let tb := eval tb in
      let '(r, s) := look tb cyc s in
      match r with
      | Some _ => (r, (tb, cyc, s))
      | None => pre_loop n (edges tb) (u64 (cyc + 1)) s
      end
    else (None, (tb, cyc, s))
  end.

Context (tb0 : Vsystem) (cyc0 : Z) (P : nat -> S -> Prop).

(** For an invariant [P] over the number of looks: the loop ran to the end, or look
    number [j + 1] ended it. *)
Lemma post_loop_ran n : forall k s, 0 <= cyc0 -> cyc0 + Z.of_nat (k + n) < 2 ^ 64 ->
  (forall j, (j < k + n)%nat -> more (cyc0 + Z.of_nat j) = true) -> P k s ->
  (forall j s, (j < k + n)%nat -> P j s -> let '(r, s') := look (after tb0 (Datatypes.S j)) (cyc0 + Z.of_nat (Datatypes.S j)) s in r = None -> P (Datatypes.S j) s') ->
  let '(r, (tb', cyc', s')) := post_loop n (after tb0 k) (cyc0 + Z.of_nat k) s in
  match r with
  | None => tb' = after tb0 (k + n) /\ cyc' = cyc0 + Z.of_nat (k + n) /\ P (k + n)%nat s'
  | Some v => exists j s, (k <= j < k + n)%nat /\ tb' = after tb0 (Datatypes.S j) /\ cyc' = cyc0 + Z.of_nat (Datatypes.S j) /\ P j s /\ look tb' cyc' s = (Some v, s')
  end.
Proof.
  induction n as [|n IH]; intros k s Hc Hlt Hmore HP Hstep; cbn [post_loop].
  - rewrite Nat.add_0_r. split; [reflexivity|]. split; [reflexivity|exact HP].
  - rewrite Hmore by lia. cbv zeta. rewrite <- after_S.
    replace (u64 (cyc0 + Z.of_nat k + 1)) with (cyc0 + Z.of_nat (Datatypes.S k)) by (rewrite u64_id by (unfold is_u64; lia); lia).
    pose proof (Hstep k s ltac:(lia) HP) as Hs.
    destruct (look (after tb0 (Datatypes.S k)) (cyc0 + Z.of_nat (Datatypes.S k)) s) as [[v|] s'] eqn:El.
    + exists k, s. split; [lia|]. split; [reflexivity|]. split; [reflexivity|]. split; [exact HP|exact El].
    + specialize (IH (Datatypes.S k) s' Hc ltac:(lia)). rewrite Nat.add_succ_r in Hmore, Hstep.
      specialize (IH Hmore (Hs eq_refl) Hstep). destruct (post_loop _ _ _ _) as [[v|] [[tb' cyc'] s'']].
      * destruct IH as (j & s1 & Hj & H1). exists j, s1. split; [lia|exact H1].
      * rewrite Nat.add_succ_r. exact IH.
Qed.

(** In a [pre_loop] the look number [k + 1] sees [eval (after tb0 k)] at cycle [cyc0 + k]. *)
Lemma pre_loop_ran n : forall k s, 0 <= cyc0 -> cyc0 + Z.of_nat (k + n) < 2 ^ 64 ->
  (forall j, (j < k + n)%nat -> more (cyc0 + Z.of_nat j) = true) -> P k s ->
  (forall j s, (j < k + n)%nat -> P j s -> let '(r, s') := look (eval (after tb0 j)) (cyc0 + Z.of_nat j) s in r = None -> P (Datatypes.S j) s') ->
  let '(r, (tb', cyc', s')) := pre_loop n (after tb0 k) (cyc0 + Z.of_nat k) s in
  match r with
  | None => tb' = after tb0 (k + n) /\ cyc' = cyc0 + Z.of_nat (k + n) /\ P (k + n)%nat s'
  | Some v => exists j s, (k <= j < k + n)%nat /\ tb' = eval (after tb0 j) /\ cyc' = cyc0 + Z.of_nat j /\ P j s /\ look tb' cyc' s = (Some v, s')
  end.
Proof.
  induction n as [|n IH]; intros k s Hc Hlt Hmore HP Hstep; cbn [pre_loop].
  - rewrite Nat.add_0_r. split; [reflexivity|]. split; [reflexivity|exact HP].
  - rewrite Hmore by lia. cbv zeta. pose proof (Hstep k s ltac:(lia) HP) as Hs.
    destruct (look (eval (after tb0 k)) (cyc0 + Z.of_nat k) s) as [[v|] s'] eqn:El.
    + exists k, s. split; [lia|]. split; [reflexivity|]. split; [reflexivity|]. split; [exact HP|exact El].
    + rewrite <- after_S. replace (u64 (cyc0 + Z.of_nat k + 1)) with (cyc0 + Z.of_nat (Datatypes.S k)) by (rewrite u64_id by (unfold is_u64; lia); lia).
      specialize (IH (Datatypes.S k) s' Hc ltac:(lia)). rewrite Nat.add_succ_r in Hmore, Hstep.
      specialize (IH Hmore (Hs eq_refl) Hstep). destruct (pre_loop _ _ _ _) as [[v|] [[tb' cyc'] s'']].
      * destruct IH as (j & s1 & Hj & H1). exists j, s1. split; [lia|exact H1].
      * rewrite Nat.add_succ_r. exact IH.
Qed.
End Loop.

(** [while (cyc < END)] from [cyc0]: this many looks. *)
Definition looks (END cyc0 : Z) : nat := Z.to_nat (END - cyc0).
Lemma looks_more END cyc0 j : (j < looks END cyc0)%nat -> (cyc0 + Z.of_nat j <? END) = true.
Proof. unfold looks. intros Hj. apply Z.ltb_lt. lia. Qed.

(** ** Ring buffers

    [ring[rn % RING] = e; rn++], for a vector of [RING] entries. [holds r l]: the
    buffer has been pushed the events [l], oldest first. *)

Record ring (A : Type) := mkring { slots : list A; count : nat }.
Arguments mkring {A} _ _.
Arguments slots {A} _.
Arguments count {A} _.

Section Ring.
Context {A : Type} (RING : nat) (fill : A).

Definition ring_new : ring A := mkring (replicate RING fill) 0.
Definition rb_push (e : A) (r : ring A) : ring A := mkring (<[(count r mod RING)%nat := e]> (slots r)) (S (count r)).
Definition slot (r : ring A) (i : nat) : A := default fill (slots r !! i).

(** [n = min(rn, RING)], [first = rn < RING ? 0 : rn % RING], then [ring[(first + i) % RING]]. *)
Definition ring_listed (r : ring A) : list A :=
  let n := if (count r <? RING)%nat then count r else RING in
  let first := if (count r <? RING)%nat then 0%nat else (count r mod RING)%nat in
  map (fun i => slot r ((first + i) mod RING)) (seq 0 n).
(** [have = min(rn, RING)], [show = min(have, want)], then [ring[(rn - have + i) % RING]] for [i] from [have - show]. *)
Definition ring_tail (want : nat) (r : ring A) : list A :=
  let have := if (count r <? RING)%nat then count r else RING in
  let show := if (have <? want)%nat then have else want in
  map (fun i => slot r ((count r - have + i) mod RING)) (seq (have - show) show).

Definition holds (r : ring A) (l : list A) : Prop :=
  count r = length l /\ length (slots r) = RING /\
  forall j, (length l - RING <= j < length l)%nat -> slots r !! (j mod RING)%nat = l !! j.

Lemma ring_new_holds : holds ring_new [].
Proof. split; [reflexivity|]. split; [apply length_replicate|]. cbn. intros; lia. Qed.

Lemma mod_distinct i j : (0 < RING)%nat -> (i < j < i + RING)%nat -> (i mod RING <> j mod RING)%nat.
Proof.
  intros HR Hij E. assert (D : ((j - i) mod RING = 0)%nat).
  { rewrite (Nat.div_mod_eq i RING), (Nat.div_mod_eq j RING) at 1. rewrite E.
    replace (RING * (j / RING) + j mod RING - (RING * (i / RING) + j mod RING))%nat with ((j / RING - i / RING) * RING)%nat by nia.
    apply Nat.Div0.mod_mul. }
  rewrite Nat.mod_small in D by lia. lia.
Qed.

Lemma ring_push_holds e r l : (0 < RING)%nat -> holds r l -> holds (rb_push e r) (l ++ [e]).
Proof.
  intros HR (Hc & Hl & Hj). unfold rb_push. split; [cbn; rewrite length_app; cbn; lia|]. split; [cbn; rewrite length_insert; exact Hl|].
  cbn [slots]. rewrite length_app, Hc. cbn [length]. intros j Hr.
  assert (Hm : (length l mod RING < RING)%nat) by (apply Nat.mod_upper_bound; lia).
  destruct (Nat.eq_dec j (length l)) as [->|Hne].
  - rewrite list_lookup_insert_eq by lia. rewrite lookup_app_r by lia. rewrite Nat.sub_diag. reflexivity.
  - rewrite list_lookup_insert_ne by (apply not_eq_sym, mod_distinct; lia). rewrite lookup_app_l by lia. apply Hj. lia.
Qed.

Lemma map_slots r l start n : holds r l -> (length l - RING <= start)%nat -> (start + n <= length l)%nat ->
  map (fun i => slot r (i mod RING)) (seq start n) = firstn n (skipn start l).
Proof.
  intros (_ & _ & Hj) Hs Hn. apply list_eq. intros i. destruct (Nat.lt_ge_cases i n) as [Hi|Hi].
  - rewrite list_lookup_fmap, lookup_seq_lt by lia. cbn. rewrite lookup_take_lt, lookup_drop by lia.
    unfold slot. rewrite Hj by lia. destruct (lookup_lt_is_Some_2 l (start + i)%nat ltac:(lia)) as [x ->]. reflexivity.
  - rewrite !lookup_ge_None_2; [reflexivity|rewrite length_take; lia|rewrite length_fmap, length_seq; lia].
Qed.

Lemma seq_shift_nat a n : map (Nat.add a) (seq 0 n) = seq a n.
Proof.
  induction n as [|n IH]; [reflexivity|]. rewrite !seq_S, map_app, IH, Nat.add_0_l. reflexivity.
Qed.
Lemma map_seq_shift {B} (f : nat -> B) a n : map (fun i => f (a + i)%nat) (seq 0 n) = map f (seq a n).
Proof.
  rewrite <- (seq_shift_nat a n), map_map. reflexivity.
Qed.

(** Both forms list the last events, oldest first. *)
Lemma ring_listed_last r l : (0 < RING)%nat -> holds r l -> ring_listed r = lastn RING l.
Proof.
  intros HR H. pose proof H as (Hc & _ & _). unfold ring_listed. rewrite Hc. destruct (Nat.ltb_spec (length l) RING) as [Hlt|Hge].
  - cbn [Nat.add]. rewrite (map_slots r l 0 (length l) H) by lia. rewrite lastn_all by lia. cbn [skipn]. apply firstn_all.
  - transitivity (map (fun i => slot r (i mod RING)) (seq (length l - RING) RING)).
    + rewrite <- (map_seq_shift (fun i => slot r (i mod RING)) (length l - RING) RING). apply map_ext. intros i. f_equal.
      rewrite Nat.Div0.add_mod_idemp_l. rewrite <- (Nat.Div0.mod_add (length l - RING + i) 1 RING). f_equal. lia.
    + rewrite (map_slots r l _ _ H) by lia. unfold lastn. apply firstn_all2. rewrite length_skipn. lia.
Qed.
Lemma ring_tail_last want r l : (0 < RING)%nat -> holds r l -> ring_tail want r = lastn (Nat.min RING want) l.
Proof.
  intros HR H. pose proof H as (Hc & _ & _). unfold ring_tail. rewrite Hc.
  set (have := if (length l <? RING)%nat then length l else RING). set (show := if (have <? want)%nat then have else want).
  assert (Hh : have = Nat.min (length l) RING) by (subst have; destruct (Nat.ltb_spec (length l) RING); lia).
  assert (Hs : show = Nat.min have want) by (subst show; destruct (Nat.ltb_spec have want); lia).
  transitivity (map (fun i => slot r (i mod RING)) (seq (length l - show) show)).
  - rewrite <- (map_seq_shift (fun i => slot r (i mod RING)) (length l - show) show).
    rewrite <- (map_seq_shift (fun i => slot r ((length l - have + i) mod RING)) (have - show) show).
    apply map_ext. intros i. f_equal. f_equal. lia.
  - rewrite (map_slots r l _ _ H) by lia. unfold lastn. rewrite firstn_all2 by (rewrite length_skipn; lia). f_equal. lia.
Qed.
End Ring.

(** The third form keeps [head = (head + 1) % RING] and the number [nev] of events;
    it lists [ring[(head - i + RING) % RING]] for [i] from [min(nev, KEEP)] down to 1,
    in [int]. [None]: a negative index. *)
Definition ring_back {A} (RING : nat) (fill : A) (keep : nat) (r : ring A) : list (option A) :=
  let n := if (count r <? keep)%nat then count r else keep in
  let head := Z.of_nat (count r mod RING) in
  map (fun i => let k := Z.rem (head - Z.of_nat i + Z.of_nat RING) (Z.of_nat RING) in
                if k <? 0 then None else Some (slot fill r (Z.to_nat k))) (rev (seq 1 n)).

Lemma rev_seq_1 n : rev (seq 1 n) = map (fun i => (n - i)%nat) (seq 0 n).
Proof.
  induction n as [|n IH]; [reflexivity|]. rewrite seq_S, rev_app_distr, IH. cbn [rev app seq map]. rewrite Nat.sub_0_r. f_equal.
  rewrite <- seq_shift, map_map. reflexivity.
Qed.

(** With [KEEP <= RING] it lists the last [KEEP] events too. *)
Lemma ring_back_last {A} RING (fill : A) keep r l : (0 < RING)%nat -> (keep <= RING)%nat -> holds RING r l ->
  ring_back RING fill keep r = map Some (lastn keep l).
Proof.
  intros HR Hk H. pose proof H as (Hc & _ & _). unfold ring_back. rewrite Hc. set (n := if (length l <? keep)%nat then length l else keep).
  assert (Hn : n = Nat.min (length l) keep) by (subst n; destruct (Nat.ltb_spec (length l) keep); lia). rewrite rev_seq_1, map_map.
  transitivity (map (fun i => Some (slot fill r ((length l - n + i) mod RING))) (seq 0 n)).
  - apply map_ext_in. intros i Hi. apply in_seq in Hi. cbv zeta.
    assert (Hm : (length l mod RING < RING)%nat) by (apply Nat.mod_upper_bound; lia).
    rewrite Z.rem_mod_nonneg by lia.
    assert (E : (Z.of_nat (length l mod RING) - Z.of_nat (n - i) + Z.of_nat RING) mod Z.of_nat RING = Z.of_nat ((length l - n + i) mod RING)).
    { rewrite !Nat2Z.inj_mod. replace (Z.of_nat (length l - n + i)) with (Z.of_nat (length l) - Z.of_nat (n - i)) by lia.
      replace (Z.of_nat (length l) mod Z.of_nat RING - Z.of_nat (n - i) + Z.of_nat RING)
        with (Z.of_nat (length l) mod Z.of_nat RING - Z.of_nat (n - i) + 1 * Z.of_nat RING) by lia.
      rewrite Z_mod_plus_full, Zminus_mod_idemp_l. reflexivity. }
    rewrite E. destruct (Z.ltb_spec (Z.of_nat ((length l - n + i) mod RING)) 0); [lia|]. rewrite Nat2Z.id. reflexivity.
  - rewrite <- (map_map (fun i => slot fill r ((length l - n + i) mod RING)) Some). f_equal.
    rewrite (map_seq_shift (fun i => slot fill r (i mod RING))), (map_slots RING fill r l _ _ H) by lia.
    unfold lastn. rewrite firstn_all2 by (rewrite length_skipn; lia). f_equal. lia.
Qed.

(** ** A bounded deque: [push_back], then [while (size > KEEP) pop_front] *)

Definition deque_push {A} (keep : nat) (e : A) (l : list A) : list A := lastn keep (l ++ [e]).
Lemma deque_push_last {A} keep (e : A) l : deque_push keep e (lastn keep l) = lastn keep (l ++ [e]).
Proof. apply lastn_app. Qed.

(** ** Committed PCs

    [commitFired] is a level: a probe takes every cycle in which it is high and
    drops an immediate repetition of the PC. *)

Definition raw `{Verilated} (tb : Vsystem) : simulator := simulator_new tb.

Section Sampler.
Context `{Verilated}.
Definition sampled (tb : Vsystem) (prev_pc : Z) (h : nat) : option Z :=
  let pc := core_pc (raw tb) (Z.of_nat h) in
  if commit_fired (raw tb) (Z.of_nat h) then (if pc =? prev_pc then None else Some pc) else None.

(** The last PC taken from a trace of looks, and the PC taken at look [k]. *)
Fixpoint last_taken (trace : nat -> Vsystem) (h k : nat) : Z :=
  match k with
  | O => 0
  | S k => match sampled (trace k) (last_taken trace h k) h with Some pc => pc | None => last_taken trace h k end
  end.
Definition taken (trace : nat -> Vsystem) (h k : nat) : option Z := sampled (trace k) (last_taken trace h k) h.
End Sampler.

(** ** Fields of wide signals

    A signal of more than 64 bits is an array of 32-bit words, [Invariants.words_of]
    of its value. Bit by bit: *)
Definition wbits (w : Z -> Z) (lo : Z) (len : nat) : Z :=
  fold_left (fun v i => let b := lo + Z.of_nat i in
    Z.lor v (Z.shiftl (Z.land (Z.shiftr (w (Z.shiftr b 5)) (Z.land b 31)) 1) (Z.of_nat i))) (seq 0 len) 0.
(** By words, for [len <= 32]: *)
Definition wbits32 (w : Z -> Z) (lo len : Z) : Z :=
  let wi := Z.shiftr lo 5 in
  let off := Z.land lo 31 in
  let v := Z.shiftr (w wi) off in
  let v := if 32 <? off + len then Z.lor v (u64 (Z.shiftl (w (wi + 1)) (32 - off))) else v in
  u32 (Z.land v (if 32 <=? len then 0xffffffff else u32 (u32 (Z.shiftl 1 len) - 1))).

Lemma lor_fields e lo n : 0 <= e -> 0 <= lo ->
  fold_left (fun v i => let b := lo + Z.of_nat i in
    Z.lor v (Z.shiftl (Z.land (Z.shiftr (words_of e (Z.shiftr b 5)) (Z.land b 31)) 1) (Z.of_nat i))) (seq 0 n) 0 =
  Z.shiftr e lo mod 2 ^ Z.of_nat n.
Proof.
  intros He Hl. induction n as [|n IH].
  - cbn [seq fold_left]. change (2 ^ Z.of_nat 0) with 1. rewrite Z.mod_1_r. reflexivity.
  - rewrite seq_S, fold_left_app, IH. cbn [fold_left]. cbv zeta. rewrite Nat.add_0_l, word_bit by lia.
    apply Z.bits_inj'. intros j Hj. rewrite Z.lor_spec.
    rewrite Nat2Z.inj_succ. destruct (Z.ltb_spec j (Z.of_nat n)) as [Hlt|Hge].
    + rewrite !Z.mod_pow2_bits_low by lia. rewrite Z.shiftl_spec_low by lia. apply orb_false_r.
    + rewrite (Z.mod_pow2_bits_high _ (Z.of_nat n)) by lia. cbn [orb]. rewrite Z.shiftl_spec by lia.
      destruct (Z.eq_dec j (Z.of_nat n)) as [->|Hne].
      * rewrite Z.sub_diag, Z.mod_pow2_bits_low by lia. rewrite Z.shiftr_spec by lia. rewrite Z.b2z_bit0. f_equal. lia.
      * rewrite Z.mod_pow2_bits_high by lia. apply (testbit_bound _ 1); [|lia]. destruct (Z.testbit e _); cbn; lia.
Qed.

Lemma wbits_field e lo n : 0 <= e -> 0 <= lo -> wbits (words_of e) lo n = Z.shiftr e lo mod 2 ^ Z.of_nat n.
Proof. apply lor_fields. Qed.

Lemma words_of_testbit e k i : 0 <= e -> 0 <= k -> 0 <= i -> Z.testbit (words_of e k) i = (i <? 32) && Z.testbit e (32 * k + i).
Proof.
  intros He Hk Hi. unfold words_of, u32. change 0x100000000 with (2 ^ 32). destruct (Z.ltb_spec i 32).
  - rewrite Z.mod_pow2_bits_low, Z.shiftr_spec by lia. cbn [andb]. f_equal. lia.
  - apply Z.mod_pow2_bits_high. lia.
Qed.

Lemma wbits32_field e lo len : 0 <= e -> 0 <= lo -> 0 <= len <= 32 -> wbits32 (words_of e) lo len = Z.shiftr e lo mod 2 ^ len.
Proof.
  intros He Hl Hn. unfold wbits32. cbv zeta.
  rewrite (land_ones_mod lo 5) by (reflexivity || lia). rewrite (shiftr_div lo 5) by lia. change (2 ^ 5) with 32.
  pose proof (Z.mod_pos_bound lo 32 ltac:(lia)) as Hm. pose proof (Z.div_mod lo 32 ltac:(lia)) as Hd.
  pose proof (Z.div_pos lo 32 Hl ltac:(lia)) as Hq. set (q := lo / 32) in *. set (off := lo mod 32) in *.
  replace (if 32 <=? len then 0xffffffff else u32 (u32 (Z.shiftl 1 len) - 1)) with (Z.ones len).
  2: { destruct (Z.leb_spec 32 len); [replace len with 32 by lia; reflexivity|]. rewrite Z.ones_equiv, shiftl_mul, Z.mul_1_l by lia.
       assert (2 ^ len <= 2 ^ 31) by (apply Z.pow_le_mono_r; lia). assert (0 < 2 ^ len) by (apply Z.pow_pos_nonneg; lia).
       change (2 ^ 31) with 2147483648 in *. rewrite !u32_id by (unfold is_u32; try rewrite u32_id; unfold is_u32; lia). lia. }
  rewrite Z.land_ones by lia. rewrite u32_id.
  2: { pose proof (Z.mod_pos_bound (if 32 <? off + len then Z.lor (Z.shiftr (words_of e q) off) (u64 (Z.shiftl (words_of e (q + 1)) (32 - off)))
         else Z.shiftr (words_of e q) off) (2 ^ len) ltac:(apply Z.pow_pos_nonneg; lia)).
       assert (2 ^ len <= 2 ^ 32) by (apply Z.pow_le_mono_r; lia). change (2 ^ 32) with 4294967296 in *. unfold is_u32. lia. }
  apply Z.bits_inj'. intros i Hi. destruct (Z.ltb_spec i len) as [Hlt|Hge]; [|rewrite !Z.mod_pow2_bits_high by lia; reflexivity].
  rewrite !Z.mod_pow2_bits_low, Z.shiftr_spec by lia.
  assert (Hlow : Z.testbit (Z.shiftr (words_of e q) off) i = (i + off <? 32) && Z.testbit e (i + lo)).
  { rewrite Z.shiftr_spec, words_of_testbit by lia. f_equal. f_equal. lia. }
  destruct (Z.ltb_spec 32 (off + len)) as [Ho|Ho].
  - rewrite Z.lor_spec, Hlow. unfold u64. change 0x10000000000000000 with (2 ^ 64). rewrite Z.mod_pow2_bits_low by lia.
    destruct (Z.ltb_spec (i + off) 32).
    + rewrite Z.shiftl_spec_low by lia. apply orb_false_r.
    + cbn [andb orb]. rewrite Z.shiftl_spec, words_of_testbit by lia. destruct (Z.ltb_spec (i - (32 - off)) 32); [|lia]. cbn [andb]. f_equal. lia.
  - rewrite Hlow. destruct (Z.ltb_spec (i + off) 32); [reflexivity|lia].
Qed.

(** ** What a probe restores and prints *)

(** The checkpoint of [linux_ipi_probe]: the counters it saves and the model. *)
Record probe_ckpt `{Verilated} := { k_cyc : Z; k_msip_writes : list Z; k_last_uart_cyc : Z; k_uart_bytes : Z; k_tb : Vsystem }.

(** The [UART(N)] macros: the bytes printed, their number, the cycle of the last one
    ([stamp]: the macro of the probe records it). *)
Record console := mkconsole { said : list Z; uart_bytes : Z; last_uart_cyc : Z }.
Definition uart_port `{Verilated} (stamp : bool) (tb : Vsystem) (cyc : Z) (c : console) (n : nat) : console :=
  let p := core tb (Z.of_nat n) in
  if OutChar_valid p =? 0 then c
  else mkconsole (said c ++ [u8 (OutChar_byte p)]) (u64 (uart_bytes c + 1)) (if stamp then cyc else last_uart_cyc c).
Definition uart_ports `{Verilated} (stamp : bool) (tb : Vsystem) (cyc : Z) (c : console) : console :=
  fold_left (uart_port stamp tb cyc) harts4 c.
(** [map[k]++] *)
Definition bump (k : Z) (m : gmap Z Z) : gmap Z Z := <[k := u64 (default 0 (m !! k) + 1)]> m.
Definition busier (a b : Z * Z) : Prop := b.2 <= a.2.
#[global] Instance busier_dec : RelDecision busier := fun a b => decide (b.2 <= a.2).
(** The first [n] entries of a histogram sorted by falling count ([std::sort] does
    not say in which order entries of equal count come). *)
Definition top_of (n : nat) (m : gmap Z Z) : list (Z * Z) :=
  firstn n (merge_sort busier (map_to_list m)).

(** A pass over the harts that records every PC it takes. *)
Section Pass.
Context `{Verilated} {S : Type} (prev : S -> list Z) (f : S -> nat -> S) (trace : nat -> Vsystem) (k : nat).
Definition prevs (k : nat) : list Z := map (fun h => last_taken trace h k) harts4.
Hypothesis f_prev : forall s h, prev (f s h) =
  match sampled (trace k) (default 0 (prev s !! h)) h with Some pc => <[h := pc]> (prev s) | None => prev s end.

Lemma pass_other s h h' : h <> h' -> prev (f s h) !! h' = prev s !! h'.
Proof. intros Hne. rewrite f_prev. destruct (sampled _ _ _); [apply list_lookup_insert_ne, Hne|reflexivity]. Qed.
Lemma pass_length s h : length (prev (f s h)) = length (prev s).
Proof. rewrite f_prev. destruct (sampled _ _ _); [apply length_insert|reflexivity]. Qed.
Lemma pass_self s h : prev s !! h = Some (last_taken trace h k) -> prev (f s h) !! h = Some (last_taken trace h (Datatypes.S k)).
Proof.
  intros E. rewrite f_prev, E. cbn [from_option id last_taken]. destruct (sampled _ _ _); [|exact E].
  apply list_lookup_insert_eq. eapply lookup_lt_Some. exact E.
Qed.

(** Hart [h] is looked at with the PC last taken from it. *)
Lemma pass_prevs s : prev s = prevs k -> prev (fold_left f harts4 s) = prevs (Datatypes.S k).
Proof.
  intros E. assert (E4 : forall h, (h < 4)%nat -> prev s !! h = Some (last_taken trace h k)).
  { intros h Hh. rewrite E. destruct h as [|[|[|[|h]]]]; try reflexivity; lia. }
  cbn [fold_left harts4]. apply list_eq. intros h. destruct (Nat.lt_ge_cases h 4) as [Hh|Hh].
  - destruct h as [|[|[|[|h]]]]; [| | | |lia]; unfold prevs; cbn [map harts4 lookup list_lookup nth_error].
    + rewrite !pass_other by lia. apply pass_self, E4. lia.
    + rewrite !pass_other by lia. apply pass_self. rewrite pass_other by lia. apply E4. lia.
    + rewrite !pass_other by lia. apply pass_self. rewrite !pass_other by lia. apply E4. lia.
    + apply pass_self. rewrite !pass_other by lia. apply E4. lia.
  - rewrite !lookup_ge_None_2; [reflexivity|exact Hh|]. rewrite !pass_length, E. exact Hh.
Qed.
End Pass.

(** ** Nets by name

    What the probes read inside the model: the nets of a core
    ([system__DOT__chiron__DOT__core<n>__DOT__<sig>]), the 32-bit words of the entries of
    its memories, and the nets of the peripherals. *)
Class Netlist `{Verilated} := {
  CORE_RAW : String.string -> Vsystem -> Z -> Z;
  CORE_MEM : String.string -> Vsystem -> Z -> Z -> Z -> Z;
  PERIPH : String.string -> Vsystem -> Z }.

(** The [switch (n)] of the [PICK] macros: the default is core 3. *)
Definition picked (n : Z) : Z := if n =? 0 then 0 else if n =? 1 then 1 else if n =? 2 then 2 else 3.
(** The nested conditionals some of them use: the default is core 0. *)
Definition picked0 (n : Z) : Z := if n =? 1 then 1 else if n =? 2 then 2 else if n =? 3 then 3 else 0.
Definition PICK `{Netlist} (sig : String.string) (tb : Vsystem) (n : Z) : Z := CORE_RAW sig tb (picked n).
Definition robpc `{Verilated} (tb : Vsystem) (n : Z) : Z := pc (core tb (picked n)).

(** A netlist for concrete runs: the nets in [names] are the performance counters of
    the script, those of the peripherals the counters of core 0 from 100 on; the words of
    the memories are given. *)
Fixpoint index (names : list String.string) (s : String.string) (i : Z) : option Z :=
  match names with [] => None | a :: l => if String.eqb a s then Some i else index l s (i + 1) end.
Definition named (names : list String.string) (mem : String.string -> Z -> Z -> Z -> Z) : Netlist (H := scripted) :=
  {| CORE_RAW s tb n := match index names s 0 with Some i => perfCountersOut (core tb n) i | None => 0 end;
     CORE_MEM s tb n e w := mem s n e w;
     PERIPH s tb := match index names s 100 with Some i => perfCountersOut (core tb 0) i | None => 0 end |}.

(** ** A value that does not change

    [f k] is what look [k] sees, [f 0] what is known before the first. *)
Section Still.
Context {A : Type} `{EqDecision A} (f : nat -> A).
Definition held (n k : nat) : Prop := (n <= k)%nat /\ forall j, (k - n <= j <= k)%nat -> f j = f k.
(** For how many looks the value has been the same. *)
Fixpoint still (k : nat) : nat := match k with O => O | S k' => if decide (f (S k') = f k') then S (still k') else O end.

Lemma still_le k : (still k <= k)%nat.
Proof. induction k as [|k IH]; cbn [still]; [lia|]. destruct (decide _); lia. Qed.

Lemma still_held k : forall n, (n <= still k)%nat <-> held n k.
Proof.
  induction k as [|k IH]; intros n.
  - cbn [still]. split; [intros ?; split; [assumption|intros j Hj; f_equal; lia]|intros [? _]; assumption].
  - destruct n as [|n]; [split; [intros _; split; [lia|intros j Hj; f_equal; lia]|lia]|]. cbn [still].
    destruct (decide (f (S k) = f k)) as [E|E].
    + rewrite <- Nat.succ_le_mono, IH. unfold held. split; intros [Hn Hj]; (split; [lia|]).
      * intros j Hr. destruct (Nat.eq_dec j (S k)) as [->|]; [reflexivity|]. rewrite E. apply Hj. lia.
      * intros j Hr. rewrite <- E. apply Hj. lia.
    + split; [lia|]. intros [Hn Hj]. exfalso. apply E. symmetry. apply Hj. lia.
Qed.
End Still.

(** ** Collecting and counting over looks *)

Lemma omap_seq_S {A} (f : nat -> option A) k : omap f (seq 1 (S k)) = omap f (seq 1 k) ++ match f (S k) with Some x => [x] | None => [] end.
Proof. rewrite seq_S, omap_app. f_equal. Qed.


Definition tallied (p : nat -> bool) (k : nat) : Z := Z.of_nat (length (List.filter p (seq 1 k))).
Lemma tallied_S p k : tallied p (S k) = tallied p k + Z.b2z (p (S k)).
Proof.
  unfold tallied. rewrite seq_S, List.filter_app, length_app. cbn [List.filter]. rewrite Nat.add_comm.
  replace (1 + k)%nat with (S k) by lia. destruct (p (S k)); cbn [length Z.b2z]; lia.
Qed.
Lemma tallied_range p k : 0 <= tallied p k <= Z.of_nat k.
Proof. unfold tallied. pose proof (List.filter_length_le p (seq 1 k)) as L. rewrite length_seq in L. lia. Qed.
(** [if (p) ++n;] *)
Lemma tallied_step p k n : Z.of_nat (S k) < 2 ^ 64 -> n = tallied p k -> (if p (S k) then u64 (n + 1) else n) = tallied p (S k).
Proof.
  change (2 ^ 64) with 18446744073709551616. intros Hk ->. rewrite tallied_S. pose proof (tallied_range p k).
  destruct (p (S k)); cbn [Z.b2z]; [apply u64_id; unfold is_u64|]; lia.
Qed.
Lemma tallied_pos p k : tallied p k <> 0 <-> exists j, (1 <= j <= k)%nat /\ p j = true.
Proof.
  unfold tallied. split.
  - intros Hn. destruct (List.filter p (seq 1 k)) as [|j l] eqn:E; [cbn in Hn; lia|]. exists j.
    assert (Hj : In j (List.filter p (seq 1 k))) by (rewrite E; left; reflexivity). apply filter_In in Hj as [Hj ->]. apply in_seq in Hj. split; [lia|reflexivity].
  - intros (j & Hj & Hp). assert (Hin : In j (List.filter p (seq 1 k))) by (apply filter_In; split; [apply in_seq; lia|exact Hp]).
    destruct (List.filter p (seq 1 k)); [destruct Hin|cbn; lia].
Qed.

(** ** A level that stays up

    [up k]: the level at look [k], from look 1 on. *)
Section Level.
Context (up : nat -> bool).
Definition raised (n k : nat) : Prop := (n <= k)%nat /\ forall j, (k - n < j <= k)%nat -> up j = true.
(** For how many looks it has been up. *)
Fixpoint uptime (k : nat) : nat := match k with O => O | S k' => if up (S k') then S (uptime k') else O end.

Lemma uptime_le k : (uptime k <= k)%nat.
Proof. induction k as [|k IH]; cbn [uptime]; [lia|]. destruct (up _); lia. Qed.

Lemma uptime_raised k : forall n, (n <= uptime k)%nat <-> raised n k.
Proof.
  induction k as [|k IH]; intros n.
  - cbn [uptime]. split; [intros ?; split; [assumption|intros j Hj; lia]|intros [? _]; assumption].
  - destruct n as [|n]; [split; [intros _; split; [lia|intros j Hj; lia]|lia]|]. cbn [uptime].
    destruct (up (S k)) eqn:E.
    + rewrite <- Nat.succ_le_mono, IH. unfold raised. split; intros [Hn Hj]; (split; [lia|]); intros j Hr.
      * destruct (Nat.eq_dec j (S k)) as [->|]; [exact E|apply Hj; lia].
      * apply Hj. lia.
    + split; [lia|]. intros [Hn Hj]. rewrite Hj in E by lia. discriminate.
Qed.

(** The level before, which is down at the start; and a mark set at every rise. *)
Definition was_up (k : nat) : bool := match k with O => false | S _ => up k end.
Definition marks (c : Z) (k : nat) (mark : Z) : Prop := forall i, uptime k = S i -> mark = c + Z.of_nat (k - i).
Lemma marks_start c mark : marks c 0 mark.
Proof. intros i [=]. Qed.
Lemma marks_step c k mark : marks c k mark -> marks c (S k) (if up (S k) && negb (was_up k) then c + Z.of_nat (S k) else mark).
Proof.
  intros Hm i Hi. cbn [uptime] in Hi. destruct (up (S k)); [|discriminate]. injection Hi as <-. cbn [andb].
  destruct k as [|k]; [reflexivity|]. cbn [was_up]. cbn [uptime] in Hm |- *. unfold marks in Hm. cbn [uptime] in Hm. destruct (up (S k)); cbn [negb].
  - rewrite (Hm (uptime k)) by reflexivity. reflexivity.
  - reflexivity.
Qed.
End Level.
