(* ===== verification/Pushes.v ===== *)
(** * Two more ways to push: the control of [mt-llist.c] and phase 2 of [mt-lrsc.c]

    With [PUSH_CAS = 0] the producers of [mt-llist] publish a node with one [amoswap.d]
    before they know its successor: the node carries the mark [NEXT_BUSY] until they have
    linked it, and the consumer waits at such a node. Its invariant has a ghost map of the
    successors as they will be ([control_inv]).

    Phase 2 of [mt-lrsc] is the list of [Llist] with a producer that loads the head again
    when [cmpxchg64] has failed, and a consumer that checks every node it takes. Its state
    is abstracted to one of [Llist], whose invariant carries over. *)

From Stdlib Require Import String.
From S2P Require Import Prelude Cmodel Libc Lrsc Llist Watch.
From stdpp Require Import sets.
Local Open Scope Z_scope.

(** ** [mt-llist.c] with [PUSH_CAS = 0] *)

Definition NEXT_BUSY : Z := 0xFFFFFFFFFFFFFFFF.

(** Before [n->next = NEXT_BUSY], before the swap, before [n->next = first]. *)
Inductive swap_pc := XStamp | XSwap | XLink (first : Z).
Record swapper := mkswapper { xpc : swap_pc; xtodo : list Z }.
Record cstate := mkc {
  chead : rword; cnext : gmap Z Z; cprods : list swapper; ccpc : con_pc; cidle : Z; cseen : list Z }.
Definition cnext_of (s : cstate) (n : Z) : Z := default 0 (cnext s !! n).

(** The next access of producer [t] in [llist_add]. *)
Definition swap_step (kills : bool) (t : nat) (s : cstate) : cstate :=
  match cprods s !! t with
  | Some (mkswapper p (n :: rest)) =>
    let goto p l := <[t := mkswapper p l]> (cprods s) in
    match p with
    | XStamp => mkc (chead s) (<[n := NEXT_BUSY]> (cnext s)) (goto XSwap (n :: rest)) (ccpc s) (cidle s) (cseen s)
    | XSwap => let '(first, w) := amoswap64 kills n (chead s) in mkc w (cnext s) (goto (XLink first) (n :: rest)) (ccpc s) (cidle s) (cseen s)
    | XLink first => mkc (chead s) (<[n := first]> (cnext s)) (goto XStamp rest) (ccpc s) (cidle s) (cseen s)
    end
  | _ => s
  end.

(** The next access of the consumer; at a node with the mark it reads again. *)
Definition control_consumer (kills : bool) (expected : Z) (s : cstate) : cstate :=
  match ccpc s with
  | CPeek =>
    if alen (cseen s) <? expected then
      if val (chead s) =? 0 then
        mkc (chead s) (cnext s) (cprods s) (if WAIT_CAP <? cidle s + 1 then CFail else CPeek) (cidle s + 1) (cseen s)
      else mkc (chead s) (cnext s) (cprods s) CSwap (cidle s) (cseen s)
    else s
  | CSwap =>
    let '(n, w) := amoswap64 kills 0 (chead s) in
    mkc w (cnext s) (cprods s) (if n =? 0 then CPeek else CWalk n) 0 (cseen s)
  | CWalk n =>
    let nx := cnext_of s n in
    if nx =? NEXT_BUSY then s
    else mkc (chead s) (cnext s) (cprods s) (if nx =? 0 then CPeek else CWalk nx) (cidle s) (cseen s ++ [n])
  | CFail => s
  end.
Definition control_step (kills : bool) (expected : Z) (who : option nat) (s : cstate) : cstate :=
  match who with None => control_consumer kills expected s | Some t => swap_step kills t s end.
Definition control_start (pools : list (list Z)) : cstate :=
  mkc (mkword 0 (replicate (length pools) false)) ∅ (map (mkswapper XStamp) pools) CPeek 0 [].

(** What core 0 reports: the popped nodes and the watchdog are read as in [Llist]. *)
Definition control_view (s : cstate) : lstate := mkl (chead s) (cnext s) [] (ccpc s) (cidle s) (cseen s).
Definition control_verdict (all : list Z) (s : cstate) : option (list Z) * Z := llist_verdict_of 0 all (control_view s).

(** *** The invariant *)

(** Producer [p] has published [n] and will link it to [f]. *)
Definition pending (p : swapper) (n f : Z) : Prop := exists rest, p = mkswapper (XLink f) (n :: rest).
(** The nodes still to be published. *)
Definition unpublished (p : swapper) : list Z := match xpc p, xtodo p with XLink _, _ :: rest => rest | _, l => l end.
Definition cwalking (s : cstate) : Z := match ccpc s with CWalk n => n | _ => 0 end.
Definition unpubs (s : cstate) : list Z := flat_map unpublished (cprods s).

(** [M] is the map of the successors as they will be once every pending link is made. *)
Definition control_inv (all : list Z) (s : cstate) : Prop :=
  NoDup all /\ ~ In 0 all /\ ~ In NEXT_BUSY all /\ (match ccpc s with CWalk n => n <> 0 | _ => True end) /\
  exists (M : gmap Z Z) W L, chain M (cwalking s) W /\ chain M (val (chead s)) L /\
    cseen s ++ W ++ L ++ unpubs s ≡ₚ all /\
    (forall t p n f, cprods s !! t = Some p -> pending p n f -> In n (W ++ L) /\ cnext_of s n = NEXT_BUSY /\ default 0 (M !! n) = f) /\
    (forall t u p q n f g, cprods s !! t = Some p -> cprods s !! u = Some q -> pending p n f -> pending q n g -> t = u) /\
    (forall t n rest, cprods s !! t = Some (mkswapper XSwap (n :: rest)) -> cnext_of s n = NEXT_BUSY) /\
    (forall n, In n (W ++ L) -> cnext_of s n = default 0 (M !! n) \/ exists t p f, cprods s !! t = Some p /\ pending p n f).

Lemma unpubs_insert l t p p' : l !! t = Some p ->
  exists l1 l2, flat_map unpublished l = l1 ++ unpublished p ++ l2 /\ flat_map unpublished (<[t := p']> l) = l1 ++ unpublished p' ++ l2.
Proof.
  intros Ht. exists (flat_map unpublished (take t l)), (flat_map unpublished (drop (S t) l)).
  rewrite <- (take_drop_middle l t p Ht) at 1. rewrite insert_take_drop by (eapply lookup_lt_Some; exact Ht).
  rewrite !flat_map_app. cbn [flat_map]. now split.
Qed.
Lemma unpubs_same l t p p' : l !! t = Some p -> unpublished p' = unpublished p -> flat_map unpublished (<[t := p']> l) = flat_map unpublished l.
Proof. intros Ht E. destruct (unpubs_insert l t p p' Ht) as (l1 & l2 & -> & ->). now rewrite E. Qed.
Lemma in_unpubs l t p n : l !! t = Some p -> In n (unpublished p) -> In n (flat_map unpublished l).
Proof. intros Ht Hn. apply in_flat_map. exists p. split; [|exact Hn]. apply list_elem_of_In. eapply list_elem_of_lookup_2, Ht. Qed.

(** The nodes two producers have still to publish differ. *)
Lemma unpubs_distinct l t u p q n m : NoDup (flat_map unpublished l) -> l !! t = Some p -> l !! u = Some q ->
  In n (unpublished p) -> In m (unpublished q) -> t <> u -> n <> m.
Proof.
  intros Hnd Ht Hu Hn Hm Hne ->. destruct (unpubs_insert l t p (mkswapper XStamp []) Ht) as (l1 & l2 & E1 & E2).
  assert (Hin : In m (l1 ++ [] ++ l2)).
  { cbn in E2. cbn [app]. rewrite <- E2. apply (in_unpubs _ u q); [now rewrite list_lookup_insert_ne by congruence|exact Hm]. }
  rewrite E1 in Hnd. apply NoDup_app in Hnd as (_ & H1 & Hnd). apply NoDup_app in Hnd as (_ & H2 & _).
  cbn in Hin. apply in_app_iff in Hin as [Hin|Hin]; rewrite <- list_elem_of_In in *.
  - apply (H1 m Hin). apply elem_of_app. now left.
  - exact (H2 m Hn Hin).
Qed.

Lemma chain_ends M p l n : chain M p l -> In n l -> default 0 (M !! n) = 0 \/ In (default 0 (M !! n)) l.
Proof.
  revert p. induction l as [|x l IH]; intros p; [intros _ []|]. intros (-> & Hx & Hc) [<-|Hn].
  - destruct l as [|y l]; [left; exact Hc|]. right. right. left. destruct Hc as [-> _]. reflexivity.
  - destruct (IH _ Hc Hn) as [E|E]; [left; exact E|right; right; exact E].
Qed.

Lemma pending_inj p n f n' f' : pending p n f -> pending p n' f' -> n' = n /\ f' = f.
Proof. intros [r ->] [r' E]. injection E as <- <- _. split; reflexivity. Qed.
Lemma not_pending x l n f : (match x with XLink _ => False | _ => True end) -> ~ pending (mkswapper x l) n f.
Proof. intros Hx [r E]. injection E as -> _. exact Hx. Qed.

(** Where an updated producer is pending. *)
Lemma pending_insert (l : list swapper) t p' u q n f : <[t := p']> l !! u = Some q -> pending q n f -> (u = t /\ pending p' n f) \/ (u <> t /\ l !! u = Some q).
Proof. intros Hu Hq. apply list_lookup_insert_Some in Hu as [(<- & <- & _)|[Hne Hu]]; [left|right]; split; auto. Qed.

Lemma control_parts all s W L : NoDup all -> cseen s ++ W ++ L ++ unpubs s ≡ₚ all ->
  NoDup (unpubs s) /\ forall n, In n (unpubs s) -> ~ In n (W ++ L) /\ In n all.
Proof.
  intros Hnd Hp. pose proof Hp as Hp'. rewrite <- Hp in Hnd. apply NoDup_app in Hnd as (_ & _ & Hnd). apply NoDup_app in Hnd as (_ & H1 & Hnd).
  apply NoDup_app in Hnd as (_ & H2 & Hnd). split; [exact Hnd|]. intros n Hn. rewrite <- !list_elem_of_In in *. split; [|rewrite <- Hp'; set_solver].
  rewrite elem_of_app. intros [H|H]; [apply (H1 n H); apply elem_of_app; now right|exact (H2 n H Hn)].
Qed.

(** A step of producer [t] that writes [x] to the successor of [n], a node no other producer
    is concerned with, and leaves the head alone. *)
Lemma swap_write all t s n rest p p' x : control_inv all s -> cprods s !! t = Some (mkswapper p (n :: rest)) ->
  unpublished p' = unpublished (mkswapper p (n :: rest)) -> (forall m f, ~ pending p' m f) ->
  (forall r, p' = mkswapper XSwap r -> r = n :: rest /\ x = NEXT_BUSY) ->
  match p with XStamp => True | XSwap => False | XLink f => x = f end ->
  control_inv all (mkc (chead s) (<[n := x]> (cnext s)) (<[t := p']> (cprods s)) (ccpc s) (cidle s) (cseen s)).
Proof.
  intros (Hnd & H0 & HB & Hwk & M & W & L & HW & HL & Hp & Hpend & Hinj & Hmark & Hnext) Ht Eu Hnp Hsw Hx.
  destruct (control_parts all s W L Hnd Hp) as [Hndu Hout].
  assert (Hother : forall u q m, u <> t -> cprods s !! u = Some q -> (In m (unpublished q) \/ exists f, pending q m f) -> m <> n).
  { intros u q m Hne Hu [Hm|[f Hm]] ->.
    - destruct p as [| |f]; [| contradiction|].
      + now apply (unpubs_distinct (cprods s) u t q _ n n Hndu Hu Ht Hm); [now left|exact Hne|].
      + destruct (Hpend t _ n f Ht) as (Hin & _); [now exists rest|]. apply (Hout n); [apply (in_unpubs _ u q _ Hu Hm)|exact Hin].
    - destruct (Hpend u q n f Hu Hm) as (Hin & _). destruct p as [| |g]; [|contradiction|].
      + apply (Hout n); [apply (in_unpubs _ t _ _ Ht); now left|exact Hin].
      + apply Hne. apply (Hinj u t q _ n f g Hu Ht Hm). now exists rest. }
  split; [exact Hnd|split; [exact H0|split; [exact HB|split; [exact Hwk|]]]]. exists M, W, L.
  split; [exact HW|split; [exact HL|split; [|split; [|split; [|split]]]]]; cbn [cprods cseen].
  - unfold unpubs. cbn [cprods]. now rewrite (unpubs_same _ _ _ _ Ht Eu).
  - intros u q m f Hu Hq. destruct (pending_insert _ _ _ _ _ _ _ Hu Hq) as [[-> Hq']|[Hne Hu']]; [now apply Hnp in Hq'|].
    destruct (Hpend u q m f Hu' Hq) as (Hin & Hb & Hf). split; [exact Hin|split; [|exact Hf]]. unfold cnext_of. cbn [cnext].
    rewrite lookup_insert_ne by (apply not_eq_sym, (Hother u q m Hne Hu'); right; eauto). exact Hb.
  - intros u v q r m f g Hu Hv Hq Hr. destruct (pending_insert _ _ _ _ _ _ _ Hu Hq) as [[-> Hq']|[_ Hu']]; [now apply Hnp in Hq'|].
    destruct (pending_insert _ _ _ _ _ _ _ Hv Hr) as [[-> Hr']|[_ Hv']]; [now apply Hnp in Hr'|]. exact (Hinj u v q r m f g Hu' Hv' Hq Hr).
  - intros u m r Hu. unfold cnext_of. cbn [cnext]. apply list_lookup_insert_Some in Hu as [(<- & E & _)|[Hne Hu]].
    + destruct (Hsw _ E) as [[= -> ->] ->]. now rewrite lookup_insert_eq.
    + rewrite lookup_insert_ne; [exact (Hmark u m r Hu)|]. apply not_eq_sym, (Hother u _ m (not_eq_sym Hne) Hu). left. now left.
  - intros m Hm. unfold cnext_of. cbn [cnext]. destruct (decide (n = m)) as [<-|Hne].
    + rewrite lookup_insert_eq. left. destruct p as [| |f]; [|contradiction|].
      * exfalso. apply (Hout n); [apply (in_unpubs _ t _ _ Ht); now left|exact Hm].
      * subst x. symmetry. apply (Hpend t _ n f Ht). now exists rest.
    + rewrite lookup_insert_ne by exact Hne. destruct (Hnext m Hm) as [E|(u & q & f & Hu & Hq)]; [left; exact E|right; exists u, q, f]. split; [|exact Hq].
      rewrite list_lookup_insert_ne; [exact Hu|]. intros <-. rewrite Ht in Hu. injection Hu as <-. destruct Hq as [r E]. injection E as -> -> _. contradiction.
Qed.

(** The swap publishes [n]. *)
Lemma swap_publish all t s n rest : control_inv all s -> cprods s !! t = Some (mkswapper XSwap (n :: rest)) ->
  control_inv all (mkc (amoswap64 true n (chead s)).2 (cnext s) (<[t := mkswapper (XLink (val (chead s))) (n :: rest)]> (cprods s)) (ccpc s) (cidle s) (cseen s)).
Proof.
  intros (Hnd & H0 & HB & Hwk & M & W & L & HW & HL & Hp & Hpend & Hinj & Hmark & Hnext) Ht.
  destruct (control_parts all s W L Hnd Hp) as [Hndu Hout]. destruct (Hout n) as [HnWL Hall]; [apply (in_unpubs _ t _ _ Ht); now left|].
  assert (HnW : ~ In n W) by (intros H; apply HnWL, in_app_iff; now left). assert (HnL : ~ In n L) by (intros H; apply HnWL, in_app_iff; now right).
  assert (Hn0 : n <> 0) by (intros ->; contradiction).
  split; [exact Hnd|split; [exact H0|split; [exact HB|split; [exact Hwk|]]]]. exists (<[n := val (chead s)]> M), W, (n :: L).
  split; [now apply chain_insert|]. split; [cbn [chead amoswap64 snd store64 val chain]; rewrite lookup_insert_eq; split; [reflexivity|split; [exact Hn0|now apply chain_insert]]|].
  assert (Hkeep : forall m, In m (W ++ L) -> default 0 (<[n := val (chead s)]> M !! m) = default 0 (M !! m)).
  { intros m Hm. rewrite lookup_insert_ne; [reflexivity|]. intros <-. exact (HnWL Hm). }
  assert (Hin : forall m, In m (W ++ n :: L) <-> m = n \/ In m (W ++ L)) by (intros m; rewrite !in_app_iff; cbn [In]; intuition congruence).
  split; [|split; [|split; [|split]]]; cbn [cprods cseen].
  - destruct (unpubs_insert (cprods s) t _ (mkswapper (XLink (val (chead s))) (n :: rest)) Ht) as (l1 & l2 & E1 & E2). unfold unpubs in *. cbn [cprods].
    rewrite E2, <- Hp, E1. cbn [unpublished xpc xtodo]. solve_Permutation.
  - intros u q m f Hu Hq. rewrite Hin. destruct (pending_insert _ _ _ _ _ _ _ Hu Hq) as [[-> [r E]]|[Hne Hu']].
    + injection E as <- <- _. split; [now left|]. split; [exact (Hmark t n rest Ht)|]. now rewrite lookup_insert_eq.
    + destruct (Hpend u q m f Hu' Hq) as (Hm & Hb & Hf). split; [now right|split; [exact Hb|]]. now rewrite Hkeep.
  - intros u v q r m f g Hu Hv Hq Hr. destruct (pending_insert _ _ _ _ _ _ _ Hu Hq) as [[-> [r1 E1]]|[Hne Hu']], (pending_insert _ _ _ _ _ _ _ Hv Hr) as [[-> [r2 E2]]|[Hne' Hv']].
    + reflexivity.
    + injection E1 as _ <- _. destruct (Hpend v r n g Hv' Hr) as (Hm & _). contradiction.
    + injection E2 as _ <- _. destruct (Hpend u q n f Hu' Hq) as (Hm & _). contradiction.
    + exact (Hinj u v q r m f g Hu' Hv' Hq Hr).
  - intros u m r Hu. apply list_lookup_insert_Some in Hu as [(_ & E & _)|[_ Hu]]; [discriminate|exact (Hmark u m r Hu)].
  - intros m Hm. apply Hin in Hm as [->|Hm].
    + right. exists t. eexists _, _. split; [apply list_lookup_insert_eq, (lookup_lt_Some _ _ _ Ht)|now exists rest].
    + rewrite Hkeep by exact Hm. destruct (Hnext m Hm) as [E|(u & q & f & Hu & Hq)]; [left; exact E|right; exists u, q, f]. split; [|exact Hq].
      rewrite list_lookup_insert_ne; [exact Hu|]. intros <-. rewrite Ht in Hu. injection Hu as <-. now apply not_pending in Hq.
Qed.

Lemma swap_inv all t s : control_inv all s -> control_inv all (swap_step true t s).
Proof.
  intros Hi. unfold swap_step. destruct (cprods s !! t) as [[p [|n rest]]|] eqn:Ht; [exact Hi| |exact Hi]. destruct p as [| |first].
  - apply (swap_write all t s n rest _ _ _ Hi Ht); [reflexivity|intros m f; now apply not_pending|intros r [= <-]; auto|exact I].
  - exact (swap_publish all t s n rest Hi Ht).
  - apply (swap_write all t s n rest _ _ _ Hi Ht); [reflexivity|intros m f; now apply not_pending|discriminate|reflexivity].
Qed.

Lemma control_consumer_inv all expected s : control_inv all s -> control_inv all (control_consumer true expected s).
Proof.
  intros Hi. pose proof Hi as (Hnd & H0 & HB & Hwk & M & W & L & HW & HL & Hp & Hpend & Hinj & Hmark & Hnext). unfold control_consumer. unfold cwalking in HW.
  destruct (ccpc s) as [| |n|] eqn:Ec; [| | |exact Hi].
  - assert (Hc : forall c i, match c with CWalk _ => False | _ => True end -> control_inv all (mkc (chead s) (cnext s) (cprods s) c i (cseen s))).
    { intros c i Hcc. split; [exact Hnd|split; [exact H0|split; [exact HB|split; [now destruct c|]]]]. exists M, W, L. unfold cwalking. cbn [ccpc chead cseen cprods].
      destruct c; [| |contradiction|]; (split; [exact HW|split; [exact HL|split; [exact Hp|split; [exact Hpend|split; [exact Hinj|split; [exact Hmark|exact Hnext]]]]]]). }
    destruct (_ <? expected); [|exact Hi]. destruct (val (chead s) =? 0); [|now apply Hc]. destruct (WAIT_CAP <? cidle s + 1); now apply Hc.
  - apply chain_null in HW as ->. cbn [amoswap64]. split; [exact Hnd|split; [exact H0|split; [exact HB|split; [cbn; now destruct (Z.eqb_spec (val (chead s)) 0)|]]]].
    exists M, L, []. unfold cwalking. cbn [ccpc cnext chead cprods cseen amoswap64 store64 val]. rewrite app_nil_r.
    split; [destruct (Z.eqb_spec (val (chead s)) 0) as [E|E]; [now rewrite E in HL|exact HL]|]. split; [reflexivity|].
    split; [exact Hp|split; [exact Hpend|split; [exact Hinj|split; [exact Hmark|exact Hnext]]]].
  - cbv zeta. destruct (Z.eqb_spec (cnext_of s n) NEXT_BUSY) as [|Hnb]; [exact Hi|].
    apply (chain_cons _ _ _ Hwk) in HW as (W' & -> & HW').
    assert (En : cnext_of s n = default 0 (M !! n)).
    { destruct (Hnext n) as [E|(u & q & f & Hu & Hq)]; [now left|exact E|]. destruct (Hpend u q n f Hu Hq) as (_ & E & _). contradiction. }
    rewrite <- En in HW'. split; [exact Hnd|split; [exact H0|split; [exact HB|split; [cbn; now destruct (Z.eqb_spec (cnext_of s n) 0)|]]]].
    exists M, W', L. unfold cwalking. cbn [ccpc cnext chead cprods cseen].
    split; [destruct (Z.eqb_spec (cnext_of s n) 0) as [E|E]; [now rewrite E in HW'|exact HW']|]. split; [exact HL|].
    split; [rewrite <- app_assoc; exact Hp|]. split; [|split; [exact Hinj|split; [exact Hmark|intros m Hm; apply Hnext; now right]]].
    intros u q m f Hu Hq. destruct (Hpend u q m f Hu Hq) as (Hm & Hb & Hf). split; [|split; [exact Hb|exact Hf]].
    destruct Hm as [<-|Hm]; [contradiction|exact Hm].
Qed.

Lemma control_run pools expected sched : NoDup (concat pools) -> ~ In 0 (concat pools) -> ~ In NEXT_BUSY (concat pools) ->
  control_inv (concat pools) (exec (control_step true expected) sched (control_start pools)).
Proof.
  intros Hnd H0 HB. apply (exec_inv (control_step true expected) (control_inv (concat pools))).
  - intros [t|] s; [apply swap_inv|apply control_consumer_inv].
  - split; [exact Hnd|split; [exact H0|split; [exact HB|split; [exact I|]]]]. exists ∅, [], []. split; [reflexivity|split; [reflexivity|]].
    assert (Hstart : forall t p, map (mkswapper XStamp) pools !! t = Some p -> exists l, p = mkswapper XStamp l).
    { intros t p Hp. apply list_lookup_fmap_Some in Hp as (l & -> & _). now exists l. }
    split; [|split; [|split; [|split]]].
    + unfold unpubs, control_start. cbn [cseen cprods app]. rewrite flat_map_concat_map, map_map. unfold unpublished. cbn [xpc xtodo]. now rewrite map_id.
    + intros t p n f Ht Hp. destruct (Hstart t p Ht) as [l ->]. now apply not_pending in Hp.
    + intros t u p q n f g Ht _ Hp. destruct (Hstart t p Ht) as [l ->]. now apply not_pending in Hp.
    + intros t n r Ht. destruct (Hstart t _ Ht) as [l [=]].
    + intros n [].
Qed.

(** C36: The control conserves the nodes under any schedule: a node is popped at most once
    and only if it was pushed, and once every producer is done, the list is empty and no
    chain is being walked, the popped nodes are all the nodes, once each. The consumer waits
    at a node only while its producer has one access left to link it. *)
Theorem control_conserves pools expected sched : NoDup (concat pools) -> ~ In 0 (concat pools) -> ~ In NEXT_BUSY (concat pools) ->
  let s := exec (control_step true expected) sched (control_start pools) in
  NoDup (cseen s) /\ (forall n, In n (cseen s) -> In n (concat pools) /\ ~ In n (unpubs s)) /\
  (unpubs s = [] -> val (chead s) = 0 -> cwalking s = 0 -> cseen s ≡ₚ concat pools) /\
  (forall n, ccpc s = CWalk n -> control_consumer true expected s = s ->
     exists t, control_consumer true expected (swap_step true t s) <> swap_step true t s).
Proof.
  intros Hnd H0 HB s. destruct (control_run pools expected sched Hnd H0 HB) as (_ & _ & _ & Hwk & M & W & L & HW & HL & Hp & Hpend & _ & _ & Hnext).
  fold s in Hwk, HW, HL, Hp, Hpend, Hnext. pose proof Hnd as Hnd'. rewrite <- Hp in Hnd'. apply NoDup_app in Hnd' as (Hs & Hd & _).
  split; [exact Hs|split; [|split]].
  - intros n Hn. rewrite <- !list_elem_of_In in *. split; [rewrite <- Hp; set_solver|]. intros Ht. apply (Hd n Hn). set_solver.
  - intros Ht Hh Hw. rewrite Hh in HL. rewrite Hw in HW. apply chain_null in HW as ->, HL as ->. rewrite Ht in Hp. cbn [app] in Hp. now rewrite app_nil_r in Hp.
  - intros n Ec Hstay. unfold cwalking in HW. rewrite Ec in Hwk, HW. apply (chain_cons _ _ _ Hwk) in HW as (W' & -> & HW').
    assert (Hall : forall m, In m ((n :: W') ++ L) -> In m (concat pools)) by (intros m; rewrite <- !list_elem_of_In, <- Hp; set_solver).
    assert (Eb : cnext_of s n = NEXT_BUSY).
    { unfold control_consumer in Hstay. rewrite Ec in Hstay. cbv zeta in Hstay. destruct (Z.eqb_spec (cnext_of s n) NEXT_BUSY) as [E|_]; [exact E|]. exfalso.
      apply (f_equal cseen) in Hstay. cbn [cseen] in Hstay. apply (f_equal (@length Z)) in Hstay. rewrite length_app in Hstay. cbn in Hstay. lia. }
    destruct (Hnext n) as [E|(t & p & f & Ht & Hq)]; [now left| |].
    + exfalso. rewrite Eb in E. destruct (chain_ends M n (n :: W') n) as [E0|Hin]; [cbn [chain]; auto|now left|rewrite E0 in E; discriminate|].
      apply HB. rewrite E. apply Hall. apply in_app_iff. now left.
    + exists t. destruct (Hpend t p n f Ht Hq) as (_ & _ & Hf). destruct Hq as [rest ->]. unfold swap_step. rewrite Ht. unfold control_consumer. cbn [ccpc]. rewrite Ec.
      unfold cnext_of. cbn [cnext]. rewrite lookup_insert_eq. cbn [from_option id]. destruct (Z.eqb_spec f NEXT_BUSY) as [E|_].
      * exfalso. destruct (chain_ends M n (n :: W') n) as [E0|Hin]; [cbn [chain]; auto|now left| |].
        -- rewrite Hf in E0. rewrite E0 in E. discriminate.
        -- apply HB. rewrite <- E, <- Hf. apply Hall. apply in_app_iff. now left.
      * intros Hc. apply (f_equal cseen) in Hc. cbn [cseen] in Hc. apply (f_equal (@length Z)) in Hc. rewrite length_app in Hc. cbn in Hc. lia.
Qed.

(** Producer 1 publishes behind producer 0, the consumer meets its mark, and waits. *)
Definition meet_mark : list (option nat) := [Some 0; Some 0; Some 0; Some 1; Some 1; None; None; None; None; Some 1; None; None; None]%nat.
Lemma control_conserves_witness :
  let s := exec (control_step true 2) meet_mark (control_start [[8]; [16]]) in
  cseen s = [16; 8] /\ cseen s ≡ₚ concat [[8]; [16]].
Proof.
  split; [reflexivity|]. refine (proj1 (proj2 (proj2 (control_conserves [[8]; [16]] 2 meet_mark _ _ _))) eq_refl eq_refl eq_refl).
  - cbn. repeat constructor; set_solver.
  - cbn. lia.
  - unfold NEXT_BUSY. cbn. lia.
Defined.

(** ** Phase 2 of [mt-lrsc.c] *)

Definition N_NODES : Z := 800.

Inductive push_pc := RRead | RLink (first : Z) | RLr (first : Z) | RSc (first : Z) | RFail.
Record pusher := mkpusher { rpc : push_pc; rtodo : list Z; rspins : Z }.
Inductive pop_failure := BadNode (head id : Z) | DoublePop (id : Z) | PopTimeout.
Inductive pop_pc := PSwap | PWalk (n : Z) | PFail (why : pop_failure).
Record p2_state := mkp2 { llhead : rword; nodes : gmap Z Z; pushers : list pusher; ppc : pop_pc; pspins : Z; popped : list Z }.

Section Phase2.
Context (kills : bool) (base : Z) (nnodes : Z) (done_target : Z).

(** [&nodes[id]] and back. *)
Definition node_at (id : Z) : Z := base + 8 * id.
Definition id_of (n : Z) : Z := u64 (n - base) / 8.
(** [seen[id]] and [popped_count]. *)
Definition seen_id (s : p2_state) (id : Z) : bool := existsb (fun n => id_of n =? id) (popped s).

(** The next access of pusher [t]: [llist_add] loads the head again after a failed [cmpxchg64]. *)
Definition p2_push (t : nat) (s : p2_state) : p2_state :=
  match pushers s !! t with
  | Some (mkpusher p (n :: rest) spins) =>
    let goto p sp := <[t := mkpusher p (n :: rest) sp]> (pushers s) in
    match p with
    | RRead => mkp2 (llhead s) (nodes s) (goto (RLink (val (llhead s))) spins) (ppc s) (pspins s) (popped s)
    | RLink first => mkp2 (llhead s) (<[n := first]> (nodes s)) (goto (RLr first) spins) (ppc s) (pspins s) (popped s)
    | RLr first =>
      let '(v, w) := lr64 t (llhead s) in
      let ps := if v =? first then goto (RSc first) spins
                else if SPIN_TIMEOUT <? spins + 1 then goto RFail (spins + 1) else goto RRead (spins + 1) in
      mkp2 w (nodes s) ps (ppc s) (pspins s) (popped s)
    | RSc first =>
      let '(ok, w) := sc64 kills t n (llhead s) in
      mkp2 w (nodes s) (if ok : bool then <[t := mkpusher RRead rest 0]> (pushers s) else goto (RLr first) spins) (ppc s) (pspins s) (popped s)
    | RFail => s
    end
  | _ => s
  end.

(** The end of a round of the consumer: [++spins]. *)
Definition p2_round (s : p2_state) (n : Z) : pop_pc * Z :=
  if n =? 0 then (if SPIN_TIMEOUT <? pspins s + 1 then PFail PopTimeout else PSwap, pspins s + 1) else (PWalk n, pspins s).
Definition p2_pop (s : p2_state) : p2_state :=
  match ppc s with
  | PSwap =>
    if alen (popped s) <? done_target then
      let '(n, w) := amoswap64 kills 0 (llhead s) in
      let '(p, sp) := p2_round s n in mkp2 w (nodes s) (pushers s) p sp (popped s)
    else s
  | PWalk n =>
    let id := id_of n in
    if 3 * nnodes <=? id then mkp2 (llhead s) (nodes s) (pushers s) (PFail (BadNode n id)) (pspins s) (popped s)
    else if seen_id s id then mkp2 (llhead s) (nodes s) (pushers s) (PFail (DoublePop id)) (pspins s) (popped s)
    else
      let '(p, sp) := p2_round s (default 0 (nodes s !! n)) in
      mkp2 (llhead s) (nodes s) (pushers s) p sp (popped s ++ [n])
  | PFail _ => s
  end.
Definition p2_step (who : option nat) (s : p2_state) : p2_state := match who with None => p2_pop s | Some t => p2_push t s end.

(** After the barrier core 0 looks for a node that was not seen. *)
Definition p2_lost (s : p2_state) : option Z := List.find (fun id => negb (seen_id s id)) (map Z.of_nat (seq 0 (Z.to_nat (3 * nnodes)))).
End Phase2.

(** *** What the program prints when it gives up *)

(** [fail()]: the text, and the exit code. *)
Definition lrsc_fail (what : string) (a b : Z) : option (list Z) * Z :=
  (out_seq [send (str "mt-lrsc: FAIL "); send (str what); send (str " a="); uart_send_integer (s32 a);
     send (str " b="); uart_send_integer (s32 b); send [10]], 1).
Section Fails.
Context (nc base nnodes n_inc : Z).

(** Of hart [t] in phase 1, and of core 0 after the barrier. *)
Definition p1_livelock (t : nat) (th : inc_thread) : option (option (list Z) * Z) :=
  match ipc th with IFail => Some (lrsc_fail "p1-sc-livelock" (Z.of_nat t) (idone th)) | _ => None end.
Definition p1_check (s : inc_state) : option (option (list Z) * Z) :=
  if negb (val (counter s) =? u64 (nc * n_inc)) then Some (lrsc_fail "p1-lost-updates" (val (counter s)) (u64 (nc * n_inc))) else None.
(** Of the popper, of the pusher on core [cid], and of core 0 after the barrier. *)
Definition p2_popper (s : p2_state) : option (option (list Z) * Z) :=
  match ppc s with
  | PFail (BadNode head id) => Some (lrsc_fail "p2-bad-node" head id)
  | PFail (DoublePop id) => Some (lrsc_fail "p2-double-pop" id 0)
  | PFail PopTimeout => Some (lrsc_fail "p2-pop-timeout" (alen (popped s)) ((nc - 1) * nnodes))
  | _ => None
  end.
Definition p2_livelock (cid : Z) (p : pusher) : option (option (list Z) * Z) :=
  match rpc p with RFail => Some (lrsc_fail "p2-push-livelock" cid (nnodes - alen (rtodo p))) | _ => None end.
Definition p2_check (s : p2_state) : option (option (list Z) * Z) :=
  option_map (fun id => lrsc_fail "p2-lost-node" id (alen (popped s))) (p2_lost base nnodes s).
(** Of hart [t] in phase 3. *)
Definition p3_timeout (t : nat) (th : mtx_thread) : option (option (list Z) * Z) :=
  match mpc th with Lrsc.MFail => Some (lrsc_fail "p3-acquire-timeout" (Z.of_nat t) (mdone th)) | _ => None end.
End Fails.

(** The nodes of the pusher on core [cid]. *)
Definition p2_pool (base nnodes : Z) (cid : nat) : list Z :=
  map (fun i => node_at base ((Z.of_nat cid - 1) * nnodes + Z.of_nat i)) (seq 0 (Z.to_nat nnodes)).
Definition p2_pools (base nnodes : Z) (nc : nat) : list (list Z) := map (p2_pool base nnodes) (seq 1 (nc - 1)).
Definition p2_start (pools : list (list Z)) : p2_state :=
  mkp2 (mkword 0 (replicate (length pools) false)) ∅ (map (fun l => mkpusher RRead l 0) pools) PSwap 0 [].

(** *** The abstraction *)

Definition abs_pc (p : push_pc) : add_pc := match p with RLink f => ALink f | RLr f => ALr f | RSc f => ASc f | _ => ARead end.
Definition abs_pusher (p : pusher) : producer := mkprod (abs_pc (rpc p)) (rtodo p).
Definition abs_pop (p : pop_pc) : con_pc := match p with PWalk n => CWalk n | _ => CPeek end.
Definition abs (s : p2_state) : lstate := mkl (llhead s) (nodes s) (map abs_pusher (pushers s)) (abs_pop (ppc s)) 0 (popped s).

Lemma abs_pushers_insert l t p : map abs_pusher (<[t := p]> l) = <[t := abs_pusher p]> (map abs_pusher l).
Proof. apply list_fmap_insert. Qed.

(** The invariant of [Llist] does not depend on the counter, nor on whether the consumer peeks or swaps. *)
Lemma inv_cpc all w nx ps c c' i i' l : llist_inv all (mkl w nx ps c i l) ->
  (match c with CWalk n => c' = c | _ => match c' with CWalk _ => False | _ => True end end) -> llist_inv all (mkl w nx ps c' i' l).
Proof.
  intros (Hnd & H0 & Hwk & W & L & HW & HL & Hp & Hr) Hc. split; [exact Hnd|split; [exact H0|split]].
  - cbn [cpc] in *. destruct c as [| |n|]; try (destruct c'; [exact I|exact I|contradiction|exact I]). rewrite Hc. exact Hwk.
  - exists W, L. split; [|split; [exact HL|split; [exact Hp|exact Hr]]]. unfold walking in *. cbn [cpc next] in *.
    destruct c as [| |n|]; try (destruct c'; [exact HW|exact HW|contradiction|exact HW]). rewrite Hc. exact HW.
Qed.

Lemma push_inv all t s : llist_inv all (abs s) -> llist_inv all (abs (p2_push true t s)).
Proof.
  intros Hi. unfold p2_push. destruct (pushers s !! t) as [[p [|n rest] spins]|] eqn:Ht; [exact Hi| |exact Hi].
  assert (Ha : prods (abs s) !! t = Some (abs_pusher (mkpusher p (n :: rest) spins))) by (cbn [abs prods]; rewrite list_lookup_fmap, Ht; reflexivity).
  pose proof (llist_add_inv all t (abs s) Hi) as Hl. unfold llist_add_step in Hl. rewrite Ha in Hl. unfold abs_pusher in Hl. cbn [rpc rtodo] in Hl.
  destruct p as [|first|first|first|]; cbn [abs_pc] in Hl.
  - unfold abs at 1. cbn [llhead nodes pushers ppc popped]. rewrite abs_pushers_insert. exact Hl.
  - unfold abs at 1. cbn [llhead nodes pushers ppc popped]. rewrite abs_pushers_insert. exact Hl.
  - clear Hl. unfold lr64. cbv beta iota zeta. set (w := mkword _ _). assert (Hw : forall p', rtodo p' = n :: rest ->
      (abs_pc (rpc p') = ARead \/ (abs_pc (rpc p') = ASc first /\ val (llhead s) = first)) ->
      llist_inv all (abs (mkp2 w (nodes s) (<[t := p']> (pushers s)) (ppc s) (pspins s) (popped s)))).
    { intros p' Htd Hpc. unfold abs. cbn [llhead nodes pushers ppc popped]. rewrite abs_pushers_insert.
      apply (local_step all (abs s) t _ (abs_pusher p') w Hi Ha); [cbn [abs_pusher todo]; rewrite Htd; reflexivity|reflexivity| |].
      - intros u Hu Hru. pose proof (reserved_lr_ne t u (llhead s) Hu) as E. unfold lr64 in E. cbn [snd] in E. exact (eq_trans (eq_sym E) Hru).
      - destruct Hi as (_ & _ & _ & W & L & _ & _ & _ & Hr). specialize (Hr t _ Ha). cbn [abs_pusher abs_pc rpc apc todo rtodo] in Hr |- *. rewrite Htd.
        destruct Hpc as [->|[-> Hv]]; [exact I|]. cbn [abs_pc] in Hr. split; [exact Hr|intros _; symmetry; exact Hv]. }
    destruct (Z.eqb_spec (val (llhead s)) first) as [E|E]; [apply Hw; [reflexivity|right; split; [reflexivity|exact E]]|].
    destruct (SPIN_TIMEOUT <? spins + 1); apply Hw; try reflexivity; left; reflexivity.
  - change (Llist.head (abs s)) with (llhead s) in Hl. destruct (sc64 true t n (llhead s)) as [ok w]. unfold abs at 1. cbn [llhead nodes pushers ppc popped].
    destruct ok; rewrite abs_pushers_insert; exact Hl.
  - exact Hi.
Qed.

Lemma popped_sub all s : llist_inv all (abs s) -> forall n, In n (popped s) -> In n all.
Proof. intros (_ & _ & _ & W & L & _ & _ & Hp & _) n Hn. rewrite <- list_elem_of_In in *. rewrite <- Hp. cbn [abs seen]. set_solver. Qed.

Section Pop.
Context (base nnodes target : Z) (all : list Z).
(** What the checks of the consumer rely on: the nodes lie in the pool. *)
Hypothesis in_pool : forall n, In n all -> exists id, n = node_at base id /\ 0 <= id < 3 * nnodes.
Hypothesis pool_fits : 0 <= base /\ base + 24 * nnodes < 2 ^ 64.

Lemma id_node id : 0 <= id < 3 * nnodes -> id_of base (node_at base id) = id.
Proof.
  change (2 ^ 64) with 18446744073709551616 in pool_fits. intros Hid. unfold id_of, node_at. replace (base + 8 * id - base) with (8 * id) by lia.
  rewrite u64_id by (unfold is_u64; lia). rewrite Z.mul_comm. apply Z.div_mul. discriminate.
Qed.
Lemma seen_id_in s id : (forall n, In n (popped s) -> In n all) -> 0 <= id < 3 * nnodes -> seen_id base s id = true <-> In (node_at base id) (popped s).
Proof.
  intros Hsub Hid. unfold seen_id. rewrite existsb_exists. split.
  - intros (n & Hn & E). apply Z.eqb_eq in E. destruct (in_pool n (Hsub n Hn)) as (id' & -> & Hid'). rewrite id_node in E by exact Hid'. rewrite <- E. exact Hn.
  - intros Hn. eexists. split; [exact Hn|]. apply Z.eqb_eq, id_node, Hid.
Qed.

Definition p2_ok (s : p2_state) : Prop := llist_inv all (abs s) /\ match ppc s with PFail (BadNode _ _) | PFail (DoublePop _) => False | _ => True end.

Lemma pop_inv s : p2_ok s -> p2_ok (p2_pop true base nnodes target s).
Proof.
  intros [Hi Hf]. unfold p2_pop. destruct (ppc s) as [|n|why] eqn:Ec; [| |split; [exact Hi|rewrite Ec; exact Hf]].
  - destruct (_ <? target); [|split; [exact Hi|rewrite Ec; exact I]]. unfold abs in Hi. rewrite Ec in Hi. cbn [abs_pop] in Hi.
    apply (inv_cpc _ _ _ _ _ CSwap _ 0) in Hi; [|exact I]. apply (consumer_inv all target) in Hi. unfold consumer_step in Hi. cbn [cpc Llist.head next prods seen amoswap64] in Hi.
    cbn [amoswap64]. unfold p2_round. destruct (Z.eqb_spec (val (llhead s)) 0) as [E|E].
    + destruct (SPIN_TIMEOUT <? pspins s + 1); (split; [exact Hi|exact I]).
    + split; [exact Hi|exact I].
  - unfold abs in Hi. rewrite Ec in Hi. cbn [abs_pop] in Hi. pose proof Hi as (Hnd & H0 & Hwk & W & L & HW & HL & Hp & _). cbn [cpc] in Hwk. unfold walking in HW. cbn [cpc next seen] in HW, Hp.
    apply (chain_cons _ _ _ Hwk) in HW as (W' & -> & _). assert (Hn : In n all) by (rewrite <- list_elem_of_In, <- Hp; set_solver).
    assert (Hnew : ~ In n (popped s)).
    { intros H. rewrite <- Hp in Hnd. apply NoDup_app in Hnd as (_ & Hd & _). rewrite <- list_elem_of_In in H. apply (Hd n H). set_solver. }
    destruct (in_pool n Hn) as (id & -> & Hid). rewrite id_node by exact Hid. cbv zeta. destruct (Z.leb_spec (3 * nnodes) id); [lia|].
    assert (Es : seen_id base s id = false).
    { apply not_true_is_false. rewrite seen_id_in; [exact Hnew| |exact Hid]. intros m Hm. rewrite <- list_elem_of_In in *. rewrite <- Hp. set_solver. }
    rewrite Es. apply (consumer_inv all target) in Hi. unfold consumer_step, next_of in Hi. cbn [cpc Llist.head next prods seen idle] in Hi.
    unfold p2_round. destruct (Z.eqb_spec (default 0 (nodes s !! node_at base id)) 0) as [E|E].
    + destruct (SPIN_TIMEOUT <? pspins s + 1); (split; [exact Hi|exact I]).
    + split; [exact Hi|exact I].
Qed.

Lemma p2_step_ok who s : p2_ok s -> p2_ok (p2_step true base nnodes target who s).
Proof.
  intros [Hi Hf]. destruct who as [t|]; [|apply pop_inv; split; assumption]. split; [apply push_inv, Hi|].
  unfold p2_step, p2_push. destruct (pushers s !! t) as [[p [|n rest] spins]|]; try exact Hf. destruct p; try exact Hf.
  destruct (sc64 true t n (llhead s)). exact Hf.
Qed.
End Pop.

(** *** The pools of the program *)

Section Pools.
Context (base nnodes : Z) (nc : nat).
Hypothesis Hb : 0 < base.
Hypothesis Hfit : base + 24 * nnodes < 2 ^ 64.
Hypothesis Hn : 0 <= nnodes.
Hypothesis Hnc : (1 <= nc <= 4)%nat.

Lemma pools_ids : concat (p2_pools base nnodes nc) = map (node_at base) (map Z.of_nat (seq 0 (Z.to_nat (nnodes * (Z.of_nat nc - 1))))).
Proof.
  unfold p2_pools. assert (E : forall m, concat (map (p2_pool base nnodes) (seq 1 m)) = map (node_at base) (map Z.of_nat (seq 0 (Z.to_nat (nnodes * Z.of_nat m))))).
  { induction m as [|m IH]; [rewrite Z.mul_0_r; reflexivity|]. rewrite seq_S, map_app, concat_app, IH. cbn [map concat]. rewrite app_nil_r.
    replace (Z.to_nat (nnodes * Z.of_nat (S m))) with (Z.to_nat (nnodes * Z.of_nat m) + Z.to_nat nnodes)%nat by nia.
    rewrite seq_app, !map_app. f_equal. unfold p2_pool. rewrite !map_map. rewrite <- (Watch.map_seq_shift (fun i => node_at base (Z.of_nat i))).
    apply map_ext. intros i. f_equal. nia. }
  rewrite E. replace (Z.of_nat (nc - 1)) with (Z.of_nat nc - 1) by lia. reflexivity.
Qed.
Lemma pools_in n : In n (concat (p2_pools base nnodes nc)) <-> exists id, n = node_at base id /\ 0 <= id < nnodes * (Z.of_nat nc - 1).
Proof.
  rewrite pools_ids, map_map, in_map_iff. split.
  - intros (i & <- & Hi). apply in_seq in Hi. exists (Z.of_nat i). split; [reflexivity|lia].
  - intros (id & -> & Hid). exists (Z.to_nat id). rewrite Z2Nat.id by lia. split; [reflexivity|]. apply in_seq. lia.
Qed.
Lemma pools_nodup : NoDup (concat (p2_pools base nnodes nc)).
Proof.
  rewrite pools_ids, map_map. apply NoDup_ListNoDup, Finite.Injective_map_NoDup; [intros i j; unfold node_at; lia|apply seq_NoDup].
Qed.
End Pools.

(** Phase 2 under the rule of the architecture, in any schedule: the consumer never meets a
    node that is not of the pool nor one it has seen, every node it has popped was pushed,
    once it has popped as many as were to be pushed it has them all; and the check after the
    barrier then finds a lost node exactly when fewer than four harts run. *)
Theorem p2_exact base nnodes nc sched : 0 < base -> base + 24 * nnodes < 2 ^ 64 -> 0 < nnodes -> (1 <= nc <= 4)%nat ->
  let pools := p2_pools base nnodes nc in
  let target := (Z.of_nat nc - 1) * nnodes in
  let s := exec (p2_step true base nnodes target) sched (p2_start pools) in
  (match ppc s with PFail (BadNode _ _) | PFail (DoublePop _) => False | _ => True end) /\
  NoDup (popped s) /\ (forall n, In n (popped s) -> In n (concat pools)) /\
  (alen (popped s) = target -> popped s ≡ₚ concat pools /\ (p2_lost base nnodes s = None <-> nc = 4%nat)).
Proof.
  intros Hb Hfit Hn Hnc pools target s. assert (Hin : forall n, In n (concat pools) <-> exists id, n = node_at base id /\ 0 <= id < nnodes * (Z.of_nat nc - 1)) by (intros n; apply pools_in; lia).
  assert (Hpool : forall n, In n (concat pools) -> exists id, n = node_at base id /\ 0 <= id < 3 * nnodes).
  { intros n H. apply Hin in H as (id & -> & Hid). exists id. split; [reflexivity|nia]. }
  assert (Hok : p2_ok (concat pools) s).
  { apply (exec_inv (p2_step true base nnodes target) (p2_ok (concat pools))).
    - intros o s0 Hs0. apply p2_step_ok; [exact Hpool|lia|exact Hs0].
    - split; [|exact I]. pose proof (llist_start_inv pools) as Hs. assert (E : abs (p2_start pools) = llist_start pools).
      { unfold abs, p2_start, llist_start. cbn. f_equal. rewrite map_map. reflexivity. }
      rewrite E. apply Hs; [apply pools_nodup; lia|]. intros H. apply Hin in H as (id & E0 & Hid). unfold node_at in E0. lia. }
  destruct Hok as [Hi Hf]. split; [exact Hf|]. pose proof (popped_sub _ s Hi) as Hsub. pose proof Hi as (Hnd & _ & _ & W & L & _ & _ & Hp & _).
  pose proof Hnd as Hnd'. rewrite <- Hp in Hnd'. apply NoDup_app in Hnd' as (Hs & _ & _). cbn [abs seen] in Hs, Hp. split; [exact Hs|]. split; [exact Hsub|].
  intros Hlen. assert (Elen : length (concat pools) = Z.to_nat target).
  { unfold pools. rewrite pools_ids by lia. rewrite !length_map, length_seq. f_equal. unfold target. lia. }
  assert (Eall : popped s ≡ₚ concat pools).
  { apply submseteq_length_Permutation; [|unfold alen in Hlen; lia]. apply NoDup_submseteq; [exact Hs|]. intros n Hn'. rewrite list_elem_of_In in *. apply Hsub, Hn'. }
  split; [exact Eall|]. unfold p2_lost. pose proof (seen_id_in base nnodes (concat pools) Hpool ltac:(lia) s) as Hseen.
  split.
  - intros E. destruct (Nat.eq_dec nc 4%nat) as [|Hne]; [assumption|]. exfalso.
    pose proof (List.find_none _ _ E (3 * nnodes - 1)) as Hno. cbv beta in Hno. rewrite negb_false_iff in Hno.
    assert (Hl : In (3 * nnodes - 1) (map Z.of_nat (seq 0 (Z.to_nat (3 * nnodes))))) by (apply in_map_iff; exists (Z.to_nat (3 * nnodes - 1)); rewrite in_seq; lia).
    specialize (Hno Hl). apply Hseen in Hno; [|exact Hsub|lia]. apply Hsub, Hin in Hno as (id & E0 & Hid). unfold node_at in E0. nia.
  - intros ->. destruct (List.find _ _) as [id|] eqn:E; [|reflexivity]. exfalso. apply List.find_some in E as [Hl E]. apply negb_true_iff in E.
    apply in_map_iff in Hl as (i & <- & Hi'). apply in_seq in Hi'. enough (seen_id base s (Z.of_nat i) = true) by congruence. apply Hseen; [exact Hsub|lia|].
    rewrite <- list_elem_of_In, Eall, list_elem_of_In. apply Hin. exists (Z.of_nat i). split; [reflexivity|lia].
Qed.

(** Two harts, one node: it is pushed and popped, and the check reports node 1 as lost. *)
Lemma p2_needs_four_harts :
  let s := exec (p2_step true 64 1 1) (repeat (Some 0%nat) 4 ++ repeat None 2) (p2_start (p2_pools 64 1 2)) in
  popped s = concat (p2_pools 64 1 2) /\ p2_lost 64 1 s = Some 1.
Proof. split; vm_compute; reflexivity. Qed.

Lemma p2_exact_witness :
  let pools := p2_pools 64 1 4 in
  let target := (Z.of_nat 4 - 1) * 1 in
  let s := exec (p2_step true 64 1 target) (map Some [0; 0; 0; 1; 1; 1; 0; 1; 1; 1; 1; 1; 1; 2; 2; 2; 2]%nat ++ repeat None 4) (p2_start pools) in
  popped s = [80; 72; 64] /\
  (match ppc s with PFail (BadNode _ _) | PFail (DoublePop _) => False | _ => True end) /\
  NoDup (popped s) /\ (forall n, In n (popped s) -> In n (concat pools)) /\
  (alen (popped s) = target -> popped s ≡ₚ concat pools /\ (p2_lost 64 1 s = None <-> 4%nat = 4%nat)).
Proof.
  cbv zeta. split; [vm_compute; reflexivity|]. apply (p2_exact 64 1 4); [reflexivity|reflexivity|reflexivity|lia].
Defined.
