(* ===== verification/Ledger.v ===== *)
(** * The cross-call probes: [linux_llist_probe.cpp] and [linux_csd_probe.cpp]

    Both restore a checkpoint of a Linux boot and judge why a hart waits forever in
    [csd_lock_wait].

    [linux_llist_probe] keeps a ledger of the cross-call queues: it recognises the
    two atomic operations of the list by the PCs after them and reads the operands
    from the register file. Its state is split into the [books] and the watch over
    the spin loop; the theorem [ledger_verdict] relates its verdict to the events of
    the run as a whole, [spin_hang_exact] its stopping rule to the trace of PCs.

    [linux_csd_probe] compares the lock word in DRAM with the values the waiting
    hart loads. *)

From stdpp Require Import sorting.
From S2P Require Import Prelude Rtl Firesim Watch.

(** ** [linux_llist_probe.cpp] *)

Definition kPushDone : Z := 0x803fc6dc.
Definition kPopDone : Z := 0x80294c40.
Definition kFlushEnt : Z := 0x80294be4.
Definition kIpiSingle : Z := 0x80233da8.
Definition kIpiMask : Z := 0x80204c84.
Definition kSpinLo : Z := 0x802952b0.
Definition kSpinHi : Z := 0x802952e0.

Inductive ev_kind := Push | Pop | Flush | IpiSingle | IpiMask.
#[global] Instance ev_kind_dec : EqDecision ev_kind.
Proof. solve_decision. Defined.
Record Event := mkevent { e_cyc : Z; e_hart : nat; e_kind : ev_kind; queue : Z; node : Z; ok : Z }.

Record llist_options := { SPIN_HANG : Z; KEEP : nat; TRACE_FROM : Z; TRACE_TO : Z; TRACE_HART : Z; watch_addr : Z; WATCH_TAIL : Z }.
(** With no environment variable set. *)
Definition llist_defaults : llist_options :=
  {| SPIN_HANG := 3000000; KEEP := 240; TRACE_FROM := 0xFFFFFFFFFFFFFFFF; TRACE_TO := 0; TRACE_HART := -1; watch_addr := 0; WATCH_TAIL := 2000000 |}.
Definition LLIST_CYCLES : Z := 120000000.

(** *** The books *)

(** [kept] is the deque of the last events, the maps are by queue. *)
Record books := mkbooks {
  kept : list Event; pushes : gmap Z Z; pops : gmap Z Z; pops_null : gmap Z Z; live : gmap Z Z;
  total_push : Z; total_pop : Z }.
Definition books_new : books := mkbooks [] ∅ ∅ ∅ ∅ 0 0.

Definition committed (e : Event) : bool := bool_decide (e_kind e = Push) && (ok e =? 0).
Definition drained (e : Event) : bool := bool_decide (e_kind e = Pop) && negb (node e =? 0).
Definition empty_pop (e : Event) : bool := bool_decide (e_kind e = Pop) && (node e =? 0).

Definition book (keep : nat) (b : books) (e : Event) : books :=
  let kept := deque_push keep e (kept b) in
  let q := queue e in
  if committed e then mkbooks kept (bump q (pushes b)) (pops b) (pops_null b) (bump q (live b)) (u64 (total_push b + 1)) (total_pop b)
  else if drained e then mkbooks kept (pushes b) (bump q (pops b)) (pops_null b) (<[q := 0]> (live b)) (total_push b) (u64 (total_pop b + 1))
  else if empty_pop e then mkbooks kept (pushes b) (pops b) (bump q (pops_null b)) (live b) (total_push b) (total_pop b)
  else mkbooks kept (pushes b) (pops b) (pops_null b) (live b) (total_push b) (total_pop b).

Definition live_of (b : books) (q : Z) : Z := default 0 (live b !! q).
(** A queue that was pushed to and still has a live entry. *)
Definition leak (b : books) : bool := existsb (fun kv => negb (live_of b kv.1 =? 0)) (map_to_list (pushes b)).
(** The table: queue, pushes, pops, empty pops, live entries; the queues that were pushed to, in order. *)
Definition ledger_rows (b : books) : list (Z * Z * Z * Z * Z) :=
  map (fun q => (q, default 0 (pushes b !! q), default 0 (pops b !! q), default 0 (pops_null b !! q), live_of b q))
    (merge_sort Z.le (map fst (map_to_list (pushes b)))).

Inductive queue_verdict := StoreDropped | NoPushSeen | LostAfterPop.
Definition verdict_of (b : books) : queue_verdict :=
  if leak b then StoreDropped else if total_push b =? 0 then NoPushSeen else LostAfterPop.

(** *** The state of the probe *)

Record llist_state := mkllist {
  prev_pc_seen : list Z;
  ledger : books;
  in_spin : list bool; spin_since : list Z;
  pchist : list (gmap Z Z); traced : list (Z * nat * Z);
  watch_prev : Z; watch_armed : bool; watch_at : Z; flips : list (Z * Z * Z * list Z);
  con : console; progress : list (Z * Z * Z) }.

Inductive llist_stop := LockObserved | SpinHang (harts : list (nat * Z * Z)).

Section Llist.
Context `{Model} (o : llist_options).

(** What the commit of [pc] on hart [h] says about a queue. *)
Definition event_at (tb : Vsystem) (cyc : Z) (h : nat) (pc : Z) : option Event :=
  let x := reg (raw tb) (Z.of_nat h) in
  if pc =? kPushDone then Some (mkevent cyc h Push (x 12) (x 10) (x 13))
  else if pc =? kPopDone then Some (mkevent cyc h Pop (x 15) (x 10) 0)
  else if pc =? kFlushEnt then Some (mkevent cyc h Flush 0 0 0)
  else if pc =? kIpiSingle then Some (mkevent cyc h IpiSingle 0 (x 10) 0)
  else if pc =? kIpiMask then Some (mkevent cyc h IpiMask 0 (x 10) 0)
  else None.
Definition spinning (pc : Z) : bool := (kSpinLo <=? pc) && (pc <? kSpinHi).
Definition in_trace (cyc : Z) (h : nat) : bool :=
  (TRACE_FROM o <=? cyc) && (cyc <? TRACE_TO o) && ((TRACE_HART o <? 0) || (TRACE_HART o =? Z.of_nat h)).

(** One hart in one cycle. *)
Definition llist_hart (tb : Vsystem) (cyc : Z) (s : llist_state) (h : nat) : llist_state :=
  match sampled tb (default 0 (prev_pc_seen s !! h)) h with
  | None => s
  | Some pc =>
    mkllist (<[h := pc]> (prev_pc_seen s))
      (match event_at tb cyc h pc with Some e => book (KEEP o) (ledger s) e | None => ledger s end)
      (<[h := spinning pc]> (in_spin s))
      (if spinning pc && negb (default false (in_spin s !! h)) then <[h := cyc]> (spin_since s) else spin_since s)
      (if watch_armed s then alter (bump pc) h (pchist s) else pchist s)
      (if in_trace cyc h then traced s ++ [(cyc, h, pc)] else traced s)
      (watch_prev s) (watch_armed s) (watch_at s) (flips s) (con s) (progress s)
  end.

(** The flag watchpoint on the lock word. *)
Definition flag_word (tb : Vsystem) : Z := u32 (read_dram64 (raw tb) (u64 (watch_addr o + 8))).
Definition set_watch (prev : Z) (armed : bool) (at_ : Z) (hist : list (gmap Z Z)) (fl : list (Z * Z * Z * list Z)) (s : llist_state) : llist_state :=
  mkllist (prev_pc_seen s) (ledger s) (in_spin s) (spin_since s) hist (traced s) prev armed at_ fl (con s) (progress s).
Definition flag_changed (tb : Vsystem) (cyc : Z) (s : llist_state) : llist_state :=
  let f := flag_word tb in
  if f =? watch_prev s then s
  else
    let fl := flips s ++ [(cyc, watch_prev s, f, map (fun h => core_pc (raw tb) (Z.of_nat h)) harts4)] in
    if Z.land f 1 =? 0 then set_watch f false (watch_at s) (pchist s) fl s else set_watch f true cyc (replicate 4 ∅) fl s.
Definition flag_watch (tb : Vsystem) (cyc : Z) (s : llist_state) : bool * llist_state :=
  if watch_addr o =? 0 then (false, s)
  else let s := flag_changed tb cyc s in (watch_armed s && (WATCH_TAIL o <? u64 (cyc - watch_at s)), s).

(** The harts that have sat in the spin loop for more than [SPIN_HANG] cycles. *)
Definition hung (cyc : Z) (s : llist_state) : list (nat * Z * Z) :=
  omap (fun h =>
    let since := default 0 (spin_since s !! h) in
    if default false (in_spin s !! h) && (SPIN_HANG o <? u64 (cyc - since)) then Some (h, since, u64 (cyc - since)) else None) harts4.

Definition set_console (c : console) (p : list (Z * Z * Z)) (s : llist_state) : llist_state :=
  mkllist (prev_pc_seen s) (ledger s) (in_spin s) (spin_since s) (pchist s) (traced s) (watch_prev s) (watch_armed s) (watch_at s) (flips s) c p.

(** One iteration of the loop up to the clock edges; [i] is [cyc - start_cyc]. *)
Definition llist_look (start_cyc : Z) (tb : Vsystem) (cyc : Z) (s : llist_state) : option llist_stop * llist_state :=
  let s := fold_left (llist_hart tb cyc) harts4 s in
  let s := set_console (uart_ports true tb cyc (con s)) (progress s) s in
  let '(locked, s) := flag_watch tb cyc s in
  if locked then (Some LockObserved, s) else
  match hung cyc s with
  | [] => (None, if (cyc - start_cyc + 1) mod 10000000 =? 0
                 then set_console (con s) (progress s ++ [(cyc, total_push (ledger s), total_pop (ledger s))]) s else s)
  | l => (Some (SpinHang l), s)
  end.

Definition ledger_start (k : probe_ckpt) : llist_state :=
  mkllist [0; 0; 0; 0] books_new (replicate 4 false) [0; 0; 0; 0] (replicate 4 ∅) []
    (if watch_addr o =? 0 then 0 else flag_word (k_tb k)) false 0 [] (mkconsole [] (k_uart_bytes k) (k_last_uart_cyc k)) [].

Definition llist_run (RUN : nat) (k : probe_ckpt) : option llist_stop * (Vsystem * Z * llist_state) :=
  pre_loop (fun _ => true) (llist_look (k_cyc k)) RUN (k_tb k) (k_cyc k) (ledger_start k).

(** What is printed at the end. *)
Record llist_report := { window : Z * Z; stop_reason : option llist_stop; totals : Z * Z; rows : list (Z * Z * Z * Z * Z);
  last_events : list Event; sat : list (list (Z * Z)); verdict : queue_verdict }.
(** [ckpt]: the checkpoint named by [CKPT_RESTORE]; [None] when it is unset or cannot be opened. *)
Definition llist_main (RUN : nat) (ckpt : option probe_ckpt) : Z * option llist_report :=
  match ckpt with
  | None => (1, None)
  | Some k =>
    let '(r, (_, cyc, s)) := llist_run RUN k in
    let b := ledger s in
    (0, Some {| window := (k_cyc k, cyc); stop_reason := r; totals := (total_push b, total_pop b); rows := ledger_rows b;
                last_events := kept b; sat := map (top_of 6) (pchist s); verdict := verdict_of b |})
  end.
End Llist.

(** ** The run as a trace *)

Section Trace.
Context `{Model} (o : llist_options) (tb0 : Vsystem) (cyc0 : Z).
Definition trace (k : nat) : Vsystem := eval (after tb0 k).
(** The events of look [k], and of the first [n] looks. *)
Definition look_events (k : nat) : list Event :=
  omap (fun h => match taken trace h k with Some pc => event_at (trace k) (cyc0 + Z.of_nat k) h pc | None => None end) harts4.
Definition events (n : nat) : list Event := flat_map look_events (seq 0 n).
(** Since when every PC taken from hart [h] has been in the spin loop. *)
Fixpoint spun (h k : nat) : option Z :=
  match k with
  | O => None
  | S k => match taken trace h k with
           | None => spun h k
           | Some pc => if spinning pc then Some (default (cyc0 + Z.of_nat k) (spun h k)) else None
           end
  end.

Lemma events_S n : events (S n) = events n ++ look_events n.
Proof. unfold events. rewrite seq_S, flat_map_app. cbn [flat_map]. rewrite app_nil_r. reflexivity. Qed.

(** The fields a hart's commits change, after look number [k]. *)
Definition hart_at (k : nat) (s : llist_state) (h : nat) : Prop :=
  prev_pc_seen s !! h = Some (last_taken trace h k) /\
  in_spin s !! h = Some (match spun h k with Some _ => true | None => false end) /\
  (exists c, spin_since s !! h = Some c /\ forall c', spun h k = Some c' -> c = c').

Lemma llist_hart_other j tb cyc s h h' : h <> h' -> hart_at j s h' -> hart_at j (llist_hart o tb cyc s h) h'.
Proof.
  intros Hne (H1 & H2 & H3). unfold llist_hart. destruct (sampled _ _ _) as [pc|]; [|split; [|split]; assumption].
  unfold hart_at. cbn [prev_pc_seen in_spin spin_since]. split; [|split].
  - rewrite list_lookup_insert_ne by exact Hne. exact H1.
  - rewrite list_lookup_insert_ne by exact Hne. exact H2.
  - destruct H3 as (c & H3 & H4). exists c. split; [|exact H4]. destruct (_ && _); [rewrite list_lookup_insert_ne by exact Hne|]; exact H3.
Qed.

Lemma llist_hart_self k s h : hart_at k s h -> hart_at (S k) (llist_hart o (trace k) (cyc0 + Z.of_nat k) s h) h.
Proof.
  intros (H1 & H2 & c & H3 & H4). unfold llist_hart. rewrite H1. cbn [from_option id].
  change (sampled (trace k) (last_taken trace h k) h) with (taken trace h k).
  unfold hart_at. cbn [last_taken spun]. change (sampled (trace k) (last_taken trace h k) h) with (taken trace h k).
  destruct (taken trace h k) as [pc|]; [|split; [exact H1|split; [exact H2|exists c; split; assumption]]].
  cbn [prev_pc_seen in_spin spin_since]. pose proof (lookup_lt_Some _ _ _ H1) as L1. pose proof (lookup_lt_Some _ _ _ H2) as L2.
  pose proof (lookup_lt_Some _ _ _ H3) as L3. rewrite H2. cbn [from_option id]. rewrite !list_lookup_insert_eq by assumption.
  split; [reflexivity|]. destruct (spinning pc); cbn [andb].
  - split; [reflexivity|]. destruct (spun h k) as [c'|]; cbn [negb from_option id].
    + exists c. split; [exact H3|]. intros ? [= <-]. apply H4. reflexivity.
    + eexists. split; [apply list_lookup_insert_eq, L3|]. intros ? [= <-]. reflexivity.
  - split; [reflexivity|]. exists c. split; [exact H3|discriminate].
Qed.

Lemma llist_hart_ledger k s h : hart_at k s h ->
  ledger (llist_hart o (trace k) (cyc0 + Z.of_nat k) s h) =
  fold_left (book (KEEP o)) (omap (fun h => match taken trace h k with Some pc => event_at (trace k) (cyc0 + Z.of_nat k) h pc | None => None end) [h]) (ledger s).
Proof.
  intros (H1 & _ & _). unfold llist_hart. rewrite H1. cbn [from_option id omap list_omap].
  change (sampled (trace k) (last_taken trace h k) h) with (taken trace h k).
  destruct (taken trace h k) as [pc|]; [|reflexivity]. cbn [ledger]. destruct (event_at _ _ _ _); reflexivity.
Qed.

Lemma llist_harts k l : forall s, NoDup l -> (forall h, In h l -> hart_at k s h) -> (forall h, ~ In h l -> In h harts4 -> hart_at (S k) s h) ->
  let s' := fold_left (llist_hart o (trace k) (cyc0 + Z.of_nat k)) l s in
  (forall h, In h harts4 -> In h l \/ hart_at (S k) s h -> hart_at (S k) s' h) /\
  ledger s' = fold_left (book (KEEP o)) (omap (fun h => match taken trace h k with Some pc => event_at (trace k) (cyc0 + Z.of_nat k) h pc | None => None end) l) (ledger s).
Proof.
  induction l as [|h l IH]; intros s Hnd Hk Hd; cbn [fold_left].
  - split; [|reflexivity]. intros h _ [[]|Hh]. exact Hh.
  - apply NoDup_cons in Hnd as [Hh Hnd]. rewrite list_elem_of_In in Hh.
    destruct (IH (llist_hart o (trace k) (cyc0 + Z.of_nat k) s h)) as [A B]; [exact Hnd| | |].
    + intros h' Hin. apply llist_hart_other; [intros ->; contradiction|]. apply Hk. right. exact Hin.
    + intros h' Hn H4. destruct (Nat.eq_dec h h') as [<-|Hne]; [apply llist_hart_self, Hk; left; reflexivity|].
      apply llist_hart_other; [exact Hne|]. apply Hd; [intros [->|?]; contradiction|exact H4].
    + split.
      * intros h' H4 Hor. apply A; [exact H4|]. destruct (Nat.eq_dec h h') as [<-|Hne]; [right; apply llist_hart_self, Hk; left; reflexivity|].
        destruct Hor as [[?|Hin]|Hs]; [contradiction|left; exact Hin|].
        destruct (in_dec Nat.eq_dec h' l) as [Hin|Hn]; [left; exact Hin|right].
        apply llist_hart_other; assumption.
      * rewrite B, llist_hart_ledger by (apply Hk; left; reflexivity). rewrite <- fold_left_app. f_equal.
        cbn [omap list_omap]. destruct (match taken trace h k with Some pc => _ | None => None end); reflexivity.
Qed.
End Trace.

(** ** What the books say about the events *)

Definition unclaimed (q : Z) (l : list Event) : Z :=
  fold_left (fun n e => if committed e && (queue e =? q) then n + 1 else if drained e && (queue e =? q) then 0 else n) l 0.
(** A committed push to [q] in [l] with no later pop of [q] that took anything. *)
Definition undrained (q : Z) (l : list Event) : Prop :=
  exists l1 e l2, l = l1 ++ e :: l2 /\ committed e = true /\ queue e = q /\
    Forall (fun e' => queue e' = q -> drained e' = false) l2.

Lemma push_not_drain e : committed e = true -> drained e = false.
Proof. unfold committed, drained. rewrite andb_true_iff, bool_decide_eq_true. intros [-> _]. reflexivity. Qed.

Lemma unclaimed_snoc q l e : unclaimed q (l ++ [e]) =
  if committed e && (queue e =? q) then unclaimed q l + 1 else if drained e && (queue e =? q) then 0 else unclaimed q l.
Proof. unfold unclaimed. rewrite fold_left_app. reflexivity. Qed.

Lemma unclaimed_range q l : 0 <= unclaimed q l <= Z.of_nat (length l).
Proof.
  induction l as [|e l IH] using rev_ind; [cbn; lia|]. rewrite unclaimed_snoc, length_app. cbn [length].
  destruct (committed e && _); [lia|]. destruct (drained e && _); lia.
Qed.

Lemma undrained_snoc q l x : undrained q (l ++ [x]) <->
  (committed x = true /\ queue x = q) \/ (undrained q l /\ (queue x = q -> drained x = false)).
Proof.
  split.
  - intros (l1 & e & l2 & El & Hc & Hq & Hf). destruct l2 as [|y l2 _] using rev_ind.
    + apply app_inj_tail in El as [_ ->]. left. split; assumption.
    + rewrite app_comm_cons, app_assoc in El. apply app_inj_tail in El as [-> ->]. apply Forall_app in Hf as [Hf Hy]. apply Forall_cons in Hy as [Hy _].
      right. split; [|exact Hy]. exists l1, e, l2. split; [reflexivity|]. split; [exact Hc|]. split; [exact Hq|exact Hf].
  - intros [[Hc Hq]|[(l1 & e & l2 & -> & Hc & Hq & Hf) Hx]].
    + exists l, x, []. split; [reflexivity|]. split; [exact Hc|]. split; [exact Hq|constructor].
    + exists l1, e, (l2 ++ [x]). split; [rewrite <- app_assoc; reflexivity|]. split; [exact Hc|]. split; [exact Hq|].
      apply Forall_app. split; [exact Hf|]. constructor; [exact Hx|constructor].
Qed.

Lemma unclaimed_undrained q l : unclaimed q l <> 0 <-> undrained q l.
Proof.
  induction l as [|e l IH] using rev_ind.
  { split; [cbn; congruence|]. intros (l1 & e & l2 & E & _). destruct l1; discriminate. }
  rewrite unclaimed_snoc, undrained_snoc. pose proof (unclaimed_range q l) as Hr. pose proof (push_not_drain e) as Hd.
  destruct (committed e), (drained e), (Z.eqb_spec (queue e) q); cbn [andb]; rewrite ?IH; intuition (try congruence; try lia).
Qed.

Definition counted (f : Event -> bool) (l : list Event) : Z := Z.of_nat (length (List.filter f l)).
Lemma counted_snoc f l e : counted f (l ++ [e]) = counted f l + Z.b2z (f e).
Proof. unfold counted. rewrite List.filter_app, length_app. cbn [List.filter]. destruct (f e); cbn [length Z.b2z]; lia. Qed.
Lemma counted_range f l : 0 <= counted f l <= Z.of_nat (length l).
Proof. unfold counted. pose proof (List.filter_length_le f l). lia. Qed.

Definition to_queue (q : Z) (f : Event -> bool) (e : Event) : bool := f e && (queue e =? q).
Definition book_all (keep : nat) (l : list Event) : books := fold_left (book keep) l books_new.

Lemma bump_lookup k m q : default 0 (bump k m !! q) = if k =? q then u64 (default 0 (m !! k) + 1) else default 0 (m !! q).
Proof.
  unfold bump. destruct (Z.eqb_spec k q) as [->|Hne]; [rewrite lookup_insert_eq|rewrite lookup_insert_ne by exact Hne]; reflexivity.
Qed.

Lemma drain_not_empty e : drained e = true -> empty_pop e = false.
Proof. unfold drained, empty_pop. rewrite andb_true_iff. intros [-> Hn]. apply negb_true_iff in Hn. rewrite Hn. reflexivity. Qed.
Lemma push_not_empty e : committed e = true -> empty_pop e = false.
Proof. unfold committed, empty_pop. rewrite andb_true_iff, bool_decide_eq_true. intros [-> _]. reflexivity. Qed.

(** One event, one queue. *)
Lemma book_queue keep b e q :
  live_of (book keep b e) q = (if committed e && (queue e =? q) then u64 (live_of b q + 1) else if drained e && (queue e =? q) then 0 else live_of b q) /\
  default 0 (pushes (book keep b e) !! q) = (if to_queue q committed e then u64 (default 0 (pushes b !! q) + 1) else default 0 (pushes b !! q)) /\
  default 0 (pops (book keep b e) !! q) = (if to_queue q drained e then u64 (default 0 (pops b !! q) + 1) else default 0 (pops b !! q)) /\
  default 0 (pops_null (book keep b e) !! q) = (if to_queue q empty_pop e then u64 (default 0 (pops_null b !! q) + 1) else default 0 (pops_null b !! q)).
Proof.
  unfold book, live_of, to_queue. pose proof (push_not_drain e). pose proof (drain_not_empty e). pose proof (push_not_empty e).
  destruct (committed e) eqn:Ec; [rewrite H, H1 by reflexivity|destruct (drained e) eqn:Ed; [rewrite H0 by reflexivity|destruct (empty_pop e)]];
    cbn [andb live pushes pops pops_null]; rewrite ?bump_lookup; try (repeat split; reflexivity);
    (destruct (Z.eqb_spec (queue e) q) as [Hq|Hq]; [rewrite Hq|]; repeat split; try reflexivity).
  - rewrite lookup_insert_eq. reflexivity.
  - rewrite lookup_insert_ne by exact Hq. reflexivity.
Qed.
Lemma book_totals keep b e :
  kept (book keep b e) = deque_push keep e (kept b) /\
  total_push (book keep b e) = (if committed e then u64 (total_push b + 1) else total_push b) /\
  total_pop (book keep b e) = (if drained e then u64 (total_pop b + 1) else total_pop b).
Proof.
  unfold book. pose proof (push_not_drain e). destruct (committed e); [rewrite H by reflexivity|destruct (drained e); [|destruct (empty_pop e)]]; repeat split.
Qed.

(** The books as functions of the events. *)
Lemma book_all_spec keep l : Z.of_nat (length l) < 2 ^ 64 ->
  let b := book_all keep l in
  kept b = lastn keep l /\ total_push b = counted committed l /\ total_pop b = counted drained l /\
  forall q, live_of b q = unclaimed q l /\ default 0 (pushes b !! q) = counted (to_queue q committed) l /\
    default 0 (pops b !! q) = counted (to_queue q drained) l /\ default 0 (pops_null b !! q) = counted (to_queue q empty_pop) l.
Proof.
  change (2 ^ 64) with 18446744073709551616. unfold book_all.
  induction l as [|e l IH] using rev_ind; [intros _; repeat split; cbn; rewrite ?lookup_empty; reflexivity|].
  rewrite length_app. cbn [length]. intros Hlt. destruct (IH ltac:(lia)) as (I1 & I2 & I3 & I4). clear IH.
  rewrite fold_left_app. cbn [fold_left]. cbv zeta. set (b := fold_left (book keep) l books_new) in *. clearbody b.
  assert (Hb : forall n, 0 <= n <= Z.of_nat (length l) -> u64 (n + 1) = n + 1) by (intros; apply u64_id; unfold is_u64; lia).
  assert (Hc : forall f n, n = counted f l -> (if f e then u64 (n + 1) else n) = counted f (l ++ [e])).
  { intros f n ->. rewrite counted_snoc. destruct (f e); cbn [Z.b2z]; [apply Hb, counted_range|lia]. }
  destruct (book_totals keep b e) as (-> & -> & ->). rewrite I1, deque_push_last.
  split; [reflexivity|]. split; [apply Hc, I2|]. split; [apply Hc, I3|]. intros q.
  destruct (book_queue keep b e q) as (-> & -> & -> & ->). destruct (I4 q) as (J1 & J2 & J3 & J4).
  split; [|split; [apply Hc, J2|split; [apply Hc, J3|apply Hc, J4]]].
  rewrite unclaimed_snoc, J1. destruct (committed e && _); [apply Hb, unclaimed_range|]. destruct (drained e && _); reflexivity.
Qed.

(** The verdict, from the events. *)
Lemma leak_iff keep l : Z.of_nat (length l) < 2 ^ 64 -> leak (book_all keep l) = true <-> exists q, undrained q l.
Proof.
  intros Hlt. destruct (book_all_spec keep l Hlt) as (_ & _ & _ & Hq). unfold leak. rewrite existsb_exists. split.
  - intros ([q n] & _ & Hn). exists q. apply unclaimed_undrained. destruct (Hq q) as [<- _]. cbn [fst] in Hn.
    destruct (Z.eqb_spec (live_of (book_all keep l) q) 0); [discriminate|assumption].
  - intros (q & Hu). destruct (Hq q) as (L & P & _). pose proof (proj2 (unclaimed_undrained q l) Hu) as Hne.
    destruct (pushes (book_all keep l) !! q) as [n|] eqn:Ep.
    + exists (q, n). split; [apply list_elem_of_In, elem_of_map_to_list, Ep|]. cbn [fst]. rewrite L. destruct (Z.eqb_spec (unclaimed q l) 0); [contradiction|reflexivity].
    + exfalso. cbn in P. destruct Hu as (l1 & e & l2 & -> & Hc & Hqe & _). unfold counted in P.
      rewrite List.filter_app, length_app in P. cbn [List.filter] in P. unfold to_queue at 2 in P. rewrite Hc, Hqe, Z.eqb_refl in P. cbn [andb length] in P. lia.
Qed.

Lemma total_push_iff keep l : Z.of_nat (length l) < 2 ^ 64 -> total_push (book_all keep l) = 0 <-> Forall (fun e => committed e = false) l.
Proof.
  intros Hlt. destruct (book_all_spec keep l Hlt) as (_ & -> & _). unfold counted. rewrite Forall_forall. split.
  - intros E e He. apply not_true_is_false. intros Hc. apply list_elem_of_In in He.
    assert (Hin : In e (List.filter committed l)) by (apply filter_In; split; assumption).
    destruct (List.filter committed l); [destruct Hin|cbn in E; lia].
  - intros Hf. replace (List.filter committed l) with (@nil Event); [reflexivity|]. induction l as [|e l IH]; [reflexivity|]. cbn [List.filter].
    rewrite Hf by left. apply IH; [cbn in Hlt; lia|]. intros x Hx. apply Hf. right. exact Hx.
Qed.

(** ** The run *)

Section Run.
Context `{Model} (o : llist_options) (k0 : probe_ckpt).
Notation seen := (trace (k_tb k0)).
Notation evs := (events (k_tb k0) (k_cyc k0)).
Notation since := (spun (k_tb k0) (k_cyc k0)).

(** Hart [h] has committed nothing but the spin loop for more than [SPIN_HANG] cycles, as of look [k]. *)
Definition stuck (h k : nat) : Prop :=
  exists i pc, (i <= k)%nat /\ taken seen h i = Some pc /\ spinning pc = true /\
    (forall j pc', (i < j <= k)%nat -> taken seen h j = Some pc' -> spinning pc' = true) /\ SPIN_HANG o < Z.of_nat (k - i).

Lemma since_S h k : since h (S k) = match taken seen h k with None => since h k | Some pc =>
  if spinning pc then Some (default (k_cyc k0 + Z.of_nat k) (since h k)) else None end.
Proof. reflexivity. Qed.

Lemma since_start h k c : since h (S k) = Some c -> exists i pc, (i <= k)%nat /\ c = k_cyc k0 + Z.of_nat i /\
  taken seen h i = Some pc /\ spinning pc = true /\ forall j pc', (i < j <= k)%nat -> taken seen h j = Some pc' -> spinning pc' = true.
Proof.
  revert c. induction k as [|k IH]; intros c Hc.
  - cbn [spun] in Hc. destruct (taken seen h 0) as [pc|] eqn:Et; [|discriminate]. destruct (spinning pc) eqn:Es; [|discriminate].
    injection Hc as <-. exists 0%nat, pc. split; [lia|]. split; [reflexivity|]. split; [exact Et|]. split; [exact Es|intros; lia].
  - rewrite since_S in Hc. destruct (taken seen h (S k)) as [pc|] eqn:Et.
    + destruct (spinning pc) eqn:Es; [|discriminate]. revert Hc IH. generalize (since h (S k)) as u. intros [c1|] Hc IH; cbn [from_option id] in Hc; injection Hc as <-.
      * destruct (IH c1 eq_refl) as (i & p & Hi & -> & Hp & Hs & Hj). exists i, p. split; [lia|]. split; [reflexivity|]. split; [exact Hp|]. split; [exact Hs|].
        intros j pc' Hr Hpc. destruct (Nat.eq_dec j (S k)) as [->|]; [congruence|apply (Hj j); [lia|exact Hpc]].
      * exists (S k), pc. split; [lia|]. split; [reflexivity|]. split; [exact Et|]. split; [exact Es|intros; lia].
    + destruct (IH c Hc) as (i & p & Hi & -> & Hp & Hs & Hj). exists i, p. split; [lia|]. split; [reflexivity|]. split; [exact Hp|]. split; [exact Hs|].
      intros j pc' Hr Hpc. destruct (Nat.eq_dec j (S k)) as [->|]; [congruence|apply (Hj j); [lia|exact Hpc]].
Qed.

Lemma since_from h i pc d : taken seen h i = Some pc -> spinning pc = true ->
  (forall j pc', (i < j <= i + d)%nat -> taken seen h j = Some pc' -> spinning pc' = true) ->
  exists c, since h (S (i + d)) = Some c /\ c <= k_cyc k0 + Z.of_nat i.
Proof.
  intros Ht Hs. induction d as [|d IH]; intros Hj.
  - rewrite Nat.add_0_r, since_S, Ht, Hs. destruct (since h i) as [c|] eqn:Ec; cbn [from_option id]; [|exists (k_cyc k0 + Z.of_nat i); split; [reflexivity|lia]].
    exists c. split; [reflexivity|]. destruct i as [|i]; [discriminate|]. destruct (since_start h i c Ec) as (j & _ & Hji & -> & _). lia.
  - destruct IH as (c & Hc & Hle). { intros j pc' Hr. apply Hj. lia. }
    exists c. split; [|exact Hle]. rewrite Nat.add_succ_r.
    rewrite since_S.
    destruct (taken seen h (S (i + d))) as [p|] eqn:Et; [|exact Hc]. rewrite (Hj (S (i + d)) p ltac:(lia) Et), Hc. reflexivity.
Qed.

Lemma stuck_since h k : stuck h k <-> exists c, since h (S k) = Some c /\ SPIN_HANG o < k_cyc k0 + Z.of_nat k - c.
Proof.
  split.
  - intros (i & pc & Hi & Ht & Hs & Hj & Hlt). destruct (since_from h i pc (k - i) Ht Hs) as (c & Hc & Hle).
    { intros j pc' Hr. apply Hj. lia. }
    replace (i + (k - i))%nat with k in Hc by lia. exists c. split; [exact Hc|lia].
  - intros (c & Hc & Hlt). destruct (since_start h k c Hc) as (i & pc & Hi & -> & Ht & Hs & Hj).
    exists i, pc. split; [exact Hi|]. split; [exact Ht|]. split; [exact Hs|]. split; [exact Hj|]. lia.
Qed.

(** What the state of the probe is after [k] looks. *)
Definition books_at (k : nat) (s : llist_state) : Prop :=
  (forall h, In h harts4 -> hart_at (k_tb k0) (k_cyc k0) k s h) /\ ledger s = book_all (KEEP o) (evs k).
Definition llist_at (k : nat) (s : llist_state) : Prop :=
  books_at k s /\ forall h m, In h harts4 -> (m < k)%nat -> ~ stuck h m.

Lemma look_books k s : books_at k s ->
  books_at (S k) (fold_left (llist_hart o (seen k) (k_cyc k0 + Z.of_nat k)) harts4 s).
Proof.
  intros [Hh Hb]. destruct (llist_harts o (k_tb k0) (k_cyc k0) k harts4 s) as [A B].
  - repeat constructor; rewrite ?list_elem_of_In; cbn; lia.
  - exact Hh.
  - intros h Hn Hin. contradiction.
  - split; [intros h Hin; apply A; [exact Hin|left; exact Hin]|]. rewrite B, Hb. unfold book_all. rewrite events_S, fold_left_app. reflexivity.
Qed.

Lemma flag_watch_books k tb cyc s : books_at k s -> books_at k (flag_watch o tb cyc s).2.
Proof.
  intros Hb. unfold flag_watch. destruct (_ =? 0); [exact Hb|]. cbn [snd]. unfold flag_changed.
  destruct (_ =? _); [exact Hb|]. cbv zeta. destruct (_ =? 0); exact Hb.
Qed.

Lemma hung_in k s : 0 <= k_cyc k0 -> k_cyc k0 + Z.of_nat k < 2 ^ 64 -> books_at (S k) s -> forall h,
  In h harts4 /\ stuck h k <-> exists c n, In (h, c, n) (hung o (k_cyc k0 + Z.of_nat k) s).
Proof.
  intros Hc Hlt [Hh _] h.
  assert (E : forall h, In h harts4 -> stuck h k <-> default false (in_spin s !! h) && (SPIN_HANG o <? u64 (k_cyc k0 + Z.of_nat k - default 0 (spin_since s !! h))) = true).
  { intros h' Hin. destruct (Hh h' Hin) as (_ & -> & c & -> & Hcs). rewrite stuck_since. cbn [from_option id]. split.
    - intros (c' & Hs & Hgt). rewrite Hs. rewrite (Hcs c' Hs). cbn [andb]. destruct (since_start _ _ _ Hs) as (i & _ & Hi & -> & _).
      apply Z.ltb_lt. rewrite u64_id by (unfold is_u64; lia). exact Hgt.
    - destruct (since h' (S k)) as [c'|] eqn:Es; [|discriminate]. rewrite (Hcs c' eq_refl). destruct (since_start _ _ _ Es) as (i & _ & Hi & -> & _).
      rewrite andb_true_l, Z.ltb_lt, u64_id by (unfold is_u64; lia). intros Hgt. eexists. split; [reflexivity|exact Hgt]. }
  split.
  - intros [Hin Hs]. apply E in Hs; [|exact Hin]. eexists _, _. unfold hung. apply list_elem_of_In, list_elem_of_omap.
    exists h. split; [apply list_elem_of_In, Hin|]. cbv beta zeta. rewrite Hs. reflexivity.
  - intros (c & n & Hin). apply list_elem_of_In, list_elem_of_omap in Hin as (h' & Hin & Eh). cbv zeta in Eh.
    destruct (_ && _) eqn:Eb; [|discriminate]. injection Eh as -> _ _. apply list_elem_of_In in Hin. split; [exact Hin|]. apply E; assumption.
Qed.

Lemma look_at k s : 0 <= k_cyc k0 -> k_cyc k0 + Z.of_nat k < 2 ^ 64 -> books_at k s ->
  let '(r, s') := llist_look o (k_cyc k0) (seen k) (k_cyc k0 + Z.of_nat k) s in
  books_at (S k) s' /\
  match r with
  | Some LockObserved => True
  | Some (SpinHang l) => l <> [] /\ forall h, In h harts4 /\ stuck h k <-> exists c n, In (h, c, n) l
  | None => forall h, In h harts4 -> ~ stuck h k
  end.
Proof.
  intros Hc Hlt Hb. apply look_books in Hb. unfold llist_look. set (s1 := fold_left _ _ _) in *. clearbody s1.
  set (s2 := set_console _ _ s1). assert (H2 : books_at (S k) s2) by exact Hb. clearbody s2. clear Hb.
  pose proof (flag_watch_books (S k) (seen k) (k_cyc k0 + Z.of_nat k) s2 H2) as H3.
  destruct (flag_watch _ _ _ _) as [locked s3]. cbn [snd] in H3. destruct locked; [split; [exact H3|exact I]|].
  pose proof (hung_in k s3 Hc Hlt H3) as Hh. destruct (hung _ _ _) as [|x l].
  - split; [destruct (_ =? 0); exact H3|]. intros h Hin Hs. destruct (proj1 (Hh h) (conj Hin Hs)) as (c & n & []).
  - split; [exact H3|]. split; [discriminate|exact Hh].
Qed.

Lemma start_at : llist_at 0 (ledger_start o k0).
Proof.
  split; [|intros; lia]. split; [|reflexivity]. intros h Hin. unfold hart_at. cbn [last_taken spun].
  cbn in Hin. destruct Hin as [<-|[<-|[<-|[<-|[]]]]]; (split; [reflexivity|split; [reflexivity|exists 0; split; [reflexivity|discriminate]]]).
Qed.

(** How a run of at most [RUN] looks ends: [n] looks were taken. *)
Lemma llist_run_at RUN : 0 <= k_cyc k0 -> k_cyc k0 + Z.of_nat RUN < 2 ^ 64 ->
  let '(r, (_, cyc, s)) := llist_run o RUN k0 in
  exists n, (n <= RUN)%nat /\ books_at n s /\
    match r with
    | None => n = RUN /\ cyc = k_cyc k0 + Z.of_nat n /\ forall h m, In h harts4 -> (m < n)%nat -> ~ stuck h m
    | Some v => exists j, n = S j /\ cyc = k_cyc k0 + Z.of_nat j /\ (forall h m, In h harts4 -> (m < j)%nat -> ~ stuck h m) /\
        match v with
        | LockObserved => True
        | SpinHang l => l <> [] /\ forall h, In h harts4 /\ stuck h j <-> exists c n, In (h, c, n) l
        end
    end.
Proof.
  intros Hc Hlt. unfold llist_run.
  pose proof (pre_loop_ran (fun _ => true) (llist_look o (k_cyc k0)) (k_tb k0) (k_cyc k0) llist_at RUN 0 (ledger_start o k0) Hc Hlt (fun _ _ => eq_refl) start_at) as Hp.
  rewrite Z.add_0_r in Hp. change (after (k_tb k0) 0) with (k_tb k0) in Hp.
  assert (Hstep : forall j s, (j < 0 + RUN)%nat -> llist_at j s ->
    let '(r, s') := llist_look o (k_cyc k0) (eval (after (k_tb k0) j)) (k_cyc k0 + Z.of_nat j) s in r = None -> llist_at (S j) s').
  { intros j s Hj [Hb Hn]. pose proof (look_at j s Hc ltac:(lia) Hb) as Hl. unfold trace in Hl. destruct (llist_look _ _ _ _ _) as [r s'].
    destruct Hl as [Hb' Hr]. intros ->. split; [exact Hb'|]. intros h m Hin Hm. destruct (Nat.eq_dec m j) as [->|]; [apply Hr, Hin|apply Hn; [exact Hin|lia]]. }
  specialize (Hp Hstep). clear Hstep. destruct (pre_loop _ _ _ _ _ _) as [[v|] [[tb' cyc] s]].
  - destruct Hp as (j & s1 & Hj & Etb & -> & [Hb Hn] & El). pose proof (look_at j s1 Hc ltac:(lia) Hb) as Hl. unfold trace in Hl. rewrite <- Etb, El in Hl.
    destruct Hl as [Hb' Hr]. exists (S j). split; [lia|]. split; [exact Hb'|]. exists j. split; [reflexivity|]. split; [reflexivity|]. split; [exact Hn|exact Hr].
  - destruct Hp as (_ & -> & Hb & Hn). exists RUN. split; [lia|]. split; [exact Hb|]. split; [reflexivity|]. split; [reflexivity|exact Hn].
Qed.

Lemma look_events_length k : (length (look_events (k_tb k0) (k_cyc k0) k) <= 4)%nat.
Proof.
  unfold look_events. transitivity (length harts4); [|reflexivity]. generalize harts4 as l.
  induction l as [|h l IH]; [reflexivity|]. cbn [omap list_omap length]. destruct (match taken seen h k with Some pc => _ | None => None end); cbn [length]; lia.
Qed.
Lemma events_length n : (length (evs n) <= 4 * n)%nat.
Proof. induction n as [|n IH]; [reflexivity|]. rewrite events_S, length_app. pose proof (look_events_length n). lia. Qed.

(** The verdict of the probe over the whole run. The deque holds the last [KEEP] events; the probe says that a push
    was dropped exactly when some committed push was not followed by a pop of its
    queue that took anything, and that it saw no push exactly when there was none. *)
Theorem ledger_verdict RUN : 0 <= k_cyc k0 -> k_cyc k0 + Z.of_nat RUN < 2 ^ 60 ->
  let '(r, (_, cyc, s)) := llist_run o RUN k0 in
  exists n, (n <= RUN)%nat /\ (r = None -> n = RUN) /\ kept (ledger s) = lastn (KEEP o) (evs n) /\
    match verdict_of (ledger s) with
    | StoreDropped => exists q, undrained q (evs n)
    | NoPushSeen => Forall (fun e => committed e = false) (evs n)
    | LostAfterPop => (forall q, ~ undrained q (evs n)) /\ Exists (fun e => committed e = true) (evs n)
    end.
Proof.
  intros Hc Hlt. change (2 ^ 60) with 1152921504606846976 in Hlt. pose proof (llist_run_at RUN Hc ltac:(change (2 ^ 64) with 18446744073709551616; lia)) as Hr.
  destruct (llist_run o RUN k0) as [r [[tb' cyc] s]]. destruct Hr as (n & Hn & [_ Hb] & Hr). exists n. split; [exact Hn|].
  split; [intros ->; apply Hr|]. pose proof (events_length n) as Hl.
  assert (Hsz : Z.of_nat (length (evs n)) < 2 ^ 64) by (change (2 ^ 64) with 18446744073709551616; lia).
  rewrite Hb. split; [apply (book_all_spec (KEEP o) _ Hsz)|]. unfold verdict_of.
  pose proof (leak_iff (KEEP o) _ Hsz) as Hleak. pose proof (total_push_iff (KEEP o) _ Hsz) as Htot.
  destruct (leak _); [apply Hleak; reflexivity|].
  destruct (Z.eqb_spec (total_push (book_all (KEEP o) (evs n))) 0) as [E|E]; [apply Htot, E|]. split.
  - intros q Hu. enough (false = true) by discriminate. apply Hleak. exists q. exact Hu.
  - destruct (decide (Exists (fun e => committed e = true) (evs n))) as [|Hno]; [assumption|]. exfalso. apply E, Htot, Forall_forall.
    intros e He. apply not_true_is_false. intros Ec. apply Hno, Exists_exists. exists e. split; assumption.
Qed.

(** The probe stops for a hang at the first cycle in which some hart has
    committed nothing but the spin loop for more than [SPIN_HANG] cycles, and names
    exactly those harts; a run that ends otherwise has no such cycle before its end. *)
Theorem spin_hang_exact RUN : 0 <= k_cyc k0 -> k_cyc k0 + Z.of_nat RUN < 2 ^ 64 ->
  let '(r, (_, cyc, s)) := llist_run o RUN k0 in
  exists n, cyc = k_cyc k0 + Z.of_nat n /\ (forall h m, In h harts4 -> (m < n)%nat -> ~ stuck h m) /\
    match r with
    | None => n = RUN
    | Some LockObserved => (n < RUN)%nat
    | Some (SpinHang l) => (n < RUN)%nat /\ l <> [] /\ forall h, In h harts4 /\ stuck h n <-> exists c d, In (h, c, d) l
    end.
Proof.
  intros Hc Hlt. pose proof (llist_run_at RUN Hc Hlt) as Hr. destruct (llist_run o RUN k0) as [r [[tb' cyc] s]].
  destruct Hr as (n & Hn & _ & Hr). destruct r as [v|].
  - destruct Hr as (j & -> & -> & Hm & Hv). exists j. split; [reflexivity|]. split; [exact Hm|]. destruct v; [lia|]. split; [lia|exact Hv].
  - destruct Hr as (-> & -> & Hm). exists RUN. split; [reflexivity|]. split; [exact Hm|reflexivity].
Qed.
End Run.

(** ** A run *)

Definition at_pc (p x10 x12 x13 x15 : Z) : core_ports :=
  { (commit_at p) with registersOut := fun i => if i =? 10 then x10 else if i =? 12 then x12 else if i =? 13 then x13 else if i =? 15 then x15 else 0 }.
Definition four (c : core_ports) : list core_ports := [c; idle_core; idle_core; idle_core].
Definition ckpt_of (frames : list (list core_ports)) : probe_ckpt :=
  {| k_cyc := 100; k_msip_writes := [0; 0; 0; 0]; k_last_uart_cyc := 0; k_uart_bytes := 0; k_tb := script_system 0 frames |}.

(** A push that fails, one that commits, a pop that takes it, and a push at the very end. *)
Definition pushes_and_pop : list (list core_ports) :=
  [four (at_pc kPushDone 64 4096 1 0); four (at_pc 0x100 0 0 0 0); four (at_pc kPushDone 64 4096 0 0); four (at_pc kPopDone 64 0 0 4096);
   four (at_pc 0x100 0 0 0 0); four (at_pc kPushDone 128 4096 0 0)].

Lemma ledger_verdict_witness :
  let '(r, (_, cyc, s)) := llist_run llist_defaults 6 (ckpt_of pushes_and_pop) in
  exists n, (n <= 6)%nat /\ (r = None -> n = 6%nat) /\ kept (ledger s) = lastn 240 (events (k_tb (ckpt_of pushes_and_pop)) 100 n) /\
    match verdict_of (ledger s) with
    | StoreDropped => exists q, undrained q (events (k_tb (ckpt_of pushes_and_pop)) 100 n)
    | NoPushSeen => Forall (fun e => committed e = false) (events (k_tb (ckpt_of pushes_and_pop)) 100 n)
    | LostAfterPop => (forall q, ~ undrained q (events (k_tb (ckpt_of pushes_and_pop)) 100 n)) /\
        Exists (fun e => committed e = true) (events (k_tb (ckpt_of pushes_and_pop)) 100 n)
    end.
Proof. exact (ledger_verdict llist_defaults (ckpt_of pushes_and_pop) 6 ltac:(discriminate) eq_refl). Defined.

(** A window that ends between a push and its pop is reported as a dropped store. *)
Lemma push_in_flight_blamed :
  let verdict_after n := let '(_, (_, _, s)) := llist_run llist_defaults n (ckpt_of pushes_and_pop) in verdict_of (ledger s) in
  map verdict_after [2; 4; 6; 7]%nat = [NoPushSeen; StoreDropped; LostAfterPop; StoreDropped].
Proof. vm_compute. reflexivity. Qed.

(** Hart 0 enters the spin loop at cycle 101; with [SPIN_HANG = 2] the run ends at cycle 104. *)
Definition spin_frames : list (list core_ports) := map (fun p => four (commit_at p)) [kSpinLo; kSpinLo + 4; kSpinLo; kSpinLo + 4; kSpinLo].
Definition hang_2 : llist_options := {| SPIN_HANG := 2; KEEP := 240; TRACE_FROM := 0; TRACE_TO := 0; TRACE_HART := -1; watch_addr := 0; WATCH_TAIL := 0 |}.
Lemma spin_hang_exact_witness :
  fst (llist_run hang_2 20 (ckpt_of spin_frames)) = Some (SpinHang [(0%nat, 101, 3)]) /\
  let '(r, (_, cyc, s)) := llist_run hang_2 20 (ckpt_of spin_frames) in
  exists n, cyc = 100 + Z.of_nat n /\ (forall h m, In h harts4 -> (m < n)%nat -> ~ stuck hang_2 (ckpt_of spin_frames) h m) /\
    match r with
    | None => n = 20%nat
    | Some LockObserved => (n < 20)%nat
    | Some (SpinHang l) => (n < 20)%nat /\ l <> [] /\ forall h, In h harts4 /\ stuck hang_2 (ckpt_of spin_frames) h n <-> exists c d, In (h, c, d) l
    end.
Proof. split; [vm_compute; reflexivity|]. exact (spin_hang_exact hang_2 (ckpt_of spin_frames) 20 ltac:(discriminate) eq_refl). Defined.

(** ** [linux_csd_probe.cpp] *)

Definition kFlushQueueLo : Z := 0x80294be4.
Definition kFlushQueueHi : Z := 0x80294e5c.
Definition kHandleIPI : Z := 0x80204968.
Definition kHandleIPIHi : Z := 0x80204a68.
Definition kPerCpuOffset : Z := 0x807755d0.
Definition kCallQueue : Z := 0x80603500.
Definition kReloaded : Z := 0x802952d4.
Definition within (lo hi pc : Z) : bool := (lo <=? pc) && (pc <? hi).

Record csd_state := mkcsd {
  csd_prev : list Z; csd_hist : list (gmap Z Z); commits : list Z;
  flush_hits : list Z; ipi_hits : list Z; spin_hits : list Z;
  csd_addr : Z; csd_addr_changes : Z; loaded_vals : gmap Z Z;
  csd_con : console; csd_progress : list (Z * list Z * list Z) }.

Inductive csd_verdict := NotInSpin | Inconclusive | StaleLine | NeverCleared | ShouldLeave.

Section Csd.
Context `{Model}.
Definition per_cpu (tb : Vsystem) (h : Z) : Z := read_dram64 (raw tb) (u64 (kPerCpuOffset + 8 * h)).
Definition queue_head (pcpu : Z -> Z) (tb : Vsystem) (h : Z) : Z := read_dram64 (raw tb) (u64 (kCallQueue + pcpu h)).

(** The dump-only mode, with [CSD_ADDR = a]: flags, next pointer, which queues are not empty. *)
Definition csd_dump (a : Z) (k : probe_ckpt) : Z * Z * Z * list bool * Z :=
  let tb := k_tb k in
  (k_cyc k, u32 (read_dram64 (raw tb) (u64 (a + 8))), read_dram64 (raw tb) a,
   map (fun h => negb (queue_head (per_cpu tb) tb h =? 0)) [0; 1; 2; 3], k_uart_bytes k).

Definition tally (b : bool) (h : nat) (l : list Z) : list Z := if b then alter (fun n => u64 (n + 1)) h l else l.

(** One hart in one cycle. *)
Definition csd_hart (tb : Vsystem) (s : csd_state) (h : nat) : csd_state :=
  match sampled tb (default 0 (csd_prev s !! h)) h with
  | None => s
  | Some pc =>
    let watched := bool_decide (h = 1%nat) && within kSpinLo kSpinHi pc in
    let a4 := reg (raw tb) 1 14 in
    mkcsd (<[h := pc]> (csd_prev s)) (alter (bump pc) h (csd_hist s)) (tally true h (commits s))
      (tally (within kFlushQueueLo kFlushQueueHi pc) h (flush_hits s))
      (tally (within kHandleIPI kHandleIPIHi pc) h (ipi_hits s))
      (tally (within kSpinLo kSpinHi pc) h (spin_hits s))
      (if watched then a4 else csd_addr s)
      (if watched && negb (a4 =? csd_addr s) then u64 (csd_addr_changes s + 1) else csd_addr_changes s)
      (if watched && (pc =? kReloaded) then bump (u32 (reg (raw tb) 1 15)) (loaded_vals s) else loaded_vals s)
      (csd_con s) (csd_progress s)
  end.

Definition csd_look (REPORT start_cyc : Z) (tb : Vsystem) (cyc : Z) (s : csd_state) : option Empty_set * csd_state :=
  let s := fold_left (csd_hart tb) harts4 s in
  let i := cyc - start_cyc in
  (None, mkcsd (csd_prev s) (csd_hist s) (commits s) (flush_hits s) (ipi_hits s) (spin_hits s) (csd_addr s) (csd_addr_changes s) (loaded_vals s)
    (uart_ports false tb cyc (csd_con s))
    (if (i + 1) mod REPORT =? 0 then csd_progress s ++ [(i + 1, commits s, flush_hits s)] else csd_progress s)).

Definition csd_start (k : probe_ckpt) : csd_state :=
  mkcsd [0; 0; 0; 0] (replicate 4 ∅) [0; 0; 0; 0] [0; 0; 0; 0] [0; 0; 0; 0] [0; 0; 0; 0] 0 0 ∅ (mkconsole [] (k_uart_bytes k) (k_last_uart_cyc k)) [].
Definition csd_run (RUN : nat) (REPORT : Z) (k : probe_ckpt) : option Empty_set * (Vsystem * Z * csd_state) :=
  pre_loop (fun _ => true) (csd_look REPORT (k_cyc k)) RUN (k_tb k) (k_cyc k) (csd_start k).

(** [csd->node.u_flags] in DRAM. *)
Definition dram_flag (tb : Vsystem) (csd : Z) : Z :=
  let flag_addr := u64 (csd + 8) in
  let w := read_dram64 (raw tb) (Z.land flag_addr (u64 (Z.lnot 7))) in
  if Z.land flag_addr 4 =? 0 then u32 w else u32 (Z.shiftr w 32).
(** [loaded_vals.begin()->first] *)
Definition first_loaded (m : gmap Z Z) : option Z := head (merge_sort Z.le (map fst (map_to_list m))).
Definition csd_judge (tb : Vsystem) (s : csd_state) : csd_verdict :=
  if csd_addr s =? 0 then NotInSpin
  else
    let flag := dram_flag tb (csd_addr s) in
    match first_loaded (loaded_vals s) with
    | None => Inconclusive
    | Some v => if (Z.land flag 1 =? 0) && negb (Z.land v 1 =? 0) then StaleLine
                else if negb (Z.land flag 1 =? 0) then NeverCleared else ShouldLeave
    end.

(** The stuck [csd], decoded: next, flags, source, destination, function, argument. *)
Definition csd_decoded (tb : Vsystem) (a : Z) : Z * Z * Z * Z * Z * Z :=
  let n1 := read_dram64 (raw tb) (u64 (a + 8)) in
  (read_dram64 (raw tb) a, u32 n1, Z.land (Z.shiftr n1 32) 0xffff, Z.land (Z.shiftr n1 48) 0xffff,
   read_dram64 (raw tb) (u64 (a + 16)), read_dram64 (raw tb) (u64 (a + 24))).
(** The same slot of every CPU; [pcpu] are the per-CPU offsets. *)
Definition csd_slots (pcpu : Z -> Z) (tb : Vsystem) (csd : Z) : list (Z * Z * Z * Z * Z) :=
  map (fun h =>
    let a := u64 (u64 (csd - pcpu 1) + pcpu (Z.of_nat h)) in
    let n1 := read_dram64 (raw tb) (u64 (a + 8)) in
    (a, read_dram64 (raw tb) a, u32 n1, Z.land (Z.shiftr n1 32) 0xffff, Z.land (Z.shiftr n1 48) 0xffff)) harts4.

Record csd_report := { csd_window : Z * Z; hits : list (Z * Z * Z * Z * list (Z * Z)); judged : csd_verdict;
  heads : list Z; decoded : option (Z * Z * Z * Z * Z * Z); csd_array : list (Z * Z * Z * Z * Z); levels : list (Z * Z) }.
Definition csd_main (RUN : nat) (REPORT : Z) (ckpt : option probe_ckpt) : Z * option csd_report :=
  match ckpt with
  | None => (1, None)
  | Some k =>
    let pcpu := per_cpu (k_tb k) in
    let '(_, (tb, cyc, s)) := csd_run RUN REPORT k in
    (0, Some {| csd_window := (k_cyc k, cyc);
      hits := map (fun h => (default 0 (commits s !! h), default 0 (spin_hits s !! h), default 0 (flush_hits s !! h), default 0 (ipi_hits s !! h),
                             top_of 8 (default ∅ (csd_hist s !! h)))) harts4;
      judged := csd_judge tb s;
      heads := map (queue_head pcpu tb) [0; 1; 2; 3];
      decoded := if csd_addr s =? 0 then None else Some (csd_decoded tb (csd_addr s));
      csd_array := if csd_addr s =? 0 then [] else csd_slots pcpu tb (csd_addr s);
      levels := map (fun h => (msip (raw tb) (Z.of_nat h), mcause (raw tb) (Z.of_nat h))) harts4 |})
  end.
End Csd.

(** *** What the verdict says *)

Section CsdRun.
Context `{Model} (k0 : probe_ckpt).
Notation seen := (trace (k_tb k0)).

(** The values hart 1 loaded from the lock word, in the first [n] looks. *)
Definition loads (n : nat) : list Z :=
  omap (fun k => match taken seen 1 k with Some pc => if pc =? kReloaded then Some (u32 (reg (raw (seen k)) 1 15)) else None | None => None end) (seq 0 n).
Lemma loads_S n : loads (S n) = loads n ++
  match taken seen 1 n with Some pc => if pc =? kReloaded then [u32 (reg (raw (seen n)) 1 15)] else [] | None => [] end.
Proof.
  unfold loads. rewrite seq_S, omap_app, Nat.add_0_l. f_equal. cbn [omap list_omap].
  destruct (taken seen 1 n) as [pc|]; [destruct (pc =? kReloaded)|]; reflexivity.
Qed.

Definition csd_at (k : nat) (s : csd_state) : Prop :=
  csd_prev s = prevs seen k /\ forall v, is_Some (loaded_vals s !! v) <-> In v (loads k).

Lemma csd_hart_prev tb s h : csd_prev (csd_hart tb s h) =
  match sampled tb (default 0 (csd_prev s !! h)) h with Some pc => <[h := pc]> (csd_prev s) | None => csd_prev s end.
Proof. unfold csd_hart. destruct (sampled _ _ _); reflexivity. Qed.
Lemma csd_hart_loaded_ne tb s h : h <> 1%nat -> loaded_vals (csd_hart tb s h) = loaded_vals s.
Proof. intros Hh. unfold csd_hart. destruct (sampled _ _ _); [|reflexivity]. cbn [loaded_vals]. rewrite bool_decide_eq_false_2 by exact Hh. reflexivity. Qed.
Lemma csd_hart_loaded tb s : loaded_vals (csd_hart tb s 1) =
  match sampled tb (default 0 (csd_prev s !! 1%nat)) 1 with
  | Some pc => if pc =? kReloaded then bump (u32 (reg (raw tb) 1 15)) (loaded_vals s) else loaded_vals s
  | None => loaded_vals s
  end.
Proof.
  unfold csd_hart. destruct (sampled _ _ _) as [pc|]; [|reflexivity]. cbn [loaded_vals]. rewrite bool_decide_eq_true_2 by reflexivity.
  destruct (Z.eqb_spec pc kReloaded) as [->|]; [reflexivity|]. rewrite andb_false_r. reflexivity.
Qed.

Lemma csd_step k s cyc REPORT : csd_at k s -> csd_at (S k) (csd_look REPORT (k_cyc k0) (seen k) cyc s).2.
Proof.
  intros [Hp Hl]. pose proof (pass_prevs csd_prev (csd_hart (seen k)) seen k (csd_hart_prev (seen k)) s Hp) as Hp'.
  split; [exact Hp'|]. unfold csd_look. cbn [snd loaded_vals fold_left harts4].
  rewrite (csd_hart_loaded_ne _ _ 3), (csd_hart_loaded_ne _ _ 2), csd_hart_loaded by discriminate.
  rewrite (pass_other csd_prev (csd_hart (seen k)) seen k (csd_hart_prev (seen k)) s 0 1) by discriminate.
  rewrite csd_hart_loaded_ne by discriminate. rewrite Hp. change (default 0 (prevs seen k !! 1%nat)) with (last_taken seen 1 k).
  change (sampled (seen k) (last_taken seen 1 k) 1) with (taken seen 1 k). intros v. rewrite loads_S, in_app_iff, <- Hl.
  destruct (taken seen 1 k) as [pc|]; [|cbn; tauto]. destruct (pc =? kReloaded); [|cbn; tauto].
  unfold bump. destruct (Z.eq_dec (u32 (reg (raw (seen k)) 1 15)) v) as [<-|Hne].
  - rewrite lookup_insert_eq. split; [right; left; reflexivity|eauto].
  - rewrite lookup_insert_ne by exact Hne. cbn. tauto.
Qed.

Lemma sorted_head l x : head (merge_sort Z.le l) = Some x <-> In x l /\ forall y, In y l -> x <= y.
Proof.
  pose proof (merge_sort_Permutation Z.le l) as Hp. pose proof (Sorted_merge_sort Z.le l) as Hs.
  assert (Hin : forall y, In y (merge_sort Z.le l) <-> In y l) by (intros y; rewrite <- !list_elem_of_In, Hp; reflexivity).
  apply Sorted_StronglySorted in Hs; [|intros ? ? ?; apply Z.le_trans]. setoid_rewrite <- Hin.
  destruct (merge_sort Z.le l) as [|z r]; cbn [head]; [split; [discriminate|intros [[] _]]|].
  apply StronglySorted_inv in Hs as [_ Hf]. rewrite Forall_forall in Hf. split.
  - intros [= ->]. split; [left; reflexivity|]. intros y [->|Hy]; [lia|apply Hf, list_elem_of_In, Hy].
  - intros [[->|Hx] Hm]; [reflexivity|]. f_equal. specialize (Hm z (or_introl eq_refl)). apply list_elem_of_In, Hf in Hx. lia.
Qed.
Lemma first_loaded_min (m : gmap Z Z) x : first_loaded m = Some x <-> is_Some (m !! x) /\ forall y, is_Some (m !! y) -> x <= y.
Proof.
  assert (Hin : forall y, In y (map fst (map_to_list m)) <-> is_Some (m !! y)).
  { intros y. rewrite in_map_iff. split.
    - intros ([a b] & <- & Hab). apply list_elem_of_In, elem_of_map_to_list in Hab. eexists. exact Hab.
    - intros [b Hb]. exists (y, b). split; [reflexivity|]. apply list_elem_of_In, elem_of_map_to_list, Hb. }
  unfold first_loaded. rewrite sorted_head. setoid_rewrite Hin. reflexivity.
Qed.

(** After a run the probe has for hart 1 the values it loaded from the lock word;
    it blames a stale line exactly when DRAM has the lock clear and the smallest of
    these values has it set, and the owner when DRAM has it set. *)
Theorem csd_verdict_exact RUN REPORT : 0 <= k_cyc k0 -> k_cyc k0 + Z.of_nat RUN < 2 ^ 64 ->
  let '(_, (tb, cyc, s)) := csd_run RUN REPORT k0 in
  tb = after (k_tb k0) RUN /\
  let clear := Z.land (dram_flag tb (csd_addr s)) 1 =? 0 in
  match csd_judge tb s with
  | NotInSpin => csd_addr s = 0
  | Inconclusive => loads RUN = []
  | StaleLine => clear = true /\ exists v, In v (loads RUN) /\ Z.land v 1 <> 0 /\ forall w, In w (loads RUN) -> v <= w
  | NeverCleared => clear = false /\ loads RUN <> []
  | ShouldLeave => clear = true /\ exists v, In v (loads RUN) /\ Z.land v 1 = 0 /\ forall w, In w (loads RUN) -> v <= w
  end.
Proof.
  intros Hc Hlt. unfold csd_run.
  pose proof (pre_loop_ran (fun _ => true) (csd_look REPORT (k_cyc k0)) (k_tb k0) (k_cyc k0) csd_at RUN 0 (csd_start k0) Hc Hlt (fun _ _ => eq_refl)) as Hr.
  rewrite Z.add_0_r in Hr. change (after (k_tb k0) 0) with (k_tb k0) in Hr.
  assert (H0' : csd_at 0 (csd_start k0)) by (split; [reflexivity|intros v; cbn; rewrite lookup_empty; split; [intros [? [=]]|intros []]]).
  specialize (Hr H0'). clear H0'. assert (Hs : forall j s, (j < 0 + RUN)%nat -> csd_at j s ->
    let '(r, s') := csd_look REPORT (k_cyc k0) (eval (after (k_tb k0) j)) (k_cyc k0 + Z.of_nat j) s in r = None -> csd_at (S j) s').
  { intros j s _ Hj. pose proof (csd_step j s (k_cyc k0 + Z.of_nat j) REPORT Hj) as Hn. unfold trace in Hn.
    destruct (csd_look _ _ _ _ _) as [r s']. intros _. exact Hn. }
  specialize (Hr Hs). clear Hs. destruct (pre_loop _ _ _ _ _ _) as [[[]|] [[tb cyc] s]]. destruct Hr as (-> & _ & _ & Hl).
  split; [reflexivity|]. cbn [Nat.add] in *. cbv zeta. unfold csd_judge. destruct (Z.eqb_spec (csd_addr s) 0) as [|_]; [assumption|].
  destruct (first_loaded (loaded_vals s)) as [v|] eqn:Ev.
  - apply first_loaded_min in Ev as [Hv Hm]. apply Hl in Hv. setoid_rewrite Hl in Hm.
    destruct (Z.eqb_spec (Z.land (dram_flag (after (k_tb k0) RUN) (csd_addr s)) 1) 0) as [_|_]; cbn [andb negb].
    + destruct (Z.eqb_spec (Z.land v 1) 0) as [E|E]; cbn [negb]; (split; [reflexivity|]); exists v; (split; [exact Hv|split; [exact E|exact Hm]]).
    + split; [reflexivity|]. intros E. rewrite E in Hv. exact Hv.
  - destruct (loads RUN) as [|v l] eqn:El; [reflexivity|]. exfalso.
    assert (Hv : is_Some (loaded_vals s !! v)) by (apply Hl; left; reflexivity). destruct Hv as [n Hn].
    unfold first_loaded in Ev. destruct (merge_sort Z.le (map fst (map_to_list (loaded_vals s)))) as [|] eqn:Em; [|discriminate].
    pose proof (merge_sort_Permutation Z.le (map fst (map_to_list (loaded_vals s)))) as Hp. rewrite Em in Hp. apply Permutation_nil_l in Hp.
    assert (Hin : (v, n) ∈ map_to_list (loaded_vals s)) by (apply elem_of_map_to_list, Hn).
    destruct (map_to_list (loaded_vals s)); [inversion Hin|discriminate].
Qed.
End CsdRun.

(** Hart 1 at [pc] with [a4 = 0x1000] and [a5 = v]. *)
Definition loads_at (pc v : Z) : list core_ports :=
  [idle_core; { (commit_at pc) with registersOut := fun i => if i =? 14 then 0x1000 else if i =? 15 then v else 0 }; idle_core; idle_core].
Definition reload (v : Z) : list (list core_ports) := [loads_at 0x802952d0 0; loads_at kReloaded v].
Definition judged_after (vs : list Z) : csd_verdict :=
  let '(_, (tb, _, s)) := csd_run (2 * length vs + 1) 1000 (ckpt_of (concat (map reload vs))) in csd_judge tb s.

Lemma csd_verdict_exact_witness :
  let '(_, (tb, cyc, s)) := csd_run 5 1000 (ckpt_of (concat (map reload [0x11; 0x11]))) in
  tb = after (k_tb (ckpt_of (concat (map reload [0x11; 0x11])))) 5 /\
  let clear := Z.land (dram_flag tb (csd_addr s)) 1 =? 0 in
  let l := loads (ckpt_of (concat (map reload [0x11; 0x11]))) 5 in
  match csd_judge tb s with
  | NotInSpin => csd_addr s = 0
  | Inconclusive => l = []
  | StaleLine => clear = true /\ exists v, In v l /\ Z.land v 1 <> 0 /\ forall w, In w l -> v <= w
  | NeverCleared => clear = false /\ l <> []
  | ShouldLeave => clear = true /\ exists v, In v l /\ Z.land v 1 = 0 /\ forall w, In w l -> v <= w
  end.
Proof. exact (csd_verdict_exact (ckpt_of (concat (map reload [0x11; 0x11]))) 5 1000 ltac:(discriminate) eq_refl). Defined.

(** Only the smallest value counts: with DRAM clear, a hart that read the lock clear
    once and set ever since is said to be leaving, and one that read another value
    with the lock clear last is said to read it set. *)
Lemma csd_judges_smallest : judged_after [0x10; 0x11; 0x11; 0x11] = ShouldLeave /\ judged_after [0x11; 0x12] = StaleLine.
Proof. vm_compute. split; reflexivity. Qed.
