(* ===== verification/Storegate.v ===== *)
(** * The store-gate probe: [linux_storegate_probe.cpp]

    The probe boots Linux, watches one hart until its committed PC has stood still for
    [STALL] cycles, and accounts for the requests that reach a full queue of the data
    cache. Its state is split as the loop body is: the stillness of the PC, the accounts,
    the two rings of events, the activity of the miss path. A dump is the list of its
    lines, a line the list of the values printed.

    [storegate_verdict] is the exit code from the trace of the run: which look ends it,
    every account and every activity count as a number of looks, the events listed as
    the last of all events. It says what the numbers are, which is not in each case what
    they are printed as: [counts_while_open], [load_drop_unplaced], [other_hart_misjudged]. *)

From Stdlib Require Import String Ascii.
From S2P Require Import Prelude Rtl Firesim Watch.

(** ** What is read *)

(** The slots of the ROB from the head on. *)
Definition rob_window (head : Z) : list Z := map (fun k => Z.land (u64 (head + Z.of_nat k)) 31) (seq 0 32).
(** The ROB has 16 entries ([configuration.robAddrWidth] = 4): half of the window is not in it. *)
Lemma window_past_rob head : 0 <= head < 16 -> length (List.filter (Z.leb 16) (rob_window head)) = 16%nat.
Proof.
  intros Hh. assert (Hf : forallb (fun p => (length (List.filter (Z.leb 16) (rob_window (Z.of_nat p))) =? 16)%nat) (seq 0 16) = true) by (vm_compute; reflexivity).
  rewrite forallb_forall in Hf. rewrite <- (Z2Nat.id head) by lia. apply Nat.eqb_eq, Hf, in_seq. lia.
Qed.

Section Nets.
Context `{Netlist}.
Open Scope string_scope.
Definition CL (n : Z) (s : string) (tb : Vsystem) : Z := PICK ("memAccess__DOT__cacheLookup__DOT__" ++ s) tb n.
Definition AR (n : Z) (s : string) (tb : Vsystem) : Z := PICK ("memAccess__DOT__arbiter__DOT__" ++ s) tb n.
Definition AC (n : Z) (s : string) (tb : Vsystem) : Z := PICK ("memAccess__DOT__aceUnit__DOT__" ++ s) tb n.
Definition MS (n : Z) (s : string) (tb : Vsystem) : Z := PICK ("memAccess__DOT__aceUnit__DOT__ACEMSHR__DOT__" ++ s) tb n.
Definition RB (n : Z) (s : string) (tb : Vsystem) : Z := PICK ("rob__DOT__" ++ s) tb n.
Definition RQ (n : Z) (s : string) (tb : Vsystem) : Z := PICK ("memAccess__DOT__requestScheduler__DOT__" ++ s) tb n.
Definition SCH (n : Z) (s : string) (tb : Vsystem) : Z := PICK ("scheduler__DOT__queue_" ++ s) tb n.

Definition gate (tb : Vsystem) (n : Z) : Z := CL n "writeCommitInstructionBuffer" tb.
Definition opval (tb : Vsystem) (n : Z) : Z := CL n "operationValid" tb.
Definition torpl (tb : Vsystem) (n : Z) : Z := CL n "toReplayValidWire" tb.
Definition tomi (tb : Vsystem) (n : Z) : Z := CL n "toLastInorderMissRecordRegisterWire" tb.
Definition areq (tb : Vsystem) (n : Z) : Z := AC n "readACERequestState" tb.
Definition ostate (tb : Vsystem) (n : Z) : Z := AR n "operationState" tb.
Definition obv (tb : Vsystem) (n : Z) : Z := AR n "operationBuffer_valid" tb.
Definition oba (tb : Vsystem) (n : Z) : Z := AR n "operationBuffer_address" tb.
Definition obi (tb : Vsystem) (n : Z) : Z := AR n "operationBuffer_core_instruction" tb.
Definition ibv (tb : Vsystem) (n : Z) : Z := AR n "inorderBuffer_valid" tb.
Definition iba (tb : Vsystem) (n : Z) : Z := AR n "inorderBuffer_address" tb.
Definition ibi (tb : Vsystem) (n : Z) : Z := AR n "inorderBuffer_core_instruction" tb.
Definition mrv (tb : Vsystem) (n : Z) : Z := PICK "memoryRequest_valid" tb n.
Definition mra (tb : Vsystem) (n : Z) : Z := PICK "memoryRequest_address" tb n.
Definition mri (tb : Vsystem) (n : Z) : Z := PICK "memoryRequest_instruction" tb n.
Definition canall (tb : Vsystem) (n : Z) : Z := PICK "memAccess_canAllocate" tb n.
Definition cfired (tb : Vsystem) (n : Z) : Z := PICK "rob_commit_fired" tb n.
Definition cready (tb : Vsystem) (n : Z) : Z := PICK "rob_commit_ready" tb n.
Definition hhd (tb : Vsystem) (n : Z) : Z := PICK "headHasData" tb n.
Definition frp (tb : Vsystem) (n : Z) : Z := RB n "fifo__DOT__readPtr" tb.
Definition fwp (tb : Vsystem) (n : Z) : Z := RB n "fifo__DOT__writePtr" tb.
Definition rrp (tb : Vsystem) (n : Z) : Z := RB n "results__DOT__readPtr" tb.
Definition rwp (tb : Vsystem) (n : Z) : Z := RB n "results__DOT__writePtr" tb.
Definition fe (tb : Vsystem) (n : Z) : Z := RB n "fifo__DOT__emptyReg" tb.
Definition ff (tb : Vsystem) (n : Z) : Z := RB n "fifo__DOT__fullReg" tb.
Definition fm (tb : Vsystem) (n : Z) : Z := RB n "fifo__DOT__doModify" tb.
Definition re (tb : Vsystem) (n : Z) : Z := RB n "results__DOT__emptyReg" tb.
Definition rf (tb : Vsystem) (n : Z) : Z := RB n "results__DOT__fullReg" tb.
Definition rm (tb : Vsystem) (n : Z) : Z := RB n "results__DOT__doModify" tb.
Definition af (tb : Vsystem) (n : Z) : Z := PICK "rob_allocate_fired" tb n.
Definition ar (tb : Vsystem) (n : Z) : Z := PICK "rob_allocate_ready" tb n.
Definition bev (tb : Vsystem) (n : Z) : Z := PICK "branchEvals_valid" tb n.
Definition bep (tb : Vsystem) (n : Z) : Z := PICK "branchEvals_passed" tb n.
Definition ber (tb : Vsystem) (n : Z) : Z := PICK "branchEvals_robAddr" tb n.
(** The full bits are read from core 2, whatever hart is watched. *)
Definition inFull (tb : Vsystem) : Z := CORE_RAW "memAccess__DOT__requestScheduler__DOT__inorderQueue__DOT__fullReg" tb 2.
Definition spFull (tb : Vsystem) : Z := CORE_RAW "memAccess__DOT__requestScheduler__DOT__speculativeQueue__DOT__fullReg" tb 2.

(** A ROB entry: the PC and the instruction. *)
Definition rob_slot (tb : Vsystem) (n idx : Z) : Z * Z :=
  let w := CORE_MEM "rob__DOT__fifo__DOT__memReg" tb (picked n) idx in
  (wbits w 38 64, u32 (wbits w 6 32)).

(** *** The dumps *)

Definition slots16 : list string := ["0"; "1"; "2"; "3"; "4"; "5"; "6"; "7"; "8"; "9"; "10"; "11"; "12"; "13"; "14"; "15"].
Definition MSHR_ROW (n : Z) (tb : Vsystem) (i : string) : list Z :=
  map (fun f => MS n ("memReg_" ++ i ++ "_" ++ f) tb) ["valid"; "address"; "branch_valid"; "core_robAddr"; "writeData_valid"; "core_instruction"].
Definition dump_mshr (tb : Vsystem) (n : Z) : list (list Z) := map (MSHR_ROW n tb) slots16.
Definition SCH_ROW (n : Z) (tb : Vsystem) (i : string) : list Z :=
  map (fun f => SCH n (i ++ "_" ++ f) tb)
    ["valid"; "robAddr"; "instruction"; "branchMask"; "rs1_prfAddr"; "rs1_ready"; "rs2_prfAddr"; "rs2_ready"; "opcodeMeta_isMemAccess"; "opcodeMeta_isBranch"].
Definition dump_sched (tb : Vsystem) (n : Z) : list (list Z) := map (SCH_ROW n tb) (firstn 8 slots16).
Definition Q_ROW (queue : string) (n : Z) (tb : Vsystem) (i : string) : list Z :=
  map (fun f => RQ n (queue ++ "__DOT__memReg_" ++ i ++ "_" ++ f) tb)
    ["valid"; "branch_valid"; "branch_mask"; "address"; "core_robAddr"; "core_instruction"].
Definition dump_rq (tb : Vsystem) (n : Z) : list (list Z) :=
  map (fun f => RQ n f tb)
    ["inorderQueue__DOT__readPtr"; "inorderQueue__DOT__writePtr"; "inorderQueue__DOT__emptyReg"; "inorderQueue__DOT__fullReg";
     "speculativeQueue__DOT__readPtr"; "speculativeQueue__DOT__writePtr"; "speculativeQueue__DOT__emptyReg"; "speculativeQueue__DOT__fullReg";
     "inorderBranchResolved"; "inorderBranchInvalidated"]
  :: (map (Q_ROW "inorderQueue" n tb) slots16 ++ map (Q_ROW "speculativeQueue" n tb) slots16)%list.

(** The [why] and the cycle in the heading are values of the report. *)
Definition gate_snapshot (tb : Vsystem) (h : Z) : list (list Z) :=
  let cl := map (fun s => CL h s tb) in let arb := map (fun s => AR h s tb) in
  let ace := map (fun s => AC h s tb) in let core2 := map (fun s => CORE_RAW s tb 2) in
  ([[core_pc (raw tb) h];
   [RB h "fifo_io_deq_valid" tb; frp tb h; fwp tb h; fe tb h; ff tb h; fm tb h;
    RB h "results_io_deq_valid" tb; rrp tb h; rwp tb h; re tb h; rf tb h; rm tb h; ar tb h];
   [gate tb h];
   cl ["operationValid"; "requestType"; "isDataMissWire"; "isPermissionMiss"; "isStaleUpgradeReplay"; "toReplayValidWire";
       "toLastInorderMissRecordRegisterWire"; "flushState"; "writeBackBuffer_valid"; "walkerWriteBackBuffer_valid";
       "reservationGuardBlocked"; "reservationGuardCnt"];
   cl ["readBuffer_valid"; "readBuffer_branch_valid"; "readBuffer_address"; "readBuffer_core_robAddr"; "readBuffer_writeData_valid"; "readBuffer_core_instruction"];
   cl ["replayBuffer_valid"; "replayBuffer_branch_valid"; "replayBuffer_address"; "replayBuffer_core_robAddr"; "replayBuffer_core_instruction"];
   cl (map (String.append "lastInorderMissRecordRegister_") ["valid"; "branch_valid"; "address"; "core_robAddr"; "core_instruction"]);
   cl (map (String.append "lastSpeculativeMissRecordRegister_") ["valid"; "branch_valid"; "address"; "core_robAddr"; "core_instruction"]);
   arb ["operationState"; "atomicBusyState"];
   arb (map (String.append "operationBuffer_") ["valid"; "branch_valid"; "address"; "core_robAddr"; "core_instruction"]);
   arb (map (String.append "inorderBuffer_") ["valid"; "branch_valid"; "address"; "core_robAddr"; "core_instruction"]);
   arb ["speculativeBuffer_valid"; "speculativeBuffer_branch_valid"; "speculativeBuffer_address"];
   (ace ["readACERequestState"; "readACEResponseState"; "writeACEState"; "coherentAXIState"] ++ [MS h "emptyReg" tb; MS h "fullReg" tb])%list;
   ace ["readBuffer_valid"; "readBuffer_branch_valid"; "readBuffer_address"];
   ace ["responseBuffer_valid"; "responseBuffer_branch_valid"; "responseBuffer_address"];
   ace ["writeBuffer_valid"; "writeBuffer_address"; "coherencyRequestBuffer_valid"; "coherencyRequestBuffer_address"]]
  ++ dump_mshr tb h
  ++ [core2 ["scheduler__DOT__dequeue"; "scheduler__DOT__dequeuedIndex"]]
  ++ dump_sched tb h ++ dump_rq tb h
  ++ [core2 ["branchCounter"; "branchPCs_0_valid"; "branchPCs_1_valid"; "branchPCs_2_valid"; "branchPCs_3_valid";
             "predictedPCs_0_valid"; "predictedPCs_1_valid"; "predictedPCs_2_valid"; "predictedPCs_3_valid"];
      [frp tb h; fwp tb h]]
  ++ map (fun idx => let '(pc, insn) := rob_slot tb h idx in [idx; pc; insn]) (rob_window (frp tb h)))%list.
End Nets.
Close Scope string_scope.

(** ** State *)

Record Ev := mkEv { e_cyc : Z; e_mra : Z; e_oba : Z; e_iba : Z; e_mri : Z; e_obi : Z; e_ibi : Z;
  e_mrv : Z; e_ost : Z; e_obv : Z; e_ibv : Z; e_gate : Z; e_cf : Z; e_ca : Z; e_hd : Z }.
Record Rv := mkRv { r_cyc : Z; r_frp : Z; r_fwp : Z; r_rrp : Z; r_rwp : Z; r_fe : Z; r_ff : Z; r_fm : Z; r_re : Z; r_rf : Z; r_rm : Z;
  r_cf : Z; r_af : Z; r_ar : Z; r_bev : Z; r_bep : Z; r_ber : Z }.
Definition Ev0 : Ev := mkEv 0 0 0 0 0 0 0 0 0 0 0 0 0 0 0.
Definition Rv0 : Rv := mkRv 0 0 0 0 0 0 0 0 0 0 0 0 0 0 0 0 0.
Definition EV_RING : nat := Z.to_nat 8192.

Record accounts := mkaccounts {
  n_storeReq : Z; n_storeDrop : Z; n_loadReq : Z; n_loadDrop : Z; n_gateRise : Z; n_gateFire : Z;
  drop_cyc : Z; drop_addr : Z; prev_gate : Z }.
Record miss_path := mkmiss { shut : Z; last_open : Z; n_replay : Z; n_missSet : Z; n_opval : Z; n_acereq : Z; prev_areq : Z }.
Record gate_state := mkgate {
  last_pc : Z; pc_static : Z; acct : accounts; ring : Watch.ring Ev; prev_key : Z; rring : Watch.ring Rv; miss : miss_path }.

Section Probe.
Context `{Model} `{!Netlist} (h : Z) (STALL : Z).
Definition on (z : Z) : bool := negb (z =? 0).

(** ** One look *)

Definition still_pc (tb : Vsystem) (last_pc pc_static : Z) : Z * Z :=
  let pc_now := core_pc (raw tb) h in
  if pc_now =? last_pc then (last_pc, u64 (pc_static + 1)) else (pc_now, 0).

Definition op_of (tb : Vsystem) : Z := Z.land (u32 (mri tb h)) 0x7f.
Definition account (tb : Vsystem) (cyc : Z) (a : accounts) : accounts :=
  let g := u32 (gate tb h) in
  let req := on (mrv tb h) in
  let store := req && (op_of tb =? 0x23) in
  let load := req && negb (op_of tb =? 0x23) && (op_of tb =? 0x03) in
  let dropped := store && on (inFull tb) in
  mkaccounts
    (if store then u64 (n_storeReq a + 1) else n_storeReq a)
    (if dropped then u64 (n_storeDrop a + 1) else n_storeDrop a)
    (if load then u64 (n_loadReq a + 1) else n_loadReq a)
    (if load && (on (spFull tb) && on (inFull tb)) then u64 (n_loadDrop a + 1) else n_loadDrop a)
    (if on g && negb (on (prev_gate a)) then u64 (n_gateRise a + 1) else n_gateRise a)
    (if on g && on (cfired tb h) then u64 (n_gateFire a + 1) else n_gateFire a)
    (if dropped then cyc else drop_cyc a) (if dropped then mra tb h else drop_addr a) g.

Definition ev_happens (tb : Vsystem) : bool := on (mrv tb h) || on (ostate tb h) || on (obv tb h) || on (ibv tb h) || on (cfired tb h).
Definition ev_of (tb : Vsystem) (cyc : Z) : Ev :=
  mkEv cyc (mra tb h) (oba tb h) (iba tb h) (u32 (mri tb h)) (u32 (obi tb h)) (u32 (ibi tb h))
    (u8 (mrv tb h)) (u8 (ostate tb h)) (u8 (obv tb h)) (u8 (ibv tb h)) (u8 (gate tb h)) (u8 (cfired tb h)) (u8 (canall tb h)) (u8 (hhd tb h)).
Definition log_ev (tb : Vsystem) (cyc : Z) (r : Watch.ring Ev) : Watch.ring Ev := if ev_happens tb then rb_push EV_RING (ev_of tb cyc) r else r.

Definition ptr_key (tb : Vsystem) : Z :=
  Z.lor (Z.lor (Z.lor (u64 (Z.shiftl (frp tb h) 24)) (u64 (Z.shiftl (fwp tb h) 16))) (u64 (Z.shiftl (rrp tb h) 8))) (rwp tb h).
Definition rv_happens (prev_key : Z) (tb : Vsystem) : bool :=
  negb (ptr_key tb =? prev_key) || on (fm tb h) || on (rm tb h) || on (cfired tb h) || on (af tb h) || on (bev tb h).
Definition rv_of (tb : Vsystem) (cyc : Z) : Rv :=
  mkRv cyc (u8 (frp tb h)) (u8 (fwp tb h)) (u8 (rrp tb h)) (u8 (rwp tb h)) (u8 (fe tb h)) (u8 (ff tb h)) (u8 (fm tb h)) (u8 (re tb h)) (u8 (rf tb h)) (u8 (rm tb h))
    (u8 (cfired tb h)) (u8 (af tb h)) (u8 (ar tb h)) (u8 (bev tb h)) (u8 (bep tb h)) (u8 (ber tb h)).
Definition log_rv (tb : Vsystem) (cyc : Z) (x : Z * Watch.ring Rv) : Z * Watch.ring Rv :=
  if rv_happens x.1 tb then (ptr_key tb, rb_push EV_RING (rv_of tb cyc) x.2) else x.

Definition miss_activity (tb : Vsystem) (cyc : Z) (m : miss_path) : miss_path :=
  let '(shut, last_open) := if on (gate tb h) then (0, cyc) else (shut m, last_open m) in
  mkmiss (u64 (shut + 1)) last_open
    (if on (torpl tb h) then u64 (n_replay m + 1) else n_replay m)
    (if on (tomi tb h) then u64 (n_missSet m + 1) else n_missSet m)
    (if on (opval tb h) then u64 (n_opval m + 1) else n_opval m)
    (if areq tb h =? prev_areq m then n_acereq m else u64 (n_acereq m + 1))
    (areq tb h).

(** [Some tt]: the PC has not moved for [STALL] cycles. *)
Definition gate_look (tb : Vsystem) (cyc : Z) (s : gate_state) : option unit * gate_state :=
  let '(lp, ps) := still_pc tb (last_pc s) (pc_static s) in
  let '(k, rr) := log_rv tb cyc (prev_key s, rring s) in
  (if ps =? STALL then Some tt else None,
   mkgate lp ps (account tb cyc (acct s)) (log_ev tb cyc (ring s)) k rr (miss_activity tb cyc (miss s))).

Definition gate_start (tb : Vsystem) : gate_state :=
  mkgate 0 0 (mkaccounts 0 0 0 0 0 0 0 0 0) (ring_new EV_RING Ev0) 0xFFFFFFFFFFFFFFFF (ring_new EV_RING Rv0) (mkmiss 0 0 0 0 0 0 (areq tb h)).

(** ** The run *)

Definition gate_run (END : Z) (tb : Vsystem) : option unit * (Vsystem * Z * gate_state) :=
  post_loop (fun cyc => cyc <? END) gate_look (looks END 0) tb 0 (gate_start tb).

(** The cycle by cycle trace after the wedge. *)
Definition trace_row (tb : Vsystem) : list Z :=
  let cl s := CL h s tb in
  [opval tb h; cl "requestType"%string; cl "readBuffer_valid"%string; cl "readBuffer_address"%string;
   cl "isDataMissWire"%string; cl "isPermissionMiss"%string; torpl tb h; cl "lastInorderMissRecordRegister_valid"%string; cl "lastInorderMissRecordRegister_address"%string;
   ostate tb h; obv tb h; ibv tb h; areq tb h; AC h "readACEResponseState"%string tb; AC h "writeACEState"%string tb; AC h "coherentAXIState"%string tb;
   MS h "emptyReg"%string tb].
Fixpoint trace_rows (n : nat) (tb : Vsystem) : list (list Z) * Vsystem :=
  match n with
  | O => ([], tb)
  | S n => let tb := edges (eval tb) in let '(l, tb') := trace_rows n tb in (trace_row tb :: l, tb')
  end.

(** The line about the head of the ROB: slot, PC, instruction, opcode bits (6,4), whether
    it is a store, and four flags. *)
Definition head_line (tb : Vsystem) : Z * (Z * Z) * Z * bool * list Z :=
  let '(hpc, hin) := rob_slot tb h (Z.land (frp tb h) 31) in
  let op := Z.land (Z.shiftr hin 4) 7 in
  (frp tb h, (hpc, hin), op, op =? 2, [cready tb h; cfired tb h; canall tb h; hhd tb h]).

Record wedge_report := { activity : miss_path; head_of_rob : Z * (Z * Z) * Z * bool * list Z; ledger : accounts;
  at_wedge : Z * list (list Z); store_path : list Ev; after_wedge : list (list Z); rob_events : list Rv; after_trace : Z * list (list Z) }.
Inductive gate_report := Wedged (r : wedge_report) | Dropped (requests : Z) (cyc addr : Z) | Pass.

(** The run from the model as [bench.init] leaves it. *)
Definition storegate_main (END TRACE : Z) (tb : Vsystem) : Z * (accounts * gate_report) :=
  let '(r, (tb, cyc, s)) := gate_run END tb in
  let a := acct s in
  match r with
  | Some _ =>
    let '(rows, tb') := trace_rows (Z.to_nat TRACE) tb in
    let cyc' := u64 (cyc + TRACE) in
    (1, (a, Wedged {| activity := miss s; head_of_rob := head_line tb; ledger := a; at_wedge := (cyc, gate_snapshot tb h);
      store_path := ring_tail EV_RING Ev0 400 (ring s); after_wedge := rows; rob_events := ring_tail EV_RING Rv0 120 (rring s);
      after_trace := (cyc', gate_snapshot tb' h) |}))
  | None =>
    if on (n_storeDrop a) || on (n_loadDrop a)
    then (1, (a, Dropped (u64 (n_storeDrop a + n_loadDrop a)) (drop_cyc a) (drop_addr a)))
    else (0, (a, Pass))
  end.
End Probe.

(** ** The run as a trace *)

Section Trace.
Context `{Model} `{!Netlist} (h : Z) (STALL : Z) (tb0 : Vsystem).
Notation seen := (after tb0).

(** The committed PC after look [k]; the probe starts from 0. *)
Definition pcs (k : nat) : Z := match k with O => 0 | S _ => core_pc (raw (seen k)) h end.
Definition keys (k : nat) : Z := match k with O => 0xFFFFFFFFFFFFFFFF | S _ => ptr_key h (seen k) end.
Definition gate_open (k : nat) : bool := match k with O => false | S _ => on (u32 (gate (seen k) h)) end.
Definition store_at (k : nat) : bool := on (mrv (seen k) h) && (op_of h (seen k) =? 0x23).
Definition load_at (k : nat) : bool := on (mrv (seen k) h) && (op_of h (seen k) =? 0x03).
Definition store_lost (k : nat) : bool := store_at k && on (inFull (seen k)).
Definition load_lost (k : nat) : bool := load_at k && (on (spFull (seen k)) && on (inFull (seen k))).
Definition gate_rises (k : nat) : bool := gate_open k && negb (gate_open (pred k)).
Definition gate_fires (k : nat) : bool := gate_open k && on (cfired (seen k) h).

Definition evs (k : nat) : list Ev :=
  omap (fun j => if ev_happens h (seen j) then Some (ev_of h (seen j) (Z.of_nat j)) else None) (seq 1 k).
Definition rvs (k : nat) : list Rv :=
  omap (fun j => if rv_happens h (keys (pred j)) (seen j) then Some (rv_of h (seen j) (Z.of_nat j)) else None) (seq 1 k).

(** The accounts after [k] looks. The cycle and the address are those of the last store that was lost. *)
Definition accounts_at (k : nat) (a : accounts) : Prop :=
  n_storeReq a = tallied store_at k /\ n_storeDrop a = tallied store_lost k /\
  n_loadReq a = tallied load_at k /\ n_loadDrop a = tallied load_lost k /\
  n_gateRise a = tallied gate_rises k /\ n_gateFire a = tallied gate_fires k /\
  on (prev_gate a) = gate_open k /\
  ((drop_cyc a = 0 /\ drop_addr a = 0 /\ forall j, (1 <= j <= k)%nat -> store_lost j = false) \/
   (exists j, (1 <= j <= k)%nat /\ store_lost j = true /\ drop_cyc a = Z.of_nat j /\ drop_addr a = mra (seen j) h /\
     forall i, (j < i <= k)%nat -> store_lost i = false)).

(** The activity of the miss path. *)
Definition opened_at (k : nat) : bool := on (gate (seen k) h).
Definition replays_at (k : nat) : bool := on (torpl (seen k) h).
Definition misses_at (k : nat) : bool := on (tomi (seen k) h).
Definition operates_at (k : nat) : bool := on (opval (seen k) h).
Definition ace_moves_at (k : nat) : bool := negb (areq (seen k) h =? areq (seen (pred k)) h).
(** After [k] looks the counts are those of the whole run, and the first number is that of
    the looks since, and with, the last one at which the gate was open. *)
Definition miss_at (k : nat) (m : miss_path) : Prop :=
  n_replay m = tallied replays_at k /\ n_missSet m = tallied misses_at k /\
  n_opval m = tallied operates_at k /\ n_acereq m = tallied ace_moves_at k /\ prev_areq m = areq (seen k) h /\
  ((last_open m = 0 /\ shut m = Z.of_nat k /\ forall j, (1 <= j <= k)%nat -> opened_at j = false) \/
   (exists j, (1 <= j <= k)%nat /\ opened_at j = true /\ last_open m = Z.of_nat j /\ shut m = Z.of_nat (S k - j) /\
     forall i, (j < i <= k)%nat -> opened_at i = false)).

Lemma activity_at k m : Z.of_nat (S k) < 2 ^ 64 -> miss_at k m -> miss_at (S k) (miss_activity h (seen (S k)) (Z.of_nat (S k)) m).
Proof.
  intros Hk (A1 & A2 & A3 & A4 & A5 & A6). unfold miss_activity, miss_at. change (on (gate (seen (S k)) h)) with (opened_at (S k)).
  change (on (torpl (seen (S k)) h)) with (replays_at (S k)). change (on (tomi (seen (S k)) h)) with (misses_at (S k)).
  change (on (opval (seen (S k)) h)) with (operates_at (S k)). rewrite A5.
  assert (Em : (if areq (seen (S k)) h =? areq (seen k) h then n_acereq m else u64 (n_acereq m + 1)) = tallied ace_moves_at (S k)).
  { rewrite <- (tallied_step ace_moves_at k (n_acereq m) Hk A4). unfold ace_moves_at at 1. change (pred (S k)) with k. destruct (_ =? _); reflexivity. }
  rewrite Em. change (2 ^ 64) with 18446744073709551616 in Hk.
  destruct (opened_at (S k)) eqn:Eo; cbn [n_replay n_missSet n_opval n_acereq prev_areq last_open shut];
    (repeat (split; [first [reflexivity|apply tallied_step; [change (2 ^ 64) with 18446744073709551616; exact Hk|assumption]]|])).
  - right. exists (S k). split; [lia|]. split; [exact Eo|]. split; [reflexivity|]. split; [|intros; lia].
    replace (S (S k) - S k)%nat with 1%nat by lia. reflexivity.
  - destruct A6 as [(B1 & B2 & B3)|(j & Hj & B1 & B2 & B3 & B4)]; [left|right; exists j].
    + split; [exact B1|]. split; [rewrite B2, u64_id by (unfold is_u64; lia); lia|]. intros j Hj. destruct (Nat.eq_dec j (S k)) as [->|]; [exact Eo|apply B3; lia].
    + split; [lia|]. split; [exact B1|]. split; [exact B2|]. split; [rewrite B3, u64_id by (unfold is_u64; lia); lia|].
      intros i Hi. destruct (Nat.eq_dec i (S k)) as [->|]; [exact Eo|apply B4; lia].
Qed.

Lemma account_at k a : Z.of_nat (S k) < 2 ^ 64 -> accounts_at k a -> accounts_at (S k) (account h (seen (S k)) (Z.of_nat (S k)) a).
Proof.
  intros Hk (A1 & A2 & A3 & A4 & A5 & A6 & A7 & A8). unfold account, accounts_at.
  cbn [n_storeReq n_storeDrop n_loadReq n_loadDrop n_gateRise n_gateFire prev_gate drop_cyc drop_addr].
  assert (El : on (mrv (seen (S k)) h) && negb (op_of h (seen (S k)) =? 0x23) && (op_of h (seen (S k)) =? 0x03) = load_at (S k)).
  { unfold load_at. destruct (Z.eqb_spec (op_of h (seen (S k))) 0x03) as [E|_]; [rewrite E|rewrite !andb_false_r; reflexivity]. rewrite !andb_true_r. reflexivity. }
  rewrite El. change (on (mrv (seen (S k)) h) && (op_of h (seen (S k)) =? 0x23)) with (store_at (S k)).
  change (store_at (S k) && on (inFull (seen (S k)))) with (store_lost (S k)).
  change (load_at (S k) && (on (spFull (seen (S k))) && on (inFull (seen (S k))))) with (load_lost (S k)).
  rewrite A7. change (on (u32 (gate (seen (S k)) h))) with (gate_open (S k)).
  change (gate_open (S k) && negb (gate_open k)) with (gate_rises (S k)).
  change (gate_open (S k) && on (cfired (seen (S k)) h)) with (gate_fires (S k)).
  repeat (split; [apply tallied_step; assumption|]). split; [reflexivity|].
  destruct (store_lost (S k)) eqn:Es.
  - right. exists (S k). split; [lia|]. split; [exact Es|]. split; [reflexivity|]. split; [reflexivity|]. intros i Hi. lia.
  - destruct A8 as [(A & B & C)|(j & Hj & C & A & B & D)]; [left|right; exists j].
    + split; [exact A|]. split; [exact B|]. intros j Hj. destruct (Nat.eq_dec j (S k)) as [->|]; [exact Es|apply C; lia].
    + split; [lia|]. split; [exact C|]. split; [exact A|]. split; [exact B|]. intros i Hi. destruct (Nat.eq_dec i (S k)) as [->|]; [exact Es|apply D; lia].
Qed.

Definition look_at (k : nat) (s : gate_state) : Prop :=
  last_pc s = pcs k /\ pc_static s = Z.of_nat (still pcs k) /\ accounts_at k (acct s) /\ miss_at k (miss s) /\
  holds EV_RING (ring s) (evs k) /\ prev_key s = keys k /\ holds EV_RING (rring s) (rvs k).

Lemma EV_RING_pos : (0 < EV_RING)%nat.
Proof. unfold EV_RING. lia. Qed.

Lemma look_step k s : Z.of_nat (S k) < 2 ^ 64 -> look_at k s ->
  let '(r, s') := gate_look h STALL (seen (S k)) (Z.of_nat (S k)) s in
  look_at (S k) s' /\ r = if Z.of_nat (still pcs (S k)) =? STALL then Some tt else None.
Proof.
  intros Hk (L1 & L2 & L3 & LM & L4 & L5 & L6). unfold gate_look, still_pc, log_rv, log_ev. cbn [fst snd].
  assert (Es : (if core_pc (raw (seen (S k))) h =? last_pc s then (last_pc s, u64 (pc_static s + 1)) else (core_pc (raw (seen (S k))) h, 0)) =
    (pcs (S k), Z.of_nat (still pcs (S k)))).
  { rewrite L1, L2. change (core_pc (raw (seen (S k))) h) with (pcs (S k)). cbn [still].
    pose proof (still_le pcs k) as Hle. change (2 ^ 64) with 18446744073709551616 in Hk.
    destruct (Z.eqb_spec (pcs (S k)) (pcs k)) as [E|E]; [rewrite decide_True by exact E|rewrite decide_False by exact E; reflexivity].
    rewrite E, u64_id by (unfold is_u64; lia). f_equal. lia. }
  rewrite Es. clear Es. rewrite L5.
  assert (Er : holds EV_RING (if rv_happens h (keys k) (seen (S k)) then rb_push EV_RING (rv_of h (seen (S k)) (Z.of_nat (S k))) (rring s) else rring s) (rvs (S k))).
  { unfold rvs. rewrite omap_seq_S. change (pred (S k)) with k. destruct (rv_happens h (keys k) (seen (S k))); [apply ring_push_holds; [exact EV_RING_pos|exact L6]|].
    rewrite app_nil_r. exact L6. }
  assert (Ee : holds EV_RING (if ev_happens h (seen (S k)) then rb_push EV_RING (ev_of h (seen (S k)) (Z.of_nat (S k))) (ring s) else ring s) (evs (S k))).
  { unfold evs. rewrite omap_seq_S. destruct (ev_happens h (seen (S k))); [apply ring_push_holds; [exact EV_RING_pos|exact L4]|]. rewrite app_nil_r. exact L4. }
  assert (Ek : (if rv_happens h (keys k) (seen (S k)) then (ptr_key h (seen (S k)), rb_push EV_RING (rv_of h (seen (S k)) (Z.of_nat (S k))) (rring s)) else (keys k, rring s)) =
    (keys (S k), if rv_happens h (keys k) (seen (S k)) then rb_push EV_RING (rv_of h (seen (S k)) (Z.of_nat (S k))) (rring s) else rring s)).
  { destruct (rv_happens h (keys k) (seen (S k))) eqn:E; [reflexivity|]. f_equal. unfold rv_happens in E. change (ptr_key h (seen (S k))) with (keys (S k)) in E.
    destruct (Z.eqb_spec (keys (S k)) (keys k)) as [->|]; [reflexivity|discriminate]. }
  rewrite Ek. split; [|reflexivity]. unfold look_at. cbn [last_pc pc_static acct ring prev_key rring miss].
  split; [reflexivity|]. split; [reflexivity|]. split; [apply account_at; assumption|]. split; [apply activity_at; assumption|]. split; [exact Ee|]. split; [reflexivity|exact Er].
Qed.

Lemma look_start : look_at 0 (gate_start h tb0).
Proof.
  unfold look_at, accounts_at, miss_at, gate_start. cbn [last_pc pc_static acct ring prev_key rring miss].
  repeat split; try (apply ring_new_holds); try reflexivity; try (apply length_replicate); try (cbn; intros; lia);
    left; repeat split; intros; lia.
Qed.

(** How the run ends, after look [k]. *)
Lemma gate_run_at END : 0 < STALL -> 0 <= END < 2 ^ 64 ->
  let '(r, (tb, cyc, s)) := gate_run h STALL END tb0 in
  exists k, (k <= Z.to_nat END)%nat /\ tb = seen k /\ cyc = Z.of_nat k /\ look_at k s /\
    match r with
    | Some _ => (1 <= k)%nat /\ held pcs (Z.to_nat STALL) k /\ forall j, (j < k)%nat -> ~ held pcs (Z.to_nat STALL) j
    | None => k = Z.to_nat END /\ forall j, (j <= k)%nat -> ~ held pcs (Z.to_nat STALL) j
    end.
Proof.
  intros HS HE. change (2 ^ 64) with 18446744073709551616 in HE. unfold gate_run, looks. rewrite Z.sub_0_r.
  set (P := fun (k : nat) (s : gate_state) => look_at k s /\ forall j, (j <= k)%nat -> ~ held pcs (Z.to_nat STALL) j).
  pose proof (post_loop_ran (fun cyc => cyc <? END) (gate_look h STALL) tb0 0 P (Z.to_nat END) 0 (gate_start h tb0)) as Hr.
  rewrite Z.add_0_l in Hr. change (Z.of_nat 0) with 0 in Hr. change (after tb0 0) with tb0 in Hr.
  assert (Hstill : forall j, held pcs (Z.to_nat STALL) j -> (Z.to_nat STALL <= still pcs j)%nat) by (intros j; apply still_held).
  assert (HP0 : P 0%nat (gate_start h tb0)).
  { split; [exact look_start|]. intros j Hj Hh. destruct Hh as [Hh _]. lia. }
  assert (Hstep : forall j s, (j < 0 + Z.to_nat END)%nat -> P j s ->
    let '(r, s') := gate_look h STALL (seen (S j)) (0 + Z.of_nat (S j)) s in r = None -> P (S j) s').
  { intros j s Hj [Hl Hn]. rewrite Z.add_0_l. pose proof (look_step j s ltac:(change (2 ^ 64) with 18446744073709551616; lia) Hl) as Hs.
    destruct (gate_look _ _ _ _ _) as [r s']. destruct Hs as [Hl' Er]. intros E. split; [exact Hl'|]. intros i Hi Hh.
    destruct (Nat.eq_dec i (S j)) as [->|]; [|apply (Hn i); [lia|exact Hh]]. rewrite E in Er. apply Hstill in Hh.
    destruct (Z.eqb_spec (Z.of_nat (still pcs (S j))) STALL) as [|Hne]; [discriminate|]. cbn [still] in Hh, Hne.
    destruct (decide (pcs (S j) = pcs j)); [|lia]. apply (Hn j); [lia|]. apply still_held. lia. }
  specialize (Hr ltac:(lia) ltac:(change (2 ^ 64) with 18446744073709551616; lia) ltac:(intros j Hj; apply Z.ltb_lt; lia) HP0 Hstep).
  destruct (post_loop _ _ _ _ _ _) as [[u|] [[tb cyc] s]].
  - destruct Hr as (j & s1 & Hj & -> & -> & [Hl Hn] & El). exists (S j). split; [lia|]. split; [reflexivity|]. split; [lia|].
    pose proof (look_step j s1 ltac:(change (2 ^ 64) with 18446744073709551616; lia) Hl) as Hs. rewrite Z.add_0_l in El. rewrite El in Hs. destruct Hs as [Hl' Er].
    split; [exact Hl'|]. split; [lia|]. destruct (Z.eqb_spec (Z.of_nat (still pcs (S j))) STALL) as [Est|]; [|discriminate].
    split; [apply still_held; lia|]. intros i Hi. apply Hn. lia.
  - destruct Hr as (-> & -> & Hl & Hn). rewrite Nat.add_0_l in *. exists (Z.to_nat END). split; [lia|]. split; [reflexivity|]. split; [lia|].
    split; [exact Hl|]. split; [reflexivity|exact Hn].
Qed.

(** C35: The exit code of the probe, its accounts and the events it lists, from the looks of
    the run. It fails at the first cycle at which the PC of the hart has not moved for [STALL]
    cycles, and then lists the last 400 events of the store path and the last 120 of the ROB;
    otherwise it fails exactly when at some look the hart had a store request while the
    in-order queue of core 2 was full, or a load request while both queues of core 2 were, and
    prints the number of these looks, with the last of the stores. The accounts are numbers of
    looks, up to the one that ends the run. So are those of the miss path, which are printed
    as counted while the gate was shut; the time it is said to be shut runs from the last look
    at which it was open. *)
Theorem storegate_verdict END TRACE : 0 < STALL -> 0 <= END < 2 ^ 64 ->
  let '(code, (a, rep)) := storegate_main h STALL END TRACE tb0 in
  let n := Z.to_nat STALL in
  exists k, (k <= Z.to_nat END)%nat /\ accounts_at k a /\
    match rep with
    | Wedged r => code = 1 /\ held pcs n k /\ (forall j, (j < k)%nat -> ~ held pcs n j) /\
        ledger r = a /\ miss_at k (activity r) /\ head_of_rob r = head_line h (seen k) /\
        at_wedge r = (Z.of_nat k, gate_snapshot (seen k) h) /\
        store_path r = lastn 400 (evs k) /\ rob_events r = lastn 120 (rvs k)
    | Dropped q cyc addr => code = 1 /\ k = Z.to_nat END /\ (forall j, (j <= k)%nat -> ~ held pcs n j) /\
        (exists j, (1 <= j <= k)%nat /\ store_lost j || load_lost j = true) /\
        q = u64 (tallied store_lost k + tallied load_lost k) /\ cyc = drop_cyc a /\ addr = drop_addr a
    | Pass => code = 0 /\ k = Z.to_nat END /\ (forall j, (j <= k)%nat -> ~ held pcs n j) /\
        forall j, (1 <= j <= k)%nat -> store_lost j = false /\ load_lost j = false
    end.
Proof.
  intros HS HE. pose proof (gate_run_at END HS HE) as Hr. unfold storegate_main.
  destruct (gate_run h STALL END tb0) as [r [[tb cyc] s]]. destruct Hr as (k & Hk & -> & -> & (_ & _ & Ha & Hm & He & _ & Hv) & Hr).
  destruct r as [u|].
  - destruct (trace_rows h (Z.to_nat TRACE) (seen k)) as [rows tb']. cbv zeta. exists k. split; [exact Hk|]. split; [exact Ha|]. cbn [store_path rob_events ledger activity head_of_rob at_wedge].
    destruct Hr as (_ & Hh & Hn). split; [reflexivity|]. split; [exact Hh|]. split; [exact Hn|].
    split; [reflexivity|]. split; [exact Hm|]. split; [reflexivity|]. split; [reflexivity|].
    rewrite (ring_tail_last EV_RING Ev0 400 _ _ EV_RING_pos He), (ring_tail_last EV_RING Rv0 120 _ _ EV_RING_pos Hv).
    split; (rewrite Nat.min_r; [reflexivity|unfold EV_RING; lia]).
  - destruct Hr as (-> & Hn). pose proof Ha as (_ & A2 & _ & A4 & _). pose proof (tallied_pos store_lost (Z.to_nat END)) as T2.
    pose proof (tallied_pos load_lost (Z.to_nat END)) as T4. rewrite <- A2 in T2. rewrite <- A4 in T4. cbv zeta. unfold on at 1 2.
    destruct (Z.eqb_spec (n_storeDrop (acct s)) 0) as [E2|E2], (Z.eqb_spec (n_loadDrop (acct s)) 0) as [E4|E4]; cbn [negb orb]; exists (Z.to_nat END);
      (split; [lia|]; split; [exact Ha|]; split; [reflexivity|]; split; [reflexivity|]; split; [exact Hn|]).
    + intros j Hj. split; apply not_true_is_false; intros E; [apply T2; [eexists; split; [exact Hj|exact E]|exact E2]|apply T4; [eexists; split; [exact Hj|exact E]|exact E4]].
    + split; [|rewrite A2, A4; repeat split]. apply T4 in E4 as (j & Hj & E). exists j. split; [exact Hj|]. rewrite E, orb_true_r. reflexivity.
    + split; [|rewrite A2, A4; repeat split]. apply T2 in E2 as (j & Hj & E). exists j. split; [exact Hj|]. rewrite E. reflexivity.
    + split; [|rewrite A2, A4; repeat split]. apply T2 in E2 as (j & Hj & E). exists j. split; [exact Hj|]. rewrite E. reflexivity.
Qed.
End Trace.

(** ** Runs *)

(** Five nets of a core: a request is valid, its instruction, its address, the two full bits. *)
Definition request_nets : Netlist (H := scripted) :=
  named ["memoryRequest_valid"; "memoryRequest_instruction"; "memoryRequest_address";
         "memAccess__DOT__requestScheduler__DOT__inorderQueue__DOT__fullReg";
         "memAccess__DOT__requestScheduler__DOT__speculativeQueue__DOT__fullReg";
         "memAccess__DOT__cacheLookup__DOT__operationValid";
         "memAccess__DOT__cacheLookup__DOT__writeCommitInstructionBuffer"]%string (fun _ _ _ _ => 0).
Definition nets_at (pc : Z) (l : list Z) : core_ports := { (commit_at pc) with perfCountersOut := fun i => nth (Z.to_nat i) l 0 }.
(** The same ports on all cores but for the nets of cores 0 and 2. *)
Definition cores (pc : Z) (n0 n2 : list Z) : list core_ports := [nets_at pc n0; nets_at pc []; nets_at pc n2; nets_at pc []].
Definition a_store (addr full : Z) : list Z := [1; 0x23; addr; full].

(** Hart 2 sends a store to a full queue at cycle 2. *)
Definition store_dropped : list (list core_ports) := [cores 16 [] []; cores 32 [] (a_store 0x80001000 1); cores 48 [] (a_store 0x80002000 0)].

Lemma storegate_verdict_witness :
  let tb := script_system 0 store_dropped in
  storegate_main (H1 := request_nets) 2 10 3 0 tb =
    (1, ((mkaccounts 2 1 0 0 0 0 2 0x80001000 0), Dropped 1 2 0x80001000)) /\
  let '(code, (a, rep)) := storegate_main (H1 := request_nets) 2 10 3 0 tb in
  let n := Z.to_nat 10 in
  exists k, (k <= Z.to_nat 3)%nat /\ accounts_at (H1 := request_nets) 2 tb k a /\
    match rep with
    | Wedged r => code = 1 /\ held (pcs 2 tb) n k /\ (forall j, (j < k)%nat -> ~ held (pcs 2 tb) n j) /\
        ledger r = a /\ miss_at (H1 := request_nets) 2 tb k (activity r) /\ head_of_rob r = head_line (H1 := request_nets) 2 (after tb k) /\
        at_wedge r = (Z.of_nat k, gate_snapshot (H0 := request_nets) (after tb k) 2) /\
        store_path r = lastn 400 (evs (H1 := request_nets) 2 tb k) /\ rob_events r = lastn 120 (rvs (H1 := request_nets) 2 tb k)
    | Dropped q cyc addr => code = 1 /\ k = Z.to_nat 3 /\ (forall j, (j <= k)%nat -> ~ held (pcs 2 tb) n j) /\
        (exists j, (1 <= j <= k)%nat /\ store_lost (H1 := request_nets) 2 tb j || load_lost (H1 := request_nets) 2 tb j = true) /\
        q = u64 (tallied (store_lost (H1 := request_nets) 2 tb) k + tallied (load_lost (H1 := request_nets) 2 tb) k) /\ cyc = drop_cyc a /\ addr = drop_addr a
    | Pass => code = 0 /\ k = Z.to_nat 3 /\ (forall j, (j <= k)%nat -> ~ held (pcs 2 tb) n j) /\
        forall j, (1 <= j <= k)%nat -> store_lost (H1 := request_nets) 2 tb j = false /\ load_lost (H1 := request_nets) 2 tb j = false
    end.
Proof.
  cbv zeta. split; [vm_compute; reflexivity|]. apply (storegate_verdict (H1 := request_nets) 2 10 (script_system 0 store_dropped) 3 0); [reflexivity|split; [discriminate|reflexivity]].
Defined.

(** With [HART=0] a store that core 0 drops is not noticed, and one that meets the full
    queue of core 2 is said to be dropped. *)
Lemma other_hart_misjudged :
  fst (storegate_main (H1 := request_nets) 0 10 2 0 (script_system 0 [cores 16 (a_store 0x80001000 1) []; cores 32 [] []])) = 0 /\
  fst (storegate_main (H1 := request_nets) 0 10 2 0 (script_system 0 [cores 16 (a_store 0x80001000 0) [0; 0; 0; 1]; cores 32 [] []])) = 1.
Proof. vm_compute. split; reflexivity. Qed.

(** A dropped load alone is reported at cycle 0, address 0. *)
Lemma load_drop_unplaced :
  storegate_main (H1 := request_nets) 2 10 2 0 (script_system 0 [cores 16 [] [1; 0x03; 0x80001000; 1; 1]; cores 32 [] []]) =
    (1, (mkaccounts 0 0 1 1 0 0 0 0 0, Dropped 1 0 0)).
Proof. vm_compute. reflexivity. Qed.

(** The numbers printed as "while shut" include the cycles with the gate open: here it is
    shut for three of six cycles and never sees an operation. The first number, printed as
    the cycles without a retirement, is that of cycles since the gate was open. *)
Lemma counts_while_open :
  let opened pc := cores pc [] [0; 0; 0; 0; 0; 1; 1] in let closed pc := cores pc [] [] in
  match storegate_main (H1 := request_nets) 2 2 10 0 (script_system 0 [opened 16; opened 32; opened 48; closed 64; closed 64; closed 64]) with
  | (_, (_, Wedged r)) => (shut (activity r), last_open (activity r), n_opval (activity r)) = (4, 3, 3)
  | _ => False
  end.
Proof. vm_compute. reflexivity. Qed.
