(* ===== verification/Robjam.v ===== *)
(** * The ROB-jam probe: [linux_robjam_probe.cpp]

    The probe restores a checkpoint, watches one hart until its committed PC has not
    changed for [STALL] cycles, and then says what holds the head of the reorder buffer:
    the decoded ROB, the scheduler, the unit for multiplication and division, and the
    branch resolutions it has seen.

    [jam_exact] is the stopping rule over the trace; with it, the resolutions listed are
    the last 96, and their hits those that name the head. [entry_decoded] shows that the
    shifts with which a ROB entry is taken apart are the bit fields of its layout. *)

From Stdlib Require Import String Ascii.
From S2P Require Import Prelude Rtl Firesim Invariants Watch.

Record Res := mkRes { res_cyc : Z; res_robAddr : Z; res_passed : Z }.
Definition Res0 : Res := mkRes 0 0 0.
Definition RES_RING : nat := 96.

Inductive kind := BranchOrJump | Load | Store | Amo | System | Fence | Other.
(** The same choice twice in the source, for a ROB row and for the head. *)
Definition kind_of (opcode : Z) : kind :=
  if Z.shiftr opcode 4 =? 0x6 then BranchOrJump
  else if opcode =? 0x03 then Load else if opcode =? 0x23 then Store
  else if opcode =? 0x2f then Amo else if opcode =? 0x73 then System
  else if opcode =? 0x0f then Fence else Other.

(** An entry of the ROB, from its four words: the PC and the instruction. *)
Definition decode_entry (w : Z -> Z) : Z * Z :=
  let insn := Z.lor (Z.shiftr (w 0) 6) (u32 (Z.shiftl (Z.land (w 1) 0x3F) 26)) in
  let pc := Z.lor (Z.lor (Z.shiftr (w 1) 6) (u64 (Z.shiftl (w 2) 26))) (u64 (Z.shiftl (Z.land (w 3) 0x3F) 58)) in
  (pc, insn).

Inductive m_unit := LeakedSlot | NoCompletion | StillIterating (counter : Z) | SlotFree.

Record jam_state := mkjam { ring : Watch.ring Res; lastPc : Z; lastChange : Z; lastReport : Z; reports : list (Z * Z * Z) }.

Section Probe.
Context `{Model} `{!Netlist} (HART : Z) (STALL : Z).
Open Scope string_scope. Open Scope Z_scope.
Notation net s tb := (PICK s tb HART).

Definition resolution (tb : Vsystem) (cyc : Z) : Res := mkRes cyc (u32 (net "branchEvals_robAddr" tb)) (u32 (net "branchEvals_passed" tb)).
Definition resolves (tb : Vsystem) : bool := negb (net "branchEvals_valid" tb =? 0).

Definition jam_look (tb : Vsystem) (cyc : Z) (s : jam_state) : option unit * jam_state :=
  let rg := if resolves tb then rb_push RES_RING (resolution tb cyc) (ring s) else ring s in
  let pc := robpc tb HART in
  let report lp lc :=
    if 5000000 <=? u64 (cyc - lastReport s) then mkjam rg lp lc cyc (reports s ++ [(cyc, pc, u64 (cyc - lc))])%list
    else mkjam rg lp lc (lastReport s) (reports s) in
  if negb (pc =? lastPc s) then (None, report pc cyc)
  else if STALL <=? u64 (cyc - lastChange s) then (Some tt, mkjam rg (lastPc s) (lastChange s) (lastReport s) (reports s))
  else (None, report (lastPc s) (lastChange s)).

Definition jam_start (k : probe_ckpt) : jam_state := mkjam (ring_new RES_RING Res0) (robpc (k_tb k) HART) (k_cyc k) (k_cyc k) [].
Definition jam_run (END : Z) (k : probe_ckpt) : option unit * (Vsystem * Z * jam_state) :=
  let deadline := u64 (k_cyc k + END) in
  post_loop (fun cyc => cyc <? deadline) jam_look (looks deadline (k_cyc k)) (k_tb k) (k_cyc k) (jam_start k).

(** ** The report *)

Definition rob_rows (tb : Vsystem) : list (Z * bool * Z * Z * Z * kind) :=
  map (fun i => let '(pc, insn) := decode_entry (CORE_MEM "rob__DOT__fifo__DOT__memReg" tb (picked0 HART) (Z.of_nat i)) in
                let op := Z.land insn 0x7f in
                (Z.of_nat i, Z.of_nat i =? s32 (net "rob__DOT__fifo__DOT__readPtr" tb), pc, insn, op, kind_of op)) (seq 0 16).
Definition queue_rows (tb : Vsystem) : list (Z * Z * Z) :=
  map (fun i => let f s := CORE_RAW ("scheduler__DOT__queue_" ++ i ++ "_" ++ s) tb (picked0 HART) in (f "valid", f "robAddr", f "instruction"))
    ["0"; "1"; "2"; "3"; "4"; "5"; "6"; "7"].
Definition occupied (tb : Vsystem) : Z := fold_left (fun n r => if r.1.1 =? 0 then n else n + 1) (queue_rows tb) 0.

(** The low 64 bits of a word array. *)
Definition low64 (w : Z -> Z) : Z := Z.lor (w 0) (u64 (Z.shiftl (w 1) 32)).
Definition head_kind (tb : Vsystem) : Z * Z * kind :=
  let fh := low64 (CORE_MEM "rob__DOT__fifo__DOT__memReg_io_deq_bits_MPORT_data" tb (picked HART) 0) in
  let opcode := Z.land (Z.shiftr fh 6) 0x7f in (fh, opcode, kind_of opcode).
Definition head_result (tb : Vsystem) : Z * Z * Z :=
  let rh := low64 (CORE_MEM "rob__DOT__results__DOT__memReg_io_deq_bits_MPORT_data" tb (picked HART) 0) in
  (rh, Z.land rh 1, Z.land (Z.shiftr rh 1) 1).

Definition m_verdict (tb : Vsystem) : m_unit :=
  let ready := net "mExtensionReady" tb in let valid := net "division_request_valid" tb in let counter := net "division_counter" tb in
  if (ready =? 0) && (valid =? 0) then LeakedSlot
  else if negb (valid =? 0) && (counter =? 0) then NoCompletion
  else if negb (valid =? 0) then StillIterating counter else SlotFree.

(** [hits] of the resolutions [l] name the ROB slot [head]. *)
Definition hits (head : Z) (l : list Res) : Z := fold_left (fun n r => if res_robAddr r =? head then n + 1 else n) l 0.

Record jam_report := { jam_at : Z; jam_pc : Z; jam_for : Z; rob_state : list Z; rob : list (Z * bool * Z * Z * Z * kind);
  scheduler : list (Z * Z * Z) * Z * Z; desynchronised : bool; head_insn : Z * Z * kind; head_res : Z * Z * Z;
  lsu_state : list Z; m_state : list Z; m_says : m_unit; head_slot : Z; resolutions : list Res; head_hits : Z }.

Definition jam_report_of (tb : Vsystem) (cyc : Z) (s : jam_state) : jam_report :=
  let nets := map (fun f => net f tb) in
  let head := u32 (net "rob__DOT__fifo__DOT__readPtr" tb) in
  let l := ring_listed RES_RING Res0 (ring s) in
  {| jam_at := cyc; jam_pc := lastPc s; jam_for := u64 (cyc - lastChange s);
     rob_state := nets ["rob__DOT__fifo_io_deq_valid"; "rob__DOT__fifo__DOT__readPtr"; "rob__DOT__fifo__DOT__writePtr";
       "rob__DOT__results_io_deq_valid"; "rob__DOT__results__DOT__readPtr"; "rob__DOT__results__DOT__writePtr";
       "branchCounter"; "interruptInjectStatus"; "rob_commit_ready"; "rob_allocate_ready"];
     rob := rob_rows tb;
     scheduler := (queue_rows tb, occupied tb, CORE_RAW "scheduler__DOT__releasedBuffer_valid" tb (picked0 HART));
     desynchronised := occupied tb =? 0;
     head_insn := head_kind tb; head_res := head_result tb;
     lsu_state := nets ["memAccess__DOT__fenceState"; "memAccess__DOT__subModulesReady"; "memAccess__DOT__aceUnit__DOT__coherentAXIState";
       "memAccess__DOT__aceUnit__DOT__readACERequestState"; "memAccess__DOT__aceUnit__DOT__readACEResponseState"; "memAccess__DOT__aceUnit__DOT__writeACEState";
       "memAccess__DOT__aceUnit__DOT__readBuffer_valid"; "memAccess__DOT__aceUnit__DOT__readBuffer_address"];
     m_state := nets ["divDone"; "divDoneRobAddr"; "extnMRequest_valid"; "extnMRequest_robAddr"; "extnMRequest_instruction";
       "extnMPartialServicing_valid"; "extnMPartialServicing_robAddr"; "extnMPartialServicing_instruction"; "mExtensionReady";
       "division_request_valid"; "division_request_robAddr"; "division_counter"; "division_request_branchMask"; "divBranchMask"];
     m_says := m_verdict tb; head_slot := head; resolutions := l; head_hits := hits head l |}.

Inductive jam_outcome := NoStall (cyc : Z) | Jammed (r : jam_report).
Definition robjam_main (END : Z) (ckpt : option probe_ckpt) : Z * option jam_outcome :=
  match ckpt with
  | None => (1, None)
  | Some k =>
    let '(r, (tb, cyc, s)) := jam_run END k in
    (0, Some (match r with None => NoStall cyc | Some _ => Jammed (jam_report_of tb cyc s) end))
  end.
Close Scope string_scope.
End Probe.

(** ** The layout of an entry

    [prfDest] in bits 5..0, the instruction in bits 37..6, the PC in bits 101..38. *)
Lemma entry_decoded e : 0 <= e -> decode_entry (words_of e) = (Z.shiftr e 38 mod 2 ^ 64, Z.shiftr e 6 mod 2 ^ 32).
Proof.
  intros He. unfold decode_entry. cbv zeta. f_equal; apply Z.bits_inj'; intros i Hi; unfold u32, u64;
    change 0x3F with (Z.ones 6); change 0x100000000 with (2 ^ 32); change 0x10000000000000000 with (2 ^ 64).
  - destruct (Z.ltb_spec i 64) as [Hl|Hl].
    + rewrite Z.mod_pow2_bits_low, !Z.lor_spec, !Z.mod_pow2_bits_low, !Z.shiftr_spec, words_of_testbit by lia.
      destruct (Z.ltb_spec i 26).
      * rewrite (Z.shiftl_spec_low _ 26), (Z.shiftl_spec_low _ 58), !orb_false_r by lia. destruct (Z.ltb_spec (i + 6) 32); [|lia]. cbn [andb]. f_equal. lia.
      * destruct (Z.ltb_spec (i + 6) 32); [lia|]. cbn [andb orb]. rewrite !Z.shiftl_spec, words_of_testbit by lia. destruct (Z.ltb_spec i 58).
        -- rewrite (Z.testbit_neg_r _ (i - 58)), orb_false_r by lia. destruct (Z.ltb_spec (i - 26) 32); [|lia]. cbn [andb]. f_equal. lia.
        -- destruct (Z.ltb_spec (i - 26) 32); [lia|]. cbn [andb orb]. rewrite Z.land_spec, words_of_testbit, Z.ones_spec_low, andb_true_r by lia.
           destruct (Z.ltb_spec (i - 58) 32); [|lia]. cbn [andb]. f_equal. lia.
    + rewrite Z.mod_pow2_bits_high, !Z.lor_spec, !Z.mod_pow2_bits_high, Z.shiftr_spec, words_of_testbit, !orb_false_r by lia.
      destruct (Z.ltb_spec (i + 6) 32); [lia|reflexivity].
  - destruct (Z.ltb_spec i 32) as [Hl|Hl].
    + rewrite Z.mod_pow2_bits_low, Z.lor_spec, Z.mod_pow2_bits_low, !Z.shiftr_spec, words_of_testbit by lia. destruct (Z.ltb_spec i 26).
      * rewrite Z.shiftl_spec_low, orb_false_r by lia. destruct (Z.ltb_spec (i + 6) 32); [|lia]. cbn [andb]. f_equal.
      * rewrite Z.shiftl_spec, Z.land_spec, Z.ones_spec_low, andb_true_r, words_of_testbit by lia. destruct (Z.ltb_spec (i + 6) 32); [lia|].
        destruct (Z.ltb_spec (i - 26) 32); [|lia]. cbn [andb orb]. f_equal. lia.
    + rewrite Z.mod_pow2_bits_high, Z.lor_spec, Z.mod_pow2_bits_high, Z.shiftr_spec, words_of_testbit, orb_false_r by lia.
      destruct (Z.ltb_spec (i + 6) 32); [lia|reflexivity].
Qed.

(** The three decoders of a ROB entry: this one, that of [linux_storegate_probe.cpp] and
    that of [invariants.h]. *)
Lemma decoders_agree e : 0 <= e ->
  decode_entry (words_of e) = (wbits (words_of e) 38 64, u32 (wbits (words_of e) 6 32)) /\ snd (decode_entry (words_of e)) = insn_of (words_of e).
Proof.
  intros He. rewrite entry_decoded, !wbits_field, insn_of_bits by lia. split; [|reflexivity]. f_equal. unfold u32.
  change 0x100000000 with (2 ^ 32). rewrite Z.mod_mod by discriminate. reflexivity.
Qed.

(** ** The run as a trace *)

Section Trace.
Context `{Model} `{!Netlist} (HART : Z) (STALL : Z) (k0 : probe_ckpt).
Notation seen := (after (k_tb k0)).
Definition pcs (k : nat) : Z := robpc (seen k) HART.
Definition ress (k : nat) : list Res :=
  omap (fun j => if resolves HART (seen j) then Some (resolution HART (seen j) (k_cyc k0 + Z.of_nat j)) else None) (seq 1 k).

Definition jam_at_look (k : nat) (s : jam_state) : Prop :=
  lastPc s = pcs k /\ lastChange s = k_cyc k0 + Z.of_nat (k - still pcs k) /\ holds RES_RING (ring s) (ress k).

Lemma RES_RING_pos : (0 < RES_RING)%nat.
Proof. unfold RES_RING. lia. Qed.

Lemma jam_step k s : 0 <= k_cyc k0 -> k_cyc k0 + Z.of_nat (S k) < 2 ^ 64 -> 0 < STALL -> jam_at_look k s ->
  let '(r, s') := jam_look HART STALL (seen (S k)) (k_cyc k0 + Z.of_nat (S k)) s in
  jam_at_look (S k) s' /\ (r = None <-> Z.of_nat (still pcs (S k)) < STALL).
Proof.
  intros Hc Hlt HS (J1 & J2 & J3). unfold jam_look. cbv zeta. pose proof (still_le pcs k) as Hle. change (2 ^ 64) with 18446744073709551616 in Hlt.
  assert (Hr : holds RES_RING (if resolves HART (seen (S k)) then rb_push RES_RING (resolution HART (seen (S k)) (k_cyc k0 + Z.of_nat (S k))) (ring s) else ring s) (ress (S k))).
  { unfold ress. rewrite omap_seq_S. destruct (resolves _ _); [apply ring_push_holds; [exact RES_RING_pos|exact J3]|]. rewrite app_nil_r. exact J3. }
  set (rg := if resolves HART (seen (S k)) then _ else _) in *. clearbody rg. clear J3.
  change (robpc (seen (S k)) HART) with (pcs (S k)). rewrite J1.
  assert (Es : still pcs (S k) = if pcs (S k) =? pcs k then S (still pcs k) else 0%nat).
  { cbn [still]. destruct (Z.eqb_spec (pcs (S k)) (pcs k)); [apply decide_True|apply decide_False]; assumption. }
  unfold jam_at_look. rewrite Es. destruct (Z.eqb_spec (pcs (S k)) (pcs k)) as [E|E]; cbn [negb].
  - assert (Ed : u64 (k_cyc k0 + Z.of_nat (S k) - lastChange s) = Z.of_nat (S (still pcs k))) by (rewrite J2, u64_id; unfold is_u64; lia).
    rewrite Ed. destruct (Z.leb_spec STALL (Z.of_nat (S (still pcs k)))) as [Hs|Hs].
    + split; [cbn [lastPc lastChange ring]; rewrite E, J2; split; [reflexivity|split; [f_equal; lia|exact Hr]]|]. split; [discriminate|lia].
    + split; [|split; [intros _; exact Hs|reflexivity]].
      destruct (_ <=? _); cbn [lastPc lastChange ring]; rewrite E, J2; (split; [reflexivity|split; [f_equal; lia|exact Hr]]).
  - split; [|split; [intros _; exact HS|reflexivity]]. destruct (_ <=? _); cbn [lastPc lastChange ring]; (split; [reflexivity|split; [f_equal; lia|exact Hr]]).
Qed.

Lemma jam_run_at END : 0 <= END -> 0 <= k_cyc k0 -> k_cyc k0 + END < 2 ^ 64 -> 0 < STALL ->
  let '(r, (tb, cyc, s)) := jam_run HART STALL END k0 in
  exists k, (k <= Z.to_nat END)%nat /\ tb = seen k /\ cyc = k_cyc k0 + Z.of_nat k /\ jam_at_look k s /\
    match r with
    | Some _ => held pcs (Z.to_nat STALL) k /\ forall j, (j < k)%nat -> ~ held pcs (Z.to_nat STALL) j
    | None => k = Z.to_nat END /\ forall j, (j <= k)%nat -> ~ held pcs (Z.to_nat STALL) j
    end.
Proof.
  intros HE Hc Hlt HS. unfold jam_run. cbv zeta. rewrite (u64_id (k_cyc k0 + END)) by (unfold is_u64; change (2 ^ 64) with 18446744073709551616 in Hlt; lia).
  replace (looks (k_cyc k0 + END) (k_cyc k0)) with (Z.to_nat END) by (unfold looks; f_equal; lia).
  set (P := fun (k : nat) (s : jam_state) => jam_at_look k s /\ forall j, (j <= k)%nat -> ~ held pcs (Z.to_nat STALL) j).
  pose proof (post_loop_ran (fun cyc => cyc <? k_cyc k0 + END) (jam_look HART STALL) (k_tb k0) (k_cyc k0) P (Z.to_nat END) 0 (jam_start HART k0) Hc) as Hr.
  rewrite Z.add_0_r in Hr. change (after (k_tb k0) 0) with (k_tb k0) in Hr.
  assert (HP0 : P 0%nat (jam_start HART k0)).
  { split; [|intros j Hj [Hh _]; lia]. split; [reflexivity|]. split; [cbn; lia|apply ring_new_holds]. }
  specialize (Hr ltac:(lia) ltac:(intros j Hj; apply Z.ltb_lt; lia) HP0).
  assert (Hstep : forall j s, (j < 0 + Z.to_nat END)%nat -> P j s ->
    let '(r, s') := jam_look HART STALL (seen (S j)) (k_cyc k0 + Z.of_nat (S j)) s in r = None -> P (S j) s').
  { intros j s Hj [Hl Hn]. pose proof (jam_step j s Hc ltac:(lia) HS Hl) as Hs. destruct (jam_look _ _ _ _ _) as [r s']. destruct Hs as [Hl' Er].
    intros E. apply Er in E. split; [exact Hl'|]. intros i Hi Hh. destruct (Nat.eq_dec i (S j)) as [->|]; [|apply (Hn i); [lia|exact Hh]].
    apply still_held in Hh. lia. }
  specialize (Hr Hstep). destruct (post_loop _ _ _ _ _ _) as [[u|] [[tb cyc] s]].
  - destruct Hr as (j & s1 & Hj & -> & -> & [Hl Hn] & El). exists (S j). split; [lia|]. split; [reflexivity|]. split; [reflexivity|].
    pose proof (jam_step j s1 Hc ltac:(lia) HS Hl) as Hs. rewrite El in Hs. destruct Hs as [Hl' Er]. split; [exact Hl'|]. split; [|intros i Hi; apply Hn; lia].
    apply still_held. destruct (Z.lt_ge_cases (Z.of_nat (still pcs (S j))) STALL) as [Hb|]; [apply Er in Hb; discriminate|lia].
  - destruct Hr as (-> & -> & Hl & Hn). rewrite Nat.add_0_l in *. exists (Z.to_nat END). split; [lia|]. split; [reflexivity|]. split; [reflexivity|].
    split; [exact Hl|]. split; [reflexivity|exact Hn].
Qed.

Lemma hits_count head l : hits head l = Z.of_nat (length (List.filter (fun r => res_robAddr r =? head) l)).
Proof.
  unfold hits. replace (Z.of_nat _) with (0 + Z.of_nat (length (List.filter (fun r => res_robAddr r =? head) l))) by lia. generalize 0 as n.
  induction l as [|r l IH]; intros n; cbn [fold_left List.filter]; [cbn; lia|]. rewrite IH. destruct (_ =? _); cbn [length]; lia.
Qed.

(** The probe reports a jam at the first cycle at which the committed PC of the hart has
    not changed for [STALL] cycles, and none if there is no such cycle in its window. The
    resolutions it lists are the last 96 of the run, and the hits those that name the slot at
    the head. *)
Theorem jam_exact END : 0 <= END -> 0 <= k_cyc k0 -> k_cyc k0 + END < 2 ^ 64 -> 0 < STALL ->
  let n := Z.to_nat STALL in
  match robjam_main HART STALL END (Some k0) with
  | (0, Some (NoStall cyc)) => cyc = k_cyc k0 + END /\ forall j, (j <= Z.to_nat END)%nat -> ~ held pcs n j
  | (0, Some (Jammed r)) => exists k, (1 <= k <= Z.to_nat END)%nat /\ jam_at r = k_cyc k0 + Z.of_nat k /\
      held pcs n k /\ (forall j, (j < k)%nat -> ~ held pcs n j) /\ jam_pc r = pcs k /\ jam_for r = STALL /\
      resolutions r = lastn 96 (ress k) /\
      head_hits r = Z.of_nat (length (List.filter (fun x => res_robAddr x =? head_slot r) (lastn 96 (ress k))))
  | _ => False
  end.
Proof.
  intros HE Hc Hlt HS. pose proof (jam_run_at END HE Hc Hlt HS) as Hr. unfold robjam_main. cbv zeta.
  destruct (jam_run HART STALL END k0) as [r [[tb cyc] s]]. destruct Hr as (k & Hk & -> & -> & (J1 & J2 & J3) & Hr). destruct r as [u|].
  - destruct Hr as [Hh Hn]. exists k. unfold jam_report_of. cbn [jam_at jam_pc jam_for resolutions head_hits head_slot].
    assert (H1k : (1 <= k)%nat) by (destruct Hh; lia). split; [lia|]. split; [reflexivity|]. split; [exact Hh|]. split; [exact Hn|]. split; [exact J1|].
    rewrite hits_count, (ring_listed_last RES_RING Res0 _ _ RES_RING_pos J3). split; [|split; reflexivity].
    assert (Es : still pcs k = Z.to_nat STALL).
    { pose proof (proj2 (still_held pcs k (Z.to_nat STALL)) Hh) as Hge. destruct k as [|k]; [lia|]. cbn [still] in *.
      destruct (decide (pcs (S k) = pcs k)); [|lia]. destruct (Nat.eq_dec (S (still pcs k)) (Z.to_nat STALL)) as [|Hne]; [assumption|]. exfalso.
      apply (Hn k); [lia|]. apply still_held. lia. }
    rewrite J2, Es. pose proof (still_le pcs k). change (2 ^ 64) with 18446744073709551616 in Hlt. rewrite u64_id by (unfold is_u64; lia). lia.
  - destruct Hr as [-> Hn]. split; [lia|exact Hn].
Qed.
End Trace.

(** ** A run *)

Definition resolution_nets : Netlist (H := scripted) :=
  named ["branchEvals_valid"; "branchEvals_robAddr"; "branchEvals_passed"; "rob__DOT__fifo__DOT__readPtr";
         "mExtensionReady"; "division_request_valid"]%string (fun _ _ _ _ => 0).
Definition core0_at (pc : Z) (l : list Z) : list core_ports :=
  [{ (commit_at pc) with perfCountersOut := fun i => nth (Z.to_nat i) l 0 }; idle_core; idle_core; idle_core].
(** Two resolutions, the second of slot 5 at the head, and then nothing moves. *)
Definition jamming : probe_ckpt :=
  {| k_cyc := 100; k_msip_writes := [0; 0; 0; 0]; k_last_uart_cyc := 0; k_uart_bytes := 0;
     k_tb := script_system 0 ([core0_at 16 [1; 3; 1; 5]; core0_at 32 [1; 5; 0; 5]] ++ replicate 9 (core0_at 32 [0; 0; 0; 5])) |}.

Lemma jam_exact_witness :
  match robjam_main (H1 := resolution_nets) 0 4 10 (Some jamming) with
  | (0, Some (Jammed r)) => (jam_at r, resolutions r, head_hits r, m_says r) = (106, [mkRes 101 3 1; mkRes 102 5 0], 1, LeakedSlot)
  | _ => False
  end /\
  let n := Z.to_nat 4 in
  match robjam_main (H1 := resolution_nets) 0 4 10 (Some jamming) with
  | (0, Some (NoStall cyc)) => cyc = k_cyc jamming + 10 /\ forall j, (j <= Z.to_nat 10)%nat -> ~ held (pcs 0 jamming) n j
  | (0, Some (Jammed r)) => exists k, (1 <= k <= Z.to_nat 10)%nat /\ jam_at r = k_cyc jamming + Z.of_nat k /\
      held (pcs 0 jamming) n k /\ (forall j, (j < k)%nat -> ~ held (pcs 0 jamming) n j) /\ jam_pc r = pcs 0 jamming k /\ jam_for r = 4 /\
      resolutions r = lastn 96 (ress (H1 := resolution_nets) 0 jamming k) /\
      head_hits r = Z.of_nat (length (List.filter (fun x => res_robAddr x =? head_slot r) (lastn 96 (ress (H1 := resolution_nets) 0 jamming k))))
  | _ => False
  end.
Proof.
  split; [vm_compute; reflexivity|]. apply (jam_exact (H1 := resolution_nets) 0 4 jamming 10); [discriminate|discriminate|reflexivity|reflexivity].
Defined.
