(* ===== verification/Pending.v ===== *)
(** * Interrupts that stay pending: [ipitmr_wedge_probe.cpp], [linux_injfsm_probe.cpp], [injwedge_probe.cpp]

    Three probes that end when a level has been up for too long: the software interrupt of a
    hart in the first two, the state of the interrupt injection of core 1 in the third. The
    second and third keep rings of the transitions before. Arrays with an entry per hart are
    lists of records.

    The theorems give the look that ends each run from the trace of the level
    ([Watch.raised]), for any model and nets. *)

From Stdlib Require Import String Ascii.
From S2P Require Import Prelude Rtl Firesim Watch Probes.

Definition RING64 : nat := 64.

(** ** [ipitmr_wedge_probe.cpp] *)

Record msip_watch := mkmsip { msip_set_since : Z; msip_prev : Z }.
Record ipitmr_state := mkipitmr { watches : list msip_watch; tx_prev : list bool; con_line : list Z; con_out : list (Z * list Z); prog : list (Z * list Z * list Z) }.

Section Ipitmr.
Context `{Model} `{!Netlist} (THRESHOLD : Z).
Open Scope string_scope. Open Scope Z_scope.

Definition msip_cur (tb : Vsystem) (h : nat) : Z := u32 (msipShared (core tb (Z.of_nat h))).

(** The console: a byte when the port becomes valid. *)
Definition con_port (tb : Vsystem) (cyc : Z) (s : ipitmr_state) (p : nat) : ipitmr_state :=
  let v := negb (OutChar_valid (core tb (Z.of_nat p)) =? 0) in
  let '(line, out) :=
    if v && negb (default false (tx_prev s !! p))
    then let '(line, lines) := con_char (con_line s, []) (u8 (OutChar_byte (core tb (Z.of_nat p)))) in (line, con_out s ++ map (pair cyc) lines)%list
    else (con_line s, con_out s) in
  mkipitmr (watches s) (<[p := v]> (tx_prev s)) line out (prog s).

Definition msip_step (tb : Vsystem) (cyc : Z) (h : nat) (w : msip_watch) : msip_watch :=
  mkmsip (if (msip_cur tb h =? 1) && (msip_prev w =? 0) then cyc else msip_set_since w) (msip_cur tb h).
Definition msip_late (tb : Vsystem) (cyc : Z) (l : list msip_watch) (h : nat) : bool :=
  match l !! h with Some w => (msip_cur tb h =? 1) && (THRESHOLD <? u64 (cyc - msip_set_since w)) | None => false end.

(** The loop over the harts returns at the first that is late. *)
Definition ipitmr_look (tb : Vsystem) (cyc : Z) (s : ipitmr_state) : option (nat * Z) * ipitmr_state :=
  let s := fold_left (con_port tb cyc) harts4 s in
  let l := imap (msip_step tb cyc) (watches s) in
  match List.find (msip_late tb cyc l) harts4 with
  | Some h => (Some (h, match l !! h with Some w => u64 (cyc - msip_set_since w) | None => 0 end), mkipitmr l (tx_prev s) (con_line s) (con_out s) (prog s))
  | None => (None, mkipitmr l (tx_prev s) (con_line s) (con_out s)
      (if cyc mod 5000000 =? 0 then prog s ++ [(cyc, map (fun h => robpc tb (Z.of_nat h)) harts4, map (msip_cur tb) harts4)] else prog s)%list)
  end.

Definition ipitmr_start : ipitmr_state := mkipitmr (replicate 4 (mkmsip 0 0)) (replicate 4 false) [] [] [].
Definition ipitmr_run (END : Z) (tb : Vsystem) : option (nat * Z) * (Vsystem * Z * ipitmr_state) :=
  post_loop (fun cyc => cyc <? END) ipitmr_look (looks END 0) tb 0 ipitmr_start.

(** *** The dump *)

Definition ONE (tb : Vsystem) (n : Z) : list (list Z) :=
  let f := map (fun s => CORE_RAW s tb n) in
  [(robpc tb n :: f ["interruptInjectStatus"; "injectingSoftwareInterrupt"; "decode_canTakeInterrupt"; "decode_canTakeSoftInterrupt"; "branchCounter";
       "mExtensionReady"; "extnMRequest_valid"; "memAccess__DOT__arbiter__DOT__atomicBusyState"; "decode__DOT__mstatus"; "decode__DOT__mie"]
     ++ [decode_mcause (core tb n); decode_mepc (core tb n)])%list;
   f ["memAccess__DOT__aceUnit_coherencyRequest_request_valid"; "memAccess__DOT__arbiter__DOT__inorderBuffer_valid"; "memAccess__DOT__arbiter__DOT__inorderBuffer_address";
      "memAccess__DOT__arbiter__DOT__inorderBuffer_writeData_valid"; "memAccess__DOT__cacheLookup__DOT__replayBuffer_valid"; "memAccess__DOT__cacheLookup__DOT__replayBuffer_address";
      "memAccess__DOT__aceUnit__DOT__writeBuffer_valid"; "memAccess__DOT__aceUnit__DOT__writeBuffer_address"; "memAccess__DOT__cacheLookup__DOT__reservationGuardBlocked";
      "memAccess__DOT__cacheLookup__DOT__reservationGuardCnt"; "memAccess__DOT__cacheLookup__DOT__isStaleUpgradeReplay"]].
Definition dump_cores (tb : Vsystem) : list (list Z) :=
  let f := map (fun s => CORE_RAW s tb 0) in
  (map (msip_cur tb) harts4 :: flat_map (ONE tb) [0; 1; 2; 3] ++
   [map (fun i => registersOut (core tb 0) i) [1; 2; 10; 11; 12; 14; 15; 16; 17] ++
      f ["branchEvals_valid"; "branchEvals_passed"; "branchInstruction_instruction"; "branchInstruction_robAddr"];
    f ["branchInstruction_valid"; "branchInstruction_rs1"; "branchInstruction_rs2"; "branchEvals_nextPC"]])%list.

(** The trace after the wedge: the commits of every hart, the range of the level of hart
    0 when it is the wedged one, and a row every 400 cycles. *)
Record post := mkpost { commits : list Z; msip_lo : Z; msip_hi : Z; rows : list (list Z) }.
Definition post_row (tb : Vsystem) (cyc k : Z) : list Z :=
  [k; cyc; robpc tb 0; registersOut (core tb 0) 14; registersOut (core tb 0) 16; registersOut (core tb 0) 11; msip_cur tb 0] ++
  map (fun s => CORE_RAW s tb 0) ["rob__DOT__fifo__DOT__emptyReg"; "interruptInjectStatus"; "decode_canTakeSoftInterrupt"; "branchEvals_valid"; "branchInstruction_instruction"].
Definition post_cycle (h : nat) (tb : Vsystem) (cyc k : Z) (p : post) : post :=
  let m := msip_cur tb 0 in
  mkpost (imap (fun i n => u64 (n + commitFired (core tb (Z.of_nat i)))) (commits p))
    (if (h =? 0)%nat && (m <? msip_lo p) then m else msip_lo p) (if (h =? 0)%nat && (msip_hi p <? m) then m else msip_hi p)
    (if k mod 400 =? 0 then rows p ++ [post_row tb cyc k] else rows p).
Fixpoint post_trace (h n : nat) (tb : Vsystem) (cyc k : Z) (p : post) : post :=
  match n with
  | O => p
  | S n => let tb := edges (eval tb) in let cyc := u64 (cyc + 1) in post_trace h n tb cyc (k + 1) (post_cycle h tb cyc k p)
  end.

Inductive ipitmr_outcome := NoWedge (cyc : Z) | MsipPending (cyc : Z) (hart : nat) (cycles : Z) (dump : list (list Z)) (after_ : post).
(** The run from the model as [bench.init] leaves it. *)
Definition ipitmr_main (END : Z) (tb : Vsystem) : Z * ipitmr_outcome :=
  match ipitmr_run END tb with
  | (None, (_, cyc, _)) => (0, NoWedge cyc)
  | (Some (h, d), (tb, cyc, _)) => (7, MsipPending cyc h d (dump_cores tb) (post_trace h (Z.to_nat 8000) tb cyc 0 (mkpost [0; 0; 0; 0] 99 0 [])))
  end.
End Ipitmr.

(** ** [linux_injfsm_probe.cpp] *)

Record BrEvt := mkBrEvt { b_cyc : Z; b_pc : Z; b_br : Z; b_inj : Z; b_beV : Z; b_beP : Z; b_biV : Z; b_biI : Z }.
Definition BrEvt0 : BrEvt := mkBrEvt 0 0 0 0 0 0 0 0.
Record br_watch := mkbr { msip_since : Z; msip_was : Z; brPrev : Z; br_ring : Watch.ring BrEvt }.
Record injfsm_state := mkinjfsm { brs : list br_watch; inj_lastReport : Z; inj_reports : list (Z * list Z) }.

Section Injfsm.
Context `{Model} `{!Netlist} (THRESHOLD WINDOW FORCE_HART start : Z).
Open Scope string_scope. Open Scope Z_scope.

Definition brCnt (tb : Vsystem) (h : Z) : Z := PICK "branchCounter" tb h.
Definition injSt (tb : Vsystem) (h : Z) : Z := PICK "interruptInjectStatus" tb h.
Definition beValid (tb : Vsystem) (h : Z) : Z := PICK "branchEvals_valid" tb h.
Definition bePassed (tb : Vsystem) (h : Z) : Z := PICK "branchEvals_passed" tb h.
Definition biValid (tb : Vsystem) (h : Z) : Z := PICK "branchInstruction_valid" tb h.
Definition biInsn (tb : Vsystem) (h : Z) : Z := PICK "branchInstruction_instruction" tb h.

Definition br_event (tb : Vsystem) (cyc h : Z) : BrEvt :=
  mkBrEvt cyc (robpc tb h) (u32 (brCnt tb h)) (u32 (injSt tb h)) (u32 (beValid tb h)) (u32 (bePassed tb h)) (u32 (biValid tb h)) (biInsn tb h).
(** Both loops over the harts, for one of them. *)
Definition br_step (tb : Vsystem) (cyc : Z) (h : nat) (w : br_watch) : br_watch :=
  let b := brCnt tb (Z.of_nat h) in
  let m := msip_cur tb h in
  mkbr (if negb (m =? 0) && (msip_was w =? 0) then cyc else msip_since w) m b
    (if b =? brPrev w then br_ring w else rb_push RING64 (br_event tb cyc (Z.of_nat h)) (br_ring w)).
Definition br_late (tb : Vsystem) (cyc : Z) (l : list br_watch) (h : nat) : bool :=
  match l !! h with
  | Some w => (FORCE_HART <? 0) && negb (msip_cur tb h =? 0) && negb (msip_since w =? 0) && (THRESHOLD <? u64 (cyc - msip_since w))
  | None => false
  end.

(** The hart declared wedged. *)
Definition injfsm_look (tb : Vsystem) (cyc : Z) (s : injfsm_state) : option Z * injfsm_state :=
  let l := imap (br_step tb cyc) (brs s) in
  let wedged := match List.find (br_late tb cyc l) harts4 with Some h => Z.of_nat h | None => -1 end in
  let wedged := if (0 <=? FORCE_HART) && (THRESHOLD <? u64 (cyc - start)) then FORCE_HART else wedged in
  if 0 <=? wedged then (Some wedged, mkinjfsm l (inj_lastReport s) (inj_reports s))
  else (None, if 5000000 <=? u64 (cyc - inj_lastReport s) then mkinjfsm l cyc (inj_reports s ++ [(cyc, map msip_since l)])%list
              else mkinjfsm l (inj_lastReport s) (inj_reports s)).

Definition injfsm_start (cyc : Z) : injfsm_state := mkinjfsm (replicate 4 (mkbr 0 0 0xFFFFFFFFFFFFFFFF (ring_new RING64 BrEvt0))) cyc [].

(** The trace after the wedge: a row when the signature changes and every 500 cycles, at
    most 601 of them. *)
Definition signature (tb : Vsystem) (h : Z) : Z :=
  Z.lxor (Z.lxor (Z.lxor (Z.lxor (u64 (Z.shiftl (injSt tb h) 40)) (u64 (Z.shiftl (brCnt tb h) 24))) (u64 (Z.shiftl (biValid tb h) 20)))
    (u64 (Z.shiftl (beValid tb h) 16))) (Z.land (biInsn tb h) 0xffff).
Definition inj_row (tb : Vsystem) (cyc h : Z) : list Z :=
  let f s := PICK s tb h in
  [cyc; robpc tb h; injSt tb h; f "injectingSoftwareInterrupt"; brCnt tb h; biValid tb h; biInsn tb h; beValid tb h; bePassed tb h;
   f "decode_canTakeSoftInterrupt"; f "decode_canTakeInterrupt"; f "lastRetiredSystem"; f "decode__DOT__mstatus"; f "decode__DOT__mie"].
Fixpoint inj_trace (n : nat) (h : Z) (tb : Vsystem) (cyc i prev_sig : Z) (printed : nat) : list (list Z) :=
  match n with
  | O => []
  | S n =>
    let tb := edges (eval tb) in
    let cyc := u64 (cyc + 1) in
    let sig := signature tb h in
    if negb (sig =? prev_sig) || (i mod 500 =? 0)
    then inj_row tb cyc h :: (if (600 <? S printed)%nat then [] else inj_trace n h tb cyc (i + 1) sig (S printed))
    else inj_trace n h tb cyc (i + 1) sig printed
  end.

Record injfsm_report := { w_cyc : Z; w_hart : Z; w_pending : Z; transitions : list BrEvt; since_last : Z; window : list (list Z) }.
(** [None] for the report: the index [h] is outside the four vectors. *)
Definition injfsm_report_of (tb : Vsystem) (cyc h : Z) (s : injfsm_state) : option injfsm_report :=
  if h <? 0 then None else
  match brs s !! Z.to_nat h with
  | None => None
  | Some w =>
    let l := ring_listed RING64 BrEvt0 (br_ring w) in
    Some {| w_cyc := cyc; w_hart := h; w_pending := u64 (cyc - (if msip_since w =? 0 then start else msip_since w)); transitions := l;
            since_last := match rev l with e :: _ => u64 (cyc - b_cyc e) | [] => 0 end;
            window := inj_trace (Z.to_nat WINDOW) h tb cyc 0 0xFFFFFFFFFFFFFFFF 0 |}
  end.
End Injfsm.

Definition injfsm_run `{Model} `{!Netlist} (THRESHOLD FORCE_HART END : Z) (k : probe_ckpt) : option Z * (Vsystem * Z * injfsm_state) :=
  let deadline := u64 (k_cyc k + END) in
  post_loop (fun cyc => cyc <? deadline) (injfsm_look THRESHOLD FORCE_HART (k_cyc k)) (looks deadline (k_cyc k)) (k_tb k) (k_cyc k) (injfsm_start (k_cyc k)).
Inductive injfsm_outcome := Quiet (cyc : Z) | Wedge (r : option injfsm_report).
Definition injfsm_main `{Model} `{!Netlist} (THRESHOLD WINDOW FORCE_HART END : Z) (ckpt : option probe_ckpt) : Z * option injfsm_outcome :=
  match ckpt with
  | None => (1, None)
  | Some k =>
    match injfsm_run THRESHOLD FORCE_HART END k with
    | (None, (_, cyc, _)) => (0, Some (Quiet cyc))
    | (Some h, (tb, cyc, s)) => (0, Some (Wedge (injfsm_report_of WINDOW (k_cyc k) tb cyc h s)))
    end
  end.

(** ** [injwedge_probe.cpp] *)

Record InjEv := mkInjEv { i_cyc : Z; i_bcnt : Z; i_inj : Z; i_bev : Z; i_bpass : Z; i_bmask : Z; i_brob : Z; i_biv : Z; i_binsn : Z; i_robEmpty : Z }.
Definition InjEv0 : InjEv := mkInjEv 0 0 0 0 0 0 0 0 0 0.
Inductive INJ := waitForMTIP | waitToInjectInterr | flushSpeculated | waitToCommitBranch | NoState.
Definition inj_name (inj : Z) : INJ :=
  if inj =? 0 then waitForMTIP else if inj =? 1 then waitToInjectInterr else if inj =? 2 then flushSpeculated else if inj =? 3 then waitToCommitBranch else NoState.
Record injwedge_state := mkinjw { inj_ring : Watch.ring InjEv; prev_bcnt : Z; prev_inj : Z; inj_since : Z }.

Section Injwedge.
Context `{Model} `{!Netlist} (STUCK : Z).
Open Scope string_scope. Open Scope Z_scope.
Definition C1 (s : string) (tb : Vsystem) : Z := u32 (CORE_RAW s tb 1).
Definition inj_of (tb : Vsystem) : Z := C1 "interruptInjectStatus" tb.
Definition inj_event (tb : Vsystem) (cyc : Z) : InjEv :=
  mkInjEv cyc (C1 "branchCounter" tb) (inj_of tb) (C1 "branchEvals_valid" tb) (C1 "branchEvals_passed" tb) (C1 "branchEvals_branchMask" tb) (C1 "branchEvals_robAddr" tb)
    (C1 "branchInstruction_valid" tb) (C1 "branchInstruction_instruction" tb) (C1 "rob__DOT__fifo__DOT__emptyReg" tb).
Definition injwedge_look (tb : Vsystem) (cyc : Z) (s : injwedge_state) : option unit * injwedge_state :=
  let bcnt := C1 "branchCounter" tb in
  let inj := inj_of tb in
  let since := if inj =? 0 then cyc else inj_since s in
  let s := if negb (bcnt =? prev_bcnt s) || negb (inj =? prev_inj s)
           then mkinjw (rb_push RING64 (inj_event tb cyc) (inj_ring s)) bcnt inj since
           else mkinjw (inj_ring s) (prev_bcnt s) (prev_inj s) since in
  (if negb (inj =? 0) && (STUCK <? u64 (cyc - since)) then Some tt else None, s).
Definition injwedge_start : injwedge_state := mkinjw (ring_new RING64 InjEv0) 0 0 0.
Definition injwedge_run (END : Z) (tb : Vsystem) : option unit * (Vsystem * Z * injwedge_state) :=
  post_loop (fun cyc => cyc <? END) injwedge_look (looks END 0) tb 0 injwedge_start.

Definition sched_row (tb : Vsystem) (i : string) : list Z :=
  map (fun s => C1 ("scheduler__DOT__queue_" ++ i ++ "_" ++ s) tb)
    ["valid"; "instruction"; "robAddr"; "prfDest"; "rs1_prfAddr"; "rs1_ready"; "rs2_prfAddr"; "rs2_ready"; "branchMask"; "opcodeMeta_isBranch"; "opcodeMeta_isM"; "opcodeMeta_isMemAccess"].
Record injwedge_report := { iw_cyc : Z; iw_state : INJ; iw_since : Z; iw_nets : list Z; iw_queue : list (list Z); iw_events : list (InjEv * INJ) }.
Definition injwedge_main (END : Z) (tb : Vsystem) : Z * (Z + injwedge_report) :=
  match injwedge_run END tb with
  | (None, (_, cyc, _)) => (0, inl cyc)
  | (Some _, (tb, cyc, s)) =>
    (0, inr {| iw_cyc := cyc; iw_state := inj_name (inj_of tb); iw_since := inj_since s;
      iw_nets := map (fun f => C1 f tb) ["branchCounter"; "injectingSoftwareInterrupt"; "rob__DOT__fifo__DOT__emptyReg"; "branchInstruction_valid"; "branchInstruction_instruction";
        "branchInstruction_robAddr"; "branchEvals_valid"; "branchEvals_passed"; "branchEvals_branchMask"; "branchEvals_robAddr"; "lastBranchExecRob"];
      iw_queue := map (sched_row tb) ["0"; "1"; "2"; "3"; "4"; "5"; "6"; "7"];
      iw_events := map (fun e => (e, inj_name (i_inj e))) (ring_listed RING64 InjEv0 (inj_ring s)) |})
  end.
End Injwedge.

(** ** When the runs end *)

Section Ipitmr_run.
Context `{Model} `{!Netlist} (THRESHOLD : Z) (tb0 : Vsystem).
Notation seen := (after tb0).
Definition high (h k : nat) : bool := msip_cur (seen k) h =? 1.
(** The level of a hart has been up for more than [THRESHOLD] cycles. *)
Definition late (h k : nat) : Prop := raised (high h) (Z.to_nat THRESHOLD + 2) k.

Definition msip_at (k : nat) (s : ipitmr_state) : Prop :=
  length (watches s) = 4%nat /\
  forall h w, watches s !! h = Some w -> marks (high h) 0 k (msip_set_since w) /\ (msip_prev w =? 0) = negb (was_up (high h) k).

Lemma con_ports_watches tb cyc l : forall s, watches (fold_left (con_port tb cyc) l s) = watches s.
Proof.
  induction l as [|p l IH]; intros s; [reflexivity|]. cbn [fold_left]. rewrite IH. unfold con_port.
  destruct (negb _ && _); [|reflexivity]. destruct (con_char _ _). reflexivity.
Qed.

Context (END : Z) (one_bit : forall k h, (k <= Z.to_nat END)%nat -> In h harts4 -> msip_cur (seen k) h = 0 \/ msip_cur (seen k) h = 1).
Lemma harts4_lt h : In h harts4 <-> (h < 4)%nat.
Proof. cbn. lia. Qed.

Lemma bit_levels m : m = 0 \/ m = 1 -> (m =? 0) = negb (m =? 1).
Proof. intros [->| ->]; reflexivity. Qed.

Lemma msip_watched k s : (S k <= Z.to_nat END)%nat -> msip_at k s ->
  let l := imap (msip_step (seen (S k)) (Z.of_nat (S k))) (watches s) in
  msip_at (S k) (mkipitmr l (tx_prev s) (con_line s) (con_out s) (prog s)) /\
  (Z.of_nat (S k) < 2 ^ 64 -> 0 <= THRESHOLD -> forall h, In h harts4 -> msip_late THRESHOLD (seen (S k)) (Z.of_nat (S k)) l h = true <-> late h (S k)).
Proof.
  intros Hk [Hlen Hw] l. assert (Hl : forall h w, l !! h = Some w -> marks (high h) 0 (S k) (msip_set_since w) /\ (msip_prev w =? 0) = negb (was_up (high h) (S k))).
  { intros h w. subst l. rewrite list_lookup_imap. destruct (watches s !! h) as [w0|] eqn:E; [|discriminate]. cbn [fmap option_fmap option_map].
    intros [= <-]. destruct (Hw h w0 E) as [M P]. apply lookup_lt_Some in E. rewrite Hlen in E. unfold msip_step. cbn [msip_set_since msip_prev]. split.
    - rewrite P. change (msip_cur (seen (S k)) h =? 1) with (high h (S k)). pose proof (marks_step (high h) 0 k _ M) as Hs. rewrite Z.add_0_l in Hs. exact Hs.
    - change (was_up (high h) (S k)) with (msip_cur (seen (S k)) h =? 1). exact (bit_levels _ (one_bit (S k) h Hk (proj2 (harts4_lt h) E))). }
  split; [split; [subst l; cbn [watches]; rewrite length_imap; exact Hlen|exact Hl]|].
  change (2 ^ 64) with 18446744073709551616. intros Hlt HT h Hin. apply harts4_lt in Hin. unfold msip_late, late.
  destruct (l !! h) as [w|] eqn:E; [|apply lookup_ge_None in E; subst l; rewrite length_imap in E; lia].
  destruct (Hl h w E) as [M _]. rewrite <- uptime_raised. change (msip_cur (seen (S k)) h =? 1) with (high h (S k)). unfold marks in M. cbn [uptime] in M |- *.
  destruct (high h (S k)); [|cbn [andb]; split; [discriminate|lia]]. cbn [andb]. rewrite (M _ eq_refl).
  pose proof (uptime_le (high h) k). rewrite u64_id by (unfold is_u64; lia). rewrite Z.ltb_lt. lia.
Qed.

Lemma find_first {A} (f : A -> bool) l : match List.find f l with
  | Some x => In x l /\ f x = true
  | None => forall x, In x l -> f x = false
  end.
Proof. destruct (List.find f l) eqn:E; [apply List.find_some, E|exact (List.find_none f l E)]. Qed.

(** The probe exits with 7 at the first cycle at which the software interrupt of some hart
    has been pending for more than [THRESHOLD] cycles, and names such a hart; it exits with
    0 when there is no such cycle. *)
Theorem ipitmr_exact : 0 <= THRESHOLD -> 0 <= END < 2 ^ 64 ->
  match ipitmr_main THRESHOLD END tb0 with
  | (0, NoWedge cyc) => cyc = END /\ forall k h, (k <= Z.to_nat END)%nat -> In h harts4 -> ~ late h k
  | (7, MsipPending cyc h _ _ _) => exists k, (1 <= k <= Z.to_nat END)%nat /\ cyc = Z.of_nat k /\ In h harts4 /\ late h k /\
      forall j g, (j < k)%nat -> In g harts4 -> ~ late g j
  | _ => False
  end.
Proof.
  intros HT HE. change (2 ^ 64) with 18446744073709551616 in HE. unfold ipitmr_main, ipitmr_run, looks. rewrite Z.sub_0_r.
  set (P := fun (k : nat) (s : ipitmr_state) => msip_at k s /\ forall j h, (j <= k)%nat -> In h harts4 -> ~ late h j).
  pose proof (post_loop_ran (fun cyc => cyc <? END) (ipitmr_look THRESHOLD) tb0 0 P (Z.to_nat END) 0 ipitmr_start) as Hr.
  rewrite Z.add_0_l in Hr. change (Z.of_nat 0) with 0 in Hr. change (after tb0 0) with tb0 in Hr.
  assert (HP0 : P 0%nat ipitmr_start).
  { split; [split; [reflexivity|]|intros j h Hj _ [Hl _]; lia]. intros h w Hw. apply lookup_replicate in Hw as [-> _]. split; [apply marks_start|reflexivity]. }
  assert (Hlook : forall j s, (j < Z.to_nat END)%nat -> P j s -> let '(r, s') := ipitmr_look THRESHOLD (seen (S j)) (Z.of_nat (S j)) s in
    match r with None => P (S j) s' | Some (h, _) => In h harts4 /\ late h (S j) end).
  { intros j s Hj [Hw Hn]. unfold ipitmr_look. set (s1 := fold_left _ _ _). assert (W1 : msip_at j s1) by (unfold msip_at, s1; rewrite con_ports_watches; exact Hw).
    clearbody s1. cbv zeta. destruct (msip_watched j s1 ltac:(lia) W1) as [Hw' Hl']. cbv zeta in Hw', Hl'. set (l := imap _ (watches s1)) in *. clearbody l.
    specialize (Hl' ltac:(change (2 ^ 64) with 18446744073709551616; lia) HT). pose proof (find_first (msip_late THRESHOLD (seen (S j)) (Z.of_nat (S j)) l) harts4) as Hf.
    destruct (List.find _ harts4) as [h|].
    - destruct Hf as [Hin Hf]. split; [exact Hin|]. apply Hl'; assumption.
    - split; [exact Hw'|]. intros i h Hi Hin. destruct (Nat.eq_dec i (S j)) as [->|]; [|apply Hn; [lia|exact Hin]]. rewrite <- Hl' by exact Hin. rewrite Hf by exact Hin. discriminate. }
  specialize (Hr ltac:(lia) ltac:(change (2 ^ 64) with 18446744073709551616; lia) ltac:(intros j Hj; apply Z.ltb_lt; lia) HP0).
  specialize (Hr ltac:(intros j s Hj HP; rewrite Z.add_0_l; pose proof (Hlook j s ltac:(lia) HP) as Hs; destruct (ipitmr_look _ _ _ _); intros ->; exact Hs)).
  destruct (post_loop _ _ _ _ _ _) as [[[h d]|] [[tb cyc] s]].
  - destruct Hr as (j & s1 & Hj & -> & -> & HP & El). rewrite Z.add_0_l in *. pose proof (Hlook j s1 ltac:(lia) HP) as Hs. rewrite El in Hs. destruct Hs as [Hin Hl].
    exists (S j). split; [lia|]. split; [reflexivity|]. split; [exact Hin|]. split; [exact Hl|]. destruct HP as [_ Hn]. intros i g Hi. apply Hn. lia.
  - destruct Hr as (_ & -> & _ & Hn). rewrite Nat.add_0_l in *. split; [lia|exact Hn].
Qed.
End Ipitmr_run.

Section Injfsm_run.
Context `{Model} `{!Netlist} (THRESHOLD WINDOW FORCE_HART : Z) (k0 : probe_ckpt).
Notation seen := (after (k_tb k0)).
Definition pend (h k : nat) : bool := negb (msip_cur (seen k) h =? 0).
(** Pending for more than [THRESHOLD] cycles of the run. *)
Definition unserviced (h k : nat) : Prop := raised (pend h) (Z.to_nat THRESHOLD + 2) k.
Definition count_at (h k : nat) : Z := match k with O => 0xFFFFFFFFFFFFFFFF | S _ => brCnt (seen k) (Z.of_nat h) end.
(** The transitions of the branch counter of a hart. *)
Definition moves (h k : nat) : list BrEvt :=
  omap (fun j => if count_at h j =? count_at h (pred j) then None else Some (br_event (seen j) (k_cyc k0 + Z.of_nat j) (Z.of_nat h))) (seq 1 k).

Definition br_at (k : nat) (l : list br_watch) : Prop :=
  length l = 4%nat /\
  forall h w, l !! h = Some w -> marks (pend h) (k_cyc k0) k (msip_since w) /\ (msip_was w =? 0) = negb (was_up (pend h) k) /\
    brPrev w = count_at h k /\ holds RING64 (br_ring w) (moves h k).

Lemma RING64_pos : (0 < RING64)%nat.
Proof. unfold RING64. lia. Qed.

Lemma br_watched k l : br_at k l -> br_at (S k) (imap (br_step (seen (S k)) (k_cyc k0 + Z.of_nat (S k))) l).
Proof.
  intros [Hlen Hl]. split; [rewrite length_imap; exact Hlen|]. intros h w. rewrite list_lookup_imap.
  destruct (l !! h) as [w0|] eqn:E; [|discriminate]. intros Ew. apply (inj Some) in Ew as <-. destruct (Hl h w0 E) as (M & P & B & R).
  unfold br_step. cbv zeta. set (r := if _ =? brPrev w0 then _ else _). assert (Hr : holds RING64 r (moves h (S k))).
  { subst r. rewrite B. unfold moves. rewrite omap_seq_S. change (pred (S k)) with k.
    change (brCnt (seen (S k)) (Z.of_nat h)) with (count_at h (S k)). destruct (count_at h (S k) =? count_at h k); [rewrite app_nil_r; exact R|].
    apply ring_push_holds; [exact RING64_pos|exact R]. }
  clearbody r. cbn [msip_since msip_was brPrev br_ring]. split; [rewrite P; exact (marks_step (pend h) (k_cyc k0) k _ M)|]. split; [|split; [reflexivity|exact Hr]].
  exact (eq_sym (negb_involutive _)).
Qed.

Lemma br_late_iff k l h : 0 <= THRESHOLD -> 0 <= k_cyc k0 -> k_cyc k0 + Z.of_nat k < 2 ^ 64 -> br_at k l -> In h harts4 -> (1 <= k)%nat ->
  br_late THRESHOLD FORCE_HART (seen k) (k_cyc k0 + Z.of_nat k) l h = true <-> FORCE_HART < 0 /\ unserviced h k.
Proof.
  change (2 ^ 64) with 18446744073709551616. intros HT Hc Hlt [Hlen Hl] Hin Hk. apply harts4_lt in Hin. unfold br_late, unserviced.
  destruct (l !! h) as [w|] eqn:E; [|apply lookup_ge_None in E; lia]. destruct (Hl h w E) as (M & _). rewrite <- uptime_raised.
  destruct (Z.ltb_spec FORCE_HART 0); [|split; [discriminate|lia]]. rewrite andb_true_l. change (negb (msip_cur (seen k) h =? 0)) with (pend h k).
  destruct k as [|k]; [lia|]. unfold marks in M. cbn [uptime] in M |- *. destruct (pend h (S k)); [|cbn [andb]; split; [discriminate|lia]].
  rewrite (M _ eq_refl). pose proof (uptime_le (pend h) k). rewrite andb_true_l.
  destruct (Z.eqb_spec (k_cyc k0 + Z.of_nat (S k - uptime (pend h) k)) 0); [lia|]. rewrite andb_true_l, u64_id, Z.ltb_lt by (unfold is_u64; lia). lia.
Qed.

Definition injfsm_at (k : nat) (s : injfsm_state) : Prop :=
  br_at k (brs s) /\ forall j, (j <= k)%nat -> if FORCE_HART <? 0 then forall h, In h harts4 -> ~ unserviced h j else Z.of_nat j <= THRESHOLD.

Lemma injfsm_step k s : 0 <= THRESHOLD -> 0 <= k_cyc k0 -> k_cyc k0 + Z.of_nat (S k) < 2 ^ 64 -> injfsm_at k s ->
  let '(r, s') := injfsm_look THRESHOLD FORCE_HART (k_cyc k0) (seen (S k)) (k_cyc k0 + Z.of_nat (S k)) s in
  br_at (S k) (brs s') /\
  match r with
  | None => injfsm_at (S k) s'
  | Some h => if FORCE_HART <? 0 then exists g, h = Z.of_nat g /\ In g harts4 /\ unserviced g (S k) else h = FORCE_HART /\ Z.of_nat (S k) = THRESHOLD + 1
  end.
Proof.
  intros HT Hc Hlt [Hb Hn]. unfold injfsm_look. cbv zeta. apply br_watched in Hb. set (l := imap _ (brs s)) in *. clearbody l.
  pose proof (fun h Hin => br_late_iff (S k) l h HT Hc Hlt Hb Hin ltac:(lia)) as Hlate.
  pose proof (find_first (br_late THRESHOLD FORCE_HART (seen (S k)) (k_cyc k0 + Z.of_nat (S k)) l) harts4) as Hf.
  pose proof (Hn k ltac:(lia)) as Hk. unfold injfsm_at. destruct (Z.ltb_spec FORCE_HART 0) as [HF|HF].
  - destruct (Z.leb_spec 0 FORCE_HART); [lia|]. cbn [andb]. destruct (List.find _ harts4) as [h|].
    + destruct Hf as [Hin Hf]. destruct (Z.leb_spec 0 (Z.of_nat h)); [|lia]. split; [exact Hb|]. exists h. split; [reflexivity|]. split; [exact Hin|]. apply Hlate; assumption.
    + destruct (Z.leb_spec 0 (-1)); [lia|]. assert (Hn' : forall j, (j <= S k)%nat -> forall h, In h harts4 -> ~ unserviced h j).
      { intros j Hj h Hin Hu. destruct (Nat.eq_dec j (S k)) as [->|]; [|exact (Hn j ltac:(lia) h Hin Hu)].
        pose proof (proj2 (Hlate h Hin) (conj HF Hu)) as Ht. rewrite (Hf h Hin) in Ht. discriminate. }
      destruct (_ <=? _); (split; [exact Hb|]); (split; [exact Hb|exact Hn']).
  - assert (En : List.find (br_late THRESHOLD FORCE_HART (seen (S k)) (k_cyc k0 + Z.of_nat (S k)) l) harts4 = None).
    { destruct (List.find _ _) as [h|] eqn:E; [|reflexivity]. apply List.find_some in E as [Hin E]. apply Hlate in E; [lia|exact Hin]. }
    rewrite En. destruct (Z.leb_spec 0 FORCE_HART); [|lia]. rewrite andb_true_l. change (2 ^ 64) with 18446744073709551616 in Hlt.
    replace (u64 (k_cyc k0 + Z.of_nat (S k) - k_cyc k0)) with (Z.of_nat (S k)) by (rewrite u64_id; unfold is_u64; lia).
    destruct (Z.ltb_spec THRESHOLD (Z.of_nat (S k))) as [Hgt|Hle].
    + destruct (Z.leb_spec 0 FORCE_HART); [|lia]. split; [exact Hb|]. split; [reflexivity|lia].
    + destruct (Z.leb_spec 0 (-1)); [lia|]. assert (Hn' : forall j, (j <= S k)%nat -> Z.of_nat j <= THRESHOLD) by (intros; lia).
      destruct (_ <=? _); (split; [exact Hb|]); (split; [exact Hb|exact Hn']).
Qed.

(** The probe declares a hart wedged at the first cycle of the run at which its software
    interrupt has been pending for more than [THRESHOLD] cycles, and never otherwise; with
    [HART] set, at cycle [THRESHOLD + 1] whatever happens. The transitions it lists are the
    last 64 of the branch counter of that hart. *)
Theorem injfsm_exact END : 0 <= THRESHOLD -> 0 <= k_cyc k0 -> 0 <= END -> k_cyc k0 + END < 2 ^ 64 ->
  match injfsm_main THRESHOLD WINDOW FORCE_HART END (Some k0) with
  | (0, Some (Quiet cyc)) => cyc = k_cyc k0 + END /\
      if FORCE_HART <? 0 then forall k h, (k <= Z.to_nat END)%nat -> In h harts4 -> ~ unserviced h k else END <= THRESHOLD
  | (0, Some (Wedge None)) => 4 <= FORCE_HART
  | (0, Some (Wedge (Some r))) => exists k h, (1 <= k <= Z.to_nat END)%nat /\ w_cyc r = k_cyc k0 + Z.of_nat k /\ w_hart r = Z.of_nat h /\ In h harts4 /\
      transitions r = lastn 64 (moves h k) /\
      if FORCE_HART <? 0 then unserviced h k /\ forall j g, (j < k)%nat -> In g harts4 -> ~ unserviced g j
      else FORCE_HART = Z.of_nat h /\ Z.of_nat k = THRESHOLD + 1
  | _ => False
  end.
Proof.
  intros HT Hc HE Hlt. unfold injfsm_main, injfsm_run. cbv zeta.
  rewrite (u64_id (k_cyc k0 + END)) by (unfold is_u64; change (2 ^ 64) with 18446744073709551616 in Hlt; lia).
  replace (looks (k_cyc k0 + END) (k_cyc k0)) with (Z.to_nat END) by (unfold looks; f_equal; lia).
  pose proof (post_loop_ran (fun cyc => cyc <? k_cyc k0 + END) (injfsm_look THRESHOLD FORCE_HART (k_cyc k0)) (k_tb k0) (k_cyc k0) injfsm_at (Z.to_nat END) 0 (injfsm_start (k_cyc k0)) Hc) as Hr.
  rewrite Z.add_0_r in Hr. change (after (k_tb k0) 0) with (k_tb k0) in Hr.
  assert (HP0 : injfsm_at 0 (injfsm_start (k_cyc k0))).
  { split; [split; [reflexivity|]|].
    - intros h w Hw. apply (lookup_replicate 4) in Hw as [-> _]. split; [apply marks_start|]. split; [reflexivity|]. split; [reflexivity|apply ring_new_holds].
    - intros j Hj. destruct (FORCE_HART <? 0); [intros h _ [Hl _]; lia|lia]. }
  specialize (Hr ltac:(lia) ltac:(intros j Hj; apply Z.ltb_lt; lia) HP0).
  specialize (Hr ltac:(intros j s Hj HP; pose proof (injfsm_step j s HT Hc ltac:(lia) HP) as Hs; destruct (injfsm_look _ _ _ _ _ _); intros ->; exact (proj2 Hs))).
  destruct (post_loop _ _ _ _ _ _) as [[h|] [[tb cyc] s]].
  - destruct Hr as (j & s1 & Hj & -> & -> & HP & El). pose proof (injfsm_step j s1 HT Hc ltac:(lia) HP) as Hs. rewrite El in Hs. destruct Hs as [[Hlen Hb] Hs].
    unfold injfsm_report_of. assert (Hh : 0 <= h) by (destruct (Z.ltb_spec FORCE_HART 0); [destruct Hs as (g & -> & _); lia|destruct Hs as [-> _]; assumption]).
    destruct (Z.ltb_spec h 0); [lia|]. destruct (brs s !! Z.to_nat h) as [w|] eqn:Ew.
    + exists (S j), (Z.to_nat h). cbn [w_cyc w_hart transitions]. split; [lia|]. split; [reflexivity|]. split; [lia|].
      split; [apply harts4_lt; apply lookup_lt_Some in Ew; lia|]. split; [apply ring_listed_last; [exact RING64_pos|apply (Hb _ _ Ew)]|].
      destruct HP as [_ Hn]. destruct (Z.ltb_spec FORCE_HART 0) as [HF|HF].
      * destruct Hs as (g & -> & Hin & Hu). rewrite Nat2Z.id. split; [exact Hu|]. intros i g' Hi. apply (Hn i). lia.
      * destruct Hs as [-> Hk]. split; lia.
    + apply lookup_ge_None in Ew. rewrite Hlen in Ew. destruct (Z.ltb_spec FORCE_HART 0); [destruct Hs as (g & -> & Hin & _); apply harts4_lt in Hin; lia|lia].
  - destruct Hr as (_ & -> & _ & Hn). rewrite Nat.add_0_l in *. split; [lia|]. specialize (fun j (Hj : (j <= Z.to_nat END)%nat) => Hn j Hj) as Hn'.
    destruct (Z.ltb_spec FORCE_HART 0); [intros j h Hj; exact (Hn' j Hj h)|]. specialize (Hn' (Z.to_nat END) ltac:(lia)). lia.
Qed.
End Injfsm_run.

Section Injwedge_run.
Context `{Model} `{!Netlist} (STUCK : Z) (tb0 : Vsystem).
Notation seen := (after tb0).
Definition busy (k : nat) : bool := negb (inj_of (seen k) =? 0).
(** The branch counter and the state of the injection, both 0 before the first look. *)
Definition fsm_at (k : nat) : Z * Z := match k with O => (0, 0) | S _ => (C1 "branchCounter" (seen k), inj_of (seen k)) end.
Definition fsm_moves (k : nat) : list InjEv :=
  omap (fun j => if decide (fsm_at j = fsm_at (pred j)) then None else Some (inj_event (seen j) (Z.of_nat j))) (seq 1 k).
Definition injw_at (k : nat) (s : injwedge_state) : Prop :=
  inj_since s = Z.of_nat (k - uptime busy k) /\ (prev_bcnt s, prev_inj s) = fsm_at k /\ holds RING64 (inj_ring s) (fsm_moves k).

Lemma injwedge_step k s : Z.of_nat (S k) < 2 ^ 64 -> 0 <= STUCK -> injw_at k s ->
  let '(r, s') := injwedge_look STUCK (seen (S k)) (Z.of_nat (S k)) s in
  injw_at (S k) s' /\ (r = None <-> Z.of_nat (uptime busy (S k)) <= STUCK).
Proof.
  change (2 ^ 64) with 18446744073709551616. intros Hk HS (I1 & I2 & I3). unfold injwedge_look. cbv zeta. pose proof (uptime_le busy k) as Hle.
  assert (Es : (if inj_of (seen (S k)) =? 0 then Z.of_nat (S k) else inj_since s) = Z.of_nat (S k - uptime busy (S k))).
  { rewrite I1. cbn [uptime]. change (busy (S k)) with (negb (inj_of (seen (S k)) =? 0)). destruct (inj_of (seen (S k)) =? 0); reflexivity. }
  rewrite Es. clear Es. assert (Em : holds RING64 (if decide (fsm_at (S k) = fsm_at k) then inj_ring s else rb_push RING64 (inj_event (seen (S k)) (Z.of_nat (S k))) (inj_ring s)) (fsm_moves (S k))).
  { unfold fsm_moves. rewrite omap_seq_S. change (pred (S k)) with k. destruct (decide _); [rewrite app_nil_r; exact I3|apply ring_push_holds; [exact RING64_pos|exact I3]]. }
  assert (Ec : negb (C1 "branchCounter" (seen (S k)) =? prev_bcnt s) || negb (inj_of (seen (S k)) =? prev_inj s) = negb (bool_decide (fsm_at (S k) = fsm_at k))).
  { rewrite <- I2. change (fsm_at (S k)) with (C1 "branchCounter" (seen (S k)), inj_of (seen (S k))). rewrite <- negb_andb. f_equal.
    apply eq_true_iff_eq. rewrite andb_true_iff, !Z.eqb_eq, bool_decide_eq_true, pair_equal_spec. reflexivity. }
  rewrite Ec. clear Ec. split.
  - destruct (bool_decide_reflect (fsm_at (S k) = fsm_at k)) as [E|E]; [rewrite decide_True in Em by exact E|rewrite decide_False in Em by exact E]; cbn [negb];
      (split; [reflexivity|split; [|exact Em]]); [|reflexivity]. rewrite E. exact I2.
  - change (negb (inj_of (seen (S k)) =? 0)) with (busy (S k)). cbn [uptime]. destruct (busy (S k)); [|cbn [andb]; split; [lia|reflexivity]].
    rewrite andb_true_l, u64_id by (unfold is_u64; lia). destruct (Z.ltb_spec STUCK (Z.of_nat (S k) - Z.of_nat (S k - S (uptime busy k)))); split; try reflexivity; try discriminate; lia.
Qed.

(** The probe reports a wedge at the first cycle at which the injection has been busy for
    more than [STUCK] cycles, with the last 64 transitions. *)
Theorem injwedge_exact END : 0 <= STUCK -> 0 <= END < 2 ^ 64 ->
  let n := S (Z.to_nat STUCK) in
  match snd (injwedge_main STUCK END tb0) with
  | inl cyc => cyc = END /\ forall k, (k <= Z.to_nat END)%nat -> ~ raised busy n k
  | inr r => exists k, (k <= Z.to_nat END)%nat /\ iw_cyc r = Z.of_nat k /\ raised busy n k /\ (forall j, (j < k)%nat -> ~ raised busy n j) /\
      map fst (iw_events r) = lastn 64 (fsm_moves k)
  end.
Proof.
  change (2 ^ 64) with 18446744073709551616. intros HS HE. cbv zeta. unfold injwedge_main, injwedge_run, looks. rewrite Z.sub_0_r.
  set (P := fun (k : nat) (s : injwedge_state) => injw_at k s /\ forall j, (j <= k)%nat -> ~ raised busy (S (Z.to_nat STUCK)) j).
  pose proof (post_loop_ran (fun cyc => cyc <? END) (injwedge_look STUCK) tb0 0 P (Z.to_nat END) 0 injwedge_start) as Hr.
  rewrite Z.add_0_l in Hr. change (Z.of_nat 0) with 0 in Hr. change (after tb0 0) with tb0 in Hr.
  assert (HP0 : P 0%nat injwedge_start).
  { split; [split; [reflexivity|split; [reflexivity|apply ring_new_holds]]|]. intros j Hj [Hl _]. lia. }
  specialize (Hr ltac:(lia) ltac:(change (2 ^ 64) with 18446744073709551616; lia) ltac:(intros j Hj; apply Z.ltb_lt; lia) HP0).
  assert (Hstep : forall j s, (j < 0 + Z.to_nat END)%nat -> P j s ->
    let '(r, s') := injwedge_look STUCK (seen (S j)) (0 + Z.of_nat (S j)) s in r = None -> P (S j) s').
  { intros j s Hj [Hi Hn]. rewrite Z.add_0_l. pose proof (injwedge_step j s ltac:(change (2 ^ 64) with 18446744073709551616; lia) HS Hi) as Hs.
    destruct (injwedge_look _ _ _ _) as [r s']. destruct Hs as [Hi' Er]. intros E. apply Er in E. split; [exact Hi'|].
    intros i Hr' Hu. destruct (Nat.eq_dec i (S j)) as [->|]; [apply uptime_raised in Hu; lia|apply (Hn i); [lia|exact Hu]]. }
  specialize (Hr Hstep). destruct (post_loop _ _ _ _ _ _) as [[u|] [[tb cyc] s]]; cbn [snd].
  - destruct Hr as (j & s1 & Hj & -> & -> & [Hi Hn] & El). rewrite Z.add_0_l in *.
    pose proof (injwedge_step j s1 ltac:(change (2 ^ 64) with 18446744073709551616; lia) HS Hi) as Hs. rewrite El in Hs. destruct Hs as [(_ & _ & Hm) Er].
    exists (S j). cbn [iw_cyc iw_events]. split; [lia|]. split; [reflexivity|]. split.
    + apply uptime_raised. destruct (Z.le_gt_cases (Z.of_nat (uptime busy (S j))) STUCK) as [Hb|]; [apply Er in Hb; discriminate|lia].
    + split; [intros i Hi'; apply Hn; lia|]. rewrite map_map. cbn [fst]. rewrite map_id. apply ring_listed_last; [exact RING64_pos|exact Hm].
  - destruct Hr as (_ & -> & _ & Hn). rewrite Nat.add_0_l in *. split; [lia|exact Hn].
Qed.
End Injwedge_run.

(** ** Runs *)

Definition no_nets : Netlist (H := scripted) := named ["branchCounter"%string] (fun _ _ _ _ => 0).
Definition with_msip (m : Z) : list core_ports := [idle_core; { idle_core with msipShared := m }; idle_core; idle_core].
Definition restored_at (c : Z) (frames : list (list core_ports)) : probe_ckpt :=
  {| k_cyc := c; k_msip_writes := [0; 0; 0; 0]; k_last_uart_cyc := 0; k_uart_bytes := 0; k_tb := script_system 0 frames |}.
(** Hart 1 gets an interrupt, serves it, and gets another. *)
Definition two_ipis : probe_ckpt := restored_at 100 (map with_msip [0; 1; 1; 0; 1; 1; 1; 1; 1; 1]).

Lemma injfsm_exact_witness :
  match injfsm_main (H1 := no_nets) 2 0 (-1) 20 (Some two_ipis) with (0, Some (Wedge (Some r))) => (w_cyc r, w_hart r, w_pending r) = (108, 1, 3) | _ => False end /\
  match injfsm_main (H1 := no_nets) 2 0 (-1) 20 (Some two_ipis) with
  | (0, Some (Quiet cyc)) => cyc = k_cyc two_ipis + 20 /\
      if -1 <? 0 then forall k h, (k <= Z.to_nat 20)%nat -> In h harts4 -> ~ unserviced 2 two_ipis h k else 20 <= 2
  | (0, Some (Wedge None)) => 4 <= -1
  | (0, Some (Wedge (Some r))) => exists k h, (1 <= k <= Z.to_nat 20)%nat /\ w_cyc r = k_cyc two_ipis + Z.of_nat k /\ w_hart r = Z.of_nat h /\ In h harts4 /\
      transitions r = lastn 64 (moves (H1 := no_nets) two_ipis h k) /\
      if -1 <? 0 then unserviced 2 two_ipis h k /\ forall j g, (j < k)%nat -> In g harts4 -> ~ unserviced 2 two_ipis g j
      else -1 = Z.of_nat h /\ Z.of_nat k = 2 + 1
  | _ => False
  end.
Proof.
  split; [vm_compute; reflexivity|]. apply (injfsm_exact (H1 := no_nets) 2 0 (-1) two_ipis 20); [discriminate|discriminate|discriminate|reflexivity].
Defined.

(** With [HART] set the probe says that an interrupt is pending when there is none. *)
Lemma forced_says_pending :
  match injfsm_main (H1 := no_nets) 2 0 3 20 (Some two_ipis) with (0, Some (Wedge (Some r))) => (w_cyc r, w_hart r, w_pending r) = (103, 3, 3) | _ => False end.
Proof. vm_compute. reflexivity. Qed.

(** For harts other than 0 the range of the level after the wedge is not measured. *)
Lemma post_range_unmeasured `{Model} `{!Netlist} h n tb cyc k p : h <> 0%nat ->
  msip_lo (post_trace h n tb cyc k p) = msip_lo p /\ msip_hi (post_trace h n tb cyc k p) = msip_hi p.
Proof.
  intros Hh. revert tb cyc k p. induction n as [|n IH]; intros tb cyc k p; [split; reflexivity|]. cbn [post_trace].
  destruct (IH (edges (eval tb)) (u64 (cyc + 1)) (k + 1) (post_cycle h (edges (eval tb)) (u64 (cyc + 1)) k p)) as [-> ->].
  unfold post_cycle. cbn [msip_lo msip_hi]. rewrite (proj2 (Nat.eqb_neq h 0) Hh). split; reflexivity.
Qed.
