(* ===== verification/Ipiprobe.v ===== *)
(** * The cross-call probe of the Linux boot: [linux_ipi_probe.cpp]

    The probe clocks the model for ever, counts the writes to the software-interrupt
    register of every hart, prints a report every [REPORT] cycles and writes a checkpoint
    every [CKPT_EVERY] cycles. It is the program that writes the checkpoints the other
    probes restore ([Watch.probe_ckpt]). The file system is the map of the checkpoints
    written, by cycle; whether a file can be created is a parameter.

    [msip_writes_exact]: the counters are those of the trace. [resume_counts_twice]: a run
    resumed from a checkpoint sees the same trace, but counts the cycle of the checkpoint
    again. [ckpts_kept]: which files are there. *)

From Stdlib Require Import String Ascii.
From S2P Require Import Prelude Rtl Firesim Watch.

Record ipi_options := { REPORT : Z; ckpt_dir : bool; CKPT_EVERY : Z; CKPT_KEEP : nat }.
(** With no environment variable set. *)
Definition ipi_defaults : ipi_options := {| REPORT := 20000000; ckpt_dir := false; CKPT_EVERY := 100000000; CKPT_KEEP := 3 |}.

(** One report: the cycle, the bytes sent, the cycles since the last one; by hart the PC,
    the writes, those since the last report, the line, five bits and [mcause]. *)
Record hart_row := { hr_pc : Z; hr_writes : Z; hr_new : Z; hr_line : Z; hr_MIE : Z; hr_MSIE : Z; hr_MSIP : Z; hr_MTIE : Z; hr_MTIP : Z; hr_mcause : Z }.
Record ipi_report := { ir_cyc : Z; ir_bytes : Z; ir_quiet : Z; ir_harts : list hart_row }.
Inductive ckpt_note := Wrote (cyc : Z) | CannotOpen (cyc : Z) | Pruned (cyc : Z).

Record ipi_state `{Verilated} := mkipi {
  msip_writes : list Z; last_msip_writes : list Z; ipi_con : console; ipi_reports : list ipi_report;
  next_report : Z; next_ckpt : Z; ckpts : list Z; files : gmap Z probe_ckpt; notes : list ckpt_note }.

Section Probe.
Context `{Model} `{!Netlist} (o : ipi_options) (opens : Z -> bool).
Open Scope string_scope. Open Scope Z_scope.

Definition uart_net (n : nat) (s : string) : string :=
  ("uart" ++ match n with 0%nat => "0" | 1%nat => "1" | 2%nat => "2" | _ => "3" end ++ "_" ++ s)%string.
Definition COUNT_MSIP (tb : Vsystem) (w : list Z) (n : nat) : list Z :=
  if PERIPH (uart_net n "msipWrite_valid") tb =? 0 then w
  else let h := u32 (PERIPH (uart_net n "msipWrite_hart") tb) in
       if h <? 4 then alter (fun c => u64 (c + 1)) (Z.to_nat h) w else w.

Definition bit_of (z i : Z) : Z := Z.land (Z.shiftr z i) 1.
Definition ipi_row (tb : Vsystem) (s : ipi_state) (h : nat) : hart_row :=
  let c := core tb (Z.of_nat h) in
  let f := fun sig => CORE_RAW sig tb (Z.of_nat h) in
  let w := default 0 (msip_writes s !! h) in
  {| hr_pc := pc c; hr_writes := w; hr_new := u64 (w - default 0 (last_msip_writes s !! h)); hr_line := u32 (msipShared c);
     hr_MIE := bit_of (f "decode__DOT__mstatus") 3; hr_MSIE := bit_of (f "decode__DOT__mie") 3; hr_MSIP := bit_of (f "decode__DOT__mip") 3;
     hr_MTIE := bit_of (f "decode__DOT__mie") 7; hr_MTIP := bit_of (f "decode__DOT__mip") 7; hr_mcause := decode_mcause c |}.

Definition count_look (tb : Vsystem) (cyc : Z) (s : ipi_state) : ipi_state :=
  mkipi _ (fold_left (COUNT_MSIP tb) harts4 (msip_writes s)) (last_msip_writes s) (uart_ports true tb cyc (ipi_con s)) (ipi_reports s)
    (next_report s) (next_ckpt s) (ckpts s) (files s) (notes s).
Definition report_look (tb : Vsystem) (cyc : Z) (s : ipi_state) : ipi_state :=
  if next_report s <=? cyc
  then mkipi _ (msip_writes s) (msip_writes s) (ipi_con s)
    (ipi_reports s ++ [{| ir_cyc := cyc; ir_bytes := uart_bytes (ipi_con s); ir_quiet := u64 (cyc - last_uart_cyc (ipi_con s)); ir_harts := map (ipi_row tb s) harts4 |}])%list
    (u64 (cyc + REPORT o)) (next_ckpt s) (ckpts s) (files s) (notes s)
  else s.

(** [while (CKPT_KEEP && ckpts.size() > CKPT_KEEP)]: the files removed and those left. *)
Definition prune_count (l : list Z) : nat := if (CKPT_KEEP o =? 0)%nat then 0 else (List.length l - CKPT_KEEP o)%nat.
Definition save (tb : Vsystem) (cyc : Z) (s : ipi_state) : ipi_state :=
  let k := {| k_cyc := cyc; k_msip_writes := msip_writes s; k_last_uart_cyc := last_uart_cyc (ipi_con s); k_uart_bytes := uart_bytes (ipi_con s); k_tb := tb |} in
  let l := (ckpts s ++ [cyc])%list in
  let gone := firstn (prune_count l) l in
  mkipi _ (msip_writes s) (last_msip_writes s) (ipi_con s) (ipi_reports s) (next_report s) (u64 (cyc + CKPT_EVERY o)) (skipn (prune_count l) l)
    (fold_left (fun m c => delete c m) gone (<[cyc := k]> (files s))) (notes s ++ Wrote cyc :: map Pruned gone)%list.
Definition ckpt_look (tb : Vsystem) (cyc : Z) (s : ipi_state) : ipi_state :=
  if next_ckpt s <=? cyc then
    if opens cyc then save tb cyc s
    else mkipi _ (msip_writes s) (last_msip_writes s) (ipi_con s) (ipi_reports s) (next_report s) 0xFFFFFFFFFFFFFFFF (ckpts s) (files s) (notes s ++ [CannotOpen cyc])%list
  else s.

Definition ipi_look (tb : Vsystem) (cyc : Z) (s : ipi_state) : option Empty_set * ipi_state :=
  (None, ckpt_look tb cyc (report_look tb cyc (count_look tb cyc s))).

(** [files] are on the disk when the probe starts. [None]: a division by zero. *)
Definition ipi_start (disk : gmap Z probe_ckpt) (cyc : Z) (w : list Z) (con : console) : option ipi_state :=
  if (ckpt_dir o && (CKPT_EVERY o =? 0)) || (REPORT o =? 0) then None
  else Some (mkipi _ w w con [] (u64 ((cyc / REPORT o + 1) * REPORT o))
    (if ckpt_dir o then u64 ((cyc / CKPT_EVERY o + 1) * CKPT_EVERY o) else 0xFFFFFFFFFFFFFFFF) [] disk []).
Definition ipi_boot (disk : gmap Z probe_ckpt) : option ipi_state := ipi_start disk 0 [0; 0; 0; 0] (mkconsole [] 0 0).
Definition ipi_resume (disk : gmap Z probe_ckpt) (k : probe_ckpt) : option ipi_state :=
  ipi_start disk (k_cyc k) (k_msip_writes k) (mkconsole [] (k_uart_bytes k) (k_last_uart_cyc k)).

(** The first [n] iterations of [for (;;)]. *)
Definition ipi_run (n : nat) (tb : Vsystem) (cyc : Z) (s : ipi_state) : Vsystem * Z * ipi_state :=
  snd (pre_loop (fun _ => true) ipi_look n tb cyc s).
End Probe.

(** ** The counters *)

Section Trace.
Context `{Model} `{!Netlist} (o : ipi_options) (opens : Z -> bool).

(** Port [n] writes to hart [h]. *)
Definition writes_to (tb : Vsystem) (h n : nat) : bool :=
  negb (PERIPH (uart_net n "msipWrite_valid") tb =? 0) && (u32 (PERIPH (uart_net n "msipWrite_hart") tb) =? Z.of_nat h).
(** How often hart [h] is written to in one cycle. *)
Definition port_hits (tb : Vsystem) (h : nat) : Z := Z.of_nat (List.length (List.filter (writes_to tb h) harts4)).
Definition written (seen : nat -> Vsystem) (h n : nat) : Z := foldr Z.add 0 (map (fun k => port_hits (seen k) h) (seq 0 n)).

Lemma written_S seen h n : written seen h (S n) = written seen h n + port_hits (seen n) h.
Proof.
  unfold written. rewrite seq_S, map_app, foldr_app. cbn [map foldr Nat.add]. rewrite Z.add_0_r. generalize (port_hits (seen n) h) as z. intros z.
  induction (map (fun k => port_hits (seen k) h) (seq 0 n)) as [|x l IH]; cbn [foldr]; [lia|]. rewrite IH. lia.
Qed.
Lemma hits_range tb h : 0 <= port_hits tb h <= 4.
Proof. unfold port_hits. pose proof (List.filter_length_le (writes_to tb h) harts4) as L. cbn [harts4 List.length] in L. lia. Qed.
Lemma written_range seen h n : 0 <= written seen h n <= 4 * Z.of_nat n.
Proof. induction n as [|n IH]; [cbn; lia|]. rewrite written_S. pose proof (hits_range (seen n) h). lia. Qed.

Lemma count_port tb h l : forall w c, w !! h = Some c -> (h < 4)%nat -> 0 <= c -> c + Z.of_nat (List.length l) < 2 ^ 64 ->
  fold_left (COUNT_MSIP tb) l w !! h = Some (c + Z.of_nat (List.length (List.filter (writes_to tb h) l))).
Proof.
  change (2 ^ 64) with 18446744073709551616. induction l as [|n l IH]; intros w c Hw Hh Hc Hlt; cbn [fold_left List.filter List.length] in *; [rewrite Hw; f_equal; lia|].
  unfold COUNT_MSIP at 2. unfold writes_to at 1. destruct (PERIPH (uart_net n "msipWrite_valid") tb =? 0); cbn [negb andb]; [apply IH; [exact Hw|exact Hh|lia|lia]|].
  cbv zeta. set (g := u32 (PERIPH (uart_net n "msipWrite_hart") tb)). assert (Hg : 0 <= g) by (apply Z.mod_pos_bound; reflexivity).
  destruct (Z.ltb_spec g 4) as [H4|H4].
  - destruct (Z.eqb_spec g (Z.of_nat h)) as [E|E].
    + rewrite E, Nat2Z.id. rewrite (IH _ (c + 1)); [cbn [List.length]; f_equal; lia| |exact Hh|lia|lia].
      rewrite list_lookup_alter, decide_True, Hw by reflexivity. cbn [fmap option_fmap option_map]. f_equal. apply u64_id. unfold is_u64. lia.
    + apply IH; [|exact Hh|lia|lia]. rewrite list_lookup_alter_ne by lia. exact Hw.
  - destruct (Z.eqb_spec g (Z.of_nat h)); [lia|]. apply IH; [exact Hw|exact Hh|lia|lia].
Qed.

Context (tb0 : Vsystem) (cyc0 : Z) (w0 : list Z).
Notation seen := (fun k => eval (after tb0 k)).
Definition counts (n : nat) (w : list Z) : Prop := forall h c, w0 !! h = Some c -> (h < 4)%nat -> w !! h = Some (c + written seen h n).
(** The files written in the first [n] cycles hold what the run had when they were written. *)
Definition files_at (n : nat) (m : gmap Z probe_ckpt) : Prop :=
  forall c k, m !! c = Some k -> exists j, (j < n)%nat /\ c = cyc0 + Z.of_nat j /\ k_cyc k = c /\ k_tb k = seen j /\ counts (S j) (k_msip_writes k).
Definition ipi_at (n : nat) (s : ipi_state) : Prop := counts n (msip_writes s) /\ files_at n (files s).

Lemma delete_all {A} (l : list Z) : forall (m : gmap Z A) c x, fold_left (fun m c => delete c m) l m !! c = Some x -> m !! c = Some x.
Proof. induction l as [|d l IH]; intros m c x; [exact id|]. cbn [fold_left]. intros Hx. apply IH in Hx. rewrite lookup_delete_Some in Hx. apply Hx. Qed.

Lemma ckpt_look_at j s : counts (S j) (msip_writes s) -> files_at j (files s) ->
  let s' := ckpt_look o opens (seen j) (cyc0 + Z.of_nat j) s in counts (S j) (msip_writes s') /\ files_at (S j) (files s').
Proof.
  intros Hc Hf. assert (Hf' : files_at (S j) (files s)).
  { intros c k E. destruct (Hf c k E) as (i & Hi & Hr). exists i. split; [lia|exact Hr]. }
  unfold ckpt_look. destruct (_ <=? _); [|split; assumption]. destruct (opens _); [|split; assumption]. split; [exact Hc|].
  unfold save. cbv zeta. cbn [files]. intros c k Hk. apply delete_all in Hk. apply lookup_insert_Some in Hk as [[<- <-]|[_ Hk]]; [|apply Hf', Hk].
  exists j. repeat (split; [lia || reflexivity|]). exact Hc.
Qed.

Lemma count_look_at j s : cyc0 + Z.of_nat j < 2 ^ 60 -> 0 <= cyc0 -> (forall h c, w0 !! h = Some c -> 0 <= c < 2 ^ 60) ->
  ipi_at j s -> ipi_at (S j) (snd (ipi_look o opens (seen j) (cyc0 + Z.of_nat j) s)).
Proof.
  change (2 ^ 60) with 1152921504606846976. intros Hlt H0c Hw [Hc Hf]. unfold ipi_look. cbn [snd]. unfold ipi_at. apply ckpt_look_at.
  - unfold report_look. assert (Hn : counts (S j) (fold_left (COUNT_MSIP (seen j)) harts4 (msip_writes s))).
    { intros h c Eh Hh. rewrite written_S. pose proof (Hc h c Eh Hh) as Ej. pose proof (Hw h c Eh). pose proof (written_range seen h j).
      rewrite (count_port _ h harts4 _ _ Ej Hh) by (change (2 ^ 64) with 18446744073709551616; cbn [harts4 List.length]; lia). f_equal. unfold port_hits. lia. }
    destruct (_ <=? _); exact Hn.
  - unfold report_look. destruct (_ <=? _); exact Hf.
Qed.

Lemma run_at n s : 0 <= cyc0 -> cyc0 + Z.of_nat n < 2 ^ 60 -> (forall h c, w0 !! h = Some c -> 0 <= c < 2 ^ 60) -> ipi_at 0 s ->
  let '(tb, cyc, s') := ipi_run o opens n tb0 cyc0 s in tb = after tb0 n /\ cyc = cyc0 + Z.of_nat n /\ ipi_at n s'.
Proof.
  intros Hc Hlt Hw Hs. unfold ipi_run.
  pose proof (pre_loop_ran (fun _ => true) (ipi_look o opens) tb0 cyc0 ipi_at n 0 s Hc) as Hr.
  rewrite Z.add_0_r in Hr. change (after tb0 0) with tb0 in Hr. change (2 ^ 60) with 1152921504606846976 in Hlt.
  specialize (Hr ltac:(change (2 ^ 64) with 18446744073709551616; lia) (fun _ _ => eq_refl) Hs).
  specialize (Hr ltac:(intros j s1 Hj Hs1; pose proof (count_look_at j s1 ltac:(change (2 ^ 60) with 1152921504606846976; lia) Hc Hw Hs1) as Hs2; destruct (ipi_look _ _ _ _ _); intros _; exact Hs2)).
  destruct (pre_loop _ _ _ _ _ _) as [[[]|] [[tb cyc] s']]. cbn [snd]. exact Hr.
Qed.
End Trace.

Section Results.
Context `{Model} `{!Netlist} (o : ipi_options) (opens : Z -> bool) (tb0 : Vsystem).
Notation seen := (fun k => eval (after tb0 k)).
Notation none4 := [0; 0; 0; 0].

Lemma zeros_lookup h c : none4 !! h = Some c -> c = 0.
Proof. do 4 (destruct h as [|h]; [intros [= <-]; reflexivity|]). discriminate. Qed.
Lemma zeros_small h c : none4 !! h = Some c -> 0 <= c < 2 ^ 60.
Proof. intros E. apply zeros_lookup in E as ->. split; [lia|reflexivity]. Qed.

Lemma boot_run n s : Z.of_nat n < 2 ^ 60 -> ipi_boot o ∅ = Some s ->
  let '(tb, cyc, s') := ipi_run o opens n tb0 0 s in tb = after tb0 n /\ cyc = Z.of_nat n /\ ipi_at tb0 0 none4 n s'.
Proof.
  intros Hn Hs. unfold ipi_boot, ipi_start in Hs. destruct (_ || _); [discriminate|].
  pose proof (run_at o opens tb0 0 none4 n s ltac:(lia) ltac:(lia) zeros_small) as Hr. rewrite Z.add_0_l in Hr. apply Hr. apply (inj Some) in Hs as <-. split.
  - intros h c Hz _. cbn [msip_writes]. rewrite Hz. f_equal. cbn. lia.
  - intros c k E. cbn [files] in E. rewrite lookup_empty in E. discriminate.
Qed.

(** After any number of cycles from boot the counters are the numbers of writes to the
    software interrupt of each hart, over all cycles and the four ports. *)
Theorem msip_writes_exact n s : Z.of_nat n < 2 ^ 60 -> ipi_boot o ∅ = Some s ->
  let '(tb, cyc, s') := ipi_run o opens n tb0 0 s in
  tb = after tb0 n /\ cyc = Z.of_nat n /\ forall h, (h < 4)%nat -> msip_writes s' !! h = Some (written seen h n).
Proof.
  intros Hn Hs. pose proof (boot_run n s Hn Hs) as Hr. destruct (ipi_run _ _ _ _ _ _) as [[tb cyc] s']. destruct Hr as (E1 & E2 & Hc & _).
  split; [exact E1|]. split; [exact E2|]. intros h Hh. rewrite <- (Z.add_0_l (written seen h n)). apply Hc; [|exact Hh].
  do 4 (destruct h as [|h]; [reflexivity|]). lia.
Qed.

(** What the model needs for a checkpoint to be a point of the run: evaluating it again
    with the same inputs changes nothing. *)
Hypothesis settled : forall tb, eval (eval tb) = eval tb.

Lemma resume_trace j k : eval (after (eval (after tb0 j)) k) = eval (after tb0 (j + k)).
Proof.
  destruct k as [|k]; [change (after (eval (after tb0 j)) 0) with (eval (after tb0 j)); rewrite Nat.add_0_r; apply settled|].
  f_equal. assert (E : after (eval (after tb0 j)) 1 = after tb0 (S j)) by (rewrite !after_S; change (after (eval (after tb0 j)) 0) with (eval (after tb0 j)); rewrite settled; reflexivity).
  replace (j + S k)%nat with (S j + k)%nat by lia. rewrite <- (after_add tb0 (S j) k), <- E, after_add. reflexivity.
Qed.

Lemma written_shift h j n : written (fun k => seen (j + k)%nat) h n = written seen h (j + n) - written seen h j.
Proof. induction n as [|n IH]; [rewrite Nat.add_0_r; cbn; lia|]. rewrite written_S, Nat.add_succ_r, written_S, IH. lia. Qed.

(** A run resumed from a checkpoint that a run from boot has written sees the same trace, and
    counts the writes of the checkpoint's own cycle a second time. *)
Theorem resume_counts_twice n m s c k disk s1 : Z.of_nat n + Z.of_nat m < 2 ^ 50 -> ipi_boot o ∅ = Some s ->
  files (snd (ipi_run o opens n tb0 0 s)) !! c = Some k -> ipi_resume o disk k = Some s1 -> (forall i, disk !! i = None) ->
  let j := Z.to_nat c in
  let '(tb, cyc, s') := ipi_run o opens (S m) (k_tb k) (k_cyc k) s1 in
  (j < n)%nat /\ tb = after tb0 (j + S m) /\ cyc = Z.of_nat (j + S m) /\
  forall h, (h < 4)%nat -> msip_writes s' !! h = Some (written seen h (j + S m) + port_hits (seen j) h).
Proof.
  change (2 ^ 50) with 1125899906842624. intros Hn Hs Hk Hres Hd. pose proof (boot_run n s ltac:(change (2 ^ 60) with 1152921504606846976; lia) Hs) as Hr.
  destruct (ipi_run o opens n tb0 0 s) as [[tb1 cyc1] s2]. cbn [snd] in Hk. destruct Hr as (_ & _ & _ & Hf).
  destruct (Hf c k Hk) as (j & Hj & -> & Ec & Et & Hw). rewrite Z.add_0_l in *. rewrite Nat2Z.id. cbv zeta.
  assert (Hw' : forall h, (h < 4)%nat -> k_msip_writes k !! h = Some (written seen h (S j))).
  { intros h Hh. rewrite <- (Z.add_0_l (written seen h (S j))). apply Hw; [|exact Hh]. do 4 (destruct h as [|h]; [reflexivity|]). lia. }
  pose proof (run_at o opens (k_tb k) (k_cyc k) (firstn 4 (k_msip_writes k)) (S m) s1 ltac:(lia) ltac:(change (2 ^ 60) with 1152921504606846976; lia)) as Hr.
  unfold ipi_resume, ipi_start in Hres. destruct (_ || _); [discriminate|]. apply (inj Some) in Hres as <-.
  assert (Hsmall : forall h x, firstn 4 (k_msip_writes k) !! h = Some x -> 0 <= x < 2 ^ 60).
  { intros h x Hx. rewrite lookup_take in Hx. destruct (decide (h < 4)%nat) as [Hh|]; [|discriminate]. rewrite (Hw' h Hh) in Hx. apply (inj Some) in Hx as <-.
    pose proof (written_range seen h (S j)). change (2 ^ 60) with 1152921504606846976. lia. }
  specialize (Hr Hsmall). match type of Hr with (?P -> _) => assert (HP : P) end.
  { split; [|intros i x Ex; cbn [files] in Ex; rewrite Hd in Ex; discriminate].
    intros h x Hx Hh. cbn [msip_writes]. rewrite lookup_take, decide_True in Hx by exact Hh. rewrite Hx. f_equal. cbn. lia. }
  specialize (Hr HP). clear HP. destruct (ipi_run o opens (S m) _ _ _) as [[tb cyc] s']. destruct Hr as (-> & -> & Hc & _).
  split; [exact Hj|]. rewrite Et, Ec. split.
  { rewrite Nat.add_succ_r, !after_S, resume_trace. reflexivity. }
  split; [lia|]. intros h Hh. rewrite (Hc h (written seen h (S j))); [|rewrite lookup_take, decide_True by exact Hh; apply Hw', Hh|exact Hh].
  f_equal. rewrite written_S. enough (E : written (fun k1 => eval (after (k_tb k) k1)) h (S m) = written (fun i => seen (j + i)%nat) h (S m)) by (rewrite E, written_shift; lia).
  unfold written. f_equal. apply map_ext. intros i. rewrite Et, resume_trace. reflexivity.
Qed.
End Results.

(** ** A run *)

Lemma scripted_settled tb : scripted_eval (scripted_eval tb) = scripted_eval tb.
Proof.
  destruct tb as [ck rs pv pb po fp pr pa hv hc hx p0 p1 p2 p3 pm dr [last frames]]. unfold scripted_eval. cbn [state clock].
  destruct (Z.eqb_spec ck 1) as [->|Ec].
  - destruct (last =? 0) eqn:El; [destruct frames as [|[|c0 [|c1 [|c2 [|c3 [|]]]]] frames]|]; cbn; rewrite ?El; reflexivity.
  - apply Z.eqb_neq in Ec. cbn. rewrite ?Ec. cbn. rewrite ?Ec. reflexivity.
Qed.

Definition msip_nets : Netlist (H := scripted) := named ["uart0_msipWrite_valid"; "uart0_msipWrite_hart"]%string (fun _ _ _ _ => 0).
Definition sends_ipi (valid hart : Z) : list core_ports :=
  [{ idle_core with perfCountersOut := fun i => if i =? 100 then valid else if i =? 101 then hart else 0 }; idle_core; idle_core; idle_core].
(** Writes to hart 2 in cycles 1, 2 and 4, a checkpoint in cycle 2. *)
Definition ipi_system : Vsystem := script_system 0 [sends_ipi 1 2; sends_ipi 1 2; sends_ipi 0 0; sends_ipi 1 2; sends_ipi 0 0].
Definition every_2 : ipi_options := {| REPORT := 100; ckpt_dir := true; CKPT_EVERY := 2; CKPT_KEEP := 0 |}.

Definition booted (n : nat) : option (Vsystem * Z * ipi_state) :=
  option_map (ipi_run (H1 := msip_nets) every_2 (fun _ => true) n ipi_system 0) (ipi_boot every_2 ∅).
Definition resumed (n : nat) : option (Z * list Z) :=
  match booted 3 with
  | Some (_, _, s) =>
    match files s !! 2 with
    | Some k => option_map (fun s1 => let '(_, cyc, s') := ipi_run (H1 := msip_nets) every_2 (fun _ => true) n (k_tb k) (k_cyc k) s1 in (cyc, msip_writes s')) (ipi_resume every_2 ∅ k)
    | None => None
    end
  | None => None
  end.
(** At cycle 6 the run from boot has counted 3 writes, the resumed run 4. *)
Lemma resumed_counts_one_more :
  option_map (fun x => msip_writes (snd x)) (booted 6) = Some [0; 0; 3; 0] /\ resumed 4 = Some (6, [0; 0; 4; 0]).
Proof. vm_compute. split; reflexivity. Qed.

(** The files of an earlier run are never removed: the deque starts empty. *)
Lemma old_files_stay `{Model} `{!Netlist} o opens tb cyc s i k : ~ In i (ckpts s) -> i <> cyc -> files s !! i = Some k ->
  files (ckpt_look o opens tb cyc s) !! i = Some k.
Proof.
  intros Hn Hc Hk. unfold ckpt_look. destruct (_ <=? _); [|exact Hk]. destruct (opens cyc); [|exact Hk]. unfold save. cbv zeta. cbn [files].
  set (l := (ckpts s ++ [cyc])%list). assert (Hl : ~ In i (firstn (prune_count o l) l)).
  { intros Hin. assert (Hi : In i l) by (rewrite <- (firstn_skipn (prune_count o l) l); apply in_app_iff; left; exact Hin).
    subst l. apply in_app_iff in Hi as [Hi|[Hi|[]]]; [exact (Hn Hi)|congruence]. }
  assert (Hk' : <[cyc := {| k_cyc := cyc; k_msip_writes := msip_writes s; k_last_uart_cyc := last_uart_cyc (ipi_con s); k_uart_bytes := uart_bytes (ipi_con s); k_tb := tb |}]> (files s) !! i = Some k)
    by (rewrite lookup_insert_ne by congruence; exact Hk).
  revert Hl Hk'. generalize (<[cyc := {| k_cyc := cyc; k_msip_writes := msip_writes s; k_last_uart_cyc := last_uart_cyc (ipi_con s); k_uart_bytes := uart_bytes (ipi_con s); k_tb := tb |}]> (files s)) as m.
  induction (firstn (prune_count o l) l) as [|d r IH]; intros m Hl Hm; [exact Hm|]. cbn [fold_left]. apply IH; [intros Hin; apply Hl; right; exact Hin|].
  rewrite lookup_delete_ne; [exact Hm|]. intros ->. apply Hl. left. reflexivity.
Qed.
