(* ===== verification/Tracer.v ===== *)
(** * Probes that trace: the loss of register a4 in [mt-ipitmr], and the rollback of the ROB

    A tracer clocks the model to a last cycle and prints what it sees: no look ends the run.
    [trace_run] is that loop for a step that sees the model before and after the clock edges
    and prints a list of events; [trace_run_inv] turns it into an induction over the cycles.

    The probes are [rename_a4_probe.cpp], [prf33_alloc_probe.cpp], [prfwrite_probe.cpp],
    [dualalloc_probe.cpp], [w3path_probe.cpp], [squashmiss_probe.cpp], [lifetime_probe.cpp]
    and [robmodify_probe.cpp]. The theorems say which cycles they print, for any model. *)

From Stdlib Require Import String Ascii.
From S2P Require Import Prelude Rtl Firesim Watch.

(** ** The loop *)

Section Trace.
Context `{Model} {S E : Type} (more : Z -> S -> bool) (step : Vsystem -> Vsystem -> Z -> S -> list E * S).

(** [while (more) { eval; edges; ++cyc; step }]; the step also gets the model as [eval] left it. *)
Fixpoint trace_run (n : nat) (tb : Vsystem) (cyc : Z) (s : S) : (Vsystem * Z * S) * list E :=
  match n with
  | O => ((tb, cyc, s), [])
  | Datatypes.S n =>
    if more cyc s then
      let pre := eval tb in
      let tb := edges pre in
      let cyc := u64 (cyc + 1) in
      let '(es, s) := step pre tb cyc s in
      let '(r, log) := trace_run n tb cyc s in (r, es ++ log)
    else ((tb, cyc, s), [])
  end.

Context (tb0 : Vsystem) (P : nat -> S -> list E -> Prop).

Lemma trace_run_inv n : forall k s l, Z.of_nat (k + n) < 2 ^ 64 -> P k s l ->
  (forall j s l, (j < k + n)%nat -> more (Z.of_nat j) s = true -> P j s l ->
     let '(es, s') := step (eval (after tb0 j)) (after tb0 (Datatypes.S j)) (Z.of_nat (Datatypes.S j)) s in P (Datatypes.S j) s' (l ++ es)) ->
  let '((tb', cyc', s'), log) := trace_run n (after tb0 k) (Z.of_nat k) s in
  exists j, (k <= j <= k + n)%nat /\ tb' = after tb0 j /\ cyc' = Z.of_nat j /\ P j s' (l ++ log) /\ (j = (k + n)%nat \/ more cyc' s' = false).
Proof.
  induction n as [|n IH]; intros k s l Hlt HP Hstep; cbn [trace_run].
  - exists k. rewrite app_nil_r. split; [lia|]. do 2 (split; [reflexivity|]). split; [exact HP|left; lia].
  - destruct (more (Z.of_nat k) s) eqn:Em.
    + cbv zeta. rewrite <- after_S. replace (u64 (Z.of_nat k + 1)) with (Z.of_nat (Datatypes.S k)) by (rewrite u64_id by (unfold is_u64; lia); lia).
      pose proof (Hstep k s l ltac:(lia) Em HP) as Hs. destruct (step _ _ _ s) as [es s1].
      specialize (IH (Datatypes.S k) s1 (l ++ es) ltac:(lia) Hs). rewrite Nat.add_succ_r in Hstep. specialize (IH Hstep).
      destruct (trace_run n _ _ s1) as [[[tb' cyc'] s'] log]. destruct IH as (j & Hj & E1 & E2 & HP' & Hend). exists j.
      rewrite app_assoc. split; [lia|]. split; [exact E1|]. split; [exact E2|]. split; [exact HP'|]. destruct Hend; [left; lia|now right].
    + exists k. rewrite app_nil_r. split; [lia|]. do 2 (split; [reflexivity|]). split; [exact HP|right; exact Em].
Qed.
End Trace.

(** A loop that only counts cycles gets to its end. *)
Definition upto {S} (END : Z) (cyc : Z) (s : S) : bool := cyc <? END.
Lemma trace_upto `{Model} {S E} (step : Vsystem -> Vsystem -> Z -> S -> list E * S) (P : nat -> S -> list E -> Prop) END tb0 s0 :
  0 <= END < 2 ^ 63 -> P 0%nat s0 [] ->
  (forall j s l, (j < Z.to_nat END)%nat -> P j s l ->
     let '(es, s') := step (eval (after tb0 j)) (after tb0 (Datatypes.S j)) (Z.of_nat (Datatypes.S j)) s in P (Datatypes.S j) s' (l ++ es)) ->
  let '((tb', cyc', s'), log) := trace_run (upto END) step (looks END 0) tb0 0 s0 in
  cyc' = END /\ P (Z.to_nat END) s' log.
Proof.
  change (2 ^ 63) with 9223372036854775808. intros HE HP Hstep. pose proof (trace_run_inv (upto END) step tb0 P (looks END 0) 0 s0 []) as R.
  change (2 ^ 64) with 18446744073709551616 in R. unfold looks in *. replace (Z.to_nat (END - 0)) with (Z.to_nat END) in * by (f_equal; lia).
  specialize (R ltac:(lia) HP). match type of R with (?A -> _) => assert (HA : A) by (intros j s l Hj _; apply Hstep; exact Hj) end.
  specialize (R HA). change (after tb0 0) with tb0 in R. change (Z.of_nat 0) with 0 in R. destruct (trace_run _ _ _ _ _ _) as [[[tb' cyc'] s'] log].
  destruct R as (j & Hj & _ & -> & HP' & Hend). assert (j = Z.to_nat END) as ->.
  { destruct Hend as [->|He]; [lia|]. unfold upto in He. apply Z.ltb_ge in He. lia. }
  split; [lia|exact HP'].
Qed.

(** The rows of the looks from 1 to [n] that [p] selects. *)
Definition rows_at {A} (row : nat -> option A) (n : nat) : list A := omap row (seq 1 n).
Lemma rows_at_S {A} (row : nat -> option A) n : rows_at row (S n) = rows_at row n ++ option_list (row (S n)).
Proof. unfold rows_at. rewrite omap_seq_S. f_equal. Qed.

Definition C0 `{Netlist} (sig : string) (tb : Vsystem) : Z := CORE_RAW sig tb 0.
Arguments C0 {_ _} sig%_string_scope tb.
(** [(unsigned)C0(sig)] *)
Definition N0 `{Netlist} (sig : string) (tb : Vsystem) : Z := u32 (C0 sig tb).
Arguments N0 {_ _} sig%_string_scope tb.

(** ** [rename_a4_probe.cpp] *)

Record A4Ev := mkA4 { a_cyc : Z; a_pc : Z; a_a4 : Z; a_map14 : Z; a_fired : Z; a_wbFired : Z; a_beV : Z; a_beP : Z; a_inj : Z; a_free33 : Z; a_rsv33 : Z }.
Definition A4Ev0 : A4Ev := mkA4 0 0 0 0 0 0 0 0 0 0 0.
Definition RING4096 : nat := 4096.
(** What is compared: a4, the mapping of a4 and the free bit of p33. *)
Definition a4_view : Type := Z * Z * Z.
Record a4_state := mka4s { prev_a4 : a4_view; a4_ring : ring A4Ev }.

Section RenameA4.
Context `{Model} `{!Netlist}.

Definition a4_seen (tb : Vsystem) : a4_view :=
  (registersOut (core tb 0) 14, N0 "decode__DOT__architecturalRegMap_14" tb, N0 "decode__DOT__PRFFreeList_33" tb).
Definition a4_event (tb : Vsystem) (cyc : Z) : A4Ev :=
  let '(a4, m14, f33) := a4_seen tb in
  mkA4 cyc (robpc tb 0) a4 m14 (u32 (commitFired (core tb 0))) (N0 "decode_writeBackResult_fired" tb) (N0 "branchEvals_valid" tb)
    (N0 "branchEvals_passed" tb) (N0 "interruptInjectStatus" tb) f33 (N0 "decode__DOT__reservedFreeList1_33" tb).
Definition a4_step (pre tb : Vsystem) (cyc : Z) (s : a4_state) : list Empty_set * a4_state :=
  ([], mka4s (a4_seen tb) (if decide (a4_seen tb = prev_a4 s) then a4_ring s else rb_push RING4096 (a4_event tb cyc) (a4_ring s))).
(** [~0ULL] and [~0u]. *)
Definition a4_start : a4_state := mka4s (0xFFFFFFFFFFFFFFFF, 0xFFFFFFFF, 0xFFFFFFFF) (ring_new RING4096 A4Ev0).
(** The rows printed; [None] is a negative index. *)
Definition a4_main (STOP : Z) (KEEP : nat) (tb : Vsystem) : list (option A4Ev) :=
  let '((_, _, s), _) := trace_run (upto STOP) a4_step (looks STOP 0) tb 0 a4_start in ring_back RING4096 A4Ev0 KEEP (a4_ring s).

Definition a4_view_at (tb0 : Vsystem) (k : nat) : a4_view := match k with O => prev_a4 a4_start | S _ => a4_seen (after tb0 k) end.
Definition a4_row (tb0 : Vsystem) (k : nat) : option A4Ev :=
  if decide (a4_view_at tb0 k = a4_view_at tb0 (k - 1)) then None else Some (a4_event (after tb0 k) (Z.of_nat k)).

(** The probe lists the last [KEEP] cycles in which one of the three values changed. *)
Theorem a4_history STOP KEEP tb0 : 0 <= STOP < 2 ^ 63 -> (KEEP <= RING4096)%nat ->
  a4_main STOP KEEP tb0 = map Some (lastn KEEP (rows_at (a4_row tb0) (Z.to_nat STOP))).
Proof.
  intros HS HK. unfold a4_main.
  pose proof (trace_upto a4_step (fun k s _ => prev_a4 s = a4_view_at tb0 k /\ holds RING4096 (a4_ring s) (rows_at (a4_row tb0) k)) STOP tb0 a4_start HS) as R.
  match type of R with (?A -> _) => assert (HA : A) by (split; [reflexivity|apply ring_new_holds]) end. specialize (R HA). clear HA.
  match type of R with (?A -> _) => assert (HA : A) end.
  { intros j s l _ [Hv Hr]. unfold a4_step. cbv beta iota zeta. split; [reflexivity|]. rewrite rows_at_S. unfold a4_row at 2. cbn [a4_ring].
    replace (S j - 1)%nat with j by lia. rewrite Hv. change (a4_view_at tb0 (S j)) with (a4_seen (after tb0 (S j))).
    destruct (decide _); cbn [option_list]; [rewrite app_nil_r; exact Hr|apply ring_push_holds; [unfold RING4096; lia|exact Hr]]. }
  specialize (R HA). destruct (trace_run _ _ _ _ _ _) as [[[tb' cyc'] s'] log]. destruct R as (_ & _ & Hr).
  apply ring_back_last; [unfold RING4096; lia|exact HK|exact Hr].
Qed.
End RenameA4.

(** ** [prf33_alloc_probe.cpp] *)

Inductive alloc_event := Handout (cyc n fra free33 map14 pc : Z) | FreeBit (cyc before now map14 pc : Z).
Record alloc_state := mkalloc { prev_free : Z; prev_fra : Z; handouts : Z }.

Section Prf33.
Context `{Model} `{!Netlist} (FROM WATCH : Z).

Definition free33 (tb : Vsystem) : Z := N0 "decode__DOT__PRFFreeList_33" tb.
Definition freeRegAddr (tb : Vsystem) : Z := N0 "decode__DOT__freeRegAddr" tb.
Definition map14 (tb : Vsystem) : Z := N0 "decode__DOT__architecturalRegMap_14" tb.
Definition alloc_step (pre tb : Vsystem) (cyc : Z) (s : alloc_state) : list alloc_event * alloc_state :=
  let f := free33 tb in
  let fra := freeRegAddr tb in
  if cyc <? FROM then ([], mkalloc f fra (handouts s))
  else
    let hit := (fra =? WATCH) && negb (fra =? prev_fra s) in
    let n := if hit then handouts s + 1 else handouts s in
    ((if hit then [Handout cyc n fra f (map14 tb) (robpc tb 0)] else []) ++
     (if f =? prev_free s then [] else [FreeBit cyc (prev_free s) f (map14 tb) (robpc tb 0)]), mkalloc f fra n).
Definition alloc_start : alloc_state := mkalloc 0xFFFFFFFF 0xFFFFFFFF 0.
(** What is printed, and the total. *)
Definition alloc_main (STOP : Z) (tb : Vsystem) : list alloc_event * Z :=
  let '((_, _, s), log) := trace_run (upto STOP) alloc_step (looks STOP 0) tb 0 alloc_start in (log, handouts s).

Definition fra_at (tb0 : Vsystem) (k : nat) : Z := match k with O => 0xFFFFFFFF | S _ => freeRegAddr (after tb0 k) end.
Definition picked_at (tb0 : Vsystem) (k : nat) : bool :=
  (FROM <=? Z.of_nat k) && (fra_at tb0 k =? WATCH) && negb (fra_at tb0 k =? fra_at tb0 (k - 1)).

(** The total is the number of cycles of the window in which the rename unit begins to offer
    the register; cycle [STOP], which the summary excludes, is one of them. *)
Theorem handouts_exact STOP tb0 : 0 <= STOP < 2 ^ 31 ->
  snd (alloc_main STOP tb0) = tallied (picked_at tb0) (Z.to_nat STOP).
Proof.
  change (2 ^ 31) with 2147483648. intros HS. unfold alloc_main.
  pose proof (trace_upto alloc_step (fun k s _ => prev_fra s = fra_at tb0 k /\ handouts s = tallied (picked_at tb0) k) STOP tb0 alloc_start) as R.
  change (2 ^ 63) with 9223372036854775808 in R. specialize (R ltac:(lia)).
  match type of R with (?A -> _) => assert (HA : A) by (split; reflexivity) end. specialize (R HA). clear HA.
  match type of R with (?A -> _) => assert (HA : A) end.
  { intros j s l _ [Hv Hn]. unfold alloc_step. cbv zeta. rewrite tallied_S.
    change (picked_at tb0 (S j)) with ((FROM <=? Z.of_nat (S j)) && (freeRegAddr (after tb0 (S j)) =? WATCH) && negb (freeRegAddr (after tb0 (S j)) =? fra_at tb0 (S j - 1))).
    replace (S j - 1)%nat with j by lia. rewrite <- Hv. destruct (Z.ltb_spec (Z.of_nat (S j)) FROM) as [Hlt|Hge].
    - destruct (Z.leb_spec FROM (Z.of_nat (S j))); [lia|]. cbn [andb Z.b2z handouts prev_fra]. split; [reflexivity|lia].
    - destruct (Z.leb_spec FROM (Z.of_nat (S j))); [|lia]. cbn [andb handouts prev_fra]. split; [reflexivity|]. destruct (_ && _); cbn [Z.b2z]; lia. }
  specialize (R HA). destruct (trace_run _ _ _ _ _ _) as [[[tb' cyc'] s'] log]. exact (proj2 (proj2 R)).
Qed.
End Prf33.

(** ** [prfwrite_probe.cpp] *)

(** The write ports that present the register at the edge. *)
Inductive port :=
| W1 (valid en dest rob result : Z) | W2 (ready linkAddr : Z) | W3 (valid dest insn result : Z) | W4 (valid dest rob result : Z)
| NoPort (w1v w1d w3v w3d w4v w4d : Z).
Record prf_change := mkchange { p_cyc : Z; p_before : Z; p_now : Z; p_nets : list Z; p_ports : list port }.
Record prf_state := mkprf { prev_p : Z; prf_first : bool }.

Section Prfwrite.
Context `{Model} `{!Netlist} (FROM WATCH : Z).

Definition prf33 (tb : Vsystem) : Z := C0 "prf__DOT__physicalRegisterFile_33" tb.
Definition is_dest (v d : Z) : bool := negb (v =? 0) && (d =? WATCH).
Definition ports (pre : Vsystem) : list port :=
  let w1v := N0 "singleCycleArithmeticResponse_valid" pre in
  let w1d := N0 "singleCycleArithmeticResponse_prfDest" pre in
  let w2v := N0 "decode_jumpAddrWrite_ready" pre in
  let w3v := N0 "memAccess_responseOut_valid" pre in
  let w3d := N0 "memAccess_responseOut_prfDest" pre in
  let w4v := N0 "extnMResponse_valid" pre in
  let w4d := N0 "extnMResponse_prfDest" pre in
  (if is_dest w1v w1d then [W1 w1v (N0 "prf_w1_en" pre) w1d (N0 "singleCycleArithmeticResponse_robAddr" pre) (C0 "singleCycleArithmeticResponse_result" pre)] else []) ++
  (if negb (w2v =? 0) then [W2 w2v (C0 "decode_jumpAddrWrite_linkAddr" pre)] else []) ++
  (if is_dest w3v w3d then [W3 w3v w3d (C0 "memAccess_responseOut_instruction" pre) (C0 "memAccess_responseOut_result" pre)] else []) ++
  (if is_dest w4v w4d then [W4 w4v w4d (N0 "extnMResponse_robAddr" pre) (C0 "extnMResponse_result" pre)] else []) ++
  (if negb (is_dest w1v w1d) && (w2v =? 0) && negb (is_dest w3v w3d) && negb (is_dest w4v w4d) then [NoPort w1v w1d w3v w3d w4v w4d] else []).
Definition prf_row (pre tb : Vsystem) (cyc before : Z) : prf_change :=
  mkchange cyc before (prf33 tb)
    (map (fun s => N0 s tb) ["decode__DOT__architecturalRegMap_14"; "decode__DOT__PRFFreeList_33"; "branchEvals_valid"; "branchEvals_passed";
       "branchEvals_branchMask"; "interruptInjectStatus"]%string ++ [robpc tb 0])
    (ports pre).
Definition prf_step (pre tb : Vsystem) (cyc : Z) (s : prf_state) : list prf_change * prf_state :=
  (if negb (prf_first s) && negb (prf33 tb =? prev_p s) && (FROM <=? cyc) then [prf_row pre tb cyc (prev_p s)] else [], mkprf (prf33 tb) false).
Definition prf_start : prf_state := mkprf 0 true.
Definition prf_main (STOP : Z) (tb : Vsystem) : list prf_change :=
  snd (trace_run (upto STOP) prf_step (looks STOP 0) tb 0 prf_start).

Definition prf_row_at (tb0 : Vsystem) (k : nat) : option prf_change :=
  if decide ((2 <= k)%nat /\ FROM <= Z.of_nat k /\ prf33 (after tb0 k) <> prf33 (after tb0 (k - 1)))
  then Some (prf_row (eval (after tb0 (k - 1))) (after tb0 k) (Z.of_nat k) (prf33 (after tb0 (k - 1)))) else None.

(** Every change of physical register 33 from cycle 2 and [FROM] on is printed, once, with
    the ports as they stood before the edge that made it; and some port is always named. *)
Theorem prf_changes_exact STOP tb0 : 0 <= STOP < 2 ^ 63 ->
  prf_main STOP tb0 = rows_at (prf_row_at tb0) (Z.to_nat STOP) /\ Forall (fun r => p_ports r <> []) (prf_main STOP tb0).
Proof.
  intros HS. assert (E : prf_main STOP tb0 = rows_at (prf_row_at tb0) (Z.to_nat STOP)).
  { unfold prf_main. pose proof (trace_upto prf_step (fun k s l => l = rows_at (prf_row_at tb0) k /\ (if k then s = prf_start else s = mkprf (prf33 (after tb0 k)) false)) STOP tb0 prf_start HS) as R.
    match type of R with (?A -> _) => assert (HA : A) by (split; reflexivity) end. specialize (R HA). clear HA.
    match type of R with (?A -> _) => assert (HA : A) end.
    { intros j s l _ [-> Hs]. unfold prf_step. cbv beta iota zeta. split; [|reflexivity]. rewrite rows_at_S. f_equal. unfold prf_row_at. replace (S j - 1)%nat with j by lia.
      destruct j as [|j]; subst s; cbn [prf_start prf_first prev_p negb andb].
      - rewrite decide_False by lia. reflexivity.
      - destruct (Z.eqb_spec (prf33 (after tb0 (S (S j)))) (prf33 (after tb0 (S j)))) as [Ep|Ep]; cbn [negb andb].
        + rewrite decide_False by tauto. reflexivity.
        + destruct (Z.leb_spec FROM (Z.of_nat (S (S j)))); [rewrite decide_True by (split; [lia|tauto])|rewrite decide_False by lia]; reflexivity. }
    specialize (R HA). destruct (trace_run _ _ _ _ _ _) as [[[tb' cyc'] s'] log]. exact (proj1 (proj2 R)). }
  split; [exact E|]. rewrite E. apply Forall_forall. intros r Hr. apply list_elem_of_In in Hr. unfold rows_at in Hr. apply list_elem_of_In, list_elem_of_omap in Hr as (k & _ & Hk).
  unfold prf_row_at in Hk. destruct (decide _); [|discriminate]. injection Hk as <-. unfold prf_row, ports. cbn [p_ports]. cbv zeta.
  destruct (is_dest _ _); [discriminate|]. destruct (_ =? 0); [|discriminate]. destruct (is_dest _ _); [discriminate|]. destruct (is_dest _ _); discriminate.
Qed.
End Prfwrite.

(** ** [w3path_probe.cpp] *)

Record w3_row := mkw3 { w3_cyc : Z; w3_insn : Z; w3_result : Z; selector : Z; cache_path : bool; periph_buf : list Z }.

Section W3path.
Context `{Model} `{!Netlist} (FROM WATCH : Z).

Definition MA (sig : string) (tb : Vsystem) : Z := C0 ("memAccess__DOT__" ++ sig) tb.
Arguments MA sig%_string_scope tb.
Definition w3_step (pre tb : Vsystem) (cyc : Z) (s : unit) : list w3_row * unit :=
  (if cyc <? FROM then []
   else if negb (negb (N0 "memAccess_responseOut_valid" tb =? 0) && (N0 "memAccess_responseOut_prfDest" tb =? WATCH)) then []
   else
     let clv := u32 (MA "cacheLookup_toResponse_request_valid" tb) in
     let buf f := ("peripheralUnit__DOT__responseOutBuffer_" ++ f)%string in
     [mkw3 cyc (C0 "memAccess_responseOut_instruction" tb) (C0 "memAccess_responseOut_result" tb) clv (negb (clv =? 0))
        (map (fun f => u32 (MA (buf f) tb)) ["valid"; "core_prfDest"; "core_robAddr"]%string ++
         map (fun f => MA (buf f) tb) ["core_instruction"; "writeData_data"]%string)], tt).
Definition w3_main (STOP : Z) (tb : Vsystem) : list w3_row := snd (trace_run (upto STOP) w3_step (looks STOP 0) tb 0 tt).
End W3path.

(** ** [dualalloc_probe.cpp] *)

Record owner := mkowner { o_cyc : Z; o_insn : Z; o_pc : Z; owned : bool }.
Record dual_hit := mkdhit { d_number : Z; d_cyc : Z; d_reg : Z; d_free : Z; d_previous : owner; d_insn : Z; d_pc : Z }.
Record dual_state := mkdual { owners : list owner; hits : Z; prev_pd : Z; prev_fire : bool }.

Section Dualalloc.
Context `{Model} `{!Netlist} (STOP MAXHIT : Z).

Definition decode_fires (tb : Vsystem) : bool := negb (N0 "decode__DOT__validInputBuf" tb =? 0) && negb (N0 "decode__DOT__readyOutputBuf" tb =? 0).
Definition PRFDest (tb : Vsystem) : Z := C0 "decode__DOT__outputBuffer_PRFDest" tb.
(** Only the free bit of p33 can be read. *)
Definition freebit (tb : Vsystem) (i : Z) : Z := if i =? 33 then free33 tb else 2.
Definition set_owner (pd : Z) (o : owner) (l : list owner) : list owner := <[Z.to_nat pd := o]> l.
Definition disown (o : owner) : owner := mkowner (o_cyc o) (o_insn o) (o_pc o) false.
Definition dual_step (pre tb : Vsystem) (cyc : Z) (s : dual_state) : list dual_hit * dual_state :=
  let pd := PRFDest tb in
  let insn := C0 "decode__DOT__outputBuffer_instruction" tb in
  let pc := C0 "decode__DOT__outputBuffer_pc" tb in
  let issued := decode_fires tb && (negb (pd =? prev_pd s) || negb (prev_fire s)) in
  let '(es, l, n) :=
    if issued && (pd <? 64) then
      let o := default (mkowner 0 0 0 false) (owners s !! Z.to_nat pd) in
      let hit := owned o && (freebit tb pd =? 0) in
      let n := if hit then hits s + 1 else hits s in
      (if hit then [mkdhit n cyc pd (freebit tb pd) o insn pc] else [], set_owner pd (mkowner cyc insn pc true) (owners s), n)
    else ([], owners s, hits s) in
  (es, mkdual (if freebit tb 33 =? 1 then alter disown 33%nat l else l) n pd (decode_fires tb)).
Definition dual_start : dual_state := mkdual (replicate 64 (mkowner 0 0 0 false)) 0 0xFFFFFFFFFFFFFFFF false.
Definition dual_more (cyc : Z) (s : dual_state) : bool := (cyc <? STOP) && (hits s <? MAXHIT).
Definition dual_main (tb : Vsystem) : (Vsystem * Z * dual_state) * list dual_hit := trace_run dual_more dual_step (looks STOP 0) tb 0 dual_start.

(** Of the trace: the issue of p33, and whether it is owned after look [k]. *)
Section Spec.
Context (tb0 : Vsystem).
Definition pd_at (k : nat) : Z := match k with O => 0xFFFFFFFFFFFFFFFF | S _ => PRFDest (after tb0 k) end.
Definition fired_at (k : nat) : bool := match k with O => false | S _ => decode_fires (after tb0 k) end.
Definition issued33 (k : nat) : bool := fired_at k && (negb (pd_at k =? pd_at (k - 1)) || negb (fired_at (k - 1))) && (pd_at k =? 33).
Fixpoint owned33 (k : nat) : bool := match k with O => false | S k' => (issued33 (S k') || owned33 k') && negb (free33 (after tb0 (S k')) =? 1) end.
Definition reissued33 (k : nat) : bool := issued33 k && owned33 (k - 1) && (free33 (after tb0 k) =? 0).

(** Owned: issued at some look, and not free at that look nor since. *)
Lemma owned33_spec k : owned33 k = true <-> exists j, (1 <= j <= k)%nat /\ issued33 j = true /\ forall i, (j <= i <= k)%nat -> free33 (after tb0 i) <> 1.
Proof.
  induction k as [|k IH]; [split; [discriminate|intros (j & Hj & _); lia]|]. cbn [owned33].
  rewrite andb_true_iff, orb_true_iff, negb_true_iff, Z.eqb_neq, IH. split.
  - intros [[Hi|(j & Hj & Hi & Hf)] Hn].
    + exists (S k). split; [lia|]. split; [exact Hi|]. intros i Hr. replace i with (S k) by lia. exact Hn.
    + exists j. split; [lia|]. split; [exact Hi|]. intros i Hr. destruct (Nat.eq_dec i (S k)) as [->|]; [exact Hn|apply Hf; lia].
  - intros (j & Hj & Hi & Hf). split; [|apply Hf; lia]. destruct (Nat.eq_dec j (S k)) as [->|]; [now left|right].
    exists j. split; [lia|]. split; [exact Hi|]. intros i Hr. apply Hf. lia.
Qed.
End Spec.

Lemma owned_alter (b : bool) (l : list owner) : (33 < length l)%nat ->
  owned (default (mkowner 0 0 0 false) ((if b then alter disown 33%nat l else l) !! 33%nat)) = owned (default (mkowner 0 0 0 false) (l !! 33%nat)) && negb b.
Proof.
  intros Hl. destruct b; [|now rewrite andb_true_r]. rewrite list_lookup_alter_eq. destruct (lookup_lt_is_Some_2 l 33 Hl) as [o ->]. cbn. now rewrite andb_false_r.
Qed.

(** A run reports a re-issue at exactly the cycles, up to the one where it ends, in which p33
    is issued while it is owned and its free bit is clear: no other register is ever reported. *)
Theorem dual_hits_exact tb0 : 0 <= STOP < 2 ^ 63 ->
  let '((_, cyc, s), log) := dual_main tb0 in
  map d_cyc log = map Z.of_nat (List.filter (reissued33 tb0) (seq 1 (Z.to_nat cyc))) /\
  Forall (fun h => d_reg h = 33) log /\ hits s = Z.of_nat (length log) /\ (cyc = STOP \/ MAXHIT <= hits s).
Proof.
  change (2 ^ 63) with 9223372036854775808. intros HS.
  set (P := fun k s (log : list dual_hit) => prev_pd s = pd_at tb0 k /\ prev_fire s = fired_at tb0 k /\ length (owners s) = 64%nat /\
    owned (default (mkowner 0 0 0 false) (owners s !! 33%nat)) = owned33 tb0 k /\
    map d_cyc log = map Z.of_nat (List.filter (reissued33 tb0) (seq 1 k)) /\ Forall (fun h => d_reg h = 33) log /\ hits s = Z.of_nat (length log)).
  pose proof (trace_run_inv dual_more dual_step tb0 P (looks STOP 0) 0 dual_start []) as R. unfold looks in *.
  replace (Z.to_nat (STOP - 0)) with (Z.to_nat STOP) in R by (f_equal; lia). change (2 ^ 64) with 18446744073709551616 in R. specialize (R ltac:(lia)).
  match type of R with (?A -> _) => assert (HA : A) by (repeat split; constructor) end. specialize (R HA). clear HA.
  match type of R with (?A -> _) => assert (HA : A) end.
  { intros j s log _ _ (Hp & Hf & Hl & Ho & Hc & Hr & Hn). unfold dual_step. cbv zeta. set (tb := after tb0 (S j)) in *.
    assert (Eiss : issued33 tb0 (S j) = decode_fires tb && (negb (PRFDest tb =? prev_pd s) || negb (prev_fire s)) && (PRFDest tb =? 33)).
    { unfold issued33. replace (S j - 1)%nat with j by lia. rewrite Hp, Hf. reflexivity. }
    set (issued := decode_fires tb && _) in *.
    assert (Eown : owned33 tb0 (S j) = (issued33 tb0 (S j) || owned33 tb0 j) && negb (free33 tb =? 1)) by reflexivity.
    assert (Ehit : reissued33 tb0 (S j) = issued33 tb0 (S j) && owned33 tb0 j && (free33 tb =? 0)) by (unfold reissued33; replace (S j - 1)%nat with j by lia; reflexivity).
    assert (Efil : forall x, map Z.of_nat (List.filter (reissued33 tb0) (seq 1 (S j))) = x <-> map d_cyc log ++ (if reissued33 tb0 (S j) then [Z.of_nat (S j)] else []) = x).
    { intros x. rewrite seq_S, List.filter_app, map_app, Hc. cbn [List.filter Nat.add]. destruct (reissued33 tb0 (S j)); reflexivity. }
    change (freebit tb 33) with (free33 tb). destruct (issued && (PRFDest tb <? 64)) eqn:Ei.
    - apply andb_true_iff in Ei as [Ei Elt]. rewrite Ei in Eiss. cbn [andb] in Eiss. unfold freebit. destruct (Z.eqb_spec (PRFDest tb) 33) as [E33|E33].
      + rewrite E33 in *. change (Z.to_nat 33) with 33%nat. rewrite Ho. rewrite Eiss in *. cbn [andb orb] in *.
        split; [cbn [prev_pd]; unfold pd_at; now rewrite <- E33|]. split; [reflexivity|]. cbn [owners hits]. unfold set_owner. change (Z.to_nat 33) with 33%nat.
        split; [destruct (free33 tb =? 1); rewrite ?length_alter, length_insert; exact Hl|].
        split; [rewrite owned_alter by (rewrite length_insert; lia); rewrite list_lookup_insert_eq by lia; rewrite Eown; reflexivity|].
        rewrite map_app. split; [symmetry; apply (proj2 (Efil _)); rewrite Ehit; destruct (owned33 tb0 j && (free33 tb =? 0)); reflexivity|].
        rewrite Forall_app, length_app. destruct (owned33 tb0 j && (free33 tb =? 0)); cbn [length]; (split; [split; [exact Hr|repeat constructor]|lia]).
      + change (2 =? 0) with false. rewrite andb_false_r. rewrite app_nil_r. rewrite Eiss in *. cbn [andb orb] in *.
        split; [reflexivity|]. split; [reflexivity|]. cbn [owners hits]. unfold set_owner.
        split; [destruct (free33 tb =? 1); rewrite ?length_alter, length_insert; exact Hl|].
        destruct (Z.eq_dec (Z.of_nat (Z.to_nat (PRFDest tb))) 33); [lia|].
        split; [rewrite owned_alter by (rewrite length_insert; lia); rewrite list_lookup_insert_ne by lia; rewrite Ho, Eown; reflexivity|].
        split; [symmetry; apply (proj2 (Efil _)); rewrite Ehit; apply app_nil_r|]. split; assumption.
    - assert (E0 : issued33 tb0 (S j) = false).
      { rewrite Eiss. apply andb_false_iff in Ei as [->|Ei]; [reflexivity|]. apply Z.ltb_ge in Ei. destruct (Z.eqb_spec (PRFDest tb) 33); [lia|]. apply andb_false_r. }
      rewrite E0 in *. cbn [andb orb] in *. rewrite app_nil_r. split; [reflexivity|]. split; [reflexivity|]. cbn [owners hits].
      split; [destruct (free33 tb =? 1); rewrite ?length_alter; exact Hl|]. split; [rewrite owned_alter by lia; rewrite Ho, Eown; reflexivity|].
      split; [symmetry; apply (proj2 (Efil _)); rewrite Ehit; apply app_nil_r|]. split; assumption. }
  specialize (R HA). unfold dual_main, looks. replace (Z.to_nat (STOP - 0)) with (Z.to_nat STOP) by (f_equal; lia).
  change (after tb0 0) with tb0 in R. change (Z.of_nat 0) with 0 in R. destruct (trace_run _ _ _ _ _ _) as [[[tb' cyc'] s'] log].
  destruct R as (j & Hj & _ & -> & (_ & _ & _ & _ & Hc & Hr & Hn) & Hend). rewrite Nat2Z.id. split; [exact Hc|]. split; [exact Hr|]. split; [exact Hn|].
  destruct Hend as [->|Hm]; [left; lia|]. unfold dual_more in Hm. apply andb_false_iff in Hm as [Hm|Hm]; apply Z.ltb_ge in Hm; [left|right]; lia.
Qed.
End Dualalloc.

(** ** [squashmiss_probe.cpp] *)

Inductive squash_row :=
| BranchEval (cyc passed mask rob nextPC : Z)
| ReadHeld (cyc bvalid mask dest rob addr : Z)
| ReplayHeld (cyc bvalid mask dest rob : Z).
Record squash_state := mksquash { s_pv : Z; s_pm : Z; s_prv : Z; s_prm : Z }.

Section Squashmiss.
Context `{Model} `{!Netlist} (FROM INSN : Z).

(** A net of the cache lookup. *)
Definition CLN (sig : string) (tb : Vsystem) : Z := MA ("cacheLookup__DOT__" ++ sig) tb.
#[local] Arguments CLN sig%_string_scope tb.
Definition squash_step (pre tb : Vsystem) (cyc : Z) (s : squash_state) : list squash_row * squash_state :=
  if cyc <? FROM then ([], s)
  else
    let branch := if N0 "branchEvals_valid" tb =? 0 then []
                  else [BranchEval cyc (N0 "branchEvals_passed" tb) (N0 "branchEvals_branchMask" tb) (N0 "branchEvals_robAddr" tb) (C0 "branchEvals_nextPC" tb)] in
    let bv := u32 (CLN "readBuffer_branch_valid" tb) in
    let bm := u32 (CLN "readBuffer_branch_mask" tb) in
    let read := negb (u32 (CLN "readBuffer_valid" tb) =? 0) && (CLN "readBuffer_core_instruction" tb =? INSN) && (negb (bv =? s_pv s) || negb (bm =? s_pm s)) in
    let qv := u32 (CLN "replayBuffer_branch_valid" tb) in
    let qm := u32 (CLN "replayBuffer_branch_mask" tb) in
    let replay := negb (u32 (CLN "replayBuffer_valid" tb) =? 0) && (CLN "replayBuffer_core_instruction" tb =? INSN) && (negb (qv =? s_prv s) || negb (qm =? s_prm s)) in
    (branch ++
     (if read then [ReadHeld cyc bv bm (u32 (CLN "readBuffer_core_prfDest" tb)) (u32 (CLN "readBuffer_core_robAddr" tb)) (CLN "readBuffer_address" tb)] else []) ++
     (if replay then [ReplayHeld cyc qv qm (u32 (CLN "replayBuffer_core_prfDest" tb)) (u32 (CLN "replayBuffer_core_robAddr" tb))] else []),
     mksquash (if read then bv else s_pv s) (if read then bm else s_pm s) (if replay then qv else s_prv s) (if replay then qm else s_prm s)).
Definition squash_start : squash_state := mksquash 9 9 9 9.
Definition squash_main (STOP : Z) (tb : Vsystem) : list squash_row := snd (trace_run (upto STOP) squash_step (looks STOP 0) tb 0 squash_start).
End Squashmiss.

(** ** [lifetime_probe.cpp] *)

(** A structure that can hold the instruction: its label, the prefix of its nets, and whether
    its destination and ROB address are printed. *)
Record held_in := mkheld { h_label : string; h_prefix : string; h_dest : bool }.
Record life_row := mklife { l_cyc : Z; l_label : string; l_valid : Z; l_bvalid : Z; l_mask : Z; l_dest : Z; l_rob : Z }.
Inductive life_event := LifeBranch (cyc passed mask rob nextPC : Z) | LifeRow (r : life_row).
Definition triple : Type := Z * Z * Z.
Definition structures : list held_in :=
  [mkheld "requestScheduler.requestOut" "requestScheduler_requestOut" true;
   mkheld "arbiter.speculativeBuffer" "arbiter__DOT__speculativeBuffer" false; mkheld "arbiter.inorderBuffer" "arbiter__DOT__inorderBuffer" false;
   mkheld "arbiter.operationBuffer" "arbiter__DOT__operationBuffer" false; mkheld "arbiter.toCacheLookup" "arbiter_toCacheLookup_request" false;
   mkheld "cacheLookup.readBuffer" "cacheLookup__DOT__readBuffer" true; mkheld "cacheLookup.replayBuffer" "cacheLookup__DOT__replayBuffer" true;
   mkheld "cacheLookup.lastSpecMissRecord" "cacheLookup__DOT__lastSpeculativeMissRecordRegister" false;
   mkheld "cacheLookup.lastInorderMissRecord" "cacheLookup__DOT__lastInorderMissRecordRegister" false;
   mkheld "aceUnit.readBuffer" "aceUnit__DOT__readBuffer" true; mkheld "aceUnit.responseBuffer" "aceUnit__DOT__responseBuffer" true]%string ++
  map (fun i => mkheld ("replayUnit.requestWaitFIFO[" ++ i ++ "]") ("replayUnit__DOT__requestWaitFIFO__DOT__memReg_" ++ i) true)%string
    ["0"; "1"; "2"; "3"; "4"; "5"; "6"; "7"; "8"; "9"; "10"; "11"; "12"; "13"; "14"; "15"]%string.

Section Lifetime.
Context `{Model} `{!Netlist} (FROM INSN : Z).

Definition field (st : held_in) (f : string) (tb : Vsystem) : Z := MA (h_prefix st ++ f) tb.
#[local] Arguments field st f%_string_scope tb.
Definition matches (st : held_in) (tb : Vsystem) : bool := field st "_core_instruction" tb =? INSN.
Definition triple_of (st : held_in) (tb : Vsystem) : triple :=
  (s32 (u32 (field st "_valid" tb)), s32 (u32 (field st "_branch_valid" tb)), s32 (u32 (field st "_branch_mask" tb))).
(** [report]: a row when the instruction is there and the triple is not the one last printed. *)
Definition report_row (tb : Vsystem) (cyc : Z) (st : held_in) (p : triple) : option life_row :=
  if matches st tb then
    if decide (triple_of st tb = p) then None
    else Some (mklife cyc (h_label st) (u32 (field st "_valid" tb)) (u32 (field st "_branch_valid" tb)) (u32 (field st "_branch_mask" tb))
                 (if h_dest st then u32 (field st "_core_prfDest" tb) else 0) (if h_dest st then u32 (field st "_core_robAddr" tb) else 0))
  else None.
Definition report_prev (tb : Vsystem) (st : held_in) (p : triple) : triple := if matches st tb then triple_of st tb else p.
Definition life_branch (tb : Vsystem) (cyc : Z) : list life_event :=
  if N0 "branchEvals_valid" tb =? 0 then []
  else [LifeBranch cyc (N0 "branchEvals_passed" tb) (N0 "branchEvals_branchMask" tb) (N0 "branchEvals_robAddr" tb) (C0 "branchEvals_nextPC" tb)].
Definition life_rows (tb : Vsystem) (cyc : Z) (ps : list triple) : list life_event :=
  map LifeRow (omap (fun x => x) (zip_with (report_row tb cyc) structures ps)).
Definition life_step (pre tb : Vsystem) (cyc : Z) (ps : list triple) : list life_event * list triple :=
  if cyc <? FROM then ([], ps)
  else (life_branch tb cyc ++ life_rows tb cyc ps, zip_with (report_prev tb) structures ps).
Definition life_start : list triple := map (fun _ => (-1, -1, -1)) structures.
Definition life_main (STOP : Z) (tb : Vsystem) : list life_event := snd (trace_run (upto STOP) life_step (looks STOP 0) tb 0 life_start).

(** The triple a structure had when it last held the instruction, in the window up to look [k]. *)
Fixpoint last_triple (tb0 : Vsystem) (st : held_in) (k : nat) : triple :=
  match k with
  | O => (-1, -1, -1)
  | S k' => if (FROM <=? Z.of_nat k) && matches st (after tb0 k) then triple_of st (after tb0 k) else last_triple tb0 st k'
  end.
Definition life_at (tb0 : Vsystem) (k : nat) : list life_event :=
  if Z.of_nat k <? FROM then []
  else life_branch (after tb0 k) (Z.of_nat k) ++
       map LifeRow (omap (fun st => report_row (after tb0 k) (Z.of_nat k) st (last_triple tb0 st (k - 1))) structures).

Lemma zip_with_mapped {A B C} (f : A -> B -> C) (g : A -> B) l : zip_with f l (map g l) = map (fun a => f a (g a)) l.
Proof. induction l as [|a l IH]; [reflexivity|]. cbn [map zip_with]. now rewrite IH. Qed.
Lemma omap_map {A B C} (f : B -> option C) (g : A -> B) l : omap f (map g l) = omap (fun a => f (g a)) l.
Proof. induction l as [|a l IH]; [reflexivity|]. cbn. rewrite IH. reflexivity. Qed.

(** The log, cycle by cycle: a structure gets a row when it holds the instruction in another
    state than when it last held it. *)
Theorem life_log STOP tb0 : 0 <= STOP < 2 ^ 63 ->
  life_main STOP tb0 = flat_map (life_at tb0) (seq 1 (Z.to_nat STOP)).
Proof.
  intros HS. unfold life_main.
  pose proof (trace_upto life_step (fun k ps l => ps = map (fun st => last_triple tb0 st k) structures /\ l = flat_map (life_at tb0) (seq 1 k)) STOP tb0 life_start HS) as R.
  match type of R with (?A -> _) => assert (HA : A) by (split; reflexivity) end. specialize (R HA). clear HA.
  match type of R with (?A -> _) => assert (HA : A) end.
  { intros j ps l _ [-> ->]. unfold life_step. rewrite seq_S, flat_map_app. cbn [flat_map Nat.add]. rewrite app_nil_r.
    assert (E : life_at tb0 (S j) = if Z.of_nat (S j) <? FROM then [] else life_branch (after tb0 (S j)) (Z.of_nat (S j)) ++
      map LifeRow (omap (fun st => report_row (after tb0 (S j)) (Z.of_nat (S j)) st (last_triple tb0 st (S j - 1))) structures)) by reflexivity.
    rewrite E. clear E.
    destruct (Z.ltb_spec (Z.of_nat (S j)) FROM) as [Hlt|Hge].
    - split; [|reflexivity]. apply map_ext. intros st. cbn [last_triple]. destruct (Z.leb_spec FROM (Z.of_nat (S j))); [lia|reflexivity].
    - unfold life_rows. rewrite !zip_with_mapped, omap_map. replace (S j - 1)%nat with j by lia. split; [|reflexivity].
      apply map_ext. intros st. cbn [last_triple]. destruct (Z.leb_spec FROM (Z.of_nat (S j))); [reflexivity|lia]. }
  specialize (R HA). destruct (trace_run _ _ _ _ _ _) as [[[tb' cyc'] s'] log]. exact (proj2 (proj2 R)).
Qed.
End Lifetime.

(** ** [robmodify_probe.cpp] *)

Inductive took := ByModify | ByFlush | ByEnq | ByNone.
Record rob_row := mkrobrow { r_cyc : Z; r_pre : list Z; r_eval : list Z; r_rel : Z; r_out : bool; r_post : list Z; r_took : took; r_flags : list Z; r_grew : bool }.
Record rob_state := mkrob { n_modify : Z; n_out : Z; n_grew : Z; first_out : Z; first_grew : Z }.

Section Robmodify.
Context `{Model} `{!Netlist} (FROM TO DEPTH : Z).

(** A net of core 1. *)
Definition N1 (sig : string) (tb : Vsystem) : Z := u32 (CORE_RAW sig tb 1).
#[local] Arguments N1 sig%_string_scope tb.
Definition occ (rd wr emp ful : Z) : Z :=
  if negb (emp =? 0) then 0 else if negb (ful =? 0) then DEPTH else Z.land (u32 (wr - rd)) (u32 (DEPTH - 1)).
Definition occ_of (tb : Vsystem) : Z :=
  occ (N1 "rob__DOT__fifo__DOT__readPtr" tb) (N1 "rob__DOT__fifo__DOT__writePtr" tb) (N1 "rob__DOT__fifo__DOT__emptyReg" tb) (N1 "rob__DOT__fifo__DOT__fullReg" tb).
Definition fifo_of (tb : Vsystem) : list Z :=
  [N1 "rob__DOT__fifo__DOT__readPtr" tb; N1 "rob__DOT__fifo__DOT__writePtr" tb; N1 "rob__DOT__fifo__DOT__emptyReg" tb; N1 "rob__DOT__fifo__DOT__fullReg" tb; occ_of tb].
Definition rolls_back (pre : Vsystem) : bool := negb (N1 "branchEvals_valid" pre =? 0) && (N1 "branchEvals_passed" pre =? 0).
Definition nextval (pre : Vsystem) : Z :=
  let v := N1 "branchEvals_robAddr" pre in if v =? u32 (DEPTH - 1) then 0 else u32 (v + 1).
Definition rel (pre : Vsystem) : Z := Z.land (u32 (N1 "branchEvals_robAddr" pre - N1 "rob__DOT__fifo__DOT__readPtr" pre)) (u32 (DEPTH - 1)).
Definition out_of_window (pre : Vsystem) : bool := rolls_back pre && (occ_of pre <=? rel pre).
Definition grew (pre tb : Vsystem) : bool := rolls_back pre && (occ_of pre <? occ_of tb).
Definition path (pre tb : Vsystem) : took :=
  let wr := N1 "rob__DOT__fifo__DOT__writePtr" in
  if rolls_back pre && (wr tb =? nextval pre) then ByModify
  else if (wr tb =? N1 "rob__DOT__fifo__DOT__readPtr" tb) && negb (N1 "rob__DOT__fifo__DOT__emptyReg" tb =? 0) then ByFlush
  else if negb (wr tb =? wr pre) then ByEnq else ByNone.
Definition robmodify_step (pre tb : Vsystem) (cyc : Z) (s : rob_state) : list rob_row * rob_state :=
  let moved sig := negb (N1 sig tb =? N1 sig pre) in
  (if (FROM <=? cyc) && (cyc <=? TO) && (rolls_back pre || moved "rob__DOT__fifo__DOT__writePtr"%string || moved "rob__DOT__fifo__DOT__readPtr"%string)
   then [mkrobrow cyc (fifo_of pre) (map (fun f => N1 f pre) ["branchEvals_valid"; "branchEvals_passed"; "branchEvals_robAddr"]%string ++ [Z.b2z (rolls_back pre); nextval pre])
           (rel pre) (out_of_window pre) (fifo_of tb) (path pre tb)
           (map (fun f => N1 f pre) ["rob__DOT__fifo_io_enq_ready"; "rob__DOT__fifo_io_deq_valid"; "rob_allocate_fired"; "rob_commit_ready"]%string) (grew pre tb)]
   else [],
   mkrob (if rolls_back pre then u64 (n_modify s + 1) else n_modify s)
     (if out_of_window pre then u64 (n_out s + 1) else n_out s) (if grew pre tb then u64 (n_grew s + 1) else n_grew s)
     (if out_of_window pre && (n_out s =? 0) then cyc else first_out s) (if grew pre tb && (n_grew s =? 0) then cyc else first_grew s)).
Definition robmodify_main (tb : Vsystem) : list rob_row * rob_state :=
  let '((_, _, s), log) := trace_run (upto TO) robmodify_step (looks TO 0) tb 0 (mkrob 0 0 0 0 0) in (log, s).

(** The occupancy of a ROB of [2^m] entries whose pointers are below its depth. *)
Lemma occ_count m rd wr emp ful : DEPTH = 2 ^ m -> 0 <= m < 32 -> 0 <= rd < DEPTH -> 0 <= wr < DEPTH ->
  occ rd wr emp ful = if negb (emp =? 0) then 0 else if negb (ful =? 0) then DEPTH else (wr - rd) mod DEPTH.
Proof.
  intros HD Hm Hr Hw. unfold occ. destruct (negb _); [reflexivity|]. destruct (negb _); [reflexivity|].
  assert (Hlt : DEPTH < 2 ^ 32) by (subst; apply Z.pow_lt_mono_r; lia). change (2 ^ 32) with 4294967296 in Hlt.
  rewrite (u32_id (DEPTH - 1)) by (unfold is_u32; lia). replace (DEPTH - 1) with (Z.ones m) by (rewrite Z.ones_equiv; lia). rewrite Z.land_ones, <- HD by lia.
  unfold u32. change 0x100000000 with (2 ^ 32). replace (2 ^ 32) with (2 ^ (32 - m) * DEPTH) by (subst; rewrite <- Z.pow_add_r by lia; f_equal; lia).
  assert (0 < DEPTH) by lia. rewrite (Z.mul_comm _ DEPTH), Z.rem_mul_r by (try lia; apply Z.pow_pos_nonneg; lia).
  rewrite Z.mul_comm, Z_mod_plus_full, Z.mod_mod by lia. reflexivity.
Qed.

(** The looks of a run, and the first that satisfies a test. *)
Definition first_look (p : nat -> bool) (k : nat) : Z := match List.find p (seq 1 k) with Some j => Z.of_nat j | None => 0 end.
Lemma find_app' {A} (f : A -> bool) l l' : List.find f (l ++ l') = match List.find f l with Some x => Some x | None => List.find f l' end.
Proof. induction l as [|x l IH]; [reflexivity|]. cbn. now destruct (f x). Qed.
Lemma first_look_S p k : first_look p (S k) = if p (S k) && (tallied p k =? 0) then Z.of_nat (S k) else first_look p k.
Proof.
  unfold first_look. rewrite seq_S, find_app'. cbn [List.find Nat.add]. destruct (List.find p (seq 1 k)) as [j|] eqn:E.
  - apply List.find_some in E as [Hj Hp]. apply in_seq in Hj. assert (Hn : tallied p k <> 0) by (apply tallied_pos; exists j; split; [lia|exact Hp]).
    apply Z.eqb_neq in Hn. rewrite Hn, andb_false_r. reflexivity.
  - assert (Hn : tallied p k = 0).
    { destruct (Z.eq_dec (tallied p k) 0) as [|Hn]; [assumption|]. apply tallied_pos in Hn as (j & Hj & Hp).
      pose proof (List.find_none _ _ E j) as Hno. rewrite Hno in Hp; [discriminate|apply in_seq; lia]. }
    rewrite Hn, andb_true_r. destruct (p (S k)); reflexivity.
Qed.

(** The summary counts, over the whole run, the rollbacks, those whose target was already
    retired and those after which the ROB held more entries, with the first cycle of each. *)
Theorem rollback_summary tb0 : 0 <= TO < 2 ^ 63 ->
  let at_ (f : Vsystem -> Vsystem -> bool) k := f (eval (after tb0 (k - 1))) (after tb0 k) in
  let p := at_ (fun pre _ => rolls_back pre) in
  let q := at_ (fun pre _ => out_of_window pre) in
  let r := at_ grew in
  let n := Z.to_nat TO in
  snd (robmodify_main tb0) = mkrob (tallied p n) (tallied q n) (tallied r n) (first_look q n) (first_look r n).
Proof.
  intros HT. cbv zeta. 
  set (p := fun k => rolls_back (eval (after tb0 (k - 1)))). set (q := fun k => out_of_window (eval (after tb0 (k - 1)))). set (r := fun k => grew (eval (after tb0 (k - 1))) (after tb0 k)). unfold robmodify_main.
  pose proof (trace_upto robmodify_step (fun k s _ => s = mkrob (tallied p k) (tallied q k) (tallied r k) (first_look q k) (first_look r k)) TO tb0 (mkrob 0 0 0 0 0) HT) as R.
  specialize (R eq_refl). match type of R with (?A -> _) => assert (HA : A) end.
  { intros j s l Hj ->. unfold robmodify_step. cbn [n_modify n_out n_grew first_out first_grew].
    assert (Hlt : Z.of_nat (S j) < 2 ^ 64) by (change (2 ^ 63) with 9223372036854775808 in HT; change (2 ^ 64) with 18446744073709551616; lia).
    rewrite !first_look_S. rewrite <- (tallied_step p j _ Hlt eq_refl), <- (tallied_step q j _ Hlt eq_refl), <- (tallied_step r j _ Hlt eq_refl).
    assert (Ej : (S j - 1)%nat = j) by lia.
    assert (Ep : p (S j) = rolls_back (eval (after tb0 j))) by (unfold p; rewrite Ej; reflexivity).
    assert (Eq : q (S j) = out_of_window (eval (after tb0 j))) by (unfold q; rewrite Ej; reflexivity).
    assert (Er : r (S j) = grew (eval (after tb0 j)) (after tb0 (S j))) by (unfold r; rewrite Ej; reflexivity).
    rewrite Ep, Eq, Er. reflexivity. }
  specialize (R HA). destruct (trace_run _ _ _ _ _ _) as [[[tb' cyc'] s'] log]. exact (proj2 R).
Qed.
End Robmodify.

(** [WATCH] renames the register in the output of [prfwrite_probe]: the values and the cycles
    are those of physical register 33 whatever it is. *)
Lemma watch_only_renames `{Model} `{!Netlist} FROM w w' STOP tb0 : 0 <= STOP < 2 ^ 63 ->
  map (fun r => (p_cyc r, p_before r, p_now r)) (prf_main FROM w STOP tb0) = map (fun r => (p_cyc r, p_before r, p_now r)) (prf_main FROM w' STOP tb0).
Proof.
  intros HS. destruct (prf_changes_exact FROM w STOP tb0 HS) as [-> _]. destruct (prf_changes_exact FROM w' STOP tb0 HS) as [-> _]. unfold rows_at.
  induction (seq 1 (Z.to_nat STOP)) as [|k l IH]; [reflexivity|]. cbn [omap list_omap].
  destruct (prf_row_at FROM w tb0 k) as [r|] eqn:E, (prf_row_at FROM w' tb0 k) as [r'|] eqn:E'; unfold prf_row_at in E, E'; destruct (decide _); try discriminate.
  - injection E as <-. injection E' as <-. cbn. f_equal. exact IH.
  - exact IH.
Qed.
