(* ===== verification/Branches.v ===== *)
(** * Where the branches go: the probes of the branch counter and of the D-cache arbiter

    [brleak_probe.cpp] and [brvanish_probe.cpp] follow the branches of core 1 through its
    scheduler, [brswallow_probe.cpp] counts the resolutions that a failing branch discards,
    [arbiter_race_probe.cpp] and [arbiter_stall_probe.cpp] watch the operation FSM of the
    D-cache arbiter of each core. All are tracers ([Tracer.trace_run]). *)

From Stdlib Require Import String Ascii.
From S2P Require Import Prelude Rtl Firesim Watch Tracer.

(** A net of core [n], cast to [unsigned]. *)
Definition NC `{Netlist} (n : Z) (sig : string) (tb : Vsystem) : Z := u32 (CORE_RAW sig tb n).
Arguments NC {_ _} n sig%_string_scope tb.

(** ** Tracers that compare a look with the one before *)

Section Diff.
Context `{Model} {V E : Type} (view : Vsystem -> V) (v0 : V) (ev : V -> Vsystem -> Z -> list E).
Definition diff_step (pre tb : Vsystem) (cyc : Z) (v : V) : list E * V := (ev v tb cyc, view tb).
Definition view_at (tb0 : Vsystem) (k : nat) : V := match k with O => v0 | S _ => view (after tb0 k) end.
Lemma diff_log END tb0 : 0 <= END < 2 ^ 63 ->
  snd (trace_run (upto END) diff_step (looks END 0) tb0 0 v0) =
  flat_map (fun k => ev (view_at tb0 (k - 1)) (after tb0 k) (Z.of_nat k)) (seq 1 (Z.to_nat END)).
Proof.
  intros HE. pose proof (trace_upto diff_step (fun k v l => v = view_at tb0 k /\
    l = flat_map (fun k => ev (view_at tb0 (k - 1)) (after tb0 k) (Z.of_nat k)) (seq 1 k)) END tb0 v0 HE) as R.
  match type of R with (?A -> _) => assert (HA : A) by (split; reflexivity) end. specialize (R HA). clear HA.
  match type of R with (?A -> _) => assert (HA : A) end.
  { intros j v l _ [-> ->]. unfold diff_step. split; [reflexivity|]. rewrite seq_S, flat_map_app. cbn [flat_map Nat.add]. rewrite app_nil_r.
    replace (S j - 1)%nat with j by lia. reflexivity. }
  specialize (R HA). destruct (trace_run _ _ _ _ _ _) as [[[tb' cyc'] s'] log]. exact (proj2 (proj2 R)).
Qed.
End Diff.

(** ** The scheduler queue of core 1 *)

Record q_slot := mkslot { q_valid : Z; q_isbr : Z; q_rob : Z; q_insn : Z }.
Definition q_slot0 : q_slot := mkslot 0 0 0 0.
Inductive inj_state := WaitForMTIP | WaitToInject | FlushSpeculated | WaitToCommitBranch | InjUnknown.
Definition INJ4 (inj : Z) : inj_state :=
  if inj =? 0 then WaitForMTIP else if inj =? 1 then WaitToInject else if inj =? 2 then FlushSpeculated else if inj =? 3 then WaitToCommitBranch else InjUnknown.
Definition eight : list string := ["0"; "1"; "2"; "3"; "4"; "5"; "6"; "7"]%string.

Section Scheduler.
Context `{Model} `{!Netlist}.

Definition get_slot (tb : Vsystem) (i : string) : q_slot :=
  let q f := NC 1 ("scheduler__DOT__queue_" ++ i ++ f) tb in
  mkslot (q "_valid"%string) (q "_opcodeMeta_isBranch"%string) (q "_robAddr"%string) (q "_instruction"%string).
Definition get_slots (tb : Vsystem) : list q_slot := map (get_slot tb) eight.
Definition slots_used (l : list q_slot) : Z := fold_left (fun n q => u32 (n + q_valid q)) l 0.
Definition q_at (l : list q_slot) (i : nat) : q_slot := default q_slot0 (l !! i).
(** The slots, by number. *)
Definition eight_nat : list nat := seq 0 8.
Definition robRd (tb : Vsystem) : Z := NC 1 "rob__DOT__fifo__DOT__readPtr" tb.
Definition robWr (tb : Vsystem) : Z := NC 1 "rob__DOT__fifo__DOT__writePtr" tb.
End Scheduler.

(** ** [brleak_probe.cpp] *)

Inductive leak_event :=
| LeakVanished (cyc : Z) (slot : nat) (insn rob brCnt occ_before occ_now : Z)
| LeakRow (cyc brCnt : Z) (moved : comparison) (occ : Z) (inj : inj_state) (nets : list Z).
(** [p_bcnt], [p_occ], [p_inj], [p_rrd], [p_rwr] and the slots. *)
Record leak_view := mkleak { p_bcnt : Z; p_occ : Z; p_inj : Z; p_rrd : Z; p_rwr : Z; p_slots : list q_slot }.

Section Brleak.
Context `{Model} `{!Netlist} (FROM : Z).

Definition leak_seen (tb : Vsystem) : leak_view :=
  mkleak (NC 1 "branchCounter" tb) (slots_used (get_slots tb)) (NC 1 "interruptInjectStatus" tb) (robRd tb) (robWr tb) (get_slots tb).
Definition leak_start : leak_view := mkleak 0 0 0 99 99 (replicate 8 q_slot0).
(** A counted branch that leaves slot [i] with no resolution in this cycle. *)
Definition leaves (p : list q_slot) (tb : Vsystem) (i : nat) : bool :=
  negb (q_valid (q_at p i) =? 0) && (q_valid (q_at (get_slots tb) i) =? 0) && negb (q_isbr (q_at p i) =? 0) && (NC 1 "branchEvals_valid" tb =? 0).
Definition leak_vanished (v : leak_view) (tb : Vsystem) (cyc : Z) (i : nat) : leak_event :=
  let w := leak_seen tb in LeakVanished cyc i (q_insn (q_at (p_slots w) i)) (q_rob (q_at (p_slots v) i)) (p_bcnt w) (p_occ v) (p_occ w).
Definition leak_row (v : leak_view) (tb : Vsystem) (cyc : Z) : leak_event :=
  let w := leak_seen tb in
  LeakRow cyc (p_bcnt w) (p_bcnt w ?= p_bcnt v) (p_occ w) (INJ4 (p_inj w))
    (map (fun s => NC 1 s tb) ["branchEvals_valid"; "branchEvals_passed"; "branchEvals_branchMask"; "branchEvals_robAddr"; "branchInstruction_valid";
       "branchInstruction_instruction"; "rob__DOT__fifo__DOT__emptyReg"; "rob__DOT__fifo__DOT__fullReg"; "rob__DOT__fifo__DOT__readPtr";
       "rob__DOT__fifo__DOT__writePtr"; "scheduler_allocate_fired"; "scheduler__DOT__dequeue"]%string).
Definition leak_moved (v w : leak_view) : bool :=
  negb (p_bcnt w =? p_bcnt v) || negb (p_occ w =? p_occ v) || negb (p_inj w =? p_inj v) || negb (p_rrd w =? p_rrd v) || negb (p_rwr w =? p_rwr v).
Definition leak_events (v : leak_view) (tb : Vsystem) (cyc : Z) : list leak_event :=
  if FROM <=? cyc then
    map (leak_vanished v tb cyc) (List.filter (leaves (p_slots v) tb) eight_nat) ++
    (if leak_moved v (leak_seen tb) || negb (NC 1 "branchEvals_valid" tb =? 0) then [leak_row v tb cyc] else [])
  else [].
Definition brleak_main (TO : Z) (tb : Vsystem) : list leak_event :=
  snd (trace_run (upto TO) (diff_step leak_seen leak_events) (looks TO 0) tb 0 leak_start).

(** A branch is reported as vanished at the cycles, of the window, in which its slot has
    become invalid and no branch resolves. *)
Theorem brleak_vanished TO tb0 cyc i insn rob b o o' : 0 <= TO < 2 ^ 63 ->
  In (LeakVanished cyc i insn rob b o o') (brleak_main TO tb0) ->
  exists k, cyc = Z.of_nat k /\ FROM <= cyc <= TO /\ (i < 8)%nat /\ leaves (p_slots (view_at leak_seen leak_start tb0 (k - 1))) (after tb0 k) i = true /\
    rob = q_rob (q_at (p_slots (view_at leak_seen leak_start tb0 (k - 1))) i) /\ insn = q_insn (q_at (get_slots (after tb0 k)) i).
Proof.
  intros HT. unfold brleak_main. rewrite diff_log by exact HT. intros Hin. apply in_flat_map in Hin as (k & Hk & Hin). apply in_seq in Hk.
  unfold leak_events in Hin. destruct (Z.leb_spec FROM (Z.of_nat k)); [|destruct Hin]. apply in_app_iff in Hin as [Hin|Hin].
  - apply in_map_iff in Hin as (i' & E & Hi). unfold leak_vanished in E. injection E as <- <- <- <- _ _ _. apply filter_In in Hi as [Hi Hl].
    unfold eight_nat in Hi. apply in_seq in Hi. exists k. split; [reflexivity|]. split; [lia|]. split; [lia|]. split; [exact Hl|split; reflexivity].
  - destruct (_ || _); [|destruct Hin]. destruct Hin as [E|[]]. discriminate.
Qed.
End Brleak.

(** ** [brvanish_probe.cpp]: the looks are before the edge *)

Inductive vanish_event :=
| Vanished (cyc : Z) (slot : nat) (insn rob : Z) (head : bool)
| IssuedTarget (cyc : Z) (slot : nat) (insn rob bev brob : Z)
| Resolve (cyc : Z) (nets : list Z) (occ : Z) (inj : inj_state) (target : bool)
| Moved (cyc brCnt occ : Z) (inj : inj_state) (rd wr deq : Z) (tgtInSched : bool).
Record vanish_view := mkvanish { v_slots : list q_slot; v_bcnt : Z; v_inj : Z; v_rd : Z; v_wr : Z }.
Record vanish_sums := mkvsums { nResolve : Z; nTargetResolve : Z; nTargetIssue : Z; nVanish : Z; firstTargetIssue : Z }.

Section Brvanish.
Context `{Model} `{!Netlist} (FROM TO TARGET : Z).

Definition vanish_seen (tb : Vsystem) : vanish_view := mkvanish (get_slots tb) (NC 1 "branchCounter" tb) (NC 1 "interruptInjectStatus" tb) (robRd tb) (robWr tb).
(** The loop over the slots: the vanished branches and the issues of the target. *)
Definition vanish_slot (p : list q_slot) (pre : Vsystem) (c : Z) (x : list vanish_event * vanish_sums) (i : nat) : list vanish_event * vanish_sums :=
  let '(es, s) := x in
  let q := q_at p i in
  let bev := NC 1 "branchEvals_valid" pre in
  if negb (q_valid q =? 0) && (q_valid (q_at (get_slots pre) i) =? 0) then
    let isTgt := q_rob q =? TARGET in
    if negb (q_isbr q =? 0) && (bev =? 0) then
      (es ++ [Vanished c i (q_insn q) (q_rob q) isTgt], mkvsums (nResolve s) (nTargetResolve s) (nTargetIssue s) (u64 (nVanish s + 1)) (firstTargetIssue s))
    else if isTgt then
      (es ++ [IssuedTarget c i (q_insn q) (q_rob q) bev (NC 1 "branchEvals_robAddr" pre)],
       mkvsums (nResolve s) (nTargetResolve s) (u64 (nTargetIssue s + 1)) (nVanish s) (if nTargetIssue s =? 0 then c else firstTargetIssue s))
    else x
  else x.
Definition vanish_rows (v : vanish_view) (pre : Vsystem) (c : Z) : list vanish_event :=
  let w := vanish_seen pre in
  let occ := slots_used (v_slots w) in
  let tgt := existsb (fun q => negb (q_valid q =? 0) && (q_rob q =? TARGET)) (v_slots w) in
  if negb (NC 1 "branchEvals_valid" pre =? 0) then
    [Resolve c (map (fun s => NC 1 s pre) ["branchEvals_passed"; "branchEvals_robAddr"; "branchEvals_branchMask"; "branchInstruction_valid"; "branchInstruction_instruction"]%string
                ++ [v_rd w; v_wr w; v_bcnt w]) occ (INJ4 (v_inj w)) (NC 1 "branchEvals_robAddr" pre =? TARGET)]
  else if negb (v_bcnt w =? v_bcnt v) || negb (v_inj w =? v_inj v) || negb (v_rd w =? v_rd v) || negb (v_wr w =? v_wr v) || tgt then
    [Moved c (v_bcnt w) occ (INJ4 (v_inj w)) (v_rd w) (v_wr w) (NC 1 "scheduler__DOT__dequeue" pre) tgt]
  else [].
(** [cyc] is counted after the edge, [c] is the cycle of the look. *)
Definition vanish_step (pre tb : Vsystem) (cyc : Z) (x : vanish_view * vanish_sums) : list vanish_event * (vanish_view * vanish_sums) :=
  let '(v, s) := x in
  let c := u64 (cyc - 1) in
  let bev := NC 1 "branchEvals_valid" pre in
  let s := if bev =? 0 then s
           else mkvsums (u64 (nResolve s + 1)) (if NC 1 "branchEvals_robAddr" pre =? TARGET then u64 (nTargetResolve s + 1) else nTargetResolve s)
                  (nTargetIssue s) (nVanish s) (firstTargetIssue s) in
  let '(es, s) :=
    if (FROM <=? c) && (c <=? TO) then
      let '(es, s) := fold_left (vanish_slot (v_slots v) pre c) eight_nat ([], s) in (es ++ vanish_rows v pre c, s)
    else ([], s) in
  (es, (vanish_seen pre, s)).
Definition vanish_start : vanish_view * vanish_sums := (mkvanish (replicate 8 q_slot0) 0 99 99 99, mkvsums 0 0 0 0 0).
Definition brvanish_main (tb : Vsystem) : list vanish_event * vanish_sums :=
  let '((_, _, (_, s)), log) := trace_run (upto TO) vanish_step (looks TO 0) tb 0 vanish_start in (log, s).
End Brvanish.

(** A target branch that leaves the scheduler in a cycle without a resolution is not an issue. *)
Lemma issue_counted_as_vanish `{Model} `{!Netlist} TARGET p pre c es s i :
  q_valid (q_at p i) <> 0 -> q_valid (q_at (get_slots pre) i) = 0 -> q_isbr (q_at p i) <> 0 -> q_rob (q_at p i) = TARGET -> NC 1 "branchEvals_valid" pre = 0 ->
  nTargetIssue (snd (vanish_slot TARGET p pre c (es, s) i)) = nTargetIssue s.
Proof.
  intros Hv Hn Hb _ He. unfold vanish_slot. rewrite Hn, He. apply Z.eqb_neq in Hv, Hb. rewrite Hv, Hb. reflexivity.
Qed.

(** ** [brswallow_probe.cpp] *)

Record swallow := mkswallow { swallow_any : Z; swallow_live : Z; first_live : Z; sw_printed : Z; delivered : Z; killed : Z; armed : bool }.
Inductive swallow_row := Swallowed (cyc core insn rob ownMask mask : Z).

Section Brswallow.
Context `{Model} `{!Netlist} (MAXPRINT : Z).

(** A failing resolution while a branch is in the unit. *)
Definition swallows (n : Z) (tb : Vsystem) : bool :=
  negb (NC n "branchEvals_valid" tb =? 0) && (NC n "branchEvals_passed" tb =? 0) && negb (NC n "branchInstruction_valid" tb =? 0).
(** [CHECK(n)] *)
Definition swallow_check (tb : Vsystem) (cyc n : Z) (s : swallow) : list swallow_row * swallow :=
  let bev := negb (NC n "branchEvals_valid" tb =? 0) in
  let d := if armed s && bev then u64 (delivered s + 1) else delivered s in
  let k := if armed s && negb bev then u64 (killed s + 1) else killed s in
  if swallows n tb then
    let print := sw_printed s <? MAXPRINT in
    (if print then [Swallowed cyc n (NC n "branchInstruction_instruction" tb) (NC n "branchInstruction_robAddr" tb) (NC n "branchPCs_0_branchMask" tb) (NC n "branchEvals_branchMask" tb)] else [],
     mkswallow (u64 (swallow_any s + 1)) (u64 (swallow_live s + 1)) (if swallow_live s =? 0 then cyc else first_live s)
       (if print then u64 (sw_printed s + 1) else sw_printed s) d k true)
  else ([], mkswallow (swallow_any s) (swallow_live s) (first_live s) (sw_printed s) d k false).
Definition four : list Z := [0; 1; 2; 3].
(** A check of the four cores, each on its own record. *)
Definition each_core {S E} (check : Vsystem -> Z -> Z -> S -> list E * S) (pre tb : Vsystem) (cyc : Z) (l : list S) : list E * list S :=
  let r := zip_with (check tb cyc) four l in (List.concat (map fst r), map snd r).
Definition brswallow_main (END : Z) (tb : Vsystem) : list swallow_row * list swallow :=
  let '((_, _, l), log) := trace_run (upto END) (each_core swallow_check) (looks END 0) tb 0 (replicate 4 (mkswallow 0 0 0 0 0 0 false)) in (log, l).
End Brswallow.

(** A tracer that checks the cores one by one: an invariant of each core's record. *)
Section Each.
Context `{Model} {S E : Type} (check : Vsystem -> Z -> Z -> S -> list E * S) (P : Z -> nat -> S -> Prop).
Lemma each_core_run END tb0 s0 : 0 <= END < 2 ^ 63 -> (forall n, In n four -> P n 0%nat s0) ->
  (forall n j s, In n four -> (j < Z.to_nat END)%nat -> P n j s -> P n (Datatypes.S j) (snd (check (after tb0 (Datatypes.S j)) (Z.of_nat (Datatypes.S j)) n s))) ->
  let '((_, _, l), _) := trace_run (upto END) (each_core check) (looks END 0) tb0 0 (replicate 4 s0) in
  Forall2 (fun n s => P n (Z.to_nat END) s) four l.
Proof.
  intros HE Hst Hstep. pose proof (trace_upto (each_core check) (fun k l _ => Forall2 (fun n s => P n k s) four l) END tb0 (replicate 4 s0) HE) as R.
  match type of R with (?A -> _) => assert (HA : A) end.
  { unfold four in *. cbn [replicate]. repeat constructor; apply Hst; cbn; tauto. }
  specialize (R HA). clear HA. match type of R with (?A -> _) => assert (HA : A) end.
  { intros j l log Hj HF. unfold each_core. cbv beta iota zeta. unfold four in *.
    repeat match goal with HF : Forall2 _ (_ :: _) _ |- _ => inversion HF; clear HF; subst end.
    match goal with HF : Forall2 _ [] _ |- _ => inversion HF; subst end. cbn [zip_with map]. repeat constructor; apply Hstep; cbn; tauto. }
  specialize (R HA). destruct (trace_run _ _ _ _ _ _) as [[[tb' cyc'] l] log]. exact (proj2 R).
Qed.
End Each.

(** Every core: the two counters of discarded resolutions agree, the first cycle is that of
    the first of them, and the cycles after a hit are split into those in which a resolution
    is seen and those in which none is; a hit in the last cycle is in neither. *)
Theorem brswallow_accounts `{Model} `{!Netlist} MAXPRINT END tb0 : 0 <= END < 2 ^ 63 ->
  let hit n k := swallows n (after tb0 k) in
  let after_hit n (b : bool) k := (2 <=? k)%nat && hit n (k - 1)%nat && Bool.eqb (negb (NC n "branchEvals_valid" (after tb0 k) =? 0)) b in
  let m := Z.to_nat END in
  Forall2 (fun n s => swallow_any s = tallied (hit n) m /\ swallow_live s = swallow_any s /\ first_live s = first_look (hit n) m /\
    delivered s = tallied (after_hit n true) m /\ killed s = tallied (after_hit n false) m /\
    delivered s + killed s + Z.b2z (armed s) = swallow_any s) four (snd (brswallow_main MAXPRINT END tb0)).
Proof.
  intros HE. cbv zeta. set (hit := fun n k => swallows n (after tb0 k)).
  set (after_hit := fun n (b : bool) k => (2 <=? k)%nat && hit n (k - 1)%nat && Bool.eqb (negb (NC n "branchEvals_valid" (after tb0 k) =? 0)) b).
  unfold brswallow_main.
  pose proof (each_core_run (swallow_check MAXPRINT) (fun n k s => swallow_any s = tallied (hit n) k /\ swallow_live s = swallow_any s /\
    first_live s = first_look (hit n) k /\ delivered s = tallied (after_hit n true) k /\ killed s = tallied (after_hit n false) k /\
    (armed s = match k with O => false | S _ => hit n k end) /\ delivered s + killed s + Z.b2z (armed s) = swallow_any s) END tb0 (mkswallow 0 0 0 0 0 0 false) HE) as R.
  match type of R with (?A -> _) => assert (HA : A) by (intros; repeat split) end. specialize (R HA). clear HA.
  match type of R with (?A -> _) => assert (HA : A) end.
  { intros n j s _ Hj (Ha & Hl & Hf & Hd & Hk & Har & Hs).
    assert (Hlt : Z.of_nat (S j) < 2 ^ 64) by (change (2 ^ 63) with 9223372036854775808 in HE; change (2 ^ 64) with 18446744073709551616; lia).
    assert (Eh : forall b, after_hit n b (S j) = armed s && Bool.eqb (negb (NC n "branchEvals_valid" (after tb0 (S j)) =? 0)) b).
    { intros b. unfold after_hit. replace (S j - 1)%nat with j by lia. rewrite Har. destruct j; reflexivity. }
    assert (Et : delivered s + killed s + Z.b2z (armed s) = swallow_any s) by exact Hs.
    pose proof (tallied_step (after_hit n true) j (delivered s) Hlt Hd) as Sd. pose proof (tallied_step (after_hit n false) j (killed s) Hlt Hk) as Sk.
    pose proof (tallied_step (hit n) j (swallow_any s) Hlt Ha) as Sa. pose proof (first_look_S (hit n) j) as Sf. rewrite <- Ha, <- Hf in Sf.
    pose proof (tallied_S (hit n) j) as Ta. pose proof (tallied_S (after_hit n true) j) as Td. pose proof (tallied_S (after_hit n false) j) as Tk.
    rewrite Eh in *. unfold swallow_check. change (swallows n (after tb0 (S j))) with (hit n (S j)).
    destruct (armed s), (negb (NC n "branchEvals_valid" (after tb0 (S j)) =? 0)), (hit n (S j));
      cbn [andb negb Bool.eqb Z.b2z snd swallow_any swallow_live first_live delivered killed armed] in *;
      rewrite ?Hl; repeat split; try assumption; try congruence; lia. }
  specialize (R HA). destruct (trace_run _ _ _ _ _ _) as [[[tb' cyc'] l] log]. cbn [snd]. eapply Forall2_impl; [exact R|]. cbv beta. tauto.
Qed.

(** ** [arbiter_race_probe.cpp] *)

(** [STNAME[s < 5 ? s : 5]] *)
Definition st_name (s : Z) : Z := if s <? 5 then s else 5.
Record race_stat := mkrace { overwrite : Z; busystate : Z; ra_printed : Z }.
Inductive race_row := Enq (cyc core state : Z) (occupant incoming : list Z).

Section ArbiterRace.
Context `{Model} `{!Netlist} (MAXPRINT : Z).

(** Nets of the arbiter and of the memory access of core [n]. *)
Definition AR (n : Z) (sig : string) (tb : Vsystem) : Z := NC n ("memAccess__DOT__arbiter__DOT__" ++ sig) tb.
Definition MAn (n : Z) (sig : string) (tb : Vsystem) : Z := NC n ("memAccess__DOT__" ++ sig) tb.
#[local] Arguments AR n sig%_string_scope tb.
#[local] Arguments MAn n sig%_string_scope tb.
Definition enq (n : Z) (tb : Vsystem) : bool :=
  negb (MAn n "requestScheduler_requestOut_valid" tb =? 0) && negb (MAn n "requestScheduler_requestOut_branch_valid" tb =? 0)
  && (MAn n "requestScheduler_controlSignal_isSpeculative" tb =? 0).
Definition over_occupied (n : Z) (tb : Vsystem) : bool := enq n tb && negb (AR n "operationBuffer_valid" tb =? 0).
Definition while_busy (n : Z) (tb : Vsystem) : bool := enq n tb && negb (AR n "operationState" tb =? 0).
Definition race_check (tb : Vsystem) (cyc n : Z) (s : race_stat) : list race_row * race_stat :=
  let print := (over_occupied n tb || while_busy n tb) && (ra_printed s <? MAXPRINT) in
  (if print then [Enq cyc n (st_name (AR n "operationState" tb))
     (map (fun f => AR n f tb) ["operationBuffer_valid"; "operationBuffer_branch_valid"; "operationBuffer_branch_mask"; "operationBuffer_core_instruction"; "operationBuffer_core_robAddr"]%string)
     (map (fun f => MAn n f tb) ["requestScheduler_requestOut_core_instruction"; "requestScheduler_requestOut_core_robAddr"; "requestScheduler_requestOut_branch_mask"]%string)] else [],
   mkrace (if over_occupied n tb then u64 (overwrite s + 1) else overwrite s) (if while_busy n tb then u64 (busystate s + 1) else busystate s)
     (if print then u64 (ra_printed s + 1) else ra_printed s)).
(** [DUMP(n)] *)
Definition race_dump (tb : Vsystem) (n : Z) : list Z :=
  st_name (AR n "operationState" tb) :: map (fun f => AR n f tb) ["operationBuffer_valid"; "operationBuffer_branch_valid"; "operationBuffer_core_instruction";
    "inorderBuffer_valid"; "inorderBuffer_branch_valid"; "inorderBuffer_core_instruction"; "speculativeBuffer_valid"; "speculativeBuffer_branch_valid"; "atomicBusyState"]%string.
Definition race_main (END : Z) (tb : Vsystem) : list race_row * list race_stat * list (list Z) :=
  let '((tb, _, l), log) := trace_run (upto END) (each_core race_check) (looks END 0) tb 0 (replicate 4 (mkrace 0 0 0)) in (log, l, map (race_dump tb) four).

(** The summary counts the cycles with an enqueue over an occupied buffer and those with an
    enqueue outside the idle state, core by core. *)
Theorem race_counts END tb0 : 0 <= END < 2 ^ 63 ->
  Forall2 (fun n s => overwrite s = tallied (fun k => over_occupied n (after tb0 k)) (Z.to_nat END) /\
    busystate s = tallied (fun k => while_busy n (after tb0 k)) (Z.to_nat END)) four (snd (fst (race_main END tb0))).
Proof.
  intros HE. unfold race_main.
  pose proof (each_core_run race_check (fun n k s => overwrite s = tallied (fun k => over_occupied n (after tb0 k)) k /\
    busystate s = tallied (fun k => while_busy n (after tb0 k)) k) END tb0 (mkrace 0 0 0) HE) as R.
  match type of R with (?A -> _) => assert (HA : A) by (intros; split; reflexivity) end. specialize (R HA). clear HA.
  match type of R with (?A -> _) => assert (HA : A) end.
  { intros n j s _ Hj [Ho Hb]. assert (Hlt : Z.of_nat (S j) < 2 ^ 64) by (change (2 ^ 63) with 9223372036854775808 in HE; change (2 ^ 64) with 18446744073709551616; lia).
    split; [exact (tallied_step (fun k => over_occupied n (after tb0 k)) j _ Hlt Ho)|exact (tallied_step (fun k => while_busy n (after tb0 k)) j _ Hlt Hb)]. }
  specialize (R HA). destruct (trace_run _ _ _ _ _ _) as [[[tb' cyc'] l] log]. exact R.
Qed.
End ArbiterRace.

(** ** [arbiter_stall_probe.cpp] *)

Record stall_stat := mkstall { cur_state : Z; state_since : Z; max_dwell : list Z; max_at : list Z; squashed_while_busy : Z; first_squash_busy : Z; st_printed : Z }.
Inductive stall_row := Stuck (cyc core state cycles : Z) (nets : list Z).

Section ArbiterStall.
Context `{Model} `{!Netlist} (ALARM MAXPRINT : Z).
#[local] Arguments AR {_ _} n sig%_string_scope tb.

(** A dwell of [d] cycles in state [st] that began at [since]. *)
Definition dwell (st d since : Z) (s : stall_stat) : list Z * list Z :=
  if (st <? 5) && (default 0 (max_dwell s !! Z.to_nat st) <? d) then (<[Z.to_nat st := d]> (max_dwell s), <[Z.to_nat st := since]> (max_at s))
  else (max_dwell s, max_at s).
Definition squashed_busy (n : Z) (tb : Vsystem) : bool :=
  negb (AR n "operationState" tb =? 0) && negb (AR n "operationBuffer_valid" tb =? 0) && (AR n "operationBuffer_branch_valid" tb =? 0).
Definition stall_check (tb : Vsystem) (cyc n : Z) (s : stall_stat) : list stall_row * stall_stat :=
  let st := AR n "operationState" tb in
  let '(es, s) :=
    if negb (st =? cur_state s) then
      let '(md, ma) := dwell (cur_state s) (u64 (cyc - state_since s)) (state_since s) s in
      ([], mkstall st cyc md ma (squashed_while_busy s) (first_squash_busy s) (st_printed s))
    else if negb (st =? 0) && (u64 (cyc - state_since s) =? ALARM) && (st_printed s <? MAXPRINT) then
      ([Stuck cyc n (st_name st) ALARM
          (map (fun f => AR n f tb) ["operationBuffer_valid"; "operationBuffer_branch_valid"; "operationBuffer_branch_mask"; "operationBuffer_core_instruction";
             "operationBuffer_core_robAddr"; "inorderBuffer_valid"; "inorderBuffer_branch_valid"; "atomicBusyState"]%string
           ++ [NC n "memAccess_responseOut_valid" tb; NC n "memAccess_responseOut_instruction" tb])],
       mkstall (cur_state s) (state_since s) (max_dwell s) (max_at s) (squashed_while_busy s) (first_squash_busy s) (u64 (st_printed s + 1)))
    else ([], s) in
  (es, if squashed_busy n tb then
         mkstall (cur_state s) (state_since s) (max_dwell s) (max_at s) (u64 (squashed_while_busy s + 1))
           (if squashed_while_busy s =? 0 then cyc else first_squash_busy s) (st_printed s)
       else s).
Definition stall_start : stall_stat := mkstall 0 0 [0; 0; 0; 0; 0] [0; 0; 0; 0; 0] 0 0 0.
(** The loop of the summary: the state the run ends in is folded in. *)
Definition stall_final (cyc : Z) (s : stall_stat) : list (Z * Z) * Z * Z * Z :=
  let '(md, ma) := dwell (cur_state s) (u64 (cyc - state_since s)) (state_since s) s in
  (map (fun k => (default 0 (md !! k), default 0 (ma !! k))) [1; 2; 3; 4]%nat, squashed_while_busy s, first_squash_busy s, st_name (cur_state s)).
Definition stall_main (END : Z) (tb : Vsystem) : list stall_row * list (list (Z * Z) * Z * Z * Z) :=
  let '((_, cyc, l), log) := trace_run (upto END) (each_core stall_check) (looks END 0) tb 0 (replicate 4 stall_start) in (log, map (stall_final cyc) l).

Definition op_state (tb0 : Vsystem) (n : Z) (k : nat) : Z := match k with O => 0 | S _ => AR n "operationState" (after tb0 k) end.

(** What a core's record holds after look [k]: the state, and the look at which it was entered. *)
Lemma stall_record tb0 n k s : Z.of_nat (S k) < 2 ^ 63 -> cur_state s = op_state tb0 n k /\ state_since s = Z.of_nat (k - still (op_state tb0 n) k) ->
  let s' := snd (stall_check (after tb0 (S k)) (Z.of_nat (S k)) n s) in
  cur_state s' = op_state tb0 n (S k) /\ state_since s' = Z.of_nat (S k - still (op_state tb0 n) (S k)).
Proof.
  intros Hk [Hc Hs]. unfold stall_check. change (AR n "operationState" (after tb0 (S k))) with (op_state tb0 n (S k)). cbn [still].
  pose proof (still_le (op_state tb0 n) k) as Hle. cbv zeta. rewrite Hc. destruct (Z.eqb_spec (op_state tb0 n (S k)) (op_state tb0 n k)) as [E|E]; cbn [negb].
  - rewrite decide_True by exact E. replace (S k - S (still (op_state tb0 n) k))%nat with (k - still (op_state tb0 n) k)%nat by lia. rewrite E.
    destruct (_ && _ && _); cbn [fst snd]; destruct (squashed_busy _ _); cbn [snd cur_state state_since]; (split; [first [reflexivity|assumption]|assumption]).
  - rewrite decide_False by exact E. rewrite Nat.sub_0_r. destruct (dwell _ _ _ _) as [md ma]. destruct (squashed_busy _ _); split; reflexivity.
Qed.

(** A core is reported as stuck at a look exactly when its FSM has been out of the idle state,
    in one state, for [ALARM] cycles, until [MAXPRINT] reports have been made. *)
Theorem stuck_exact tb0 n k s : Z.of_nat (S k) < 2 ^ 63 -> 0 < ALARM ->
  cur_state s = op_state tb0 n k /\ state_since s = Z.of_nat (k - still (op_state tb0 n) k) ->
  (fst (stall_check (after tb0 (S k)) (Z.of_nat (S k)) n s) <> [] <->
   op_state tb0 n (S k) <> 0 /\ Z.of_nat (still (op_state tb0 n) (S k)) = ALARM /\ st_printed s < MAXPRINT).
Proof.
  change (2 ^ 63) with 9223372036854775808. intros Hk HA [Hc Hs]. unfold stall_check. change (AR n "operationState" (after tb0 (S k))) with (op_state tb0 n (S k)). cbn [still].
  pose proof (still_le (op_state tb0 n) k) as Hle. cbv zeta. rewrite Hc, Hs. destruct (Z.eqb_spec (op_state tb0 n (S k)) (op_state tb0 n k)) as [E|E]; cbn [negb].
  - rewrite decide_True by exact E. rewrite u64_id by (unfold is_u64; lia).
    destruct (Z.eqb_spec (op_state tb0 n (S k)) 0) as [E0|E0]; cbn [negb andb].
    + split; [intros Hf; now contradiction Hf|tauto].
    + destruct (Z.eqb_spec (Z.of_nat (S k) - Z.of_nat (k - still (op_state tb0 n) k)) ALARM) as [Ea|Ea], (Z.ltb_spec (st_printed s) MAXPRINT); cbn [andb fst].
      * split; [intros _; split; [exact E0|]; split; [lia|assumption]|discriminate].
      * split; [intros Hf; now contradiction Hf|lia].
      * split; [intros Hf; now contradiction Hf|lia].
      * split; [intros Hf; now contradiction Hf|lia].
  - rewrite decide_False by exact E. destruct (dwell _ _ _ _) as [md ma]. cbn [fst]. split; [intros Hf; now contradiction Hf|]. intros (_ & Hz & _). lia.
Qed.
End ArbiterStall.
