(* ===== verification/Lines.v ===== *)
(** * Probes of a cache line: [lrsc_wedge_probe.cpp] to [lrsc_wedge_probe7.cpp],
    [tag_dump_probe.cpp] and [ccu_line_probe.cpp]

    Snapshots, at a fixed stride or in every cycle of a window, of the reservations, of the
    coherency units and of the tags and data that the caches hold for one set. A snapshot is
    the list of the values it prints. The theorems give the cycles of the snapshots, and the
    log of the seventh probe as the changes of the set; that probe does not look at the tags,
    so another line of the same set can be reported as a stale fill ([other_line_flagged]). *)

From Stdlib Require Import String Ascii.
From S2P Require Import Prelude Rtl Invariants Firesim Watch Tracer Branches Image.

(** ** Snapshots at a stride *)

Section Snap.
Context `{Model} {E : Type} (snap : Vsystem -> E) (FROM STEP : Z).

(** [if (cyc < next_snap) continue; next_snap += SNAP_STEP] *)
Definition snap_step (pre tb : Vsystem) (cyc next : Z) : list (Z * E) * Z :=
  if cyc <? next then ([], next) else ([(cyc, snap tb)], u64 (next + STEP)).
Definition snap_main (END : Z) (tb : Vsystem) : list (Z * E) := snd (trace_run (upto END) snap_step (looks END 0) tb 0 FROM).

Definition due (k : nat) : bool := (FROM <=? Z.of_nat k) && ((Z.of_nat k - FROM) mod STEP =? 0).

(** The snapshots are those of the cycles [FROM], [FROM + STEP], ... up to [END]. *)
Theorem snaps_exact END tb0 : 0 <= END < 2 ^ 62 -> 1 <= FROM < 2 ^ 62 -> 1 <= STEP < 2 ^ 62 ->
  snap_main END tb0 = rows_at (fun k => if due k then Some (Z.of_nat k, snap (after tb0 k)) else None) (Z.to_nat END).
Proof.
  change (2 ^ 62) with 4611686018427387904. intros HE HF HS. unfold snap_main. set (row := fun k => if due k then _ else _).
  pose proof (trace_upto snap_step (fun k next l => l = rows_at row k /\ exists m, 0 <= m /\ next = FROM + STEP * m /\ Z.of_nat k < next /\ (m = 0 \/ next - STEP <= Z.of_nat k)) END tb0 FROM) as R.
  change (2 ^ 63) with 9223372036854775808 in R. specialize (R ltac:(lia)).
  match type of R with (?A -> _) => assert (HA : A) by (split; [reflexivity|exists 0; lia]) end. specialize (R HA). clear HA.
  match type of R with (?A -> _) => assert (HA : A) end.
  { intros j next l Hj (-> & m & Hm & En & Hlt & Hlast). unfold snap_step. rewrite rows_at_S.
    assert (Er : row (S j) = if (FROM <=? Z.of_nat (S j)) && ((Z.of_nat (S j) - FROM) mod STEP =? 0) then Some (Z.of_nat (S j), snap (after tb0 (S j))) else None) by reflexivity.
    rewrite Er.
    destruct (Z.ltb_spec (Z.of_nat (S j)) next) as [Hl|Hl].
    - assert (Hno : (FROM <=? Z.of_nat (S j)) && ((Z.of_nat (S j) - FROM) mod STEP =? 0) = false).
      { destruct (Z.leb_spec FROM (Z.of_nat (S j))) as [Hf|]; [|reflexivity]. cbn [andb]. apply Z.eqb_neq. intros Hmod.
        apply Z.mod_divide in Hmod as [q Hq]; [|lia]. assert (q < m) by nia. assert (m - 1 <= q) by (destruct Hlast; nia). assert (q = m - 1) by lia. subst q. nia. }
      rewrite Hno. split; [reflexivity|]. exists m. repeat split; try assumption. destruct Hlast; [now left|right; lia].
    - assert (Ej : Z.of_nat (S j) = next) by lia. assert (Hyes : (FROM <=? Z.of_nat (S j)) && ((Z.of_nat (S j) - FROM) mod STEP =? 0) = true).
      { rewrite Ej, En. replace (FROM + STEP * m - FROM) with (m * STEP) by lia. rewrite Z.mod_mul by lia. destruct (Z.leb_spec FROM (FROM + STEP * m)); [reflexivity|nia]. }
      rewrite Hyes. split; [reflexivity|]. exists (m + 1). rewrite u64_id by (unfold is_u64; lia). split; [lia|]. split; [nia|]. split; [lia|right; lia]. }
  specialize (R HA). destruct (trace_run _ _ _ _ _ _) as [[[tb' cyc'] s'] log]. exact (proj1 (proj2 R)).
Qed.
End Snap.

(** ** What they show of a core *)

Section Nets.
Context `{Model} `{!Netlist}.

(** Nets of the cache lookup, the arbiter and the coherency unit of core [n], and of the
    interconnect. *)
Definition CLn (n : Z) (sig : string) (tb : Vsystem) : Z := CORE_RAW ("memAccess__DOT__cacheLookup__DOT__" ++ sig)%string tb n.
Definition ARn (n : Z) (sig : string) (tb : Vsystem) : Z := CORE_RAW ("memAccess__DOT__arbiter__DOT__" ++ sig)%string tb n.
Definition ACEn (n : Z) (sig : string) (tb : Vsystem) : Z := CORE_RAW ("memAccess__DOT__aceUnit__DOT__" ++ sig)%string tb n.
Definition CCU (sig : string) (tb : Vsystem) : Z := PERIPH ("interconnect___DOT__CCU__DOT__" ++ sig)%string tb.
#[local] Arguments CLn n sig%_string_scope tb.
#[local] Arguments ARn n sig%_string_scope tb.
#[local] Arguments ACEn n sig%_string_scope tb.
#[local] Arguments CCU sig%_string_scope tb.
Definition pcs4 (tb : Vsystem) : list Z := map (robpc tb) four.
Definition ccu_states (tb : Vsystem) : list Z :=
  map (fun i => CCU ("stateReg_" ++ i) tb) ["1"; "2"; "3"; "4"; "5"; "6"; "7"; "8"; "9"; "10"; "11"; "12"]%string.
Definition low20 (z : Z) : Z := Z.land z 0xfffff.

(** [ONE(n)] of the first two probes, and of the third. *)
Definition guard_row (tb : Vsystem) (n : Z) : list Z :=
  [CLn n "reservationGuardCnt" tb; CLn n "reservationGuardBlocked" tb; CLn n "reservationRegister_reserved" tb; CLn n "reservationRegister_address" tb;
   ARn n "atomicBusyState" tb; ACEn n "coherencyRequestBuffer_valid" tb; ACEn n "coherencyRequestBuffer_address" tb; ACEn n "coherencyRequestBuffer_response" tb].
Definition roundtrip_row (tb : Vsystem) (n : Z) : list Z :=
  [CLn n "reservationGuardCnt" tb; CLn n "reservationGuardBlocked" tb; CLn n "reservationRegister_reserved" tb; low20 (CLn n "reservationRegister_address" tb);
   ARn n "atomicBusyState" tb; CLn n "lastInorderMissRecordRegister_valid" tb; low20 (CLn n "lastInorderMissRecordRegister_address" tb);
   Z.land (CLn n "lastInorderMissRecordRegister_core_instruction" tb) 0x7f; ACEn n "readACERequestState" tb; ACEn n "readACEResponseState" tb;
   ACEn n "readBuffer_valid" tb; low20 (ACEn n "readBuffer_address" tb); ACEn n "coherentAXIState" tb; ACEn n "coherencyRequestBuffer_valid" tb;
   low20 (ACEn n "coherencyRequestBuffer_address" tb); ACEn n "coherencyRequestBuffer_response" tb; ACEn n "toCoherentRequestInStateWire" tb].
Definition guard_snap (tb : Vsystem) : list (list Z) := pcs4 tb :: map (guard_row tb) four ++ [ccu_states tb].
Definition dram_snap (tb : Vsystem) : list (list Z) :=
  guard_snap tb ++ [map (read_dram64 (raw tb)) [0x80000d80; 0x80000d88; 0x80000d40; 0x80000cc0]].
Definition roundtrip_snap (tb : Vsystem) : list (list Z) := pcs4 tb :: map (roundtrip_row tb) four ++ [ccu_states tb].

(** The set of the line at [0xd80], and way [w] of a set in the tag memory: 23 bits each of
    an entry of three words. *)
Definition SET : Z := Z.land (Z.shiftr 0xd80 6) 0x7f.
Definition tag_word (tb : Vsystem) (n set w : Z) : Z := CORE_MEM "memAccess__DOT__cacheLookup__DOT__tagBRAM__DOT__mem"%string tb n set w.
Definition tag_entry (tb : Vsystem) (n set : Z) : Z := Z.lor (Z.lor (Z.shiftl (tag_word tb n set 2) 64) (Z.shiftl (tag_word tb n set 1) 32)) (tag_word tb n set 0).
Definition tagbits (tb : Vsystem) (n set way : Z) : Z := Z.land (Z.shiftr (tag_entry tb n set) (23 * way)) 0x7fffff.
Definition data_word (tb : Vsystem) (n way set w : Z) : Z :=
  CORE_MEM ("memAccess__DOT__cacheLookup__DOT__dataBRAM_" ++ nth (Z.to_nat way) ["0"; "1"; "2"; "3"] "3" ++ "__DOT__mem")%string tb n set w.
(** Doublewords 0 and 1 of the line. *)
Definition line_dw0 (tb : Vsystem) (n way set : Z) : Z := Z.lor (Z.shiftl (data_word tb n way set 1) 32) (data_word tb n way set 0).
Definition line_dw1 (tb : Vsystem) (n way set : Z) : Z := Z.lor (Z.shiftl (data_word tb n way set 3) 32) (data_word tb n way set 2).
Definition tag_valid (t : Z) : bool := Z.testbit t 19.
Definition tag_dirty (t : Z) : bool := Z.testbit t 20.
Definition tag_shared (t : Z) : bool := Z.testbit t 21.

(** [PERCORE(n)] of the fifth probe: flags, tag and two doublewords of each way. *)
Record way_view := mkway { wv_valid : bool; wv_shared : bool; wv_dirty : bool; wv_tag : Z; wv_owner : Z; wv_cs : Z }.
Definition way_at (tb : Vsystem) (n way : Z) : way_view :=
  let t := tagbits tb n SET way in mkway (tag_valid t) (tag_shared t) (tag_dirty t) (Z.land t 0x7ffff) (line_dw0 tb n way SET) (line_dw1 tb n way SET).
Definition coherency_snap (tb : Vsystem) : (list Z * list Z) * list (list way_view) :=
  ((pcs4 tb, map (read_dram64 (raw tb)) [0x80000d80; 0x80000d88]), map (fun n => map (way_at tb n) four) four).
End Nets.

Section Snapshots.
Context `{Model} `{!Netlist} (END FROM STEP : Z).
Definition lrsc_wedge_main : Vsystem -> list (Z * list (list Z)) := snap_main guard_snap FROM STEP END.
Definition lrsc_wedge2_main : Vsystem -> list (Z * list (list Z)) := snap_main dram_snap FROM STEP END.
Definition lrsc_wedge3_main : Vsystem -> list (Z * list (list Z)) := snap_main roundtrip_snap FROM STEP END.
Definition lrsc_wedge5_main : Vsystem -> list (Z * ((list Z * list Z) * list (list way_view))) := snap_main coherency_snap FROM STEP END.
End Snapshots.

(** ** [lrsc_wedge_probe4.cpp] and [lrsc_wedge_probe6.cpp] *)

Inductive op_name := LRr | LRw | SCr | SCw | AMOr | AMOw | OpLD | OpST | OpUnknown.
Definition opname (insn : Z) (wd : bool) : op_name :=
  let opc := Z.land insn 0x7f in
  if opc =? 0x2f then
    let f5 := Z.shiftr insn 27 in
    if f5 =? 0x02 then (if wd then LRw else LRr) else if f5 =? 0x03 then (if wd then SCw else SCr) else if wd then AMOw else AMOr
  else if opc =? 0x03 then OpLD else if opc =? 0x23 then OpST else OpUnknown.

Inductive pass_row :=
| OpPass (cyc core : Z) (name : op_name) (nets : list Z) (ways : list Z)
| View (cyc core : Z) (w0 : way_view) (nets : list Z).

Section Passes.
Context `{Model} `{!Netlist} (FROM : Z).
#[local] Arguments CLn {_ _} n sig%_string_scope tb.
#[local] Arguments ACEn {_ _} n sig%_string_scope tb.

Definition read_op (tb : Vsystem) (n : Z) : op_name := opname (u32 (CLn n "readBuffer_core_instruction" tb)) (negb (CLn n "readBuffer_writeData_valid" tb =? 0)).
(** The fourth probe: core 3. *)
Definition pass_events (v : unit) (tb : Vsystem) (cyc : Z) : list pass_row :=
  if cyc <? FROM then []
  else if CLn 3 "readBuffer_valid" tb =? 0 then []
  else [OpPass cyc 3 (read_op tb 3)
    [low20 (CLn 3 "readBuffer_address" tb); CLn 3 "requestType" tb; CLn 3 "readBuffer_cacheLine_response" tb; CLn 3 "readBuffer_branch_valid" tb;
     CLn 3 "readBuffer_branch_mask" tb; CLn 3 "reservationRegister_reserved" tb; CLn 3 "reservationGuardCnt" tb; CLn 3 "reservationGuardBlocked" tb;
     CLn 3 "readBuffer_writeData_data" tb]
    (flat_map (fun wy => let t := tagbits tb 3 SET wy in [Z.b2z (tag_shared t); Z.b2z (tag_dirty t); Z.b2z (tag_valid t); Z.land t 0x7ff]) four)].
Definition lrsc_wedge4_main (END : Z) (tb : Vsystem) : list pass_row := snd (trace_run (upto END) (diff_step (fun _ => tt) pass_events) (looks END 0) tb 0 tt).

(** The sixth: [OPLINE(n)] and, every eight cycles, [VIEW(n)] with way 0 of the set. *)
Definition opline (tb : Vsystem) (cyc n : Z) : list pass_row :=
  if CLn n "readBuffer_valid" tb =? 0 then []
  else [OpPass cyc n (read_op tb n)
    [low20 (CLn n "readBuffer_address" tb); CLn n "requestType" tb; CLn n "readBuffer_cacheLine_response" tb; CLn n "readBuffer_writeData_data" tb] []].
Definition line_view (tb : Vsystem) (cyc n : Z) : pass_row :=
  View cyc n (way_at tb n 0)
    [ACEn n "readACERequestState" tb; ACEn n "readACEResponseState" tb; ACEn n "readBuffer_valid" tb; ACEn n "coherentAXIState" tb;
     ACEn n "coherencyRequestBuffer_valid" tb; low20 (ACEn n "coherencyRequestBuffer_address" tb); ACEn n "coherencyRequestBuffer_response" tb;
     ACEn n "toCoherentRequestInStateWire" tb; CLn n "lastInorderMissRecordRegister_valid" tb].
Definition dual_events (v : unit) (tb : Vsystem) (cyc : Z) : list pass_row :=
  if cyc <? FROM then []
  else flat_map (opline tb cyc) four ++ (if Z.land cyc 7 =? 0 then map (line_view tb cyc) four else []).
Definition lrsc_wedge6_main (END : Z) (tb : Vsystem) : list pass_row := snd (trace_run (upto END) (diff_step (fun _ => tt) dual_events) (looks END 0) tb 0 tt).
End Passes.

(** ** [lrsc_wedge_probe7.cpp] *)

(** Flags (1 valid, 2 dirty, 4 shared) and two doublewords of a way of the set. *)
Record WaySt := mkWaySt { fl : Z; wo : Z; wcs : Z }.
#[global] Instance WaySt_eq_dec : EqDecision WaySt.
Proof. solve_decision. Defined.
Definition WaySt0 : WaySt := mkWaySt 0 0 0.
Definition is_valid (s : WaySt) : bool := Z.testbit (fl s) 0.
Inductive line_event := LineRow (cyc : Z) (way : nat) (now was : WaySt) (stale : bool) | AllInvalid (cyc o cs : Z).
Record line_state := mkline { lprev : list WaySt; lastValidCs : Z; lastValidO : Z; anyValidPrev : bool }.

Section Line7.
Context `{Model} `{!Netlist} (FROM : Z).

(** [getWay(c, w)], of way [4 * c + w]. *)
Definition getWay (tb : Vsystem) (i : nat) : WaySt :=
  let c := Z.of_nat i / 4 in
  let w := Z.of_nat i mod 4 in
  mkWaySt (Z.land (Z.shiftr (tagbits tb c SET w) 19) 7) (line_dw0 tb c w SET) (line_dw1 tb c w SET).
(** The body of the two loops. *)
Definition line_scan (tb : Vsystem) (cyc : Z) (x : list line_event * line_state * bool) (i : nat) : list line_event * line_state * bool :=
  let '(es, s, anyValidNow) := x in
  let w := getWay tb i in
  let p := default WaySt0 (lprev s !! i) in
  let changed := negb (bool_decide (w = p)) in
  let stale := is_valid w && negb (is_valid p) && negb (lastValidCs s =? 0xFFFFFFFFFFFFFFFF) && negb (wcs w =? lastValidCs s) in
  (if changed then es ++ [LineRow cyc i w p stale] else es,
   mkline (if changed then <[i := w]> (lprev s) else lprev s) (if is_valid w then wcs w else lastValidCs s) (if is_valid w then wo w else lastValidO s) (anyValidPrev s),
   anyValidNow || is_valid w).
Definition sixteen : list nat := seq 0 16.
Definition line_step (pre tb : Vsystem) (cyc : Z) (s : line_state) : list line_event * line_state :=
  if cyc <? FROM then ([], s)
  else
    let '(es, s, anyValidNow) := fold_left (line_scan tb cyc) sixteen ([], s, false) in
    (es ++ (if anyValidPrev s && negb anyValidNow then [AllInvalid cyc (lastValidO s) (lastValidCs s)] else []),
     mkline (lprev s) (lastValidCs s) (lastValidO s) anyValidNow).
Definition line_start : line_state := mkline (replicate 16 WaySt0) 0xFFFFFFFFFFFFFFFF 0xFFFFFFFFFFFFFFFF false.
Definition lrsc_wedge7_main (END : Z) (tb : Vsystem) : list line_event := snd (trace_run (upto END) line_step (looks END 0) tb 0 line_start).

(** What the probe knows of a way after look [k]. *)
Definition way_seen (tb0 : Vsystem) (k i : nat) : WaySt := match k with O => WaySt0 | S _ => if Z.of_nat k <? FROM then WaySt0 else getWay (after tb0 k) i end.
Definition any_seen (tb0 : Vsystem) (k n : nat) : bool := existsb (fun i => is_valid (way_seen tb0 k i)) (seq 0 n).
Definition changed_at (tb0 : Vsystem) (k i : nat) : option (Z * nat * WaySt * WaySt + Z) :=
  if bool_decide (way_seen tb0 k i = way_seen tb0 (k - 1) i) then None else Some (inl (Z.of_nat k, i, way_seen tb0 k i, way_seen tb0 (k - 1) i)).
Definition line_at (tb0 : Vsystem) (k : nat) : list (Z * nat * WaySt * WaySt + Z) :=
  if Z.of_nat k <? FROM then []
  else omap (changed_at tb0 k) sixteen ++ (if any_seen tb0 (k - 1) 16 && negb (any_seen tb0 k 16) then [inr (Z.of_nat k)] else []).
Definition printed_line (e : line_event) : Z * nat * WaySt * WaySt + Z :=
  match e with LineRow cyc i now was _ => inl (cyc, i, now, was) | AllInvalid cyc _ _ => inr cyc end.

Lemma line_scan_run tb0 j s n : FROM <= Z.of_nat (S j) -> (n <= 16)%nat -> lprev s = map (way_seen tb0 j) sixteen ->
  let '(es, s', any) := fold_left (line_scan (after tb0 (S j)) (Z.of_nat (S j))) (seq 0 n) ([], s, false) in
  map printed_line es = omap (changed_at tb0 (S j)) (seq 0 n) /\ any = any_seen tb0 (S j) n /\ anyValidPrev s' = anyValidPrev s /\
  length (lprev s') = 16%nat /\
  forall i, (i < 16)%nat -> lprev s' !! i = Some (if (i <? n)%nat then way_seen tb0 (S j) i else way_seen tb0 j i).
Proof.
  intros HF Hn Hp. assert (Hpi : forall i, (i < 16)%nat -> lprev s !! i = Some (way_seen tb0 j i)).
  { intros i Hi. rewrite Hp, list_lookup_fmap. unfold sixteen. rewrite lookup_seq_lt by lia. reflexivity. }
  assert (Hw : forall i, way_seen tb0 (S j) i = getWay (after tb0 (S j)) i).
  { intros i. unfold way_seen. destruct (Z.ltb_spec (Z.of_nat (S j)) FROM); [lia|reflexivity]. }
  induction n as [|n IH].
  - cbn [seq fold_left]. repeat split; [rewrite Hp; unfold sixteen; now rewrite length_map, length_seq|]. intros i Hi. exact (Hpi i Hi).
  - specialize (IH ltac:(lia)). rewrite seq_S, fold_left_app. cbn [fold_left Nat.add]. destruct (fold_left _ (seq 0 n) _) as [[es s1] any].
    destruct IH as (He & Ha & Hap & Hl & Hi1). unfold line_scan. rewrite (Hi1 n) by lia. rewrite Nat.ltb_irrefl. cbn [from_option id].
    rewrite <- Hw. rewrite omap_app. cbn [omap list_omap]. unfold any_seen in *. rewrite seq_S, existsb_app. cbn [existsb Nat.add]. rewrite orb_false_r.
    unfold changed_at at 2. replace (S j - 1)%nat with j by lia.
    destruct (bool_decide_reflect (way_seen tb0 (S j) n = way_seen tb0 j n)) as [E|E]; cbn [negb lprev anyValidPrev].
    + rewrite app_nil_r. split; [exact He|]. split; [now rewrite Ha|]. split; [exact Hap|]. split; [exact Hl|]. intros i Hi. rewrite (Hi1 i Hi).
      destruct (Nat.ltb_spec i n), (Nat.ltb_spec i (S n)); try lia; try reflexivity. replace i with n by lia. now rewrite E.
    + rewrite map_app, He. split; [reflexivity|]. split; [now rewrite Ha|]. split; [exact Hap|]. split; [now rewrite length_insert|]. intros i Hi.
      destruct (Nat.eq_dec i n) as [->|Hne].
      * rewrite list_lookup_insert_eq by lia. destruct (Nat.ltb_spec n (S n)); [reflexivity|lia].
      * rewrite list_lookup_insert_ne by congruence. rewrite (Hi1 i Hi). destruct (Nat.ltb_spec i n), (Nat.ltb_spec i (S n)); try lia; reflexivity.
Qed.

(** Cycle by cycle of the window: a line for every way whose flags or data have changed since
    the cycle before, then ALL-INVALID when the last valid way of the set has gone. *)
Theorem line_log END tb0 : 0 <= END < 2 ^ 63 ->
  map printed_line (lrsc_wedge7_main END tb0) = flat_map (line_at tb0) (seq 1 (Z.to_nat END)).
Proof.
  intros HE. unfold lrsc_wedge7_main.
  pose proof (trace_upto line_step (fun k s l => map printed_line l = flat_map (line_at tb0) (seq 1 k) /\ lprev s = map (way_seen tb0 k) sixteen /\
    anyValidPrev s = any_seen tb0 k 16) END tb0 line_start HE) as R.
  match type of R with (?A -> _) => assert (HA : A) by (repeat split) end. specialize (R HA). clear HA.
  match type of R with (?A -> _) => assert (HA : A) end.
  { intros j s l Hj (Hl & Hp & Ha). unfold line_step. rewrite seq_S, flat_map_app. cbn [flat_map Nat.add]. rewrite app_nil_r.
    assert (Ej : line_at tb0 (S j) = if Z.of_nat (S j) <? FROM then [] else omap (changed_at tb0 (S j)) sixteen ++
      (if any_seen tb0 (S j - 1) 16 && negb (any_seen tb0 (S j) 16) then [inr (Z.of_nat (S j))] else [])) by reflexivity. rewrite Ej.
    replace (S j - 1)%nat with j by lia. destruct (Z.ltb_spec (Z.of_nat (S j)) FROM) as [Hlt|Hge].
    - rewrite map_app, Hl. split; [reflexivity|].
      assert (E0 : forall i, way_seen tb0 (S j) i = WaySt0) by (intros i; unfold way_seen; destruct (Z.ltb_spec (Z.of_nat (S j)) FROM); [reflexivity|lia]).
      assert (E1 : forall i, way_seen tb0 j i = WaySt0) by (intros i; unfold way_seen; destruct j; [reflexivity|]; destruct (Z.ltb_spec (Z.of_nat (S j)) FROM); [reflexivity|lia]).
      split; [rewrite Hp; apply map_ext; intros i; now rewrite E0, E1|]. rewrite Ha. unfold any_seen.
      induction (seq 0 16) as [|i ix IH]; [reflexivity|]. cbn [existsb]. now rewrite E0, E1, IH.
    - pose proof (line_scan_run tb0 j s 16 Hge ltac:(lia) Hp) as Hs. unfold sixteen in *. destruct (fold_left _ (seq 0 16) _) as [[es s1] any].
      destruct Hs as (He & -> & Hap & Hlen & Hi). rewrite !map_app, Hl, He, Hap, Ha. split; [f_equal; f_equal; destruct (any_seen tb0 j 16), (any_seen tb0 (S j) 16); reflexivity|]. cbn [lprev anyValidPrev]. split; [|reflexivity].
      apply list_eq. intros i. destruct (Nat.lt_ge_cases i 16) as [Hlt|Hge16].
      + rewrite (Hi i Hlt), list_lookup_fmap, lookup_seq_lt by lia. destruct (Nat.ltb_spec i 16); [reflexivity|lia].
      + rewrite !lookup_ge_None_2; [reflexivity|now rewrite length_map, length_seq|lia]. }
  specialize (R HA). destruct (trace_run _ _ _ _ _ _) as [[[tb' cyc'] s'] log]. exact (proj1 (proj2 R)).
Qed.
End Line7.

(** Ways 0 and 1 of core 0 hold different lines of the set: the second is called a stale fill. *)
Definition two_lines (s : string) (n e w : Z) : Z :=
  let entry := Z.lor (2 ^ 19 + 5) (Z.shiftl (2 ^ 19 + 6) 23) in
  if negb (n =? 0) then 0
  else if String.eqb s "memAccess__DOT__cacheLookup__DOT__tagBRAM__DOT__mem" then u32 (Z.shiftr entry (32 * w))
  else if String.eqb s "memAccess__DOT__cacheLookup__DOT__dataBRAM_0__DOT__mem" then (if w =? 2 then 5 else 0)
  else if String.eqb s "memAccess__DOT__cacheLookup__DOT__dataBRAM_1__DOT__mem" then (if w =? 2 then 7 else 0)
  else 0.
Lemma other_line_flagged (tb : @Vsystem scripted) :
  let nl := named [] two_lines in
  map (fun e => match e with LineRow c i now _ stale => (c, i, wcs now, stale) | AllInvalid c _ _ => (c, 99%nat, 0, false) end)
    (@lrsc_wedge7_main scripted scripted_eval nl 0 1 tb) = [(1, 0%nat, 5, false); (1, 1%nat, 7, true)] /\
  Z.land (@tagbits scripted nl tb 0 SET 0) 0x7ffff <> Z.land (@tagbits scripted nl tb 0 SET 1) 0x7ffff.
Proof. split; [vm_compute; reflexivity|vm_compute; discriminate]. Qed.

(** ** [tag_dump_probe.cpp] *)

Definition TD_SET : Z := 113.
Definition TAG : Z := 0x40617.
Definition SNAPS : list Z := [59440000; 59447150; 59447500; 59460000].
Record tag_way := mktagway { tw_V : bool; tw_D : bool; tw_S : bool; tw_P : bool; tw_tag : Z; tw_match : bool }.
Inductive tag_event := TagProgress (cyc : Z) | TagSnap (cyc : Z) (h3 h0 : list tag_way * list (Z * Z)).

Section TagDump.
Context `{Model} `{!Netlist}.

(** [dump_tag], bit by bit, and [dump_data]. *)
Definition dump_tag (tb : Vsystem) (n : Z) : list tag_way :=
  map (fun i => let chunk := wbits (tag_word tb n TD_SET) (23 * i) 23 in
    let tag := u32 (Z.land chunk 0x7ffff) in
    mktagway (Z.testbit chunk 19) (Z.testbit chunk 20) (Z.testbit chunk 21) (Z.testbit chunk 22) tag ((tag =? TAG) && Z.testbit chunk 19)) four.
Definition dump_data (tb : Vsystem) (n : Z) : list (Z * Z) := map (fun w => (line_dw0 tb n w TD_SET, line_dw1 tb n w TD_SET)) four.
Definition dump_core (tb : Vsystem) (n : Z) : list tag_way * list (Z * Z) := (dump_tag tb n, dump_data tb n).
Definition tag_step (pre tb : Vsystem) (cyc : Z) (snap_i : nat) : list tag_event * nat :=
  let now := match SNAPS !! snap_i with Some c => cyc =? c | None => false end in
  ((if cyc mod 10000000 =? 0 then [TagProgress cyc] else []) ++ (if now then [TagSnap cyc (dump_core tb 3) (dump_core tb 0)] else []),
   if now then S snap_i else snap_i).
Definition tag_dump_main (tb : Vsystem) : list tag_event := snd (trace_run (upto 59500000) tag_step (looks 59500000 0) tb 0 0%nat).

Lemma fold_left_ext_in {A B} (f g : A -> B -> A) l : (forall a b, In b l -> f a b = g a b) -> forall a, fold_left f l a = fold_left g l a.
Proof. induction l as [|b l IH]; intros E a; [reflexivity|]. cbn [fold_left]. rewrite E by now left. apply IH. intros a' b' Hb. apply E. now right. Qed.

(** The bit by bit decoding and the one by shifts agree. *)
Lemma dump_tag_bits tb n set way : (forall w, 0 <= tag_word tb n set w < 2 ^ 32) -> 0 <= way <= 3 ->
  wbits (tag_word tb n set) (23 * way) 23 = tagbits tb n set way.
Proof.
  intros Hw Hr. pose proof (Hw 0) as H0'. pose proof (Hw 1) as H1'. pose proof (Hw 2) as H2'.
  set (e := tag_entry tb n set). assert (He : 0 <= e) by (unfold e, tag_entry; rewrite !Z.lor_nonneg, !Z.shiftl_nonneg; lia).
  assert (Hbit : forall k i, 0 <= k <= 2 -> 0 <= i < 32 -> Z.testbit (tag_word tb n set k) i = Z.testbit (words_of e k) i).
  { intros k i Hk Hi. rewrite words_of_testbit by lia. destruct (Z.ltb_spec i 32); [|lia]. cbn [andb]. unfold e, tag_entry.
    rewrite !Z.lor_spec, !Z.shiftl_spec by lia.
    assert (Hhigh : forall w j, 32 <= j -> Z.testbit (tag_word tb n set w) j = false) by (intros w j Hj; apply (testbit_bound _ 32); [apply Hw|lia]).
    assert (k = 0 \/ k = 1 \/ k = 2) as [->|[->| ->]] by lia.
    - rewrite (Z.testbit_neg_r _ (32 * 0 + i - 64)), (Z.testbit_neg_r _ (32 * 0 + i - 32)) by lia. reflexivity.
    - rewrite (Z.testbit_neg_r _ (32 * 1 + i - 64)), (Hhigh 0) by lia. rewrite orb_false_r. cbn [orb]. f_equal. lia.
    - rewrite (Hhigh 1), (Hhigh 0) by lia. rewrite !orb_false_r. f_equal. lia. }
  transitivity (wbits (words_of e) (23 * way) 23).
  - unfold wbits. apply fold_left_ext_in. intros v i Hi. apply in_seq in Hi. cbv zeta. f_equal. f_equal.
    rewrite (shiftr_div (23 * way + Z.of_nat i) 5) by lia. change (2 ^ 5) with 32. rewrite (land_ones_mod (23 * way + Z.of_nat i) 5) by (reflexivity || lia).
    change (2 ^ 5) with 32. apply Z.bits_inj'. intros j Hj. rewrite !Z.land_spec, !Z.shiftr_spec by lia.
    destruct (Z.eq_dec j 0) as [->|Hne].
    + rewrite !Z.add_0_l. rewrite Hbit; [reflexivity| |apply Z.mod_pos_bound; lia]. split; [apply Z.div_pos; lia|]. apply Z.lt_succ_r, Z.div_lt_upper_bound; lia.
    + replace (Z.testbit 1 j) with false; [now rewrite !andb_false_r|]. symmetry. apply (testbit_bound _ 1); lia.
  - rewrite wbits_field by lia. unfold tagbits. fold e. change 0x7fffff with (Z.ones 23). rewrite Z.land_ones by lia. reflexivity.
Qed.
End TagDump.

(** ** [ccu_line_probe.cpp] *)

Record ccu_state := mkccu { prev_s12 : Z; in_watched_txn : bool; beat_n : Z; print_beat_next : bool }.
Inductive ccu_event :=
| CcuProgress (cyc pc3 : Z)
| Txn (cyc addr tran reqcore : Z) (crp : list Z) (sel : Z) (snoops : list Z)
| Beat (cyc n beat last sel : Z)
| TxnEnd (cyc addr beats : Z).

(** [strtok] on commas: the non-empty pieces. *)
Fixpoint comma_split (s cur : string) : list string :=
  let out := match cur with EmptyString => [] | _ => [cur] end in
  match s with
  | EmptyString => out
  | String c s => if Ascii.eqb c "," then out ++ comma_split s EmptyString else comma_split s (cur ++ String c EmptyString)%string
  end.
(** [strtoull(tok, nullptr, 16)]: white space, a sign, an optional [0x] before a digit. *)
Definition hex_digits (s : string) : Z :=
  Z.min ULLONG_MAX (digits_value 16 0 (match s with
    | String "0" (String x (String d _ as hex)) => if (Ascii.eqb x "x" || Ascii.eqb x "X") && (digit_value d <? 16) then hex else s
    | _ => s
    end)).
Definition strtoull16 (s : string) : Z :=
  match skip_spaces s with
  | String "-" s => u64 (- hex_digits s)
  | String "+" s => hex_digits s
  | s => hex_digits s
  end.
Example hex_watch : map strtoull16 ["0x806b2c00"; "80274c40"; " 0X1g"; "0xz"]%string = [0x806b2c00; 0x80274c40; 1; 0].
Proof. reflexivity. Qed.
(** [init_watch], of the value of [CCU_WATCH]: the first 255 characters, at most 8 lines. *)
Definition init_watch (env : option string) : list Z :=
  match env with
  | None | Some EmptyString => [0x806b2c00; 0x80274c40]
  | Some s => firstn 8 (map (fun tok => Z.land (strtoull16 tok) (u64 (Z.lnot 0x3f))) (comma_split (substring 0 255 s) EmptyString))
  end.

Section CcuLine.
Context `{Model} `{!Netlist} (watch_base : list Z).
#[local] Arguments CCU {_ _} sig%_string_scope tb.

Definition watched_line (a : Z) : bool := existsb (fun b => (b <=? a) && (a <? u64 (b + 0x40))) watch_base.
Definition txn (tb : Vsystem) (cyc : Z) : ccu_event :=
  Txn cyc (CCU "addr_pbuf_3" tb) (u32 (CCU "tran_pbuf_3" tb)) (CCU "core_id_pbuf_3" tb)
    (map (fun f => u32 (CCU f tb)) ["crpbuf_3_0"; "crpbuf_3_2"; "crpbuf_3_4"; "crpbuf_3_6"]%string) (CCU "select_buff" tb)
    (map (fun n => CORE_RAW "memAccess__DOT__aceUnit__DOT__coherencyRequestBuffer_address"%string tb n) four).
Definition ccu_step (pre tb : Vsystem) (cyc : Z) (s : ccu_state) : list ccu_event * ccu_state :=
  let s12 := CCU "stateReg_12" tb in
  let addr3 := CCU "addr_pbuf_3" tb in
  let starts := watched_line addr3 && negb (in_watched_txn s) && negb (s12 =? 0) in
  let inside := starts || in_watched_txn s in
  let n := if starts then 0 else beat_n s in
  let beat := inside && print_beat_next s in
  let n' := if beat then n + 1 else n in
  let ends := inside && (s12 =? 0) && negb (prev_s12 s =? 0) in
  ((if cyc mod 10000000 =? 0 then [CcuProgress cyc (robpc tb 3)] else []) ++
   (if starts then [txn tb cyc] else []) ++
   (if beat then [Beat cyc n (CCU "beat_buff" tb) (CCU "last_buff" tb) (CCU "select_buff" tb)] else []) ++
   (if ends then [TxnEnd cyc addr3 n'] else []),
   mkccu s12 (inside && negb ends) n'
     (if inside then (s12 =? 3) && negb (prev_s12 s =? 3) else print_beat_next s)).
Definition ccu_start : ccu_state := mkccu 0 false 0 false.
Definition ccu_line_main (tb : Vsystem) : list ccu_event := snd (trace_run (upto 200000000) ccu_step (looks 200000000 0) tb 0 ccu_start).

(** A transaction has ended when the FSM is idle, and one that has just begun counts no beat. *)
Lemma ccu_idle pre tb cyc s : (in_watched_txn s = true -> prev_s12 s <> 0) ->
  let s' := snd (ccu_step pre tb cyc s) in in_watched_txn s' = true -> prev_s12 s' <> 0.
Proof.
  intros Hs. cbv zeta. unfold ccu_step. cbn [snd in_watched_txn prev_s12]. intros Hi E. rewrite E in Hi. cbn [Z.eqb negb andb] in Hi.
  rewrite andb_false_r in Hi. cbn [orb] in Hi. destruct (in_watched_txn s); [|discriminate]. specialize (Hs eq_refl). apply Z.eqb_neq in Hs. rewrite Hs in Hi. discriminate.
Qed.
End CcuLine.
