(* ===== verification/Windows.v ===== *)
(** * Probes of a window of a Linux boot: one cache line after a checkpoint

    [linux_dcache_probe.cpp], [linux_snoop_probe.cpp], [linux_tramp_probe.cpp] and
    [linux_walkerdata_probe.cpp] restore a checkpoint, clock the model to cycle [TO] and look at
    it, between [eval] and the edges, in the cycles of [FROM .. TO). [window_run] is that loop;
    [window_diff] gives the log of a probe that prints what differs from the look before.
    An event is the values of a line; the number of a way, hart or word is its position. *)

From Stdlib Require Import String Ascii.
From S2P Require Import Prelude Rtl Firesim Invariants Watch Tracer Branches Lines.

(** ** The loop *)

Inductive win_event (E : Type) := Seen (e : E) | Alive (cyc : Z).
Arguments Seen {E} e.
Arguments Alive {E} cyc.
Definition seen {E} (l : list (win_event E)) : list E := omap (fun e => match e with Seen e => Some e | Alive _ => None end) l.
Lemma seen_app {E} (l k : list (win_event E)) : seen (l ++ k) = seen l ++ seen k.
Proof. apply omap_app. Qed.
Lemma seen_map {E} (l : list E) : seen (map Seen l) = l.
Proof. induction l as [|e l IH]; [reflexivity|]. cbn. f_equal. exact IH. Qed.

Section Window.
Context `{Model} {S E : Type} (FROM TO every : Z) (look : Vsystem -> Z -> S -> list E * S).

Definition in_span (cyc : Z) : bool := (FROM <=? cyc) && (cyc <? TO).
(** [for (;;) { eval; if (in_span) look; if (cyc >= TO) break; edges; ++cyc; progress }] *)
Fixpoint window_run (n : nat) (tb : Vsystem) (cyc : Z) (s : S) : (Vsystem * Z * S) * list (win_event E) :=
  let tb := eval tb in
  let '(es, s) := if in_span cyc then look tb cyc s else ([], s) in
  if TO <=? cyc then ((tb, cyc, s), map Seen es)
  else match n with
  | O => ((tb, cyc, s), map Seen es)
  | Datatypes.S n =>
    let tb := edges tb in
    let cyc := u64 (cyc + 1) in
    let '(r, log) := window_run n tb cyc s in
    (r, map Seen es ++ (if cyc mod every =? 0 then [Alive cyc] else []) ++ log)
  end.

Context (tb0 : Vsystem) (cyc0 : Z) (P : nat -> S -> list E -> Prop).

Lemma window_inv n : forall k s l, 0 <= cyc0 -> cyc0 + Z.of_nat (k + n) = TO -> TO < 2 ^ 63 -> P k s l ->
  (forall j s l, (j < k + n)%nat -> P j s l ->
     let '(es, s') := if in_span (cyc0 + Z.of_nat j) then look (eval (after tb0 j)) (cyc0 + Z.of_nat j) s else ([], s) in P (Datatypes.S j) s' (l ++ es)) ->
  let '((tb', cyc', s'), log) := window_run n (after tb0 k) (cyc0 + Z.of_nat k) s in
  tb' = eval (after tb0 (k + n)) /\ cyc' = TO /\ P (k + n)%nat s' (l ++ seen log).
Proof.
  change (2 ^ 63) with 9223372036854775808. induction n as [|n IH]; intros k s l Hc Hto Hlt HP Hstep; cbn [window_run]; cbv zeta.
  - rewrite Nat.add_0_r in *. unfold in_span. rewrite Hto. rewrite Z.ltb_irrefl, andb_false_r, Z.leb_refl. cbn [map seen omap list_omap]. rewrite app_nil_r. auto.
  - pose proof (Hstep k s l ltac:(lia) HP) as Hs. destruct (if in_span (cyc0 + Z.of_nat k) then _ else _) as [es s1].
    destruct (Z.leb_spec TO (cyc0 + Z.of_nat k)); [lia|]. rewrite <- after_S.
    replace (u64 (cyc0 + Z.of_nat k + 1)) with (cyc0 + Z.of_nat (Datatypes.S k)) by (rewrite u64_id by (unfold is_u64; lia); lia).
    specialize (IH (Datatypes.S k) s1 (l ++ es) Hc ltac:(lia) Hlt Hs). rewrite Nat.add_succ_r in Hstep. specialize (IH Hstep).
    destruct (window_run n _ _ s1) as [[[tb' cyc'] s'] log]. rewrite !seen_app, seen_map, Nat.add_succ_r. rewrite <- app_assoc in IH.
    replace (seen (if (cyc0 + Z.of_nat (Datatypes.S k)) mod every =? 0 then [Alive (cyc0 + Z.of_nat (Datatypes.S k))] else [])) with (@nil E) by (destruct (_ =? 0); reflexivity).
    exact IH.
Qed.

(** From the checkpoint to [TO]. *)
Definition window_main (s0 : S) : (Vsystem * Z * S) * list (win_event E) := window_run (looks TO cyc0) tb0 cyc0 s0.
Lemma window_upto s0 : 0 <= cyc0 <= TO -> TO < 2 ^ 63 -> P 0%nat s0 [] ->
  (forall j s l, (j < looks TO cyc0)%nat -> P j s l ->
     let '(es, s') := if in_span (cyc0 + Z.of_nat j) then look (eval (after tb0 j)) (cyc0 + Z.of_nat j) s else ([], s) in P (Datatypes.S j) s' (l ++ es)) ->
  let '((tb', cyc', s'), log) := window_main s0 in cyc' = TO /\ P (looks TO cyc0) s' (seen log).
Proof.
  intros Hc HT HP Hstep. unfold window_main. pose proof (window_inv (looks TO cyc0) 0 s0 [] ltac:(lia) ltac:(unfold looks; lia) HT HP Hstep) as R.
  change (after tb0 0) with tb0 in R. change (Z.of_nat 0) with 0 in R. rewrite Z.add_0_r in R.
  destruct (window_run _ _ _ _) as [[[tb' cyc'] s'] log]. exact (proj2 R).
Qed.
End Window.

(** A probe whose state is what it saw at the look before. *)
Section WindowDiff.
Context `{Model} {V E : Type} (FROM TO every : Z) (view : Vsystem -> V) (v0 : V) (ev : V -> Vsystem -> Z -> list E).
Context (look : Vsystem -> Z -> V -> list E * V) (look_diff : forall tb cyc v, look tb cyc v = (ev v tb cyc, view tb)).
Context (tb0 : Vsystem) (cyc0 : Z).

Definition before (k : nat) : V := match k with O => v0 | S j => if FROM <=? cyc0 + Z.of_nat j then view (eval (after tb0 j)) else v0 end.
Definition log_at (k : nat) : list E := if FROM <=? cyc0 + Z.of_nat k then ev (before k) (eval (after tb0 k)) (cyc0 + Z.of_nat k) else [].
Lemma window_diff : 0 <= cyc0 <= TO -> TO < 2 ^ 63 ->
  seen (snd (window_main FROM TO every look tb0 cyc0 v0)) = flat_map log_at (seq 0 (looks TO cyc0)).
Proof.
  intros Hc HT. pose proof (window_upto FROM TO every look tb0 cyc0 (fun k v l => v = before k /\ l = flat_map log_at (seq 0 k)) v0 Hc HT) as R.
  specialize (R (conj eq_refl eq_refl)). match type of R with (?A -> _) => assert (HA : A) end.
  { intros j v l Hj [-> ->]. unfold looks in Hj. rewrite seq_S, flat_map_app. cbn [flat_map Nat.add]. rewrite app_nil_r.
    change (log_at j) with (if FROM <=? cyc0 + Z.of_nat j then ev (before j) (eval (after tb0 j)) (cyc0 + Z.of_nat j) else []).
    change (before (S j)) with (if FROM <=? cyc0 + Z.of_nat j then view (eval (after tb0 j)) else v0). unfold in_span.
    destruct (Z.ltb_spec (cyc0 + Z.of_nat j) TO); [|lia]. rewrite andb_true_r. destruct (Z.leb_spec FROM (cyc0 + Z.of_nat j)) as [Hf|Hf].
    - rewrite look_diff. split; reflexivity.
    - split; [|reflexivity]. destruct j as [|i]; [reflexivity|]. cbn [before]. destruct (Z.leb_spec FROM (cyc0 + Z.of_nat i)); [lia|reflexivity]. }
  specialize (R HA). destruct (window_main _ _ _ _ _ _ _) as [[[tb' cyc'] s'] log]. exact (proj2 (proj2 R)).
Qed.

(** What is printed, cycle by cycle. *)
Lemma window_diff_in e : 0 <= cyc0 <= TO -> TO < 2 ^ 63 ->
  In e (seen (snd (window_main FROM TO every look tb0 cyc0 v0))) <->
  exists k, FROM <= cyc0 + Z.of_nat k < TO /\ In e (ev (before k) (eval (after tb0 k)) (cyc0 + Z.of_nat k)).
Proof.
  intros Hc HT. rewrite window_diff by assumption. rewrite in_flat_map. unfold looks, log_at. split.
  - intros (k & Hk & He). apply in_seq in Hk. exists k. destruct (Z.leb_spec FROM (cyc0 + Z.of_nat k)); [|destruct He]. split; [lia|exact He].
  - intros (k & Hk & He). exists k. split; [apply in_seq; lia|]. destruct (Z.leb_spec FROM (cyc0 + Z.of_nat k)); [exact He|lia].
Qed.
End WindowDiff.

(** ** The nets *)

Section WindowNets.
Context `{Model} `{!Netlist}.
(** [DC], [IC] and [ACE_] of core [n]; the conditionals of [PICK] default to core 0. *)
Definition DCn (h : Z) (sig : string) (tb : Vsystem) : Z := CORE_RAW ("memAccess__DOT__cacheLookup__DOT__" ++ sig) tb (picked0 h).
Definition DCmem (h : Z) (sig : string) (tb : Vsystem) (row w : Z) : Z := CORE_MEM ("memAccess__DOT__cacheLookup__DOT__" ++ sig)%string tb (picked0 h) row w.
Definition ICn (h : Z) (sig : string) (tb : Vsystem) : Z := CORE_RAW ("icache__DOT__" ++ sig) tb (picked0 h).
Definition ICmem (h : Z) (sig : string) (tb : Vsystem) (row w : Z) : Z := CORE_MEM ("icache__DOT__" ++ sig)%string tb (picked0 h) row w.
Definition ACEh (h : Z) (sig : string) (tb : Vsystem) : Z := CORE_RAW ("memAccess__DOT__aceUnit__DOT__" ++ sig) tb (picked0 h).
Definition ACEline (h : Z) (tb : Vsystem) (w : Z) : Z := CORE_MEM "memAccess__DOT__aceUnit__DOT__coherencyResponseBuffer_cacheLine"%string tb (picked0 h) 0 w.
End WindowNets.
Arguments DCn {_ _} h sig%_string_scope tb.
Arguments DCmem {_ _} h sig%_string_scope tb row w.
Arguments ICn {_ _} h sig%_string_scope tb.
Arguments ICmem {_ _} h sig%_string_scope tb row w.
Arguments ACEh {_ _} h sig%_string_scope tb.

Lemma lor_low q b n : 0 <= n -> 0 <= b < 2 ^ n -> Z.lor (q * 2 ^ n) b = q * 2 ^ n + b.
Proof.
  intros Hn Hb. symmetry. apply add_disjoint. apply Z.bits_inj'. intros i Hi. rewrite Z.land_spec, Z.bits_0. destruct (Z.ltb_spec i n).
  - rewrite Z.mul_pow2_bits_low by lia. reflexivity.
  - rewrite (testbit_bound b n) by lia. apply andb_false_r.
Qed.

(** [& ~63ULL] *)
Definition line_of (a : Z) : Z := Z.ldiff a 63.
Definition kTagSize : Z := 19.
Definition kTagSection : Z := 23.

(** ** [linux_dcache_probe.cpp] *)

Record way_state := mkws { ws_tag : Z; ws_valid : Z; ws_dirty : Z; ws_shared : Z; ws_plru : Z }.
#[global] Instance way_state_eq_dec : EqDecision way_state.
Proof. solve_decision. Defined.
(** [memset(prev, 0xff, sizeof prev)] *)
Definition ws_ones : way_state := mkws 0xffffffff 0xffffffff 0xffffffff 0xffffffff 0xffffffff.
Definition way_of (row : Z -> Z) (w : Z) : way_state :=
  let b := w * kTagSection in
  mkws (wbits32 row b kTagSize) (wbits32 row (b + kTagSize + 0) 1) (wbits32 row (b + kTagSize + 1) 1) (wbits32 row (b + kTagSize + 2) 1) (wbits32 row (b + kTagSize + 3) 1).
Inductive dc_event :=
| SetRow (cyc : Z) (ways : list (way_state * bool))
| WalkerRow (cyc state set way poison : Z) (watched : bool)
| SlotRow (cyc : Z) (walker holds : bool) (addr : Z).
(** [prev], [prev_flush], [prev_wwb] and [prev_wb]; [None] is the -1 they start with. *)
Record dc_state := mkdc { dc_prev : list way_state; prev_flush : Z; prev_wwb : option bool; prev_wb : option bool }.

Section Dcache.
Context `{Model} `{!Netlist} (HART ADDR FROM TO : Z).

Definition dc_set : Z := Z.land (Z.shiftr ADDR 6) 0x7f.
Definition dc_tag : Z := u32 (Z.shiftr ADDR 13).
Definition dc_row (tb : Vsystem) : Z -> Z := DCmem HART "tagBRAM__DOT__mem" tb dc_set.
Definition dc_ways (tb : Vsystem) : list way_state := map (way_of (dc_row tb)) four.
Definition marked (w : way_state) : bool := (ws_tag w =? dc_tag) && negb (ws_valid w =? 0).
Definition flush_code (tb : Vsystem) : Z :=
  Z.lor (Z.lor (Z.lor (u64 (Z.shiftl (DCn HART "flushState" tb) 16)) (u64 (Z.shiftl (DCn HART "flushSet" tb) 4))) (u64 (Z.shiftl (DCn HART "flushWay" tb) 2)))
    (DCn HART "flushSetPoison" tb).
(** A writeback slot that carries the watched line. *)
Definition slot_holds (buf : string) (tb : Vsystem) : bool :=
  negb (DCn HART (buf ++ "_valid") tb =? 0) && (line_of (DCn HART (buf ++ "_address") tb) =? Z.land (line_of ADDR) 0xffffffff).
Definition dc_slot (buf : string) (walker : bool) (prev : option bool) (tb : Vsystem) (cyc : Z) : list dc_event :=
  if decide (Some (slot_holds buf tb) = prev) then [] else [SlotRow cyc walker (slot_holds buf tb) (line_of (DCn HART (buf ++ "_address") tb))].
Definition WALKER_WB : string := "walkerWriteBackBuffer".
Definition EVICT_WB : string := "writeBackBuffer".
Definition dc_walker (prev : Z) (tb : Vsystem) (cyc : Z) : list dc_event :=
  let st := DCn HART "flushState" tb in
  let set := DCn HART "flushSet" tb in
  if flush_code tb =? prev then []
  else if (set =? dc_set) || negb (st =? Z.shiftr prev 16) then [WalkerRow cyc st set (DCn HART "flushWay" tb) (DCn HART "flushSetPoison" tb) (set =? dc_set)] else [].
Definition dc_look (tb : Vsystem) (cyc : Z) (s : dc_state) : list dc_event * dc_state :=
  let now := dc_ways tb in
  ((if decide (now = dc_prev s) then [] else [SetRow cyc (map (fun w => (w, marked w)) now)]) ++
   dc_walker (prev_flush s) tb cyc ++ dc_slot WALKER_WB true (prev_wwb s) tb cyc ++ dc_slot EVICT_WB false (prev_wb s) tb cyc,
   mkdc (if decide (now = dc_prev s) then dc_prev s else now) (if flush_code tb =? prev_flush s then prev_flush s else flush_code tb)
     (if decide (Some (slot_holds WALKER_WB tb) = prev_wwb s) then prev_wwb s else Some (slot_holds WALKER_WB tb))
     (if decide (Some (slot_holds EVICT_WB tb) = prev_wb s) then prev_wb s else Some (slot_holds EVICT_WB tb))).
Definition dc_start : dc_state := mkdc (replicate 4 ws_ones) 0xFFFFFFFFFFFFFFFF None None.
Definition dcache_main (ckpt : probe_ckpt) : list (win_event dc_event) :=
  snd (window_main FROM TO 5000000 dc_look (k_tb ckpt) (k_cyc ckpt) dc_start).

Definition dc_view (tb : Vsystem) : dc_state := mkdc (dc_ways tb) (flush_code tb) (Some (slot_holds WALKER_WB tb)) (Some (slot_holds EVICT_WB tb)).
Lemma dc_look_diff tb cyc s : dc_look tb cyc s = (fst (dc_look tb cyc s), dc_view tb).
Proof.
  unfold dc_look, dc_view. cbn [fst]. f_equal. f_equal; [| |destruct (decide _); congruence|destruct (decide _); congruence].
  - destruct (decide _); congruence.
  - destruct (Z.eqb_spec (flush_code tb) (prev_flush s)); congruence.
Qed.

(** The flags are the bits of the entry of the set. *)
Lemma way_of_bits e w : 0 <= e -> 0 <= w ->
  way_of (words_of e) w = mkws (Z.shiftr e (w * 23) mod 2 ^ 19) (Z.b2z (Z.testbit e (w * 23 + 19))) (Z.b2z (Z.testbit e (w * 23 + 20)))
    (Z.b2z (Z.testbit e (w * 23 + 21))) (Z.b2z (Z.testbit e (w * 23 + 22))).
Proof.
  intros He Hw. unfold way_of, kTagSection, kTagSize. cbv zeta. rewrite !wbits32_field by lia. change (2 ^ 1) with 2.
  assert (B : forall i, 0 <= i -> Z.shiftr e i mod 2 = Z.b2z (Z.testbit e i)) by (intros i Hi; rewrite <- Z.bit0_mod, Z.shiftr_spec by lia; reflexivity).
  rewrite !B by lia. rewrite <- !Z.add_assoc. reflexivity.
Qed.

(** The packing of the walker's state loses nothing. *)
Lemma flush_code_inj (st set way poison st' set' way' poison' : Z) :
  let code st set way poison := Z.lor (Z.lor (Z.lor (u64 (Z.shiftl st 16)) (u64 (Z.shiftl set 4))) (u64 (Z.shiftl way 2))) poison in
  0 <= st < 2 ^ 48 -> 0 <= set < 2 ^ 12 -> 0 <= way < 4 -> 0 <= poison < 4 -> 0 <= st' < 2 ^ 48 -> 0 <= set' < 2 ^ 12 -> 0 <= way' < 4 -> 0 <= poison' < 4 ->
  code st set way poison = code st' set' way' poison' <-> (st, set, way, poison) = (st', set', way', poison').
Proof.
  intros code Hst Hset Hway Hp Hst' Hset' Hway' Hp'. split; [|intros E; injection E as <- <- <- <-; reflexivity].
  assert (V : forall st set way poison, 0 <= st < 2 ^ 48 -> 0 <= set < 2 ^ 12 -> 0 <= way < 4 -> 0 <= poison < 4 ->
    code st set way poison = ((st * 2 ^ 12 + set) * 4 + way) * 4 + poison).
  { clear. intros st set way poison H1 H2 H3 H4. unfold code. change (2 ^ 48) with 281474976710656 in *. change (2 ^ 12) with 4096 in *.
    rewrite !shiftl_mul by lia. change (2 ^ 16) with 65536. change (2 ^ 4) with 16. change (2 ^ 2) with 4.
    rewrite !u64_id by (unfold is_u64; lia).
    replace (st * 65536) with (st * 4096 * 2 ^ 4) by (change (2 ^ 4) with 16; ring).
    replace (set * 16) with (set * 2 ^ 4) by reflexivity. rewrite (Z.lor_comm (st * 4096 * _)).
    assert (E1 : Z.lor (set * 2 ^ 4) (st * 4096 * 2 ^ 4) = (st * 4096 + set) * 4 * 2 ^ 2).
    { rewrite Z.lor_comm. replace (st * 4096 * 2 ^ 4) with (st * 2 ^ 16) by (change (2 ^ 16) with 65536; change (2 ^ 4) with 16; ring).
      rewrite lor_low by (change (2 ^ 16) with 65536; change (2 ^ 4) with 16; lia). change (2 ^ 16) with 65536; change (2 ^ 4) with 16; change (2 ^ 2) with 4; ring. }
    rewrite E1. replace (Z.lor ((st * 4096 + set) * 4 * 2 ^ 2) (way * 4)) with (((st * 4096 + set) * 4 + way) * 2 ^ 2).
    2: { replace ((st * 4096 + set) * 4 * 2 ^ 2) with ((st * 4096 + set) * 2 ^ 4) by (change (2 ^ 4) with 16; change (2 ^ 2) with 4; ring).
         rewrite lor_low by (change (2 ^ 4) with 16; lia). change (2 ^ 4) with 16; change (2 ^ 2) with 4; ring. }
    rewrite lor_low by (change (2 ^ 2) with 4; lia). change (2 ^ 2) with 4. ring. }
  rewrite !V by assumption. intros E. f_equal; [f_equal; [f_equal|]|]; lia.
Qed.

(** A line of the set, and a line of the walker: the cycles of the window at which the ways
    are not what they were a cycle before, and those at which the walker has moved and is at the
    watched set or in another state. *)
Theorem dcache_rows ckpt : 0 <= k_cyc ckpt <= TO -> TO < 2 ^ 63 ->
  let seen_at k := eval (after (k_tb ckpt) k) in
  let old := before FROM dc_view dc_start (k_tb ckpt) (k_cyc ckpt) in
  (forall c ws, In (SetRow c ws) (seen (dcache_main ckpt)) <->
    exists k, c = k_cyc ckpt + Z.of_nat k /\ FROM <= c < TO /\ dc_ways (seen_at k) <> dc_prev (old k) /\ ws = map (fun w => (w, marked w)) (dc_ways (seen_at k))) /\
  (forall c st set way poison b, In (WalkerRow c st set way poison b) (seen (dcache_main ckpt)) <->
    exists k, c = k_cyc ckpt + Z.of_nat k /\ FROM <= c < TO /\ flush_code (seen_at k) <> prev_flush (old k) /\
      (set = dc_set \/ st <> Z.shiftr (prev_flush (old k)) 16) /\ b = (set =? dc_set) /\
      [st; set; way; poison] = map (fun s => DCn HART s (seen_at k)) ["flushState"; "flushSet"; "flushWay"; "flushSetPoison"]%string).
Proof.
  intros Hc HT. cbv zeta. unfold dcache_main. split.
  - intros c ws. rewrite (window_diff_in FROM TO 5000000 dc_view dc_start (fun s tb cyc => fst (dc_look tb cyc s)) dc_look dc_look_diff) by assumption. split.
    + intros (k & Hk & Hin). cbn [fst dc_look] in Hin. apply in_app_iff in Hin as [Hin|Hin].
      * destruct (decide _) as [|Hne]; [destruct Hin|]. destruct Hin as [E|[]]. injection E as <- <-. exists k. auto.
      * exfalso. rewrite !in_app_iff in Hin. unfold dc_walker, dc_slot in Hin.
        repeat match type of Hin with context [if ?b then _ else _] => destruct b end; cbn in Hin; intuition discriminate.
    + intros (k & -> & Hk & Hne & ->). exists k. split; [exact Hk|]. cbn [fst dc_look]. apply in_app_iff. left.
      rewrite decide_False by exact Hne. now left.
  - intros c st set way poison b. rewrite (window_diff_in FROM TO 5000000 dc_view dc_start (fun s tb cyc => fst (dc_look tb cyc s)) dc_look dc_look_diff) by assumption. split.
    + intros (k & Hk & Hin). cbn [fst dc_look] in Hin. rewrite !in_app_iff in Hin. destruct Hin as [Hin|[Hin|Hin]].
      * destruct (decide _); [destruct Hin|]. destruct Hin as [E|[]]. discriminate.
      * unfold dc_walker in Hin. destruct (Z.eqb_spec (flush_code (eval (after (k_tb ckpt) k))) (prev_flush (before FROM dc_view dc_start (k_tb ckpt) (k_cyc ckpt) k))) as [|Hne]; [destruct Hin|].
        destruct (_ || _) eqn:Eb; [|destruct Hin]. destruct Hin as [E|[]]. injection E as <- <- <- <- <- <-. exists k. repeat split; try assumption; lia.
      * exfalso. unfold dc_slot in Hin. repeat match type of Hin with context [if ?b then _ else _] => destruct b end; cbn in Hin; intuition discriminate.
    + intros (k & -> & Hk & Hne & Hw & -> & E). injection E as -> -> -> ->. exists k. split; [exact Hk|]. cbn [fst dc_look]. rewrite !in_app_iff. right. left.
      unfold dc_walker. destruct (Z.eqb_spec (flush_code (eval (after (k_tb ckpt) k))) (prev_flush (before FROM dc_view dc_start (k_tb ckpt) (k_cyc ckpt) k))); [contradiction|].
      match goal with |- In _ (if ?c then _ else _) => replace c with true end; [now left|lia].
Qed.
End Dcache.

(** ** [linux_snoop_probe.cpp] *)

Inductive sn_event :=
| OtherSnoop (cyc line : Z)
| SnoopRow (cyc req hit respValid dataValid resp flagsWord : Z) (stale : bool).
Record sn_state := mksn { other_snoops : Z; last_other : Z; prev_req : Z; prev_hit : Z }.
Definition is_other (e : sn_event) : bool := match e with OtherSnoop _ _ => true | SnoopRow _ _ _ _ _ _ _ _ => false end.

Section Snoop.
Context `{Model} `{!Netlist} (HART ADDR FROM TO : Z) (all_snoops : bool).

Definition sn_line : Z := Z.land (line_of ADDR) 0xffffffff.
(** Part one: a snoop of another line. *)
Definition sn_other (tb : Vsystem) (cyc : Z) (s : sn_state) : list sn_event * sn_state :=
  let sa := line_of (ACEh HART "coherencyRequestBuffer_address" tb) in
  if all_snoops && negb (s32 (ACEh HART "coherencyRequestBuffer_valid" tb) =? 0) && negb (sa =? sn_line) && negb (sa =? last_other s) then
    let n := u64 (other_snoops s + 1) in
    (if n <=? 20 then [OtherSnoop cyc sa] else [], mksn n sa (prev_req s) (prev_hit s))
  else ([], s).
(** Part two: the watched line. *)
Definition sn_watched (tb : Vsystem) (cyc : Z) (s : sn_state) : list sn_event * sn_state :=
  let sa := line_of (ACEh HART "coherencyRequestBuffer_address" tb) in
  let req := s32 (ACEh HART "coherencyRequestBuffer_valid" tb) in
  let hit := s32 (ACEh HART "writePipeHit" tb) in
  if (sa =? sn_line) && (negb (req =? prev_req s) || negb (hit =? prev_hit s)) then
    let flags := ACEline HART tb 2 in
    ([SnoopRow cyc req hit (s32 (ACEh HART "coherencyResponseBuffer_valid" tb)) (s32 (ACEh HART "coherencyResponseBuffer_dataValid" tb))
        (u32 (ACEh HART "coherencyResponseBuffer_response" tb)) flags (negb (hit =? 0) && (flags =? 0x11))],
     mksn (other_snoops s) (last_other s) req hit)
  else ([], s).
Definition sn_look (tb : Vsystem) (cyc : Z) (s : sn_state) : list sn_event * sn_state :=
  let '(a, s) := sn_other tb cyc s in
  let '(b, s) := sn_watched tb cyc s in (a ++ b, s).
Definition sn_start : sn_state := mksn 0 0xFFFFFFFFFFFFFFFF (-1) (-1).
(** What is printed, and the count of the last line. *)
Definition snoop_main (ckpt : probe_ckpt) : list (win_event sn_event) * Z :=
  let '((_, _, s), log) := window_main FROM TO 5000000 sn_look (k_tb ckpt) (k_cyc ckpt) sn_start in (log, other_snoops s).

(** The lines of other snoops are the first twenty of the counted ones. Without [SN_ALL] none
    is counted: the last line says that no snoop to another line was seen, whatever was. *)
Theorem snoop_others ckpt : 0 <= k_cyc ckpt <= TO -> TO < 2 ^ 63 ->
  let '(log, others) := snoop_main ckpt in
  Z.of_nat (length (List.filter is_other (seen log))) = Z.min others 20 /\ 0 <= others <= TO - k_cyc ckpt /\ (all_snoops = false -> others = 0).
Proof.
  change (2 ^ 63) with 9223372036854775808. intros Hc HT. unfold snoop_main.
  pose proof (window_upto FROM TO 5000000 sn_look (k_tb ckpt) (k_cyc ckpt)
    (fun k s l => Z.of_nat (length (List.filter is_other l)) = Z.min (other_snoops s) 20 /\ 0 <= other_snoops s <= Z.of_nat k /\ (all_snoops = false -> other_snoops s = 0)) sn_start Hc) as R.
  change (2 ^ 63) with 9223372036854775808 in R. specialize (R HT). match type of R with (?A -> _) => assert (HA : A) by (cbn; lia) end. specialize (R HA). clear HA.
  match type of R with (?A -> _) => assert (HA : A) end.
  { intros j s l Hj (Hn & Hr & Ha). unfold looks in Hj. destruct (in_span _ _ _); [|rewrite app_nil_r; split; [exact Hn|]; split; [lia|exact Ha]].
    unfold sn_look. destruct (sn_other _ _ s) as [a s1] eqn:E1. destruct (sn_watched _ _ s1) as [b s2] eqn:E2.
    assert (F2 : List.filter is_other b = [] /\ other_snoops s2 = other_snoops s1).
    { unfold sn_watched in E2. destruct (_ && _) in E2; injection E2 as <- <-; split; reflexivity. }
    destruct F2 as [F2 G2]. rewrite !List.filter_app, F2, app_nil_r, length_app, G2. unfold sn_other in E1. destruct all_snoops; cbn [andb] in E1.
    - destruct (_ && _) in E1; injection E1 as <- <-; [|cbn [List.filter length]; split; [lia|]; split; [lia|discriminate]]. cbn [other_snoops].
      rewrite u64_id in * by (unfold is_u64; lia). split; [|split; [lia|discriminate]]. destruct (Z.leb_spec (other_snoops s + 1) 20); cbn [List.filter is_other length]; lia.
    - injection E1 as <- <-. cbn [List.filter length]. split; [lia|]. split; [lia|exact Ha]. }
  specialize (R HA). destruct (window_main _ _ _ _ _ _ _) as [[[tb' cyc'] s'] log]. destruct R as (_ & Hn & Hr & Ha).
  split; [exact Hn|]. split; [unfold looks in Hr; lia|exact Ha].
Qed.
End Snoop.

(** ** [linux_walkerdata_probe.cpp] *)

Inductive wd_event := WalkerPass (cyc st set : Z) (nets words : list Z) | WalkerPost (cyc line word0 : Z).
Record wd_state := mkwd { wd_prev_state : Z; last_wwb : Z }.

Section Walkerdata.
Context `{Model} `{!Netlist} (SET FROM TO : Z).

Definition wd_look (tb : Vsystem) (cyc : Z) (s : wd_state) : list wd_event * wd_state :=
  let st := u32 (DCn 0 "flushState" tb) in
  let fs := u32 (DCn 0 "flushSet" tb) in
  let near := fs =? SET in
  let a := line_of (DCn 0 "walkerWriteBackBuffer_address" tb) in
  let post := negb (DCn 0 "walkerWriteBackBuffer_valid" tb =? 0) && negb (a =? last_wwb s) in
  ((if near || (negb (st =? u32 (wd_prev_state s)) && (0 <=? wd_prev_state s) && near) then
      [WalkerPass cyc st fs
         (map (fun n => u32 (DCn 0 n tb)) ["flushWay"; "flushSetPoison"; "dataBRAM_0_rdAddr"; "dataBRAM_0__DOT__mem_memData_addr_pipe_0"; "dataBRAM_0_wrEna";
            "dataBRAM_0_wrAddr"; "dataBRAM_0__DOT__doForwardReg"; "tagBRAM_rdAddr"; "tagBRAM__DOT__doForwardReg"]%string)
         [DCmem 0 "dataBRAM_0_rdData" tb 0 0; DCmem 0 "dataBRAM_0__DOT__wrDataReg" tb 0 0; DCmem 0 "dataBRAM_0__DOT__mem" tb SET 0;
          DCmem 0 "tagBRAM_rdData" tb 0 0; DCmem 0 "tagBRAM__DOT__mem" tb SET 0]]
    else []) ++
   (if post then [WalkerPost cyc a (DCmem 0 "walkerWriteBackBuffer_data" tb 0 0)] else []),
   mkwd (s32 st) (if post then a else last_wwb s)).
Definition walkerdata_main (ckpt : probe_ckpt) : list (win_event wd_event) :=
  snd (window_main FROM TO 1000000 wd_look (k_tb ckpt) (k_cyc ckpt) (mkwd (-1) 0xFFFFFFFFFFFFFFFF)).

Definition pass_cycle (e : wd_event) : option Z := match e with WalkerPass c _ _ _ _ => Some c | WalkerPost _ _ _ => None end.
Definition pass_cycles (l : list wd_event) : list Z := omap pass_cycle l.
Lemma pass_cycles_app l k : pass_cycles (l ++ k) = pass_cycles l ++ pass_cycles k.
Proof. apply omap_app. Qed.
(** The cycles traced are those of the window at which the walker is at the watched set. *)
Theorem walkerdata_cycles ckpt : 0 <= k_cyc ckpt <= TO -> TO < 2 ^ 63 ->
  pass_cycles (seen (walkerdata_main ckpt)) =
  flat_map (fun k => let c := k_cyc ckpt + Z.of_nat k in if (FROM <=? c) && (u32 (DCn 0 "flushSet" (eval (after (k_tb ckpt) k))) =? SET) then [c] else []) (seq 0 (looks TO (k_cyc ckpt))).
Proof.
  intros Hc HT. unfold walkerdata_main. cbv zeta.
  set (row := fun k => if (FROM <=? k_cyc ckpt + Z.of_nat k) && _ then _ else _).
  pose proof (window_upto FROM TO 1000000 wd_look (k_tb ckpt) (k_cyc ckpt) (fun k s l => pass_cycles l = flat_map row (seq 0 k)) (mkwd (-1) 0xFFFFFFFFFFFFFFFF) Hc HT eq_refl) as R.
  match type of R with (?A -> _) => assert (HA : A) end.
  { intros j s l Hj Hl. unfold looks in Hj. rewrite seq_S, flat_map_app, <- Hl. cbn [flat_map Nat.add]. rewrite app_nil_r.
    change (row j) with (if (FROM <=? k_cyc ckpt + Z.of_nat j) && (u32 (DCn 0 "flushSet" (eval (after (k_tb ckpt) j))) =? SET) then [k_cyc ckpt + Z.of_nat j] else []).
    unfold in_span. destruct (Z.ltb_spec (k_cyc ckpt + Z.of_nat j) TO); [|lia]. rewrite andb_true_r.
    destruct (FROM <=? _); [|rewrite !app_nil_r; reflexivity]. cbn [andb]. unfold wd_look. cbv zeta. rewrite pass_cycles_app. f_equal.
    assert (En : forall b x y : bool, b || (x && y && b) = b) by (intros [] [] []; reflexivity). rewrite En.
    assert (Ep : forall (b : bool) c a w, pass_cycles (if b then [WalkerPost c a w] else []) = []) by (intros []; reflexivity).
    rewrite pass_cycles_app, Ep, app_nil_r. destruct (_ =? SET); reflexivity. }
  specialize (R HA). destruct (window_main _ _ _ _ _ _ _) as [[[tb' cyc'] s'] log]. exact (proj2 R).
Qed.
End Walkerdata.

(** ** [linux_tramp_probe.cpp] *)

Record tr_way := mktw { tw_tag : Z; tw_valid : Z; tw_dirty : Z; tw_shared : Z }.
#[global] Instance tr_way_eq_dec : EqDecision tr_way.
Proof. solve_decision. Defined.
Definition tw_ones : tr_way := mktw 0xffffffff 0xffffffff 0xffffffff 0xffffffff.
Definition tr_way_of (row : Z -> Z) (w : Z) : tr_way :=
  let b := w * kTagSection in
  mktw (wbits32 row b kTagSize) (wbits32 row (b + kTagSize + 0) 1) (wbits32 row (b + kTagSize + 1) 1) (wbits32 row (b + kTagSize + 2) 1).
(** [ICache]: with the tag watched now ([Some]: whether the word is zero) or only before. *)
Inductive tr_event :=
| ICache (cyc h iv it iw : Z) (hit : option bool)
| IFill (cyc h addr word0 word1 : Z)
| DCache (cyc h : Z) (ways : list (tr_way * bool))
| WalkerWB (cyc h retain word word0 : Z)
| EvictWB (cyc h word word0 : Z)
| Sweep (cyc h : Z) (start : bool).
(** What is remembered of a hart; [None] is a -1. *)
Record tr_hart := mkth { iprev : Z * Z * Z; iprev_fill : Z; dprev : list tr_way; tr_wwb : option bool; tr_wb : option bool; walkerActive : option bool }.

Section Tramp.
Context `{Model} `{!Netlist} (ADDR FROM TO : Z).

Definition tr_line : Z := line_of ADDR.
Definition dset : Z := Z.land (Z.shiftr ADDR 6) 0x7f.
Definition dtag : Z := u32 (Z.shiftr ADDR 13).
Definition iline : Z := Z.land (Z.shiftr ADDR 6) 0x3f.
Definition itag : Z := u32 (Z.shiftr ADDR 12).
Definition iword : Z := Z.land (Z.shiftr ADDR 2) 0xf.

(** Valid bit, tag and word of the I-cache line. *)
Definition icache_at (h : Z) (tb : Vsystem) : Z * Z * Z :=
  (s32 (ICmem h "cache__DOT__validBits" tb iline 0), ICmem h "cache__DOT__tags" tb iline 0, ICmem h "cache__DOT__cache" tb iline iword).
Definition ifill_at (h : Z) (tb : Vsystem) : Z := s32 (ICn h "cacheFill_valid" tb).
Definition tr_ways (h : Z) (tb : Vsystem) : list tr_way := map (tr_way_of (DCmem h "tagBRAM__DOT__mem" tb dset)) four.
Definition tr_holds (buf : string) (h : Z) (tb : Vsystem) : bool :=
  negb (s32 (DCn h (buf ++ "_valid") tb) =? 0) && (line_of (DCn h (buf ++ "_address") tb) =? Z.land tr_line 0xffffffff).
Definition sweeping (h : Z) (tb : Vsystem) : bool := negb (DCn h "flushState" tb =? 0).
Definition tr_marked (w : tr_way) : bool := (tw_tag w =? dtag) && negb (tw_valid w =? 0).

(** The I-cache line: the valid bit is tested for truth now and for 1 before. *)
Definition tr_icache (h : Z) (v : tr_hart) (tb : Vsystem) (cyc : Z) : list tr_event :=
  let '(iv, it, iw) := icache_at h tb in
  let '(pv, pt, _) := iprev v in
  if decide (icache_at h tb = iprev v) then []
  else
    let hit := negb (iv =? 0) && (it =? itag) in
    let was := (pv =? 1) && (pt =? itag) in
    if hit || was then [ICache cyc h iv it iw (if hit then Some (iw =? 0) else None)] else [].
Definition tr_ifill (h : Z) (v : tr_hart) (tb : Vsystem) (cyc : Z) : list tr_event :=
  let fa := ICn h "results_0_address" tb in
  if negb (ifill_at h tb =? iprev_fill v) && negb (ifill_at h tb =? 0) && (Z.shiftr fa 6 =? Z.shiftr ADDR 6)
  then [IFill cyc h fa (ICmem h "cacheFill_block" tb 0 0) (ICmem h "cacheFill_block" tb 0 1)] else [].
Definition tr_dcache (h : Z) (v : tr_hart) (tb : Vsystem) (cyc : Z) : list tr_event :=
  let now := tr_ways h tb in
  if decide (now = dprev v) then []
  else if existsb tr_marked now || existsb tr_marked (dprev v) then [DCache cyc h (map (fun w => (w, tr_marked w)) now)] else [].
Definition tr_walkerwb (h : Z) (v : tr_hart) (tb : Vsystem) (cyc : Z) : list tr_event :=
  let d := DCmem h "walkerWriteBackBuffer_data" tb 0 in
  if decide (Some (tr_holds WALKER_WB h tb) = tr_wwb v) then []
  else if tr_holds WALKER_WB h tb then [WalkerWB cyc h (DCn h "walkerWriteBackBuffer_retain" tb) (d iword) (d 0)] else [].
Definition tr_evictwb (h : Z) (v : tr_hart) (tb : Vsystem) (cyc : Z) : list tr_event :=
  let d := DCmem h "writeBackBuffer_data" tb 0 in
  if decide (Some (tr_holds EVICT_WB h tb) = tr_wb v) then [] else if tr_holds EVICT_WB h tb then [EvictWB cyc h (d iword) (d 0)] else [].
Definition tr_sweep (h : Z) (v : tr_hart) (tb : Vsystem) (cyc : Z) : list tr_event :=
  match walkerActive v with
  | Some was => if Bool.eqb (sweeping h tb) was then [] else [Sweep cyc h (sweeping h tb)]
  | None => []
  end.
Definition tr_events (h : Z) (v : tr_hart) (tb : Vsystem) (cyc : Z) : list tr_event :=
  tr_icache h v tb cyc ++ tr_ifill h v tb cyc ++ tr_dcache h v tb cyc ++ tr_walkerwb h v tb cyc ++ tr_evictwb h v tb cyc ++ tr_sweep h v tb cyc.
(** The [prev] variables: each is set when it differs. *)
Definition tr_next (h : Z) (v : tr_hart) (tb : Vsystem) : tr_hart :=
  mkth (if decide (icache_at h tb = iprev v) then iprev v else icache_at h tb)
    (if ifill_at h tb =? iprev_fill v then iprev_fill v else ifill_at h tb)
    (if decide (tr_ways h tb = dprev v) then dprev v else tr_ways h tb)
    (if decide (Some (tr_holds WALKER_WB h tb) = tr_wwb v) then tr_wwb v else Some (tr_holds WALKER_WB h tb))
    (if decide (Some (tr_holds EVICT_WB h tb) = tr_wb v) then tr_wb v else Some (tr_holds EVICT_WB h tb))
    (if decide (Some (sweeping h tb) = walkerActive v) then walkerActive v else Some (sweeping h tb)).
Definition tr_look (tb : Vsystem) (cyc : Z) (s : list tr_hart) : list tr_event * list tr_hart :=
  (concat (zip_with (fun h v => tr_events h v tb cyc) four s), zip_with (fun h v => tr_next h v tb) four s).
Definition tr_hart0 : tr_hart := mkth (-1, 0xffffffff, 0xffffffff) (-1) (replicate 4 tw_ones) None None None.
Definition tr_start : list tr_hart := replicate 4 tr_hart0.
Definition tramp_main (ckpt : probe_ckpt) : list (win_event tr_event) :=
  snd (window_main FROM TO 5000000 tr_look (k_tb ckpt) (k_cyc ckpt) tr_start).

Definition tr_seen (tb : Vsystem) (h : Z) : tr_hart :=
  mkth (icache_at h tb) (ifill_at h tb) (tr_ways h tb) (Some (tr_holds WALKER_WB h tb)) (Some (tr_holds EVICT_WB h tb)) (Some (sweeping h tb)).
Lemma tr_next_seen h v tb : tr_next h v tb = tr_seen tb h.
Proof.
  unfold tr_next, tr_seen. f_equal; try (destruct (decide _); congruence). destruct (Z.eqb_spec (ifill_at h tb) (iprev_fill v)); congruence.
Qed.

(** What hart [h] was seen to be at the look before, and what is printed at look [k]. *)
Definition tr_before (ckpt : probe_ckpt) (h : Z) (k : nat) : tr_hart :=
  match k with O => tr_hart0 | S j => if FROM <=? k_cyc ckpt + Z.of_nat j then tr_seen (eval (after (k_tb ckpt) j)) h else tr_hart0 end.
Definition tr_log (ckpt : probe_ckpt) (k : nat) : list tr_event :=
  if FROM <=? k_cyc ckpt + Z.of_nat k
  then flat_map (fun h => tr_events h (tr_before ckpt h k) (eval (after (k_tb ckpt) k)) (k_cyc ckpt + Z.of_nat k)) four else [].

(** The log, hart by hart and cycle by cycle of the window, is what differs from the cycle before. *)
Theorem tramp_log ckpt : 0 <= k_cyc ckpt <= TO -> TO < 2 ^ 63 ->
  seen (tramp_main ckpt) = flat_map (tr_log ckpt) (seq 0 (looks TO (k_cyc ckpt))).
Proof.
  intros Hc HT. unfold tramp_main.
  pose proof (window_upto FROM TO 5000000 tr_look (k_tb ckpt) (k_cyc ckpt)
    (fun k s l => s = map (fun h => tr_before ckpt h k) four /\ l = flat_map (tr_log ckpt) (seq 0 k)) tr_start Hc HT (conj eq_refl eq_refl)) as R.
  match type of R with (?A -> _) => assert (HA : A) end.
  { intros j s l Hj [-> ->]. unfold looks in Hj. rewrite seq_S, flat_map_app. cbn [flat_map Nat.add]. rewrite app_nil_r. unfold in_span.
    destruct (Z.ltb_spec (k_cyc ckpt + Z.of_nat j) TO); [|lia]. rewrite andb_true_r. destruct (Z.leb_spec FROM (k_cyc ckpt + Z.of_nat j)) as [Hf|Hf].
    - assert (Eb : forall h, tr_before ckpt h (S j) = tr_seen (eval (after (k_tb ckpt) j)) h).
      { intros h. cbn [tr_before]. destruct (Z.leb_spec FROM (k_cyc ckpt + Z.of_nat j)); [reflexivity|lia]. }
      assert (El : tr_log ckpt j = flat_map (fun h => tr_events h (tr_before ckpt h j) (eval (after (k_tb ckpt) j)) (k_cyc ckpt + Z.of_nat j)) four).
      { unfold tr_log. destruct (Z.leb_spec FROM (k_cyc ckpt + Z.of_nat j)); [reflexivity|lia]. }
      rewrite El. unfold tr_look. split.
      + cbn [map four zip_with]. rewrite !Eb, !tr_next_seen. reflexivity.
      + f_equal.
    - assert (Eb : forall h, tr_before ckpt h (S j) = tr_before ckpt h j).
      { intros h. cbn [tr_before]. destruct (Z.leb_spec FROM (k_cyc ckpt + Z.of_nat j)); [lia|]. destruct j as [|i]; [reflexivity|].
        cbn [tr_before]. destruct (Z.leb_spec FROM (k_cyc ckpt + Z.of_nat i)); [lia|reflexivity]. }
      assert (El : tr_log ckpt j = []) by (unfold tr_log; destruct (Z.leb_spec FROM (k_cyc ckpt + Z.of_nat j)); [lia|reflexivity]).
      rewrite El. split; [cbn [map four]; rewrite !Eb; reflexivity|reflexivity]. }
  specialize (R HA). destruct (window_main _ _ _ _ _ _ _) as [[[tb' cyc'] s'] log]. exact (proj2 (proj2 R)).
Qed.

(** A fetch from the watched line cannot become wrong unseen: in a look at which the line is
    valid with the watched tag and was not with the same word, a line says so and gives the word. *)
Lemma tramp_icache_seen h v tb cyc iv iw : icache_at h tb = (iv, itag, iw) -> iv <> 0 -> iprev v <> (iv, itag, iw) ->
  In (ICache cyc h iv itag iw (Some (iw =? 0))) (tr_events h v tb cyc).
Proof.
  intros E Hv Hp. unfold tr_events. apply in_app_iff. left. unfold tr_icache. rewrite E. destruct (iprev v) as [[pv pt] pw].
  rewrite decide_False by congruence. rewrite Z.eqb_refl. destruct (Z.eqb_spec iv 0); [contradiction|]. cbn. now left.
Qed.
End Tramp.
