(* ===== verification/Triggers.v ===== *)
(** * Probes that run up to a trigger: the corrupted loop bound of [mt-ipitmr], a pinned interrupt

    [ipitmr_ctx_probe.cpp], [ipitmr_loop_probe.cpp] and [rob_integrity_probe.cpp] keep a ring
    of events until the branch that closes a loop is latched with an operand past its bound.
    [msip_arb_probe.cpp] and [inject_fsm_probe.cpp] wait for a software interrupt that stays
    pending and trace what follows. [ipi_hang_probe.cpp] and [llist_stall_probe.cpp] are tracers
    with a periodic snapshot, and a histogram. An event is the values of a line. *)

From Stdlib Require Import String Ascii.
From stdpp Require Import sorting.
From S2P Require Import Prelude Rtl Firesim Watch Probes Pending Tracer Branches.

(** ** A ring of events until a trigger *)

Record trig_state (V E : Type) := mktrig { t_prev : V; t_ring : ring E; t_fired : bool }.
Arguments mktrig {V E} _ _ _.
Arguments t_prev {V E} _.
Arguments t_ring {V E} _.
Arguments t_fired {V E} _.

Section Trigger.
Context `{Model} {V E : Type} (RING : nat) (fill : E) (view : Vsystem -> V) (v0 : V).
(** What a look pushes, given what the look before saw, and whether it fires. *)
Context (events : V -> Vsystem -> Z -> list E) (fires : V -> Vsystem -> bool) (END : Z).

Definition push_all (es : list E) (r : ring E) : ring E := fold_left (fun r e => rb_push RING e r) es r.
Definition trig_step (pre tb : Vsystem) (cyc : Z) (s : trig_state V E) : list Empty_set * trig_state V E :=
  ([], mktrig (view tb) (push_all (events (t_prev s) tb cyc) (t_ring s)) (t_fired s || fires (t_prev s) tb)).
Definition trig_more (cyc : Z) (s : trig_state V E) : bool := (cyc <? END) && negb (t_fired s).
Definition trig_start : trig_state V E := mktrig v0 (ring_new RING fill) false.
(** The cycle of the end, and the rows when the trigger fired; [None]: a negative index. *)
Definition trig_main (KEEP : nat) (tb : Vsystem) : Z * option (list (option E)) :=
  let '((_, cyc, s), _) := trace_run trig_more trig_step (looks END 0) tb 0 trig_start in
  (cyc, if t_fired s then Some (ring_back RING fill KEEP (t_ring s)) else None).

Context (tb0 : Vsystem).
Definition pushed_at (k : nat) : list E := events (view_at view v0 tb0 (k - 1)) (after tb0 k) (Z.of_nat k).
Definition fired_by (k : nat) : bool := fires (view_at view v0 tb0 (k - 1)) (after tb0 k).

Lemma push_all_holds es : forall r l, (0 < RING)%nat -> holds RING r l -> holds RING (push_all es r) (l ++ es).
Proof.
  induction es as [|e es IH]; intros r l HR Hr; [rewrite app_nil_r; exact Hr|]. cbn [push_all fold_left].
  change (e :: es) with ([e] ++ es). rewrite app_assoc. apply IH; [exact HR|]. apply ring_push_holds; assumption.
Qed.

(** The run ends at the first look that fires and lists the last events up to it; or it
    reaches [END], and no look fires. *)
Theorem trigger_exact KEEP : 0 <= END < 2 ^ 63 -> (0 < RING)%nat -> (KEEP <= RING)%nat ->
  match trig_main KEEP tb0 with
  | (cyc, Some rows) => exists k, cyc = Z.of_nat k /\ (1 <= k <= Z.to_nat END)%nat /\ fired_by k = true /\ (forall j, (1 <= j < k)%nat -> fired_by j = false) /\
      rows = map Some (lastn KEEP (flat_map pushed_at (seq 1 k)))
  | (cyc, None) => cyc = END /\ forall j, (1 <= j <= Z.to_nat END)%nat -> fired_by j = false
  end.
Proof.
  change (2 ^ 63) with 9223372036854775808. intros HE HR HK. unfold trig_main.
  set (P := fun k s (_ : list Empty_set) => t_prev s = view_at view v0 tb0 k /\ holds RING (t_ring s) (flat_map pushed_at (seq 1 k)) /\
    (forall j, (1 <= j < k)%nat -> fired_by j = false) /\ t_fired s = (0 <? k)%nat && fired_by k).
  pose proof (trace_run_inv trig_more trig_step tb0 P (looks END 0) 0 trig_start []) as R. unfold looks in *.
  replace (Z.to_nat (END - 0)) with (Z.to_nat END) in * by (f_equal; lia). change (2 ^ 64) with 18446744073709551616 in R. specialize (R ltac:(lia)).
  match type of R with (?A -> _) => assert (HA : A) end.
  { split; [reflexivity|]. split; [apply ring_new_holds|]. split; [intros; lia|reflexivity]. }
  specialize (R HA). clear HA. match type of R with (?A -> _) => assert (HA : A) end.
  { intros j s l _ Hm (Hv & Hr & Hf & Ht). unfold trig_step. unfold trig_more in Hm. apply andb_true_iff in Hm as [_ Hm]. apply negb_true_iff in Hm.
    cbn [t_prev t_ring t_fired]. unfold P. cbn [t_prev t_ring t_fired]. rewrite Hm, Hv. split; [reflexivity|].
    assert (Ev : view_at view v0 tb0 j = view_at view v0 tb0 (S j - 1)) by (f_equal; lia). split; [|split].
    - rewrite seq_S, flat_map_app. cbn [flat_map Nat.add]. rewrite app_nil_r. unfold pushed_at at 2. rewrite <- Ev. apply push_all_holds; assumption.
    - intros i Hi. destruct (Nat.eq_dec i j) as [->|]; [|apply Hf; lia]. rewrite Hm in Ht. destruct (Nat.ltb_spec 0 j); [|lia]. symmetry. exact Ht.
    - unfold fired_by. rewrite <- Ev. reflexivity. }
  specialize (R HA). change (after tb0 0) with tb0 in R. change (Z.of_nat 0) with 0 in R. destruct (trace_run _ _ _ _ _ _) as [[[tb' cyc'] s'] log].
  destruct R as (k & Hk & _ & -> & (Hv & Hr & Hf & Ht) & Hend). destruct (t_fired s') eqn:Es.
  - symmetry in Ht. apply andb_true_iff in Ht as [Hk0 Ht]. apply Nat.ltb_lt in Hk0. exists k. split; [reflexivity|]. split; [lia|]. split; [exact Ht|]. split; [exact Hf|].
    apply ring_back_last; assumption.
  - assert (Ek : k = Z.to_nat END).
    { destruct Hend as [Hend|Hend]; [lia|]. unfold trig_more in Hend. rewrite Es, andb_true_r in Hend. apply Z.ltb_ge in Hend. lia. }
    split; [lia|]. intros j Hj. destruct (Nat.eq_dec j k) as [->|]; [|apply Hf; lia]. destruct (Nat.ltb_spec 0 k); [|lia]. symmetry. exact Ht.
Qed.
End Trigger.

(** ** The three probes of the loop *)

Definition INSN_BNE : Z := 0xff0710e3.
Record CtxEv := mkctx { x_cyc : Z; x_pc : Z; x_a4 : Z; x_a6 : Z; x_sp : Z; x_mepc : Z; x_mcause : Z; x_mstatus : Z; x_rs1 : Z; x_injSt : Z; x_brCnt : Z; x_latch : bool }.
Inductive loop_kind := LiA4 | LiA6 | Addiw | Bne | Body | AfterLoop | Other | BneLatch | EvalRow.
Record LoopEv := mkloop { y_cyc : Z; y_kind : loop_kind; y_pc : Z; y_a4 : Z; y_a6 : Z; y_rs1 : Z; y_rs2 : Z; y_nextPC : Z; y_nets : list Z }.
Record RobEv := mkrobev { z_cyc : Z; z_pc : Z; z_a4 : Z; z_fired : Z; z_nets : list Z; z_next : Z; z_latch : bool }.

Section Loops.
Context `{Model} `{!Netlist}.

(** The branch of the loop becomes valid in the branch unit, and with an operand past the bound. *)
Definition biv (tb : Vsystem) : Z := N0 "branchInstruction_valid" tb.
Definition latched (prev_biv : Z) (tb : Vsystem) : bool :=
  negb (biv tb =? 0) && (prev_biv =? 0) && (N0 "branchInstruction_instruction" tb =? INSN_BNE).
Definition past_bound (tb : Vsystem) : bool :=
  let rs1 := C0 "branchInstruction_rs1" tb in (5 <=? rs1) && (rs1 <? 0x100000).

(** [ipitmr_ctx_probe.cpp] *)
Definition ctx_event (latch : bool) (tb : Vsystem) (cyc : Z) : CtxEv :=
  let c := core tb 0 in
  mkctx cyc (robpc tb 0) (registersOut c 14) (registersOut c 16) (registersOut c 2) (decode_mepc c) (decode_mcause c) (C0 "decode__DOT__mstatus" tb)
    (C0 "branchInstruction_rs1" tb) (s32 (C0 "interruptInjectStatus" tb)) (s32 (C0 "branchCounter" tb)) latch.
Definition CtxEv0 : CtxEv := mkctx 0 0 0 0 0 0 0 0 0 0 0 false.
Definition ctx_view (tb : Vsystem) : Z * Z := (robpc tb 0, biv tb).
Definition ctx_events (v : Z * Z) (tb : Vsystem) (cyc : Z) : list CtxEv :=
  (if robpc tb 0 =? v.1 then [] else [ctx_event false tb cyc]) ++ (if latched v.2 tb then [ctx_event true tb cyc] else []).
Definition loop_fires (v : Z * Z) (tb : Vsystem) : bool := latched v.2 tb && past_bound tb.
Definition RING_CTX : nat := Z.to_nat 32768.
Definition ipitmr_ctx_main (END : Z) : nat -> Vsystem -> Z * option (list (option CtxEv)) :=
  trig_main RING_CTX CtxEv0 ctx_view (0xFFFFFFFFFFFFFFFF, 0) ctx_events loop_fires END.

(** [ipitmr_loop_probe.cpp] *)
Definition PC_LI_A4 : Z := 0x80000440.
Definition PC_LI_A6 : Z := 0x80000450.
Definition PC_BODY : Z := 0x80000454.
Definition PC_ADDIW : Z := 0x80000470.
Definition PC_BNE : Z := 0x80000474.
Definition PC_AFTER : Z := 0x80000478.
Definition loop_kind_of (pc : Z) : loop_kind :=
  if pc =? PC_LI_A4 then LiA4 else if pc =? PC_LI_A6 then LiA6 else if pc =? PC_ADDIW then Addiw else if pc =? PC_BNE then Bne
  else if pc =? PC_BODY then Body else if pc =? PC_AFTER then AfterLoop else Other.
Definition loop_event (k : loop_kind) (tb : Vsystem) (cyc : Z) : LoopEv :=
  let c := core tb 0 in
  mkloop cyc k (robpc tb 0) (registersOut c 14) (registersOut c 16) (C0 "branchInstruction_rs1" tb) (C0 "branchInstruction_rs2" tb) (C0 "branchEvals_nextPC" tb)
    (map (fun s => s32 (C0 s tb)) ["branchEvals_passed"; "branchEvals_valid"; "interruptInjectStatus"; "branchCounter"]%string).
Definition LoopEv0 : LoopEv := mkloop 0 Other 0 0 0 0 0 0 [0; 0; 0; 0].
Definition loop_events (v : Z * Z) (tb : Vsystem) (cyc : Z) : list LoopEv :=
  let pc := robpc tb 0 in
  (if negb (pc =? v.1) && (PC_LI_A4 <=? pc) && (pc <=? PC_AFTER) then [loop_event (loop_kind_of pc) tb cyc] else []) ++
  (if latched v.2 tb then [loop_event BneLatch tb cyc] else []) ++
  (if C0 "branchEvals_valid" tb =? 0 then [] else [loop_event EvalRow tb cyc]).
Definition RING_LOOP : nat := Z.to_nat 8192.
Definition ipitmr_loop_main (END : Z) : nat -> Vsystem -> Z * option (list (option LoopEv)) :=
  trig_main RING_LOOP LoopEv0 ctx_view (0, 0) loop_events loop_fires END.

(** [rob_integrity_probe.cpp] *)
Definition rob_event (latch : bool) (tb : Vsystem) (cyc : Z) : RobEv :=
  mkrobev cyc (robpc tb 0) (registersOut (core tb 0) 14) (u32 (commitFired (core tb 0)))
    (map (fun s => N0 s tb) ["rob__DOT__fifo__DOT__readPtr"; "rob__DOT__fifo__DOT__writePtr"; "rob__DOT__fifo__DOT__emptyReg"; "rob__DOT__fifo__DOT__fullReg"; "branchEvals_valid";
       "branchEvals_passed"; "branchEvals_robAddr"; "branchInstruction_valid"; "branchInstruction_robAddr"; "interruptInjectStatus"; "branchCounter"]%string)
    (C0 "branchEvals_nextPC" tb) latch.
Definition RobEv0 : RobEv := mkrobev 0 0 0 0 (repeat 0 11) 0 false.
Definition rob_ptrs (tb : Vsystem) : Z * Z := (N0 "rob__DOT__fifo__DOT__readPtr" tb, N0 "rob__DOT__fifo__DOT__writePtr" tb).
Definition rob_view (tb : Vsystem) : (Z * Z * Z) * Z := (robpc tb 0, (rob_ptrs tb).1, (rob_ptrs tb).2, biv tb).
Definition rob_events (v : (Z * Z * Z) * Z) (tb : Vsystem) (cyc : Z) : list RobEv :=
  (if decide ((rob_view tb).1 = v.1) then (if C0 "branchEvals_valid" tb =? 0 then [] else [rob_event false tb cyc]) else [rob_event false tb cyc]) ++
  (if latched v.2 tb then [rob_event true tb cyc] else []).
Definition rob_fires (v : (Z * Z * Z) * Z) (tb : Vsystem) : bool := latched v.2 tb && past_bound tb.
Definition RING_ROB : nat := Z.to_nat 65536.
Definition rob_integrity_main (END : Z) : nat -> Vsystem -> Z * option (list (option RobEv)) :=
  trig_main RING_ROB RobEv0 rob_view ((0xFFFFFFFFFFFFFFFF, 0xFFFFFFFF, 0xFFFFFFFF), 0) rob_events rob_fires END.

(** In particular the last row of the ring when [ipitmr_ctx_probe] stops is the latch that stopped it. *)
Lemma ctx_last_row v tb cyc : loop_fires v tb = true -> exists es, ctx_events v tb cyc = es ++ [ctx_event true tb cyc].
Proof.
  unfold loop_fires, ctx_events. intros Hf. apply andb_true_iff in Hf as [-> _]. eexists. reflexivity.
Qed.
End Loops.

(** ** [msip_arb_probe.cpp] *)

Record arb_row := mkarb { ar_cyc : Z; ar_writes : list bool; ar_before : Z; ar_after : Z; ar_pc : Z; ar_canSoft : Z }.
Record arb_sums := mkarbs { arb_clr : Z; arb_set : Z; drops_to_0 : Z }.
Inductive arb_outcome := ArbQuiet (cyc : Z) | ArbWedge (cyc pinned : Z) (rows : list arb_row) (sums : arb_sums).

Section MsipArb.
Context `{Model} `{!Netlist} (THRESHOLD : Z).

Definition msipShared0 (tb : Vsystem) : Z := msip_cur tb 0.
Definition wr_hart0 (u : string) (tb : Vsystem) : bool :=
  negb (PERIPH ("uart" ++ u ++ "_msipWrite_valid")%string tb =? 0) && (PERIPH ("uart" ++ u ++ "_msipWrite_hart")%string tb =? 0).
(** [set_since] and [prev]; the progress lines. *)
Record arb_state := mkarbst { arb_since : Z; arb_prev : Z; arb_prog : list (Z * Z) }.
Definition arb_look (tb : Vsystem) (cyc : Z) (s : arb_state) : option Z * arb_state :=
  let m0 := msipShared0 tb in
  let since := if (m0 =? 1) && (arb_prev s =? 0) then cyc else arb_since s in
  if (m0 =? 1) && (THRESHOLD <? u64 (cyc - since)) then (Some (u64 (cyc - since)), mkarbst since m0 (arb_prog s))
  else (None, mkarbst since m0 (if cyc mod 5000000 =? 0 then arb_prog s ++ [(cyc, m0)] else arb_prog s)).
(** A cycle of the trace: the two reads of the level are of the same net, after the same edge. *)
Definition arb_cycle (tb : Vsystem) (cyc : Z) (n : arb_sums) : list arb_row * arb_sums :=
  let before := msipShared0 tb in
  let w := map (fun u => wr_hart0 u tb) ["0"; "1"; "2"; "3"]%string in
  let after := msipShared0 tb in
  let w0 := wr_hart0 "0" tb in
  let peers := wr_hart0 "1" tb || wr_hart0 "2" tb || wr_hart0 "3" tb in
  (if w0 || peers then [mkarb cyc w before after (robpc tb 0) (s32 (CORE_RAW "decode_canTakeSoftInterrupt" tb 0))] else [],
   mkarbs (if w0 then u64 (arb_clr n + 1) else arb_clr n) (if peers then u64 (arb_set n + 1) else arb_set n)
     (if (before =? 1) && (after =? 0) then u64 (drops_to_0 n + 1) else drops_to_0 n)).
Fixpoint arb_trace (k : nat) (tb : Vsystem) (cyc : Z) (n : arb_sums) : list arb_row * arb_sums :=
  match k with
  | O => ([], n)
  | S k =>
    let tb := edges (eval tb) in
    let cyc := u64 (cyc + 1) in
    let '(es, n) := arb_cycle tb cyc n in
    let '(log, n) := arb_trace k tb cyc n in (es ++ log, n)
  end.
Definition arb_run (END : Z) (tb : Vsystem) : option Z * (Vsystem * Z * arb_state) :=
  post_loop (fun cyc => cyc <? END) arb_look (looks END 0) tb 0 (mkarbst 0 0 []).
Definition msip_arb_main (END : Z) (TRACE : nat) (tb : Vsystem) : Z * arb_outcome :=
  match arb_run END tb with
  | (None, (_, cyc, _)) => (0, ArbQuiet cyc)
  | (Some d, (tb, cyc, _)) => let '(rows, n) := arb_trace TRACE tb cyc (mkarbs 0 0 0) in (7, ArbWedge cyc d rows n)
  end.

(** The two sums of writes are the numbers of cycles of the trace with a write of hart 0 and
    of a peer; the number of transitions from 1 to 0 is 0, whatever the level did. *)
Theorem arb_trace_sums k tb cyc : Z.of_nat k < 2 ^ 64 ->
  snd (arb_trace k tb cyc (mkarbs 0 0 0)) =
  mkarbs (tallied (fun j => wr_hart0 "0" (after tb j)) k) (tallied (fun j => wr_hart0 "1" (after tb j) || wr_hart0 "2" (after tb j) || wr_hart0 "3" (after tb j)) k) 0.
Proof.
  change (2 ^ 64) with 18446744073709551616. intros Hk.
  set (clr := fun j => wr_hart0 "0" (after tb j)). set (peers := fun j => wr_hart0 "1" (after tb j) || wr_hart0 "2" (after tb j) || wr_hart0 "3" (after tb j)).
  assert (G : forall m i c, (i + m)%nat = k -> snd (arb_trace m (after tb i) c (mkarbs (tallied clr i) (tallied peers i) 0)) = mkarbs (tallied clr k) (tallied peers k) 0).
  { induction m as [|m IH]; intros i c Hi; cbn [arb_trace]; [replace i with k by lia; reflexivity|]. cbv zeta. rewrite <- after_S. unfold arb_cycle. cbv zeta.
    cbn [arb_clr arb_set drops_to_0]. destruct (Z.eqb_spec (msipShared0 (after tb (S i))) 1) as [E1|E1]; [destruct (Z.eqb_spec (msipShared0 (after tb (S i))) 0); [lia|]|]; cbn [andb].
    all: change (wr_hart0 "0" (after tb (S i))) with (clr (S i)); change (wr_hart0 "1" (after tb (S i)) || wr_hart0 "2" (after tb (S i)) || wr_hart0 "3" (after tb (S i))) with (peers (S i)).
    all: rewrite !(tallied_step _ i) by (reflexivity || (change (2 ^ 64) with 18446744073709551616; lia)).
    all: specialize (IH (S i) (u64 (c + 1)) ltac:(lia)); destruct (arb_trace m _ _ _) as [log1 n1]; exact IH. }
  apply (G k 0%nat cyc). reflexivity.
Qed.
End MsipArb.

(** ** [inject_fsm_probe.cpp] *)

Inductive fsm_outcome := FsmQuiet (cyc : Z) | FsmWedge (cyc : Z) (hart : nat) (pending : Z) (rows : list (list Z)).

Section InjectFsm.
Context `{Model} `{!Netlist} (THRESHOLD : Z).

Definition fsm_step (tb : Vsystem) (cyc : Z) (h : nat) (w : msip_watch) : msip_watch :=
  let m := msip_cur tb h in
  mkmsip (if negb (m =? 0) && (msip_prev w =? 0) then cyc else msip_set_since w) m.
Definition fsm_late (tb : Vsystem) (cyc : Z) (l : list msip_watch) (h : nat) : bool :=
  match l !! h with
  | Some w => negb (msip_cur tb h =? 0) && negb (msip_set_since w =? 0) && (THRESHOLD <? u64 (cyc - msip_set_since w))
  | None => false
  end.
(** The first hart that is late is the wedged one. *)
Definition fsm_look (tb : Vsystem) (cyc : Z) (l : list msip_watch) : option nat * list msip_watch :=
  let l := imap (fsm_step tb cyc) l in (List.find (fsm_late tb cyc l) harts4, l).
(** A row when the signature changes and every 500 cycles; the row after [most] ends the trace. *)
Fixpoint fsm_trace (most n : nat) (h : Z) (tb : Vsystem) (cyc i prev_sig : Z) (printed : nat) : list (list Z) :=
  match n with
  | O => []
  | S n =>
    let tb := edges (eval tb) in
    let cyc := u64 (cyc + 1) in
    let sig := signature tb h in
    if negb (sig =? prev_sig) || (i mod 500 =? 0)
    then inj_row tb cyc h :: (if (most <? S printed)%nat then [] else fsm_trace most n h tb cyc (i + 1) sig (S printed))
    else fsm_trace most n h tb cyc (i + 1) sig printed
  end.
Definition fsm_run (END : Z) (tb : Vsystem) : option nat * (Vsystem * Z * list msip_watch) :=
  post_loop (fun cyc => cyc <? END) fsm_look (looks END 0) tb 0 (replicate 4 (mkmsip 0 0)).
Definition inject_fsm_main (END : Z) (WINDOW : nat) (tb : Vsystem) : fsm_outcome :=
  match fsm_run END tb with
  | (None, (_, cyc, _)) => FsmQuiet cyc
  | (Some h, (tb, cyc, l)) =>
    FsmWedge cyc h (match l !! h with Some w => u64 (cyc - msip_set_since w) | None => 0 end)
      (fsm_trace 400 WINDOW (Z.of_nat h) tb cyc 0 0xFFFFFFFFFFFFFFFF 0)
  end.

Lemma fsm_trace_most most n h tb : forall cyc i sig printed, (printed <= most)%nat ->
  (length (fsm_trace most n h tb cyc i sig printed) + printed <= S most)%nat.
Proof.
  revert tb. induction n as [|n IH]; intros tb cyc i sig printed Hp; cbn [fsm_trace]; [cbn; lia|]. cbv zeta. destruct (_ || _).
  - cbn [length]. destruct (Nat.ltb_spec most (S printed)); [cbn; lia|]. specialize (IH (edges (eval tb)) (u64 (cyc + 1)) (i + 1) (signature (edges (eval tb)) h) (S printed) ltac:(lia)). lia.
  - apply IH. exact Hp.
Qed.

Context (tb0 : Vsystem).
Notation seen := (after tb0).
Definition pends (h k : nat) : bool := negb (msip_cur (seen k) h =? 0).
Definition overdue (h k : nat) : Prop := raised (pends h) (Z.to_nat THRESHOLD + 2) k.
Definition fsm_at (k : nat) (l : list msip_watch) : Prop :=
  length l = 4%nat /\ forall h w, l !! h = Some w -> marks (pends h) 0 k (msip_set_since w) /\ (msip_prev w =? 0) = negb (was_up (pends h) k).

Lemma fsm_watched k l : fsm_at k l -> fsm_at (S k) (imap (fsm_step (seen (S k)) (Z.of_nat (S k))) l).
Proof.
  intros [Hlen Hl]. split; [rewrite length_imap; exact Hlen|]. intros h w. rewrite list_lookup_imap. destruct (l !! h) as [w0|] eqn:E; [|discriminate].
  intros Ew. apply (inj Some) in Ew as <-. destruct (Hl h w0 E) as (M & P). unfold fsm_step. cbn [msip_set_since msip_prev].
  split; [rewrite P; exact (marks_step (pends h) 0 k _ M)|]. exact (eq_sym (negb_involutive _)).
Qed.
Lemma fsm_late_iff k l h : 0 <= THRESHOLD -> Z.of_nat k < 2 ^ 64 -> fsm_at k l -> In h harts4 -> (1 <= k)%nat ->
  fsm_late (seen k) (Z.of_nat k) l h = true <-> overdue h k.
Proof.
  change (2 ^ 64) with 18446744073709551616. intros HT Hlt [Hlen Hl] Hin Hk. apply harts4_lt in Hin. unfold fsm_late, overdue.
  destruct (l !! h) as [w|] eqn:E; [|apply lookup_ge_None in E; lia]. destruct (Hl h w E) as (M & _). rewrite <- uptime_raised.
  change (negb (msip_cur (seen k) h =? 0)) with (pends h k). destruct k as [|k]; [lia|]. unfold marks in M. cbn [uptime] in M |- *.
  destruct (pends h (S k)); [|cbn [andb]; split; [discriminate|lia]]. rewrite (M _ eq_refl). pose proof (uptime_le (pends h) k). rewrite andb_true_l.
  destruct (Z.eqb_spec (0 + Z.of_nat (S k - uptime (pends h) k)) 0); [lia|]. rewrite andb_true_l, u64_id, Z.ltb_lt by (unfold is_u64; lia). lia.
Qed.

(** The probe traces a hart at the first cycle at which its software interrupt has been
    pending for more than [THRESHOLD] cycles, at most 401 rows of it, and says that there is no
    wedge exactly when there is no such cycle. *)
Theorem inject_fsm_exact END WINDOW : 0 <= THRESHOLD -> 0 <= END < 2 ^ 64 ->
  match inject_fsm_main END WINDOW tb0 with
  | FsmQuiet cyc => cyc = END /\ forall k h, (k <= Z.to_nat END)%nat -> In h harts4 -> ~ overdue h k
  | FsmWedge cyc h _ rows => exists k, (1 <= k <= Z.to_nat END)%nat /\ cyc = Z.of_nat k /\ In h harts4 /\ overdue h k /\
      (forall j g, (j < k)%nat -> In g harts4 -> ~ overdue g j) /\ (length rows <= 401)%nat
  end.
Proof.
  intros HT HE. unfold inject_fsm_main, fsm_run, looks. rewrite Z.sub_0_r. change (2 ^ 64) with 18446744073709551616 in HE.
  set (P := fun (k : nat) l => fsm_at k l /\ forall j h, (j <= k)%nat -> In h harts4 -> ~ overdue h j).
  pose proof (post_loop_ran (fun cyc => cyc <? END) fsm_look tb0 0 P (Z.to_nat END) 0 (replicate 4 (mkmsip 0 0))) as Hr.
  rewrite Z.add_0_l in Hr. change (Z.of_nat 0) with 0 in Hr. change (after tb0 0) with tb0 in Hr.
  assert (HP0 : P 0%nat (replicate 4 (mkmsip 0 0))).
  { split; [split; [reflexivity|]|intros j h Hj _ [Hl _]; lia]. intros h w Hw. apply (lookup_replicate 4) in Hw as [-> _]. split; [apply marks_start|reflexivity]. }
  assert (Hlook : forall j l, (j < Z.to_nat END)%nat -> P j l -> let '(r, l') := fsm_look (seen (S j)) (Z.of_nat (S j)) l in
    match r with None => P (S j) l' | Some h => In h harts4 /\ overdue h (S j) end).
  { intros j l Hj [Hw Hn]. unfold fsm_look. cbv zeta. apply fsm_watched in Hw. set (l1 := imap _ l) in *. clearbody l1.
    pose proof (fun h Hin => fsm_late_iff (S j) l1 h HT ltac:(change (2 ^ 64) with 18446744073709551616; lia) Hw Hin ltac:(lia)) as Hlate.
    pose proof (find_first (fsm_late (seen (S j)) (Z.of_nat (S j)) l1) harts4) as Hf. destruct (List.find _ harts4) as [h|].
    - destruct Hf as [Hin Hf]. split; [exact Hin|]. apply Hlate; assumption.
    - split; [exact Hw|]. intros i h Hi Hin. destruct (Nat.eq_dec i (S j)) as [->|]; [|apply Hn; [lia|exact Hin]]. rewrite <- Hlate by exact Hin. rewrite Hf by exact Hin. discriminate. }
  specialize (Hr ltac:(lia) ltac:(change (2 ^ 64) with 18446744073709551616; lia) ltac:(intros j Hj; apply Z.ltb_lt; lia) HP0).
  specialize (Hr ltac:(intros j l Hj HP; rewrite Z.add_0_l; pose proof (Hlook j l ltac:(lia) HP) as Hs; destruct (fsm_look _ _ _); intros ->; exact Hs)).
  destruct (post_loop _ _ _ _ _ _) as [[h|] [[tb cyc] l]].
  - destruct Hr as (j & l1 & Hj & -> & -> & HP & El). rewrite Z.add_0_l in *. pose proof (Hlook j l1 ltac:(lia) HP) as Hs. rewrite El in Hs. destruct Hs as [Hin Hl].
    exists (S j). split; [lia|]. split; [reflexivity|]. split; [exact Hin|]. split; [exact Hl|]. destruct HP as [_ Hn]. split; [intros i g Hi; apply Hn; lia|].
    match goal with |- context [fsm_trace ?a ?b ?c ?d ?e ?f ?g 0] => pose proof (fsm_trace_most a b c d e f g 0 ltac:(lia)) end. lia.
  - destruct Hr as (_ & -> & _ & Hn). rewrite Nat.add_0_l in *. split; [lia|exact Hn].
Qed.
End InjectFsm.

(** ** [ipi_hang_probe.cpp] *)

Inductive ipi_hang_event :=
| Console (cyc : Z) (line : list Z)
| MsipEdge (cyc : Z) (hart : nat) (old new : Z) (pcs : list Z) (dump : list (list Z))
| SoftTrap (cyc : Z) (hart : nat) (mepc : Z)
| IpiProg (cyc : Z) (pcs : list Z)
| IpiSnap (cyc : Z) (pcs : list Z) (dump ipi_data : list (list Z)).
Definition is_edge (e : ipi_hang_event) : bool := match e with MsipEdge _ _ _ _ _ _ | SoftTrap _ _ _ => true | _ => false end.
Record ipi_hang_state := mkih { ih_msip : list Z; ih_mcause : list Z; ih_tx : list bool; ih_line : list Z; ih_next : Z }.
Definition IPI_DATA_VA : Z := 0x806b0000.

Section IpiHang.
Context `{Model} `{!Netlist} (STEP : Z).

Definition hang_pcs (tb : Vsystem) : list Z := map (robpc tb) four.
Definition hang_core (tb : Vsystem) (n : Z) : list Z :=
  robpc tb n ::
  map (fun s => CORE_RAW s tb n) ["interruptInjectStatus"; "injectingSoftwareInterrupt"; "decode_canTakeInterrupt"; "decode_canTakeSoftInterrupt"; "branchCounter";
     "mExtensionReady"; "extnMRequest_valid"; "memAccess__DOT__arbiter__DOT__atomicBusyState"; "decode__DOT__mstatus"; "decode__DOT__mie"]%string ++
  [decode_mcause (core tb n); decode_mepc (core tb n)].
Definition hang_cores (tb : Vsystem) : list (list Z) := map (msip_cur tb) harts4 :: map (hang_core tb) four.
(** The console: port by port, a byte when the port becomes valid. *)
Definition hang_port (tb : Vsystem) (cyc : Z) (x : list Z * list ipi_hang_event) (p : nat * bool) : list Z * list ipi_hang_event :=
  let '(line, es) := x in
  let c := core tb (Z.of_nat p.1) in
  if negb (OutChar_valid c =? 0) && negb p.2
  then let '(line, lines) := con_char (line, []) (u8 (OutChar_byte c)) in (line, es ++ map (Console cyc) lines)
  else x.
Definition hang_tx (tb : Vsystem) : list bool := map (fun p => negb (OutChar_valid (core tb (Z.of_nat p)) =? 0)) harts4.
Definition msip_edge (tb : Vsystem) (cyc : Z) (old : list Z) (h : nat) : list ipi_hang_event :=
  let was := default 0 (old !! h) in
  if msip_cur tb h =? was then [] else [MsipEdge cyc h was (msip_cur tb h) (hang_pcs tb) (hang_cores tb)].
Definition mcause_of (tb : Vsystem) (h : nat) : Z := decode_mcause (core tb (Z.of_nat h)).
Definition soft_trap (tb : Vsystem) (cyc : Z) (old : list Z) (h : nat) : list ipi_hang_event :=
  if negb (mcause_of tb h =? default 0 (old !! h)) && (mcause_of tb h =? 0x8000000000000003)
  then [SoftTrap cyc h (decode_mepc (core tb (Z.of_nat h)))] else [].
Definition ipi_data (tb : Vsystem) (c : Z) : list Z :=
  let base := IPI_DATA_VA + c * 128 in [read_dram64 (raw tb) (base + 64); read_dram64 (raw tb) (base + 0); read_dram64 (raw tb) (base + 8)].
Definition hang_step (pre tb : Vsystem) (cyc : Z) (s : ipi_hang_state) : list ipi_hang_event * ipi_hang_state :=
  let '(line, con) := fold_left (hang_port tb cyc) (combine harts4 (ih_tx s)) (ih_line s, []) in
  let snap := ih_next s <=? cyc in
  (con ++ flat_map (msip_edge tb cyc (ih_msip s)) harts4 ++ flat_map (soft_trap tb cyc (ih_mcause s)) harts4 ++
   (if cyc mod 10000000 =? 0 then [IpiProg cyc (hang_pcs tb)] else []) ++
   (if snap then [IpiSnap cyc (hang_pcs tb) (hang_cores tb) (map (ipi_data tb) four)] else []),
   mkih (map (msip_cur tb) harts4) (map (mcause_of tb) harts4) (hang_tx tb) line (if snap then u64 (ih_next s + STEP) else ih_next s)).
Definition hang_start (FROM : Z) : ipi_hang_state := mkih (repeat 0 4) (repeat 0 4) (repeat false 4) [] FROM.
Definition ipi_hang_main (FROM END : Z) (tb : Vsystem) : list ipi_hang_event :=
  snd (trace_run (upto END) hang_step (looks END 0) tb 0 (hang_start FROM)).

Definition msips_at (tb0 : Vsystem) (k : nat) : list Z := match k with O => repeat 0 4 | S _ => map (msip_cur (after tb0 k)) harts4 end.
Definition mcauses_at (tb0 : Vsystem) (k : nat) : list Z := match k with O => repeat 0 4 | S _ => map (mcause_of (after tb0 k)) harts4 end.
Definition edges_at (tb0 : Vsystem) (k : nat) : list ipi_hang_event :=
  flat_map (msip_edge (after tb0 k) (Z.of_nat k) (msips_at tb0 (k - 1))) harts4 ++ flat_map (soft_trap (after tb0 k) (Z.of_nat k) (mcauses_at tb0 (k - 1))) harts4.

Lemma filter_all {A} (f : A -> bool) l : Forall (fun a => f a = true) l -> List.filter f l = l.
Proof. intros Hl. induction Hl as [|a l Ha Hl IH]; [reflexivity|]. cbn. rewrite Ha, IH. reflexivity. Qed.
Lemma filter_all_false {A} (f : A -> bool) l : Forall (fun a => f a = false) l -> List.filter f l = [].
Proof. intros Hl. induction Hl as [|a l Ha Hl IH]; [reflexivity|]. cbn. rewrite Ha. exact IH. Qed.
Lemma hang_ports_console tb cyc ps : forall x, Forall (fun e => is_edge e = false) x.2 -> Forall (fun e => is_edge e = false) (fold_left (hang_port tb cyc) ps x).2.
Proof.
  induction ps as [|p ps IH]; intros x Hx; [exact Hx|]. cbn [fold_left]. apply IH. destruct x as [line es]. unfold hang_port.
  destruct (_ && _); [|exact Hx]. destruct (con_char _ _) as [line' lines]. apply Forall_app. split; [exact Hx|]. apply Forall_map. induction lines; constructor; auto.
Qed.

(** The timeline is complete: cycle by cycle it has every change of the software interrupt of a
    hart, then every hart whose trap cause has become that of the software interrupt, in order. *)
Theorem ipi_timeline FROM END tb0 : 0 <= END < 2 ^ 63 ->
  List.filter is_edge (ipi_hang_main FROM END tb0) = flat_map (edges_at tb0) (seq 1 (Z.to_nat END)).
Proof.
  intros HE. unfold ipi_hang_main.
  pose proof (trace_upto hang_step (fun k s l => ih_msip s = msips_at tb0 k /\ ih_mcause s = mcauses_at tb0 k /\
    List.filter is_edge l = flat_map (edges_at tb0) (seq 1 k)) END tb0 (hang_start FROM) HE) as R.
  match type of R with (?A -> _) => assert (HA : A) by (repeat split) end. specialize (R HA). clear HA.
  match type of R with (?A -> _) => assert (HA : A) end.
  { intros j s l Hj (Hm & Hc & Hl). unfold hang_step. pose proof (hang_ports_console (after tb0 (S j)) (Z.of_nat (S j)) (combine harts4 (ih_tx s)) (ih_line s, []) ltac:(constructor)) as Hcon.
    destruct (fold_left _ _ _) as [line con]. cbn [snd] in Hcon. cbv zeta. cbn [ih_msip ih_mcause]. split; [reflexivity|]. split; [reflexivity|].
    rewrite seq_S, flat_map_app, <- Hl, List.filter_app. f_equal. cbn [flat_map Nat.add]. rewrite app_nil_r. unfold edges_at. replace (S j - 1)%nat with j by lia.
    rewrite <- Hm, <- Hc. rewrite !List.filter_app, (filter_all_false _ con Hcon). cbn [app].
    rewrite (filter_all is_edge (flat_map (msip_edge _ _ _) _)), (filter_all is_edge (flat_map (soft_trap _ _ _) _)).
    - destruct (_ =? 0), (_ <=? _); cbn [List.filter is_edge app]; rewrite !app_nil_r; reflexivity.
    - apply Forall_flat_map. repeat constructor; unfold soft_trap; destruct (_ && _); repeat constructor.
    - apply Forall_flat_map. repeat constructor; unfold msip_edge; cbv zeta; destruct (_ =? _); repeat constructor. }
  specialize (R HA). destruct (trace_run _ _ _ _ _ _) as [[[tb' cyc'] s'] log]. exact (proj2 (proj2 (proj2 R))).
Qed.
End IpiHang.

(** ** [llist_stall_probe.cpp] *)

Record stall_hart := mksh { sh_drops : Z; sh_resv : Z; sh_pushes : Z; sh_pc : Z; sh_hist : gmap Z Z }.
Record stall_state := mkss { ss_harts : list stall_hart; ss_drains : Z; ss_next : Z }.
Record stall_report := mkrep { rp_cyc : Z; rp_pushes : list Z; rp_total : Z; rp_drains : Z }.
(** The order of [std::multimap<..., std::greater>] filled from a [std::map]: by falling count,
    then by PC. *)
Definition hotter (a b : Z * Z) : Prop := b.2 < a.2 \/ (b.2 = a.2 /\ a.1 <= b.1).
#[global] Instance hotter_dec : RelDecision hotter.
Proof. intros a b. unfold hotter. apply _. Defined.
Definition top5 (m : gmap Z Z) : list (Z * Z) := firstn 5 (merge_sort hotter (map_to_list m)).

Section LlistStall.
Context `{Model} `{!Netlist} (SAMPLE HIST_FROM PC_PUSH_OK PC_DRAIN REPORT_EVERY : Z).

Definition resv_port (tb : Vsystem) (h : Z) : Z := CORE_RAW "memAccess__DOT__cacheLookup__DOT__reservationRegister_reserved"%string tb h.
Definition pushes_now (tb : Vsystem) (h old_pc : Z) : bool := negb (robpc tb h =? old_pc) && (robpc tb h =? PC_PUSH_OK).
Definition samples (cyc : Z) : bool := (cyc mod SAMPLE =? 0) && (HIST_FROM <=? cyc).
(** The three blocks, for one hart. *)
Definition stall_hart_step (tb : Vsystem) (cyc h : Z) (s : stall_hart) : stall_hart :=
  mksh (if negb (sh_resv s =? 0) && (resv_port tb h =? 0) then u64 (sh_drops s + 1) else sh_drops s) (resv_port tb h)
    (if pushes_now tb h (sh_pc s) then u64 (sh_pushes s + 1) else sh_pushes s) (robpc tb h)
    (if samples cyc then bump (robpc tb h) (sh_hist s) else sh_hist s).
Definition stall_report_of (cyc : Z) (s : stall_state) : stall_report :=
  let p := map sh_pushes (tl (ss_harts s)) in mkrep cyc p (u64 (fold_left Z.add p 0)) (ss_drains s).
Definition llist_stall_step (pre tb : Vsystem) (cyc : Z) (s : stall_state) : list stall_report * stall_state :=
  let old0 := match ss_harts s with s0 :: _ => sh_pc s0 | [] => 0 end in
  let drains := if negb (robpc tb 0 =? old0) && (robpc tb 0 =? PC_DRAIN) then u64 (ss_drains s + 1) else ss_drains s in
  let report := ss_next s <=? cyc in
  let s := mkss (zip_with (stall_hart_step tb cyc) four (ss_harts s)) drains (if report then u64 (ss_next s + REPORT_EVERY) else ss_next s) in
  (if report then [stall_report_of cyc s] else [], s).
Definition stall_hart0 : stall_hart := mksh 0 0 0 0 ∅.
Definition llist_stall_start : stall_state := mkss (replicate 4 stall_hart0) 0 REPORT_EVERY.
(** A hart in the profile: drops, the five PCs with their samples, and the number of samples. *)
Definition stall_profile (s : stall_hart) : Z * list (Z * Z) * Z := (sh_drops s, top5 (sh_hist s), u64 (map_fold (fun _ n t => n + t) 0 (sh_hist s))).
Definition llist_stall_main (END : Z) (tb : Vsystem) : list stall_report * list (Z * list (Z * Z) * Z) :=
  let '((_, _, s), log) := trace_run (upto END) llist_stall_step (looks END 0) tb 0 llist_stall_start in (log, map stall_profile (ss_harts s)).

Definition resv_at (tb0 : Vsystem) (h : Z) (k : nat) : Z := match k with O => 0 | S _ => resv_port (after tb0 k) h end.
Definition pc_at (tb0 : Vsystem) (h : Z) (k : nat) : Z := match k with O => 0 | S _ => robpc (after tb0 k) h end.
Definition stall_hart_at (tb0 : Vsystem) (k : nat) (h : Z) (s : stall_hart) : Prop :=
  sh_drops s = tallied (fun j => negb (resv_at tb0 h (j - 1) =? 0) && (resv_at tb0 h j =? 0)) k /\ sh_resv s = resv_at tb0 h k /\
  sh_pushes s = tallied (fun j => negb (pc_at tb0 h j =? pc_at tb0 h (j - 1)) && (pc_at tb0 h j =? PC_PUSH_OK)) k /\ sh_pc s = pc_at tb0 h k /\
  forall pc, default 0 (sh_hist s !! pc) = tallied (fun j => samples (Z.of_nat j) && (pc_at tb0 h j =? pc)) k.

Lemma stall_hart_step_at tb0 k h s : Z.of_nat (S k) < 2 ^ 64 -> stall_hart_at tb0 k h s -> stall_hart_at tb0 (S k) h (stall_hart_step (after tb0 (S k)) (Z.of_nat (S k)) h s).
Proof.
  intros Hk (Hd & Hr & Hp & Hc & Hh). unfold stall_hart_step, stall_hart_at. cbn [sh_drops sh_resv sh_pushes sh_pc sh_hist].
  assert (Ej : (S k - 1 = k)%nat) by lia. split; [|split; [reflexivity|split; [|split; [reflexivity|]]]].
  - rewrite <- (tallied_step _ k _ Hk Hd). rewrite Ej, <- Hr. reflexivity.
  - rewrite <- (tallied_step _ k _ Hk Hp). unfold pushes_now. rewrite Ej, <- Hc. reflexivity.
  - intros pc. rewrite <- (tallied_step _ k _ Hk (Hh pc)). change (pc_at tb0 h (S k)) with (robpc (after tb0 (S k)) h).
    destruct (samples _); cbn [andb]; [|reflexivity]. unfold bump. destruct (Z.eqb_spec (robpc (after tb0 (S k)) h) pc) as [->|Hne].
    + rewrite lookup_insert_eq. reflexivity.
    + rewrite lookup_insert_ne by exact Hne. reflexivity.
Qed.

(** Of every hart the profile has the number of reservations that went away and, for every PC,
    the number of sampled cycles at which it was there. *)
Theorem llist_stall_counts END tb0 : 0 <= END < 2 ^ 63 ->
  exists l, Forall2 (stall_hart_at tb0 (Z.to_nat END)) four l /\ snd (llist_stall_main END tb0) = map stall_profile l.
Proof.
  intros HE. unfold llist_stall_main.
  pose proof (trace_upto llist_stall_step (fun k s _ => Forall2 (stall_hart_at tb0 k) four (ss_harts s)) END tb0 llist_stall_start HE) as R.
  match type of R with (?A -> _) => assert (HA : A) end.
  { unfold llist_stall_start, four. cbn [ss_harts replicate]. repeat constructor. }
  specialize (R HA). clear HA. match type of R with (?A -> _) => assert (HA : A) end.
  { intros j s l Hj Hs. change (2 ^ 63) with 9223372036854775808 in HE. unfold llist_stall_step. cbv zeta. cbn [ss_harts].
    assert (Hlt : Z.of_nat (S j) < 2 ^ 64) by (change (2 ^ 64) with 18446744073709551616; lia).
    clear -Hs Hlt. induction Hs as [|h s0 hs ss Hh Hs IH]; [constructor|]. cbn [zip_with]. constructor; [apply stall_hart_step_at; assumption|exact IH]. }
  specialize (R HA). destruct (trace_run _ _ _ _ _ _) as [[[tb' cyc'] s'] log]. exists (ss_harts s'). split; [exact (proj2 R)|reflexivity].
Qed.
End LlistStall.
