(* ===== verification/Slots.v ===== *)
(** * Probes of the slots of the ROB and of what completes them

    [robhead_probe.cpp] names the instruction a wedged ROB waits for, [robready_probe.cpp]
    the branches whose ready bit no resolution set, [mextpath_probe.cpp] the unit behind a
    response of the M extension, [periph_squash_probe.cpp] the peripheral responses that
    arrive after a squash, and [mshr_prfdest_probe.cpp] the misses that will write one
    register. An event is the values of a line. *)

From Stdlib Require Import String Ascii.
From S2P Require Import Prelude Rtl Firesim Invariants Watch Pending Tracer Branches.

(** Looks before the edge, numbered from 1: look [j] sees the model after [j - 1] cycles. *)
Definition sees `{Model} (tb0 : Vsystem) (j : nat) : Vsystem := eval (after tb0 (j - 1)).

(** The cycle of the last look up to [k] at which [p] holds, 0 when there is none. *)
Fixpoint last_when (p : nat -> bool) (k : nat) : Z := match k with O => 0 | S k' => if p (S k') then Z.of_nat k' else last_when p k' end.
Lemma last_when_bound p k : 0 <= last_when p k <= Z.of_nat k.
Proof. induction k as [|k IH]; cbn [last_when]; [lia|]. destruct (p (S k)); lia. Qed.
Lemma last_when_spec p k : (exists j, (1 <= j <= k)%nat /\ p j = true /\ last_when p k = Z.of_nat (j - 1) /\ forall i, (j < i <= k)%nat -> p i = false) \/
  (last_when p k = 0 /\ forall i, (1 <= i <= k)%nat -> p i = false).
Proof.
  induction k as [|k IH]; cbn [last_when]; [right; split; [reflexivity|intros; lia]|]. destruct (p (S k)) eqn:E.
  - left. exists (S k). split; [lia|]. split; [exact E|]. split; [f_equal; lia|intros; lia].
  - destruct IH as [(j & Hj & Hp & Hl & Hi)|[Hl Hi]]; [left; exists j|right].
    + split; [lia|]. split; [exact Hp|]. split; [exact Hl|]. intros i Hr. destruct (Nat.eq_dec i (S k)) as [->|]; [exact E|apply Hi; lia].
    + split; [exact Hl|]. intros i Hr. destruct (Nat.eq_dec i (S k)) as [->|]; [exact E|apply Hi; lia].
Qed.

(** ** [robhead_probe.cpp] *)

Inductive op_class := OpLoad | OpStore | OpAmo | OpBranch | OpJalr | OpJal | OpSystem | OpFence | OpMExt | OpReg | OpM32 | OpReg32 | OpImm | OpImm32 | OpLui | OpAuipc | OpNone.
Definition op_class_of (insn : Z) : op_class :=
  let op := Z.land insn 0x7f in
  let mext := Z.shiftr insn 25 =? 1 in
  if op =? 0x03 then OpLoad else if op =? 0x23 then OpStore else if op =? 0x2f then OpAmo else if op =? 0x63 then OpBranch else if op =? 0x67 then OpJalr
  else if op =? 0x6f then OpJal else if op =? 0x73 then OpSystem else if op =? 0x0f then OpFence else if op =? 0x33 then (if mext then OpMExt else OpReg)
  else if op =? 0x3b then (if mext then OpM32 else OpReg32) else if op =? 0x13 then OpImm else if op =? 0x1b then OpImm32 else if op =? 0x37 then OpLui
  else if op =? 0x17 then OpAuipc else OpNone.
Record head_slot := mkrslot { allocCyc : Z; allocInsn : Z; allocPC : Z; readyCyc : Z; readyPrev : Z; readySet : Z; readyClr : Z }.
Definition rob_slot0 : head_slot := mkrslot 0 0 0 0 0 0 0.
Record head_state := mkhead { head_slots : list head_slot; lastRd : Z; rdSince : Z }.
(** What is said of a head that is not ready. *)
Inductive head_verdict := NeverAsserted | ClearedAfter | ChangedBefore | HeadIsReady.
Record head_report := mkhrep { hr_cyc : Z; hr_since : Z; hr_nets : list Z; hr_rows : list (Z * head_slot * Z * Z * op_class); hr_pc : Z; hr_insn : Z; hr_dest : Z; hr_slot : head_slot; hr_verdict : head_verdict }.

Section Robhead.
Context `{Model} `{!Netlist} (STUCK_N : Z).

Definition h_rd (tb : Vsystem) : Z := NC 1 "rob__DOT__fifo__DOT__readPtr" tb.
Definition h_wr (tb : Vsystem) : Z := NC 1 "rob__DOT__fifo__DOT__writePtr" tb.
Definition h_full (tb : Vsystem) : Z := NC 1 "rob__DOT__fifo__DOT__fullReg" tb.
Definition h_alloc (tb : Vsystem) : Z := NC 1 "rob_allocate_fired" tb.
Definition h_ready (tb : Vsystem) (i : nat) : Z := Z.land (CORE_MEM "rob__DOT__results__DOT__memReg"%string tb 1 (Z.of_nat i) 0) 1.
(** Slot [i] of a look: written by an enqueue, then its ready bit. *)
Definition slot_alloc (tb : Vsystem) (cyc : Z) (i : nat) (s : head_slot) : head_slot :=
  if negb (h_alloc tb =? 0) && (h_wr tb =? Z.of_nat i) then
    let e := CORE_MEM "rob__DOT__fifo_io_enq_bits"%string tb 1 0 in
    mkrslot cyc (wbits e 6 32) (wbits e 38 64) (readyCyc s) (readyPrev s) (readySet s) (readyClr s)
  else s.
Definition slot_ready (tb : Vsystem) (cyc : Z) (i : nat) (s : head_slot) : head_slot :=
  let r := h_ready tb i in
  if r =? readyPrev s then s
  else mkrslot (allocCyc s) (allocInsn s) (allocPC s) cyc r (if r =? 0 then readySet s else u64 (readySet s + 1)) (if r =? 0 then u64 (readyClr s + 1) else readyClr s).
Definition head_verdict_of (rdy : Z) (s : head_slot) : head_verdict :=
  if (readyCyc s =? 0) && (rdy =? 0) then NeverAsserted
  else if (rdy =? 0) && (allocCyc s <? readyCyc s) then ClearedAfter
  else if rdy =? 0 then ChangedBefore else HeadIsReady.
Definition entry_of (tb : Vsystem) (i : Z) : Z -> Z := CORE_MEM "rob__DOT__fifo__DOT__memReg"%string tb 1 i.
Definition head_report_of (tb : Vsystem) (cyc : Z) (s : head_state) : head_report :=
  let slot i := default rob_slot0 (head_slots s !! Z.to_nat i) in
  let rd := h_rd tb in
  let row k := let i := Z.land (rd + k) 15 in let insn := wbits (entry_of tb i) 6 32 in (i, slot i, wbits (entry_of tb i) 38 64, insn, op_class_of insn) in
  mkhrep cyc (rdSince s) (map (fun f => NC 1 f tb) ["rob__DOT__fifo__DOT__readPtr"; "rob__DOT__fifo__DOT__writePtr"; "rob__DOT__fifo__DOT__fullReg";
      "rob__DOT__fifo__DOT__emptyReg"; "rob_commit_ready"; "rob_headValid"; "rob_allocate_ready"]%string)
    (map row [0; 1; 2; 3; 4; 5; 6; 7; 8; 9; 10; 11; 12; 13; 14; 15]) (wbits (entry_of tb rd) 38 64) (wbits (entry_of tb rd) 6 32) (wbits (entry_of tb rd) 0 6)
    (slot rd) (head_verdict_of (h_ready tb (Z.to_nat rd)) (slot rd)).
Definition head_look (tb : Vsystem) (cyc : Z) (s : head_state) : option head_report * head_state :=
  let since := if h_rd tb =? lastRd s then rdSince s else cyc in
  let s := mkhead (imap (fun i sl => slot_ready tb cyc i (slot_alloc tb cyc i sl)) (head_slots s)) (h_rd tb) since in
  (if negb (h_full tb =? 0) && (STUCK_N <? u64 (cyc - since)) then Some (head_report_of tb cyc s) else None, s).
Definition head_start : head_state := mkhead (replicate 16 rob_slot0) 99 0.
(** [None]: the cycle of the end, no wedge detected. *)
Definition robhead_main (TO : Z) (tb : Vsystem) : Z + head_report :=
  match pre_loop (fun cyc => cyc <? TO) head_look (looks TO 0) tb 0 head_start with
  | (Some r, _) => inr r
  | (None, (_, cyc, _)) => inl cyc
  end.

Context (tb0 : Vsystem).
Definition rd_at (j : nat) : Z := match j with O => 99 | S _ => h_rd (sees tb0 j) end.
(** The cycle since which the head is where it is at look [k]. *)
Definition head_since (k : nat) : Z := Z.of_nat (k - 1 - still rd_at k).
Definition parked (k : nat) : bool := negb (h_full (sees tb0 k) =? 0) && (STUCK_N <? Z.of_nat (k - 1) - head_since k).
Definition alloc_to (i j : nat) : bool := negb (h_alloc (sees tb0 j) =? 0) && (h_wr (sees tb0 j) =? Z.of_nat i).
Definition ready_at (i j : nat) : Z := match j with O => 0 | S _ => h_ready (sees tb0 j) i end.
Definition ready_moves (i j : nat) : bool := negb (ready_at i j =? ready_at i (j - 1)).
Definition slot_at (k i : nat) (s : head_slot) : Prop :=
  allocCyc s = last_when (alloc_to i) k /\ readyCyc s = last_when (ready_moves i) k /\ readyPrev s = ready_at i k.

Lemma head_slot_step k i s : slot_at k i s -> slot_at (S k) i (slot_ready (sees tb0 (S k)) (Z.of_nat k) i (slot_alloc (sees tb0 (S k)) (Z.of_nat k) i s)).
Proof.
  intros (Ha & Hr & Hp). unfold slot_at. cbn [last_when]. unfold ready_moves at 1. replace (S k - 1)%nat with k by lia.
  change (ready_at i (S k)) with (h_ready (sees tb0 (S k)) i). change (alloc_to i (S k)) with (negb (h_alloc (sees tb0 (S k)) =? 0) && (h_wr (sees tb0 (S k)) =? Z.of_nat i)).
  rewrite <- Hp, <- Ha, <- Hr. unfold slot_ready, slot_alloc. cbv zeta.
  destruct (negb (h_alloc (sees tb0 (S k)) =? 0) && (h_wr (sees tb0 (S k)) =? Z.of_nat i)); cbn [readyPrev];
    destruct (Z.eqb_spec (h_ready (sees tb0 (S k)) i) (readyPrev s)) as [E|E]; cbn [negb allocCyc readyCyc readyPrev]; auto.
Qed.

Lemma head_since_step k : (if rd_at (S k) =? rd_at k then head_since k else Z.of_nat k) = head_since (S k).
Proof.
  unfold head_since. cbn [still]. destruct (Z.eqb_spec (rd_at (S k)) (rd_at k)); [rewrite decide_True by assumption|rewrite decide_False by assumption]; lia.
Qed.

Definition head_at (k : nat) (s : head_state) : Prop :=
  length (head_slots s) = 16%nat /\ (forall i sl, head_slots s !! i = Some sl -> slot_at k i sl) /\ lastRd s = rd_at k /\ rdSince s = head_since k.
Lemma head_step k s : Z.of_nat k < 2 ^ 63 -> head_at k s ->
  let '(r, s') := head_look (sees tb0 (S k)) (Z.of_nat k) s in
  head_at (S k) s' /\ match r with None => parked (S k) = false | Some r => parked (S k) = true /\ r = head_report_of (sees tb0 (S k)) (Z.of_nat k) s' end.
Proof.
  change (2 ^ 63) with 9223372036854775808. intros Hk (Hl & Hs & Hr & Hd). unfold head_look. cbv zeta. rewrite Hr, Hd.
  change (h_rd (sees tb0 (S k))) with (rd_at (S k)). rewrite head_since_step.
  assert (Hat : head_at (S k) (mkhead (imap (fun i sl => slot_ready (sees tb0 (S k)) (Z.of_nat k) i (slot_alloc (sees tb0 (S k)) (Z.of_nat k) i sl)) (head_slots s)) (rd_at (S k)) (head_since (S k)))).
  { split; [cbn [head_slots]; rewrite length_imap; exact Hl|]. split; [|split; reflexivity]. cbn [head_slots]. intros i sl. rewrite list_lookup_imap.
    destruct (head_slots s !! i) as [s0|] eqn:E; [|discriminate]. intros Es. apply (inj Some) in Es as <-. apply head_slot_step. exact (Hs i s0 E). }
  assert (Ep : parked (S k) = negb (h_full (sees tb0 (S k)) =? 0) && (STUCK_N <? u64 (Z.of_nat k - head_since (S k)))).
  { unfold parked. replace (S k - 1)%nat with k by lia. rewrite u64_id; [reflexivity|]. unfold is_u64, head_since. lia. }
  rewrite <- Ep. destruct (parked (S k)) eqn:E; (split; [exact Hat|]); auto.
Qed.

(** The probe stops at the first look at which the ROB is full and its head has not moved for
    more than [STUCK_N] cycles, and not otherwise. Of the head it gives the cycle of its last
    enqueue and of the last change of its ready bit, and the verdict these give. *)
Theorem robhead_exact TO : 0 <= TO < 2 ^ 63 ->
  match robhead_main TO tb0 with
  | inl cyc => cyc = TO /\ forall j, (1 <= j <= Z.to_nat TO)%nat -> parked j = false
  | inr r => exists k, (1 <= k <= Z.to_nat TO)%nat /\ hr_cyc r = Z.of_nat (k - 1) /\ parked k = true /\ (forall j, (1 <= j < k)%nat -> parked j = false) /\
      hr_since r = head_since k /\
      forall i, rd_at k = Z.of_nat i -> (i < 16)%nat -> allocCyc (hr_slot r) = last_when (alloc_to i) k /\ readyCyc (hr_slot r) = last_when (ready_moves i) k /\
        hr_verdict r = head_verdict_of (ready_at i k) (hr_slot r)
  end.
Proof.
  change (2 ^ 63) with 9223372036854775808. intros HT. unfold robhead_main, looks. rewrite Z.sub_0_r.
  set (P := fun (k : nat) s => head_at k s /\ forall j, (1 <= j <= k)%nat -> parked j = false).
  pose proof (pre_loop_ran (fun cyc => cyc <? TO) head_look tb0 0 P (Z.to_nat TO) 0 head_start) as Hr.
  rewrite Z.add_0_l in Hr. change (Z.of_nat 0) with 0 in Hr. change (after tb0 0) with tb0 in Hr.
  assert (HP0 : P 0%nat head_start).
  { split; [|intros; lia]. split; [reflexivity|]. split; [|split; reflexivity]. intros i sl Hi. apply (lookup_replicate 16) in Hi as [-> _]. repeat split. }
  assert (Hlook : forall j s, (j < Z.to_nat TO)%nat -> P j s -> let '(r, s') := head_look (eval (after tb0 j)) (Z.of_nat j) s in
    match r with None => P (S j) s' | Some r => parked (S j) = true /\ head_at (S j) s' /\ r = head_report_of (sees tb0 (S j)) (Z.of_nat j) s' end).
  { intros j s Hj [Ha Hn]. pose proof (head_step j s ltac:(change (2 ^ 63) with 9223372036854775808; lia) Ha) as Hs.
    assert (Es : sees tb0 (S j) = eval (after tb0 j)) by (unfold sees; replace (S j - 1)%nat with j by lia; reflexivity). rewrite Es in *.
    destruct (head_look _ _ s) as [[r|] s']; destruct Hs as [Ha' Hs]; [destruct Hs as [Hp ->]; auto|].
    split; [exact Ha'|]. intros i Hi. destruct (Nat.eq_dec i (S j)) as [->|]; [exact Hs|apply Hn; lia]. }
  specialize (Hr ltac:(lia) ltac:(change (2 ^ 64) with 18446744073709551616; lia) ltac:(intros j Hj; apply Z.ltb_lt; lia) HP0).
  specialize (Hr ltac:(intros j s Hj HP; rewrite Z.add_0_l; pose proof (Hlook j s ltac:(lia) HP) as Hs; destruct (head_look _ _ _); intros ->; exact Hs)).
  destruct (pre_loop _ _ _ _ _ _) as [[r|] [[tb cyc] s]].
  - destruct Hr as (j & s1 & Hj & -> & -> & HP & El). rewrite Z.add_0_l in *. pose proof (Hlook j s1 ltac:(lia) HP) as Hs. rewrite El in Hs.
    destruct Hs as (Hp & (Hl & Hsl & Hrd & Hsi) & ->). exists (S j). split; [lia|]. split; [cbn; f_equal; lia|]. split; [exact Hp|].
    split; [intros i Hi; apply (proj2 HP); lia|]. split; [exact Hsi|]. intros i Hi Hlt. unfold head_report_of. cbv zeta. cbn [hr_slot hr_verdict].
    change (h_rd (sees tb0 (S j))) with (rd_at (S j)). rewrite Hi, Nat2Z.id. destruct (lookup_lt_is_Some_2 (head_slots s) i ltac:(lia)) as [sl E]. rewrite E. cbn [from_option id].
    destruct (Hsl i sl E) as (Ha & Hre & _). split; [exact Ha|]. split; [exact Hre|]. reflexivity.
  - destruct Hr as (_ & -> & _ & Hn). rewrite Nat.add_0_l in *. split; [lia|exact Hn].
Qed.

Lemma last_when_at p a k : (1 <= a <= k)%nat -> p a = true -> (forall i, (a < i <= k)%nat -> p i = false) -> last_when p k = Z.of_nat (a - 1).
Proof.
  intros Ha Hp Hi. destruct (last_when_spec p k) as [(j & Hj & Hpj & Hl & Hij)|[_ Hn]]; [|rewrite Hn in Hp by lia; discriminate].
  destruct (Nat.lt_trichotomy j a) as [Hlt|[->|Hgt]]; [rewrite Hij in Hp by lia; discriminate|exact Hl|rewrite Hi in Hpj by lia; discriminate].
Qed.
(** An enqueue clears the ready bit of the slot, one cycle later. So a slot that held a
    completed instruction, and was given to one that never completes, is said to be cleared
    after the allocation and a completed result to have been wiped: the bit of the present
    occupant was never set. *)
Lemma reused_slot_misjudged i a k s : (1 <= a < k)%nat -> alloc_to i a = true -> (forall j, (a < j <= k)%nat -> alloc_to i j = false) ->
  ready_at i a <> 0 -> (forall j, (a < j <= k)%nat -> ready_at i j = 0) -> slot_at k i s -> head_verdict_of (ready_at i k) s = ClearedAfter.
Proof.
  intros Ha Hal Han Hr Hz (Ea & Er & _). unfold head_verdict_of. rewrite Ea, Er, (last_when_at (alloc_to i) a k), (last_when_at (ready_moves i) (S a) k).
  - rewrite (Hz k) by lia. replace (S a - 1)%nat with a by lia. destruct (Z.eqb_spec (Z.of_nat a) 0); [lia|]. cbn [andb]. change (0 =? 0) with true. cbn [andb].
    destruct (Z.ltb_spec (Z.of_nat (a - 1)) (Z.of_nat a)); [reflexivity|lia].
  - lia.
  - unfold ready_moves. replace (S a - 1)%nat with a by lia. rewrite (Hz (S a)) by lia. apply negb_true_iff, Z.eqb_neq. lia.
  - intros j Hj. unfold ready_moves. rewrite !Hz by lia. reflexivity.
  - lia.
  - exact Hal.
  - intros j Hj. apply Han. lia.
Qed.
End Robhead.

(** ** [robready_probe.cpp] *)

Inductive leaf_culprit := ByAlu | ByM | ByLoad | ByNone.
Inductive ready_event :=
| DoubleResolve (cyc rob previous alloc pass : Z)
| ReadyNoResolve (cyc : Z) (slot : nat) (insn : Z) (who : leaf_culprit) (nets : list Z) (rd wr : Z)
| ReadyRise (cyc : Z) (slot : nat) (insn : Z) (named alloc : bool) (rd wr : Z)
| ReadyFall (cyc : Z) (slot : nat) (rd wr : Z)
| ReadyRow (cyc : Z) (resolve commit : bool) (rob pass rd wr cmtRdy headInsn watched : Z).
Record ready_slot := mkrdy { prevRdy : Z; lastResolveCyc : Z; lastAllocCyc : Z; pendingResolve : bool }.
Definition ready_slot0 : ready_slot := mkrdy 0 0 0 false.
(** The ports as they stood in the cycle before. *)
Record prev_ports := mkpp { prevBev : Z; prevBrob : Z; prevAllocF : Z; prevWr : Z; prevAluV : Z; prevAluRob : Z; prevMV : Z; prevMRob : Z; prevLoadV : Z }.
Definition prev_ports0 : prev_ports := mkpp 0 0 0 0 0 0 0 0 0.
Record ready_sums := mkrsums { nReadyNoResolve : Z; firstReadyNoResolve : Z; nByAlu : Z; nByM : Z; nByLoad : Z; nByNone : Z }.
Record ready_state := mkready { rslots : list ready_slot; prevRd : Z; pports : prev_ports; nDoubleResolve : Z; firstDoubleResolve : Z; rsums : ready_sums }.

Section Robready.
Context `{Model} `{!Netlist} (FROM TO WATCH : Z).

Definition resolves_in (c : Z) : bool := (FROM <=? c) && (c <=? TO).
Definition rr_bev (tb : Vsystem) : Z := NC 1 "branchEvals_valid" tb.
Definition rr_brob (tb : Vsystem) : Z := NC 1 "branchEvals_robAddr" tb.
(** [if (allocF)] and [if (bev)], for slot [i]. *)
Definition rr_alloc (tb : Vsystem) (c : Z) (i : nat) (s : ready_slot) : ready_slot :=
  if negb (h_alloc tb =? 0) && (h_wr tb =? Z.of_nat i) then mkrdy (prevRdy s) (lastResolveCyc s) c false else s.
Definition rr_resolve (tb : Vsystem) (c : Z) (i : nat) (s : ready_slot) : ready_slot :=
  if negb (rr_bev tb =? 0) && (rr_brob tb =? Z.of_nat i) then mkrdy (prevRdy s) c (lastAllocCyc s) true else s.
Definition rr_slot (l : list ready_slot) (i : Z) : ready_slot := default ready_slot0 (l !! Z.to_nat i).
Definition doubles (l : list ready_slot) (tb : Vsystem) : bool := negb (rr_bev tb =? 0) && pendingResolve (rr_slot l (rr_brob tb)).
(** A ready bit that rises is judged by the ports of the cycle before. *)
Definition rises (tb : Vsystem) (i : nat) (s : ready_slot) : bool := negb (h_ready tb i =? 0) && (prevRdy s =? 0).
Definition names (v rob : Z) (i : nat) : bool := negb (v =? 0) && (rob =? Z.of_nat i).
Definition slot_insn (tb : Vsystem) (i : nat) : Z := wbits (entry_of tb (Z.of_nat i)) 6 32.
Definition unresolved (p : prev_ports) (tb : Vsystem) (i : nat) (s : ready_slot) : bool :=
  rises tb i s && (Z.land (slot_insn tb i) 0x7f =? 0x63) && negb (names (prevBev p) (prevBrob p) i) && negb (names (prevAllocF p) (prevWr p) i).
Definition culprit_of (p : prev_ports) (i : nat) : leaf_culprit :=
  if names (prevAluV p) (prevAluRob p) i then ByAlu else if names (prevMV p) (prevMRob p) i then ByM else if negb (prevLoadV p =? 0) then ByLoad else ByNone.
Definition count_unresolved (c : Z) (w : leaf_culprit) (n : ready_sums) : ready_sums :=
  let one b k := if b : bool then u64 (k + 1) else k in
  mkrsums (u64 (nReadyNoResolve n + 1)) (if firstReadyNoResolve n =? 0 then c else firstReadyNoResolve n)
    (one match w with ByAlu => true | _ => false end (nByAlu n)) (one match w with ByM => true | _ => false end (nByM n))
    (one match w with ByLoad => true | _ => false end (nByLoad n)) (one match w with ByNone => true | _ => false end (nByNone n)).
(** The body of the loop over the slots. *)
Definition rr_scan (p : prev_ports) (tb : Vsystem) (c : Z) (l : list ready_slot) (x : list ready_event * ready_sums) (i : nat) : list ready_event * ready_sums :=
  let '(es, n) := x in
  let s := rr_slot l (Z.of_nat i) in
  let bad := unresolved p tb i s in
  let watched := resolves_in c && (Z.of_nat i =? WATCH) in
  let rd := h_rd tb in let wr := h_wr tb in
  (es ++
   (if bad && resolves_in c then [ReadyNoResolve c i (slot_insn tb i) (culprit_of p i) [prevAluV p; prevAluRob p; prevMV p; prevMRob p; prevLoadV p] rd wr] else []) ++
   (if rises tb i s && watched then [ReadyRise c i (slot_insn tb i) (names (prevBev p) (prevBrob p) i) (names (prevAllocF p) (prevWr p) i) rd wr] else []) ++
   (if (h_ready tb i =? 0) && negb (prevRdy s =? 0) && watched then [ReadyFall c i rd wr] else []),
   if bad then count_unresolved c (culprit_of p i) n else n).
Definition sixteen_nat : list nat := seq 0 16.
Definition seen_ports (tb : Vsystem) : prev_ports :=
  mkpp (rr_bev tb) (rr_brob tb) (h_alloc tb) (h_wr tb) (NC 1 "singleCycleArithmeticResponse_valid" tb) (NC 1 "singleCycleArithmeticResponse_robAddr" tb)
    (NC 1 "extnMResponse_valid" tb) (NC 1 "extnMResponse_robAddr" tb) (NC 1 "memAccess_responseOut_valid" tb).
Definition robready_step (pre tb : Vsystem) (cyc : Z) (s : ready_state) : list ready_event * ready_state :=
  let c := u64 (cyc - 1) in
  let commit := negb (h_rd pre =? prevRd s) in
  let l := imap (rr_alloc pre c) (rslots s) in
  let dbl := doubles l pre in
  let old := rr_slot l (rr_brob pre) in
  let l := imap (rr_resolve pre c) l in
  let '(es, n) := fold_left (rr_scan (pports s) pre c l) sixteen_nat ([], rsums s) in
  ((if dbl && resolves_in c then [DoubleResolve c (rr_brob pre) (lastResolveCyc old) (lastAllocCyc old) (NC 1 "branchEvals_passed" pre)] else []) ++ es ++
   (if resolves_in c && (negb (rr_bev pre =? 0) || commit)
    then [ReadyRow c (negb (rr_bev pre =? 0)) commit (rr_brob pre) (NC 1 "branchEvals_passed" pre) (h_rd pre) (h_wr pre) (NC 1 "rob_commit_ready" pre)
            (wbits (entry_of pre (h_rd pre)) 6 32) (h_ready pre (Z.to_nat WATCH))] else []),
   mkready (imap (fun i sl => mkrdy (h_ready pre i) (lastResolveCyc sl) (lastAllocCyc sl) (pendingResolve sl)) l) (h_rd pre) (seen_ports pre)
     (if dbl then u64 (nDoubleResolve s + 1) else nDoubleResolve s) (if dbl && (firstDoubleResolve s =? 0) then c else firstDoubleResolve s) n).
Definition robready_start : ready_state := mkready (replicate 16 ready_slot0) 99 prev_ports0 0 0 (mkrsums 0 0 0 0 0 0).
Definition robready_main (tb : Vsystem) : list ready_event * ready_state :=
  let '((_, _, s), log) := trace_run (upto TO) robready_step (looks TO 0) tb 0 robready_start in (log, s).

(** Of the trace. *)
Context (tb0 : Vsystem).
Definition ports_at (j : nat) : prev_ports := match j with O => prev_ports0 | S _ => seen_ports (sees tb0 j) end.
(** A resolution has named slot [i] since its last allocation. *)
Fixpoint resolved_since (i j : nat) : bool :=
  match j with
  | O => false
  | S j' => names (rr_bev (sees tb0 j)) (rr_brob (sees tb0 j)) i || (resolved_since i j' && negb (names (h_alloc (sees tb0 j)) (h_wr (sees tb0 j)) i))
  end.
Definition double_at (j : nat) : bool :=
  let tb := sees tb0 j in let i := Z.to_nat (rr_brob tb) in
  negb (rr_bev tb =? 0) && resolved_since i (j - 1) && negb (names (h_alloc tb) (h_wr tb) i).
(** The branches whose ready bit rises at look [j] unnamed. *)
Definition anomaly (j i : nat) : bool :=
  unresolved (ports_at (j - 1)) (sees tb0 j) i (mkrdy (ready_at tb0 i (j - 1)) 0 0 false).
Definition anomalies (k : nat) : Z := Z.of_nat (length (flat_map (fun j => List.filter (anomaly j) sixteen_nat) (seq 1 k))).

Definition sums_ok (n : ready_sums) (done : Z) : Prop :=
  nReadyNoResolve n = done /\ nByAlu n + nByM n + nByLoad n + nByNone n = done /\ 0 <= nByAlu n /\ 0 <= nByM n /\ 0 <= nByLoad n /\ 0 <= nByNone n.
Lemma count_unresolved_ok c w n d : 0 <= d < 2 ^ 64 - 1 -> sums_ok n d -> sums_ok (count_unresolved c w n) (d + 1).
Proof.
  change (2 ^ 64) with 18446744073709551616. intros Hd (Hn & Hs & Hp). unfold count_unresolved, sums_ok.
  destruct w; cbn [nReadyNoResolve nByAlu nByM nByLoad nByNone]; rewrite !u64_id by (unfold is_u64; lia); lia.
Qed.
Lemma scan_sums p tb c l js : forall es n d, 0 <= d -> d + Z.of_nat (length js) < 2 ^ 64 -> sums_ok n d ->
  sums_ok (snd (fold_left (rr_scan p tb c l) js (es, n))) (d + Z.of_nat (length (List.filter (fun i => unresolved p tb i (rr_slot l (Z.of_nat i))) js))).
Proof.
  change (2 ^ 64) with 18446744073709551616. induction js as [|i js IH]; intros es n d Hpos Hd Hn; [cbn; rewrite Z.add_0_r; exact Hn|]. cbn [fold_left List.filter length] in Hd |- *.
  unfold rr_scan at 2. cbv zeta. destruct (unresolved p tb i (rr_slot l (Z.of_nat i))).
  - cbn [length]. replace (d + Z.of_nat (S (length (List.filter _ js)))) with (d + 1 + Z.of_nat (length (List.filter (fun i => unresolved p tb i (rr_slot l (Z.of_nat i))) js))) by lia.
    apply IH; [lia|lia|]. apply count_unresolved_ok; [change (2 ^ 64) with 18446744073709551616; lia|exact Hn].
  - apply IH; [lia|lia|exact Hn].
Qed.

Definition rslot_at (k i : nat) (s : ready_slot) : Prop := prevRdy s = ready_at tb0 i k /\ pendingResolve s = resolved_since i k.
Definition ready_inv (k : nat) (s : ready_state) : Prop :=
  length (rslots s) = 16%nat /\ (forall i sl, rslots s !! i = Some sl -> rslot_at k i sl) /\ pports s = ports_at k /\
  nDoubleResolve s = tallied double_at k /\ sums_ok (rsums s) (anomalies k).

Lemma rr_slot_lookup l i : (i < length l)%nat -> l !! i = Some (rr_slot l (Z.of_nat i)).
Proof. intros Hi. unfold rr_slot. rewrite Nat2Z.id. destruct (lookup_lt_is_Some_2 l i Hi) as [x ->]. reflexivity. Qed.
Lemma anomalies_bound k : 0 <= anomalies k <= 16 * Z.of_nat k.
Proof.
  unfold anomalies. induction k as [|k IH]; [cbn; lia|]. rewrite seq_S, flat_map_app, length_app. cbn [flat_map Nat.add]. rewrite app_nil_r.
  pose proof (List.filter_length_le (anomaly (S k)) sixteen_nat) as L. change (length sixteen_nat) with 16%nat in L. lia.
Qed.

(** After the allocation of a look and after its resolution, slot by slot. *)
Lemma rr_alloc_at k l c : length l = 16%nat -> (forall i sl, l !! i = Some sl -> rslot_at k i sl) ->
  forall i sl, imap (rr_alloc (sees tb0 (S k)) c) l !! i = Some sl ->
    prevRdy sl = ready_at tb0 i k /\ pendingResolve sl = resolved_since i k && negb (names (h_alloc (sees tb0 (S k))) (h_wr (sees tb0 (S k))) i).
Proof.
  intros Hl Hs i sl. rewrite list_lookup_imap. destruct (l !! i) as [s0|] eqn:E; [|discriminate]. intros Es. apply (inj Some) in Es as <-.
  destruct (Hs i s0 E) as [Hp Hr]. unfold rr_alloc, names. destruct (_ && _); cbn [prevRdy pendingResolve negb]; rewrite ?andb_false_r, ?andb_true_r; auto.
Qed.
Lemma rr_resolve_at k l c : (forall i sl, l !! i = Some sl ->
    prevRdy sl = ready_at tb0 i k /\ pendingResolve sl = resolved_since i k && negb (names (h_alloc (sees tb0 (S k))) (h_wr (sees tb0 (S k))) i)) ->
  forall i sl, imap (rr_resolve (sees tb0 (S k)) c) l !! i = Some sl -> prevRdy sl = ready_at tb0 i k /\ pendingResolve sl = resolved_since i (S k).
Proof.
  intros Hs i sl. rewrite list_lookup_imap. destruct (l !! i) as [s0|] eqn:E; [|discriminate]. intros Es. apply (inj Some) in Es as <-.
  destruct (Hs i s0 E) as [Hp Hr]. unfold rr_resolve. cbn [resolved_since]. rewrite <- Hr.
  change (negb (rr_bev (sees tb0 (S k)) =? 0) && (rr_brob (sees tb0 (S k)) =? Z.of_nat i)) with (names (rr_bev (sees tb0 (S k))) (rr_brob (sees tb0 (S k))) i).
  destruct (names (rr_bev _) _ i); cbn [prevRdy pendingResolve orb]; auto.
Qed.

(** The counters: a branch is counted when its ready bit rises with no resolution and no
    allocation naming its slot in the cycle before, and is attributed to one port; a resolution
    is double when the slot it names has been resolved since its last allocation. *)
Theorem robready_counts : 0 <= TO < 2 ^ 58 -> (forall j, 0 <= rr_brob (sees tb0 j) < 16) ->
  let '(_, s) := robready_main tb0 in
  nDoubleResolve s = tallied double_at (Z.to_nat TO) /\ nReadyNoResolve (rsums s) = anomalies (Z.to_nat TO) /\
  nByAlu (rsums s) + nByM (rsums s) + nByLoad (rsums s) + nByNone (rsums s) = anomalies (Z.to_nat TO).
Proof.
  change (2 ^ 58) with 288230376151711744. intros HT Hrob. unfold robready_main.
  pose proof (trace_upto robready_step (fun k s _ => ready_inv k s) TO tb0 robready_start) as R. change (2 ^ 63) with 9223372036854775808 in R. specialize (R ltac:(lia)).
  match type of R with (?A -> _) => assert (HA : A) end.
  { split; [reflexivity|]. split; [|repeat split; cbn; lia]. intros i sl Hi. apply (lookup_replicate 16) in Hi as [-> _]. split; reflexivity. }
  specialize (R HA). clear HA. match type of R with (?A -> _) => assert (HA : A) end.
  { intros j s log Hj (Hl & Hs & Hp & Hd & Hn). replace (eval (after tb0 j)) with (sees tb0 (S j)) by (unfold sees; replace (S j - 1)%nat with j by lia; reflexivity).
    unfold robready_step. cbv zeta. set (c := u64 (Z.of_nat (S j) - 1)). pose proof (rr_alloc_at j (rslots s) c Hl Hs) as Ha. pose proof (rr_resolve_at j _ c Ha) as Hr.
    set (l1 := imap (rr_alloc (sees tb0 (S j)) c) (rslots s)) in *. assert (L1 : length l1 = 16%nat) by (unfold l1; rewrite length_imap; exact Hl). clearbody l1.
    set (l2 := imap (rr_resolve (sees tb0 (S j)) c) l1) in *. assert (L2 : length l2 = 16%nat) by (unfold l2; rewrite length_imap; exact L1). clearbody l2.
    pose proof (anomalies_bound j) as Hb. pose proof (scan_sums (pports s) (sees tb0 (S j)) c l2 sixteen_nat [] (rsums s) (anomalies j) ltac:(lia)
      ltac:(change (2 ^ 64) with 18446744073709551616; change (length sixteen_nat) with 16%nat; lia) Hn) as Hsum.
    destruct (fold_left _ _ _) as [es n]. cbn [snd] in Hsum. split; [cbn [rslots]; rewrite length_imap; exact L2|]. split; [|split; [reflexivity|split]].
    - cbn [rslots]. intros i sl. rewrite list_lookup_imap. destruct (l2 !! i) as [s0|] eqn:E; [|discriminate]. intros Es. apply (inj Some) in Es as <-.
      split; [reflexivity|]. exact (proj2 (Hr i s0 E)).
    - cbn [nDoubleResolve]. rewrite <- (tallied_step _ j _ ltac:(change (2 ^ 64) with 18446744073709551616; lia) Hd). f_equal. f_equal.
      unfold doubles, double_at. cbv zeta. replace (S j - 1)%nat with j by lia. rewrite <- andb_assoc. f_equal. specialize (Hrob (S j)).
      pose proof (rr_slot_lookup l1 (Z.to_nat (rr_brob (sees tb0 (S j)))) ltac:(lia)) as E. rewrite Z2Nat.id in E by lia. rewrite (proj2 (Ha _ _ E)). reflexivity.
    - cbn [rsums]. replace (anomalies (S j)) with (anomalies j + Z.of_nat (length (List.filter (fun i => unresolved (pports s) (sees tb0 (S j)) i (rr_slot l2 (Z.of_nat i))) sixteen_nat))); [exact Hsum|].
      unfold anomalies. rewrite seq_S, flat_map_app, length_app. cbn [flat_map Nat.add]. rewrite app_nil_r, Nat2Z.inj_add. do 3 f_equal.
      apply List.filter_ext_in. intros i Hi. apply in_seq in Hi. unfold anomaly. replace (S j - 1)%nat with j by lia. rewrite <- Hp.
      unfold unresolved, rises. cbn [prevRdy]. destruct (Hr i _ (rr_slot_lookup l2 i ltac:(lia))) as [-> _]. reflexivity. }
  specialize (R HA). destruct (trace_run _ _ _ _ _ _) as [[[tb' cyc'] s'] log]. destruct R as (_ & _ & _ & _ & Hd & Hn & Hs & _). auto.
Qed.
End Robready.

(** ** [mextpath_probe.cpp] *)

Inductive m_driver := Ambiguous | MultiplyPipeline | Divider | NeitherUnit.
Inductive mext_event :=
| MResponse (cyc rob : Z) (driver : m_driver) (serv division : list Z)
| DivArm (cyc rob mask cnt : Z) (req : list Z)
| DivBranch (cyc passed rob mask : Z) (division : list Z) (overlap : bool)
| DivMask (cyc rob before now bev bmask : Z)
| DivClear (cyc rob mask cnt : Z).
(** The nets that are compared with the cycle before. *)
Record m_view := mkmv { respV : Z; respRob : Z; servV : Z; servRob : Z; servMask : Z; divV : Z; divRob : Z; divMask : Z; divCnt : Z; reqV : Z; reqRob : Z; reqMask : Z; reqInsn : Z }.
Definition m_view0 : m_view := mkmv 0 0 0 0 0 0 0 0 0 0 0 0 0.
Record m_sums := mkms { nMulDrove : Z; nDivDrove : Z; nNeither : Z }.

Section Mextpath.
Context `{Model} `{!Netlist} (FROM TO TARGET : Z).

Definition m_seen (tb : Vsystem) : m_view :=
  mkmv (NC 1 "extnMResponse_valid" tb) (NC 1 "extnMResponse_robAddr" tb) (NC 1 "extnMServicing_valid" tb) (NC 1 "extnMServicing_robAddr" tb) (NC 1 "extnMServicing_branchMask" tb)
    (NC 1 "division_request_valid" tb) (NC 1 "division_request_robAddr" tb) (NC 1 "division_request_branchMask" tb) (NC 1 "division_counter" tb)
    (NC 1 "extnMRequest_valid" tb) (NC 1 "extnMRequest_robAddr" tb) (NC 1 "extnMRequest_branchMask" tb) (NC 1 "extnMRequest_instruction" tb).
(** A response that rises, and who was live for it in the cycle before. *)
Definition m_rises (p v : m_view) : bool := negb (respV v =? 0) && (respV p =? 0).
Definition mulDrove (p v : m_view) : bool := negb (servV p =? 0) && (servRob p =? respRob v).
Definition divDrove (p v : m_view) : bool := negb (divV p =? 0) && (divCnt p =? 0) && (divRob p =? respRob v).
Definition driver_of (p v : m_view) : m_driver :=
  if mulDrove p v && divDrove p v then Ambiguous else if mulDrove p v then MultiplyPipeline else if divDrove p v then Divider else NeitherUnit.
Definition m_count (p v : m_view) (n : m_sums) : m_sums :=
  if mulDrove p v && negb (divDrove p v) then mkms (u64 (nMulDrove n + 1)) (nDivDrove n) (nNeither n)
  else if divDrove p v && negb (mulDrove p v) then mkms (nMulDrove n) (u64 (nDivDrove n + 1)) (nNeither n)
  else if negb (mulDrove p v) && negb (divDrove p v) then mkms (nMulDrove n) (nDivDrove n) (u64 (nNeither n + 1)) else n.
Definition m_rows (p : m_view) (pre : Vsystem) (c : Z) : list mext_event :=
  let v := m_seen pre in
  let bev := NC 1 "branchEvals_valid" pre in
  let bmask := NC 1 "branchEvals_branchMask" pre in
  let pd := negb (divV p =? 0) in
  let division := [divV p; divRob p; divMask p; divCnt p] in
  (if negb (divV v =? 0) && (negb pd || negb (divRob v =? divRob p)) then [DivArm c (divRob v) (divMask v) (divCnt v) [reqRob p; reqMask p; reqInsn p]] else []) ++
  (if negb (bev =? 0) && pd then [DivBranch c (NC 1 "branchEvals_passed" pre) (NC 1 "branchEvals_robAddr" pre) bmask division (negb (Z.land (divMask p) bmask =? 0))] else []) ++
  (if pd && negb (divV v =? 0) && (divRob v =? divRob p) && negb (divMask v =? divMask p) then [DivMask c (divRob v) (divMask p) (divMask v) bev bmask] else []) ++
  (if pd && (divV v =? 0) then [DivClear c (divRob p) (divMask p) (divCnt p)] else []).
Definition mext_step (pre tb : Vsystem) (cyc : Z) (s : m_view * m_sums) : list mext_event * (m_view * m_sums) :=
  let '(p, n) := s in
  let c := u64 (cyc - 1) in
  let v := m_seen pre in
  let inside := (FROM <=? c) && (c <=? TO) in
  ((if m_rises p v && (respRob v =? TARGET) && inside
    then [MResponse c (respRob v) (driver_of p v) [servV p; servRob p; servMask p] [divV p; divRob p; divMask p; divCnt p]] else []) ++
   (if inside then m_rows p pre c else []),
   (v, if m_rises p v then m_count p v n else n)).
Definition mextpath_main (tb : Vsystem) : list mext_event * m_sums :=
  let '((_, _, (_, n)), log) := trace_run (upto TO) mext_step (looks TO 0) tb 0 (m_view0, mkms 0 0 0) in (log, n).

Context (tb0 : Vsystem).
Definition m_at (j : nat) : m_view := match j with O => m_view0 | S _ => m_seen (sees tb0 j) end.
(** The responses that rise with driver [d]. *)
Definition driven (d : m_driver) (j : nat) : bool :=
  m_rises (m_at (j - 1)) (m_at j) &&
  match driver_of (m_at (j - 1)) (m_at j), d with
  | Ambiguous, Ambiguous | MultiplyPipeline, MultiplyPipeline | Divider, Divider | NeitherUnit, NeitherUnit => true
  | _, _ => false
  end.
(** The three sums are the responses driven by the one unit, by the other and by neither;
    a response for which both were live is in none of them. *)
Theorem mext_attribution : 0 <= TO < 2 ^ 63 ->
  let n := snd (mextpath_main tb0) in let t d := tallied (driven d) (Z.to_nat TO) in
  nMulDrove n = t MultiplyPipeline /\ nDivDrove n = t Divider /\ nNeither n = t NeitherUnit /\
  nMulDrove n + nDivDrove n + nNeither n + t Ambiguous = tallied (fun j => m_rises (m_at (j - 1)) (m_at j)) (Z.to_nat TO).
Proof.
  intros HT. cbv zeta. unfold mextpath_main.
  pose proof (trace_upto mext_step (fun k s _ => fst s = m_at k /\ nMulDrove (snd s) = tallied (driven MultiplyPipeline) k /\
    nDivDrove (snd s) = tallied (driven Divider) k /\ nNeither (snd s) = tallied (driven NeitherUnit) k /\
    nMulDrove (snd s) + nDivDrove (snd s) + nNeither (snd s) + tallied (driven Ambiguous) k = tallied (fun j => m_rises (m_at (j - 1)) (m_at j)) k) TO tb0 (m_view0, mkms 0 0 0) HT) as R.
  match type of R with (?A -> _) => assert (HA : A) by (repeat split) end. specialize (R HA). clear HA.
  match type of R with (?A -> _) => assert (HA : A) end.
  { intros j [p n] log Hj (Hp & Hm & Hd & Hn & Hs). change (2 ^ 63) with 9223372036854775808 in HT. cbn [fst snd] in *. replace (eval (after tb0 j)) with (sees tb0 (S j)) by (unfold sees; replace (S j - 1)%nat with j by lia; reflexivity).
    unfold mext_step. cbn [fst snd]. change (m_seen (sees tb0 (S j))) with (m_at (S j)). split; [reflexivity|].
    pose proof (tallied_range (driven MultiplyPipeline) j). pose proof (tallied_range (driven Divider) j). pose proof (tallied_range (driven NeitherUnit) j).
    assert (Ed : forall d, driven d (S j) = m_rises p (m_at (S j)) && match driver_of p (m_at (S j)), d with
      | Ambiguous, Ambiguous | MultiplyPipeline, MultiplyPipeline | Divider, Divider | NeitherUnit, NeitherUnit => true | _, _ => false end).
    { intros d. unfold driven. replace (S j - 1)%nat with j by lia. rewrite <- Hp. reflexivity. }
    rewrite !tallied_S, !Ed. replace (S j - 1)%nat with j by lia. rewrite <- Hp. unfold driver_of, m_count.
    destruct (m_rises p (m_at (S j))), (mulDrove p (m_at (S j))), (divDrove p (m_at (S j))); cbn [andb negb Z.b2z nMulDrove nDivDrove nNeither];
      rewrite ?u64_id by (unfold is_u64; lia); lia. }
  specialize (R HA). destruct (trace_run _ _ _ _ _ _) as [[[tb' cyc'] [p n]] log]. cbn [fst snd] in *. tauto.
Qed.
End Mextpath.

(** ** [periph_squash_probe.cpp] *)

Record squash_stat := mksqs { squash_inflight : Z; late_response : Z; sq_printed : Z; tainted : bool; taint_cyc : Z; taint_mask : Z }.
Inductive squash_event :=
| MmioSquash (cyc core mask : Z) (coherent : bool) (nets : list Z)
| LateResponse (cyc core at_cyc mask : Z) (nets : list Z).

Section PeriphSquash.
Context `{Model} `{!Netlist} (MAXPRINT COH_ONLY : Z).

Definition PUn (n : Z) (sig : string) (tb : Vsystem) : Z := NC n ("memAccess__DOT__peripheralUnit__DOT__" ++ sig) tb.
#[local] Arguments PUn n sig%_string_scope tb.
(** The OR of seven bits is zero exactly when all are. *)
Definition inflight (n : Z) (tb : Vsystem) : bool :=
  negb (PUn n "requestBuffer_valid" tb =? 0) || negb (PUn n "readRequestBuffer_valid" tb =? 0) || negb (PUn n "writeRequestBuffer_valid" tb =? 0) ||
  (PUn n "peripheralMSHR__DOT__emptyReg" tb =? 0) || negb (PUn n "responseOutBuffer_valid" tb =? 0) ||
  negb (PUn n "readAXIRequestState" tb =? 0) || negb (PUn n "readAXIResponseState" tb =? 0).
Definition coherent_mask (n : Z) (tb : Vsystem) : bool := negb (Z.land (NC n "branchEvals_branchMask" tb) 0x10 =? 0).
Definition squashes (n : Z) (tb : Vsystem) : bool :=
  negb (NC n "branchEvals_valid" tb =? 0) && (NC n "branchEvals_passed" tb =? 0) && inflight n tb && ((COH_ONLY =? 0) || coherent_mask n tb).
Definition responds (n : Z) (tb : Vsystem) : bool := negb (PUn n "responseOutBuffer_valid" tb =? 0) && negb (NC n "memAccess_responseOut_valid" tb =? 0).
Definition squash_note (tb : Vsystem) (cyc n : Z) : squash_event :=
  MmioSquash cyc n (NC n "branchEvals_branchMask" tb) (coherent_mask n tb)
    (map (fun f => PUn n f tb) ["requestBuffer_valid"; "requestBuffer_branch_valid"; "requestBuffer_core_instruction"; "readRequestBuffer_valid";
       "readRequestBuffer_branch_valid"; "readRequestBuffer_core_instruction"; "readRequestBuffer_core_prfDest"; "peripheralMSHR__DOT__emptyReg";
       "responseOutBuffer_valid"; "responseOutBuffer_core_instruction"; "responseOutBuffer_core_prfDest"; "responseOutBuffer_core_robAddr";
       "readAXIRequestState"; "readAXIResponseState"]%string).
Definition late_note (tb : Vsystem) (cyc n : Z) (s : squash_stat) : squash_event :=
  LateResponse cyc n (taint_cyc s) (taint_mask s)
    (map (fun f => PUn n f tb) ["responseOutBuffer_core_instruction"; "responseOutBuffer_core_prfDest"; "responseOutBuffer_core_robAddr"]%string ++
     [CORE_RAW "memAccess__DOT__peripheralUnit__DOT__responseOutBuffer_writeData_data"%string tb n]).
Definition noted (e : squash_event) (s : squash_stat) : list squash_event * Z :=
  if sq_printed s <? MAXPRINT then ([e], u64 (sq_printed s + 1)) else ([], sq_printed s).
(** [CHECK(n)]: the squash, then the response, then the end of the taint. *)
Definition sq_squash (tb : Vsystem) (cyc n : Z) (s : squash_stat) : list squash_event * squash_stat :=
  if squashes n tb then
    let '(es, p) := noted (squash_note tb cyc n) s in
    (es, mksqs (u64 (squash_inflight s + 1)) (late_response s) p true (if tainted s then taint_cyc s else cyc) (if tainted s then taint_mask s else NC n "branchEvals_branchMask" tb))
  else ([], s).
Definition sq_late (tb : Vsystem) (cyc n : Z) (s : squash_stat) : list squash_event * squash_stat :=
  if tainted s && responds n tb then
    let '(es, p) := noted (late_note tb cyc n s) s in
    (es, mksqs (squash_inflight s) (u64 (late_response s + 1)) p (tainted s) (taint_cyc s) (taint_mask s))
  else ([], s).
Definition sq_check (tb : Vsystem) (cyc n : Z) (s : squash_stat) : list squash_event * squash_stat :=
  let '(a, s) := sq_squash tb cyc n s in
  let '(b, s) := sq_late tb cyc n s in
  (a ++ b, mksqs (squash_inflight s) (late_response s) (sq_printed s) (tainted s && inflight n tb) (taint_cyc s) (taint_mask s)).
Definition sq_start : squash_stat := mksqs 0 0 0 false 0 0.
Definition periph_squash_main (END : Z) (tb : Vsystem) : list squash_event * list squash_stat :=
  let '((_, _, l), log) := trace_run (upto END) (each_core sq_check) (looks END 0) tb 0 (replicate 4 sq_start) in (log, l).

(** Whether the core is tainted after look [k]. *)
Fixpoint taint_after (tb0 : Vsystem) (n : Z) (k : nat) : bool :=
  match k with O => false | S k' => (squashes n (after tb0 k) || taint_after tb0 n k') && inflight n (after tb0 k) end.
Definition late_at (tb0 : Vsystem) (n : Z) (k : nat) : bool := (squashes n (after tb0 k) || taint_after tb0 n (k - 1)) && responds n (after tb0 k).

(** Tainted: there has been a squash with something in flight, and the unit was never idle since. *)
Lemma taint_after_spec tb0 n k : taint_after tb0 n k = true <->
  exists j, (1 <= j <= k)%nat /\ squashes n (after tb0 j) = true /\ forall i, (j <= i <= k)%nat -> inflight n (after tb0 i) = true.
Proof.
  induction k as [|k IH]; [split; [discriminate|intros (j & Hj & _); lia]|]. cbn [taint_after]. rewrite andb_true_iff, orb_true_iff, IH. split.
  - intros [[Hs|(j & Hj & Hs & Hi)] Hk].
    + exists (S k). split; [lia|]. split; [exact Hs|]. intros i Hr. replace i with (S k) by lia. exact Hk.
    + exists j. split; [lia|]. split; [exact Hs|]. intros i Hr. destruct (Nat.eq_dec i (S k)) as [->|]; [exact Hk|apply Hi; lia].
  - intros (j & Hj & Hs & Hi). split; [|apply Hi; lia]. destruct (Nat.eq_dec j (S k)) as [->|]; [now left|right].
    exists j. split; [lia|]. split; [exact Hs|]. intros i Hr. apply Hi. lia.
Qed.

(** The late responses are counted in the looks with a response at or after a squash since
    which the unit has not been idle: the response need not be that of a request in flight at
    the squash, and a response in the cycle of the squash counts. *)
Theorem periph_squash_counts END tb0 : 0 <= END < 2 ^ 63 ->
  Forall2 (fun n s => squash_inflight s = tallied (fun k => squashes n (after tb0 k)) (Z.to_nat END) /\ late_response s = tallied (late_at tb0 n) (Z.to_nat END))
    four (snd (periph_squash_main END tb0)).
Proof.
  intros HE. unfold periph_squash_main.
  pose proof (each_core_run sq_check (fun n k s => squash_inflight s = tallied (fun k => squashes n (after tb0 k)) k /\ late_response s = tallied (late_at tb0 n) k /\
    tainted s = taint_after tb0 n k) END tb0 sq_start HE) as R.
  match type of R with (?A -> _) => assert (HA : A) by (intros; repeat split) end. specialize (R HA). clear HA.
  match type of R with (?A -> _) => assert (HA : A) end.
  { intros n j s _ Hj (Hs & Hl & Ht). assert (Hlt : Z.of_nat (S j) < 2 ^ 64) by (change (2 ^ 63) with 9223372036854775808 in HE; change (2 ^ 64) with 18446744073709551616; lia).
    pose proof (tallied_step (fun k => squashes n (after tb0 k)) j _ Hlt Hs) as Ss. pose proof (tallied_step (late_at tb0 n) j _ Hlt Hl) as Sl. cbv beta in Ss.
    rewrite <- Ss, <- Sl. unfold late_at at 1. replace (S j - 1)%nat with j by lia. cbn [taint_after]. rewrite <- Ht. unfold sq_check, sq_squash, sq_late, noted.
    destruct (squashes n (after tb0 (S j))), (responds n (after tb0 (S j))), (tainted s) eqn:Et, (sq_printed s <? MAXPRINT); cbn [tainted andb orb sq_printed];
      rewrite ?Et; cbn [tainted andb orb sq_printed snd squash_inflight late_response];
      repeat match goal with |- context [if ?b then ([_], _) else _] => destruct b end; rewrite ?Et; cbn [tainted andb orb snd squash_inflight late_response sq_printed]; rewrite ?Et; auto. }
  specialize (R HA). destruct (trace_run _ _ _ _ _ _) as [[[tb' cyc'] l] log]. eapply Forall2_impl; [exact R|]. cbv beta. tauto.
Qed.
End PeriphSquash.

(** ** [mshr_prfdest_probe.cpp] *)

Inductive mshr_event :=
| MshrHit (cyc : Z) (entry : string) (valid dest rob bmask bvalid addr : Z)
| MshrRow (cyc : Z) (entries : list (string * list Z)).
Definition sixteen_str : list string := ["0"; "1"; "2"; "3"; "4"; "5"; "6"; "7"; "8"; "9"; "10"; "11"; "12"; "13"; "14"; "15"]%string.

Section Mshr.
Context `{Model} `{!Netlist} (FROM WATCH : Z).

Definition ent (f : string) (i : string) (tb : Vsystem) : Z := C0 ("memAccess__DOT__aceUnit__DOT__ACEMSHR__DOT__memReg_" ++ i ++ "_" ++ f) tb.
Definition ent_valid (i : string) (tb : Vsystem) : Z := u32 (ent "valid" i tb).
Definition ent_dest (i : string) (tb : Vsystem) : Z := u32 (ent "core_prfDest" i tb).
Definition ent_bmask (i : string) (tb : Vsystem) : Z := u32 (ent "branch_mask" i tb).
Definition ent_bvalid (i : string) (tb : Vsystem) : Z := u32 (ent "branch_valid" i tb).
Definition ent_rob (i : string) (tb : Vsystem) : Z := u32 (ent "core_robAddr" i tb).
Definition ent_addr (i : string) (tb : Vsystem) : Z := ent "address" i tb.
Definition ent_view (i : string) (tb : Vsystem) : Z * Z := (ent_valid i tb, ent_dest i tb).
(** [prev_v] and [prev_d] *)
Definition mshr_view (tb : Vsystem) : list (Z * Z) := map (fun i => ent_view i tb) sixteen_str.
Definition mshr_hit (tb : Vsystem) (cyc : Z) (x : string * (Z * Z)) : list mshr_event :=
  let '(i, prev) := x in
  let v := ent_valid i tb in let d := ent_dest i tb in
  if (d =? WATCH) && negb (v =? 0) && negb (bool_decide ((v, d) = prev)) then [MshrHit cyc i v d (ent_rob i tb) (ent_bmask i tb) (ent_bvalid i tb) (ent_addr i tb)] else [].
Definition mshr_events (prev : list (Z * Z)) (tb : Vsystem) (cyc : Z) : list mshr_event :=
  flat_map (mshr_hit tb cyc) (combine sixteen_str prev) ++
  (if (FROM <=? cyc) && (cyc mod 50 =? 0)
   then [MshrRow cyc (map (fun i => (i, [ent_dest i tb; ent_rob i tb; ent_bmask i tb; ent_bvalid i tb])) (List.filter (fun i => negb (ent_valid i tb =? 0)) sixteen_str))] else []).
Definition mshr_start : list (Z * Z) := repeat (0, 0) 16.
Definition mshr_prfdest_main (STOP : Z) (tb : Vsystem) : list mshr_event :=
  snd (trace_run (upto STOP) (diff_step mshr_view mshr_events) (looks STOP 0) tb 0 mshr_start).

Definition ent_before (tb0 : Vsystem) (i : string) (k : nat) : Z * Z := match k with O => (0, 0) | S _ => ent_view i (after tb0 k) end.
Lemma mshr_before tb0 k : combine sixteen_str (view_at mshr_view mshr_start tb0 k) = map (fun i => (i, ent_before tb0 i k)) sixteen_str.
Proof. destruct k; reflexivity. Qed.

(** An entry that will write the watched register is printed at the cycles at which it gets
    valid with that destination, or gets that destination, and only then. *)
Theorem mshr_hits STOP tb0 c i v d r bm bv a : 0 <= STOP < 2 ^ 63 ->
  In (MshrHit c i v d r bm bv a) (mshr_prfdest_main STOP tb0) <->
  exists k, c = Z.of_nat k /\ (1 <= k <= Z.to_nat STOP)%nat /\ In i sixteen_str /\ d = WATCH /\ v <> 0 /\
    ent_view i (after tb0 k) = (v, d) /\ ent_before tb0 i (k - 1) <> (v, d) /\ (r, bm, bv, a) = (ent_rob i (after tb0 k), ent_bmask i (after tb0 k), ent_bvalid i (after tb0 k), ent_addr i (after tb0 k)).
Proof.
  intros HS. unfold mshr_prfdest_main. rewrite diff_log by exact HS. rewrite in_flat_map. unfold mshr_events. split.
  - intros (k & Hk & Hin). apply in_seq in Hk. apply in_app_iff in Hin as [Hin|Hin]; [|destruct (_ && _); [destruct Hin as [E|[]]; discriminate|destruct Hin]].
    rewrite mshr_before in Hin. apply in_flat_map in Hin as ([j prev] & Hj & Hin). apply in_map_iff in Hj as (j' & E & Hj). injection E as -> <-.
    unfold mshr_hit in Hin. cbv zeta in Hin. destruct (_ && _) eqn:Eb; [|destruct Hin]. destruct Hin as [E|[]]. injection E as <- <- <- <- <- <- <- <-.
    apply andb_true_iff in Eb as [Eb Ec]. apply andb_true_iff in Eb as [Ed Ev]. apply negb_true_iff, bool_decide_eq_false in Ec. apply negb_true_iff, Z.eqb_neq in Ev. apply Z.eqb_eq in Ed.
    exists k. split; [reflexivity|]. split; [lia|]. split; [exact Hj|]. split; [exact Ed|]. split; [exact Ev|]. split; [reflexivity|]. split; [congruence|reflexivity].
  - intros (k & -> & Hk & Hi & -> & Hv & Ev & Hne & E). injection E as -> -> -> ->. exists k. split; [apply in_seq; lia|]. apply in_app_iff. left.
    rewrite mshr_before. apply in_flat_map. exists (i, ent_before tb0 i (k - 1)). split; [apply in_map_iff; exists i; auto|].
    unfold ent_view in Ev. injection Ev as E1 E2. unfold mshr_hit. cbv zeta. rewrite E1, E2, Z.eqb_refl. apply Z.eqb_neq in Hv. rewrite Hv. rewrite bool_decide_eq_false_2 by congruence. now left.
Qed.
End Mshr.
