(* ===== verification/Park.v ===== *)
(** * Probes of a parked hart: [div_park_probe.cpp] and [wedge_dump_probe.cpp]

    [div_park_probe] steps the driver of [rtl_model.h] from commit to commit and, every ten
    million cycles, shows the divider of the harts whose PC has not moved for a million
    cycles. It ends: at its bound or when no hart commits ([div_park_exact], with the steps
    at which it reports and the harts it reports). [wedge_dump_probe] prints the state of the
    coherence path at a stride that widens after a cycle ([wedge_snaps_exact]). *)

From Stdlib Require Import String Ascii.
From S2P Require Import Prelude Rtl Firesim Invariants Linuxsim Watch Tracer Branches Lines.

(** ** [div_park_probe.cpp] *)

Inductive park_row :=
| ParkStall (cyc : Z)
| ParkPcs (cyc : Z) (pcs : list Z)
| ParkedHart (h pc kcyc : Z) (nets : list Z)
| QueueEntry (e : Z) (nets : list Z).
(** A hart: [last_pc], [still]. *)
Record park `{Verilated} := mkpark { k_bench : simulator; k_harts : list (Z * Z); next_report : Z }.

Definition PARK_END : Z := 800000000.
Definition REPORT : Z := 10000000.

Section Divpark.
Context `{Model} `{!Netlist} (SHOW_TERMINAL : bool) (STEP_TIMEOUT : nat).

Definition m_nets (tb : Vsystem) (h : Z) : list Z :=
  map (fun f => CORE_RAW f tb h) ["mExtensionReady"; "division_request_valid"; "division_counter"; "extnMRequest_valid"; "extnMRequest_instruction"; "divDone"]%string.
(** [DUMP_Q3_ENTRY(e)] *)
Definition queue_nets (tb : Vsystem) (e : string) : list Z :=
  map (fun f => CORE_RAW ("scheduler__DOT__queue_" ++ e ++ "_" ++ f)%string tb 3)
    ["valid"; "instruction"; "opcodeMeta_isM"; "robAddr"; "rs1_ready"; "rs1_prfAddr"; "rs2_ready"; "rs2_prfAddr"; "prfDest"; "branchMask"]%string.
Definition queue3_rows (tb : Vsystem) : list park_row :=
  imap (fun e s => QueueEntry (Z.of_nat e) (queue_nets tb s)) ["0"; "1"; "2"; "3"; "4"; "5"; "6"; "7"]%string.

Definition park_hart (b : simulator) (cyc : Z) (h : nat) (s : Z * Z) : Z * Z :=
  if core_pc b (Z.of_nat h) =? fst s then s else (core_pc b (Z.of_nat h), cyc).
Definition parked_rows (tb : Vsystem) (cyc : Z) (h : nat) (s : Z * Z) : list park_row :=
  if 1000000 <? u64 (cyc - snd s) then
    ParkedHart (Z.of_nat h) (fst s) (u64 (cyc - snd s) / 1000) (m_nets tb (Z.of_nat h)) :: (if (h =? 3)%nat then queue3_rows tb else [])
  else [].
Definition park_report (b : simulator) (cyc : Z) (l : list (Z * Z)) : list park_row :=
  ParkPcs cyc (map (core_pc b) four) :: List.concat (imap (parked_rows (tb b) cyc) l).
Definition park_step (s : park) : list park_row * (bool * park) :=
  let '(rc, _, b) := step_until_commits_nodump SHOW_TERMINAL STEP_TIMEOUT (k_bench s) in
  let cyc := cycles b in
  if rc =? 1 then ([ParkStall cyc], (true, mkpark _ b (k_harts s) (next_report s))) else
  let l := imap (park_hart b cyc) (k_harts s) in
  if next_report s <=? cyc then (park_report b cyc l, (false, mkpark _ b l (u64 (next_report s + REPORT))))
  else ([], (false, mkpark _ b l (next_report s))).
(** [while (cyc < 800000000)], at most [n] steps; [None] when it still runs. *)
Fixpoint park_loop (n : nat) (cyc : Z) (s : park) : option park * list park_row :=
  if cyc <? PARK_END then
    match n with
    | O => (None, [])
    | S n => let '(rows, (stop, s)) := park_step s in
             if stop : bool then (Some s, rows) else let '(r, l) := park_loop n (cycles (k_bench s)) s in (r, rows ++ l)
    end
  else (Some s, []).
Definition park_start (b : simulator) : park := mkpark _ b [(0, 0); (0, 0); (0, 0); (0, 0)] REPORT.
Definition div_park_main (b : simulator) : option park * list park_row := park_loop (Z.to_nat PARK_END) 0 (park_start b).

(** *** Undumped steps *)

Lemma tx_port_dump b p : dump_tick (tx_port b p) = dump_tick b.
Proof. unfold tx_port, emit. destruct (_ && _); [destruct (tx_mirror _)|]; reflexivity. Qed.
Lemma advance_dump b : dump_tick (advance SHOW_TERMINAL false b) = dump_tick b.
Proof.
  unfold advance. set (c := { { b with tickcount := _ } with tb ::= tick_nodump }). change (dump_tick b) with (dump_tick c). clearbody c.
  destruct SHOW_TERMINAL; [|reflexivity]. unfold surface_tx. revert c. generalize harts4 as l. induction l as [|p l IH]; intros c; [reflexivity|].
  cbn [fold_left]. rewrite IH. apply tx_port_dump.
Qed.
Lemma scan_dump b : dump_tick (scan_commits b).2 = dump_tick b.
Proof.
  unfold scan_commits. generalize harts4 as l, 0 as m, false as irq. intros l. revert b.
  induction l as [|h l IH]; intros b m irq; [reflexivity|]. cbn [fold_left].
  unfold commit_port at 2. destruct (commit_fired b (Z.of_nat h)); rewrite IH; reflexivity.
Qed.
Lemma set_prev_dump m l b : dump_tick (set_prev m l b) = dump_tick b.
Proof. induction l as [|h l IH]; [reflexivity|]. cbn [set_prev]. destruct (_ =? 0); [exact IH|reflexivity]. Qed.
Lemma until_dump n : forall b, dump_tick (until_commits SHOW_TERMINAL n false b).2 = dump_tick b.
Proof.
  induction n as [|n IH]; intros b; cbn [until_commits]; [reflexivity|]. pose proof (scan_dump (advance SHOW_TERMINAL false b)) as E. rewrite advance_dump in E.
  destruct (scan_commits _) as [[m irq] b1]. cbn [snd] in E. destruct (m =? 0); [rewrite IH; exact E|]. cbn [snd]. rewrite set_prev_dump. exact E.
Qed.

(** The driver after [j] steps. *)
Context (b0 : simulator).
Definition step_of (b : simulator) : Z * simulator := step_any_nodump SHOW_TERMINAL STEP_TIMEOUT b.
Definition bench_at (j : nat) : simulator := Nat.iter j (fun b => (step_of b).2) b0.
Definition rc_at (j : nat) : Z := (step_of (bench_at (j - 1))).1.
Definition cyc_at (j : nat) : Z := cycles (bench_at j).
(** The PC of hart [h] as the probe has seen it, and the cycle of its last change. *)
Definition pc_seen (h j : nat) : Z := match j with O => 0 | S _ => core_pc (bench_at j) (Z.of_nat h) end.
Fixpoint still_since (h j : nat) : Z :=
  match j with O => 0 | S j' => if pc_seen h j =? pc_seen h j' then still_since h j' else cyc_at j end.
Definition harts_at (j : nat) : list (Z * Z) := map (fun h => (pc_seen h j, still_since h j)) harts4.
(** A report when the count of cycles passes a multiple of [REPORT]. *)
Definition report_at (j : nat) : list park_row :=
  if cyc_at (j - 1) / REPORT =? cyc_at j / REPORT then [] else park_report (bench_at j) (cyc_at j) (harts_at j).

Lemma still_since_le h j : (forall i, (i < j)%nat -> cyc_at i <= cyc_at (S i)) -> 0 <= cyc_at 0 -> 0 <= still_since h j <= cyc_at j.
Proof.
  intros Hm H0'. induction j as [|j IH]; [cbn [still_since]; lia|]. specialize (IH ltac:(intros; apply Hm; lia)). specialize (Hm j ltac:(lia)).
  cbn [still_since]. destruct (_ =? _); lia.
Qed.
Lemma imap_harts j : imap (park_hart (bench_at (S j)) (cyc_at (S j))) (harts_at j) = harts_at (S j).
Proof.
  unfold harts_at, harts4. cbn [imap map fst snd]. unfold park_hart, compose. cbn [fst snd still_since].
  repeat match goal with |- _ :: _ = _ :: _ => f_equal end;
    match goal with |- context [core_pc (bench_at (S j)) (Z.of_nat ?h)] => change (core_pc (bench_at (S j)) (Z.of_nat h)) with (pc_seen h (S j)); destruct (Z.eqb_spec (pc_seen h (S j)) (pc_seen h j)) as [E|E] end;
    congruence.
Qed.

Definition next_at (j : nat) : Z := REPORT * (1 + cyc_at j / REPORT).
Definition park_at (j : nat) : park := mkpark _ (bench_at j) (harts_at j) (next_at j).
Definition clocked (j : nat) : Prop := dump_tick (bench_at j) = 0 /\ 0 <= tickcount (bench_at j) /\ tickcount (bench_at j) = cyc_at j.

Context (Hdump : dump_tick b0 = 0) (Htick : 0 <= tickcount b0 < REPORT) (Htimeout : Z.of_nat STEP_TIMEOUT <= REPORT).

Lemma clocked_0 : clocked 0.
Proof.
  split; [exact Hdump|]. split; [apply Htick|]. change (cyc_at 0) with (u64 (tickcount b0 + dump_tick b0)). rewrite Hdump, Z.add_0_r.
  change (bench_at 0) with b0. unfold REPORT in Htick. symmetry. apply u64_id. unfold is_u64. lia.
Qed.
Lemma clock_step j : clocked j -> cyc_at j < PARK_END ->
  clocked (S j) /\ cyc_at j <= cyc_at (S j) <= cyc_at j + REPORT /\ (rc_at (S j) <> 1 -> cyc_at j < cyc_at (S j)).
Proof.
  unfold PARK_END, REPORT in *. intros (Hd & H0' & Hc) Hlt. pose proof (step_ticks SHOW_TERMINAL STEP_TIMEOUT (bench_at j) H0' ltac:(lia)) as Ht.
  unfold clocked, rc_at. replace (S j - 1)%nat with j by lia. assert (Eb : bench_at (S j) = (step_of (bench_at j)).2) by reflexivity.
  assert (Ed : dump_tick (bench_at (S j)) = 0).
  { rewrite Eb, <- Hd, <- (until_dump STEP_TIMEOUT (bench_at j)). unfold step_of, step_any_nodump, step_any, step_until_commits. destruct (until_commits _ _ _ _) as [[rc m] b]. reflexivity. }
  assert (Ec : cyc_at (S j) = u64 (tickcount (bench_at (S j)))) by (unfold cyc_at, cycles; rewrite Ed, Z.add_0_r; reflexivity).
  rewrite Ed, Ec, Eb. change (step_any_nodump SHOW_TERMINAL STEP_TIMEOUT (bench_at j)) with (step_of (bench_at j)) in Ht. destruct (step_of (bench_at j)) as [rc b].
  cbn [fst snd]. rewrite u64_id by (unfold is_u64; lia). lia.
Qed.

Lemma next_due j : cyc_at j <= cyc_at (S j) <= cyc_at j + REPORT -> 0 <= cyc_at j ->
  (next_at j <=? cyc_at (S j)) = negb (cyc_at j / REPORT =? cyc_at (S j) / REPORT) /\
  next_at (S j) = if next_at j <=? cyc_at (S j) then next_at j + REPORT else next_at j.
Proof.
  unfold next_at. generalize (cyc_at j) as x, (cyc_at (S j)) as y. unfold REPORT. intros x y Hy Hx.
  pose proof (Z.div_mod x 10000000 ltac:(lia)) as Ex. pose proof (Z.mod_pos_bound x 10000000 ltac:(lia)).
  pose proof (Z.div_mod y 10000000 ltac:(lia)) as Ey. pose proof (Z.mod_pos_bound y 10000000 ltac:(lia)).
  destruct (Z.leb_spec (10000000 * (1 + x / 10000000)) y) as [Hl|Hl]; destruct (Z.eqb_spec (x / 10000000) (y / 10000000)) as [E|E]; cbn [negb]; split; lia.
Qed.

Lemma park_step_at j : clocked j -> cyc_at j < PARK_END ->
  park_step (park_at j) = if rc_at (S j) =? 1 then ([ParkStall (cyc_at (S j))], (true, mkpark _ (bench_at (S j)) (harts_at j) (next_at j)))
                          else (report_at (S j), (false, park_at (S j))).
Proof.
  intros Hc Hlt. destruct (clock_step j Hc Hlt) as (_ & Hle & _). destruct (next_due j Hle ltac:(destruct Hc as (_ & ? & ?); lia)) as [En Enx].
  unfold park_step, park_at, rc_at. cbn [k_bench k_harts next_report]. replace (S j - 1)%nat with j by lia. unfold step_until_commits_nodump.
  assert (Es : step_of (bench_at j) = let '(rc, _, b) := step_until_commits SHOW_TERMINAL STEP_TIMEOUT false (bench_at j) in (rc, b)) by reflexivity.
  assert (Eb : bench_at (S j) = (step_of (bench_at j)).2) by reflexivity. destruct (step_until_commits _ _ _ _) as [[rc m] b]. rewrite Es in *. cbn [fst snd] in *. subst b.
  change (cycles (bench_at (S j))) with (cyc_at (S j)). cbv zeta. destruct (rc =? 1); [reflexivity|]. rewrite imap_harts.
  unfold report_at. replace (S j - 1)%nat with j by lia. rewrite Enx, En. destruct (Z.eqb_spec (cyc_at j / REPORT) (cyc_at (S j) / REPORT)) as [E|E]; cbn [negb]; [reflexivity|].
  rewrite u64_id; [reflexivity|]. unfold is_u64, next_at, PARK_END, REPORT in *. destruct Hc as (_ & Hp & Hq). pose proof (Z.div_le_upper_bound (cyc_at j) 10000000 80 ltac:(lia) ltac:(lia)).
  pose proof (Z.div_pos (cyc_at j) 10000000 ltac:(lia) ltac:(lia)). lia.
Qed.

(** The end of the run: the bound, or the first step in which no hart commits. *)
Definition park_end (k : nat) (s : park) (tail : list park_row) : Prop :=
  (PARK_END <= cyc_at k /\ tail = [] /\ s = park_at k) \/
  (cyc_at k < PARK_END /\ rc_at (S k) = 1 /\ tail = [ParkStall (cyc_at (S k))] /\ k_bench s = bench_at (S k)).
Lemma park_loop_ran n : forall j, clocked j -> PARK_END - cyc_at j <= Z.of_nat n ->
  exists d s tail, park_loop n (cyc_at j) (park_at j) = (Some s, flat_map report_at (seq (S j) d) ++ tail) /\ park_end (j + d) s tail /\ (d <= n)%nat /\
    (forall i, (j <= i < j + d)%nat -> rc_at (S i) <> 1 /\ cyc_at i < PARK_END /\ cyc_at i < cyc_at (S i)).
Proof.
  induction n as [|n IH]; intros j Hc Hn; cbn [park_loop]; destruct (Z.ltb_spec (cyc_at j) PARK_END) as [Hlt|Hge]; try lia;
    try (exists 0%nat, (park_at j), []; rewrite Nat.add_0_r; split; [reflexivity|]; split; [left; auto|]; split; [lia|intros; lia]).
  rewrite (park_step_at j Hc Hlt). destruct (clock_step j Hc Hlt) as (Hc' & Hle & Hgt). destruct (Z.eqb_spec (rc_at (S j)) 1) as [E|E].
  - exists 0%nat. rewrite Nat.add_0_r. eexists _, _. split; [reflexivity|]. split; [right; auto|]. split; [lia|intros; lia].
  - specialize (Hgt E). destruct (IH (S j) Hc' ltac:(lia)) as (d & s & tail & El & He & Hd & Hi). change (cycles (k_bench (park_at (S j)))) with (cyc_at (S j)). rewrite El.
    exists (S d), s, tail. cbn [seq flat_map]. rewrite <- app_assoc. split; [reflexivity|]. rewrite Nat.add_succ_r. split; [exact He|]. split; [lia|].
    intros i Hr. destruct (Nat.eq_dec i j) as [->|]; [auto|apply Hi; lia].
Qed.

(** The probe ends, at the cycle bound or with the first step in which no hart commits. What
    it prints until then are the reports of the steps at which the cycle count passes a
    multiple of [REPORT]. *)
Theorem div_park_exact :
  exists k s tail, div_park_main b0 = (Some s, flat_map report_at (seq 1 k) ++ tail) /\ park_end k s tail /\ (k <= Z.to_nat PARK_END)%nat /\
    (forall j, (j < k)%nat -> rc_at (S j) <> 1 /\ cyc_at j < PARK_END /\ cyc_at j < cyc_at (S j)).
Proof.
  assert (E : park_start b0 = park_at 0).
  { unfold park_start, park_at, next_at, harts_at, harts4. cbn [map pc_seen still_since]. destruct clocked_0 as (_ & Hp & Hq). f_equal. rewrite <- Hq. change (tickcount (bench_at 0)) with (tickcount b0).
    rewrite Z.div_small by lia. reflexivity. }
  unfold div_park_main. rewrite E. destruct clocked_0 as (_ & Hp & Hq).
  assert (E0 : forall n s, 0 < n -> park_loop (Z.to_nat n) 0 s = park_loop (Z.to_nat n) (cyc_at 0) s).
  { intros n s Hn. destruct (Z.to_nat n) eqn:En; [lia|]. cbn [park_loop]. rewrite <- Hq. change (tickcount (bench_at 0)) with (tickcount b0).
    destruct (Z.ltb_spec 0 PARK_END); [|unfold PARK_END in *; lia]. destruct (Z.ltb_spec (tickcount b0) PARK_END); [reflexivity|unfold PARK_END, REPORT in *; lia]. }
  rewrite E0 by (unfold PARK_END; lia). destruct (park_loop_ran (Z.to_nat PARK_END) 0 clocked_0 ltac:(unfold PARK_END in *; lia)) as (d & s & tail & El & He & Hd & Hi).
  exists d, s, tail. split; [exact El|]. split; [exact He|]. split; [exact Hd|]. intros j Hj. apply Hi. lia.
Qed.
End Divpark.

(** ** [wedge_dump_probe.cpp] *)

Section Stride.
Context `{Model} {E : Type} (progress snap : Vsystem -> Z -> E) (FROM DENSE STEP_DENSE STEP_COARSE : Z).

(** Progress every ten million cycles;
    [if (cyc < next_snap) continue; next_snap += (cyc < SNAP_DENSE) ? STEP_DENSE : STEP_COARSE] *)
Definition stride (cyc : Z) : Z := if cyc <? DENSE then STEP_DENSE else STEP_COARSE.
Definition progress_of (tb : Vsystem) (cyc : Z) : list E := if cyc mod 10000000 =? 0 then [progress tb cyc] else [].
Definition wedge_step (pre tb : Vsystem) (cyc next : Z) : list E * Z :=
  if cyc <? next then (progress_of tb cyc, next)
  else (progress_of tb cyc ++ [snap tb cyc], u64 (next + stride cyc)).
Definition wedge_main (END : Z) (tb : Vsystem) : list E := snd (trace_run (upto END) wedge_step (looks END 0) tb 0 FROM).

(** The first snapshot that is followed at the coarse stride, and the cycles of the snapshots. *)
Definition turn : Z := if FROM <? DENSE then FROM + STEP_DENSE * ((DENSE - FROM + STEP_DENSE - 1) / STEP_DENSE) else FROM.
Definition snap_due (c : Z) : bool :=
  (FROM <=? c) && (if c <=? turn then (c - FROM) mod STEP_DENSE =? 0 else (c - turn) mod STEP_COARSE =? 0).

Context (HD : 1 <= STEP_DENSE < 2 ^ 61) (HC : 1 <= STEP_COARSE < 2 ^ 61) (HF : 1 <= FROM < 2 ^ 61).

Lemma mod_between a m s i : 0 < s -> a + s * m < i < a + s * m + s -> (i - a) mod s =? 0 = false.
Proof.
  intros Hs Hi. apply Z.eqb_neq. intros Hm. apply Z.mod_divide in Hm as [q Hq]; [|lia].
  clear HD HC HF. assert (m < q) by nia. assert (q < m + 1) by nia. lia.
Qed.
Lemma mod_at a m s : 0 < s -> (a + s * m - a) mod s =? 0 = true.
Proof. intros Hs. replace (a + s * m - a) with (m * s) by lia. rewrite Z.mod_mul by lia. reflexivity. Qed.
Lemma turn_spec : FROM <= turn /\ (FROM < DENSE -> DENSE <= turn < DENSE + STEP_DENSE) /\ (DENSE <= FROM -> turn = FROM) /\ (turn - FROM) mod STEP_DENSE = 0.
Proof.
  unfold turn. destruct (Z.ltb_spec FROM DENSE) as [Hl|Hl].
  - set (q := (DENSE - FROM + STEP_DENSE - 1) / STEP_DENSE). pose proof (Z.div_mod (DENSE - FROM + STEP_DENSE - 1) STEP_DENSE ltac:(lia)) as Eq. fold q in Eq.
    pose proof (Z.mod_pos_bound (DENSE - FROM + STEP_DENSE - 1) STEP_DENSE ltac:(lia)). split; [nia|]. split; [lia|]. split; [lia|].
    apply Z.eqb_eq, mod_at. lia.
  - rewrite Z.sub_diag, Z.mod_0_l by lia. lia.
Qed.
(** After a snapshot the next one is a stride away. *)
Lemma due_next c : snap_due c = true -> snap_due (c + stride c) = true /\ forall i, c < i < c + stride c -> snap_due i = false.
Proof.
  destruct turn_spec as (Hf & Hd & He & Ht). unfold snap_due, stride. intros Hc. apply andb_prop in Hc as [Hc1 Hc2]. apply Z.leb_le in Hc1.
  destruct (Z.leb_spec c turn) as [Hct|Hct].
  - apply Z.eqb_eq, Z.mod_divide in Hc2 as [q Hq]; [|lia]. apply Z.mod_divide in Ht as [t Ht]; [|lia]. destruct (Z.ltb_spec c DENSE) as [Hcd|Hcd].
    + assert (Hlt : c < turn) by (destruct (Z.lt_ge_cases FROM DENSE) as [Hl|Hl]; [specialize (Hd Hl)|]; lia). assert (q < t) by nia. assert (c + STEP_DENSE <= turn) by nia.
      rewrite (proj2 (Z.leb_le FROM (c + STEP_DENSE))) by lia. rewrite (proj2 (Z.leb_le (c + STEP_DENSE) turn)) by lia. cbn [andb]. split.
      * replace (c + STEP_DENSE) with (FROM + STEP_DENSE * (q + 1)) by lia. apply mod_at. lia.
      * intros i Hi. rewrite (proj2 (Z.leb_le i turn)) by lia. rewrite (mod_between FROM q STEP_DENSE i) by lia. apply andb_false_r.
    + assert (Ec : c = turn) by (destruct (Z.lt_ge_cases FROM DENSE) as [Hl|Hl]; [specialize (Hd Hl); assert (t <= q) by nia; nia|specialize (He Hl); lia]).
      rewrite (proj2 (Z.leb_le FROM (c + STEP_COARSE))) by lia. rewrite (proj2 (Z.leb_gt (c + STEP_COARSE) turn)) by lia. cbn [andb]. split.
      * replace (c + STEP_COARSE) with (turn + STEP_COARSE * 1) by lia. apply mod_at. lia.
      * intros i Hi. rewrite (proj2 (Z.leb_gt i turn)) by lia. rewrite (mod_between turn 0 STEP_COARSE i) by lia. apply andb_false_r.
  - apply Z.eqb_eq, Z.mod_divide in Hc2 as [q Hq]; [|lia].
    assert (Hge : DENSE <= c) by (destruct (Z.lt_ge_cases FROM DENSE) as [Hl|Hl]; [specialize (Hd Hl)|]; lia). rewrite (proj2 (Z.ltb_ge c DENSE)) by lia.
    rewrite (proj2 (Z.leb_le FROM (c + STEP_COARSE))) by lia. rewrite (proj2 (Z.leb_gt (c + STEP_COARSE) turn)) by lia. cbn [andb]. split.
    + replace (c + STEP_COARSE) with (turn + STEP_COARSE * (q + 1)) by lia. apply mod_at. lia.
    + intros i Hi. rewrite (proj2 (Z.leb_gt i turn)) by lia. rewrite (mod_between turn q STEP_COARSE i) by lia. apply andb_false_r.
Qed.
Lemma due_first : snap_due FROM = true /\ forall i, i < FROM -> snap_due i = false.
Proof.
  destruct turn_spec as (Hf & _). unfold snap_due. rewrite Z.leb_refl, (proj2 (Z.leb_le FROM turn)) by lia. rewrite Z.sub_diag, Z.mod_0_l by lia. split; [reflexivity|].
  intros i Hi. rewrite (proj2 (Z.leb_gt FROM i)) by lia. reflexivity.
Qed.

Definition wedge_rows (tb0 : Vsystem) (k : nat) : list E :=
  progress_of (after tb0 k) (Z.of_nat k) ++ (if snap_due (Z.of_nat k) then [snap (after tb0 k) (Z.of_nat k)] else []).
(** The snapshots are those of the cycles of [snap_due]: [STEP_DENSE] apart from [FROM] to the
    first one at [DENSE] or later, [STEP_COARSE] apart from there. *)
Theorem wedge_snaps_exact END tb0 : 0 <= END < 2 ^ 61 -> wedge_main END tb0 = flat_map (wedge_rows tb0) (seq 1 (Z.to_nat END)).
Proof.
  intros HE. unfold wedge_main.
  pose proof (trace_upto wedge_step (fun k next l => l = flat_map (wedge_rows tb0) (seq 1 k) /\ Z.of_nat k < next < 2 ^ 62 + Z.of_nat k /\ snap_due next = true /\
    forall i, Z.of_nat k < i < next -> snap_due i = false) END tb0 FROM) as R.
  change (2 ^ 61) with 2305843009213693952 in *. change (2 ^ 62) with 4611686018427387904 in *. change (2 ^ 63) with 9223372036854775808 in R. specialize (R ltac:(lia)).
  destruct due_first as [Df1 Df2]. match type of R with (?A -> _) => assert (HA : A) by (split; [reflexivity|]; split; [lia|]; split; [exact Df1|intros; apply Df2; lia]) end. specialize (R HA). clear HA.
  match type of R with (?A -> _) => assert (HA : A) end.
  { intros j next l Hj (-> & Hlt & Hdue & Hno). rewrite seq_S, flat_map_app. cbn [flat_map Nat.add]. rewrite app_nil_r. unfold wedge_step.
    assert (Er : wedge_rows tb0 (S j) = progress_of (after tb0 (S j)) (Z.of_nat (S j)) ++ (if snap_due (Z.of_nat (S j)) then [snap (after tb0 (S j)) (Z.of_nat (S j))] else [])) by reflexivity.
    destruct (Z.ltb_spec (Z.of_nat (S j)) next) as [Hl|Hl].
    - rewrite Hno in Er by lia. rewrite app_nil_r in Er. split; [rewrite Er; reflexivity|]. split; [lia|]. split; [exact Hdue|intros; apply Hno; lia].
    - assert (En : Z.of_nat (S j) = next) by lia. rewrite <- En in *. rewrite Hdue in Er. split; [rewrite Er; reflexivity|].
      destruct (due_next _ Hdue) as [Hn1 Hn2]. assert (1 <= stride (Z.of_nat (S j)) < 2305843009213693952) by (unfold stride; destruct (_ <? _); lia).
      rewrite u64_id by (unfold is_u64; lia). split; [lia|]. split; [exact Hn1|exact Hn2]. }
  specialize (R HA). destruct (trace_run _ _ _ _ _ _) as [[[tb' cyc'] s'] log]. exact (proj1 (proj2 R)).
Qed.
End Stride.

Section Wedgedump.
Context `{Model} `{!Netlist}.

Definition ICN (sig : string) (tb : Vsystem) : Z := PERIPH ("interconnect___DOT__" ++ sig)%string tb.
Definition LLC (sig : string) (tb : Vsystem) : Z := PERIPH ("LLC__DOT__" ++ sig)%string tb.
(** [DUMP_CORE(n)]: the coherency unit and the scheduler, the arbiter and the replay unit,
    the ROB and the interrupt state. *)
Definition CORE_SIG (n : Z) (sig : string) (tb : Vsystem) : Z := CORE_RAW ("memAccess__DOT__" ++ sig)%string tb n.
Definition ace_nets (tb : Vsystem) (n : Z) : list Z :=
  map (fun f => CORE_SIG n f tb) ["aceUnit__DOT__coherentAXIState"; "aceUnit__DOT__readACERequestState"; "aceUnit__DOT__readACEResponseState"; "aceUnit__DOT__writeACEState";
    "aceUnit__DOT__coherencyRequestBuffer_valid"; "aceUnit__DOT__coherencyRequestBuffer_address"; "aceUnit__DOT__coherencyRequestBuffer_response";
    "aceUnit__DOT__coherencyResponseBuffer_valid"; "aceUnit__DOT__coherencyResponseBuffer_dataValid"; "aceUnit__DOT__readBuffer_valid"; "aceUnit__DOT__readBuffer_address";
    "fenceState"; "subModulesReady"; "cacheLookup_request_ready"; "requestScheduler_requestOut_valid"; "requestScheduler_requestOut_address"]%string.
Definition arb_nets (tb : Vsystem) (n : Z) : list Z :=
  map (fun f => CORE_SIG n f tb) ["arbiter__DOT__atomicBusyState"; "arbiter__DOT__operationState"; "arbiter__DOT__inorderBuffer_valid"; "arbiter__DOT__inorderBuffer_writeData_valid";
    "arbiter__DOT__inorderBuffer_core_instruction"; "arbiter__DOT__inorderBuffer_address"; "arbiter__DOT__operationBuffer_valid"; "arbiter__DOT__operationBuffer_core_instruction";
    "arbiter__DOT__operationBuffer_address"; "cacheLookup_request_inorderPending"; "cacheLookup_request_holdInOrder"; "replayUnit__DOT__requestWaitFIFO__DOT__emptyReg";
    "replayUnit__DOT__writeBackFIFO__DOT__emptyReg"; "replayUnit__DOT__requestWaitFIFO__DOT__memReg_0_valid"; "replayUnit__DOT__requestWaitFIFO__DOT__memReg_0_core_instruction";
    "replayUnit__DOT__requestWaitFIFO__DOT__memReg_0_address"]%string.
Definition rob_nets (tb : Vsystem) (n : Z) : list Z :=
  map (fun f => CORE_RAW f tb n) ["rob__DOT__fifo__DOT__readPtr"; "rob__DOT__fifo__DOT__writePtr"; "rob__DOT__fifo__DOT__emptyReg"; "rob__DOT__fifo__DOT__fullReg"; "rob_commit_ready";
    "rob_commit_fired"; "memAccess_writeCommit_fired"; "memAccess_writeInstructionCommit_ready"; "memAccess_writeInstructionCommit_fired";
    "memAccess__DOT__cacheLookup__DOT__writeCommitInstructionBuffer"; "decode_canTakeInterrupt"; "decode_canTakeSoftInterrupt"; "injectingSoftwareInterrupt"; "interruptInjectStatus";
    "decode__DOT__mip"; "decode__DOT__mie"; "decode__DOT__mstatus"; "decode__DOT__mepc"]%string.
Definition core_dump (tb : Vsystem) (n : Z) : list Z * list Z * list Z := (ace_nets tb n, arb_nets tb n, rob_nets tb n).
Definition ccu_nets (tb : Vsystem) : list Z :=
  ccu_states tb ++ map (fun f => CCU f tb) ["addr_pbuf_1"; "tran_pbuf_1"; "core_id_pbuf_1"; "addr_pbuf_2"; "tran_pbuf_2"; "core_id_pbuf_2"; "addr_pbuf_3"; "tran_pbuf_3"; "core_id_pbuf_3";
    "select_buff"; "crpbuf_2_0"; "crpbuf_2_2"; "crpbuf_2_4"; "crpbuf_2_6"; "crpbuf_3_0"; "crpbuf_3_2"; "crpbuf_3_4"; "crpbuf_3_6"; "write_back"]%string.
Definition ring_nets (tb : Vsystem) : list Z :=
  map (fun f => ICN f tb) ["FIFO__DOT__readPtr"; "FIFO__DOT__writePtr"; "FIFO__DOT__emptyReg"; "FIFO__DOT__fullReg"; "Arbiter__DOT__stateReg"]%string.
Definition l2_nets (tb : Vsystem) : list Z :=
  map (fun f => LLC f tb) ["l2_front_Rob__DOT__inputBufferState"; "l2_front_Rob__DOT__outputBufferState"; "l2_front_Rob__DOT__axi_RDATA_counter"; "l2_front_Rob__DOT__axi_WDATA_counter";
    "MSHR__DOT__state"; "MSHR__DOT__enq_fifo__DOT__readPtr"; "MSHR__DOT__enq_fifo__DOT__writePtr"; "MSHR_io_axi_ARVALID"; "MSHR_io_axi_RREADY"; "MSHR_io_Mem_read_in_repl_hit";
    "MSHR_io_Mem_read_out_ready"; "writeBackBuffer__DOT__state"; "writeBackBuffer__DOT__fifo__DOT__readPtr"; "writeBackBuffer__DOT__fifo__DOT__writePtr"; "writeBackBuffer_io_axi_AWVALID";
    "writeBackBuffer_io_axi_WVALID"; "cache_io_cache_in_ready"; "cache_io_cache_in_fired"; "cache_io_cache_miss_out_ready"; "cache_io_cache_miss_out_fired";
    "cache_io_cache_miss_out_Mem_addr"; "cache_io_cache_hit_out_ready"; "cache_io_cache_hit_out_fired"; "count"; "replace_count"; "replace_full"]%string.

Inductive wedge_event :=
| WedgeProgress (cyc : Z) (pcs : list Z)
| WedgeSnap (cyc : Z) (pcs ccu ring : list Z) (cores : list (list Z * list Z * list Z)) (l2 : list Z).
Definition wedge_progress (tb : Vsystem) (cyc : Z) : wedge_event := WedgeProgress cyc (pcs4 tb).
Definition wedge_snap (tb : Vsystem) (cyc : Z) : wedge_event := WedgeSnap cyc (pcs4 tb) (ccu_nets tb) (ring_nets tb) (map (core_dump tb) four) (l2_nets tb).
(** [SNAP_FROM], [SNAP_DENSE] and [SNAP_END] from the environment, with their defaults. *)
Definition wedge_dump_main (from dense end_ : option Z) (tb : Vsystem) : list wedge_event :=
  let SNAP_FROM := default 65600000 from in
  let SNAP_DENSE := default 66000000 dense in
  let SNAP_END := default (u64 (SNAP_DENSE + 1)) end_ in
  wedge_main wedge_progress wedge_snap SNAP_FROM SNAP_DENSE 100000 1000000 SNAP_END tb.
End Wedgedump.

(** With the defaults there are five snapshots, all at the dense stride. *)
Example default_snapshots : List.filter (snap_due 65600000 66000000 100000 1000000) (map (fun i => 65500000 + 50000 * Z.of_nat i) (seq 0 11)) =
  [65600000; 65700000; 65800000; 65900000; 66000000].
Proof. vm_compute. reflexivity. Qed.
